(* ===== verification/_CoqProject ===== *)
-Q . S2P
Prelude.v
StreamSocket.v
TlsSession.v
TlsInvariants.v
TlsKtls.v
TlsLaws.v
TlsToy.v
TlsWrite.v
PgSend.v
TlsLock.v
TlsWorker.v
TlsHandoff.v
Slots.v
FileSig.v
Inet.v
Net.v
TlsConfig.v
WireBytes.v
H2Frame.v
StreamTable.v
Huffman.v
Hpack.v
H2Conn.v
H2Store.v
H2Trace.v
H2Inv.v
H2Send.v
H2Recv.v
H2Consume.v
WebSocket.v
Sha1.v
Vcam.v
Bench.v
HttpScan.v
HttpField.v
HttpChunk.v
HttpFrame.v
HttpRequest.v
HttpSizing.v
HttpQuery.v
H2Request.v
H2Props.v
ClientCodec.v
ClientFramer.v
ClientResponse.v
ClientBody.v
ClientRequest.v
ClientOneShot.v
PgWire.v
PgTypes.v
PgProtocol.v
PgQuery.v
PgPipeline.v
PgPool.v
Ipc.v
Examples.v
