(* ===== verification/Prelude.v ===== *)
(** * A verification of vanilla's native core

    vanilla is an HTTP server library written in V over a layer of C: a TLS
    adapter on Mbed TLS (tls/vanilla_tls.c), and header shims for the socket,
    file, resolver, signal and per-thread hand-off work the V code leaves to C.
    This development models that layer, the PostgreSQL client's protocol, values and
    query pipeline (pg_async) and its use of the TLS adapter, the HTTP/1.1 request parser
    and client codec, HTTP/2 (frames, HPACK, the stream table and the connection), the
    WebSocket codec and handshake, and the C programs of the examples and benchmarks, as executable definitions, and
    proves what the rest of the program relies on.

    ** How the parts fit together

    A worker waits for edges of its sockets. On each readable edge of a TLS
    connection it calls [vtls_mark_readable], then [vtls_handshake] or
    [vtls_read], which call Mbed TLS, which calls back [vtls_bio_recv] and
    [vtls_bio_send] on the socket. After the handshake the server offers the
    connection to the kernel ([vtls_enable_ktls]). pg_async is a client of the
    same adapter: queries are appended to a send buffer and flushed through
    [vtls_write], while results are read through [vtls_read]. Several queries are under way
    on one connection: the replies come back as one stream of messages, which is cut at
    each ReadyForQuery and given to the queries in the order they were sent, and rows are
    decoded where they lie in the reply. Handlers pass a
    file, a buffer or a connection takeover to their worker through a per-thread
    slot. Static files are served from a cache that compares file signatures.
    A read loop collects the bytes of an HTTP/1.1 connection and asks the framer where
    the request at the front of its buffer ends; the bytes it delimits are decoded into
    views of the request line, header section and body, which the handler looks into. A
    disagreement between the two readings is how requests are smuggled.
    Towards its upstreams the program is an HTTP/1.1 client: a request is written into a
    buffer, and the response is framed as it arrives, or in one pass when it is buffered
    whole, and its body is read where it lies.
    A connection that speaks HTTP/2 is parsed frame by frame; each header block goes
    through the connection's HPACK decoder, whose table both ends keep in step, and the
    open streams are found by id in a fixed table. The connection hands out complete
    requests and sends responses as far as the peer's windows allow, the rest when they
    open. A WebSocket handshake answers the
    client's key with its hash; after it, the connection's buffer is cut into frames,
    whose masked payloads are unmasked in place.

    ** The files

    - Prelude: bytes, record update, state passing [prog], C string helpers, and
      the rules for relating the states a program goes through ([steps_in],
      [triple]).
    - StreamSocket: a stream socket: its receive queue, edge, end of stream,
      arrivals, interrupted calls, partial sends, socket options, and a log of
      what happened on it.
    - TlsSession: [vtls_session] of tls/vanilla_tls.c and its operations
      ([vtls_recv], [ra_fill], [vtls_bio_recv], [vtls_bio_send], [vtls_handshake],
      [vtls_read], [vtls_write], [vtls_session_free], [vtls_session_reset],
      [client_rearm]). Mbed TLS is the class [MbedTLS]: each call is a finite tree
      of callbacks ending in a return value.
    - TlsInvariants: the invariant of a session and that every operation keeps it.
    - TlsKtls: [hkdf_expand_label], [fill_crypto_info], [enable_ktls],
      [vtls_ktls_abort], the one-time log flags; PSA is the class [PSA].
    - TlsLaws: what Mbed TLS documents of its output (a record is kept until it
      is sent, a retry with the same arguments only flushes it).
    - TlsToy: a small library that satisfies those laws, for the examples.
    - TlsWrite: the specification of [vtls_write] under the laws.
    - PgSend: [append_send], [async_flush], [fill_recv_buf], [tls_send], [tls_recv]
      of pg_async/conn_async.v and pg_async/transport.v, over TLS.
    - TlsLock: the process-wide lock around the library.
    - TlsWorker: the states a worker can bring a session to, and the properties
      of the read path.
    - TlsHandoff: the properties of the kTLS handoff.
    - Slots: core/sendfile_slot.h, core/queued_buf_slot.h, core/takeover_slot.h,
      as instances of the class [HandoffSlot].
    - FileSig: static_assets/file_sig.h and core/regular_file_nix.h.
    - Inet: [inet_pton], and [transport_ip_addr] of transport/transport_shim.h.
    - Net: the rest of transport/transport_shim.h, http1_1/upstream/upstream_shim.h,
      [pg_async_wait], and server/sigpipe_shim.h, over a table of descriptors.
    - TlsConfig: [vtls_ctx] and the functions that write it, the certificate
      callbacks, the sessions a context makes, and the error texts; the calls of
      Mbed TLS and PSA used there are the class [MbedConf].
    - WireBytes: big-endian integers and the shift-and-or idioms of the codecs.
    - H2Frame: http2/frame.v and http2/types.v.
    - StreamTable: http2/streams.v, generic in the stream state.
    - Huffman: the code tables and [huffman_decode] of http2/hpack.v.
    - Hpack: the rest of http2/hpack.v; the decoder as a state and error monad [hp],
      and RFC 7541 as a grammar of representations ([block_enc]) and a machine ([run]).
    - H2Conn: http2/conn.v: [consume], the handler of every frame, and the calls that write
      a response, in a state monad [cm] over a class [StreamStore] of open streams; and the
      pooled streams of the code ([Pool]), whose memory is explicit.
    - H2Store: what a [StreamStore] promises ([StoreLaws]: it is a finite map), and that the
      pool keeps it.
    - H2Trace: the frames and calls of a connection as events, a peer that keeps RFC 9113's
      windows ([peer_run]) and a reader of response bodies ([reader_run]).
    - H2Inv, H2Send, H2Recv: the invariant of a connection with its events, and that every
      call and every frame keeps it.
    - H2Consume: the states a connection can reach ([reach]), and [consume] over bursts.
    - H2Request: the request field lists of RFC 9113 ([request_fields]), with its characters
      ([rfc_chars]) and those the code checks ([lax_chars]).
    - H2Props: the theorems of the HTTP/2 connection.
    - WebSocket: the frames of websocket/websocket.v, and RFC 6455's frames
      ([encode_frame], [frame_wf]).
    - Sha1: the handshake of websocket/websocket.v, and FIPS 180-4's SHA-1.
    - Vcam: examples/video_stream/src/vcam.c and its capture loop, over a device that
      answers anything.
    - Bench: bench/micro.c and the event handling of bench/e2e.c.
    - HttpScan: views, [memchr] and byte loops over a buffer ([text] is what lies
      between two indices).
    - HttpField, HttpChunk, HttpFrame: the framer of
      http1_1/request_parser/request_parser.v: header fields and their lists, chunked
      bodies with extensions and trailers, [frame_request_length_lim]; the grammar of
      RFC 9112 as [request], [framing_of] and [chunked_body].
    - HttpRequest: [decode_into] and the lookups of the same file.
    - HttpSizing: its hints for the read loops, and Expect: 100-continue.
    - HttpQuery: its query parameters and percent decoding.
    - ClientCodec: http1_1/client/client.v, and what its scans read of a text.
    - ClientFramer: http1_1/client/framer.v, the resumable framer as a step ([feed_step])
      iterated by [feed]; its invariant and what a later read changes.
    - ClientResponse: the responses of RFC 9112 ([holds]) and that [feed] recognises them.
    - ClientBody: header lookups, [body_in_place] and [append_body] on a framed response.
    - ClientRequest: [write_request] against the server's framer and decoder.
    - ClientOneShot: [frame_response] against the resumable framer.
    - PgWire: outcomes with errors and crashes, byte and word access, for pg_async.
    - PgTypes: pg_async/types.v: the decoders of binary values; numbers and arrays as
      mathematical objects to decode to.
    - PgProtocol: pg_async/protocol.v: framing, rows, columns, errors, and the message
      builders, against messages ([msg]) and their encoding ([enc_msgs]).
    - PgQuery: the frames of queries and batches and their sizes (pg_async/conn_async.v,
      pg_async/shed.v), against a server's reader ([server_read]).
    - PgPipeline: the pipeline of pg_async/conn_async.v and pg_async/shed.v on a plain
      socket: [submit] and its variants, [async_flush], [async_on_readable], over sequences
      of calls and receives ([run]).
    - PgPool: pg_async/pool.v, pg_async/maintenance.v, [acquire_pipelined_for] of
      pg_async/shed.v and the states of pg_async/redial.v, over the connections of
      PgPipeline; the pool in use is the relation [pool_step].
    - Ipc: bench/ipcbench.c, its two processes as programs of calls, interleaved by [step].
    - Examples: [spawn_producer] of examples/async_incremental_read/producer.c over the
      descriptors of a process, and examples/async_fan_out/src/fan_out.h.

    ** What is shown

    - Reading (TlsWorker): no byte is lost, repeated or reordered between socket
      and library; "drained" is only said of a socket that is empty or has an edge
      pending; the read-ahead stays inside its array.
    - Writing (PgSend): over any interleaving of queueing, flushing and reading,
      each byte of a query is encrypted once and in order; a flush that reports
      success has sent everything; the loops end, while Mbed TLS meets no fatal error.
    - Locking (TlsLock): the lock is balanced over any sequence of calls; the library and
      PSA, accessors that only read a session aside, are entered with it held, but for the
      flush of an encrypted record; and a write does not send while it holds it, except to
      process a parked ticket.
    - kTLS (TlsWorker, TlsHandoff, TlsConfig): the kernel takes over at the exact
      byte, with the keys of RFC 8446 and sequence 0, from a configuration that
      sends no tickets; a half-converted socket is always marked.
    - Configuration (TlsConfig): full verification checks the host, a name or an
      address; the self-signed identity; ALPN names; kept PEM texts; error texts.
    - Slots, files, sockets: a hand-off never reaches the next request; signatures
      tell file versions apart; no descriptor leaks.
    - HTTP/1.1: the framer recognises exactly the requests of RFC 9112 within the
      server's limits, however they arrive, and waits only on a buffer whose complete lines
      and chunks can all stand; what a handler reads of a request is what
      the framer saw; sizing hints agree with the final answer; query parameters arrive
      as sent.
    - HTTP/1.1 client: the response framer recognises exactly the responses of RFC 9112
      and says when a connection may be reused, however the bytes arrive; headers and
      bodies are read as sent; [frame_response] gives the same answer; a request written
      from checked parts is what the server decodes. Buffers are below 2^31 bytes
      ([fits]), the range of the [int] offsets of the code.
    - HTTP/2: the decoder accepts exactly the blocks of RFC 7541 and computes what its
      machine computes, [huffman_decode] exactly its code, the canonical one for the lengths
      of Appendix B; the table keeps its bound for
      any input; response heads and control frames are read back as written;
      the stream table is a finite map.
    - HTTP/2 connections (H2Props): for any frames and calls, the peer's windows are never
      overrun, response bodies come in order and complete, requests keep the rules of
      RFC 9113 but for those on characters ([lax_chars] against [rfc_chars]) and are handed
      out once, a parked response goes out when its window opens, nothing gets
      stuck, and neither bursts nor the cutting of header blocks matter. Calls are those
      the application may make: for a stream that was handed out, ending a response by its
      head only if all of its body is sent, and by an empty body only if nothing of it is
      parked ([call_ok]; [response_body_order] says what the latter call does otherwise);
      calls after [consume] has closed the connection are not covered.
    - WebSocket: [frame_head] recognises exactly the legal frames, masked messages
      arrive as sent, written frames are legal, the accept key is SHA-1 of the standard.
    - PostgreSQL (PgTypes, PgProtocol, PgQuery, PgPipeline): values, rows, columns and
      statements are read as encoded, and nothing a server sends makes a reader leave its
      message; a server reads of a submitted frame its statements and parameters; over any
      interleaving of calls, arrivals and losses each query is answered once, in order, by
      its own reply, as soon as that is complete in what was received; a query is refused only for the reason given, and then without effect.
      The framing theorems are for buffers of fewer than 2^31 - 32 bytes ([fits_int]), those
      of runs for fewer than 2^30 bytes received, below which positions and the doubled
      capacity stay in a 32-bit int; the one length that wraps is [length_wraps].
    - The PostgreSQL pool (PgPool): in every state it can come to, each connection is idle,
      borrowed, rolling back or being recycled, and exactly one of them; a granted
      connection is up, idle and in no transaction; a shared one is nobody's; a frame gets
      the shortest pipeline that takes it, or the true reason why none does; a tick is
      between 1 ms and a second; lifetimes stay within what is configured. These are of
      calls that return: a message whose length wraps makes the reader of a ROLLBACK's
      reply panic, as it does any reader ([length_wraps]). Times are unbounded integers.
    - Examples and benchmarks: a capture releases all it took; the strategies and the
      buffer models that are compared do the same work; the two processes of the IPC
      benchmark never wait for each other for ever; a producer has its end of the pipe and
      no other, so that each side sees the other go.

    ** Bounds and fuel

    Loops bounded by the code keep its bound ([VTLS_RETRIES]). A loop that retries
    on EINTR is unrolled as often as the socket's script interrupts, so it is exact.
    [vtls_write] and the loops of PgSend take fuel and answer [None] without it;
    [async_flush_returns] shows how much is enough. The loops of the HTTP/2 and WebSocket
    codecs take as many rounds as their input has bytes or their table has slots; the
    refinement theorems show that this never runs out. The loops of the HTTP/2 connection
    take one round per byte they have to send or to read, and [connection_never_stuck] shows
    that they end. The loops of the HTTP/1.1 parser
    take one round per byte of the buffer, and its theorems are for buffers of fewer than
    2^30 - 1 bytes ([buf_fits]), below which no sum of an index and a declared length
    leaves the 32-bit int. The client's framer takes at most one round per byte and three
    more, which its rank shows to be enough. The loops of pg_async take one round per byte
    of the message, of the buffer or of what arrives, and running out is a [Crash], which
    the theorems exclude. Lengths are naturals; where a
    machine width matters (file times, flags, ports, HPACK integers, SHA-1 words)
    integers wrap as in the source. An index outside an array is [None], or an error
    value of its own that the theorems exclude.

    ** What is not modelled

    The V code above this layer (HTTP/1.1 responses and routers, the upstream pool, the
    static cache, PostgreSQL authentication, cancelling and bring-up, the event
    loops), the Windows and macOS
    branches, failing allocations outside of vcam.c, and of the example and
    benchmark programs the timing, the reporting and the kernel probes.
    In TlsConfig the lock around the calls is left out, and Mbed TLS is built with
    its ticket modules. *)
From stdpp Require Export base list numbers strings sets relations.
From Stdlib Require Export ZArith Lia.
From Stdlib Require Strings.Byte.

Local Open Scope Z_scope.

(** ** Machine integers *)

(** Two's complement: the [int] of V and C. *)
Definition i32 (x : Z) : Z := (x + 2 ^ 31) mod 2 ^ 32 - 2 ^ 31.

Lemma i32_small x : - 2 ^ 31 <= x < 2 ^ 31 -> i32 x = x.
Proof. intros H. unfold i32. rewrite Z.mod_small; lia. Qed.

(** ** Bytes *)

Abbreviation byte := Byte.byte.

Definition byte_val (b : byte) : Z := Z.of_N (Byte.to_N b).

Definition byte_of_Z (z : Z) : byte :=
  default Byte.x00 (Byte.of_N (Z.to_N (z mod 256))).

#[export] Instance byte_eq_decision : EqDecision byte := Byte.byte_eq_dec.

#[export] Instance byte_inhabited : Inhabited byte := populate Byte.x00.

(** A string literal as the bytes of a C string, without its NUL. *)
Definition bytes_of (s : string) : list byte := String.list_byte_of_string s.

Definition NUL : byte := Byte.x00.

(** ** Record update: [r <| field := v |>] *)

Class Eta (R : Type) := mkEta { eta_record : R -> R }.

Class FieldUpdate {R E : Type} (field : R -> E) := field_update : (E -> E) -> R -> R.

Ltac derive_field_update field :=
  lazymatch goal with
  | |- @FieldUpdate ?R ?E _ =>
      exact (fun (f : E -> E) (r : R) =>
        ltac:(let e := eval hnf in (eta_record r) in
              lazymatch e with
              | context C [field r] => let e' := context C [f (field r)] in exact e'
              end))
  end.

#[export] Hint Extern 1 (FieldUpdate ?field) => derive_field_update field : typeclass_instances.

Declare Scope record_update_scope.
Open Scope record_update_scope.
Notation "r <| field := v |>" := (field_update (field := field) (fun _ => v) r)
  (at level 1, left associativity, field at level 0, v at level 99) : record_update_scope.

(** ** State passing: a program over a state [S] with a result in [A] *)

Definition prog (S A : Type) : Type := S -> A * S.

Definition pret {S A} (a : A) : prog S A := fun s => (a, s).

Definition pbind {S A B} (c : prog S A) (k : A -> prog S B) : prog S B :=
  fun s => k (fst (c s)) (snd (c s)).

Definition pget {S A} (f : S -> A) : prog S A := fun s => (f s, s).

Definition pmod {S} (f : S -> S) : prog S unit := fun s => (tt, f s).

Declare Scope prog_scope.
Delimit Scope prog_scope with prog.
Notation "'let*' x := c 'in' k" := (pbind c (fun x => k))
  (at level 10, x name, c at level 100, k at level 200) : prog_scope.
Notation "'let*' ' p := c 'in' k" := (pbind c (fun x => match x with p => k end))
  (at level 10, p pattern, c at level 100, k at level 200) : prog_scope.
Notation "c ;; k" := (pbind c (fun _ => k))
  (at level 100, k at level 200, right associativity) : prog_scope.

(** [x = call(); while (x failed with EINTR) x = call();] unrolled [n] times. *)
Fixpoint retry_while {S A} (again : A -> bool) (call : prog S A) (n : nat) : prog S A :=
  match n with
  | O => call
  | S n' => pbind call (fun r => if again r then retry_while again call n' else pret r)
  end.

(** The index of the first byte equal to [c]: [strchr]. *)
Fixpoint find_byte (c : byte) (l : list byte) : option nat :=
  match l with
  | [] => None
  | b :: l' => if decide (b = c) then Some O else S <$> find_byte c l'
  end.

(** [memcpy(buf + off, bs, |bs|)] into an array: [None] when it would write
    outside of it. *)
Definition memcpy_at (off : nat) (bs buf : list byte) : option (list byte) :=
  if decide (off + length bs <= length buf)%nat
  then Some (take off buf ++ bs ++ drop (off + length bs) buf) else None.

(** ** Reasoning about programs *)

(** Every run of [c] relates its initial to its final state by [R]. *)
Definition steps_in {S A} (R : S -> S -> Prop) (c : prog S A) : Prop :=
  forall s, R s (snd (c s)).

(** Started in [P], [c] ends in [Q] of its result. *)
Definition triple {S A} (P : S -> Prop) (c : prog S A) (Q : A -> S -> Prop) : Prop :=
  forall s, P s -> Q (fst (c s)) (snd (c s)).

(** [s'] satisfies [I] if [s] does. *)
Definition keeps {S} (I : S -> Prop) (s s' : S) : Prop := I s -> I s'.

Lemma byte_val_range (b : byte) : 0 <= byte_val b < 256.
Proof. destruct b; vm_compute; split; congruence. Qed.

Lemma byte_val_of_Z (z : Z) : byte_val (byte_of_Z z) = z mod 256.
Proof.
  unfold byte_val, byte_of_Z.
  pose proof (Z.mod_pos_bound z 256 ltac:(lia)) as Hb.
  destruct (Byte.of_N (Z.to_N (z mod 256))) as [b|] eqn:E.
  - apply Byte.to_of_N in E. cbn. rewrite E. lia.
  - apply Byte.of_N_None_iff in E. lia.
Qed.

Lemma byte_of_Z_val (b : byte) : byte_of_Z (byte_val b) = b.
Proof. destruct b; reflexivity. Qed.

Lemma byte_val_inj (a b : byte) : byte_val a = byte_val b -> a = b.
Proof. intros H. rewrite <- (byte_of_Z_val a), <- (byte_of_Z_val b), H. reflexivity. Qed.

Lemma bind_ret {S A B} (a : A) (k : A -> prog S B) s : pbind (pret a) k s = k a s.
Proof. done. Qed.

Lemma bind_run {S A B} (c : prog S A) (k : A -> prog S B) s :
  pbind c k s = k (fst (c s)) (snd (c s)).
Proof. done. Qed.

Create HintDb progs discriminated.
#[export] Hint Constants Opaque : progs.

Section StepsIn.
Context {S : Type} (R : S -> S -> Prop) `{!PreOrder R}.

Lemma steps_in_ret {A} (a : A) : steps_in R (pret a).
Proof. intros s. reflexivity. Qed.

Lemma steps_in_get {A} (f : S -> A) : steps_in R (pget f).
Proof. intros s. reflexivity. Qed.

Lemma steps_in_bind {A B} (c : prog S A) (k : A -> prog S B) :
  steps_in R c -> (forall a, steps_in R (k a)) -> steps_in R (pbind c k).
Proof. intros Hc Hk s. transitivity (snd (c s)); [apply Hc | apply Hk]. Qed.

Lemma steps_in_if {A} (b : bool) (c d : prog S A) :
  steps_in R c -> steps_in R d -> steps_in R (if b then c else d).
Proof. by destruct b. Qed.

Lemma steps_in_retry {A} (again : A -> bool) (call : prog S A) (n : nat) :
  steps_in R call -> steps_in R (retry_while again call n).
Proof.
  intros Hc. induction n as [|n IH]; [done|].
  apply steps_in_bind; [done|]. intros a. apply steps_in_if; [done | apply steps_in_ret].
Qed.
End StepsIn.

#[export] Instance keeps_preorder {S} (I : S -> Prop) : PreOrder (keeps I).
Proof. unfold keeps. split; [intros s; tauto | intros s1 s2 s3; tauto]. Qed.

#[export] Hint Resolve steps_in_ret steps_in_get steps_in_bind steps_in_if : progs.

Section Triples.
Context {S : Type}.
Implicit Types P : S -> Prop.

Lemma triple_bind {A B} P (Q : A -> S -> Prop) (T : B -> S -> Prop)
    (c : prog S A) (k : A -> prog S B) :
  triple P c Q -> (forall a, triple (Q a) (k a) T) -> triple P (pbind c k) T.
Proof. intros Hc Hk s Hs. apply Hk, Hc, Hs. Qed.

Lemma triple_conseq {A} P P' (Q Q' : A -> S -> Prop) (c : prog S A) :
  triple P' c Q' -> (forall s, P s -> P' s) -> (forall a s, Q' a s -> Q a s) -> triple P c Q.
Proof. intros Hc HP HQ s Hs. apply HQ, Hc, HP, Hs. Qed.

Lemma triple_retry {A} (again : A -> bool) (call : prog S A) P (Q : A -> S -> Prop) (n : nat) :
  triple P call (fun a s => if again a then P s else Q a s) ->
  triple P (retry_while again call n) (fun a s => if again a then P s else Q a s).
Proof.
  intros Hc. induction n as [|n IH]; [done|].
  eapply triple_bind; [exact Hc|]. intros a s Hs.
  destruct (again a) eqn:E; [by apply IH|]. cbn. by rewrite E.
Qed.
End Triples.
