(* ===== verification/StreamSocket.v ===== *)
(** The kernel side of one non-blocking stream socket, as the TLS adapter uses
    it: [recv], [send] and [setsockopt] with their [errno] results, the bytes
    queued by TCP, the end of the stream, and the edge-triggered readiness
    ([EPOLLIN | EPOLLET]) that the worker waits on. What the network does is
    part of the state: [inbox] lists what arrives before each later [recv],
    [sndq] how many bytes each later [send] takes, so that a theorem over all
    sockets covers every interleaving of arrivals with the calls. *)
From S2P Require Import Prelude.
Local Open Scope Z_scope.
Local Open Scope prog_scope.

(** ** errno values (Linux) *)

Definition EINTR : Z := 4.
Definition EAGAIN : Z := 11.
Definition EWOULDBLOCK : Z := 11.
Definition EPIPE : Z := 32.
Definition ECONNRESET : Z := 104.
Definition ETIMEDOUT : Z := 110.

(** How a connection ended, as [recv] reports it once the queue is empty. *)
Inductive conn_end := EndFin | EndReset | EndTimedOut.

Definition end_errno (e : conn_end) : Z :=
  match e with EndFin => 0 | EndReset => ECONNRESET | EndTimedOut => ETIMEDOUT end.

(** What the network delivers. *)
Inductive netev := NetData (bs : list byte) | NetEnd (e : conn_end).

(** How one [send] goes: it takes at most [n] bytes (at least one), or fails. *)
Inductive sendans := SendTakes (n : nat) | SendFails (e : Z).

(** [struct tls12_crypto_info_aes_gcm_128] of <linux/tls.h>. *)
Record crypto_info := mkCryptoInfo {
  ci_version : Z;
  ci_cipher_type : Z;
  ci_iv : list byte;
  ci_key : list byte;
  ci_salt : list byte;
  ci_rec_seq : list byte
}.

(** The argument of a [setsockopt]. *)
Inductive optarg := ArgStr (s : list byte) | ArgInt (n : Z) | ArgCrypto (ci : crypto_info).

(** The lines the adapter writes to stderr. *)
Inductive logline :=
| LogTickets
| LogOff
| LogFallback (why : string)
| LogUlp (errno : Z)
| LogEngaged (no_pad : bool).

(** What a run of the adapter does to the outside, in order. [EvLib] is a call into Mbed TLS or PSA that
    may run crypto or change the session; accessors that only read a session are not logged. *)
Inductive event :=
| EvLock
| EvUnlock
| EvLib
| EvRecv
| EvSend (n : nat)
| EvFed (bs : list byte)
| EvSockopt (level name : Z) (arg : optarg) (ok : bool)
| EvStderr (line : logline)
| EvRecord (content_type : Z) (bs : list byte).

Record sock := mkSock {
  rx : list byte;
  arrived : list byte;
  rx_end : option conn_end;
  edge : bool;
  inbox : list (list netev);
  rintr : nat;
  tx : list byte;
  sndq : list sendans;
  optq : list Z;
  log : list event
}.

#[export] Instance eta_sock : Eta sock := mkEta _ (fun w =>
  mkSock (rx w) (arrived w) (rx_end w) (edge w) (inbox w) (rintr w) (tx w) (sndq w) (optq w) (log w)).

Definition emit (e : event) (w : sock) : sock := w <| log := log w ++ [e] |>.

(** One thing from the network: bytes queue up until the stream has ended; an
    arrival raises an edge. *)
Definition deliver (e : netev) (w : sock) : sock :=
  match rx_end w, e with
  | Some _, _ => w
  | None, NetData [] => w
  | None, NetData bs => w <| rx := rx w ++ bs |> <| arrived := arrived w ++ bs |> <| edge := true |>
  | None, NetEnd d => w <| rx_end := Some d |> <| edge := true |>
  end.

Definition arrivals (w : sock) : sock :=
  match inbox w with
  | [] => w
  | es :: rest => foldl (fun w' e => deliver e w') (w <| inbox := rest |>) es
  end.

(** [recv(fd, buf, want, 0)]: what is queued, up to [want]; [] at the end of
    the stream; an [errno] otherwise. *)
Definition sys_recv (want : nat) : prog sock (list byte + Z) := fun w0 =>
  let w := arrivals (emit EvRecv w0) in
  match rintr w, rx w, rx_end w with
  | S n, _, _ => (inr EINTR, w <| rintr := n |>)
  | O, [], None => (inr EAGAIN, w)
  | O, [], Some EndFin => (inl [], w)
  | O, [], Some e => (inr (end_errno e), w)
  | O, q, _ => (inl (take want q), w <| rx := drop want q |>)
  end.

(** [send(fd, buf, len, MSG_NOSIGNAL)]. *)
Definition sys_send (buf : list byte) : prog sock (nat + Z) := fun w =>
  match sndq w with
  | [] => (inr EAGAIN, emit (EvSend 0) w)
  | SendFails e :: q => (inr e, emit (EvSend 0) (w <| sndq := q |>))
  | SendTakes n :: q =>
      let k := Nat.min (length buf) (Nat.max 1 n) in
      (inl k, emit (EvSend k) (w <| sndq := q |> <| tx := tx w ++ take k buf |>))
  end.

(** [setsockopt]: 0, or the [errno] the socket answers next. *)
Definition sys_setsockopt (level name : Z) (arg : optarg) : prog sock Z := fun w =>
  match optq w with
  | [] => (0, emit (EvSockopt level name arg true) w)
  | e :: q => (e, emit (EvSockopt level name arg (e =? 0)) (w <| optq := q |>))
  end.

(** The bytes handed to the TLS library so far. *)
Definition fed_of (e : event) : list byte :=
  match e with EvFed bs => bs | _ => [] end.

Definition fed (w : sock) : list byte := mjoin (fed_of <$> log w).
#[global] Arguments fed : simpl never.

(** How many calls into the TLS library were made. *)
Definition is_lib (e : event) : bool := match e with EvLib => true | _ => false end.

Definition lib_calls (w : sock) : nat := length (List.filter is_lib (log w)).
#[global] Arguments lib_calls : simpl never.

(** The calls the adapter repeats: those a signal interrupted. *)
Definition is_eintr {A} (r : A + Z) : bool :=
  match r with inr e => e =? EINTR | inl _ => false end.

(** The reader was told everything: nothing is queued, or an edge is pending. *)
Definition announced (w : sock) : Prop := rx w = [] \/ edge w = true.

(** The bytes a [recv] handed out. *)
Definition got (r : list byte + Z) : list byte :=
  match r with inl bs => bs | inr _ => [] end.

(** What a [recv] does, interrupted ones before it included: some bytes [d]
    arrive, a prefix of the queue is handed out. *)
Record recv_core (want : nat) (w : sock) (r : list byte + Z) (w' : sock) : Prop := {
  rc_queue : exists d, arrived w' = arrived w ++ d /\ rx w ++ d = got r ++ rx w';
  rc_announced : announced w -> announced w';
  rc_log : exists n, log w' = log w ++ replicate n EvRecv;
  rc_send : tx w' = tx w /\ sndq w' = sndq w /\ optq w' = optq w;
  rc_len : (length (got r) <= want)%nat
}.

(** A completed one: a short or refused read leaves an empty queue. *)
Record recv_rel (want : nat) (w : sock) (r : list byte + Z) (w' : sock) : Prop := {
  rr_core : recv_core want w r w';
  rr_done : is_eintr r = false;
  rr_short : (length (got r) < want)%nat -> rx w' = [];
  rr_refused : forall e, r = inr e -> rx w' = []
}.

(** What a [send] does: the bytes it took go to the peer, the receive side is
    left alone. *)
Record send_core (buf : list byte) (w : sock) (r : nat + Z) (w' : sock) : Prop := {
  sc_recv : rx w' = rx w /\ arrived w' = arrived w /\ edge w' = edge w;
  sc_tx : match r with
          | inl k => tx w' = tx w ++ take k buf /\ (k <= length buf)%nat
                     /\ (buf <> [] -> (0 < k)%nat)
          | inr _ => tx w' = tx w
          end;
  sc_log : exists es, log w' = log w ++ es /\ Forall (fun e => exists k, e = EvSend k) es
}.

(** ** Facts about the kernel *)

Lemma fed_emit e w : fed (emit e w) = fed w ++ fed_of e.
Proof. unfold fed. cbn. rewrite fmap_app, join_app. cbn. by rewrite app_nil_r. Qed.

Lemma fed_app w w' es : log w' = log w ++ es -> fed w' = fed w ++ mjoin (fed_of <$> es).
Proof. unfold fed. intros ->. by rewrite fmap_app, join_app. Qed.

Lemma lib_calls_app w w' es :
  log w' = log w ++ es -> lib_calls w' = (lib_calls w + length (List.filter is_lib es))%nat.
Proof. unfold lib_calls. intros ->. by rewrite List.filter_app, length_app. Qed.

Lemma lib_calls_emit e w :
  lib_calls (emit e w) = (lib_calls w + if is_lib e then 1 else 0)%nat.
Proof. rewrite (lib_calls_app w _ [e]) by done. cbn. by destruct (is_lib e). Qed.

Lemma lib_free_recvs n : List.filter is_lib (replicate n EvRecv) = [].
Proof. induction n; cbn; auto. Qed.

Lemma lib_free_sends es :
  Forall (fun e => exists k, e = EvSend k) es -> List.filter is_lib es = [].
Proof. induction 1 as [|e es [k ->] _ IH]; [done | exact IH]. Qed.

Lemma fed_sends es : Forall (fun e => exists k, e = EvSend k) es -> mjoin (fed_of <$> es) = [].
Proof. induction 1 as [|e es [k ->] _ IH]; [done | exact IH]. Qed.

Lemma fed_quiet n : mjoin (fed_of <$> replicate n EvRecv) = [].
Proof. induction n; cbn; auto. Qed.

(** What arrivals may change: the queue grows, with an edge. *)
Definition grown (w w' : sock) : Prop :=
  exists d, rx w' = rx w ++ d /\ arrived w' = arrived w ++ d
    /\ (d = [] \/ edge w' = true) /\ (edge w = true -> edge w' = true)
    /\ log w' = log w /\ tx w' = tx w /\ sndq w' = sndq w /\ optq w' = optq w
    /\ rintr w' = rintr w.

#[export] Instance grown_preorder : PreOrder grown.
Proof.
  split.
  - intros w. exists []. rewrite !app_nil_r. auto 10.
  - intros w1 w2 w3 (d & R1 & A1 & D1 & E1 & L1 & T1 & S1 & O1 & I1)
      (d' & R2 & A2 & D2 & E2 & L2 & T2 & S2 & O2 & I2).
    exists (d ++ d'). rewrite R2, R1, A2, A1, <- !app_assoc.
    repeat split; try congruence; [|tauto].
    destruct D2 as [-> | ->]; [|by right]. destruct D1 as [-> | H]; [by left | right; auto].
Qed.

Lemma deliver_grown e w : grown w (deliver e w).
Proof.
  unfold deliver. destruct (rx_end w); [reflexivity|].
  destruct e as [[|b bs]|d]; [reflexivity| |].
  - exists (b :: bs). cbn. auto 12.
  - exists []. cbn. rewrite !app_nil_r. auto 12.
Qed.

Lemma arrivals_grown w : grown w (arrivals w).
Proof.
  unfold arrivals. destruct (inbox w) as [|es rest]; [reflexivity|].
  transitivity (w <| inbox := rest |>).
  { exists []. cbn. rewrite !app_nil_r. auto 12. }
  generalize (w <| inbox := rest |>). induction es as [|e es IH]; intros v; cbn; [reflexivity|].
  etransitivity; [apply deliver_grown | apply IH].
Qed.

Lemma grown_announced w w' : grown w w' -> announced w -> announced w'.
Proof.
  intros (d & R & _ & D & E & _) [H|H]; [|right; auto].
  destruct D as [->|?]; [left; by rewrite R, H | by right].
Qed.

Lemma emit_recv_core want w w' :
  grown (emit EvRecv w) w' -> recv_core want w (inr EINTR) w'.
Proof.
  intros G. pose proof (grown_announced _ _ G) as HA.
  destruct G as (d & R & A & _ & _ & L & T & S & O & _). split.
  - exists d. by rewrite A, R.
  - exact HA.
  - exists 1%nat. by rewrite L.
  - by rewrite T, S, O.
  - cbn; lia.
Qed.

Lemma recv_core_trans want w e w1 r w2 :
  recv_core want w (inr e) w1 -> recv_core want w1 r w2 -> recv_core want w r w2.
Proof.
  intros [[d [A1 R1]] N1 [n L1] [T1 [S1 O1]] _] [[d' [A2 R2]] N2 [m L2] [T2 [S2 O2]] Len].
  cbn in R1. split; auto.
  - exists (d ++ d'). rewrite A2, A1, <- app_assoc. split; [done|].
    by rewrite app_assoc, R1, R2.
  - exists (n + m)%nat. by rewrite L2, L1, <- app_assoc, replicate_add.
  - by rewrite T2, S2, O2, T1, S1, O1.
Qed.

Lemma recv_core_take want w w' q :
  recv_core want w (inr EINTR) w' -> rx w' = q ->
  recv_core want w (inl (take want q)) (w' <| rx := drop want q |>).
Proof.
  intros [[d [A R]] N L T _] Hq. cbn in R. split; cbn; auto.
  - exists d. by rewrite take_drop, <- Hq.
  - intros [H|H]%N; [left | by right]. cbn. by rewrite <- Hq, H, drop_nil.
  - rewrite length_take. lia.
Qed.

(** One call: done, or interrupted with one pending signal fewer. *)
Lemma sys_recv_spec want w :
  (recv_rel want w (fst (sys_recv want w)) (snd (sys_recv want w)))
  \/ (is_eintr (fst (sys_recv want w)) = true
     /\ recv_core want w (inr EINTR) (snd (sys_recv want w))
     /\ rintr w = S (rintr (snd (sys_recv want w)))).
Proof.
  unfold sys_recv. pose proof (arrivals_grown (emit EvRecv w)) as G.
  assert (Hi : rintr (arrivals (emit EvRecv w)) = rintr w).
  { by destruct G as (? & _ & _ & _ & _ & _ & _ & _ & _ & ->). }
  pose proof (emit_recv_core want w _ G) as C. clear G.
  destruct (arrivals (emit EvRecv w)) as [q a e ed ib ri t sq oq lg] eqn:Ew; cbn in *. subst ri.
  destruct (rintr w) as [|n].
  2: { right. split; [done|]. split; [|done]. destruct C as [Q N L T Len]. by split. }
  left. destruct q as [|b q].
  - destruct e as [[]|]; cbn; split; try done; try (destruct C as [Q N L T Len]; by split).
  - split; [apply (recv_core_take want w _ (b :: q) C); done | done | | done].
    cbn [got fst snd rx]. rewrite length_take. intros Hl. apply drop_ge. cbn in *. lia.
Qed.

(** The loop that repeats interrupted calls ends, with a completed one. *)
Lemma recv_loop_spec want n w :
  (rintr w <= n)%nat ->
  let out := retry_while is_eintr (sys_recv want) n w in
  recv_rel want w (fst out) (snd out).
Proof.
  revert w. induction n as [|n IH]; intros w Hn; cbn.
  - destruct (sys_recv_spec want w) as [H | (_ & _ & H)]; [done | lia].
  - unfold pbind. destruct (sys_recv_spec want w) as [H | (E & C & H)].
    + rewrite (rr_done _ _ _ _ H). done.
    + rewrite E. destruct (IH (snd (sys_recv want w))) as [C' D Sh Rf]; [lia|].
      split; [by eapply recv_core_trans | done | done | done].
Qed.

(** [sys_send] leaves the receive side alone and appends what it took. *)
Lemma sys_send_core buf w :
  send_core buf w (fst (sys_send buf w)) (snd (sys_send buf w)).
Proof.
  unfold sys_send. destruct (sndq w) as [|[k|e] q]; cbn; split; cbn; auto.
  all: try (by rewrite app_nil_r).
  all: try (by eexists; split; [reflexivity | repeat constructor; eauto]).
  split; [done|]. split; [lia|]. intros H. destruct buf; [done|]. destruct k; cbn; lia.
Qed.

Lemma send_core_trans buf w e w1 r w2 :
  send_core buf w (inr e) w1 -> send_core buf w1 r w2 -> send_core buf w r w2.
Proof.
  intros [(R1 & A1 & E1) T1 (es1 & L1 & F1)] [(R2 & A2 & E2) T2 (es2 & L2 & F2)]. split.
  - by rewrite R2, A2, E2, R1, A1, E1.
  - cbn in T1. destruct r; rewrite T1 in T2; done.
  - exists (es1 ++ es2). rewrite L2, L1, app_assoc. split; [done | by apply Forall_app].
Qed.

Lemma send_loop_spec buf n w :
  (length (sndq w) <= n)%nat ->
  let out := retry_while is_eintr (sys_send buf) n w in
  send_core buf w (fst out) (snd out) /\ is_eintr (fst out) = false.
Proof.
  revert w. induction n as [|n IH]; intros w Hn; cbn.
  - split; [apply sys_send_core|]. unfold sys_send. by destruct (sndq w); [|cbn in Hn; lia].
  - unfold pbind. pose proof (sys_send_core buf w) as C.
    destruct (is_eintr (fst (sys_send buf w))) eqn:E; [|done].
    destruct (IH (snd (sys_send buf w))) as [C' D].
    { unfold sys_send in *. destruct (sndq w) as [|[] q]; cbn in *; lia. }
    split; [|done]. destruct (fst (sys_send buf w)) as [k|e]; [done|].
    by eapply send_core_trans.
Qed.
