(* ===== verification/TlsSession.v ===== *)
(** The TLS session of tls/vanilla_tls.c: its record path (handshake, read,
    write, close) over a non-blocking socket.

    Mbed TLS is not part of the repository: it is the class [MbedTLS], a state
    type and one program per entry point the adapter calls. A library call is a
    finite tree of type [libcall]: at each node it calls the adapter back for
    ciphertext ([LRecv], the [f_recv] of [mbedtls_ssl_set_bio]), hands it
    ciphertext to send ([LSend], [f_send]), tells it a traffic secret
    ([LExport], the callback of [mbedtls_ssl_set_export_keys_cb]) or returns. [run_lib] runs such a
    tree against the session's own callbacks, so every theorem below holds for
    all libraries, unless it names a law of the library as a hypothesis. *)
From S2P Require Import Prelude StreamSocket.
Local Open Scope Z_scope.
Local Open Scope prog_scope.

(** ** The library's interface *)

(** [mbedtls_ssl_key_export_type]: which secret an export callback is told. *)
Inductive key_export_type :=
| TLS1_3_CLIENT_APPLICATION_TRAFFIC_SECRET
| TLS1_3_SERVER_APPLICATION_TRAFFIC_SECRET
| OTHER_SECRET.

Inductive libcall (S : Type) : Type :=
| LRet (ret : Z) (out : list byte) (st : S)
| LRecv (len : nat) (k : Z -> list byte -> libcall S)
| LSend (buf : list byte) (k : Z -> libcall S)
| LExport (type : key_export_type) (secret : list byte) (k : libcall S).
Arguments LRet {S} ret out st.
Arguments LRecv {S} len k.
Arguments LSend {S} buf k.
Arguments LExport {S} type secret k.

Class MbedTLS := {
  ssl_t : Type;
  ssl_handshake : ssl_t -> libcall ssl_t;
  ssl_read : ssl_t -> nat -> libcall ssl_t;
  ssl_write : ssl_t -> list byte -> libcall ssl_t;
  ssl_close_notify : ssl_t -> libcall ssl_t;
  ssl_session_reset : ssl_t -> Z * ssl_t;
  ssl_get_bytes_avail : ssl_t -> nat;
  ssl_check_pending : ssl_t -> bool;
  ssl_get_max_out_record_payload : ssl_t -> Z;
  ssl_get_ciphersuite_id : ssl_t -> Z;
  ssl_get_verify_result : ssl_t -> Z;
  ssl_get_alpn_protocol : ssl_t -> option (list byte);
  ERR_SSL_WANT_READ : Z;
  ERR_SSL_WANT_WRITE : Z;
  ERR_SSL_RECEIVED_NEW_SESSION_TICKET : Z;
  ERR_SSL_PEER_CLOSE_NOTIFY : Z;
  ERR_SSL_CONN_EOF : Z;
  ERR_NET_RECV_FAILED : Z;
  ERR_NET_SEND_FAILED : Z;
  ERR_NET_CONN_RESET : Z;
  ERR_X509_CERT_VERIFY_FAILED : Z;
  TLS1_3_AES_128_GCM_SHA256 : Z
}.

(** The library's error codes are negative and tell the outcomes apart. *)
Class MbedTLSErrors `{MbedTLS} : Prop := {
  want_read_neg : ERR_SSL_WANT_READ < 0;
  want_write_neg : ERR_SSL_WANT_WRITE < 0;
  ticket_neg : ERR_SSL_RECEIVED_NEW_SESSION_TICKET < 0;
  close_notify_neg : ERR_SSL_PEER_CLOSE_NOTIFY < 0;
  recv_failed_neg : ERR_NET_RECV_FAILED < 0;
  send_failed_neg : ERR_NET_SEND_FAILED < 0;
  conn_reset_neg : ERR_NET_CONN_RESET < 0;
  err_codes_distinct :
    NoDup [ERR_SSL_WANT_READ; ERR_SSL_WANT_WRITE; ERR_SSL_RECEIVED_NEW_SESSION_TICKET;
           ERR_SSL_PEER_CLOSE_NOTIFY; ERR_NET_RECV_FAILED; ERR_NET_SEND_FAILED;
           ERR_NET_CONN_RESET]
}.

(** [MBEDTLS_THREADING_C] undefined: the entry points take the process lock. *)
Class Build := VTLS_SERIALIZED : bool.

(** ** The session *)

Record vtls_keys := mkKeys {
  client_app_secret : list byte;
  server_app_secret : list byte;
  have_client : bool;
  have_server : bool
}.

#[export] Instance eta_keys : Eta vtls_keys := mkEta _ (fun k =>
  mkKeys (client_app_secret k) (server_app_secret k) (have_client k) (have_server k)).

Definition on_export_keys (type : key_export_type) (secret : list byte) (k : vtls_keys) : vtls_keys :=
  if negb (length secret =? 32)%nat then k
  else match type with
       | TLS1_3_SERVER_APPLICATION_TRAFFIC_SECRET =>
           k <| server_app_secret := secret |> <| have_server := true |>
       | TLS1_3_CLIENT_APPLICATION_TRAFFIC_SECRET =>
           k <| client_app_secret := secret |> <| have_client := true |>
       | OTHER_SECRET => k
       end.

Definition VTLS_READAHEAD : nat := Nat.pow 2 12.
#[global] Arguments VTLS_READAHEAD : simpl never.

(** [export_cb] stands for the callback registered in [ssl]: only a server's
    session has one ([on_export_keys]). *)
Record vtls_session `{MbedTLS} := mkSession {
  ssl : ssl_t;
  export_cb : bool;
  net_fd : Z;
  keys : vtls_keys;
  ktls : bool;
  ktls_failed : bool;
  ktls_off : bool;
  tickets : bool;
  ktls_rx_no_pad : bool;
  readable : bool;
  readahead : bool;
  closed : Z;
  defer_send : bool;
  deferred : bool;
  wpend : Z;
  parked : bool;
  bio_want : bool;
  peer_closed : bool;
  close_notify : bool;
  last_err : Z;
  peer_ip : list byte;
  peer_ip_len : nat;
  ra_off : nat;
  ra_len : nat;
  ra : list byte
}.

#[export] Instance eta_session `{MbedTLS} : Eta vtls_session := mkEta _ (fun s =>
  mkSession _ (ssl s) (export_cb s) (net_fd s) (keys s) (ktls s) (ktls_failed s) (ktls_off s) (tickets s)
    (ktls_rx_no_pad s) (readable s) (readahead s) (closed s) (defer_send s) (deferred s)
    (wpend s) (parked s) (bio_want s) (peer_closed s) (close_notify s) (last_err s)
    (peer_ip s) (peer_ip_len s) (ra_off s) (ra_len s) (ra s)).

(** The process-wide flags of the one-time log lines. *)
Record ktls_flags := mkFlags {
  ktls_logged_ok : bool;
  ktls_logged_fb : bool;
  ktls_logged_off : bool;
  ktls_logged_tickets : bool
}.

#[export] Instance eta_flags : Eta ktls_flags := mkEta _ (fun f =>
  mkFlags (ktls_logged_ok f) (ktls_logged_fb f) (ktls_logged_off f) (ktls_logged_tickets f)).

(** A session, its socket and the process's log flags. *)
Record conn `{MbedTLS} := mkConn { ses : vtls_session; wire : sock; flags : ktls_flags }.

#[export] Instance eta_conn `{MbedTLS} : Eta conn := mkEta _ (fun c =>
  mkConn _ (ses c) (wire c) (flags c)).

Definition VTLS_OK : Z := 0.
Definition VTLS_ERROR : Z := -1.
Definition VTLS_WANT : Z := -2.
Definition VTLS_WANT_WRITE : Z := -3.
Definition VTLS_RETRIES : nat := 64.

Section Session.
Context `{ML : MbedTLS} `{BD : Build}.

Definition upd (f : vtls_session -> vtls_session) : prog conn unit :=
  pmod (fun c => c <| ses := f (ses c) |>).

Definition gets {A} (f : vtls_session -> A) : prog conn A := pget (fun c => f (ses c)).

Definition on_wire {A} (p : prog sock A) : prog conn A := fun c =>
  (fst (p (wire c)), c <| wire := snd (p (wire c)) |>).

Definition note (e : event) : prog conn unit := pmod (fun c => c <| wire := emit e (wire c) |>).

Definition VTLS_LOCK : prog conn unit := if VTLS_SERIALIZED then note EvLock else pret tt.
Definition VTLS_UNLOCK : prog conn unit := if VTLS_SERIALIZED then note EvUnlock else pret tt.

(** *** Receiving ciphertext *)

(** One [recv] repeated while a signal interrupts it. The pending
    interruptions of the socket bound the loop: see [recv_retry_not_eintr]. *)
Definition recv_retry (want : nat) : prog conn (list byte + Z) :=
  on_wire (fun w => retry_while is_eintr (sys_recv want) (rintr w) w).

Definition vtls_recv (want : nat) : prog conn (Z * list byte) :=
  let* r := recv_retry want in
  match r with
  | inr e =>
      if (e =? EAGAIN) || (e =? EWOULDBLOCK) then
        upd (fun s => s <| readable := false |> <| bio_want := true |>) ;;
        pret (ERR_SSL_WANT_READ, [])
      else
        upd (fun s => s <| closed := 2 |>) ;;
        pret (ERR_NET_RECV_FAILED, [])
  | inl [] =>
      upd (fun s => s <| closed := 1 |>) ;;
      pret (0, [])
  | inl bs =>
      (if (length bs <? want)%nat then upd (fun s => s <| readable := false |>) else pret tt) ;;
      pret (Z.of_nat (length bs), bs)
  end.

(** The read-ahead after a [recv] of result [r] stored [bs] into it. *)
Definition ra_store (r : Z) (bs : list byte) (s : vtls_session) : vtls_session :=
  s <| ra := bs ++ drop (length bs) (ra s) |> <| ra_off := O |>
    <| ra_len := if 0 <? r then Z.to_nat r else O |>.

Definition ra_fill : prog conn Z :=
  let* '(r, bs) := vtls_recv VTLS_READAHEAD in
  upd (ra_store r bs) ;;
  pret r.

(** The copy out of the read-ahead that ends [vtls_bio_recv]. *)
Definition ra_copy (len : nat) : prog conn (Z * list byte) :=
  let* s := gets id in
  let n := Nat.min (ra_len s - ra_off s) len in
  upd (fun s => s <| ra_off := (ra_off s + n)%nat |>) ;;
  pret (Z.of_nat n, take n (drop (ra_off s) (ra s))).

Definition vtls_bio_recv (len : nat) : prog conn (Z * list byte) :=
  let* s := gets id in
  if (ra_len s <=? ra_off s)%nat then
    if negb (closed s =? 0) then pret (if closed s =? 1 then 0 else ERR_NET_RECV_FAILED, [])
    else if negb (readable s) then
      upd (fun s => s <| bio_want := true |>) ;; pret (ERR_SSL_WANT_READ, [])
    else if negb (readahead s) || (VTLS_READAHEAD <=? len)%nat then vtls_recv len
    else
      let* r := ra_fill in
      if r <=? 0 then pret (r, []) else ra_copy len
  else ra_copy len.

(** *** Sending ciphertext *)

Definition send_retry (buf : list byte) : prog conn (nat + Z) :=
  on_wire (fun w => retry_while is_eintr (sys_send buf) (length (sndq w)) w).

Definition vtls_bio_send (buf : list byte) : prog conn Z :=
  let* s := gets id in
  if defer_send s then
    upd (fun s => s <| deferred := true |>) ;; pret ERR_SSL_WANT_WRITE
  else
    let* r := send_retry buf in
    match r with
    | inl n =>
        upd (fun s => if (wpend s =? 1) && (n =? length buf)%nat then s <| wpend := 2 |> else s) ;;
        pret (Z.of_nat n)
    | inr e =>
        pret (if (e =? EAGAIN) || (e =? EWOULDBLOCK) then ERR_SSL_WANT_WRITE
              else if (e =? EPIPE) || (e =? ECONNRESET) then ERR_NET_CONN_RESET
              else ERR_NET_SEND_FAILED)
    end.

(** *** A call into the library *)

Fixpoint run_tree (p : libcall ssl_t) : prog conn (Z * list byte) :=
  match p with
  | LRet ret out st => upd (fun s => s <| ssl := st |>) ;; pret (ret, out)
  | LRecv len k =>
      let* '(r, bs) := vtls_bio_recv len in
      note (EvFed bs) ;; run_tree (k r bs)
  | LSend buf k => let* r := vtls_bio_send buf in run_tree (k r)
  | LExport type secret k =>
      upd (fun s => if export_cb s then s <| keys := on_export_keys type secret (keys s) |> else s) ;;
      run_tree k
  end.

Definition run_lib (call : ssl_t -> libcall ssl_t) : prog conn (Z * list byte) :=
  note EvLib ;; let* st := gets ssl in run_tree (call st).

(** *** Entry points *)

Definition map_ret (ret : Z) : Z :=
  if ret =? ERR_SSL_WANT_READ then VTLS_WANT
  else if ret =? ERR_SSL_WANT_WRITE then VTLS_WANT_WRITE
  else VTLS_ERROR.

Definition vtls_retry (s : vtls_session) (ret : Z) : bool :=
  (ret =? ERR_SSL_RECEIVED_NEW_SESSION_TICKET)
  || ((ret =? ERR_SSL_WANT_READ) && negb (bio_want s)).

(** [do { body } while (vtls_retry(s, ret) && ++n < VTLS_RETRIES)]: [k] bodies
    are left; [inl] is a [return] out of the body. *)
Fixpoint retry_loop {A} (body : prog conn (Z + Z * A)) (k : nat) : prog conn (Z + Z * A) :=
  let* r := body in
  match r, k with
  | inr (ret, _), S (S _ as k') =>
      let* again := gets (fun s => vtls_retry s ret) in
      if again then retry_loop body k' else pret r
  | _, _ => pret r
  end.

(** [s->bio_want = 0; VTLS_LOCK(); ret = call; VTLS_UNLOCK();] *)
Definition locked_call (call : ssl_t -> libcall ssl_t) : prog conn (Z + Z * list byte) :=
  upd (fun s => s <| bio_want := false |>) ;;
  VTLS_LOCK ;;
  let* x := run_lib call in
  VTLS_UNLOCK ;;
  pret (inr x).

Definition vtls_handshake : prog conn Z :=
  let* r := retry_loop (locked_call ssl_handshake) VTLS_RETRIES in
  match r with
  | inl code => pret code
  | inr (ret, _) =>
      if ret =? 0 then pret VTLS_OK
      else
        (if map_ret ret =? VTLS_ERROR then upd (fun s => s <| last_err := ret |>) else pret tt) ;;
        pret (map_ret ret)
  end.

Definition vtls_mark_readable : prog conn unit := upd (fun s => s <| readable := true |>).

Definition read_body (len : nat) : prog conn (Z + Z * list byte) :=
  let* s := gets id in
  if (ra_len s <=? ra_off s)%nat && (closed s =? 0)
     && (ssl_get_bytes_avail (ssl s) =? 0)%nat && negb (ssl_check_pending (ssl s)) then
    if negb (readable s) then pret (inl VTLS_WANT)
    else if readahead s then
      let* r := ra_fill in
      if r =? ERR_SSL_WANT_READ then pret (inl VTLS_WANT)
      else locked_call (fun st => ssl_read st len)
    else locked_call (fun st => ssl_read st len)
  else locked_call (fun st => ssl_read st len).

Definition vtls_read (len : nat) : prog conn (Z * list byte) :=
  let* r := retry_loop (read_body len) VTLS_RETRIES in
  match r with
  | inl code => pret (code, [])
  | inr (ret, out) =>
      upd (fun s => s <| parked := ret =? ERR_SSL_WANT_WRITE |>) ;;
      if 0 <? ret then pret (ret, out)
      else if (ret =? 0) || (ret =? ERR_SSL_PEER_CLOSE_NOTIFY) then
        upd (fun s => s <| peer_closed := true |>) ;;
        (if ret =? ERR_SSL_PEER_CLOSE_NOTIFY then upd (fun s => s <| close_notify := true |>)
         else pret tt) ;;
        pret (VTLS_ERROR, [])
      else pret (map_ret ret, [])
  end.

(** Encrypt under the lock, holding the send unless a ticket is parked. *)
Definition locked_write (buf : list byte) : prog conn Z :=
  VTLS_LOCK ;;
  upd (fun s => s <| defer_send := VTLS_SERIALIZED && negb (parked s) |>) ;;
  let* '(ret, _) := run_lib (fun st => ssl_write st buf) in
  upd (fun s => s <| defer_send := false |>) ;;
  VTLS_UNLOCK ;;
  pret ret.

(** [for (;;)] of [vtls_write]: [inl] is the [return] of the pending-record
    branch, [inr] the [break]; [None] when [fuel] iterations all met a ticket. *)
Fixpoint write_loop (fuel : nat) (buf : list byte) : prog conn (option (Z + Z)) :=
  match fuel with
  | O => pret None
  | S f =>
      let* s := gets id in
      if wpend s =? 2 then
        upd (fun s => s <| wpend := 0 |>) ;;
        let ret := ssl_get_max_out_record_payload (ssl s) in
        let len := Z.of_nat (length buf) in
        pret (Some (inl (if (0 <? ret) && (ret <? len) then ret else i32 len)))
      else
        let* ret := locked_write buf in
        if negb (ret =? ERR_SSL_RECEIVED_NEW_SESSION_TICKET) then pret (Some (inr ret))
        else upd (fun s => s <| parked := false |>) ;; write_loop f buf
  end.

(** The unlocked flush of a record encrypted under the lock. *)
Definition flush_deferred (buf : list byte) (ret : Z) : prog conn Z :=
  let* d := gets deferred in
  if d then
    upd (fun s => s <| deferred := false |>) ;;
    let* '(r, _) := run_lib (fun st => ssl_write st buf) in pret r
  else pret ret.

(** The end of [vtls_write], from the library's last answer. *)
Definition write_result (ret : Z) : prog conn Z :=
  if 0 <=? ret then
    upd (fun s => s <| wpend := 0 |> <| parked := false |>) ;; pret ret
  else
    (if ret =? ERR_SSL_WANT_WRITE then upd (fun s => s <| wpend := 1 |>) else pret tt) ;;
    pret (map_ret ret).

Definition vtls_write (fuel : nat) (buf : list byte) : prog conn (option Z) :=
  let* o := write_loop fuel buf in
  match o with
  | None => pret None
  | Some (inl code) => pret (Some code)
  | Some (inr ret0) =>
      let* ret := flush_deferred buf ret0 in
      let* code := write_result ret in
      pret (Some code)
  end.

Definition vtls_peer_closed (s : vtls_session) : bool := peer_closed s.

Definition vtls_peer_close_notify (s : vtls_session) : bool := close_notify s.

(** [vtls_session_free], up to the release of the memory; the second library call is [mbedtls_ssl_free]. *)
Definition vtls_session_free : prog conn unit :=
  VTLS_LOCK ;;
  let* s := gets id in
  (if negb (ktls s) && (0 <=? net_fd s) then
     let* _ := run_lib ssl_close_notify in pret tt
   else pret tt) ;;
  note EvLib ;;
  VTLS_UNLOCK.

Definition zero_keys : vtls_keys := mkKeys (replicate 32 NUL) (replicate 32 NUL) false false.

(** A session as [calloc] and [mbedtls_ssl_setup] leave it. *)
Definition session_calloc (st : ssl_t) : vtls_session :=
  mkSession _ st false 0 zero_keys false false false false false false false 0 false false 0 false
    false false false 0 (replicate 16 NUL) O O O (replicate VTLS_READAHEAD NUL).

(** The fields [vtls_session_new] sets on a server session. *)
Definition session_init (st : ssl_t) (fd : Z) (off tick no_pad : bool) : vtls_session :=
  (session_calloc st) <| net_fd := fd |> <| readable := true |> <| ktls_off := off |>
    <| tickets := tick |> <| ktls_rx_no_pad := no_pad |> <| export_cb := true |>.

Definition client_rearm (fd : Z) (s : vtls_session) : vtls_session :=
  s <| net_fd := fd |> <| readable := true |> <| readahead := true |> <| closed := 0 |>
    <| peer_closed := false |> <| close_notify := false |> <| last_err := 0 |>
    <| defer_send := false |> <| deferred := false |> <| wpend := 0 |> <| parked := false |>
    <| ra_off := O |> <| ra_len := O |>.

Definition vtls_session_reset (fd : Z) : prog conn Z :=
  VTLS_LOCK ;;
  note EvLib ;;
  let* st := gets ssl in
  let '(ret, st') := ssl_session_reset st in
  upd (fun s => s <| ssl := st' |>) ;;
  VTLS_UNLOCK ;;
  upd (client_rearm fd) ;;
  pret ret.

(** ** Running a program one step *)

Lemma bind_gets {A B} (f : vtls_session -> A) (k : A -> prog conn B) c :
  pbind (gets f) k c = k (f (ses c)) c.
Proof. done. Qed.

Lemma bind_upd {B} f (k : unit -> prog conn B) c :
  pbind (upd f) k c = k tt (c <| ses := f (ses c) |>).
Proof. done. Qed.

Lemma bind_note {B} e (k : unit -> prog conn B) c :
  pbind (note e) k c = k tt (c <| wire := emit e (wire c) |>).
Proof. done. Qed.

End Session.

(** Reduces the reads, writes and notes at the head of a program. *)
Ltac prog_step :=
  cbv zeta;
  repeat first [rewrite bind_gets | rewrite bind_upd | rewrite bind_note | rewrite bind_ret].
