(* ===== verification/TlsInvariants.v ===== *)
(** Invariants of a TLS session and its socket, for every library and every
    behaviour of the network: the read-ahead buffer stays in bounds, no byte of
    the TLS stream is lost, repeated or reordered on its way to the library, and
    a session that answers "drained" from its own state is one whose socket is
    drained, or has an edge pending for what it holds. *)
From S2P Require Import Prelude StreamSocket TlsSession.
Local Open Scope Z_scope.
Local Open Scope prog_scope.

Section Invariants.
Context `{ML : MbedTLS} `{BD : Build}.

(** The ciphertext read ahead of the library: [ra[ra_off..ra_len]]. *)
Definition unread (s : vtls_session) : list byte :=
  take (ra_len s - ra_off s) (drop (ra_off s) (ra s)).
#[local] Arguments unread : simpl never.

Definition ra_wf (s : vtls_session) : Prop :=
  (ra_off s <= ra_len s)%nat /\ (ra_len s <= VTLS_READAHEAD)%nat
  /\ length (ra s) = VTLS_READAHEAD.

(** [held] is what a receive callback has taken from the socket or the
    read-ahead and not yet handed to the library. *)
Record inv (held : list byte) (c : conn) : Prop := {
  inv_ra : ra_wf (ses c);
  inv_stream : fed (wire c) ++ held ++ unread (ses c) ++ rx (wire c) = arrived (wire c);
  inv_announced : readable (ses c) = false -> announced (wire c);
  inv_exact : readahead (ses c) = false -> unread (ses c) = []
}.

(** Inside one library call, a receive callback that answered "would block"
    found nothing read ahead, and the socket drained. *)
Definition blocked_ok (s : vtls_session) : Prop :=
  bio_want s = true -> unread s = [] /\ readable s = false.

(** The session fields a plain [recv] never writes. *)
Definition same_ra (s s' : vtls_session) : Prop :=
  ra s' = ra s /\ ra_off s' = ra_off s /\ ra_len s' = ra_len s /\ readahead s' = readahead s.

Record recv_post (want : nat) (c : conn) (r : Z) (bs : list byte) (c' : conn) : Prop := {
  rp_core : recv_core want (wire c) (inl bs) (wire c');
  rp_same : same_ra (ses c) (ses c');
  rp_readable : readable (ses c') = false -> readable (ses c) = false \/ rx (wire c') = [];
  rp_want : bio_want (ses c') = true ->
    bio_want (ses c) = true \/ (readable (ses c') = false /\ bs = []);
  rp_drop : readable (ses c) = false -> readable (ses c') = false;
  rp_ret : (r = Z.of_nat (length bs) /\ bs <> []) \/ (r <= 0 /\ bs = []);
  rp_wants : r = ERR_SSL_WANT_READ -> readable (ses c') = false /\ bio_want (ses c') = true
}.

Context {ME : MbedTLSErrors}.

Lemma recv_core_got want w r r' w' :
  recv_core want w r w' -> got r = got r' -> recv_core want w r' w'.
Proof. intros [Q N L T Len] E. split; rewrite <- ?E; auto. Qed.

Lemma want_read_not_recv_failed : ERR_NET_RECV_FAILED <> ERR_SSL_WANT_READ.
Proof.
  pose proof err_codes_distinct as Hd.
  repeat (apply NoDup_cons in Hd as [? Hd]). set_solver.
Qed.

Ltac recv_case :=
  split; cbn; eauto; try done; try lia;
  try (left; split; [lia | done]); try (right; split; [lia | done]).

Lemma vtls_recv_spec want c :
  let out := vtls_recv want c in
  recv_post want c (fst (fst out)) (snd (fst out)) (snd out).
Proof.
  unfold vtls_recv, pbind. pose proof want_read_neg. pose proof recv_failed_neg.
  pose proof want_read_not_recv_failed as Hne.
  pose proof (recv_loop_spec want (rintr (wire c)) (wire c) (Nat.le_refl _)) as [C D Sh Rf].
  change (fst (recv_retry want c)) with
    (fst (retry_while is_eintr (sys_recv want) (rintr (wire c)) (wire c))).
  change (snd (recv_retry want c)) with
    (c <| wire := snd (retry_while is_eintr (sys_recv want) (rintr (wire c)) (wire c)) |>).
  destruct (retry_while is_eintr (sys_recv want) (rintr (wire c)) (wire c)) as [[bs|e] w'].
  - cbn [fst snd] in *. destruct bs as [|b bs]; [recv_case|].
    cbn [got] in Sh. by destruct (Nat.ltb_spec (length (b :: bs)) want); recv_case.
  - cbn [fst snd got is_eintr] in *. apply recv_core_got with (r' := inl []) in C; [|done].
    by destruct ((e =? EAGAIN) || (e =? EWOULDBLOCK)); recv_case.
Qed.

Lemma unread_same s s' : same_ra s s' -> unread s' = unread s.
Proof. intros (R & O & L & _). unfold unread. by rewrite R, O, L. Qed.

Lemma recv_post_fed want c r bs c' : recv_post want c r bs c' -> fed (wire c') = fed (wire c).
Proof.
  intros [[_ _ [n L] _ _] _ _ _ _ _ _]. rewrite (fed_app _ _ _ L), fed_quiet. apply app_nil_r.
Qed.

Lemma recv_post_announced want c r bs c' :
  recv_post want c r bs c' -> (readable (ses c) = false -> announced (wire c)) ->
  readable (ses c') = false -> announced (wire c').
Proof.
  intros P A Hr. destruct (rp_readable _ _ _ _ _ P Hr) as [H|H]; [|by left].
  apply (rc_announced _ _ _ _ (rp_core _ _ _ _ _ P)), A, H.
Qed.

(** A read straight into the library's buffer. *)
Lemma recv_post_inv want c r bs c' :
  recv_post want c r bs c' -> inv [] c -> unread (ses c) = [] -> inv bs c'.
Proof.
  intros P [W St An Ex] U. pose proof (unread_same _ _ (rp_same _ _ _ _ _ P)) as Us.
  pose proof (rp_same _ _ _ _ _ P) as (R & O & L & A). split.
  - unfold ra_wf. by rewrite R, O, L.
  - rewrite (recv_post_fed _ _ _ _ _ P), Us, U. cbn.
    destruct (rc_queue _ _ _ _ (rp_core _ _ _ _ _ P)) as [d [-> Q]]. cbn in Q.
    rewrite <- St, U, <- Q. cbn. by rewrite app_assoc.
  - by eapply recv_post_announced.
  - intros _. by rewrite Us.
Qed.

Lemma recv_post_blocked want c r bs c' :
  recv_post want c r bs c' -> readable (ses c) = true -> blocked_ok (ses c) ->
  unread (ses c) = [] -> blocked_ok (ses c').
Proof.
  intros P Hr B U Hw. destruct (rp_want _ _ _ _ _ P Hw) as [H | [H _]].
  - destruct (B H). congruence.
  - by rewrite (unread_same _ _ (rp_same _ _ _ _ _ P)).
Qed.

(** A refill of the empty read-ahead. *)
Lemma ra_fill_spec c :
  inv [] c -> unread (ses c) = [] -> readahead (ses c) = true -> readable (ses c) = true ->
  let out := ra_fill c in
  inv [] (snd out) /\ (blocked_ok (ses c) -> blocked_ok (ses (snd out)))
  /\ (fst out <= 0 -> unread (ses (snd out)) = [])
  /\ (fst out = ERR_SSL_WANT_READ -> readable (ses (snd out)) = false).
Proof.
  intros I U Hra Hr. unfold ra_fill, pbind.
  pose proof (vtls_recv_spec VTLS_READAHEAD c) as P.
  destruct (vtls_recv VTLS_READAHEAD c) as [[r bs] c']. cbn [fst snd] in *.
  pose proof (recv_post_inv _ _ _ _ _ P I U) as [[W1 [W2 W3]] St An Ex].
  pose proof (fun B => recv_post_blocked _ _ _ _ _ P Hr B U) as B'.
  destruct P as [C (R & O & L & A) _ Hw _ Hret Hwr]. cbn.
  pose proof (rc_len _ _ _ _ C) as Len. cbn in Len.
  assert (Hn : (if 0 <? r then Z.to_nat r else 0%nat) = length bs).
  { destruct Hret as [[-> Hne] | [Hle ->]].
    - destruct bs; [done|]. cbn [length]. rewrite (proj2 (Z.ltb_lt _ _)) by lia. lia.
    - by rewrite (proj2 (Z.ltb_ge _ _)) by lia. }
  assert (Hu : unread (ra_store r bs (ses c')) = bs).
  { unfold unread. cbn. rewrite Hn, Nat.sub_0_r, drop_0. apply take_app_length. }
  assert (Uc : unread (ses c') = []) by (rewrite (unread_same (ses c)); [done | by repeat split]).
  split; [split|]; cbn -[ra_store].
  - unfold ra_wf. cbn. rewrite Hn, length_app, length_drop, W3. lia.
  - by rewrite Hu, <- St, Uc.
  - done.
  - cbn. congruence.
  - unfold blocked_ok. cbn -[ra_store]. rewrite !Hu. cbn. split; [|split].
    + intros B Hwt. destruct (B' B Hwt) as [_ Hf]. destruct (Hw Hwt) as [Hb | [_ Hb]]; [|done].
      destruct (B Hb). congruence.
    + intros Hle. destruct Hret as [[-> Hne] | [_ H]]; [|done]. destruct bs; [done|].
      cbn in Hle. lia.
    + intros Hq. by destruct (Hwr Hq).
Qed.

(** A copy out of the read-ahead. *)
Lemma ra_copy_spec len c :
  inv [] c ->
  let out := ra_copy len c in
  inv (snd (fst out)) (snd out) /\ (blocked_ok (ses c) -> blocked_ok (ses (snd out))).
Proof.
  intros [[W1 [W2 W3]] St An Ex]. unfold ra_copy, pbind. cbn -[ra_off ra_len].
  set (n := Nat.min (ra_len (ses c) - ra_off (ses c)) len). cbn.
  set (s1 := (ses c) <| ra_off := (ra_off (ses c) + n)%nat |>).
  assert (Hs : take n (drop (ra_off (ses c)) (ra (ses c))) ++ unread s1 = unread (ses c)).
  { unfold unread. cbn. rewrite <- drop_drop.
    rewrite <- (take_drop n (take (ra_len (ses c) - ra_off (ses c)) (drop (ra_off (ses c)) (ra (ses c))))).
    rewrite take_take, Nat.min_l by lia. rewrite skipn_firstn_comm. f_equal. f_equal. lia. }
  assert (Hnil : unread (ses c) = [] -> unread s1 = []).
  { intros E. rewrite E in Hs. by apply app_eq_nil in Hs as [_ ?]. }
  split; [split|]; cbn; auto.
  - unfold ra_wf. cbn. lia.
  - by rewrite (app_assoc (take _ _)), Hs.
  - intros B Hw. destruct (B Hw). auto.
Qed.

(** The receive callback. *)
Lemma vtls_bio_recv_spec len c :
  inv [] c ->
  let out := vtls_bio_recv len c in
  inv (snd (fst out)) (snd out) /\ (blocked_ok (ses c) -> blocked_ok (ses (snd out))).
Proof.
  intros I. unfold vtls_bio_recv. prog_step. unfold id.
  destruct (Nat.leb_spec (ra_len (ses c)) (ra_off (ses c))) as [Hle|_]; [|by apply ra_copy_spec].
  assert (U : unread (ses c) = []).
  { unfold unread. replace (ra_len (ses c) - ra_off (ses c))%nat with O by lia. apply take_0. }
  destruct (negb (closed (ses c) =? 0)); [done|].
  destruct (readable (ses c)) eqn:Hr; cbn [negb].
  2: { cbn. destruct I as [W St An Ex]. split; [by split | intros _ _; done]. }
  destruct (negb (readahead (ses c)) || (VTLS_READAHEAD <=? len)%nat) eqn:Hb.
  - pose proof (vtls_recv_spec len c) as P. split.
    + by eapply recv_post_inv.
    + intros B. by eapply recv_post_blocked.
  - apply orb_false_iff in Hb as [Hra%negb_false_iff _]. unfold pbind.
    destruct (ra_fill_spec c I U Hra Hr) as (I' & B' & _ & _).
    destruct (ra_fill c) as [r c']. cbn [fst snd] in *.
    destruct (r <=? 0); [done|]. destruct (ra_copy_spec len c' I'). auto.
Qed.

(** The send callback touches neither the read-ahead nor the receive queue. *)
Definition send_frame (c c' : conn) : Prop :=
  same_ra (ses c) (ses c') /\ readable (ses c') = readable (ses c)
  /\ bio_want (ses c') = bio_want (ses c) /\ rx (wire c') = rx (wire c)
  /\ arrived (wire c') = arrived (wire c) /\ edge (wire c') = edge (wire c)
  /\ fed (wire c') = fed (wire c) /\ lib_calls (wire c') = lib_calls (wire c).

(** From the invariant to the invariant, a blocked call staying a blocked one. *)
Definition safe (c c' : conn) : Prop :=
  inv [] c -> inv [] c' /\ (blocked_ok (ses c) -> blocked_ok (ses c')).

#[local] Instance safe_preorder : PreOrder safe.
Proof. unfold safe. split; [intros c; auto | intros c1 c2 c3 H1 H2 H; destruct (H1 H); tauto]. Qed.

Lemma send_frame_safe c c' :
  send_frame c c' -> safe c c'.
Proof.
  intros (S & R & Bw & Q & A & E & F & _) [W St An Ex].
  pose proof (unread_same _ _ S) as U. destruct S as (S1 & S2 & S3 & S4).
  split; [split|].
  - unfold ra_wf. by rewrite S1, S2, S3.
  - by rewrite F, U, Q, A.
  - unfold announced. by rewrite R, Q, E.
  - by rewrite S4, U.
  - unfold blocked_ok. by rewrite Bw, U, R.
Qed.

Lemma vtls_bio_send_frame buf c : send_frame c (snd (vtls_bio_send buf c)).
Proof.
  unfold vtls_bio_send, pbind. cbn [fst snd gets pget id].
  destruct (defer_send (ses c)); [by repeat split|].
  pose proof (send_loop_spec buf (length (sndq (wire c))) (wire c) (Nat.le_refl _)) as
    [[(Q & A & E) _ (es & L & Fo)] _].
  change (fst (send_retry buf c)) with
    (fst (retry_while is_eintr (sys_send buf) (length (sndq (wire c))) (wire c))).
  change (snd (send_retry buf c)) with
    (c <| wire := snd (retry_while is_eintr (sys_send buf) (length (sndq (wire c))) (wire c)) |>).
  destruct (retry_while is_eintr (sys_send buf) (length (sndq (wire c))) (wire c)) as [r w'].
  cbn [fst snd] in *.
  assert (F : fed w' = fed (wire c)) by (by rewrite (fed_app _ _ _ L), fed_sends, app_nil_r).
  assert (Lc : lib_calls w' = lib_calls (wire c))
    by (rewrite (lib_calls_app _ _ _ L), lib_free_sends by done; cbn; lia).
  destruct r as [n|e]; [|by repeat split].
  cbn. destruct ((wpend (ses c) =? 1) && (n =? length buf)%nat); by repeat split.
Qed.

Lemma fed_keeps bs c : inv bs c -> inv [] (c <| wire := emit (EvFed bs) (wire c) |>).
Proof.
  intros [W St An Ex]. split; auto. cbn. rewrite fed_emit. cbn. by rewrite <- app_assoc.
Qed.

(** A library call, whatever the library does. *)
Lemma run_tree_safe p : steps_in safe (run_tree p).
Proof.
  induction p as [ret out st | len k IH | buf k IH | type secret k IH]; intros c; cbn.
  - prog_step. apply send_frame_safe. by repeat split.
  - intros I. rewrite (bind_run (vtls_bio_recv len)).
    pose proof (vtls_bio_recv_spec len c I) as [I' B'].
    destruct (vtls_bio_recv len c) as [[r bs] c']. cbn [fst snd] in *. prog_step.
    destruct (IH r bs _ (fed_keeps _ _ I')). auto.
  - rewrite bind_run. etransitivity; [apply send_frame_safe, vtls_bio_send_frame | apply IH].
  - prog_step. etransitivity; [|apply IH]. apply send_frame_safe.
    by destruct (export_cb (ses c)) eqn:E; repeat split; cbn; rewrite E.
Qed.

Lemma emit_safe e c : fed_of e = [] -> safe c (c <| wire := emit e (wire c) |>).
Proof. intros He [W St An Ex]. split; [|done]. split; auto. cbn. by rewrite fed_emit, He, app_nil_r. Qed.

Lemma run_lib_safe call : steps_in safe (run_lib call).
Proof.
  intros c. unfold run_lib. prog_step. etransitivity; [by apply (emit_safe EvLib) | apply run_tree_safe].
Qed.

(** ** Library calls are counted *)

Definition same_calls (c c' : conn) : Prop := lib_calls (wire c') = lib_calls (wire c).

#[local] Instance same_calls_preorder : PreOrder same_calls.
Proof. unfold same_calls. split; [by intros c | intros c1 c2 c3; congruence]. Qed.

Lemma upd_same_calls f : steps_in same_calls (upd f).
Proof. by intros c. Qed.

Lemma vtls_recv_same_calls want : steps_in same_calls (vtls_recv want).
Proof.
  intros c. destruct (vtls_recv_spec want c) as [[_ _ [n L] _ _] _ _ _ _ _ _].
  unfold same_calls. rewrite (lib_calls_app _ _ _ L), lib_free_recvs. cbn. lia.
Qed.

Lemma ra_fill_same_calls : steps_in same_calls ra_fill.
Proof.
  unfold ra_fill. apply steps_in_bind; [typeclasses eauto | apply vtls_recv_same_calls |].
  intros [r bs]. by intros c.
Qed.

Lemma vtls_bio_recv_same_calls len : steps_in same_calls (vtls_bio_recv len).
Proof.
  intros c. unfold vtls_bio_recv. prog_step. unfold id.
  destruct (ra_len (ses c) <=? ra_off (ses c))%nat; [|done].
  destruct (negb (closed (ses c) =? 0)); [done|]. destruct (negb (readable (ses c))); [done|].
  destruct (_ || _); [apply vtls_recv_same_calls|]. unfold pbind.
  pose proof (ra_fill_same_calls c) as H. destruct (ra_fill c) as [r c'].
  cbn [fst snd] in *. by destruct (r <=? 0).
Qed.

Lemma run_tree_same_calls p : steps_in same_calls (run_tree p).
Proof.
  induction p as [ret out st | len k IH | buf k IH | type secret k IH]; cbn.
  - by intros c.
  - apply steps_in_bind; [typeclasses eauto | apply vtls_bio_recv_same_calls|].
    intros [r bs] c. prog_step. unfold same_calls. rewrite IH. cbn.
    rewrite lib_calls_emit. cbn. lia.
  - apply steps_in_bind; [typeclasses eauto | | done].
    intros c. by destruct (vtls_bio_send_frame buf c) as (_ & _ & _ & _ & _ & _ & _ & H).
  - apply steps_in_bind; [typeclasses eauto | apply upd_same_calls | done].
Qed.

Lemma run_lib_calls call c :
  lib_calls (wire (snd (run_lib call c))) = S (lib_calls (wire c)).
Proof.
  unfold run_lib. prog_step. rewrite run_tree_same_calls. cbn. rewrite lib_calls_emit. cbn. lia.
Qed.

Lemma lock_same_calls : steps_in same_calls VTLS_LOCK /\ steps_in same_calls VTLS_UNLOCK.
Proof.
  unfold VTLS_LOCK, VTLS_UNLOCK. split; intros c; destruct VTLS_SERIALIZED; try done.
  all: unfold same_calls; cbn; rewrite lib_calls_emit; cbn; lia.
Qed.

(** ** Entry points *)

Lemma lock_safe : steps_in safe VTLS_LOCK /\ steps_in safe VTLS_UNLOCK.
Proof.
  unfold VTLS_LOCK, VTLS_UNLOCK. split; intros c; destruct VTLS_SERIALIZED; try reflexivity.
  all: by apply emit_safe.
Qed.

(** The session fields that the invariant reads, but for [bio_want]. *)
Definition same_recv (s s' : vtls_session) : Prop :=
  same_ra s s' /\ (readable s' = true \/ readable s' = readable s).

Lemma upd_keeps_inv f : (forall s, same_recv s (f s)) -> steps_in (keeps (inv [])) (upd f).
Proof.
  intros Hf c [W St An Ex]. destruct (Hf (ses c)) as [S R].
  pose proof (unread_same _ _ S) as U. destruct S as (S1 & S2 & S3 & S4). split; cbn.
  - unfold ra_wf. by rewrite S1, S2, S3.
  - by rewrite U.
  - destruct R as [-> | ->]; [done | auto].
  - by rewrite S4, U.
Qed.

Ltac keep_fields := apply upd_keeps_inv; intros ?; by repeat split; right.

Definition call_post (r : Z + Z * list byte) (c' : conn) : Prop :=
  inv [] c' /\
  match r with
  | inl code => code = VTLS_WANT /\ unread (ses c') = [] /\ readable (ses c') = false
  | inr _ => blocked_ok (ses c')
  end.

(** A body of a retry loop calls the library once, unless it returns. *)
Definition one_call {A} (body : prog conn (Z + Z * A)) : Prop :=
  forall c, match fst (body c) with
            | inr _ => lib_calls (wire (snd (body c))) = S (lib_calls (wire c))
            | inl _ => True
            end.

Lemma locked_call_calls call : one_call (locked_call call).
Proof.
  intros c. unfold locked_call. prog_step. set (c0 := c <| ses := _ |>).
  pose proof (proj1 lock_same_calls c0) as N1.
  rewrite (bind_run VTLS_LOCK). destruct (VTLS_LOCK c0) as [u1 c1]. cbn [fst snd] in *.
  pose proof (run_lib_calls call c1) as N2.
  rewrite (bind_run (run_lib call)). destruct (run_lib call c1) as [x c2]. cbn [fst snd] in *.
  pose proof (proj2 lock_same_calls c2) as N3. cbn. by rewrite N3, N2, N1.
Qed.

Lemma read_body_calls len : one_call (read_body len).
Proof.
  intros c. unfold read_body. prog_step. unfold id.
  destruct (_ && _ && _ && _); [|apply locked_call_calls].
  destruct (negb _); [done|]. destruct (readahead (ses c)); [|apply locked_call_calls].
  unfold pbind. pose proof (ra_fill_same_calls c) as Hc. destruct (ra_fill c) as [r c'].
  cbn [fst snd] in *. destruct (r =? ERR_SSL_WANT_READ); [done|].
  pose proof (locked_call_calls (fun st => ssl_read st len) c') as H. by rewrite Hc in H.
Qed.

Lemma locked_call_spec call c :
  inv [] c -> call_post (fst (locked_call call c)) (snd (locked_call call c)).
Proof.
  intros I. unfold locked_call. prog_step.
  set (c0 := c <| ses := _ |>).
  assert (I0 : inv [] c0) by (revert I; keep_fields).
  destruct (proj1 lock_safe c0 I0) as [I1 B1].
  rewrite (bind_run VTLS_LOCK). destruct (VTLS_LOCK c0) as [u1 c1]. cbn [fst snd] in *.
  destruct (run_lib_safe call c1 I1) as [I2 B2].
  rewrite (bind_run (run_lib call)). destruct (run_lib call c1) as [x c2]. cbn [fst snd] in *.
  destruct (proj2 lock_safe c2 I2) as [I3 B3]. split; [done|]. by apply B3, B2, B1.
Qed.

Lemma read_body_spec len c :
  inv [] c -> call_post (fst (read_body len c)) (snd (read_body len c)).
Proof.
  intros I. unfold read_body. prog_step. unfold id.
  destruct (_ && _ && _ && _) eqn:E; [|by apply locked_call_spec].
  apply andb_true_iff in E as [E _]. apply andb_true_iff in E as [E _].
  apply andb_true_iff in E as [Hle%Nat.leb_le _].
  assert (U : unread (ses c) = []).
  { unfold unread. replace (ra_len (ses c) - ra_off (ses c))%nat with O by lia. apply take_0. }
  destruct (readable (ses c)) eqn:Hr; cbn [negb]; [|done].
  destruct (readahead (ses c)) eqn:Hra; [|by apply locked_call_spec].
  unfold pbind. destruct (ra_fill_spec c I U Hra Hr) as (I' & _ & Hn & Hw).
  destruct (ra_fill c) as [r c']. cbn [fst snd] in *.
  destruct (Z.eqb_spec r ERR_SSL_WANT_READ) as [-> | Hne]; [|by apply locked_call_spec].
  split; [done|]. split; [done|]. pose proof want_read_neg. split; [apply Hn; lia | auto].
Qed.

Lemma retry_loop_eq {A} (body : prog conn (Z + Z * A)) k c :
  retry_loop body (S k) c =
  match body c with
  | (inr (ret, a), c1) =>
      if (0 <? k)%nat && vtls_retry (ses c1) ret then retry_loop body k c1 else (inr (ret, a), c1)
  | (inl code, c1) => (inl code, c1)
  end.
Proof.
  cbn [retry_loop]. unfold pbind at 1. destruct (body c) as [[code|[ret a]] c1]; cbn [fst snd]; [done|].
  destruct k; [done|]. prog_step. by destruct (vtls_retry (ses c1) ret).
Qed.

(** The rule of the retry loop: [I] before a body, [Q] of its result after it.
    The loop ends with an answer that is not to be retried, or after [k] library
    calls. *)
Lemma retry_loop_rule {A} (I : conn -> Prop) (Q : Z + Z * A -> conn -> Prop)
    (body : prog conn (Z + Z * A)) k c :
  one_call body ->
  (forall c, I c -> Q (fst (body c)) (snd (body c))) ->
  (forall ret a c, Q (inr (ret, a)) c -> vtls_retry (ses c) ret = true -> I c) ->
  (1 <= k)%nat -> I c ->
  let out := retry_loop body k c in
  Q (fst out) (snd out) /\
  match fst out with
  | inl _ => True
  | inr (ret, _) =>
      vtls_retry (ses (snd out)) ret = false
      \/ lib_calls (wire (snd out)) = (lib_calls (wire c) + k)%nat
  end.
Proof.
  intros H1 Hb Hr. revert c. induction k as [|k IH]; intros c Hk Hi; [lia|].
  rewrite retry_loop_eq. pose proof (Hb c Hi) as Hq. pose proof (H1 c) as N1.
  destruct (body c) as [[code|[ret a]] c1]; cbn [fst snd] in *; [done|].
  destruct k as [|k']; cbn [Nat.ltb Nat.leb andb fst snd].
  { split; [done|]. right. lia. }
  destruct (vtls_retry (ses c1) ret) eqn:E; [|by cbn; auto].
  specialize (IH c1 ltac:(lia) (Hr _ _ _ Hq E)) as [Q2 P2]. split; [exact Q2|].
  destruct (retry_loop body (S k') c1) as [[code|[r2 a2]] c2]; cbn [fst snd] in *; [exact P2|].
  destruct P2 as [H|H]; [by left | right; lia].
Qed.

Lemma vtls_retry_false_blocked s :
  vtls_retry s ERR_SSL_WANT_READ = false -> bio_want s = true.
Proof.
  unfold vtls_retry. rewrite Z.eqb_refl. intros [_ H]%orb_false_iff. cbn in H.
  by apply negb_false_iff.
Qed.

Lemma map_ret_want ret : map_ret ret = VTLS_WANT -> ret = ERR_SSL_WANT_READ.
Proof.
  unfold map_ret. destruct (Z.eqb_spec ret ERR_SSL_WANT_READ); [done|].
  destruct (ret =? ERR_SSL_WANT_WRITE); done.
Qed.

(** The socket is drained and nothing is read ahead. *)
Definition drained (c : conn) : Prop := unread (ses c) = [] /\ announced (wire c).

(** Every answer of the retry loop that says "would block" is a drained socket,
    unless the library was called [VTLS_RETRIES] times. *)
Lemma retry_loop_want body c :
  one_call body ->
  (forall c, inv [] c -> call_post (fst (body c)) (snd (body c))) -> inv [] c ->
  let out := retry_loop body VTLS_RETRIES c in
  inv [] (snd out) /\
  (match fst out with inl code => code = VTLS_WANT | inr (ret, _) => ret = ERR_SSL_WANT_READ end ->
   drained (snd out) \/ lib_calls (wire (snd out)) = (lib_calls (wire c) + VTLS_RETRIES)%nat).
Proof.
  intros H1 Hb I. destruct (retry_loop_rule (inv []) call_post body VTLS_RETRIES c H1 Hb)
    as [[I' P] E]; [by intros ? ? ? [? _] | unfold VTLS_RETRIES; lia | done |].
  split; [done|]. destruct (retry_loop body VTLS_RETRIES c) as [[code|[ret a]] c']; cbn in *.
  - intros ->. destruct P as (_ & U & R). left. split; [done|]. by apply (inv_announced _ _ I').
  - intros ->. destruct E as [H|H]; [|by right]. left.
    destruct (P (vtls_retry_false_blocked _ H)). split; [done|]. by apply (inv_announced _ _ I').
Qed.

Lemma vtls_read_spec len c :
  inv [] c ->
  let out := vtls_read len c in
  inv [] (snd out) /\
  (fst (fst out) = VTLS_WANT ->
   drained (snd out) \/ lib_calls (wire (snd out)) = (lib_calls (wire c) + VTLS_RETRIES)%nat).
Proof.
  intros I. unfold vtls_read. rewrite (bind_run (retry_loop _ _)).
  destruct (retry_loop_want (read_body len) c (read_body_calls len) (read_body_spec len) I) as [I' P].
  destruct (retry_loop (read_body len) VTLS_RETRIES c) as [[code|[ret a]] c'];
    cbn [fst snd] in *; [by split|].
  prog_step. set (c1 := c' <| ses := _ |>).
  assert (I1 : inv [] c1) by (revert I'; keep_fields).
  destruct (Z.ltb_spec 0 ret).
  { split; [done|]. cbn. unfold VTLS_WANT. lia. }
  destruct ((ret =? 0) || (ret =? ERR_SSL_PEER_CLOSE_NOTIFY)).
  - prog_step. rewrite bind_run. split; [|done].
    destruct (ret =? ERR_SSL_PEER_CLOSE_NOTIFY); cbn [snd pret].
    + apply (upd_keeps_inv (fun s => s <| close_notify := true |>)); [by repeat split; right|].
      revert I1. keep_fields.
    + revert I1. keep_fields.
  - split; [done|]. cbn. intros ->%map_ret_want. by apply P.
Qed.

Lemma vtls_handshake_spec c :
  inv [] c ->
  let out := vtls_handshake c in
  inv [] (snd out) /\
  (fst out = VTLS_WANT ->
   drained (snd out) \/ lib_calls (wire (snd out)) = (lib_calls (wire c) + VTLS_RETRIES)%nat).
Proof.
  intros I. unfold vtls_handshake. rewrite (bind_run (retry_loop _ _)).
  destruct (retry_loop_want (locked_call ssl_handshake) c (locked_call_calls ssl_handshake)
            (locked_call_spec ssl_handshake) I) as [I' P].
  destruct (retry_loop (locked_call ssl_handshake) VTLS_RETRIES c) as [[code|[ret a]] c'];
    cbn [fst snd] in *; [by split|].
  destruct (ret =? 0); [done|]. rewrite bind_run. cbn [fst snd pret]. split.
  - destruct (map_ret ret =? VTLS_ERROR); [|done]. cbn [snd]. revert I'. keep_fields.
  - intros E. pose proof (map_ret_want _ E) as ->. rewrite E. by apply P.
Qed.

(** The invariant alone, as a step relation. *)
Definition keep := keeps (inv []).

#[local] Instance keep_preorder : PreOrder keep.
Proof. apply keeps_preorder. Qed.

Lemma safe_keep {A} (p : prog conn A) : steps_in safe p -> steps_in keep p.
Proof. intros H c I. by apply H. Qed.

Lemma locked_write_keep buf : steps_in keep (locked_write buf).
Proof.
  apply (steps_in_bind keep); [apply safe_keep, lock_safe | intros _].
  apply (steps_in_bind keep); [keep_fields | intros _].
  apply (steps_in_bind keep); [apply safe_keep, run_lib_safe | intros [ret out]].
  apply (steps_in_bind keep); [keep_fields | intros _].
  apply (steps_in_bind keep); [apply safe_keep, lock_safe | intros _; apply (steps_in_ret keep)].
Qed.

Lemma write_loop_keep fuel buf : steps_in keep (write_loop fuel buf).
Proof.
  induction fuel as [|f IH]; intros c; [done|]. cbn [write_loop]. prog_step. unfold id.
  destruct (wpend (ses c) =? 2); [prog_step; cbn [snd pret]; keep_fields|].
  apply (steps_in_bind keep); [apply locked_write_keep | intros ret].
  destruct (negb _); [apply (steps_in_ret keep)|].
  apply (steps_in_bind keep); [keep_fields | intros _; apply IH].
Qed.

Lemma flush_deferred_keep buf ret : steps_in keep (flush_deferred buf ret).
Proof.
  apply (steps_in_bind keep); [by intros c | intros [|]; [|apply (steps_in_ret keep)]].
  apply (steps_in_bind keep); [keep_fields | intros _].
  apply (steps_in_bind keep); [apply safe_keep, run_lib_safe | intros [r o]; apply (steps_in_ret keep)].
Qed.

Lemma vtls_write_keep fuel buf : steps_in keep (vtls_write fuel buf).
Proof.
  unfold vtls_write. apply (steps_in_bind keep); [apply write_loop_keep|].
  intros [[code|ret0]|]; try apply (steps_in_ret keep).
  apply (steps_in_bind keep); [apply flush_deferred_keep|]. intros ret.
  apply (steps_in_bind keep); [|intros code; apply (steps_in_ret keep)]. unfold write_result.
  destruct (0 <=? ret); (apply (steps_in_bind keep); [|intros _; apply (steps_in_ret keep)]).
  - keep_fields.
  - destruct (ret =? ERR_SSL_WANT_WRITE); [keep_fields | apply (steps_in_ret keep)].
Qed.
End Invariants.
