(* ===== verification/TlsKtls.v ===== *)
(** The kTLS handoff of tls/vanilla_tls.c: the traffic secrets captured during
    the handshake, the RFC 8446 key derivation, and the [setsockopt] sequence
    that moves record encryption into the kernel, or falls back to Mbed TLS.

    PSA Crypto's key derivation is the class [PSA]. *)
From S2P Require Import Prelude StreamSocket TlsSession TlsInvariants.
Local Open Scope Z_scope.
Local Open Scope prog_scope.

(** ** Kernel constants (<linux/tls.h>, <netinet/tcp.h>) *)

Definition SOL_TCP : Z := 6.
Definition TCP_ULP : Z := 31.
Definition SOL_TLS : Z := 282.
Definition TLS_TX : Z := 1.
Definition TLS_RX : Z := 2.
Definition TLS_RX_EXPECT_NO_PAD : Z := 4.
Definition TLS_1_3_VERSION : Z := 0x0304.
Definition TLS_CIPHER_AES_GCM_128 : Z := 51.

Class PSA := {
  psa_kdf_setup : bool;
  psa_kdf_input_secret : list byte -> bool;
  psa_kdf_input_info : list byte -> list byte -> bool;
  psa_kdf_output : list byte -> list byte -> nat -> option (list byte)
}.

(** [psa_key_derivation_output_bytes] fills the buffer it is given. *)
Class PSALaws `{PSA} : Prop :=
  psa_output_len : forall secret info n out, psa_kdf_output secret info n = Some out -> length out = n.

(** [unsigned char info[2 + 1 + 6 + 16 + 1]]. *)
Definition INFO_SIZE : nat := 26.

(** The writes into [info] of [hkdf_expand_label], from what the stack held. *)
Definition hkdf_info (stack label : list byte) (out_len : nat) : option (list byte) :=
  let full_len := (6 + length label)%nat in
  i0 ← memcpy_at 0 [byte_of_Z (Z.shiftr (Z.of_nat out_len) 8)] stack;
  i1 ← memcpy_at 1 [byte_of_Z (Z.land (Z.of_nat out_len) 0xff)] i0;
  i2 ← memcpy_at 2 [byte_of_Z (Z.of_nat full_len)] i1;
  i3 ← memcpy_at 3 (bytes_of "tls13 ") i2;
  i4 ← memcpy_at 9 label i3;
  i5 ← memcpy_at (3 + full_len) [NUL] i4;
  Some (take (3 + full_len + 1) i5).

Section Ktls.
Context `{ML : MbedTLS} `{BD : Build} `{PS : PSA}.

Definition hkdf_expand_label (stack secret label : list byte) (out_len : nat) : option (list byte) :=
  let full_len := (6 + length label)%nat in
  if (255 <? full_len)%nat || (INFO_SIZE <? 3 + full_len + 1)%nat then None
  else
    info ← hkdf_info stack label out_len;
    if psa_kdf_setup && psa_kdf_input_secret secret && psa_kdf_input_info secret info
    then psa_kdf_output secret info out_len else None.

Definition fill_crypto_info (stack secret : list byte) : option crypto_info :=
  key ← hkdf_expand_label stack secret (bytes_of "key") 16;
  iv12 ← hkdf_expand_label stack secret (bytes_of "iv") 12;
  Some (mkCryptoInfo TLS_1_3_VERSION TLS_CIPHER_AES_GCM_128
          (take 8 (drop 4 iv12)) (take 16 key) (take 4 iv12) (replicate 8 NUL)).

(** [ktls_first], run by one thread: claim the flag if nobody has. *)
Definition ktls_first (flag : ktls_flags -> bool) (claim : ktls_flags -> ktls_flags) : prog conn bool :=
  let* cur := pget (fun c => flag (flags c)) in
  if cur then pret false
  else
    let* prev := pget (fun c => flag (flags c)) in
    pmod (fun c => c <| flags := claim (flags c) |>) ;;
    pret (negb prev).

Definition log_once (flag : ktls_flags -> bool) (claim : ktls_flags -> ktls_flags) (line : logline) :
    prog conn unit :=
  let* first := ktls_first flag claim in
  if first then note (EvStderr line) else pret tt.

Definition log_fb (line : logline) : prog conn unit :=
  log_once ktls_logged_fb (fun f => f <| ktls_logged_fb := true |>) line.

Definition ktls_log_fb (why : string) : prog conn unit := log_fb (LogFallback why).

Definition setsockopt (level name : Z) (arg : optarg) : prog conn Z :=
  on_wire (sys_setsockopt level name arg).

(** The part of [enable_ktls] that runs once the keys are derived. *)
Definition ktls_install (tx rx : crypto_info) : prog conn unit :=
  let* e := setsockopt SOL_TCP TCP_ULP (ArgStr (bytes_of "tls" ++ [NUL])) in
  if negb (e =? 0) then log_fb (LogUlp e)
  else
    let* e := setsockopt SOL_TLS TLS_TX (ArgCrypto tx) in
    if negb (e =? 0) then upd (fun s => s <| ktls_failed := true |>)
    else
      let* e := setsockopt SOL_TLS TLS_RX (ArgCrypto rx) in
      if negb (e =? 0) then upd (fun s => s <| ktls_failed := true |>)
      else
        upd (fun s => s <| ktls := true |>) ;;
        let* s := gets id in
        let* rx_no_pad :=
          (if ktls_rx_no_pad s then
             let* e := setsockopt SOL_TLS TLS_RX_EXPECT_NO_PAD (ArgInt 1) in pret (e =? 0)
           else pret false) in
        log_once ktls_logged_ok (fun f => f <| ktls_logged_ok := true |>) (LogEngaged rx_no_pad).

(** The body of [enable_ktls] up to its label [done]; each key derivation runs on PSA, so it is a library call. *)
Definition ktls_gates (stack : list byte) : prog conn unit :=
  let* s := gets id in
  if tickets s then
    log_once ktls_logged_tickets (fun f => f <| ktls_logged_tickets := true |>) LogTickets
  else if ktls_off s then
    log_once ktls_logged_off (fun f => f <| ktls_logged_off := true |>) LogOff
  else if negb (ssl_get_ciphersuite_id (ssl s) =? TLS1_3_AES_128_GCM_SHA256) then
    ktls_log_fb "ciphersuite is not TLS_AES_128_GCM_SHA256"
  else if negb (have_server (keys s)) || negb (have_client (keys s)) then
    ktls_log_fb "traffic secrets not exported"
  else if negb (ssl_get_bytes_avail (ssl s) =? 0)%nat || ssl_check_pending (ssl s)
          || (ra_off s <? ra_len s)%nat then
    ktls_log_fb "mbedtls holds buffered plaintext at handoff"
  else
    note EvLib ;;
    match fill_crypto_info stack (server_app_secret (keys s)) with
    | None => ktls_log_fb "key derivation failed (TX)"
    | Some tx =>
        note EvLib ;;
        match fill_crypto_info stack (client_app_secret (keys s)) with
        | None => ktls_log_fb "key derivation failed (RX)"
        | Some rx => ktls_install tx rx
        end
    end.

Definition enable_ktls (stack : list byte) : prog conn bool :=
  ktls_gates stack ;;
  upd (fun s => s <| keys := zero_keys |>) ;;
  upd (fun s => s <| readahead := negb (ktls s) |>) ;;
  gets ktls.

Definition vtls_enable_ktls (stack : list byte) : prog conn bool :=
  VTLS_LOCK ;;
  let* r := enable_ktls stack in
  VTLS_UNLOCK ;;
  pret r.

Definition vtls_ktls_active (s : vtls_session) : bool := ktls s.

Definition vtls_ktls_failed (s : vtls_session) : bool := ktls_failed s.

(** A fatal internal_error alert, as a record of content type 21. *)
Definition vtls_ktls_abort : prog conn unit :=
  let* k := gets ktls in
  if negb k then pret tt else note (EvRecord 21 [byte_of_Z 2; byte_of_Z 80]).

End Ktls.

(** ** [ktls_first] under interleaving

    The flag is shared by every worker; each thread loads it, returns 0 if it is
    set, and otherwise exchanges it with 1. *)

Inductive claimer := AtLoad | AtExchange | Returned (first : bool).

Record claim_state := mkClaim { flag_set : bool; claimers : list claimer }.

Inductive claim_step : claim_state -> claim_state -> Prop :=
| claim_load_set f ts i :
    ts !! i = Some AtLoad -> f = true ->
    claim_step (mkClaim f ts) (mkClaim f (<[i := Returned false]> ts))
| claim_load_clear f ts i :
    ts !! i = Some AtLoad -> f = false ->
    claim_step (mkClaim f ts) (mkClaim f (<[i := AtExchange]> ts))
| claim_exchange f ts i :
    ts !! i = Some AtExchange ->
    claim_step (mkClaim f ts) (mkClaim true (<[i := Returned (negb f)]> ts)).

Definition is_first (t : claimer) : bool := match t with Returned b => b | _ => false end.

Definition firsts (ts : list claimer) : nat := length (List.filter is_first ts).

(** ** The key derivation *)

(** [HkdfLabel] of RFC 8446 section 7.1, with an empty context. *)
Definition rfc8446_hkdf_label (label : list byte) (out_len : nat) : list byte :=
  [byte_of_Z (Z.of_nat out_len / 256); byte_of_Z (Z.of_nat out_len)]
  ++ [byte_of_Z (Z.of_nat (length (bytes_of "tls13 " ++ label)))] ++ bytes_of "tls13 " ++ label
  ++ [byte_of_Z 0].

Lemma byte_of_Z_land z : byte_of_Z (Z.land z 0xff) = byte_of_Z z.
Proof.
  apply byte_val_inj. rewrite !byte_val_of_Z.
  change 0xff with (Z.ones 8). rewrite (Z.land_ones z 8) by lia. apply Zmod_mod.
Qed.

(** Writing [bs] right behind an already written prefix. *)
Lemma memcpy_at_extend pre bs junk :
  (length bs <= length junk)%nat ->
  memcpy_at (length pre) bs (pre ++ junk) = Some ((pre ++ bs) ++ drop (length bs) junk).
Proof.
  intros H. unfold memcpy_at. rewrite decide_True by (rewrite length_app; lia).
  rewrite take_app_length, drop_app_add, <- app_assoc. done.
Qed.

Lemma memcpy_at_next off pre bs junk (B : Type) (k : list byte -> option B) :
  off = length pre -> (length bs <= length junk)%nat ->
  (memcpy_at off bs (pre ++ junk) ≫= k) = k ((pre ++ bs) ++ drop (length bs) junk).
Proof. intros -> H. by rewrite memcpy_at_extend. Qed.

Ltac write_next :=
  rewrite memcpy_at_next
    by (repeat rewrite ?length_app, ?length_drop; cbn [length bytes_of String.list_byte_of_string map Ascii.byte_of_ascii]; cbn; lia).

Lemma hkdf_info_spec stack label out_len :
  length stack = INFO_SIZE -> (length label <= 16)%nat ->
  hkdf_info stack label out_len = Some (rfc8446_hkdf_label label out_len).
Proof.
  intros Hs Hl. unfold hkdf_info, INFO_SIZE in *. change stack with ([] ++ stack).
  do 6 write_next. f_equal.
  rewrite take_app_le by (rewrite !length_app; cbn; lia).
  rewrite take_ge by (rewrite !length_app; cbn; lia).
  rewrite byte_of_Z_land, Z.shiftr_div_pow2 by lia. unfold rfc8446_hkdf_label.
  rewrite length_app. change (length (bytes_of "tls13 ")) with 6%nat.
  by rewrite <- !app_assoc.
Qed.

(** Different labels or lengths never derive from the same [info]. *)
Lemma rfc8446_hkdf_label_inj l1 n1 l2 n2 :
  Z.of_nat n1 < 65536 -> Z.of_nat n2 < 65536 ->
  rfc8446_hkdf_label l1 n1 = rfc8446_hkdf_label l2 n2 -> l1 = l2 /\ n1 = n2.
Proof.
  intros H1 H2 E. unfold rfc8446_hkdf_label in E. cbn -[byte_of_Z Z.div] in E.
  injection E as Ehi Elo _ El.
  apply (f_equal byte_val) in Ehi, Elo. rewrite !byte_val_of_Z in Ehi, Elo. split.
  - by apply app_inv_tail in El.
  - rewrite !(Z.mod_small (_ / 256)) in Ehi by (split; [apply Z.div_pos | apply Z.div_lt_upper_bound]; lia).
    pose proof (Z.div_mod (Z.of_nat n1) 256). pose proof (Z.div_mod (Z.of_nat n2) 256). lia.
Qed.

Section KtlsFacts.
Context `{ML : MbedTLS} `{BD : Build} `{PS : PSA}.

Lemma hkdf_expand_label_spec stack secret label out_len :
  length stack = INFO_SIZE ->
  hkdf_expand_label stack secret label out_len =
  if (length label <=? 16)%nat then
    let info := rfc8446_hkdf_label label out_len in
    if psa_kdf_setup && psa_kdf_input_secret secret && psa_kdf_input_info secret info
    then psa_kdf_output secret info out_len else None
  else None.
Proof.
  intros Hs. unfold hkdf_expand_label.
  destruct (Nat.leb_spec (length label) 16) as [Hl|Hl].
  - rewrite (proj2 (orb_false_iff _ _)).
    2: { unfold INFO_SIZE. split; apply Nat.ltb_ge; lia. }
    by rewrite hkdf_info_spec.
  - rewrite (proj2 (orb_true_iff _ _)); [done|]. right. apply Nat.ltb_lt. unfold INFO_SIZE. lia.
Qed.

(** ** The handoff *)

(** What [log_once] may change: the log flags, and the log by lines of its own. *)
Definition only_logs (c c' : conn) : Prop :=
  ses c' = ses c
  /\ exists es, wire c' = (wire c) <| log := log (wire c) ++ es |>
       /\ Forall (fun e => exists l, e = EvStderr l) es.

Lemma log_once_only_logs flag claim line : steps_in only_logs (log_once flag claim line).
Proof.
  intros c. unfold log_once, ktls_first, note, pbind, pget, pmod, pret.
  destruct (flag (flags c)) eqn:E; cbn; rewrite ?E; cbn.
  - split; [done|]. exists []. split; [|done]. destruct c as [s w f]; destruct w; cbn. by rewrite app_nil_r.
  - split; [done|]. eexists [_]. split; [done|]. by constructor; eauto.
Qed.

(** The socket options set, with the outcome of each. *)
Definition sockopt_of (e : event) : option (Z * Z * optarg * bool) :=
  match e with EvSockopt l n a ok => Some (l, n, a, ok) | _ => None end.

Definition sockopts (es : list event) : list (Z * Z * optarg * bool) := omap sockopt_of es.

Definition opt_ulp (ok : bool) := (SOL_TCP, TCP_ULP, ArgStr (bytes_of "tls" ++ [NUL]), ok).
Definition opt_tx (ci : crypto_info) (ok : bool) := (SOL_TLS, TLS_TX, ArgCrypto ci, ok).
Definition opt_rx (ci : crypto_info) (ok : bool) := (SOL_TLS, TLS_RX, ArgCrypto ci, ok).
Definition opt_no_pad (ok : bool) := (SOL_TLS, TLS_RX_EXPECT_NO_PAD, ArgInt 1, ok).

(** How [enable_ktls] leaves the socket, by the options it set on it. *)
Inductive handoff (s : vtls_session) (stack : list byte) : list (Z * Z * optarg * bool) -> bool -> bool -> Prop :=
| handoff_fallback : handoff s stack [] false false
| handoff_no_ulp : handoff s stack [opt_ulp false] false false
| handoff_failed_tx txi :
    fill_crypto_info stack (server_app_secret (keys s)) = Some txi ->
    handoff s stack [opt_ulp true; opt_tx txi false] false true
| handoff_failed_rx txi rxi :
    fill_crypto_info stack (server_app_secret (keys s)) = Some txi ->
    fill_crypto_info stack (client_app_secret (keys s)) = Some rxi ->
    handoff s stack [opt_ulp true; opt_tx txi true; opt_rx rxi false] false true
| handoff_engaged txi rxi pad :
    fill_crypto_info stack (server_app_secret (keys s)) = Some txi ->
    fill_crypto_info stack (client_app_secret (keys s)) = Some rxi ->
    unread s = [] -> ssl_get_bytes_avail (ssl s) = O -> ssl_check_pending (ssl s) = false ->
    tickets s = false -> ktls_off s = false ->
    ssl_get_ciphersuite_id (ssl s) = TLS1_3_AES_128_GCM_SHA256 ->
    have_server (keys s) = true -> have_client (keys s) = true ->
    pad = [] \/ (exists ok, pad = [opt_no_pad ok] /\ ktls_rx_no_pad s = true) ->
    handoff s stack ([opt_ulp true; opt_tx txi true; opt_rx rxi true] ++ pad) true false.

Lemma sockopts_app es es' : sockopts (es ++ es') = sockopts es ++ sockopts es'.
Proof. apply omap_app. Qed.

Lemma sockopts_stderr es : Forall (fun e => exists l, e = EvStderr l) es -> sockopts es = [].
Proof. induction 1 as [|e es [l ->] _ IH]; [done | exact IH]. Qed.

(** One [setsockopt]: the option is logged with its outcome. *)
Lemma setsockopt_spec level name arg c :
  let out := setsockopt level name arg c in
  ses (snd out) = ses c /\ flags (snd out) = flags c
  /\ log (wire (snd out)) = log (wire c) ++ [EvSockopt level name arg (fst out =? 0)]
  /\ rx (wire (snd out)) = rx (wire c) /\ arrived (wire (snd out)) = arrived (wire c)
  /\ edge (wire (snd out)) = edge (wire c).
Proof.
  unfold setsockopt, on_wire, sys_setsockopt. cbn.
  by destruct (optq (wire c)).
Qed.

(** The socket's data and the session but for its kTLS outcome are untouched. *)
Record ktls_frame (c c' : conn) (es : list event) (k f : bool) : Prop := {
  kf_log : log (wire c') = log (wire c) ++ es;
  kf_fed : mjoin (fed_of <$> es) = [];
  kf_rx : rx (wire c') = rx (wire c) /\ arrived (wire c') = arrived (wire c)
          /\ edge (wire c') = edge (wire c);
  kf_ses : ses c' = (ses c) <| ktls := k |> <| ktls_failed := f |>
}.

Lemma ktls_frame_logs c c' c'' es k f :
  ktls_frame c c' es k f -> only_logs c' c'' ->
  exists es', ktls_frame c c'' (es ++ es') k f /\ sockopts (es ++ es') = sockopts es.
Proof.
  intros [L Fd (R & A & E) S] [S' (es' & W & F)]. exists es'. split.
  - split; rewrite ?W; cbn; rewrite ?L, ?app_assoc; try done; [|by rewrite S'].
    rewrite fmap_app, join_app, Fd. clear -F. by induction F as [|e es' [l ->] _ IH].
  - by rewrite sockopts_app, (sockopts_stderr es'), app_nil_r.
Qed.

Lemma ktls_frame_opt c c' es k f level name arg :
  ktls_frame c c' es k f ->
  let out := setsockopt level name arg c' in
  ktls_frame c (snd out) (es ++ [EvSockopt level name arg (fst out =? 0)]) k f.
Proof.
  intros [L Fd (R & A & E) S].
  destruct (setsockopt_spec level name arg c') as (S1 & F1 & L1 & R1 & A1 & E1).
  split; [by rewrite L1, L, app_assoc | by rewrite fmap_app, join_app, Fd | by rewrite R1, A1, E1 | by rewrite S1].
Qed.

Lemma ktls_frame_upd c c' es k f k' f' g :
  ktls_frame c c' es k f ->
  (g ((ses c) <| ktls := k |> <| ktls_failed := f |>) = (ses c) <| ktls := k' |> <| ktls_failed := f' |>) ->
  ktls_frame c (snd (upd g c')) es k' f'.
Proof. intros [L Fd R S] Hg. split; cbn; [done | done | done | by rewrite S]. Qed.

Lemma ktls_frame_lib c c' es k f : ktls_frame c c' es k f -> ktls_frame c (snd (note EvLib c')) (es ++ [EvLib]) k f.
Proof. intros [L Fd R S]. split; cbn; [by rewrite L, app_assoc | by rewrite fmap_app, join_app, Fd | done | done]. Qed.

Lemma ktls_frame_trans c c1 c2 es es' k f k' f' :
  ktls_frame c c1 es k f -> ktls_frame c1 c2 es' k' f' -> ktls_frame c c2 (es ++ es') k' f'.
Proof.
  intros [L Fd (R & A & E) S] [L' Fd' (R' & A' & E') S']. split; [by rewrite L', L, app_assoc | by rewrite fmap_app, join_app, Fd, Fd' | by rewrite R', A', E' | by rewrite S', S].
Qed.

Lemma log_fb_only_logs line : steps_in only_logs (log_fb line).
Proof. apply log_once_only_logs. Qed.

(** Runs the [setsockopt] at the head of the program on a state in frame [F]. *)
Ltac next_sockopt F :=
  rewrite (bind_run (setsockopt _ _ _));
  match goal with
  | |- context [setsockopt ?l ?n ?a ?c] =>
      let F' := fresh "F" in let e := fresh "e" in let c' := fresh "c" in
      pose proof (ktls_frame_opt _ _ _ _ _ l n a F) as F';
      destruct (setsockopt l n a c) as [e c']; cbn [fst snd] in F' |- *;
      destruct (e =? 0) eqn:?; cbn [negb]
  end.

(** The ways [ktls_install] ends: the options set, [ktls] and [ktls_failed]. *)
Definition installed (s : vtls_session) (txi rxi : crypto_info)
    (opts : list (Z * Z * optarg * bool)) (k f : bool) : Prop :=
  (opts = [opt_ulp false] /\ k = ktls s /\ f = ktls_failed s)
  \/ (opts = [opt_ulp true; opt_tx txi false] /\ k = ktls s /\ f = true)
  \/ (opts = [opt_ulp true; opt_tx txi true; opt_rx rxi false] /\ k = ktls s /\ f = true)
  \/ (exists pad, opts = [opt_ulp true; opt_tx txi true; opt_rx rxi true] ++ pad
       /\ k = true /\ f = ktls_failed s
       /\ (pad = [] \/ exists ok, pad = [opt_no_pad ok] /\ ktls_rx_no_pad s = true)).

Lemma ktls_install_spec txi rxi c :
  exists es k f, ktls_frame c (snd (ktls_install txi rxi c)) es k f
    /\ installed (ses c) txi rxi (sockopts es) k f.
Proof.
  assert (F0 : ktls_frame c c [] (ktls (ses c)) (ktls_failed (ses c))).
  { split; [by rewrite app_nil_r | done | done | by destruct (ses c)]. }
  unfold ktls_install. next_sockopt F0.
  2: { destruct (ktls_frame_logs _ _ _ _ _ _ F (log_fb_only_logs (LogUlp e) c0)) as (es' & F' & Sk).
       do 3 eexists; split; [exact F' | left; by rewrite Sk]. }
  next_sockopt F.
  2: { do 3 eexists; split; [by eapply (ktls_frame_upd _ _ _ _ _ _ true _ F1) | unfold installed; auto 10]. }
  next_sockopt F1.
  2: { do 3 eexists; split; [by eapply (ktls_frame_upd _ _ _ _ _ _ true _ F2) | unfold installed; auto 10]. }
  prog_step. unfold id.
  assert (F4 := ktls_frame_upd _ _ _ _ _ true (ktls_failed (ses c)) (fun s => s <| ktls := true |>) F2 eq_refl).
  set (c4 := c2 <| ses := _ |>) in *. change (snd (upd _ c2)) with c4 in F4.
  assert (Hp : ktls_rx_no_pad (ses c4) = ktls_rx_no_pad (ses c)) by (by rewrite (kf_ses _ _ _ _ _ F4)).
  rewrite Hp. destruct (ktls_rx_no_pad (ses c)) eqn:Ep.
  - rewrite (bind_run (pbind _ _)), (bind_run (setsockopt _ _ _)).
    pose proof (ktls_frame_opt _ _ _ _ _ SOL_TLS TLS_RX_EXPECT_NO_PAD (ArgInt 1) F4) as F5.
    destruct (setsockopt _ _ _ c4) as [e5 c5]. cbn [fst snd pret] in F5 |- *.
    destruct (ktls_frame_logs _ _ _ _ _ _ F5
      (log_once_only_logs ktls_logged_ok (fun f => f <| ktls_logged_ok := true |>)
         (LogEngaged (e5 =? 0)) c5)) as (es' & F' & Sk).
    do 3 eexists. split; [exact F'|]. do 3 right. rewrite Sk. eexists [_]. eauto 10.
  - rewrite bind_ret.
    destruct (ktls_frame_logs _ _ _ _ _ _ F4
      (log_once_only_logs ktls_logged_ok (fun f => f <| ktls_logged_ok := true |>)
         (LogEngaged false) c4)) as (es' & F' & Sk).
    do 3 eexists. split; [exact F'|]. do 3 right. rewrite Sk. exists []. auto 10.
Qed.

Lemma ktls_gates_spec stack c :
  ktls (ses c) = false -> ktls_failed (ses c) = false ->
  exists es k f, ktls_frame c (snd (ktls_gates stack c)) es k f
    /\ handoff (ses c) stack (sockopts es) k f.
Proof.
  intros Hk Hf.
  assert (F0 : ktls_frame c c [] false false).
  { split; [by rewrite app_nil_r | done | done |]. destruct (ses c); cbn in *; by subst. }
  assert (F1 := ktls_frame_lib _ _ _ _ _ F0). assert (F2 := ktls_frame_lib _ _ _ _ _ F1).
  assert (Lg : forall c1 es c', ktls_frame c c1 es false false -> sockopts es = [] -> only_logs c1 c' ->
    exists es k f, ktls_frame c c' es k f /\ handoff (ses c) stack (sockopts es) k f).
  { intros c1 es c' F S H. destruct (ktls_frame_logs _ _ _ _ _ _ F H) as (es' & F' & Sk).
    do 3 eexists. split; [exact F' | rewrite Sk, S; constructor]. }
  unfold ktls_gates. prog_step. unfold id.
  destruct (tickets (ses c)) eqn:Ht; [by eapply Lg; [exact F0 | | apply log_once_only_logs]|].
  destruct (ktls_off (ses c)) eqn:Ho; [by eapply Lg; [exact F0 | | apply log_once_only_logs]|].
  destruct (negb (_ =? _)) eqn:Ecs; [by eapply Lg; [exact F0 | | apply log_once_only_logs]|].
  apply negb_false_iff, Z.eqb_eq in Ecs.
  destruct (negb _ || negb _) eqn:Ek; [by eapply Lg; [exact F0 | | apply log_once_only_logs]|].
  apply orb_false_iff in Ek as [Eks%negb_false_iff Ekc%negb_false_iff].
  destruct (negb _ || _ || _) eqn:Eb; [by eapply Lg; [exact F0 | | apply log_once_only_logs]|].
  apply orb_false_iff in Eb as [Eb Era%Nat.ltb_ge].
  apply orb_false_iff in Eb as [Eav%negb_false_iff%Nat.eqb_eq Ecp].
  rewrite (bind_run (note EvLib)).
  destruct (fill_crypto_info stack (server_app_secret _)) as [txi|] eqn:Etx;
    [|by eapply Lg; [exact F1 | | apply log_once_only_logs]].
  rewrite (bind_run (note EvLib)).
  destruct (fill_crypto_info stack (client_app_secret _)) as [rxi|] eqn:Erx;
    [|by eapply Lg; [exact F2 | | apply log_once_only_logs]].
  destruct (ktls_install_spec txi rxi (snd (note EvLib (snd (note EvLib c))))) as (es & k & f & F & H).
  exists ([EvLib; EvLib] ++ es), k, f. split; [by apply (ktls_frame_trans _ _ _ _ _ _ _ _ _ F2)|].
  rewrite sockopts_app. cbn [sockopts omap list_omap app]. unfold installed in H. cbn in H. rewrite Hk, Hf in H.
  destruct H as [(-> & -> & ->) | [(-> & -> & ->) | [(-> & -> & ->) | (pad & -> & -> & -> & Hp)]]];
    econstructor; eauto.
  unfold unread. replace (ra_len (ses c) - ra_off (ses c))%nat with O by lia. apply take_0.
Qed.

Lemma enable_ktls_spec stack c :
  ktls (ses c) = false -> ktls_failed (ses c) = false ->
  let out := enable_ktls stack c in
  exists es,
    ktls_frame c (snd (ktls_gates stack c)) es (fst out) (ktls_failed (ses (snd out)))
    /\ handoff (ses c) stack (sockopts es) (fst out) (ktls_failed (ses (snd out)))
    /\ wire (snd out) = wire (snd (ktls_gates stack c))
    /\ ses (snd out) = (ses c) <| ktls := fst out |> <| ktls_failed := ktls_failed (ses (snd out)) |>
         <| keys := zero_keys |> <| readahead := negb (fst out) |>.
Proof.
  intros Hk Hf. destruct (ktls_gates_spec stack c Hk Hf) as (es & k & f & F & H).
  unfold enable_ktls. rewrite (bind_run (ktls_gates stack)). prog_step. cbn.
  pose proof (kf_ses _ _ _ _ _ F) as S. rewrite S. cbn. by exists es.
Qed.

Lemma enable_ktls_inv stack c :
  ktls (ses c) = false -> ktls_failed (ses c) = false -> inv [] c ->
  inv [] (snd (enable_ktls stack c)).
Proof.
  intros Hk Hf [W St An Ex].
  destruct (enable_ktls_spec stack c Hk Hf) as (es & [L Fd (R & A & E) _] & H & Wi & S).
  destruct (enable_ktls stack c) as [r c']. cbn [fst snd] in *.
  assert (U : unread (ses c') = unread (ses c)) by (by rewrite S).
  split.
  - by rewrite S.
  - by rewrite Wi, (fed_app _ _ _ L), Fd, app_nil_r, U, R, A.
  - rewrite Wi, S. unfold announced. by rewrite R, E.
  - rewrite U. rewrite S. cbn. intros Hr%negb_false_iff. subst r. by inversion H.
Qed.
End KtlsFacts.

(** ** The one-time log lines under interleaving *)

Lemma firsts_insert ts i t t' :
  ts !! i = Some t ->
  (firsts (<[i := t']> ts) + (if is_first t then 1 else 0) = firsts ts + (if is_first t' then 1 else 0))%nat.
Proof.
  unfold firsts. revert i. induction ts as [|u ts IH]; intros [|i] H; [done | done | |].
  - injection H as ->. cbn. destruct (is_first t), (is_first t'); cbn; lia.
  - specialize (IH i H). change (<[S i:=t']> (u :: ts)) with (u :: <[i:=t']> ts).
    cbn [List.filter]. destruct (is_first u); cbn [length]; lia.
Qed.

(** Exactly one claimer was first once the flag is set, and nobody has
    returned before. *)
Definition claim_inv (st : claim_state) : Prop :=
  firsts (claimers st) = (if flag_set st then 1 else 0)%nat
  /\ (flag_set st = false -> Forall (fun t => t = AtLoad \/ t = AtExchange) (claimers st)).

Lemma claim_inv_step st st' : claim_step st st' -> claim_inv st -> claim_inv st'.
Proof.
  destruct 1 as [f ts i Hi -> | f ts i Hi -> | f ts i Hi]; intros [Hn Hf]; split; cbn [claimers flag_set] in *.
  - pose proof (firsts_insert ts i _ (Returned false) Hi). cbn [is_first negb] in *. lia.
  - done.
  - pose proof (firsts_insert ts i _ AtExchange Hi). cbn [is_first negb] in *. lia.
  - intros _. apply Forall_insert; auto.
  - pose proof (firsts_insert ts i _ (Returned (negb f)) Hi). destruct f; cbn [is_first negb] in *; lia.
  - done.
Qed.

Lemma claim_inv_rtc st st' : rtc claim_step st st' -> claim_inv st -> claim_inv st'.
Proof. induction 1; eauto using claim_inv_step. Qed.

Lemma claim_inv_init n : claim_inv (mkClaim false (replicate n AtLoad)).
Proof.
  split; cbn.
  - induction n; cbn; auto.
  - intros _. apply Forall_replicate. by left.
Qed.

Lemma claim_length n st :
  rtc claim_step (mkClaim false (replicate n AtLoad)) st -> length (claimers st) = n.
Proof.
  intros H. remember (mkClaim false (replicate n AtLoad)) as s0 eqn:E.
  enough (length (claimers st) = length (claimers s0)) as ->
    by (subst; cbn; apply length_replicate).
  clear E. induction H as [|s1 s2 s3 Hs _ IH]; [done|].
  rewrite IH. destruct Hs; cbn; apply length_insert.
Qed.
