(* ===== verification/TlsLaws.v ===== *)
(** What the adapter relies on of Mbed TLS's output side, as documented for
    [mbedtls_ssl_write] and [mbedtls_ssl_read] (and restated in the comments of
    [vtls_write] and [vtls_retry]): one record at a time, a record that could
    not be sent stays pending and the next call only flushes it, and a TLS 1.3
    NewSessionTicket is processed through the handshake path, which first
    flushes pending output. *)
From S2P Require Import Prelude StreamSocket TlsSession.
Local Open Scope Z_scope.

(** The refusals a send callback may answer. *)
Definition send_refused `{MbedTLS} (r : Z) : Prop :=
  r = ERR_SSL_WANT_WRITE \/ r = ERR_NET_CONN_RESET \/ r = ERR_NET_SEND_FAILED.

(** The library's output side, seen from outside: the ciphertext it still has
    to send, the application bytes it has encrypted so far, the largest record,
    whether it holds a ticket it has not processed, and whether it met a fatal
    error, after which the session can only be freed. *)
Class MbedOut `{MbedTLS} := {
  out_left : ssl_t -> list byte;
  sealed : ssl_t -> list byte;
  payload : ssl_t -> nat;
  ticket_parked : ssl_t -> bool;
  failed : ssl_t -> bool
}.

(** A call that met a fatal error, whatever it is answered: it may send an alert
    of its own, and only leads to failed states. *)
Fixpoint doomed `{MbedOut} (p : libcall ssl_t) : Prop :=
  match p with
  | LRet _ _ st => failed st = true
  | LRecv _ k => forall r bs, doomed (k r bs)
  | LSend _ k => forall r, doomed (k r)
  | LExport _ _ k => doomed k
  end.

(** A library call run from pending output [out]: unless it meets a fatal error,
    it offers all its pending output at once, drops what was taken, and returns
    a refusal at once. [blocked] says whether a receive callback answered "would
    block"; [post] relates the return value, the output still pending and the
    final state. *)
Fixpoint out_tree `{MbedOut} (out : list byte) (blocked : bool)
    (post : Z -> list byte -> bool -> ssl_t -> Prop) (p : libcall ssl_t) : Prop :=
  doomed p \/
  match p with
  | LRet ret _ st => post ret out blocked st
  | LRecv _ k => forall r bs, out_tree out (blocked || (r =? ERR_SSL_WANT_READ)) post (k r bs)
  | LSend buf k =>
      buf = out /\ out <> []
      /\ (forall n, (1 <= n <= length out)%nat ->
            out_tree (drop n out) blocked post (k (Z.of_nat n)))
      /\ (forall r, send_refused r -> exists o st, k r = LRet r o st /\ post r out blocked st)
  | LExport _ _ k => out_tree out blocked post k
  end.

(** [mbedtls_ssl_write] reports one record of at most [payload] bytes. *)
Definition record_len `{MbedOut} (st : ssl_t) (buf : list byte) : nat :=
  Nat.min (length buf) (payload st).

(** A state reached with the same maximum and [enc] encrypted in total. *)
Definition out_state `{MbedOut} (st st' : ssl_t) (out enc : list byte) : Prop :=
  out_left st' = out /\ sealed st' = enc /\ payload st' = payload st.

(** The laws. *)
Class MbedOutLaws `{MbedOut} : Prop := {
  payload_pos : forall st, (0 < payload st)%nat;
  payload_int : forall st, Z.of_nat (payload st) < 2 ^ 31;
  max_payload : forall st, ssl_get_max_out_record_payload st = Z.of_nat (payload st);
  (** A failed library stays failed. *)
  failed_write : forall st buf, failed st = true -> doomed (ssl_write st buf);
  failed_read : forall st len, failed st = true -> doomed (ssl_read st len);
  (** A parked ticket is a record being processed. *)
  parked_pending : forall st, ticket_parked st = true -> ssl_check_pending st = true;
  (** No ticket: a pending record is flushed, else the next one is encrypted
      and flushed; once it is out the call reports its length. *)
  write_record : forall st buf, buf <> [] -> ticket_parked st = false ->
    let enc := if decide (out_left st = []) then sealed st ++ take (record_len st buf) buf
               else sealed st in
    exists out,
      out <> [] /\ (out_left st <> [] -> out = out_left st) /\
      out_tree out false
        (fun r out' _ st' =>
           out_state st st' out' enc /\ ticket_parked st' = false
           /\ (out' = [] -> r = Z.of_nat (record_len st buf)) /\ (out' <> [] -> send_refused r))
        (ssl_write st buf);
  (** A parked ticket is processed first, behind the pending output. *)
  write_ticket : forall st buf, buf <> [] -> ticket_parked st = true ->
    out_tree (out_left st) false
      (fun r out' _ st' =>
         out_state st st' out' (sealed st)
         /\ (out' = [] -> r = ERR_SSL_RECEIVED_NEW_SESSION_TICKET /\ ticket_parked st' = false)
         /\ (out' <> [] -> send_refused r))
      (ssl_write st buf);
  (** A read encrypts nothing; it leaves a ticket parked only when it could not
      flush the pending output, or wants to be called again to process it. *)
  read_out : forall st len,
    out_tree (out_left st) false
      (fun r out' blocked st' =>
         out_state st st' out' (sealed st)
         /\ (ticket_parked st' = true ->
             send_refused r \/ (r = ERR_SSL_WANT_READ /\ blocked = false)))
      (ssl_read st len)
}.
