(* ===== verification/TlsToy.v ===== *)
(** A small library that meets the interface of [TlsSession] and the laws of
    [TlsLaws]: it shows that the hypotheses of the theorems can hold, and the
    witnesses run it. Its "records" are plaintext: an application record it
    sends is a type byte, a length byte and the payload; what it receives is
    either a ticket (one byte) or a data byte behind its type byte. *)
From S2P Require Import Prelude StreamSocket TlsSession TlsKtls TlsLaws.
Local Open Scope Z_scope.

Record toy := mkToy {
  t_out : list byte;
  t_sealed : list byte;
  t_parked : bool;
  t_header : bool
}.

#[export] Instance eta_toy : Eta toy := mkEta _ (fun t =>
  mkToy (t_out t) (t_sealed t) (t_parked t) (t_header t)).

Definition toy0 : toy := mkToy [] [] false false.

Definition TICKET : byte := byte_of_Z 84.
Definition DATA : byte := byte_of_Z 68.
Definition TOY_PAYLOAD : nat := 16.

Definition TOY_WANT_READ : Z := -26880.
Definition TOY_WANT_WRITE : Z := -26752.
Definition TOY_GOT_TICKET : Z := -31488.

(** Offers [out] until it is all taken or refused. *)
Fixpoint toy_flush (n : nat) (out : list byte) (st : toy) (ret : Z) (fin : toy) : libcall toy :=
  match n with
  | O => LRet ret [] fin
  | S n' =>
      LSend out (fun r =>
        if r <=? 0 then LRet r [] (st <| t_out := out |>)
        else match drop (Z.to_nat r) out with
             | [] => LRet ret [] fin
             | out' => toy_flush n' out' st ret fin
             end)
  end.

Definition toy_flush_all (out : list byte) (st : toy) (ret : Z) : libcall toy :=
  toy_flush (length out) out st ret (st <| t_out := [] |>).

Definition toy_write (st : toy) (buf : list byte) : libcall toy :=
  let n := Nat.min (length buf) TOY_PAYLOAD in
  if t_parked st then
    toy_flush (length (t_out st)) (t_out st) st TOY_GOT_TICKET
      (st <| t_out := [] |> <| t_parked := false |>)
  else match t_out st with
       | [] => toy_flush_all ([DATA; byte_of_Z (Z.of_nat n)] ++ take n buf)
                 (st <| t_sealed := t_sealed st ++ take n buf |>) (Z.of_nat n)
       | out => toy_flush_all out st (Z.of_nat n)
       end.

Definition toy_data (st : toy) (r : Z) (bs : list byte) : libcall toy :=
  if r <=? 0 then LRet r [] (st <| t_header := true |>)
  else LRet r bs (st <| t_header := false |>).

Definition toy_read (st : toy) (len : nat) : libcall toy :=
  if t_parked st then
    toy_flush (length (t_out st)) (t_out st) st TOY_GOT_TICKET
      (st <| t_out := [] |> <| t_parked := false |>)
  else if t_header st then LRecv 1 (fun r bs => toy_data st r bs)
  else LRecv 1 (fun r bs =>
    if r <=? 0 then LRet r [] st
    else if decide (bs = [TICKET]) then LRet TOY_WANT_READ [] (st <| t_parked := true |>)
    else LRecv 1 (fun r' bs' => toy_data st r' bs')).

(** One byte from the peer, then both secrets. *)
Definition toy_handshake (st : toy) : libcall toy :=
  LRecv 1 (fun r bs =>
    if r <=? 0 then LRet r [] st
    else LExport TLS1_3_CLIENT_APPLICATION_TRAFFIC_SECRET (replicate 32 Byte.x01)
           (LExport TLS1_3_SERVER_APPLICATION_TRAFFIC_SECRET (replicate 32 Byte.x02) (LRet 0 [] st))).

#[export] Instance ToyTLS : MbedTLS := {
  ssl_t := toy;
  ssl_handshake := toy_handshake;
  ssl_read := toy_read;
  ssl_write := toy_write;
  ssl_close_notify st := LSend [byte_of_Z 21] (fun r => LRet 0 [] st);
  ssl_session_reset _ := (0, toy0);
  ssl_get_bytes_avail _ := O;
  ssl_check_pending := t_parked;
  ssl_get_max_out_record_payload _ := Z.of_nat TOY_PAYLOAD;
  ssl_get_ciphersuite_id _ := 0x1301;
  ssl_get_verify_result _ := 0x0c;
  ssl_get_alpn_protocol _ := None;
  ERR_SSL_WANT_READ := TOY_WANT_READ;
  ERR_SSL_WANT_WRITE := TOY_WANT_WRITE;
  ERR_SSL_RECEIVED_NEW_SESSION_TICKET := TOY_GOT_TICKET;
  ERR_SSL_PEER_CLOSE_NOTIFY := -30848;
  ERR_SSL_CONN_EOF := -29312;
  ERR_NET_RECV_FAILED := -76;
  ERR_NET_SEND_FAILED := -78;
  ERR_NET_CONN_RESET := -80;
  ERR_X509_CERT_VERIFY_FAILED := -9984;
  TLS1_3_AES_128_GCM_SHA256 := 0x1301
}.

#[export] Instance ToyOut : MbedOut := {
  out_left := t_out : ssl_t -> list byte;
  sealed := t_sealed;
  payload _ := TOY_PAYLOAD;
  ticket_parked := t_parked;
  failed _ := false
}.

#[export] Instance ToyErrors : MbedTLSErrors.
Proof. split; try done. by apply (bool_decide_unpack _). Qed.

(** A key derivation that repeats a byte of the secret. *)
#[export] Instance ToyPSA : PSA := {
  psa_kdf_setup := true;
  psa_kdf_input_secret _ := true;
  psa_kdf_input_info _ _ := true;
  psa_kdf_output secret info n := Some (replicate n (default NUL (head secret)))
}.

(** A build of Mbed TLS without [MBEDTLS_THREADING_C]. *)
#[export] Instance serialized_build : Build := true.

(** A session on the toy library, as [calloc] and the setup leave it, and a
    socket on which [bs] has arrived. *)
Definition toy_sock (bs : list byte) (fin : option conn_end) : sock :=
  mkSock bs bs fin true [] O [] [] [] [].

Definition no_flags : ktls_flags := mkFlags false false false false.

Definition toy_conn (s : vtls_session) (bs : list byte) (fin : option conn_end) : conn :=
  mkConn _ s (toy_sock bs fin) no_flags.

(** A client session on a socket where [bs] has arrived. *)
Definition toy_client (bs : list byte) : conn :=
  toy_conn (client_rearm 3 (session_calloc toy0)) bs None.

(** A server session, likewise. *)
Definition toy_server (bs : list byte) : conn :=
  toy_conn (session_init toy0 3 false false true) bs None.

Lemma refused_neg r : send_refused r -> (r <=? 0) = true.
Proof. intros [-> | [-> | ->]]; done. Qed.

(** What [toy_flush] does, for any postcondition of its two outcomes. *)
Lemma toy_flush_out n out st ret fin blk (post : Z -> list byte -> bool -> ssl_t -> Prop) :
  (length out <= n)%nat ->
  post ret [] blk fin ->
  (forall r o, o <> [] -> send_refused r -> post r o blk (st <| t_out := o |>)) ->
  out_tree out blk post (toy_flush n out st ret fin : libcall ssl_t) \/ out = [].
Proof.
  revert out. induction n as [|n IH]; intros out Hl Hf Hr; [right; by destruct out; cbn in *; [|lia]|].
  destruct out as [|b out]; [by right|]. left. cbn. right. repeat split; try done.
  - intros k Hk. rewrite (proj2 (Z.leb_gt _ _)) by lia. rewrite Nat2Z.id.
    destruct (drop k (b :: out)) as [|b' out'] eqn:E; [by right|].
    destruct (IH (b' :: out')) as [H|H]; try done.
    apply (f_equal length) in E. rewrite length_drop in E. cbn in *. lia.
  - intros r Hre. rewrite (refused_neg _ Hre). eauto.
Qed.

Lemma toy_flush_run out st ret fin blk (post : Z -> list byte -> bool -> ssl_t -> Prop) :
  out <> [] -> post ret [] blk fin ->
  (forall r o, o <> [] -> send_refused r -> post r o blk (st <| t_out := o |>)) ->
  out_tree out blk post (toy_flush (length out) out st ret fin : libcall ssl_t).
Proof. intros Ho Hf Hr. by destruct (toy_flush_out (length out) out st ret fin blk post). Qed.

(** A call that meets a parked ticket. *)
Lemma toy_ticket_out st (post : Z -> list byte -> bool -> ssl_t -> Prop) :
  post TOY_GOT_TICKET [] false (st <| t_out := [] |> <| t_parked := false |>) ->
  (forall r o, o <> [] -> send_refused r -> post r o false (st <| t_out := o |>)) ->
  out_tree (t_out st) false post
    (toy_flush (length (t_out st)) (t_out st) st TOY_GOT_TICKET
       (st <| t_out := [] |> <| t_parked := false |>) : libcall ssl_t).
Proof.
  intros Hf Hr. destruct (t_out st) as [|b out]; [by right|]. by apply toy_flush_run.
Qed.

Lemma toy_data_out st blk r bs (post : Z -> list byte -> bool -> ssl_t -> Prop) :
  (forall r' h, post r' (t_out st) blk (st <| t_header := h |>)) ->
  out_tree (t_out st) blk post (toy_data st r bs : libcall ssl_t).
Proof. intros H. unfold toy_data. destruct (r <=? 0); right; apply H. Qed.

Lemma toy_write_record (st : toy) buf :
  buf <> [] -> t_parked st = false ->
  let enc := if decide (t_out st = []) then t_sealed st ++ take (Nat.min (length buf) TOY_PAYLOAD) buf
             else t_sealed st in
  exists out,
    out <> [] /\ (t_out st <> [] -> out = t_out st) /\
    out_tree out false
      (fun r out' _ st' =>
         out_state st st' out' enc /\ t_parked st' = false
         /\ (out' = [] -> r = Z.of_nat (Nat.min (length buf) TOY_PAYLOAD))
         /\ (out' <> [] -> send_refused r))
      (toy_write st buf : libcall ssl_t).
Proof.
  intros Hb Hp. unfold toy_write, toy_flush_all. rewrite Hp. destruct (t_out st) as [|b out] eqn:Eo.
  - exists ([DATA; byte_of_Z (Z.of_nat (Nat.min (length buf) TOY_PAYLOAD))]
            ++ take (Nat.min (length buf) TOY_PAYLOAD) buf).
    split; [done|]. split; [done|]. apply toy_flush_run; [done | by repeat split |].
    intros r o Ho Hr. by repeat split.
  - exists (b :: out). split; [done|]. split; [done|]. apply toy_flush_run; [done | by repeat split |].
    intros r o Ho Hr. by repeat split.
Qed.

Lemma toy_read_out (st : toy) len :
  out_tree (t_out st) false
    (fun r out' blocked st' =>
       out_state st st' out' (t_sealed st)
       /\ (t_parked st' = true ->
           send_refused r \/ (r = ERR_SSL_WANT_READ /\ blocked = false)))
    (toy_read st len : libcall ssl_t).
Proof.
  unfold toy_read. destruct (t_parked st) eqn:Hp.
  { apply toy_ticket_out; [by repeat split|]. intros r o Ho Hr. repeat split. by left. }
  destruct (t_header st) eqn:Hh.
  { right. intros r bs. apply toy_data_out. intros r' h. repeat split. cbn. by rewrite Hp. }
  right. intros r bs. destruct (r <=? 0) eqn:Er.
  { right. repeat split. by rewrite Hp. }
  destruct (decide (bs = [TICKET])); right.
  - repeat split. intros _. right. split; [done|]. cbn.
    apply Z.leb_gt in Er. apply Z.eqb_neq. unfold TOY_WANT_READ. lia.
  - intros r' bs'. apply toy_data_out. intros r'' h. repeat split. cbn. by rewrite Hp.
Qed.

#[export] Instance ToyLaws : MbedOutLaws.
Proof.
  split.
  - intros st. cbn. unfold TOY_PAYLOAD. lia.
  - done.
  - done.
  - done.
  - done.
  - done.
  - exact toy_write_record.
  - intros st buf _ Hp. cbn in Hp. cbn [ssl_write ToyTLS]. unfold toy_write. rewrite Hp.
    apply toy_ticket_out; [by repeat split|]. intros r o Ho Hr. by repeat split.
  - exact toy_read_out.
Qed.
