(* ===== verification/TlsWrite.v ===== *)
(** The write side of a TLS session: a record that could not be sent whole stays
    pending inside the library, and [vtls_write]'s retry must neither encrypt it
    twice nor report bytes that were never encrypted, also when a read in
    between flushed it. Proved against the laws of [TlsLaws]. *)
From S2P Require Import Prelude StreamSocket TlsSession TlsInvariants TlsLaws.
Local Open Scope Z_scope.
Local Open Scope prog_scope.

Section WriteSide.
Context `{ML : MbedTLS} `{BD : Build} {MO : MbedOut} {ME : MbedTLSErrors}.

(** The session fields the receive callback leaves alone. *)
Definition same_send (s s' : vtls_session) : Prop :=
  ssl s' = ssl s /\ defer_send s' = defer_send s /\ deferred s' = deferred s
  /\ wpend s' = wpend s /\ parked s' = parked s.

(** A receive, from the send side: only [bio_want] tells that it blocked. *)
Definition recv_quiet (c : conn) (r : Z) (c' : conn) : Prop :=
  same_send (ses c) (ses c')
  /\ (bio_want (ses c') = true -> bio_want (ses c) = true \/ r = ERR_SSL_WANT_READ).

Lemma vtls_recv_quiet want c : recv_quiet c (fst (fst (vtls_recv want c))) (snd (vtls_recv want c)).
Proof.
  unfold vtls_recv, pbind.
  assert (S : ses (snd (recv_retry want c)) = ses c) by done.
  destruct (recv_retry want c) as [[[|b bs]|e] c']; cbn [fst snd] in *.
  - split; [by repeat split; cbn; rewrite S | cbn; rewrite S; auto].
  - destruct (length (b :: bs) <? want)%nat;
      (split; [by repeat split; cbn; rewrite S | cbn; rewrite S; auto]).
  - destruct ((e =? EAGAIN) || (e =? EWOULDBLOCK));
      (split; [by repeat split; cbn; rewrite S | cbn; rewrite ?S; auto]).
Qed.

Lemma ra_fill_quiet c : recv_quiet c (fst (ra_fill c)) (snd (ra_fill c)).
Proof.
  unfold ra_fill. rewrite bind_run. pose proof (vtls_recv_quiet VTLS_READAHEAD c) as Q.
  destruct (vtls_recv VTLS_READAHEAD c) as [[r bs] c']. exact Q.
Qed.

Lemma vtls_bio_recv_quiet len c :
  recv_quiet c (fst (fst (vtls_bio_recv len c))) (snd (vtls_bio_recv len c)).
Proof.
  assert (R : forall z, recv_quiet c z c) by (intros z; split; [by repeat split | auto]).
  unfold vtls_bio_recv. prog_step. unfold id.
  destruct (ra_len (ses c) <=? ra_off (ses c))%nat; [|by split; [repeat split | auto]].
  destruct (negb (closed (ses c) =? 0)); [apply R|].
  destruct (negb (readable (ses c))); [by split; [repeat split | auto]|].
  destruct (_ || _); [apply vtls_recv_quiet|].
  rewrite bind_run. pose proof (ra_fill_quiet c) as Q. destruct (ra_fill c) as [r c'].
  cbn [fst snd] in *. destruct (Z.leb_spec r 0); [exact Q|].
  destruct Q as [S B]. split; [exact S|]. cbn. intros Hb. pose proof want_read_neg.
  destruct (B Hb); [auto | lia].
Qed.

(** What one library call does to the session's send side, started with [out]
    pending and ended with [out'] pending. *)
Record send_track (c : conn) (out out' : list byte) (c' : conn) : Prop := {
  st_defer : defer_send (ses c') = defer_send (ses c);
  st_parked : parked (ses c') = parked (ses c);
  st_suffix : exists n, out' = drop n out;
  st_wpend : wpend (ses c') = if decide (wpend (ses c) = 1 /\ out' = []) then 2 else wpend (ses c);
  st_held : defer_send (ses c) = true -> out' = out /\ wpend (ses c') = wpend (ses c);
  st_deferred : deferred (ses c') = true ->
    deferred (ses c) = true \/ (defer_send (ses c) = true /\ out <> [])
}.

Lemma send_track_refl c c' out :
  (wpend (ses c) = 1 -> out <> []) -> same_send (ses c) (ses c') -> send_track c out out c'.
Proof.
  intros Hw (_ & D & F & W & P). split; rewrite ?D, ?F, ?W, ?P; try done; [by exists O| |auto].
  rewrite decide_False; [done | tauto].
Qed.

Lemma send_track_trans c out c1 out1 c2 out2 :
  send_track c out out1 c1 -> send_track c1 out1 out2 c2 -> send_track c out out2 c2.
Proof.
  intros [D1 P1 [n1 S1] W1 Hh1 F1] [D2 P2 [n2 S2] W2 Hh2 F2]. split; try congruence.
  - exists (n1 + n2)%nat. by rewrite S2, S1, drop_drop.
  - rewrite W2, W1. assert (out1 = [] -> out2 = []) by (intros E; by rewrite S2, E, drop_nil).
    repeat case_decide; try tauto; intuition lia.
  - intros Hd. destruct (Hh1 Hd) as [-> Hw1]. destruct Hh2 as [-> Hw2]; [congruence|].
    split; [done | congruence].
  - intros Hf. destruct (F2 Hf) as [H | [H Hne]]; [auto|]. right. rewrite D1 in H. split; [done|].
    by destruct (Hh1 H) as [<- _].
Qed.

(** A refusal that is the session's own, or the socket's. *)
Lemma send_errno_refused e :
  send_refused (if (e =? EAGAIN) || (e =? EWOULDBLOCK) then ERR_SSL_WANT_WRITE
                else if (e =? EPIPE) || (e =? ECONNRESET) then ERR_NET_CONN_RESET
                else ERR_NET_SEND_FAILED).
Proof. unfold send_refused. destruct (_ || _); [auto|]. destruct (_ || _); auto. Qed.

(** One send: taken bytes leave the pending output; a refusal changes nothing
    but [deferred]. *)
Lemma vtls_bio_send_track out c :
  out <> [] ->
  let r := fst (vtls_bio_send out c) in
  let c' := snd (vtls_bio_send out c) in
  bio_want (ses c') = bio_want (ses c) /\
  ((exists n, (1 <= n <= length out)%nat /\ r = Z.of_nat n /\ send_track c out (drop n out) c')
   \/ (send_refused r /\ send_track c out out c')).
Proof.
  intros Ho. unfold vtls_bio_send. prog_step. unfold id.
  destruct (defer_send (ses c)) eqn:Ed.
  { split; [done|]. right. split; [by left|].
    split; cbn; auto; [by exists O | rewrite decide_False; [done | tauto]]. }
  rewrite bind_run.
  pose proof (send_loop_spec out (length (sndq (wire c))) (wire c) (Nat.le_refl _)) as [[_ T _] _].
  assert (Es : ses (snd (send_retry out c)) = ses c) by done.
  change (fst (retry_while is_eintr (sys_send out) (length (sndq (wire c))) (wire c)))
    with (fst (send_retry out c)) in T.
  destruct (send_retry out c) as [[n|e] c1]; cbn [fst snd] in *.
  - destruct T as (_ & Hle & Hpos). specialize (Hpos Ho). prog_step. rewrite Es.
    assert (Hn : (n =? length out)%nat = bool_decide (drop n out = [])).
    { rewrite bool_decide_decide. case_decide as E.
      - apply (f_equal length) in E. rewrite length_drop in E. cbn in E. apply Nat.eqb_eq. lia.
      - apply Nat.eqb_neq. intros ->. by rewrite drop_all in E. }
    split; [by destruct (_ && _)|]. left. exists n. split; [lia|]. split; [done|]. rewrite Hn.
    destruct (Z.eqb_spec (wpend (ses c)) 1) as [Hw|Hw]; cbn [andb];
      [destruct (bool_decide_reflect (drop n out = []))|]; split; cbn; rewrite ?Es; try congruence;
      auto; try (by exists n); try (rewrite decide_True by done; congruence);
      rewrite decide_False by tauto; done.
  - split; [cbn; by rewrite Es|]. right. split; [apply send_errno_refused|].
    apply send_track_refl; [done | by repeat split; cbn; rewrite Es].
Qed.

Lemma doomed_run p c : doomed p -> failed (ssl (ses (snd (run_tree p c)))) = true.
Proof.
  revert c. induction p as [ret o st | len k IH | buf k IH | ty sec k IH]; intros c; cbn.
  - done.
  - intros Hd. rewrite bind_run. destruct (vtls_bio_recv len c) as [[r bs] c']. apply IH, Hd.
  - intros Hd. rewrite bind_run. apply IH, Hd.
  - intros Hd. prog_step. apply IH, Hd.
Qed.

(** A library call that follows the law, run against the session's callbacks:
    a receive callback that set [bio_want] is one that answered "would block". *)
Lemma run_tree_out p out blk post c :
  out_tree out blk post p -> (wpend (ses c) = 1 -> out <> []) ->
  let r := fst (fst (run_tree p c)) in
  let c' := snd (run_tree p c) in
  failed (ssl (ses c')) = true
  \/ exists out' blk',
       post r out' blk' (ssl (ses c')) /\ send_track c out out' c' /\ (blk = true -> blk' = true)
       /\ (bio_want (ses c') = true -> blk' = true \/ bio_want (ses c) = true).
Proof.
  revert out blk c. induction p as [ret o st | len k IH | buf k IH | ty sec k IH];
    intros out blk c Ht Hw; cbn zeta; destruct Ht as [Hd|Ht];
    try (by left; apply doomed_run); cbn [run_tree].
  - right. exists out, blk. split; [exact Ht|]. split; [|by auto]. split; cbn; auto; [by exists O|].
    rewrite decide_False; [done | tauto].
  - rewrite bind_run. pose proof (vtls_bio_recv_quiet len c) as [Q B].
    destruct (vtls_bio_recv len c) as [[r bs] c1]. cbn [fst snd] in *. prog_step.
    set (c2 := c1 <| wire := _ |>).
    assert (Hw2 : wpend (ses c2) = 1 -> out <> [])
      by (destruct Q as (_ & _ & _ & W & _); unfold c2; cbn; by rewrite W).
    destruct (IH r bs out _ c2 (Ht r bs) Hw2) as [Hf | (o' & b' & P & T & M & B')]; [by left|].
    rewrite orb_true_iff, Z.eqb_eq in M. right. exists o', b'. split; [done|].
    split; [eapply send_track_trans; [apply (send_track_refl c c2); done | exact T]|].
    split; [by auto|]. intros H. destruct (B' H) as [H'|H']; [by left|].
    destruct (B H') as [H''|H'']; auto.
  - destruct Ht as (-> & Ho & Hn & Hr). rewrite bind_run.
    pose proof (vtls_bio_send_track out c Ho) as [Eb [(n & Hle & E & T) | (E & T)]].
    all: destruct (vtls_bio_send out c) as [r c1]; cbn [fst snd] in *; subst; rewrite <- Eb.
    + destruct (IH (Z.of_nat n) (drop n out) blk c1 (Hn n Hle)) as [Hf | (o' & b' & P & T' & B')];
        [|by left|].
      { rewrite (st_wpend _ _ _ _ T). case_decide; [done | tauto]. }
      right. exists o', b'. split; [done|]. split; [by eapply send_track_trans | done].
    + destruct (Hr r E) as (o & st & Ek & P). rewrite Ek. right. exists out, blk. cbn.
      split; [done|]. split; [|by auto]. destruct T as [D1 P1 S1 W1 H1 F1]. by split.
  - prog_step. set (c1 := c <| ses := _ |>).
    assert (Q : same_send (ses c) (ses c1) /\ bio_want (ses c1) = bio_want (ses c)).
    { unfold c1; cbn. destruct (export_cb (ses c)); by repeat split. }
    destruct Q as [Q <-]. destruct (IH out blk c1 Ht) as [Hf | (o' & b' & P & T & B')];
      [destruct Q as (_ & _ & _ & -> & _); done | by left |].
    right. exists o', b'. split; [done|]. split; [|done].
    eapply send_track_trans; [apply (send_track_refl c c1); done | exact T].
Qed.

Lemma run_lib_out call out post c :
  out_tree out false post (call (ssl (ses c))) -> (wpend (ses c) = 1 -> out <> []) ->
  let r := fst (fst (run_lib call c)) in
  let c' := snd (run_lib call c) in
  failed (ssl (ses c')) = true
  \/ exists out' blk',
       post r out' blk' (ssl (ses c')) /\ send_track c out out' c'
       /\ (bio_want (ses c') = true -> blk' = true \/ bio_want (ses c) = true).
Proof.
  intros Ht Hw. unfold run_lib. prog_step. set (c0 := c <| wire := _ |>).
  change (ssl (ses c0)) with (ssl (ses c)).
  destruct (run_tree_out _ out false post c0 Ht Hw)
    as [Hf | (o' & b' & P & [D1 P1 S1 W1 H1 F1] & _ & B)]; [left; exact Hf|].
  right. exists o', b'. split; [exact P|]. by split; [split|].
Qed.

Context {LAW : MbedOutLaws}.

(** The plaintext of the record [vtls_write] cuts from [l] bytes of [p]. *)
Definition record_of (st : ssl_t) (l : nat) (p : list byte) : list byte :=
  take (Nat.min l (payload st)) p.

(** Where the session stands with the plaintext [p] its caller has yet to see
    reported sent, [consumed] being what it has: nothing pending; a record of
    the first [l] bytes encrypted and not all out; that record out, and not yet
    reported. *)
Inductive wphase (consumed p : list byte) (l : nat) (c : conn) : Prop :=
| idle : wpend (ses c) = 0 -> l = O -> sealed (ssl (ses c)) = consumed ->
    out_left (ssl (ses c)) = [] -> wphase consumed p l c
| pending : wpend (ses c) = 1 -> (0 < l)%nat ->
    sealed (ssl (ses c)) = consumed ++ record_of (ssl (ses c)) l p ->
    out_left (ssl (ses c)) <> [] -> wphase consumed p l c
| flushed : wpend (ses c) = 2 -> (0 < l)%nat ->
    sealed (ssl (ses c)) = consumed ++ record_of (ssl (ses c)) l p ->
    out_left (ssl (ses c)) = [] -> wphase consumed p l c.

Record wbase (consumed p : list byte) (l : nat) (c : conn) : Prop := {
  wb_defer : defer_send (ses c) = false;
  wb_deferred : deferred (ses c) = false;
  wb_len : (l <= length p)%nat;
  wb_phase : wphase consumed p l c
}.

(** Between two calls: a ticket behind pending output is known to be parked. *)
Record wok (consumed p : list byte) (l : nat) (c : conn) : Prop := {
  wk_base : wbase consumed p l c;
  wk_ticket : ticket_parked (ssl (ses c)) = true -> out_left (ssl (ses c)) <> [] ->
    parked (ses c) = true
}.

(** What a [vtls_write] of the first [l] bytes of [p] may end in. *)
Definition write_post (consumed p : list byte) (l : nat) (r : option Z) (c' : conn) : Prop :=
  failed (ssl (ses c')) = true \/
  match r with
  | None => False
  | Some r =>
      (exists n, r = Z.of_nat n /\ (0 < n <= l)%nat
                 /\ wok (consumed ++ take n p) (drop n p) 0 c')
      \/ (r = VTLS_WANT_WRITE /\ wok consumed p l c') \/ r = VTLS_ERROR
  end.

(** The record is encrypted, and the library's last answer [ret] says whether
    it is out. *)
Record written (consumed p : list byte) (l : nat) (ret : Z) (c : conn) : Prop := {
  wr_defer : defer_send (ses c) = false;
  wr_ticket : ticket_parked (ssl (ses c)) = true -> out_left (ssl (ses c)) <> [] ->
    parked (ses c) = true;
  wr_sealed : sealed (ssl (ses c)) = consumed ++ record_of (ssl (ses c)) l p;
  wr_ret : out_left (ssl (ses c)) = [] -> ret = Z.of_nat (Nat.min l (payload (ssl (ses c))));
  wr_refused : out_left (ssl (ses c)) <> [] -> send_refused ret
}.

Lemma lock_ses c : ses (snd (VTLS_LOCK c)) = ses c /\ ses (snd (VTLS_UNLOCK c)) = ses c.
Proof. unfold VTLS_LOCK, VTLS_UNLOCK. by destruct VTLS_SERIALIZED. Qed.

Lemma refused_codes r :
  send_refused r -> r < 0 /\ r <> ERR_SSL_RECEIVED_NEW_SESSION_TICKET /\ r <> ERR_SSL_WANT_READ
  /\ (r = ERR_SSL_WANT_WRITE \/ map_ret r = VTLS_ERROR).
Proof.
  intros Hr. pose proof want_write_neg. pose proof conn_reset_neg. pose proof send_failed_neg.
  pose proof err_codes_distinct as Hd. repeat (apply NoDup_cons in Hd as [? Hd]). clear Hd.
  assert (r <> ERR_SSL_WANT_READ) by (destruct Hr as [-> | [-> | ->]]; set_solver).
  split; [destruct Hr as [-> | [-> | ->]]; done|].
  split; [destruct Hr as [-> | [-> | ->]]; set_solver|]. split; [done|].
  unfold map_ret. destruct (Z.eqb_spec r ERR_SSL_WANT_READ); [done|].
  destruct (Z.eqb_spec r ERR_SSL_WANT_WRITE); auto.
Qed.

(** The end of [vtls_write] settles the phase. *)
Lemma write_result_post consumed p l ret c :
  (0 < l <= length p)%nat -> written consumed p l ret c -> deferred (ses c) = false ->
  write_post consumed p l (Some (fst (write_result ret c))) (snd (write_result ret c)).
Proof.
  intros Hl [D T E Ro Rr] F. right. unfold write_result.
  pose proof (payload_pos (ssl (ses c))) as Hp.
  destruct (decide (out_left (ssl (ses c)) = [])) as [Ho|Ho].
  - rewrite (Ro Ho). rewrite (proj2 (Z.leb_le _ _)) by lia. left.
    exists (Nat.min l (payload (ssl (ses c)))). split; [done|]. split; [lia|].
    split; [split|]; cbn; try done; [lia|]. by apply idle.
  - destruct (refused_codes _ (Rr Ho)) as (Hn & _ & _ & Hm).
    rewrite (proj2 (Z.leb_gt _ _)) by lia. right.
    destruct (Z.eqb_spec ret ERR_SSL_WANT_WRITE) as [->|Hne]; [|right; by destruct Hm].
    left. prog_step. cbn [fst snd pret]. split.
    + unfold map_ret. rewrite Z.eqb_refl. destruct (Z.eqb_spec ERR_SSL_WANT_WRITE ERR_SSL_WANT_READ); [|done].
      by destruct (refused_codes _ (Rr Ho)) as (_ & _ & ? & _).
    + split; [split|]; cbn; try done; [lia|]. by apply pending; [|lia|..].
Qed.

(** The record a write law leaves, as plaintext of the caller's queue. *)
Lemma record_take st l p : (l <= length p)%nat ->
  record_len st (take l p) = Nat.min l (payload st)
  /\ take (record_len st (take l p)) (take l p) = record_of st l p.
Proof.
  intros Hl. unfold record_len, record_of. rewrite length_take, (Nat.min_l l) by lia.
  split; [done|]. rewrite take_take. f_equal. lia.
Qed.

(** The library's own side before a call that may encrypt: a call that finds no
    ticket ends with the record sealed. *)
Definition encrypts (consumed p : list byte) (l : nat) (st : ssl_t) : Prop :=
  (if decide (out_left st = []) then sealed st ++ record_of st l p else sealed st)
  = consumed ++ record_of st l p.

Lemma write_record_out consumed p l c :
  (0 < l <= length p)%nat -> encrypts consumed p l (ssl (ses c)) ->
  ticket_parked (ssl (ses c)) = false -> (wpend (ses c) = 1 -> out_left (ssl (ses c)) <> []) ->
  let r := fst (fst (run_lib (fun st => ssl_write st (take l p)) c)) in
  let c' := snd (run_lib (fun st => ssl_write st (take l p)) c) in
  failed (ssl (ses c')) = true
  \/ (ticket_parked (ssl (ses c')) = false
      /\ sealed (ssl (ses c')) = consumed ++ record_of (ssl (ses c')) l p
      /\ (out_left (ssl (ses c')) = [] -> r = Z.of_nat (Nat.min l (payload (ssl (ses c')))))
      /\ (out_left (ssl (ses c')) <> [] -> send_refused r)
      /\ exists out, out <> [] /\ send_track c out (out_left (ssl (ses c'))) c').
Proof.
  intros Hl He Ht Hw. assert (Hb : take l p <> []).
  { intros E%(f_equal length). rewrite length_take in E. cbn in E. lia. }
  destruct (write_record (ssl (ses c)) (take l p) Hb Ht) as (out & Hne & Ho & Tr).
  destruct (run_lib_out (fun st => ssl_write st (take l p)) out _ c Tr)
    as [Hf | (out' & b' & ((O & S & P) & K & Rn & Rr) & T & _)]; [tauto | by left|]. right.
  destruct (record_take (ssl (ses c)) l p) as [El Et]; [lia|]. rewrite Et in S. rewrite El in Rn.
  rewrite O. split; [done|]. split; [|split; [by rewrite P|]].
  - rewrite S. unfold record_of at 2. rewrite P. exact He.
  - split; [done|]. by exists out.
Qed.

(** [locked_write] is a library call with the send held, or not. *)
Lemma locked_write_run buf c :
  let d := VTLS_SERIALIZED && negb (parked (ses c)) in
  exists c1, ses c1 = (ses c) <| defer_send := d |>
    /\ fst (locked_write buf c) = fst (fst (run_lib (fun st => ssl_write st buf) c1))
    /\ ses (snd (locked_write buf c))
       = (ses (snd (run_lib (fun st => ssl_write st buf) c1))) <| defer_send := false |>.
Proof.
  intros d. unfold locked_write. rewrite (bind_run VTLS_LOCK). destruct (lock_ses c) as [E _].
  destruct (VTLS_LOCK c) as [u c0]. cbn [fst snd] in *. prog_step. rewrite E.
  exists (c0 <| ses := (ses c) <| defer_send := d |> |>). split; [done|].
  rewrite bind_run. fold d. destruct (run_lib _ _) as [[ret o] c2].
  cbn [fst snd]. prog_step. rewrite bind_run. cbn [fst snd pret]. split; [done|].
  by rewrite (proj2 (lock_ses _)).
Qed.

(** The deferred flush and the end of [vtls_write]. *)
Definition write_tail (buf : list byte) (ret : Z) : prog conn (option Z) :=
  let* ret' := flush_deferred buf ret in let* code := write_result ret' in pret (Some code).

(** A flush outside the lock is owed only for a record already encrypted. *)
Lemma write_tail_post consumed p l ret c :
  (0 < l <= length p)%nat -> written consumed p l ret c ->
  (deferred (ses c) = true ->
     ticket_parked (ssl (ses c)) = false /\ out_left (ssl (ses c)) <> []) ->
  let out := write_tail (take l p) ret c in
  write_post consumed p l (fst out) (snd out).
Proof.
  intros Hl W Hd. unfold write_tail, flush_deferred.
  rewrite (bind_run (pbind _ _)), bind_gets. destruct (deferred (ses c)) eqn:F.
  2: { cbn [fst snd pret]. by apply write_result_post. }
  destruct (Hd eq_refl) as [Ht Ho]. rewrite bind_upd, (bind_run (run_lib _)).
  set (c0 := c <| ses := _ |>).
  assert (He : encrypts consumed p l (ssl (ses c0))).
  { unfold encrypts. cbn. rewrite decide_False by done. apply (wr_sealed _ _ _ _ _ W). }
  destruct (write_record_out consumed p l c0 Hl He Ht (fun _ => Ho))
    as [Hf | (K & S & Rn & Rr & out & Hne & T)];
    destruct (run_lib _ c0) as [[r o] c1]; cbn [fst snd pret] in *.
  - left. unfold write_result. destruct (0 <=? r); [done|]. rewrite bind_run. cbn.
    by destruct (r =? ERR_SSL_WANT_WRITE).
  - apply write_result_post; [done| |].
    + split; try done; [|congruence]. rewrite (st_defer _ _ _ _ T). apply (wr_defer _ _ _ _ _ W).
    + destruct (deferred (ses c1)) eqn:E; [|done].
      destruct (st_deferred _ _ _ _ T E) as [H | [H _]]; [done|].
      cbn in H. by rewrite (wr_defer _ _ _ _ _ W) in H.
Qed.

(** Ready to encrypt, or to go on with the pending record. *)
Record ready (consumed p : list byte) (l : nat) (c : conn) : Prop := {
  rd_deferred : deferred (ses c) = false;
  rd_wpend : wpend (ses c) <> 2 /\ (wpend (ses c) = 1 -> out_left (ssl (ses c)) <> []);
  rd_encrypts : encrypts consumed p l (ssl (ses c))
}.

Lemma vtls_write_eq f buf c :
  wpend (ses c) <> 2 ->
  vtls_write (S f) buf c =
  let (ret, c1) := locked_write buf c in
  if negb (ret =? ERR_SSL_RECEIVED_NEW_SESSION_TICKET) then write_tail buf ret c1
  else vtls_write f buf (c1 <| ses := (ses c1) <| parked := false |> |>).
Proof.
  intros Hw%Z.eqb_neq. unfold vtls_write at 1. cbn [write_loop].
  rewrite bind_run, bind_gets. unfold id. rewrite Hw, bind_run.
  destruct (locked_write buf c) as [ret c1]. cbn [fst snd].
  by destruct (ret =? ERR_SSL_RECEIVED_NEW_SESSION_TICKET).
Qed.

(** A failed library stays failed. *)
Definition lib_failed (c : conn) : Prop := failed (ssl (ses c)) = true.

Lemma upd_failed f : (forall s, ssl (f s) = ssl s) -> steps_in (keeps lib_failed) (upd f).
Proof. intros Hf c. unfold keeps, lib_failed. cbn. by rewrite Hf. Qed.

Lemma lock_failed :
  steps_in (keeps lib_failed) VTLS_LOCK /\ steps_in (keeps lib_failed) VTLS_UNLOCK.
Proof. split; intros c; unfold keeps, lib_failed; destruct (lock_ses c) as [E1 E2]; congruence. Qed.

Lemma run_lib_failed call :
  (forall st, failed st = true -> doomed (call st)) -> steps_in (keeps lib_failed) (run_lib call).
Proof. intros Hc c Hf. unfold run_lib. prog_step. by apply doomed_run, Hc. Qed.

(** Steps through a program whose pieces keep a relation. *)
Ltac steps_through_with tac :=
  repeat first
    [ tac | apply (steps_in_ret (keeps _)) | apply (steps_in_get (keeps _))
    | apply lock_failed | apply run_lib_failed; intros; by (apply failed_write || apply failed_read)
    | apply upd_failed; done
    | apply (steps_in_bind (keeps _)); [|intros ?]
    | apply (steps_in_if (keeps _))
    | match goal with |- context [match ?x with _ => _ end] => destruct x end ].
Ltac steps_through := steps_through_with fail.

Lemma write_tail_failed buf ret : steps_in (keeps lib_failed) (write_tail buf ret).
Proof. unfold write_tail, flush_deferred, write_result. steps_through. Qed.

Lemma write_loop_failed f buf : steps_in (keeps lib_failed) (write_loop f buf).
Proof.
  induction f as [|f IH]; [by intros c|]. cbn [write_loop]. unfold locked_write.
  steps_through. exact IH.
Qed.

Lemma vtls_write_failed f buf : steps_in (keeps lib_failed) (vtls_write f buf).
Proof.
  unfold vtls_write. apply (steps_in_bind (keeps _)); [apply write_loop_failed|]. intros o.
  unfold flush_deferred, write_result. steps_through.
Qed.

(** No ticket is parked: one pass encrypts (or goes on with the pending record)
    and flushes. *)
Lemma write_plain consumed p l f c :
  (0 < l <= length p)%nat -> ready consumed p l c -> ticket_parked (ssl (ses c)) = false ->
  let out := vtls_write (S f) (take l p) c in
  write_post consumed p l (fst out) (snd out).
Proof.
  intros Hl [F [Hw2 Hw1] He] Ht. rewrite vtls_write_eq by done.
  destruct (locked_write_run (take l p) c) as (c0 & E0 & Er & E1).
  assert (Hx : encrypts consumed p l (ssl (ses c0)) /\ ticket_parked (ssl (ses c0)) = false
               /\ (wpend (ses c0) = 1 -> out_left (ssl (ses c0)) <> [])) by (by rewrite E0).
  destruct Hx as (He0 & Ht0 & Hw0).
  destruct (write_record_out consumed p l c0 Hl He0 Ht0 Hw0)
    as [Hf | (K & Sl & Rn & Rr & out & Hne & T)];
    destruct (locked_write (take l p) c) as [ret c1]; cbn [fst snd] in *; subst ret.
  - left. assert (lib_failed c1) by (unfold lib_failed; by rewrite E1).
    destruct (negb (_ =? _)); [by apply write_tail_failed | by apply vtls_write_failed].
  - set (r := fst (fst (run_lib _ c0))) in *. set (c2 := snd (run_lib _ c0)) in *.
    assert (Hr : r <> ERR_SSL_RECEIVED_NEW_SESSION_TICKET).
    { pose proof ticket_neg. destruct (decide (out_left (ssl (ses c2)) = [])) as [Ho|Ho].
      - rewrite (Rn Ho). lia.
      - by destruct (refused_codes _ (Rr Ho)) as (_ & ? & _). }
    apply Z.eqb_neq in Hr. rewrite Hr. cbn [negb].
    apply write_tail_post; [done| |].
    + by split; rewrite E1; cbn; try done; rewrite K.
    + rewrite E1. cbn. intros Hd. split; [done|]. destruct (st_deferred _ _ _ _ T Hd) as [Hx|[Hx _]].
      * rewrite E0 in Hx. cbn in Hx. congruence.
      * by destruct (st_held _ _ _ _ T Hx) as [-> _].
Qed.

(** The record went out from inside another call: the retry only reports it. *)
Lemma write_flushed consumed p l f c :
  (0 < l <= length p)%nat -> wpend (ses c) = 2 -> out_left (ssl (ses c)) = [] ->
  sealed (ssl (ses c)) = consumed ++ record_of (ssl (ses c)) l p ->
  defer_send (ses c) = false -> deferred (ses c) = false ->
  let out := vtls_write (S f) (take l p) c in
  write_post consumed p l (fst out) (snd out).
Proof.
  intros Hl Hw Ho Hs Hd Hf. unfold vtls_write. cbn [write_loop].
  rewrite bind_run, bind_gets. unfold id. rewrite Hw. cbn [Z.eqb Pos.eqb]. prog_step.
  cbn [fst snd pret]. right. left. pose proof (payload_pos (ssl (ses c))). pose proof (payload_int (ssl (ses c))).
  exists (Nat.min l (payload (ssl (ses c)))). rewrite max_payload, length_take, (Nat.min_l l) by lia.
  split; [|split; [lia | by split; [split|]; cbn; try done; [lia | apply idle]]].
  destruct (Z.ltb_spec 0 (Z.of_nat (payload (ssl (ses c))))); [|lia].
  destruct (Z.ltb_spec (Z.of_nat (payload (ssl (ses c)))) (Z.of_nat l)); cbn [andb]; rewrite ?i32_small; lia.
Qed.

(** A ticket behind pending output is one a read left parked: its pass does not
    hold the send. *)
Lemma parked_not_deferred c c0 out' c2 :
  ses c0 = (ses c) <| defer_send := VTLS_SERIALIZED && negb (parked (ses c)) |> ->
  send_track c0 (out_left (ssl (ses c))) out' c2 -> deferred (ses c) = false ->
  (out_left (ssl (ses c)) <> [] -> parked (ses c) = true) -> deferred (ses c2) = false.
Proof.
  intros E0 T F Hp. destruct (deferred (ses c2)) eqn:E; [|done].
  destruct (st_deferred _ _ _ _ T E) as [Hy | [Hy Hne]]; rewrite E0 in Hy; cbn in Hy; [congruence|].
  by rewrite (Hp Hne), andb_false_r in Hy.
Qed.

(** Once the ticket is processed, the write goes on: the pending record went out
    with it, or there was none. *)
Lemma write_past_ticket consumed p l f c c3 :
  (0 < l <= length p)%nat -> ready consumed p l c ->
  (out_left (ssl (ses c)) <> [] -> wpend (ses c) = 1) ->
  out_state (ssl (ses c)) (ssl (ses c3)) [] (sealed (ssl (ses c))) ->
  ticket_parked (ssl (ses c3)) = false -> defer_send (ses c3) = false ->
  deferred (ses c3) = false ->
  wpend (ses c3) = (if decide (wpend (ses c) = 1) then 2 else wpend (ses c)) ->
  let out := vtls_write (S f) (take l p) c3 in
  write_post consumed p l (fst out) (snd out).
Proof.
  intros Hl [F [Hw2 Hw1] He] Hp (O & Sl & P) K D F3 W. unfold encrypts in He.
  assert (Er : record_of (ssl (ses c3)) l p = record_of (ssl (ses c)) l p)
    by (unfold record_of; by rewrite P).
  destruct (decide (wpend (ses c) = 1)) as [Hw|Hw].
  - apply write_flushed; try done. rewrite decide_False in He by auto. by rewrite Sl, Er.
  - assert (Ho : out_left (ssl (ses c)) = []).
    { destruct (decide (out_left (ssl (ses c)) = [])); [done | tauto]. }
    apply write_plain; try done. split; [done | by rewrite W |].
    unfold encrypts. rewrite O, decide_True, Sl, Er by done. by rewrite Ho, decide_True in He.
Qed.

(** A ticket is parked: one pass processes it, behind the pending record, and
    the next one is a plain write, or reports the record sent. *)
Lemma write_parked consumed p l f c :
  (0 < l <= length p)%nat -> ready consumed p l c -> ticket_parked (ssl (ses c)) = true ->
  defer_send (ses c) = false ->
  (out_left (ssl (ses c)) <> [] -> parked (ses c) = true /\ wpend (ses c) = 1) ->
  let out := vtls_write (S (S f)) (take l p) c in
  write_post consumed p l (fst out) (snd out).
Proof.
  intros Hl [F [Hw2 Hw1] He] Ht Hd Hp. rewrite vtls_write_eq by done.
  destruct (locked_write_run (take l p) c) as (c0 & E0 & Er & E1).
  assert (Hb : take l p <> []).
  { intros E%(f_equal length). rewrite length_take in E. cbn in E. lia. }
  assert (Hx : ticket_parked (ssl (ses c0)) = true
               /\ (wpend (ses c0) = 1 -> out_left (ssl (ses c0)) <> [])) by (by rewrite E0).
  destruct Hx as (Ht0 & Hw0).
  destruct (run_lib_out (fun st => ssl_write st (take l p)) _ _ c0 (write_ticket _ _ Hb Ht0) Hw0)
    as [Hf | (out' & b' & ((O & Sl & P) & Rn & Rr) & T & _)];
    destruct (locked_write (take l p) c) as [ret c1]; cbn [fst snd] in *; subst ret.
  - left. assert (lib_failed c1) by (unfold lib_failed; by rewrite E1).
    destruct (negb (_ =? _)); [by apply write_tail_failed | by apply vtls_write_failed].
  - set (r := fst (fst (run_lib _ c0))) in *. set (c2 := snd (run_lib _ c0)) in *.
    destruct (decide (out' = [])) as [Ho|Ho].
    + destruct (Rn Ho) as [-> K]. rewrite Z.eqb_refl. cbn [negb].
      apply (write_past_ticket _ _ _ _ c); [done | by split | apply Hp | ..]; cbn; rewrite E1; cbn.
      * rewrite E0 in Sl, P. by rewrite <- Ho.
      * done.
      * done.
      * apply (parked_not_deferred c c0 out'); [done | by rewrite E0 in T | done | apply Hp].
      * rewrite (st_wpend _ _ _ _ T), E0. cbn. repeat case_decide; tauto.
    + assert (Hne : out_left (ssl (ses c)) <> []).
      { destruct (st_suffix _ _ _ _ T) as [n En]. rewrite E0 in En. cbn in En. intros Hx.
        by rewrite Hx, drop_nil in En. }
      destruct (Hp Hne) as [Hpk Hw]. destruct (refused_codes _ (Rr Ho)) as (_ & Hr & _).
      apply Z.eqb_neq in Hr. rewrite Hr. cbn [negb].
      apply write_tail_post; [done| |].
      * split; rewrite E1; cbn; try done.
        -- intros _ _. rewrite (st_parked _ _ _ _ T), E0. exact Hpk.
        -- rewrite Sl, E0. cbn. unfold encrypts in He. rewrite decide_False in He by done.
           rewrite He. unfold record_of. by rewrite P, E0.
        -- congruence.
        -- by rewrite O.
      * rewrite E1. cbn. by rewrite (parked_not_deferred c c0 out' c2) by (rewrite ?E0 in T; tauto).
Qed.
(** How many bytes the caller passes: what a pending record was cut from, else
    all it has. *)
Definition write_len (l : nat) (p : list byte) : nat := if (0 <? l)%nat then l else length p.

Lemma vtls_write_spec consumed p l f c :
  wok consumed p l c -> p <> [] ->
  let out := vtls_write (S (S f)) (take (write_len l p) p) c in
  write_post consumed p (write_len l p) (fst out) (snd out).
Proof.
  intros [[D F Len Ph] Tk] Hp. assert (Hpl : (0 < length p)%nat) by (destruct p; cbn; [done | lia]).
  assert (Hl : (0 < write_len l p <= length p)%nat).
  { unfold write_len. destruct (Nat.ltb_spec 0 l); lia. }
  destruct Ph as [W L0 Sl O | W L Sl O | W L Sl O].
  3: { unfold write_len in *. rewrite (proj2 (Nat.ltb_lt 0 l)) in * by done. by apply write_flushed. }
  all: destruct (ticket_parked (ssl (ses c))) eqn:Ht;
    [apply write_parked; [done | | done | done | by intros ?; auto] | apply write_plain; [done | | done]].
  all: split; [done | rewrite W; split; [done | by auto] | unfold encrypts].
  all: try (rewrite decide_True by done; congruence).
  all: rewrite decide_False by done; unfold write_len;
    by rewrite (proj2 (Nat.ltb_lt 0 l)) by done.
Qed.

(** ** Reads *)

Lemma wbase_same consumed p l c c' :
  same_send (ses c) (ses c') -> wbase consumed p l c -> wbase consumed p l c'.
Proof.
  intros (S1 & S2 & S3 & S4 & S5) [D F Len Ph]. split; [congruence | congruence | done |].
  destruct Ph; [apply idle | apply pending | apply flushed]; by rewrite ?S1, ?S4.
Qed.

Lemma wok_same consumed p l c c' :
  same_send (ses c) (ses c') -> wok consumed p l c -> wok consumed p l c'.
Proof.
  intros Hs [B Tk]. split; [by apply (wbase_same _ _ _ c)|].
  destruct Hs as (S1 & _ & _ & _ & S5). by rewrite S1, S5.
Qed.

(** The phase after a call that encrypts nothing. *)
Lemma wphase_track consumed p l c out' c' :
  wphase consumed p l c -> send_track c (out_left (ssl (ses c))) out' c' ->
  out_state (ssl (ses c)) (ssl (ses c')) out' (sealed (ssl (ses c))) ->
  wphase consumed p l c'.
Proof.
  intros Ph T (O & Sl & P).
  assert (Er : record_of (ssl (ses c')) l p = record_of (ssl (ses c)) l p)
    by (unfold record_of; by rewrite P).
  pose proof (st_wpend _ _ _ _ T) as W'. destruct (st_suffix _ _ _ _ T) as [n En].
  destruct Ph as [W L S0 O0 | W L S0 O0 | W L S0 O0]; rewrite W in W'.
  - rewrite O0, drop_nil in En. rewrite decide_False in W' by lia. apply idle; congruence.
  - destruct (decide (out' = [])) as [Ho|Ho].
    + rewrite decide_True in W' by done. apply flushed; congruence.
    + rewrite decide_False in W' by tauto. apply pending; congruence.
  - rewrite O0, drop_nil in En. rewrite decide_False in W' by lia. apply flushed; congruence.
Qed.

(** What one call of a read leaves behind. *)
Definition read_left (consumed p : list byte) (l : nat) (r : Z + Z * list byte) (c' : conn) : Prop :=
  lib_failed c' \/
  (wbase consumed p l c' /\
   (ticket_parked (ssl (ses c')) = true ->
    match r with
    | inl _ => False
    | inr (ret, _) => send_refused ret \/ (ret = ERR_SSL_WANT_READ /\ bio_want (ses c') = false)
    end)).

Definition read_start (consumed p : list byte) (l : nat) (c : conn) : Prop :=
  lib_failed c \/ wbase consumed p l c.

Lemma locked_read_left consumed p l len c :
  read_start consumed p l c ->
  let out := locked_call (fun st => ssl_read st len) c in
  read_left consumed p l (fst out) (snd out).
Proof.
  unfold locked_call. intros [Hf | [D F Len Ph]].
  { left. revert Hf. generalize c. change (steps_in (keeps lib_failed) (locked_call (fun st => ssl_read st len))).
    unfold locked_call. steps_through. }
  prog_step. set (c0 := c <| ses := _ |>). rewrite (bind_run VTLS_LOCK).
  destruct (lock_ses c0) as [E _]. destruct (VTLS_LOCK c0) as [u c1]. cbn [fst snd] in *.
  rewrite (bind_run (run_lib _)).
  destruct (run_lib_out (fun st => ssl_read st len) _ _ c1 (read_out _ _))
    as [Hf | (out' & b' & ((O & Sl & P) & K) & T & B)].
  { rewrite E. cbn. destruct Ph; congruence. }
  all: destruct (run_lib _ c1) as [[ret o] c2]; cbn [fst snd] in *; rewrite bind_run; cbn [fst snd pret].
  - left. by apply lock_failed.
  - right. destruct (lock_ses c2) as [_ E2]. rewrite E2 in *. rewrite E in *. cbn in *.
    assert (T' : send_track c (out_left (ssl (ses c))) out' c2).
    { destruct T as [T1 T2 T3 T4 T5 T6]. rewrite E in *. by split. }
    split.
    + split; rewrite ?E2; [by rewrite (st_defer _ _ _ _ T') | | done |].
      * destruct (deferred (ses c2)) eqn:Ed; [|done].
        destruct (st_deferred _ _ _ _ T' Ed) as [H | [H _]]; congruence.
      * pose proof (wphase_track consumed p l c out' c2 Ph T') as H.
        destruct H; [by repeat split | apply idle | apply pending | apply flushed]; by rewrite ?E2.
    + intros Ht. destruct (K Ht) as [H | [-> ->]]; [by left | right]. split; [done|].
      destruct (bio_want (ses c2)); [|done]. by destruct B.
Qed.
Lemma read_body_left consumed p l len c :
  read_start consumed p l c ->
  read_left consumed p l (fst (read_body len c)) (snd (read_body len c)).
Proof.
  intros Hs. unfold read_body. prog_step. unfold id.
  destruct (_ && _ && _ && _) eqn:E; [|by apply locked_read_left].
  apply andb_true_iff in E as [_ Hc%negb_true_iff].
  assert (Hk : ticket_parked (ssl (ses c)) = false).
  { destruct (ticket_parked (ssl (ses c))) eqn:Ht; [|done]. by rewrite parked_pending in Hc. }
  assert (Hret : forall code c', same_send (ses c) (ses c') -> read_left consumed p l (inl code) c').
  { intros code c' Q. pose proof Q as (S1 & _). destruct Hs as [Hf | B].
    - left. unfold lib_failed. by rewrite S1.
    - right. split; [by apply (wbase_same _ _ _ c) | by rewrite S1, Hk]. }
  destruct (negb _); [by apply Hret|]. destruct (readahead (ses c)); [|by apply locked_read_left].
  rewrite bind_run. destruct (ra_fill_quiet c) as [Q _].
  destruct (ra_fill c) as [r c']. cbn [fst snd] in *.
  destruct (r =? ERR_SSL_WANT_READ); [by apply Hret|]. apply locked_read_left.
  destruct (Hret 0 c' Q) as [Hf | [Hb _]]; [by left | by right].
Qed.

(** The last answer of a read settles whether a ticket is parked. *)
Lemma read_settles consumed p l ret c' :
  wbase consumed p l c' ->
  (ticket_parked (ssl (ses c')) = true ->
   send_refused ret \/ (ret = ERR_SSL_WANT_READ /\ bio_want (ses c') = false)) ->
  vtls_retry (ses c') ret = false ->
  (ret < 0 /\ map_ret ret = VTLS_ERROR)
  \/ wok consumed p l (c' <| ses := (ses c') <| parked := ret =? ERR_SSL_WANT_WRITE |> |>).
Proof.
  intros [D F Len Ph] K Hr. destruct (ticket_parked (ssl (ses c'))) eqn:Ht.
  - destruct (K eq_refl) as [Hs | [-> Hb]].
    + destruct (refused_codes _ Hs) as (Hn & _ & _ & [-> | Hm]); [|by left]. right.
      rewrite Z.eqb_refl. split; [|done]. split; try done.
      by destruct Ph; [apply idle | apply pending | apply flushed].
    + unfold vtls_retry in Hr. rewrite Z.eqb_refl, Hb in Hr. by rewrite orb_true_r in Hr.
  - right. split; [|cbn; congruence]. split; try done.
    by destruct Ph; [apply idle | apply pending | apply flushed].
Qed.

(** A read that neither fails nor gives up after [VTLS_RETRIES] calls leaves the
    write side in order, whatever it flushed. *)
Lemma vtls_read_wok consumed p l len c :
  wok consumed p l c ->
  let out := vtls_read len c in
  lib_failed (snd out) \/ fst (fst out) = VTLS_ERROR
  \/ lib_calls (wire (snd out)) = (lib_calls (wire c) + VTLS_RETRIES)%nat
  \/ wok consumed p l (snd out).
Proof.
  intros [Hb _]. unfold vtls_read. rewrite (bind_run (retry_loop _ _)).
  destruct (retry_loop_rule (read_start consumed p l) (read_left consumed p l) (read_body len)
              VTLS_RETRIES c (read_body_calls len)) as [Q E].
  { intros c1. apply read_body_left. }
  { intros ret a c1 [Hf | [H _]] _; [by left | by right]. }
  { unfold VTLS_RETRIES. lia. }
  { by right. }
  destruct (retry_loop (read_body len) VTLS_RETRIES c) as [[code|[ret a]] c']; cbn [fst snd] in *.
  { destruct Q as [Hf | [B K]]; [by left|]. right. right. right. split; [done|]. tauto. }
  prog_step. destruct Q as [Hf | [B K]].
  { left. destruct (0 <? ret); [done|]. destruct (_ || _); [|done]. prog_step. rewrite bind_run.
    by destruct (ret =? ERR_SSL_PEER_CLOSE_NOTIFY). }
  right. destruct (Z.ltb_spec 0 ret) as [Hpos|Hneg].
  - right. destruct E as [E|E]; [right | by left].
    destruct (read_settles _ _ _ _ _ B K E) as [[? _] | H]; [lia | done].
  - destruct (_ || _); [left; prog_step; by rewrite bind_run|].
    destruct E as [E|E]; [|by right; left].
    destruct (read_settles _ _ _ _ _ B K E) as [[_ ?] | H]; [by left | by auto].
Qed.
Lemma ra_fill_failed : steps_in (keeps lib_failed) ra_fill.
Proof. intros c. unfold keeps, lib_failed. by destruct (ra_fill_quiet c) as [(-> & _) _]. Qed.

Lemma read_body_failed len : steps_in (keeps lib_failed) (read_body len).
Proof.
  unfold read_body, locked_call. apply (steps_in_bind (keeps _)); [by intros c | intros s].
  steps_through_with ltac:(apply ra_fill_failed).
Qed.

Lemma vtls_read_failed len : steps_in (keeps lib_failed) (vtls_read len).
Proof.
  unfold vtls_read. apply (steps_in_bind (keeps _)); [|intros r; steps_through].
  generalize VTLS_RETRIES. intros k. induction k as [|k IH]; cbn [retry_loop].
  all: apply (steps_in_bind (keeps _)); [apply read_body_failed | intros [code|[ret a]]].
  all: try apply (steps_in_ret (keeps _)). destruct k; [apply (steps_in_ret (keeps _))|].
  apply (steps_in_bind (keeps _)); [by intros c|]. intros [|]; [exact IH | apply (steps_in_ret (keeps _))].
Qed.
End WriteSide.
