(* ===== verification/PgSend.v ===== *)
(** The PostgreSQL client's send path over TLS (pg_async/conn_async.v,
    pg_async/transport.v): query frames are appended to a fixed buffer, and
    [async_flush] hands what is pending to the TLS session, which may hold an
    encrypted record back, while [fill_recv_buf] reads replies in between. The
    theorems follow a frame's bytes from [append_send] into the TLS library: each
    is encrypted once, in order, whatever the socket and the server do. *)
From S2P Require Import Prelude StreamSocket TlsSession TlsInvariants TlsLaws TlsWrite TlsToy.
Local Open Scope Z_scope.
Local Open Scope prog_scope.

(** [io_again] and [io_failed] of transport.v. *)
Definition io_again : Z := -2.
Definition io_failed : Z := -1.

Definition POLLIN : Z := 1.
Definition POLLOUT : Z := 4.

(** [send_buf_cap] of conn_async.v, and the first capacity of [recv_buf]. *)
Definition send_buf_cap : nat := Nat.pow 2 16.
#[global] Arguments send_buf_cap : simpl never.

Definition recv_floor : nat := Nat.pow 2 14.
#[global] Arguments recv_floor : simpl never.

(** The fields of a [PgConn] over TLS that its send and receive paths use.
    [broken] is [state != .ready]. Two ghost fields: [queued] is every byte
    [append_send] accepted, [gave_up] records that some read stopped after
    [VTLS_RETRIES] library calls. *)
Record pgconn `{MbedTLS} := mkPg {
  link : conn;
  send_buf : list byte;
  send_off : nat;
  send_len : nat;
  tls_wlen : nat;
  tls_wait : Z;
  tls_read_blocked : bool;
  broken : bool;
  recv_buf : list byte;
  recv_cap : nat;
  recv_pos : nat;
  queued : list byte;
  gave_up : bool
}.

#[export] Instance eta_pg `{MbedTLS} : Eta pgconn := mkEta _ (fun c =>
  mkPg _ (link c) (send_buf c) (send_off c) (send_len c) (tls_wlen c) (tls_wait c)
    (tls_read_blocked c) (broken c) (recv_buf c) (recv_cap c) (recv_pos c) (queued c) (gave_up c)).

Section PgSend.
Context `{ML : MbedTLS} `{BD : Build}.

Definition upd_pg (f : pgconn -> pgconn) : prog pgconn unit := pmod f.

Definition on_link {A} (p : prog conn A) : prog pgconn A := fun c =>
  (fst (p (link c)), c <| link := snd (p (link c)) |>).

(** [send_buf[off..len]]. *)
Definition slice (off len : nat) (buf : list byte) : list byte := take (len - off) (drop off buf).

(** [vmemmove] and [vmemcpy] of bytes [bs] to offset [off] of the buffer. *)
Definition copy_to (off : nat) (bs buf : list byte) : list byte :=
  take off buf ++ bs ++ drop (off + length bs) buf.

(** The steps of [append_send]: the default buffer of a connection made without
    one, a drained buffer rewound, the unsent tail slid to the front, a frame
    copied behind it. *)
Definition send_alloc (c : pgconn) : pgconn :=
  if (length (send_buf c) =? 0)%nat
  then c <| send_buf := replicate send_buf_cap NUL |> <| send_off := O |> <| send_len := O |>
  else c.

Definition send_rewind (c : pgconn) : pgconn :=
  if (send_off c =? send_len c)%nat then c <| send_off := O |> <| send_len := O |> else c.

Definition send_slide (c : pgconn) : pgconn :=
  c <| send_buf := copy_to 0 (slice (send_off c) (send_len c) (send_buf c)) (send_buf c) |>
    <| send_off := O |> <| send_len := (send_len c - send_off c)%nat |>.

Definition send_put (frame : list byte) (c : pgconn) : pgconn :=
  c <| send_buf := copy_to (send_len c) frame (send_buf c) |>
    <| send_len := (send_len c + length frame)%nat |> <| queued := queued c ++ frame |>.

Definition append_send (frame : list byte) : prog pgconn bool := fun c0 =>
  let c := send_rewind (send_alloc c0) in
  let cap := length (send_buf c) in
  if (cap <? send_len c + length frame)%nat then
    if (cap <? send_len c - send_off c + length frame)%nat then (false, c)
    else (true, send_put frame (send_slide c))
  else (true, send_put frame c).

Definition lose : prog pgconn unit := upd_pg (fun c => c <| broken := true |>).

(** [tls_recv]: the session's read, with the readiness to wait for. *)
Definition tls_recv (max : nat) : prog pgconn (Z * list byte) :=
  let* before := pget (fun c => lib_calls (wire (link c))) in
  let* '(n, bs) := on_link (vtls_read max) in
  upd_pg (fun c => c <| gave_up := gave_up c
                          || (lib_calls (wire (link c)) =? before + VTLS_RETRIES)%nat |>) ;;
  if 0 <? n then pret (n, bs)
  else if n =? VTLS_WANT then
    upd_pg (fun c => c <| tls_wait := POLLIN |>) ;; pret (io_again, [])
  else if n =? VTLS_WANT_WRITE then
    upd_pg (fun c => c <| tls_wait := POLLOUT |> <| tls_read_blocked := true |>) ;; pret (io_again, [])
  else
    let* closed := pget (fun c => vtls_peer_closed (ses (link c))) in
    pret (if closed then 0 else io_failed, []).

(** [tls_send] of the pending bytes [p]; [None] only when the session's write
    loop runs out of [fuel]. *)
Definition tls_send (fuel : nat) (p : list byte) : prog pgconn (option Z) :=
  let* wlen := pget tls_wlen in
  let l := if (0 <? wlen)%nat then wlen else length p in
  let* o := on_link (vtls_write fuel (take l p)) in
  match o with
  | None => pret None
  | Some n =>
      if 0 <=? n then upd_pg (fun c => c <| tls_wlen := O |>) ;; pret (Some n)
      else if (n =? VTLS_WANT) || (n =? VTLS_WANT_WRITE) then
        upd_pg (fun c => c <| tls_wait := if n =? VTLS_WANT then POLLIN else POLLOUT |>
                           <| tls_wlen := l |>) ;;
        pret (Some io_again)
      else pret (Some io_failed)
  end.

(** The room [fill_recv_buf] makes before a read: framed bytes are dropped from
    the front of a full buffer, and a buffer still full grows. *)
Definition recv_room (c : pgconn) : pgconn :=
  if (length (recv_buf c) =? recv_cap c)%nat then
    let c1 := if (0 <? recv_pos c)%nat
              then c <| recv_buf := drop (recv_pos c) (recv_buf c) |> <| recv_pos := O |> else c in
    if (length (recv_buf c1) =? recv_cap c1)%nat
    then c1 <| recv_cap := (recv_cap c1 + if (0 <? recv_cap c1)%nat then recv_cap c1 else recv_floor)%nat |>
    else c1
  else c.

Fixpoint fill_loop (fuel : nat) : prog pgconn (option unit) :=
  match fuel with
  | O => pret None
  | S f =>
      let* lost := pget broken in
      if lost then pret (Some tt)
      else
        upd_pg recv_room ;;
        let* spare := pget (fun c => (recv_cap c - length (recv_buf c))%nat) in
        let* '(n, bs) := tls_recv spare in
        if 0 <? n then
          upd_pg (fun c => c <| recv_buf := recv_buf c ++ bs |>) ;; fill_loop f
        else if n =? 0 then lose ;; pret (Some tt)
        else if n =? io_again then pret (Some tt)
        else lose ;; pret (Some tt)
  end.

Definition fill_recv_buf (fuel : nat) : prog pgconn (option unit) :=
  on_link vtls_mark_readable ;;
  upd_pg (fun c => c <| tls_read_blocked := false |>) ;;
  fill_loop fuel.

Definition async_wants_write (c : pgconn) : bool :=
  (send_off c <? send_len c)%nat || tls_read_blocked c.

(** [async_flush]'s loop: [Some None] is the error it returns on a lost
    connection, [None] a run out of fuel. *)
Fixpoint flush_loop (fuel : nat) : prog pgconn (option (option bool)) :=
  match fuel with
  | O => pret None
  | S f =>
      let* c := pget id in
      if (send_off c <? send_len c)%nat then
        let* o := tls_send (S (S f)) (slice (send_off c) (send_len c) (send_buf c)) in
        match o with
        | None => pret None
        | Some n =>
            if 0 <? n then
              upd_pg (fun c => c <| send_off := (send_off c + Z.to_nat n)%nat |>) ;; flush_loop f
            else if n =? io_again then pret (Some (Some false))
            else lose ;; pret (Some None)
        end
      else
        upd_pg (fun c => c <| send_off := O |> <| send_len := O |>) ;; pret (Some (Some true))
  end.

Definition async_flush (fuel : nat) : prog pgconn (option (option bool)) :=
  let* lost := pget broken in
  if lost then pret (Some None)
  else
    let* blocked := pget tls_read_blocked in
    if blocked then
      let* o := fill_recv_buf fuel in
      match o with
      | None => pret None
      | Some _ =>
          let* lost := pget broken in
          if lost then pret (Some None)
          else
            let* blocked := pget tls_read_blocked in
            if blocked then pret (Some (Some false)) else flush_loop fuel
      end
    else flush_loop fuel.

(** ** What the send side keeps *)

Context {MO : MbedOut} {ME : MbedTLSErrors} {LAW : MbedOutLaws}.

(** The bytes still to be reported sent. *)
Definition unsent (c : pgconn) : list byte := slice (send_off c) (send_len c) (send_buf c).
#[local] Arguments unsent : simpl never.

Record pg_ok (c : pgconn) : Prop := {
  pk_bounds : (send_off c <= send_len c <= length (send_buf c))%nat;
  pk_wok : exists consumed,
    queued c = consumed ++ unsent c /\ wok consumed (unsent c) (tls_wlen c) (link c)
}.

(** A connection that is lost, whose library failed or which gave up on a read
    is not followed further. *)
Definition off_track (c : pgconn) : Prop :=
  lib_failed (link c) \/ broken c = true \/ gave_up c = true.

Definition pg_inv (c : pgconn) : Prop := off_track c \/ pg_ok c.

Lemma wok_nil_len consumed l c : wok consumed [] l c -> l = O.
Proof. intros [[_ _ Hl _] _]. cbn in Hl. lia. Qed.

(** More plaintext behind a pending record changes nothing of it. *)
Lemma wok_app consumed p l bs c : wok consumed p l c -> wok consumed (p ++ bs) l c.
Proof.
  intros [[D F Hl Ph] Tk]. split; [split|]; try done; [rewrite length_app; lia|].
  assert (E : record_of (ssl (ses c)) l (p ++ bs) = record_of (ssl (ses c)) l p).
  { unfold record_of. apply take_app_le. lia. }
  destruct Ph; [apply idle | apply pending | apply flushed]; by rewrite ?E.
Qed.

Lemma slice_nil off buf : slice off off buf = [].
Proof. unfold slice. by rewrite Nat.sub_diag. Qed.

Lemma slice_length off len buf :
  (off <= len <= length buf)%nat -> length (slice off len buf) = (len - off)%nat.
Proof. intros H. unfold slice. rewrite length_take, length_drop. lia. Qed.

Lemma copy_to_length off bs buf :
  (off + length bs <= length buf)%nat -> length (copy_to off bs buf) = length buf.
Proof. intros H. unfold copy_to. rewrite !length_app, length_take, length_drop. lia. Qed.

Lemma slice_copy_to off len bs buf :
  (off <= len)%nat -> (len + length bs <= length buf)%nat ->
  slice off (len + length bs) (copy_to len bs buf) = slice off len buf ++ bs.
Proof.
  intros H1 H2. unfold slice, copy_to.
  rewrite drop_app_le by (rewrite length_take; lia).
  rewrite app_assoc, take_app_le by (rewrite length_app, length_drop, length_take; lia).
  rewrite take_ge by (rewrite length_app, length_drop, length_take; lia).
  f_equal. rewrite skipn_firstn_comm. done.
Qed.

Lemma slice_copy_front off len buf :
  (off <= len <= length buf)%nat ->
  slice 0 (len - off) (copy_to 0 (slice off len buf) buf) = slice off len buf.
Proof.
  intros H. pose proof (slice_length off len buf H) as E. rewrite <- E.
  rewrite <- (Nat.add_0_l (length _)) at 1. rewrite slice_copy_to; [|lia|lia].
  by rewrite slice_nil.
Qed.

Lemma slice_drop n off len buf :
  (n <= len - off)%nat -> slice (off + n) len buf = drop n (slice off len buf).
Proof.
  intros H. unfold slice. rewrite skipn_firstn_comm, drop_drop. f_equal. lia.
Qed.

(** The write side sees the pending bytes, not where they lie. *)
Lemma pg_ok_moved c c' :
  pg_ok c -> (send_off c' <= send_len c' <= length (send_buf c'))%nat -> unsent c' = unsent c ->
  queued c' = queued c -> tls_wlen c' = tls_wlen c -> link c' = link c -> pg_ok c'.
Proof.
  intros [_ (k & Q & W)] B U Eq El Ek. split; [done|]. exists k. rewrite U, Eq, El, Ek. done.
Qed.

Lemma send_alloc_ok c : pg_ok c -> pg_ok (send_alloc c).
Proof.
  intros P. unfold send_alloc. destruct (Nat.eqb_spec (length (send_buf c)) 0) as [E|E]; [|done].
  apply (pg_ok_moved c); try done; cbn; [lia|]. pose proof (pk_bounds _ P) as B.
  unfold unsent. replace (send_off c) with (send_len c) by lia. rewrite (slice_nil (send_len c)).
  apply slice_nil.
Qed.

Lemma send_rewind_ok c : pg_ok c -> pg_ok (send_rewind c).
Proof.
  intros P. unfold send_rewind. destruct (Nat.eqb_spec (send_off c) (send_len c)) as [E|E]; [|done].
  apply (pg_ok_moved c); try done; cbn; [lia|]. unfold unsent. rewrite E, (slice_nil (send_len c)).
  apply slice_nil.
Qed.

Lemma send_slide_ok c : pg_ok c -> pg_ok (send_slide c).
Proof.
  intros P. pose proof (pk_bounds _ P) as B. pose proof (slice_length _ _ _ B) as L.
  apply (pg_ok_moved c); try done; cbn.
  - rewrite copy_to_length; lia.
  - unfold unsent. cbn. by apply slice_copy_front.
Qed.

Lemma send_put_ok frame c :
  pg_ok c -> (send_len c + length frame <= length (send_buf c))%nat -> pg_ok (send_put frame c).
Proof.
  intros [B (k & Q & W)] Hf. split; cbn; [rewrite copy_to_length; lia|].
  assert (U : unsent (send_put frame c) = unsent c ++ frame).
  { unfold unsent. cbn. apply slice_copy_to; lia. }
  exists k. rewrite U, Q, app_assoc. split; [done|]. by apply wok_app.
Qed.

Lemma append_send_ok frame c : pg_ok c -> pg_ok (snd (append_send frame c)).
Proof.
  intros P. unfold append_send. apply send_alloc_ok, send_rewind_ok in P.
  set (c1 := send_rewind (send_alloc c)) in *.
  destruct (Nat.ltb_spec (length (send_buf c1)) (send_len c1 + length frame)).
  - destruct (Nat.ltb_spec (length (send_buf c1)) (send_len c1 - send_off c1 + length frame)); [done|].
    pose proof (pk_bounds _ P) as B. apply send_put_ok; [by apply send_slide_ok|]. cbn.
    rewrite copy_to_length; [done|]. rewrite slice_length; lia.
  - by apply send_put_ok.
Qed.

(** [append_send] leaves the session alone. *)
Lemma append_send_frame frame c :
  let c' := snd (append_send frame c) in
  link c' = link c /\ broken c' = broken c /\ gave_up c' = gave_up c.
Proof.
  unfold append_send, send_rewind, send_alloc.
  repeat case_match; done.
Qed.

(** ** The TLS calls *)

Lemma slice_unsent n c :
  (n <= send_len c - send_off c)%nat ->
  unsent (c <| send_off := (send_off c + n)%nat |>) = drop n (unsent c).
Proof. apply slice_drop. Qed.

(** One write: bytes reported, or the same bytes still owed. *)
Lemma tls_send_ok f c :
  pg_ok c -> unsent c <> [] ->
  let out := tls_send (S (S f)) (unsent c) c in
  lib_failed (link (snd out)) \/
  match fst out with
  | None => False
  | Some n =>
      (exists k, n = Z.of_nat k /\ (0 < k <= length (unsent c))%nat
        /\ pg_ok ((snd out) <| send_off := (send_off (snd out) + k)%nat |>)
        /\ unsent ((snd out) <| send_off := (send_off (snd out) + k)%nat |>) = drop k (unsent c))
      \/ (n = io_again /\ pg_ok (snd out)) \/ n = io_failed
  end.
Proof.
  intros [B (k & Q & W)] Hne. unfold tls_send. rewrite bind_run. cbn [fst snd pget].
  fold (write_len (tls_wlen c) (unsent c)). rewrite (bind_run (on_link _)).
  pose proof (vtls_write_spec k (unsent c) (tls_wlen c) f (link c) W Hne) as P.
  assert (Hl : (write_len (tls_wlen c) (unsent c) <= length (unsent c))%nat).
  { unfold write_len. destruct (Nat.ltb_spec 0 (tls_wlen c)); [|lia]. apply (wb_len _ _ _ _ (wk_base _ _ _ _ W)). }
  unfold on_link. set (l := write_len (tls_wlen c) (unsent c)) in *.
  destruct (vtls_write (S (S f)) (take l (unsent c)) (link c)) as [[r|] c1]; cbn [fst snd] in *.
  2: { by destruct P as [P|P]; [left|]. }
  destruct P as [Hf | P].
  { left. destruct (0 <=? r); [done|]. by destruct (_ || _). }
  right. destruct P as [(n & -> & Hn & Wn) | [[-> Wp] | ->]].
  - rewrite (proj2 (Z.leb_le _ _)) by lia. left. exists n. split; [done|]. split; [lia|].
    pose proof (slice_length _ _ _ B) as L. fold (unsent c) in L.
    match goal with |- pg_ok ?x /\ _ =>
      assert (U : unsent x = drop n (unsent c)) by (apply (slice_drop n); cbn; lia) end.
    split; [|exact U]. split; [cbn; lia|].
    exists (k ++ take n (unsent c)). rewrite U. cbn. by rewrite Q, <- app_assoc, take_drop.
  - right. left. split; [done|]. split; [done|]. by exists k.
  - by right; right.
Qed.

(** What [tls_recv] makes of the session's answer changes nothing that matters. *)
Lemma pg_inv_same c c' :
  pg_inv c -> link c' = link c -> broken c' = broken c -> gave_up c' = gave_up c ->
  send_off c' = send_off c -> send_len c' = send_len c -> send_buf c' = send_buf c ->
  queued c' = queued c -> tls_wlen c' = tls_wlen c -> pg_inv c'.
Proof.
  intros P E1 E2 E3 E4 E5 E6 E7 E8. unfold pg_inv, off_track. rewrite E1, E2, E3.
  destruct P as [P|P]; [by left | right]. apply (pg_ok_moved c); try done.
  - rewrite E4, E5, E6. apply (pk_bounds _ P).
  - unfold unsent. by rewrite E4, E5, E6.
Qed.

(** One read: it may flush the pending record, and reports nothing sent. *)
Lemma tls_recv_inv max c : pg_inv c ->
  let out := tls_recv max c in
  pg_inv (snd out) \/ (fst (fst out) <= 0 /\ fst (fst out) <> io_again).
Proof.
  intros P. unfold tls_recv. rewrite bind_run. cbn [fst snd pget]. rewrite (bind_run (on_link _)).
  unfold on_link. set (c1 := c <| link := _ |>). set (r := fst (vtls_read max (link c))).
  pose (c2 := c1 <| gave_up := gave_up c1
    || (lib_calls (wire (link c1)) =? lib_calls (wire (link c)) + VTLS_RETRIES)%nat |>).
  assert (H : pg_inv c2 \/ fst r = VTLS_ERROR).
  { destruct P as [[Hf | [Hb | Hg]] | P].
    - left. left. left. by apply vtls_read_failed.
    - left. left. right. by left.
    - left. left. right. right. cbn. by rewrite Hg.
    - destruct P as [B (k & Q & W)]. destruct (vtls_read_wok _ _ _ max _ W) as [H | [H | [H | H]]].
      + left. by left; left.
      + by right.
      + left. left. right. right. cbn. rewrite H, Nat.eqb_refl. apply orb_true_r.
      + left. right. split; [done|]. by exists k. }
  cbn [fst snd]. fold r. destruct r as [n bs]. cbn [fst snd] in *. rewrite bind_run.
  change (snd (upd_pg _ c1)) with c2.
  destruct H as [H | ->].
  2: { right. cbn. by destruct (vtls_peer_closed _). }
  left. destruct (0 <? n); [done|]. destruct (n =? VTLS_WANT); [by apply (pg_inv_same c2)|].
  destruct (n =? VTLS_WANT_WRITE); [by apply (pg_inv_same c2) | done].
Qed.

Lemma recv_room_inv c : pg_inv c -> pg_inv (recv_room c).
Proof.
  intros P. apply (pg_inv_same c); try done; unfold recv_room; repeat case_match; done.
Qed.

Lemma fill_loop_inv f c : pg_inv c -> pg_inv (snd (fill_loop f c)).
Proof.
  revert c. induction f as [|f IH]; intros c P; [done|]. cbn [fill_loop].
  rewrite bind_run. cbn [fst snd pget]. destruct (broken c) eqn:Hb; [done|].
  rewrite bind_run. cbn [fst snd pget upd_pg pmod]. apply recv_room_inv in P.
  rewrite bind_run. cbn [fst snd pget]. rewrite bind_run.
  destruct (tls_recv_inv (recv_cap (recv_room c) - length (recv_buf (recv_room c))) _ P) as [H | [H1 H2]];
    destruct (tls_recv _ (recv_room c)) as [[n bs] c1]; cbn [fst snd] in *.
  - destruct (0 <? n); [rewrite bind_run; by apply IH, (pg_inv_same c1)|].
    destruct (n =? 0); [left; right; by left|].
    destruct (n =? io_again); [done | left; right; by left].
  - rewrite (proj2 (Z.ltb_ge 0 n)) by lia. destruct (n =? 0); [left; right; by left|].
    apply Z.eqb_neq in H2. rewrite H2. left; right; by left.
Qed.

(** What the session's caller does outside of reads and writes. *)
Lemma pg_inv_link c l :
  pg_inv c -> same_send (ses (link c)) (ses l) -> pg_inv (c <| link := l |>).
Proof.
  intros [P | [B (k & Q & W)]] S.
  - left. destruct P as [P|P]; [left | by right]. unfold lib_failed. cbn. by destruct S as (-> & _).
  - right. split; [done|]. exists k. split; [done|]. by apply (wok_same _ _ _ (link c)).
Qed.

Lemma fill_recv_buf_inv f c : pg_inv c -> pg_inv (snd (fill_recv_buf f c)).
Proof.
  intros P. unfold fill_recv_buf. rewrite !bind_run. apply fill_loop_inv.
  apply (pg_inv_same (c <| link := snd (vtls_mark_readable (link c)) |>)); try done.
  apply pg_inv_link; [done | by repeat split].
Qed.

Lemma tls_send_off f p c : off_track c -> off_track (snd (tls_send f p c)).
Proof.
  intros P. unfold tls_send. rewrite bind_run. cbn [fst snd pget]. rewrite (bind_run (on_link _)).
  set (q := take _ p). unfold on_link. cbn [fst snd].
  set (c1 := c <| link := _ |>).
  assert (P1 : off_track c1).
  { destruct P as [P|P]; [left; by apply vtls_write_failed | by right]. }
  destruct (fst (vtls_write f q (link c))) as [n|]; [|done].
  destruct (0 <=? n); [done|]. by destruct (_ || _).
Qed.

(** Everything queued is encrypted, and the library has nothing left to send. *)
Definition all_sent (c : pgconn) : Prop :=
  unsent c = [] /\ sealed (ssl (ses (link c))) = queued c /\ out_left (ssl (ses (link c))) = [].

Lemma drained_all_sent c : pg_ok c -> unsent c = [] -> all_sent c.
Proof.
  intros [_ (k & Q & W)] U. rewrite U in *. pose proof (wok_nil_len _ _ _ W) as E.
  destruct W as [[_ _ _ [_ _ S O | _ L _ _ | _ L _ _]] _]; try lia.
  split; [done|]. split; [|done]. by rewrite S, Q, app_nil_r.
Qed.

(** What a flush ends in; [enough] says that its fuel covered the queue. *)
Definition flush_post (enough : Prop) (c' : pgconn) (r : option (option bool)) : Prop :=
  off_track c'
  \/ (pg_ok c' /\ (enough -> r <> None) /\ (r = Some (Some true) -> all_sent c')).

Lemma flush_loop_off f c : off_track c -> off_track (snd (flush_loop f c)).
Proof.
  revert c. induction f as [|f IH]; intros c P; [done|]. cbn [flush_loop].
  rewrite bind_run. cbn [fst snd pget]. unfold id.
  destruct (send_off c <? send_len c)%nat; [|done]. rewrite bind_run.
  pose proof (tls_send_off (S (S f)) (slice (send_off c) (send_len c) (send_buf c)) c P) as P1.
  destruct (tls_send _ _ c) as [[n|] c1]; cbn [fst snd] in *; [|done].
  destruct (0 <? n); [rewrite bind_run; by apply IH|]. destruct (n =? io_again); [done|].
  right. by left.
Qed.

(** The send loop: it ends, as each pass reports at least one byte. *)
Lemma flush_loop_ok f c :
  pg_ok c ->
  flush_post (length (unsent c) < f)%nat (snd (flush_loop f c)) (fst (flush_loop f c)).
Proof.
  revert c. induction f as [|f IH]; intros c P; [right; split; [done|]; split; [lia | done]|].
  cbn [flush_loop].
  rewrite bind_run. cbn [fst snd pget]. unfold id. pose proof (pk_bounds _ P) as B.
  pose proof (slice_length _ _ _ B) as L. fold (unsent c) in *.
  destruct (Nat.ltb_spec (send_off c) (send_len c)) as [Hl|Hl].
  - rewrite bind_run. assert (Hne : unsent c <> []) by (intros E; rewrite E in L; cbn in L; lia).
    destruct (tls_send_ok f c P Hne) as [H|H].
    + left. destruct (tls_send _ (unsent c) c) as [[n|] c1]; cbn [fst snd] in *; [|by left].
      destruct (0 <? n); [rewrite bind_run; apply flush_loop_off; by left|].
      destruct (n =? io_again); by left.
    + destruct (tls_send _ (unsent c) c) as [[n|] c1]; cbn [fst snd] in *; [|done].
      destruct H as [(k & -> & Hk & P' & U) | [[-> P'] | ->]].
      * rewrite (proj2 (Z.ltb_lt 0 _)) by lia. rewrite bind_run, Nat2Z.id.
        cbn [fst snd upd_pg pmod]. destruct (IH _ P') as [H | (H1 & H2 & H3)]; [by left | right].
        rewrite U, length_drop in H2. split; [done|]. split; [|done]. intros Hf. apply H2. lia.
      * right. split; [done|]. by split.
      * left. right. by left.
  - right. assert (E : send_off c = send_len c) by lia. rewrite bind_run. cbn [fst snd upd_pg pmod pret].
    apply send_rewind_ok in P. unfold send_rewind in P. rewrite E, Nat.eqb_refl in P.
    split; [exact P|]. split; [done|]. intros _. apply drained_all_sent; [exact P | apply slice_nil].
Qed.

Lemma off_track_broken c : broken c = true -> off_track c.
Proof. intros H. right. by left. Qed.

Lemma flush_loop_post f c :
  pg_inv c -> flush_post (length (unsent c) < f)%nat (snd (flush_loop f c)) (fst (flush_loop f c)).
Proof. intros [P|P]; [left; by apply flush_loop_off | by apply flush_loop_ok]. Qed.

Lemma async_flush_post f c :
  pg_inv c ->
  flush_post (tls_read_blocked c = false /\ (length (unsent c) < f)%nat)
    (snd (async_flush f c)) (fst (async_flush f c)).
Proof.
  intros P. unfold async_flush. rewrite bind_run. cbn [fst snd pget].
  destruct (broken c) eqn:Hb; [left; by apply off_track_broken|].
  rewrite bind_run. cbn [fst snd pget]. destruct (tls_read_blocked c) eqn:Hr.
  2: { destruct (flush_loop_post f c P) as [H | (H1 & H2 & H3)]; [by left | right].
       split; [done|]. split; [tauto | done]. }
  rewrite bind_run. pose proof (fill_recv_buf_inv f c P) as P1.
  destruct (fill_recv_buf f c) as [[u|] c1]; cbn [fst snd] in *.
  2: { destruct P1 as [P1|P1]; [by left | right]. split; [done|]. by split; [intros [? _]|]. }
  rewrite bind_run. cbn [fst snd pget]. destruct (broken c1) eqn:Hb1; [left; by apply off_track_broken|].
  rewrite bind_run. cbn [fst snd pget]. destruct (tls_read_blocked c1).
  - destruct P1 as [P1|P1]; [by left | right]. split; [done|]. by split; [intros [? _]|].
  - destruct (flush_loop_post f c1 P1) as [H | (H1 & H2 & H3)]; [by left | right].
    split; [done|]. by split; [intros [? _]|].
Qed.

(** ** Every interleaving *)

(** What happens to a connection: queries are queued, the event loop flushes and
    reads, the network delivers and the socket's room changes. *)
Inductive pg_step : pgconn -> pgconn -> Prop :=
| pg_append frame c : pg_step c (snd (append_send frame c))
| pg_flush f c : pg_step c (snd (async_flush f c))
| pg_fill f c : pg_step c (snd (fill_recv_buf f c))
| pg_network e c : pg_step c (c <| link := (link c) <| wire := deliver e (wire (link c)) |> |>)
| pg_room q c : pg_step c (c <| link := (link c) <| wire := (wire (link c)) <| sndq := q |> |> |>).

(** A connection just established: nothing queued, nothing encrypted yet, no
    output pending, no ticket met. *)
Definition pg_start (c : pgconn) : Prop :=
  send_off c = O /\ send_len c = O /\ tls_wlen c = O /\ queued c = []
  /\ defer_send (ses (link c)) = false /\ deferred (ses (link c)) = false
  /\ wpend (ses (link c)) = 0 /\ sealed (ssl (ses (link c))) = []
  /\ out_left (ssl (ses (link c))) = [].

Definition pg_reachable (c : pgconn) : Prop := exists c0, pg_start c0 /\ rtc pg_step c0 c.

Lemma pg_start_inv c : pg_start c -> pg_inv c.
Proof.
  intros (H1 & H2 & H3 & H4 & H5 & H6 & H7 & H8 & H9). right.
  assert (U : unsent c = []) by (unfold unsent; rewrite H1, H2; apply slice_nil).
  split; [rewrite H1, H2; lia|]. exists []. rewrite U, H3, H4. split; [done|].
  split; [split|]; try done. by apply idle.
Qed.

Lemma flush_post_inv enough c' r : flush_post enough c' r -> pg_inv c'.
Proof. intros [H | [H _]]; [by left | by right]. Qed.

Lemma pg_step_inv c c' : pg_step c c' -> pg_inv c -> pg_inv c'.
Proof.
  destruct 1 as [frame c | f c | f c | e c | q c]; intros P.
  - destruct P as [P|P]; [left | right; by apply append_send_ok].
    destruct (append_send_frame frame c) as (E1 & E2 & E3). unfold off_track. by rewrite E1, E2, E3.
  - eapply flush_post_inv. by apply async_flush_post.
  - by apply fill_recv_buf_inv.
  - apply pg_inv_link; [done | by repeat split].
  - apply pg_inv_link; [done | by repeat split].
Qed.

Lemma pg_reachable_inv c : pg_reachable c -> pg_inv c.
Proof.
  intros (c0 & S & H). apply pg_start_inv in S. induction H; [done|]. eauto using pg_step_inv.
Qed.

Lemma pg_reachable_step c c' : pg_reachable c -> pg_step c c' -> pg_reachable c'.
Proof. intros (c0 & S & H) St. exists c0. split; [done|]. by eapply rtc_r. Qed.

(** Still followed: not lost, library not failed, no read given up. *)
Definition on_track (c : pgconn) : Prop :=
  failed (ssl (ses (link c))) = false /\ broken c = false /\ gave_up c = false.

Lemma on_track_ok c : pg_inv c -> on_track c -> pg_ok c.
Proof. intros [[H | [H | H]] | H] (T1 & T2 & T3); [|congruence|congruence|done]. by rewrite H in T1. Qed.

(** C7: whatever is queued, flushed, read and delivered, in any order: the
    plaintext the TLS library has encrypted is a prefix of the bytes queued, so no
    byte of a query is encrypted twice, skipped or reordered, and every byte
    reported sent is among the encrypted ones. *)
Theorem queries_encrypted_once c :
  pg_reachable c -> on_track c ->
  sealed (ssl (ses (link c))) `prefix_of` queued c
  /\ take (length (queued c) - length (unsent c)) (queued c) `prefix_of` sealed (ssl (ses (link c))).
Proof.
  intros R T. destruct (on_track_ok c (pg_reachable_inv c R) T) as [_ (k & Q & [[_ _ _ Ph] _])].
  rewrite Q, length_app, Nat.add_sub, take_app_length.
  destruct Ph as [_ _ S _ | _ _ S _ | _ _ S _]; rewrite S.
  - split; [by apply prefix_app_r | done].
  - split; [apply prefix_app, prefix_take | by apply prefix_app_r].
  - split; [apply prefix_app, prefix_take | by apply prefix_app_r].
Qed.

(** when [async_flush] answers that everything is sent, the library has
    encrypted exactly what was queued and holds no output back. *)
Theorem async_flush_true_sends_all f c :
  pg_reachable c -> on_track (snd (async_flush f c)) -> fst (async_flush f c) = Some (Some true) ->
  let c' := snd (async_flush f c) in
  sealed (ssl (ses (link c'))) = queued c' /\ out_left (ssl (ses (link c'))) = [] /\ unsent c' = [].
Proof.
  intros R (T1 & T2 & T3) E. destruct (async_flush_post f c (pg_reachable_inv c R)) as [H | (_ & _ & H)].
  - destruct H as [H | [H | H]]; [by rewrite H in T1 | congruence | congruence].
  - destruct (H E) as (H1 & H2 & H3). done.
Qed.

Lemma tls_send_quiet f p c : broken (snd (tls_send f p c)) = broken c /\ gave_up (snd (tls_send f p c)) = gave_up c.
Proof.
  unfold tls_send. rewrite bind_run, bind_run. cbn [fst snd pget]. unfold on_link. destruct (vtls_write f _ (link c)) as [[n|] l]; [|done].
  cbn [fst snd]. destruct (0 <=? n); [done|]. by destruct (_ || _).
Qed.

(** The loop loses the connection only where it returns. *)
Lemma flush_loop_quiet f c : fst (flush_loop f c) = None -> broken (snd (flush_loop f c)) = broken c /\ gave_up (snd (flush_loop f c)) = gave_up c.
Proof.
  revert c. induction f as [|f IH]; intros c; [done|]. cbn [flush_loop]. rewrite bind_run. cbn [fst snd pget]. unfold id. destruct (send_off c <? send_len c)%nat; [|done].
  rewrite bind_run. destruct (tls_send_quiet (S (S f)) (slice (send_off c) (send_len c) (send_buf c)) c) as [Hb Hg]. destruct (tls_send _ _ c) as [[n|] c1]; cbn [fst snd] in *; [|done].
  destruct (0 <? n); [|by destruct (n =? io_again)]. rewrite bind_run. cbn [fst snd upd_pg pmod]. intros H. by destruct (IH _ H) as [-> ->].
Qed.

(** C39: [async_flush] returns. Its loop, and that of [vtls_write] inside it, end within one
    pass per byte still unsent, also when the connection is lost on the way. This is for a
    flush that does not start with a blocked read to retry ([tls_read_blocked]), on a
    connection on which no read was given up before, and while Mbed TLS meets no fatal
    error, after which nothing is assumed of it. *)
Theorem async_flush_returns f c :
  pg_reachable c -> tls_read_blocked c = false -> gave_up c = false -> (length (unsent c) < f)%nat ->
  failed (ssl (ses (link (snd (async_flush f c))))) = false -> exists r, fst (async_flush f c) = Some r.
Proof.
  intros R Hr Hg Hf Hx. destruct (fst (async_flush f c)) as [r|] eqn:E; [by exists r | exfalso].
  assert (Q : broken (snd (async_flush f c)) = false /\ gave_up (snd (async_flush f c)) = false).
  { revert E. unfold async_flush. rewrite bind_run. cbn [fst snd pget]. destruct (broken c) eqn:Hb; [done|]. rewrite bind_run. cbn [fst snd pget]. rewrite Hr. intros E. destruct (flush_loop_quiet f c E). by split; congruence. }
  destruct Q as [Q1 Q2]. destruct (async_flush_post f c (pg_reachable_inv c R)) as [H | (_ & H & _)].
  - destruct H as [H | [H | H]]; [by rewrite H in Hx | congruence | congruence].
  - rewrite E in H. by destruct H.
Qed.
End PgSend.

(** ** Witnesses: a record stuck in the library, flushed by a read *)

Definition demo_frame : list byte := bytes_of "SELECT 1".

Definition demo_pg0 : pgconn :=
  mkPg _ (toy_client []) (replicate 64 NUL) 0 0 0 0 false false [] 0 0 [] false.

Definition give_room (q : list sendans) (c : pgconn) : pgconn :=
  c <| link := (link c) <| wire := (wire (link c)) <| sndq := q |> |> |>.

Definition arrives (bs : list byte) (c : pgconn) : pgconn :=
  c <| link := (link c) <| wire := deliver (NetData bs) (wire (link c)) |> |>.

(** The socket takes one byte of the record; then a ticket arrives, and reading
    it sends the rest. *)
Definition demo_pg1 : pgconn := snd (async_flush 9 (give_room [SendTakes 1] (snd (append_send demo_frame demo_pg0)))).
Definition demo_pg2 : pgconn := snd (fill_recv_buf 9 (give_room [SendTakes 100] (arrives [TICKET] demo_pg1))).

Lemma demo_pg1_reachable : pg_reachable demo_pg1.
Proof.
  unfold demo_pg1. eapply pg_reachable_step; [|apply pg_flush].
  unfold give_room. eapply pg_reachable_step; [|apply pg_room].
  eapply pg_reachable_step; [|apply pg_append]. exists demo_pg0. split; [|apply rtc_refl].
  unfold pg_start. auto 20.
Qed.

Lemma demo_pg2_reachable : pg_reachable demo_pg2.
Proof.
  unfold demo_pg2. eapply pg_reachable_step; [|apply pg_fill].
  unfold give_room. eapply pg_reachable_step; [|apply pg_room].
  unfold arrives. eapply pg_reachable_step; [|apply pg_network]. apply demo_pg1_reachable.
Qed.

Lemma queries_encrypted_once_witness :
  wpend (ses (link demo_pg1)) = 1 /\ wpend (ses (link demo_pg2)) = 2
  /\ sealed (ssl (ses (link demo_pg2))) `prefix_of` queued demo_pg2.
Proof.
  split; [vm_compute; reflexivity|]. split; [vm_compute; reflexivity|].
  apply (queries_encrypted_once demo_pg2 demo_pg2_reachable). vm_compute. auto.
Defined.

Lemma async_flush_true_sends_all_witness :
  let c' := snd (async_flush 9 demo_pg2) in
  queued c' = demo_frame /\
  sealed (ssl (ses (link c'))) = queued c' /\ out_left (ssl (ses (link c'))) = [] /\ unsent c' = [].
Proof.
  split; [vm_compute; reflexivity|].
  apply (async_flush_true_sends_all 9 demo_pg2 demo_pg2_reachable); vm_compute; auto.
Defined.

Lemma async_flush_returns_witness : exists r, fst (async_flush 9 demo_pg2) = Some r.
Proof.
  apply (async_flush_returns 9 demo_pg2 demo_pg2_reachable); vm_compute; auto.
Defined.
