(* ===== verification/TlsLock.v ===== *)
(** The process-wide crypto lock of tls/vanilla_tls.c ([VTLS_LOCK]), read off the
    log of what a session did: it is never taken twice nor released unheld, the
    library is only entered with it held (but for the flush of a record already
    encrypted), and a write sends nothing while holding it. *)
From S2P Require Import Prelude StreamSocket TlsSession TlsInvariants TlsKtls TlsLaws TlsWrite TlsToy.
Local Open Scope Z_scope.
Local Open Scope prog_scope.

(** What a log says about the lock: whether it is held, whether it was misused,
    how many sends happened under it and how many library calls without it. *)
Record lockscan := mkScan { held : bool; misused : bool; held_sends : nat; free_libs : nat }.

#[export] Instance eta_scan : Eta lockscan := mkEta _ (fun s =>
  mkScan (held s) (misused s) (held_sends s) (free_libs s)).

Definition scan1 (s : lockscan) (e : event) : lockscan :=
  match e with
  | EvLock => if held s then s <| misused := true |> else s <| held := true |>
  | EvUnlock => if held s then s <| held := false |> else s <| misused := true |>
  | EvSend _ => if held s then s <| held_sends := S (held_sends s) |> else s
  | EvLib => if held s then s else s <| free_libs := S (free_libs s) |>
  | _ => s
  end.

Definition scan_from (s : lockscan) (es : list event) : lockscan := foldl scan1 s es.

Definition scan (w : sock) : lockscan := scan_from (mkScan false false 0 0) (log w).
#[global] Arguments scan : simpl never.

(** The entry points a thread calls on its session. *)
Inductive entry :=
| CallHandshake
| CallRead (len : nat)
| CallWrite (fuel : nat) (buf : list byte)
| CallKtls (stack : list byte)
| CallReset (fd : Z)
| CallFree.

Definition is_write (e : entry) : bool := match e with CallWrite _ _ => true | _ => false end.

Section Lock.
Context `{ML : MbedTLS} `{BD : Build} `{PS : PSA}.

Definition run_entry (e : entry) (c : conn) : conn :=
  match e with
  | CallHandshake => snd (vtls_handshake c)
  | CallRead len => snd (vtls_read len c)
  | CallWrite fuel buf => snd (vtls_write fuel buf c)
  | CallKtls stack => snd (vtls_enable_ktls stack c)
  | CallReset fd => snd (vtls_session_reset fd c)
  | CallFree => snd (vtls_session_free c)
  end.

Definition run_entries (es : list entry) (c : conn) : conn := foldl (fun c e => run_entry e c) c es.

Lemma scan_app w w' es : log w' = log w ++ es -> scan w' = scan_from (scan w) es.
Proof. unfold scan, scan_from. intros ->. by rewrite foldl_app. Qed.

Lemma scan_emit e w : scan (emit e w) = scan1 (scan w) e.
Proof. apply (scan_app w _ [e]). done. Qed.

Lemma scan_recvs s n : scan_from s (replicate n EvRecv) = s.
Proof. induction n; cbn; auto. Qed.

(** Sends only count, and only under the lock. *)
Lemma scan_sends s es :
  Forall (fun e => exists k, e = EvSend k) es ->
  exists n, scan_from s es = s <| held_sends := n |> /\ (held s = false -> n = held_sends s).
Proof.
  intros F. revert s. unfold scan_from. induction F as [|e es [k ->] _ IH]; intros s.
  - exists (held_sends s). by destruct s.
  - cbn. destruct (held s) eqn:H.
    + destruct (IH (s <| held_sends := S (held_sends s) |>)) as (n & -> & _). exists n. split; [done | congruence].
    + destruct (IH s) as (n & -> & Hn). exists n. split; [done|]. intros _. by apply Hn.
Qed.

(** What happens inside a library call: sends are counted, unless held back. *)
Definition inside (c c' : conn) : Prop :=
  defer_send (ses c') = defer_send (ses c)
  /\ exists n, scan (wire c') = (scan (wire c)) <| held_sends := n |>
       /\ (held (scan (wire c)) = false \/ defer_send (ses c) = true -> n = held_sends (scan (wire c))).

#[local] Instance inside_preorder : PreOrder inside.
Proof.
  split.
  - intros c. split; [done|]. exists (held_sends (scan (wire c))). by destruct (scan (wire c)).
  - intros c1 c2 c3 (D1 & n1 & E1 & H1) (D2 & n2 & E2 & H2). split; [congruence|]. exists n2.
    rewrite E2, E1. split; [done|]. rewrite E1, D1 in H2. cbn in H2. intros H. rewrite <- H1 by done.
    by apply H2.
Qed.

Lemma inside_same c c' :
  defer_send (ses c') = defer_send (ses c) -> scan (wire c') = scan (wire c) -> inside c c'.
Proof. intros D E. split; [done|]. exists (held_sends (scan (wire c))). rewrite E. by destruct (scan (wire c)). Qed.

Context {ME : MbedTLSErrors}.

Lemma vtls_recv_scan want c : scan (wire (snd (vtls_recv want c))) = scan (wire c).
Proof.
  destruct (vtls_recv_spec want c) as [[_ _ [n L] _ _] _ _ _ _ _ _].
  by rewrite (scan_app _ _ _ L), scan_recvs.
Qed.

Lemma ra_fill_scan c : scan (wire (snd (ra_fill c))) = scan (wire c).
Proof.
  unfold ra_fill. rewrite bind_run. pose proof (vtls_recv_scan VTLS_READAHEAD c) as E.
  by destruct (vtls_recv VTLS_READAHEAD c) as [[r bs] c'].
Qed.

Lemma vtls_bio_recv_scan len c : scan (wire (snd (vtls_bio_recv len c))) = scan (wire c).
Proof.
  unfold vtls_bio_recv. prog_step. unfold id.
  destruct (ra_len (ses c) <=? ra_off (ses c))%nat; [|done].
  destruct (negb (closed (ses c) =? 0)); [done|]. destruct (negb (readable (ses c))); [done|].
  destruct (_ || _); [apply vtls_recv_scan|]. rewrite bind_run.
  pose proof (ra_fill_scan c) as E. destruct (ra_fill c) as [r c']. cbn [fst snd] in *.
  by destruct (r <=? 0).
Qed.

Lemma vtls_bio_send_inside buf : steps_in inside (vtls_bio_send buf).
Proof.
  intros c. unfold vtls_bio_send. prog_step. unfold id.
  destruct (defer_send (ses c)) eqn:D; [by apply inside_same|]. rewrite bind_run.
  pose proof (send_loop_spec buf (length (sndq (wire c))) (wire c) (Nat.le_refl _)) as [[_ _ (es & L & Fo)] _].
  change (snd (retry_while is_eintr (sys_send buf) (length (sndq (wire c))) (wire c)))
    with (wire (snd (send_retry buf c))) in L.
  assert (Es : ses (snd (send_retry buf c)) = ses c) by done.
  destruct (send_retry buf c) as [r c1]. cbn [fst snd] in *.
  destruct (scan_sends (scan (wire c)) es Fo) as (n & E & Hn). rewrite <- (scan_app _ _ _ L) in E.
  assert (I : inside c c1).
  { split; [by rewrite Es|]. exists n. split; [done|]. intros [H|H]; [auto | congruence]. }
  destruct r as [k|e]; [|done]. prog_step. cbn. destruct I as [I1 I2].
  destruct (_ && _); by split.
Qed.

Lemma run_tree_inside p : steps_in inside (run_tree p).
Proof.
  induction p as [ret o st | len k IH | buf k IH | ty sec k IH]; intros c; cbn [run_tree].
  - by apply inside_same.
  - rewrite bind_run. pose proof (vtls_bio_recv_scan len c) as E.
    destruct (vtls_bio_recv_quiet len c) as [(_ & D & _) _].
    destruct (vtls_bio_recv len c) as [[r bs] c1]. cbn [fst snd] in *. prog_step.
    etransitivity; [|apply IH]. apply inside_same; cbn; [done|]. by rewrite scan_emit.
  - rewrite bind_run. etransitivity; [apply vtls_bio_send_inside | apply IH].
  - prog_step. etransitivity; [|apply IH]. apply inside_same; [|done].
    cbn. by destruct (export_cb (ses c)).
Qed.

(** A library call is one more without the lock, if it is not held. *)
Lemma run_lib_scan call c :
  let c' := snd (run_lib call c) in
  defer_send (ses c') = defer_send (ses c) /\
  exists n, scan (wire c') = (scan1 (scan (wire c)) EvLib) <| held_sends := n |>
    /\ (held (scan (wire c)) = false \/ defer_send (ses c) = true -> n = held_sends (scan (wire c))).
Proof.
  unfold run_lib. prog_step. set (c0 := c <| wire := _ |>).
  destruct (run_tree_inside (call (ssl (ses c0))) c0) as (D & n & E & Hn). split; [exact D|].
  exists n. rewrite E. change (wire c0) with (emit EvLib (wire c)) in *. rewrite scan_emit in *.
  split; [done|].
  assert (A : held (scan1 (scan (wire c)) EvLib) = held (scan (wire c))
              /\ held_sends (scan1 (scan (wire c)) EvLib) = held_sends (scan (wire c))).
  { cbn. destruct (held (scan (wire c))) eqn:H; by rewrite ?H. }
  destruct A as [A1 A2]. rewrite A1, A2 in Hn. exact Hn.
Qed.

Context (SER : VTLS_SERIALIZED = true).

(** Between two entry points, with the lock free. [sends] says that some may
    have happened under the lock, [libs] how many library calls without it. *)
Definition unlocked (sends : Prop) (libs : nat) (c c' : conn) : Prop :=
  held (scan (wire c)) = false ->
  exists n, scan (wire c') = (scan (wire c)) <| held_sends := n |>
                               <| free_libs := (free_libs (scan (wire c)) + libs)%nat |>
    /\ (sends \/ n = held_sends (scan (wire c))).

Lemma scan_eta s : s <| held_sends := held_sends s |> <| free_libs := (free_libs s + 0)%nat |> = s.
Proof. destruct s. cbn. by rewrite Nat.add_0_r. Qed.

Lemma unlocked_same (sends : Prop) c c' : scan (wire c') = scan (wire c) -> unlocked sends 0 c c'.
Proof. intros E _. exists (held_sends (scan (wire c))). rewrite scan_eta. auto. Qed.

Lemma unlocked_trans sends i j c1 c2 c3 :
  unlocked sends i c1 c2 -> unlocked sends j c2 c3 -> unlocked sends (i + j) c1 c3.
Proof.
  intros H1 H2 Hh. destruct (H1 Hh) as (n1 & E1 & Q1). unfold unlocked in H2. rewrite E1 in H2.
  destruct (H2 Hh) as (n2 & E2 & Q2). cbn in *. exists n2. rewrite E2. cbn.
  split; [by rewrite Nat.add_assoc|]. destruct Q2 as [Q2 | ->]; [by left | done].
Qed.

(** A bracket of [VTLS_LOCK] and [VTLS_UNLOCK] around one library call. *)
Lemma bracket_scan (call : ssl_t -> libcall ssl_t) (c c1 c2 c3 : conn) :
  scan (wire c1) = scan1 (scan (wire c)) EvLock ->
  c2 = snd (run_lib call c1) -> scan (wire c3) = scan1 (scan (wire c2)) EvUnlock ->
  unlocked (defer_send (ses c1) = false) 0 c c3.
Proof.
  intros E1 -> E3 Hh. destruct (run_lib_scan call c1) as (_ & n & E2 & Hn).
  rewrite E1 in *. cbn in *. rewrite Hh in *. cbn in *. exists n.
  rewrite E3, E2. cbn. split; [by destruct (scan (wire c)); cbn in *; subst; rewrite Nat.add_0_r|].
  destruct (defer_send (ses c1)); [right; auto | by left].
Qed.

Lemma lock_scan c :
  scan (wire (snd (VTLS_LOCK c))) = scan1 (scan (wire c)) EvLock
  /\ scan (wire (snd (VTLS_UNLOCK c))) = scan1 (scan (wire c)) EvUnlock
  /\ ses (snd (VTLS_LOCK c)) = ses c.
Proof. unfold VTLS_LOCK, VTLS_UNLOCK. rewrite SER. cbn. by rewrite !scan_emit. Qed.

#[local] Instance unlocked_preorder sends : PreOrder (unlocked sends 0).
Proof.
  split; [intros c; by apply unlocked_same|]. intros c1 c2 c3. apply (unlocked_trans sends 0 0).
Qed.

Lemma unlocked_weaken (s1 s2 : Prop) k c c' : (s1 -> s2) -> unlocked s1 k c c' -> unlocked s2 k c c'.
Proof. intros Hs H Hh. destruct (H Hh) as (n & E & Q). exists n. split; [done|]. tauto. Qed.

Lemma locked_call_scan call : steps_in (unlocked True 0) (locked_call call).
Proof.
  intros c. unfold locked_call. prog_step. set (c0 := c <| ses := _ |>).
  rewrite (bind_run VTLS_LOCK), (bind_run (run_lib call)). rewrite bind_run. cbn [snd pret].
  destruct (lock_scan c0) as (E1 & _). destruct (lock_scan (snd (run_lib call (snd (VTLS_LOCK c0))))) as (_ & E3 & _).
  eapply unlocked_weaken; [|exact (bracket_scan call c _ _ _ E1 eq_refl E3)]. done.
Qed.

Lemma read_body_scan len : steps_in (unlocked True 0) (read_body len).
Proof.
  intros c. unfold read_body. prog_step. unfold id.
  destruct (_ && _ && _ && _); [|apply locked_call_scan]. destruct (negb _); [reflexivity|].
  destruct (readahead (ses c)); [|apply locked_call_scan]. rewrite bind_run.
  pose proof (ra_fill_scan c) as E. destruct (ra_fill c) as [r c1]. cbn [fst snd] in *.
  transitivity c1; [by apply unlocked_same|].
  destruct (r =? ERR_SSL_WANT_READ); [reflexivity | apply locked_call_scan].
Qed.

Lemma retry_loop_scan {A} (body : prog conn (Z + Z * A)) k :
  steps_in (unlocked True 0) body -> steps_in (unlocked True 0) (retry_loop body k).
Proof.
  intros Hb. induction k as [|k IH]; cbn [retry_loop].
  all: apply (steps_in_bind (unlocked True 0)); [done|]; intros [code|[ret a]].
  all: try apply (steps_in_ret (unlocked True 0)).
  destruct k; [apply (steps_in_ret (unlocked True 0))|].
  apply (steps_in_bind (unlocked True 0)); [by intros c; apply unlocked_same|].
  intros [|]; [exact IH | apply (steps_in_ret (unlocked True 0))].
Qed.

Lemma upd_scan sends f : steps_in (unlocked sends 0) (upd f).
Proof. intros c. by apply unlocked_same. Qed.

Lemma vtls_handshake_scan : steps_in (unlocked True 0) vtls_handshake.
Proof.
  apply (steps_in_bind (unlocked True 0)); [apply retry_loop_scan, locked_call_scan|].
  intros [code|[ret a]] c; [reflexivity|]. destruct (ret =? 0); [reflexivity|].
  rewrite bind_run. destruct (map_ret ret =? VTLS_ERROR); [apply upd_scan | reflexivity].
Qed.

Lemma vtls_read_scan len : steps_in (unlocked True 0) (vtls_read len).
Proof.
  apply (steps_in_bind (unlocked True 0)); [apply retry_loop_scan, read_body_scan|].
  intros [code|[ret a]] c; [reflexivity|]. prog_step.
  destruct (0 <? ret); [apply upd_scan|]. destruct (_ || _); [|apply upd_scan].
  prog_step. rewrite bind_run. by destruct (ret =? ERR_SSL_PEER_CLOSE_NOTIFY); apply unlocked_same.
Qed.

Lemma locked_write_scan buf c :
  unlocked (parked (ses c) = true) 0 c (snd (locked_write buf c)).
Proof.
  unfold locked_write. rewrite (bind_run VTLS_LOCK). destruct (lock_scan c) as (E1 & _ & Es).
  destruct (VTLS_LOCK c) as [u c1]. cbn [fst snd] in *. rewrite bind_upd.
  set (c2 := c1 <| ses := _ |>). rewrite (bind_run (run_lib _)).
  pose proof (fun c3 => bracket_scan (fun st => ssl_write st buf) c c2 _ c3 E1 eq_refl) as B.
  destruct (run_lib _ c2) as [[ret o] c3]. cbn [fst snd] in *. rewrite bind_upd, bind_run. cbn [snd pret].
  set (c4 := c3 <| ses := _ |>). destruct (lock_scan c4) as (_ & E4 & _).
  eapply unlocked_weaken; [|apply B, E4]. unfold c2. cbn. rewrite SER, Es. by destruct (parked (ses c)).
Qed.

Lemma write_loop_scan f buf c :
  unlocked (parked (ses c) = true) 0 c (snd (write_loop f buf c)).
Proof.
  revert c. induction f as [|f IH]; intros c; [by apply unlocked_same|]. cbn [write_loop]. prog_step.
  unfold id. destruct (wpend (ses c) =? 2); [by apply unlocked_same|]. rewrite bind_run.
  pose proof (locked_write_scan buf c) as H. destruct (locked_write buf c) as [ret c1]. cbn [fst snd] in *.
  destruct (negb _); [exact H|]. rewrite bind_upd. etransitivity; [exact H|].
  etransitivity; [apply (upd_scan _ (fun s => s <| parked := false |>))|].
  eapply unlocked_weaken; [|apply IH]. done.
Qed.

Lemma flush_deferred_scan buf ret c :
  exists k, (k <= 1)%nat /\ unlocked False k c (snd (flush_deferred buf ret c)).
Proof.
  unfold flush_deferred. rewrite bind_gets. destruct (deferred (ses c)).
  2: { exists O. split; [lia | by apply unlocked_same]. }
  exists 1%nat. split; [done|]. rewrite bind_upd, bind_run. set (c0 := c <| ses := _ |>).
  intros Hh. destruct (run_lib_scan (fun st => ssl_write st buf) c0) as (_ & n & E & Hn).
  destruct (run_lib _ c0) as [[r o] c1]. cbn [fst snd pret] in *.
  change (wire c0) with (wire c) in *. exists n. split; [|by right; apply Hn; left].
  rewrite E. cbn. rewrite Hh. destruct (scan (wire c)); cbn. by rewrite Nat.add_comm.
Qed.

Lemma vtls_write_scan f buf c :
  exists k, (k <= 1)%nat /\ unlocked (parked (ses c) = true) k c (snd (vtls_write f buf c)).
Proof.
  unfold vtls_write. rewrite bind_run. pose proof (write_loop_scan f buf c) as H.
  destruct (write_loop f buf c) as [[[code|ret0]|] c1]; cbn [fst snd pret] in *; try (exists O; split; [lia | done]).
  rewrite bind_run. destruct (flush_deferred_scan buf ret0 c1) as (k & Hk & F).
  destruct (flush_deferred buf ret0 c1) as [ret c2]. cbn [fst snd] in *. rewrite bind_run. cbn [snd pret].
  exists k. split; [done|]. replace k with (0 + (k + 0))%nat by lia.
  eapply unlocked_trans; [exact H|]. eapply unlocked_trans; [by eapply unlocked_weaken; [|exact F]|].
  unfold write_result. destruct (0 <=? ret); [apply unlocked_same; done|]. rewrite bind_run.
  by destruct (ret =? ERR_SSL_WANT_WRITE); apply unlocked_same.
Qed.

(** Nothing of the kTLS attempt touches the lock, and its library calls are under it. *)
Definition same_scan (c c' : conn) : Prop := held (scan (wire c)) = true -> scan (wire c') = scan (wire c).

#[local] Instance same_scan_preorder : PreOrder same_scan.
Proof. unfold same_scan. split; [by intros c|]. intros c1 c2 c3 H1 H2 H. rewrite H2; rewrite H1; done. Qed.

Lemma note_lib_scan : steps_in same_scan (note EvLib).
Proof. intros c H. cbn. rewrite scan_emit. cbn. by rewrite H. Qed.

Lemma setsockopt_scan level name arg : steps_in same_scan (setsockopt level name arg).
Proof.
  intros c _. unfold setsockopt, on_wire, sys_setsockopt. cbn.
  destruct (optq (wire c)); cbn; by rewrite scan_emit.
Qed.

Lemma log_once_scan flag claim line : steps_in same_scan (log_once flag claim line).
Proof.
  intros c. destruct (log_once_only_logs flag claim line c) as [_ (es & W & F)].
  intros _. rewrite (scan_app (wire c) _ es) by (by rewrite W). clear W.
  generalize (scan (wire c)). induction F as [|e es [l ->] _ IH]; intros s; [done | apply IH].
Qed.

Lemma enable_ktls_scan stack : steps_in same_scan (enable_ktls stack).
Proof.
  unfold enable_ktls, ktls_gates, ktls_install, ktls_log_fb, log_fb.
  repeat first
    [ apply setsockopt_scan | apply log_once_scan | apply note_lib_scan
    | apply (steps_in_ret same_scan) | apply (steps_in_get same_scan) | by intros ?
    | apply (steps_in_bind same_scan); [|intros ?] | apply (steps_in_if same_scan)
    | match goal with |- context [match ?x with _ => _ end] => destruct x end ].
Qed.

Lemma vtls_enable_ktls_scan stack : steps_in (unlocked True 0) (vtls_enable_ktls stack).
Proof.
  intros c Hh. unfold vtls_enable_ktls. rewrite (bind_run VTLS_LOCK), (bind_run (enable_ktls stack)), bind_run.
  cbn [snd pret]. destruct (lock_scan c) as (E1 & _).
  assert (Hl : held (scan (wire (snd (VTLS_LOCK c)))) = true) by (rewrite E1; cbn; by rewrite Hh).
  pose proof (enable_ktls_scan stack (snd (VTLS_LOCK c)) Hl) as E2.
  destruct (lock_scan (snd (enable_ktls stack (snd (VTLS_LOCK c))))) as (_ & E3 & _).
  exists (held_sends (scan (wire c))). split; [|by left]. rewrite E3, E2, E1, scan_eta. cbn. rewrite Hh.
  cbn. destruct (scan (wire c)); cbn in *. by subst.
Qed.

(** A last library call before the lock is released. *)
Lemma lib_unlock_scan c : held (scan (wire c)) = true ->
  scan (wire (snd (VTLS_UNLOCK (snd (note EvLib c))))) = (scan (wire c)) <| held := false |>.
Proof.
  intros H. destruct (lock_scan (snd (note EvLib c))) as (_ & E & _). rewrite E, (note_lib_scan c H). cbn. by rewrite H.
Qed.

Lemma vtls_session_free_scan : steps_in (unlocked True 0) vtls_session_free.
Proof.
  intros c Hh. unfold vtls_session_free. rewrite (bind_run VTLS_LOCK). destruct (lock_scan c) as (E1 & _).
  destruct (VTLS_LOCK c) as [u c1]. cbn [fst snd] in *. cbn in E1. rewrite Hh in E1. rewrite bind_gets, bind_run. unfold id.
  assert (H : exists n, scan (wire (snd ((if negb (ktls (ses c1)) && (0 <=? net_fd (ses c1))
      then let* _ := run_lib ssl_close_notify in pret tt else pret tt) c1))) = (scan (wire c1)) <| held_sends := n |>).
  { destruct (_ && _); [|exists (held_sends (scan (wire c1))); cbn [snd pret]; by destruct (scan (wire c1))]. rewrite bind_run.
    destruct (run_lib_scan ssl_close_notify c1) as (_ & n & E & _). destruct (run_lib ssl_close_notify c1) as [x c2].
    cbn [fst snd pret] in *. exists n. rewrite E, E1. done. }
  destruct H as [n E2]. destruct (_ c1) as [u2 c2]. cbn [fst snd] in *. rewrite bind_run.
  exists n. split; [|by left]. rewrite lib_unlock_scan by (by rewrite E2, E1). rewrite E2, E1.
  destruct (scan (wire c)); cbn in *. subst. by rewrite Nat.add_0_r.
Qed.

Lemma vtls_session_reset_scan fd : steps_in (unlocked True 0) (vtls_session_reset fd).
Proof.
  intros c Hh. unfold vtls_session_reset. rewrite (bind_run VTLS_LOCK). destruct (lock_scan c) as (E1 & _).
  destruct (VTLS_LOCK c) as [u c1]. cbn [fst snd] in *. cbn in E1. rewrite Hh in E1. rewrite (bind_run (note EvLib)).
  pose proof (note_lib_scan c1 ltac:(by rewrite E1)) as E2. destruct (note EvLib c1) as [u2 c2]. cbn [fst snd] in *. rewrite bind_gets.
  destruct (ssl_session_reset (ssl (ses c2))) as [ret st']. rewrite bind_upd, bind_run.
  set (c3 := c2 <| ses := _ |>). destruct (lock_scan c3) as (_ & E3 & _). exists (held_sends (scan (wire c))). split; [|by left].
  change (scan (wire (snd (VTLS_UNLOCK c3))) = (scan (wire c)) <| held_sends := held_sends (scan (wire c)) |>
    <| free_libs := (free_libs (scan (wire c)) + 0)%nat |>).
  rewrite E3. change (wire c3) with (wire c2). rewrite E2, E1, scan_eta.
  cbn. destruct (scan (wire c)); cbn in *. by subst.
Qed.

Lemma run_entry_scan e c :
  exists k, (k <= if is_write e then 1 else 0)%nat /\ unlocked True k c (run_entry e c).
Proof.
  destruct e as [| len | fuel buf | stack | fd |]; cbn [run_entry is_write].
  3: { destruct (vtls_write_scan fuel buf c) as (k & Hk & H). exists k. split; [done|].
       by eapply unlocked_weaken; [|exact H]. }
  all: exists O; split; [done|].
  - apply vtls_handshake_scan.
  - apply vtls_read_scan.
  - apply vtls_enable_ktls_scan.
  - apply vtls_session_reset_scan.
  - apply vtls_session_free_scan.
Qed.

(** C34: with a library that is not thread safe, any sequence of entry points
    leaves the lock free, having never taken it twice nor released it unheld, and
    entered the library without it at most once per write (the flush of a record
    already encrypted). The entries are the library calls of handshake, read, write
    and close_notify with all their callbacks, the reset and the release of a session,
    and the key derivations of the kTLS handoff, which run on PSA; accessors that only
    read a session are not counted. *)
Theorem lock_discipline es c :
  held (scan (wire c)) = false -> misused (scan (wire c)) = false ->
  let s := scan (wire (run_entries es c)) in
  held s = false /\ misused s = false
  /\ (free_libs s <= free_libs (scan (wire c)) + length (List.filter is_write es))%nat.
Proof.
  revert c. induction es as [|e es IH]; intros c Hh Hm; cbn -[Nat.add]; [split; [done|]; split; [done | lia]|].
  destruct (run_entry_scan e c) as (k & Hk & H). destruct (H Hh) as (n & E & _).
  destruct (IH (run_entry e c)) as (H1 & H2 & H3); [by rewrite E | by rewrite E|].
  split; [exact H1|]. split; [exact H2|]. unfold run_entries in H3 |- *. cbn in H3 |- *.
  rewrite E in H3. cbn in H3. destruct (is_write e); cbn; lia.
Qed.

(** a write on a session with no ticket parked never sends while holding
    the lock, whatever the library does. *)
Theorem write_sends_unlocked fuel buf c :
  held (scan (wire c)) = false -> parked (ses c) = false ->
  held_sends (scan (wire (snd (vtls_write fuel buf c)))) = held_sends (scan (wire c)).
Proof.
  intros Hh Hp. destruct (vtls_write_scan fuel buf c) as (k & _ & H).
  destruct (H Hh) as (n & -> & [Q|Q]); [congruence | done].
Qed.
End Lock.

(** ** Witnesses *)

Definition lock_demo : conn := toy_client [DATA; Byte.x41].

Lemma lock_discipline_witness :
  VTLS_SERIALIZED = true /\
  let s := scan (wire (run_entries [CallRead 10; CallWrite 2 (bytes_of "hi"); CallReset 7; CallFree] lock_demo)) in
  held s = false /\ misused s = false /\ (free_libs s <= 0 + 1)%nat.
Proof.
  split; [reflexivity|].
  apply (lock_discipline eq_refl [CallRead 10; CallWrite 2 (bytes_of "hi"); CallReset 7; CallFree] lock_demo); reflexivity.
Defined.

Lemma write_sends_unlocked_witness :
  VTLS_SERIALIZED = true /\
  held_sends (scan (wire (snd (vtls_write 2 (bytes_of "hi") lock_demo)))) = 0%nat.
Proof.
  split; [reflexivity|].
  apply (write_sends_unlocked eq_refl 2 (bytes_of "hi") lock_demo); reflexivity.
Defined.
