(* ===== verification/TlsWorker.v ===== *)
(** A TLS session driven by the epoll worker of
    server/backend_epoll/tls_conn_linux.c.v: edges, handshake steps, the kTLS
    attempt, reads and writes, interleaved in any order with what the network
    does. The theorems hold in every state such a run reaches. *)
From S2P Require Import Prelude StreamSocket TlsSession TlsInvariants TlsKtls TlsLaws TlsToy.
Local Open Scope Z_scope.
Local Open Scope prog_scope.

Section Worker.
Context `{ML : MbedTLS} `{BD : Build} `{PS : PSA}.

(** One step of a connection. [worker_wake] is a readable edge: epoll reports a
    pending edge once, and [tls_on_readable] marks the session readable. *)
Inductive worker_step : conn -> conn -> Prop :=
| network e c : worker_step c (c <| wire := deliver e (wire c) |>)
| worker_wake c :
    edge (wire c) = true ->
    worker_step c (snd (vtls_mark_readable (c <| wire := (wire c) <| edge := false |> |>)))
| worker_mark c : worker_step c (snd (vtls_mark_readable c))
| worker_handshake c : worker_step c (snd (vtls_handshake c))
| worker_ktls stack c :
    ktls (ses c) = false -> ktls_failed (ses c) = false ->
    worker_step c (snd (enable_ktls stack c))
| worker_read len c : worker_step c (snd (vtls_read len c))
| worker_write fuel buf c : worker_step c (snd (vtls_write fuel buf c)).

(** A session just created on a socket that may already hold bytes: a server's
    ([vtls_session_new]) or a client's ([vtls_client_session_new]). *)
Definition fresh (c : conn) : Prop :=
  (exists st fd off tick pad, ses c = session_init st fd off tick pad
                              \/ ses c = client_rearm fd (session_calloc st))
  /\ rx (wire c) = arrived (wire c) /\ fed (wire c) = [].

Definition reachable (c : conn) : Prop := exists c0, fresh c0 /\ rtc worker_step c0 c.

Context {ME : MbedTLSErrors}.

Lemma fresh_inv c : fresh c -> inv [] c.
Proof.
  intros [(st & fd & off & tick & pad & H) [R F]].
  assert (W : ra_wf (ses c) /\ unread (ses c) = [] /\ readable (ses c) = true).
  { destruct H as [-> | ->]; (split; [|done]); unfold ra_wf; cbn;
      rewrite ?length_replicate; repeat split; lia. }
  destruct W as (W & U & Rd). split; [done | | congruence | done].
  by rewrite F, U, R.
Qed.

Lemma worker_step_inv c c' : worker_step c c' -> inv [] c -> inv [] c'.
Proof.
  destruct 1 as [e c | c He | c | c | stack c Hk Hf | len c | fuel buf c]; intros I.
  - pose proof (deliver_grown e (wire c)) as G. pose proof (grown_announced _ _ G) as HA.
    destruct G as (d & R & A & _ & _ & L & _). destruct I as [W St An Ex]. split; cbn; auto.
    rewrite (fed_app _ _ [] (eq_trans L (eq_sym (app_nil_r _)))), R, A, <- St, app_nil_r.
    cbn. by rewrite <- !app_assoc.
  - destruct I as [W St An Ex]. by split.
  - revert I. apply (upd_keeps_inv (fun s => s <| readable := true |>)). intros s. by repeat split; left.
  - by apply vtls_handshake_spec.
  - by apply enable_ktls_inv.
  - by apply vtls_read_spec.
  - by apply vtls_write_keep.
Qed.

Lemma reachable_inv c : reachable c -> inv [] c.
Proof.
  intros (c0 & F & H). apply fresh_inv in F. induction H; [done|]. eauto using worker_step_inv.
Qed.

(** C1: in every state a worker can reach, whatever the library and the network
    did, the bytes handed to the TLS library, followed by the bytes read ahead
    and the bytes still queued in the socket, are exactly the bytes that
    arrived, in order: none is lost, repeated or reordered. *)
Theorem session_stream_conserved c :
  reachable c ->
  fed (wire c) ++ unread (ses c) ++ rx (wire c) = arrived (wire c).
Proof. intros H. apply (inv_stream _ _ (reachable_inv c H)). Qed.

(** C33: no lost wakeup. When the session answers "drained" from its own state
    ([readable] is 0), its socket holds no byte, or a readable edge is pending
    that will wake the worker. *)
Theorem drained_socket_has_edge c :
  reachable c -> readable (ses c) = false -> rx (wire c) = [] \/ edge (wire c) = true.
Proof. intros H. apply (inv_announced _ _ (reachable_inv c H)). Qed.

(** C40: the read-ahead buffer never overflows: its offsets stay ordered and
    within the 4096 bytes of the array. *)
Theorem readahead_in_bounds c :
  reachable c ->
  (ra_off (ses c) <= ra_len (ses c) <= length (ra (ses c)))%nat
  /\ length (ra (ses c)) = VTLS_READAHEAD.
Proof. intros H. destruct (inv_ra _ _ (reachable_inv c H)) as (H1 & H2 & H3). by rewrite H3. Qed.

(** [vtls_read] answers [VTLS_WANT] only when nothing is read ahead and the
    socket is drained (or has a pending edge for what it holds), unless Mbed TLS
    was called [VTLS_RETRIES] times without consuming the socket. *)
Theorem read_want_means_drained len c :
  reachable c ->
  fst (fst (vtls_read len c)) = VTLS_WANT ->
  let c' := snd (vtls_read len c) in
  (unread (ses c') = [] /\ (rx (wire c') = [] \/ edge (wire c') = true))
  \/ lib_calls (wire c') = (lib_calls (wire c) + VTLS_RETRIES)%nat.
Proof. intros H. apply vtls_read_spec, reachable_inv, H. Qed.

(** The same for the handshake: [VTLS_WANT] means that the next edge will
    come for whatever the peer sends next. *)
Theorem handshake_want_means_drained c :
  reachable c ->
  fst (vtls_handshake c) = VTLS_WANT ->
  let c' := snd (vtls_handshake c) in
  (unread (ses c') = [] /\ (rx (wire c') = [] \/ edge (wire c') = true))
  \/ lib_calls (wire c') = (lib_calls (wire c) + VTLS_RETRIES)%nat.
Proof. intros H. apply vtls_handshake_spec, reachable_inv, H. Qed.

(** C13: the kTLS handoff is exact. When [enable_ktls] reports that the kernel
    took over, nothing is left in the read-ahead: what the library consumed,
    followed by what the socket holds, is all that arrived, so the kernel reads
    the first record the library did not. *)
Theorem ktls_handoff_exact stack c :
  reachable c -> ktls (ses c) = false -> ktls_failed (ses c) = false ->
  fst (enable_ktls stack c) = true ->
  let c' := snd (enable_ktls stack c) in
  unread (ses c') = [] /\ fed (wire c') ++ rx (wire c') = arrived (wire c').
Proof.
  intros H Hk Hf Hr. pose proof (enable_ktls_inv stack c Hk Hf (reachable_inv c H)) as [_ St _ Ex].
  destruct (enable_ktls_spec stack c Hk Hf) as (_ & _ & _ & _ & S).
  assert (U : unread (ses (snd (enable_ktls stack c))) = []) by (apply Ex; by rewrite S, Hr).
  split; [done|]. by rewrite U in St.
Qed.
End Worker.

(** ** Witnesses: the toy library on concrete traffic *)

Definition demo_bytes : list byte := [DATA; Byte.x41; DATA; Byte.x42].

(** One data byte read, one record left in the read-ahead. *)
Definition demo_conn : conn := snd (vtls_read 10 (toy_client demo_bytes)).

Lemma toy_client_fresh bs : fresh (toy_client bs).
Proof. split; [|done]. exists toy0, 3, false, false, false. by right. Qed.

Lemma demo_reachable : reachable demo_conn.
Proof.
  exists (toy_client demo_bytes). split; [apply toy_client_fresh|].
  apply rtc_once. apply (worker_read 10 (toy_client demo_bytes)).
Qed.

(** Both records read, and then a read that finds the socket drained. *)
Definition demo_drained : conn := snd (vtls_read 10 demo_conn).

Lemma demo_drained_reachable : reachable demo_drained.
Proof.
  destruct demo_reachable as (c0 & F & H). exists c0. split; [done|].
  eapply rtc_r; [exact H | apply (worker_read 10 demo_conn)].
Qed.

Lemma session_stream_conserved_witness :
  unread (ses demo_conn) = [DATA; Byte.x42]
  /\ fed (wire demo_conn) ++ unread (ses demo_conn) ++ rx (wire demo_conn) = demo_bytes.
Proof. split; [reflexivity | exact (session_stream_conserved demo_conn demo_reachable)]. Defined.

Lemma drained_socket_has_edge_witness :
  readable (ses demo_drained) = false
  /\ (rx (wire demo_drained) = [] \/ edge (wire demo_drained) = true).
Proof.
  split; [reflexivity|].
  apply (drained_socket_has_edge demo_drained demo_drained_reachable). reflexivity.
Defined.

Lemma readahead_in_bounds_witness :
  ra_len (ses demo_conn) = 4%nat
  /\ (ra_off (ses demo_conn) <= ra_len (ses demo_conn) <= length (ra (ses demo_conn)))%nat.
Proof. split; [reflexivity | apply (readahead_in_bounds demo_conn demo_reachable)]. Defined.

Lemma read_want_means_drained_witness :
  fst (fst (vtls_read 10 demo_drained)) = VTLS_WANT
  /\ let c' := snd (vtls_read 10 demo_drained) in
     (unread (ses c') = [] /\ (rx (wire c') = [] \/ edge (wire c') = true))
     \/ lib_calls (wire c') = (lib_calls (wire demo_drained) + VTLS_RETRIES)%nat.
Proof.
  split; [vm_compute; reflexivity|].
  apply (read_want_means_drained 10 demo_drained demo_drained_reachable). vm_compute. reflexivity.
Defined.

Lemma toy_server_fresh bs : fresh (toy_server bs).
Proof. split; [|done]. exists toy0, 3, false, false, true. by left. Qed.

Lemma toy_server_reachable bs : reachable (toy_server bs).
Proof. exists (toy_server bs). split; [apply toy_server_fresh | done]. Qed.

Lemma handshake_want_means_drained_witness :
  fst (vtls_handshake (toy_server [])) = VTLS_WANT
  /\ let c' := snd (vtls_handshake (toy_server [])) in
     (unread (ses c') = [] /\ (rx (wire c') = [] \/ edge (wire c') = true))
     \/ lib_calls (wire c') = (lib_calls (wire (toy_server [])) + VTLS_RETRIES)%nat.
Proof.
  split; [vm_compute; reflexivity|].
  apply (handshake_want_means_drained (toy_server []) (toy_server_reachable [])).
  vm_compute. reflexivity.
Defined.

(** A server whose handshake is over, with a record queued behind it. *)
Definition demo_established : conn := snd (vtls_handshake (toy_server (Byte.x16 :: demo_bytes))).

Lemma demo_established_reachable : reachable demo_established.
Proof.
  exists (toy_server (Byte.x16 :: demo_bytes)). split; [apply toy_server_fresh|].
  apply rtc_once. apply (worker_handshake (toy_server (Byte.x16 :: demo_bytes))).
Qed.

Lemma ktls_handoff_exact_witness :
  let c' := snd (enable_ktls (replicate INFO_SIZE NUL) demo_established) in
  rx (wire c') = demo_bytes
  /\ unread (ses c') = [] /\ fed (wire c') ++ rx (wire c') = arrived (wire c').
Proof.
  split; [vm_compute; reflexivity|].
  apply (ktls_handoff_exact _ demo_established demo_established_reachable); vm_compute; reflexivity.
Defined.

(** ** Two corners *)

(** A socket on which a record and the peer's FIN arrived together, with the
    edge already reported to the worker. *)
Definition fin_conn : conn :=
  mkConn _ (client_rearm 3 (session_calloc toy0))
    (mkSock [DATA; Byte.x41] [DATA; Byte.x41] (Some EndFin) false [] O [] [] [] []) no_flags.

(** A bare FIN queued behind the last bytes goes unseen: the [recv] that took
    them came back short, which the session reads as drained, and it then answers
    [VTLS_WANT] with no edge pending, though [recv] would answer EOF. *)
Lemma bare_fin_unseen :
  let c1 := snd (vtls_read 10 fin_conn) in
  let c2 := snd (vtls_read 10 c1) in
  fst (vtls_read 10 fin_conn) = (1, [Byte.x41])
  /\ fst (fst (vtls_read 10 c1)) = VTLS_WANT
  /\ rx_end (wire c2) = Some EndFin /\ edge (wire c2) = false /\ closed (ses c2) = 0.
Proof. vm_compute. auto. Qed.

(** Each ticket costs two library calls, so a burst of 32 of them uses up
    [VTLS_RETRIES], and the read fails though data waits behind them. *)
Lemma ticket_burst_fails :
  fst (fst (vtls_read 10 (toy_client (replicate 32 TICKET ++ demo_bytes)))) = VTLS_ERROR
  /\ fst (vtls_read 10 (toy_client (replicate 31 TICKET ++ demo_bytes))) = (1, [Byte.x41]).
Proof. vm_compute. auto. Qed.
