(* ===== verification/TlsHandoff.v ===== *)
(** What the kTLS handoff promises: how [enable_ktls] may leave the socket, the
    keys it installs, and its one-time log lines under concurrent workers. *)
From S2P Require Import Prelude StreamSocket TlsSession TlsInvariants TlsKtls TlsLaws TlsToy TlsWorker.
Local Open Scope Z_scope.

Section Handoff.
Context `{ML : MbedTLS} `{BD : Build} `{PS : PSA}.

(** C35: [enable_ktls] either leaves the socket as it was and the session on
    Mbed TLS, or attaches the kTLS layer and installs both directions in order; a
    failure after the layer is attached always marks the session for closing.
    It scrubs the traffic secrets on every path, and the read-ahead is on exactly
    when the kernel did not take over. *)
Theorem ktls_handoff_outcome stack c :
  ktls (ses c) = false -> ktls_failed (ses c) = false ->
  let r := fst (enable_ktls stack c) in
  let c' := snd (enable_ktls stack c) in
  (exists es, log (wire c') = log (wire c) ++ es
              /\ handoff (ses c) stack (sockopts es) r (ktls_failed (ses c')))
  /\ ktls (ses c') = r /\ readahead (ses c') = negb r /\ keys (ses c') = zero_keys.
Proof.
  intros Hk Hf. destruct (enable_ktls_spec stack c Hk Hf) as (es & F & H & W & S).
  split; [|by rewrite S]. exists es. split; [|exact H]. rewrite W. apply (kf_log _ _ _ _ _ F).
Qed.

(** [hkdf_expand_label] never writes outside its 26-byte [info] array, and
    what it derives from is the [HkdfLabel] of RFC 8446; a label too long for the
    array is refused. *)
Theorem hkdf_label_rfc8446 stack secret label out_len :
  length stack = INFO_SIZE ->
  hkdf_expand_label stack secret label out_len =
  if (length label <=? 16)%nat then
    let info := rfc8446_hkdf_label label out_len in
    if psa_kdf_setup && psa_kdf_input_secret secret && psa_kdf_input_info secret info
    then psa_kdf_output secret info out_len else None
  else None.
Proof. apply hkdf_expand_label_spec. Qed.

Lemma hkdf_expand_some stack secret label n out :
  length stack = INFO_SIZE -> hkdf_expand_label stack secret label n = Some out ->
  psa_kdf_output secret (rfc8446_hkdf_label label n) n = Some out.
Proof. intros Hs. rewrite hkdf_expand_label_spec by done. cbv zeta. by repeat case_match. Qed.

(** The [crypto_info] installed in the kernel has the kernel's layout for
    TLS 1.3 with AES-128-GCM: a 16-byte key, the 12-byte write IV split into a
    4-byte salt and an 8-byte IV, both derived under their own RFC 8446 label,
    and record sequence number 0. *)
Theorem crypto_info_layout {PL : PSALaws} stack secret ci :
  length stack = INFO_SIZE -> fill_crypto_info stack secret = Some ci ->
  psa_kdf_output secret (rfc8446_hkdf_label (bytes_of "key") 16) 16 = Some (ci_key ci)
  /\ psa_kdf_output secret (rfc8446_hkdf_label (bytes_of "iv") 12) 12 = Some (ci_salt ci ++ ci_iv ci)
  /\ length (ci_key ci) = 16%nat /\ length (ci_salt ci) = 4%nat /\ length (ci_iv ci) = 8%nat
  /\ ci_rec_seq ci = replicate 8 NUL
  /\ ci_version ci = TLS_1_3_VERSION /\ ci_cipher_type ci = TLS_CIPHER_AES_GCM_128.
Proof.
  intros Hs E. apply bind_Some in E as (key & Ek & E). apply bind_Some in E as (iv12 & Ei & E).
  apply hkdf_expand_some in Ek, Ei; [|done|done]. revert E.
  apply psa_output_len in Ek as Lk. apply psa_output_len in Ei as Li.
  intros [= <-]. cbn [ci_key ci_salt ci_iv ci_rec_seq ci_version ci_cipher_type].
  rewrite (take_ge key) by lia. rewrite (take_ge (drop 4 iv12)) by (rewrite length_drop; lia).
  rewrite take_drop, length_take, length_drop, Ei, Lk, Li. done.
Qed.
End Handoff.

(** However concurrent workers interleave inside [ktls_first], at most one
    call reports that it was first, and once all have returned exactly one has:
    each one-time line is logged once. *)
Theorem ktls_first_once n st :
  rtc claim_step (mkClaim false (replicate n AtLoad)) st ->
  (firsts (claimers st) <= 1)%nat
  /\ ((0 < n)%nat -> Forall (fun t => exists b, t = Returned b) (claimers st) ->
      firsts (claimers st) = 1%nat).
Proof.
  intros H. destruct (claim_inv_rtc _ _ H (claim_inv_init n)) as [Hn Hf].
  pose proof (claim_length _ _ H) as Hl. split.
  - rewrite Hn. destruct (flag_set st); lia.
  - intros Hpos Hr. rewrite Hn. destruct (flag_set st); [done|].
    destruct (claimers st) as [|t ts]; [cbn in Hl; lia|].
    specialize (Hf eq_refl). apply Forall_cons in Hf as [[-> | ->] _];
      apply Forall_cons in Hr as [[b Hb] _]; done.
Qed.

(** ** Witnesses *)

Definition demo_stack : list byte := replicate INFO_SIZE NUL.

Lemma ktls_handoff_outcome_witness :
  let r := fst (enable_ktls demo_stack demo_established) in
  let c' := snd (enable_ktls demo_stack demo_established) in
  r = true
  /\ (exists es, log (wire c') = log (wire demo_established) ++ es
                 /\ handoff (ses demo_established) demo_stack (sockopts es) r (ktls_failed (ses c')))
  /\ ktls (ses c') = r /\ readahead (ses c') = negb r /\ keys (ses c') = zero_keys.
Proof.
  split; [vm_compute; reflexivity|].
  apply (ktls_handoff_outcome demo_stack demo_established); vm_compute; reflexivity.
Defined.

Lemma hkdf_label_rfc8446_witness :
  hkdf_expand_label demo_stack [Byte.x07] (bytes_of "key") 16 = Some (replicate 16 Byte.x07).
Proof. rewrite (hkdf_label_rfc8446 demo_stack); vm_compute; reflexivity. Defined.

#[export] Instance ToyPSALaws : PSALaws.
Proof. intros secret info n out [= <-]. apply length_replicate. Qed.

Lemma crypto_info_layout_witness :
  exists ci, fill_crypto_info demo_stack [Byte.x07] = Some ci /\ length (ci_key ci) = 16%nat.
Proof.
  eexists. split; [vm_compute; reflexivity|].
  eapply (crypto_info_layout demo_stack [Byte.x07]); [reflexivity | vm_compute; reflexivity].
Defined.

(** Two workers: both load the clear flag, then both exchange it. *)
Lemma ktls_first_once_witness :
  exists st, firsts (claimers st) = 1%nat /\ (firsts (claimers st) <= 1)%nat.
Proof.
  exists (mkClaim true [Returned true; Returned false]). split; [reflexivity|].
  apply (ktls_first_once 2).
  eapply rtc_l; [apply (claim_load_clear _ _ 0); reflexivity|].
  eapply rtc_l; [apply (claim_load_clear _ _ 1); reflexivity|].
  eapply rtc_l; [apply (claim_exchange _ _ 0); reflexivity|].
  eapply rtc_l; [apply (claim_exchange _ _ 1); reflexivity|]. apply rtc_refl.
Defined.
