(* ===== verification/Slots.v ===== *)
(** The per-thread hand-off slots of core/: [sendfile_slot.h] (a file region),
    [queued_buf_slot.h] (a borrowed buffer) and [takeover_slot.h] (a connection).
    A handler queues one thing for the worker that called it; the worker takes it
    right after. All three are a one-place mailbox behind gates: the class
    [HandoffSlot] states that interface, and each slot, as well as the inert
    version built with tcc, is an instance. *)
From stdpp Require Import gmap.
From S2P Require Import Prelude.
Local Open Scope Z_scope.

(** ** The abstract mailbox *)

(** Whether a hand-off would be accepted, and the one waiting. *)
Record mailbox (A : Type) := mkBox { accepts : bool; waiting : option A }.
Arguments mkBox {A} accepts waiting.
Arguments accepts {A}.
Arguments waiting {A}.

Definition box_queue {A} (a : A) (m : mailbox A) : bool * mailbox A :=
  if accepts m then (true, mkBox true (Some a)) else (false, m).

Definition box_take {A} (m : mailbox A) : option A * mailbox A :=
  (waiting m, mkBox (accepts m) None).

(** ** Slots *)

(** A slot type [T] that hands over values of [A]. The laws say that it is a
    mailbox: they are what a worker or a handler may rely on. *)
Class HandoffSlot (T A : Type) := {
  slot_zero : T;
  slot_queue : A -> T -> bool * T;
  slot_take : T -> option A * T;
  slot_box : T -> mailbox A;
  slot_zero_box : slot_box slot_zero = mkBox false None;
  slot_queue_box : forall a s,
    fst (slot_queue a s) = fst (box_queue a (slot_box s))
    /\ slot_box (snd (slot_queue a s)) = snd (box_queue a (slot_box s));
  slot_take_box : forall s,
    fst (slot_take s) = fst (box_take (slot_box s))
    /\ slot_box (snd (slot_take s)) = snd (box_take (slot_box s))
}.

(** *** sendfile_slot.h *)

Record vanilla_sf_slot := mkSf {
  sf_enabled : bool;
  sf_allowed : bool;
  sf_queued : bool;
  sf_file_fd : Z;
  sf_off : Z;
  sf_len : Z
}.

#[export] Instance eta_sf : Eta vanilla_sf_slot := mkEta _ (fun s =>
  mkSf (sf_enabled s) (sf_allowed s) (sf_queued s) (sf_file_fd s) (sf_off s) (sf_len s)).

Definition vanilla_sf_zero : vanilla_sf_slot := mkSf false false false 0 0 0.

Definition vanilla_sf_enable (s : vanilla_sf_slot) : vanilla_sf_slot :=
  s <| sf_enabled := true |> <| sf_allowed := true |>.

Definition vanilla_sf_set_allowed (allowed : bool) (s : vanilla_sf_slot) : vanilla_sf_slot :=
  s <| sf_allowed := allowed |>.

Definition vanilla_sf_queue (a : Z * Z * Z) (s : vanilla_sf_slot) : bool * vanilla_sf_slot :=
  let '(file_fd, off, len) := a in
  if negb (sf_enabled s) || negb (sf_allowed s) then (false, s)
  else (true, s <| sf_file_fd := file_fd |> <| sf_off := off |> <| sf_len := len |>
                <| sf_queued := true |>).

(** [None]: the function returned false and left its outputs alone. *)
Definition vanilla_sf_take (s : vanilla_sf_slot) : option (Z * Z * Z) * vanilla_sf_slot :=
  if negb (sf_queued s) then (None, s)
  else (Some (sf_file_fd s, sf_off s, sf_len s), s <| sf_queued := false |>).

(** *** queued_buf_slot.h *)

Record vanilla_qb_slot := mkQb {
  qb_enabled : bool;
  qb_allowed : bool;
  qb_queued : bool;
  qb_ptr : Z;
  qb_len : Z
}.

#[export] Instance eta_qb : Eta vanilla_qb_slot := mkEta _ (fun s =>
  mkQb (qb_enabled s) (qb_allowed s) (qb_queued s) (qb_ptr s) (qb_len s)).

Definition vanilla_qb_zero : vanilla_qb_slot := mkQb false false false 0 0.

(** Unlike the sendfile slot, enabling does not open the per-request gate. *)
Definition vanilla_qb_enable (s : vanilla_qb_slot) : vanilla_qb_slot := s <| qb_enabled := true |>.

Definition vanilla_qb_set_allowed (allowed : bool) (s : vanilla_qb_slot) : vanilla_qb_slot :=
  s <| qb_allowed := allowed |>.

Definition vanilla_qb_queue (a : Z * Z) (s : vanilla_qb_slot) : bool * vanilla_qb_slot :=
  let '(ptr, len) := a in
  if negb (qb_enabled s) || negb (qb_allowed s) then (false, s)
  else (true, s <| qb_ptr := ptr |> <| qb_len := len |> <| qb_queued := true |>).

Definition vanilla_qb_take (s : vanilla_qb_slot) : option (Z * Z) * vanilla_qb_slot :=
  if negb (qb_queued s) then (None, s)
  else (Some (qb_ptr s, qb_len s), s <| qb_queued := false |>).

(** *** takeover_slot.h *)

Record vanilla_to_slot := mkTo {
  to_enabled : bool;
  to_queued : bool;
  to_cont : Z;
  to_state : Z
}.

#[export] Instance eta_to : Eta vanilla_to_slot := mkEta _ (fun s =>
  mkTo (to_enabled s) (to_queued s) (to_cont s) (to_state s)).

Definition vanilla_to_zero : vanilla_to_slot := mkTo false false 0 0.

Definition vanilla_to_enable (s : vanilla_to_slot) : vanilla_to_slot := s <| to_enabled := true |>.

Definition vanilla_to_queue (a : Z * Z) (s : vanilla_to_slot) : bool * vanilla_to_slot :=
  let '(cont, state) := a in
  if negb (to_enabled s) then (false, s)
  else (true, s <| to_cont := cont |> <| to_state := state |> <| to_queued := true |>).

Definition vanilla_to_take (s : vanilla_to_slot) : option (Z * Z) * vanilla_to_slot :=
  if negb (to_queued s) then (None, s)
  else (Some (to_cont s, to_state s), s <| to_queued := false |>).

Definition vanilla_to_pending (s : vanilla_to_slot) : bool := to_queued s.

(** *** The inert slots built with tcc *)

(** Under tcc there is no slot at all: each operation ignores its arguments. *)
Inductive inert (A : Type) := Inert.
Arguments Inert {A}.

Definition inert_queue {A} (a : A) (s : inert A) : bool * inert A := (false, s).
Definition inert_take {A} (s : inert A) : option A * inert A := (None, s).
Definition inert_enable {A} (s : inert A) : inert A := s.
Definition inert_set_allowed {A} (allowed : bool) (s : inert A) : inert A := s.
Definition inert_pending {A} (s : inert A) : bool := false.

(** ** The instances *)

Definition sf_box (s : vanilla_sf_slot) : mailbox (Z * Z * Z) :=
  mkBox (sf_enabled s && sf_allowed s)
    (if sf_queued s then Some (sf_file_fd s, sf_off s, sf_len s) else None).

#[export] Program Instance sf_handoff : HandoffSlot vanilla_sf_slot (Z * Z * Z) := {
  slot_zero := vanilla_sf_zero;
  slot_queue := vanilla_sf_queue;
  slot_take := vanilla_sf_take;
  slot_box := sf_box
}.
Next Obligation. done. Qed.
Next Obligation. by intros [[fd off] len] [[] [] [] ? ? ?]. Qed.
Next Obligation. by intros [[] [] [] ? ? ?]. Qed.

Definition qb_box (s : vanilla_qb_slot) : mailbox (Z * Z) :=
  mkBox (qb_enabled s && qb_allowed s) (if qb_queued s then Some (qb_ptr s, qb_len s) else None).

#[export] Program Instance qb_handoff : HandoffSlot vanilla_qb_slot (Z * Z) := {
  slot_zero := vanilla_qb_zero;
  slot_queue := vanilla_qb_queue;
  slot_take := vanilla_qb_take;
  slot_box := qb_box
}.
Next Obligation. done. Qed.
Next Obligation. by intros [ptr len] [[] [] [] ? ?]. Qed.
Next Obligation. by intros [[] [] [] ? ?]. Qed.

Definition to_box (s : vanilla_to_slot) : mailbox (Z * Z) :=
  mkBox (to_enabled s) (if to_queued s then Some (to_cont s, to_state s) else None).

#[export] Program Instance to_handoff : HandoffSlot vanilla_to_slot (Z * Z) := {
  slot_zero := vanilla_to_zero;
  slot_queue := vanilla_to_queue;
  slot_take := vanilla_to_take;
  slot_box := to_box
}.
Next Obligation. done. Qed.
Next Obligation. by intros [cont state] [[] [] ? ?]. Qed.
Next Obligation. by intros [[] [] ? ?]. Qed.

#[export] Program Instance inert_handoff (A : Type) : HandoffSlot (inert A) A := {
  slot_zero := Inert;
  slot_queue := inert_queue;
  slot_take := inert_take;
  slot_box _ := mkBox false None
}.
Solve All Obligations with done.

(** ** Workers and handlers *)

(** What a thread does with its slots over its life. *)
Inductive slot_op (A : Type) := OpQueue (a : A) | OpTake.
Arguments OpQueue {A} a.
Arguments OpTake {A}.

Section Worker.
Context {T A : Type} `{HS : !HandoffSlot T A}.

(** One request: the handler queues the hand-offs in [offers] (it may try
    several), then the worker takes. *)
Definition serve (offers : list A) (s : T) : option A * T :=
  slot_take (foldl (fun s a => snd (slot_queue a s)) s offers).

(** Each thread has a slot of its own ([_Thread_local]), zero until it is
    used. *)
Definition thread_op (tid : nat) (op : slot_op A) (m : gmap nat T) : option A * gmap nat T :=
  let s := default slot_zero (m !! tid) in
  match op with
  | OpQueue a => (None, <[tid := snd (slot_queue a s)]> m)
  | OpTake => (fst (slot_take s), <[tid := snd (slot_take s)]> m)
  end.

Fixpoint thread_run (ops : list (nat * slot_op A)) (m : gmap nat T) : gmap nat T :=
  match ops with
  | [] => m
  | (tid, op) :: ops' => thread_run ops' (snd (thread_op tid op m))
  end.

Lemma queue_accepts a s : accepts (slot_box (snd (slot_queue a s))) = accepts (slot_box s).
Proof.
  destruct (slot_queue_box a s) as [_ ->]. unfold box_queue. by destruct (accepts (slot_box s)) eqn:E.
Qed.

Lemma queue_all_box offers s :
  slot_box (foldl (fun s a => snd (slot_queue a s)) s offers) =
  mkBox (accepts (slot_box s))
    (if accepts (slot_box s) then match last offers with Some a => Some a | None => waiting (slot_box s) end
     else waiting (slot_box s)).
Proof.
  revert s. induction offers as [|a offers IH]; intros s; cbn [foldl].
  - cbn. destruct (slot_box s) as [[] w]; done.
  - rewrite IH, queue_accepts. destruct (slot_queue_box a s) as [_ ->]. unfold box_queue.
    destruct (accepts (slot_box s)) eqn:E; cbn; [|done].
    f_equal. rewrite last_cons. by destruct (last offers).
Qed.

(** One request's hand-off never leaks into the next. Once a worker has
    taken from its slot, the next take returns exactly the last thing the next
    handler managed to queue, or nothing; and it leaves the slot empty again. *)
Theorem handoff_does_not_leak (before : T) offers :
  let s := snd (slot_take before) in
  fst (serve offers s) = (if accepts (slot_box before) then last offers else None)
  /\ waiting (slot_box (snd (serve offers s))) = None.
Proof.
  intros s. unfold serve. set (q := foldl _ s offers).
  destruct (slot_take_box q) as [-> ->]. split; [|done]. unfold box_take. cbn [fst].
  unfold q. rewrite queue_all_box. destruct (slot_take_box before) as [_ E]. fold s in E.
  rewrite E. cbn. destruct (accepts (slot_box before)); [|done]. by destruct (last offers).
Qed.

(** A slot whose gates are closed refuses every hand-off, and a queue that
    was accepted is what the next take returns. *)
Lemma queue_then_take a (s : T) :
  fst (slot_queue a s) = accepts (slot_box s)
  /\ fst (slot_take (snd (slot_queue a s)))
     = (if accepts (slot_box s) then Some a else waiting (slot_box s)).
Proof.
  destruct (slot_queue_box a s) as [E1 E2]. destruct (slot_take_box (snd (slot_queue a s))) as [-> _].
  rewrite E1, E2. unfold box_queue, box_take. by destruct (accepts (slot_box s)).
Qed.

(** Threads do not see each other's slots: what a thread finds in its slot
    depends only on the operations it made itself, however the workers'
    operations interleave. *)
Theorem slots_are_per_thread tid (ops : list (nat * slot_op A)) (m : gmap nat T) :
  thread_run ops m !! tid =
  thread_run (List.filter (fun o => Nat.eqb (fst o) tid) ops) m !! tid.
Proof.
  assert (Hext : forall ops m m', m !! tid = m' !! tid ->
    thread_run (List.filter (fun o => Nat.eqb (fst o) tid) ops) m !! tid
    = thread_run (List.filter (fun o => Nat.eqb (fst o) tid) ops) m' !! tid).
  { intros ops'. induction ops' as [|[t op] ops' IH]; intros m1 m2 E; cbn; [done|].
    destruct (Nat.eqb_spec t tid) as [->|]; [|by apply IH]. cbn. apply IH.
    destruct op; cbn; rewrite !lookup_insert_eq; by rewrite E. }
  revert m. induction ops as [|[t op] ops IH]; intros m; cbn; [done|].
  rewrite IH. destruct (Nat.eqb_spec t tid) as [->|Hne]; [done|].
  apply Hext. by destruct op; cbn; rewrite lookup_insert_ne.
Qed.
End Worker.

(** The gates: a worker that enabled sending files accepts until it narrows;
    borrowing a buffer needs both gates; a build with tcc accepts nothing. *)
Lemma slot_gates :
  (forall s, accepts (sf_box (vanilla_sf_enable s)) = true)
  /\ (forall s b, accepts (sf_box (vanilla_sf_set_allowed b (vanilla_sf_enable s))) = b)
  /\ (forall b, accepts (qb_box (vanilla_qb_set_allowed b (vanilla_qb_enable vanilla_qb_zero))) = b)
  /\ accepts (qb_box (vanilla_qb_enable vanilla_qb_zero)) = false
  /\ (forall s, accepts (to_box (vanilla_to_enable s)) = true)
  /\ (forall A (a : A) s, fst (inert_queue a s) = false).
Proof. by repeat split. Qed.

Lemma handoff_does_not_leak_witness :
  let s := snd (vanilla_sf_take (snd (vanilla_sf_queue (5, 0, 100) (vanilla_sf_enable vanilla_sf_zero)))) in
  fst (serve [(7, 0, 10)] s) = Some (7, 0, 10) /\ fst (serve [] s) = None.
Proof.
  set (b := snd (vanilla_sf_queue (5, 0, 100) (vanilla_sf_enable vanilla_sf_zero))). split.
  - exact (proj1 (handoff_does_not_leak b [(7, 0, 10)])).
  - exact (proj1 (handoff_does_not_leak b [])).
Defined.
