(* ===== verification/FileSig.v ===== *)
(** File signatures (static_assets/file_sig.h) and the size of a regular file
    (core/regular_file_nix.h): which files are served, when a representation is
    rebuilt, and the clock of the revalidation window. *)
From S2P Require Import Prelude.
Local Open Scope Z_scope.

(** ** stat(2) *)

Record timespec := mkTime { tv_sec : Z; tv_nsec : Z }.

(** The fields of [struct stat] the code reads. *)
Record stat := mkStat {
  st_dev : Z;
  st_ino : Z;
  st_mode : Z;
  st_nlink : Z;
  st_size : Z;
  st_mtim : timespec;
  st_ctim : timespec
}.

(** [S_ISREG]: [(mode & S_IFMT) == S_IFREG]. *)
Definition S_IFMT : Z := 0xF000.
Definition S_IFREG : Z := 0x8000.
Definition S_ISREG (mode : Z) : bool := Z.land mode S_IFMT =? S_IFREG.

(** Conversions to 64 bits: [(uint64_t)x], and [(int64_t)x] as gcc and clang
    define it. *)
Definition u64 (x : Z) : Z := x mod 2 ^ 64.
Definition i64 (x : Z) : Z := (x + 2 ^ 63) mod 2 ^ 64 - 2 ^ 63.

Record vanilla_sa_sig := mkSig { dev : Z; ino : Z; size : Z; mtime_ns : Z; ctime_ns : Z }.

#[export] Instance sig_eq_dec : EqDecision vanilla_sa_sig.
Proof. solve_decision. Defined.

Definition time_ns (t : timespec) : Z := i64 (i64 (tv_sec t) * 1000000000 + tv_nsec t).

Definition vanilla_sa_fill (st : stat) : vanilla_sa_sig :=
  mkSig (u64 (st_dev st)) (u64 (st_ino st)) (i64 (st_size st)) (time_ns (st_mtim st)) (time_ns (st_ctim st)).

(** [vanilla_sa_stat] and [vanilla_sa_fstat], given what the system call
    answered: [None] for its failure. The result [None] is the return value -1. *)
Definition vanilla_sa_stat (answer : option stat) : option vanilla_sa_sig :=
  match answer with
  | None => None
  | Some st => if negb (S_ISREG (st_mode st)) || (st_nlink st =? 0) then None
               else Some (vanilla_sa_fill st)
  end.

Definition vanilla_sa_fstat (answer : option stat) : option vanilla_sa_sig := vanilla_sa_stat answer.

(** [vanilla_regular_file_size]: -1 for a failed [fstat] or another file type. *)
Definition vanilla_regular_file_size (answer : option stat) : Z :=
  match answer with
  | None => -1
  | Some st => if negb (S_ISREG (st_mode st)) then -1 else st_size st
  end.

(** The open flags of [vanilla_sa_open] (Linux). *)
Definition O_RDONLY : Z := 0.
Definition O_NONBLOCK : Z := 0x800.
Definition O_CLOEXEC : Z := 0x80000.
Definition vanilla_sa_open_flags : Z := Z.lor (Z.lor O_RDONLY O_CLOEXEC) O_NONBLOCK.

(** [vanilla_sa_now_ms] from the clock's reading. *)
Definition vanilla_sa_now_ms (ts : timespec) : Z :=
  u64 (u64 (u64 (tv_sec ts) * 1000) + u64 (tv_nsec ts) / 1000000).

(** ** What the signatures tell apart *)

(** A time the kernel can report, whose nanoseconds fit 64 bits (from year 1677
    to 2262). *)
Definition time_ok (t : timespec) : Prop :=
  0 <= tv_nsec t < 1000000000 /\ - 9223372036 <= tv_sec t < 9223372036.

(** Values that fit the fields of the signature. *)
Record stat_ok (st : stat) : Prop := {
  ok_dev : 0 <= st_dev st < 2 ^ 64;
  ok_ino : 0 <= st_ino st < 2 ^ 64;
  ok_size : 0 <= st_size st < 2 ^ 63;
  ok_mtim : time_ok (st_mtim st);
  ok_ctim : time_ok (st_ctim st)
}.

(** What identifies a version of a file. *)
Definition same_version (a b : stat) : Prop :=
  st_dev a = st_dev b /\ st_ino a = st_ino b /\ st_size a = st_size b
  /\ st_mtim a = st_mtim b /\ st_ctim a = st_ctim b.

Lemma i64_id x : - 2 ^ 63 <= x < 2 ^ 63 -> i64 x = x.
Proof. intros H. unfold i64. rewrite Z.mod_small; lia. Qed.

Lemma u64_id x : 0 <= x < 2 ^ 64 -> u64 x = x.
Proof. apply Z.mod_small. Qed.

Lemma time_ns_exact t : time_ok t -> time_ns t = tv_sec t * 1000000000 + tv_nsec t.
Proof. intros [Hn Hs]. unfold time_ns. rewrite (i64_id (tv_sec t)) by lia. apply i64_id. lia. Qed.

Lemma time_ns_inj a b : time_ok a -> time_ok b -> time_ns a = time_ns b -> a = b.
Proof.
  intros Ha Hb. rewrite !time_ns_exact by done. destruct a as [sa na], b as [sb nb].
  destruct Ha as [Ha _], Hb as [Hb _]. cbn in *. intros E. f_equal; lia.
Qed.

(** Two files served have the same signature exactly when device, inode,
    size, modification time and change time all agree, to the nanosecond: a
    signature that differs means a changed file, and a changed file's signature
    differs. *)
Theorem signature_tells_versions_apart a b sa sb :
  stat_ok a -> stat_ok b ->
  vanilla_sa_stat (Some a) = Some sa -> vanilla_sa_stat (Some b) = Some sb ->
  sa = sb <-> same_version a b.
Proof.
  intros [A1 A2 A3 A4 A5] [B1 B2 B3 B4 B5]. cbn.
  destruct (_ || _); [done|]. intros [= <-]. destruct (_ || _); [done|]. intros [= <-].
  unfold vanilla_sa_fill, same_version. split.
  - intros [= E1 E2 E3 E4 E5]. rewrite !u64_id in E1, E2 by done. rewrite !i64_id in E3 by lia.
    split; [done|]. split; [done|]. split; [done|]. split; by apply time_ns_inj.
  - intros (-> & -> & -> & -> & ->). done.
Qed.

(** Only a regular file that still has a name gets a signature; a
    directory, a FIFO, a device, or the version a rename just replaced fails like
    a missing file. *)
Theorem only_linked_regular_files_served answer :
  (exists s, vanilla_sa_stat answer = Some s)
  <-> exists st, answer = Some st /\ Z.land (st_mode st) S_IFMT = S_IFREG /\ st_nlink st <> 0.
Proof.
  destruct answer as [st|]; cbn.
  2: { split; [by intros [s [=]] | by intros (st & [=] & _)]. }
  unfold S_ISREG. destruct (Z.eqb_spec (Z.land (st_mode st) S_IFMT) S_IFREG) as [E|E]; cbn.
  - destruct (Z.eqb_spec (st_nlink st) 0) as [E0|E0].
    + split; [by intros [s [=]] | intros (x & [= <-] & _ & Hn); done].
    + split; [eauto | eauto].
  - split; [by intros [s [=]] | intros (x & [= <-] & Hr & _); done].
Qed.

(** The clock of the revalidation window is the reading rounded down to
    milliseconds, and never runs backwards while the clock does not. *)
Theorem now_ms_monotone a b :
  0 <= tv_sec a < 2 ^ 53 -> 0 <= tv_sec b < 2 ^ 53 ->
  0 <= tv_nsec a < 1000000000 -> 0 <= tv_nsec b < 1000000000 ->
  tv_sec a < tv_sec b \/ (tv_sec a = tv_sec b /\ tv_nsec a <= tv_nsec b) ->
  vanilla_sa_now_ms a <= vanilla_sa_now_ms b
  /\ vanilla_sa_now_ms a = (tv_sec a * 1000000000 + tv_nsec a) / 1000000.
Proof.
  intros Sa Sb Na Nb Hle.
  assert (E : forall t, 0 <= tv_sec t < 2 ^ 53 -> 0 <= tv_nsec t < 1000000000 ->
    vanilla_sa_now_ms t = (tv_sec t * 1000000000 + tv_nsec t) / 1000000).
  { intros t S N. unfold vanilla_sa_now_ms.
    assert (0 <= tv_nsec t / 1000000 < 1000) by (split; [apply Z.div_pos | apply Z.div_lt_upper_bound]; lia).
    rewrite (u64_id (tv_sec t)), (u64_id (tv_nsec t)) by lia.
    rewrite (u64_id (tv_sec t * 1000)) by lia. rewrite u64_id by lia.
    replace (tv_sec t * 1000000000 + tv_nsec t) with (tv_sec t * 1000 * 1000000 + tv_nsec t) by lia.
    by rewrite Z.div_add_l by lia. }
  split; [|by apply E]. rewrite !E by done. apply Z.div_le_mono; [lia|].
  destruct Hle as [H | [H1 H2]]; lia.
Qed.

(** ** Witnesses *)

Definition demo_stat (sec : Z) : stat :=
  mkStat 2049 131074 0x81A4 1 4096 (mkTime 1700000000 5) (mkTime sec 7).

(** The same size and modification time, one nanosecond apart in change time. *)
Lemma signature_tells_versions_apart_witness :
  mkSig 2049 131074 4096 1700000000000000005 1700000001000000007
  = mkSig 2049 131074 4096 1700000000000000005 1700000002000000007
  <-> same_version (demo_stat 1700000001) (demo_stat 1700000002).
Proof.
  apply (signature_tells_versions_apart (demo_stat 1700000001) (demo_stat 1700000002));
    try reflexivity; split; cbn; unfold time_ok; cbn; lia.
Defined.

Lemma now_ms_monotone_witness :
  vanilla_sa_now_ms (mkTime 1 999999999) <= vanilla_sa_now_ms (mkTime 2 0)
  /\ vanilla_sa_now_ms (mkTime 1 999999999) = 1999.
Proof. apply (now_ms_monotone (mkTime 1 999999999) (mkTime 2 0)); cbn; lia. Defined.
