(* ===== verification/Inet.v ===== *)
(** Address literals: [inet_pton] as the C library defines it (POSIX, glibc's
    strict forms), and [transport_ip_addr] of transport/transport_shim.h, which
    turns a literal and a port into a socket address. *)
From S2P Require Import Prelude.
Local Open Scope Z_scope.

Definition AF_INET : Z := 2.
Definition AF_INET6 : Z := 10.

Definition DOT : byte := byte_of_Z 46.
Definition COLON : byte := byte_of_Z 58.

(** ** inet_pton(AF_INET) *)

Definition dec_digit (b : byte) : option Z :=
  let v := byte_val b in if (48 <=? v) && (v <=? 57) then Some (v - 48) else None.

(** The octets read so far, and the one being read ([None] before its first
    digit). *)
Record p4_state := mkP4 { p4_done : list Z; p4_cur : option Z }.

Definition p4_step (s : p4_state) (ch : byte) : option p4_state :=
  match dec_digit ch with
  | Some d =>
      match p4_cur s with
      | Some v => if v =? 0 then None
                  else if 255 <? v * 10 + d then None
                  else Some (mkP4 (p4_done s) (Some (v * 10 + d)))
      | None => if (4 <=? length (p4_done s))%nat then None
                else Some (mkP4 (p4_done s) (Some d))
      end
  | None =>
      if decide (ch = DOT) then
        match p4_cur s with
        | Some v => if (3 <=? length (p4_done s))%nat then None
                    else Some (mkP4 (p4_done s ++ [v]) None)
        | None => None
        end
      else None
  end.

Fixpoint p4_run (s : p4_state) (src : list byte) : option p4_state :=
  match src with
  | [] => Some s
  | ch :: src' => s' ← p4_step s ch; p4_run s' src'
  end.

Definition inet_pton4 (src : list byte) : option (list byte) :=
  s ← p4_run (mkP4 [] None) src;
  match p4_cur s with
  | Some v => if (length (p4_done s) =? 3)%nat then Some (byte_of_Z <$> (p4_done s ++ [v])) else None
  | None => None
  end.

(** ** inet_pton(AF_INET6) *)

Definition hex_digit (b : byte) : option Z :=
  let v := byte_val b in
  if (48 <=? v) && (v <=? 57) then Some (v - 48)
  else if (97 <=? v) && (v <=? 102) then Some (v - 87)
  else if (65 <=? v) && (v <=? 70) then Some (v - 55)
  else None.

(** Two bytes of a group. *)
Definition group_bytes (val : Z) : list byte := [byte_of_Z (Z.shiftr val 8); byte_of_Z val].

(** The scan: [curtok] is where the current group starts, [tp] the bytes written
    so far, [colonp] where "::" was met, [xd] and [val] the group being read. *)
Fixpoint p6_scan (src curtok tp : list byte) (colonp : option nat) (xd : nat) (val : Z) :
    option (list byte * option nat * nat * Z) :=
  match src with
  | [] => Some (tp, colonp, xd, val)
  | ch :: src' =>
      match hex_digit ch with
      | Some d =>
          let val' := Z.lor (Z.shiftl val 4) d in
          if (xd =? 4)%nat then None
          else if 0xffff <? val' then None
          else p6_scan src' curtok tp colonp (S xd) val'
      | None =>
          if decide (ch = COLON) then
            if (xd =? 0)%nat then
              match colonp with
              | Some _ => None
              | None => p6_scan src' src' tp (Some (length tp)) 0 val
              end
            else match src' with
                 | [] => None
                 | _ => if (16 <? length tp + 2)%nat then None
                        else p6_scan src' src' (tp ++ group_bytes val) colonp 0 0
                 end
          else if decide (ch = DOT) then
            if (length tp + 4 <=? 16)%nat then
              match inet_pton4 curtok with
              | Some v4 => Some (tp ++ v4, colonp, O, val)
              | None => None
              end
            else None
          else None
      end
  end.

(** The last group, and the zeros "::" stands for. *)
Definition p6_finish (tp : list byte) (colonp : option nat) (xd : nat) (val : Z) : option (list byte) :=
  tp' ← (if (0 <? xd)%nat then
           if (16 <? length tp + 2)%nat then None else Some (tp ++ group_bytes val)
         else Some tp);
  tp'' ← (match colonp with
          | Some c => if (length tp' =? 16)%nat then None
                      else Some (take c tp' ++ replicate (16 - length tp') NUL ++ drop c tp')
          | None => Some tp'
          end);
  if (length tp'' =? 16)%nat then Some tp'' else None.

Definition inet_pton6 (src : list byte) : option (list byte) :=
  start ← match src with
          | [] => None
          | ch :: src' =>
              if decide (ch = COLON) then
                match src' with
                | ch2 :: _ => if decide (ch2 = COLON) then Some src' else None
                | [] => None
                end
              else Some src
          end;
  r ← p6_scan start start [] None 0 0;
  let '(tp, colonp, xd, val) := r in p6_finish tp colonp xd val.

(** ** transport_ip_addr *)

(** A [struct sockaddr_in6]-sized output, and how many bytes of it count. *)
Definition SOCKADDR_IN : nat := 16.
Definition SOCKADDR_IN6 : nat := 28.

(** [htons((unsigned short)port)] as it lies in memory. *)
Definition port_bytes (port : Z) : list byte := [byte_of_Z (Z.shiftr (port mod 65536) 8); byte_of_Z (port mod 65536)].

(** The bytes of a 16-bit field in host order (little-endian). *)
Definition host16 (v : Z) : list byte := [byte_of_Z v; byte_of_Z (Z.shiftr v 8)].

(** The family, the length and the 28 bytes written; [None] for the length is
    the return value 0. *)
Definition transport_ip_addr (ip : list byte) (port : Z) : option (Z * nat) * list byte :=
  match inet_pton4 ip with
  | Some a =>
      (Some (AF_INET, SOCKADDR_IN), host16 AF_INET ++ port_bytes port ++ a ++ replicate 20 NUL)
  | None =>
      match inet_pton6 ip with
      | Some a =>
          (Some (AF_INET6, SOCKADDR_IN6),
           host16 AF_INET6 ++ port_bytes port ++ replicate 4 NUL ++ a ++ replicate 4 NUL)
      | None => (None, replicate SOCKADDR_IN6 NUL)
      end
  end.

(** ** The dotted-decimal form *)

Definition dec_char (d : Z) : byte := byte_of_Z (48 + d).

(** The decimal of a number below 1000, without leading zeros. *)
Definition dec (v : Z) : list byte :=
  if v <? 10 then [dec_char v]
  else if v <? 100 then [dec_char (v / 10); dec_char (v mod 10)]
  else [dec_char (v / 100); dec_char (v / 10 mod 10); dec_char (v mod 10)].

Definition dotted (l : list Z) : list byte := mjoin ((fun v => dec v ++ [DOT]) <$> l).

(** [a.b.c.d]. *)
Definition print4 (a b c d : Z) : list byte := dotted [a; b; c] ++ dec d.

Definition octet (v : Z) : Prop := 0 <= v < 256.

Lemma dec_digit_char d : 0 <= d < 10 -> dec_digit (dec_char d) = Some d.
Proof.
  intros H. unfold dec_digit, dec_char. rewrite byte_val_of_Z, Z.mod_small by lia.
  rewrite (proj2 (Z.leb_le 48 _)), (proj2 (Z.leb_le _ 57)) by lia. cbn. f_equal. lia.
Qed.

Lemma dec_digit_inv ch d : dec_digit ch = Some d -> ch = dec_char d /\ 0 <= d < 10.
Proof.
  unfold dec_digit. destruct (Z.leb_spec 48 (byte_val ch)); [|done].
  destruct (Z.leb_spec (byte_val ch) 57); [|done]. cbn. intros [= <-]. split; [|lia].
  unfold dec_char. replace (48 + (byte_val ch - 48)) with (byte_val ch) by lia. by rewrite byte_of_Z_val.
Qed.

(** One more digit. *)
Lemma dec_snoc v d : 1 <= v <= 25 -> 0 <= d < 10 -> dec (v * 10 + d) = dec v ++ [dec_char d].
Proof.
  intros Hv Hd. unfold dec. assert (E : (v * 10 + d) / 10 = v) by (rewrite Z.div_add_l, Z.div_small; lia).
  assert (Em : (v * 10 + d) mod 10 = d) by (rewrite Z.add_comm, Z.mod_add, Z.mod_small; lia).
  assert (E2 : (v * 10 + d) / 100 = v / 10) by (rewrite <- E at 2; rewrite Z.div_div by lia; done).
  rewrite E, Em, E2. destruct (Z.ltb_spec (v * 10 + d) 10); [lia|].
  destruct (Z.ltb_spec v 10), (Z.ltb_spec (v * 10 + d) 100); try lia; [done|].
  destruct (Z.ltb_spec v 100); [done | lia].
Qed.

Lemma dec_small d : 0 <= d < 10 -> dec d = [dec_char d].
Proof. intros H. unfold dec. by rewrite (proj2 (Z.ltb_lt d 10)) by lia. Qed.

(** What has been read of a valid address. *)
Definition p4_text (s : p4_state) : list byte :=
  dotted (p4_done s) ++ match p4_cur s with Some v => dec v | None => [] end.

Definition p4_ok (s : p4_state) : Prop :=
  Forall octet (p4_done s) /\ (forall v, p4_cur s = Some v -> octet v) /\ (length (p4_done s) <= 3)%nat.

Lemma dotted_app l l' : dotted (l ++ l') = dotted l ++ dotted l'.
Proof. unfold dotted. by rewrite fmap_app, join_app. Qed.

Lemma p4_step_text s ch s' :
  p4_ok s -> p4_step s ch = Some s' -> p4_ok s' /\ p4_text s' = p4_text s ++ [ch].
Proof.
  intros (Hd & Hc & Hl). unfold p4_step. destruct (dec_digit ch) as [d|] eqn:Ed.
  - apply dec_digit_inv in Ed as [-> Hdg]. destruct (p4_cur s) as [v|] eqn:Ec.
    + specialize (Hc v eq_refl) as Hv. destruct (Z.eqb_spec v 0); [done|].
      destruct (Z.ltb_spec 255 (v * 10 + d)); [done|]. intros [= <-]. split.
      * split; [done|]. split; [|done]. cbn. intros w [= <-]. unfold octet in *. lia.
      * unfold p4_text. cbn. rewrite Ec, dec_snoc by (unfold octet in *; lia). by rewrite app_assoc.
    + destruct (4 <=? length (p4_done s))%nat; [done|]. intros [= <-]. split.
      * split; [done|]. split; [|done]. cbn. intros w [= <-]. unfold octet. lia.
      * unfold p4_text. cbn. by rewrite Ec, dec_small, app_nil_r by lia.
  - destruct (decide (ch = DOT)) as [->|]; [|done]. destruct (p4_cur s) as [v|] eqn:Ec; [|done].
    destruct (Nat.leb_spec 3 (length (p4_done s))); [done|]. intros [= <-]. split.
    + split; [|split; [done|]]; cbn; [|rewrite length_app; cbn; lia].
      apply Forall_app. split; [done|]. constructor; [by apply Hc | done].
    + unfold p4_text. cbn [p4_done p4_cur]. rewrite Ec, dotted_app, app_nil_r, <- app_assoc. cbn.
      by rewrite app_nil_r.
Qed.

Lemma p4_run_text src s s' :
  p4_ok s -> p4_run s src = Some s' -> p4_ok s' /\ p4_text s' = p4_text s ++ src.
Proof.
  revert s. induction src as [|ch src IH]; intros s Hok; cbn.
  - intros [= <-]. by rewrite app_nil_r.
  - destruct (p4_step s ch) as [s1|] eqn:E; [|done]. cbn. intros H.
    destruct (p4_step_text s ch s1 Hok E) as [H1 T1]. destruct (IH s1 H1 H) as [H2 T2].
    split; [done|]. by rewrite T2, T1, <- app_assoc.
Qed.

(** A number, read from its first digit on. *)
Lemma p4_run_dec don v rest :
  octet v -> (length don <= 3)%nat ->
  p4_run (mkP4 don None) (dec v ++ rest) = p4_run (mkP4 don (Some v)) rest.
Proof.
  intros Hv Hl. unfold octet in Hv.
  assert (F : forall d r, 0 <= d < 10 -> p4_run (mkP4 don None) (dec_char d :: r) = p4_run (mkP4 don (Some d)) r).
  { intros d r Hd. cbn [p4_run]. unfold p4_step. rewrite dec_digit_char by done. cbn [p4_cur p4_done].
    by rewrite (proj2 (Nat.leb_gt 4 (length don))) by lia. }
  assert (G : forall w d r, 1 <= w <= 25 -> 0 <= d < 10 -> w * 10 + d <= 255 ->
    p4_run (mkP4 don (Some w)) (dec_char d :: r) = p4_run (mkP4 don (Some (w * 10 + d))) r).
  { intros w d r Hw Hd Hs. cbn [p4_run]. unfold p4_step. rewrite dec_digit_char by done. cbn [p4_cur p4_done].
    by rewrite (proj2 (Z.eqb_neq w 0)), (proj2 (Z.ltb_ge 255 (w * 10 + d))) by lia. }
  unfold dec. destruct (Z.ltb_spec v 10); [apply F; lia|].
  pose proof (Z.div_mod v 10). pose proof (Z.mod_pos_bound v 10).
  destruct (Z.ltb_spec v 100); cbn [app].
  - rewrite F, G by lia. by replace (v / 10 * 10 + v mod 10) with v by lia.
  - pose proof (Z.div_mod (v / 10) 10). pose proof (Z.mod_pos_bound (v / 10) 10).
    assert (E : v / 100 = v / 10 / 10) by (by rewrite Z.div_div by lia). rewrite E.
    rewrite F, G, G by lia. by replace ((v / 10 / 10 * 10 + v / 10 mod 10) * 10 + v mod 10) with v by lia.
Qed.

Lemma p4_run_dot don v rest :
  (length don < 3)%nat -> p4_run (mkP4 don (Some v)) (DOT :: rest) = p4_run (mkP4 (don ++ [v]) None) rest.
Proof.
  intros H. cbn [p4_run]. unfold p4_step. change (dec_digit DOT) with (@None Z).
  rewrite decide_True by done. cbn [p4_cur p4_done]. by rewrite (proj2 (Nat.leb_gt 3 (length don))) by lia.
Qed.

Lemma inet_pton4_print a b c d :
  octet a -> octet b -> octet c -> octet d ->
  inet_pton4 (print4 a b c d) = Some (byte_of_Z <$> [a; b; c; d]).
Proof.
  intros Ha Hb Hc Hd. unfold inet_pton4, print4, dotted. cbn -[dec].
  rewrite <- !app_assoc. cbn [app]. rewrite p4_run_dec by (done || cbn; lia).
  rewrite p4_run_dot by (cbn; lia). rewrite p4_run_dec by (done || cbn; lia).
  rewrite p4_run_dot by (cbn; lia). rewrite p4_run_dec by (done || cbn; lia).
  rewrite p4_run_dot by (cbn; lia).
  rewrite <- (app_nil_r (dec d)). rewrite p4_run_dec by (done || cbn; lia). done.
Qed.

(** [inet_pton] accepts exactly the canonical dotted-decimal spellings of
    an IPv4 address, and returns its four octets: no spelling is ambiguous, and
    no octal, short or padded form is taken. *)
Theorem inet_pton4_canonical src bs :
  inet_pton4 src = Some bs
  <-> exists a b c d, octet a /\ octet b /\ octet c /\ octet d
      /\ src = print4 a b c d /\ bs = byte_of_Z <$> [a; b; c; d].
Proof.
  split.
  - unfold inet_pton4. destruct (p4_run _ src) as [s|] eqn:E; [|done]. cbn.
    destruct (p4_run_text src (mkP4 [] None) s) as [(Hd & Hc & _) T]; [|done|].
    { split; [constructor|]. split; [done | cbn; lia]. }
    destruct (p4_cur s) as [v|] eqn:Ec; [|done].
    destruct (p4_done s) as [|a [|b [|c [|]]]] eqn:El; try done. cbn. intros [= <-].
    rewrite !Forall_cons in Hd. destruct Hd as (Ha & Hb & Hc' & _).
    exists a, b, c, v. repeat (split; [by auto|]). split; [|done].
    unfold p4_text in T. rewrite El, Ec in T. symmetry. exact T.
  - intros (a & b & c & d & Ha & Hb & Hc & Hd & -> & ->). by apply inet_pton4_print.
Qed.

Lemma inet_pton4_length src bs : inet_pton4 src = Some bs -> length bs = 4%nat.
Proof.
  unfold inet_pton4. destruct (p4_run _ src) as [s|]; [|done]. cbn. destruct (p4_cur s); [|done].
  destruct (Nat.eqb_spec (length (p4_done s)) 3) as [E|]; [|done]. intros [= <-].
  by rewrite length_fmap, length_app, E.
Qed.

(** ** The full hexadecimal form *)

Definition hex_char (d : Z) : byte := byte_of_Z (if d <? 10 then 48 + d else 87 + d).

(** The hexadecimal of a 16-bit group, without leading zeros. *)
Definition hexs (v : Z) : list byte :=
  if v <? 16 then [hex_char v]
  else if v <? 256 then [hex_char (v / 16); hex_char (v mod 16)]
  else if v <? 4096 then [hex_char (v / 256); hex_char (v / 16 mod 16); hex_char (v mod 16)]
  else [hex_char (v / 4096); hex_char (v / 256 mod 16); hex_char (v / 16 mod 16); hex_char (v mod 16)].

Definition group (v : Z) : Prop := 0 <= v < 65536.

(** Groups separated by colons. *)
Fixpoint print6 (gs : list Z) : list byte :=
  match gs with
  | [] => []
  | [g] => hexs g
  | g :: gs' => hexs g ++ COLON :: print6 gs'
  end.

Lemma hex_digit_char d : 0 <= d < 16 -> hex_digit (hex_char d) = Some d.
Proof.
  intros H. unfold hex_digit, hex_char. destruct (Z.ltb_spec d 10).
  - rewrite byte_val_of_Z, Z.mod_small by lia.
    rewrite (proj2 (Z.leb_le 48 _)), (proj2 (Z.leb_le _ 57)) by lia. cbn. f_equal. lia.
  - rewrite byte_val_of_Z, Z.mod_small by lia.
    rewrite (proj2 (Z.leb_le 48 _)), (proj2 (Z.leb_gt _ 57)) by lia. cbn [andb].
    rewrite (proj2 (Z.leb_le 97 _)), (proj2 (Z.leb_le _ 102)) by lia. cbn. f_equal. lia.
Qed.

(** A shifted value and a digit share no bit. *)
Lemma lor_digit val d : 0 <= d < 16 -> Z.lor (Z.shiftl val 4) d = val * 16 + d.
Proof.
  intros Hd. rewrite <- Z.add_nocarry_lor; [rewrite Z.shiftl_mul_pow2; lia|].
  apply Z.bits_inj'. intros n Hn. rewrite Z.land_spec, Z.bits_0.
  destruct (Z.ltb_spec n 4); [by rewrite Z.shiftl_spec_low by lia|].
  destruct (decide (d = 0)) as [->|Hz]; [by rewrite Z.bits_0, andb_false_r|].
  assert (Hl : Z.log2 d < n).
  { apply Z.log2_lt_pow2; [lia|]. apply (Z.lt_le_trans _ (2 ^ 4)); [lia | apply Z.pow_le_mono_r; lia]. }
  by rewrite (Z.bits_above_log2 d n), andb_false_r by lia.
Qed.

Lemma p6_scan_digit d src tok tp col xd val :
  0 <= d < 16 -> 0 <= val -> val * 16 + d <= 0xffff -> (xd < 4)%nat ->
  p6_scan (hex_char d :: src) tok tp col xd val = p6_scan src tok tp col (S xd) (val * 16 + d).
Proof.
  intros Hd Hv Hm Hx. cbn [p6_scan]. rewrite hex_digit_char, lor_digit by done.
  rewrite (proj2 (Nat.eqb_neq xd 4)) by lia. by rewrite (proj2 (Z.ltb_ge 0xffff _)) by lia.
Qed.

Lemma p6_scan_hexs v src tok tp col :
  group v -> exists xd, (0 < xd)%nat
    /\ p6_scan (hexs v ++ src) tok tp col 0 0 = p6_scan src tok tp col xd v.
Proof.
  intros Hv. unfold group in Hv. unfold hexs.
  pose proof (Z.div_mod v 16). pose proof (Z.mod_pos_bound v 16).
  pose proof (Z.div_mod (v / 16) 16). pose proof (Z.mod_pos_bound (v / 16) 16).
  pose proof (Z.div_mod (v / 16 / 16) 16). pose proof (Z.mod_pos_bound (v / 16 / 16) 16).
  assert (E2 : v / 256 = v / 16 / 16) by (by rewrite Z.div_div by lia).
  assert (E3 : v / 4096 = v / 16 / 16 / 16) by (by rewrite !Z.div_div by lia).
  rewrite E3, E2. destruct (Z.ltb_spec v 16); [|destruct (Z.ltb_spec v 256); [|destruct (Z.ltb_spec v 4096)]];
    cbn [app].
  - exists 1%nat. rewrite p6_scan_digit by lia. split; [lia | f_equal; lia].
  - exists 2%nat. rewrite !p6_scan_digit by lia. split; [lia | f_equal; lia].
  - exists 3%nat. rewrite !p6_scan_digit by lia. split; [lia | f_equal; lia].
  - exists 4%nat. rewrite !p6_scan_digit by lia. split; [lia | f_equal; lia].
Qed.

Lemma hexs_head v src : group v -> exists d r, 0 <= d < 16 /\ hexs v ++ src = hex_char d :: r.
Proof.
  intros Hv. unfold group in Hv. unfold hexs.
  pose proof (Z.div_mod v 16). pose proof (Z.mod_pos_bound v 16).
  destruct (Z.ltb_spec v 16); [|destruct (Z.ltb_spec v 256); [|destruct (Z.ltb_spec v 4096)]];
    cbn [app]; eexists _, _; (split; [|reflexivity]); try lia;
    (split; [apply Z.div_pos | apply Z.div_lt_upper_bound]; lia).
Qed.

Lemma print6_cons g g' gs : print6 (g :: g' :: gs) = hexs g ++ COLON :: print6 (g' :: gs).
Proof. done. Qed.

Lemma print6_nonempty g gs : group g -> print6 (g :: gs) <> [].
Proof.
  intros Hg. destruct gs as [|g' gs].
  - cbn. destruct (hexs_head g [] Hg) as (d & r & _ & E). rewrite app_nil_r in E. by rewrite E.
  - rewrite print6_cons. destruct (hexs_head g (COLON :: print6 (g' :: gs)) Hg) as (d & r & _ & E). by rewrite E.
Qed.

(** The scan of a full-form address, group by group. *)
Lemma p6_scan_full gs tok tp :
  gs <> [] -> Forall group gs -> (length tp + 2 * length gs <= 16)%nat ->
  exists xd g, (0 < xd)%nat /\ last gs = Some g
    /\ p6_scan (print6 gs) tok tp None 0 0
       = Some (tp ++ mjoin (group_bytes <$> removelast gs), None, xd, g).
Proof.
  revert tok tp. induction gs as [|g gs IH]; intros tok tp Hne Hg Hl; [done|].
  apply Forall_cons in Hg as [Hg Hgs]. destruct gs as [|g' gs].
  - cbn [print6]. rewrite <- (app_nil_r (hexs g)).
    destruct (p6_scan_hexs g [] tok tp None Hg) as (xd & Hx & ->). exists xd, g. cbn. by rewrite app_nil_r.
  - rewrite print6_cons. destruct (p6_scan_hexs g (COLON :: print6 (g' :: gs)) tok tp None Hg) as (xd & Hx & ->).
    destruct (IH (print6 (g' :: gs)) (tp ++ group_bytes g)) as (xd' & g2 & Hx' & Hlast & E); [done | done | |].
    { rewrite length_app. cbn in *. lia. }
    exists xd', g2. split; [done|]. split; [by rewrite last_cons_cons|].
    cbn [p6_scan]. change (hex_digit COLON) with (@None Z). rewrite decide_True by done.
    rewrite (proj2 (Nat.eqb_neq xd 0)) by lia.
    pose proof (print6_nonempty g' gs) as Hn. destruct (print6 (g' :: gs)) as [|b r] eqn:Ep.
    { exfalso. apply Hn; [|done]. by apply Forall_cons in Hgs as [? _]. }
    rewrite (proj2 (Nat.ltb_ge 16 (length tp + 2))) by (cbn in Hl; lia). rewrite E.
    change (mjoin (group_bytes <$> removelast (g :: g' :: gs)))
      with (group_bytes g ++ mjoin (group_bytes <$> removelast (g' :: gs))).
    by rewrite <- app_assoc.
Qed.

Lemma removelast_last {A} (l : list A) x : last l = Some x -> removelast l ++ [x] = l.
Proof.
  intros H. destruct (decide (l = [])) as [->|Hne]; [done|].
  rewrite (app_removelast_last x Hne) at 2. f_equal. f_equal.
  revert H. induction l as [|a [|b l'] IH]; intros H; [done | by injection H | ].
  apply IH; [done|]. by rewrite last_cons_cons in H.
Qed.

Lemma group_bytes_length gs : length (mjoin (group_bytes <$> gs)) = (2 * length gs)%nat.
Proof.
  induction gs as [|g gs IH]; [done|].
  change (mjoin (group_bytes <$> g :: gs)) with (group_bytes g ++ mjoin (group_bytes <$> gs)).
  rewrite length_app, IH. cbn. lia.
Qed.

Lemma inet_pton6_print gs :
  length gs = 8%nat -> Forall group gs ->
  inet_pton6 (print6 gs) = Some (mjoin (group_bytes <$> gs)).
Proof.
  intros Hl Hg. unfold inet_pton6. assert (Hne : gs <> []) by (by intros ->).
  assert (Hs : match print6 gs with
          | [] => None
          | ch :: src' =>
              if decide (ch = COLON) then
                match src' with
                | ch2 :: _ => if decide (ch2 = COLON) then Some src' else None
                | [] => None
                end
              else Some (print6 gs)
          end = Some (print6 gs)).
  { destruct gs as [|g gs]; [done|]. apply Forall_cons in Hg as [Hg _].
    assert (Hh : exists d r, 0 <= d < 16 /\ print6 (g :: gs) = hex_char d :: r).
    { destruct gs as [|g' gs]; [|rewrite print6_cons; by apply hexs_head].
      destruct (hexs_head g [] Hg) as (d & r & Hd & E). rewrite app_nil_r in E. eauto. }
    destruct Hh as (d & r & Hd & ->). rewrite decide_False; [done|].
    intros E. apply (f_equal hex_digit) in E. by rewrite hex_digit_char in E. }
  rewrite Hs. cbn [mbind option_bind].
  destruct (p6_scan_full gs (print6 gs) [] Hne Hg) as (xd & g & Hx & Hlast & E); [cbn; lia|].
  rewrite E. cbn [mbind option_bind app]. unfold p6_finish. rewrite (proj2 (Nat.ltb_lt 0 xd)) by done.
  pose proof (removelast_last gs g Hlast) as R.
  assert (Er : mjoin (group_bytes <$> removelast gs) ++ group_bytes g = mjoin (group_bytes <$> gs)).
  { rewrite <- R at 2. rewrite fmap_app, join_app. cbn. done. }
  assert (Hb : length (mjoin (group_bytes <$> removelast gs)) = 14%nat).
  { rewrite group_bytes_length. rewrite <- R in Hl. rewrite length_app in Hl. cbn in Hl. lia. }
  rewrite Hb. cbn [mbind option_bind Nat.ltb Nat.leb Nat.add]. rewrite Er, group_bytes_length, Hl. done.
Qed.

(** What a socket address holds, read back from its bytes. *)
Definition be16 (bs : list byte) : Z :=
  match bs with [hi; lo] => byte_val hi * 256 + byte_val lo | _ => -1 end.

Definition sockaddr_port (sa : list byte) : Z := be16 (take 2 (drop 2 sa)).
Definition sockaddr_ip (family : Z) (sa : list byte) : list byte :=
  if family =? AF_INET then take 4 (drop 4 sa) else take 16 (drop 8 sa).

Lemma port_bytes_be16 port : be16 (port_bytes port) = port mod 65536.
Proof.
  unfold port_bytes, be16. rewrite !byte_val_of_Z, Z.shiftr_div_pow2 by lia.
  pose proof (Z.mod_pos_bound port 65536). change (2 ^ 8) with 256.
  rewrite (Z.mod_small (_ / 256)) by (split; [apply Z.div_pos | apply Z.div_lt_upper_bound]; lia).
  pose proof (Z.div_mod (port mod 65536) 256). lia.
Qed.

Lemma inet_pton6_length src bs : inet_pton6 src = Some bs -> length bs = 16%nat.
Proof.
  unfold inet_pton6. intros E. apply bind_Some in E as (st & _ & E).
  apply bind_Some in E as ([[[tp col] xd] val] & _ & E). unfold p6_finish in E.
  apply bind_Some in E as (t1 & _ & E). apply bind_Some in E as (t2 & _ & E).
  destruct (Nat.eqb_spec (length t2) 16); [|done]. by injection E as <-.
Qed.

(** The socket address built from a literal always fills its 28 bytes; it
    carries the port in network order and the address [inet_pton] read, and the
    rest is zero. A text that is neither kind of literal leaves it all zero. *)
Theorem transport_ip_addr_holds ip port :
  let (r, sa) := transport_ip_addr ip port in
  length sa = SOCKADDR_IN6 /\
  match r with
  | Some (family, len) =>
      sockaddr_port sa = port mod 65536
      /\ (if family =? AF_INET
          then inet_pton4 ip = Some (sockaddr_ip family sa) /\ len = SOCKADDR_IN
               /\ drop 8 sa = replicate 20 NUL
          else family = AF_INET6 /\ inet_pton4 ip = None
               /\ inet_pton6 ip = Some (sockaddr_ip family sa) /\ len = SOCKADDR_IN6
               /\ take 4 (drop 4 sa) = replicate 4 NUL /\ drop 24 sa = replicate 4 NUL)
  | None => inet_pton4 ip = None /\ inet_pton6 ip = None /\ sa = replicate SOCKADDR_IN6 NUL
  end.
Proof.
  unfold transport_ip_addr, sockaddr_port, sockaddr_ip. destruct (inet_pton4 ip) as [a|] eqn:E4.
  - apply inet_pton4_length in E4 as L. destruct a as [|a0 [|a1 [|a2 [|a3 [|]]]]]; try done.
    split; [done|]. split; [apply port_bytes_be16 | done].
  - destruct (inet_pton6 ip) as [a|] eqn:E6; [|done]. apply inet_pton6_length in E6 as L.
    do 16 (destruct a as [|? a]; [done|]). destruct a; [|done].
    split; [done|]. split; [apply port_bytes_be16 | done].
Qed.

(** A colon is never part of a dotted-decimal address. *)
Lemma p4_run_no_colon s src : COLON ∈ src -> p4_run s src = None.
Proof.
  revert s. induction src as [|ch src IH]; intros s Hin; [by apply elem_of_nil in Hin|]. cbn [p4_run].
  apply elem_of_cons in Hin as [<- | Hin]; [done|]. destruct (p4_step s ch) as [s'|]; [|done].
  by apply IH.
Qed.

Lemma print6_not_v4 gs : (2 <= length gs)%nat -> inet_pton4 (print6 gs) = None.
Proof.
  intros H. destruct gs as [|g [|g' gs]]; [cbn in H; lia | cbn in H; lia |].
  unfold inet_pton4. rewrite print6_cons, p4_run_no_colon; [done|]. set_solver.
Qed.

(** The literals of an address round-trip: an IPv4 address in dotted
    decimal and an IPv6 address in full hexadecimal form parse back to the same
    address. *)
Theorem transport_ip_addr_roundtrip port :
  (forall a b c d, octet a -> octet b -> octet c -> octet d ->
     let (r, sa) := transport_ip_addr (print4 a b c d) port in
     r = Some (AF_INET, SOCKADDR_IN) /\ sockaddr_ip AF_INET sa = byte_of_Z <$> [a; b; c; d])
  /\ (forall gs, length gs = 8%nat -> Forall group gs ->
     let (r, sa) := transport_ip_addr (print6 gs) port in
     r = Some (AF_INET6, SOCKADDR_IN6) /\ sockaddr_ip AF_INET6 sa = mjoin (group_bytes <$> gs)).
Proof.
  split.
  - intros a b c d Ha Hb Hc Hd. unfold transport_ip_addr. by rewrite inet_pton4_print.
  - intros gs Hl Hg. unfold transport_ip_addr. rewrite print6_not_v4 by lia.
    rewrite inet_pton6_print by done. split; [done|].
    pose proof (group_bytes_length gs) as L. rewrite Hl in L.
    destruct (mjoin (group_bytes <$> gs)) as [|? a]; [done|].
    do 15 (destruct a as [|? a]; [done|]). by destruct a.
Qed.

(** Forms the resolver takes and [inet_pton] does not, and compressed IPv6. *)
Lemma inet_pton_examples :
  inet_pton4 (bytes_of "127.1") = None /\ inet_pton4 (bytes_of "010.0.0.1") = None
  /\ inet_pton4 (bytes_of "1.2.3.256") = None
  /\ inet_pton6 (bytes_of "::1") = Some (replicate 15 NUL ++ [Byte.x01])
  /\ inet_pton6 (bytes_of "fe80::1%eth0") = None
  /\ inet_pton6 (bytes_of "::ffff:10.0.0.1")
     = Some (replicate 10 NUL ++ [Byte.xff; Byte.xff; Byte.x0a; Byte.x00; Byte.x00; Byte.x01])
  /\ inet_pton6 (bytes_of "1::2::3") = None.
Proof. by repeat split; vm_compute. Qed.
