(* ===== verification/Net.v ===== *)
(** Descriptor-level socket helpers: the dialer and resolver of
    transport/transport_shim.h, the pooled client's calls of
    http1_1/upstream/upstream_shim.h, the poll of pg_async/pg_async_shim.h and
    the signal set-up of server/sigpipe_shim.h, over a small model of the
    kernel: a table of open descriptors and a script of how each call goes. *)
From stdpp Require Import gmap.
From S2P Require Import Prelude StreamSocket Inet.
Local Open Scope Z_scope.
Local Open Scope prog_scope.

(** ** The kernel *)

(** What a descriptor refers to, and its flags. *)
Record fdinfo := mkFd { description : nat; nonblock : bool; cloexec : bool }.

#[export] Instance eta_fd : Eta fdinfo := mkEta _ (fun f => mkFd (description f) (nonblock f) (cloexec f)).

(** How a system call goes: it succeeds, or fails with an [errno]. *)
Inductive answer := Done | Failed (e : positive).

Record kern := mkKern {
  fds : gmap nat fdinfo;
  next_desc : nat;
  script : list answer;
  sockopts_set : list (nat * Z * Z * Z)
}.

#[export] Instance eta_kern : Eta kern := mkEta _ (fun k =>
  mkKern (fds k) (next_desc k) (script k) (sockopts_set k)).

(** The next answer of the script; an exhausted script answers [Done]. *)
Definition next_answer : prog kern answer := fun k =>
  match script k with
  | [] => (Done, k)
  | a :: rest => (a, k <| script := rest |>)
  end.

(** [socket(family, SOCK_STREAM | SOCK_NONBLOCK | SOCK_CLOEXEC, 0)]: a
    descriptor number not in use. *)
Definition sys_socket : prog kern (nat + positive) :=
  let* a := next_answer in
  match a with
  | Failed e => pret (inr e)
  | Done => fun k =>
      let fd := fresh (dom (fds k)) in
      (inl fd, k <| fds := <[fd := mkFd (next_desc k) true true]> (fds k) |>
                 <| next_desc := S (next_desc k) |>)
  end.

Definition sys_close (fd : nat) : prog kern unit := pmod (fun k => k <| fds := delete fd (fds k) |>).

Definition sys_connect (fd : nat) : prog kern answer := next_answer.

(** [setsockopt], whose failure every caller here ignores. *)
Definition set_opt (fd : nat) (level name val : Z) : prog kern unit :=
  pmod (fun k => k <| sockopts_set := sockopts_set k ++ [(fd, level, name, val)] |>).

(** [dup3(old, new, O_CLOEXEC)]: [new] refers to what [old] does; what [new] was
    is closed. *)
Definition sys_dup3 (old new : nat) : prog kern answer :=
  let* a := next_answer in
  match a with
  | Failed e => pret (Failed e)
  | Done => fun k =>
      match fds k !! old with
      | Some f => if decide (old = new) then (Failed 22, k)
                  else (Done, k <| fds := <[new := f <| cloexec := true |>]> (fds k) |>)
      | None => (Failed 9, k)
      end
  end.

Definition EBUSY : positive := 16.
Definition EINTR_pos : positive := 4.
Definition EINPROGRESS : positive := 115.

(** ** transport_shim.h *)

Definition IPPROTO_TCP : Z := 6.
Definition SOL_SOCKET : Z := 1.
Definition SO_KEEPALIVE : Z := 9.
Definition TCP_NODELAY : Z := 1.
Definition TCP_KEEPIDLE : Z := 4.
Definition TCP_KEEPINTVL : Z := 5.
Definition TCP_KEEPCNT : Z := 6.
Definition TCP_USER_TIMEOUT : Z := 18.

Definition when (b : bool) (c : prog kern unit) : prog kern unit := if b then c else pret tt.

Definition transport_tune (fd : nat) (nodelay ka_idle ka_intvl ka_cnt user_timeout_ms : Z) : prog kern unit :=
  when (negb (nodelay =? 0)) (set_opt fd IPPROTO_TCP TCP_NODELAY 1) ;;
  when (0 <? ka_idle)
    (set_opt fd SOL_SOCKET SO_KEEPALIVE 1 ;;
     set_opt fd IPPROTO_TCP TCP_KEEPIDLE ka_idle ;;
     when (0 <? ka_intvl) (set_opt fd IPPROTO_TCP TCP_KEEPINTVL ka_intvl) ;;
     when (0 <? ka_cnt) (set_opt fd IPPROTO_TCP TCP_KEEPCNT ka_cnt)) ;;
  when (0 <? user_timeout_ms) (set_opt fd IPPROTO_TCP TCP_USER_TIMEOUT user_timeout_ms).

Definition transport_dial (family : Z) (nodelay ka_idle ka_intvl ka_cnt user_timeout_ms : Z) : prog kern Z :=
  let* r := sys_socket in
  match r with
  | inr e => pret (Zneg e)
  | inl fd =>
      when ((family =? AF_INET) || (family =? AF_INET6))
        (transport_tune fd nodelay ka_idle ka_intvl ka_cnt user_timeout_ms) ;;
      let* a := sys_connect fd in
      match a with
      | Done => pret (Z.of_nat fd)
      | Failed e => if decide (e = EINPROGRESS) then pret (Z.of_nat fd)
                    else sys_close fd ;; pret (Zneg e)
      end
  end.

(** One entry of getaddrinfo's list. *)
Record addrinfo := mkAi { ai_family : Z; ai_addr : list byte }.

Record transport_resolved := mkResolved { res_family : Z; res_data : list byte }.

(** The copy loop of [transport_resolve] over getaddrinfo's answer; [room] is
    [max - n], the free entries of the output array. *)
Fixpoint resolve_copy (room : nat) (ais : list addrinfo) : list transport_resolved :=
  match ais, room with
  | [], _ | _, O => []
  | ai :: ais', S room' =>
      if negb (ai_family ai =? AF_INET) && negb (ai_family ai =? AF_INET6) then resolve_copy room ais'
      else if (length (ai_addr ai) =? 0)%nat || (128 <? length (ai_addr ai))%nat then resolve_copy room ais'
      else mkResolved (ai_family ai) (ai_addr ai) :: resolve_copy room' ais'
  end.

(** The resolver itself is a service: [getaddrinfo] is an argument. The result is
    the entries written, or the resolver's error. *)
Definition transport_resolve (getaddrinfo : list byte -> list byte -> Z + list addrinfo)
    (host port : list byte) (max : nat) : list transport_resolved + Z :=
  match getaddrinfo host port with
  | inl rc => inr rc
  | inr ais => inl (resolve_copy max ais)
  end.

(** ** Waiting on a descriptor *)

(** How one [poll] goes: after [took] milliseconds, [ready] is its revents
    (0: timed out), or it fails. *)
Inductive poll_answer := PollReady (took : Z) (revents : Z) | PollFails (took : Z) (e : Z).

(** [poll] repeated while a signal interrupts it, each time with the whole
    timeout: the answer, and the time spent. *)
Fixpoint poll_loop (answers : list poll_answer) : option (poll_answer * Z) :=
  match answers with
  | [] => None
  | PollFails took e :: rest =>
      if e =? EINTR then
        r ← poll_loop rest;
        Some (fst r, took + snd r)
      else Some (PollFails took e, took)
  | PollReady took ev :: _ => Some (PollReady took ev, took)
  end.

(** [transport_wait]: the count of ready descriptors. *)
Definition transport_wait (answers : list poll_answer) : option Z :=
  r ← poll_loop answers;
  Some (match fst r with
        | PollReady _ ev => if ev =? 0 then 0 else 1
        | PollFails _ _ => -1
        end).

(** [pg_async_wait]: the revents. *)
Definition pg_async_wait (answers : list poll_answer) : option Z :=
  r ← poll_loop answers;
  Some (match fst r with PollReady _ ev => ev | PollFails _ _ => -1 end).

(** ** upstream_shim.h *)

Definition is_retry (a : answer) : bool :=
  match a with Failed e => bool_decide (e = EINTR_pos) || bool_decide (e = EBUSY) | Done => false end.

Definition upstream_dup_onto (fd onto : nat) : prog kern Z :=
  let* a := (fun k => retry_while is_retry (sys_dup3 fd onto) (length (script k)) k) in
  sys_close fd ;;
  pret (match a with Failed e => Zneg e | Done => Z.of_nat onto end).

(** The vectors [sendmsg] is given for the two buffers. *)
Definition send_iov (p1 p2 : list byte) : list (list byte) :=
  let iov := [p1; p2] in
  let iov' := if (0 <? length p1)%nat then iov else drop 1 iov in
  take (if (0 <? length p1)%nat && (0 <? length p2)%nat then 2 else 1)%nat iov'.

(** [-errno] of a failed call. *)
Definition neg_errno {A} (f : A -> Z) (r : A + Z) : Z := match r with inl a => f a | inr e => - e end.

Definition upstream_send (p1 p2 : list byte) : prog sock Z := fun w =>
  let buf := mjoin (send_iov p1 p2) in
  let (r, w') := retry_while is_eintr (sys_send buf) (length (sndq w)) w in
  (neg_errno Z.of_nat r, w').

Definition upstream_recv (n : nat) : prog sock (Z * list byte) := fun w =>
  let (r, w') := retry_while is_eintr (sys_recv n) (rintr w) w in
  ((neg_errno (fun bs => Z.of_nat (length bs)) r, got r), w').

(** [recv(fd, &b, 1, MSG_PEEK | MSG_DONTWAIT)]. *)
Definition sys_peek : prog sock (list byte + Z) := fun w =>
  let (r, w') := sys_recv 1 w in (r, w' <| rx := got r ++ rx w' |>).

Definition upstream_peek : prog sock Z := fun w =>
  let (r, w') := retry_while is_eintr sys_peek (rintr w) w in
  (match r with
   | inl [] => 0
   | inl _ => 1
   | inr e => if (e =? EAGAIN) || (e =? EWOULDBLOCK) then -1 else -2
   end, w').

(** ** sigpipe_shim.h *)

Inductive disposition := SigDfl | SigIgn | SigHandler (h : Z).

(** A signal's action: its handler, and whether [SA_SIGINFO] is set. *)
Record sigaction := mkAct { sa_handler : disposition; sa_siginfo : bool }.

(** [reads] and [writes] say whether the two sigaction(2) calls succeed. *)
Definition vanilla_ignore_default_sigpipe (reads writes : bool) (old : sigaction) : Z * sigaction :=
  if negb reads then (0, old)
  else if sa_siginfo old || negb (match sa_handler old with SigDfl => true | _ => false end) then (0, old)
  else if writes then (1, mkAct SigIgn false) else (0, old).

(** ** No descriptor leaks *)

(** A step that leaves the descriptor table alone. *)
Definition same_fds (k k' : kern) : Prop := fds k' = fds k.

#[local] Instance same_fds_preorder : PreOrder same_fds.
Proof. unfold same_fds. split; [by intros k | intros k1 k2 k3; congruence]. Qed.

Lemma when_same_fds b c : steps_in same_fds c -> steps_in same_fds (when b c).
Proof. by destruct b. Qed.

Lemma transport_tune_same_fds fd a b c d e : steps_in same_fds (transport_tune fd a b c d e).
Proof.
  unfold transport_tune.
  repeat first [apply (steps_in_bind same_fds); [|intros _] | apply when_same_fds | by intros k].
Qed.

Lemma next_answer_fds k : fds (snd (next_answer k)) = fds k.
Proof. unfold next_answer. by destruct (script k). Qed.

Lemma sys_socket_spec k :
  let (r, k') := sys_socket k in
  match r with
  | inr _ => fds k' = fds k
  | inl fd => exists d, fds k !! fd = None /\ fds k' = <[fd := mkFd d true true]> (fds k)
  end.
Proof.
  unfold sys_socket. rewrite bind_run. pose proof (next_answer_fds k) as F.
  destruct (next_answer k) as [[|e] k1]; cbn [fst snd] in *; [|exact F].
  exists (next_desc k1). rewrite <- F. split; [|done]. apply not_elem_of_dom, is_fresh.
Qed.

(** [transport_dial] never leaks a descriptor: a failure, a negative errno,
    leaves the descriptor table as it was, and a success adds exactly the
    descriptor it returns, which was not in use and is non-blocking and
    close-on-exec. *)
Theorem transport_dial_no_leak family nodelay idle intvl cnt timeout k :
  let (r, k') := transport_dial family nodelay idle intvl cnt timeout k in
  (r < 0 /\ fds k' = fds k)
  \/ (exists fd d, r = Z.of_nat fd /\ fds k !! fd = None /\ fds k' = <[fd := mkFd d true true]> (fds k)).
Proof.
  unfold transport_dial. rewrite bind_run. pose proof (sys_socket_spec k) as S.
  destruct (sys_socket k) as [[fd|e] k1]; cbn [fst snd]; [|left; split; [lia | exact S]].
  destruct S as (d & Hf & F). rewrite bind_run.
  pose proof (when_same_fds ((family =? AF_INET) || (family =? AF_INET6)) _
    (transport_tune_same_fds fd nodelay idle intvl cnt timeout) k1) as T. unfold same_fds in T.
  destruct (when _ _ k1) as [u k2]. cbn [fst snd] in *. rewrite bind_run.
  pose proof (next_answer_fds k2) as F2. unfold sys_connect.
  destruct (next_answer k2) as [a k3]. cbn [fst snd] in *. rewrite T, F in F2.
  destruct a as [|e]; [|destruct (decide (e = EINPROGRESS))].
  - right. exists fd, d. done.
  - right. exists fd, d. done.
  - left. split; [cbn; lia|]. cbn. rewrite F2. by apply delete_insert_id.
Qed.

(** Entries [transport_resolve] can hand out. *)
Definition usable (ai : addrinfo) : bool :=
  ((ai_family ai =? AF_INET) || (ai_family ai =? AF_INET6))
  && negb (length (ai_addr ai) =? 0)%nat && (length (ai_addr ai) <=? 128)%nat.

(** The resolver's list is filtered and cut, never reordered: the result is
    the first [max] usable addresses in getaddrinfo's order, each within the
    128-byte entry it is copied into. *)
Theorem transport_resolve_spec getaddrinfo host port max ais :
  getaddrinfo host port = inr ais ->
  exists out, transport_resolve getaddrinfo host port max = inl out
    /\ out = (fun ai => mkResolved (ai_family ai) (ai_addr ai)) <$> take max (List.filter usable ais)
    /\ (length out <= max)%nat /\ Forall (fun r => (0 < length (res_data r) <= 128)%nat) out.
Proof.
  intros E. unfold transport_resolve. rewrite E. eexists. split; [done|].
  assert (S : resolve_copy max ais
    = (fun ai => mkResolved (ai_family ai) (ai_addr ai)) <$> take max (List.filter usable ais)).
  { clear E. revert max. induction ais as [|ai ais IH]; intros max; [by destruct max|].
    destruct max as [|max]; [done|]. cbn [resolve_copy List.filter]. unfold usable at 1.
    rewrite <- negb_orb, Nat.leb_antisym.
    destruct (_ || _); cbn [negb andb]; [|apply IH].
    destruct (length (ai_addr ai) =? 0)%nat; cbn [negb andb orb]; [apply IH|].
    destruct (128 <? length (ai_addr ai))%nat; cbn [negb]; [apply IH|].
    rewrite firstn_cons, fmap_cons. by rewrite IH. }
  rewrite S. split; [done|]. split; [rewrite length_fmap, length_take; lia|].
  apply Forall_fmap, Forall_take, List.Forall_forall. intros ai [_ H]%filter_In. cbn.
  unfold usable in H. apply andb_true_iff in H as [H H2%Nat.leb_le].
  apply andb_true_iff in H as [_ H1%negb_true_iff%Nat.eqb_neq]. lia.
Qed.

(** A dup is tried until it is neither interrupted nor busy. *)
Lemma sys_dup3_spec fd onto f k :
  fd <> onto -> fds k !! fd = Some f ->
  let (a, k') := sys_dup3 fd onto k in
  match a with
  | Done => fds k' = <[onto := f <| cloexec := true |>]> (fds k)
  | Failed _ => fds k' = fds k /\ (is_retry a = true -> length (script k) = S (length (script k')))
  end.
Proof.
  intros Hne Hf. unfold sys_dup3, pbind, next_answer. destruct (script k) as [|[|e] rest] eqn:E; cbn.
  - by rewrite Hf, decide_False.
  - by rewrite Hf, decide_False.
  - done.
Qed.

Lemma dup_loop_spec fd onto f n k :
  fd <> onto -> fds k !! fd = Some f -> (length (script k) <= n)%nat ->
  let (a, k') := retry_while is_retry (sys_dup3 fd onto) n k in
  is_retry a = false /\
  match a with
  | Done => fds k' = <[onto := f <| cloexec := true |>]> (fds k)
  | Failed _ => fds k' = fds k
  end.
Proof.
  intros Hne. revert k. induction n as [|n IH]; intros k Hf Hl; cbn; [|unfold pbind];
    pose proof (sys_dup3_spec fd onto f k Hne Hf) as P; destruct (sys_dup3 fd onto k) as [a k1].
  - destruct a as [|e]; [done|]. destruct P as [P R]. split; [|done].
    destruct (is_retry (Failed e)); [specialize (R eq_refl); lia | done].
  - cbn [fst snd]. destruct a as [|e]; [done|]. destruct P as [P R].
    destruct (is_retry (Failed e)) eqn:Er; [|done]. rewrite <- P in Hf.
    specialize (IH k1 Hf ltac:(specialize (R eq_refl); lia)). rewrite P in IH. exact IH.
Qed.

(** [upstream_dup_onto] moves a freshly dialled socket to a slot's
    descriptor number: on success the number refers to the new socket, closed on
    exec, and the number it was dialled on is free; on failure the slot keeps its
    old socket and the new one is closed. No other descriptor changes. *)
Theorem upstream_dup_onto_moves fd onto f k :
  fd <> onto -> fds k !! fd = Some f ->
  let (r, k') := upstream_dup_onto fd onto k in
  (r = Z.of_nat onto /\ fds k' = delete fd (<[onto := f <| cloexec := true |>]> (fds k)))
  \/ (r < 0 /\ r <> Zneg EINTR_pos /\ r <> Zneg EBUSY /\ fds k' = delete fd (fds k)).
Proof.
  intros Hne Hf. unfold upstream_dup_onto, pbind.
  pose proof (dup_loop_spec fd onto f (length (script k)) k Hne Hf (Nat.le_refl _)) as P.
  destruct (retry_while is_retry (sys_dup3 fd onto) (length (script k)) k) as [a k1]. cbn.
  destruct P as [R P]. destruct a as [|e]; rewrite P; [by left | right].
  cbn in R. apply orb_false_iff in R as [R1%bool_decide_eq_false R2%bool_decide_eq_false].
  split; [lia|]. split; [congruence|]. split; [congruence | done].
Qed.

(** ** Sending, receiving, peeking *)

Lemma send_iov_join p1 p2 : mjoin (send_iov p1 p2) = p1 ++ p2.
Proof.
  unfold send_iov. destruct p1 as [|b p1], p2 as [|b' p2]; cbn; rewrite ?app_nil_r; done.
Qed.

(** [upstream_send] offers the head and the body as one stream: what the
    socket takes is a prefix of the two buffers in order, of the length reported;
    a failure takes nothing and is never an interruption. *)
Theorem upstream_send_stream p1 p2 w :
  let (r, w') := upstream_send p1 p2 w in
  (exists n, r = Z.of_nat n /\ (n <= length p1 + length p2)%nat /\ tx w' = tx w ++ take n (p1 ++ p2))
  \/ (r <> - EINTR /\ tx w' = tx w).
Proof.
  unfold upstream_send. rewrite send_iov_join.
  pose proof (send_loop_spec (p1 ++ p2) (length (sndq w)) w (Nat.le_refl _)) as [[_ T _] R].
  destruct (retry_while _ _ _ _) as [[n|e] w']; cbn in *.
  - left. exists n. destruct T as (-> & Hn & _). rewrite length_app in Hn. done.
  - right. split; [|done]. apply Z.eqb_neq in R. lia.
Qed.

Lemma sys_peek_spec w :
  let (r, w') := sys_peek w in
  arrived w' = arrived w ++ drop (length (rx w)) (rx w')
  /\ take (length (rx w)) (rx w') = rx w
  /\ (is_eintr r = true -> rintr w = S (rintr w'))
  /\ (forall bs, r = inl bs -> bs = take 1 (rx w')).
Proof.
  unfold sys_peek, sys_recv. pose proof (arrivals_grown (emit EvRecv w)) as G.
  destruct (arrivals (emit EvRecv w)) as [q a e ed ib ri t sq oq lg].
  destruct G as (d & R & A & _ & _ & _ & _ & _ & _ & I). cbn in *. subst q a ri.
  assert (D : drop (length (rx w)) (rx w ++ d) = d) by apply drop_app_length.
  assert (T : take (length (rx w)) (rx w ++ d) = rx w) by apply take_app_length.
  destruct (rintr w) as [|n] eqn:Er; cbn.
  2: { rewrite D, T. split; [done|]. split; [done|]. by split. }
  destruct (rx w ++ d) as [|b q] eqn:Eq.
  - destruct e as [[]|]; cbn; rewrite ?D, ?T; (split; [done|]); (split; [done|]); (split; [done|]); by intros bs [= <-] || done.
  - cbn -[take drop]. change (take 0 q ++ drop 0 q) with q. rewrite D, T.
    split; [done|]. split; [done|]. split; [done|]. by intros bs [= <-].
Qed.

(** [upstream_peek] consumes nothing: the queue afterwards is the queue
    before with what arrived meanwhile behind it, and the answer 1 says that a byte
    is waiting in it, 0 that the stream ended behind an empty one. *)
Theorem upstream_peek_consumes_nothing w :
  let (r, w') := upstream_peek w in
  take (length (rx w)) (rx w') = rx w
  /\ arrived w' = arrived w ++ drop (length (rx w)) (rx w')
  /\ (r = 1 -> rx w' <> []) /\ (r = 0 -> rx w' = []) /\ (r = 1 \/ r = 0 \/ r = -1 \/ r = -2).
Proof.
  unfold upstream_peek.
  assert (P : forall n w0, (rintr w0 <= n)%nat ->
    let (r, w') := retry_while is_eintr sys_peek n w0 in
    take (length (rx w0)) (rx w') = rx w0
    /\ arrived w' = arrived w0 ++ drop (length (rx w0)) (rx w')
    /\ (forall bs, r = inl bs -> bs = take 1 (rx w'))).
  { induction n as [|n IH]; intros w0 Hn; cbn [retry_while]; [|rewrite bind_run];
      pose proof (sys_peek_spec w0) as S; destruct (sys_peek w0) as [r w1];
      destruct S as (A & T & I & B); [done|]. cbn [fst snd].
    destruct (is_eintr r) eqn:E; [|done]. specialize (IH w1 ltac:(specialize (I eq_refl); lia)).
    destruct (retry_while is_eintr sys_peek n w1) as [r2 w2]. destruct IH as (T2 & A2 & B2).
    assert (Hl : (length (rx w0) <= length (rx w1))%nat) by (rewrite <- T, length_take; lia).
    assert (Hl2 : (length (rx w1) <= length (rx w2))%nat) by (rewrite <- T2, length_take; lia).
    split; [|split; [|done]].
    - rewrite <- T at 2. rewrite <- T2, take_take. by rewrite Nat.min_l.
    - rewrite A2, A, <- app_assoc. f_equal.
      rewrite <- (take_drop (length (rx w1)) (rx w2)) at 2. rewrite drop_app_le by (rewrite length_take; lia).
      by rewrite T2. }
  specialize (P (rintr w) w (Nat.le_refl _)).
  destruct (retry_while is_eintr sys_peek (rintr w) w) as [r w']. destruct P as (T & A & B).
  split; [done|]. split; [done|]. destruct r as [[|b bs]|e].
  - specialize (B [] eq_refl). split; [done|]. split; [|by auto]. intros _. by destruct (rx w').
  - specialize (B _ eq_refl). split; [|split; [done | by auto]]. intros _ E. by rewrite E in B.
  - destruct (_ || _); (split; [done|]); (split; [done | by auto]).
Qed.

(** SIGPIPE is ignored only when it still has its default action: a handler
    or an explicit choice of the application is never replaced, and the answer
    says whether the action was changed. *)
Theorem sigpipe_default_only reads writes old :
  let (r, new) := vanilla_ignore_default_sigpipe reads writes old in
  (r = 1 <-> (new = mkAct SigIgn false /\ sa_handler old = SigDfl /\ sa_siginfo old = false
              /\ reads = true /\ writes = true))
  /\ (r <> 1 -> r = 0 /\ new = old)
  /\ (sa_handler old <> SigDfl -> new = old).
Proof.
  destruct old as [[] []], reads, writes; cbn; intuition congruence.
Qed.

(** The poll loop ends with the first answer that is not an interruption. *)
Lemma poll_loop_answer answers a t :
  poll_loop answers = Some (a, t) ->
  match a with PollFails _ e => e <> EINTR | PollReady _ _ => True end.
Proof.
  revert t. induction answers as [|[took ev|took e] rest IH]; intros t; cbn; [done | by intros [= <- _] |].
  destruct (Z.eqb_spec e EINTR) as [->|Hne]; [|by intros [= <- _]].
  destruct (poll_loop rest) as [[a' t']|]; [|done]. cbn. intros [= <- _]. by apply (IH t').
Qed.

(** An interrupted wait starts over with its whole timeout: the time spent can
    exceed it. Two interruptions 80 ms into a wait of 100 ms make it 260 ms. *)
Lemma wait_exceeds_timeout :
  let answers := [PollFails 80 EINTR; PollFails 80 EINTR; PollReady 100 0] in
  transport_wait answers = Some 0 /\ option_map snd (poll_loop answers) = Some 260.
Proof. by split. Qed.

(** ** Witnesses *)

Definition demo_kern : kern :=
  mkKern {[ 3%nat := mkFd 0 true true; 7%nat := mkFd 1 true false ]} 2 [Failed EINTR_pos] [].

Lemma upstream_dup_onto_moves_witness :
  fst (upstream_dup_onto 7 3 demo_kern) = 3
  /\ let (r, k') := upstream_dup_onto 7 3 demo_kern in
     (r = Z.of_nat 3 /\ fds k' = delete 7%nat (<[3%nat := mkFd 1 true true]> (fds demo_kern)))
     \/ (r < 0 /\ r <> Zneg EINTR_pos /\ r <> Zneg EBUSY /\ fds k' = delete 7%nat (fds demo_kern)).
Proof.
  split; [reflexivity|].
  apply (upstream_dup_onto_moves 7 3 (mkFd 1 true false) demo_kern); [lia | reflexivity].
Defined.

Definition demo_getaddrinfo (host port : list byte) : Z + list addrinfo :=
  inr [mkAi 1 [NUL]; mkAi AF_INET6 (replicate 28 NUL); mkAi AF_INET (replicate 16 NUL)].

Lemma transport_resolve_spec_witness :
  exists out, transport_resolve demo_getaddrinfo (bytes_of "localhost") (bytes_of "80") 8 = inl out
    /\ length out = 2%nat.
Proof.
  destruct (transport_resolve_spec demo_getaddrinfo (bytes_of "localhost") (bytes_of "80") 8 _ eq_refl)
    as (out & E & F & _). exists out. split; [exact E | rewrite F; reflexivity].
Defined.

Lemma transport_ip_addr_roundtrip_witness :
  fst (transport_ip_addr (print4 192 0 2 7) 5432) = Some (AF_INET, SOCKADDR_IN).
Proof.
  pose proof (proj1 (transport_ip_addr_roundtrip 5432) 192 0 2 7) as H.
  destruct (transport_ip_addr (print4 192 0 2 7) 5432) as [r sa].
  destruct H as [H _]; unfold octet; try lia. exact H.
Defined.
