(* ===== verification/TlsConfig.v ===== *)
(** The configuration side of tls/vanilla_tls.c: [vtls_ctx] and every function
    that writes it (identity, server and client setup, ALPN, kTLS and ticket
    switches), the certificate callbacks of a client, the sessions a context
    makes, and the error texts. Mbed TLS and PSA are the class [MbedConf]: the
    answers of the calls, and what they hand back. *)
From S2P Require Import Prelude StreamSocket TlsSession TlsLaws TlsToy Inet.
Local Open Scope Z_scope.

(** ** C strings *)

Fixpoint until_nul (l : list byte) : list byte :=
  match l with
  | [] => []
  | b :: l' => if decide (b = NUL) then [] else b :: until_nul l'
  end.

(** The C string at offset [p] of a buffer. *)
Definition cstr_at (buf : list byte) (p : nat) : list byte := until_nul (drop p buf).

(** What [snprintf(buf, len, ...)] leaves as the string in [buf]. *)
Definition snprintf (len : nat) (text : list byte) : list byte := take (pred len) text.

Definition COMMA : byte := byte_of_Z 44.
Definition PERCENT : byte := byte_of_Z 37.
Definition SEMICOLON : byte := byte_of_Z 59.
Definition NEWLINE : byte := byte_of_Z 10.

(** ** The library's side *)

(** A private key: a PSA key, or one parsed from a file. *)
Inductive pk := PkPsa (key_id : Z) | PkParsed (key : list byte).

Inductive san := SanDns (name : list byte) | SanIp (addr : list byte).

(** [mbedtls_x509write_cert]: what a certificate is written from. *)
Record write_cert := mkWc {
  wc_key : pk;
  wc_subject : list byte;
  wc_issuer : list byte;
  wc_serial : list byte;
  wc_not_before : list byte;
  wc_not_after : list byte;
  wc_sans : list san;
  wc_is_ca : bool;
  wc_key_usage : Z;
  wc_server_auth : bool
}.

(** The setters of [mbedtls_ssl_config], as calls. *)
Inductive conf_call :=
| ConfServerDefaults
| ConfClientDefaults
| ConfMinVersion (v : Z)
| ConfMaxVersion (v : Z)
| ConfCiphersuites (l : list Z)
| ConfNewSessionTickets (n : Z)
| ConfSessionTicketsCb
| ConfOwnCert
| ConfVerifyNone
| ConfVerifyRequired
| ConfCaChain
| ConfVerifyChainOnly
| ConfAlpn (names : list (list byte)).

#[export] Instance conf_call_eq_decision : EqDecision conf_call.
Proof. solve_decision. Defined.

Class MbedConf := {
  psa_crypto_init : Z;
  psa_generate_key : Z * Z;
  psa_generate_random : list byte;
  pk_wrap_psa : Z -> Z;
  write_set_subject_name : list byte -> Z;
  write_set_issuer_name : list byte -> Z;
  write_set_serial_raw : list byte -> Z;
  write_set_sans : list san -> Z;
  write_set_basic_constraints : Z;
  write_set_key_usage : Z;
  write_set_ext_key_usage : Z;
  write_crt_der : write_cert -> Z * list byte;
  crt_parse_der : list byte -> Z;
  pem_write_buffer : list byte -> Z * list byte * nat;
  pk_write_key_pem : pk -> Z * list byte;
  crt_parse : list byte -> Z * list (list byte);
  pk_parse_key : list byte -> Z * pk;
  crt_parse_file : list byte -> Z * list (list byte);
  ssl_config_defaults : Z;
  ssl_conf_own_cert : Z;
  ssl_conf_alpn_protocols : list (list byte) -> Z;
  ssl_ticket_setup : Z;
  ssl_set_hostname : option (list byte) -> Z;
  crt_verify_info : Z -> Z * list byte;
  mbedtls_strerror : Z -> list byte;
  ERR_SSL_BAD_INPUT_DATA : Z;
  ERR_X509_CERT_UNKNOWN_FORMAT : Z
}.

Definition VERSION_TLS1_3 : Z := 0x0304.
Definition CIPHERSUITE_0x1301 : Z := 0x1301.
Definition KU_DIGITAL_SIGNATURE : Z := 0x80.
Definition KU_KEY_AGREEMENT : Z := 0x08.

(** ** vtls_ctx *)

Record vtls_ctx := mkCtx {
  conf : list conf_call;
  srvcert : list (list byte);
  pkey : option pk;
  key_id : Z;
  cert_pem : list byte;
  cert_pem_len : nat;
  key_pem : list byte;
  key_pem_len : nat;
  alpn_buf : list byte;
  alpn : list nat;
  c_ktls_off : bool;
  c_ktls_rx_no_pad : bool;
  cachain : list (list byte);
  c_verify : Z;
  c_tickets : Z;
  ticket_ready : bool
}.

#[export] Instance eta_ctx : Eta vtls_ctx := mkEta _ (fun c =>
  mkCtx (conf c) (srvcert c) (pkey c) (key_id c) (cert_pem c) (cert_pem_len c) (key_pem c)
    (key_pem_len c) (alpn_buf c) (alpn c) (c_ktls_off c) (c_ktls_rx_no_pad c) (cachain c)
    (c_verify c) (c_tickets c) (ticket_ready c)).

Definition CERT_PEM : nat := 4096.
Definition KEY_PEM : nat := 2048.
Definition ALPN_BUF : nat := 64.
#[global] Arguments CERT_PEM : simpl never.
#[global] Arguments KEY_PEM : simpl never.

(** [calloc] and the [_init] functions. *)
Definition vtls_ctx_new : vtls_ctx :=
  mkCtx [] [] None 0 (replicate CERT_PEM NUL) O (replicate KEY_PEM NUL) O (replicate ALPN_BUF NUL) []
    false false [] 0 0 false.

Definition configure (calls : list conf_call) (c : vtls_ctx) : vtls_ctx := c <| conf := conf c ++ calls |>.

(** ** Identity *)

Definition has_prefix (p s : list byte) : bool := bool_decide (take (length p) s = p).

Definition vtls_parse_san (s : list byte) : option san :=
  if has_prefix (bytes_of "DNS:") s then
    if (length (drop 4 s) =? 0)%nat then None else Some (SanDns (drop 4 s))
  else if has_prefix (bytes_of "IP:") s then
    match inet_pton4 (drop 3 s) with
    | Some a => Some (SanIp a)
    | None => SanIp <$> inet_pton6 (drop 3 s)
    end
  else None.

Fixpoint parse_sans (sans : list (list byte)) : option (list san) :=
  match sans with
  | [] => Some []
  | s :: sans' => n ← vtls_parse_san s; ns ← parse_sans sans'; Some (n :: ns)
  end.

(** The subject: the first entry's part after the colon, at most 64 bytes. *)
Definition subject_cn (san0 : list byte) : option (list byte) :=
  let value := match find_byte COLON san0 with Some i => drop (S i) san0 | None => san0 end in
  if (64 <? length value)%nat then None
  else Some (snprintf 160 (bytes_of "CN=" ++ value ++ bytes_of ",O=vanilla")).

(** [serial[0] = (unsigned char)((serial[0] & 0x7f) | 0x01);] *)
Definition fix_serial (serial : list byte) : list byte :=
  match serial with
  | [] => []
  | b :: rest => byte_of_Z (Z.lor (Z.land (byte_val b) 0x7f) 0x01) :: rest
  end.

Definition VTLS_MAX_SANS : nat := 16.

(** [if ((ret = r) != 0) goto done;] *)
#[local] Notation "'try!' r 'on' c ; k" := (if negb (r =? 0)%Z then (r%Z, c) else k)
  (at level 10, r at level 100, c at level 9, k at level 200).

Section Config.
Context `{MC : MbedConf}.

(** The certificate written, from the names and the key. *)
Definition self_signed_cert (key : pk) (cn : list byte) (nodes : list san) : write_cert :=
  mkWc key cn cn (fix_serial psa_generate_random) (bytes_of "20250101000000") (bytes_of "20351231235959")
    nodes false (Z.lor KU_DIGITAL_SIGNATURE KU_KEY_AGREEMENT) true.

Definition use_self_signed (sans : list (list byte)) (c : vtls_ctx) : Z * vtls_ctx :=
  match sans with
  | [] => (-1, c)
  | san0 :: _ =>
      if (VTLS_MAX_SANS <? length sans)%nat then (-1, c) else
      match parse_sans sans, subject_cn san0 with
      | Some nodes, Some cn =>
          let '(status, id) := psa_generate_key in
          if negb (status =? 0) then (-1, c) else
          let c := c <| key_id := id |> in
          try! pk_wrap_psa id on c;
          let c := c <| pkey := Some (PkPsa id) |> in
          let wc := self_signed_cert (PkPsa id) cn nodes in
          try! write_set_subject_name (wc_subject wc) on c;
          try! write_set_issuer_name (wc_issuer wc) on c;
          try! write_set_serial_raw (wc_serial wc) on c;
          try! write_set_sans (wc_sans wc) on c;
          try! write_set_basic_constraints on c;
          try! write_set_key_usage on c;
          try! write_set_ext_key_usage on c;
          let '(ret, der) := write_crt_der wc in
          if ret <? 0 then (ret, c) else
          try! crt_parse_der der on c;
          let c := c <| srvcert := srvcert c ++ [der] |> in
          let '(ret, pem, olen) := pem_write_buffer der in
          let c := c <| cert_pem := pem |> <| cert_pem_len := olen |> in
          try! ret on c;
          let '(ret, kpem) := pk_write_key_pem (PkPsa id) in
          let c := c <| key_pem := kpem |> in
          try! ret on c;
          (0, c <| key_pem_len := length (cstr_at kpem 0) |>)
      | _, _ => (-1, c)
      end
  end.

(** [while (n > 0 && src[n - 1] == 0) n--;] *)
Fixpoint trim_nuls (src : list byte) (n : nat) : nat :=
  match n with
  | O => O
  | S n' => if decide (src !! n' = Some NUL) then trim_nuls src n' else n
  end.

(** The destination and [*out_len]; [None] when a write leaves the buffer. *)
Definition vtls_keep_pem (src dst : list byte) : option (list byte * nat) :=
  let n := trim_nuls src (length src) in
  if (n =? 0)%nat || (length dst <=? n)%nat then Some (dst, O)
  else
    d1 ← memcpy_at 0 (take n src) dst;
    d2 ← memcpy_at n [NUL] d1;
    Some (d2, n).

Definition vtls_use_pem (cert key : list byte) (c : vtls_ctx) : option (Z * vtls_ctx) :=
  let '(ret, certs) := crt_parse cert in
  let c := c <| srvcert := srvcert c ++ certs |> in
  if negb (ret =? 0) then Some (ret, c) else
  let '(ret, k) := pk_parse_key key in
  if negb (ret =? 0) then Some (ret, c) else
  let c := c <| pkey := Some k |> in
  '(cp, cn) ← vtls_keep_pem cert (cert_pem c);
  '(kp, kn) ← vtls_keep_pem key (key_pem c);
  Some (0, c <| cert_pem := cp |> <| cert_pem_len := cn |> <| key_pem := kp |> <| key_pem_len := kn |>).

Definition vtls_key_pem (c : vtls_ctx) : option (list byte) :=
  if (0 <? key_pem_len c)%nat then Some (cstr_at (key_pem c) 0) else None.

Definition vtls_cert_pem (c : vtls_ctx) : option (list byte) :=
  if (0 <? cert_pem_len c)%nat then Some (cstr_at (cert_pem c) 0) else None.

(** ** Server setup *)

Definition vtls_global_init : Z := if psa_crypto_init =? 0 then 0 else -1.

Definition setup (c : vtls_ctx) : Z * vtls_ctx :=
  let ret := ssl_config_defaults in
  if negb (ret =? 0) then (ret, c)
  else
    (ssl_conf_own_cert,
     configure [ConfServerDefaults; ConfMinVersion VERSION_TLS1_3; ConfMaxVersion VERSION_TLS1_3;
                ConfCiphersuites [CIPHERSUITE_0x1301]; ConfNewSessionTickets 0; ConfOwnCert] c).

Definition vtls_set_ktls (enabled : bool) (c : vtls_ctx) : vtls_ctx := c <| c_ktls_off := negb enabled |>.

Definition vtls_set_ktls_rx_no_pad (enabled : bool) (c : vtls_ctx) : vtls_ctx :=
  c <| c_ktls_rx_no_pad := enabled |>.

(** Built with the ticket modules of Mbed TLS. *)
Definition vtls_set_session_tickets (n : Z) (c : vtls_ctx) : Z * vtls_ctx :=
  if (n <? 0) || (0xffff <? n) then (ERR_SSL_BAD_INPUT_DATA, c)
  else
    let fresh := (0 <? n) && negb (ticket_ready c) in
    let ret := if fresh then ssl_ticket_setup else 0 in
    let c := if fresh && (ret =? 0)
             then (configure [ConfSessionTicketsCb] c) <| ticket_ready := true |> else c in
    if ret =? 0 then (ret, (configure [ConfNewSessionTickets (n mod 2 ^ 16)] c) <| c_tickets := n |>)
    else (ret, c).

(** [sizeof(c->alpn) / sizeof(c->alpn[0]) - 1]: the NULL takes the last entry. *)
Definition ALPN_MAX : nat := 4.

(** [for (i = 0; i < n && count < 4; i++)]: [left] is [n - i], the entries are
    offsets into the buffer. *)
Fixpoint alpn_scan (left i : nat) (buf : list byte) (ptrs : list nat) : list byte * list nat :=
  match left with
  | O => (buf, ptrs)
  | S left' =>
      if (ALPN_MAX <=? length ptrs)%nat then (buf, ptrs)
      else if decide (buf !! i = Some COMMA)
           then alpn_scan left' (S i) (<[i := NUL]> buf) (ptrs ++ [S i])
           else alpn_scan left' (S i) buf ptrs
  end.

(** [None] when a write leaves the buffer; the list is a C string or NULL. *)
Definition vtls_set_alpn (protos : option (list byte)) (c : vtls_ctx) : option (Z * vtls_ctx) :=
  match protos with
  | None => Some (-1, c)
  | Some l =>
      let n := length l in
      if (n =? 0)%nat || (ALPN_BUF <=? n)%nat then Some (-1, c)
      else
        buf ← memcpy_at 0 (l ++ [NUL]) (alpn_buf c);
        let '(buf, ptrs) := alpn_scan n 0 buf [O] in
        let names := cstr_at buf <$> ptrs in
        Some (ssl_conf_alpn_protocols names,
              configure [ConfAlpn names] (c <| alpn_buf := buf |> <| alpn := ptrs |>))
  end.

(** ** Client setup *)

Definition VTLS_VERIFY_NONE : Z := 0.
Definition VTLS_VERIFY_CA : Z := 1.
Definition VTLS_VERIFY_FULL : Z := 2.

(** [cachain.version == 0]: no certificate was parsed into the chain. *)
Definition client_setup (ca_file : list byte) (verify : Z) (c : vtls_ctx) : Z * vtls_ctx :=
  let ret := ssl_config_defaults in
  if negb (ret =? 0) then (ret, c) else
  let c := configure [ConfClientDefaults; ConfMinVersion VERSION_TLS1_3; ConfMaxVersion VERSION_TLS1_3] c in
  let c := c <| c_verify := verify |> in
  if verify =? VTLS_VERIFY_NONE then (0, configure [ConfVerifyNone] c) else
  let '(ret, certs) := crt_parse_file ca_file in
  let c := c <| cachain := cachain c ++ certs |> in
  if ret <? 0 then (ret, c)
  else if (length (cachain c) =? 0)%nat then (ERR_X509_CERT_UNKNOWN_FORMAT, c)
  else
    let c := configure [ConfCaChain; ConfVerifyRequired] c in
    (0, if verify =? VTLS_VERIFY_CA then configure [ConfVerifyChainOnly] c else c).

(** ** The client's certificate callbacks *)

Definition BADCERT_CN_MISMATCH : Z := 0x04.
Definition BADCERT_NOT_TRUSTED : Z := 0x08.

(** [flags & ~(uint32_t)bit] *)
Definition clear_bit32 (flags bit : Z) : Z := Z.land flags (Z.lxor 0xffffffff bit).

Definition verify_chain_only (depth flags : Z) : Z :=
  if depth =? 0 then clear_bit32 flags BADCERT_CN_MISMATCH else flags.

(** A subjectAltName entry: its ASN.1 tag and its bytes. *)
Record san_entry := mkSan { san_tag : Z; san_buf : list byte }.

Definition ASN1_TAG_VALUE_MASK : Z := 0x1f.
Definition X509_SAN_IP_ADDRESS : Z := 7.

End Config.

Section Sessions.
Context `{ML : MbedTLS} `{MC : MbedConf}.

Definition san_matches (s : vtls_session) (e : san_entry) : bool :=
  (Z.land (san_tag e) ASN1_TAG_VALUE_MASK =? X509_SAN_IP_ADDRESS)
  && (length (san_buf e) =? peer_ip_len s)%nat
  && bool_decide (san_buf e = take (peer_ip_len s) (peer_ip s)).

(** [subject_alt_names] is the certificate's list of entries. *)
Fixpoint verify_ip_san_loop (s : vtls_session) (flags : Z) (sans : list san_entry) : Z :=
  match sans with
  | [] => Z.lor flags BADCERT_CN_MISMATCH
  | e :: sans' => if san_matches s e then flags else verify_ip_san_loop s flags sans'
  end.

Definition verify_ip_san (s : vtls_session) (sans : list san_entry) (depth flags : Z) : Z :=
  if negb (depth =? 0) then flags else verify_ip_san_loop s flags sans.

(** ** Sessions *)

Definition INET6_ADDRSTRLEN : nat := 46.

(** [getaddrinfo] with [AI_NUMERICHOST] is the resolver's own parse: the family
    and the address bytes of its first result. *)
Definition ip_host (getaddrinfo : list byte -> option (Z * list byte)) (host : list byte) : list byte :=
  match find_byte PERCENT host with
  | Some n => if (INET6_ADDRSTRLEN <=? n)%nat then [] else default [] (inet_pton6 (take n host))
  | None =>
      match getaddrinfo host with
      | None => []
      | Some (family, addr) => if family =? AF_INET then take 4 addr
                               else if family =? AF_INET6 then take 16 addr else []
      end
  end.

(** [ssl_setup]: what [mbedtls_ssl_setup] answers and leaves; [None] is NULL. *)
Definition vtls_session_new (ssl_setup : Z * ssl_t) (c : vtls_ctx) (fd : Z) : option vtls_session :=
  let '(ret, st) := ssl_setup in
  if negb (ret =? 0) then None
  else Some (session_init st fd (c_ktls_off c) (0 <? c_tickets c) (c_ktls_rx_no_pad c)).

(** A client session, the name given to Mbed TLS, and whether [verify_ip_san] is
    its certificate callback. *)
Record client_session := mkClient {
  cl_session : vtls_session;
  cl_hostname : option (list byte);
  cl_verify_ip : bool
}.

Definition vtls_client_session_new (getaddrinfo : list byte -> option (Z * list byte))
    (ssl_setup : Z * ssl_t) (c : vtls_ctx) (fd : Z) (host : list byte) : option client_session :=
  let ip := ip_host getaddrinfo host in
  let '(ret, st) := ssl_setup in
  let named := (length ip =? 0)%nat in
  let name := if named then Some host else None in
  let ret := if ret =? 0 then ssl_set_hostname name else ret in
  if negb (ret =? 0) then None
  else
    let s := (session_calloc st) <| peer_ip := ip ++ replicate (16 - length ip) NUL |>
               <| peer_ip_len := length ip |> in
    Some (mkClient (client_rearm fd s) name (negb named && (c_verify c =? VTLS_VERIFY_FULL))).

Definition vtls_get_alpn (s : vtls_session) : option (list byte) := ssl_get_alpn_protocol (ssl s).

Definition vtls_verify_failed (s : vtls_session) : bool := last_err s =? ERR_X509_CERT_VERIFY_FAILED.

(** ** Error texts *)

Definition hex_digit_char (d : Z) : byte := byte_of_Z (if d <? 10 then 48 + d else 87 + d).

(** ["%04x"] of a 32-bit value: at least four digits. *)
Fixpoint hex_digits (k : nat) (v : Z) : list byte :=
  match k with
  | O => []
  | S k' => hex_digits k' (v / 16) ++ [hex_digit_char (v mod 16)]
  end.

Definition print_04x (v : Z) : list byte :=
  hex_digits (Nat.max 4 (Z.to_nat (Z.log2 v / 4 + 1))) v.

(** [char text[160]] of [mbedtls_strerror]. *)
Definition vtls_error_string (err : Z) (len : nat) : list byte :=
  snprintf len (snprintf 160 (mbedtls_strerror err) ++ bytes_of " (Mbed TLS -0x"
                ++ print_04x ((- err) mod 2 ^ 32) ++ bytes_of ")").

(** [for (int i = 0; i < n; i++) if (info[i] == '\n') info[i] = (i + 1 < n) ? ';' : '\0';] *)
Fixpoint join_lines (info : list byte) : list byte :=
  match info with
  | [] => []
  | b :: rest =>
      (if decide (b = NEWLINE) then match rest with [] => NUL | _ => SEMICOLON end else b)
      :: join_lines rest
  end.

Definition verdict (flags : Z) : list byte :=
  if negb (Z.land flags BADCERT_NOT_TRUSTED =? 0) then
    bytes_of "the server certificate is not trusted (it does not chain to a trusted root certificate)"
  else if negb (Z.land flags BADCERT_CN_MISMATCH =? 0) then
    bytes_of "the server certificate does not match the host name"
  else bytes_of "the server certificate failed verification".

(** The findings, one per line, as [info[0..n]]. *)
Definition findings (s : vtls_session) (flags : Z) : list byte :=
  let ip_miss := negb (peer_ip_len s =? 0)%nat && negb (Z.land flags BADCERT_CN_MISMATCH =? 0) in
  let info := if ip_miss then bytes_of "the address is in none of its iPAddress SANs (IP:)" ++ [NEWLINE] else [] in
  let flags := if ip_miss then clear_bit32 flags BADCERT_CN_MISMATCH else flags in
  let '(m, text) := if negb (flags =? 0) then crt_verify_info flags else (0, []) in
  if 0 <? m then info ++ text else info.

Definition vtls_handshake_error (s : vtls_session) (len : nat) : list byte :=
  let flags := ssl_get_verify_result (ssl s) in
  if (last_err s =? ERR_X509_CERT_VERIFY_FAILED) && negb (flags =? 0) && negb (flags =? 0xffffffff) then
    snprintf len (verdict flags ++ bytes_of ": " ++ until_nul (join_lines (findings s flags)))
  else if (closed s =? 1) || (last_err s =? ERR_SSL_CONN_EOF) then
    snprintf len (bytes_of "the server closed the connection during the TLS handshake")
  else vtls_error_string (last_err s) len.

End Sessions.

(** ** The ALPN list *)

(** The pieces between the first [k] commas. *)
Fixpoint split_commas (k : nat) (l : list byte) : list (list byte) :=
  match l with
  | [] => [[]]
  | b :: l' =>
      if (0 <? k)%nat && bool_decide (b = COMMA) then [] :: split_commas (pred k) l'
      else match split_commas k l' with
           | [] => [[b]]
           | x :: xs => (b :: x) :: xs
           end
  end.

Lemma split_commas_zero l : split_commas 0 l = [l].
Proof. induction l as [|b l IH]; cbn; [done|]. by rewrite IH. Qed.

Lemma split_commas_length k l : (length (split_commas k l) <= S k)%nat.
Proof.
  revert k. induction l as [|b l IH]; intros k; cbn [split_commas length]; [lia|].
  destruct (_ && _) eqn:E; cbn [length].
  - apply andb_true_iff in E as [Hk%Nat.ltb_lt _]. specialize (IH (pred k)). lia.
  - specialize (IH k). destruct (split_commas k l); cbn in *; lia.
Qed.

Lemma until_nul_stop l rest : NUL ∉ l -> until_nul (l ++ NUL :: rest) = l.
Proof.
  induction l as [|b l IH]; intros Hn; cbn; [by rewrite decide_True|].
  rewrite not_elem_of_cons in Hn. destruct Hn as [Hb Hl].
  rewrite decide_False by congruence. by rewrite IH.
Qed.

Lemma strings_shift p b l offs :
  Forall (fun o => p < o)%nat offs ->
  (fun o => until_nul (drop (o - p) (b :: l))) <$> offs
  = (fun o => until_nul (drop (o - (p + 1)) l)) <$> offs.
Proof.
  intros Ho. apply list_fmap_ext. intros i o Hi.
  assert (p < o)%nat by (eapply Forall_lookup_1 in Ho; eauto).
  by replace (o - p)%nat with (S (o - (p + 1))) by lia.
Qed.

Lemma past_prefix p n offs :
  Forall (fun o => p + 1 < o <= p + 1 + n)%nat offs -> Forall (fun o => p < o)%nat offs.
Proof. intros Ho. eapply Forall_impl; [exact Ho|]. cbn. lia. Qed.

(** The scan over a suffix: what it leaves in the suffix's place, and the new
    pointers; the strings they delimit are the pieces of the suffix. *)
Lemma alpn_scan_spec suf : forall pre ptrs rest,
  NUL ∉ suf -> (1 <= length ptrs <= ALPN_MAX)%nat ->
  exists mid offs,
    alpn_scan (length suf) (length pre) (pre ++ suf ++ NUL :: rest) ptrs
      = (pre ++ mid ++ NUL :: rest, ptrs ++ offs)
    /\ length mid = length suf
    /\ Forall (fun o => length pre < o <= length pre + length suf)%nat offs
    /\ until_nul (mid ++ NUL :: rest)
       :: ((fun o => until_nul (drop (o - length pre) (mid ++ NUL :: rest))) <$> offs)
       = split_commas (ALPN_MAX - length ptrs) suf.
Proof.
  induction suf as [|b suf IH]; intros pre ptrs rest Hn Hl.
  { exists [], []. rewrite app_nil_r. cbn. by rewrite decide_True. }
  rewrite not_elem_of_cons in Hn. destruct Hn as [Hb Hn].
  cbn [alpn_scan length].
  destruct (Nat.leb_spec ALPN_MAX (length ptrs)).
  { exists (b :: suf), []. rewrite app_nil_r.
    replace (ALPN_MAX - length ptrs)%nat with O by lia.
    rewrite split_commas_zero. split_and!; [done..|].
    cbn [fmap list_fmap]. f_equal. apply until_nul_stop. by rewrite not_elem_of_cons. }
  cbn [app]. rewrite list_lookup_middle by done.
  destruct (decide (Some b = Some COMMA)) as [[= ->]|Hc].
  - destruct (IH (pre ++ [NUL]) (ptrs ++ [S (length pre)]) rest) as (mid & offs & E & Hlen & Hoffs & Hs);
      [done|rewrite length_app; cbn; lia|].
    rewrite !length_app in Hs. rewrite length_app in E, Hoffs. cbn [length] in E, Hoffs, Hs.
    exists (NUL :: mid), (S (length pre) :: offs). split_and!.
    + rewrite insert_app_r_alt, Nat.sub_diag by lia. cbn [app].
      rewrite <- !app_assoc in E. cbn [app] in E.
      replace (length pre + 1)%nat with (S (length pre)) in E by lia. exact E.
    + cbn. lia.
    + constructor; [lia|]. eapply Forall_impl; [exact Hoffs|]. cbn. lia.
    + cbn [split_commas]. rewrite bool_decide_true, andb_true_r by done.
      rewrite (proj2 (Nat.ltb_lt _ _)) by lia.
      replace (pred (ALPN_MAX - length ptrs)) with (ALPN_MAX - (length ptrs + 1))%nat by lia.
      rewrite <- Hs. rewrite fmap_cons. cbn [app]. rewrite (strings_shift _ _ _ offs) by (eapply past_prefix; eauto).
      replace (S (length pre) - length pre)%nat with 1%nat by lia. done.
  - destruct (IH (pre ++ [b]) ptrs rest) as (mid & offs & E & Hlen & Hoffs & Hs); [done|lia|].
    rewrite length_app in E, Hoffs, Hs. cbn [length] in E, Hoffs, Hs.
    exists (b :: mid), offs. split_and!.
    + rewrite <- !app_assoc in E. cbn [app] in E.
      replace (length pre + 1)%nat with (S (length pre)) in E by lia. exact E.
    + cbn. lia.
    + eapply Forall_impl; [exact Hoffs|]. cbn. lia.
    + cbn [split_commas]. rewrite bool_decide_false, andb_false_r by congruence.
      rewrite <- Hs. cbn [app]. rewrite strings_shift by (eapply past_prefix; eauto).
      cbn [until_nul]. by rewrite decide_False by congruence.
Qed.

(** [vtls_set_alpn] hands Mbed TLS the protocol names of the list: the
    pieces between its commas, in order, at most four of them (the last one
    takes the rest). It never writes outside its buffer, and every pointer it
    keeps is inside it, also after the list's end. *)
Theorem set_alpn_names `{MbedConf} (c : vtls_ctx) (l : list byte) :
  length (alpn_buf c) = ALPN_BUF -> NUL ∉ l -> (0 < length l < ALPN_BUF)%nat ->
  exists c', vtls_set_alpn (Some l) c = Some (ssl_conf_alpn_protocols (split_commas 3 l), c')
    /\ conf c' = conf c ++ [ConfAlpn (split_commas 3 l)]
    /\ cstr_at (alpn_buf c') <$> alpn c' = split_commas 3 l
    /\ length (alpn_buf c') = ALPN_BUF
    /\ (length (alpn c') <= ALPN_MAX)%nat
    /\ Forall (fun p => p < ALPN_BUF)%nat (alpn c').
Proof.
  intros Hbuf Hn Hl. unfold vtls_set_alpn, memcpy_at.
  rewrite (proj2 (Nat.eqb_neq _ _)), (proj2 (Nat.leb_gt _ _)) by lia. cbn [orb].
  rewrite decide_True by (rewrite length_app; cbn; lia).
  set (rest := drop (0 + length (l ++ [NUL])) (alpn_buf c)).
  assert (length rest = ALPN_BUF - S (length l))%nat as Hrest
    by (unfold rest; rewrite length_drop, length_app, Hbuf; cbn; lia).
  rewrite take_0, <- app_assoc. cbn [mbind option_bind app]. clearbody rest.
  destruct (alpn_scan_spec l [] [O] rest)
    as (mid & offs & E & Hlen & Hoffs & Hs); [done|cbn; unfold ALPN_MAX; lia|].
  cbn [app length] in E, Hoffs, Hs. change (ALPN_MAX - 1)%nat with 3%nat in Hs. rewrite E.
  assert (cstr_at (mid ++ NUL :: rest) <$> (O :: offs)
          = split_commas 3 l) as Hnames.
  { rewrite fmap_cons, <- Hs. unfold cstr_at. f_equal.
    apply list_fmap_ext. intros i o _. by rewrite Nat.sub_0_r. }
  eexists. rewrite Hnames. split; [done|]. split_and!; [done|exact Hnames|..].
  - cbn. rewrite length_app. cbn. rewrite Hrest, Hlen. unfold ALPN_BUF in *. lia.
  - pose proof (split_commas_length 3 l) as Hk. rewrite <- Hnames, length_fmap in Hk. exact Hk.
  - constructor; [cbn; lia|]. eapply Forall_impl; [exact Hoffs|]. cbn. lia.
Qed.

(** Five names: the fourth entry keeps the comma, so the fifth is no protocol of
    its own. *)
Lemma alpn_fifth_name :
  split_commas 3 (bytes_of "a,b,c,d,e") = bytes_of <$> ["a"; "b"; "c"; "d,e"]%string.
Proof. reflexivity. Qed.

(** ** Kept PEM copies *)

Lemma trim_nuls_spec l n :
  last l <> Some NUL -> trim_nuls (l ++ replicate n NUL) (length l + n) = length l.
Proof.
  intros Hl. induction n as [|n IH].
  - rewrite Nat.add_0_r, app_nil_r. destruct l as [|b l _] using rev_ind; [done|].
    rewrite last_snoc in Hl. rewrite length_app, Nat.add_1_r. cbn [trim_nuls].
    rewrite list_lookup_middle by done. by rewrite decide_False.
  - rewrite Nat.add_succ_r. cbn [trim_nuls].
    rewrite decide_True by (rewrite lookup_app_r, lookup_replicate by lia; split; [done|lia]).
    rewrite replicate_S_end, app_assoc. rewrite <- IH at 2. clear IH.
    assert (forall m src x, m <= length src -> trim_nuls (src ++ [x]) m = trim_nuls src m)%nat as Hext.
    { intros m src x. induction m as [|m IHm]; intros Hm; [done|]. cbn [trim_nuls].
      rewrite lookup_app_l by lia. by rewrite IHm by lia. }
    apply Hext. rewrite length_app, length_replicate. lia.
Qed.

(** A text ending in any number of NULs is kept when it fits, dropped else. *)
Lemma keep_pem_text l n dst :
  last l <> Some NUL ->
  exists d, vtls_keep_pem (l ++ replicate n NUL) dst
            = Some (d, if bool_decide (length l < length dst)%nat then length l else O)
    /\ length d = length dst
    /\ ((length l < length dst)%nat -> l <> [] -> exists rest, d = l ++ NUL :: rest).
Proof.
  intros Hl. unfold vtls_keep_pem. rewrite length_app, length_replicate, trim_nuls_spec by done.
  rewrite take_app_length. destruct (Nat.eqb_spec (length l) 0) as [Hz|Hz]; cbn [orb].
  { apply length_zero_iff_nil in Hz as ->. exists dst. split_and!; [by destruct (bool_decide _)|done|done]. }
  destruct (Nat.leb_spec (length dst) (length l)).
  { exists dst. rewrite bool_decide_false by lia. split_and!; [done..|lia]. }
  rewrite bool_decide_true by lia. unfold memcpy_at at 2.
  rewrite decide_True by (cbn; lia). rewrite take_0. cbn [mbind option_bind app Nat.add].
  unfold memcpy_at. rewrite decide_True by (rewrite length_app, length_drop; cbn; lia).
  rewrite take_app_length. eexists. split_and!; [reflexivity|..].
  - rewrite !length_app, length_drop, length_app, length_drop. cbn. lia.
  - intros _ _. by eexists.
Qed.

Lemma kept_text l d cap :
  NUL ∉ l -> ((length l < cap)%nat -> l <> [] -> exists rest, d = l ++ NUL :: rest) ->
  (if (0 <? (if bool_decide (length l < cap)%nat then length l else 0))%nat then Some (cstr_at d 0) else None)
  = (if bool_decide (0 < length l < cap)%nat then Some l else None).
Proof.
  intros Hn Hd. destruct (decide (length l < cap)%nat) as [Hlt|Hge].
  - rewrite (bool_decide_true (length l < cap)%nat) by done.
    destruct l as [|b l']; [by rewrite bool_decide_false by (cbn; lia)|].
    rewrite bool_decide_true by (cbn in *; lia). cbn [length Nat.ltb Nat.leb].
    destruct Hd as [rest ->]; [done|done|]. unfold cstr_at. rewrite drop_0. f_equal. by apply until_nul_stop.
  - rewrite !bool_decide_false by lia. done.
Qed.

(** What [vtls_use_pem] accepts can be read back: the certificate and key
    texts, given with any number of trailing NULs, are what [vtls_cert_pem] and
    [vtls_key_pem] return, NULL for one that is empty or does not fit the
    context's buffer. No write leaves the buffers, whatever an earlier identity
    left in them. *)
Theorem use_pem_roundtrip `{MbedConf} (c : vtls_ctx) (cert key : list byte) (m n : nat) k certs :
  length (cert_pem c) = CERT_PEM -> length (key_pem c) = KEY_PEM ->
  NUL ∉ cert -> NUL ∉ key ->
  crt_parse (cert ++ replicate m NUL) = (0, certs) -> pk_parse_key (key ++ replicate n NUL) = (0, k) ->
  exists c', vtls_use_pem (cert ++ replicate m NUL) (key ++ replicate n NUL) c = Some (0, c')
    /\ vtls_cert_pem c' = (if bool_decide (0 < length cert < CERT_PEM)%nat then Some cert else None)
    /\ vtls_key_pem c' = (if bool_decide (0 < length key < KEY_PEM)%nat then Some key else None)
    /\ srvcert c' = srvcert c ++ certs /\ pkey c' = Some k
    /\ length (cert_pem c') = CERT_PEM /\ length (key_pem c') = KEY_PEM.
Proof.
  intros Hc Hk Hnc Hnk Ec Ek. unfold vtls_use_pem. rewrite Ec. cbn [Z.eqb negb]. rewrite Ek. cbn [Z.eqb negb].
  assert (forall l, NUL ∉ l -> last l <> Some NUL) as Hlast
    by (intros l Hn Hl; apply Hn; apply last_Some in Hl as [l' ->]; set_solver).
  destruct (keep_pem_text cert m (cert_pem c)) as (d & E & Hd & Ht); [by apply Hlast|].
  destruct (keep_pem_text key n (key_pem c)) as (d' & E' & Hd' & Ht'); [by apply Hlast|].
  cbn [cert_pem key_pem field_update]. rewrite E. cbn [mbind option_bind]. rewrite E'. cbn [mbind option_bind].
  eexists. split; [reflexivity|]. unfold vtls_cert_pem, vtls_key_pem. cbn.
  rewrite Hc in *. rewrite Hk in *. split_and!; [| |done..].
  - eapply (kept_text cert d); eauto.
  - eapply (kept_text key d'); eauto.
Qed.

(** ** A self-signed identity *)

Lemma parse_sans_Forall2 sans nodes :
  parse_sans sans = Some nodes -> Forall2 (fun s n => vtls_parse_san s = Some n) sans nodes.
Proof.
  revert nodes. induction sans as [|s sans IH]; cbn; intros nodes E.
  - by simplify_eq.
  - destruct (vtls_parse_san s) eqn:Es; [|done]. cbn in E.
    destruct (parse_sans sans); cbn in E; simplify_eq. constructor; auto.
Qed.

Lemma fix_serial_first b : 1 <= byte_val (byte_of_Z (Z.lor (Z.land (byte_val b) 0x7f) 0x01)) <= 127.
Proof. destruct b; vm_compute; split; congruence. Qed.

(** The content of a DER INTEGER: positive, and in the fewest octets (its first
    nine bits are not all equal). *)
Definition der_positive (l : list byte) : Prop :=
  match l with
  | [] => False
  | [b] => 1 <= byte_val b <= 127
  | b :: b' :: _ => (1 <= byte_val b <= 127) \/ (byte_val b = 0 /\ 128 <= byte_val b')
  end.

Lemma fix_serial_positive l : l <> [] -> der_positive (fix_serial l).
Proof.
  destruct l as [|b [|b' l]]; intros H; [done|cbn [fix_serial der_positive]; apply fix_serial_first|].
  cbn [fix_serial der_positive]. left. apply fix_serial_first.
Qed.

Lemma subject_cn_fits s cn : subject_cn s = Some cn ->
  exists value, cn = bytes_of "CN=" ++ value ++ bytes_of ",O=vanilla" /\ (length value <= 64)%nat
    /\ (value = s \/ exists i, find_byte COLON s = Some i /\ value = drop (S i) s).
Proof.
  unfold subject_cn. intros E.
  destruct (find_byte COLON s) as [i|] eqn:Ei; cbv beta iota zeta in E;
    match type of E with context [(64 <? length ?v)%nat] => exists v; destruct (Nat.ltb_spec 64 (length v)); [done|] end;
    (split; [|split; [done|eauto]]); simplify_eq; unfold snprintf; apply take_ge; rewrite !length_app; cbn; lia.
Qed.

(** when [use_self_signed] answers 0, the context's certificate is one
    whose names are the entries given, in order, whose subject is its issuer and
    carries the first entry's value untruncated, which is no CA, is for server
    authentication, and whose serial is a positive DER integer in its fewest
    octets, whatever the random bytes were. *)
Theorem self_signed_identity `{MbedConf} (sans : list (list byte)) (c c' : vtls_ctx) :
  psa_generate_random <> [] -> use_self_signed sans c = (0, c') ->
  exists wc der ret,
    write_crt_der wc = (ret, der) /\ crt_parse_der der = 0 /\ srvcert c' = srvcert c ++ [der]
    /\ Forall2 (fun s n => vtls_parse_san s = Some n) sans (wc_sans wc)
    /\ (1 <= length sans <= VTLS_MAX_SANS)%nat
    /\ wc_issuer wc = wc_subject wc
    /\ (exists value, wc_subject wc = bytes_of "CN=" ++ value ++ bytes_of ",O=vanilla" /\ (length value <= 64)%nat)
    /\ der_positive (wc_serial wc)
    /\ wc_is_ca wc = false /\ wc_server_auth wc = true
    /\ pkey c' = Some (wc_key wc) /\ wc_key wc = PkPsa (key_id c').
Proof.
  intros Hr E. unfold use_self_signed in E. destruct sans as [|s0 sans]; [done|].
  destruct (Nat.ltb_spec VTLS_MAX_SANS (length (s0 :: sans))) as [|Hlen]; [done|].
  destruct (parse_sans (s0 :: sans)) as [nodes|] eqn:Ep; [|done].
  destruct (subject_cn s0) as [cn|] eqn:Ecn; [|done].
  destruct psa_generate_key as [st id].
  set (wc := self_signed_cert (PkPsa id) cn nodes) in E.
  repeat match type of E with
  | context [if negb (?r =? 0) then _ else _] =>
      destruct (Z.eqb_spec r 0) as [?|]; cbn [negb] in E; [|simplify_eq; done]
  end.
  destruct (write_crt_der wc) as [ret der] eqn:Ed.
  destruct (ret <? 0) eqn:Eneg; [apply Z.ltb_lt in Eneg; simplify_eq; lia|].
  destruct (Z.eqb_spec (crt_parse_der der) 0) as [?|]; cbn [negb] in E; [|simplify_eq; done].
  destruct (pem_write_buffer der) as [[r1 pem] olen].
  destruct (Z.eqb_spec r1 0) as [?|]; cbn [negb] in E; [|simplify_eq; done].
  destruct (pk_write_key_pem (PkPsa id)) as [r2 kpem].
  destruct (Z.eqb_spec r2 0) as [?|]; cbn [negb] in E; [|simplify_eq; done].
  injection E as <-. exists wc, der, ret.
  destruct (subject_cn_fits _ _ Ecn) as (value & -> & Hv & _).
  split_and!; try done; [by apply parse_sans_Forall2|cbn; lia|by exists value|by apply fix_serial_positive].
Qed.

(** ** Checking the server's certificate *)

Lemma clear_cn_bit flags i :
  0 <= flags < 2 ^ 32 -> 0 <= i ->
  Z.testbit (clear_bit32 flags BADCERT_CN_MISMATCH) i = Z.testbit flags i && negb (i =? 2).
Proof.
  intros Hf Hi. unfold clear_bit32. rewrite Z.land_spec.
  change (Z.lxor 0xffffffff BADCERT_CN_MISMATCH) with (Z.ldiff (Z.ones 32) (2 ^ 2)).
  rewrite Z.ldiff_spec, Z.pow2_bits_eqb by lia.
  destruct (decide (i < 32)).
  - rewrite Z.ones_spec_low by lia. rewrite (Z.eqb_sym 2 i). done.
  - rewrite Z.ones_spec_high by lia. cbn. rewrite andb_false_r.
    assert (Z.testbit flags i = false) as ->; [|done].
    destruct (decide (flags = 0)) as [->|]; [apply Z.bits_0|].
    apply Z.bits_above_log2; [lia|]. apply Z.log2_lt_pow2; [lia|].
    eapply Z.lt_le_trans; [apply Hf|]. apply Z.pow_le_mono_r; lia.
Qed.

(** [verify_chain_only] forgives exactly the name mismatch of the server's
    own certificate: every other finding, and every finding on the rest of the
    chain, is kept. *)
Theorem chain_only_keeps_chain_errors (depth flags i : Z) :
  0 <= flags < 2 ^ 32 -> 0 <= i ->
  Z.testbit (verify_chain_only depth flags) i
  = Z.testbit flags i && negb ((depth =? 0) && (i =? 2)).
Proof.
  intros Hf Hi. unfold verify_chain_only. destruct (depth =? 0); cbn [andb].
  - by apply clear_cn_bit.
  - by rewrite andb_true_r.
Qed.

Section ClientChecks.
Context `{ML : MbedTLS} `{MC : MbedConf}.

Lemma verify_ip_san_loop_bit s flags sans :
  Z.testbit (verify_ip_san_loop s flags sans) 2 = Z.testbit flags 2 || negb (existsb (san_matches s) sans).
Proof.
  induction sans as [|e sans IH]; cbn [verify_ip_san_loop existsb].
  - by rewrite Z.lor_spec.
  - destruct (san_matches s e); cbn [orb negb]; [by rewrite orb_false_r|exact IH].
Qed.

Lemma san_matches_spec s e :
  san_matches s e = true <->
  Z.land (san_tag e) ASN1_TAG_VALUE_MASK = X509_SAN_IP_ADDRESS
  /\ san_buf e = take (peer_ip_len s) (peer_ip s) /\ length (san_buf e) = peer_ip_len s.
Proof.
  unfold san_matches. rewrite !andb_true_iff, Z.eqb_eq, Nat.eqb_eq, bool_decide_eq_true. tauto.
Qed.

Lemma ip_host_length gai host : (length (ip_host gai host) <= 16)%nat.
Proof.
  unfold ip_host. destruct (find_byte PERCENT host) as [n|].
  - destruct (_ <=? _)%nat; [cbn; lia|]. destruct (inet_pton6 _) as [a|] eqn:E; cbn; [|lia].
    apply inet_pton6_length in E. lia.
  - destruct (gai host) as [[f a]|]; [|cbn; lia].
    repeat destruct (_ =? _); try (rewrite length_take; lia). cbn. lia.
Qed.

(** What the certificate of the server must satisfy for a session to [host]. *)
Lemma client_session_peer gai setup c fd host cl :
  vtls_client_session_new gai setup c fd host = Some cl ->
  cl_hostname cl = (if (length (ip_host gai host) =? 0)%nat then Some host else None)
  /\ cl_verify_ip cl = negb (length (ip_host gai host) =? 0)%nat && (c_verify c =? VTLS_VERIFY_FULL)
  /\ peer_ip_len (cl_session cl) = length (ip_host gai host)
  /\ take (peer_ip_len (cl_session cl)) (peer_ip (cl_session cl)) = ip_host gai host
  /\ length (peer_ip (cl_session cl)) = 16%nat.
Proof.
  unfold vtls_client_session_new. destruct setup as [ret st].
  destruct (negb _); [done|]. intros [= <-]. split_and!; [done..| |].
  - cbn. apply take_app_length.
  - cbn. rewrite length_app, length_replicate. pose proof (ip_host_length gai host). lia.
Qed.

(** C12: under [VTLS_VERIFY_FULL] no server is accepted unchecked. The
    configuration requires a certificate chaining to a nonempty set of trusted
    ones, and forgives no name. A session to a DNS name gives that name to Mbed
    TLS; a session to an IP address gives none and checks the address itself:
    a certificate without a finding carries exactly that address as an
    iPAddress entry, and one that carries it gets no finding of this check. *)
Theorem full_verification_checks_host ca gai setup fd host (c : vtls_ctx) (cl : client_session) :
  ERR_X509_CERT_UNKNOWN_FORMAT < 0 ->
  client_setup ca VTLS_VERIFY_FULL vtls_ctx_new = (0, c) ->
  vtls_client_session_new gai setup c fd host = Some cl ->
  cachain c <> []
  /\ ConfVerifyRequired ∈ conf c /\ ConfCaChain ∈ conf c
  /\ (ConfVerifyNone ∉ conf c) /\ (ConfVerifyChainOnly ∉ conf c)
  /\ ((ip_host gai host = [] /\ cl_hostname cl = Some host)
      \/ (cl_hostname cl = None /\ cl_verify_ip cl = true
          /\ forall sans flags,
              Z.testbit (verify_ip_san (cl_session cl) sans 0 flags) 2 = false
              <-> (Z.testbit flags 2 = false
                  /\ exists e, e ∈ sans /\ Z.land (san_tag e) ASN1_TAG_VALUE_MASK = X509_SAN_IP_ADDRESS
                               /\ san_buf e = ip_host gai host))).
Proof.
  intros Hneg Hset Hnew. unfold client_setup in Hset.
  destruct (Z.eqb_spec ssl_config_defaults 0) as [_|]; cbn [negb] in Hset; [|simplify_eq; done].
  cbn [VTLS_VERIFY_FULL VTLS_VERIFY_NONE Z.eqb] in Hset.
  destruct (crt_parse_file ca) as [ret certs]. cbn in Hset.
  destruct (Z.ltb_spec ret 0); [simplify_eq; lia|].
  destruct certs as [|cert certs]; cbn in Hset.
  { simplify_eq. lia. }
  injection Hset as <-. destruct (client_session_peer _ _ _ _ _ _ Hnew) as (Hn & Hv & Hl & Hp & _).
  cbn [conf cachain]. split_and!; [done|by apply (bool_decide_unpack _); vm_compute..|].
  destruct (Nat.eqb_spec (length (ip_host gai host)) 0) as [Hz|Hz].
  - left. by apply length_zero_iff_nil in Hz.
  - right. split_and!; [done|done|]. intros sans flags.
    unfold verify_ip_san. cbn [Z.eqb negb]. rewrite verify_ip_san_loop_bit, orb_false_iff, negb_false_iff.
    rewrite existsb_exists. apply and_iff_compat_l. split.
    + intros (e & He%list_elem_of_In & (Ht & Hb & _)%san_matches_spec). rewrite Hp in Hb. by exists e.
    + intros (e & He & Ht & Hb). exists e. rewrite <- list_elem_of_In, san_matches_spec, Hp, Hl, Hb. done.
Qed.
End ClientChecks.

(** ** Tickets and kTLS *)

Section ServerConfig.
Context `{ML : MbedTLS} `{MC : MbedConf}.

(** The calls an application makes on a server's context, in any order. *)
Inductive server_op :=
| OpSelfSigned (sans : list (list byte))
| OpPem (cert key : list byte)
| OpSetup
| OpAlpn (protos : option (list byte))
| OpKtls (enabled : bool)
| OpRxNoPad (enabled : bool)
| OpTickets (n : Z).

Definition server_run (o : server_op) (c : vtls_ctx) : vtls_ctx :=
  match o with
  | OpSelfSigned sans => snd (use_self_signed sans c)
  | OpPem cert key => default c (snd <$> vtls_use_pem cert key c)
  | OpSetup => snd (setup c)
  | OpAlpn l => default c (snd <$> vtls_set_alpn l c)
  | OpKtls b => vtls_set_ktls b c
  | OpRxNoPad b => vtls_set_ktls_rx_no_pad b c
  | OpTickets n => snd (vtls_set_session_tickets n c)
  end.

(** The NewSessionTickets per handshake a configuration asks for: the defaults
    send one, the last [mbedtls_ssl_conf_new_session_tickets] decides. *)
Definition tickets_sent (calls : list conf_call) : Z :=
  fold_left (fun n call => match call with
                           | ConfServerDefaults | ConfClientDefaults => 1
                           | ConfNewSessionTickets m => m
                           | _ => n
                           end) calls 0.

#[local] Arguments tickets_sent : simpl never.

Definition tickets_known (c : vtls_ctx) : Prop := tickets_sent (conf c) = 0 \/ 0 < c_tickets c.

Lemma tickets_sent_app l l' :
  tickets_sent (l ++ l') = fold_left (fun n call => match call with
                           | ConfServerDefaults | ConfClientDefaults => 1
                           | ConfNewSessionTickets m => m
                           | _ => n
                           end) l' (tickets_sent l).
Proof. apply fold_left_app. Qed.

(** The identity functions touch neither the configuration nor the switches. *)
Lemma self_signed_conf sans c :
  conf (snd (use_self_signed sans c)) = conf c /\ c_tickets (snd (use_self_signed sans c)) = c_tickets c.
Proof.
  unfold use_self_signed. destruct sans; [done|].
  destruct (_ <? _)%nat; [done|]. destruct (parse_sans _); [|done]. destruct (subject_cn _); [|done].
  destruct psa_generate_key. repeat (destruct (negb _); [done|]).
  destruct (write_crt_der _). destruct (_ <? _); [done|]. destruct (negb _); [done|].
  destruct (pem_write_buffer _) as [[??]?]. destruct (negb _); [done|].
  destruct (pk_write_key_pem _). by destruct (negb _).
Qed.

Lemma use_pem_conf cert key c r c' :
  vtls_use_pem cert key c = Some (r, c') -> conf c' = conf c /\ c_tickets c' = c_tickets c.
Proof.
  unfold vtls_use_pem. destruct (crt_parse cert). destruct (negb _); [by intros [= _ <-]|].
  destruct (pk_parse_key key). destruct (negb _); [by intros [= _ <-]|].
  destruct (vtls_keep_pem cert _) as [[??]|]; [|done]. cbn.
  destruct (vtls_keep_pem key _) as [[??]|]; [|done]. cbn. by intros [= _ <-].
Qed.

Lemma server_run_tickets o c : tickets_known c -> tickets_known (server_run o c).
Proof.
  unfold tickets_known. intros Hc. destruct o as [sans|cert key| |l|b|b|n]; cbn [server_run].
  - destruct (self_signed_conf sans c) as [-> ->]. done.
  - destruct (vtls_use_pem cert key c) as [[r c']|] eqn:E; [|done].
    cbn. by destruct (use_pem_conf _ _ _ _ _ E) as [-> ->].
  - unfold setup. destruct (negb _); [done|]. left. cbn. by rewrite tickets_sent_app.
  - unfold vtls_set_alpn. destruct l as [l|]; [|done]. destruct (_ || _); [done|].
    destruct (memcpy_at _ _ _) as [buf|]; [|done]. cbn. destruct (alpn_scan _ _ _ _). cbn.
    by rewrite tickets_sent_app.
  - done.
  - done.
  - unfold vtls_set_session_tickets. destruct ((n <? 0) || (0xffff <? n)) eqn:En; [done|].
    apply orb_false_iff in En as [Hn%Z.ltb_ge _].
    destruct ((0 <? n) && negb (ticket_ready c)); [destruct (ssl_ticket_setup =? 0)|];
      cbn; rewrite ?tickets_sent_app; cbn; try done;
      (destruct (decide (n = 0)) as [->|]; [by left|right; lia]).
Qed.

(** A server session that may move to kTLS comes from a configuration that
    sends no NewSessionTicket, whatever calls made the context, in whatever
    order and with whatever errors: the kernel's record sequence 0 is right. *)
Theorem ktls_sessions_send_no_tickets (ops : list server_op) ssl_setup fd (s : vtls_session) :
  vtls_session_new ssl_setup (fold_left (fun c o => server_run o c) ops vtls_ctx_new) fd = Some s ->
  tickets s = false ->
  tickets_sent (conf (fold_left (fun c o => server_run o c) ops vtls_ctx_new)) = 0.
Proof.
  assert (tickets_known (fold_left (fun c o => server_run o c) ops vtls_ctx_new)) as Hk.
  { assert (tickets_known vtls_ctx_new) as H0 by by left. revert H0. generalize vtls_ctx_new.
    induction ops as [|o ops IH]; intros c Hc; [done|]. by apply IH, server_run_tickets. }
  unfold vtls_session_new. destruct ssl_setup as [ret st]. destruct (negb _); [done|].
  intros [= <-]. cbn [tickets session_init field_update]. intros Ht%Z.ltb_ge.
  destruct Hk; [done|lia].
Qed.
End ServerConfig.

(** ** Error texts *)

Section ErrorTexts.
Context `{ML : MbedTLS} `{MC : MbedConf}.

Lemma join_lines_no_newline l : NEWLINE ∉ join_lines l.
Proof.
  induction l as [|b l IH]; cbn [join_lines]; [apply not_elem_of_nil|].
  rewrite not_elem_of_cons. split; [|done].
  destruct (decide (b = NEWLINE)); [destruct l; by vm_compute|congruence].
Qed.

Lemma until_nul_incl l x : x ∈ until_nul l -> x ∈ l.
Proof.
  induction l as [|b l IH]; cbn; [done|]. destruct (decide (b = NUL)).
  - by intros ?%not_elem_of_nil.
  - rewrite !elem_of_cons. intuition.
Qed.

Lemma snprintf_spec len text x : x ∈ snprintf len text -> x ∈ text.
Proof. unfold snprintf. apply subseteq_take. Qed.

Lemma verdict_no_newline flags : NEWLINE ∉ verdict flags.
Proof. unfold verdict. repeat destruct (negb _); by apply (bool_decide_unpack _). Qed.

(** the text of a failed certificate check is one line that fits the
    caller's buffer with its NUL, and begins with the verdict as far as the
    buffer goes, whatever findings Mbed TLS words over how many lines. *)
Theorem handshake_error_one_line (s : vtls_session) (len : nat) :
  vtls_verify_failed s = true ->
  ssl_get_verify_result (ssl s) <> 0 -> ssl_get_verify_result (ssl s) <> 0xffffffff -> (0 < len)%nat ->
  (NEWLINE ∉ vtls_handshake_error s len)
  /\ (length (vtls_handshake_error s len) < len)%nat
  /\ take (length (verdict (ssl_get_verify_result (ssl s)))) (vtls_handshake_error s len)
     = take (pred len) (verdict (ssl_get_verify_result (ssl s))).
Proof.
  intros Hf H0 H1 Hlen. unfold vtls_handshake_error. unfold vtls_verify_failed in Hf. rewrite Hf.
  rewrite (proj2 (Z.eqb_neq _ _) H0), (proj2 (Z.eqb_neq _ _) H1). cbn [negb andb]. split_and!.
  - intros Hin%snprintf_spec. rewrite !elem_of_app in Hin. destruct Hin as [Hin|[Hin|Hin]].
    + by apply verdict_no_newline in Hin.
    + revert Hin. by apply (bool_decide_unpack _).
    + by apply until_nul_incl, join_lines_no_newline in Hin.
  - unfold snprintf. rewrite length_take. lia.
  - unfold snprintf. rewrite take_take, Nat.min_comm, <- take_take, take_app_length. done.
Qed.
End ErrorTexts.

(** ** Instances *)

(** A library that accepts everything, for the witnesses. *)
#[export] Instance ToyConf : MbedConf := {
  psa_crypto_init := 0;
  psa_generate_key := (0, 1);
  psa_generate_random := replicate 12 (byte_of_Z 0x80);
  pk_wrap_psa _ := 0;
  write_set_subject_name _ := 0;
  write_set_issuer_name _ := 0;
  write_set_serial_raw _ := 0;
  write_set_sans _ := 0;
  write_set_basic_constraints := 0;
  write_set_key_usage := 0;
  write_set_ext_key_usage := 0;
  write_crt_der wc := (Z.of_nat (length (wc_subject wc)), wc_subject wc);
  crt_parse_der _ := 0;
  pem_write_buffer der := (0, der, length der);
  pk_write_key_pem _ := (0, bytes_of "KEY" ++ [NUL]);
  crt_parse b := (0, [b]);
  pk_parse_key b := (0, PkParsed b);
  crt_parse_file b := (0, [b]);
  ssl_config_defaults := 0;
  ssl_conf_own_cert := 0;
  ssl_conf_alpn_protocols _ := 0;
  ssl_ticket_setup := 0;
  ssl_set_hostname _ := 0;
  crt_verify_info _ := (4, bytes_of "bad" ++ [NEWLINE]);
  mbedtls_strerror _ := bytes_of "error";
  ERR_SSL_BAD_INPUT_DATA := -0x7100;
  ERR_X509_CERT_UNKNOWN_FORMAT := -0x2780
}.

Definition toy_gai (host : list byte) : option (Z * list byte) := (fun a => (AF_INET, a)) <$> inet_pton4 host.

Lemma set_alpn_names_witness :
  exists c', vtls_set_alpn (Some (bytes_of "h2,http/1.1")) vtls_ctx_new
             = Some (ssl_conf_alpn_protocols (split_commas 3 (bytes_of "h2,http/1.1")), c')
    /\ conf c' = conf vtls_ctx_new ++ [ConfAlpn (split_commas 3 (bytes_of "h2,http/1.1"))]
    /\ cstr_at (alpn_buf c') <$> alpn c' = split_commas 3 (bytes_of "h2,http/1.1")
    /\ length (alpn_buf c') = ALPN_BUF
    /\ (length (alpn c') <= ALPN_MAX)%nat
    /\ Forall (fun p => p < ALPN_BUF)%nat (alpn c').
Proof.
  apply (set_alpn_names vtls_ctx_new (bytes_of "h2,http/1.1")).
  - reflexivity.
  - by apply (bool_decide_unpack _).
  - by apply (bool_decide_unpack _).
Defined.

Lemma use_pem_roundtrip_witness :
  exists c', vtls_use_pem (bytes_of "CERT" ++ replicate 1 NUL) (bytes_of "KEY" ++ replicate 2 NUL) vtls_ctx_new
             = Some (0, c')
    /\ vtls_cert_pem c' = (if bool_decide (0 < length (bytes_of "CERT") < CERT_PEM)%nat
                           then Some (bytes_of "CERT") else None)
    /\ vtls_key_pem c' = (if bool_decide (0 < length (bytes_of "KEY") < KEY_PEM)%nat
                          then Some (bytes_of "KEY") else None)
    /\ srvcert c' = srvcert vtls_ctx_new ++ [bytes_of "CERT" ++ replicate 1 NUL]
    /\ pkey c' = Some (PkParsed (bytes_of "KEY" ++ replicate 2 NUL))
    /\ length (cert_pem c') = CERT_PEM /\ length (key_pem c') = KEY_PEM.
Proof.
  apply (use_pem_roundtrip vtls_ctx_new (bytes_of "CERT") (bytes_of "KEY") 1 2
           (PkParsed (bytes_of "KEY" ++ replicate 2 NUL)) [bytes_of "CERT" ++ replicate 1 NUL]).
  - apply length_replicate.
  - apply length_replicate.
  - by apply (bool_decide_unpack _).
  - by apply (bool_decide_unpack _).
  - reflexivity.
  - reflexivity.
Defined.

Lemma self_signed_identity_witness :
  exists c' wc der ret,
    use_self_signed [bytes_of "DNS:localhost"; bytes_of "IP:::1"] vtls_ctx_new = (0, c')
    /\ write_crt_der wc = (ret, der) /\ crt_parse_der der = 0 /\ srvcert c' = srvcert vtls_ctx_new ++ [der]
    /\ Forall2 (fun s n => vtls_parse_san s = Some n)
        [bytes_of "DNS:localhost"; bytes_of "IP:::1"] (wc_sans wc) /\ der_positive (wc_serial wc).
Proof.
  destruct (self_signed_identity [bytes_of "DNS:localhost"; bytes_of "IP:::1"] vtls_ctx_new
              (snd (use_self_signed [bytes_of "DNS:localhost"; bytes_of "IP:::1"] vtls_ctx_new)))
    as (wc & der & ret & Hw & Hd & Hs & Hf & _ & _ & _ & Hp & _).
  - discriminate.
  - vm_compute. reflexivity.
  - exists (snd (use_self_signed [bytes_of "DNS:localhost"; bytes_of "IP:::1"] vtls_ctx_new)), wc, der, ret.
    split; [vm_compute; reflexivity|]. exact (conj Hw (conj Hd (conj Hs (conj Hf Hp)))).
Defined.

Lemma chain_only_keeps_chain_errors_witness :
  Z.testbit (verify_chain_only 0 0x0c) 3 = Z.testbit 0x0c 3 && negb ((0 =? 0) && (3 =? 2)).
Proof. apply (chain_only_keeps_chain_errors 0 0x0c 3); lia. Defined.

(** A client that checks the address 10.0.0.1. *)
Definition toy_checked : vtls_ctx := snd (client_setup (bytes_of "ca.pem") VTLS_VERIFY_FULL vtls_ctx_new).

Definition toy_checked_session : client_session (ML := ToyTLS) :=
  default (mkClient (ML := ToyTLS) (session_calloc (ML := ToyTLS) toy0) None false)
    (vtls_client_session_new (ML := ToyTLS) toy_gai (0, toy0) toy_checked 5 (bytes_of "10.0.0.1")).

Lemma full_verification_checks_host_witness :
  cachain toy_checked <> []
  /\ ConfVerifyRequired ∈ conf toy_checked /\ ConfCaChain ∈ conf toy_checked
  /\ (ConfVerifyNone ∉ conf toy_checked) /\ (ConfVerifyChainOnly ∉ conf toy_checked)
  /\ ((ip_host toy_gai (bytes_of "10.0.0.1") = [] /\ cl_hostname toy_checked_session = Some (bytes_of "10.0.0.1"))
      \/ (cl_hostname toy_checked_session = None /\ cl_verify_ip toy_checked_session = true
          /\ forall sans flags,
              Z.testbit (verify_ip_san (cl_session toy_checked_session) sans 0 flags) 2 = false
              <-> (Z.testbit flags 2 = false
                  /\ exists e, e ∈ sans /\ Z.land (san_tag e) ASN1_TAG_VALUE_MASK = X509_SAN_IP_ADDRESS
                               /\ san_buf e = ip_host toy_gai (bytes_of "10.0.0.1")))).
Proof.
  apply (full_verification_checks_host (ML := ToyTLS) (bytes_of "ca.pem") toy_gai (0, toy0) 5 (bytes_of "10.0.0.1")
           toy_checked toy_checked_session).
  - reflexivity.
  - reflexivity.
  - vm_compute. reflexivity.
Defined.

Lemma ktls_sessions_send_no_tickets_witness :
  tickets_sent (conf (fold_left (fun c o => server_run o c) [OpTickets 2; OpSetup; OpTickets 0] vtls_ctx_new)) = 0.
Proof.
  apply (ktls_sessions_send_no_tickets (ML := ToyTLS) [OpTickets 2; OpSetup; OpTickets 0] (0, toy0) 5
           (session_init (ML := ToyTLS) toy0 5 false false false)).
  - vm_compute. reflexivity.
  - reflexivity.
Defined.

(** A session whose handshake failed on the certificate. *)
Definition toy_refused : vtls_session :=
  (cl_session toy_checked_session) <| last_err := ERR_X509_CERT_VERIFY_FAILED |>.

Lemma handshake_error_one_line_witness :
  (NEWLINE ∉ vtls_handshake_error toy_refused 256)
  /\ (length (vtls_handshake_error toy_refused 256) < 256)%nat
  /\ take (length (verdict (ssl_get_verify_result (ssl toy_refused)))) (vtls_handshake_error toy_refused 256)
     = take (pred 256) (verdict (ssl_get_verify_result (ssl toy_refused))).
Proof.
  apply (handshake_error_one_line toy_refused 256).
  - vm_compute. reflexivity.
  - vm_compute. discriminate.
  - vm_compute. discriminate.
  - lia.
Defined.
