(* ===== verification/WireBytes.v ===== *)
(** Fixed-width integers on the wire: big-endian byte strings, machine widths,
    and the shift-and-or idioms the codecs read and write them with. *)
From S2P Require Import Prelude.
Local Open Scope Z_scope.

(** ** Widths *)

Definition u8 (x : Z) : Z := x mod 2 ^ 8.
Definition u16 (x : Z) : Z := x mod 2 ^ 16.
Definition u32 (x : Z) : Z := x mod 2 ^ 32.
Definition u64w (x : Z) : Z := x mod 2 ^ 64.

(** ** Big-endian byte strings *)

(** The [n] low bytes of [v], the most significant first. *)
Fixpoint be_bytes (n : nat) (v : Z) : list byte :=
  match n with
  | O => []
  | S n' => be_bytes n' (v / 256) ++ [byte_of_Z v]
  end.

Definition be_val (l : list byte) : Z := foldl (fun v b => v * 256 + byte_val b) 0 l.

Lemma be_val_snoc l b : be_val (l ++ [b]) = be_val l * 256 + byte_val b.
Proof. unfold be_val. by rewrite foldl_app. Qed.

Lemma length_be_bytes n v : length (be_bytes n v) = n.
Proof. revert v. induction n as [|n IH]; intros v; cbn; [done|]. rewrite length_app, IH. cbn. lia. Qed.

Lemma be_val_range l : 0 <= be_val l < 256 ^ Z.of_nat (length l).
Proof.
  induction l as [|b l IH] using rev_ind; [done|].
  rewrite be_val_snoc, length_app. cbn [length]. pose proof (byte_val_range b).
  rewrite Nat2Z.inj_add, Z.pow_add_r by lia. change (256 ^ Z.of_nat 1) with 256. lia.
Qed.

Lemma be_val_be_bytes n v : be_val (be_bytes n v) = v mod 256 ^ Z.of_nat n.
Proof.
  revert v. induction n as [|n IH]; intros v; cbn [be_bytes]; [by rewrite Z.mod_1_r|].
  rewrite be_val_snoc, IH, byte_val_of_Z, Nat2Z.inj_succ, Z.pow_succ_r by lia.
  rewrite (Z.rem_mul_r v 256) by lia. lia.
Qed.

Lemma be_val_be_bytes_small n v : 0 <= v < 256 ^ Z.of_nat n -> be_val (be_bytes n v) = v.
Proof. intros H. rewrite be_val_be_bytes. by apply Z.mod_small. Qed.

Lemma byte_of_Z_add_256 k v : byte_of_Z (k * 256 + v) = byte_of_Z v.
Proof. unfold byte_of_Z. by rewrite Z.add_comm, Z_mod_plus_full. Qed.

Lemma be_bytes_be_val l : be_bytes (length l) (be_val l) = l.
Proof.
  induction l as [|b l IH] using rev_ind; [done|].
  rewrite length_app, Nat.add_1_r, be_val_snoc. cbn [be_bytes].
  rewrite byte_of_Z_add_256, byte_of_Z_val. pose proof (byte_val_range b).
  rewrite Z.div_add_l, Z.div_small, Z.add_0_r, IH by lia. done.
Qed.

Lemma be_bytes_be_val_eq n l : length l = n -> be_bytes n (be_val l) = l.
Proof. intros <-. apply be_bytes_be_val. Qed.

Lemma be_bytes_cons n v : be_bytes (S n) v = byte_of_Z (v / 256 ^ Z.of_nat n) :: be_bytes n v.
Proof.
  revert v. induction n as [|n IH]; intros v; [cbn; by rewrite Z.div_1_r|].
  change (be_bytes (S (S n)) v) with (be_bytes (S n) (v / 256) ++ [byte_of_Z v]). rewrite IH.
  rewrite Z.div_div by (lia || apply Z.pow_pos_nonneg; lia). rewrite <- Z.pow_succ_r, <- Nat2Z.inj_succ by lia. done.
Qed.

Lemma be_bytes_inj n v w :
  0 <= v < 256 ^ Z.of_nat n -> 0 <= w < 256 ^ Z.of_nat n -> be_bytes n v = be_bytes n w -> v = w.
Proof.
  intros Hv Hw E. by rewrite <- (be_val_be_bytes_small n v), <- (be_val_be_bytes_small n w), E.
Qed.

(** ** Shift-and-or *)

(** A shifted value and one below the shift share no bit. *)
Lemma lor_shiftl a b k : 0 <= k -> 0 <= b < 2 ^ k -> Z.lor (Z.shiftl a k) b = a * 2 ^ k + b.
Proof.
  intros Hk Hb. rewrite <- Z.add_nocarry_lor; [rewrite Z.shiftl_mul_pow2; lia|].
  apply Z.bits_inj'. intros n Hn. rewrite Z.land_spec, Z.bits_0.
  destruct (Z.ltb_spec n k); [by rewrite Z.shiftl_spec_low by lia|].
  destruct (decide (b = 0)) as [->|Hz]; [by rewrite Z.bits_0, andb_false_r|].
  assert (Hl : Z.log2 b < n) by (enough (Z.log2 b < k) by lia; apply Z.log2_lt_pow2; lia).
  by rewrite (Z.bits_above_log2 b n), andb_false_r by lia.
Qed.

Lemma lor_mul_pow2 a b k : 0 <= k -> 0 <= b < 2 ^ k -> Z.lor (a * 2 ^ k) b = a * 2 ^ k + b.
Proof. intros Hk Hb. rewrite <- (lor_shiftl a b k Hk Hb), Z.shiftl_mul_pow2 by done. done. Qed.

Lemma lor_shiftl_byte a b : Z.lor (Z.shiftl a 8) (byte_val b) = a * 256 + byte_val b.
Proof. apply (lor_shiftl a (byte_val b) 8); [lia | apply byte_val_range]. Qed.

(** [byte_of_Z] takes the low eight bits. *)
Lemma byte_of_Z_u8 v : byte_of_Z (u8 v) = byte_of_Z v.
Proof. unfold byte_of_Z, u8. by rewrite Z.mod_mod. Qed.

Lemma byte_of_land_ff v : byte_of_Z (Z.land v 0xff) = byte_of_Z v.
Proof. change 0xff with (Z.ones 8). rewrite Z.land_ones by lia. apply byte_of_Z_u8. Qed.

Lemma byte_val_of_Z_small v : 0 <= v < 256 -> byte_val (byte_of_Z v) = v.
Proof. intros H. rewrite byte_val_of_Z. by apply Z.mod_small. Qed.

Lemma shiftr_8 v : Z.shiftr v 8 = v / 256.
Proof. by rewrite Z.shiftr_div_pow2. Qed.

Lemma shiftr_16 v : Z.shiftr v 16 = v / 256 / 256.
Proof. rewrite Z.shiftr_div_pow2, Z.div_div by lia. done. Qed.

Lemma shiftr_24 v : Z.shiftr v 24 = v / 256 / 256 / 256.
Proof. rewrite Z.shiftr_div_pow2, !Z.div_div by lia. done. Qed.

(** [land] with a mask of low ones, and a single high bit. *)
Lemma land_ones_small v k : 0 <= k -> 0 <= v < 2 ^ k -> Z.land v (Z.ones k) = v.
Proof. intros Hk Hv. rewrite Z.land_ones by lia. by apply Z.mod_small. Qed.

Lemma lor_high_bit v k : 0 <= k -> 0 <= v < 2 ^ k -> Z.lor (2 ^ k) v = 2 ^ k + v.
Proof.
  intros Hk Hv. replace (2 ^ k) with (Z.shiftl 1 k) at 1 by (rewrite Z.shiftl_mul_pow2; lia).
  rewrite lor_shiftl by lia. lia.
Qed.

(** A shift-and-or fold over bytes is the big-endian value. *)
Lemma foldl_lor_be l v :
  foldl (fun v b => Z.lor (Z.shiftl v 8) (byte_val b)) v l = v * 256 ^ Z.of_nat (length l) + be_val l.
Proof.
  induction l as [|b l IH] using rev_ind; [cbn; lia|].
  rewrite foldl_app. cbn [foldl]. rewrite IH, lor_shiftl_byte, be_val_snoc, length_app. cbn [length].
  rewrite Nat2Z.inj_add, Z.pow_add_r by lia. change (256 ^ Z.of_nat 1) with 256. lia.
Qed.

(** Facts about one byte, by cases on it. *)
Lemma byte_cases (P : byte -> bool) : forallb P (byte_of_Z <$> seqZ 0 256) = true -> forall b, P b = true.
Proof.
  intros H b. rewrite forallb_forall in H. apply H, list_elem_of_In, list_elem_of_fmap.
  exists (byte_val b). rewrite byte_of_Z_val, elem_of_seqZ. pose proof (byte_val_range b). split; [done | lia].
Qed.

Lemma byte_high_bit b : (Z.land (byte_val b) 0x80 =? 0) = (byte_val b <? 128).
Proof.
  apply eqb_prop. revert b. apply byte_cases. vm_compute. reflexivity.
Qed.

Lemma byte_low7 b : Z.land (byte_val b) 0x7f = byte_val b mod 128.
Proof. change 0x7f with (Z.ones 7). by rewrite Z.land_ones by lia. Qed.
