(* ===== verification/H2Frame.v ===== *)
(** HTTP/2 frames: http2/frame.v and the types of http2/types.v. Frames are
    byte strings; a writer returns its buffer with the frame appended. *)
From S2P Require Import Prelude WireBytes.
Local Open Scope Z_scope.

Inductive FrameType :=
| FtData | FtHeaders | FtPriority | FtRstStream | FtSettings | FtPushPromise | FtPing | FtGoaway
| FtWindowUpdate | FtContinuation.

Definition frame_type_code (t : FrameType) : Z :=
  match t with
  | FtData => 0x0 | FtHeaders => 0x1 | FtPriority => 0x2 | FtRstStream => 0x3 | FtSettings => 0x4
  | FtPushPromise => 0x5 | FtPing => 0x6 | FtGoaway => 0x7 | FtWindowUpdate => 0x8 | FtContinuation => 0x9
  end.

Inductive ErrorCode :=
| NoError | ProtocolError | InternalError | FlowControlError | SettingsTimeout | StreamClosed
| FrameSizeError | RefusedStream | Cancel | CompressionError | ConnectError | EnhanceYourCalm
| InadequateSecurity | Http11Required.

#[export] Instance ErrorCode_eq_dec : EqDecision ErrorCode.
Proof. solve_decision. Defined.

Definition error_code (e : ErrorCode) : Z :=
  match e with
  | NoError => 0x0 | ProtocolError => 0x1 | InternalError => 0x2 | FlowControlError => 0x3
  | SettingsTimeout => 0x4 | StreamClosed => 0x5 | FrameSizeError => 0x6 | RefusedStream => 0x7
  | Cancel => 0x8 | CompressionError => 0x9 | ConnectError => 0xa | EnhanceYourCalm => 0xb
  | InadequateSecurity => 0xc | Http11Required => 0xd
  end.

(** [type_] is the wire value: an unknown type keeps its number. *)
Record FrameHeader := mkHeader { fh_length : Z; fh_type : Z; fh_flags : Z; fh_stream_id : Z }.

Record Setting := mkSetting { set_id : Z; set_val : Z }.

Definition frame_header_len : nat := 9.
Definition flag_end_stream : Z := 0x01.
Definition flag_ack : Z := 0x01.

(** ** Reading *)

(** An array read; [None] outside of the array. *)
Definition at_ (data : list byte) (i : nat) : option Z := byte_val <$> data !! i.

Definition parse_frame_header (data : list byte) : option (FrameHeader + string) :=
  if (length data <? frame_header_len)%nat then Some (inr "Frame header too short"%string)
  else
    d0 ← at_ data 0; d1 ← at_ data 1; d2 ← at_ data 2;
    type_ ← at_ data 3;
    flags ← at_ data 4;
    d5 ← at_ data 5; d6 ← at_ data 6; d7 ← at_ data 7; d8 ← at_ data 8;
    let length := Z.lor (Z.lor (Z.shiftl d0 16) (Z.shiftl d1 8)) d2 in
    let stream_id := Z.lor (Z.lor (Z.lor (Z.shiftl d5 24) (Z.shiftl d6 16)) (Z.shiftl d7 8)) d8 in
    Some (inl (mkHeader length type_ flags (Z.land stream_id 0x7FFFFFFF))).

Definition read_u32 (buf : list byte) (pos : nat) : option Z :=
  b0 ← at_ buf pos; b1 ← at_ buf (pos + 1); b2 ← at_ buf (pos + 2); b3 ← at_ buf (pos + 3);
  Some (Z.lor (Z.lor (Z.lor (Z.shiftl b0 24) (Z.shiftl b1 16)) (Z.shiftl b2 8)) b3).

(** [for pos := 0; pos < payload.len; pos += 6]: [n] rounds are left. *)
Fixpoint settings_loop (n : nat) (payload : list byte) (pos : nat) (out : list Setting) : option (list Setting) :=
  match n with
  | O => Some out
  | S n' =>
      b0 ← at_ payload pos; b1 ← at_ payload (pos + 1);
      val ← read_u32 payload (pos + 2);
      settings_loop n' payload (pos + 6) (out ++ [mkSetting (Z.lor (u16 (Z.shiftl b0 8)) b1) val])
  end.

Definition parse_settings (payload : list byte) : option (list Setting + string) :=
  if negb (length payload mod 6 =? 0)%nat then Some (inr "SETTINGS payload not a multiple of 6"%string)
  else inl <$> settings_loop (length payload / 6) payload 0 [].

(** ** Writing *)

Definition write_frame_header (out : list byte) (type_ : FrameType) (flags stream_id length : Z) : list byte :=
  out ++ [byte_of_Z (Z.land (Z.shiftr length 16) 0xff);
          byte_of_Z (Z.land (Z.shiftr length 8) 0xff);
          byte_of_Z (Z.land length 0xff);
          byte_of_Z (frame_type_code type_);
          byte_of_Z flags;
          byte_of_Z (Z.land (Z.shiftr stream_id 24) 0x7f);
          byte_of_Z (Z.land (Z.shiftr stream_id 16) 0xff);
          byte_of_Z (Z.land (Z.shiftr stream_id 8) 0xff);
          byte_of_Z (Z.land stream_id 0xff)].

Definition write_u32 (out : list byte) (v : Z) : list byte :=
  out ++ [byte_of_Z (Z.shiftr v 24); byte_of_Z (Z.land (Z.shiftr v 16) 0xff);
          byte_of_Z (Z.land (Z.shiftr v 8) 0xff); byte_of_Z (Z.land v 0xff)].

Definition write_setting (out : list byte) (s : Setting) : list byte :=
  write_u32 (out ++ [byte_of_Z (Z.shiftr (set_id s) 8); byte_of_Z (Z.land (set_id s) 0xff)]) (set_val s).

Definition write_settings (out : list byte) (settings : list Setting) : list byte :=
  foldl write_setting (write_frame_header out FtSettings 0 0 (Z.of_nat (length settings) * 6)) settings.

Definition write_settings_ack (out : list byte) : list byte := write_frame_header out FtSettings flag_ack 0 0.

Definition write_ping_ack (out opaque : list byte) : list byte :=
  write_frame_header out FtPing flag_ack 0 8 ++ opaque.

Definition write_goaway (out : list byte) (last_stream_id : Z) (code : ErrorCode) : list byte :=
  write_u32 (write_u32 (write_frame_header out FtGoaway 0 0 8) (Z.land last_stream_id 0x7fffffff)) (error_code code).

Definition write_rst_stream (out : list byte) (stream_id : Z) (code : ErrorCode) : list byte :=
  write_u32 (write_frame_header out FtRstStream 0 stream_id 4) (error_code code).

Definition write_window_update (out : list byte) (stream_id increment : Z) : list byte :=
  write_u32 (write_frame_header out FtWindowUpdate 0 stream_id 4) (Z.land increment 0x7fffffff).

Definition write_data_header (out : list byte) (stream_id length : Z) (end_stream : bool) : list byte :=
  write_frame_header out FtData (if end_stream then flag_end_stream else 0) stream_id length.

(** ** The layout *)

(** A header as RFC 9113 lays it out: a 24-bit length, the type, the flags, and
    a 31-bit stream identifier behind a reserved bit. *)
Definition header_bytes (h : FrameHeader) : list byte :=
  be_bytes 3 (fh_length h) ++ [byte_of_Z (fh_type h); byte_of_Z (fh_flags h)] ++ be_bytes 4 (fh_stream_id h).

Record header_ok (h : FrameHeader) : Prop := {
  ok_length : 0 <= fh_length h < 2 ^ 24;
  ok_type : 0 <= fh_type h < 256;
  ok_flags : 0 <= fh_flags h < 256;
  ok_stream : 0 <= fh_stream_id h < 2 ^ 31
}.

Definition setting_bytes (s : Setting) : list byte := be_bytes 2 (set_id s) ++ be_bytes 4 (set_val s).

Definition setting_ok (s : Setting) : Prop := 0 <= set_id s < 2 ^ 16 /\ 0 <= set_val s < 2 ^ 32.

Lemma read4 (b0 b1 b2 b3 : byte) :
  Z.lor (Z.lor (Z.lor (Z.shiftl (byte_val b0) 24) (Z.shiftl (byte_val b1) 16)) (Z.shiftl (byte_val b2) 8)) (byte_val b3)
  = be_val [b0; b1; b2; b3].
Proof.
  pose proof (byte_val_range b0). pose proof (byte_val_range b1). pose proof (byte_val_range b2).
  assert (Z.lor (Z.lor (Z.shiftl (byte_val b0) 24) (Z.shiftl (byte_val b1) 16)) (Z.shiftl (byte_val b2) 8)
          = Z.shiftl (Z.lor (Z.shiftl (Z.lor (Z.shiftl (byte_val b0) 8) (byte_val b1)) 8) (byte_val b2)) 8) as ->.
  { rewrite !Z.shiftl_lor, !Z.shiftl_shiftl by lia. done. }
  rewrite !lor_shiftl_byte. done.
Qed.

Lemma read3 (b0 b1 b2 : byte) :
  Z.lor (Z.lor (Z.shiftl (byte_val b0) 16) (Z.shiftl (byte_val b1) 8)) (byte_val b2) = be_val [b0; b1; b2].
Proof.
  assert (Z.lor (Z.shiftl (byte_val b0) 16) (Z.shiftl (byte_val b1) 8)
          = Z.shiftl (Z.lor (Z.shiftl (byte_val b0) 8) (byte_val b1)) 8) as ->.
  { rewrite Z.shiftl_lor, Z.shiftl_shiftl by lia. done. }
  by rewrite !lor_shiftl_byte.
Qed.

Lemma read2 (b0 b1 : byte) : Z.lor (u16 (Z.shiftl (byte_val b0) 8)) (byte_val b1) = be_val [b0; b1].
Proof.
  pose proof (byte_val_range b0). unfold u16. rewrite Z.mod_small by (rewrite Z.shiftl_mul_pow2; lia).
  by rewrite lor_shiftl_byte.
Qed.

Lemma write_u32_bytes out v : write_u32 out v = out ++ be_bytes 4 v.
Proof.
  unfold write_u32. rewrite !byte_of_land_ff, shiftr_8, shiftr_16, shiftr_24. done.
Qed.

(** The top byte of a 31-bit number has its high bit clear. *)
Lemma top_31 v : 0 <= v < 2 ^ 31 -> Z.land (v / 256 / 256 / 256) 0x7f = v / 256 / 256 / 256.
Proof.
  intros H. change 0x7f with (Z.ones 7). apply land_ones_small; [lia|].
  rewrite !Z.div_div by lia. split; [apply Z.div_pos; lia | apply Z.div_lt_upper_bound; lia].
Qed.

Lemma write_header_bytes out t flags sid len :
  0 <= sid < 2 ^ 31 ->
  write_frame_header out t flags sid len = out ++ header_bytes (mkHeader len (frame_type_code t) flags sid).
Proof.
  intros H. unfold write_frame_header, header_bytes. cbn [fh_length fh_type fh_flags fh_stream_id].
  rewrite !byte_of_land_ff, !shiftr_8, !shiftr_16, shiftr_24, top_31 by done. done.
Qed.

Lemma length_header_bytes h : length (header_bytes h) = frame_header_len.
Proof. unfold header_bytes. rewrite !length_app, !length_be_bytes. done. Qed.

Lemma parse_header_shape (d0 d1 d2 t f d5 d6 d7 d8 : byte) rest :
  parse_frame_header (d0 :: d1 :: d2 :: t :: f :: d5 :: d6 :: d7 :: d8 :: rest)
  = Some (inl (mkHeader (be_val [d0; d1; d2]) (byte_val t) (byte_val f)
                        (be_val [d5; d6; d7; d8] mod 2 ^ 31))).
Proof.
  unfold parse_frame_header, at_. cbn -[Z.lor Z.shiftl Z.land be_val byte_val]. rewrite read3, read4.
  change 2147483647 with (Z.ones 31). rewrite Z.land_ones by lia. done.
Qed.

Lemma parse_header_bytes h rest :
  header_ok h -> parse_frame_header (header_bytes h ++ rest) = Some (inl h).
Proof.
  intros [Hl Ht Hf Hs]. destruct h as [l t f s]. cbn in Hl, Ht, Hf, Hs.
  unfold header_bytes. cbn [fh_length fh_type fh_flags fh_stream_id].
  change (be_bytes 3 l) with [byte_of_Z (l / 256 / 256); byte_of_Z (l / 256); byte_of_Z l].
  change (be_bytes 4 s) with ([byte_of_Z (s / 256 / 256 / 256); byte_of_Z (s / 256 / 256); byte_of_Z (s / 256); byte_of_Z s]).
  cbn [app].
  rewrite (parse_header_shape _ _ _ _ _ _ _ _ _ rest), !byte_val_of_Z_small by lia.
  change [byte_of_Z (l / 256 / 256); byte_of_Z (l / 256); byte_of_Z l] with (be_bytes 3 l).
  change [byte_of_Z (s / 256 / 256 / 256); byte_of_Z (s / 256 / 256); byte_of_Z (s / 256); byte_of_Z s] with (be_bytes 4 s).
  rewrite !be_val_be_bytes_small by (cbn; lia). rewrite Z.mod_small by lia. done.
Qed.

(** ** Settings *)

Lemma write_setting_bytes out s : write_setting out s = out ++ setting_bytes s.
Proof.
  unfold write_setting, setting_bytes. rewrite write_u32_bytes, byte_of_land_ff, shiftr_8, <- app_assoc. done.
Qed.

Definition settings_bytes (l : list Setting) : list byte := mjoin (setting_bytes <$> l).

Lemma settings_bytes_cons s l : settings_bytes (s :: l) = setting_bytes s ++ settings_bytes l.
Proof. done. Qed.

Lemma foldl_settings out l : foldl write_setting out l = out ++ settings_bytes l.
Proof.
  revert out. induction l as [|s l IH]; intros out; cbn [foldl]; [by rewrite app_nil_r|].
  by rewrite IH, write_setting_bytes, settings_bytes_cons, <- app_assoc.
Qed.

Lemma length_setting_bytes s : length (setting_bytes s) = 6%nat.
Proof. unfold setting_bytes. by rewrite length_app, !length_be_bytes. Qed.

Lemma length_settings l : length (settings_bytes l) = (6 * length l)%nat.
Proof.
  induction l as [|s l IH]; [done|]. rewrite settings_bytes_cons.
  rewrite length_app, length_setting_bytes, IH. cbn. lia.
Qed.

Lemma settings_loop_bytes l pre out :
  Forall setting_ok l ->
  settings_loop (length l) (pre ++ settings_bytes l) (length pre) out = Some (out ++ l).
Proof.
  revert pre out. induction l as [|s l IH]; intros pre out Hl; [cbn; by rewrite app_nil_r|].
  apply Forall_cons in Hl as [[Hi Hv] Hl]. rewrite settings_bytes_cons.
  cbn [length settings_loop]. set (rest := settings_bytes l) in *.
  assert (forall k, at_ (pre ++ setting_bytes s ++ rest) (length pre + k) = at_ (setting_bytes s ++ rest) k) as Hat.
  { intros k. unfold at_. rewrite lookup_app_r by lia. by rewrite Nat.add_comm, Nat.add_sub. }
  unfold read_u32. rewrite <- !Nat.add_assoc. rewrite <- (Nat.add_0_r (length pre)) at 1. rewrite !Hat.
  change (at_ (setting_bytes s ++ rest) 0) with (Some (byte_val (byte_of_Z (set_id s / 256)))).
  change (at_ (setting_bytes s ++ rest) 1) with (Some (byte_val (byte_of_Z (set_id s)))).
  change (at_ (setting_bytes s ++ rest) 2) with (Some (byte_val (byte_of_Z (set_val s / 256 / 256 / 256)))).
  change (at_ (setting_bytes s ++ rest) (2 + 1)) with (Some (byte_val (byte_of_Z (set_val s / 256 / 256)))).
  change (at_ (setting_bytes s ++ rest) (2 + 2)) with (Some (byte_val (byte_of_Z (set_val s / 256)))).
  change (at_ (setting_bytes s ++ rest) (2 + 3)) with (Some (byte_val (byte_of_Z (set_val s)))).
  cbn [mbind option_bind].
  rewrite read2, read4.
  change [byte_of_Z (set_id s / 256); byte_of_Z (set_id s)] with (be_bytes 2 (set_id s)).
  change [byte_of_Z (set_val s / 256 / 256 / 256); byte_of_Z (set_val s / 256 / 256);
          byte_of_Z (set_val s / 256); byte_of_Z (set_val s)] with (be_bytes 4 (set_val s)).
  rewrite !be_val_be_bytes_small by (cbn; lia).
  specialize (IH (pre ++ setting_bytes s) (out ++ [s]) Hl).
  rewrite <- !app_assoc, length_app, length_setting_bytes in IH. destruct s. exact IH.
Qed.

Lemma parse_settings_bytes l :
  Forall setting_ok l -> parse_settings (settings_bytes l) = Some (inl l).
Proof.
  intros Hl. unfold parse_settings. rewrite length_settings.
  rewrite (Nat.mul_comm 6), Nat.Div0.mod_mul, Nat.div_mul by lia. cbn [Nat.eqb negb].
  pose proof (settings_loop_bytes l [] [] Hl) as E. cbn in E. by rewrite E.
Qed.

(** [w] is a frame appended to [out]: its header, which parses back whatever
    follows, and a payload of the length the header announces. *)
Definition appended_frame (out w : list byte) (t : FrameType) (flags sid : Z) (payload : list byte) : Prop :=
  let h := mkHeader (Z.of_nat (length payload)) (frame_type_code t) flags sid in
  w = out ++ header_bytes h ++ payload
  /\ forall rest, parse_frame_header (header_bytes h ++ payload ++ rest) = Some (inl h).

Lemma appended_frame_intro out w t flags sid payload :
  0 <= flags < 256 -> 0 <= sid < 2 ^ 31 -> Z.of_nat (length payload) < 2 ^ 24 ->
  w = write_frame_header out t flags sid (Z.of_nat (length payload)) ++ payload ->
  appended_frame out w t flags sid payload.
Proof.
  intros Hf Hs Hp ->. split; [by rewrite write_header_bytes, <- app_assoc|].
  intros rest. apply parse_header_bytes. split; cbn; try lia. destruct t; cbn; lia.
Qed.

Lemma land_31 v : 0 <= v < 2 ^ 31 -> Z.land v 0x7fffffff = v.
Proof. intros H. by apply (land_ones_small v 31). Qed.

(** Every control frame the server writes is one frame for any receiver: its
    header parses back, whatever follows it, with the length of the payload it
    carries. A SETTINGS frame's payload parses back to the settings written, and
    the others carry their fields big-endian. *)
Theorem control_frames_parse_back out l sid last inc code opaque :
  Forall setting_ok l -> Z.of_nat (length l) * 6 < 2 ^ 24 ->
  0 <= sid < 2 ^ 31 -> 0 <= last < 2 ^ 31 -> 0 <= inc < 2 ^ 31 -> length opaque = 8%nat ->
  (exists payload, appended_frame out (write_settings out l) FtSettings 0 0 payload
                   /\ parse_settings payload = Some (inl l))
  /\ appended_frame out (write_settings_ack out) FtSettings flag_ack 0 []
  /\ appended_frame out (write_ping_ack out opaque) FtPing flag_ack 0 opaque
  /\ appended_frame out (write_goaway out last code) FtGoaway 0 0 (be_bytes 4 last ++ be_bytes 4 (error_code code))
  /\ appended_frame out (write_rst_stream out sid code) FtRstStream 0 sid (be_bytes 4 (error_code code))
  /\ appended_frame out (write_window_update out sid inc) FtWindowUpdate 0 sid (be_bytes 4 inc).
Proof.
  intros Hl Hn Hs Ha Hi Ho. split; [|split; [|split; [|split; [|split]]]].
  - exists (settings_bytes l). split; [|by apply parse_settings_bytes].
    apply appended_frame_intro; [lia|lia|rewrite length_settings; lia|].
    unfold write_settings. rewrite foldl_settings, length_settings. do 2 f_equal. lia.
  - apply appended_frame_intro; [done|lia|cbn; lia|]. by rewrite app_nil_r.
  - apply appended_frame_intro; [done|lia|rewrite Ho; lia|]. by rewrite Ho.
  - apply appended_frame_intro; [lia|lia|cbn; lia|].
    unfold write_goaway. by rewrite !write_u32_bytes, land_31, <- app_assoc.
  - apply appended_frame_intro; [lia|lia|cbn; lia|]. unfold write_rst_stream. by rewrite write_u32_bytes.
  - apply appended_frame_intro; [lia|lia|cbn; lia|]. unfold write_window_update. by rewrite write_u32_bytes, land_31.
Qed.

Definition demo_settings : list Setting := [mkSetting 3 100; mkSetting 4 65535].

Lemma control_frames_parse_back_witness :
  (exists payload, appended_frame [] (write_settings [] demo_settings) FtSettings 0 0 payload
                   /\ parse_settings payload = Some (inl demo_settings))
  /\ appended_frame [] (write_settings_ack []) FtSettings flag_ack 0 []
  /\ appended_frame [] (write_ping_ack [] (replicate 8 NUL)) FtPing flag_ack 0 (replicate 8 NUL)
  /\ appended_frame [] (write_goaway [] 7 Cancel) FtGoaway 0 0 (be_bytes 4 7 ++ be_bytes 4 (error_code Cancel))
  /\ appended_frame [] (write_rst_stream [] 5 Cancel) FtRstStream 0 5 (be_bytes 4 (error_code Cancel))
  /\ appended_frame [] (write_window_update [] 5 9) FtWindowUpdate 0 5 (be_bytes 4 9).
Proof.
  apply (control_frames_parse_back [] demo_settings 5 7 9 Cancel (replicate 8 NUL)).
  - repeat constructor; cbn; lia.
  - cbn. lia.
  - lia.
  - lia.
  - lia.
  - reflexivity.
Defined.
