(* ===== verification/StreamTable.v ===== *)
(** http2/streams.v: the open-addressing table of a connection's streams, with
    linear probing and backward-shift deletion, as an implementation of a finite
    map. A result in [option] is [None] when an array is read or written outside
    of its bounds. *)
From stdpp Require Import gmap.
From S2P Require Import Prelude.
Local Open Scope Z_scope.

Definition stream_slots : nat := 256.
#[global] Arguments stream_slots : simpl never.
Definition stream_slot_mask : Z := 255.

(** The slot behind [i]: [(i + 1) & stream_slot_mask]. *)
Definition next_slot (i : nat) : nat := Z.to_nat (Z.land (Z.of_nat i + 1) stream_slot_mask).

Definition stream_home (id : Z) : nat := Z.to_nat (Z.land (Z.shiftr id 1) stream_slot_mask).

Section Table.
Context {V : Type}.

(** [vals] holds a state or nil. *)
Record StreamTable := mkTable { ids : list Z; vals : list (option V); len : Z }.

Definition new_stream_table : StreamTable :=
  mkTable (replicate stream_slots 0) (replicate stream_slots None) 0.

(** [for _ in 0 .. stream_slots]: [n] rounds are left. The answer -1 is
    [Some None]. *)
Fixpoint find_loop (n : nat) (l : list Z) (id : Z) (i : nat) : option (option nat) :=
  match n with
  | O => Some None
  | S n' =>
      k ← l !! i;
      if k =? id then Some (Some i)
      else if k =? 0 then Some None
      else find_loop n' l id (next_slot i)
  end.

Definition find (t : StreamTable) (id : Z) : option (option nat) :=
  if id =? 0 then Some None else find_loop stream_slots (ids t) id (stream_home id).

Definition get (t : StreamTable) (id : Z) : option (option V) :=
  r ← find t id;
  match r with None => Some None | Some i => vals t !! i end.

Definition has (t : StreamTable) (id : Z) : option bool :=
  r ← find t id; Some (match r with None => false | Some _ => true end).

Fixpoint put_loop (n : nat) (t : StreamTable) (id : Z) (s : V) (i : nat) : option StreamTable :=
  match n with
  | O => Some t
  | S n' =>
      k ← ids t !! i;
      if k =? id then Some (mkTable (ids t) (<[i := Some s]> (vals t)) (len t))
      else if k =? 0 then Some (mkTable (<[i := id]> (ids t)) (<[i := Some s]> (vals t)) (len t + 1))
      else put_loop n' t id s (next_slot i)
  end.

Definition put (t : StreamTable) (id : Z) (s : V) : option StreamTable :=
  put_loop stream_slots t id s (stream_home id).

(** [k] may move into the hole unless its home lies cyclically in [(hole, j]]. *)
Definition stays (hole j home : nat) : bool :=
  if (hole <=? j)%nat then (hole <? home)%nat && (home <=? j)%nat
  else (hole <? home)%nat || (home <=? j)%nat.

(** [for { ... }] of [remove]; [fuel] bounds its rounds. *)
Fixpoint shift_loop (fuel : nat) (t : StreamTable) (hole j : nat) : option (StreamTable * nat) :=
  match fuel with
  | O => None
  | S f =>
      let j := next_slot j in
      k ← ids t !! j;
      if k =? 0 then Some (t, hole)
      else if stays hole j (stream_home k) then shift_loop f t hole j
      else
        v ← vals t !! j;
        shift_loop f (mkTable (<[hole := k]> (ids t)) (<[hole := v]> (vals t)) (len t)) j j
  end.

(** [remove] from the slot [find] returned. *)
Definition remove_at (t : StreamTable) (hole : nat) : option StreamTable :=
  '(t', hole') ← shift_loop stream_slots t hole hole;
  Some (mkTable (<[hole' := 0]> (ids t')) (<[hole' := None]> (vals t')) (len t' - 1)).

Definition remove (t : StreamTable) (id : Z) : option StreamTable :=
  r ← find t id;
  match r with None => Some t | Some hole => remove_at t hole end.

Definition ids_into (t : StreamTable) : list Z :=
  if len t =? 0 then [] else List.filter (fun k => negb (k =? 0)) (take stream_slots (ids t)).

End Table.
Arguments StreamTable V : clear implicits.

(** ** Cyclic distance *)

Definition dist (a b : nat) : nat := if (a <=? b)%nat then (b - a)%nat else (b + stream_slots - a)%nat.

(** Facts about slots: numbers below [stream_slots] and their distances. *)
Ltac cyc :=
  unfold dist, stays in *;
  repeat match goal with
         | |- context [(?a <=? ?b)%nat] => destruct (Nat.leb_spec a b)
         | H : context [(?a <=? ?b)%nat] |- _ => destruct (Nat.leb_spec a b)
         | |- context [(?a <? ?b)%nat] => destruct (Nat.ltb_spec a b)
         | H : context [(?a <? ?b)%nat] |- _ => destruct (Nat.ltb_spec a b)
         end;
  cbn [andb orb] in *; try congruence; try lia.

Lemma next_slot_spec i : (i < stream_slots)%nat ->
  next_slot i = (if (S i =? stream_slots)%nat then 0 else S i)%nat.
Proof.
  unfold stream_slots, next_slot, stream_slot_mask. intros H. change 255 with (Z.ones 8).
  rewrite Z.land_ones by lia. destruct (Nat.eqb_spec (S i) 256) as [E|E].
  - replace (Z.of_nat i + 1) with 256 by lia. done.
  - rewrite Z.mod_small by lia. lia.
Qed.

Lemma next_slot_lt i : (i < stream_slots)%nat -> (next_slot i < stream_slots)%nat.
Proof. intros H. rewrite next_slot_spec by done. destruct (Nat.eqb_spec (S i) stream_slots); unfold stream_slots in *; lia. Qed.

Lemma stream_home_lt id : (stream_home id < stream_slots)%nat.
Proof.
  unfold stream_home, stream_slot_mask, stream_slots. change 255 with (Z.ones 8). rewrite Z.land_ones by lia.
  pose proof (Z.mod_pos_bound (Z.shiftr id 1) (2 ^ 8)). lia.
Qed.

Lemma dist_lt a b : (a < stream_slots)%nat -> (b < stream_slots)%nat -> (dist a b < stream_slots)%nat.
Proof. intros. cyc. Qed.

Lemma dist_next a b : (a < stream_slots)%nat -> (b < stream_slots)%nat -> next_slot b <> a ->
  dist a (next_slot b) = S (dist a b).
Proof.
  intros Ha Hb. rewrite next_slot_spec by done. destruct (Nat.eqb_spec (S b) stream_slots); intros; cyc.
Qed.

Lemma stays_dist hole j home :
  (hole < stream_slots)%nat -> (j < stream_slots)%nat -> (home < stream_slots)%nat -> hole <> j ->
  stays hole j home = true <-> (0 < dist hole home <= dist hole j)%nat.
Proof. intros. split; intros; cyc; try (split; lia). Qed.

(** From here on only [next_slot_spec] and the bounds above matter. *)
#[global] Opaque stream_slots.

(** ** What a table stands for *)

Section Refinement.
Context {V : Type}.
Implicit Types (t : StreamTable V) (m : gmap Z V) (l : list Z) (vl : list (option V)).

(** [t] holds exactly the entries of [m]: each at one slot, and with no empty slot
    between its home and the slot it is in. *)
Record table_inv t m : Prop := {
  inv_ids : length (ids t) = stream_slots;
  inv_vals : length (vals t) = stream_slots;
  inv_zero : m !! 0 = None;
  inv_repr : forall k v, k <> 0 ->
    (m !! k = Some v <-> exists i, ids t !! i = Some k /\ vals t !! i = Some (Some v));
  inv_some : forall i k, k <> 0 -> ids t !! i = Some k -> exists v, vals t !! i = Some (Some v);
  inv_inj : forall i j k, k <> 0 -> ids t !! i = Some k -> ids t !! j = Some k -> i = j;
  inv_nogap : forall i k p, k <> 0 -> ids t !! i = Some k -> (p < stream_slots)%nat ->
    (dist (stream_home k) p < dist (stream_home k) i)%nat -> ids t !! p <> Some 0;
  inv_len : len t = Z.of_nat (size m)
}.

Lemma slot_read l i : length l = stream_slots -> (i < stream_slots)%nat -> exists k, l !! i = Some k.
Proof. intros H Hi. destruct (lookup_lt_is_Some_2 l i) as [k Hk]; [lia | eauto]. Qed.

Lemma slot_lt l i k : length l = stream_slots -> l !! i = Some k -> (i < stream_slots)%nat.
Proof. intros H Hi. apply lookup_lt_Some in Hi. lia. Qed.

Lemma new_table_inv : table_inv (new_stream_table : StreamTable V) ∅.
Proof.
  assert (forall i k, k <> 0 -> replicate stream_slots 0 !! i = Some k -> False) as H.
  { intros i k Hk [-> _]%lookup_replicate. done. }
  split; cbn [ids vals len new_stream_table].
  - apply length_replicate.
  - apply length_replicate.
  - done.
  - intros k v Hk. rewrite lookup_empty. split; [done | intros (i & Hi & _); by destruct (H i k)].
  - intros i k Hk Hi. by destruct (H i k).
  - intros i j k Hk Hi. by destruct (H i k).
  - intros i k p Hk Hi. by destruct (H i k).
  - done.
Qed.

(** *** Probing *)

(** Everything from [home] up to, not including, [i] holds another key. *)
Definition probed l (id : Z) (i : nat) : Prop :=
  forall p, (p < stream_slots)%nat -> (dist (stream_home id) p < dist (stream_home id) i)%nat ->
  l !! p <> Some 0 /\ l !! p <> Some id.

Lemma probed_home l id : probed l id (stream_home id).
Proof. intros p Hp H. cyc. Qed.

Lemma probed_next l id i k :
  length l = stream_slots -> (i < stream_slots)%nat -> probed l id i ->
  l !! i = Some k -> k <> 0 -> k <> id -> next_slot i <> stream_home id ->
  probed l id (next_slot i).
Proof.
  intros Hl Hi Hp Hk H0 Hid Hn p Hlt Hd. pose proof (stream_home_lt id) as Hh.
  rewrite dist_next in Hd by done. destruct (decide (p = i)) as [->|Hne]; [rewrite Hk; naive_solver|].
  apply Hp; [done|]. assert (dist (stream_home id) p <> dist (stream_home id) i) by cyc. lia.
Qed.

(** Once every slot is probed, the key is nowhere. *)
Lemma probed_wrap l id i k :
  length l = stream_slots -> (i < stream_slots)%nat -> probed l id i ->
  l !! i = Some k -> k <> 0 -> k <> id -> next_slot i = stream_home id ->
  forall p, (p < stream_slots)%nat -> l !! p <> Some 0 /\ l !! p <> Some id.
Proof.
  intros Hl Hi Hp Hk H0 Hid Hn p Hlt. destruct (decide (p = i)) as [->|Hne]; [rewrite Hk; naive_solver|].
  apply Hp; [done|]. rewrite <- Hn, !next_slot_spec by done. destruct (Nat.eqb_spec (S i) stream_slots); cyc.
Qed.

(** The three ways the probe of [id] ends. *)
Inductive probe_end l (id : Z) : option nat -> bool -> Prop :=
| ProbeFound i : l !! i = Some id -> probe_end l id (Some i) true
| ProbeEmpty i : (i < stream_slots)%nat -> l !! i = Some 0 -> probed l id i -> probe_end l id (Some i) false
| ProbeFull : (forall p, (p < stream_slots)%nat -> l !! p <> Some 0 /\ l !! p <> Some id) -> probe_end l id None false.

(** The slot the probe ends at, and whether it holds [id]; [n] rounds are left. *)
Fixpoint probe (n : nat) l (id : Z) (i : nat) : option (option nat * bool) :=
  match n with
  | O => Some (None, false)
  | S n' =>
      k ← l !! i;
      if k =? id then Some (Some i, true)
      else if k =? 0 then Some (Some i, false)
      else probe n' l id (next_slot i)
  end.

Lemma probe_spec n l id i :
  length l = stream_slots -> (i < stream_slots)%nat -> probed l id i ->
  (n + dist (stream_home id) i = stream_slots)%nat ->
  exists r b, probe n l id i = Some (r, b) /\ probe_end l id r b.
Proof.
  intros Hl. revert i. induction n as [|n IH]; intros i Hi Hp Hn; pose proof (stream_home_lt id) as Hh.
  { pose proof (dist_lt _ _ Hh Hi). lia. }
  destruct (slot_read l i Hl Hi) as [k Hk]. cbn [probe]. rewrite Hk. cbn [mbind option_bind].
  destruct (Z.eqb_spec k id) as [->|Hid]; [eexists _, _; split; [done | by constructor]|].
  destruct (Z.eqb_spec k 0) as [->|H0]; [eexists _, _; split; [done | by constructor]|].
  destruct (decide (next_slot i = stream_home id)) as [E|E].
  - assert (n = O) as ->.
    { rewrite <- E, next_slot_spec in Hn by done. destruct (Nat.eqb_spec (S i) stream_slots); cyc. }
    eexists _, _. split; [done|]. constructor. exact (probed_wrap l id i k Hl Hi Hp Hk H0 Hid E).
  - apply IH; [by apply next_slot_lt | exact (probed_next l id i k Hl Hi Hp Hk H0 Hid E) |]. rewrite dist_next by done. lia.
Qed.

Lemma probe_home l id : length l = stream_slots ->
  exists r b, probe stream_slots l id (stream_home id) = Some (r, b) /\ probe_end l id r b.
Proof.
  intros Hl. apply probe_spec; [done | apply stream_home_lt | apply probed_home | cyc].
Qed.

Lemma find_loop_probe n l id i :
  find_loop n l id i = (fun '(r, b) => if b : bool then r else None) <$> probe n l id i.
Proof.
  revert i. induction n as [|n IH]; intros i; cbn [find_loop probe]; [done|].
  destruct (l !! i) as [k|]; [|done]. cbn [mbind option_bind].
  destruct (k =? id); [done|]. destruct (k =? 0); [done | apply IH].
Qed.

Lemma put_loop_probe n t id s i :
  put_loop n t id s i =
  (fun '(r, b) => match r with
                  | None => t
                  | Some p => if b : bool then mkTable (ids t) (<[p := Some s]> (vals t)) (len t)
                              else mkTable (<[p := id]> (ids t)) (<[p := Some s]> (vals t)) (len t + 1)
                  end) <$> probe n (ids t) id i.
Proof.
  revert i. induction n as [|n IH]; intros i; cbn [put_loop probe]; [done|].
  destruct (ids t !! i) as [k|]; [|done]. cbn [mbind option_bind].
  destruct (k =? id); [done|]. destruct (k =? 0); [done | apply IH].
Qed.

(** With no gap before any entry, a probe that ends elsewhere proves absence. *)
Lemma probe_end_absent t m id r :
  table_inv t m -> id <> 0 -> probe_end (ids t) id r false -> forall p, ids t !! p <> Some id.
Proof.
  intros I H0 E p Hp. pose proof (slot_lt _ _ _ (inv_ids _ _ I) Hp) as Hlt. inversion E as [| i Hi Hz Hpr | Hall]; subst.
  - destruct (decide (dist (stream_home id) p < dist (stream_home id) i)%nat).
    + by destruct (Hpr p).
    + destruct (decide (p = i)) as [->|Hne]; [congruence|].
      apply (inv_nogap _ _ I p id i); [done|done|done| |done]. pose proof (stream_home_lt id). cyc.
  - by destruct (Hall p Hlt).
Qed.

(** The table answers what the map holds. *)
Lemma find_spec t m id :
  table_inv t m ->
  match m !! id with
  | Some v => exists i, find t id = Some (Some i) /\ ids t !! i = Some id /\ vals t !! i = Some (Some v)
  | None => find t id = Some None
  end.
Proof.
  intros I. unfold find. destruct (Z.eqb_spec id 0) as [->|H0]; [by rewrite (inv_zero _ _ I)|].
  destruct (probe_home (ids t) id (inv_ids _ _ I)) as (r & b & E & P). rewrite find_loop_probe, E. cbn.
  destruct b.
  - inversion P as [i Hi | |]; subst. destruct (inv_some _ _ I i id H0 Hi) as [v Hv].
    rewrite (proj2 (inv_repr _ _ I id v H0)) by eauto. eauto.
  - destruct (m !! id) as [v|] eqn:Em; [|done].
    apply (inv_repr _ _ I) in Em as (i & Hi & _); [|done]. by destruct (probe_end_absent _ _ _ _ I H0 P i).
Qed.

Lemma get_spec t m id : table_inv t m -> get t id = Some (m !! id).
Proof.
  intros I. unfold get. pose proof (find_spec t m id I) as F. destruct (m !! id) as [v|].
  - destruct F as (i & -> & _ & Hv). exact Hv.
  - by rewrite F.
Qed.

(** *** Insertion *)

Lemma put_found t m id s i :
  table_inv t m -> id <> 0 -> ids t !! i = Some id ->
  table_inv (mkTable (ids t) (<[i := Some s]> (vals t)) (len t)) (<[id := s]> m).
Proof.
  intros I H0 Hi. pose proof (slot_lt _ _ _ (inv_ids _ _ I) Hi) as Hlt.
  destruct (inv_some _ _ I i id H0 Hi) as [v0 Hv0].
  split; cbn [ids vals len]; try apply I.
  - rewrite length_insert. apply I.
  - rewrite lookup_insert_ne by done. apply I.
  - intros k v Hk. destruct (decide (k = id)) as [->|Hne].
    + rewrite lookup_insert_eq. split.
      * intros [= <-]. exists i. split; [done|]. apply list_lookup_insert_eq. rewrite (inv_vals _ _ I). done.
      * intros (j & Hj & Hv). rewrite (inv_inj _ _ I j i id H0 Hj Hi) in Hv.
        rewrite list_lookup_insert_eq in Hv by (rewrite (inv_vals _ _ I); done). congruence.
    + rewrite lookup_insert_ne, (inv_repr _ _ I) by done.
      apply exist_proper. intros j. destruct (decide (j = i)) as [->|Hji].
      * rewrite Hi. split; intros [[= ->] _]; done.
      * by rewrite list_lookup_insert_ne by done.
  - intros j k Hk Hj. destruct (decide (j = i)) as [->|Hji].
    + rewrite list_lookup_insert_eq by (rewrite (inv_vals _ _ I); done). eauto.
    + rewrite list_lookup_insert_ne by done. by eapply (inv_some _ _ I).
  - rewrite (inv_len _ _ I), map_size_insert_Some; [done|]. exists v0.
    apply (inv_repr _ _ I); eauto.
Qed.

Lemma put_empty t m id s i :
  table_inv t m -> id <> 0 -> (i < stream_slots)%nat -> ids t !! i = Some 0 -> probed (ids t) id i ->
  (forall p, ids t !! p <> Some id) ->
  table_inv (mkTable (<[i := id]> (ids t)) (<[i := Some s]> (vals t)) (len t + 1)) (<[id := s]> m).
Proof.
  intros I H0 Hi Hz Hp Ha.
  assert (Hii : <[i := id]> (ids t) !! i = Some id) by (apply list_lookup_insert_eq; rewrite (inv_ids _ _ I); done).
  assert (Hiv : <[i := Some s]> (vals t) !! i = Some (Some s)) by (apply list_lookup_insert_eq; rewrite (inv_vals _ _ I); done).
  assert (Hold : forall j k, k <> 0 -> <[i := id]> (ids t) !! j = Some k -> (j = i /\ k = id) \/ (j <> i /\ k <> id /\ ids t !! j = Some k)).
  { intros j k Hk Hj. destruct (decide (j = i)) as [->|Hne]; [left; split; congruence|].
    rewrite list_lookup_insert_ne in Hj by done. right. split; [done|]. split; [|done]. intros ->. by apply (Ha j). }
  split; cbn [ids vals len].
  - rewrite length_insert. apply I.
  - rewrite length_insert. apply I.
  - rewrite lookup_insert_ne by done. apply I.
  - intros k v Hk. destruct (decide (k = id)) as [->|Hne].
    + rewrite lookup_insert_eq. split; [intros [= <-]; eauto|].
      intros (j & Hj & Hv). destruct (Hold j id Hk Hj) as [[-> _]|(_ & ? & _)]; congruence.
    + rewrite lookup_insert_ne, (inv_repr _ _ I) by done. split; intros (j & Hj & Hv); exists j.
      * assert (j <> i) by congruence. by rewrite !list_lookup_insert_ne by done.
      * destruct (Hold j k Hk Hj) as [[_ ?]|(? & _ & ?)]; [done|]. by rewrite list_lookup_insert_ne in Hv by done.
  - intros j k Hk Hj. destruct (Hold j k Hk Hj) as [[-> _]|(? & _ & Hj')]; [eauto|].
    rewrite list_lookup_insert_ne by done. by eapply (inv_some _ _ I).
  - intros j j' k Hk Hj Hj'. destruct (Hold j k Hk Hj) as [[E1 E2]|(? & ? & Hk1)], (Hold j' k Hk Hj') as [[E3 E4]|(? & ? & Hk2)]; try congruence.
    by eapply (inv_inj _ _ I).
  - intros j k p Hk Hj Hlt Hd. destruct (decide (p = i)) as [->|Hpi]; [congruence|].
    rewrite list_lookup_insert_ne by done. destruct (Hold j k Hk Hj) as [[-> ->]|(_ & _ & Hk1)]; [by apply Hp|].
    by eapply (inv_nogap _ _ I).
  - rewrite (inv_len _ _ I), map_size_insert_None; [lia|].
    apply eq_None_not_Some. intros [v Hv]. apply (inv_repr _ _ I) in Hv as (j & Hj & _); [|done]. by apply (Ha j).
Qed.

(** *** Deletion *)

(** During the backward shift: [m] is the map without the key removed, [hole] a
    slot that no longer counts, [j] the last slot looked at. An entry may have
    the hole before it only while it lies behind [j]. *)
Record hole_inv l vl (hole j : nat) m : Prop := {
  hi_ids : length l = stream_slots;
  hi_vals : length vl = stream_slots;
  hi_hole : (hole < stream_slots)%nat;
  hi_j : (j < stream_slots)%nat;
  hi_zero : m !! 0 = None;
  hi_repr : forall k v, k <> 0 ->
    (m !! k = Some v <-> exists i, i <> hole /\ l !! i = Some k /\ vl !! i = Some (Some v));
  hi_some : forall i k, k <> 0 -> i <> hole -> l !! i = Some k -> exists v, vl !! i = Some (Some v);
  hi_inj : forall i i' k, k <> 0 -> i <> hole -> i' <> hole -> l !! i = Some k -> l !! i' = Some k -> i = i';
  hi_stale : l !! hole <> Some 0;
  hi_gap : forall i k p, k <> 0 -> i <> hole -> l !! i = Some k -> (p < stream_slots)%nat ->
    (dist (stream_home k) p < dist (stream_home k) i)%nat ->
    (p = hole -> (dist hole j < dist hole i)%nat) /\ (p <> hole -> l !! p <> Some 0);
  hi_scanned : forall p, (p < stream_slots)%nat -> (0 < dist hole p <= dist hole j)%nat -> l !! p <> Some 0
}.

(** With an empty slot left, the next slot is never the hole. *)
Lemma next_not_hole l vl hole j m z :
  hole_inv l vl hole j m -> l !! z = Some 0 -> next_slot j <> hole.
Proof.
  intros H Hz E. pose proof (slot_lt _ _ _ (hi_ids _ _ _ _ _ H) Hz) as Hlt.
  assert (z <> hole) by (intros ->; by apply (hi_stale _ _ _ _ _ H)).
  pose proof (hi_j _ _ _ _ _ H) as Hj. pose proof (hi_hole _ _ _ _ _ H) as Hh.
  apply (hi_scanned _ _ _ _ _ H z Hlt); [|done].
  rewrite next_slot_spec in E by done. destruct (Nat.eqb_spec (S j) stream_slots); cyc; split; lia.
Qed.

(** A key that stays: the scan moves on. *)
Lemma hole_step_stay l vl hole j m k z :
  hole_inv l vl hole j m -> l !! z = Some 0 -> l !! next_slot j = Some k -> k <> 0 ->
  stays hole (next_slot j) (stream_home k) = true -> hole_inv l vl hole (next_slot j) m.
Proof.
  intros H Hz Hk H0 Hs. pose proof (next_not_hole _ _ _ _ _ _ H Hz) as Hne.
  pose proof (hi_j _ _ _ _ _ H) as Hj. pose proof (hi_hole _ _ _ _ _ H) as Hh.
  pose proof (next_slot_lt j Hj) as Hn. pose proof (stream_home_lt k) as Hhk.
  apply stays_dist in Hs; [|done..|by apply not_eq_sym].
  assert (dist hole (next_slot j) = S (dist hole j)) as Hd by by apply dist_next.
  destruct H as [H1 H2 _ _ H5 H6 H7 H8 H9 H10 H11]. split; try done.
  - intros i k' p Hk' Hi Hl Hp Hdp. destruct (H10 i k' p Hk' Hi Hl Hp Hdp) as [Ha Hb].
    split; [|done]. intros Ep. specialize (Ha Ep). rewrite Hd.
    pose proof (slot_lt _ _ _ H1 Hl) as Hil.
    destruct (decide (i = next_slot j)) as [->|Hij].
    + exfalso. subst p. assert (k' = k) as -> by congruence. clear - Hs Hdp Hh Hn Hhk Hne. cyc.
    + assert (dist hole i <> S (dist hole j)); [|lia]. rewrite <- Hd. clear - Hij Hh Hn Hil. cyc.
  - intros p Hp Hdp. destruct (decide (p = next_slot j)) as [->|Hpj]; [congruence|].
    apply H11; [done|]. rewrite Hd in Hdp. assert (dist hole p <> S (dist hole j)); [|lia].
    rewrite <- Hd. clear - Hpj Hp Hh Hn. cyc.
Qed.

(** A key that moves into the hole leaves one behind. *)
Lemma hole_step_move l vl hole j m k v z :
  hole_inv l vl hole j m -> l !! z = Some 0 -> l !! next_slot j = Some k -> k <> 0 -> vl !! next_slot j = Some v ->
  stays hole (next_slot j) (stream_home k) = false ->
  hole_inv (<[hole := k]> l) (<[hole := v]> vl) (next_slot j) (next_slot j) m.
Proof.
  intros H Hz Hk H0 Hv Hs. pose proof (next_not_hole _ _ _ _ _ _ H Hz) as Hne.
  pose proof (hi_j _ _ _ _ _ H) as Hj. pose proof (hi_hole _ _ _ _ _ H) as Hh.
  pose proof (next_slot_lt j Hj) as Hn. pose proof (stream_home_lt k) as Hhk.
  assert (~ (0 < dist hole (stream_home k) <= dist hole (next_slot j))%nat) as Hns.
  { rewrite <- stays_dist by (done || by apply not_eq_sym). congruence. }
  set (j' := next_slot j) in *. destruct H as [H1 H2 _ _ H5 H6 H7 H8 H9 H10 H11].
  assert (Hlh : <[hole := k]> l !! hole = Some k) by (apply list_lookup_insert_eq; lia).
  assert (Hvh : <[hole := v]> vl !! hole = Some v) by (apply list_lookup_insert_eq; lia).
  assert (Hold : forall i k', k' <> 0 -> i <> j' -> <[hole := k]> l !! i = Some k' ->
            (i = hole /\ k' = k) \/ (i <> hole /\ k' <> k /\ l !! i = Some k')).
  { intros i k' Hk' Hi Hl. destruct (decide (i = hole)) as [->|Hih]; [left; split; congruence|].
    rewrite list_lookup_insert_ne in Hl by done. right. split; [done|]. split; [|done].
    intros ->. apply Hi. by apply (H8 i j' k). }
  split; rewrite ?length_insert; try done.
  - intros k' v' Hk'. rewrite H6 by done. split.
    + intros (i & Hi & Hl & Hvi). destruct (decide (i = j')) as [->|Hij].
      * exists hole. split; [done|]. rewrite Hlh, Hvh. split; congruence.
      * exists i. split; [done|]. by rewrite !list_lookup_insert_ne by done.
    + intros (i & Hi & Hl & Hvi). destruct (Hold i k' Hk' Hi Hl) as [[-> ->]|(Hih & _ & Hl')].
      * exists j'. split; [done|]. split; congruence.
      * exists i. rewrite list_lookup_insert_ne in Hvi by done. done.
  - intros i k' Hk' Hi Hl. destruct (Hold i k' Hk' Hi Hl) as [[-> ->]|(Hih & _ & Hl')].
    + destruct (H7 j' k H0 Hne Hk) as [w Hw]. exists w. congruence.
    + rewrite list_lookup_insert_ne by done. by eapply H7.
  - intros i i' k' Hk' Hi Hi' Hl Hl'.
    destruct (Hold i k' Hk' Hi Hl) as [[E1 E2]|(? & ? & E3)], (Hold i' k' Hk' Hi' Hl') as [[E4 E5]|(? & ? & E6)];
      try congruence. by eapply H8.
  - rewrite list_lookup_insert_ne by done. congruence.
  - intros i k' p Hk' Hi Hl Hp Hdp. assert (Hil : (i < stream_slots)%nat) by (apply lookup_lt_Some in Hl; rewrite length_insert in Hl; lia).
    split; [intros _; clear - Hi Hil Hn; cyc|]. intros Hpj.
    destruct (decide (p = hole)) as [->|Hph]; [rewrite Hlh; congruence|].
    rewrite list_lookup_insert_ne by done. destruct (Hold i k' Hk' Hi Hl) as [[-> ->]|(Hih & _ & Hl')].
    + eapply (H10 j' k p); [done..| |done]. clear - Hdp Hns Hh Hn Hhk Hp Hne. cyc.
    + by eapply (H10 i k' p).
  - intros p Hp Hdp. clear - Hdp Hn. cyc.
Qed.

Lemma remove_start t m id hole v :
  table_inv t m -> id <> 0 -> ids t !! hole = Some id -> m !! id = Some v ->
  hole_inv (ids t) (vals t) hole hole (delete id m).
Proof.
  intros I H0 Hh Hv. pose proof (slot_lt _ _ _ (inv_ids _ _ I) Hh) as Hlt. split; try done.
  - apply I.
  - apply I.
  - rewrite lookup_delete_ne by done. apply I.
  - intros k w Hk. destruct (decide (k = id)) as [->|Hne].
    + rewrite lookup_delete_eq. split; [done|]. intros (i & Hi & Hl & _). by destruct Hi; apply (inv_inj _ _ I i hole id).
    + rewrite lookup_delete_ne, (inv_repr _ _ I) by done. apply exist_proper. intros i.
      split; [intros [Hl Hw]; split; [congruence|done] | intros (_ & Hl & Hw); done].
  - intros i k Hk _. apply (inv_some _ _ I i k Hk).
  - intros i i' k Hk _ _. apply (inv_inj _ _ I i i' k Hk).
  - congruence.
  - intros i k p Hk Hi Hl Hp Hd. pose proof (slot_lt _ _ _ (inv_ids _ _ I) Hl) as Hil.
    split; [intros _; clear - Hi Hil Hlt; cyc | intros _; by eapply (inv_nogap _ _ I)].
  - intros p Hp Hd. clear - Hd. cyc.
Qed.

(** The shift ends at the latest at the empty slot [z]. *)
Lemma shift_loop_spec fuel t hole j m z :
  hole_inv (ids t) (vals t) hole j m -> ids t !! z = Some 0 -> (dist j z < fuel)%nat ->
  exists t' hole' j', shift_loop fuel t hole j = Some (t', hole') /\ len t' = len t
    /\ hole_inv (ids t') (vals t') hole' j' m /\ ids t' !! next_slot j' = Some 0.
Proof.
  revert t hole j. induction fuel as [|f IH]; intros t hole j H Hz Hf; [lia|].
  pose proof (hi_j _ _ _ _ _ H) as Hj. pose proof (next_slot_lt j Hj) as Hn.
  pose proof (slot_lt _ _ _ (hi_ids _ _ _ _ _ H) Hz) as Hlz. pose proof (hi_hole _ _ _ _ _ H) as Hh.
  pose proof (next_not_hole _ _ _ _ _ _ H Hz) as Hne.
  destruct (slot_read (ids t) (next_slot j) (hi_ids _ _ _ _ _ H) Hn) as [k Hk].
  cbn [shift_loop]. rewrite Hk. cbn [mbind option_bind].
  destruct (Z.eqb_spec k 0) as [->|H0]; [by exists t, hole, j|].
  assert (z <> next_slot j) as Hzj by congruence.
  assert (z <> hole) as Hzh by (intros ->; by apply (hi_stale _ _ _ _ _ H)).
  assert (z <> j) as Hzj0.
  { intros ->. destruct (decide (j = hole)) as [->|Hjh]; [done|].
    apply (hi_scanned _ _ _ _ _ H j Hj); [|done]. clear - Hjh Hj Hh. cyc; split; lia. }
  assert (dist (next_slot j) z < f)%nat as Hd.
  { clear - Hf Hj Hlz Hzj Hzj0. rewrite next_slot_spec by done. rewrite next_slot_spec in Hzj by done.
    destruct (Nat.eqb_spec (S j) stream_slots); cyc. }
  destruct (stays hole (next_slot j) (stream_home k)) eqn:Hs.
  - apply IH; [by eapply hole_step_stay | done | done].
  - destruct (hi_some _ _ _ _ _ H _ _ H0 Hne Hk) as [w Hw]. rewrite Hw. cbn [mbind option_bind].
    apply (IH (mkTable _ _ _)); cbn [ids vals]; [by eapply hole_step_move | | done].
    by rewrite list_lookup_insert_ne by done.
Qed.

(** When the slot behind the last one looked at is empty, emptying the hole
    leaves no gap. *)
Lemma shift_done l vl hole j m n :
  hole_inv l vl hole j m -> l !! next_slot j = Some 0 -> n = Z.of_nat (size m) ->
  table_inv (mkTable (<[hole := 0]> l) (<[hole := None]> vl) n) m.
Proof.
  intros H Hz Hn. pose proof (next_not_hole _ _ _ _ _ _ H Hz) as Hne.
  pose proof (hi_hole _ _ _ _ _ H) as Hh. pose proof (hi_j _ _ _ _ _ H) as Hj.
  pose proof (next_slot_lt j Hj) as Hnj. destruct H as [H1 H2 _ _ H5 H6 H7 H8 H9 H10 H11].
  assert (Hold : forall i k, k <> 0 -> <[hole := 0]> l !! i = Some k -> i <> hole /\ l !! i = Some k).
  { intros i k Hk Hl. destruct (decide (i = hole)) as [->|Hi].
    - rewrite list_lookup_insert_eq in Hl by lia. congruence.
    - by rewrite list_lookup_insert_ne in Hl by done. }
  split; cbn [ids vals len]; rewrite ?length_insert; try done.
  - intros k v Hk. rewrite H6 by done. split.
    + intros (i & Hi & Hl & Hv). exists i. by rewrite !list_lookup_insert_ne by done.
    + intros (i & Hl & Hv). destruct (Hold i k Hk Hl) as [Hi Hl']. rewrite list_lookup_insert_ne in Hv by done. eauto.
  - intros i k Hk Hl. destruct (Hold i k Hk Hl) as [Hi Hl']. rewrite list_lookup_insert_ne by done. by eapply H7.
  - intros i i' k Hk Hl Hl'. destruct (Hold i k Hk Hl), (Hold i' k Hk Hl'). by apply (H8 i i' k).
  - intros i k p Hk Hl Hp Hd. destruct (Hold i k Hk Hl) as [Hi Hl']. pose proof (slot_lt _ _ _ H1 Hl') as Hil.
    destruct (H10 i k p Hk Hi Hl' Hp Hd) as [Ha Hb]. destruct (decide (p = hole)) as [->|Hph].
    + exfalso. specialize (Ha eq_refl). assert (i <> next_slot j) as Hij by congruence.
      pose proof (stream_home_lt k) as Hhk.
      assert (dist hole (next_slot j) = S (dist hole j)) as Hdj by by apply dist_next.
      destruct (H10 i k (next_slot j) Hk Hi Hl' Hnj) as [_ Hc]; [|by apply Hc].
      clear - Ha Hd Hij Hdj Hh Hhk Hil Hnj Hne. set (e := next_slot j) in *. clearbody e.
      assert (dist hole e < dist hole i)%nat; [|clear Hdj Ha; cyc]. assert (dist hole e <> dist hole i) by cyc. lia.
    + rewrite list_lookup_insert_ne by done. by apply Hb.
Qed.

(** A table that is not full has an empty slot. *)
Lemma empty_slot t m : table_inv t m -> (size m < stream_slots)%nat -> exists z, ids t !! z = Some 0.
Proof.
  intros I Hs. destruct (decide (0 ∈ ids t)) as [[z Hz]%list_elem_of_lookup|Hn]; [eauto|]. exfalso.
  assert (NoDup (ids t)) as Hnd.
  { apply NoDup_alt. intros i j k Hi Hj. apply (inv_inj _ _ I i j k); [|done..].
    intros ->. apply Hn. by eapply list_elem_of_lookup_2. }
  assert (list_to_set (ids t) ⊆ dom m) as Hsub.
  { intros k Hk. rewrite elem_of_list_to_set, list_elem_of_lookup in Hk. destruct Hk as [i Hi].
    assert (k <> 0) as Hk0 by (intros ->; apply Hn; by eapply list_elem_of_lookup_2).
    destruct (inv_some _ _ I i k Hk0 Hi) as [v Hv]. apply elem_of_dom. exists v. apply (inv_repr _ _ I); eauto. }
  apply subseteq_size in Hsub. rewrite size_list_to_set, size_dom, (inv_ids _ _ I) in Hsub by done. lia.
Qed.

Lemma remove_found t m id v hole :
  table_inv t m -> (size m < stream_slots)%nat -> m !! id = Some v -> id <> 0 -> ids t !! hole = Some id ->
  exists t' h', shift_loop stream_slots t hole hole = Some (t', h')
   /\ table_inv (mkTable (<[h' := 0]> (ids t')) (<[h' := None]> (vals t')) (len t' - 1)) (delete id m).
Proof.
  intros I Hs Em H0 Hh.
  destruct (empty_slot t m I Hs) as [z Hz]. pose proof (slot_lt _ _ _ (inv_ids _ _ I) Hz) as Hzl.
  pose proof (slot_lt _ _ _ (inv_ids _ _ I) Hh) as Hhl.
  destruct (shift_loop_spec stream_slots t hole hole (delete id m) z) as (t' & h' & j' & E & El & H' & Hz').
  { exact (remove_start t m id hole v I H0 Hh Em). }
  { exact Hz. }
  { exact (dist_lt _ _ Hhl Hzl). }
  exists t', h'. split; [exact E|]. apply (shift_done _ _ _ j' _ _ H' Hz').
  rewrite El, (inv_len _ _ I), map_size_delete, Em.
  assert (size m <> 0)%nat by (apply map_size_ne_0_lookup; eauto). lia.
Qed.

Lemma remove_at_eq t hole t' h' :
  shift_loop stream_slots t hole hole = Some (t', h') ->
  remove_at t hole = Some (mkTable (<[h' := 0]> (ids t')) (<[h' := None]> (vals t')) (len t' - 1)).
Proof. unfold remove_at. by intros ->. Qed.

Lemma remove_eq t id r :
  find t id = Some r -> remove t id = match r with None => Some t | Some hole => remove_at t hole end.
Proof. unfold remove. by intros ->. Qed.

Lemma remove_spec t m id :
  table_inv t m -> (size m < stream_slots)%nat ->
  exists t', remove t id = Some t' /\ table_inv t' (delete id m).
Proof.
  intros I Hs. pose proof (find_spec t m id I) as F. destruct (m !! id) as [v|] eqn:Em.
  - destruct F as (hole & F & Hh & _).
    assert (id <> 0) as H0 by (intros ->; rewrite (inv_zero _ _ I) in Em; done).
    destruct (remove_found t m id v hole I Hs Em H0 Hh) as (t' & h' & E & T).
    eexists. split; [|exact T]. rewrite (remove_eq _ _ _ F). by apply remove_at_eq.
  - exists t. split; [exact (remove_eq _ _ _ F)|]. by rewrite delete_id.
Qed.

Lemma put_spec t m id s :
  table_inv t m -> id <> 0 -> (size m < stream_slots)%nat ->
  exists t', put t id s = Some t' /\ table_inv t' (<[id := s]> m).
Proof.
  intros I H0 Hs. unfold put. rewrite put_loop_probe.
  destruct (probe_home (ids t) id (inv_ids _ _ I)) as (r & b & E & P). rewrite E.
  eexists. split; [reflexivity|]. inversion P as [i Hi | i Hi Hz Hp | Hall]; subst.
  - by apply put_found.
  - apply put_empty; [done..|]. by eapply probe_end_absent.
  - destruct (empty_slot t m I Hs) as [z Hz]. destruct (Hall z) as [? _]; [by eapply slot_lt; [apply I|]|done].
Qed.

Lemma ids_into_spec t m k : table_inv t m -> k ∈ ids_into t <-> is_Some (m !! k).
Proof.
  intros I. unfold ids_into. rewrite (inv_len _ _ I). destruct (Z.eqb_spec (Z.of_nat (size m)) 0) as [E|E].
  - assert (m = ∅) as -> by (apply map_size_empty_inv; lia). rewrite lookup_empty.
    split; [by intros ?%not_elem_of_nil | by intros [? ?]].
  - rewrite take_ge by (rewrite (inv_ids _ _ I); done).
    rewrite list_elem_of_In, filter_In, <- list_elem_of_In, list_elem_of_lookup, negb_true_iff, Z.eqb_neq.
    destruct (decide (k = 0)) as [->|Hk].
    + rewrite (inv_zero _ _ I). split; [by intros [_ ?] | by intros [? ?]].
    + split.
      * intros [[i Hi] _]. destruct (inv_some _ _ I i k Hk Hi) as [v Hv]. exists v. apply (inv_repr _ _ I); eauto.
      * intros [v (i & Hi & _)%(inv_repr _ _ I)]; [|done]. eauto.
Qed.

Lemma ids_into_nodup t m : table_inv t m -> NoDup (ids_into t).
Proof.
  intros I. unfold ids_into. destruct (_ =? _); [apply NoDup_nil_2|].
  rewrite take_ge by (rewrite (inv_ids _ _ I); done).
  assert (forall l, (forall i j k, k <> 0 -> l !! i = Some k -> l !! j = Some k -> i = j) ->
            NoDup (List.filter (fun k => negb (k =? 0)) l)) as Hf.
  { clear. induction l as [|k l IH]; intros Hinj; cbn; [apply NoDup_nil_2|].
    assert (NoDup (List.filter (fun k => negb (k =? 0)) l)) as Hl.
    { apply IH. intros i j k' Hk' Hi Hj. by assert (S i = S j) as [= ->] by (by apply (Hinj (S i) (S j) k')). }
    destruct (Z.eqb_spec k 0) as [|Hk]; [done|]. cbn. apply NoDup_cons. split; [|done].
    rewrite list_elem_of_In, filter_In, <- list_elem_of_In, list_elem_of_lookup. intros [[i Hi] _].
    by assert (O = S i) by (by apply (Hinj O (S i) k)). }
  apply Hf, (inv_inj _ _ I).
Qed.

(** *** Sequences of operations *)

Inductive table_op := OpPut (id : Z) (s : V) | OpRemove (id : Z).

Definition table_step (t : option (StreamTable V)) (o : table_op) : option (StreamTable V) :=
  t ← t; match o with OpPut id s => put t id s | OpRemove id => remove t id end.

Definition map_step m (o : table_op) : gmap Z V :=
  match o with OpPut id s => <[id := s]> m | OpRemove id => delete id m end.

(** Stream identifiers are never 0, and the table never fills. *)
Fixpoint ops_ok (ops : list table_op) m : Prop :=
  match ops with
  | [] => True
  | o :: ops' =>
      (size m < stream_slots)%nat
      /\ match o with OpPut id _ => id <> 0 | OpRemove _ => True end
      /\ ops_ok ops' (map_step m o)
  end.

Lemma table_run_inv ops t m :
  table_inv t m -> ops_ok ops m ->
  exists t', foldl table_step (Some t) ops = Some t' /\ table_inv t' (foldl map_step m ops).
Proof.
  revert t m. induction ops as [|o ops IH]; intros t m I Hok; [by exists t|].
  destruct Hok as (Hs & Ho & Hok). cbn [foldl].
  assert (exists t1, table_step (Some t) o = Some t1 /\ table_inv t1 (map_step m o)) as (t1 & -> & I1); [|by apply IH].
  destruct o as [id s|id]; [by apply put_spec | by apply remove_spec].
Qed.

(** C18: the stream table is a finite map. After any sequence of insertions and
    removals that never fills it, [get] and [has] answer for every id what a map
    with the same history holds, [len] is its size, [ids_into] lists its keys
    once each; no operation leaves its arrays, and every loop ends. *)
Theorem stream_table_refines_map (ops : list table_op) :
  ops_ok ops ∅ ->
  exists t, foldl table_step (Some new_stream_table) ops = Some t
    /\ (forall id, get t id = Some (foldl map_step ∅ ops !! id))
    /\ (forall id, has t id = Some (bool_decide (is_Some (foldl map_step ∅ ops !! id))))
    /\ len t = Z.of_nat (size (foldl map_step ∅ ops))
    /\ NoDup (ids_into t)
    /\ (forall id, id ∈ ids_into t <-> is_Some (foldl map_step ∅ ops !! id)).
Proof.
  intros Hok. destruct (table_run_inv ops new_stream_table ∅ new_table_inv Hok) as (t & E & I).
  exists t. split; [exact E|]. split; [intros id; by apply get_spec|]. split.
  - intros id. unfold has. pose proof (find_spec t _ id I) as F.
    destruct (foldl map_step ∅ ops !! id) as [v|].
    + destruct F as (i & F & _). rewrite F. done.
    + by rewrite F.
  - split; [apply I|]. split; [by eapply ids_into_nodup | intros id; by apply ids_into_spec].
Qed.
End Refinement.
Arguments table_op V : clear implicits.

(** Streams 1 and 513 share a home slot: removing the first moves the second. *)
Definition demo_ops : list (table_op Z) := [OpPut 1 10; OpPut 513 20; OpPut 3 30; OpRemove 1].

Lemma stream_table_refines_map_witness :
  exists t, foldl table_step (Some new_stream_table) demo_ops = Some t
    /\ (forall id, get t id = Some (foldl map_step ∅ demo_ops !! id))
    /\ (forall id, has t id = Some (bool_decide (is_Some (foldl map_step ∅ demo_ops !! id))))
    /\ len t = Z.of_nat (size (foldl map_step ∅ demo_ops))
    /\ NoDup (ids_into t)
    /\ (forall id, id ∈ ids_into t <-> is_Some (foldl map_step ∅ demo_ops !! id)).
Proof.
  apply (stream_table_refines_map demo_ops).
  split; [vm_compute; lia|]. split; [lia|]. split; [vm_compute; lia|]. split; [lia|].
  split; [vm_compute; lia|]. split; [lia|]. split; [vm_compute; lia|]. split; exact Logic.I.
Defined.
