(* ===== verification/Huffman.v ===== *)
(** The Huffman code of HPACK: [huffman_decode] of http2/hpack.v and its tables,
    against the code read bit by bit. *)
From S2P Require Import Prelude WireBytes.
Local Open Scope Z_scope.

Definition huff_len : list Z :=
  [5; 6; 7; 8; 10; 11; 12; 13; 14; 15; 19; 20; 21; 22; 23; 24; 25; 26; 27; 28; 30].

Definition huff_first : list Z :=
  [0x0; 0x14; 0x5c; 0xf8; 0x3f8; 0x7fa; 0xffa; 0x1ff8; 0x3ffc; 0x7ffc; 0x7fff0; 0xfffe6; 0x1fffdc;
   0x3fffd2; 0x7fffd8; 0xffffea; 0x1ffffec; 0x3ffffe0; 0x7ffffde; 0xfffffe2; 0x3ffffffc].

Definition huff_count : list Z :=
  [10; 26; 32; 6; 5; 3; 2; 6; 2; 3; 3; 8; 13; 26; 29; 12; 4; 15; 19; 29; 4].

Definition huff_base : list Z :=
  [0; 10; 36; 68; 74; 79; 82; 84; 90; 92; 95; 98; 106; 119; 145; 174; 186; 190; 205; 224; 253].

Definition huff_symbol : list Z :=
  [48; 49; 50; 97; 99; 101; 105; 111; 115; 116; 32; 37; 45; 46; 47; 51; 52; 53; 54; 55; 56; 57; 61;
   65; 95; 98; 100; 102; 103; 104; 108; 109; 110; 112; 114; 117; 58; 66; 67; 68; 69; 70; 71; 72; 73;
   74; 75; 76; 77; 78; 79; 80; 81; 82; 83; 84; 85; 86; 87; 89; 106; 107; 113; 118; 119; 120; 121;
   122; 38; 42; 44; 59; 88; 90; 33; 34; 40; 41; 63; 39; 43; 124; 35; 62; 0; 36; 64; 91; 93; 126; 94;
   125; 60; 96; 123; 92; 195; 208; 128; 130; 131; 162; 184; 194; 224; 226; 153; 161; 167; 172; 176;
   177; 179; 209; 216; 217; 227; 229; 230; 129; 132; 133; 134; 136; 146; 154; 156; 160; 163; 164;
   169; 170; 173; 178; 181; 185; 186; 187; 189; 190; 196; 198; 228; 232; 233; 1; 135; 137; 138; 139;
   140; 141; 143; 147; 149; 150; 151; 152; 155; 157; 158; 165; 166; 168; 174; 175; 180; 182; 183;
   188; 191; 197; 231; 239; 9; 142; 144; 145; 148; 159; 171; 206; 215; 225; 236; 237; 199; 207; 234;
   235; 192; 193; 200; 201; 202; 205; 210; 213; 218; 219; 238; 240; 242; 243; 255; 203; 204; 211;
   212; 214; 221; 222; 223; 241; 244; 245; 246; 247; 248; 250; 251; 252; 253; 254; 2; 3; 4; 5; 6; 7;
   8; 11; 12; 14; 15; 16; 17; 18; 19; 20; 21; 23; 24; 25; 26; 27; 28; 29; 30; 31; 127; 220; 249; 10;
   13; 22; 256].

(** The rows of the parallel tables: length, first code, count, base. *)
Definition huff_rows : list (Z * Z * Z * Z) := zip (zip (zip huff_len huff_first) huff_count) huff_base.

(** What the scan of the rows finds: no code, the code of [sym] of [l] bits, or an
    index outside [huff_symbol]. *)
Inductive huff_hit := NoHit | Hit (sym l : Z) | HitPanic.

(** [for i in 0 .. huff_len.len]: the symbol whose code the [nbits] bits of [cur]
    begin with. *)
Fixpoint huff_match (rows : list (Z * Z * Z * Z)) (cur nbits : Z) : huff_hit :=
  match rows with
  | [] => NoHit
  | (l, first, count, base) :: rows' =>
      if nbits <? l then NoHit
      else
        let top := u32 (Z.shiftr cur (nbits - l)) in
        if (first <=? top) && (top <? first + count)
        then match huff_symbol !! Z.to_nat (base + (top - first)) with
             | Some sym => Hit sym l
             | None => HitPanic
             end
        else huff_match rows' cur nbits
  end.

(** The errors of [huffman_decode]; [HuffPanic] is an index out of range,
    [HuffFuel] the end of the model's fuel. *)
Inductive huff_error := HuffEos | HuffInvalid | HuffLongPadding | HuffBadPadding | HuffPanic | HuffFuel.

(** The inner [for]: symbols are taken off while one matches. Each round takes at
    least one bit, so [nbits] rounds are enough. *)
Fixpoint huff_drain (fuel : nat) (cur nbits : Z) (out : list byte) : list byte * ((Z * Z) + huff_error) :=
  match huff_match huff_rows cur nbits with
  | HitPanic => (out, inr HuffPanic)
  | NoHit => (out, if 30 <=? nbits then inr HuffInvalid else inl (cur, nbits))
  | Hit sym l =>
      if sym =? 256 then (out, inr HuffEos)
      else
        match fuel with
        | O => (out, inr HuffFuel)
        | S f => huff_drain f (Z.land cur (u64w (Z.shiftl 1 (nbits - l)) - 1)) (nbits - l) (out ++ [byte_of_Z sym])
        end
  end.

(** [for b in src]. *)
Fixpoint huff_bytes (src : list byte) (cur nbits : Z) (out : list byte) : list byte * ((Z * Z) + huff_error) :=
  match src with
  | [] => (out, inl (cur, nbits))
  | b :: src' =>
      let cur := Z.lor (u64w (Z.shiftl cur 8)) (byte_val b) in
      let nbits := nbits + 8 in
      match huff_drain (Z.to_nat nbits) cur nbits out with
      | (out, inr e) => (out, inr e)
      | (out, inl (cur, nbits)) => huff_bytes src' cur nbits out
      end
  end.

(** [huffman_decode]: [out] with the octets appended to it, and the error. *)
Definition huffman_decode (src out : list byte) : list byte * option huff_error :=
  match huff_bytes src 0 0 out with
  | (out, inr e) => (out, Some e)
  | (out, inl (cur, nbits)) =>
      if 7 <? nbits then (out, Some HuffLongPadding)
      else if negb (cur =? Z.shiftl 1 nbits - 1) then (out, Some HuffBadPadding)
      else (out, None)
  end.

(** ** Bits *)

(** The value of a bit string, the most significant bit first. *)
Definition bits_val (l : list bool) : Z := foldl (fun v b => 2 * v + Z.b2z b) 0 l.

Fixpoint to_bits (n : nat) (v : Z) : list bool :=
  match n with
  | O => []
  | S n' => to_bits n' (v / 2) ++ [Z.odd v]
  end.

Lemma bits_val_snoc l b : bits_val (l ++ [b]) = 2 * bits_val l + Z.b2z b.
Proof. unfold bits_val. by rewrite foldl_app. Qed.

Lemma length_to_bits n v : length (to_bits n v) = n.
Proof. revert v. induction n as [|n IH]; intros v; cbn; [done|]. rewrite length_app, IH. cbn. lia. Qed.

Lemma bits_val_app p q : bits_val (p ++ q) = bits_val p * 2 ^ Z.of_nat (length q) + bits_val q.
Proof.
  induction q as [|b q IH] using rev_ind; [rewrite app_nil_r; cbn; lia|].
  rewrite app_assoc, !bits_val_snoc, IH, length_app. cbn [length].
  rewrite Nat2Z.inj_add, Z.pow_add_r by lia. change (2 ^ Z.of_nat 1) with 2. lia.
Qed.

Lemma bits_val_range l : 0 <= bits_val l < 2 ^ Z.of_nat (length l).
Proof.
  induction l as [|b l IH] using rev_ind; [done|].
  rewrite bits_val_snoc, length_app. cbn [length]. rewrite Nat2Z.inj_add, Z.pow_add_r by lia.
  change (2 ^ Z.of_nat 1) with 2. destruct b; cbn [Z.b2z]; lia.
Qed.

Lemma to_bits_val l : to_bits (length l) (bits_val l) = l.
Proof.
  induction l as [|b l IH] using rev_ind; [done|].
  rewrite length_app, Nat.add_1_r, bits_val_snoc. cbn [to_bits].
  replace ((2 * bits_val l + Z.b2z b) / 2) with (bits_val l) by
    (apply (Z.div_unique _ 2 _ (Z.b2z b)); [left; destruct b; cbn [Z.b2z]|]; lia).
  rewrite IH, Z.add_comm, Z.odd_add_mul_2. by destruct b.
Qed.

Lemma bits_val_to_bits n v : 0 <= v < 2 ^ Z.of_nat n -> bits_val (to_bits n v) = v.
Proof.
  revert v. induction n as [|n IH]; intros v Hv; [cbn in *; lia|].
  cbn [to_bits]. rewrite bits_val_snoc. rewrite Nat2Z.inj_succ, Z.pow_succ_r in Hv by lia.
  rewrite IH by (split; [apply Z.div_pos | apply Z.div_lt_upper_bound]; lia).
  rewrite (Z.div_mod v 2) at 3 by lia. rewrite Zmod_odd. destruct (Z.odd v); cbn [Z.b2z]; lia.
Qed.

(** The first bits of a string, by a shift; the others, by a mask. *)
Lemma shiftr_bits p q : Z.shiftr (bits_val (p ++ q)) (Z.of_nat (length q)) = bits_val p.
Proof.
  rewrite bits_val_app, Z.shiftr_div_pow2 by lia. pose proof (bits_val_range q).
  rewrite Z.div_add_l, Z.div_small by lia. lia.
Qed.

Lemma mask_bits p q : Z.land (bits_val (p ++ q)) (Z.shiftl 1 (Z.of_nat (length q)) - 1) = bits_val q.
Proof.
  change (Z.land (bits_val (p ++ q)) (Z.pred (Z.shiftl 1 (Z.of_nat (length q)))) = bits_val q).
  fold (Z.ones (Z.of_nat (length q))). rewrite Z.land_ones by lia.
  rewrite bits_val_app, Z.add_comm, Z_mod_plus_full. apply Z.mod_small, bits_val_range.
Qed.

(** ** The code, read off the tables *)

Definition byte_bits (b : byte) : list bool := to_bits 8 (byte_val b).
Definition src_bits (src : list byte) : list bool := concat (byte_bits <$> src).

(** Every symbol of a row with its code: the codes of a length are consecutive. *)
Definition row_codes (row : Z * Z * Z * Z) : list (Z * list bool) :=
  let '(l, first, count, base) := row in
  (fun i => (default 0 (huff_symbol !! Z.to_nat (base + i)), to_bits (Z.to_nat l) (first + i))) <$> seqZ 0 count.

Definition huff_codes : list (Z * list bool) := concat (row_codes <$> huff_rows).

Definition code (sym : Z) : list bool :=
  match list_find (fun sc => sc.1 = sym) huff_codes with Some (_, (_, c)) => c | None => [] end.

Definition match_bits (p : list bool) : huff_hit :=
  huff_match huff_rows (bits_val p) (Z.of_nat (length p)).

(** Rows in order of length, consecutive codes, symbols inside the table. *)
Definition row_ok (row : Z * Z * Z * Z) : bool :=
  let '(l, first, count, base) := row in
  (5 <=? l) && (l <=? 30) && (0 <=? first) && (0 <=? count) && (0 <=? base) && (base + count <=? 257).

(** From the row [(l, first, _, _)] on, the code of the next length begins where the
    codes of this one end, and the last row ends at the all-ones word. *)
Fixpoint canonical (l next : Z) (rows : list (Z * Z * Z * Z)) : bool :=
  match rows with
  | [] => (l =? 30) && (next =? 2 ^ 30)
  | (l', first, count, _) :: rows' =>
      (l <=? l') && (first =? next * 2 ^ (l' - l)) && canonical l' (first + count) rows'
  end.

Lemma rows_ok : forallb row_ok huff_rows = true.
Proof. vm_compute. reflexivity. Qed.

Lemma rows_canonical : canonical 0 0 huff_rows = true.
Proof. vm_compute. reflexivity. Qed.

Definition hit_is (h : huff_hit) (s l : Z) : bool :=
  match h with Hit s' l' => (s =? s') && (l =? l') | _ => false end.

Lemma hit_is_true h s l : hit_is h s l = true -> h = Hit s l.
Proof. destruct h as [|s' l'|]; cbn; [done| |done]. intros [->%Z.eqb_eq ->%Z.eqb_eq]%andb_prop. done. Qed.

Lemma codes_match s c : (s, c) ∈ huff_codes -> match_bits c = Hit s (Z.of_nat (length c)).
Proof.
  intros H. assert (E : forallb (fun sc => hit_is (match_bits sc.2) sc.1 (Z.of_nat (length sc.2))) huff_codes = true)
    by (vm_compute; reflexivity).
  rewrite forallb_forall in E. specialize (E (s, c)). apply hit_is_true, E. by apply list_elem_of_In.
Qed.

Lemma codes_unique s c : (s, c) ∈ huff_codes -> code s = c.
Proof.
  intros H. assert (E : forallb (fun sc => bool_decide (code sc.1 = sc.2)) huff_codes = true) by (vm_compute; reflexivity).
  rewrite forallb_forall in E. specialize (E (s, c) (proj1 (list_elem_of_In _ _) H)).
  by apply bool_decide_eq_true_1 in E.
Qed.

Lemma codes_symbol s c : (s, c) ∈ huff_codes -> 0 <= s <= 256.
Proof.
  intros H. assert (E : forallb (fun sc => (0 <=? sc.1) && (sc.1 <=? 256)) huff_codes = true) by (vm_compute; reflexivity).
  rewrite forallb_forall in E. specialize (E (s, c)). apply list_elem_of_In in H. specialize (E H). cbn in E. lia.
Qed.

Lemma codes_total s : 0 <= s <= 256 -> (s, code s) ∈ huff_codes.
Proof.
  intros H. assert (E : forallb (fun s => bool_decide ((s, code s) ∈ huff_codes)) (seqZ 0 257) = true)
    by (vm_compute; reflexivity).
  rewrite forallb_forall in E. assert (Hs : In s (seqZ 0 257)) by (apply list_elem_of_In, elem_of_seqZ; lia).
  specialize (E s Hs). by apply bool_decide_eq_true_1 in E.
Qed.

(** *** The code of RFC 7541

    Appendix B gives each symbol the length of its code word; the code is the canonical one
    for these lengths: words in the order of length, then of symbol, each the next one free. *)
Definition rfc7541_lengths : list Z :=
  [13; 23; 28; 28; 28; 28; 28; 28; 28; 24; 30; 28; 28; 30; 28; 28; 28; 28; 28; 28; 28; 28; 30; 28; 28; 28; 28; 28; 28; 28; 28; 28;
   6; 10; 10; 12; 13; 6; 8; 11; 10; 10; 8; 11; 8; 6; 6; 6; 5; 5; 5; 6; 6; 6; 6; 6; 6; 6; 7; 8; 15; 6; 12; 10;
   13; 6; 7; 7; 7; 7; 7; 7; 7; 7; 7; 7; 7; 7; 7; 7; 7; 7; 7; 7; 7; 7; 7; 7; 8; 7; 8; 13; 19; 13; 14; 6;
   15; 5; 6; 5; 6; 5; 6; 6; 6; 5; 7; 7; 6; 6; 6; 5; 6; 7; 6; 5; 5; 6; 7; 7; 7; 7; 7; 15; 11; 14; 13; 28;
   20; 22; 20; 20; 22; 22; 22; 23; 22; 23; 23; 23; 23; 23; 24; 23; 24; 24; 22; 23; 24; 23; 23; 23; 23; 21; 22; 23; 22; 23; 23; 24;
   22; 21; 20; 22; 22; 23; 23; 21; 23; 22; 22; 24; 21; 22; 23; 23; 21; 21; 22; 21; 23; 22; 23; 23; 20; 22; 22; 22; 23; 22; 22; 23;
   26; 26; 20; 19; 22; 23; 22; 25; 26; 26; 26; 27; 27; 26; 24; 25; 19; 21; 26; 27; 27; 26; 27; 24; 21; 21; 26; 26; 28; 27; 27; 27;
   20; 24; 20; 21; 22; 21; 21; 23; 22; 22; 25; 25; 24; 24; 26; 23; 26; 27; 26; 26; 27; 27; 27; 27; 27; 28; 27; 27; 27; 27; 27; 26;
   30].

Definition rfc7541_length (s : Z) : Z := default 0 (rfc7541_lengths !! Z.to_nat s).

(** What the words in front of that of [s] take of the 30-bit words. *)
Definition rfc7541_before (s : Z) : Z :=
  foldr (fun t n => let l := rfc7541_length t in
    if (l <? rfc7541_length s) || ((l =? rfc7541_length s) && (t <? s)) then 2 ^ (30 - l) + n else n) 0 (seqZ 0 257).

Definition rfc7541_code (s : Z) : list bool := to_bits (Z.to_nat (rfc7541_length s)) (Z.shiftr (rfc7541_before s) (30 - rfc7541_length s)).

(** The code words of a string, one after the other. *)
Definition huff_bits (s : list byte) : list bool := concat ((fun b => rfc7541_code (byte_val b)) <$> s).

(** The tables of the code hold that code. *)
Lemma code_is_rfc7541 s : 0 <= s <= 256 -> code s = rfc7541_code s.
Proof.
  intros H. assert (E : forallb (fun s => bool_decide (code s = rfc7541_code s)) (seqZ 0 257) = true) by (vm_compute; reflexivity).
  rewrite forallb_forall in E. assert (Hs : In s (seqZ 0 257)) by (apply list_elem_of_In, elem_of_seqZ; lia). specialize (E s Hs). by apply bool_decide_eq_true_1 in E.
Qed.

(** ** The scan finds exactly the code word at the front *)

Lemma shiftr_take l p :
  0 <= l <= Z.of_nat (length p) ->
  Z.shiftr (bits_val p) (Z.of_nat (length p) - l) = bits_val (take (Z.to_nat l) p).
Proof.
  intros H. pose proof (shiftr_bits (take (Z.to_nat l) p) (drop (Z.to_nat l) p)) as E.
  rewrite take_drop, length_drop in E. rewrite <- E. f_equal. lia.
Qed.

Lemma u32_take l p : 0 <= l <= 30 -> u32 (bits_val (take (Z.to_nat l) p)) = bits_val (take (Z.to_nat l) p).
Proof.
  intros H. apply Z.mod_small. pose proof (bits_val_range (take (Z.to_nat l) p)) as R.
  assert (2 ^ Z.of_nat (length (take (Z.to_nat l) p)) <= 2 ^ 30)
    by (apply Z.pow_le_mono_r; [lia | rewrite length_take; lia]).
  change (2 ^ 32) with (4 * 2 ^ 30). lia.
Qed.

(** One row, on the bits: the first [l] of them, when there are as many. *)
Lemma huff_match_cons l first count base rows p :
  row_ok (l, first, count, base) = true ->
  huff_match ((l, first, count, base) :: rows) (bits_val p) (Z.of_nat (length p)) =
  if Z.of_nat (length p) <? l then NoHit
  else
    let top := bits_val (take (Z.to_nat l) p) in
    if (first <=? top) && (top <? first + count)
    then match huff_symbol !! Z.to_nat (base + (top - first)) with
         | Some sym => Hit sym l
         | None => HitPanic
         end
    else huff_match rows (bits_val p) (Z.of_nat (length p)).
Proof.
  intros Hok. cbn [huff_match]. destruct (Z.ltb_spec (Z.of_nat (length p)) l); [done|].
  unfold row_ok in Hok. by rewrite shiftr_take, u32_take by lia.
Qed.

Lemma huff_match_app rows p q s l :
  forallb row_ok rows = true ->
  huff_match rows (bits_val p) (Z.of_nat (length p)) = Hit s l ->
  huff_match rows (bits_val (p ++ q)) (Z.of_nat (length (p ++ q))) = Hit s l.
Proof.
  induction rows as [|[[[l' first] count] base] rows IH]; intros Hok E; [done|].
  cbn [forallb] in Hok. apply andb_prop in Hok as [Hok Hoks].
  rewrite huff_match_cons in E |- * by done. cbv zeta in E |- *.
  destruct (Z.ltb_spec (Z.of_nat (length p)) l'); [done|].
  destruct (Z.ltb_spec (Z.of_nat (length (p ++ q))) l') as [Hl|_]; [rewrite length_app in Hl; lia|].
  rewrite take_app_le by (unfold row_ok in Hok; lia).
  destruct (_ && _) in E |- *; [done | by apply IH].
Qed.

Lemma huff_match_sound rows p s l :
  forallb row_ok rows = true ->
  huff_match rows (bits_val p) (Z.of_nat (length p)) = Hit s l ->
  (s, take (Z.to_nat l) p) ∈ concat (row_codes <$> rows) /\ 5 <= l <= Z.of_nat (length p).
Proof.
  induction rows as [|[[[l' first] count] base] rows IH]; intros Hok E; [done|].
  cbn [forallb] in Hok. apply andb_prop in Hok as [Hok Hoks].
  rewrite huff_match_cons in E by done. cbv zeta in E.
  destruct (Z.ltb_spec (Z.of_nat (length p)) l'); [done|]. unfold row_ok in Hok.
  cbn [fmap list_fmap concat]. rewrite elem_of_app.
  destruct (_ && _) eqn:Hin in E; [|destruct (IH Hoks E); auto]. split; [|destruct (_ !! _); simplify_eq; lia].
  left. unfold row_codes. apply list_elem_of_fmap. exists (bits_val (take (Z.to_nat l') p) - first).
  rewrite elem_of_seqZ. split; [|lia]. destruct (_ !! _) eqn:Es in E |- *; simplify_eq. cbn [default].
  f_equal. replace (first + _) with (bits_val (take (Z.to_nat l) p)) by lia.
  rewrite <- (to_bits_val (take (Z.to_nat l) p)) at 1. f_equal. rewrite length_take. lia.
Qed.

Lemma huff_match_no_panic rows p :
  forallb row_ok rows = true ->
  huff_match rows (bits_val p) (Z.of_nat (length p)) <> HitPanic.
Proof.
  induction rows as [|[[[l first] count] base] rows IH]; intros Hok; [done|].
  cbn [forallb] in Hok. apply andb_prop in Hok as [Hok Hoks]. rewrite huff_match_cons by done. cbv zeta.
  destruct (_ <? _); [done|]. destruct (_ && _) eqn:Hin; [|by apply IH]. unfold row_ok in Hok.
  destruct (lookup_lt_is_Some_2 huff_symbol (Z.to_nat (base + (bits_val (take (Z.to_nat l) p) - first)))) as [s ->];
    [change (length huff_symbol) with 257%nat; lia | done].
Qed.

(** The code is complete: thirty bits always begin with a code word. *)
Lemma huff_match_complete rows l0 next p :
  forallb row_ok rows = true -> canonical l0 next rows = true -> 30 <= Z.of_nat (length p) -> 0 <= l0 <= 30 ->
  next <= bits_val (take (Z.to_nat l0) p) ->
  huff_match rows (bits_val p) (Z.of_nat (length p)) <> NoHit.
Proof.
  revert l0 next. induction rows as [|[[[l first] count] base] rows IH]; intros l0 next Hok Hc Hp Hl Hn.
  - cbn in Hc. pose proof (bits_val_range (take (Z.to_nat l0) p)) as R. rewrite length_take_le in R by lia.
    replace (Z.of_nat (Z.to_nat l0)) with 30 in R by lia. lia.
  - cbn [forallb canonical] in Hok, Hc. apply andb_prop in Hok as [Hok Hoks]. apply andb_prop in Hc as [Hc Hcs].
    rewrite huff_match_cons by done. cbv zeta. pose proof Hok as Hr. unfold row_ok in Hr.
    destruct (Z.ltb_spec (Z.of_nat (length p)) l); [lia|].
    assert (Hle : first <= bits_val (take (Z.to_nat l) p)).
    { replace (take (Z.to_nat l) p) with (take (Z.to_nat l0) p ++ take (Z.to_nat (l - l0)) (drop (Z.to_nat l0) p))
        by (rewrite take_take_drop; f_equal; lia).
      rewrite bits_val_app, length_take, length_drop.
      replace (Z.of_nat (_ `min` _)) with (l - l0) by lia.
      pose proof (bits_val_range (take (Z.to_nat (l - l0)) (drop (Z.to_nat l0) p))). nia. }
    destruct ((first <=? bits_val _) && _) eqn:Hin; [by destruct (_ !! _)|].
    apply (IH l (first + count)); auto; lia.
Qed.

Lemma match_bits_hit p s l :
  match_bits p = Hit s l <-> (exists q, p = code s ++ q) /\ l = Z.of_nat (length (code s)) /\ 0 <= s <= 256.
Proof.
  split.
  - intros E. destruct (huff_match_sound _ _ _ _ rows_ok E) as [Hc Hl].
    pose proof (codes_unique _ _ Hc) as Eq. pose proof (codes_symbol _ _ Hc).
    split; [|split; [rewrite Eq, length_take; lia | done]]. exists (drop (Z.to_nat l) p). by rewrite Eq, take_drop.
  - intros ([q ->] & -> & Hs). apply huff_match_app; [apply rows_ok|]. by apply codes_match, codes_total.
Qed.

Lemma match_bits_cases p :
  (exists s q, p = code s ++ q /\ 0 <= s <= 256 /\ match_bits p = Hit s (Z.of_nat (length (code s)))) \/
  match_bits p = NoHit /\ (length p < 30)%nat.
Proof.
  destruct (match_bits p) as [|s l|] eqn:E.
  - right. split; [done|]. destruct (decide (length p < 30)%nat); [done|].
    exfalso. refine (huff_match_complete huff_rows 0 0 p rows_ok rows_canonical _ _ _ E); [lia.. | apply bits_val_range].
  - left. apply match_bits_hit in E as ([q ->] & -> & Hs). by exists s, q.
  - destruct (huff_match_no_panic huff_rows p rows_ok E).
Qed.

(** ** Draining and the whole input *)

Lemma huff_bits_app s t : huff_bits (s ++ t) = huff_bits s ++ huff_bits t.
Proof. unfold huff_bits. by rewrite fmap_app, concat_app. Qed.

Lemma byte_sym b : 0 <= byte_val b <= 256.
Proof. pose proof (byte_val_range b). lia. Qed.

Lemma huff_bits_cons b s : huff_bits (b :: s) = code (byte_val b) ++ huff_bits s.
Proof. rewrite code_is_rfc7541 by apply byte_sym. done. Qed.

Lemma code_length s : 0 <= s <= 256 -> (5 <= length (code s) <= 30)%nat.
Proof.
  intros Hs. pose proof (codes_total s Hs) as Hc.
  assert (E : forallb (fun sc => bool_decide (5 <= length sc.2 <= 30)%nat) huff_codes = true) by (vm_compute; reflexivity).
  rewrite forallb_forall in E. specialize (E _ (proj1 (list_elem_of_In _ _) Hc)). by apply bool_decide_eq_true_1 in E.
Qed.

(** What the inner loop leaves of [p]: either a remainder no code word begins, with
    the octets before it, or the EOS word after some octets. *)
Definition drained (p : list bool) (out : list byte) (r : list byte * ((Z * Z) + huff_error)) : Prop :=
  (exists s p', p = huff_bits s ++ p' /\ match_bits p' = NoHit /\ (length p' < 30)%nat /\
     r = (out ++ s, inl (bits_val p', Z.of_nat (length p')))) \/
  (exists s q, p = huff_bits s ++ code 256 ++ q /\ r = (out ++ s, inr HuffEos)).

Lemma huff_drain_nohit fuel p out :
  match_bits p = NoHit -> (length p < 30)%nat ->
  huff_drain fuel (bits_val p) (Z.of_nat (length p)) out = (out, inl (bits_val p, Z.of_nat (length p))).
Proof.
  intros E Hl. unfold match_bits in E. destruct fuel; cbn [huff_drain]; rewrite E;
    (destruct (Z.leb_spec 30 (Z.of_nat (length p))); [lia | done]).
Qed.

Lemma huff_drain_spec fuel p out :
  (length p <= fuel)%nat -> (length p <= 63)%nat ->
  drained p out (huff_drain fuel (bits_val p) (Z.of_nat (length p)) out).
Proof.
  revert p out. induction fuel as [|fuel IH]; intros p out Hf Hp;
    (destruct (match_bits_cases p) as [(s & q & -> & Hs & E)|[E Hl]];
     [pose proof (code_length s Hs) | left; exists [], p; by rewrite app_nil_r, huff_drain_nohit]).
  { rewrite length_app in Hf. lia. }
  cbn [huff_drain]. unfold match_bits in E. rewrite E.
  destruct (Z.eqb_spec s 256) as [->|Hn]; [right; exists [], q; by rewrite app_nil_r|].
  rewrite length_app in Hf, Hp |- *.
  replace (Z.of_nat (length (code s) + length q) - Z.of_nat (length (code s))) with (Z.of_nat (length q)) by lia.
  assert (Hw : u64w (Z.shiftl 1 (Z.of_nat (length q))) = Z.shiftl 1 (Z.of_nat (length q))).
  { apply Z.mod_small. rewrite Z.shiftl_1_l. split; [lia | apply Z.pow_lt_mono_r; lia]. }
  rewrite Hw, mask_bits.
  destruct (IH q (out ++ [byte_of_Z s])) as [(t & p' & -> & Hm & Hl & ->)|(t & r & -> & ->)]; [lia..| |].
  - left. exists (byte_of_Z s :: t), p'. rewrite huff_bits_cons, byte_val_of_Z_small, <- !app_assoc by lia. done.
  - right. exists (byte_of_Z s :: t), r. rewrite huff_bits_cons, byte_val_of_Z_small, <- !app_assoc by lia. done.
Qed.

Lemma src_bits_cons b src : src_bits (b :: src) = byte_bits b ++ src_bits src.
Proof. done. Qed.

Lemma push_byte p b :
  (length p < 30)%nat ->
  Z.lor (u64w (Z.shiftl (bits_val p) 8)) (byte_val b) = bits_val (p ++ byte_bits b) /\
  Z.of_nat (length p) + 8 = Z.of_nat (length (p ++ byte_bits b)).
Proof.
  intros Hp. pose proof (byte_val_range b) as Hb. pose proof (bits_val_range p) as R.
  assert (Hle : 2 ^ Z.of_nat (length p) <= 2 ^ 30) by (apply Z.pow_le_mono_r; lia).
  unfold byte_bits. rewrite length_app, bits_val_app, length_to_bits, bits_val_to_bits by (change (2 ^ Z.of_nat 8) with 256; lia).
  split; [|lia]. unfold u64w. rewrite Z.mod_small.
  - rewrite lor_shiftl_byte. done.
  - rewrite Z.shiftl_mul_pow2 by lia. change (2 ^ 64) with (2 ^ 30 * 2 ^ 34). lia.
Qed.

Lemma huff_bytes_spec src p out :
  match_bits p = NoHit -> (length p < 30)%nat ->
  drained (p ++ src_bits src) out (huff_bytes src (bits_val p) (Z.of_nat (length p)) out).
Proof.
  revert p out. induction src as [|b src IH]; intros p out Hm Hp.
  - left. exists [], p. by rewrite !app_nil_r.
  - cbn [huff_bytes]. cbv zeta. destruct (push_byte p b Hp) as [-> El]. rewrite El, src_bits_cons, app_assoc.
    assert (Hl : (length (p ++ byte_bits b) < 38)%nat) by (unfold byte_bits; rewrite length_app, length_to_bits; lia).
    destruct (huff_drain_spec (Z.to_nat (Z.of_nat (length (p ++ byte_bits b)))) (p ++ byte_bits b) out)
      as [(s & p' & Ep & Hm' & Hl' & ->)|(s & q & Ep & ->)]; [lia..| |]; rewrite Ep.
    + destruct (IH p' (out ++ s) Hm' Hl') as [(t & p'' & Et & ? & ? & ->)|(t & q & Et & ->)];
        rewrite <- (app_assoc _ p'), Et; [left; exists (s ++ t), p'' | right; exists (s ++ t), q];
        rewrite huff_bits_app, <- ?app_assoc; done.
    + right. exists s, (q ++ src_bits src). by rewrite <- !app_assoc.
Qed.

(** ** Unique reading *)

Lemma code_prefix_free a b q r : 0 <= a <= 256 -> 0 <= b <= 256 -> code a ++ q = code b ++ r -> a = b.
Proof.
  intros Ha Hb E. assert (M1 : match_bits (code a ++ q) = Hit a (Z.of_nat (length (code a))))
    by (apply match_bits_hit; eauto).
  assert (M2 : match_bits (code b ++ r) = Hit b (Z.of_nat (length (code b)))) by (apply match_bits_hit; eauto).
  rewrite E in M1. congruence.
Qed.

Lemma nohit_code s q : 0 <= s <= 256 -> match_bits (code s ++ q) <> NoHit.
Proof.
  intros Hs. enough (match_bits (code s ++ q) = Hit s (Z.of_nat (length (code s)))) as -> by done.
  apply match_bits_hit; eauto.
Qed.

Lemma huff_read_unique s p t q :
  match_bits p = NoHit -> match_bits q = NoHit -> huff_bits s ++ p = huff_bits t ++ q -> s = t /\ p = q.
Proof.
  intros Hp Hq. revert t. induction s as [|a s IH]; intros [|b t] E; rewrite ?huff_bits_cons, <- ?app_assoc in E.
  - done.
  - cbn in E. subst p. by destruct (nohit_code _ _ (byte_sym b) Hp).
  - cbn in E. subst q. by destruct (nohit_code _ _ (byte_sym a) Hq).
  - pose proof (code_prefix_free _ _ _ _ (byte_sym a) (byte_sym b) E) as Hab%byte_val_inj. subst b.
    apply app_inv_head in E. destruct (IH t E) as [-> ->]. done.
Qed.

Lemma huff_read_eos s p t q :
  match_bits p = NoHit -> huff_bits s ++ p = huff_bits t ++ code 256 ++ q -> False.
Proof.
  intros Hp. revert t. induction s as [|a s IH]; intros [|b t] E; rewrite ?huff_bits_cons, <- ?app_assoc in E; cbn [huff_bits fmap list_fmap concat app] in E.
  - subst p. by apply (nohit_code 256 q); [lia|].
  - subst p. by destruct (nohit_code _ _ (byte_sym b) Hp).
  - assert (byte_val a = 256) by (eapply code_prefix_free; [apply byte_sym | lia | exact E]).
    pose proof (byte_val_range a). lia.
  - pose proof (code_prefix_free _ _ _ _ (byte_sym a) (byte_sym b) E) as Hab%byte_val_inj. subst b.
    apply app_inv_head in E. eauto.
Qed.

Lemma ones_nohit k : (k < 8)%nat -> match_bits (replicate k true) = NoHit.
Proof. intros Hk. do 8 (destruct k as [|k]; [vm_compute; reflexivity|]). lia. Qed.

Lemma bits_val_ones p : bits_val p = 2 ^ Z.of_nat (length p) - 1 -> p = replicate (length p) true.
Proof.
  induction p as [|b p IH] using rev_ind; [done|].
  rewrite bits_val_snoc, length_app, Nat.add_1_r, Nat2Z.inj_succ, Z.pow_succ_r by lia. intros E.
  rewrite replicate_S_end. destruct b; cbn [Z.b2z] in E; [|lia]. rewrite <- IH by lia. done.
Qed.

Lemma bits_val_replicate k : bits_val (replicate k true) = 2 ^ Z.of_nat k - 1.
Proof.
  induction k as [|k IH]; [done|].
  rewrite replicate_S_end, bits_val_snoc, IH, Nat2Z.inj_succ, Z.pow_succ_r by lia. cbn [Z.b2z]. lia.
Qed.

(** The whole routine by what draining the input leaves. *)
Lemma huffman_decode_cases src out :
  (exists s p, src_bits src = huff_bits s ++ p /\ match_bits p = NoHit /\
     huffman_decode src out =
       (out ++ s,
        if decide (length p < 8 /\ p = replicate (length p) true)%nat then None
        else if decide (length p < 8)%nat then Some HuffBadPadding else Some HuffLongPadding)) \/
  (exists s q, src_bits src = huff_bits s ++ code 256 ++ q /\ huffman_decode src out = (out ++ s, Some HuffEos)).
Proof.
  assert (H : drained (src_bits src) out (huff_bytes src 0 0 out))
    by (apply (huff_bytes_spec src []); [vm_compute; reflexivity | cbn; lia]).
  unfold huffman_decode. destruct H as [(s & p & E & Hm & Hl & ->)|(s & q & E & ->)]; [left|right; by exists s, q].
  exists s, p. split; [done|]. split; [done|]. rewrite Z.shiftl_1_l.
  destruct (Z.ltb_spec 7 (Z.of_nat (length p))); [rewrite !decide_False by lia; done|].
  destruct (Z.eqb_spec (bits_val p) (2 ^ Z.of_nat (length p) - 1)) as [Hv|Hv]; cbn [negb].
  - rewrite decide_True; [done|]. split; [lia | by apply bits_val_ones].
  - rewrite decide_False, decide_True; [done | lia |]. intros [_ Hp]. apply Hv. rewrite Hp at 1.
    apply bits_val_replicate.
Qed.

Lemma huffman_decode_ok src out s k :
  (k < 8)%nat -> src_bits src = huff_bits s ++ replicate k true -> huffman_decode src out = (out ++ s, None).
Proof.
  intros Hk E. pose proof (ones_nohit k Hk) as Hm.
  destruct (huffman_decode_cases src out) as [(t & p & Et & Hp & ->)|(t & q & Et & _)]; rewrite E in Et.
  - destruct (huff_read_unique _ _ _ _ Hm Hp Et) as [-> <-].
    rewrite decide_True by (rewrite length_replicate; done). done.
  - by destruct (huff_read_eos _ _ _ _ Hm Et).
Qed.

Lemma huffman_decode_inl src out o :
  huffman_decode src out = (o, None) ->
  exists s k, o = out ++ s /\ (k < 8)%nat /\ src_bits src = huff_bits s ++ replicate k true.
Proof.
  destruct (huffman_decode_cases src out) as [(s & p & E & Hp & ->)|(s & q & _ & ->)]; [|done].
  destruct (decide (length p < 8 ∧ p = replicate (length p) true)%nat) as [[Hl Hr]|]; [|by destruct (decide (length p < 8)%nat)].
  intros [= <-]. exists s, (length p). by rewrite <- Hr.
Qed.

(** The shortest code word has five bits: [n] octets decode to at most [8n/5], also
    when an error ends the decoding. *)
Lemma huffman_decode_length src out o e :
  huffman_decode src out = (o, e) ->
  exists s, o = out ++ s /\ (5 * length s <= 8 * length src)%nat.
Proof.
  assert (Hb : length (src_bits src) = (8 * length src)%nat).
  { induction src as [|b src IH]; [done|]. rewrite src_bits_cons, length_app, IH.
    unfold byte_bits. rewrite length_to_bits. cbn [length]. lia. }
  assert (Hs : forall s, (5 * length s <= length (huff_bits s))%nat).
  { induction s as [|b s IH]; [done|]. rewrite huff_bits_cons, length_app.
    pose proof (code_length _ (byte_sym b)). cbn [length]. lia. }
  destruct (huffman_decode_cases src out) as [(s & p & E & Hp & ->)|(s & q & E & ->)]; intros [= <- _];
    exists s; split; try done; specialize (Hs s); rewrite E, length_app in Hb; lia.
Qed.

(** [huffman_decode] reads exactly HPACK's code. It appends [s] if and only if the
    input's bits are the code words of [s] followed by fewer than eight one bits;
    it reports EOS if and only if the EOS word follows some code words; every
    other input is a padding error. The "invalid code" branch, an index outside the
    symbol table and a stuck scan are unreachable, because the code is complete. *)
Theorem huffman_decode_exact src out :
  (forall o, huffman_decode src out = (o, None) <->
     exists s k, o = out ++ s /\ (k < 8)%nat /\ src_bits src = huff_bits s ++ replicate k true) /\
  ((huffman_decode src out).2 = Some HuffEos <-> exists s q, src_bits src = huff_bits s ++ code 256 ++ q) /\
  (forall e, (huffman_decode src out).2 = Some e -> e = HuffEos \/ e = HuffLongPadding \/ e = HuffBadPadding).
Proof.
  split; [|split].
  - intros o. split; [apply huffman_decode_inl|]. intros (s & k & -> & Hk & E). by apply (huffman_decode_ok _ _ s k).
  - split; [|intros (s & q & E)]; destruct (huffman_decode_cases src out) as [(t & p & Et & Hp & ->)|(t & r & Et & ->)];
      eauto; [by repeat destruct (decide _)|]. rewrite E in Et. by destruct (huff_read_eos t p s q Hp).
  - intros e. destruct (huffman_decode_cases src out) as [(t & p & Et & Hp & ->)|(t & r & Et & ->)].
    + repeat destruct (decide _); intros [= <-]; auto.
    + intros [= <-]; auto.
Qed.

(** RFC 7541 C.4.1: the Huffman form of [www.example.com]. *)
Example huffman_rfc_example :
  huffman_decode (byte_of_Z <$> [0xf1; 0xe3; 0xc2; 0xe5; 0xf2; 0x3a; 0x6b; 0xa0; 0xab; 0x90; 0xf4; 0xff]) []
  = (bytes_of "www.example.com", None).
Proof. vm_compute. reflexivity. Qed.
