(* ===== verification/Hpack.v ===== *)
(** http2/hpack.v: the HPACK decoder with its dynamic table and string arena, the
    stateless encoder, and both against RFC 7541. *)
From S2P Require Import Prelude WireBytes Huffman.
Local Open Scope Z_scope.

Record HeaderField := mkField { hname : list byte; hvalue : list byte }.

Definition max_decoded_block : Z := 256 * 1024.

Definition hpack_default_table_size : Z := 4096.

Definition static_name : list (list byte) :=
  bytes_of <$> [
   ":authority"; ":method"; ":method"; ":path"; ":path"; ":scheme"; ":scheme"; ":status";
   ":status"; ":status"; ":status"; ":status"; ":status"; ":status"; "accept-charset";
   "accept-encoding"; "accept-language"; "accept-ranges"; "accept";
   "access-control-allow-origin"; "age"; "allow"; "authorization"; "cache-control";
   "content-disposition"; "content-encoding"; "content-language"; "content-length";
   "content-location"; "content-range"; "content-type"; "cookie"; "date"; "etag"; "expect";
   "expires"; "from"; "host"; "if-match"; "if-modified-since"; "if-none-match"; "if-range";
   "if-unmodified-since"; "last-modified"; "link"; "location"; "max-forwards";
   "proxy-authenticate"; "proxy-authorization"; "range"; "referer"; "refresh"; "retry-after";
   "server"; "set-cookie"; "strict-transport-security"; "transfer-encoding"; "user-agent";
   "vary"; "via"; "www-authenticate"]%string.

Definition static_value : list (list byte) :=
  bytes_of <$> [
   ""; "GET"; "POST"; "/"; "/index.html"; "http"; "https"; "200"; "204"; "206"; "304"; "400";
   "404"; "500"; ""; "gzip, deflate"; ""; ""; ""; ""; ""; ""; ""; ""; ""; ""; ""; ""; ""; "";
   ""; ""; ""; ""; ""; ""; ""; ""; ""; ""; ""; ""; ""; ""; ""; ""; ""; ""; ""; ""; ""; ""; "";
   ""; ""; ""; ""; ""; ""; ""; ""]%string.

(** Strings are values: a view into the arena reads the same bytes as long as the
    arena is not reallocated, which [hpack_decoder_invariant] excludes. *)
Record HpackDecoder := mkDecoder {
  dyn : list HeaderField;
  dyn_size : Z;
  max_size : Z;
  cur_max : Z;
  arena : list byte }.

#[export] Instance HpackDecoder_eta : Eta HpackDecoder :=
  mkEta _ (fun d => mkDecoder (dyn d) (dyn_size d) (max_size d) (cur_max d) (arena d)).

(** The errors, by their messages; [HpackPanic] is an index out of range and
    [HpackFuel] the end of the model's fuel. *)
Inductive hpack_error :=
  | TruncatedInteger | IntegerTooLong | IntegerTooLarge
  | TruncatedString | StringBeyondBlock | HuffmanError (e : huff_error)
  | IndexZero | IndexBeyondTable
  | BlockTooLarge | SizeUpdateLate | SizeUpdateAboveLimit
  | HpackPanic | HpackFuel.

(** A call on the decoder that may fail: the decoder it leaves, and the result. *)
Definition hp (A : Type) : Type := HpackDecoder -> HpackDecoder * (A + hpack_error).

Definition hret {A} (a : A) : hp A := fun d => (d, inl a).
Definition hfail {A} (e : hpack_error) : hp A := fun d => (d, inr e).
Definition hlift {A} (r : A + hpack_error) : hp A := fun d => (d, r).
Definition hbind {A B} (c : hp A) (k : A -> hp B) : hp B :=
  fun d => match c d with
           | (d', inl a) => k a d'
           | (d', inr e) => (d', inr e)
           end.

Declare Scope hp_scope.
Local Open Scope hp_scope.
Notation "'try*' ' p := c 'in' k" := (hbind c (fun x => match x with p => k end))
  (at level 10, p pattern, c at level 100, k at level 200) : hp_scope.

Definition new_decoder (size : Z) : HpackDecoder := mkDecoder [] 0 size size [].

Definition blen (l : list byte) : Z := Z.of_nat (length l).

(** The size of an entry, RFC 7541 4.1. *)
Definition entry_size (f : HeaderField) : Z := blen (hname f) + blen (hvalue f) + 32.

(** [for d.dyn_size > d.cur_max && d.dyn.len > 0]: every round pops an entry, so
    as many rounds as there are entries end the loop. *)
Fixpoint evict_loop (n : nat) (d : HpackDecoder) : HpackDecoder :=
  match n with
  | O => d
  | S n' =>
      if cur_max d <? dyn_size d then
        match last (dyn d) with
        | None => d
        | Some e => evict_loop n' (d <| dyn := take (pred (length (dyn d))) (dyn d) |> <| dyn_size := dyn_size d - entry_size e |>)
        end
      else d
  end.

Definition evict (d : HpackDecoder) : HpackDecoder := evict_loop (length (dyn d)) d.

Definition add (name value : list byte) (d : HpackDecoder) : HpackDecoder :=
  evict (d <| dyn := mkField name value :: dyn d |> <| dyn_size := dyn_size d + (blen name + blen value + 32) |>).

Definition entry (idx : Z) (d : HpackDecoder) : (list byte * list byte) + hpack_error :=
  if idx =? 0 then inr IndexZero
  else if idx <=? 61 then
    match static_name !! Z.to_nat (idx - 1), static_value !! Z.to_nat (idx - 1) with
    | Some n, Some v => inl (n, v)
    | _, _ => inr HpackPanic
    end
  else
    let di := idx - 62 in
    if Z.of_nat (length (dyn d)) <=? di then inr IndexBeyondTable
    else match dyn d !! Z.to_nat di with
         | Some f => inl (hname f, hvalue f)
         | None => inr HpackPanic
         end.

(** The continuation bytes; the sixth ends the loop, whatever it is. *)
Fixpoint int_loop (fuel : nat) (block : list byte) (p : nat) (v shift : Z) : (Z * nat) + hpack_error :=
  match fuel with
  | O => inr HpackFuel
  | S fuel' =>
      match block !! p with
      | None => inr TruncatedInteger
      | Some b =>
          let v := u64w (v + u64w (Z.shiftl (Z.land (byte_val b) 0x7f) shift)) in
          let shift := shift + 7 in
          if 35 <? shift then inr IntegerTooLong
          else if Z.land (byte_val b) 0x80 =? 0 then
            if Z.shiftl 1 28 <? v then inr IntegerTooLarge else inl (u32 v, S p)
          else int_loop fuel' block (S p) v shift
      end
  end.

Definition decode_int (block : list byte) (pos : nat) (prefix : Z) : (Z * nat) + hpack_error :=
  match block !! pos with
  | None => inr TruncatedInteger
  | Some b =>
      let mask := u32 (Z.shiftl 1 prefix - 1) in
      let v := Z.land (byte_val b) mask in
      if v <? mask then inl (u32 v, S pos) else int_loop 6 block (S pos) v 0
  end.

(** [length] is at most [2^28], so [int(length)] is not negative. *)
Definition decode_str (block : list byte) (pos : nat) : hp (list byte * nat) :=
  match block !! pos with
  | None => hfail TruncatedString
  | Some b =>
      let huff := negb (Z.land (byte_val b) 0x80 =? 0) in
      try* '(n, p) := hlift (decode_int block pos 7) in
      if blen block <? Z.of_nat p + n then hfail StringBeyondBlock
      else if n =? 0 then hret ([], p)
      else fun d =>
        let start := length (arena d) in
        let src := take (Z.to_nat n) (drop p block) in
        let '(out, e) := if huff then huffman_decode src (arena d) else (arena d ++ src, None) in
        let d := d <| arena := out |> in
        match e with
        | Some e => (d, inr (HuffmanError e))
        | None => (d, inl (drop start out, (p + Z.to_nat n)%nat))
        end
  end.

(** The name of a literal: from the table, or a string of its own. *)
Definition decode_name (block : list byte) (idx : Z) (p : nat) : hp (list byte * nat) :=
  if 0 <? idx then (try* '(name, _) := (fun d => (d, entry idx d)) in hret (name, p))
  else decode_str block p.

(** What the two literal branches share: name, value, [pos] and [decoded]. *)
Definition decode_literal (block : list byte) (pos : nat) (prefix decoded : Z) : hp (list byte * list byte * nat * Z) :=
  try* '(idx, p) := hlift (decode_int block pos prefix) in
  try* '(name, p) := decode_name block idx p in
  try* '(value, p) := decode_str block p in
  let decoded := decoded + (blen name + blen value) in
  if max_decoded_block <? decoded then hfail BlockTooLarge
  else hret (name, value, p, decoded).

(** One round of the loop of [decode_into]: the fields it appends (at most one),
    then [pos], [decoded] and [fields_seen]. *)
Definition decode_field (block : list byte) (pos : nat) (decoded : Z) (seen : bool) : hp (list HeaderField * nat * Z * bool) :=
  match block !! pos with
  | None => hfail HpackPanic
  | Some b =>
      let b := byte_val b in
      if negb (Z.land b 0x80 =? 0) then
        try* '(idx, p) := hlift (decode_int block pos 7) in
        try* '(name, value) := (fun d => (d, entry idx d)) in
        let decoded := decoded + (blen name + blen value) in
        if max_decoded_block <? decoded then hfail BlockTooLarge
        else hret ([mkField name value], p, decoded, true)
      else if Z.land b 0xc0 =? 0x40 then
        try* '(name, value, p, decoded) := decode_literal block pos 6 decoded in
        fun d => (add name value d, inl ([mkField name value], p, decoded, true))
      else if Z.land b 0xe0 =? 0x20 then
        if seen then hfail SizeUpdateLate
        else
          try* '(size, p) := hlift (decode_int block pos 5) in
          fun d =>
            if max_size d <? size then (d, inr SizeUpdateAboveLimit)
            else (evict (d <| cur_max := size |>), inl ([], p, decoded, seen))
      else
        try* '(name, value, p, decoded) := decode_literal block pos 4 decoded in
        hret ([mkField name value], p, decoded, true)
  end.

(** [for pos < block.len]: the decoder, [out], and the error. *)
Fixpoint decode_loop (fuel : nat) (block : list byte) (pos : nat) (decoded : Z) (seen : bool)
    (out : list HeaderField) (d : HpackDecoder) : HpackDecoder * list HeaderField * option hpack_error :=
  if (pos <? length block)%nat then
    match fuel with
    | O => (d, out, Some HpackFuel)
    | S fuel' =>
        match decode_field block pos decoded seen d with
        | (d, inr e) => (d, out, Some e)
        | (d, inl (fs, pos, decoded, seen)) => decode_loop fuel' block pos decoded seen (out ++ fs) d
        end
    end
  else (d, out, None).

(** Every round reads at least one byte. *)
Definition decode_into (block : list byte) (d : HpackDecoder) : HpackDecoder * list HeaderField * option hpack_error :=
  decode_loop (length block) block 0 0 false [] (d <| arena := [] |>).

Definition decode (block : list byte) (d : HpackDecoder) : HpackDecoder * (list HeaderField + hpack_error) :=
  match decode_into block d with
  | (d, _, Some e) => (d, inr e)
  | (d, out, None) => (d, inl out)
  end.

Definition dynamic_size (d : HpackDecoder) : Z := dyn_size d.

(** ** The encoder *)

(** [for v >= 0x80]: a value of 32 bits has at most five groups of seven. *)
Fixpoint encode_loop (fuel : nat) (v : Z) (out : list byte) : list byte :=
  match fuel with
  | O => out ++ [byte_of_Z v]
  | S fuel' =>
      if 0x80 <=? v then encode_loop fuel' (Z.shiftr v 7) (out ++ [byte_of_Z (Z.lor (Z.land v 0x7f) 0x80)])
      else out ++ [byte_of_Z v]
  end.

Definition encode_int (out : list byte) (flags prefix value : Z) : list byte :=
  let mask := u32 (Z.shiftl 1 prefix - 1) in
  if value <? mask then out ++ [byte_of_Z (Z.lor flags (u8 value))]
  else encode_loop 5 (u32 (value - mask)) (out ++ [byte_of_Z (Z.lor flags (u8 mask))]).

Definition encode_str (out s : list byte) : list byte :=
  let out := encode_int out 0x00 7 (u32 (blen s)) in
  if (0 <? length s)%nat then out ++ s else out.

Definition encode_indexed (out : list byte) (idx : Z) : list byte := encode_int out 0x80 7 (u32 idx).

Definition encode_literal_name_idx (out : list byte) (name_idx : Z) (value : list byte) : list byte :=
  encode_str (encode_int out 0x00 4 (u32 name_idx)) value.

Definition encode_literal (out name value : list byte) : list byte :=
  encode_str (encode_str (out ++ [byte_of_Z 0]) name) value.

Definition encode_status (out : list byte) (status : Z) : list byte :=
  if status =? 200 then encode_indexed out 8
  else if status =? 204 then encode_indexed out 9
  else if status =? 206 then encode_indexed out 10
  else if status =? 304 then encode_indexed out 11
  else if status =? 400 then encode_indexed out 12
  else if status =? 404 then encode_indexed out 13
  else if status =? 500 then encode_indexed out 14
  else
    let out := encode_int out 0x00 4 8 in
    let out := encode_int out 0x00 7 3 in
    out ++ [byte_of_Z (48 + Z.rem (Z.quot status 100) 10); byte_of_Z (48 + Z.rem (Z.quot status 10) 10);
            byte_of_Z (48 + Z.rem status 10)].

(** ** RFC 7541 on the wire: integers and strings *)

(** The continuation of an integer, least significant group first. *)
Inductive cont_enc : Z -> list byte -> Prop :=
  | cont_last w : 0 <= w < 128 -> cont_enc w [byte_of_Z w]
  | cont_more lo w bs : 0 <= lo < 128 -> cont_enc w bs -> cont_enc (lo + 128 * w) (byte_of_Z (128 + lo) :: bs).

(** 5.1: [v] with a prefix of [prefix] bits below the bits [hi], with the limits of
    this decoder: five continuation bytes and [2^28]. *)
Definition int_enc (prefix hi v : Z) (bs : list byte) : Prop :=
  0 <= hi < 2 ^ (8 - prefix) /\
  (0 <= v < 2 ^ prefix - 1 /\ bs = [byte_of_Z (hi * 2 ^ prefix + v)] \/
   exists w cs, cont_enc w cs /\ (length cs <= 5)%nat /\ v = 2 ^ prefix - 1 + w /\ v <= 2 ^ 28 /\
     bs = byte_of_Z (hi * 2 ^ prefix + (2 ^ prefix - 1)) :: cs).

(** 5.2: a string, raw or in the Huffman code. *)
Definition str_enc (s bs : list byte) : Prop :=
  (exists hd, int_enc 7 0 (blen s) hd /\ bs = hd ++ s) \/
  (exists hd src k, int_enc 7 1 (blen src) hd /\ bs = hd ++ src /\ (k < 8)%nat /\
     src_bits src = huff_bits s ++ replicate k true).

(** [bs] stands in the block from [pos] to [p]. *)
Definition between (block : list byte) (pos p : nat) (bs : list byte) : Prop :=
  drop pos block = bs ++ drop p block /\ p = (pos + length bs)%nat.

Lemma between_nil block pos : between block pos pos [].
Proof. split; [done | cbn; lia]. Qed.

Lemma between_app block pos p q bs cs : between block pos p bs -> between block p q cs -> between block pos q (bs ++ cs).
Proof. intros [E ->] [E' ->]. split; [by rewrite E, E', app_assoc | rewrite length_app; lia]. Qed.

Lemma between_app_inv block pos q bs cs :
  between block pos q (bs ++ cs) -> exists p, between block pos p bs /\ between block p q cs.
Proof.
  intros [E ->]. exists (pos + length bs)%nat. rewrite length_app in E |- *.
  assert (E' : drop (pos + length bs) block = cs ++ drop (pos + (length bs + length cs)) block)
    by (rewrite <- drop_drop, E, <- app_assoc; apply drop_app_length).
  split; split; [rewrite E, E'; by rewrite <- app_assoc | done | done | lia].
Qed.

Lemma between_one block pos b : block !! pos = Some b <-> between block pos (S pos) [b].
Proof.
  split.
  - intros H. split; [by apply drop_S | cbn; lia].
  - intros [E _]. rewrite <- (Nat.add_0_r pos), <- lookup_drop, E. done.
Qed.

Lemma between_le block pos p bs : between block pos p bs -> (pos <= length block)%nat -> (p <= length block)%nat.
Proof.
  intros [E ->] H. apply (f_equal length) in E. rewrite length_app, !length_drop in E. lia.
Qed.

Lemma byte_class_40 b : (Z.land (byte_val b) 0xc0 =? 0x40) = (byte_val b / 2 ^ 6 =? 1).
Proof. apply eqb_prop. revert b. apply byte_cases. vm_compute. reflexivity. Qed.

Lemma byte_class_20 b : (Z.land (byte_val b) 0xe0 =? 0x20) = (byte_val b / 2 ^ 5 =? 1).
Proof. apply eqb_prop. revert b. apply byte_cases. vm_compute. reflexivity. Qed.

Lemma cont_enc_range w bs : cont_enc w bs -> 0 <= w < 128 ^ Z.of_nat (length bs).
Proof.
  induction 1 as [w Hw|lo w bs Hlo Hc IH]; [done|]. cbn [length]. rewrite Nat2Z.inj_succ, Z.pow_succ_r by lia. lia.
Qed.

Lemma septet_width v g shift :
  0 <= v < 2 ^ (8 + shift) -> 0 <= g < 128 -> 0 <= shift <= 35 ->
  u64w (v + u64w (Z.shiftl g shift)) = v + g * 2 ^ shift /\ v + g * 2 ^ shift < 2 ^ (8 + (shift + 7)).
Proof.
  intros Hv Hg Hs. rewrite Z.shiftl_mul_pow2 by lia. rewrite Z.pow_add_r in Hv by lia.
  rewrite (Z.pow_add_r 2 8), (Z.pow_add_r 2 shift 7) by lia. change (2 ^ 8) with 256 in *. change (2 ^ 7) with 128.
  assert (HP : 0 < 2 ^ shift <= 2 ^ 35) by (split; [apply Z.pow_pos_nonneg | apply Z.pow_le_mono_r]; lia).
  assert (HX : 0 <= g * 2 ^ shift <= 127 * 2 ^ shift) by nia. unfold u64w.
  change (2 ^ 35) with 34359738368 in HP. change (2 ^ 64) with 18446744073709551616.
  rewrite (Z.mod_small (g * 2 ^ shift)) by lia. rewrite Z.mod_small by lia. lia.
Qed.

Lemma int_loop_sound fuel block p v shift r q :
  0 <= shift -> shift + 7 * Z.of_nat fuel = 42 -> 0 <= v < 2 ^ (8 + shift) ->
  int_loop fuel block p v shift = inl (r, q) ->
  exists w cs, between block p q cs /\ cont_enc w cs /\ r = v + w * 2 ^ shift /\ r <= 2 ^ 28 /\
    shift + 7 * Z.of_nat (length cs) <= 35.
Proof.
  revert p v shift. induction fuel as [|fuel IH]; intros p v shift Hs Hf Hv E; [done|]. cbn [int_loop] in E.
  destruct (block !! p) as [b|] eqn:Eb; [|done]. apply between_one in Eb. rewrite byte_low7, byte_high_bit in E.
  pose proof (byte_val_range b) as Hb. pose proof (Z.mod_pos_bound (byte_val b) 128 ltac:(lia)) as Hm.
  destruct (septet_width v (byte_val b mod 128) shift) as [Ew Hw]; [lia..|]. cbv zeta in E. rewrite Ew in E.
  destruct (Z.ltb_spec 35 (shift + 7)); [done|]. destruct (Z.ltb_spec (byte_val b) 128).
  - change (Z.shiftl 1 28) with (2 ^ 28) in E. rewrite Z.mod_small in * by lia.
    destruct (Z.ltb_spec (2 ^ 28) (v + byte_val b * 2 ^ shift)) as [|Hle]; [done|]. injection E as <- <-.
    exists (byte_val b), [b]. pose proof (cont_last (byte_val b) ltac:(lia)) as Hc. rewrite byte_of_Z_val in Hc.
    unfold u32. assert (0 < 2 ^ shift) by (apply Z.pow_pos_nonneg; lia).
    rewrite Z.mod_small by (change (2 ^ 32) with (16 * 2 ^ 28); nia).
    split; [done|]. split; [done|]. cbn [length]. lia.
  - assert (0 <= byte_val b mod 128 * 2 ^ shift) by (apply Z.mul_nonneg_nonneg; [lia | by apply Z.pow_nonneg]).
    destruct (IH (S p) (v + byte_val b mod 128 * 2 ^ shift) (shift + 7) ltac:(lia) ltac:(lia) ltac:(lia) E) as (w & cs & Hbt & Hc & -> & Hle & Hl).
    exists (byte_val b mod 128 + 128 * w), (b :: cs). split; [by apply (between_app _ _ (S p) _ [b] cs)|].
    split; [|rewrite (Z.pow_add_r 2 shift 7) in * by lia; change (2 ^ 7) with 128 in *; cbn [length]; lia].
    assert (Eb' : b = byte_of_Z (128 + byte_val b mod 128)) by
      (apply byte_val_inj; rewrite byte_val_of_Z_small; Z.div_mod_to_equations; lia).
    rewrite Eb' at 2. by constructor.
Qed.

Lemma int_loop_complete fuel block p v shift w cs q :
  0 <= shift -> shift + 7 * Z.of_nat fuel = 42 -> 0 <= v < 2 ^ (8 + shift) ->
  between block p q cs -> cont_enc w cs -> v + w * 2 ^ shift <= 2 ^ 28 ->
  shift + 7 * Z.of_nat (length cs) <= 35 ->
  int_loop fuel block p v shift = inl (v + w * 2 ^ shift, q).
Proof.
  intros Hs Hf Hv Hbt Hc. revert fuel p v shift Hs Hf Hv Hbt.
  induction Hc as [w Hw|lo w cs Hlo Hc IH]; intros [|fuel] p v shift Hs Hf Hv Hbt Hle Hl; cbn [length] in Hl; try lia;
    cbn [int_loop]; assert (HP : 0 < 2 ^ shift) by (apply Z.pow_pos_nonneg; lia).
  - destruct Hbt as [E ->]. cbn [length]. rewrite Nat.add_1_r in E |- *.
    rewrite (proj2 (between_one block p (byte_of_Z w))) by (split; [done | cbn; lia]).
    rewrite byte_low7, byte_high_bit, byte_val_of_Z_small, (Z.mod_small w 128) by lia.
    destruct (septet_width v w shift) as [Ew _]; [lia..|]. cbv zeta. rewrite Ew.
    destruct (Z.ltb_spec 35 (shift + 7)); [lia|]. destruct (Z.ltb_spec w 128); [|lia].
    change (Z.shiftl 1 28) with (2 ^ 28). destruct (Z.ltb_spec (2 ^ 28) (v + w * 2 ^ shift)); [lia|].
    unfold u32. rewrite Z.mod_small; [done|]. change (2 ^ 32) with (16 * 2 ^ 28). nia.
  - destruct (between_app_inv _ _ _ [byte_of_Z (128 + lo)] cs Hbt) as (p' & [E ->] & Hbt'). cbn [length] in *.
    rewrite Nat.add_1_r in E, Hbt'. rewrite (proj2 (between_one block p (byte_of_Z (128 + lo)))) by (split; [done | cbn; lia]).
    rewrite byte_low7, byte_high_bit, byte_val_of_Z_small by lia.
    replace ((128 + lo) mod 128) with lo by (Z.div_mod_to_equations; lia).
    destruct (septet_width v lo shift) as [Ew Hw]; [lia..|]. cbv zeta. rewrite Ew.
    destruct (Z.ltb_spec 35 (shift + 7)); [lia|]. destruct (Z.ltb_spec (128 + lo) 128); [lia|].
    replace (v + (lo + 128 * w) * 2 ^ shift) with (v + lo * 2 ^ shift + w * 2 ^ (shift + 7)) in *
      by (rewrite Z.pow_add_r by lia; change (2 ^ 7) with 128; lia).
    apply IH; first [lia | done].
Qed.

Lemma prefix_mask b prefix :
  1 <= prefix <= 7 -> u32 (Z.shiftl 1 prefix - 1) = 2 ^ prefix - 1 /\
  Z.land (byte_val b) (2 ^ prefix - 1) = byte_val b mod 2 ^ prefix.
Proof.
  intros H. rewrite Z.shiftl_1_l. assert (HP : 2 ^ 1 <= 2 ^ prefix <= 2 ^ 7) by (split; apply Z.pow_le_mono_r; lia).
  change (2 ^ 1) with 2 in HP. change (2 ^ 7) with 128 in HP. split.
  - unfold u32. rewrite Z.mod_small; [done|]. change (2 ^ 32) with 4294967296. lia.
  - replace (2 ^ prefix - 1) with (Z.ones prefix) by (rewrite Z.ones_equiv; lia). by rewrite Z.land_ones by lia.
Qed.

(** A byte split at [prefix] bits. *)
Lemma byte_split b prefix :
  1 <= prefix <= 7 -> 0 <= byte_val b / 2 ^ prefix < 2 ^ (8 - prefix) /\ 0 <= byte_val b mod 2 ^ prefix < 2 ^ prefix /\
  b = byte_of_Z (byte_val b / 2 ^ prefix * 2 ^ prefix + byte_val b mod 2 ^ prefix).
Proof.
  intros H. pose proof (byte_val_range b). assert (HP : 0 < 2 ^ prefix) by (apply Z.pow_pos_nonneg; lia).
  split; [|split; [by apply Z.mod_pos_bound|]].
  - split; [apply Z.div_pos; lia|]. apply Z.div_lt_upper_bound; [lia|]. rewrite <- Z.pow_add_r by lia.
    replace (prefix + (8 - prefix)) with 8 by lia. lia.
  - rewrite <- (byte_of_Z_val b) at 1. f_equal. rewrite Z.mul_comm. by apply Z.div_mod; lia.
Qed.

Lemma byte_join hi v prefix :
  1 <= prefix <= 7 -> 0 <= hi < 2 ^ (8 - prefix) -> 0 <= v < 2 ^ prefix ->
  byte_val (byte_of_Z (hi * 2 ^ prefix + v)) / 2 ^ prefix = hi /\
  byte_val (byte_of_Z (hi * 2 ^ prefix + v)) mod 2 ^ prefix = v.
Proof.
  intros H Hh Hv. assert (E8 : 2 ^ prefix * 2 ^ (8 - prefix) = 256)
    by (rewrite <- Z.pow_add_r by lia; by replace (prefix + (8 - prefix)) with 8 by lia).
  rewrite byte_val_of_Z_small by nia. split.
  - rewrite Z.div_add_l, Z.div_small by lia. lia.
  - rewrite Z.add_comm, Z_mod_plus_full. by apply Z.mod_small.
Qed.

Lemma int_enc_head prefix hi v bs :
  1 <= prefix <= 7 -> int_enc prefix hi v bs -> exists b tl, bs = b :: tl /\ byte_val b / 2 ^ prefix = hi.
Proof.
  intros H [Hh [[Hv ->]|(w & cs & _ & _ & _ & _ & ->)]]; eexists _, _; (split; [done|]);
    apply byte_join; lia || assert (0 < 2 ^ prefix) by (apply Z.pow_pos_nonneg; lia); lia.
Qed.

Lemma decode_int_sound block pos prefix v p :
  1 <= prefix <= 7 -> decode_int block pos prefix = inl (v, p) ->
  exists b bs, block !! pos = Some b /\ between block pos p bs /\ int_enc prefix (byte_val b / 2 ^ prefix) v bs.
Proof.
  intros Hp E. unfold decode_int in E. destruct (block !! pos) as [b|] eqn:Eb; [|done].
  destruct (prefix_mask b prefix Hp) as [Em El]. destruct (byte_split b prefix Hp) as (Hh & Hm & Ej).
  cbv zeta in E. rewrite Em, El in E. exists b.
  assert (HP : 2 ^ prefix <= 2 ^ 7) by (apply Z.pow_le_mono_r; lia). change (2 ^ 7) with 128 in HP.
  pose proof (proj1 (between_one _ _ _) Eb) as Hbt.
  destruct (Z.ltb_spec (byte_val b mod 2 ^ prefix) (2 ^ prefix - 1)) as [Hlt|Hge].
  - injection E as <- <-. exists [b]. split; [done|]. split; [done|]. split; [done|]. left.
    unfold u32. rewrite (Z.mod_small (byte_val b mod 2 ^ prefix) (2 ^ 32)) by (change (2 ^ 32) with 4294967296; lia).
    split; [lia|]. by rewrite <- Ej.
  - apply int_loop_sound in E as (w & cs & Hbt' & Hc & -> & Hle & Hl);
      [|lia..|change (2 ^ (8 + 0)) with 256; lia].
    exists (b :: cs). split; [done|]. split; [by apply (between_app _ _ (S pos) _ [b] cs)|]. split; [done|]. right.
    exists w, cs. replace (byte_val b mod 2 ^ prefix) with (2 ^ prefix - 1) in * by lia.
    rewrite <- Ej. repeat split; try done; lia.
Qed.

Lemma decode_int_complete block pos prefix hi v p bs :
  1 <= prefix <= 7 -> between block pos p bs -> int_enc prefix hi v bs -> decode_int block pos prefix = inl (v, p).
Proof.
  intros Hp Hbt [Hh He]. unfold decode_int.
  assert (HP : 2 ^ 1 <= 2 ^ prefix <= 2 ^ 7) by (split; apply Z.pow_le_mono_r; lia).
  change (2 ^ 1) with 2 in HP. change (2 ^ 7) with 128 in HP.
  destruct He as [[Hv ->]|(w & cs & Hc & Hl & -> & Hle & ->)].
  - destruct Hbt as [E ->]. cbn [length]. rewrite Nat.add_1_r in E |- *.
    rewrite (proj2 (between_one block pos _)) by (split; [exact E | cbn; lia]).
    destruct (prefix_mask (byte_of_Z (hi * 2 ^ prefix + v)) prefix Hp) as [Em El]. cbv zeta. rewrite Em, El.
    destruct (byte_join hi v prefix Hp Hh ltac:(lia)) as [_ ->]. destruct (Z.ltb_spec v (2 ^ prefix - 1)); [|lia].
    unfold u32. rewrite Z.mod_small; [done|]. change (2 ^ 32) with 4294967296. lia.
  - destruct (between_app_inv _ _ _ [_] cs Hbt) as (q & [E ->] & Hbt'). cbn [length] in *. rewrite Nat.add_1_r in E, Hbt'.
    rewrite (proj2 (between_one block pos _)) by (split; [exact E | cbn; lia]).
    destruct (prefix_mask (byte_of_Z (hi * 2 ^ prefix + (2 ^ prefix - 1))) prefix Hp) as [Em El]. cbv zeta. rewrite Em, El.
    destruct (byte_join hi (2 ^ prefix - 1) prefix Hp Hh ltac:(lia)) as [_ ->]. rewrite Z.ltb_irrefl.
    rewrite (int_loop_complete 6 block (S pos) (2 ^ prefix - 1) 0 w cs p); try done; try lia.
    by replace (2 ^ prefix - 1 + w * 2 ^ 0) with (2 ^ prefix - 1 + w) by lia.
Qed.

(** ** Strings *)

Lemma hbind_inl {A B} (c : hp A) (k : A -> hp B) d a d' : c d = (d', inl a) -> hbind c k d = k a d'.
Proof. unfold hbind. by intros ->. Qed.

Lemma hbind_inl_inv {A B} (c : hp A) (k : A -> hp B) d b d' :
  hbind c k d = (d', inl b) -> exists a d1, c d = (d1, inl a) /\ k a d1 = (d', inl b).
Proof. unfold hbind. destruct (c d) as [d1 [a|e]] eqn:E; [eauto | done]. Qed.

Lemma between_take block pos p n :
  (p = pos + n)%nat -> (p <= length block)%nat -> between block pos p (take n (drop pos block)).
Proof.
  intros -> H. split; [|rewrite length_take, length_drop; lia]. rewrite <- drop_drop. symmetry. apply take_drop.
Qed.

Lemma between_take_eq block pos p bs : between block pos p bs -> take (length bs) (drop pos block) = bs.
Proof. intros [E _]. rewrite E. apply take_app_length. Qed.

Lemma str_flag b : negb (Z.land (byte_val b) 0x80 =? 0) = (byte_val b / 2 ^ 7 =? 1).
Proof. apply eqb_prop. revert b. apply byte_cases. vm_compute. reflexivity. Qed.

Lemma byte_hi7 b : byte_val b / 2 ^ 7 = 0 \/ byte_val b / 2 ^ 7 = 1.
Proof. destruct (byte_split b 7 ltac:(lia)) as [H _]. change (2 ^ (8 - 7)) with 2 in H. lia. Qed.

Lemma int_enc_nonneg prefix hi v bs : 1 <= prefix -> int_enc prefix hi v bs -> 0 <= v <= 2 ^ 28 \/ 0 <= v < 2 ^ prefix.
Proof.
  intros Hp [_ [[Hv _]|(w & cs & Hc & _ & -> & Hle & _)]]; [lia|]. left. apply cont_enc_range in Hc.
  assert (0 < 2 ^ prefix) by (apply Z.pow_pos_nonneg; lia). lia.
Qed.

Lemma decode_str_sound block pos d d' s p :
  decode_str block pos d = (d', inl (s, p)) ->
  d' = d <| arena := arena d ++ s |> /\ exists bs, between block pos p bs /\ str_enc s bs.
Proof.
  intros E. unfold decode_str in E. destruct (block !! pos) as [b|] eqn:Eb; [|done]. cbv zeta in E.
  apply hbind_inl_inv in E as ([n q] & d1 & Ei & E). injection Ei as <- Ei.
  apply decode_int_sound in Ei as (b' & hd & Eb' & Hbt & He); [|lia]. rewrite Eb in Eb'. injection Eb' as <-.
  assert (Hn : 0 <= n) by (destruct (int_enc_nonneg 7 _ _ _ ltac:(lia) He); lia).
  unfold blen in E. destruct (Z.ltb_spec (Z.of_nat (length block)) (Z.of_nat q + n)); [done|].
  rewrite str_flag in E. set (src := take (Z.to_nat n) (drop q block)) in *.
  assert (Hsrc : between block q (q + Z.to_nat n) src) by (apply between_take; lia).
  assert (Hlen : blen src = n) by (unfold blen; destruct Hsrc; lia).
  destruct (Z.eqb_spec n 0) as [->|Hz].
  - injection E as <- <- <-. destruct d. cbn. rewrite app_nil_r. split; [done|]. exists hd. split; [done|].
    destruct (byte_hi7 b) as [Eh|Eh]; rewrite Eh in He; [left; exists hd | right; exists hd, [], O];
      rewrite app_nil_r; repeat split; try done; try apply He. lia.
  - destruct (byte_hi7 b) as [Eh|Eh]; rewrite Eh in He, E; cbn [Z.eqb] in E.
    + injection E as <- <- <-. rewrite drop_app_length. split; [done|]. exists (hd ++ src).
      split; [by eapply between_app|]. left. exists hd. by rewrite Hlen.
    + destruct (huffman_decode src (arena d)) as [out [e|]] eqn:Eh'; [done|]. injection E as <- <- <-.
      apply huffman_decode_inl in Eh' as (t & k & -> & Hk & Hb). rewrite drop_app_length. split; [done|].
      exists (hd ++ src). split; [by eapply between_app|]. right. exists hd, src, k. by rewrite Hlen.
Qed.

Lemma decode_str_complete block pos d s p bs :
  between block pos p bs -> (pos <= length block)%nat -> str_enc s bs ->
  decode_str block pos d = (d <| arena := arena d ++ s |>, inl (s, p)).
Proof.
  intros Hbt Hpos He.
  assert (exists hd src hi, bs = hd ++ src /\ int_enc 7 hi (blen src) hd /\
    (hi = 0 /\ s = src \/ hi = 1 /\ exists k, (k < 8)%nat /\ src_bits src = huff_bits s ++ replicate k true))
    as (hd & src & hi & -> & Hi & Hs)
    by (destruct He as [(hd & ? & ->)|(hd & src & k & ? & -> & ? & ?)]; [exists hd, s, 0 | exists hd, src, 1]; eauto 9).
  clear He. pose proof (between_le _ _ _ _ Hbt Hpos) as Hp. apply between_app_inv in Hbt as (q & Hh & Hsrc).
  destruct (int_enc_head 7 _ _ _ ltac:(lia) Hi) as (b & tl & -> & Eh).
  assert (Eb : block !! pos = Some b).
  { destruct Hh as [E _]. rewrite <- (Nat.add_0_r pos), <- lookup_drop, E. done. }
  unfold decode_str. rewrite Eb. cbv zeta.
  rewrite (hbind_inl _ _ d (blen src, q) d)
    by (unfold hlift; by rewrite (decode_int_complete block pos 7 hi (blen src) q (b :: tl) ltac:(lia) Hh Hi)).
  cbv beta iota. unfold blen. pose proof Hsrc as [_ Hq]. destruct (Z.ltb_spec (Z.of_nat (length block)) (Z.of_nat q + Z.of_nat (length src))); [lia|].
  rewrite Nat2Z.id, (between_take_eq _ _ _ _ Hsrc), str_flag, Eh.
  destruct (Z.eqb_spec (Z.of_nat (length src)) 0) as [Hz|Hz].
  - destruct src; [|cbn in Hz; lia]. cbn [length] in *. rewrite Nat.add_0_r in Hq. subst q.
    assert (s = []) as ->.
    { destruct Hs as [[_ ->]|(_ & k & Hk & E)]; [done|]. pose proof (huffman_decode_ok [] [] s k Hk E) as E'.
      change (huffman_decode [] []) with (@nil byte, @None huff_error) in E'. by injection E'. }
    destruct d. cbn. by rewrite app_nil_r.
  - destruct Hs as [[-> ->]|(-> & k & Hk & E)]; cbn [Z.eqb Pos.eqb].
    + rewrite drop_app_length. by subst.
    + rewrite (huffman_decode_ok _ _ _ _ Hk E), drop_app_length. by subst.
Qed.

(** ** RFC 7541 as an abstract machine *)

Inductive name_ref := NameIdx (i : Z) | NameLit (s : list byte).

(** 6: the representations. *)
Inductive instr :=
  | Indexed (i : Z)
  | Incremental (n : name_ref) (v : list byte)
  | SizeUpdate (n : Z)
  | Plain (n : name_ref) (v : list byte).

Definition name_enc (prefix hi : Z) (n : name_ref) (bs : list byte) : Prop :=
  match n with
  | NameIdx i => 0 < i /\ int_enc prefix hi i bs
  | NameLit s => exists b1 b2, int_enc prefix hi 0 b1 /\ str_enc s b2 /\ bs = b1 ++ b2
  end.

(** A literal without indexing and one never indexed differ in a flag bit. *)
Definition instr_enc (i : instr) (bs : list byte) : Prop :=
  match i with
  | Indexed i => int_enc 7 1 i bs
  | Incremental n v => exists b1 b2, name_enc 6 1 n b1 /\ str_enc v b2 /\ bs = b1 ++ b2
  | SizeUpdate n => int_enc 5 1 n bs
  | Plain n v => exists hi b1 b2, (hi = 0 \/ hi = 1) /\ name_enc 4 hi n b1 /\ str_enc v b2 /\ bs = b1 ++ b2
  end.

Inductive block_enc : list instr -> list byte -> Prop :=
  | block_nil : block_enc [] []
  | block_cons i il bs cs : instr_enc i bs -> block_enc il cs -> block_enc (i :: il) (bs ++ cs).

Definition total_size (l : list HeaderField) : Z := foldr (fun f n => entry_size f + n) 0 l.

(** 4.4: what stays in a table of [max] bytes, the newest entry first. *)
Fixpoint fit (max : Z) (l : list HeaderField) : list HeaderField :=
  match l with
  | [] => []
  | f :: l' => if entry_size f <=? max then f :: fit (max - entry_size f) l' else []
  end.

(** 2.3.3: one index space for both tables. *)
Definition table_entry (t : list HeaderField) (i : Z) : option HeaderField :=
  if i <=? 0 then None
  else if i <=? 61 then
    n ← static_name !! Z.to_nat (i - 1); v ← static_value !! Z.to_nat (i - 1); Some (mkField n v)
  else t !! Z.to_nat (i - 62).

Record machine := mkMachine { table : list HeaderField; capacity : Z; spent : Z; started : bool }.

Definition name_of (t : list HeaderField) (n : name_ref) : option (list byte) :=
  match n with NameIdx i => hname <$> table_entry t i | NameLit s => Some s end.

(** A field is produced when the block's decoded bytes stay within the ceiling. *)
Definition emit (f : HeaderField) (t : list HeaderField) (m : machine) : option (list HeaderField * machine) :=
  let spent := spent m + (blen (hname f) + blen (hvalue f)) in
  if spent <=? max_decoded_block then Some ([f], mkMachine t (capacity m) spent true) else None.

Definition exec (limit : Z) (i : instr) (m : machine) : option (list HeaderField * machine) :=
  match i with
  | Indexed i => f ← table_entry (table m) i; emit f (table m) m
  | Incremental n v =>
      name ← name_of (table m) n; emit (mkField name v) (fit (capacity m) (mkField name v :: table m)) m
  | SizeUpdate n =>
      if started m then None
      else if n <=? limit then Some ([], mkMachine (fit n (table m)) n (spent m) false) else None
  | Plain n v => name ← name_of (table m) n; emit (mkField name v) (table m) m
  end.

Fixpoint run (limit : Z) (il : list instr) (m : machine) : option (list HeaderField * machine) :=
  match il with
  | [] => Some ([], m)
  | i :: il' => '(fs, m) ← exec limit i m; '(gs, m) ← run limit il' m; Some (fs ++ gs, m)
  end.

(** ** The table *)

Definition decoder_inv (d : HpackDecoder) : Prop :=
  dyn_size d = total_size (dyn d) /\ total_size (dyn d) <= cur_max d /\ cur_max d <= max_size d.

Lemma entry_size_pos f : 32 <= entry_size f.
Proof. unfold entry_size, blen. lia. Qed.

Lemma total_size_cons f l : total_size (f :: l) = entry_size f + total_size l.
Proof. done. Qed.

Lemma total_size_nonneg l : 0 <= total_size l.
Proof. induction l as [|f l IH]; [done|]. rewrite total_size_cons. pose proof (entry_size_pos f). lia. Qed.

Lemma total_size_snoc l f : total_size (l ++ [f]) = total_size l + entry_size f.
Proof.
  induction l as [|g l IH]; cbn [app]; [|by rewrite !total_size_cons, IH; lia].
  rewrite total_size_cons. unfold total_size. cbn. lia.
Qed.

Lemma fit_size max l : 0 <= max -> total_size (fit max l) <= max.
Proof.
  revert max. induction l as [|f l IH]; intros max H; [done|]. cbn [fit].
  destruct (Z.leb_spec (entry_size f) max); [|done]. rewrite total_size_cons. specialize (IH (max - entry_size f)). lia.
Qed.

Lemma fit_all max l : total_size l <= max -> fit max l = l.
Proof.
  revert max. induction l as [|f l IH]; intros max H; [done|]. cbn [fit].
  rewrite total_size_cons in H. pose proof (total_size_nonneg l).
  destruct (Z.leb_spec (entry_size f) max); [|lia]. rewrite IH by lia. done.
Qed.

Lemma fit_snoc max l f : max < total_size (l ++ [f]) -> fit max (l ++ [f]) = fit max l.
Proof.
  revert max. induction l as [|g l IH]; intros max H; cbn [app fit].
  - unfold total_size in H. cbn in H. destruct (Z.leb_spec (entry_size f) max); [lia | done].
  - cbn [app] in H. rewrite total_size_cons in H. destruct (_ <=? _); [|done]. rewrite IH by lia. done.
Qed.

Lemma evict_loop_fit l d :
  dyn d = l -> dyn_size d = total_size l ->
  evict_loop (length l) d = d <| dyn := fit (cur_max d) l |> <| dyn_size := total_size (fit (cur_max d) l) |>.
Proof.
  revert d. induction l as [|f l IH] using rev_ind; intros d El Es.
  - destruct d. cbn in *. by subst.
  - rewrite length_app, Nat.add_1_r. cbn [evict_loop]. destruct (Z.ltb_spec (cur_max d) (dyn_size d)).
    + rewrite El, last_snoc, length_app, Nat.add_1_r. cbn [pred]. rewrite take_app_length, IH.
      * cbn. by rewrite fit_snoc by lia.
      * done.
      * cbn. rewrite Es, total_size_snoc. lia.
    + rewrite fit_all by lia. destruct d. cbn in *. by subst.
Qed.

Lemma evict_fit d :
  dyn_size d = total_size (dyn d) ->
  evict d = d <| dyn := fit (cur_max d) (dyn d) |> <| dyn_size := total_size (fit (cur_max d) (dyn d)) |>.
Proof. intros H. by apply evict_loop_fit. Qed.

Lemma add_fit name value d :
  dyn_size d = total_size (dyn d) ->
  add name value d = d <| dyn := fit (cur_max d) (mkField name value :: dyn d) |>
                       <| dyn_size := total_size (fit (cur_max d) (mkField name value :: dyn d)) |>.
Proof.
  intros H. unfold add. rewrite evict_fit; [done|]. cbn [dyn dyn_size field_update]. rewrite total_size_cons. cbn. unfold entry_size. cbn. lia.
Qed.

Lemma static_lengths : length static_name = 61%nat /\ length static_value = 61%nat.
Proof. split; vm_compute; reflexivity. Qed.

(** [entry] is the RFC's index space. *)
Lemma entry_spec i d :
  0 <= i ->
  match entry i d with
  | inl (n, v) => table_entry (dyn d) i = Some (mkField n v)
  | inr e => table_entry (dyn d) i = None /\ (e = IndexZero \/ e = IndexBeyondTable)
  end.
Proof.
  intros Hi. unfold entry, table_entry. destruct static_lengths as [Ln Lv].
  destruct (Z.eqb_spec i 0) as [->|Hne]; [cbn; auto|]. destruct (Z.leb_spec i 0); [lia|].
  destruct (Z.leb_spec i 61).
  - destruct (lookup_lt_is_Some_2 static_name (Z.to_nat (i - 1))) as [n ->]; [lia|].
    destruct (lookup_lt_is_Some_2 static_value (Z.to_nat (i - 1))) as [v ->]; [lia|]. done.
  - cbv zeta. destruct (Z.leb_spec (Z.of_nat (length (dyn d))) (i - 62)).
    + split; [apply lookup_ge_None_2; lia | auto].
    + destruct (lookup_lt_is_Some_2 (dyn d) (Z.to_nat (i - 62))) as [f ->]; [lia|]. by destruct f.
Qed.

(** ** One representation *)

Definition name_strings (n : name_ref) : list byte := match n with NameIdx _ => [] | NameLit s => s end.

(** The strings a representation writes into the arena. *)
Definition instr_strings (i : instr) : list byte :=
  match i with Incremental n v | Plain n v => name_strings n ++ v | Indexed _ | SizeUpdate _ => [] end.

Lemma arena_app d s t : d <| arena := arena d ++ s |> <| arena := arena (d <| arena := arena d ++ s |>) ++ t |> = d <| arena := arena d ++ (s ++ t) |>.
Proof. destruct d. cbn. by rewrite app_assoc. Qed.

Lemma arena_nil d : d <| arena := arena d ++ [] |> = d.
Proof. destruct d. cbn. by rewrite app_nil_r. Qed.

Lemma int_enc_ge0 prefix hi v bs : 1 <= prefix -> int_enc prefix hi v bs -> 0 <= v.
Proof. intros Hp H. destruct (int_enc_nonneg _ _ _ _ Hp H); lia. Qed.

Lemma decode_name_sound block prefix hi idx pos p bs d d' name q :
  1 <= prefix -> between block pos p bs -> int_enc prefix hi idx bs ->
  decode_name block idx p d = (d', inl (name, q)) ->
  exists n cs, between block pos q cs /\ name_enc prefix hi n cs /\ name_of (dyn d) n = Some name /\
    d' = d <| arena := arena d ++ name_strings n |>.
Proof.
  intros Hp Hbt He E. pose proof (int_enc_ge0 _ _ _ _ Hp He) as Hi. unfold decode_name in E.
  destruct (Z.ltb_spec 0 idx).
  - apply hbind_inl_inv in E as ([n v] & d1 & Ee & E). injection Ee as <- Ee. injection E as <- <- <-.
    pose proof (entry_spec idx d Hi) as Hs. rewrite Ee in Hs.
    exists (NameIdx idx), bs. cbn [name_of name_strings]. by rewrite Hs, arena_nil.
  - apply decode_str_sound in E as (-> & cs & Hbt' & Hs). exists (NameLit name), (bs ++ cs).
    split; [by eapply between_app|]. replace idx with 0 in He by lia. split; [|done]. exists bs, cs. done.
Qed.

Lemma decode_name_complete block prefix hi n pos q cs d name :
  1 <= prefix -> between block pos q cs -> (pos <= length block)%nat -> name_enc prefix hi n cs ->
  name_of (dyn d) n = Some name ->
  exists idx p bs, between block pos p bs /\ int_enc prefix hi idx bs /\
    decode_name block idx p d = (d <| arena := arena d ++ name_strings n |>, inl (name, q)).
Proof.
  intros Hp Hbt Hpos He Hn. destruct n as [i|s]; cbn [name_enc name_of name_strings] in *.
  - destruct He as [Hi He]. exists i, q, cs. split; [done|]. split; [done|]. unfold decode_name.
    destruct (Z.ltb_spec 0 i); [|lia]. pose proof (entry_spec i d ltac:(lia)) as Hs.
    destruct (entry i d) as [[n v]|e] eqn:Ee; [|by destruct Hs as [Hs _]; rewrite Hs in Hn].
    rewrite Hs in Hn. injection Hn as <-. rewrite (hbind_inl _ _ d (n, v) d) by (by rewrite Ee). by rewrite arena_nil.
  - injection Hn as ->. destruct He as (b1 & b2 & He & Hs & ->). apply between_app_inv in Hbt as (p & Hb1 & Hb2).
    exists 0, p, b1. split; [done|]. split; [done|]. unfold decode_name. rewrite Z.ltb_irrefl.
    apply (decode_str_complete _ _ _ _ _ b2); [done | by eapply between_le | done].
Qed.

Lemma decode_literal_sound block pos prefix decoded d d' name value p decoded' :
  1 <= prefix <= 7 -> decode_literal block pos prefix decoded d = (d', inl (name, value, p, decoded')) ->
  exists b n b1 b2, block !! pos = Some b /\ between block pos p (b1 ++ b2) /\
    name_enc prefix (byte_val b / 2 ^ prefix) n b1 /\ str_enc value b2 /\ name_of (dyn d) n = Some name /\
    decoded' = decoded + (blen name + blen value) /\ decoded' <= max_decoded_block /\
    d' = d <| arena := arena d ++ (name_strings n ++ value) |>.
Proof.
  intros Hp E. unfold decode_literal in E. apply hbind_inl_inv in E as ([idx p1] & d1 & Ei & E). injection Ei as <- Ei.
  apply decode_int_sound in Ei as (b & bs & Eb & Hbt & He); [|done].
  apply hbind_inl_inv in E as ([nm p2] & d2 & En & E).
  eapply (decode_name_sound _ prefix) in En as (n & cs & Hbt' & Hne & Hn & ->); [|lia|exact Hbt|exact He].
  apply hbind_inl_inv in E as ([vl p3] & d3 & Es & E). apply decode_str_sound in Es as (-> & ds & Hbt'' & Hs).
  cbv zeta in E. destruct (Z.ltb_spec max_decoded_block (decoded + (blen nm + blen vl))); [done|].
  apply pair_equal_spec in E as [<- E]. injection E as <- <- <- <-. exists b, n, cs, ds. rewrite arena_app.
  split; [done|]. split; [by eapply between_app|]. by repeat (split; [done|]).
Qed.

Lemma decode_literal_complete block pos prefix hi decoded d n b1 b2 name value p :
  1 <= prefix <= 7 -> between block pos p (b1 ++ b2) -> (pos <= length block)%nat ->
  name_enc prefix hi n b1 -> str_enc value b2 -> name_of (dyn d) n = Some name ->
  decoded + (blen name + blen value) <= max_decoded_block ->
  decode_literal block pos prefix decoded d =
    (d <| arena := arena d ++ (name_strings n ++ value) |>, inl (name, value, p, decoded + (blen name + blen value))).
Proof.
  intros Hp Hbt Hpos Hn Hs Hname Hle. apply between_app_inv in Hbt as (q & Hb1 & Hb2).
  destruct (decode_name_complete block prefix hi n pos q b1 d name ltac:(lia) Hb1 Hpos Hn Hname)
    as (idx & p1 & bs & Hbt & He & En).
  unfold decode_literal. rewrite (hbind_inl _ _ d (idx, p1) d)
    by (unfold hlift; by rewrite (decode_int_complete block pos prefix hi idx p1 bs Hp Hbt He)).
  cbv beta iota. rewrite (hbind_inl _ _ _ _ _ En). cbv beta iota.
  rewrite (hbind_inl _ _ _ _ _ (decode_str_complete block q _ value p b2 Hb2 (between_le _ _ _ _ Hb1 Hpos) Hs)).
  cbv beta iota zeta. destruct (Z.ltb_spec max_decoded_block (decoded + (blen name + blen value))); [lia|].
  unfold hret. by rewrite arena_app.
Qed.

(** The decoder after a representation that took the machine to [m]. *)
Definition after (d : HpackDecoder) (i : instr) (m : machine) : HpackDecoder :=
  mkDecoder (table m) (total_size (table m)) (max_size d) (capacity m) (arena d ++ instr_strings i).

Definition machine_of (d : HpackDecoder) (decoded : Z) (seen : bool) : machine :=
  mkMachine (dyn d) (cur_max d) decoded seen.

(** The class of a representation, by the bits above its prefix. *)
Lemma byte_class b :
  (byte_val b / 2 ^ 7 = 1 /\ negb (Z.land (byte_val b) 0x80 =? 0) = true) \/
  (negb (Z.land (byte_val b) 0x80 =? 0) = false /\
   (byte_val b / 2 ^ 6 = 1 /\ (Z.land (byte_val b) 0xc0 =? 0x40) = true \/
    (Z.land (byte_val b) 0xc0 =? 0x40) = false /\
    (byte_val b / 2 ^ 5 = 1 /\ (Z.land (byte_val b) 0xe0 =? 0x20) = true \/
     (Z.land (byte_val b) 0xe0 =? 0x20) = false /\ (byte_val b / 2 ^ 4 = 0 \/ byte_val b / 2 ^ 4 = 1)))).
Proof.
  rewrite str_flag, byte_class_40, byte_class_20. pose proof (byte_val_range b).
  change (2 ^ 7) with 128. change (2 ^ 6) with 64. change (2 ^ 5) with 32. change (2 ^ 4) with 16.
  destruct (Z.eqb_spec (byte_val b / 128) 1); [by left|]. right. split; [done|].
  destruct (Z.eqb_spec (byte_val b / 64) 1); [by left|]. right. split; [done|].
  destruct (Z.eqb_spec (byte_val b / 32) 1); [by left|]. right. split; [done|].
  Z.div_mod_to_equations. lia.
Qed.

Lemma emit_ok f t m :
  spent m + (blen (hname f) + blen (hvalue f)) <= max_decoded_block ->
  emit f t m = Some ([f], mkMachine t (capacity m) (spent m + (blen (hname f) + blen (hvalue f))) true).
Proof. intros H. unfold emit. cbv zeta. destruct (Z.leb_spec (spent m + (blen (hname f) + blen (hvalue f))) max_decoded_block); [done | lia]. Qed.

Lemma name_enc_head prefix hi n bs :
  1 <= prefix <= 7 -> name_enc prefix hi n bs -> exists b tl, bs = b :: tl /\ byte_val b / 2 ^ prefix = hi.
Proof.
  intros Hp H. destruct n as [i|s]; cbn in H; [destruct H as [_ H]; by eapply int_enc_head|].
  destruct H as (b1 & b2 & H & _ & ->). apply int_enc_head in H as (b & tl & -> & Hb); [|done].
  by exists b, (tl ++ b2).
Qed.

(** The first byte of a representation decides its class. *)
Definition instr_class (i : instr) (b : byte) : Prop :=
  match i with
  | Indexed _ => byte_val b / 2 ^ 7 = 1
  | Incremental _ _ => byte_val b / 2 ^ 6 = 1
  | SizeUpdate _ => byte_val b / 2 ^ 5 = 1
  | Plain _ _ => byte_val b / 2 ^ 4 = 0 \/ byte_val b / 2 ^ 4 = 1
  end.

Lemma instr_enc_head i bs : instr_enc i bs -> exists b tl, bs = b :: tl /\ instr_class i b.
Proof.
  destruct i as [i|n v|n|n v]; cbn [instr_enc instr_class].
  - intros H. apply int_enc_head in H; [done | lia].
  - intros (b1 & b2 & H & _ & ->). apply name_enc_head in H as (b & tl & -> & Hb); [|lia]. by exists b, (tl ++ b2).
  - intros H. apply int_enc_head in H; [done | lia].
  - intros (hi & b1 & b2 & Hh & H & _ & ->). apply name_enc_head in H as (b & tl & -> & Hb); [|lia].
    exists b, (tl ++ b2). rewrite Hb. done.
Qed.

Lemma after_same d i m :
  dyn_size d = total_size (dyn d) -> table m = dyn d -> capacity m = cur_max d ->
  d <| arena := arena d ++ instr_strings i |> = after d i m.
Proof. intros H Ht Hc. unfold after. rewrite Ht, Hc, <- H. by destruct d. Qed.

Lemma decode_field_sound block pos decoded seen d d' fs p decoded' seen' :
  dyn_size d = total_size (dyn d) ->
  decode_field block pos decoded seen d = (d', inl (fs, p, decoded', seen')) ->
  exists i bs m, between block pos p bs /\ instr_enc i bs /\
    exec (max_size d) i (machine_of d decoded seen) = Some (fs, m) /\ spent m = decoded' /\ started m = seen' /\
    d' = after d i m.
Proof.
  intros Hd E. unfold decode_field in E. destruct (block !! pos) as [b|] eqn:Eb; [|done]. cbv zeta in E.
  destruct (byte_class b) as [[Hh Hc]|[Hc [[Hh Hc']|[Hc' [[Hh Hc'']|[Hc'' Hh]]]]]]; rewrite Hc, ?Hc', ?Hc'' in E; clear Hc.
  - apply hbind_inl_inv in E as ([idx q] & d1 & Ei & E). injection Ei as <- Ei.
    apply decode_int_sound in Ei as (b' & bs & Eb' & Hbt & He); [|lia]. rewrite Eb in Eb'; injection Eb' as <-. rewrite Hh in He.
    apply hbind_inl_inv in E as ([n v] & d1 & Ee & E). injection Ee as <- Ee.
    pose proof (entry_spec idx d (int_enc_ge0 7 _ _ _ ltac:(lia) He)) as Hs. rewrite Ee in Hs.
    destruct (Z.ltb_spec max_decoded_block (decoded + (blen n + blen v))); [done|].
    apply pair_equal_spec in E as [<- E]. injection E as <- <- <- <-.
    exists (Indexed idx), bs. eexists. split; [done|]. split; [done|].
    cbn [exec machine_of table]. rewrite Hs. cbn [mbind option_bind]. rewrite emit_ok by done.
    split; [done|]. split; [done|]. split; [done|]. rewrite <- after_same by done. by rewrite arena_nil.
  - apply hbind_inl_inv in E as ([[[n v] q] dc] & d1 & El & E).
    apply decode_literal_sound in El as (b' & nr & b1 & b2 & Eb' & Hbt & Hn & Hs & Hname & -> & Hle & ->); [|lia].
    rewrite Eb in Eb'; injection Eb' as <-. rewrite Hh in Hn. apply pair_equal_spec in E as [<- E]. injection E as <- <- <- <-.
    exists (Incremental nr v), (b1 ++ b2). eexists. split; [done|]. split; [by exists b1, b2|].
    cbn [exec machine_of table]. rewrite Hname. cbn [mbind option_bind]. rewrite emit_ok by done.
    split; [done|]. split; [done|]. split; [done|]. by rewrite add_fit.
  - destruct seen; [done|]. apply hbind_inl_inv in E as ([sz q] & d1 & Ei & E). injection Ei as <- Ei.
    apply decode_int_sound in Ei as (b' & bs & Eb' & Hbt & He); [|lia]. rewrite Eb in Eb'; injection Eb' as <-. rewrite Hh in He.
    destruct (Z.ltb_spec (max_size d) sz); [done|]. apply pair_equal_spec in E as [<- E]. injection E as <- <- <- <-.
    exists (SizeUpdate sz), bs. eexists. split; [done|]. split; [done|].
    cbn [exec machine_of table started spent]. destruct (Z.leb_spec sz (max_size d)); [|lia].
    split; [done|]. split; [done|]. split; [done|]. rewrite evict_fit by done. unfold after. cbn. by rewrite app_nil_r.
  - apply hbind_inl_inv in E as ([[[n v] q] dc] & d1 & El & E).
    apply decode_literal_sound in El as (b' & nr & b1 & b2 & Eb' & Hbt & Hn & Hs & Hname & -> & Hle & ->); [|lia].
    rewrite Eb in Eb'; injection Eb' as <-. apply pair_equal_spec in E as [<- E]. injection E as <- <- <- <-.
    exists (Plain nr v), (b1 ++ b2). eexists. split; [done|]. split; [by exists (byte_val b / 2 ^ 4), b1, b2|].
    cbn [exec machine_of table]. rewrite Hname. cbn [mbind option_bind]. rewrite emit_ok by done.
    split; [done|]. split; [done|]. split; [done|]. by rewrite <- after_same.
Qed.

Lemma emit_inv f t m fs m' :
  emit f t m = Some (fs, m') ->
  fs = [f] /\ spent m + (blen (hname f) + blen (hvalue f)) <= max_decoded_block /\
  m' = mkMachine t (capacity m) (spent m + (blen (hname f) + blen (hvalue f))) true.
Proof.
  unfold emit. cbv zeta. destruct (Z.leb_spec (spent m + (blen (hname f) + blen (hvalue f))) max_decoded_block); [|done].
  by intros [= <- <-].
Qed.

(** The three tests of the loop on the first byte. *)
Definition class_tests (b : byte) : bool * bool * bool :=
  (negb (Z.land (byte_val b) 0x80 =? 0), Z.land (byte_val b) 0xc0 =? 0x40, Z.land (byte_val b) 0xe0 =? 0x20).

Lemma class_tests_spec i b :
  instr_class i b ->
  match i with
  | Indexed _ => (class_tests b).1.1 = true
  | Incremental _ _ => (class_tests b).1 = (false, true)
  | SizeUpdate _ => class_tests b = (false, false, true)
  | Plain _ _ => class_tests b = (false, false, false)
  end.
Proof.
  unfold class_tests. rewrite str_flag, byte_class_40, byte_class_20. intros H. pose proof (byte_val_range b).
  change (2 ^ 7) with 128. change (2 ^ 6) with 64. change (2 ^ 5) with 32.
  destruct i; cbn [instr_class fst] in *; change (2 ^ 7) with 128 in H; change (2 ^ 6) with 64 in H;
    change (2 ^ 5) with 32 in H; change (2 ^ 4) with 16 in H;
    repeat match goal with |- context [?x =? 1] => destruct (Z.eqb_spec x 1) end; try done;
    exfalso; Z.div_mod_to_equations; lia.
Qed.

Lemma decode_field_complete block pos decoded seen d i bs p fs m :
  dyn_size d = total_size (dyn d) -> between block pos p bs -> (pos <= length block)%nat -> instr_enc i bs ->
  exec (max_size d) i (machine_of d decoded seen) = Some (fs, m) ->
  decode_field block pos decoded seen d = (after d i m, inl (fs, p, spent m, started m)).
Proof.
  intros Hd Hbt Hpos He Hx. unfold decode_field.
  destruct (instr_enc_head _ _ He) as (b & tl & Ebs & Hcl).
  assert (Eb : block !! pos = Some b).
  { destruct Hbt as [E _]. rewrite <- (Nat.add_0_r pos), <- lookup_drop, E, Ebs. done. }
  rewrite Eb. cbv zeta. clear Ebs tl Eb. apply class_tests_spec in Hcl. unfold class_tests in Hcl.
  destruct i as [i|n v|n|n v]; cbn [instr_enc exec machine_of table started spent fst snd] in *;
    repeat apply pair_equal_spec in Hcl as [Hcl ?]; repeat match goal with H : _ = true |- _ => rewrite H | H : _ = false |- _ => rewrite H end.
  - rewrite (hbind_inl _ _ d (i, p) d) by (unfold hlift; by rewrite (decode_int_complete block pos 7 1 i p bs)).
    cbv beta iota. pose proof (entry_spec i d (int_enc_ge0 7 _ _ _ ltac:(lia) He)) as Hs.
    destruct (entry i d) as [[nm vl]|e] eqn:Ee; [|destruct Hs as [Hs _]; by rewrite Hs in Hx].
    rewrite Hs in Hx. cbn [mbind option_bind] in Hx. apply emit_inv in Hx as (-> & Hle & ->).
    rewrite (hbind_inl _ _ d (nm, vl) d) by (by rewrite Ee). cbn [spent hname hvalue machine_of] in *. cbv zeta.
    destruct (Z.ltb_spec max_decoded_block (decoded + (blen nm + blen vl))); [lia|].
    rewrite <- after_same by done. by rewrite arena_nil.
  - destruct He as (b1 & b2 & Hn & Hs & ->). destruct (name_of (dyn d) n) as [nm|] eqn:Hname; [|done].
    cbn [mbind option_bind] in Hx. apply emit_inv in Hx as (-> & Hle & ->). cbn [spent hname hvalue] in *.
    rewrite (hbind_inl _ _ _ _ _ (decode_literal_complete block pos 6 1 decoded d n b1 b2 nm v p ltac:(lia) Hbt Hpos Hn Hs Hname Hle)).
    cbv beta iota. by rewrite add_fit.
  - destruct seen; [done|]. destruct (Z.leb_spec n (max_size d)); [|done]. injection Hx as <- <-.
    rewrite (hbind_inl _ _ d (n, p) d) by (unfold hlift; by rewrite (decode_int_complete block pos 5 1 n p bs)).
    cbv beta iota. destruct (Z.ltb_spec (max_size d) n); [lia|]. rewrite evict_fit by done.
    unfold after. cbn. by rewrite app_nil_r.
  - destruct He as (hi & b1 & b2 & _ & Hn & Hs & ->). destruct (name_of (dyn d) n) as [nm|] eqn:Hname; [|done].
    cbn [mbind option_bind] in Hx. apply emit_inv in Hx as (-> & Hle & ->). cbn [spent hname hvalue] in *.
    rewrite (hbind_inl _ _ _ _ _ (decode_literal_complete block pos 4 hi decoded d n b1 b2 nm v p ltac:(lia) Hbt Hpos Hn Hs Hname Hle)).
    cbv beta iota. by rewrite <- after_same.
Qed.

(** ** The whole block *)

Lemma machine_of_after d i m : machine_of (after d i m) (spent m) (started m) = m.
Proof. by destruct m. Qed.

Lemma instr_enc_nonempty i bs : instr_enc i bs -> (0 < length bs)%nat.
Proof. intros (b & tl & -> & _)%instr_enc_head. cbn. lia. Qed.

Lemma decode_loop_sound fuel block pos decoded seen out d d' out' :
  dyn_size d = total_size (dyn d) -> (pos <= length block)%nat ->
  decode_loop fuel block pos decoded seen out d = (d', out', None) ->
  exists il fs m, block_enc il (drop pos block) /\ out' = out ++ fs /\
    run (max_size d) il (machine_of d decoded seen) = Some (fs, m) /\ dyn d' = table m /\ cur_max d' = capacity m.
Proof.
  revert pos decoded seen out d. induction fuel as [|fuel IH]; intros pos decoded seen out d Hd Hpos E;
    cbn [decode_loop] in E; destruct (Nat.ltb_spec pos (length block)); try done.
  2: destruct (decode_field block pos decoded seen d) as [d1 [[[[fs p] dc] sn]|e]] eqn:Ef; [|done].
  2: apply decode_field_sound in Ef as (i & bs & m & Hbt & He & Hx & <- & <- & ->); [|done].
  2: apply IH in E as (il & gs & m' & Hb & -> & Hr & Ht & Hc); [|done|by eapply between_le].
  2: exists (i :: il), (fs ++ gs), m'; destruct Hbt as [-> _]; split; [by constructor|].
  2: split; [by rewrite app_assoc|]; cbn [run]; rewrite Hx; cbn [mbind option_bind].
  2: rewrite machine_of_after in Hr; change (max_size (after d i m)) with (max_size d) in Hr; by rewrite Hr.
  all: injection E as <- <-; exists [], [], (machine_of d decoded seen); rewrite drop_ge, app_nil_r by lia.
  all: by repeat split; try constructor.
Qed.

Lemma decode_loop_complete fuel block pos decoded seen out d il fs m :
  dyn_size d = total_size (dyn d) -> (pos <= length block)%nat -> (length block - pos <= fuel)%nat ->
  block_enc il (drop pos block) -> run (max_size d) il (machine_of d decoded seen) = Some (fs, m) ->
  exists d', decode_loop fuel block pos decoded seen out d = (d', out ++ fs, None) /\ dyn d' = table m /\ cur_max d' = capacity m.
Proof.
  intros Hd Hpos Hf Hb. remember (drop pos block) as rest eqn:Er. revert fuel pos decoded seen out d fs Hd Hpos Hf Er.
  induction Hb as [|i il bs cs He Hb IH]; intros fuel pos decoded seen out d fs Hd Hpos Hf Er Hr.
  - apply (f_equal length) in Er. rewrite length_drop in Er. cbn in Er. injection Hr as <- <-. exists d.
    destruct fuel; cbn [decode_loop]; (destruct (Nat.ltb_spec pos (length block)); [lia|]); by rewrite app_nil_r.
  - pose proof (instr_enc_nonempty _ _ He) as Hne.
    assert (Hbt : between block pos (pos + length bs) bs).
    { split; [|done]. by rewrite <- drop_drop, <- Er, drop_app_length. }
    pose proof (between_le _ _ _ _ Hbt Hpos) as Hle.
    cbn [run] in Hr. destruct (exec _ i _) as [[gs m1]|] eqn:Hx; [|done]. cbn [mbind option_bind] in Hr.
    destruct (run _ il m1) as [[hs m2]|] eqn:Hr'; [|done]. cbn [mbind option_bind] in Hr. injection Hr as <- ->.
    destruct fuel as [|fuel]; [lia|]. cbn [decode_loop]. destruct (Nat.ltb_spec pos (length block)); [|lia].
    rewrite (decode_field_complete block pos decoded seen d i bs _ gs m1 Hd Hbt Hpos He Hx), app_assoc.
    apply IH; [done | done | lia | by destruct Hbt as [E _]; rewrite E in Er; apply app_inv_head in Er |].
    rewrite machine_of_after. exact Hr'.
Qed.

(** C16: The decoder implements RFC 7541. A block decodes to [fields] and leaves a
    table exactly when the block is a sequence of representations, with strings raw or
    in the Huffman code, that the RFC's machine turns into those fields and that table;
    every other block is refused. *)
Theorem decode_refines_rfc7541 d block fields t cap :
  decoder_inv d ->
  (exists d', decode block d = (d', inl fields) /\ dyn d' = t /\ cur_max d' = cap) <->
  (exists il m, block_enc il block /\ run (max_size d) il (mkMachine (dyn d) (cur_max d) 0 false) = Some (fields, m) /\
     table m = t /\ capacity m = cap).
Proof.
  intros (Hd & _ & _). unfold decode, decode_into. split.
  - intros (d' & E & Ht & Hc). destruct (decode_loop _ _ _ _ _ _ _) as [[d1 out] [e|]] eqn:El; [done|].
    injection E as -> ->. apply decode_loop_sound in El as (il & fs & m & Hb & -> & Hr & Ht' & Hc'); [|done|lia].
    exists il, m. rewrite <- Ht', <- Hc'. done.
  - intros (il & m & Hb & Hr & Ht & Hc).
    destruct (decode_loop_complete (length block) block 0 0 false [] (d <| arena := [] |>) il fields m)
      as (d' & -> & Ht' & Hc'); [done | lia | lia | done | done |].
    exists d'. by rewrite Ht', Hc'.
Qed.

(** RFC 7541 C.4.1, a request with a Huffman-coded host. *)
Definition rfc_request : list byte :=
  byte_of_Z <$> [0x82; 0x86; 0x84; 0x41; 0x8c; 0xf1; 0xe3; 0xc2; 0xe5; 0xf2; 0x3a; 0x6b; 0xa0; 0xab; 0x90; 0xf4; 0xff].

Definition rfc_fields : list HeaderField :=
  [mkField (bytes_of ":method") (bytes_of "GET"); mkField (bytes_of ":scheme") (bytes_of "http");
   mkField (bytes_of ":path") (bytes_of "/"); mkField (bytes_of ":authority") (bytes_of "www.example.com")].

Lemma decode_refines_rfc7541_witness :
  decoder_inv (new_decoder 4096) /\
  exists il m, block_enc il rfc_request /\ run 4096 il (mkMachine [] 4096 0 false) = Some (rfc_fields, m) /\
    table m = [mkField (bytes_of ":authority") (bytes_of "www.example.com")] /\ capacity m = 4096.
Proof.
  assert (H : decoder_inv (new_decoder 4096)) by (repeat split; done).
  split; [exact H|].
  apply (proj1 (decode_refines_rfc7541 (new_decoder 4096) rfc_request rfc_fields
    [mkField (bytes_of ":authority") (bytes_of "www.example.com")] 4096 H)).
  exists (fst (decode rfc_request (new_decoder 4096))). repeat split; vm_compute; reflexivity.
Defined.

(** ** Errors, memory and the ceiling *)

(** Errors the decoder reports; the others are unreachable. *)
Definition reported (e : hpack_error) : bool :=
  match e with
  | HpackPanic | HpackFuel | HuffmanError (HuffInvalid | HuffPanic | HuffFuel) => false
  | _ => true
  end.

Lemma hbind_inr_inv {A B} (c : hp A) (k : A -> hp B) d d' e :
  hbind c k d = (d', inr e) -> c d = (d', inr e) \/ exists a d1, c d = (d1, inl a) /\ k a d1 = (d', inr e).
Proof. unfold hbind. destruct (c d) as [d1 [a|e']]; [by right; eauto | by left; injection H as -> ->]. Qed.

Lemma int_loop_err fuel block p v shift e :
  shift + 7 * Z.of_nat fuel = 42 -> (0 < fuel)%nat -> int_loop fuel block p v shift = inr e -> reported e = true.
Proof.
  revert p v shift. induction fuel as [|fuel IH]; intros p v shift Hf Hpos E; [lia|]. cbn [int_loop] in E.
  destruct (block !! p); [|by injection E as <-]. cbv zeta in E.
  destruct (Z.ltb_spec 35 (shift + 7)); [by injection E as <-|].
  destruct (_ =? 0); [destruct (_ <? _); [by injection E as <- | done]|]. eapply IH; [| |exact E]; lia.
Qed.

Lemma decode_int_err block pos prefix e : decode_int block pos prefix = inr e -> reported e = true.
Proof.
  unfold decode_int. destruct (block !! pos); [|by intros [= <-]]. cbv zeta. destruct (_ <? _); [done|].
  apply int_loop_err; lia.
Qed.

(** [d'] is [d] with bytes appended to the arena that were read from [pos] on. *)
Definition spilled (block : list byte) (pos : nat) (d d' : HpackDecoder) : Prop :=
  exists s, d' = d <| arena := arena d ++ s |> /\ (5 * length s + 8 * pos <= 8 * length block)%nat.

Lemma spilled_refl block pos d : (pos <= length block)%nat -> spilled block pos d d.
Proof. intros H. exists []. rewrite arena_nil. split; [done | cbn; lia]. Qed.

Lemma spilled_step block pos p d s d' :
  (5 * length s <= 8 * (p - pos))%nat -> (pos <= p)%nat ->
  spilled block p (d <| arena := arena d ++ s |>) d' -> spilled block pos d d'.
Proof.
  intros Hs Hle (t & -> & Ht). exists (s ++ t). rewrite arena_app. split; [done|]. rewrite length_app. lia.
Qed.

Lemma str_enc_length s bs : str_enc s bs -> (5 * length s <= 8 * length bs)%nat.
Proof.
  intros [(hd & _ & ->)|(hd & src & k & _ & -> & Hk & E)]; rewrite length_app; [lia|].
  destruct (huffman_decode_length src [] s None) as (t & -> & Ht); [by apply (huffman_decode_ok src [] s k)|]. cbn [app]. lia.
Qed.

Lemma name_enc_length prefix hi n bs : name_enc prefix hi n bs -> (5 * length (name_strings n) <= 8 * length bs)%nat.
Proof.
  destruct n as [i|s]; cbn; [lia|]. intros (b1 & b2 & _ & H%str_enc_length & ->). rewrite length_app. lia.
Qed.

Lemma instr_enc_length i bs : instr_enc i bs -> (5 * length (instr_strings i) <= 8 * length bs)%nat.
Proof.
  destruct i as [i|n v|n|n v]; cbn [instr_enc instr_strings]; [cbn; lia| |cbn; lia|].
  - intros (b1 & b2 & H1%name_enc_length & H2%str_enc_length & ->). rewrite !length_app. lia.
  - intros (hi & b1 & b2 & _ & H1%name_enc_length & H2%str_enc_length & ->). rewrite !length_app. lia.
Qed.

Lemma decode_str_err block pos d d' e :
  (pos <= length block)%nat -> decode_str block pos d = (d', inr e) -> spilled block pos d d' /\ reported e = true.
Proof.
  intros Hpos E. unfold decode_str in E. destruct (block !! pos) as [b|]; [|injection E as <- <-; split; [by apply spilled_refl | done]].
  cbv zeta in E. apply hbind_inr_inv in E as [E|([n q] & d1 & Ei & E)].
  - apply pair_equal_spec in E as [<- E]. split; [by apply spilled_refl | by eapply decode_int_err].
  - injection Ei as <- Ei. apply decode_int_sound in Ei as (b' & hd & _ & [_ ->] & He); [|lia].
    apply (int_enc_ge0 7) in He; [|lia]. unfold blen in E.
    destruct (Z.ltb_spec (Z.of_nat (length block)) (Z.of_nat (pos + length hd) + n));
      [apply pair_equal_spec in E as [<- E]; injection E as <-; split; [by apply spilled_refl | done]|].
    destruct (Z.eqb_spec n 0); [done|]. destruct (negb _); [|done].
    destruct (huffman_decode _ (arena d)) as [out [e'|]] eqn:Eh; [|done]. apply pair_equal_spec in E as [<- E]. injection E as <-.
    split.
    + destruct (huffman_decode_length _ _ _ _ Eh) as (s & -> & Hs). exists s. split; [done|].
      rewrite length_take, length_drop in Hs. lia.
    + destruct (huffman_decode_cases (take (Z.to_nat n) (drop (pos + length hd) block)) (arena d))
        as [(s & p & _ & _ & Ex)|(s & p & _ & Ex)]; rewrite Ex in Eh; [|by injection Eh as <- <-].
      repeat case_decide; by simplify_eq.
Qed.

Lemma decode_name_err block idx p d d' e :
  0 <= idx -> (p <= length block)%nat -> decode_name block idx p d = (d', inr e) -> spilled block p d d' /\ reported e = true.
Proof.
  intros Hi Hp E. unfold decode_name in E. destruct (Z.ltb_spec 0 idx); [|by apply decode_str_err].
  apply hbind_inr_inv in E as [E|([n v] & d1 & _ & E)]; [|done]. apply pair_equal_spec in E as [<- E].
  pose proof (entry_spec idx d Hi) as Hs. rewrite E in Hs. split; [by apply spilled_refl|].
  by destruct Hs as [_ [->| ->]].
Qed.

Lemma decode_literal_err block pos prefix decoded d d' e :
  1 <= prefix <= 7 -> (pos <= length block)%nat ->
  decode_literal block pos prefix decoded d = (d', inr e) -> spilled block pos d d' /\ reported e = true.
Proof.
  intros Hp Hpos E. unfold decode_literal in E. apply hbind_inr_inv in E as [E|([idx q] & d1 & Ei & E)].
  { apply pair_equal_spec in E as [<- E]. split; [by apply spilled_refl | by eapply decode_int_err]. }
  injection Ei as <- Ei. apply decode_int_sound in Ei as (b & bs & Eb & Hbt & He); [|done].
  pose proof (between_le _ _ _ _ Hbt Hpos) as Hq. apply hbind_inr_inv in E as [E|([nm q'] & d1 & En & E)].
  { apply decode_name_err in E as [Hs Hr]; [|by eapply int_enc_ge0; [|exact He]; lia|done]. split; [|done].
    rewrite <- (arena_nil d) in Hs. eapply (spilled_step _ _ q _ []); [cbn; lia | destruct Hbt; lia | exact Hs]. }
  eapply (decode_name_sound _ prefix) in En as (n & cs & Hbt' & Hne & Hn & ->); [|lia|exact Hbt|exact He].
  pose proof (between_le _ _ _ _ Hbt' Hpos) as Hq'. apply name_enc_length in Hne. destruct Hbt' as [_ Eq].
  assert (Hstep : forall d'', spilled block q' (d <| arena := arena d ++ name_strings n |>) d'' -> spilled block pos d d'')
    by (intros d''; apply spilled_step; lia).
  apply hbind_inr_inv in E as [E|([vl q''] & d1 & Es & E)].
  { apply decode_str_err in E as [Hs Hr]; [|done]. split; [by apply Hstep | done]. }
  apply decode_str_sound in Es as (-> & ds & Hbt'' & Hs). apply str_enc_length in Hs.
  pose proof (between_le _ _ _ _ Hbt'' Hq') as Hq''. destruct Hbt'' as [_ Eq'']. cbv zeta in E.
  destruct (_ <? _); [|done]. apply pair_equal_spec in E as [<- E]. injection E as <-. split; [|done].
  apply Hstep, (spilled_step _ _ q'' _ vl); [lia.. | by apply spilled_refl].
Qed.

Lemma decode_field_err block pos decoded seen d d' e :
  (pos < length block)%nat ->
  decode_field block pos decoded seen d = (d', inr e) -> spilled block pos d d' /\ reported e = true.
Proof.
  intros Hpos E. unfold decode_field in E. assert (Hle : (pos <= length block)%nat) by lia.
  destruct (lookup_lt_is_Some_2 block pos Hpos) as [b Eb]. rewrite Eb in E. cbv zeta in E.
  assert (Hsame : forall e', (d, inr e') = (d', inr e) :> HpackDecoder * (list HeaderField * nat * Z * bool + hpack_error) ->
    reported e' = true -> spilled block pos d d' /\ reported e = true)
    by (intros e' [= <- <-]; split; [by apply spilled_refl | done]).
  destruct (negb _); [|destruct (_ =? 0x40); [|destruct (_ =? 0x20); [destruct seen; [by eapply Hsame|]|]]].
  - apply hbind_inr_inv in E as [E|([idx q] & d1 & Ei & E)].
    { apply pair_equal_spec in E as [<- E]. split; [by apply spilled_refl | by eapply decode_int_err]. }
    injection Ei as <- Ei. apply decode_int_sound in Ei as (b' & bs & _ & _ & He); [|lia].
    pose proof (entry_spec idx d (int_enc_ge0 7 _ _ _ ltac:(lia) He)) as Hs.
    apply hbind_inr_inv in E as [E|([n v] & d1 & Ee & E)].
    { apply pair_equal_spec in E as [<- E]. rewrite E in Hs. split; [by apply spilled_refl | by destruct Hs as [_ [->| ->]]]. }
    injection Ee as <- Ee. cbv zeta in E. destruct (_ <? _); [by eapply Hsame | done].
  - apply hbind_inr_inv in E as [E|([[[n v] q] dc] & d1 & _ & E)]; [|done]. by apply decode_literal_err in E; [|lia|].
  - apply hbind_inr_inv in E as [E|([sz q] & d1 & Ei & E)].
    { apply pair_equal_spec in E as [<- E]. split; [by apply spilled_refl | by eapply decode_int_err]. }
    injection Ei as <- Ei. destruct (_ <? _); [by eapply Hsame | done].
  - apply hbind_inr_inv in E as [E|([[[n v] q] dc] & d1 & _ & E)]; [|done]. by apply decode_literal_err in E; [|lia|].
Qed.

(** Names and values of a list of fields, as [decoded] counts them. *)
Definition decoded_bytes (l : list HeaderField) : Z := foldr (fun f n => blen (hname f) + blen (hvalue f) + n) 0 l.

Lemma decoded_bytes_app l k : decoded_bytes (l ++ k) = decoded_bytes l + decoded_bytes k.
Proof. unfold decoded_bytes. induction l as [|f l IH]; [done|]. cbn [app foldr]. rewrite IH. lia. Qed.

Lemma decoded_bytes_nonneg l : 0 <= decoded_bytes l.
Proof. unfold decoded_bytes. induction l as [|f l IH]; [done|]. cbn [foldr]. unfold blen in *. lia. Qed.

Definition machine_inv (limit : Z) (m : machine) : Prop :=
  total_size (table m) <= capacity m <= limit /\ spent m <= max_decoded_block.

Lemma exec_inv limit i m fs m' bs :
  instr_enc i bs -> machine_inv limit m -> exec limit i m = Some (fs, m') ->
  machine_inv limit m' /\ spent m' = spent m + decoded_bytes fs.
Proof.
  intros He ([Ht Hc] & Hs) E. unfold machine_inv. pose proof (total_size_nonneg (table m)).
  destruct i as [i|n v|n|n v]; cbn [exec] in E.
  - destruct (table_entry _ _); [|done]. apply emit_inv in E as (-> & Hle & ->). cbn [table capacity spent decoded_bytes foldr]. lia.
  - destruct (name_of _ _); [|done]. apply emit_inv in E as (-> & Hle & ->). cbn [table capacity spent decoded_bytes foldr].
    pose proof (fit_size (capacity m) (mkField l v :: table m)). lia.
  - destruct (started m); [done|]. destruct (Z.leb_spec n limit); [|done]. injection E as <- <-. cbn [table capacity spent decoded_bytes foldr].
    pose proof (fit_size n (table m) (int_enc_ge0 5 _ _ _ ltac:(lia) He)). lia.
  - destruct (name_of _ _); [|done]. apply emit_inv in E as (-> & Hle & ->). cbn [table capacity spent decoded_bytes foldr]. lia.
Qed.

Lemma decode_loop_inv fuel block pos decoded seen out d d' out' e :
  decoder_inv d -> decoded = decoded_bytes out -> decoded <= max_decoded_block ->
  (5 * length (arena d) <= 8 * pos)%nat -> (pos <= length block)%nat -> (length block - pos <= fuel)%nat ->
  decode_loop fuel block pos decoded seen out d = (d', out', e) ->
  decoder_inv d' /\ max_size d' = max_size d /\ decoded_bytes out' <= max_decoded_block /\
  (5 * length (arena d') <= 8 * length block)%nat /\ (forall x, e = Some x -> reported x = true).
Proof.
  revert pos decoded seen out d. induction fuel as [|fuel IH]; intros pos decoded seen out d Hi Hdc Hle Ha Hpos Hf E;
    cbn [decode_loop] in E; (destruct (Nat.ltb_spec pos (length block));
      [|injection E as <- <- <-; split; [done|]; split; [done|]; split; [lia|]; split; [lia | done]]); [lia|].
  pose proof Hi as (Hd & Ht & Hc). destruct (decode_field block pos decoded seen d) as [d1 [[[[fs p] dc] sn]|x]] eqn:Ef.
  - apply decode_field_sound in Ef as (i & bs & m & Hbt & He & Hx & <- & <- & ->); [|done].
    destruct (exec_inv (max_size d) i (machine_of d decoded seen) fs m bs He (conj (conj Ht Hc) Hle) Hx) as (([Ht' Hc'] & Hs) & Hsp).
    pose proof (instr_enc_length _ _ He). pose proof (instr_enc_nonempty _ _ He).
    pose proof (between_le _ _ _ _ Hbt Hpos). destruct Hbt as [_ ->]. cbn [machine_of spent] in Hsp.
    apply IH in E; [exact E | by repeat split | rewrite decoded_bytes_app; lia | done | cbn; rewrite length_app; lia | done | lia].
  - injection E as <- <- <-. apply decode_field_err in Ef as [(s & -> & Hs) Hr]; [|done].
    split; [done|]. split; [done|]. split; [lia|]. split; [cbn; rewrite length_app; lia | by intros ? [= <-]].
Qed.

(** Whatever block a peer sends, and whether or not it decodes: the table's byte
    count is the sum of its entries and stays within the current limit, which stays within
    the advertised one; the fields handed out stay within the 256 KiB ceiling; the strings
    of the block fit the arena reserved for it (twice the block), so no view handed out
    is moved; and only the errors for bad input occur. *)
Theorem hpack_decoder_invariant d block d' out e :
  decoder_inv d -> decode_into block d = (d', out, e) ->
  decoder_inv d' /\ max_size d' = max_size d /\ decoded_bytes out <= max_decoded_block /\
  (length (arena d') <= 2 * length block)%nat /\ (forall x, e = Some x -> reported x = true).
Proof.
  intros Hi E. unfold decode_into in E.
  apply decode_loop_inv in E as (Hi' & Hm & Hb & Ha & He); [|done | done | done | cbn; lia | lia | lia].
  repeat (split; [done || lia|]). done.
Qed.

Lemma hpack_decoder_invariant_witness :
  decoder_inv (new_decoder 64) /\
  let '(d', out, e) := decode_into (rfc_request ++ rfc_request ++ [byte_of_Z 0xff]) (new_decoder 64) in
  decoder_inv d' /\ max_size d' = 64 /\ decoded_bytes out <= max_decoded_block /\
  (length (arena d') <= 70)%nat /\ (forall x, e = Some x -> reported x = true).
Proof.
  assert (H : decoder_inv (new_decoder 64)) by (repeat split; done).
  split; [exact H|]. destruct (decode_into _ _) as [[d' out] e] eqn:E.
  exact (hpack_decoder_invariant (new_decoder 64) (rfc_request ++ rfc_request ++ [byte_of_Z 0xff]) d' out e H E).
Defined.

(** ** The encoder's output is read back *)

Lemma encode_loop_enc n fuel v out :
  (n <= fuel)%nat -> 0 <= v < 128 ^ Z.of_nat (S n) ->
  exists cs, encode_loop fuel v out = out ++ cs /\ cont_enc v cs /\ (length cs <= S n)%nat.
Proof.
  revert fuel v out. induction n as [|n IH]; intros fuel v out Hf Hv.
  - change (128 ^ Z.of_nat 1) with 128 in Hv. exists [byte_of_Z v].
    destruct fuel; cbn [encode_loop]; [|destruct (Z.leb_spec 128 v); [lia|]]; (split; [done|]; split; [by constructor | done]).
  - destruct fuel as [|fuel]; [lia|]. cbn [encode_loop]. destruct (Z.leb_spec 128 v) as [Hge|Hlt].
    + change 0x7f with (Z.ones 7). rewrite Z.land_ones by lia. change (2 ^ 7) with 128.
      rewrite Z.shiftr_div_pow2 by lia. change (2 ^ 7) with 128.
      rewrite Nat2Z.inj_succ, Z.pow_succ_r in Hv by lia.
      destruct (IH fuel (v / 128) (out ++ [byte_of_Z (Z.lor (v mod 128) 128)])) as (cs & -> & Hc & Hl);
        [lia | split; [apply Z.div_pos; lia | apply Z.div_lt_upper_bound; lia] |].
      pose proof (Z.mod_pos_bound v 128 ltac:(lia)).
      pose proof (lor_high_bit (v mod 128) 7 ltac:(lia) ltac:(lia)) as Ehb. change (2 ^ 7) with 128 in Ehb.
      rewrite Z.lor_comm, Ehb.
      eexists (_ :: cs). split; [by rewrite <- app_assoc|]. split; [|cbn; lia].
      replace v with (v mod 128 + 128 * (v / 128)) at 1 by (Z.div_mod_to_equations; lia). by constructor.
    + exists [byte_of_Z v]. split; [done|]. split; [constructor; lia | cbn; lia].
Qed.

Lemma encode_int_enc out prefix hi v :
  1 <= prefix <= 7 -> 0 <= hi < 2 ^ (8 - prefix) -> 0 <= v <= 2 ^ 28 ->
  exists bs, encode_int out (hi * 2 ^ prefix) prefix v = out ++ bs /\ int_enc prefix hi v bs.
Proof.
  intros Hp Hh Hv. unfold encode_int. cbv zeta. destruct (prefix_mask NUL prefix Hp) as [-> _].
  assert (HP : 2 ^ 1 <= 2 ^ prefix <= 2 ^ 7) by (split; apply Z.pow_le_mono_r; lia).
  change (2 ^ 1) with 2 in HP. change (2 ^ 7) with 128 in HP.
  assert (Hlor : forall x, 0 <= x < 2 ^ prefix -> Z.lor (hi * 2 ^ prefix) (u8 x) = hi * 2 ^ prefix + x).
  { intros x Hx. unfold u8. rewrite Z.mod_small by (change (2 ^ 8) with 256; lia).
    by apply lor_mul_pow2; lia. }
  destruct (Z.ltb_spec v (2 ^ prefix - 1)).
  - rewrite Hlor by lia. eexists. split; [done|]. split; [done|]. left. split; [lia | done].
  - rewrite Hlor by lia. unfold u32. change (2 ^ 28) with 268435456 in *.
    rewrite Z.mod_small by (change (2 ^ 32) with 4294967296; lia).
    destruct (encode_loop_enc 4 5 (v - (2 ^ prefix - 1)) (out ++ [byte_of_Z (hi * 2 ^ prefix + (2 ^ prefix - 1))]))
      as (cs & -> & Hc & Hl); [lia | change (128 ^ Z.of_nat 5) with 34359738368; lia |].
    eexists (_ :: cs). split; [by rewrite <- app_assoc|]. split; [done|]. right.
    exists (v - (2 ^ prefix - 1)), cs. repeat split; try done; lia.
Qed.

Lemma u32_small v : 0 <= v <= 2 ^ 28 -> u32 v = v.
Proof. intros H. apply Z.mod_small. change (2 ^ 28) with 268435456 in H. change (2 ^ 32) with 4294967296. lia. Qed.

Lemma encode_str_enc out s : blen s <= 2 ^ 28 -> exists bs, encode_str out s = out ++ bs /\ str_enc s bs.
Proof.
  intros Hs. unfold encode_str. rewrite u32_small by (unfold blen in *; lia).
  destruct (encode_int_enc out 7 0 (blen s)) as (bs & E & He); [lia | done | unfold blen in *; lia |].
  change (0 * 2 ^ 7) with 0 in E. rewrite E. exists (bs ++ s). split; [|left; by exists bs].
  destruct s; cbn [length Nat.ltb Nat.leb]; [by rewrite !app_nil_r | by rewrite app_assoc].
Qed.

(** What the server writes of a response's head. *)
Inductive response_field :=
  | RIndexed (idx : Z)
  | RNameIdx (idx : Z) (value : list byte)
  | RLiteral (name value : list byte)
  | RStatus (status : Z).

Definition encode_response (out : list byte) (f : response_field) : list byte :=
  match f with
  | RIndexed i => encode_indexed out i
  | RNameIdx i v => encode_literal_name_idx out i v
  | RLiteral n v => encode_literal out n v
  | RStatus s => encode_status out s
  end.

(** The three decimal digits of a status. *)
Definition status_text (s : Z) : list byte :=
  [byte_of_Z (48 + s / 100); byte_of_Z (48 + s / 10 mod 10); byte_of_Z (48 + s mod 10)].

(** The field it stands for; an index is one of the static table. *)
Definition response_value (f : response_field) : option HeaderField :=
  match f with
  | RIndexed i => if i <=? 61 then table_entry [] i else None
  | RNameIdx i v => if i <=? 61 then e ← table_entry [] i; Some (mkField (hname e) v) else None
  | RLiteral n v => Some (mkField n v)
  | RStatus s => if (100 <=? s) && (s <=? 999) then Some (mkField (bytes_of ":status") (status_text s)) else None
  end.

Lemma table_entry_static t i : i <= 61 -> table_entry t i = table_entry [] i.
Proof. intros H. unfold table_entry. destruct (i <=? 0); [done|]. by destruct (Z.leb_spec i 61); [|lia]. Qed.

Lemma table_entry_pos t i f : table_entry t i = Some f -> 0 < i.
Proof. unfold table_entry. by destruct (Z.leb_spec i 0). Qed.

(** [m] after a field that does not change the table. *)
Definition produced (m : machine) (f : HeaderField) : machine :=
  mkMachine (table m) (capacity m) (spent m + (blen (hname f) + blen (hvalue f))) true.

(** An encoding is a representation that produces the field from any table. *)
Definition encodes (f : HeaderField) (bs : list byte) : Prop :=
  exists i, instr_enc i bs /\ forall limit m,
    spent m + (blen (hname f) + blen (hvalue f)) <= max_decoded_block -> exec limit i m = Some ([f], produced m f).

Lemma encodes_indexed out i f :
  1 <= i <= 61 -> table_entry [] i = Some f -> exists bs, encode_indexed out i = out ++ bs /\ encodes f bs.
Proof.
  intros Hi Hf. unfold encode_indexed. rewrite u32_small by lia.
  destruct (encode_int_enc out 7 1 i) as (bs & E & He); [lia | lia | lia |]. change (1 * 2 ^ 7) with 0x80 in E.
  exists bs. split; [done|]. exists (Indexed i). split; [done|]. intros limit m Hle. cbn [exec].
  rewrite table_entry_static, Hf by lia. by apply emit_ok.
Qed.

Lemma encodes_name_idx out i f v :
  1 <= i <= 61 -> blen v <= 2 ^ 28 -> table_entry [] i = Some f ->
  exists bs, encode_literal_name_idx out i v = out ++ bs /\ encodes (mkField (hname f) v) bs.
Proof.
  intros Hi Hv Hf. unfold encode_literal_name_idx. rewrite u32_small by lia.
  destruct (encode_int_enc out 4 0 i) as (b1 & E & He); [lia | lia | lia |]. change (0 * 2 ^ 4) with 0 in E. rewrite E.
  destruct (encode_str_enc (out ++ b1) v Hv) as (b2 & -> & Hs). exists (b1 ++ b2). split; [by rewrite app_assoc|].
  exists (Plain (NameIdx i) v). split.
  - exists 0, b1, b2. split; [auto|]. split; [|done]. split; [lia | done].
  - intros limit m Hle. cbn [exec name_of]. rewrite table_entry_static, Hf by lia. by apply emit_ok.
Qed.

Lemma encodes_literal out n v :
  blen n <= 2 ^ 28 -> blen v <= 2 ^ 28 ->
  exists bs, encode_literal out n v = out ++ bs /\ encodes (mkField n v) bs.
Proof.
  intros Hn Hv. unfold encode_literal. destruct (encode_str_enc (out ++ [byte_of_Z 0]) n Hn) as (b1 & -> & H1).
  destruct (encode_str_enc ((out ++ [byte_of_Z 0]) ++ b1) v Hv) as (b2 & -> & H2).
  exists (([byte_of_Z 0] ++ b1) ++ b2). split; [by rewrite <- !app_assoc|].
  exists (Plain (NameLit n) v). split.
  - exists 0, ([byte_of_Z 0] ++ b1), b2. split; [auto|]. split; [|done]. exists [byte_of_Z 0], b1. split; [|done].
    split; [lia|]. left. split; [lia | done].
  - intros limit m Hle. by apply emit_ok.
Qed.

Lemma encode_status_other out s :
  100 <= s <= 999 -> s ∉ [200; 204; 206; 304; 400; 404; 500] ->
  encode_status out s = encode_literal_name_idx out 8 (status_text s).
Proof.
  intros Hs Hn. rewrite !not_elem_of_cons in Hn. destruct Hn as (H1 & H2 & H3 & H4 & H5 & H6 & H7 & _). unfold encode_status.
  do 7 (rewrite (proj2 (Z.eqb_neq s _)) by done).
  rewrite !Z.quot_div_nonneg, !Z.rem_mod_nonneg by (lia || (apply Z.div_pos; lia)).
  unfold encode_literal_name_idx, encode_str, status_text, blen. cbn [length Nat.ltb Nat.leb]. cbv zeta.
  change (u32 8) with 8. change (u32 (Z.of_nat 3)) with 3.
  rewrite (Z.mod_small (s / 100) 10) by (Z.div_mod_to_equations; lia). done.
Qed.

Lemma encodes_status out s :
  100 <= s <= 999 -> exists bs, encode_status out s = out ++ bs /\ encodes (mkField (bytes_of ":status") (status_text s)) bs.
Proof.
  intros Hs. destruct (decide (s ∈ [200; 204; 206; 304; 400; 404; 500])) as [Hin|Hn].
  - repeat (apply elem_of_cons in Hin as [->|Hin]); [apply encodes_indexed; [lia | vm_compute; reflexivity] ..|].
    by apply elem_of_nil in Hin.
  - rewrite encode_status_other by done.
    apply (encodes_name_idx out 8 (mkField (bytes_of ":status") (bytes_of "200"))); [lia | done | vm_compute; reflexivity].
Qed.

Lemma encodes_response out r f :
  response_value r = Some f -> blen (hname f) + blen (hvalue f) <= max_decoded_block ->
  exists bs, encode_response out r = out ++ bs /\ encodes f bs.
Proof.
  intros Hr Hle. assert (Hn : blen (hname f) <= 2 ^ 28 /\ blen (hvalue f) <= 2 ^ 28)
    by (unfold blen, max_decoded_block in *; change (2 ^ 28) with 268435456; lia).
  destruct r as [i|i v|n v|s]; cbn [response_value encode_response] in *.
  - destruct (Z.leb_spec i 61); [|done]. pose proof (table_entry_pos _ _ _ Hr). apply encodes_indexed; [lia | done].
  - destruct (Z.leb_spec i 61); [|done]. destruct (table_entry [] i) as [e|] eqn:Ee; [|done]. injection Hr as <-.
    pose proof (table_entry_pos _ _ _ Ee). apply encodes_name_idx; [lia | by destruct Hn | done].
  - injection Hr as <-. by apply encodes_literal; destruct Hn.
  - destruct (Z.leb_spec 100 s), (Z.leb_spec s 999); try done. injection Hr as <-. by apply encodes_status.
Qed.

Lemma encode_responses_run rs fs out :
  Forall2 (fun r f => response_value r = Some f) rs fs -> decoded_bytes fs <= max_decoded_block ->
  exists bs il, foldl encode_response out rs = out ++ bs /\ block_enc il bs /\
    forall limit m, spent m + decoded_bytes fs <= max_decoded_block -> exists m', run limit il m = Some (fs, m') /\
      table m' = table m /\ capacity m' = capacity m.
Proof.
  intros H. revert out. induction H as [|r f rs fs Hr H IH]; intros out Hle.
  { exists [], []. rewrite app_nil_r. split; [done|]. split; [constructor|]. intros limit m _. by exists m. }
  pose proof (decoded_bytes_nonneg fs) as Hfs.
  cbn [decoded_bytes foldr] in Hle. fold (decoded_bytes fs) in Hle.
  destruct (encodes_response out r f Hr) as (b1 & E & i & He & Hx); [lia|]. cbn [foldl]. rewrite E.
  destruct (IH (out ++ b1)) as (b2 & il & -> & Hb & Hrun); [unfold blen in *; lia|].
  exists (b1 ++ b2), (i :: il). split; [by rewrite app_assoc|]. split; [by constructor|]. intros limit m Hm.
  cbn [decoded_bytes foldr] in Hm. fold (decoded_bytes fs) in Hm.
  destruct (Hrun limit (produced m f)) as (m' & Hr' & Ht & Hc); [cbn [produced spent]; lia|].
  exists m'. cbn [run]. rewrite Hx by lia. cbn [mbind option_bind]. by rewrite Hr'.
Qed.

(** What the encoder writes for a response head (indexed fields, literals with an
    indexed or a literal name, any three-digit status) the decoder reads back as those
    fields, from any table and without changing it. *)
Theorem hpack_response_roundtrip d rs fs :
  decoder_inv d -> Forall2 (fun r f => response_value r = Some f) rs fs -> decoded_bytes fs <= max_decoded_block ->
  exists d', decode (foldl encode_response [] rs) d = (d', inl fs) /\ dyn d' = dyn d /\ cur_max d' = cur_max d.
Proof.
  intros (Hd & _) H Hle. destruct (encode_responses_run rs fs [] H Hle) as (bs & il & -> & Hb & Hrun).
  destruct (Hrun (max_size d) (machine_of d 0 false)) as (m & Hr & Ht & Hc); [done|].
  destruct (decode_loop_complete (length bs) bs 0 0 false [] (d <| arena := [] |>) il fs m)
    as (d' & E & Ht' & Hc'); [done | lia | lia | done | done |].
  exists d'. unfold decode, decode_into. cbn [app]. rewrite E, Ht', Hc'. done.
Qed.

Lemma hpack_response_roundtrip_witness :
  exists d', decode (foldl encode_response [] [RStatus 418; RIndexed 16; RNameIdx 31 (bytes_of "text/html"); RLiteral (bytes_of "x-a") []])
    (new_decoder 4096) = (d', inl [mkField (bytes_of ":status") (bytes_of "418");
      mkField (bytes_of "accept-encoding") (bytes_of "gzip, deflate");
      mkField (bytes_of "content-type") (bytes_of "text/html"); mkField (bytes_of "x-a") []]) /\
    dyn d' = [] /\ cur_max d' = 4096.
Proof.
  apply (hpack_response_roundtrip (new_decoder 4096)); [repeat split; done | repeat constructor; vm_compute; reflexivity |].
  vm_compute. discriminate.
Defined.
