(* ===== verification/H2Conn.v ===== *)
(** The HTTP/2 connection of http2/conn.v: a state machine over an interface to the
    open streams ([StreamStore]), and the pooled streams behind it. *)
From S2P Require Import Prelude WireBytes H2Frame StreamTable Huffman Hpack.
Local Open Scope Z_scope.

(** ** Constants *)

Definition flag_end_headers : Z := 0x04.
Definition flag_padded : Z := 0x08.
Definition flag_priority : Z := 0x20.
Definition default_max_frame_size : Z := 16384.
Definition default_window_size : Z := 65535.
Definition max_window : Z := 0x7fffffff.
Definition setting_header_table_size : Z := 0x1.
Definition setting_enable_push : Z := 0x2.
Definition setting_max_concurrent_streams : Z := 0x3.
Definition setting_initial_window_size : Z := 0x4.
Definition setting_max_frame_size : Z := 0x5.
Definition preface_tail : list byte := byte_of_Z <$> [83; 77; 13; 10; 13; 10].

Definition max_concurrent_streams : Z := 128.
Definition max_header_block : Z := 64 * 1024.
Definition max_body_bytes : Z := 8 * 1024 * 1024.

(** [fh.flags & flag != 0]. *)
Definition flagged (fh : FrameHeader) (flag : Z) : bool := negb (Z.land (fh_flags fh) flag =? 0).

Definition frame_type_of (code : Z) : option FrameType :=
  List.find (fun t => frame_type_code t =? code)
    [FtData; FtHeaders; FtPriority; FtRstStream; FtSettings; FtPushPromise; FtPing; FtGoaway; FtWindowUpdate; FtContinuation].

(** ** State *)

(** [hdr_cap] is the capacity of [hdr_bytes], into which [headers] points. *)
Record StreamState := mkStream {
  headers : list HeaderField; body : list byte; remote_done : bool; rejected : bool;
  declared_len : Z; recv_window : Z; send_window : Z;
  pending : list byte; pending_off : nat; pending_end : bool;
  trailers : list byte; trailers_pending : bool; hdr_bytes : list byte; hdr_cap : nat }.

#[export] Instance StreamState_eta : Eta StreamState :=
  mkEta _ (fun s => mkStream (headers s) (body s) (remote_done s) (rejected s) (declared_len s) (recv_window s) (send_window s)
                      (pending s) (pending_off s) (pending_end s) (trailers s) (trailers_pending s) (hdr_bytes s) (hdr_cap s)).

(** [storage] names the pooled state whose buffers [rq_headers] and [rq_body] point into. *)
Record Http2Request := mkRequest { stream_id : Z; rq_headers : list HeaderField; rq_body : list byte; storage : nat }.

(** What the connection asks of its open streams: a pointer got by id is read by [st_get]
    and written through by [st_set]. *)
Class StreamStore (T : Type) := {
  st_empty : T;
  st_get : Z -> T -> option (option StreamState);
  st_has : Z -> T -> option bool;
  st_set : Z -> StreamState -> T -> option T;
  st_new : Z -> Z -> T -> option T;
  st_release : Z -> T -> option T;
  st_ids : T -> list Z;
  st_len : T -> Z;
  st_adjust : Z -> T -> option T;
  st_storage : Z -> T -> option nat
}.

Record ServerConn (T : Type) := mkConn {
  dec : HpackDecoder; preface_seen : bool; last_stream : Z; store : T;
  hdr_expecting : bool; hdr_stream : Z; hdr_end_stream : bool; hdr_refused : bool; hdr_trailers : bool; hdr_malformed : bool; hdr_block : list byte;
  peer_max_frame : Z; init_send_window : Z; conn_send_window : Z; conn_recv_window : Z }.
Arguments mkConn {T}.
Arguments dec {T}. Arguments preface_seen {T}. Arguments last_stream {T}. Arguments store {T}.
Arguments hdr_expecting {T}. Arguments hdr_stream {T}. Arguments hdr_end_stream {T}. Arguments hdr_refused {T}.
Arguments hdr_trailers {T}. Arguments hdr_malformed {T}. Arguments hdr_block {T}. Arguments peer_max_frame {T}.
Arguments init_send_window {T}. Arguments conn_send_window {T}. Arguments conn_recv_window {T}.

#[export] Instance ServerConn_eta T : Eta (ServerConn T) :=
  mkEta _ (fun c => mkConn (dec c) (preface_seen c) (last_stream c) (store c) (hdr_expecting c) (hdr_stream c) (hdr_end_stream c)
                      (hdr_refused c) (hdr_trailers c) (hdr_malformed c) (hdr_block c) (peer_max_frame c) (init_send_window c)
                      (conn_send_window c) (conn_recv_window c)).

(** The connection with the two buffers its calls append to. *)
Record World (T : Type) := mkWorld { con : ServerConn T; out : list byte; reqs : list Http2Request }.
Arguments mkWorld {T}. Arguments con {T}. Arguments out {T}. Arguments reqs {T}.

(** ** Calls on a connection; [None] is an index outside of an array, or the end of fuel *)

Definition cm (T A : Type) : Type := World T -> option (A * World T).

#[export] Instance cm_ret T : MRet (cm T) := fun A a w => Some (a, w).
#[export] Instance cm_bind T : MBind (cm T) := fun A B k m w => match m w with Some (a, w') => k a w' | None => None end.

Section Calls.
Context {T : Type}.

Definition ask {A} (f : ServerConn T -> A) : cm T A := fun w => Some (f (con w), w).
Definition upd (f : ServerConn T -> ServerConn T) : cm T unit := fun w => Some (tt, mkWorld (f (con w)) (out w) (reqs w)).
Definition append_out (f : list byte -> list byte) : cm T unit := fun w => Some (tt, mkWorld (con w) (f (out w)) (reqs w)).
Definition surface (r : Http2Request) : cm T unit := fun w => Some (tt, mkWorld (con w) (out w) (reqs w ++ [r])).
Definition lift {A} (o : option A) : cm T A := fun w => match o with Some a => Some (a, w) | None => None end.
(** A change of the open streams. *)
Definition on_store (f : T -> option T) : cm T unit :=
  fun w => match f (store (con w)) with Some s => Some (tt, mkWorld ((con w) <| store := s |>) (out w) (reqs w)) | None => None end.
End Calls.

Section Connection.
Context {T : Type} `{!StreamStore T}.
Abbreviation M := (cm T).

Definition get_stream (id : Z) : M (option StreamState) := s ← ask store; lift (st_get id s).
Definition has_stream (id : Z) : M bool := s ← ask store; lift (st_has id s).
Definition set_stream (id : Z) (s : StreamState) : M unit := on_store (st_set id s).
Definition new_stream (id : Z) : M unit := w ← ask init_send_window; on_store (st_new id w).
Definition release_stream (id : Z) : M unit := on_store (st_release id).

Definition new_server_conn : ServerConn T :=
  mkConn (new_decoder hpack_default_table_size) false 0 st_empty false 0 false false false false []
    default_max_frame_size default_window_size default_window_size default_window_size.

Definition write_server_preface (o : list byte) : list byte :=
  write_settings o [mkSetting setting_max_concurrent_streams max_concurrent_streams; mkSetting setting_header_table_size hpack_default_table_size].

(** ** Sending *)

(** The CONTINUATION frames of a header block from [off] on. *)
Fixpoint continuation_loop (fuel : nat) (max_frame id : Z) (block : list byte) (off : nat) (o : list byte) : option (list byte) :=
  match fuel with
  | O => None
  | S f =>
      if (length block <=? off)%nat then Some o
      else
        let chunk := Z.of_nat (length block) - Z.of_nat off in
        let '(chunk, flags) := if max_frame <? chunk then (max_frame, 0) else (chunk, flag_end_headers) in
        continuation_loop f max_frame id block (off + Z.to_nat chunk)
          (write_frame_header o FtContinuation flags id chunk ++ take (Z.to_nat chunk) (drop off block))
  end.

Definition header_frames (max_frame id : Z) (block : list byte) (end_stream : bool) (o : list byte) : option (list byte) :=
  let es := if end_stream then flag_end_stream else 0 in
  if Z.of_nat (length block) <=? max_frame
  then Some (write_frame_header o FtHeaders (Z.lor flag_end_headers es) id (Z.of_nat (length block)) ++ block)
  else continuation_loop (length block) max_frame id block (Z.to_nat max_frame)
         (write_frame_header o FtHeaders es id max_frame ++ take (Z.to_nat max_frame) block).

Definition write_response_headers (id : Z) (block : list byte) (end_stream : bool) : M unit :=
  mf ← ask peer_max_frame;
  (fun w => match header_frames mf id block end_stream (out w) with Some o => Some (tt, mkWorld (con w) o (reqs w)) | None => None end);;
  if end_stream then release_stream id else mret tt.

(** The size of the next DATA frame of [rest] bytes; [None] when a window is closed. *)
Definition next_chunk (c : ServerConn T) (s : StreamState) (rest : Z) : option Z :=
  let allow := if send_window s <? conn_send_window c then send_window s else conn_send_window c in
  if allow <=? 0 then None
  else
    let chunk := if allow <? rest then allow else rest in
    Some (if peer_max_frame c <? chunk then peer_max_frame c else chunk).

(** One DATA frame of [chunk] bytes of [data] at [off], taken off both windows. *)
Definition send_data (id : Z) (s : StreamState) (data : list byte) (off : nat) (chunk : Z) (last : bool) : M unit :=
  append_out (fun o => write_data_header o id chunk last ++ take (Z.to_nat chunk) (drop off data));;
  upd (fun c => c <| conn_send_window := conn_send_window c - chunk |>);;
  set_stream id s.

(** [for off < body.len]: where it stopped, and the stream as it left it. *)
Fixpoint body_loop (fuel : nat) (id : Z) (s : StreamState) (data : list byte) (end_stream : bool) (off : nat) : M (nat * StreamState) :=
  match fuel with
  | O => lift None
  | S f =>
      if (length data <=? off)%nat then mret (off, s)
      else
        c ← ask (fun c => c);
        match next_chunk c s (Z.of_nat (length data) - Z.of_nat off) with
        | None => mret (off, s)
        | Some chunk =>
            let last := (off + Z.to_nat chunk =? length data)%nat && end_stream in
            let s := s <| send_window := send_window s - chunk |> in
            send_data id s data off chunk last;;
            body_loop f id s data end_stream (off + Z.to_nat chunk)
        end
  end.

Definition write_response_body (id : Z) (data : list byte) (end_stream : bool) : M unit :=
  r ← get_stream id;
  match r with
  | None => mret tt
  | Some s =>
      if (length data =? 0)%nat then
        if end_stream then append_out (fun o => write_data_header o id 0 true);; release_stream id else mret tt
      else
        '(off, s) ← body_loop (S (length data)) id s data end_stream 0;
        if (off <? length data)%nat
        then set_stream id (s <| pending := pending s ++ drop off data |> <| pending_end := end_stream |>)
        else if end_stream then release_stream id else mret tt
  end.

Definition write_response_data (id : Z) (data : list byte) : M unit := write_response_body id data true.

Definition write_response_trailers (id : Z) (block : list byte) : M unit :=
  r ← get_stream id;
  match r with
  | None => mret tt
  | Some s =>
      if (pending_off s <? length (pending s))%nat
      then set_stream id (s <| trailers := block |> <| trailers_pending := true |>)
      else write_response_headers id block true
  end.

(** [for s.pending_off < s.pending.len]: the stream, and whether it returned out of the loop. *)
Fixpoint flush_loop (fuel : nat) (id : Z) (s : StreamState) : M (StreamState * bool) :=
  match fuel with
  | O => lift None
  | S f =>
      if (length (pending s) <=? pending_off s)%nat then mret (s, false)
      else
        c ← ask (fun c => c);
        match next_chunk c s (Z.of_nat (length (pending s)) - Z.of_nat (pending_off s)) with
        | None => mret (s, true)
        | Some chunk =>
            let last := (pending_off s + Z.to_nat chunk =? length (pending s))%nat && pending_end s in
            let s' := s <| pending_off := (pending_off s + Z.to_nat chunk)%nat |> <| send_window := send_window s - chunk |> in
            send_data id s' (pending s) (pending_off s) chunk last;;
            flush_loop f id s'
        end
  end.

Definition flush_pending (id : Z) : M unit :=
  r ← get_stream id;
  match r with
  | None => mret tt
  | Some s =>
      '(s, parked) ← flush_loop (S (length (pending s))) id s;
      if (parked : bool) then mret tt
      else if (pending_off s =? length (pending s))%nat then
        if pending_end s then release_stream id
        else if trailers_pending s then
          set_stream id (s <| trailers_pending := false |>);;
          write_response_headers id (trailers s) true
        else mret tt
      else mret tt
  end.

(** [for id in c.iter_ids]. *)
Fixpoint flush_ids (l : list Z) : M unit :=
  match l with [] => mret tt | id :: l' => flush_pending id;; flush_ids l' end.

Definition flush_all : M unit := l ← ask (fun c => st_ids (store c)); flush_ids l.

Definition abort_stream (id : Z) (code : ErrorCode) : M unit :=
  append_out (fun o => write_rst_stream o id code);; release_stream id.

(** ** Header blocks *)

(** The decimal value of an HTTP/2 content-length, -1 for anything else. *)
Fixpoint length_loop (l : list byte) (n : Z) : Z :=
  match l with
  | [] => n
  | ch :: l' => if (byte_val ch <? 48) || (57 <? byte_val ch) then -1 else length_loop l' (n * 10 + (byte_val ch - 48))
  end.

Definition h2_content_length (s : list byte) : Z :=
  if (length s =? 0)%nat || (18 <? length s)%nat then -1 else length_loop s 0.

Definition str_eq (a : list byte) (b : string) : bool := bool_decide (a = bytes_of b).

Definition bad_name_byte (ch : byte) : bool :=
  ((65 <=? byte_val ch) && (byte_val ch <=? 90)) || (byte_val ch =? 32) || (byte_val ch =? 0).

Definition valid_regular_field_name (name : list byte) : bool :=
  if existsb bad_name_byte name then false
  else negb (existsb (str_eq name) ["connection"; "keep-alive"; "proxy-connection"; "transfer-encoding"; "upgrade"])%string.

Definition starts_colon (name : list byte) : bool := match name with b :: _ => byte_val b =? 58 | [] => false end.

Definition valid_trailer_fields (fields : list HeaderField) : bool :=
  forallb (fun f => negb ((length (hname f) =? 0)%nat || starts_colon (hname f) || negb (valid_regular_field_name (hname f)))) fields.

(** The locals of [validate_request_fields]. *)
Record seen := mkSeen { seen_regular : bool; v_method : list byte; n_method : Z; n_scheme : Z; n_path : Z; n_authority : Z; declared : Z }.

#[export] Instance seen_eta : Eta seen :=
  mkEta _ (fun v => mkSeen (seen_regular v) (v_method v) (n_method v) (n_scheme v) (n_path v) (n_authority v) (declared v)).

(** One field; [None] is [return false, -1]. *)
Definition validate_field (f : HeaderField) (v : seen) : option seen :=
  if (length (hname f) =? 0)%nat then None
  else if starts_colon (hname f) then
    if seen_regular v then None
    else if str_eq (hname f) ":method" then Some (v <| n_method := n_method v + 1 |> <| v_method := hvalue f |>)
    else if str_eq (hname f) ":scheme" then Some (v <| n_scheme := n_scheme v + 1 |>)
    else if str_eq (hname f) ":path" then
      if (length (hvalue f) =? 0)%nat then None else Some (v <| n_path := n_path v + 1 |>)
    else if str_eq (hname f) ":authority" then Some (v <| n_authority := n_authority v + 1 |>)
    else None
  else if negb (valid_regular_field_name (hname f)) then None
  else if str_eq (hname f) "te" && negb (str_eq (hvalue f) "trailers") then None
  else if str_eq (hname f) "content-length" then
    let n := h2_content_length (hvalue f) in
    if n <? 0 then None
    else if (0 <=? declared v) && negb (declared v =? n) then None
    else Some (v <| seen_regular := true |> <| declared := n |>)
  else Some (v <| seen_regular := true |>).

Fixpoint validate_loop (fields : list HeaderField) (v : seen) : option seen :=
  match fields with [] => Some v | f :: fs => v' ← validate_field f v; validate_loop fs v' end.

(** The two results: validity, and the declared content-length. *)
Definition validate_request_fields (fields : list HeaderField) : bool * Z :=
  match validate_loop fields (mkSeen false [] 0 0 0 0 (-1)) with
  | None => (false, -1)
  | Some v =>
      if negb (n_method v =? 1) || (1 <? n_authority v) then (false, -1)
      else if str_eq (v_method v) "CONNECT" then
        if negb (n_scheme v =? 0) || negb (n_path v =? 0) || negb (n_authority v =? 1) then (false, -1) else (true, declared v)
      else if negb (n_scheme v =? 1) || negb (n_path v =? 1) then (false, -1)
      else (true, declared v)
  end.

Definition hdr_copy (v : list byte) (s : StreamState) : StreamState * list byte :=
  if (length v =? 0)%nat then (s, []) else (s <| hdr_bytes := hdr_bytes s ++ v |>, v).

Definition store_field (s : StreamState) (f : HeaderField) : StreamState :=
  let '(s, name) := hdr_copy (hname f) s in
  let '(s, value) := hdr_copy (hvalue f) s in
  s <| headers := headers s ++ [mkField name value] |>.

Definition fields_size (fields : list HeaderField) : nat := foldl (fun n f => n + (length (hname f) + length (hvalue f)))%nat O fields.

Definition store_headers (fields : list HeaderField) (s : StreamState) : StreamState :=
  let total := fields_size fields in
  let s := if (hdr_cap s <? total)%nat then s <| hdr_bytes := [] |> <| hdr_cap := total |> else s in
  foldl store_field s fields.

Definition complete_stream (id : Z) : M unit :=
  r ← get_stream id;
  match r with
  | None => mret tt
  | Some s =>
      set_stream id (s <| remote_done := true |>);;
      if rejected s then release_stream id
      else if (0 <=? declared_len s) && negb (declared_len s =? Z.of_nat (length (body s))) then
        append_out (fun o => write_rst_stream o id ProtocolError);; release_stream id
      else
        a ← (st ← ask store; lift (st_storage id st));
        surface (mkRequest id (headers s) (body s) a)
  end.

(** [c.dec.decode_into(c.hdr_block, mut c.scratch_fields)]: the fields, or an error. *)
Definition decode_block : M (option (list HeaderField)) :=
  c ← ask (fun c => c);
  let '(d, fields, e) := decode_into (hdr_block c) (dec c) in
  upd (fun c => c <| dec := d |>);;
  mret (match e with Some _ => None | None => Some fields end).

(** The stream of a request's header block. *)
Definition open_stream (id : Z) (fields : list HeaderField) (malformed : bool) (len : Z) (end_stream : bool) : M ErrorCode :=
  new_stream id;;
  r ← get_stream id;
  match r with
  | None => lift None
  | Some s =>
      set_stream id ((store_headers fields s) <| rejected := malformed |> <| declared_len := len |>);;
      (if malformed then append_out (fun o => write_rst_stream o id ProtocolError) else mret tt);;
      (if end_stream then complete_stream id else mret tt);;
      mret NoError
  end.

Definition finish_header_block : M ErrorCode :=
  upd (fun c => c <| hdr_expecting := false |>);;
  r ← decode_block;
  match r with
  | None => mret CompressionError
  | Some fields =>
      c ← ask (fun c => c);
      let id := hdr_stream c in
      if hdr_trailers c then
        if negb (valid_trailer_fields fields) then
          append_out (fun o => write_rst_stream o id ProtocolError);; release_stream id;; mret NoError
        else complete_stream id;; mret NoError
      else if hdr_refused c then
        append_out (fun o => write_rst_stream o id RefusedStream);; mret NoError
      else
        let '(ok, len) := validate_request_fields fields in
        let malformed := hdr_malformed c || negb ok in
        open_stream id fields malformed len (hdr_end_stream c)
  end.

(** ** Frames *)

(** The padding of DATA and HEADERS: where the content starts and ends. *)
Definition strip_padding (fh : FrameHeader) (payload : list byte) : option ((nat * nat) + ErrorCode) :=
  if flagged fh flag_padded then
    if (length payload <? 1)%nat then Some (inr ProtocolError)
    else
      pad ← at_ payload 0;
      if Z.of_nat (length payload) <? 1 + pad then Some (inr ProtocolError)
      else Some (inl (1%nat, Z.to_nat (Z.of_nat (length payload) - pad)))
  else Some (inl (O, length payload)).

(** The stream a PRIORITY part names. *)
Definition dependency (payload : list byte) (off : nat) : option Z := v ← read_u32 payload off; Some (Z.land v 0x7fffffff).

(** The priority part of a HEADERS frame: whether the stream depends on itself, and where the block starts. *)
Definition strip_priority (fh : FrameHeader) (payload : list byte) (off e : nat) : option ((bool * nat) + ErrorCode) :=
  if flagged fh flag_priority then
    if (e <? off + 5)%nat then Some (inr ProtocolError)
    else dep ← dependency payload off; Some (inl (dep =? fh_stream_id fh, (off + 5)%nat))
  else Some (inl (false, off)).

(** What stream a HEADERS frame is for: one that is open, or a new one. *)
Definition claim_stream (fh : FrameHeader) : M (option ErrorCode) :=
  r ← get_stream (fh_stream_id fh);
  match r with
  | Some s =>
      if remote_done s then mret (Some StreamClosed)
      else if negb (flagged fh flag_end_stream) then mret (Some ProtocolError)
      else upd (fun c => c <| hdr_trailers := true |>);; mret None
  | None =>
      c ← ask (fun c => c);
      if fh_stream_id fh <=? last_stream c then mret (Some ProtocolError)
      else
        upd (fun c => c <| last_stream := fh_stream_id fh |>);;
        (if max_concurrent_streams <=? st_len (store c) then upd (fun c => c <| hdr_refused := true |>) else mret tt);;
        mret None
  end.

Definition on_headers (fh : FrameHeader) (payload : list byte) : M ErrorCode :=
  if (fh_stream_id fh =? 0) || (Z.land (fh_stream_id fh) 1 =? 0) then mret ProtocolError
  else
    p ← lift (strip_padding fh payload);
    match p with
    | inr e => mret e
    | inl (off, e) =>
        upd (fun c => c <| hdr_trailers := false |> <| hdr_refused := false |> <| hdr_malformed := false |>);;
        p ← lift (strip_priority fh payload off e);
        match p with
        | inr e => mret e
        | inl (self, off) =>
            (if (self : bool) then upd (fun c => c <| hdr_malformed := true |>) else mret tt);;
            r ← claim_stream fh;
            match r with
            | Some e => mret e
            | None =>
                upd (fun c => c <| hdr_stream := fh_stream_id fh |> <| hdr_end_stream := flagged fh flag_end_stream |>
                                <| hdr_block := take (e - off) (drop off payload) |>);;
                if flagged fh flag_end_headers then finish_header_block
                else upd (fun c => c <| hdr_expecting := true |>);; mret NoError
            end
        end
    end.

Definition on_continuation (fh : FrameHeader) (payload : list byte) : M ErrorCode :=
  c ← ask (fun c => c);
  if negb (hdr_expecting c) || negb (fh_stream_id fh =? hdr_stream c) then mret ProtocolError
  else if max_header_block <? Z.of_nat (length (hdr_block c)) + Z.of_nat (length payload) then mret EnhanceYourCalm
  else
    upd (fun c => c <| hdr_block := hdr_block c ++ payload |>);;
    if flagged fh flag_end_headers then finish_header_block else mret NoError.

(** The content of a DATA frame, from [off] to [e], and the windows it frees. *)
Definition take_data (fh : FrameHeader) (payload : list byte) (s : StreamState) (off e : nat) : M ErrorCode :=
  let id := fh_stream_id fh in
  let flow := Z.of_nat (length payload) in
  if negb (rejected s) && (max_body_bytes <? Z.of_nat (length (body s)) + (Z.of_nat e - Z.of_nat off)) then mret EnhanceYourCalm
  else
    let s := if rejected s then s else s <| body := body s ++ take (e - off) (drop off payload) |> in
    set_stream id s;;
    (if 0 <? flow then
       append_out (fun o => write_window_update o 0 flow);;
       upd (fun c => c <| conn_recv_window := conn_recv_window c + flow |>);;
       if flagged fh flag_end_stream then mret tt
       else append_out (fun o => write_window_update o id flow);; set_stream id (s <| recv_window := recv_window s + flow |>)
     else mret tt);;
    (if flagged fh flag_end_stream then complete_stream id else mret tt);;
    mret NoError.

Definition on_data (fh : FrameHeader) (payload : list byte) : M ErrorCode :=
  let id := fh_stream_id fh in
  if id =? 0 then mret ProtocolError
  else
    h ← has_stream id;
    if negb h then l ← ask last_stream; mret (if l <? id then ProtocolError else StreamClosed)
    else
      r ← get_stream id;
      match r with
      | None => mret InternalError
      | Some s =>
          if remote_done s then mret StreamClosed
          else
            let flow := Z.of_nat (length payload) in
            upd (fun c => c <| conn_recv_window := conn_recv_window c - flow |>);;
            let s := s <| recv_window := recv_window s - flow |> in
            set_stream id s;;
            w ← ask conn_recv_window;
            if (w <? 0) || (recv_window s <? 0) then mret FlowControlError
            else
              p ← lift (strip_padding fh payload);
              match p with inr e => mret e | inl (off, e) => take_data fh payload s off e end
      end.

(** [for st in settings]: whether the initial window changed, or an error. *)
Fixpoint settings_apply (l : list Setting) (window_changed : bool) : M (bool + ErrorCode) :=
  match l with
  | [] => mret (inl window_changed)
  | st :: l' =>
      if set_id st =? setting_initial_window_size then
        if max_window <? set_val st then mret (inr FlowControlError)
        else
          w ← ask init_send_window;
          upd (fun c => c <| init_send_window := set_val st |>);;
          on_store (st_adjust (set_val st - w));;
          settings_apply l' true
      else if set_id st =? setting_max_frame_size then
        if (set_val st <? default_max_frame_size) || (16777215 <? set_val st) then mret (inr ProtocolError)
        else upd (fun c => c <| peer_max_frame := set_val st |>);; settings_apply l' window_changed
      else if set_id st =? setting_enable_push then
        if 1 <? set_val st then mret (inr ProtocolError) else settings_apply l' window_changed
      else settings_apply l' window_changed
  end.

Definition on_settings (fh : FrameHeader) (payload : list byte) : M ErrorCode :=
  if negb (fh_stream_id fh =? 0) then mret ProtocolError
  else if flagged fh flag_ack then mret (if (length payload =? 0)%nat then NoError else FrameSizeError)
  else
    p ← lift (parse_settings payload);
    match p with
    | inr _ => mret FrameSizeError
    | inl l =>
        r ← settings_apply l false;
        match r with
        | inr e => mret e
        | inl window_changed =>
            append_out write_settings_ack;;
            (if (window_changed : bool) then flush_all else mret tt);;
            mret NoError
        end
    end.

Definition on_window_update (fh : FrameHeader) (payload : list byte) : M ErrorCode :=
  let id := fh_stream_id fh in
  if negb (length payload =? 4)%nat then mret FrameSizeError
  else
    inc ← lift (dependency payload 0);
    if id =? 0 then
      if inc =? 0 then mret ProtocolError
      else
        upd (fun c => c <| conn_send_window := conn_send_window c + inc |>);;
        w ← ask conn_send_window;
        if max_window <? w then mret FlowControlError else flush_all;; mret NoError
    else
      l ← ask last_stream;
      if l <? id then mret ProtocolError
      else if inc =? 0 then
        append_out (fun o => write_rst_stream o id ProtocolError);; release_stream id;; mret NoError
      else
        h ← has_stream id;
        if negb h then mret NoError
        else
          r ← get_stream id;
          match r with
          | None => mret InternalError
          | Some s =>
              let s := s <| send_window := send_window s + inc |> in
              set_stream id s;;
              if max_window <? send_window s then
                append_out (fun o => write_rst_stream o id FlowControlError);; release_stream id;; mret NoError
              else flush_pending id;; mret NoError
          end.

Definition on_priority (fh : FrameHeader) (payload : list byte) : M ErrorCode :=
  if fh_stream_id fh =? 0 then mret ProtocolError
  else if negb (length payload =? 5)%nat then mret FrameSizeError
  else
    dep ← lift (dependency payload 0);
    (if dep =? fh_stream_id fh then append_out (fun o => write_rst_stream o (fh_stream_id fh) ProtocolError);; release_stream (fh_stream_id fh) else mret tt);;
    mret NoError.

Definition on_rst_stream (fh : FrameHeader) (payload : list byte) : M ErrorCode :=
  l ← ask last_stream;
  if (fh_stream_id fh =? 0) || (l <? fh_stream_id fh) then mret ProtocolError
  else if negb (length payload =? 4)%nat then mret FrameSizeError
  else release_stream (fh_stream_id fh);; mret NoError.

Definition on_ping (fh : FrameHeader) (payload : list byte) : M ErrorCode :=
  if negb (fh_stream_id fh =? 0) then mret ProtocolError
  else if negb (length payload =? 8)%nat then mret FrameSizeError
  else (if flagged fh flag_ack then mret tt else append_out (fun o => write_ping_ack o payload));; mret NoError.

Definition on_goaway (fh : FrameHeader) (payload : list byte) : M ErrorCode :=
  mret (if negb (fh_stream_id fh =? 0) then ProtocolError else if (length payload <? 8)%nat then FrameSizeError else NoError).

Definition frame (t : FrameType) (fh : FrameHeader) (payload : list byte) : M ErrorCode :=
  e ← ask hdr_expecting;
  if (e : bool) && negb (frame_type_code t =? frame_type_code FtContinuation) then mret ProtocolError
  else
    match t with
    | FtData => on_data fh payload
    | FtHeaders => on_headers fh payload
    | FtPriority => on_priority fh payload
    | FtRstStream => on_rst_stream fh payload
    | FtSettings => on_settings fh payload
    | FtPushPromise => mret ProtocolError
    | FtPing => on_ping fh payload
    | FtGoaway => on_goaway fh payload
    | FtWindowUpdate => on_window_update fh payload
    | FtContinuation => on_continuation fh payload
    end.

(** ** A burst of bytes *)

(** [write_goaway] and [return consumed, true]. *)
Definition fatal (consumed : nat) (code : ErrorCode) : M (nat * bool) :=
  l ← ask last_stream; append_out (fun o => write_goaway o l code);; mret (consumed, true).

(** [for { ... }] over the frames of [buf], from [consumed] on. *)
Fixpoint consume_loop (fuel : nat) (buf : list byte) (consumed : nat) : M (nat * bool) :=
  match fuel with
  | O => lift None
  | S f =>
      let rest := drop consumed buf in
      if (length rest <? frame_header_len)%nat then mret (consumed, false)
      else
        h ← lift (parse_frame_header rest);
        match h with
        | inr _ => fatal consumed InternalError
        | inl fh =>
            if default_max_frame_size <? fh_length fh then fatal consumed FrameSizeError
            else
              let total := (frame_header_len + Z.to_nat (fh_length fh))%nat in
              if (length rest <? total)%nat then mret (consumed, false)
              else
                let payload := take (Z.to_nat (fh_length fh)) (drop frame_header_len rest) in
                match frame_type_of (fh_type fh) with
                | None =>
                    e ← ask hdr_expecting;
                    if (e : bool) then fatal consumed ProtocolError else consume_loop f buf (consumed + total)
                | Some t =>
                    code ← frame t fh payload;
                    if decide (code = NoError) then consume_loop f buf (consumed + total) else fatal (consumed + total) code
                end
        end
  end.

Definition consume (buf : list byte) : M (nat * bool) :=
  p ← ask preface_seen;
  if (p : bool) then consume_loop (S (length buf)) buf 0
  else if (length buf <? length preface_tail)%nat then mret (O, false)
  else if bool_decide (take (length preface_tail) buf = preface_tail) then
    upd (fun c => c <| preface_seen := true |>);;
    consume_loop (S (length buf)) buf (length preface_tail)
  else append_out (fun o => write_goaway o 0 ProtocolError);; mret (O, true).
End Connection.

(** ** The pooled streams *)

(** [heap] is every [StreamState] allocated so far, by address; the table and the free
    list hold addresses, the free list with its top first. *)
Record Pool := mkPool { heap : list StreamState; table : StreamTable nat; free_streams : list nat }.

#[export] Instance Pool_eta : Eta Pool := mkEta _ (fun p => mkPool (heap p) (table p) (free_streams p)).

(** [&StreamState{}]. *)
Definition zero_stream : StreamState := mkStream [] [] false false (-1) 0 0 [] 0 false [] false [] 0.

(** The reset of a [StreamState] taken from the pool. *)
Definition fresh_stream (window : Z) (s : StreamState) : StreamState :=
  s <| remote_done := false |> <| rejected := false |> <| declared_len := -1 |> <| recv_window := default_window_size |>
    <| send_window := window |> <| pending_off := O |> <| pending_end := false |> <| trailers_pending := false |>
    <| headers := [] |> <| body := [] |> <| pending := [] |> <| trailers := [] |> <| hdr_bytes := [] |>.

Definition pool_get (id : Z) (p : Pool) : option (option StreamState) :=
  r ← get (table p) id;
  match r with None => Some None | Some a => s ← heap p !! a; Some (Some s) end.

(** A write through the pointer to an open stream. *)
Definition pool_set (id : Z) (s : StreamState) (p : Pool) : option Pool :=
  r ← get (table p) id; a ← r;
  if decide (a < length (heap p))%nat then Some (p <| heap := <[a := s]> (heap p) |>) else None.

Definition pool_new (id window : Z) (p : Pool) : option Pool :=
  let '(a, p) :=
    match free_streams p with
    | a :: fr => (a, p <| free_streams := fr |>)
    | [] => (length (heap p), p <| heap := heap p ++ [zero_stream] |>)
    end in
  s ← heap p !! a;
  t ← put (table p) id a;
  Some (p <| heap := <[a := fresh_stream window s]> (heap p) |> <| table := t |>).

Definition pool_release (id : Z) (p : Pool) : option Pool :=
  r ← get (table p) id;
  p ← match r with
      | None => Some p
      | Some a =>
          s ← heap p !! a;
          Some (p <| heap := <[a := s <| headers := [] |> <| body := [] |> <| pending := [] |> <| trailers := [] |>]> (heap p) |>
                  <| free_streams := a :: free_streams p |>)
      end;
  t ← remove (table p) id;
  Some (p <| table := t |>).

(** [for i in 0 .. stream_slots] of [on_settings], from slot [i] on. *)
Fixpoint adjust_loop (n : nat) (t : StreamTable nat) (delta : Z) (i : nat) (h : list StreamState) : option (list StreamState) :=
  match n with
  | O => Some h
  | S n' =>
      k ← ids t !! i;
      if k =? 0 then adjust_loop n' t delta (S i) h
      else
        v ← vals t !! i; a ← v; s ← h !! a;
        adjust_loop n' t delta (S i) (<[a := s <| send_window := send_window s + delta |>]> h)
  end.

Definition pool_adjust (delta : Z) (p : Pool) : option Pool :=
  h ← adjust_loop stream_slots (table p) delta 0 (heap p); Some (p <| heap := h |>).

#[export] Instance pool_store : StreamStore Pool := {|
  st_empty := mkPool [] new_stream_table [];
  st_get := pool_get;
  st_has id p := has (table p) id;
  st_set := pool_set;
  st_new := pool_new;
  st_release := pool_release;
  st_ids p := ids_into (table p);
  st_len p := len (table p);
  st_adjust := pool_adjust;
  st_storage id p := r ← get (table p) id; r
|}.
