(* ===== verification/H2Store.v ===== *)
(** What the open streams promise to the HTTP/2 connection ([StoreLaws]): they are a
    finite map from ids to states; and that the pooled streams keep the promise, with
    no state shared by two streams or by a stream and the free list. *)
From stdpp Require Import gmap.
From S2P Require Import Prelude WireBytes H2Frame StreamTable Huffman Hpack H2Conn.
Local Open Scope Z_scope.

(** A stream just opened, over storage with room for [cap] header bytes. *)
Definition opened (window : Z) (cap : nat) : StreamState :=
  mkStream [] [] false false (-1) default_window_size window [] 0 false [] false [] cap.

Lemma fresh_opened window s : fresh_stream window s = opened window (hdr_cap s).
Proof. done. Qed.

Definition shifted (delta : Z) (s : StreamState) : StreamState := s <| send_window := send_window s + delta |>.

Class StoreLaws (T : Type) `{!StreamStore T} := {
  holds : T -> gmap Z StreamState -> Prop;
  holds_empty : holds st_empty ∅;
  holds_get t m id : holds t m -> st_get id t = Some (m !! id);
  holds_has t m id : holds t m -> st_has id t = Some (bool_decide (is_Some (m !! id)));
  holds_set t m id s : holds t m -> is_Some (m !! id) -> exists t', st_set id s t = Some t' /\ holds t' (<[id := s]> m);
  holds_new t m id w : holds t m -> id <> 0 -> m !! id = None -> (size m < stream_slots)%nat ->
    exists t' cap, st_new id w t = Some t' /\ holds t' (<[id := opened w cap]> m);
  holds_release t m id : holds t m -> (size m < stream_slots)%nat -> exists t', st_release id t = Some t' /\ holds t' (delete id m);
  holds_ids t m id : holds t m -> id ∈ st_ids t <-> is_Some (m !! id);
  holds_len t m : holds t m -> st_len t = Z.of_nat (size m);
  holds_adjust t m d : holds t m -> exists t', st_adjust d t = Some t' /\ holds t' (shifted d <$> m);
  holds_storage t m id : holds t m -> is_Some (m !! id) -> is_Some (st_storage id t)
}.

(** ** The pool *)

Record pool_repr (p : Pool) (a : gmap Z nat) (m : gmap Z StreamState) : Prop := {
  repr_table : table_inv (table p) a;
  repr_at : forall id, m !! id = (a !! id) ≫= (fun x => heap p !! x);
  repr_bound : forall id x, a !! id = Some x -> (x < length (heap p))%nat;
  repr_inj : forall i j x, a !! i = Some x -> a !! j = Some x -> i = j;
  repr_free : NoDup (free_streams p);
  repr_free_bound : forall x, x ∈ free_streams p -> (x < length (heap p))%nat;
  repr_apart : forall id x, a !! id = Some x -> x ∉ free_streams p
}.

Definition pool_holds (p : Pool) (m : gmap Z StreamState) : Prop := exists a, pool_repr p a m.

Section Pool.
Context (p : Pool) (a : gmap Z nat) (m : gmap Z StreamState) (R : pool_repr p a m).

Lemma repr_lookup id x : a !! id = Some x -> exists s, heap p !! x = Some s /\ m !! id = Some s.
Proof.
  intros Ha. destruct (lookup_lt_is_Some_2 (heap p) x) as [s Hs]; [by eapply repr_bound|].
  exists s. split; [done|]. by rewrite (repr_at _ _ _ R), Ha.
Qed.

Lemma repr_dom id : is_Some (m !! id) <-> is_Some (a !! id).
Proof.
  split; [rewrite (repr_at _ _ _ R); destruct (a !! id); cbn; by intros [? ?] |].
  intros [x Hx]. destruct (repr_lookup id x Hx) as (s & _ & ->). eauto.
Qed.

Lemma repr_none id : m !! id = None <-> a !! id = None.
Proof. rewrite !eq_None_not_Some. by rewrite repr_dom. Qed.

Lemma repr_size : size m = size a.
Proof. rewrite <- !size_dom. f_equal. apply set_eq. intros id. by rewrite !elem_of_dom, repr_dom. Qed.

Lemma pool_get_ok id : pool_get id p = Some (m !! id).
Proof.
  unfold pool_get. rewrite (get_spec _ _ id (repr_table _ _ _ R)). cbn. rewrite (repr_at _ _ _ R). destruct (a !! id) as [x|] eqn:Ha; cbn; [|done].
  destruct (repr_lookup id x Ha) as (s & -> & _). done.
Qed.

Lemma pool_has_ok id : has (table p) id = Some (bool_decide (is_Some (m !! id))).
Proof.
  unfold has. pose proof (find_spec _ _ id (repr_table _ _ _ R)) as F. destruct (a !! id) as [x|] eqn:Ha.
  - destruct F as (i & -> & _). cbn. rewrite bool_decide_eq_true_2; [done|]. apply repr_dom. rewrite Ha. eauto.
  - rewrite F. cbn. rewrite bool_decide_eq_false_2; [done|]. rewrite repr_dom, Ha. by intros [? ?].
Qed.

(** Writing the storage of one stream changes that stream only. *)
Lemma heap_write id x s : a !! id = Some x -> pool_repr (p <| heap := <[x := s]> (heap p) |>) a (<[id := s]> m).
Proof.
  intros Ha. pose proof (repr_bound _ _ _ R _ _ Ha) as Hx. split; cbn -[lookup insert mbind]; try apply R.
  - intros j. destruct (decide (j = id)) as [->|Hj].
    + rewrite lookup_insert_eq, Ha. cbn -[lookup insert]. by rewrite list_lookup_insert_eq.
    + rewrite lookup_insert_ne by done. rewrite (repr_at _ _ _ R). destruct (a !! j) as [y|] eqn:Hy; cbn -[lookup insert]; [|done].
      rewrite list_lookup_insert_ne; [done|]. intros ->. apply Hj. by eapply repr_inj.
  - intros j y Hy. rewrite length_insert. by eapply repr_bound.
  - intros y Hy. rewrite length_insert. by eapply repr_free_bound.
Qed.

Lemma pool_set_ok id s : is_Some (m !! id) -> exists p', pool_set id s p = Some p' /\ pool_holds p' (<[id := s]> m).
Proof.
  intros Hm. apply repr_dom in Hm as [x Ha]. unfold pool_set. rewrite (get_spec _ _ id (repr_table _ _ _ R)), Ha. cbn -[lookup insert].
  rewrite decide_True by (by eapply repr_bound). eexists. split; [done|]. exists a. by apply heap_write.
Qed.

Lemma pool_release_ok id : (size m < stream_slots)%nat -> exists p', pool_release id p = Some p' /\ pool_holds p' (delete id m).
Proof.
  intros Hs. rewrite repr_size in Hs. unfold pool_release. rewrite (get_spec _ _ id (repr_table _ _ _ R)).
  destruct (remove_spec _ _ id (repr_table _ _ _ R) Hs) as (t & Et & It). destruct (a !! id) as [x|] eqn:Ha; cbn -[lookup insert].
  - destruct (repr_lookup id x Ha) as (s & -> & _). cbn -[lookup insert]. rewrite Et. cbn -[lookup insert]. eexists. split; [done|]. exists (delete id a).
    split; cbn -[lookup insert delete mbind]; [done|..].
    + intros j. destruct (decide (j = id)) as [->|Hj]; [by rewrite !lookup_delete_eq|]. rewrite !lookup_delete_ne, (repr_at _ _ _ R) by done.
      destruct (a !! j) as [y|] eqn:Hy; cbn -[lookup insert]; [|done]. rewrite list_lookup_insert_ne; [done|]. intros ->. apply Hj. by eapply repr_inj.
    + intros j y [_ Hy]%lookup_delete_Some. rewrite length_insert. by eapply repr_bound.
    + intros i j y [_ Hi]%lookup_delete_Some [_ Hj]%lookup_delete_Some. by eapply repr_inj.
    + apply NoDup_cons. split; [by eapply repr_apart | apply R].
    + intros y. rewrite length_insert, elem_of_cons. intros [->|Hy]; [by eapply repr_bound | by eapply repr_free_bound].
    + intros j y [Hj Hy]%lookup_delete_Some. rewrite not_elem_of_cons. split; [|by eapply repr_apart]. intros ->. apply Hj. by eapply repr_inj.
  - rewrite Et. cbn -[lookup insert]. eexists. split; [done|]. exists a. rewrite (delete_id m) by (by apply repr_none). rewrite (delete_id a) in It by done.
    split; try apply R. done.
Qed.

Lemma pool_new_ok id w : id <> 0 -> m !! id = None -> (size m < stream_slots)%nat ->
  exists p' cap, pool_new id w p = Some p' /\ pool_holds p' (<[id := opened w cap]> m).
Proof.
  intros H0 Hm Hs. rewrite repr_size in Hs. apply repr_none in Hm. unfold pool_new.
  assert (Hx : exists x h fr, (match free_streams p with y :: fr => (y, p <| free_streams := fr |>) | [] => (length (heap p), p <| heap := heap p ++ [zero_stream] |>) end)
      = (x, mkPool h (table p) fr) /\ (forall j y, a !! j = Some y -> h !! y = heap p !! y /\ y <> x /\ (y ∉ fr)) /\ (x < length h)%nat /\ (length (heap p) <= length h)%nat
      /\ NoDup fr /\ (x ∉ fr) /\ (forall y, y ∈ fr -> (y < length h)%nat)).
  { destruct (free_streams p) as [|y fr] eqn:Ef.
    - exists (length (heap p)), (heap p ++ [zero_stream]), []. split; [destruct p; cbn in *; by subst|]. rewrite length_app. cbn. repeat split; try lia; [|..].
      + rewrite lookup_app_l; [done|]. by eapply repr_bound.
      + intros ->. apply (repr_bound _ _ _ R) in H. lia.
      + apply not_elem_of_nil.
      + apply NoDup_nil_2.
      + apply not_elem_of_nil.
      + intros y Hy%not_elem_of_nil. done.
    - exists y, (heap p), fr. split; [by destruct p|]. pose proof (repr_free _ _ _ R) as Hf. pose proof (repr_free_bound _ _ _ R) as Hfb. rewrite Ef in Hf, Hfb.
      apply NoDup_cons in Hf as [Hy Hf]. split; [|split; [apply Hfb; left | split; [done|split; [done|split; [done|]]]]].
      + intros j z Hz. split; [done|]. pose proof (repr_apart _ _ _ R _ _ Hz) as Hn. rewrite Ef, not_elem_of_cons in Hn. done.
      + intros z Hz. apply Hfb. by right. }
  destruct Hx as (x & h & fr & -> & Hold & Hxh & Hlen & Hnd & Hxf & Hfb). cbn -[lookup insert]. destruct (lookup_lt_is_Some_2 h x Hxh) as [s Es]. rewrite Es. cbn -[lookup insert].
  destruct (put_spec _ _ id x (repr_table _ _ _ R) H0 Hs) as (t & -> & It). cbn -[lookup insert]. eexists _, (hdr_cap s). split; [done|]. exists (<[id := x]> a).
  split; cbn -[lookup insert mbind]; [done|..].
  - intros j. destruct (decide (j = id)) as [->|Hj].
    + rewrite !lookup_insert_eq. cbn -[lookup insert]. by rewrite list_lookup_insert_eq, fresh_opened.
    + rewrite !lookup_insert_ne, (repr_at _ _ _ R) by done. destruct (a !! j) as [y|] eqn:Hy; cbn -[lookup insert]; [|done].
      destruct (Hold j y Hy) as (E & Hn & _). by rewrite list_lookup_insert_ne.
  - intros j y. rewrite length_insert. intros [[_ <-]|[_ Hy]]%lookup_insert_Some; [done|]. apply (repr_bound _ _ _ R) in Hy. lia.
  - intros i j y [[<- <-]|[Hi Hy]]%lookup_insert_Some [[<- E]|[Hj Hz]]%lookup_insert_Some; [done|..].
    + by destruct (Hold _ _ Hz) as (_ & ? & _).
    + subst. by destruct (Hold _ _ Hy) as (_ & ? & _).
    + by eapply repr_inj.
  - done.
  - intros y Hy. rewrite length_insert. by apply Hfb.
  - intros j y [[_ <-]|[_ Hy]]%lookup_insert_Some; [done|]. by destruct (Hold _ _ Hy) as (_ & _ & ?).
Qed.

(** The slots from [i] on still have to be adjusted. *)
Lemma adjust_loop_ok d n i h m' : (n + i)%nat = stream_slots ->
  pool_repr (p <| heap := h |>) a m' ->
  (forall j k, (j < i)%nat -> ids (table p) !! j = Some k -> k <> 0 -> m' !! k = shifted d <$> m !! k) ->
  (forall j k, (i <= j)%nat -> ids (table p) !! j = Some k -> k <> 0 -> m' !! k = m !! k) ->
  exists h', adjust_loop n (table p) d i h = Some h' /\ pool_repr (p <| heap := h' |>) a (shifted d <$> m).
Proof.
  pose proof (repr_table _ _ _ R) as I. revert i h m'. induction n as [|n IH]; intros i h m' Hn R' Hdone Htodo; cbn -[lookup insert fmap].
  - exists h. split; [done|]. replace (shifted d <$> m) with m'; [done|]. apply map_eq. intros k. rewrite lookup_fmap.
    destruct (a !! k) as [x|] eqn:Ha.
    + assert (k <> 0) as H0 by (intros ->; rewrite (inv_zero _ _ I) in Ha; done). destruct (proj1 (inv_repr _ _ I k x H0) Ha) as (j & Hj & _).
      apply (Hdone j); [|done|done]. apply lookup_lt_Some in Hj. rewrite (inv_ids _ _ I) in Hj. lia.
    + rewrite (proj2 (repr_none k) Ha). cbn. rewrite (repr_at _ _ _ R'), Ha. done.
  - destruct (slot_read (ids (table p)) i (inv_ids _ _ I)) as [k Hk]; [lia|]. rewrite Hk. cbn -[lookup insert fmap]. destruct (Z.eqb_spec k 0) as [->|H0].
    + apply (IH (S i) h m'); [lia | done | |].
      * intros j k Hj Hjk Hk0. destruct (decide (j = i)) as [->|]; [congruence|]. apply (Hdone j); [lia | done | done].
      * intros j k Hj. apply Htodo. lia.
    + destruct (inv_some _ _ I i k H0 Hk) as [x Hx]. rewrite Hx. cbn -[lookup insert fmap]. assert (a !! k = Some x) as Ha by (apply (inv_repr _ _ I); eauto).
      destruct (lookup_lt_is_Some_2 h x) as [s Es]; [by apply (repr_bound _ _ _ R' k)|]. rewrite Es. cbn -[lookup insert fmap].
      assert (Es' : m' !! k = Some s) by (rewrite (repr_at _ _ _ R'), Ha; done).
      assert (Em : m !! k = Some s) by (rewrite <- (Htodo i k) by (done || lia); done).
      apply (IH (S i) _ (<[k := shifted d s]> m')); [lia | | |].
      * assert (R'' := R'). pose proof (repr_bound _ _ _ R' _ _ Ha) as Hb. cbn in Hb.
        split; cbn -[lookup insert mbind]; try apply R.
        -- intros j. destruct (decide (j = k)) as [->|Hj].
           ++ rewrite lookup_insert_eq, Ha. cbn -[lookup insert]. by rewrite list_lookup_insert_eq.
           ++ rewrite lookup_insert_ne by done. rewrite (repr_at _ _ _ R'). destruct (a !! j) as [y|] eqn:Hy; cbn -[lookup insert]; [|done].
              rewrite list_lookup_insert_ne; [done|]. intros ->. apply Hj. by eapply (repr_inj _ _ _ R).
        -- intros j y Hy. rewrite length_insert. by apply (repr_bound _ _ _ R' j).
        -- intros y Hy. rewrite length_insert. by apply (repr_free_bound _ _ _ R').
      * intros j k' Hj Hjk Hk0. destruct (decide (k' = k)) as [->|Hne]; [by rewrite lookup_insert_eq, Em|].
        rewrite lookup_insert_ne by done. apply (Hdone j); [|done|done]. destruct (decide (j = i)) as [->|]; [congruence | lia].
      * intros j k' Hj Hjk Hk0. rewrite lookup_insert_ne; [apply (Htodo j); [lia|done|done]|]. intros ->. assert (i = j) by (by eapply (inv_inj _ _ I)). lia.
Qed.

Lemma pool_adjust_ok d : exists p', pool_adjust d p = Some p' /\ pool_holds p' (shifted d <$> m).
Proof.
  unfold pool_adjust. destruct (adjust_loop_ok d stream_slots 0 (heap p) m) as (h & E & R'); [lia | by destruct p | lia | done|].
  rewrite E. eexists. split; [done|]. by exists a.
Qed.
End Pool.

Lemma pool_empty_holds : pool_holds st_empty ∅.
Proof.
  exists ∅. split; cbn -[lookup insert new_stream_table].
  - apply new_table_inv.
  - intros id. by rewrite !lookup_empty.
  - intros id x H. by rewrite lookup_empty in H.
  - intros i j x H. by rewrite lookup_empty in H.
  - apply NoDup_nil_2.
  - intros x H%not_elem_of_nil. done.
  - intros id x H. by rewrite lookup_empty in H.
Qed.

#[export] Instance pool_laws : StoreLaws Pool.
Proof.
  refine (Build_StoreLaws Pool _ pool_holds pool_empty_holds _ _ _ _ _ _ _ _ _).
  - intros p m id [a R]. by apply (pool_get_ok p a).
  - intros p m id [a R]. by apply (pool_has_ok p a).
  - intros p m id s [a R]. by apply (pool_set_ok p a).
  - intros p m id w [a R]. by apply (pool_new_ok p a).
  - intros p m id [a R]. by apply (pool_release_ok p a).
  - intros p m id [a R]. rewrite (repr_dom p a m R). by apply ids_into_spec, R.
  - intros p m [a R]. rewrite (repr_size p a m R). by apply (inv_len _ _ (repr_table _ _ _ R)).
  - intros p m d [a R]. by apply (pool_adjust_ok p a).
  - intros p m id [a R] Hm. apply (repr_dom p a m R) in Hm as [x Hx]. cbn. rewrite (get_spec _ _ id (repr_table _ _ _ R)), Hx. cbn. eauto.
Defined.
