(* ===== verification/H2Trace.v ===== *)
(** What can be observed of an HTTP/2 connection: the frames that come in, the calls of
    the application, and the frames that go out; and two observers of it, a peer that
    keeps its flow-control windows and a reader that follows each response body. *)
From stdpp Require Import gmap.
From S2P Require Import Prelude WireBytes H2Frame StreamTable Huffman Hpack H2Conn H2Store.
Local Open Scope Z_scope.

(** ** Frames on the wire *)

Record frm := mkFrm { fr_type : FrameType; fr_flags : Z; fr_sid : Z; fr_payload : list byte }.

Definition frm_header (f : frm) : FrameHeader :=
  mkHeader (Z.of_nat (length (fr_payload f))) (frame_type_code (fr_type f)) (fr_flags f) (fr_sid f).

Definition frm_bytes (f : frm) : list byte := header_bytes (frm_header f) ++ fr_payload f.

Definition wire (fs : list frm) : list byte := concat (frm_bytes <$> fs).

Record frm_ok (f : frm) : Prop := {
  frm_flags : 0 <= fr_flags f < 256;
  frm_sid : 0 <= fr_sid f < 2 ^ 31;
  frm_len : Z.of_nat (length (fr_payload f)) < 2 ^ 24
}.

(** What a peer reads: the whole frames of a byte string. *)
Fixpoint parse_wire (fuel : nat) (bs : list byte) : list frm :=
  match fuel with
  | O => []
  | S f =>
      match parse_frame_header bs with
      | Some (inl h) =>
          match frame_type_of (fh_type h) with
          | Some t =>
              let n := Z.to_nat (fh_length h) in
              mkFrm t (fh_flags h) (fh_stream_id h) (take n (drop frame_header_len bs)) :: parse_wire f (drop (frame_header_len + n) bs)
          | None => []
          end
      | _ => []
      end
  end.

Definition frames_of (bs : list byte) : list frm := parse_wire (length bs) bs.

Lemma frame_type_of_code t : frame_type_of (frame_type_code t) = Some t.
Proof. by destruct t. Qed.

Lemma frame_type_of_Some code t : frame_type_of code = Some t -> frame_type_code t = code.
Proof. intros H. apply List.find_some in H as [_ H]. by apply Z.eqb_eq in H. Qed.

Lemma frm_header_ok f : frm_ok f -> header_ok (frm_header f).
Proof. intros [H1 H2 H3]. split; cbn; try lia. destruct (fr_type f); cbn; lia. Qed.

Lemma wire_cons f fs : wire (f :: fs) = frm_bytes f ++ wire fs.
Proof. done. Qed.

Lemma wire_app fs gs : wire (fs ++ gs) = wire fs ++ wire gs.
Proof. unfold wire. by rewrite fmap_app, concat_app. Qed.

Lemma wire_one f : wire [f] = frm_bytes f.
Proof. unfold wire. cbn. by rewrite app_nil_r. Qed.

Lemma length_frm_bytes f : length (frm_bytes f) = (frame_header_len + length (fr_payload f))%nat.
Proof. unfold frm_bytes. by rewrite length_app, length_header_bytes. Qed.

Lemma parse_wire_wire fuel fs : Forall frm_ok fs -> (length (wire fs) <= fuel)%nat -> parse_wire fuel (wire fs) = fs.
Proof.
  intros Hok. revert fuel. induction Hok as [|f fs Hf _ IH]; intros fuel Hl; [by destruct fuel|].
  rewrite wire_cons in *. rewrite length_app, length_frm_bytes in Hl. destruct fuel as [|fuel]; [unfold frame_header_len in Hl; lia|]. cbn [parse_wire].
  unfold frm_bytes. rewrite <- app_assoc, (parse_header_bytes _ _ (frm_header_ok f Hf)). cbn [frm_header fh_type fh_flags fh_stream_id fh_length].
  rewrite frame_type_of_code, Nat2Z.id, drop_app_length' by (by rewrite length_header_bytes). rewrite take_app_length.
  replace (drop _ (header_bytes _ ++ _)) with (wire fs).
  - rewrite IH by (unfold frame_header_len in Hl; lia). by destruct f.
  - rewrite app_assoc, drop_app_length'; [done|]. by rewrite length_app, length_header_bytes.
Qed.

Lemma frames_of_wire fs : Forall frm_ok fs -> frames_of (wire fs) = fs.
Proof. intros H. by apply parse_wire_wire. Qed.

(** ** Events *)

Inductive app_call :=
| CallHeaders (id : Z) (block : list byte) (end_stream : bool)
| CallBody (id : Z) (data : list byte) (end_stream : bool)
| CallTrailers (id : Z) (block : list byte)
| CallAbort (id : Z) (code : ErrorCode).

Inductive event :=
| In (fh : FrameHeader) (payload : list byte)
| Call (a : app_call)
| Out (f : frm).

Definition outs (tr : list event) : list frm := omap (fun e => match e with Out f => Some f | _ => None end) tr.

Lemma outs_app a b : outs (a ++ b) = outs a ++ outs b.
Proof. apply omap_app. Qed.

Lemma outs_out fs : outs (Out <$> fs) = fs.
Proof. unfold outs. induction fs as [|f fs IH]; cbn; [done|]. by f_equal. Qed.

Fixpoint fold_events {A} (step : event -> A -> option A) (tr : list event) (x : A) : option A :=
  match tr with [] => Some x | e :: tr' => y ← step e x; fold_events step tr' y end.

Lemma fold_events_app {A} (step : event -> A -> option A) a b x :
  fold_events step (a ++ b) x = (y ← fold_events step a x; fold_events step b y).
Proof. revert x. induction a as [|e a IH]; intros x; cbn; [done|]. destruct (step e x); cbn; [apply IH | done]. Qed.

(** ** The peer: RFC 9113's flow control from the receiver's side *)

(** Its settings and its windows; [p_win] has every stream it ever opened. *)
Record peer := mkPeer { p_conn : Z; p_init : Z; p_max : Z; p_win : gmap Z Z }.

#[export] Instance peer_eta : Eta peer := mkEta _ (fun p => mkPeer (p_conn p) (p_init p) (p_max p) (p_win p)).

Definition new_peer : peer := mkPeer default_window_size default_window_size default_max_frame_size ∅.

(** The settings that matter here, up to the first that is not legal. *)
Fixpoint apply_settings (l : list Setting) (init max : Z) : Z * Z :=
  match l with
  | [] => (init, max)
  | st :: l' =>
      if set_id st =? setting_initial_window_size then
        if max_window <? set_val st then (init, max) else apply_settings l' (set_val st) max
      else if set_id st =? setting_max_frame_size then
        if (set_val st <? default_max_frame_size) || (16777215 <? set_val st) then (init, max) else apply_settings l' init (set_val st)
      else apply_settings l' init max
  end.

(** What the peer itself sends. *)
Definition peer_sends (fh : FrameHeader) (payload : list byte) (p : peer) : peer :=
  match frame_type_of (fh_type fh) with
  | Some FtHeaders =>
      match p_win p !! fh_stream_id fh with
      | None => p <| p_win := <[fh_stream_id fh := p_init p]> (p_win p) |>
      | Some _ => p
      end
  | Some FtWindowUpdate =>
      match dependency payload 0 with
      | None => p
      | Some inc =>
          if fh_stream_id fh =? 0 then p <| p_conn := p_conn p + inc |>
          else p <| p_win := alter (fun w => w + inc) (fh_stream_id fh) (p_win p) |>
      end
  | Some FtSettings =>
      if flagged fh flag_ack then p
      else match parse_settings payload with
           | Some (inl l) =>
               let '(i, f) := apply_settings l (p_init p) (p_max p) in
               p <| p_init := i |> <| p_max := f |> <| p_win := (fun w => w + (i - p_init p)) <$> p_win p |>
           | _ => p
           end
  | _ => p
  end.

(** What it gets: [None] is a frame it never allowed. An empty DATA frame needs no window. *)
Definition peer_gets (f : frm) (p : peer) : option peer :=
  let n := Z.of_nat (length (fr_payload f)) in
  if p_max p <? n then None
  else
    match fr_type f with
    | FtData =>
        w ← p_win p !! fr_sid f;
        if (n =? 0) || ((n <=? w) && (n <=? p_conn p))
        then Some (p <| p_conn := p_conn p - n |> <| p_win := <[fr_sid f := w - n]> (p_win p) |>) else None
    | _ => Some p
    end.

Definition peer_step (e : event) (p : peer) : option peer :=
  match e with In fh payload => Some (peer_sends fh payload p) | Call _ => Some p | Out f => peer_gets f p end.

Definition peer_run (tr : list event) : option peer := fold_events peer_step tr new_peer.

(** ** The reader: what of each response body is still to come *)

Definition owed (q : gmap Z (list byte)) (id : Z) : list byte := default [] (q !! id).

Definition ends (f : frm) : bool := negb (Z.land (fr_flags f) flag_end_stream =? 0).

(** DATA must be what comes next of the body, and END_STREAM must not cut it short. *)
Definition reader_gets (f : frm) (q : gmap Z (list byte)) : option (gmap Z (list byte)) :=
  let o := owed q (fr_sid f) in
  match fr_type f with
  | FtData =>
      if decide (take (length (fr_payload f)) o = fr_payload f) then
        let o' := drop (length (fr_payload f)) o in
        if ends f && negb (bool_decide (o' = [])) then None else Some (<[fr_sid f := o']> q)
      else None
  | FtHeaders => if ends f && negb (bool_decide (o = [])) then None else Some q
  | _ => Some q
  end.

Definition reader_step (e : event) (q : gmap Z (list byte)) : option (gmap Z (list byte)) :=
  match e with
  | Out f => reader_gets f q
  | Call (CallBody id data _) => Some (<[id := owed q id ++ data]> q)
  | _ => Some q
  end.

Definition reader_run (tr : list event) : option (gmap Z (list byte)) := fold_events reader_step tr ∅.

(** All that was handed over as the body of stream [id]. *)
Definition written (id : Z) (tr : list event) : list byte :=
  concat (omap (fun e => match e with Call (CallBody i data _) => if i =? id then Some data else None | _ => None end) tr).

Lemma written_app id a b : written id (a ++ b) = written id a ++ written id b.
Proof. unfold written. by rewrite omap_app, concat_app. Qed.

Lemma written_out id fs : written id (Out <$> fs) = [].
Proof. unfold written. induction fs; cbn; done. Qed.

Lemma reader_run_snoc tr e : reader_run (tr ++ [e]) = (q ← reader_run tr; reader_step e q).
Proof. unfold reader_run. rewrite fold_events_app. destruct (fold_events _ tr _) as [q|]; cbn; [|done]. by destruct (reader_step e q). Qed.

(** The DATA of stream [id] so far. *)
Definition data_sent (id : Z) (tr : list event) : list byte :=
  concat (omap (fun f => match fr_type f with FtData => if fr_sid f =? id then Some (fr_payload f) else None | _ => None end) (outs tr)).

Lemma data_sent_app id a b : data_sent id (a ++ b) = data_sent id a ++ data_sent id b.
Proof. unfold data_sent. by rewrite outs_app, omap_app, concat_app. Qed.

Lemma reader_gets_sent f q q' id : reader_gets f q = Some q' -> owed q id = data_sent id [Out f] ++ owed q' id.
Proof.
  unfold reader_gets, data_sent. cbn [outs omap list_omap]. destruct (fr_type f); try (intros [= <-]; done).
  - destruct (decide _) as [E|]; [|done]. destruct (_ && _); [done|]. intros [= <-]. unfold owed in *. destruct (Z.eqb_spec (fr_sid f) id) as [<-|Hne]; cbn.
    + rewrite lookup_insert_eq, app_nil_r. cbn. rewrite <- (take_drop (length (fr_payload f)) (default [] (q !! fr_sid f))) at 1. by rewrite E.
    + by rewrite lookup_insert_ne.
  - destruct (_ && _); [done|]. by intros [= <-].
Qed.

Lemma reader_run_sent tr q id : reader_run tr = Some q -> written id tr = data_sent id tr ++ owed q id.
Proof.
  revert q. induction tr as [|e tr IH] using rev_ind; intros q Hq; [by injection Hq as <-|]. rewrite reader_run_snoc in Hq. destruct (reader_run tr) as [q0|]; [|done]. specialize (IH q0 eq_refl). cbn in Hq.
  rewrite written_app, data_sent_app, IH. rewrite <- !app_assoc. f_equal. destruct e as [fh payload|a|f]; cbn in Hq.
  - injection Hq as <-. cbn. by rewrite app_nil_r.
  - assert (Hd : data_sent id [Call a] = []) by done. rewrite Hd. cbn [app]. unfold written. cbn [omap list_omap]. destruct a as [i b es|i d es|i b|i c]; try (injection Hq as <-; cbn; by rewrite app_nil_r).
    injection Hq as <-. unfold owed. destruct (Z.eqb_spec i id) as [->|Hne]; cbn; [rewrite lookup_insert_eq; cbn; by rewrite app_nil_r | rewrite lookup_insert_ne by done; by rewrite app_nil_r].
  - rewrite (reader_gets_sent f q0 q id Hq). cbn. by rewrite app_nil_r.
Qed.

(** Nothing is owed that was not written. *)
Lemma owed_written tr q id : reader_run tr = Some q -> written id tr = [] -> owed q id = [].
Proof. intros Hq Hw. pose proof (reader_run_sent tr q id Hq) as E. rewrite Hw in E. symmetry in E. by apply app_nil in E as [_ E]. Qed.

Lemma owed_sent tr q id : reader_run tr = Some q -> data_sent id tr = written id tr -> owed q id = [].
Proof. intros Hq Hw. pose proof (reader_run_sent tr q id Hq) as E. rewrite Hw in E. apply (app_inv_head (written id tr)). by rewrite app_nil_r. Qed.

(** ** The writers as frames *)

Lemma write_frame o t flags sid payload : 0 <= sid < 2 ^ 31 ->
  write_frame_header o t flags sid (Z.of_nat (length payload)) ++ payload = o ++ frm_bytes (mkFrm t flags sid payload).
Proof. intros Hs. rewrite write_header_bytes by done. by rewrite <- app_assoc. Qed.

Definition rst_frm (sid : Z) (code : ErrorCode) : frm := mkFrm FtRstStream 0 sid (be_bytes 4 (error_code code)).
Definition goaway_frm (last : Z) (code : ErrorCode) : frm := mkFrm FtGoaway 0 0 (be_bytes 4 last ++ be_bytes 4 (error_code code)).
Definition window_frm (sid inc : Z) : frm := mkFrm FtWindowUpdate 0 sid (be_bytes 4 inc).
Definition settings_ack_frm : frm := mkFrm FtSettings flag_ack 0 [].
Definition ping_ack_frm (opaque : list byte) : frm := mkFrm FtPing flag_ack 0 opaque.
Definition data_frm (sid : Z) (payload : list byte) (last : bool) : frm := mkFrm FtData (if last then flag_end_stream else 0) sid payload.

Section Writers.
Context (o : list byte) (sid : Z) (Hsid : 0 <= sid < 2 ^ 31).

Lemma write_rst code : write_rst_stream o sid code = o ++ wire [rst_frm sid code].
Proof. unfold write_rst_stream. rewrite write_u32_bytes, wire_one. by apply (write_frame o FtRstStream 0 sid (be_bytes 4 (error_code code))). Qed.

Lemma write_window inc : 0 <= inc < 2 ^ 31 -> write_window_update o sid inc = o ++ wire [window_frm sid inc].
Proof. intros Hi. unfold write_window_update. rewrite write_u32_bytes, land_31, wire_one by done. by apply (write_frame o FtWindowUpdate 0 sid (be_bytes 4 inc)). Qed.

Lemma write_goaway_frm code : write_goaway o sid code = o ++ wire [goaway_frm sid code].
Proof.
  unfold write_goaway. rewrite !write_u32_bytes, land_31, wire_one by done. rewrite <- app_assoc.
  by apply (write_frame o FtGoaway 0 0 (be_bytes 4 sid ++ be_bytes 4 (error_code code))).
Qed.

Lemma write_settings_ack_frm : write_settings_ack o = o ++ wire [settings_ack_frm].
Proof. rewrite wire_one. unfold write_settings_ack, settings_ack_frm. rewrite <- (write_frame o FtSettings flag_ack 0 []) by lia. by rewrite app_nil_r. Qed.

Lemma write_ping_ack_frm opaque : length opaque = 8%nat -> write_ping_ack o opaque = o ++ wire [ping_ack_frm opaque].
Proof. intros Hl. rewrite wire_one. unfold write_ping_ack, ping_ack_frm. rewrite <- (write_frame o FtPing flag_ack 0 opaque) by lia. by rewrite Hl. Qed.

Lemma write_data data last : write_data_header o sid (Z.of_nat (length data)) last ++ data = o ++ wire [data_frm sid data last].
Proof. rewrite wire_one. by apply write_frame. Qed.
End Writers.

(** ** A header block as a sequence of frames *)

Definition ends_headers (f : frm) : bool := negb (Z.land (fr_flags f) flag_end_headers =? 0).

(** One HEADERS frame and CONTINUATIONs, contiguous, each within the peer's frame size,
    END_STREAM on the first only and END_HEADERS on the last only. *)
Record header_seq (mf id : Z) (block : list byte) (es : bool) (fs : list frm) : Prop := {
  seq_block : concat (fr_payload <$> fs) = block;
  seq_ok : Forall (fun f => frm_ok f /\ fr_sid f = id /\ Z.of_nat (length (fr_payload f)) <= mf) fs;
  seq_first : exists f gs, fs = f :: gs /\ fr_type f = FtHeaders /\ ends f = es /\ Forall (fun g => fr_type g = FtContinuation) gs;
  seq_last : exists gs f, fs = gs ++ [f] /\ ends_headers f = true /\ Forall (fun g => ends_headers g = false) gs
}.

Section HeaderFrames.
Context (mf id : Z) (Hmf : default_max_frame_size <= mf <= 16777215) (Hid : 0 <= id < 2 ^ 31).

Lemma continuation_loop_spec block fuel off o : (off < length block)%nat -> (length block - off < fuel)%nat ->
  exists gs f, continuation_loop fuel mf id block off o = Some (o ++ wire (gs ++ [f])) /\
    concat (fr_payload <$> gs ++ [f]) = drop off block /\
    Forall (fun f => (frm_ok f /\ fr_sid f = id /\ Z.of_nat (length (fr_payload f)) <= mf) /\ fr_type f = FtContinuation) (gs ++ [f]) /\
    ends_headers f = true /\ Forall (fun g => ends_headers g = false) gs.
Proof.
  unfold default_max_frame_size in Hmf. revert off o. induction fuel as [|fuel IH]; intros off o Ho Hf; [lia|]. cbn [continuation_loop].
  rewrite (proj2 (Nat.leb_gt _ _)) by done. destruct (Z.ltb_spec mf (Z.of_nat (length block) - Z.of_nat off)) as [Hc|Hc].
  - assert (Hl : length (take (Z.to_nat mf) (drop off block)) = Z.to_nat mf) by (rewrite length_take, length_drop; lia).
    destruct (IH (off + Z.to_nat mf)%nat (write_frame_header o FtContinuation 0 id mf ++ take (Z.to_nat mf) (drop off block))) as (gs & f & E & Hcat & Hall & Hf' & Hgs); [lia | lia|].
    exists (mkFrm FtContinuation 0 id (take (Z.to_nat mf) (drop off block)) :: gs), f. rewrite E. split; [|split; [|split; [|split; [done|]]]].
    + f_equal. cbn [app]. rewrite wire_cons, app_assoc. f_equal. rewrite <- write_frame by done. rewrite Hl. do 2 f_equal. lia.
    + cbn [app]. rewrite fmap_cons. cbn [concat fr_payload]. rewrite Hcat, <- drop_drop. by rewrite take_drop.
    + cbn [app]. apply Forall_cons. split; [|done]. split; [|done]. cbn [fr_sid fr_payload]. split; [|split; [done | lia]]. split; cbn [fr_flags fr_sid fr_payload]; lia.
    + apply Forall_cons. split; [done|done].
  - assert (Hl : length (take (Z.to_nat (Z.of_nat (length block) - Z.of_nat off)) (drop off block)) = (length block - off)%nat) by (rewrite length_take, length_drop; lia).
    destruct fuel as [|fuel]; [lia|]. cbn [continuation_loop]. rewrite (proj2 (Nat.leb_le _ _)) by lia.
    exists [], (mkFrm FtContinuation flag_end_headers id (drop off block)). cbn [app]. rewrite wire_one, take_ge by (rewrite length_drop; lia).
    rewrite <- write_frame, length_drop by done. split; [do 4 f_equal; lia|]. split; [cbn; by rewrite app_nil_r|]. split; [|split; [done | by apply Forall_nil]].
    apply Forall_singleton. split; [|done]. cbn [fr_sid fr_payload]. rewrite length_drop. split; [|split; [done|lia]]. split; cbn [fr_flags fr_sid fr_payload]; rewrite ?length_drop; unfold flag_end_headers; lia.
Qed.

Lemma header_frames_spec block es o : exists fs, header_frames mf id block es o = Some (o ++ wire fs) /\ header_seq mf id block es fs.
Proof.
  unfold default_max_frame_size in Hmf. unfold header_frames. destruct (Z.leb_spec (Z.of_nat (length block)) mf) as [Hb|Hb].
  - eexists [_]. rewrite wire_one, <- write_frame by done. split; [reflexivity|]. split.
    + cbn. by rewrite app_nil_r.
    + apply Forall_singleton. cbn [fr_sid fr_payload]. split; [|split; [done | lia]]. split; cbn [fr_flags fr_sid fr_payload]; [destruct es; by vm_compute | lia | lia].
    + eexists _, []. split; [done|]. split; [done|]. split; [by destruct es | by apply Forall_nil].
    + eexists [], _. split; [done|]. split; [by destruct es | by apply Forall_nil].
  - assert (Hl : length (take (Z.to_nat mf) block) = Z.to_nat mf) by (rewrite length_take; lia).
    set (f0 := mkFrm FtHeaders (if es then flag_end_stream else 0) id (take (Z.to_nat mf) block)).
    destruct (continuation_loop_spec block (length block) (Z.to_nat mf) (write_frame_header o FtHeaders (if es then flag_end_stream else 0) id mf ++ take (Z.to_nat mf) block))
      as (gs & f & E & Hcat & Hall & Hf & Hgs); [lia | lia|].
    exists (f0 :: gs ++ [f]). rewrite E. split; [|split].
    + f_equal. rewrite wire_cons, app_assoc. f_equal. unfold f0. rewrite <- write_frame by done. rewrite Hl. do 2 f_equal. lia.
    + rewrite fmap_cons. cbn [concat]. rewrite Hcat. cbn. by rewrite take_drop.
    + apply Forall_cons. split; [|by apply (Forall_impl _ _ _ Hall); intros g [? _]]. cbn [f0 fr_sid fr_payload]. split; [|split; [done|lia]].
      split; cbn [f0 fr_flags fr_sid fr_payload]; rewrite ?Hl; [destruct es; by vm_compute | lia | lia].
    + exists f0, (gs ++ [f]). split; [done|]. split; [done|]. split; [by destruct es|]. apply (Forall_impl _ _ _ Hall). by intros g [_ ?].
    + exists (f0 :: gs), f. split; [done|]. split; [done|]. apply Forall_cons. split; [by destruct es | done].
Qed.
End HeaderFrames.
