(* ===== verification/H2Inv.v ===== *)
(** The invariant of an HTTP/2 connection and the frames it has exchanged so far, and
    the rules for the primitive steps of its handlers. *)
From stdpp Require Import gmap.
From S2P Require Import Prelude WireBytes H2Frame StreamTable Huffman Hpack H2Conn H2Store H2Trace.
Local Open Scope Z_scope.

(** ** Running a call *)

Definition wp {T A} (c : cm T A) (w : World T) (Q : A -> World T -> Prop) : Prop :=
  match c w with Some (a, w') => Q a w' | None => False end.

Section Wp.
Context {T : Type} `{!StreamStore T} `{!StoreLaws T}.
Implicit Types (w : World T).

Lemma wp_bind {A B} (c : cm T A) (k : A -> cm T B) w Q : wp c w (fun a w' => wp (k a) w' Q) -> wp (c ≫= k) w Q.
Proof. unfold wp, mbind, cm_bind. by destruct (c w) as [[a w']|]. Qed.

Lemma wp_mono {A} (c : cm T A) w (P Q : A -> World T -> Prop) : wp c w P -> (forall a w', P a w' -> Q a w') -> wp c w Q.
Proof. unfold wp. destruct (c w) as [[a w']|]; [auto | done]. Qed.

Lemma wp_ret {A} (a : A) w (Q : A -> World T -> Prop) : Q a w -> wp (mret a) w Q.
Proof. done. Qed.

Lemma wp_ask {A B} (f : ServerConn T -> A) (k : A -> cm T B) w Q : wp (k (f (con w))) w Q -> wp (ask f ≫= k) w Q.
Proof. done. Qed.

Lemma wp_upd {B} f (k : unit -> cm T B) w Q : wp (k tt) (mkWorld (f (con w)) (out w) (reqs w)) Q -> wp (upd f ≫= k) w Q.
Proof. done. Qed.

Lemma wp_append f w (Q : unit -> World T -> Prop) : Q tt (mkWorld (con w) (f (out w)) (reqs w)) -> wp (append_out f) w Q.
Proof. done. Qed.

Lemma wp_lift {A B} (a : A) (k : A -> cm T B) o w Q : o = Some a -> wp (k a) w Q -> wp (lift o ≫= k) w Q.
Proof. by intros ->. Qed.

Lemma wp_get {B} id (k : option StreamState -> cm T B) w m Q : holds (store (con w)) m -> wp (k (m !! id)) w Q -> wp (get_stream id ≫= k) w Q.
Proof. intros H Hk. unfold get_stream, wp, mbind, cm_bind, ask, lift. by rewrite (holds_get _ _ _ H). Qed.

Lemma wp_has {B} id (k : bool -> cm T B) w m Q :
  holds (store (con w)) m -> wp (k (bool_decide (is_Some (m !! id)))) w Q -> wp (has_stream id ≫= k) w Q.
Proof. intros H Hk. unfold has_stream, wp, mbind, cm_bind, ask, lift. by rewrite (holds_has _ _ _ H). Qed.

(** [w] with other streams. *)
Definition with_store w (t : T) : World T := mkWorld ((con w) <| store := t |>) (out w) (reqs w).

Lemma wp_set id s w m (Q : unit -> World T -> Prop) :
  holds (store (con w)) m -> is_Some (m !! id) -> (forall t, holds t (<[id := s]> m) -> Q tt (with_store w t)) -> wp (set_stream id s) w Q.
Proof. intros H Hm HQ. destruct (holds_set _ _ id s H Hm) as (t & E & Ht). unfold wp, set_stream, on_store. rewrite E. by apply HQ. Qed.

Lemma wp_release id w m (Q : unit -> World T -> Prop) :
  holds (store (con w)) m -> (size m < stream_slots)%nat -> (forall t, holds t (delete id m) -> Q tt (with_store w t)) -> wp (release_stream id) w Q.
Proof. intros H Hm HQ. destruct (holds_release _ _ id H Hm) as (t & E & Ht). unfold wp, release_stream, on_store. rewrite E. by apply HQ. Qed.
End Wp.

(** ** The invariant *)

Definition tail (s : StreamState) : list byte := drop (pending_off s) (pending s).

(** Response bytes wait for a window. *)
Definition parked (s : StreamState) : Prop := (pending_off s < length (pending s))%nat.

Definition odd_id (id : Z) : Prop := 0 < id < 2 ^ 31 /\ Z.land id 1 <> 0.

Record stream_ok (init : Z) (s : StreamState) : Prop := {
  s_recv : if remote_done s then 0 <= recv_window s <= default_window_size else recv_window s = default_window_size;
  s_send : - max_window <= send_window s - init <= max_window;
  s_off : (pending_off s <= length (pending s))%nat;
  s_hdr : (length (hdr_bytes s) <= hdr_cap s)%nat;
  s_body : Z.of_nat (length (body s)) <= max_body_bytes;
  s_valid : rejected s = false -> validate_request_fields (headers s) = (true, declared_len s)
}.

(** A request as RFC 9113 section 8 wants it. *)
Record req_ok (r : Http2Request) : Prop := {
  r_id : odd_id (stream_id r);
  r_fields : exists d, validate_request_fields (rq_headers r) = (true, d) /\ (0 <= d -> d = Z.of_nat (length (rq_body r)));
  r_body : Z.of_nat (length (rq_body r)) <= max_body_bytes
}.

Section Inv.
Context {T : Type} `{!StreamStore T} `{!StoreLaws T}.
Implicit Types (w : World T) (c : ServerConn T) (m : gmap Z StreamState) (tr : list event) (x : Z -> list byte).

Definition surfaced w : list Z := stream_id <$> reqs w.

(** The header block being assembled is to open a stream. *)
Definition hdr_new c : Prop := hdr_trailers c = false /\ hdr_refused c = false.

Record conn_ok c m : Prop := {
  c_store : holds (store c) m;
  c_size : (size m <= 128)%nat;
  c_ids : forall id s, m !! id = Some s -> odd_id id /\ id <= last_stream c;
  c_streams : forall id s, m !! id = Some s -> stream_ok (init_send_window c) s;
  c_last : 0 <= last_stream c < 2 ^ 31;
  c_recv : conn_recv_window c = default_window_size;
  c_send : 0 <= conn_send_window c <= max_window;
  c_init : 0 <= init_send_window c <= max_window;
  c_max : default_max_frame_size <= peer_max_frame c <= 16777215;
  c_dec : decoder_inv (dec c);
  c_block : Z.of_nat (length (hdr_block c)) <= max_header_block;
  c_hdr : hdr_expecting c = true -> (odd_id (hdr_stream c) /\ hdr_stream c <= last_stream c) /\
    (hdr_new c -> m !! hdr_stream c = None /\ (size m < 128)%nat) /\
    (hdr_trailers c = true -> forall s, m !! hdr_stream c = Some s -> remote_done s = false)
}.

(** The peer's windows are the connection's. *)
Record in_step c m (p : peer) : Prop := {
  p_conn_eq : p_conn p = conn_send_window c;
  p_init_eq : p_init p = init_send_window c;
  p_max_eq : p_max p = peer_max_frame c;
  p_win_eq : forall id s, m !! id = Some s -> p_win p !! id = Some (send_window s);
  p_win_last : forall id z, p_win p !! id = Some z -> id <= last_stream c;
  p_win_new : hdr_expecting c = true -> hdr_new c -> p_win p !! hdr_stream c = Some (init_send_window c)
}.

(** [x] is what the call being run has still to send of each stream's body. *)
Record traced x w m tr : Prop := {
  t_out : out w = wire (outs tr);
  t_frames : Forall frm_ok (outs tr);
  t_peer : exists p, peer_run tr = Some p /\ in_step (con w) m p;
  t_reader : exists q, reader_run tr = Some q /\ forall id s, m !! id = Some s -> owed q id = tail s ++ x id;
  t_reqs : Forall req_ok (reqs w);
  t_below : forall id, id ∈ surfaced w -> id <= last_stream (con w);
  t_once : NoDup (surfaced w);
  t_open : forall id s, m !! id = Some s -> remote_done s = false -> id ∉ surfaced w;
  t_new : hdr_expecting (con w) = true -> hdr_new (con w) -> hdr_stream (con w) ∉ surfaced w;
  t_written : forall id, id ∉ surfaced w -> written id tr = []
}.

Record good x w m tr : Prop := { g_conn : conn_ok (con w) m; g_trace : traced x w m tr }.

Definition blocked c (s : StreamState) : Prop := conn_send_window c <= 0 \/ send_window s <= 0.

(** No response waits while both windows are open, and an end that was asked for waits
    only behind response bytes. *)
Definition calm c (s : StreamState) : Prop :=
  (parked s -> blocked c s) /\ (pending_end s = true \/ trailers_pending s = true -> parked s).

Definition settled c m : Prop := forall id s, m !! id = Some s -> calm c s.

Abbreviation nothing := (fun _ : Z => @nil byte).

(** Between frames. *)
Definition invariant w m tr : Prop := good nothing w m tr /\ settled (con w) m.

(** ** Facts *)

Lemma g_store x w m tr : good x w m tr -> holds (store (con w)) m.
Proof. intros G. apply G. Qed.

Lemma g_room x w m tr : good x w m tr -> (size m < stream_slots)%nat.
Proof. intros G. pose proof (c_size _ _ (g_conn _ _ _ _ G)). assert (E : stream_slots = 256%nat) by (vm_compute; reflexivity). lia. Qed.

Lemma tail_parked s : parked s <-> tail s <> [].
Proof.
  unfold parked, tail. split.
  - intros H E. apply (f_equal length) in E. rewrite length_drop in E. cbn in E. lia.
  - intros H. destruct (decide (pending_off s < length (pending s))%nat) as [|Hn]; [done|]. rewrite drop_ge in H by lia. done.
Qed.

Lemma peer_run_snoc tr e : peer_run (tr ++ [e]) = (p ← peer_run tr; peer_step e p).
Proof. unfold peer_run. rewrite fold_events_app. destruct (fold_events _ tr _) as [p|]; cbn; [|done]. by destruct (peer_step e p). Qed.

Lemma outs_snoc tr f : outs (tr ++ [Out f]) = outs tr ++ [f].
Proof. apply outs_app. Qed.

(** ** Primitive steps *)

(** A frame that the observers do not follow. *)
Record control (f : frm) : Prop := {
  ctl_ok : frm_ok f;
  ctl_len : Z.of_nat (length (fr_payload f)) <= default_max_frame_size;
  ctl_type : fr_type f <> FtData /\ fr_type f <> FtHeaders
}.

Lemma peer_gets_small f p : fr_type f <> FtData -> Z.of_nat (length (fr_payload f)) <= p_max p -> peer_gets f p = Some p.
Proof. intros Ht Hl. unfold peer_gets. rewrite (proj2 (Z.ltb_ge _ _)) by done. by destruct (fr_type f). Qed.

(** Any frame but DATA; one that ends a stream needs its body to be out. *)
Lemma good_plain x w m tr f : good x w m tr -> frm_ok f -> Z.of_nat (length (fr_payload f)) <= peer_max_frame (con w) -> fr_type f <> FtData ->
  (fr_type f = FtHeaders -> ends f = true -> forall q, reader_run tr = Some q -> owed q (fr_sid f) = []) ->
  good x (mkWorld (con w) (out w ++ wire [f]) (reqs w)) m (tr ++ [Out f]) /\ reader_run (tr ++ [Out f]) = reader_run tr.
Proof.
  intros [C G] Hok Hl Hd He. destruct G as [Ho Hf (p & Ep & Hp) (q & Eq & Hq) ? ? ? ? ? Hw].
  assert (Er : reader_run (tr ++ [Out f]) = reader_run tr).
  { rewrite reader_run_snoc, Eq. cbn. unfold reader_gets. destruct (fr_type f); try done. destruct (ends f); [|done]. cbn.
    rewrite (He eq_refl eq_refl q Eq). by rewrite bool_decide_eq_true_2. }
  split; [|done]. split; [exact C|]. split; cbn [con out reqs]; try done.
  - by rewrite outs_snoc, wire_app, Ho.
  - rewrite outs_snoc. apply Forall_app. split; [done | by apply Forall_singleton].
  - exists p. split; [|done]. rewrite peer_run_snoc, Ep. cbn. apply peer_gets_small; [done|]. by rewrite (p_max_eq _ _ _ Hp).
  - exists q. by rewrite Er.
  - intros id Hid. rewrite written_app, (Hw id Hid). apply (written_out id [f]).
Qed.

Lemma good_control x w m tr f : good x w m tr -> control f -> good x (mkWorld (con w) (out w ++ wire [f]) (reqs w)) m (tr ++ [Out f]).
Proof.
  intros G [Hok Hl [Hd Hh]]. apply good_plain; [done | done | | done | done]. pose proof (c_max _ _ (g_conn _ _ _ _ G)). lia.
Qed.

Lemma good_headers x w m tr id block es fs :
  good x w m tr -> header_seq (peer_max_frame (con w)) id block es fs -> (es = true -> forall q, reader_run tr = Some q -> owed q id = []) ->
  good x (mkWorld (con w) (out w ++ wire fs) (reqs w)) m (tr ++ (Out <$> fs)).
Proof.
  intros G [_ Hall (f0 & gs & -> & Ht & He & Hgs) _] Hes. apply Forall_cons in Hall as [(Hok & Hsid & Hl) Hall].
  destruct (good_plain x w m tr f0 G) as [G' Er]; [done | done | by rewrite Ht | intros _ Hend q Hq; rewrite Hsid; apply Hes; congruence|].
  rewrite wire_cons, fmap_cons. rewrite <- (wire_one f0), app_assoc.
  replace (tr ++ Out f0 :: (Out <$> gs)) with ((tr ++ [Out f0]) ++ (Out <$> gs)) by (by rewrite <- app_assoc).
  clear Er Hes. revert G'. generalize (tr ++ [Out f0]) as tr'. generalize (out w ++ wire [f0]) as o. clear G tr.
  induction gs as [|g gs IH]; intros o tr G; [by rewrite !app_nil_r|].
  apply Forall_cons in Hall as [(Hok' & _ & Hl') Hall]. apply Forall_cons in Hgs as [Htg Hgs].
  destruct (good_plain _ _ _ _ g G) as [G' _]; [done | done | by rewrite Htg | by rewrite Htg|]. cbn [con out reqs] in G'.
  specialize (IH Hall Hgs _ _ G'). rewrite wire_cons, fmap_cons, <- (wire_one g), app_assoc. by replace (tr ++ Out g :: (Out <$> gs)) with ((tr ++ [Out g]) ++ (Out <$> gs)) by (by rewrite <- app_assoc).
Qed.

(** A frame that comes in and does not touch the peer's windows. *)
Lemma good_input x w m tr fh payload : good x w m tr -> (forall p, peer_sends fh payload p = p) -> good x w m (tr ++ [In fh payload]).
Proof.
  intros [C G] Hn. split; [exact C|]. destruct G as [Ho Hf (p & Ep & Hp) (q & Eq & Hq) ? ? ? ? ? Hw]. split; try done.
  - by rewrite outs_app, app_nil_r.
  - by rewrite outs_app, app_nil_r.
  - exists p. split; [|done]. rewrite peer_run_snoc, Ep. cbn. by rewrite Hn.
  - exists q. split; [|done]. by rewrite reader_run_snoc, Eq.
  - intros id Hid. by rewrite written_app, (Hw id Hid).
Qed.

(** A stream's state changes, but nothing the observers follow. *)
Lemma good_set x x' w m tr id s0 s t :
  good x w m tr -> m !! id = Some s0 -> stream_ok (init_send_window (con w)) s ->
  send_window s = send_window s0 -> tail s ++ x' id = tail s0 ++ x id -> (forall j, j <> id -> x' j = x j) ->
  (remote_done s = remote_done s0 \/ (remote_done s = true /\ hdr_expecting (con w) = false)) ->
  holds t (<[id := s]> m) -> good x' (with_store w t) (<[id := s]> m) tr.
Proof.
  intros [C G] Hid Hs Hsw Htl Hx Hrd Ht. split.
  - destruct C. split; cbn; try done.
    + rewrite map_size_insert_Some by done. done.
    + intros j s' [[<- <-]|[_ Hj]]%lookup_insert_Some; [by apply (c_ids0 id s0) | by apply (c_ids0 j s')].
    + intros j s' [[<- <-]|[_ Hj]]%lookup_insert_Some; [done | by apply (c_streams0 j s')].
    + intros He. destruct (c_hdr0 He) as (H1 & H2 & H3). split; [done|]. split.
      * intros Hn. destruct (H2 Hn) as [Hnone Hsz]. rewrite map_size_insert_Some by done. split; [|done]. rewrite lookup_insert_ne; [done|]. intros ->. congruence.
      * intros Htr s' [[E <-]|[_ Hj]]%lookup_insert_Some; [|by apply H3]. destruct Hrd as [->|[_ ?]]; [apply (H3 Htr s0); by rewrite <- E | congruence].
  - destruct G as [Ho Hf (p & Ep & Hp) (q & Eq & Hq) ? ? ? Hop ? Hw]. split; cbn [with_store con out reqs]; try done.
    + exists p. split; [done|]. destruct Hp. split; cbn; try done. intros j s' [[<- <-]|[_ Hj]]%lookup_insert_Some; [rewrite Hsw|]; by apply p_win_eq0.
    + exists q. split; [done|]. intros j s' [[<- <-]|[Hne Hj]]%lookup_insert_Some; [rewrite Htl | rewrite Hx by done]; by apply Hq.
    + intros j s' [[<- <-]|[_ Hj]]%lookup_insert_Some; [|by apply Hop]. intros Hf'. apply (Hop _ _ Hid). destruct Hrd as [<-|[? _]]; congruence.
Qed.

Lemma good_ext x x' w m tr : good x w m tr -> (forall j, x' j = x j) -> good x' w m tr.
Proof.
  intros [C G] Hx. split; [done|]. destruct G as [? ? ? (q & Eq & Hq) ? ? ? ? ? ?]. split; try done. exists q. split; [done|]. intros j s Hj. rewrite Hx. by apply Hq.
Qed.

Lemma good_release x w m tr id t : good x w m tr -> holds t (delete id m) -> good x (with_store w t) (delete id m) tr.
Proof.
  intros [C G] Ht. split.
  - destruct C. assert (size (delete id m) <= size m)%nat by (rewrite map_size_delete; destruct (m !! id); cbn; lia).
    split; cbn; try done; try lia.
    + intros j s' [_ Hj]%lookup_delete_Some. by apply (c_ids0 j s').
    + intros j s' [_ Hj]%lookup_delete_Some. by apply (c_streams0 j s').
    + intros He. destruct (c_hdr0 He) as (H1 & H2 & H3). split; [done|]. split.
      * intros Hn. destruct (H2 Hn) as [Hnone Hsz]. split; [|lia]. rewrite lookup_delete_None. by right.
      * intros Htr s' [_ Hj]%lookup_delete_Some. by apply H3.
  - destruct G as [Ho Hf (p & Ep & Hp) (q & Eq & Hq) ? ? ? Hop ? Hw]. split; cbn [with_store con out reqs]; try done.
    + exists p. split; [done|]. destruct Hp. split; cbn; try done. intros j s' [_ Hj]%lookup_delete_Some. by apply p_win_eq0.
    + exists q. split; [done|]. intros j s' [_ Hj]%lookup_delete_Some. by apply Hq.
    + intros j s' [_ Hj]%lookup_delete_Some. by apply Hop.
Qed.

(** A DATA frame with the bytes [d] that come next on stream [id]. *)
Lemma good_data x x' w m tr id s s' d last t : let n := Z.of_nat (length d) in
  good x w m tr -> m !! id = Some s -> n = 0 \/ (n <= send_window s /\ n <= conn_send_window (con w)) -> n <= peer_max_frame (con w) ->
  send_window s' = send_window s - n -> stream_ok (init_send_window (con w)) s' -> remote_done s' = remote_done s ->
  tail s ++ x id = d ++ tail s' ++ x' id -> (last = true -> tail s' ++ x' id = []) -> (forall j, j <> id -> x' j = x j) ->
  holds t (<[id := s']> m) ->
  good x' (mkWorld ((con w) <| conn_send_window := conn_send_window (con w) - n |> <| store := t |>) (out w ++ wire [data_frm id d last]) (reqs w))
    (<[id := s']> m) (tr ++ [Out (data_frm id d last)]).
Proof.
  intros n [C G] Hid Hwin Hmf Esw Hok Erd Etl Hlast Hx Ht. destruct (c_ids _ _ C _ _ Hid) as [[Hrange _] _]. split.
  - destruct C. split; cbn; try done; try lia.
    + rewrite map_size_insert_Some by done. done.
    + intros j s'' [[<- <-]|[_ Hj]]%lookup_insert_Some; [by apply (c_ids0 id s) | by apply (c_ids0 j s'')].
    + intros j s'' [[<- <-]|[_ Hj]]%lookup_insert_Some; [done | by apply (c_streams0 j s'')].
    + intros He. destruct (c_hdr0 He) as (H1 & H2 & H3). split; [done|]. split.
      * intros Hnew. destruct (H2 Hnew) as [Hnone Hsz]. rewrite map_size_insert_Some by done. split; [|done]. rewrite lookup_insert_ne; [done|]. intros ->. congruence.
      * intros Htr s'' [[E <-]|[_ Hj]]%lookup_insert_Some; [|by apply H3]. rewrite Erd. apply (H3 Htr s). by rewrite <- E.
  - destruct G as [Ho Hf (p & Ep & Hp) (q & Eq & Hq) ? ? ? Hop Hnw Hw]. split; cbn [con out reqs]; try done.
    + by rewrite outs_snoc, wire_app, Ho.
    + rewrite outs_snoc. apply Forall_app. split; [done|]. apply Forall_singleton. pose proof (c_max _ _ C). split; cbn; [by destruct last | lia | lia].
    + exists (p <| p_conn := p_conn p - n |> <| p_win := <[id := send_window s - n]> (p_win p) |>). destruct Hp. rewrite peer_run_snoc, Ep. split.
      * cbn. unfold peer_gets. cbn [fr_payload fr_type fr_sid data_frm]. fold n. rewrite (proj2 (Z.ltb_ge _ _)) by lia. rewrite (p_win_eq0 _ _ Hid). cbn.
        destruct Hwin as [->|[Hsw Hcw]]; [done|]. rewrite (proj2 (Z.leb_le n _)), (proj2 (Z.leb_le n _)) by lia. by rewrite orb_true_r.
      * split; cbn; try done; try lia.
        -- intros j s'' [[<- <-]|[Hne Hj]]%lookup_insert_Some; [by rewrite lookup_insert_eq, Esw | rewrite lookup_insert_ne by done; by apply p_win_eq0].
        -- intros j z [[<- _]|[_ Hj]]%lookup_insert_Some; [by apply (c_ids _ _ C _ _ Hid) | by apply (p_win_last0 j z)].
        -- intros He Hnew. destruct (c_hdr _ _ C He) as (_ & H2 & _). destruct (H2 Hnew) as [Hnone _]. rewrite lookup_insert_ne; [by apply p_win_new0|]. intros ->. congruence.
    + exists (<[id := tail s' ++ x' id]> q). rewrite reader_run_snoc, Eq. split.
      * cbn. unfold reader_gets. cbn [fr_payload fr_type fr_sid data_frm]. rewrite (Hq _ _ Hid), Etl, decide_True by (by rewrite take_app_length). rewrite drop_app_length.
        unfold ends. cbn [fr_flags data_frm]. destruct last; [|done]. rewrite (bool_decide_eq_true_2 _ (Hlast eq_refl)). done.
      * intros j s'' [[<- <-]|[Hne Hj]]%lookup_insert_Some; unfold owed; [by rewrite lookup_insert_eq|]. rewrite lookup_insert_ne, Hx by done. by apply Hq.
    + intros j s'' [[<- <-]|[_ Hj]]%lookup_insert_Some; [|by apply Hop]. rewrite Erd. by apply Hop.
    + intros j Hj. rewrite written_app, (Hw j Hj). apply (written_out j [data_frm id d last]).
Qed.

(** A request is handed out. *)
Lemma good_surface x w m tr id s r :
  good x w m tr -> m !! id = Some s -> remote_done s = true -> id ∉ surfaced w -> hdr_expecting (con w) = false -> req_ok r -> stream_id r = id ->
  good x (mkWorld (con w) (out w) (reqs w ++ [r])) m tr.
Proof.
  intros [C G] Hid Hrd Hns He Hr <-. split; [exact C|]. destruct G. unfold surfaced in *. split; cbn [con out reqs]; try done.
  - apply Forall_app. split; [done | by apply Forall_singleton].
  - unfold surfaced. cbn [reqs]. intros j. rewrite fmap_app, elem_of_app. intros [Hj|Hj%list_elem_of_singleton]; [by apply t_below0|]. subst j. by apply (c_ids _ _ C _ _ Hid).
  - unfold surfaced. cbn [reqs]. rewrite fmap_app. apply NoDup_app. split; [done|]. split; [|apply NoDup_singleton]. intros j Hj ->%list_elem_of_singleton. done.
  - unfold surfaced. cbn [reqs]. intros j s' Hj Hrd'. rewrite fmap_app, not_elem_of_app. split; [by apply (t_open0 j s')|]. intros ->%list_elem_of_singleton. congruence.
  - intros He'. congruence.
  - unfold surfaced. cbn [reqs]. intros j. rewrite fmap_app, not_elem_of_app. intros [Hj _]. by apply t_written0.
Qed.
End Inv.
