(* ===== verification/H2Send.v ===== *)
(** The sending half of the HTTP/2 connection keeps the invariant: the flow-controlled
    loops, the flushes, and the calls of the application. *)
From stdpp Require Import gmap.
From S2P Require Import Prelude WireBytes H2Frame StreamTable Huffman Hpack H2Conn H2Store H2Trace H2Inv.
Local Open Scope Z_scope.

Section Send.
Context {T : Type} `{!StreamStore T} `{!StoreLaws T}.
Implicit Types (w : World T) (c : ServerConn T) (m : gmap Z StreamState) (tr : list event) (x : Z -> list byte).
Abbreviation nothing := (fun _ : Z => @nil byte).

(** Sending only takes from the connection window. *)
Definition sends c c' : Prop := exists cs t, c' = c <| conn_send_window := cs |> <| store := t |> /\ cs <= conn_send_window c.

Lemma sends_refl c : sends c c.
Proof. exists (conn_send_window c), (store c). split; [by destruct c | lia]. Qed.

Lemma sends_store c t : sends c (c <| store := t |>).
Proof. exists (conn_send_window c), t. split; [by destruct c | lia]. Qed.

Lemma sends_trans c1 c2 c3 : sends c1 c2 -> sends c2 c3 -> sends c1 c3.
Proof. intros (a & t & -> & Ha) (b & t' & -> & Hb). exists b, t'. split; [done|]. cbn in Hb. lia. Qed.

Lemma sends_blocked c c' s : sends c c' -> blocked c s -> blocked c' s.
Proof. intros (a & t & -> & Ha) [H|H]; [left; cbn; lia | by right]. Qed.

Lemma next_chunk_spec c s rest : 0 < rest -> 0 < peer_max_frame c ->
  match next_chunk c s rest with
  | None => blocked c s
  | Some n => 0 < n <= rest /\ n <= send_window s /\ n <= conn_send_window c /\ n <= peer_max_frame c
  end.
Proof.
  intros Hr Hp. unfold next_chunk, blocked. destruct (Z.ltb_spec (send_window s) (conn_send_window c)).
  - destruct (Z.leb_spec (send_window s) 0); [lia|]. destruct (Z.ltb_spec (send_window s) rest), (Z.ltb_spec (peer_max_frame c) (send_window s)), (Z.ltb_spec (peer_max_frame c) rest); lia.
  - destruct (Z.leb_spec (conn_send_window c) 0); [lia|]. destruct (Z.ltb_spec (conn_send_window c) rest), (Z.ltb_spec (peer_max_frame c) (conn_send_window c)), (Z.ltb_spec (peer_max_frame c) rest); lia.
Qed.

(** ** The frames of one stream *)

Definition data_of (id : Z) (fs : list frm) (d : list byte) : Prop :=
  Forall (fun f => fr_type f = FtData /\ fr_sid f = id) fs /\ concat (fr_payload <$> fs) = d.

Lemma data_of_cons id d1 d2 last fs : data_of id fs d2 -> data_of id (data_frm id d1 last :: fs) (d1 ++ d2).
Proof. intros [H <-]. split; [by apply Forall_cons | done]. Qed.

Lemma send_data_ok x x' w m tr id s s' data off chunk last (Q : unit -> World T -> Prop) :
  let d := take (Z.to_nat chunk) (drop off data) in
  good x w m tr -> m !! id = Some s -> 0 < chunk <= Z.of_nat (length data) - Z.of_nat off ->
  chunk <= send_window s -> chunk <= conn_send_window (con w) -> chunk <= peer_max_frame (con w) ->
  send_window s' = send_window s - chunk -> stream_ok (init_send_window (con w)) s' -> remote_done s' = remote_done s ->
  tail s ++ x id = d ++ tail s' ++ x' id -> (last = true -> tail s' ++ x' id = []) -> (forall j, j <> id -> x' j = x j) ->
  (forall w', good x' w' (<[id := s']> m) (tr ++ [Out (data_frm id d last)]) -> reqs w' = reqs w -> sends (con w) (con w') -> conn_send_window (con w') = conn_send_window (con w) - chunk -> Q tt w') ->
  wp (send_data id s' data off chunk last) w Q.
Proof.
  intros d G Hid Hc H1 H2 H3 E1 Hok E2 Etl Hl Hx HQ. assert (Hd : Z.of_nat (length d) = chunk) by (unfold d; rewrite length_take, length_drop; lia).
  unfold send_data. apply wp_bind, wp_append, wp_upd. cbn [con out reqs].
  apply (wp_set id s' _ m); [by apply (g_store _ _ _ _ G) | eauto|]. intros t Ht. fold d. rewrite <- Hd.
  destruct (c_ids _ _ (g_conn _ _ _ _ G) _ _ Hid) as [[Hr _] _]. rewrite (write_data (out w) id ltac:(lia) d last). cbn [with_store con out reqs]. apply HQ; [|done| |cbn; lia].
  - apply (good_data x x' w m tr id s s' d last t); try done; rewrite ?Hd; try done. by right.
  - exists (conn_send_window (con w) - Z.of_nat (length d)), t. split; [done | lia].
Qed.

Lemma stream_sent init s n off : stream_ok init s -> 0 <= init <= max_window -> 0 < n <= send_window s -> (off <= length (pending s))%nat ->
  stream_ok init (s <| pending_off := off |> <| send_window := send_window s - n |>).
Proof. intros [] Hi Hn Ho. split; cbn; try done. lia. Qed.

Lemma pending_loop_ok fuel id s w m tr :
  good nothing w m tr -> m !! id = Some s -> (length (tail s) < fuel)%nat ->
  wp (flush_loop fuel id s) w (fun r w' => exists fs, good nothing w' (<[id := r.1]> m) (tr ++ (Out <$> fs)) /\ reqs w' = reqs w /\ sends (con w) (con w') /\
    r.1 = s <| pending_off := pending_off (r.1) |> <| send_window := send_window (r.1) |> /\
    (if r.2 then parked (r.1) /\ blocked (con w') (r.1) else tail (r.1) = []) /\
    exists d, data_of id fs d /\ tail s = d ++ tail (r.1) /\ send_window (r.1) = send_window s - Z.of_nat (length d) /\
      conn_send_window (con w') = conn_send_window (con w) - Z.of_nat (length d) /\ (tail s = [] -> fs = []) /\ (pending_end s = true -> parked s -> tail (r.1) = [] -> exists f gs, fs = gs ++ [f] /\ ends f = true)).
Proof.
  revert s w m tr. induction fuel as [|fuel IH]; intros s w m tr G Hid Hf; [lia|]. cbn [flush_loop].
  pose proof (s_off _ _ (c_streams _ _ (g_conn _ _ _ _ G) _ _ Hid)) as Hoff. destruct (Nat.leb_spec (length (pending s)) (pending_off s)) as [Hle|Hlt].
  { apply wp_ret. exists []. cbn [fst snd]. rewrite insert_id, app_nil_r by done. split; [done|]. split; [done|]. split; [apply sends_refl|]. split; [by destruct s|].
    unfold tail. rewrite drop_ge by done. split; [done|]. exists []. split; [by split; [apply Forall_nil|]|]. split; [done|]. split; [cbn; lia|]. split; [cbn; lia|]. split; [done|]. unfold parked. lia. }
  apply wp_ask. pose proof (c_max _ _ (g_conn _ _ _ _ G)) as Hmax. unfold default_max_frame_size in Hmax.
  pose proof (next_chunk_spec (con w) s (Z.of_nat (length (pending s)) - Z.of_nat (pending_off s)) ltac:(lia) ltac:(lia)) as Hn.
  destruct (next_chunk (con w) s _) as [n|]; cbn [fst snd].
  2:{ apply wp_ret. exists []. cbn [fst snd]. rewrite insert_id, app_nil_r by done. split; [done|]. split; [done|]. split; [apply sends_refl|]. split; [by destruct s|]. split; [done|].
      exists []. split; [by split; [apply Forall_nil|]|]. split; [done|]. split; [cbn; lia|]. split; [cbn; lia|]. split; [done|]. intros _ _ E. exfalso. apply (proj1 (tail_parked s)); [done | exact E]. }
  destruct Hn as (Hn & Hsw & Hcw & Hmf). set (s' := s <| pending_off := _ |> <| send_window := _ |>). set (last := _ && _).
  assert (Htl : tail s = take (Z.to_nat n) (drop (pending_off s) (pending s)) ++ tail s') by (unfold tail, s'; cbn; rewrite <- drop_drop, take_drop; done).
  assert (Hlast : last = true -> tail s' = []).
  { unfold last, tail, s'. cbn. intros [E _]%andb_prop. apply Nat.eqb_eq in E. rewrite drop_ge by lia. done. }
  assert (Hl' : (length (tail s') < fuel)%nat).
  { apply (f_equal length) in Htl. rewrite length_app, length_take, length_drop in Htl. lia. }
  apply wp_bind. apply (send_data_ok nothing nothing w m tr id s s'); try done.
  - apply stream_sent; [by apply (c_streams _ _ (g_conn _ _ _ _ G) id) | apply (c_init _ _ (g_conn _ _ _ _ G)) | lia | lia].
  - by rewrite !app_nil_r.
  - intros E. rewrite app_nil_r. by apply Hlast.
  - intros w1 G1 Hr1 Hs1 Hc1. eapply wp_mono; [apply (IH s' w1 _ _ G1); [apply lookup_insert_eq | done]|].
    intros [s2 b] w2 (fs & G2 & Hr2 & Hs2 & Es & Hb & d & Hd & Etl & Hsw2 & Hcw2 & Hnil & Hend). cbn [fst snd] in *. rewrite insert_insert_eq in G2.
    exists (data_frm id (take (Z.to_nat n) (drop (pending_off s) (pending s))) last :: fs). rewrite fmap_cons. rewrite <- app_assoc in G2. split; [done|]. split; [congruence|].
    split; [by eapply sends_trans|]. split; [rewrite Es; by destruct s|]. split; [done|]. eexists. split; [by apply data_of_cons|]. split; [by rewrite Htl, Etl, app_assoc|].
    assert (El : length (take (Z.to_nat n) (drop (pending_off s) (pending s))) = Z.to_nat n) by (rewrite length_take, length_drop; lia). rewrite length_app, El.
    split; [rewrite Hsw2; unfold s'; cbn; lia|]. split; [rewrite Hcw2, Hc1; lia|].
    split; [intros E; exfalso; by apply (proj1 (tail_parked s) Hlt)|]. intros Hpe Hpk E2. destruct (decide (tail s' = [])) as [E'|E'].
    + rewrite (Hnil E'). exists (data_frm id (take (Z.to_nat n) (drop (pending_off s) (pending s))) last), []. split; [done|]. assert (last = true) as ->; [|done].
      unfold last. rewrite Hpe, andb_true_r. apply Nat.eqb_eq. unfold tail, s' in E'. cbn in E'. apply (f_equal length) in E'. rewrite length_drop in E'. cbn in E'. lia.
    + destruct Hend as (f & gs & -> & He); [done | by apply tail_parked | done|]. by exists f, (data_frm id (take (Z.to_nat n) (drop (pending_off s) (pending s))) last :: gs).
Qed.

Lemma write_response_headers_ok x w m tr id block es (Q : unit -> World T -> Prop) :
  good x w m tr -> 0 <= id < 2 ^ 31 -> (es = true -> forall q, reader_run tr = Some q -> owed q id = []) ->
  (forall w' fs, good x w' (if es then delete id m else m) (tr ++ (Out <$> fs)) -> header_seq (peer_max_frame (con w)) id block es fs ->
     reqs w' = reqs w -> sends (con w) (con w') -> conn_send_window (con w') = conn_send_window (con w) -> Q tt w') ->
  wp (write_response_headers id block es) w Q.
Proof.
  intros G Hid He HQ. unfold write_response_headers. apply wp_ask. destruct (header_frames_spec (peer_max_frame (con w)) id (c_max _ _ (g_conn _ _ _ _ G)) Hid block es (out w)) as (fs & E & Hseq).
  pose proof (good_headers _ _ _ _ _ _ _ _ G Hseq He) as G'. apply wp_bind. unfold wp at 1. rewrite E. destruct es.
  - apply (wp_release id _ m); [by apply (g_store _ _ _ _ G) | by apply (g_room _ _ _ _ G)|]. intros t Ht. apply (HQ _ fs); [|done|done|apply (sends_store (con w))|done].
    by apply (good_release x _ m _ id t G').
  - apply wp_ret. apply (HQ _ fs); [done|done|done|apply sends_refl|done].
Qed.

Lemma reader_tail w m tr q id s : good nothing w m tr -> reader_run tr = Some q -> m !! id = Some s -> owed q id = tail s.
Proof. intros G Hq Hid. destruct (t_reader _ _ _ _ (g_trace _ _ _ _ G)) as (q' & E & H). assert (q' = q) as -> by congruence. by rewrite (H _ _ Hid), app_nil_r. Qed.

(** The rest of a response: its bytes, then its end if it was asked for. *)
Definition answered (mf id : Z) (s : StreamState) (fs : list frm) (left : option StreamState) : Prop :=
  exists ds hs, fs = ds ++ hs /\ data_of id ds (tail s) /\
    if pending_end s then hs = [] /\ left = None /\ (parked s -> exists f gs, ds = gs ++ [f] /\ ends f = true)
    else if trailers_pending s then header_seq mf id (trailers s) true hs /\ left = None
    else hs = [].

(** Windows that let all of a response out do not block it. *)
Lemma open_not_blocked c c' s s' d : tail s = d ++ tail s' -> send_window s' = send_window s - Z.of_nat (length d) -> conn_send_window c' = conn_send_window c - Z.of_nat (length d) ->
  Z.of_nat (length (tail s)) <= send_window s -> Z.of_nat (length (tail s)) <= conn_send_window c -> parked s' -> ~ blocked c' s'.
Proof.
  intros E H1 H2 H3 H4 Hp%tail_parked Hb. apply (f_equal length) in E. rewrite length_app in E. destruct (tail s') as [|? ?]; [done|]. cbn in E. destruct Hb; lia.
Qed.

Lemma flush_pending_ok id w m tr :
  good nothing w m tr ->
  wp (flush_pending id) w (fun _ w' => exists m' fs, good nothing w' m' (tr ++ (Out <$> fs)) /\ reqs w' = reqs w /\ sends (con w) (con w') /\
    (forall j, j <> id -> m' !! j = m !! j) /\ (forall s, m' !! id = Some s -> is_Some (m !! id) /\ calm (con w') s) /\
    (forall s, m !! id = Some s -> Z.of_nat (length (tail s)) <= send_window s -> Z.of_nat (length (tail s)) <= conn_send_window (con w) ->
       answered (peer_max_frame (con w)) id s fs (m' !! id))).
Proof.
  intros G. unfold flush_pending. apply (wp_get id _ w m); [by apply (g_store _ _ _ _ G)|]. destruct (m !! id) as [s|] eqn:Hid.
  2:{ apply wp_ret. exists m, []. rewrite app_nil_r. split; [done|]. split; [done|]. split; [apply sends_refl|]. split; [done|]. split; intros s Hs; congruence. }
  apply wp_bind. eapply wp_mono; [apply (pending_loop_ok _ id s w m tr G Hid); unfold tail; rewrite length_drop; lia|].
  intros [s' b] w1 (fs & G1 & Hr1 & Hs1 & Es & Hb & d & Hd & Etl & Hsw & Hcw & _ & Hend). cbn [fst snd] in *. destruct b.
  { apply wp_ret. exists (<[id := s']> m), fs. split; [done|]. split; [done|]. split; [done|]. split; [intros j Hj; by rewrite lookup_insert_ne|]. destruct Hb as [Hb1 Hb2]. split.
    - intros s2. rewrite lookup_insert_eq. intros [= <-]. split; [eauto | by split].
    - intros s2 [= <-] H1 H2. by destruct (open_not_blocked (con w) (con w1) s s' d). }
  assert (Hds : data_of id fs (tail s)) by (rewrite Etl, Hb, app_nil_r; done). clear d Hd Etl Hsw Hcw.
  assert (Epe' : pending_end s' = pending_end s) by (rewrite Es; done). assert (Etp' : trailers_pending s' = trailers_pending s) by (rewrite Es; done). assert (Etr' : trailers s' = trailers s) by (rewrite Es; done).
  assert (Hmf : peer_max_frame (con w1) = peer_max_frame (con w)) by (destruct Hs1 as (? & ? & -> & _); done).
  pose proof (lookup_insert_eq m id s') as Hid1. assert (Hoff : pending_off s' = length (pending s')).
  { pose proof (s_off _ _ (c_streams _ _ (g_conn _ _ _ _ G1) _ _ Hid1)). unfold tail in Hb. apply (f_equal length) in Hb. rewrite length_drop in Hb. cbn in Hb. lia. }
  rewrite (proj2 (Nat.eqb_eq _ _) Hoff). rewrite Epe', Etp'. destruct (pending_end s) eqn:Epe; [|destruct (trailers_pending s) eqn:Etp].
  - apply (wp_release id _ _ _ (g_store _ _ _ _ G1) (g_room _ _ _ _ G1)). intros t Ht. eexists _, fs. split; [by apply good_release|]. split; [done|]. split; [by eapply sends_trans; [|apply sends_store]|].
    split; [intros j Hj; by rewrite lookup_delete_ne, lookup_insert_ne|]. rewrite lookup_delete_eq. split; [done|].
    intros s2 [= <-] _ _. exists fs, []. rewrite app_nil_r. split; [done|]. split; [done|]. rewrite Epe. split; [done|]. split; [done|]. intros Hp. by apply Hend.
  - apply wp_bind. apply (wp_set id _ _ _ _ (g_store _ _ _ _ G1)); [rewrite lookup_insert_eq; eauto|]. intros t Ht.
    assert (G2 : good nothing (with_store w1 t) (<[id := s' <| trailers_pending := false |>]> (<[id := s']> m)) (tr ++ (Out <$> fs))).
    { apply (good_set nothing nothing w1 _ _ id s'); try done; [|by left]. destruct (c_streams _ _ (g_conn _ _ _ _ G1) _ _ Hid1). by split. }
    destruct (c_ids _ _ (g_conn _ _ _ _ G1) _ _ Hid1) as [[Hr _] _].
    apply (write_response_headers_ok _ _ _ _ _ _ _ _ G2); [lia| |].
    + intros _ q Hq. rewrite (reader_tail _ _ _ _ id (s' <| trailers_pending := false |>) G2 Hq); [exact Hb | apply lookup_insert_eq].
    + intros w2 fs2 G3 Hseq Hr2 Hs2 _. eexists _, (fs ++ fs2). rewrite fmap_app, app_assoc. split; [exact G3|]. split; [by rewrite Hr2|].
      split; [eapply sends_trans; [exact Hs1|]; eapply sends_trans; [apply (sends_store (con w1) t) | exact Hs2]|]. rewrite lookup_delete_eq. split; [intros j Hj; by rewrite lookup_delete_ne, !lookup_insert_ne|].
      split; [done|]. intros s2 [= <-] _ _. exists fs, fs2. split; [done|]. split; [done|]. rewrite Epe, Etp. split; [|done]. cbn in Hseq. by rewrite <- Hmf, <- Etr'.
  - apply wp_ret. exists (<[id := s']> m), fs. split; [done|]. split; [done|]. split; [done|]. split; [intros j Hj; by rewrite lookup_insert_ne|].
    split.
    + intros s2. rewrite lookup_insert_eq. intros [= <-]. split; [eauto|]. split; [intros Hp%tail_parked; congruence|]. intros [?|?]; congruence.
    + intros s2 [= <-] _ _. exists fs, []. rewrite app_nil_r. split; [done|]. split; [done|]. by rewrite Epe, Etp.
Qed.

Lemma calm_sends c c' s : sends c c' -> calm c s -> calm c' s.
Proof. intros Hs [H1 H2]. split; [|done]. intros Hp. eapply sends_blocked; [done | auto]. Qed.

(** A flush settles every stream it visits and leaves the others as they were. *)
Lemma flush_ids_ok l w m tr :
  good nothing w m tr -> (forall id s, m !! id = Some s -> id ∈ l \/ calm (con w) s) ->
  wp (flush_ids l) w (fun _ w' => exists m' fs, invariant w' m' (tr ++ (Out <$> fs)) /\ reqs w' = reqs w /\ sends (con w) (con w') /\
    (forall id, m' !! id = None \/ is_Some (m !! id))).
Proof.
  revert w m tr. induction l as [|id l IH]; intros w m tr G Hc; cbn [flush_ids].
  - apply wp_ret. exists m, []. rewrite app_nil_r. split; [split; [done|]|split; [done|split; [apply sends_refl|]]].
    + intros j s Hj. destruct (Hc _ _ Hj) as [H%not_elem_of_nil|]; done.
    + intros j. destruct (m !! j); [right; eauto | by left].
  - apply wp_bind. eapply wp_mono; [apply (flush_pending_ok id w m tr G)|]. intros _ w1 (m1 & fs & G1 & Hr1 & Hs1 & Hm1 & Hid1 & _).
    eapply wp_mono; [apply (IH w1 m1 _ G1)|].
    + intros j s Hj. destruct (decide (j = id)) as [->|Hne]; [right; by apply Hid1|]. rewrite Hm1 in Hj by done.
      destruct (Hc _ _ Hj) as [[?|?]%elem_of_cons|?]; [done | by left | right; by eapply calm_sends].
    + intros _ w2 (m2 & fs2 & G2 & Hr2 & Hs2 & Hm2). exists m2, (fs ++ fs2). rewrite fmap_app, app_assoc. split; [done|]. split; [congruence|]. split; [by eapply sends_trans|].
      intros j. destruct (Hm2 j) as [?|[s Hs]]; [by left|]. right. destruct (decide (j = id)) as [->|Hne]; [by destruct (Hid1 s Hs) | rewrite <- Hm1 by done; eauto].
Qed.

Lemma flush_all_ok w m tr :
  good nothing w m tr ->
  wp flush_all w (fun _ w' => exists m' fs, invariant w' m' (tr ++ (Out <$> fs)) /\ reqs w' = reqs w /\ sends (con w) (con w') /\ (forall id, m' !! id = None \/ is_Some (m !! id))).
Proof.
  intros G. unfold flush_all. apply wp_ask. apply flush_ids_ok; [done|]. intros id s Hs. left. apply (holds_ids _ m); [apply (g_store _ _ _ _ G) | eauto].
Qed.

Lemma control_rst id code : 0 <= id < 2 ^ 31 -> control (rst_frm id code).
Proof. intros H. split; [split; cbn; lia | cbn; rewrite ?length_be_bytes; unfold default_max_frame_size; lia | done]. Qed.

(** ** The calls of the application *)

Definition do_call (a : app_call) : cm T unit :=
  match a with
  | CallHeaders id block es => write_response_headers id block es
  | CallBody id data es => write_response_body id data es
  | CallTrailers id block => write_response_trailers id block
  | CallAbort id code => abort_stream id code
  end.

Definition call_id (a : app_call) : Z :=
  match a with CallHeaders id _ _ | CallBody id _ _ | CallTrailers id _ | CallAbort id _ => id end.

(** What of a stream's body waits for a window. *)
Definition parked_bytes (id : Z) w : list byte := match get_stream id w with Some (Some s, _) => tail s | _ => [] end.

Lemma parked_bytes_live w m id s : holds (store (con w)) m -> m !! id = Some s -> parked_bytes id w = tail s.
Proof. intros H Hs. unfold parked_bytes, get_stream, mbind, cm_bind, ask, lift. by rewrite (holds_get _ _ _ H), Hs. Qed.

(** Calls are for requests that were handed out. A response is not ended by an empty body
    while bytes of it are parked, nor by a head while bytes of it are unsent: both would
    end it without them. *)
Definition call_ok w tr (a : app_call) : Prop :=
  call_id a ∈ surfaced w /\
  match a with
  | CallHeaders id _ es => es = true -> data_sent id tr = written id tr
  | CallBody id data es => data = [] -> es = true -> parked_bytes id w = []
  | _ => True
  end.

(** What is still to come of a body, from [off] on. *)
Definition rest_of (id : Z) (data : list byte) (off : nat) : Z -> list byte := fun j => if j =? id then drop off data else [].

Lemma good_call w m tr a :
  good nothing w m tr -> call_id a ∈ surfaced w ->
  good (match a with CallBody id data _ => rest_of id data 0 | _ => nothing end) w m (tr ++ [Call a]).
Proof.
  intros [C G] Hs. split; [done|]. destruct G as [Ho Hf (p & Ep & Hp) (q & Eq & Hq) ? ? ? ? ? Hw]. split; try done.
  - by rewrite outs_app, app_nil_r.
  - by rewrite outs_app, app_nil_r.
  - exists p. split; [|done]. by rewrite peer_run_snoc, Ep.
  - destruct a as [id b es|id d es|id b|id c]; (eexists; split; [by rewrite reader_run_snoc, Eq|]); try done.
    intros j s Hj. unfold owed, rest_of. destruct (Z.eqb_spec j id) as [->|Hne].
    + rewrite lookup_insert_eq, drop_0. cbn. f_equal. pose proof (Hq _ _ Hj) as E. unfold owed in E. by rewrite E, app_nil_r.
    + rewrite lookup_insert_ne by done. by apply Hq.
  - intros j Hj. rewrite written_app, (Hw j Hj). unfold written. destruct a as [id b es|id d es|id b|id c]; cbn; try done.
    destruct (Z.eqb_spec id j) as [->|]; [by destruct Hj | done].
Qed.

Lemma body_loop_ok fuel id s data es off w m tr :
  good (rest_of id data off) w m tr -> m !! id = Some s -> (parked s -> blocked (con w) s) -> (off <= length data)%nat -> (length data - off < fuel)%nat ->
  wp (body_loop fuel id s data es off) w (fun r w' => exists fs, good (rest_of id data (r.1)) w' (<[id := r.2]> m) (tr ++ (Out <$> fs)) /\ reqs w' = reqs w /\ sends (con w) (con w') /\
    r.2 = s <| send_window := send_window (r.2) |> /\ (r.1 <= length data)%nat /\ ((r.1 < length data)%nat -> blocked (con w') (r.2)) /\ (parked s -> blocked (con w') (r.2))).
Proof.
  revert s off w m tr. induction fuel as [|fuel IH]; intros s off w m tr G Hid Hb Ho Hf; [lia|]. cbn [body_loop].
  destruct (Nat.leb_spec (length data) off) as [Hle|Hlt].
  { apply wp_ret. exists []. cbn [fst snd]. rewrite insert_id, app_nil_r by done. split; [done|]. split; [done|]. split; [apply sends_refl|]. split; [by destruct s|]. split; [done|]. split; [lia|done]. }
  apply wp_ask. pose proof (c_max _ _ (g_conn _ _ _ _ G)) as Hmax. unfold default_max_frame_size in Hmax.
  pose proof (next_chunk_spec (con w) s (Z.of_nat (length data) - Z.of_nat off) ltac:(lia) ltac:(lia)) as Hn.
  destruct (next_chunk (con w) s _) as [n|].
  2:{ apply wp_ret. exists []. cbn [fst snd]. rewrite insert_id, app_nil_r by done. split; [done|]. split; [done|]. split; [apply sends_refl|]. split; [by destruct s|]. split; [lia|]. by split. }
  destruct Hn as (Hn & Hsw & Hcw & Hmf). assert (Hnp : tail s = []).
  { destruct (decide (tail s = [])) as [|Hne]; [done|]. apply tail_parked in Hne. destruct (Hb Hne); lia. }
  set (s' := s <| send_window := _ |>). set (last := _ && _). assert (Hx : forall k, rest_of id data k id = drop k data) by (intros k; unfold rest_of; by rewrite Z.eqb_refl).
  apply wp_bind. apply (send_data_ok (rest_of id data off) (rest_of id data (off + Z.to_nat n)) w m tr id s s'); try done.
  - destruct (c_streams _ _ (g_conn _ _ _ _ G) _ _ Hid). pose proof (c_init _ _ (g_conn _ _ _ _ G)). split; cbn; try done. lia.
  - rewrite !Hx. change (tail s') with (tail s). rewrite Hnp, <- drop_drop. cbn [app]. by rewrite take_drop.
  - unfold last. intros [E _]%andb_prop. apply Nat.eqb_eq in E. rewrite Hx. change (tail s') with (tail s). rewrite Hnp, drop_ge by lia. done.
  - intros j Hj. unfold rest_of. by rewrite (proj2 (Z.eqb_neq _ _)).
  - intros w1 G1 Hr1 Hs1 Hc1. assert (Hnp' : parked s' -> blocked (con w1) s') by (intros Hp%tail_parked; by destruct Hp).
    eapply wp_mono; [apply (IH s' _ w1 _ _ G1); [apply lookup_insert_eq | done | lia | lia]|].
    intros [off2 s2] w2 (fs & G2 & Hr2 & Hs2 & Es & Ho2 & Hb2 & Hb3). cbn [fst snd] in *. rewrite insert_insert_eq in G2.
    exists (data_frm id (take (Z.to_nat n) (drop off data)) last :: fs). rewrite fmap_cons. rewrite <- app_assoc in G2. split; [done|]. split; [congruence|].
    split; [by eapply sends_trans|]. split; [rewrite Es; by destruct s|]. split; [done|]. split; [done|]. intros Hp%tail_parked. congruence.
Qed.

Lemma invariant_release w m tr id t : invariant w m tr -> holds t (delete id m) -> invariant (with_store w t) (delete id m) tr.
Proof. intros [G Hs] Ht. split; [by apply good_release|]. intros j s [_ Hj]%lookup_delete_Some. by apply (Hs _ _ Hj). Qed.

Lemma settled_other c c' m m' id : settled c m -> sends c c' -> (forall j, j <> id -> m' !! j = m !! j) -> (forall s, m' !! id = Some s -> calm c' s) -> settled c' m'.
Proof.
  intros Hs Hc Hm Hid j s Hj. destruct (decide (j = id)) as [->|Hne]; [by apply Hid|]. rewrite Hm in Hj by done. eapply calm_sends; [done | by apply (Hs _ _ Hj)].
Qed.

Lemma empty_body_ok w m tr id es s :
  invariant w m tr -> m !! id = Some s -> call_ok w tr (CallBody id [] es) ->
  wp (if es then append_out (fun o => write_data_header o id 0 true);; release_stream id else mret tt) w
    (fun _ w' => exists m' fs, invariant w' m' (tr ++ [Call (CallBody id [] es)] ++ (Out <$> fs)) /\ reqs w' = reqs w /\ sends (con w) (con w')).
Proof.
  intros [G Hset] Hid [Hsf Hok]. assert (G2 : good nothing w m (tr ++ [Call (CallBody id [] es)])).
  { apply (good_ext _ _ _ _ _ (good_call _ _ _ _ G Hsf)). intros j. cbn. unfold rest_of. by destruct (j =? id). }
  destruct es; [|apply wp_ret; exists m, []; split; [by split | split; [done | apply sends_refl]]].
  destruct (t_reader _ _ _ _ (g_trace _ _ _ _ G)) as (q & Eq & Hq). assert (Htl : [] = tail s) by (by rewrite <- (parked_bytes_live w m id s (g_store _ _ _ _ G) Hid), (Hok eq_refl eq_refl)).
  apply wp_bind, wp_append. apply (wp_release id _ m); [apply (g_store _ _ _ _ G) | by apply (g_room _ _ _ _ G)|]. intros t Ht.
  exists (delete id m), [data_frm id [] true]. split; [|split; [done | apply (sends_store (con w))]].
  destruct (c_ids _ _ (g_conn _ _ _ _ G) _ _ Hid) as [[Hr _] _]. pose proof (c_max _ _ (g_conn _ _ _ _ G)) as Hmx. unfold default_max_frame_size in Hmx.
  assert (G3 := good_data nothing nothing w m _ id s s [] true (store (con w)) G2 Hid). cbv zeta in G3. rewrite insert_id in G3 by done. cbn [length] in G3.
  change (Z.of_nat 0) with 0 in G3. rewrite !Z.sub_0_r in G3. rewrite <- (write_data (out w) id ltac:(lia) [] true) in G3. rewrite (app_nil_r (write_data_header _ _ _ _)) in G3. cbn [length] in G3. change (Z.of_nat 0) with 0 in G3.
  replace ((con w) <| conn_send_window := conn_send_window (con w) |> <| store := store (con w) |>) with (con w) in G3 by (by destruct (con w)).
  specialize (G3 (or_introl eq_refl) ltac:(lia) eq_refl (c_streams _ _ (g_conn _ _ _ _ G) _ _ Hid) eq_refl eq_refl ltac:(by rewrite <- Htl) (fun _ _ => eq_refl) (g_store _ _ _ _ G)).
  rewrite <- app_assoc in G3. by apply (invariant_release _ _ _ id t (conj G3 Hset)).
Qed.

Lemma write_response_body_ok w m tr id data es :
  invariant w m tr -> call_ok w tr (CallBody id data es) ->
  wp (write_response_body id data es) w (fun _ w' => exists m' fs, invariant w' m' (tr ++ [Call (CallBody id data es)] ++ (Out <$> fs)) /\ reqs w' = reqs w /\ sends (con w) (con w')).
Proof.
  intros [G Hset] [Hsf Hok]. pose proof (good_call _ _ _ _ G Hsf) as G1. cbn in G1. unfold write_response_body.
  apply (wp_get id _ w m); [by apply (g_store _ _ _ _ G)|]. assert (Hx : forall k, rest_of id data k id = drop k data) by (intros k; unfold rest_of; by rewrite Z.eqb_refl).
  assert (Hxn : forall k j, j <> id -> rest_of id data k j = []) by (intros k j Hj; unfold rest_of; by rewrite (proj2 (Z.eqb_neq _ _))).
  destruct (m !! id) as [s|] eqn:Hid.
  2:{ apply wp_ret. exists m, []. split; [|split; [done | apply sends_refl]]. split; [|done]. cbn. destruct G1 as [C1 [? ? ? (q & Eq & Hq) ? ? ? ? ? ?]]. split; [done|]. split; try done.
      exists q. split; [done|]. intros j s Hj. rewrite (Hq _ _ Hj). f_equal. apply Hxn. intros ->. congruence. }
  pose proof (Hset _ _ Hid) as [Hcalm1 Hcalm2]. destruct (Nat.eqb_spec (length data) 0) as [E0|E0].
  { apply length_zero_iff_nil in E0 as ->. by apply (empty_body_ok w m tr id es s). }
  apply wp_bind. eapply wp_mono; [apply (body_loop_ok _ id s data es 0 w m _ G1 Hid Hcalm1); lia|].
  intros [off s'] w1 (fs & G2 & Hr2 & Hs2 & Es & Hoff & Hb & Hb'). cbn [fst snd] in *. rewrite <- app_assoc in G2. destruct (Nat.ltb_spec off (length data)) as [Hlt|Hge].
  - apply (wp_set id _ _ _ _ (g_store _ _ _ _ G2)); [rewrite lookup_insert_eq; eauto|]. intros t Ht. set (s2 := s' <| pending := _ |> <| pending_end := _ |>) in *.
    assert (Hso : (pending_off s' <= length (pending s'))%nat) by (by apply (s_off _ _ (c_streams _ _ (g_conn _ _ _ _ G2) _ _ (lookup_insert_eq _ _ _)))).
    assert (Htl : tail s2 = tail s' ++ drop off data) by (unfold tail, s2; cbn; by rewrite drop_app_le).
    assert (Hpk : parked s2) by (apply tail_parked; rewrite Htl; intros E%app_nil; destruct E as [_ E]; apply (f_equal length) in E; rewrite length_drop in E; cbn in E; lia).
    exists (<[id := s2]> (<[id := s']> m)), fs. split; [|split; [done | eapply sends_trans; [done | apply sends_store]]]. split.
    + apply (good_set (rest_of id data off) nothing w1 _ _ id s'); try done; [apply lookup_insert_eq | | rewrite Hx, app_nil_r; done | by intros j Hj; rewrite Hxn | by left].
      destruct (c_streams _ _ (g_conn _ _ _ _ G2) _ _ (lookup_insert_eq _ _ _)). split; try done. unfold s2. cbn. rewrite length_app. lia.
    + eapply (settled_other (con w) _ m _ id Hset); [eapply sends_trans; [done | apply sends_store] | intros j Hj; by rewrite !lookup_insert_ne|].
      intros s3. rewrite lookup_insert_eq. intros [= <-]. split; [intros _; by apply Hb | by intros _].
  - assert (G3 : good nothing w1 (<[id := s']> m) (tr ++ [Call (CallBody id data es)] ++ (Out <$> fs))).
    { apply (good_ext _ _ _ _ _ G2). intros j. destruct (decide (j = id)) as [->|Hj]; [|by rewrite Hxn]. rewrite Hx, drop_ge by done. done. }
    assert (Hset' : settled (con w1) (<[id := s']> m)).
    { eapply (settled_other (con w) _ m _ id Hset); [done | intros j Hj; by rewrite lookup_insert_ne|]. intros s3. rewrite lookup_insert_eq. intros [= <-].
      rewrite Es. split; [intros Hp; rewrite <- Es; by apply Hb' | exact Hcalm2]. }
    destruct es; [|apply wp_ret; by exists (<[id := s']> m), fs].
    apply (wp_release id _ _ _ (g_store _ _ _ _ G2) (g_room _ _ _ _ G2)). intros t Ht. eexists _, fs. split; [by apply (invariant_release _ _ _ id t (conj G3 Hset'))|].
    split; [done|]. eapply sends_trans; [done | apply sends_store].
Qed.

Lemma call_reader_empty w m tr a q id :
  good nothing w m tr -> (data_sent id tr = written id tr \/ exists s, m !! id = Some s /\ tail s = []) -> (match a with CallBody _ _ _ => False | _ => True end) ->
  reader_run (tr ++ [Call a]) = Some q -> owed q id = [].
Proof.
  intros G Hw Ha Hq. rewrite reader_run_snoc in Hq. destruct (t_reader _ _ _ _ (g_trace _ _ _ _ G)) as (q0 & Eq & Hq0). rewrite Eq in Hq.
  assert (q = q0) as -> by (destruct a; cbn in Hq; [congruence|done|congruence|congruence]).
  destruct Hw as [Hw|(s & Hs & Ht)]; [by apply (owed_sent tr) | rewrite (Hq0 _ _ Hs); by rewrite Ht].
Qed.

Lemma surfaced_id w m tr id : good nothing w m tr -> id ∈ surfaced w -> 0 <= id < 2 ^ 31.
Proof.
  intros G Hs. unfold surfaced in Hs. apply list_elem_of_fmap in Hs as (r & -> & Hr). pose proof (t_reqs _ _ _ _ (g_trace _ _ _ _ G)) as Hall.
  rewrite Forall_forall in Hall. destruct (r_id _ (Hall _ Hr)). lia.
Qed.

(** Every call is defined, and keeps the invariant. *)
Lemma do_call_ok w m tr a :
  invariant w m tr -> call_ok w tr a ->
  wp (do_call a) w (fun _ w' => exists m' fs, invariant w' m' (tr ++ [Call a] ++ (Out <$> fs)) /\ reqs w' = reqs w /\ sends (con w) (con w')).
Proof.
  intros I Hok. destruct (I) as [G Hset]. destruct (Hok) as [Hsf Hc]. pose proof (surfaced_id _ _ _ _ G Hsf) as Hid. pose proof (good_call _ _ _ _ G Hsf) as G1.
  destruct a as [id b es|id d es|id b|id c]; cbn [do_call call_id] in *; [|by apply (write_response_body_ok w m)| |].
  - apply (write_response_headers_ok _ _ _ _ _ _ _ _ G1 Hid).
    + intros -> q Hq. apply (call_reader_empty w m tr (CallHeaders id b true)); [done | left; by apply Hc | done | exact Hq].
    + intros w' fs G2 _ Hr Hs Hcw. rewrite <- app_assoc in G2. eexists _, fs. split; [|by split]. split; [exact G2|]. intros j s Hj. eapply calm_sends; [done|]. apply (Hset j).
      destruct es; [by apply lookup_delete_Some in Hj as [_ ?] | done].
  - unfold write_response_trailers. apply (wp_get id _ w m); [by apply (g_store _ _ _ _ G)|]. destruct (m !! id) as [s|] eqn:Em.
    2:{ apply wp_ret. exists m, []. split; [by split | split; [done | apply sends_refl]]. }
    destruct (Nat.ltb_spec (pending_off s) (length (pending s))) as [Hp|Hp].
    + apply (wp_set id _ _ _ _ (g_store _ _ _ _ G)); [eauto|]. intros t Ht. exists (<[id := s <| trailers := b |> <| trailers_pending := true |>]> m), []. split; [|split; [done | apply sends_store]]. split.
      * apply (good_set nothing nothing w m _ id s); try done; [|by left]. destruct (c_streams _ _ (g_conn _ _ _ _ G) _ _ Em). by split.
      * eapply (settled_other (con w) _ m _ id Hset); [apply sends_store | intros j Hj; by rewrite lookup_insert_ne|]. intros s2. rewrite lookup_insert_eq. intros [= <-].
        destruct (Hset _ _ Em) as [H1 _]. split; [exact H1 | done].
    + apply (write_response_headers_ok _ _ _ _ _ _ _ _ G1 Hid).
      * intros _ q Hq. apply (call_reader_empty w m tr (CallTrailers id b)); [done | right; exists s; split; [done | unfold tail; by rewrite drop_ge by lia] | done | exact Hq].
      * intros w' fs G2 _ Hr Hs Hcw. rewrite <- app_assoc in G2. eexists _, fs. split; [|by split]. split; [exact G2|]. intros j s2 [_ Hj]%lookup_delete_Some. eapply calm_sends; [done|]. by apply (Hset j).
  - unfold abort_stream. apply wp_bind, wp_append. rewrite write_rst by done.
    assert (G2 := good_control _ _ _ _ (rst_frm id c) G1). apply (wp_release id _ m); [apply (g_store _ _ _ _ G) | by apply (g_room _ _ _ _ G)|]. intros t Ht.
    exists (delete id m), [rst_frm id c]. split; [|split; [done | apply (sends_store (con w))]]. rewrite <- app_assoc in G2.
    apply (invariant_release (mkWorld (con w) (out w ++ wire [rst_frm id c]) (reqs w)) m _ id t); [|done]. split; [|done]. apply G2. by apply control_rst.
Qed.
End Send.
