(* ===== verification/H2Recv.v ===== *)
(** The receiving half of the HTTP/2 connection keeps the invariant: header blocks, and
    every frame. *)
From stdpp Require Import gmap.
From S2P Require Import Prelude WireBytes H2Frame StreamTable Huffman Hpack H2Conn H2Store H2Trace H2Inv H2Send.
Local Open Scope Z_scope.

(** ** Numbers in a payload *)

Lemma read_u32_some bs off : (off + 4 <= length bs)%nat -> exists v, read_u32 bs off = Some v /\ 0 <= v < 2 ^ 32.
Proof.
  intros Hl. unfold read_u32, at_.
  destruct (lookup_lt_is_Some_2 bs off) as [b0 E0]; [lia|]. destruct (lookup_lt_is_Some_2 bs (off + 1)%nat) as [b1 E1]; [lia|].
  destruct (lookup_lt_is_Some_2 bs (off + 2)%nat) as [b2 E2]; [lia|]. destruct (lookup_lt_is_Some_2 bs (off + 3)%nat) as [b3 E3]; [lia|].
  rewrite E0, E1, E2, E3. cbn -[Z.lor Z.shiftl be_val]. eexists. split; [done|]. rewrite read4. apply (be_val_range [b0; b1; b2; b3]).
Qed.

Lemma dependency_some bs off : (off + 4 <= length bs)%nat -> exists v, dependency bs off = Some v /\ 0 <= v < 2 ^ 31.
Proof.
  intros Hl. destruct (read_u32_some bs off Hl) as (v & E & Hv). exists (v mod 2 ^ 31). unfold dependency. rewrite E. cbn [mbind option_bind].
  change 0x7fffffff with (Z.ones 31). rewrite Z.land_ones by lia. split; [done|]. apply Z.mod_pos_bound. lia.
Qed.

Lemma dependency_be_bytes inc : 0 <= inc < 2 ^ 31 -> dependency (be_bytes 4 inc) 0 = Some inc.
Proof.
  intros Hi. destruct (read_u32_some (be_bytes 4 inc) 0) as (v & E & _); [rewrite length_be_bytes; lia|]. unfold dependency. rewrite E. cbn [mbind option_bind].
  assert (v = inc) as ->. { pose proof (be_val_be_bytes_small 4 inc) as H. unfold read_u32 in E. cbn -[Z.lor Z.shiftl byte_of_Z byte_val be_val] in E. rewrite read4 in E. injection E as <-. apply H. lia. }
  change 0x7fffffff with (Z.ones 31). rewrite Z.land_ones by lia. by rewrite Z.mod_small.
Qed.

Section Recv.
Context {T : Type} `{!StreamStore T} `{!StoreLaws T}.
Implicit Types (w : World T) (c : ServerConn T) (m : gmap Z StreamState) (tr : list event) (x : Z -> list byte).
Abbreviation nothing := (fun _ : Z => @nil byte).

(** ** Header blocks *)

(** Nothing but the assembly of a header block differs. *)
Record same_streams c c' : Prop := {
  ss_store : store c' = store c; ss_last : last_stream c' = last_stream c; ss_recv : conn_recv_window c' = conn_recv_window c;
  ss_send : conn_send_window c' = conn_send_window c; ss_init : init_send_window c' = init_send_window c; ss_max : peer_max_frame c' = peer_max_frame c }.

Lemma good_assembly x w m tr c' :
  good x w m tr -> same_streams (con w) c' -> decoder_inv (dec c') -> Z.of_nat (length (hdr_block c')) <= max_header_block -> hdr_expecting c' = false ->
  good x (mkWorld c' (out w) (reqs w)) m tr.
Proof.
  intros [C G] [E1 E2 E3 E4 E5 E6] Hd Hb He. split.
  - destruct C. split; cbn [con]; rewrite ?E1, ?E2, ?E3, ?E4, ?E5, ?E6; try done. congruence.
  - destruct G as [Ho Hf (p & Ep & Hp) Hq ? ? ? ? ? ?]. split; cbn [con out reqs]; rewrite ?E2; try done; [|congruence].
    exists p. split; [done|]. destruct Hp. split; rewrite ?E2, ?E4, ?E5, ?E6; try done. congruence.
Qed.

(** A new stream enters. *)
Lemma good_open w m tr id s t :
  good nothing w m tr -> hdr_expecting (con w) = false -> odd_id id -> id <= last_stream (con w) -> m !! id = None -> (size m < 128)%nat -> id ∉ surfaced w ->
  (exists p, peer_run tr = Some p /\ p_win p !! id = Some (init_send_window (con w))) ->
  stream_ok (init_send_window (con w)) s -> send_window s = init_send_window (con w) -> tail s = [] -> holds t (<[id := s]> m) ->
  good nothing (with_store w t) (<[id := s]> m) tr.
Proof.
  intros [C G] He Hodd Hlast Hm Hsz Hns (p & Ep & Hpw) Hok Hsw Htl Ht. split.
  - destruct C. split; cbn [with_store con]; try done.
    + cbn. rewrite map_size_insert_None by done. lia.
    + intros j s' [[<- _]|[_ Hj]]%lookup_insert_Some; [done | by apply (c_ids j s')].
    + intros j s' [[_ <-]|[_ Hj]]%lookup_insert_Some; [done | by apply (c_streams j s')].
    + intros He'. cbn in He'. congruence.
  - destruct G as [Ho Hf (p' & Ep' & Hp) (q & Eq & Hq) ? ? ? Hop ? Hw]. assert (p' = p) as -> by congruence. split; cbn [with_store con out reqs]; try done.
    + exists p. split; [done|]. destruct Hp. split; cbn; try done. intros j s' [[<- <-]|[_ Hj]]%lookup_insert_Some; [by rewrite Hsw | by apply p_win_eq].
    + exists q. split; [done|]. intros j s' [[<- <-]|[_ Hj]]%lookup_insert_Some; [|by apply Hq]. rewrite Htl. apply (owed_written tr); [done | by apply Hw].
    + intros j s' [[<- <-]|[_ Hj]]%lookup_insert_Some; [by intros _ | by apply Hop].
Qed.

(** The request side of a stream ends. [s] is the stream as the frame at hand left it. *)
Lemma complete_stream_ok w m tr id s0 s t :
  good nothing w m tr -> settled (con w) m -> hdr_expecting (con w) = false -> m !! id = Some s0 -> remote_done s0 = false ->
  stream_ok (init_send_window (con w)) (s <| remote_done := true |>) -> send_window s = send_window s0 -> tail s = tail s0 -> calm (con w) s ->
  holds t (<[id := s]> m) ->
  wp (complete_stream id) (with_store w t) (fun _ w' => exists m' fs, invariant w' m' (tr ++ (Out <$> fs)) /\ reqs w `prefix_of` reqs w').
Proof.
  intros G Hset He Hid Hrd Hok Hsw Htl Hcalm Ht. unfold complete_stream. apply (wp_get id _ (with_store w t) (<[id := s]> m)); [exact Ht|]. rewrite lookup_insert_eq.
  apply wp_bind. apply (wp_set id _ (with_store w t) (<[id := s]> m)); [exact Ht | rewrite lookup_insert_eq; eauto|]. intros t' Ht'. rewrite insert_insert_eq in Ht'.
  set (s1 := s <| remote_done := true |>) in *. assert (G1 : good nothing (with_store w t') (<[id := s1]> m) tr).
  { apply (good_set nothing nothing w m tr id s0); try done; [|by right]. by rewrite !app_nil_r. }
  change (with_store (with_store w t) t') with (with_store w t').
  assert (Hset1 : settled (con (with_store w t')) (<[id := s1]> m)).
  { eapply (settled_other (con w) _ m _ id Hset); [apply sends_store | intros j Hj; by rewrite lookup_insert_ne|]. intros s2. rewrite lookup_insert_eq. intros [= <-]. exact Hcalm. }
  destruct (c_ids _ _ (g_conn _ _ _ _ G) _ _ Hid) as [Hodd Hle]. assert (Hr : 0 <= id < 2 ^ 31) by (destruct Hodd; lia). destruct (rejected s) eqn:Erej.
  { apply (wp_release id _ _ _ (g_store _ _ _ _ G1) (g_room _ _ _ _ G1)). intros t2 Ht2. eexists _, []. rewrite app_nil_r. split; [by apply invariant_release | done]. }
  destruct ((0 <=? declared_len s) && negb (declared_len s =? Z.of_nat (length (body s)))) eqn:Elen.
  - apply wp_bind, wp_append. rewrite write_rst by done. assert (G2 := good_control _ _ _ _ _ G1 (control_rst id ProtocolError Hr)).
    apply (wp_release id _ _ _ (g_store _ _ _ _ G2) (g_room _ _ _ _ G2)). intros t2 Ht2. exists (delete id (<[id := s1]> m)), [rst_frm id ProtocolError].
    split; [|done]. by apply (invariant_release (mkWorld (con (with_store w t')) (out w ++ wire [rst_frm id ProtocolError]) (reqs w)) _ _ id t2 (conj G2 Hset1)).
  - apply wp_bind. destruct (holds_storage _ _ id (g_store _ _ _ _ G1)) as [a Ea]; [rewrite lookup_insert_eq; eauto|]. unfold wp at 1, mbind, cm_bind, ask, lift. rewrite Ea.
    unfold wp, surface. eexists _, []. rewrite app_nil_r. split; [|by apply prefix_app_r]. split; [|exact Hset1].
    apply (good_surface nothing _ _ tr id s1); try done; [apply lookup_insert_eq | by apply (t_open _ _ _ _ (g_trace _ _ _ _ G) id s0)|].
    destruct Hok. split; cbn; [done | | done]. exists (declared_len s). split; [by apply s_valid|]. intros Hd. rewrite (proj2 (Z.leb_le _ _) Hd) in Elen. cbn in Elen. by apply negb_false_iff, Z.eqb_eq in Elen.
Qed.

Definition field_bytes (fields : list HeaderField) : list byte := concat ((fun f => hname f ++ hvalue f) <$> fields).

Lemma fields_size_acc fields n : foldl (fun n f => n + (length (hname f) + length (hvalue f)))%nat n fields = (n + length (field_bytes fields))%nat.
Proof. revert n. induction fields as [|f fields IH]; intros n; cbn; [lia|]. rewrite IH, !length_app. unfold field_bytes. lia. Qed.

Lemma store_field_eq s f : store_field s f = s <| headers := headers s ++ [f] |> <| hdr_bytes := hdr_bytes s ++ hname f ++ hvalue f |>.
Proof.
  unfold store_field, hdr_copy. destruct f as [[|a n] [|b v]]; cbn; rewrite ?app_nil_r, <- ?app_assoc; by destruct s.
Qed.

Lemma store_fields_eq fields s : foldl store_field s fields = s <| headers := headers s ++ fields |> <| hdr_bytes := hdr_bytes s ++ field_bytes fields |>.
Proof.
  revert s. induction fields as [|f fields IH]; intros s; cbn [foldl].
  - rewrite !app_nil_r. by destruct s.
  - rewrite IH, store_field_eq. cbn. rewrite <- !app_assoc. by destruct s.
Qed.

(** The copied fields fit the storage reserved for them, so no view into it moves. *)
Lemma store_headers_spec fields s : headers s = [] -> hdr_bytes s = [] ->
  exists cap, store_headers fields s = s <| headers := fields |> <| hdr_bytes := field_bytes fields |> <| hdr_cap := cap |> /\ (length (field_bytes fields) <= cap)%nat.
Proof.
  intros H1 H2. unfold store_headers, fields_size. rewrite fields_size_acc. cbn [Nat.add]. rewrite store_fields_eq.
  destruct (Nat.ltb_spec (hdr_cap s) (length (field_bytes fields))).
  - exists (length (field_bytes fields)). split; [|lia]. cbn. by rewrite H1.
  - exists (hdr_cap s). split; [|lia]. rewrite H1, H2. by destruct s.
Qed.

Lemma wp_new {B} id (k : unit -> cm T B) w m Q :
  holds (store (con w)) m -> id <> 0 -> m !! id = None -> (size m < stream_slots)%nat ->
  (forall t cap, holds t (<[id := opened (init_send_window (con w)) cap]> m) -> wp (k tt) (with_store w t) Q) -> wp (new_stream id ≫= k) w Q.
Proof.
  intros H H0 Hn Hs HQ. destruct (holds_new _ _ id (init_send_window (con w)) H H0 Hn Hs) as (t & cap & E & Ht).
  unfold new_stream, wp, mbind, cm_bind, ask, on_store. rewrite E. by apply (HQ t cap).
Qed.

Definition ends_frame w tr (e : ErrorCode) w' : Prop :=
  if decide (e = NoError) then exists m' fs, invariant w' m' (tr ++ (Out <$> fs)) /\ reqs w `prefix_of` reqs w'
  else out w' = out w /\ reqs w' = reqs w /\ 0 <= last_stream (con w') < 2 ^ 31 /\ e <> InternalError.

(** What is known of the stream a finished header block is for. *)
Definition block_for w m tr : Prop :=
  let c := con w in
  (odd_id (hdr_stream c) /\ hdr_stream c <= last_stream c) /\
  (hdr_new c -> m !! hdr_stream c = None /\ (size m < 128)%nat /\ (hdr_stream c ∉ surfaced w) /\
     exists p, peer_run tr = Some p /\ p_win p !! hdr_stream c = Some (init_send_window c)) /\
  (hdr_trailers c = true -> forall s, m !! hdr_stream c = Some s -> remote_done s = false).

(** The stream a header block opens. *)
Definition stored (init : Z) (fields : list HeaderField) (cap : nat) (bad : bool) (len : Z) : StreamState :=
  mkStream fields [] false bad len default_window_size init [] 0 false [] false (field_bytes fields) cap.

Lemma stored_ok init fields cap bad len :
  0 <= init <= max_window -> (length (field_bytes fields) <= cap)%nat -> (bad = false -> validate_request_fields fields = (true, len)) ->
  stream_ok init (stored init fields cap bad len).
Proof. intros Hi Hc Hv. split; cbn; try done. unfold max_window. lia. Qed.

Lemma with_store_same w : with_store w (store (con w)) = w.
Proof. unfold with_store. destruct w as [c o r]. cbn. f_equal. by destruct c. Qed.

(** [complete_stream] on a stream as it stands. *)
Lemma complete_here w m tr id s :
  good nothing w m tr -> settled (con w) m -> hdr_expecting (con w) = false -> m !! id = Some s -> remote_done s = false ->
  wp (complete_stream id) w (fun _ w' => exists m' fs, invariant w' m' (tr ++ (Out <$> fs)) /\ reqs w `prefix_of` reqs w').
Proof.
  intros G Hset He Hid Hrd. rewrite <- (with_store_same w) at 1.
  apply (complete_stream_ok w m tr id s s); try done; [| by apply (Hset id) | rewrite insert_id by done; by apply (g_store _ _ _ _ G)].
  destruct (c_streams _ _ (g_conn _ _ _ _ G) _ _ Hid). rewrite Hrd in *. split; cbn; try done. rewrite s_recv. unfold default_window_size. lia.
Qed.

Lemma ends_frame_ok w0 w1 w tr0 fs0 :
  reqs w1 = reqs w0 -> (exists m' fs, invariant w m' ((tr0 ++ (Out <$> fs0)) ++ (Out <$> fs)) /\ reqs w1 `prefix_of` reqs w) -> ends_frame w0 tr0 NoError w.
Proof. intros Hr (m' & fs & I & Hp). unfold ends_frame. rewrite decide_True by done. exists m', (fs0 ++ fs). rewrite fmap_app, app_assoc. split; [done|]. by rewrite <- Hr. Qed.

(** The block of a new stream. *)
Lemma open_stream_ok w m tr id fields bad len es :
  good nothing w m tr -> settled (con w) m -> hdr_expecting (con w) = false -> odd_id id -> id <= last_stream (con w) -> m !! id = None -> (size m < 128)%nat -> id ∉ surfaced w ->
  (exists p, peer_run tr = Some p /\ p_win p !! id = Some (init_send_window (con w))) -> (bad = false -> validate_request_fields fields = (true, len)) ->
  wp (open_stream id fields bad len es) w (ends_frame w tr).
Proof.
  intros G Hset He Hodd Hle Hm Hsz Hns Hp Hv. assert (Hr : 0 <= id < 2 ^ 31) by (destruct Hodd; lia). unfold open_stream.
  apply (wp_new id _ w m); [by apply (g_store _ _ _ _ G) | destruct Hodd; lia | done | by apply (g_room _ _ _ _ G)|]. intros t cap Ht.
  apply (wp_get id _ (with_store w t) _ _ Ht). rewrite lookup_insert_eq. destruct (store_headers_spec fields (opened (init_send_window (con w)) cap)) as (cap' & Es & Hcap); [done | done|].
  rewrite Es. change ((opened _ cap) <| headers := fields |> <| hdr_bytes := _ |> <| hdr_cap := cap' |> <| rejected := bad |> <| declared_len := len |>) with (stored (init_send_window (con w)) fields cap' bad len).
  set (s := stored (init_send_window (con w)) fields cap' bad len). apply wp_bind. apply (wp_set id _ (with_store w t) _ _ Ht); [rewrite lookup_insert_eq; eauto|]. intros t1 Ht1. rewrite insert_insert_eq in Ht1.
  change (with_store (with_store w t) t1) with (with_store w t1).
  assert (G1 : good nothing (with_store w t1) (<[id := s]> m) tr).
  { apply good_open; try done. apply stored_ok; [apply (g_conn _ _ _ _ G) | done | done]. }
  assert (Hset1 : settled (con (with_store w t1)) (<[id := s]> m)).
  { eapply (settled_other (con w) _ m _ id Hset); [apply sends_store | intros j Hj; by rewrite lookup_insert_ne|]. intros s2. rewrite lookup_insert_eq. intros [= <-]. split; [unfold parked; cbn; lia | by intros [?|?]]. }
  apply wp_bind. set (fs0 := if bad then [rst_frm id ProtocolError] else []).
  assert (Hb : wp (if bad then append_out (fun o => write_rst_stream o id ProtocolError) else mret tt) (with_store w t1)
    (fun _ w' => good nothing w' (<[id := s]> m) (tr ++ (Out <$> fs0)) /\ settled (con w') (<[id := s]> m) /\ reqs w' = reqs w /\ con w' = con (with_store w t1))).
  { unfold fs0. destruct bad; [|apply wp_ret; by rewrite app_nil_r]. apply wp_append. rewrite write_rst by done. split; [by apply good_control; [|apply control_rst]|]. done. }
  eapply wp_mono; [exact Hb|]. intros _ w2 (G2 & Hset2 & Hr2 & Hc2). apply wp_bind. destruct es.
  - eapply wp_mono; [apply (complete_here w2 _ _ id s G2 Hset2); [by rewrite Hc2 | apply lookup_insert_eq | done]|].
    intros _ w3 (m' & fs & I & Hpre). apply wp_ret. unfold ends_frame. rewrite decide_True by done. exists m', (fs0 ++ fs). rewrite fmap_app, app_assoc. split; [done|]. by rewrite <- Hr2.
  - apply wp_ret, wp_ret. unfold ends_frame. rewrite decide_True by done. exists (<[id := s]> m), fs0. split; [by split|]. by rewrite Hr2.
Qed.

Lemma wp_decode {B} (k : option (list HeaderField) -> cm T B) w Q d fields e :
  decode_into (hdr_block (con w)) (dec (con w)) = (d, fields, e) ->
  wp (k (match e with Some _ => None | None => Some fields end)) (mkWorld ((con w) <| dec := d |>) (out w) (reqs w)) Q -> wp (decode_block ≫= k) w Q.
Proof. intros E H. unfold decode_block, wp, mbind, cm_bind, ask, upd, mret, cm_ret. by rewrite E. Qed.

Lemma finish_header_block_ok w m tr :
  good nothing w m tr -> settled (con w) m -> block_for w m tr -> wp finish_header_block w (ends_frame w tr).
Proof.
  intros G Hset (Hhs & Hnew & Htr). unfold finish_header_block. apply wp_upd.
  destruct (decode_into (hdr_block (con w)) (dec (con w))) as [[d fields] e] eqn:Edec.
  assert (Hd : decoder_inv d).
  { unfold decode_into in Edec. apply decode_loop_inv in Edec as (Hi & _); [done | apply (g_conn _ _ _ _ G) | done | done | cbn; lia | lia | lia]. }
  eapply wp_decode; [exact Edec|]. cbn [con out reqs]. set (c1 := (con w) <| hdr_expecting := false |> <| dec := d |>).
  assert (G1 : good nothing (mkWorld c1 (out w) (reqs w)) m tr).
  { apply good_assembly; [done | by split | done | apply (g_conn _ _ _ _ G) | done]. }
  destruct e as [err|]; [apply wp_ret; repeat split; try done; apply (g_conn _ _ _ _ G)|].
  apply wp_ask. change (hdr_stream (con (mkWorld c1 (out w) (reqs w)))) with (hdr_stream (con w)). set (id := hdr_stream (con w)) in *. cbn [con].
  change (hdr_trailers c1) with (hdr_trailers (con w)). change (hdr_refused c1) with (hdr_refused (con w)). change (hdr_malformed c1) with (hdr_malformed (con w)). change (hdr_end_stream c1) with (hdr_end_stream (con w)).
  assert (Hr : 0 <= id < 2 ^ 31) by (destruct Hhs as [[? _] _]; lia). destruct (hdr_trailers (con w)) eqn:Etr; [destruct (valid_trailer_fields fields); cbn [negb]|].
  - apply wp_bind. destruct (m !! id) as [s|] eqn:Em.
    + eapply wp_mono; [apply (complete_here (mkWorld c1 (out w) (reqs w)) m tr id s G1 Hset eq_refl Em); by apply Htr|]. intros ? w2 H2. apply wp_ret. unfold ends_frame. by rewrite decide_True.
    + unfold complete_stream. apply (wp_get id _ _ m); [apply (g_store _ _ _ _ G1)|]. rewrite Em. apply wp_ret, wp_ret. unfold ends_frame. rewrite decide_True by done.
      exists m, []. rewrite app_nil_r. split; [by split | done].
  - apply wp_bind, wp_append. rewrite write_rst by done. assert (G2 := good_control _ _ _ _ _ G1 (control_rst id ProtocolError Hr)). apply wp_bind.
    apply (wp_release id _ _ _ (g_store _ _ _ _ G2) (g_room _ _ _ _ G2)). intros t2 Ht2. apply wp_ret. unfold ends_frame. rewrite decide_True by done.
    exists (delete id m), [rst_frm id ProtocolError]. split; [|done]. by apply (invariant_release (mkWorld c1 (out w ++ wire [rst_frm id ProtocolError]) (reqs w)) _ _ id t2 (conj G2 Hset)).
  - destruct (hdr_refused (con w)) eqn:Eref.
    + apply wp_bind, wp_append. rewrite write_rst by done. apply wp_ret. unfold ends_frame. rewrite decide_True by done. exists m, [rst_frm id RefusedStream]. split; [|done].
      split; [|done]. by apply (good_control _ (mkWorld c1 (out w) (reqs w)) _ _ _ G1), control_rst.
    + destruct (Hnew (conj Etr Eref)) as (H1 & H2 & H3 & H4). destruct (validate_request_fields fields) as [ok len] eqn:Ev.
      apply (wp_mono _ _ (ends_frame (mkWorld c1 (out w) (reqs w)) tr)); [|done].
      apply (open_stream_ok (mkWorld c1 (out w) (reqs w)) m); try done; [apply Hhs | apply Hhs|]. intros Hbad. rewrite Ev. apply orb_false_iff in Hbad as [_ Hok]. by destruct ok.
Qed.

(** ** Frames *)

Lemma good_in w w' m m' tr fh payload :
  good nothing w m tr -> conn_ok (con w') m' -> out w' = out w -> reqs w' = reqs w ->
  (forall p, in_step (con w) m p -> in_step (con w') m' (peer_sends fh payload p)) ->
  (forall id s', m' !! id = Some s' -> exists s, m !! id = Some s /\ tail s' = tail s /\ remote_done s' = remote_done s) ->
  last_stream (con w) <= last_stream (con w') -> (hdr_expecting (con w') = true -> hdr_new (con w') -> hdr_stream (con w') ∉ surfaced w) ->
  good nothing w' m' (tr ++ [In fh payload]).
Proof.
  intros [C G] C' Ho Hr Hp Hm Hl Hn. split; [done|]. destruct G as [Ho' Hf (p & Ep & Hst) (q & Eq & Hq) Hreq Hbel Honce Hop _ Hw]. unfold surfaced in *. split; rewrite ?Ho, ?Hr; unfold surfaced; rewrite ?Hr; try done.
  - by rewrite outs_app, app_nil_r.
  - by rewrite outs_app, app_nil_r.
  - exists (peer_sends fh payload p). split; [by rewrite peer_run_snoc, Ep | by apply Hp].
  - exists q. split; [by rewrite reader_run_snoc, Eq|]. intros id s' Hs'. destruct (Hm _ _ Hs') as (s & Hs & -> & _). by apply Hq.
  - intros id Hid. specialize (Hbel _ Hid). lia.
  - intros id s' Hs' Hrd. destruct (Hm _ _ Hs') as (s & Hs & _ & E). apply (Hop _ _ Hs). congruence.
  - intros id Hid. by rewrite written_app, (Hw id Hid).
Qed.

Section Frame.
Context (w : World T) (m : gmap Z StreamState) (tr : list event) (fh : FrameHeader) (payload : list byte) (ft : FrameType).
Context (G : good nothing w m tr) (Hset : settled (con w) m).
Context (Hft : frame_type_of (fh_type fh) = Some ft) (Hh : header_ok fh) (Hsmall : Z.of_nat (length payload) <= default_max_frame_size).
Abbreviation tr' := (tr ++ [In fh payload]).
Abbreviation id := (fh_stream_id fh).

Lemma fail_ok e : e <> NoError -> e <> InternalError -> ends_frame w tr' e w.
Proof. intros H1 H2. unfold ends_frame. rewrite decide_False by done. repeat split; try done; apply (g_conn _ _ _ _ G). Qed.

Lemma done_ok w' m' fs : good nothing w' m' (tr' ++ (Out <$> fs)) -> settled (con w') m' -> reqs w' = reqs w -> ends_frame w tr' NoError w'.
Proof. intros G' Hs Hr. unfold ends_frame. rewrite decide_True by done. exists m', fs. split; [by split | by rewrite Hr]. Qed.

Lemma neutral_in : ft <> FtHeaders -> ft <> FtWindowUpdate -> ft <> FtSettings -> good nothing w m tr'.
Proof. intros H1 H2 H3. apply good_input; [done|]. intros p. unfold peer_sends. rewrite Hft. by destruct ft. Qed.

(** [write_rst_stream] and [release_stream]. *)
Lemma reset_ok w1 m1 j code : good nothing w1 m1 tr' -> settled (con w1) m1 -> reqs w1 = reqs w -> 0 <= j < 2 ^ 31 ->
  wp (append_out (fun o => write_rst_stream o j code);; release_stream j) w1 (fun _ w' => ends_frame w tr' NoError w').
Proof.
  intros G1 Hs1 Hr Hj. apply wp_bind, wp_append. rewrite write_rst by done. assert (G2 := good_control _ _ _ _ _ G1 (control_rst j code Hj)).
  apply (wp_release j _ _ _ (g_store _ _ _ _ G2) (g_room _ _ _ _ G2)). intros t Ht. unfold ends_frame. rewrite decide_True by done. exists (delete j m1), [rst_frm j code].
  split; [|by rewrite <- Hr]. by apply (invariant_release (mkWorld (con w1) (out w1 ++ wire [rst_frm j code]) (reqs w1)) _ _ j t (conj G2 Hs1)).
Qed.

Lemma release_ok : ft = FtRstStream \/ ft = FtPriority -> wp (release_stream id) w (fun _ w' => ends_frame w tr' NoError w').
Proof.
  intros Hf. assert (G1 : good nothing w m tr') by (apply neutral_in; destruct Hf as [->| ->]; done).
  apply (wp_release id _ _ _ (g_store _ _ _ _ G1) (g_room _ _ _ _ G1)). intros t Ht. unfold ends_frame. rewrite decide_True by done. exists (delete id m), []. rewrite app_nil_r.
  split; [|done]. by apply invariant_release.
Qed.

Lemma on_ping_ok : ft = FtPing -> wp (on_ping fh payload) w (ends_frame w tr').
Proof.
  intros Hf. unfold on_ping. destruct (Z.eqb_spec id 0); cbn [negb]; [|by apply wp_ret, fail_ok]. destruct (Nat.eqb_spec (length payload) 8) as [E8|]; cbn [negb]; [|by apply wp_ret, fail_ok].
  assert (G1 : good nothing w m tr') by (apply neutral_in; by rewrite Hf). apply wp_bind. destruct (flagged fh flag_ack).
  - apply wp_ret, wp_ret. apply (done_ok w m []); [by rewrite app_nil_r | done | done].
  - apply wp_append, wp_ret. rewrite write_ping_ack_frm by done. apply (done_ok _ m [ping_ack_frm payload]); [|done|done]. apply good_control; [done|].
    split; [split; [by vm_compute | cbn; lia | cbn; rewrite E8; lia] | cbn; rewrite E8; unfold default_max_frame_size; lia | done].
Qed.

Lemma on_goaway_ok : ft = FtGoaway -> wp (on_goaway fh payload) w (ends_frame w tr').
Proof.
  intros Hf. apply wp_ret. destruct (Z.eqb_spec id 0); cbn [negb]; [|by apply fail_ok]. destruct (Nat.ltb_spec (length payload) 8); [by apply fail_ok|].
  apply (done_ok w m []); [rewrite app_nil_r; apply neutral_in; by rewrite Hf | done | done].
Qed.

Lemma on_priority_ok : ft = FtPriority -> wp (on_priority fh payload) w (ends_frame w tr').
Proof.
  intros Hf. unfold on_priority. destruct (Z.eqb_spec id 0); [by apply wp_ret, fail_ok|]. destruct (Nat.eqb_spec (length payload) 5) as [E5|]; cbn [negb]; [|by apply wp_ret, fail_ok].
  destruct (dependency_some payload 0) as (dep & E & _); [lia|]. eapply wp_lift; [exact E|]. assert (G1 : good nothing w m tr') by (apply neutral_in; by rewrite Hf). apply wp_bind.
  destruct (dep =? id).
  - eapply wp_mono; [by apply (reset_ok w m id ProtocolError G1 Hset eq_refl); apply Hh|]. intros ? w1 H1. by apply wp_ret.
  - apply wp_ret, wp_ret. apply (done_ok w m []); [by rewrite app_nil_r | done | done].
Qed.

Lemma on_rst_stream_ok : ft = FtRstStream -> wp (on_rst_stream fh payload) w (ends_frame w tr').
Proof.
  intros Hf. unfold on_rst_stream. apply wp_ask. destruct ((id =? 0) || _); [by apply wp_ret, fail_ok|]. destruct (_ =? 4)%nat; cbn [negb]; [|by apply wp_ret, fail_ok].
  apply wp_bind. eapply wp_mono; [apply release_ok; by left|]. intros ? w1 H1. by apply wp_ret.
Qed.

Lemma strip_padding_ok : strip_padding fh payload = Some (inr ProtocolError) \/
  exists off e, strip_padding fh payload = Some (inl (off, e)) /\ (off <= e <= length payload)%nat.
Proof.
  unfold strip_padding. destruct (flagged fh flag_padded); [|right; exists O, (length payload); split; [done | lia]].
  destruct (Nat.ltb_spec (length payload) 1); [by left|]. destruct (lookup_lt_is_Some_2 payload 0) as [b E]; [lia|].
  unfold at_. rewrite E. cbn [mbind option_bind fmap option_fmap option_map]. pose proof (byte_val_range b). destruct (Z.ltb_spec (Z.of_nat (length payload)) (1 + byte_val b)); [by left|].
  right. eexists _, _. split; [done | lia].
Qed.

Lemma control_window j inc : 0 <= j < 2 ^ 31 -> control (window_frm j inc).
Proof. intros H. split; [split; cbn; lia | cbn; rewrite ?length_be_bytes; unfold default_max_frame_size; lia | done]. Qed.

Abbreviation flow := (Z.of_nat (length payload)).

(** The end of the request, in a DATA frame that made [s0] into [s]. *)
Lemma data_end_ok s0 s t w1 fs0 : hdr_expecting (con w) = false -> good nothing w1 m (tr' ++ (Out <$> fs0)) -> con w1 = con w -> reqs w1 = reqs w ->
  m !! id = Some s0 -> remote_done s0 = false ->
  stream_ok (init_send_window (con w)) (s <| remote_done := true |>) -> send_window s = send_window s0 -> tail s = tail s0 -> calm (con w) s -> holds t (<[id := s]> m) ->
  wp (complete_stream id) (with_store w1 t) (fun _ w' => wp (mret NoError) w' (ends_frame w tr')).
Proof.
  intros He G1 Hc Hr Hid Hrd Hok Hsw Htl Hcalm Ht. eapply wp_mono; [apply (complete_stream_ok w1 m (tr' ++ (Out <$> fs0)) id s0 s); try done; by rewrite Hc|].
  intros ? w' H. apply wp_ret. by apply (ends_frame_ok _ w1 _ _ fs0).
Qed.

(** The world inside a DATA frame: the windows it used are not given back yet. *)
Definition used (t : T) : World T := mkWorld ((con w) <| conn_recv_window := conn_recv_window (con w) - flow |> <| store := t |>) (out w) (reqs w).

Lemma given_back t o : mkWorld ((con w) <| conn_recv_window := conn_recv_window (con w) - flow + flow |> <| store := t |>) o (reqs w) = with_store (mkWorld (con w) o (reqs w)) t.
Proof. unfold with_store. cbn [con out reqs]. rewrite Z.sub_add. by destruct (con w). Qed.

Lemma data_settled s s' t o : m !! id = Some s -> (parked s' <-> parked s) -> send_window s' = send_window s -> pending_end s' = pending_end s -> trailers_pending s' = trailers_pending s ->
  settled (con (with_store (mkWorld (con w) o (reqs w)) t)) (<[id := s']> m).
Proof.
  intros Hid Hp Hs E1 E2. eapply (settled_other (con w) _ m _ id Hset); [apply sends_store | intros j Hj; by rewrite lookup_insert_ne|].
  intros s2. rewrite lookup_insert_eq. intros [= <-]. destruct (Hset _ _ Hid) as [H1 H2]. split; [|rewrite E1, E2, Hp; done]. rewrite Hp. unfold blocked. rewrite Hs. exact H1.
Qed.

Lemma take_data_ok s off e t :
  hdr_expecting (con w) = false -> ft = FtData -> (off <= e <= length payload)%nat -> m !! id = Some s -> remote_done s = false ->
  holds t (<[id := s <| recv_window := recv_window s - flow |>]> m) ->
  wp (take_data fh payload (s <| recv_window := recv_window s - flow |>) off e) (used t) (ends_frame w tr').
Proof.
  intros He Hf Hoff Hid Hrd Ht. assert (G1 : good nothing w m tr') by (apply neutral_in; by rewrite Hf). unfold take_data. cbn zeta. change (rejected (s <| recv_window := recv_window s - flow |>)) with (rejected s). change (body (s <| recv_window := recv_window s - flow |>)) with (body s).
  destruct (c_ids _ _ (g_conn _ _ _ _ G) _ _ Hid) as [Hodd Hle]. assert (Hr : 0 <= id < 2 ^ 31) by (destruct Hodd; lia).
  destruct (negb (rejected s) && (max_body_bytes <? Z.of_nat (length (body s)) + (Z.of_nat e - Z.of_nat off))) eqn:Ebig; [apply wp_ret; repeat split; try done; apply (g_conn _ _ _ _ G)|].
  set (b := if rejected s then body s else body s ++ take (e - off) (drop off payload)).
  assert (Hb : Z.of_nat (length b) <= max_body_bytes).
  { unfold b. destruct (rejected s); cbn [negb andb] in Ebig; [by apply (s_body _ _ (c_streams _ _ (g_conn _ _ _ _ G) _ _ Hid))|].
    apply Z.ltb_ge in Ebig. rewrite length_app, length_take, length_drop. lia. }
  replace (if rejected s then _ else _) with (s <| recv_window := recv_window s - flow |> <| body := b |>) by (unfold b; by destruct s as [? ? ? []]).
  clearbody b. cbn zeta. destruct (c_streams _ _ (g_conn _ _ _ _ G) _ _ Hid) as [S1 S2 S3 S4 S5 S6]. rewrite Hrd in S1.
  apply wp_bind, (wp_set id _ (used t) _ _ Ht); [rewrite lookup_insert_eq; eauto|]. intros t1 Ht1. rewrite insert_insert_eq in Ht1.
  set (s1 := s <| recv_window := recv_window s - flow |> <| body := b |>) in *. set (s2 := s1 <| recv_window := recv_window s1 + flow |>).
  assert (Hend : stream_ok (init_send_window (con w)) (s1 <| remote_done := true |>)).
  { split; cbn; try done. rewrite S1. unfold default_window_size, default_max_frame_size in *. lia. }
  assert (Hok : stream_ok (init_send_window (con w)) s2) by (split; cbn; rewrite ?Hrd; try done; rewrite S1; lia).
  apply wp_bind. destruct (Z.ltb_spec 0 flow) as [Hpos|Hz].
  - apply wp_bind, wp_append, wp_upd. cbn [con out reqs with_store used]. rewrite write_window by (unfold default_max_frame_size in Hsmall; lia).
    assert (G2 := good_control _ _ _ _ _ G1 (control_window 0 flow ltac:(lia))). destruct (flagged fh flag_end_stream) eqn:Ees.
    + apply wp_ret, wp_bind. change (mkWorld _ (out w ++ ?o) _) with (mkWorld ((con w) <| conn_recv_window := conn_recv_window (con w) - flow + flow |> <| store := t1 |>) (out w ++ o) (reqs w)).
      rewrite given_back. apply (data_end_ok s s1 t1 _ [window_frm 0 flow]); try done. exact (Hset id s Hid).
    + apply wp_bind, wp_append. cbn [out]. rewrite write_window by (unfold default_max_frame_size in Hsmall; lia).
      assert (G3 := good_control _ _ _ _ _ G2 (control_window id flow Hr)).
      apply (wp_set id _ _ (<[id := s1]> m)); [exact Ht1 | rewrite lookup_insert_eq; eauto|]. intros t2 Ht2. rewrite insert_insert_eq in Ht2. fold s2 in Ht2. apply wp_ret, wp_ret.
      match goal with |- ends_frame _ _ _ ?x => change x with (mkWorld ((con w) <| conn_recv_window := conn_recv_window (con w) - flow + flow |> <| store := t2 |>) ((out w ++ wire [window_frm 0 flow]) ++ wire [window_frm id flow]) (reqs w)) end.
      rewrite given_back. apply (done_ok _ (<[id := s2]> m) [window_frm 0 flow; window_frm id flow]); [| by apply (data_settled s) | done].
      apply (good_set nothing nothing _ _ _ id s); try done; [|by left]. cbn [fmap list_fmap]. by rewrite <- app_assoc in G3.
  - assert (E : with_store (used t) t1 = with_store w t1) by (unfold with_store, used; cbn [con out reqs]; replace (conn_recv_window (con w) - flow) with (conn_recv_window (con w)) by lia; by destruct (con w)). rewrite E. apply wp_ret. apply wp_bind. destruct (flagged fh flag_end_stream).
    + apply (data_end_ok s s1 t1 w []); try done. by rewrite app_nil_r. exact (Hset id s Hid).
    + apply wp_ret, wp_ret. apply (done_ok _ (<[id := s1]> m) []); [| by apply (data_settled s)| done].  rewrite app_nil_r.
      apply (good_set nothing nothing _ _ _ id s); try done; [|by left]. split; cbn; rewrite ?Hrd; try done. rewrite S1. lia.
Qed.

Lemma on_data_ok : hdr_expecting (con w) = false -> ft = FtData -> wp (on_data fh payload) w (ends_frame w tr').
Proof.
  intros He Hf. unfold on_data. destruct (Z.eqb_spec id 0); [by apply wp_ret, fail_ok|]. pose proof (g_store _ _ _ _ G) as Hst. apply (wp_has id _ w m _ Hst). case_bool_decide as Hs; cbn [negb].
  2: { apply wp_ask, wp_ret, fail_ok; by destruct (_ <? _). }
  apply (wp_get id _ w m _ Hst). destruct Hs as [s Hid]. rewrite Hid. destruct (remote_done s) eqn:Hrd; [by apply wp_ret, fail_ok|]. apply wp_upd, wp_bind.
  apply (wp_set id _ (mkWorld _ _ _) m); [exact Hst | eauto|]. intros t Ht. apply wp_ask. pose proof (c_streams _ _ (g_conn _ _ _ _ G) _ _ Hid) as [S1 _ _ _ _ _]. rewrite Hrd in S1.
  pose proof (c_recv _ _ (g_conn _ _ _ _ G)) as Hcr. unfold default_max_frame_size, default_window_size in *.
  cbn [con with_store]. rewrite (proj2 (Z.ltb_ge _ _)) by (cbn; lia). rewrite (proj2 (Z.ltb_ge _ _)) by (cbn; lia). cbn [orb].
  destruct strip_padding_ok as [Ep|(off & e & Ep & Hoff)]; (eapply wp_lift; [exact Ep|]).
  - apply wp_ret. repeat split; try done; apply (g_conn _ _ _ _ G).
  - by apply (take_data_ok s off e t).
Qed.

(** *** HEADERS and CONTINUATION *)

(** What [on_headers] leaves when the frame is for [id]. *)
Record claims c c' : Prop := {
  k_store : store c' = store c; k_recv : conn_recv_window c' = conn_recv_window c; k_send : conn_send_window c' = conn_send_window c;
  k_init : init_send_window c' = init_send_window c; k_max : peer_max_frame c' = peer_max_frame c; k_dec : dec c' = dec c;
  k_block : Z.of_nat (length (hdr_block c')) <= max_header_block; k_id : hdr_stream c' = id;
  k_for : (hdr_trailers c' = true /\ last_stream c' = last_stream c /\ exists s, m !! id = Some s /\ remote_done s = false) \/
          (hdr_trailers c' = false /\ last_stream c' = id /\ last_stream c < id /\ m !! id = None /\ (hdr_refused c' = false -> (size m < 128)%nat)) }.

Lemma claims_last c' : odd_id id -> claims (con w) c' -> last_stream (con w) <= last_stream c' /\ id <= last_stream c' /\ last_stream c' < 2 ^ 31.
Proof.
  intros Hodd K. pose proof (g_conn _ _ _ _ G) as C. destruct (k_for _ _ K) as [(_ & -> & s & Hs & _)|(_ & -> & Hlt & _)]; [|destruct Hodd; lia].
  pose proof (c_last _ _ C). destruct (c_ids _ _ C _ _ Hs). lia.
Qed.

Lemma claims_new c' : claims (con w) c' -> hdr_new c' -> m !! id = None /\ (size m < 128)%nat /\ last_stream (con w) < id /\ id ∉ surfaced w.
Proof.
  intros K [Ht Hr]. destruct (k_for _ _ K) as [(? & _)|(_ & _ & Hlt & Hn & Hsz)]; [congruence|]. split; [done|]. split; [by apply Hsz|]. split; [done|].
  intros Hin. pose proof (t_below _ _ _ _ (g_trace _ _ _ _ G) _ Hin). lia.
Qed.

(** The peer opens the stream too. *)
Lemma claims_peer c' p : ft = FtHeaders -> odd_id id -> claims (con w) c' -> in_step (con w) m p ->
  in_step c' m (peer_sends fh payload p) /\ (hdr_new c' -> p_win (peer_sends fh payload p) !! id = Some (init_send_window c')).
Proof.
  intros Hf Hodd K Hp. pose proof (claims_last c' Hodd K) as Hlast. unfold peer_sends. rewrite Hft, Hf.
  assert (Hnew : hdr_new c' -> p_win (match p_win p !! id with None => p <| p_win := <[id := p_init p]> (p_win p) |> | Some _ => p end) !! id = Some (init_send_window c')).
  { intros Hn. destruct (claims_new _ K Hn) as (_ & _ & Hlt & _). destruct (p_win p !! id) as [z|] eqn:Ew; [pose proof (p_win_last _ _ _ Hp _ _ Ew); lia|]. cbn.
    rewrite lookup_insert_eq, (k_init _ _ K). f_equal. apply Hp. }
  split; [|done]. destruct Hp, K. split; rewrite ?k_send0, ?k_init0, ?k_max0; try by destruct (p_win p !! id).
  - intros j s Hj. destruct (p_win p !! id) eqn:Ew; [by apply p_win_eq|]. cbn. rewrite lookup_insert_ne; [by apply p_win_eq|]. intros <-. rewrite (p_win_eq _ _ Hj) in Ew. done.
  - intros j z. destruct (p_win p !! id) eqn:Ew; cbn; [|rewrite lookup_insert_Some; intros [[<- _]|[_ Hj]]; [lia|revert Hj]]; intros Hj; specialize (p_win_last _ _ Hj); lia.
  - intros _ Hn. rewrite k_id0. rewrite k_init0 in Hnew. by apply Hnew.
Qed.

Lemma claims_ok c' : ft = FtHeaders -> odd_id id -> claims (con w) c' ->
  good nothing (mkWorld c' (out w) (reqs w)) m tr' /\ block_for (mkWorld c' (out w) (reqs w)) m tr'.
Proof.
  intros Hf Hodd K. destruct (t_peer _ _ _ _ (g_trace _ _ _ _ G)) as (p & Ep & Hp). pose proof (g_conn _ _ _ _ G) as C.
  pose proof (claims_last c' Hodd K) as Hlast. pose proof (claims_new c' K) as Hnew.
  assert (Htr : hdr_trailers c' = true -> forall s, m !! id = Some s -> remote_done s = false).
  { intros Ht s Hs. destruct (k_for _ _ K) as [(_ & _ & s' & Hs' & Hrd)|(? & _)]; congruence. }
  split.
  - apply (good_in w _ m); cbn [con out reqs]; try done; [| |by eauto|lia|].
    + destruct C, K. split; rewrite ?k_store0, ?k_recv0, ?k_send0, ?k_init0, ?k_max0, ?k_dec0; try done; [|lia|].
      * intros j s Hj. destruct (c_ids j s Hj). split; [done | lia].
      * intros _. rewrite k_id0. split; [split; [done | lia]|]. split; [|done]. intros Hn. by destruct (Hnew Hn) as (? & ? & _).
    + intros p' Hp'. by apply claims_peer.
    + intros _ Hn. rewrite (k_id _ _ K). by apply Hnew.
  - unfold block_for. cbn [con]. rewrite (k_id _ _ K). split; [split; [done | lia]|]. split; [|done]. intros Hn. destruct (Hnew Hn) as (? & ? & _ & ?). split; [done|]. split; [done|]. split; [done|].
    exists (peer_sends fh payload p). split; [by rewrite peer_run_snoc, Ep | by apply claims_peer].
Qed.

Lemma good_block x w1 m1 tr1 b : good x w1 m1 tr1 -> Z.of_nat (length b) <= max_header_block -> good x (mkWorld ((con w1) <| hdr_block := b |>) (out w1) (reqs w1)) m1 tr1.
Proof.
  intros [C Tr] Hb. split; [destruct C; by split|]. destruct Tr as [? ? (p & Ep & Hp) ? ? ? ? ? ? ?]. split; try done. exists p. split; [done|]. destruct Hp. by split.
Qed.

Lemma on_continuation_ok : ft = FtContinuation -> wp (on_continuation fh payload) w (ends_frame w tr').
Proof.
  intros Hf. unfold on_continuation. apply wp_ask. destruct (hdr_expecting (con w)) eqn:He; cbn [negb orb]; [|by apply wp_ret, fail_ok].
  destruct (Z.eqb_spec id (hdr_stream (con w))) as [Eid|]; cbn [negb]; [|by apply wp_ret, fail_ok].
  destruct (Z.ltb_spec max_header_block (Z.of_nat (length (hdr_block (con w))) + Z.of_nat (length payload))) as [|Hb]; [by apply wp_ret, fail_ok|].
  apply wp_upd. assert (G1 : good nothing w m tr') by (apply neutral_in; by rewrite Hf).
  assert (G2 := good_block _ _ _ _ (hdr_block (con w) ++ payload) G1 ltac:(rewrite length_app; lia)). destruct (flagged fh flag_end_headers).
  - match goal with |- wp _ ?w1 _ => apply (wp_mono _ _ (ends_frame w1 tr')); [|done] end. apply (finish_header_block_ok _ m); [done | done|].
    destruct (c_hdr _ _ (g_conn _ _ _ _ G) He) as (H1 & H2 & H3). split; [done|]. split; [|done]. intros Hn. destruct (H2 Hn). split; [done|]. split; [done|].
    split; [by apply (t_new _ _ _ _ (g_trace _ _ _ _ G))|]. destruct (t_peer _ _ _ _ (g_trace _ _ _ _ G1)) as (p & Ep & Hp). exists p. split; [done|]. by apply (p_win_new _ _ _ Hp).
  - apply wp_ret. apply (done_ok _ m []); [by rewrite app_nil_r | done | done].
Qed.

Lemma strip_priority_ok off e : (off <= e <= length payload)%nat -> strip_priority fh payload off e = Some (inr ProtocolError) \/
  exists self off', strip_priority fh payload off e = Some (inl (self, off')).
Proof.
  intros Ho. unfold strip_priority. destruct (flagged fh flag_priority); [|right; by exists false, off]. destruct (Nat.ltb_spec e (off + 5)); [by left|].
  destruct (dependency_some payload off) as (v & -> & _); [lia|]. right. by eexists _, _.
Qed.

Lemma claim_stream_ok bad : hdr_expecting (con w) = false -> ft = FtHeaders -> odd_id id ->
  let c1 := (con w) <| hdr_trailers := false |> <| hdr_refused := false |> <| hdr_malformed := bad |> in
  wp (claim_stream fh) (mkWorld c1 (out w) (reqs w)) (fun r w' => match r with
    | Some e => ends_frame w tr' e w'
    | None => exists c', w' = mkWorld c' (out w) (reqs w) /\ hdr_expecting c' = false /\
        forall b es, Z.of_nat (length b) <= max_header_block -> claims (con w) (c' <| hdr_stream := id |> <| hdr_end_stream := es |> <| hdr_block := b |>)
    end).
Proof.
  intros He Hf Hodd c1. unfold claim_stream. pose proof (g_conn _ _ _ _ G) as C. apply (wp_get id _ (mkWorld c1 (out w) (reqs w)) m); [apply (g_store _ _ _ _ G)|].
  assert (Hfail : forall e, e <> NoError -> e <> InternalError -> ends_frame w tr' e (mkWorld c1 (out w) (reqs w))).
  { intros e H1 H2. unfold ends_frame. rewrite decide_False by done. repeat split; try done; apply C. }
  destruct (m !! id) as [s|] eqn:Em.
  - destruct (remote_done s) eqn:Hrd; [by apply wp_ret, Hfail|]. destruct (flagged fh flag_end_stream); cbn [negb]; [|by apply wp_ret, Hfail].
    apply wp_upd, wp_ret. eexists. split; [done|]. split; [done|]. intros b es Hb. split; cbn; try done. left. eauto.
  - apply wp_ask. cbn [con]. change (last_stream c1) with (last_stream (con w)). destruct (Z.leb_spec id (last_stream (con w))); [by apply wp_ret, Hfail|].
    apply wp_upd, wp_bind. change (store c1) with (store (con w)). rewrite (holds_len _ _ (g_store _ _ _ _ G)). destruct (Z.leb_spec max_concurrent_streams (Z.of_nat (size m))) as [|Hlt].
    + unfold wp at 1, upd. apply wp_ret. eexists. split; [done|]. split; [done|]. intros b es Hb. split; cbn; try done. right. repeat split; try done.
    + apply wp_ret, wp_ret. eexists. split; [done|]. split; [done|]. intros b es Hb. split; cbn; try done. right. repeat split; try done. intros _. unfold max_concurrent_streams in Hlt. lia.
Qed.

Lemma settled_same c' : conn_send_window c' = conn_send_window (con w) -> settled c' m.
Proof. intros E j s Hj. destruct (Hset j s Hj) as [S1 S2]. split; [|done]. intros Hp. destruct (S1 Hp) as [?|?]; [left; lia | by right]. Qed.

Lemma on_headers_ok : hdr_expecting (con w) = false -> ft = FtHeaders -> wp (on_headers fh payload) w (ends_frame w tr').
Proof.
  intros He Hf. unfold on_headers. destruct (Z.eqb_spec id 0) as [|H0]; [by apply wp_ret, fail_ok|]. destruct (Z.eqb_spec (Z.land id 1) 0) as [|H1]; cbn [orb]; [by apply wp_ret, fail_ok|].
  assert (Hodd : odd_id id) by (split; [destruct Hh; lia | done]).
  destruct strip_padding_ok as [Ep|(off & e & Ep & Hoff)]; (eapply wp_lift; [exact Ep|]); [by apply wp_ret, fail_ok|]. apply wp_upd.
  destruct (strip_priority_ok off e Hoff) as [Es|(self & off' & Es)]; (eapply wp_lift; [exact Es|]).
  - apply wp_ret. repeat split; try done; apply (g_conn _ _ _ _ G).
  - apply wp_bind. match goal with |- wp _ ?w1 ?Q => assert (Hk : Q tt (mkWorld ((con w) <| hdr_trailers := false |> <| hdr_refused := false |> <| hdr_malformed := self |>) (out w) (reqs w))) end; [|by destruct self].
    apply wp_bind. eapply wp_mono; [by apply claim_stream_ok|]. intros [err|] w1; [intros H; by apply wp_ret|]. intros (c' & -> & He' & K). apply wp_upd.
    assert (Hb : Z.of_nat (length (take (e - off') (drop off' payload))) <= max_header_block).
    { rewrite length_take, length_drop. unfold max_header_block, default_max_frame_size in *. lia. }
    specialize (K _ (flagged fh flag_end_stream) Hb). cbn [con out reqs]. destruct (flagged fh flag_end_headers).
    + destruct (claims_ok _ Hf Hodd K) as [G1 B1]. match goal with |- wp _ ?w1 _ => apply (wp_mono _ _ (ends_frame w1 tr')); [|done] end.
      apply (finish_header_block_ok _ m); [done | | done]. by apply settled_same, (k_send _ _ K).
    + apply wp_upd, wp_ret. match goal with |- ends_frame _ _ _ (mkWorld ?c2 _ _) => assert (K2 : claims (con w) c2) by (destruct K; split; done) end.
      destruct (claims_ok _ Hf Hodd K2) as [G1 _]. apply (done_ok _ m []); [by rewrite app_nil_r | | done].
      by apply settled_same, (k_send _ _ K2).
Qed.

(** *** SETTINGS *)

Abbreviation nonneg := (Forall (fun st => 0 <= set_val st)).

Lemma settings_loop_some n pos l : (pos + 6 * n <= length payload)%nat -> nonneg l -> exists l', settings_loop n payload pos l = Some l' /\ nonneg l'.
Proof.
  revert pos l. induction n as [|n IH]; intros pos l Hp Hl; [by exists l|]. cbn [settings_loop]. unfold at_ at 1 2.
  destruct (lookup_lt_is_Some_2 payload pos) as [b0 E0]; [lia|]. destruct (lookup_lt_is_Some_2 payload (pos + 1)%nat) as [b1 E1]; [lia|]. rewrite E0, E1. cbn [mbind option_bind fmap option_fmap option_map].
  destruct (read_u32_some payload (pos + 2)) as (v & -> & Hv); [lia|]. cbn [mbind option_bind]. apply IH; [lia|]. apply Forall_app. split; [done|]. apply Forall_singleton. cbn. lia.
Qed.

Lemma parse_settings_some : (exists e, parse_settings payload = Some (inr e)) \/ exists l, parse_settings payload = Some (inl l) /\ nonneg l.
Proof.
  unfold parse_settings. destruct (Nat.eqb_spec (length payload mod 6) 0) as [E|]; cbn [negb]; [|left; by eexists].
  right. destruct (settings_loop_some (length payload / 6) 0 []) as (l & -> & Hl); [|done|by exists l].
  pose proof (Nat.div_mod_eq (length payload) 6). lia.
Qed.

Lemma shifted_0 m1 : shifted 0 <$> m1 = m1.
Proof. rewrite <- (map_fmap_id m1) at 2. apply map_fmap_ext. intros j s _. unfold shifted. rewrite Z.add_0_r. by destruct s. Qed.

Lemma shifted_shifted a b m1 : shifted b <$> (shifted a <$> m1) = shifted (a + b) <$> m1.
Proof. rewrite <- map_fmap_compose. apply map_fmap_ext. intros j s _. unfold shifted. cbn. by rewrite Z.add_assoc. Qed.

(** The settings as the peer applies them, or an error. *)
Definition settings_post l (ch : bool) w1 m1 (r : bool + ErrorCode) w' : Prop := exists i f t,
  w' = mkWorld ((con w1) <| init_send_window := i |> <| peer_max_frame := f |> <| store := t |>) (out w1) (reqs w1) /\
  match r with
  | inr e => e <> NoError /\ e <> InternalError
  | inl ch' => apply_settings l (init_send_window (con w1)) (peer_max_frame (con w1)) = (i, f) /\ holds t (shifted (i - init_send_window (con w1)) <$> m1) /\
      (i = init_send_window (con w1) \/ (0 <= i <= max_window /\ ch' = true)) /\ (f = peer_max_frame (con w1) \/ default_max_frame_size <= f <= 16777215) /\ (ch = true -> ch' = true)
  end.

Lemma same_world w1 : w1 = mkWorld ((con w1) <| init_send_window := init_send_window (con w1) |> <| peer_max_frame := peer_max_frame (con w1) |> <| store := store (con w1) |>) (out w1) (reqs w1).
Proof. destruct w1 as [c ? ?]. by destruct c. Qed.

Lemma settings_err l ch w1 m1 e : e <> NoError -> e <> InternalError -> settings_post l ch w1 m1 (inr e) w1.
Proof. intros H1 H2. eexists _, _, _. split; [apply same_world | done]. Qed.

Lemma settings_apply_ok l ch w1 m1 : nonneg l -> holds (store (con w1)) m1 -> wp (settings_apply l ch) w1 (settings_post l ch w1 m1).
Proof.
  revert ch w1 m1. induction l as [|st l IH]; intros ch w1 m1 Hl Ht; cbn [settings_apply].
  { apply wp_ret. eexists _, _, _. split; [apply same_world|]. rewrite Z.sub_diag, shifted_0. repeat split; try done; by left. }
  apply Forall_cons in Hl as [Hst Hl]. destruct (set_id st =? setting_initial_window_size) eqn:E1; [|destruct (set_id st =? setting_max_frame_size) eqn:E2].
  - destruct (Z.ltb_spec max_window (set_val st)) as [|Hle]; [by apply wp_ret, settings_err|]. apply wp_ask, wp_upd, wp_bind.
    destruct (holds_adjust _ _ (set_val st - init_send_window (con w1)) Ht) as (t & Et & Ht').
    match goal with |- wp _ ?w2 _ => assert (E : on_store (st_adjust (set_val st - init_send_window (con w1))) w2 = Some (tt, with_store w2 t)) by (unfold on_store; cbn; by rewrite Et) end.
    unfold wp at 1. rewrite E. eapply wp_mono; [apply (IH true (with_store (mkWorld _ _ _) t) _ Hl Ht')|].
    intros r w' (i & f & t' & -> & Hr). exists i, f, t'. split; [done|]. destruct r as [ch'|e]; [|done]. destruct Hr as (H1 & H2 & H3 & H4 & H5). cbn in H1, H2, H3, H4. cbn [apply_settings].
    rewrite E1, (proj2 (Z.ltb_ge _ _)) by lia. split; [done|].
    rewrite shifted_shifted in H2. replace (set_val st - init_send_window (con w1) + (i - set_val st)) with (i - init_send_window (con w1)) in H2 by lia. split; [done|]. specialize (H5 eq_refl).
    split; [right; split; [lia | done]|]. by split.
  - destruct ((set_val st <? default_max_frame_size) || (16777215 <? set_val st)) eqn:Ef; [by apply wp_ret, settings_err|]. apply wp_upd.
    eapply wp_mono; [apply (IH ch (mkWorld ((con w1) <| peer_max_frame := set_val st |>) (out w1) (reqs w1)) m1 Hl); exact Ht|]. intros r w' (i & f & t' & -> & Hr). exists i, f, t'. split; [done|]. destruct r as [ch'|e]; [|done].
    destruct Hr as (H1 & H2 & H3 & H4 & H5). cbn in H1, H2, H3, H4. cbn [apply_settings]. rewrite E1, E2, Ef. repeat split; try done. apply orb_false_iff in Ef as [?%Z.ltb_ge ?%Z.ltb_ge]. destruct H4 as [->|?]; [right; lia | by right].
  - assert (Hgo : wp (settings_apply l ch) w1 (settings_post (st :: l) ch w1 m1)).
    { eapply wp_mono; [apply (IH ch _ m1 Hl Ht)|]. intros r w' (i & f & t' & -> & Hr). exists i, f, t'. split; [done|]. destruct r as [ch'|e]; [|done]. cbn [apply_settings]. by rewrite E1, E2. }
    destruct (set_id st =? setting_enable_push); [|done]. destruct (1 <? set_val st); [by apply wp_ret, settings_err | done].
Qed.

Lemma settings_in i f t : ft = FtSettings -> hdr_expecting (con w) = false -> flagged fh flag_ack = false ->
  (exists l, parse_settings payload = Some (inl l) /\ apply_settings l (init_send_window (con w)) (peer_max_frame (con w)) = (i, f)) ->
  0 <= i <= max_window -> default_max_frame_size <= f <= 16777215 -> holds t (shifted (i - init_send_window (con w)) <$> m) ->
  good nothing (mkWorld ((con w) <| init_send_window := i |> <| peer_max_frame := f |> <| store := t |>) (out w) (reqs w)) (shifted (i - init_send_window (con w)) <$> m) tr'.
Proof.
  intros Hf He Hack (l & El & Ea) Hi Hfr Ht. pose proof (g_conn _ _ _ _ G) as C. apply (good_in w _ m); cbn; try done; [| | |cbn; congruence].
  - destruct C. split; cbn; try done; [by rewrite map_size_fmap| | |congruence].
    + intros j s. rewrite lookup_fmap_Some. intros (s' & <- & Hs'). by apply (c_ids j s').
    + intros j s. rewrite lookup_fmap_Some. intros (s' & <- & Hs'). destruct (c_streams j s' Hs'). split; cbn; try done. lia.
  - intros p []. unfold peer_sends. rewrite Hft, Hf, Hack, El, p_init_eq, p_max_eq, Ea. split; cbn; try done.
    + intros j s. rewrite lookup_fmap_Some. intros (s' & <- & Hs'). by rewrite lookup_fmap, (p_win_eq _ _ Hs').
    + intros j z. rewrite lookup_fmap_Some. intros (z' & _ & Hz'). by apply (p_win_last j z').
    + congruence.
  - intros j s. rewrite lookup_fmap_Some. intros (s' & <- & Hs'). by exists s'.
Qed.

Lemma on_settings_ok : hdr_expecting (con w) = false -> ft = FtSettings -> wp (on_settings fh payload) w (ends_frame w tr').
Proof.
  intros He Hf. unfold on_settings. destruct (Z.eqb_spec id 0); cbn [negb]; [|by apply wp_ret, fail_ok]. destruct (flagged fh flag_ack) eqn:Hack.
  { apply wp_ret. destruct (length payload =? 0)%nat; [|by apply fail_ok]. apply (done_ok w m []); [|done|done]. rewrite app_nil_r. apply good_input; [done|]. intros p. unfold peer_sends. by rewrite Hft, Hf, Hack. }
  destruct parse_settings_some as [[msg E]|(l & E & Hl)]; (eapply wp_lift; [exact E|]); [by apply wp_ret, fail_ok|]. apply wp_bind.
  eapply wp_mono; [apply (settings_apply_ok l false w m Hl (g_store _ _ _ _ G))|]. intros r w' (i & f & t & -> & Hr). pose proof (g_conn _ _ _ _ G) as C. destruct r as [ch|err].
  2: { apply wp_ret. unfold ends_frame. rewrite decide_False by apply Hr. repeat split; try done; try apply C. apply Hr. }
  destruct Hr as (Ea & Ht & Hi & Hfr & _). assert (Hi' : 0 <= i <= max_window) by (pose proof (c_init _ _ C); destruct Hi as [->|[? _]]; lia).
  assert (G1 := settings_in i f t Hf He Hack ltac:(eauto) Hi' ltac:(pose proof (c_max _ _ C); destruct Hfr as [->|?]; lia) Ht). apply wp_bind, wp_append. cbn [con out reqs].
  rewrite write_settings_ack_frm. assert (G2 := good_control _ _ _ _ settings_ack_frm G1 ltac:(split; [split; cbn; [by vm_compute | lia | lia] | cbn; lia | done])). apply wp_bind. destruct ch.
  - eapply wp_mono; [apply (flush_all_ok _ _ _ G2)|]. intros ? w1 (m1 & fs & I & Hr & _). apply wp_ret. apply (ends_frame_ok _ w _ _ [settings_ack_frm]); [done|]. exists m1, fs. split; [exact I | by rewrite Hr].
  - destruct Hi as [->|[_ ?]]; [|done]. rewrite Z.sub_diag, shifted_0 in G2. apply wp_ret, wp_ret. apply (done_ok _ m [settings_ack_frm]); [done | by apply settled_same | done].
Qed.

(** *** WINDOW_UPDATE *)

Lemma conn_window_in inc : ft = FtWindowUpdate -> id = 0 -> dependency payload 0 = Some inc -> hdr_expecting (con w) = false ->
  0 <= inc -> conn_send_window (con w) + inc <= max_window ->
  good nothing (mkWorld ((con w) <| conn_send_window := conn_send_window (con w) + inc |>) (out w) (reqs w)) m tr'.
Proof.
  intros Hf H0 Ed He Hi Hw. apply (good_in w _ m); cbn; try done; [| |by eauto|cbn; congruence].
  - destruct (g_conn _ _ _ _ G). split; cbn; try done. lia.
  - intros p []. unfold peer_sends. rewrite Hft, Hf, Ed, H0, Z.eqb_refl. split; cbn; try done. lia.
Qed.

(** The window of stream [id] grows; [m'] has the stream so, or without it. *)
Lemma stream_window_in inc m' t : ft = FtWindowUpdate -> id <> 0 -> dependency payload 0 = Some inc -> hdr_expecting (con w) = false -> holds t m' -> (size m' <= size m)%nat ->
  (forall j s', m' !! j = Some s' -> (j <> id /\ m !! j = Some s') \/ (j = id /\ exists s, m !! j = Some s /\ s' = shifted inc s /\ stream_ok (init_send_window (con w)) s')) ->
  good nothing (with_store w t) m' tr'.
Proof.
  intros Hf H0 Ed He Ht Hsz Hm. pose proof (g_conn _ _ _ _ G) as C. apply (good_in w _ m); cbn; try done; [| | |cbn; congruence].
  - destruct C. split; cbn; try done; [lia| | |congruence].
    + intros j s' Hj. destruct (Hm _ _ Hj) as [[_ Hj']|(_ & s & Hj' & _)]; by apply (c_ids _ _ Hj').
    + intros j s' Hj. destruct (Hm _ _ Hj) as [[_ Hj']|(_ & s & Hj' & _ & Hok)]; [by apply (c_streams _ _ Hj') | done].
  - intros p []. unfold peer_sends. rewrite Hft, Hf, Ed, (proj2 (Z.eqb_neq _ _)) by done. split; cbn; try done; [| |congruence].
    + intros j s' Hj. destruct (Hm _ _ Hj) as [[Hne Hj']|(-> & s & Hj' & -> & _)]; [rewrite lookup_alter_ne by done; by apply p_win_eq|].
      by rewrite lookup_alter_eq, (p_win_eq _ _ Hj').
    + intros j z Hj. apply lookup_alter_Some in Hj as [(_ & z' & Hj & _)|[_ Hj]]; by apply (p_win_last _ _ Hj).
  - intros j s' Hj. destruct (Hm _ _ Hj) as [[_ Hj']|(_ & s & Hj' & -> & _)]; eauto.
Qed.

Lemma grown_ok inc s : m !! id = Some s -> 0 <= inc < 2 ^ 31 -> send_window s + inc <= max_window -> stream_ok (init_send_window (con w)) (shifted inc s).
Proof.
  intros Hs Hi Hle. destruct (c_streams _ _ (g_conn _ _ _ _ G) _ _ Hs). pose proof (c_init _ _ (g_conn _ _ _ _ G)). split; cbn; try done. lia.
Qed.

(** The window grows, and what waited for it goes out. *)
Lemma grow_flush inc s t : ft = FtWindowUpdate -> id <> 0 -> dependency payload 0 = Some inc -> hdr_expecting (con w) = false -> 0 <= inc < 2 ^ 31 -> m !! id = Some s ->
  send_window s + inc <= max_window -> holds t (<[id := shifted inc s]> m) ->
  wp (flush_pending id) (with_store w t) (fun _ w' => exists m' fs, invariant w' m' (tr' ++ (Out <$> fs)) /\ reqs w' = reqs w /\
    (Z.of_nat (length (tail s)) <= send_window s + inc -> Z.of_nat (length (tail s)) <= conn_send_window (con w) -> answered (peer_max_frame (con w)) id s fs (m' !! id))).
Proof.
  intros Hf H0 Ed He Hi Hs Hle Ht. assert (Hsz : size (<[id := shifted inc s]> m) = size m) by (by rewrite map_size_insert_Some).
  assert (G1 : good nothing (with_store w t) (<[id := shifted inc s]> m) tr').
  { apply (stream_window_in inc); try done; [lia|]. intros j s' [[<- <-]|[Hne Hj]]%lookup_insert_Some; [right; split; [done|]; exists s; split; [done|]; split; [done | by apply grown_ok] | by left]. }
  eapply wp_mono; [apply (flush_pending_ok id _ _ _ G1)|]. intros ? w2 (m' & fs & G2 & Hr2 & Hsend & Hoth & Hid2 & Hans).
  exists m', fs. split; [split; [done|]|]. 2: { split; [done|]. intros H1 H2. apply (Hans (shifted inc s)); [apply lookup_insert_eq | done | done]. }
  apply (settled_other (con w) _ m _ id Hset); [eapply sends_trans; [apply sends_store | exact Hsend] | | by intros s' Hs'; apply Hid2].
  intros j Hj. rewrite Hoth by done. by rewrite lookup_insert_ne.
Qed.

Lemma grow_ok inc s : ft = FtWindowUpdate -> id <> 0 -> dependency payload 0 = Some inc -> hdr_expecting (con w) = false -> 0 <= inc < 2 ^ 31 -> m !! id = Some s ->
  wp (set_stream id (shifted inc s);;
      if max_window <? send_window (shifted inc s) then append_out (fun o => write_rst_stream o id FlowControlError);; release_stream id;; mret NoError
      else flush_pending id;; mret NoError) w (ends_frame w tr').
Proof.
  intros Hf H0 Ed He Hi Hs. assert (Hr : 0 <= id < 2 ^ 31) by (destruct Hh; lia). apply wp_bind, (wp_set id _ w m _ (g_store _ _ _ _ G)); [eauto|]. intros t Ht.
  destruct (Z.ltb_spec max_window (send_window (shifted inc s))) as [_|Hle].
  - apply wp_bind, wp_append. cbn [con out reqs with_store]. rewrite write_rst by done. apply wp_bind.
    apply (wp_release id (mkWorld (con (with_store w t)) _ (reqs w)) (<[id := shifted inc s]> m)); [exact Ht | rewrite map_size_insert_Some by done; apply (g_room _ _ _ _ G)|]. intros t2 Ht2. rewrite delete_insert_eq in Ht2.
    apply wp_ret. assert (G1 : good nothing (with_store w t2) (delete id m) tr').
    { apply (stream_window_in inc); try done; [rewrite map_size_delete; destruct (m !! id); cbn; lia|]. intros j s' [Hne Hj]%lookup_delete_Some. by left. }
    assert (G2 := good_control _ _ _ _ _ G1 (control_rst id FlowControlError Hr)). apply (done_ok _ (delete id m) [rst_frm id FlowControlError]); [done| |done].
    intros j s' [_ Hj]%lookup_delete_Some. by apply (Hset _ _ Hj).
  - apply wp_bind. eapply wp_mono; [by apply (grow_flush inc s t)|]. intros ? w2 (m' & fs & [G2 S2] & Hr2 & _). apply wp_ret. by apply (done_ok _ m' fs).
Qed.

Lemma window_answers inc s : ft = FtWindowUpdate -> dependency payload 0 = Some inc -> length payload = 4%nat -> hdr_expecting (con w) = false -> m !! id = Some s -> 0 < inc ->
  send_window s + inc <= max_window -> Z.of_nat (length (tail s)) <= send_window s + inc -> Z.of_nat (length (tail s)) <= conn_send_window (con w) ->
  wp (frame ft fh payload) w (fun code w' => code = NoError /\ exists m' fs, invariant w' m' (tr' ++ (Out <$> fs)) /\ answered (peer_max_frame (con w)) id s fs (m' !! id)).
Proof.
  intros Hf Ed Hl He Hs Hpos Hle H1 H2. destruct (c_ids _ _ (g_conn _ _ _ _ G) _ _ Hs) as [Hodd Hlast]. pose proof (g_store _ _ _ _ G) as Hst.
  assert (H0 : id <> 0) by (destruct Hodd; lia). destruct (dependency_some payload 0) as (v & Ev & Hv); [lia|]. assert (v = inc) as -> by congruence.
  rewrite Hf. unfold frame. apply wp_ask. rewrite He. cbn [andb]. unfold on_window_update. rewrite Hl. cbn [Nat.eqb negb]. eapply wp_lift; [exact Ed|].
  rewrite (proj2 (Z.eqb_neq _ _)) by done. apply wp_ask. rewrite (proj2 (Z.ltb_ge _ _)), (proj2 (Z.eqb_neq _ _)) by lia.
  apply (wp_has id _ w m _ Hst). rewrite bool_decide_eq_true_2 by eauto. cbn [negb]. apply (wp_get id _ w m _ Hst). rewrite Hs. cbn zeta. fold (shifted inc s).
  apply wp_bind, (wp_set id _ w m _ Hst); [eauto|]. intros t Ht. rewrite (proj2 (Z.ltb_ge _ _)) by done. apply wp_bind.
  eapply wp_mono; [by apply (grow_flush inc s t)|]. intros ? w2 (m' & fs & I & _ & Ha). apply wp_ret. split; [done|]. exists m', fs. split; [done | by apply Ha].
Qed.

Lemma on_window_update_ok : hdr_expecting (con w) = false -> ft = FtWindowUpdate -> wp (on_window_update fh payload) w (ends_frame w tr').
Proof.
  intros He Hf. unfold on_window_update. destruct (Nat.eqb_spec (length payload) 4) as [E4|]; cbn [negb]; [|by apply wp_ret, fail_ok].
  destruct (dependency_some payload 0) as (inc & Ed & Hi); [lia|]. eapply wp_lift; [exact Ed|]. assert (Hr : 0 <= id < 2 ^ 31) by (destruct Hh; lia).
  destruct (Z.eqb_spec id 0) as [H0|H0]; [destruct (Z.eqb_spec inc 0); [by apply wp_ret, fail_ok|]|].
  - apply wp_upd, wp_ask. cbn [con]. destruct (Z.ltb_spec max_window (conn_send_window ((con w) <| conn_send_window := conn_send_window (con w) + inc |>))) as [|Hle].
    { apply wp_ret. repeat split; try done; apply (g_conn _ _ _ _ G). }
    apply wp_bind. eapply wp_mono; [apply (flush_all_ok _ m tr'); apply (conn_window_in inc); try done; lia|].
    intros ? w1 (m1 & fs & I & Hr1 & _). apply wp_ret. apply (ends_frame_ok _ w _ _ []); [done|]. rewrite app_nil_r. exists m1, fs. split; [exact I | by rewrite Hr1].
  - apply wp_ask. destruct (last_stream (con w) <? id); [by apply wp_ret, fail_ok|]. destruct (Z.eqb_spec inc 0) as [->|Hnz].
    + assert (G1 : good nothing w m tr').
      { rewrite <- (with_store_same w). apply (stream_window_in 0); try done; [apply (g_store _ _ _ _ G)|]. intros j s' Hj. destruct (decide (j = id)) as [->|]; [|by left]. right. split; [done|]. exists s'. split; [done|].
        split; [unfold shifted; rewrite Z.add_0_r; by destruct s' | by apply (c_streams _ _ (g_conn _ _ _ _ G) _ _ Hj)]. }
      pose proof (reset_ok w m id ProtocolError G1 Hset eq_refl Hr) as H. apply wp_bind, wp_append, wp_bind. eapply wp_mono; [exact H|]. intros ? w1 H1. by apply wp_ret.
    + pose proof (g_store _ _ _ _ G) as Hst. apply (wp_has id _ w m _ Hst). case_bool_decide as Hs; cbn [negb].
      * apply (wp_get id _ w m _ Hst). destruct Hs as [s Hs]. rewrite Hs. by apply grow_ok.
      * apply wp_ret. apply (done_ok w m []); [|done|done]. rewrite app_nil_r, <- (with_store_same w). apply (stream_window_in inc); try done. intros j s' Hj. left. split; [|done]. intros ->. apply Hs. eauto.
Qed.

Lemma frame_ok : wp (frame ft fh payload) w (ends_frame w tr').
Proof.
  unfold frame. apply wp_ask. destruct (hdr_expecting (con w)) eqn:He; cbn [andb].
  - destruct (Z.eqb_spec (frame_type_code ft) (frame_type_code FtContinuation)) as [E|_]; cbn [negb]; [|by apply wp_ret, fail_ok].
    assert (Ef : ft = FtContinuation) by (by destruct ft). rewrite Ef. by apply on_continuation_ok.
  - pose proof (on_data_ok He) as H1. pose proof (on_headers_ok He) as H2. pose proof on_priority_ok as H3. pose proof on_rst_stream_ok as H4. pose proof (on_settings_ok He) as H5.
    pose proof (fail_ok ProtocolError) as H6. pose proof on_ping_ok as H7. pose proof on_goaway_ok as H8. pose proof (on_window_update_ok He) as H9. pose proof on_continuation_ok as H10.
    destruct ft; auto. by apply wp_ret, H6.
Qed.
End Frame.
End Recv.
