(* ===== verification/H2Consume.v ===== *)
(** An HTTP/2 connection as a whole: the states that frames and calls can lead to, and
    [consume] over bursts of bytes. *)
From stdpp Require Import gmap.
From S2P Require Import Prelude WireBytes H2Frame StreamTable Huffman Hpack H2Conn H2Store H2Trace H2Inv H2Send H2Recv.
Local Open Scope Z_scope.

Definition preface_frm : frm :=
  mkFrm FtSettings 0 0 (settings_bytes [mkSetting setting_max_concurrent_streams max_concurrent_streams; mkSetting setting_header_table_size hpack_default_table_size]).

Section Reach.
Context {T : Type} `{!StreamStore T} `{!StoreLaws T}.
Implicit Types (w : World T) (tr : list event).
Abbreviation nothing := (fun _ : Z => @nil byte).

(** The frames a step added to the output. *)
Definition emitted w w' : list frm := frames_of (drop (length (out w)) (out w')).

Definition first_world : World T := mkWorld new_server_conn (write_server_preface []) [].

(** A frame as [consume] passes it to [frame]. *)
Record arrives (fh : FrameHeader) (payload : list byte) (t : FrameType) : Prop := {
  a_type : frame_type_of (fh_type fh) = Some t;
  a_header : header_ok fh;
  a_length : fh_length fh = Z.of_nat (length payload);
  a_size : fh_length fh <= default_max_frame_size
}.

(** The worlds a connection can be in, with what happened so far. *)
Inductive reach : list event -> World T -> Prop :=
| reach_new : reach [Out preface_frm] first_world
| reach_preface tr w : reach tr w -> reach tr (mkWorld ((con w) <| preface_seen := true |>) (out w) (reqs w))
| reach_frame tr w fh payload t w' :
    reach tr w -> arrives fh payload t -> frame t fh payload w = Some (NoError, w') -> reach (tr ++ [In fh payload] ++ (Out <$> emitted w w')) w'
| reach_call tr w a w' :
    reach tr w -> call_ok w tr a -> do_call a w = Some (tt, w') -> reach (tr ++ [Call a] ++ (Out <$> emitted w w')) w'.

Lemma emitted_wire w w' m m' tr e fs : outs [e] = [] -> invariant w m tr -> invariant w' m' ((tr ++ [e]) ++ (Out <$> fs)) -> emitted w w' = fs.
Proof.
  intros He [G _] [G' _]. unfold emitted. rewrite (t_out _ _ _ _ (g_trace _ _ _ _ G)), (t_out _ _ _ _ (g_trace _ _ _ _ G')).
  rewrite !outs_app, He, app_nil_r, outs_out, wire_app, drop_app_length. apply frames_of_wire.
  pose proof (t_frames _ _ _ _ (g_trace _ _ _ _ G')) as H. rewrite !outs_app, outs_out in H. by apply Forall_app in H as [_ H].
Qed.

Lemma invariant_new : invariant first_world ∅ [Out preface_frm].
Proof.
  split; [|by intros id s]. split.
  - split; cbn; try done; try (by vm_compute); [apply holds_empty | rewrite map_size_empty; lia].
  - split; cbn; try done.
    + apply Forall_singleton. split; cbn; [lia | lia | vm_compute; done].
    + eexists. split; [by vm_compute|]. split; cbn; try done.
    + exists ∅. split; [done|]. by intros id s.
    + by intros id H%elem_of_nil.
    + constructor.
Qed.

Lemma reach_invariant tr w : reach tr w -> exists m, invariant w m tr.
Proof.
  induction 1 as [|tr w _ (m & G & S)|tr w fh payload t w' _ (m & I) A E|tr w a w' _ (m & I) Hok E].
  - eexists. apply invariant_new.
  - exists m. split; [|done]. destruct G as [C Tr]. split; [destruct C; by split|]. destruct Tr as [? ? (p & Ep & []) ? ? ? ? ? ? ?]. split; try done. exists p. split; [done | by split].
  - destruct A as [A1 A2 A3 A4]. pose proof (frame_ok w m tr fh payload t (proj1 I) (proj2 I) A1 A2) as H. unfold wp in H. rewrite E in H. rewrite <- A3 in H. destruct (H A4) as (m' & fs & I' & _).
    exists m'. by rewrite app_assoc, (emitted_wire w w' m m' tr (In fh payload) fs).
  - pose proof (do_call_ok w m tr a I Hok) as H. unfold wp in H. rewrite E in H. destruct H as (m' & fs & I' & _). rewrite app_assoc in I'.
    exists m'. by rewrite app_assoc, (emitted_wire w w' m m' tr (Call a) fs).
Qed.

(** ** Nothing gets stuck *)

Lemma reach_frame_defined tr w fh payload t : reach tr w -> arrives fh payload t ->
  exists code w', frame t fh payload w = Some (code, w') /\ code <> InternalError /\
    (code <> NoError -> out w' = out w /\ reqs w' = reqs w /\ 0 <= last_stream (con w') < 2 ^ 31).
Proof.
  intros R [A1 A2 A3 A4]. destruct (reach_invariant _ _ R) as (m & G & S). pose proof (frame_ok w m tr fh payload t G S A1 A2) as H. unfold wp in H. rewrite <- A3 in H. specialize (H A4).
  destruct (frame t fh payload w) as [[code w']|]; [|done]. exists code, w'. split; [done|]. unfold ends_frame in H. destruct (decide (code = NoError)) as [->|]; [done|]. destruct H as (? & ? & ? & ?). done.
Qed.

Lemma reach_call_defined tr w a : reach tr w -> call_ok w tr a -> exists w', do_call a w = Some (tt, w').
Proof.
  intros R Hok. destruct (reach_invariant _ _ R) as (m & I). pose proof (do_call_ok w m tr a I Hok) as H. unfold wp in H. destruct (do_call a w) as [[[] w']|]; [by exists w' | done].
Qed.
End Reach.

(** ** [consume] *)

(** What a buffer starts with. *)
Inductive head := Wait | TooBig | Got (fh : FrameHeader) (payload : list byte).

Definition look (rest : list byte) : head :=
  if (length rest <? frame_header_len)%nat then Wait
  else match parse_frame_header rest with
       | Some (inl fh) =>
           if default_max_frame_size <? fh_length fh then TooBig
           else if (length rest <? frame_header_len + Z.to_nat (fh_length fh))%nat then Wait
           else Got fh (take (Z.to_nat (fh_length fh)) (drop frame_header_len rest))
       | _ => Wait
       end.

Lemma parse_header_total rest : (frame_header_len <= length rest)%nat ->
  exists fh, header_ok fh /\ forall b, parse_frame_header (rest ++ b) = Some (inl fh).
Proof.
  intros Hl. unfold frame_header_len in Hl. do 9 (destruct rest as [|? rest]; [cbn in Hl; lia|]). eexists. split; [|intros more; cbn [app]; apply parse_header_shape].
  split; cbn [fh_length fh_type fh_flags fh_stream_id]; try apply byte_val_range; [|apply Z.mod_pos_bound; lia].
  apply (be_val_range [b; b0; b1]).
Qed.

Lemma look_app a b : look a <> Wait -> look (a ++ b) = look a.
Proof.
  unfold look. rewrite length_app. destruct (Nat.ltb_spec (length a) frame_header_len) as [|Hl]; [done|]. rewrite (proj2 (Nat.ltb_ge _ _)) by lia.
  destruct (parse_header_total a Hl) as (fh & _ & E). rewrite E. specialize (E []). rewrite app_nil_r in E. rewrite E.
  destruct (_ <? fh_length fh); [done|]. destruct (Nat.ltb_spec (length a) (frame_header_len + Z.to_nat (fh_length fh))) as [|Hp]; [done|]. rewrite (proj2 (Nat.ltb_ge _ _)) by lia. intros _.
  rewrite drop_app_le by lia. rewrite take_app_le; [done|]. rewrite length_drop. lia.
Qed.

Lemma look_got rest fh payload : look rest = Got fh payload ->
  header_ok fh /\ fh_length fh = Z.of_nat (length payload) /\ fh_length fh <= default_max_frame_size /\ (frame_header_len + length payload <= length rest)%nat.
Proof.
  unfold look. destruct (Nat.ltb_spec (length rest) frame_header_len) as [|Hl]; [done|]. destruct (parse_header_total rest Hl) as (fh' & Hok & E). specialize (E []). rewrite app_nil_r in E. rewrite E.
  destruct (Z.ltb_spec default_max_frame_size (fh_length fh')) as [|Hm]; [done|]. destruct (Nat.ltb_spec (length rest) (frame_header_len + Z.to_nat (fh_length fh'))) as [|Hp]; [done|].
  intros [= <- <-]. split; [done|]. rewrite length_take, length_drop. destruct Hok. split; [lia|]. split; [done | lia].
Qed.

Section Loop.
Context {T : Type} `{!StreamStore T}.
Implicit Types (w : World T).

(** The loop by what it finds. *)
Lemma consume_loop_eq f buf n w :
  consume_loop (S f) buf n w = match look (drop n buf) with
    | Wait => Some ((n, false), w)
    | TooBig => fatal n FrameSizeError w
    | Got fh payload =>
        let n' := (n + (frame_header_len + length payload))%nat in
        match frame_type_of (fh_type fh) with
        | None => if hdr_expecting (con w) then fatal n ProtocolError w else consume_loop f buf n' w
        | Some t => match frame t fh payload w with
                    | Some (code, w') => if decide (code = NoError) then consume_loop f buf n' w' else fatal n' code w'
                    | None => None
                    end
        end
    end.
Proof.
  cbn [consume_loop]. unfold look. destruct (Nat.ltb_spec (length (drop n buf)) frame_header_len) as [|Hl]; [done|].
  destruct (parse_header_total _ Hl) as (fh & Hok & E). specialize (E []). rewrite app_nil_r in E. rewrite E. unfold lift, mbind, cm_bind at 1.
  destruct (Z.ltb_spec default_max_frame_size (fh_length fh)) as [|Hm]; [done|]. destruct (Nat.ltb_spec (length (drop n buf)) (frame_header_len + Z.to_nat (fh_length fh))) as [|Hp]; [done|].
  cbn zeta. replace (length (take (Z.to_nat (fh_length fh)) (drop frame_header_len (drop n buf)))) with (Z.to_nat (fh_length fh)) by (rewrite length_take, (length_drop (drop n buf)); lia).
  destruct (frame_type_of (fh_type fh)) as [t|].
  - unfold cm_bind. destruct (frame t fh _ w) as [[code w']|]; [|done]. by destruct (decide (code = NoError)).
  - unfold cm_bind, ask. by destruct (hdr_expecting (con w)).
Qed.

(** Enough fuel is enough, and only what is left of the buffer matters. *)
Lemma consume_loop_shift f f' buf buf' n k w : drop n buf = drop k buf' -> (length (drop n buf) < f)%nat -> (length (drop n buf) < f')%nat -> (n <= length buf)%nat -> (k <= length buf')%nat ->
  match consume_loop f buf n w with
  | Some ((i, c), w') => (n <= i <= length buf)%nat /\ consume_loop f' buf' k w = Some ((i - n + k, c)%nat, w')
  | None => consume_loop f' buf' k w = None
  end.
Proof.
  revert f' n k w. induction f as [|f IH]; intros f' n k w E Hf Hf' Hn Hk; [lia|]. destruct f' as [|f']; [lia|]. rewrite !consume_loop_eq, <- E. destruct (look (drop n buf)) as [| |fh payload] eqn:El.
  - split; [lia|]. by rewrite Nat.sub_diag.
  - cbn. split; [lia|]. by rewrite Nat.sub_diag.
  - apply look_got in El as (_ & _ & _ & Hl). rewrite length_drop in *. unfold frame_header_len in *. set (d := (9 + length payload)%nat) in *. cbn zeta.
    assert (Hk' : (k + d <= length buf')%nat) by (apply (f_equal length) in E; rewrite !length_drop in E; lia).
    assert (Hgo : forall w', match consume_loop f buf (n + d) w' with
        | Some ((i, c), w2) => (n <= i <= length buf)%nat /\ consume_loop f' buf' (k + d) w' = Some ((i - n + k, c)%nat, w2) | None => consume_loop f' buf' (k + d) w' = None end).
    { intros w'. specialize (IH f' (n + d)%nat (k + d)%nat w'). rewrite <- !drop_drop, E in IH. specialize (IH eq_refl). rewrite <- E, drop_drop, length_drop in IH.
      specialize (IH ltac:(lia) ltac:(lia) ltac:(lia) ltac:(lia)). destruct (consume_loop f buf (n + d) w') as [[[i c] w2]|]; [|done]. destruct IH as [? ->]. split; [lia|]. do 2 f_equal. f_equal. lia. }
    assert (Hfat : forall i j code w', (n <= i <= length buf)%nat -> j = (i - n + k)%nat -> match fatal i code w' with
        | Some ((i, c), w2) => (n <= i <= length buf)%nat /\ fatal j code w' = Some ((i - n + k, c)%nat, w2) | None => fatal j code w' = None end) by (intros i j code w' Hi ->; cbn; done).
    destruct (frame_type_of (fh_type fh)) as [t|].
    + destruct (frame t fh payload w) as [[code w']|]; [|done]. destruct (decide (code = NoError)); [apply Hgo | apply Hfat; lia].
    + destruct (hdr_expecting (con w)); [apply Hfat; lia | apply Hgo].
Qed.

Lemma consume_loop_fuel f f' buf n w : (length (drop n buf) < f)%nat -> (length (drop n buf) < f')%nat -> (n <= length buf)%nat -> consume_loop f buf n w = consume_loop f' buf n w.
Proof.
  intros Hf Hf' Hn. pose proof (consume_loop_shift f f' buf buf n n w eq_refl Hf Hf' Hn Hn) as H. destruct (consume_loop f buf n w) as [[[i c] w']|]; [|done].
  destruct H as [Hi ->]. do 3 f_equal. lia.
Qed.

(** More bytes only add to what a burst does. *)
Lemma consume_loop_app f f' a b n w : (length (drop n a) < f)%nat -> (length (drop n (a ++ b)) < f')%nat -> (n <= length a)%nat ->
  consume_loop f' (a ++ b) n w = match consume_loop f a n w with
    | Some ((i, true), w1) => Some ((i, true), w1)
    | Some ((i, false), w1) => consume_loop f' (a ++ b) i w1
    | None => None
    end.
Proof.
  revert f' n w. induction f as [|f IH]; intros f' n w Hf Hf' Hn; [lia|]. destruct f' as [|f']; [lia|]. rewrite consume_loop_eq at 1. rewrite (consume_loop_eq f a).
  assert (Hl : look (drop n a) <> Wait -> look (drop n (a ++ b)) = look (drop n a)) by (intros H; rewrite drop_app_le by done; by apply look_app).
  destruct (look (drop n a)) as [| |fh payload] eqn:El; [by rewrite consume_loop_eq | by rewrite Hl|]. rewrite Hl by done. clear Hl. apply look_got in El as (_ & _ & _ & Hl).
  rewrite length_drop in *. rewrite length_app in *. unfold frame_header_len in *. set (d := (9 + length payload)%nat) in *. cbn zeta.
  assert (Hgo : forall w', consume_loop f' (a ++ b) (n + d) w' = match consume_loop f a (n + d) w' with
      Some ((i, true), w1) => Some ((i, true), w1) | Some ((i, false), w1) => consume_loop (S f') (a ++ b) i w1 | None => None end).
  { intros w'. rewrite (consume_loop_fuel f' (S f')) by (rewrite ?length_drop, ?length_app; lia). apply IH; rewrite ?length_drop, ?length_app; lia. }
  destruct (frame_type_of (fh_type fh)) as [t|].
  - destruct (frame t fh payload w) as [[code w']|]; [|done]. by destruct (decide (code = NoError)).
  - by destruct (hdr_expecting (con w)).
Qed.

(** ** The preface is read once *)

Definition keeps {A} (c : cm T A) : Prop := forall w a w', c w = Some (a, w') -> preface_seen (con w') = preface_seen (con w).

Lemma keeps_bind {A B} (c : cm T A) (k : A -> cm T B) : keeps c -> (forall a, keeps (k a)) -> keeps (c ≫= k).
Proof. intros Hc Hk w b w' E. unfold mbind, cm_bind in E. destruct (c w) as [[a w1]|] eqn:E1; [|done]. rewrite (Hk _ _ _ _ E). by apply (Hc w a). Qed.

Lemma keeps_ret {A} (a : A) : keeps (mret a).
Proof. by intros w x w' [= <- <-]. Qed.

Lemma keeps_ask {A} (f : ServerConn T -> A) : keeps (ask f).
Proof. by intros w x w' [= <- <-]. Qed.

Lemma keeps_append f : keeps (append_out f).
Proof. by intros w x w' [= <- <-]. Qed.

Lemma keeps_surface r : keeps (surface r).
Proof. by intros w x w' [= <- <-]. Qed.

Lemma keeps_lift {A} (o : option A) : keeps (lift o).
Proof. intros w x w'. unfold lift. destruct o; [|done]. by intros [= <- <-]. Qed.

Lemma keeps_store f : keeps (on_store f).
Proof. intros w x w'. unfold on_store. destruct (f (store (con w))); [|done]. by intros [= <- <-]. Qed.

Lemma keeps_upd f : (forall c, preface_seen (f c) = preface_seen c) -> keeps (upd f).
Proof. intros H w x w' [= <- <-]. apply H. Qed.

Ltac keep :=
  repeat match goal with
  | H : keeps ?c |- keeps ?c => exact H
  | |- forall _, _ => intro
  | |- keeps (_ ≫= _) => apply keeps_bind
  | |- keeps (mret _) => apply keeps_ret
  | |- keeps (ask _) => apply keeps_ask
  | |- keeps (append_out _) => apply keeps_append
  | |- keeps (surface _) => apply keeps_surface
  | |- keeps (lift _) => apply keeps_lift
  | |- keeps (on_store _) => apply keeps_store
  | |- keeps (upd _) => apply keeps_upd; done
  | |- keeps (match ?x with _ => _ end) => destruct x
  | |- keeps (let '(_, _) := ?x in _) => destruct x
  | |- keeps _ => progress unfold get_stream, has_stream, set_stream, new_stream, release_stream, send_data
  end.

Lemma keeps_headers id block es : keeps (write_response_headers id block es).
Proof. unfold write_response_headers. keep. intros w x w'. destruct (header_frames _ _ _ _ _); [|done]. by intros [= <- <-]. Qed.

Lemma keeps_flush_loop f id s : keeps (flush_loop f id s).
Proof. revert s. induction f as [|f IH]; intros s; cbn [flush_loop]; keep. apply IH. Qed.

Lemma keeps_flush id : keeps (flush_pending id).
Proof. unfold flush_pending. keep; [apply keeps_flush_loop | apply keeps_headers]. Qed.

Lemma keeps_flush_all : keeps flush_all.
Proof. unfold flush_all. keep. rename a into l. induction l as [|id l IH]; cbn [flush_ids]; keep. apply keeps_flush. Qed.

Lemma keeps_complete id : keeps (complete_stream id).
Proof. unfold complete_stream. keep. Qed.

Lemma keeps_finish : keeps finish_header_block.
Proof. unfold finish_header_block, decode_block, open_stream. keep; apply keeps_complete. Qed.

Lemma keeps_settings l ch : keeps (settings_apply l ch).
Proof. revert ch. induction l as [|st l IH]; intros ch; cbn [settings_apply]; keep; apply IH. Qed.

Lemma keeps_frame t fh payload : keeps (frame t fh payload).
Proof.
  unfold frame, on_data, take_data, on_headers, claim_stream, on_priority, on_rst_stream, on_settings, on_ping, on_goaway, on_window_update, on_continuation. keep.
  all: first [apply keeps_complete | apply keeps_finish | apply keeps_settings | apply keeps_flush_all | apply keeps_flush].
Qed.

Lemma keeps_loop f buf n : keeps (consume_loop f buf n).
Proof. revert n. induction f as [|f IH]; intros n; cbn [consume_loop]; unfold fatal; keep; first [apply IH | apply keeps_frame]. Qed.

(** ** Bursts *)

Lemma consume_le buf w i c w' : consume buf w = Some ((i, c), w') -> (i <= length buf)%nat.
Proof.
  assert (Hloop : forall n w, (n <= length buf)%nat -> consume_loop (S (length buf)) buf n w = Some ((i, c), w') -> (i <= length buf)%nat).
  { intros n w1 Hn E. pose proof (consume_loop_shift (S (length buf)) (S (length buf)) buf buf n n w1 eq_refl) as H. rewrite E in H. rewrite length_drop in H. destruct H; lia. }
  unfold consume, mbind, cm_bind, ask, upd, append_out, mret, cm_ret. destruct (preface_seen (con w)); [apply Hloop; lia|].
  destruct (Nat.ltb_spec (length buf) (length preface_tail)); [intros [= <- _ _]; lia|]. case_bool_decide; [by apply Hloop | intros [= <- _ _]; lia].
Qed.

Lemma consume_app a b w :
  consume (a ++ b) w = match consume a w with
    | Some ((n, true), w1) => Some ((n, true), w1)
    | Some ((n, false), w1) => match consume (drop n a ++ b) w1 with Some ((k, c), w2) => Some ((n + k, c)%nat, w2) | None => None end
    | None => None
    end.
Proof.
  assert (Hloop : forall n w, preface_seen (con w) = true -> (n <= length a)%nat ->
    consume_loop (S (length (a ++ b))) (a ++ b) n w = match consume_loop (S (length a)) a n w with
      | Some ((n, true), w1) => Some ((n, true), w1)
      | Some ((n, false), w1) => match consume (drop n a ++ b) w1 with Some ((k, c), w2) => Some ((n + k, c)%nat, w2) | None => None end
      | None => None end).
  { intros n w1 Hp Hn. rewrite (consume_loop_app (S (length a))) by (rewrite ?length_drop; lia).
    pose proof (consume_loop_shift (S (length a)) (S (length a)) a a n n w1 eq_refl) as Hb. rewrite length_drop in Hb. specialize (Hb ltac:(lia) ltac:(lia) Hn Hn).
    destruct (consume_loop (S (length a)) a n w1) as [[[i []] w2]|] eqn:E; [done| |done]. destruct Hb as [Hi _].
    unfold consume, mbind, cm_bind, ask. rewrite (keeps_loop _ _ _ _ _ _ E), Hp. pose proof (consume_loop_shift (S (length (drop i a ++ b))) (S (length (a ++ b))) (drop i a ++ b) (a ++ b) 0 i w2) as H.
    rewrite drop_0, drop_app_le in H by lia. rewrite !length_app, length_drop in H. specialize (H eq_refl ltac:(lia) ltac:(lia) ltac:(lia) ltac:(lia)). rewrite !length_app, length_drop in *.
    destruct (consume_loop (S (length a - i + length b)) (drop i a ++ b) 0 w2) as [[[k c] w3]|]; [|done]. destruct H as [_ ->]. do 3 f_equal. lia. }
  unfold consume at 1 2, mbind, cm_bind, ask, upd, append_out, mret, cm_ret. destruct (preface_seen (con w)) eqn:Hp; [apply Hloop; [done | lia]|].
  destruct (Nat.ltb_spec (length a) (length preface_tail)) as [Hs|Hl].
  - rewrite drop_0. unfold consume, mbind, cm_bind, ask, upd, append_out, mret, cm_ret. rewrite Hp. destruct (_ <? _)%nat; [done|]. case_bool_decide; [|done]. by destruct (consume_loop _ _ _ _) as [[[k c] w2]|].
  - rewrite length_app, (proj2 (Nat.ltb_ge _ _)) by lia. rewrite take_app_le by done. case_bool_decide; [|done]. rewrite <- length_app. apply Hloop; [done | lia].
Qed.

(** What the engine keeps for a connection: the bytes [consume] left, and whether it is to close. *)
Record sess := mkSess { world : World T; unread : list byte; closed : bool }.

(** Bytes arrive: [consume] sees them behind what it left before. *)
Definition receive (bs : list byte) (s : sess) : option sess :=
  if closed s then Some s
  else
    let buf := unread s ++ bs in
    match consume buf (world s) with
    | Some ((n, c), w) => Some (mkSess w (if c then [] else drop n buf) c)
    | None => None
    end.

Definition receive_all (l : list (list byte)) (s : sess) : option sess := foldl (fun r bs => s ← r; receive bs s) (Some s) l.

Lemma receive_app a b s : receive (a ++ b) s = (s' ← receive a s; receive b s').
Proof.
  unfold receive. destruct (closed s) eqn:Ec; [cbn; by rewrite Ec|]. rewrite app_assoc, consume_app. destruct (consume (unread s ++ a) (world s)) as [[[n []] w1]|] eqn:E; cbn; [done| |done].
  pose proof (consume_le _ _ _ _ _ E) as Hn. destruct (consume (drop n (unread s ++ a) ++ b) w1) as [[[k []] w2]|]; [done| |done]. do 2 f_equal.
  by rewrite <- drop_drop, drop_app_le.
Qed.

Lemma receive_all_None l : foldl (fun r bs => s ← r; receive bs s) None l = None.
Proof. by induction l. Qed.

Lemma receive_all_concat a l s : receive_all (a :: l) s = receive (a ++ concat l) s.
Proof.
  revert a s. induction l as [|b l IH]; intros a s; [cbn; by rewrite app_nil_r|]. cbn [concat]. rewrite receive_app.
  change (receive_all (a :: b :: l) s) with (foldl (fun r bs => s ← r; receive bs s) (receive a s) (b :: l)). destruct (receive a s) as [s'|]; [|by rewrite receive_all_None].
  exact (IH b s').
Qed.
End Loop.
Arguments sess : clear implicits.

(** ** A burst is its frames, one after the other *)

(** The complete frames a buffer starts with, and the bytes they take. *)
Fixpoint arrived (fuel : nat) (rest : list byte) : list (FrameHeader * list byte) :=
  match fuel with
  | O => []
  | S f => match look rest with Got fh payload => (fh, payload) :: arrived f (drop (frame_header_len + length payload) rest) | _ => [] end
  end.

Definition frame_bytes (l : list (FrameHeader * list byte)) : nat := sum_list_with (fun p => frame_header_len + length (p.2))%nat l.

(** Frames of unknown types are passed over (RFC 9113, 4.1). *)
Definition known (l : list (FrameHeader * list byte)) : list (FrameHeader * list byte) := filter (fun p => is_Some (frame_type_of (fh_type (p.1)))) l.

Definition ins (tr : list event) : list (FrameHeader * list byte) := omap (fun e => match e with In fh payload => Some (fh, payload) | _ => None end) tr.

Lemma ins_app a b : ins (a ++ b) = ins a ++ ins b.
Proof. apply omap_app. Qed.

Lemma ins_out fs : ins (Out <$> fs) = [].
Proof. induction fs as [|f fs IH]; [done | exact IH]. Qed.

Section Burst.
Context {T : Type} `{!StreamStore T} `{!StoreLaws T}.
Implicit Types (w : World T) (tr : list event).

(** Why the connection is given up where [rest] is next, in state [w]. *)
Definition stops w (rest : list byte) (code : ErrorCode) : Prop :=
  match look rest with
  | Wait => False
  | TooBig => code = FrameSizeError
  | Got fh _ => frame_type_of (fh_type fh) = None /\ hdr_expecting (con w) = true /\ code = ProtocolError
  end.

(** The frame [p] is an error of the connection, in state [w]. *)
Definition refused w (p : FrameHeader * list byte) (code : ErrorCode) : Prop :=
  exists t w1, frame_type_of (fh_type (p.1)) = Some t /\ frame t (p.1) (p.2) w = Some (code, w1).

(** What a burst did with [rest], of which the frames [l] were taken and [l'] are left; if [c], the
    connection was given up, at the last of them or at what is left. *)
Definition burst tr w rest n (c : bool) w' : Prop := exists l l' tr2 w2, arrived (S (length rest)) rest = l ++ l' /\ n = frame_bytes l /\ reach (tr ++ tr2) w2 /\
  if c then reqs w' = reqs w2 /\ exists code, code <> NoError /\ code <> InternalError /\ out w' = out w2 ++ wire [goaway_frm (last_stream (con w')) code] /\
    (known l = ins tr2 /\ stops w2 (drop n rest) code \/ exists l0 p, l = l0 ++ [p] /\ known l0 = ins tr2 /\ refused w2 p code)
  else known l = ins tr2 /\ l' = [] /\ w' = w2 /\ look (drop n rest) = Wait.

Lemma arrived_fuel f rest : (length rest < f)%nat -> arrived f rest = arrived (S (length rest)) rest.
Proof.
  revert rest. induction f as [f IH] using lt_wf_ind. intros rest Hf. destruct f as [|f]; [lia|]. cbn [arrived]. destruct (look rest) as [| |fh payload] eqn:E; [done | done|]. f_equal.
  apply look_got in E as (_ & _ & _ & Hl). unfold frame_header_len in *. set (r := drop _ rest). assert (Hr : (length r < length rest)%nat) by (unfold r; rewrite length_drop; lia).
  destruct (decide (f = length rest)) as [->|]; [done|]. rewrite (IH f), (IH (length rest)) by lia. done.
Qed.

Lemma arrived_got rest fh payload : look rest = Got fh payload ->
  arrived (S (length rest)) rest = (fh, payload) :: (let r := drop (frame_header_len + length payload) rest in arrived (S (length r)) r).
Proof.
  intros E. cbn [arrived]. rewrite E. f_equal. apply arrived_fuel. apply look_got in E as (_ & _ & _ & Hl). unfold frame_header_len in *. rewrite length_drop. lia.
Qed.

Lemma fatal_goaway tr w code w' : reach tr w -> out w' = out w -> reqs w' = reqs w -> 0 <= last_stream (con w') < 2 ^ 31 ->
  forall n, exists w2, fatal n code w' = Some ((n, true), w2) /\ reqs w2 = reqs w /\ out w2 = out w ++ wire [goaway_frm (last_stream (con w2)) code].
Proof.
  intros R Ho Hr Hl n. unfold fatal, mbind, cm_bind, ask, append_out, mret, cm_ret. eexists. split; [done|]. split; [done|]. cbn. by rewrite write_goaway_frm, Ho.
Qed.

(** The connection is given up at [rest]. *)
Lemma burst_stops tr w rest code : reach tr w -> stops w rest code -> code <> NoError -> code <> InternalError ->
  forall n, exists w2, fatal n code w = Some ((n, true), w2) /\ burst tr w rest 0 true w2.
Proof.
  intros R Hs H1 H2 n. destruct (reach_invariant _ _ R) as (m & I & _). destruct (fatal_goaway tr w code w R eq_refl eq_refl (c_last _ _ (g_conn _ _ _ _ I)) n) as (w2 & E & Hr & Ho).
  exists w2. split; [done|]. exists [], (arrived (S (length rest)) rest), [], w. rewrite app_nil_r. split; [done|]. split; [done|]. split; [done|]. split; [done|].
  exists code. split; [done|]. split; [done|]. split; [done|]. left. by rewrite drop_0.
Qed.

(** It is given up at the first frame of [rest]. *)
Lemma burst_refused tr w rest fh payload code w' : reach tr w -> look rest = Got fh payload -> refused w (fh, payload) code ->
  out w' = out w -> reqs w' = reqs w -> 0 <= last_stream (con w') < 2 ^ 31 -> code <> NoError -> code <> InternalError ->
  forall n, exists w2, fatal n code w' = Some ((n, true), w2) /\ burst tr w rest (frame_header_len + length payload) true w2.
Proof.
  intros R El Hf Ho Hr Hl H1 H2 n. destruct (fatal_goaway tr w code w' R Ho Hr Hl n) as (w2 & E & Hr2 & Ho2). exists w2. split; [done|].
  eexists [(fh, payload)], _, [], w. rewrite (app_nil_r tr). split; [exact (arrived_got rest fh payload El)|]. split; [unfold frame_bytes; cbn; lia|]. split; [done|]. split; [done|].
  exists code. split; [done|]. split; [done|]. split; [done|]. right. by exists [], (fh, payload).
Qed.

(** A frame first, then the rest. *)
Lemma burst_cons tr tr1 w w1 rest fh payload n c w' : look rest = Got fh payload -> known [(fh, payload)] = ins tr1 ->
  burst (tr ++ tr1) w1 (drop (frame_header_len + length payload) rest) n c w' -> burst tr w rest (frame_header_len + length payload + n) c w'.
Proof.
  intros El Hk (l & l' & tr2 & w2 & Ea & -> & R & H). exists ((fh, payload) :: l), l', (tr1 ++ tr2), w2. rewrite (arrived_got rest fh payload El). cbv zeta. rewrite Ea.
  split; [done|]. split; [done|]. split; [by rewrite app_assoc|]. assert (Hl : forall l0, known l0 = ins tr2 -> known ((fh, payload) :: l0) = ins (tr1 ++ tr2)).
  { intros l0 E. rewrite ins_app, <- E, <- Hk. apply (filter_app _ [(fh, payload)] l0). }
  rewrite drop_drop in H. destruct c.
  - destruct H as (Hr & code & H1 & H2 & Ho & H). split; [done|]. exists code. split; [done|]. split; [done|]. split; [done|].
    destruct H as [[Hn Hs]|(l0 & p & -> & Hn & Hf)]; [left; split; [by apply Hl | exact Hs]|]. right. exists ((fh, payload) :: l0), p. split; [done|]. split; [by apply Hl | done].
  - destruct H as (Hn & -> & -> & Hw). split; [by apply Hl|]. by repeat split.
Qed.

Lemma consume_loop_burst f buf n tr w : reach tr w -> (n <= length buf)%nat -> (length (drop n buf) < f)%nat ->
  exists i c w', consume_loop f buf n w = Some ((n + i, c)%nat, w') /\ burst tr w (drop n buf) i c w'.
Proof.
  revert n tr w. induction f as [|f IH]; intros n tr w R Hn Hf; [lia|]. rewrite consume_loop_eq. destruct (look (drop n buf)) as [| |fh payload] eqn:El.
  - exists 0%nat, false, w. rewrite Nat.add_0_r. split; [done|]. exists [], [], [], w. cbn [arrived]. rewrite El, (app_nil_r tr). by repeat split.
  - destruct (burst_stops tr w (drop n buf) FrameSizeError R) with (n := n) as (w2 & -> & B); [unfold stops; by rewrite El | done | done|]. exists 0%nat, true, w2. by rewrite Nat.add_0_r.
  - destruct (look_got _ _ _ El) as (Hok & Hlen & Hmax & Hl). rewrite length_drop in *. set (d := (frame_header_len + length payload)%nat) in *.
    assert (Hd : (0 < d)%nat) by (unfold d, frame_header_len; lia). assert (Hnext : (length (drop (n + d) buf) < f)%nat) by (rewrite length_drop; lia). cbn zeta.
    destruct (frame_type_of (fh_type fh)) as [t|] eqn:Et.
    + assert (A : arrives fh payload t) by (by split). destruct (reach_frame_defined _ _ _ _ _ R A) as (code & w' & E & Hni & Herr). rewrite E. destruct (decide (code = NoError)) as [->|Hne].
      * pose proof (reach_frame _ _ _ _ _ _ R A E) as R'. destruct (IH (n + d)%nat _ _ R') as (i & c & w2 & -> & B); [lia | done|].
        exists (d + i)%nat, c, w2. rewrite Nat.add_assoc. split; [done|]. apply (burst_cons tr ([In fh payload] ++ (Out <$> emitted w w')) w w' _ fh payload i c w2 El).
        -- rewrite ins_app, ins_out. etransitivity; [apply filter_cons_True; by exists t | done].
        -- by rewrite drop_drop.
      * destruct (Herr Hne) as (Ho & Hr & Hls). destruct (burst_refused tr w (drop n buf) fh payload code w' R El) with (n := (n + d)%nat) as (w2 & -> & B); [by exists t, w' | done..|]. by exists d, true, w2.
    + destruct (hdr_expecting (con w)) eqn:Ex.
      * destruct (burst_stops tr w (drop n buf) ProtocolError R) with (n := n) as (w2 & -> & B); [unfold stops; by rewrite El | done | done|]. exists 0%nat, true, w2. by rewrite Nat.add_0_r.
      * destruct (IH (n + d)%nat _ _ R) as (i & c & w2 & -> & B); [lia | done|]. exists (d + i)%nat, c, w2. rewrite Nat.add_assoc. split; [done|].
        apply (burst_cons tr [] w w _ fh payload i c w2 El); [etransitivity; [apply filter_cons_False; cbn [fst]; rewrite Et; by intros [? ?] | done]|]. by rewrite app_nil_r, drop_drop.
Qed.
End Burst.
