(* ===== verification/WebSocket.v ===== *)
(** websocket/websocket.v: the RFC 6455 frame codec. The opening handshake's key
    is in Sha1. A result in [option] is [None] when an array is read or written
    outside of its bounds. *)
From S2P Require Import Prelude WireBytes.
Local Open Scope Z_scope.

Definition op_cont : Z := 0x0.
Definition op_text : Z := 0x1.
Definition op_binary : Z := 0x2.
Definition op_close : Z := 0x8.
Definition op_ping : Z := 0x9.
Definition op_pong : Z := 0xa.

Definition incomplete : Z := -1.
Definition err_malformed : Z := -2.

Definition max_frame_payload : Z := 16 * 1024 * 1024.

Record FrameHead := mkHead {
  total : Z; payload_off : Z; payload_len : Z; opcode : Z; fin : bool; masked : bool; mask_off : Z }.

(** [FrameHead{total: t}]: the other fields are zero. *)
Definition only_total (t : Z) : FrameHead := mkHead t 0 0 0 false false 0.

(** [for i in 0 .. 8 { len64 = len64 << 8 | u64(buf[off + i]) }] for [n] rounds. *)
Fixpoint read_be (n : nat) (buf : list byte) (off : nat) (v : Z) : option Z :=
  match n with
  | O => Some v
  | S n' => b ← buf !! off; read_be n' buf (S off) (Z.lor (u64w (Z.shiftl v 8)) (byte_val b))
  end.

(** From the final [payload_len] check on. *)
Definition head_tail (buf : list byte) (opcode : Z) (fin masked : bool) (plen off : Z) : FrameHead :=
  let blen := Z.of_nat (length buf) in
  if max_frame_payload <? plen then only_total err_malformed
  else
    let mask_off := off in
    let off := if masked then off + 4 else off in
    if (blen <? off) || (blen <? off + plen) then only_total incomplete
    else mkHead (off + plen) off plen opcode fin masked mask_off.

Definition frame_head (buf : list byte) : option FrameHead :=
  let blen := Z.of_nat (length buf) in
  if blen <? 2 then Some (only_total incomplete)
  else
    b0 ← byte_val <$> buf !! 0%nat;
    b1 ← byte_val <$> buf !! 1%nat;
    if negb (Z.land b0 0x70 =? 0) then Some (only_total err_malformed)
    else
      let opcode := Z.land b0 0x0f in
      if (0x2 <? opcode) && (opcode <? 0x8) || (0xa <? opcode) then Some (only_total err_malformed)
      else
        let fin := negb (Z.land b0 0x80 =? 0) in
        let is_control := negb (Z.land opcode 0x8 =? 0) in
        let masked := negb (Z.land b1 0x80 =? 0) in
        let len7 := Z.land b1 0x7f in
        let off := 2 in
        if is_control && (negb fin || (125 <? len7)) then Some (only_total err_malformed)
        else if len7 =? 126 then
          if blen <? off + 2 then Some (only_total incomplete)
          else
            h ← byte_val <$> buf !! 2%nat;
            l ← byte_val <$> buf !! 3%nat;
            let plen := Z.lor (Z.shiftl h 8) l in
            if plen <? 126 then Some (only_total err_malformed)
            else Some (head_tail buf opcode fin masked plen (off + 2))
        else if len7 =? 127 then
          if blen <? off + 8 then Some (only_total incomplete)
          else
            len64 ← read_be 8 buf 2 0;
            if (len64 <? 65536) || (max_frame_payload <? len64) then Some (only_total err_malformed)
            else Some (head_tail buf opcode fin masked len64 (off + 8))
        else Some (head_tail buf opcode fin masked len7 off).

(** [for i in 0 .. h.payload_len], [n] rounds left, [i] the next. *)
Fixpoint unmask_loop (n : nat) (i : Z) (buf : list byte) (h : FrameHead) : option (list byte) :=
  match n with
  | O => Some buf
  | S n' =>
      x ← buf !! Z.to_nat (payload_off h + i);
      k ← buf !! Z.to_nat (mask_off h + Z.land i 3);
      unmask_loop n' (i + 1) (<[Z.to_nat (payload_off h + i) := byte_of_Z (Z.lxor (byte_val x) (byte_val k))]> buf) h
  end.

Definition unmask_in_place (buf : list byte) (h : FrameHead) : option (list byte) :=
  if negb (masked h) then Some buf else unmask_loop (Z.to_nat (payload_len h)) 0 buf h.

(** [for _ in 0 .. 8] over [shift] = 56, 48, ..., 0. *)
Fixpoint write_be (n : nat) (out : list byte) (v shift : Z) : list byte :=
  match n with
  | O => out
  | S n' => write_be n' (out ++ [byte_of_Z (Z.land (Z.shiftr v shift) 0xff)]) v (shift - 8)
  end.

Definition write_frame_header (out : list byte) (opcode plen : Z) : list byte :=
  let out := out ++ [byte_of_Z (Z.lor 0x80 opcode)] in
  if plen <=? 125 then out ++ [byte_of_Z plen]
  else if plen <=? 0xffff then out ++ [byte_of_Z 126; byte_of_Z (Z.shiftr plen 8); byte_of_Z (Z.land plen 0xff)]
  else write_be 8 (out ++ [byte_of_Z 127]) plen 56.

Definition write_close (out : list byte) (code : Z) : list byte :=
  write_frame_header out op_close 2 ++ [byte_of_Z (Z.shiftr code 8); byte_of_Z (Z.land code 0xff)].

Definition write_pong (out payload : list byte) : list byte :=
  write_frame_header out op_pong (Z.of_nat (length payload)) ++ payload.

Definition write_ping (out payload : list byte) : list byte :=
  let n := if (125 <? length payload)%nat then 125%nat else length payload in
  let out := write_frame_header out op_ping (Z.of_nat n) in
  if (0 <? n)%nat then out ++ take n payload else out.

(** ** RFC 6455: frames *)

(** [f_payload] is the payload as it is sent, masked if there is a key. *)
Record ws_frame := mkFrame { f_fin : bool; f_op : Z; f_key : option (list byte); f_payload : list byte }.

Definition plain_len (f : ws_frame) : Z := Z.of_nat (length (f_payload f)).

Definition control_op (op : Z) : bool := (8 <=? op) && (op <=? 10).

Definition known_op (op : Z) : bool := (0 <=? op) && (op <=? 2) || control_op op.

Definition frame_wf (f : ws_frame) : bool :=
  known_op (f_op f) && (if control_op (f_op f) then f_fin f && (plain_len f <=? 125) else true) &&
  (plain_len f <=? max_frame_payload) &&
  match f_key f with Some k => (length k =? 4)%nat | None => true end.

(** 5.2: the length in seven bits, or sixteen, or sixty-four, the shortest form. *)
Definition len_field (mask : bool) (n : Z) : list byte :=
  let m := 128 * Z.b2z mask in
  if n <=? 125 then [byte_of_Z (m + n)]
  else if n <=? 65535 then byte_of_Z (m + 126) :: be_bytes 2 n
  else byte_of_Z (m + 127) :: be_bytes 8 n.

Definition has_key (f : ws_frame) : bool := match f_key f with Some _ => true | None => false end.

Definition frame_start (f : ws_frame) : list byte :=
  byte_of_Z (128 * Z.b2z (f_fin f) + f_op f) :: len_field (has_key f) (plain_len f).

Definition encode_frame (f : ws_frame) : list byte := frame_start f ++ default [] (f_key f) ++ f_payload f.

(** The head [frame_head] should give for [f]. *)
Definition head_of (f : ws_frame) : FrameHead :=
  let off := Z.of_nat (length (frame_start f)) in
  let poff := off + (if has_key f then 4 else 0) in
  mkHead (poff + plain_len f) poff (plain_len f) (f_op f) (f_fin f) (has_key f) off.

(** 5.3: octet [i] of the payload with octet [i mod 4] of the key. *)
Definition xor_key (k p : list byte) : list byte :=
  imap (fun i x => byte_of_Z (Z.lxor (byte_val x) (byte_val (k !!! (i mod 4)%nat)))) p.

(** ** Bytes of a head *)

Lemma first_byte b :
  Z.land (byte_val b) 0x70 = 0 ->
  byte_val b = 128 * Z.b2z (negb (Z.land (byte_val b) 0x80 =? 0)) + Z.land (byte_val b) 0x0f.
Proof.
  intros H. enough (E : (negb (Z.land (byte_val b) 0x70 =? 0) ||
    (byte_val b =? 128 * Z.b2z (negb (Z.land (byte_val b) 0x80 =? 0)) + Z.land (byte_val b) 0x0f)) = true) by lia.
  clear H. revert b. apply byte_cases. vm_compute. reflexivity.
Qed.

Lemma first_byte_of fn op :
  known_op op = true -> let b := byte_val (byte_of_Z (128 * Z.b2z fn + op)) in
  Z.land b 0x70 = 0 /\ Z.land b 0x0f = op /\ negb (Z.land b 0x80 =? 0) = fn.
Proof.
  unfold known_op, control_op. intros H.
  assert (op ∈ [0; 1; 2; 8; 9; 10]) as Hin by (rewrite !elem_of_cons, elem_of_nil; lia).
  repeat (apply elem_of_cons in Hin as [->|Hin]); [destruct fn; vm_compute; auto ..|]. by apply elem_of_nil in Hin.
Qed.

(** The opcode tests of the code are the RFC's. *)
Lemma known_op_test op :
  0 <= op < 16 -> (0x2 <? op) && (op <? 0x8) || (0xa <? op) = negb (known_op op).
Proof. intros H. unfold known_op, control_op. lia. Qed.

Lemma control_op_test op : 0 <= op < 16 -> known_op op = true -> negb (Z.land op 0x8 =? 0) = control_op op.
Proof.
  unfold known_op, control_op. intros _ H.
  assert (op ∈ [0; 1; 2; 8; 9; 10]) as Hin by (rewrite !elem_of_cons, elem_of_nil; lia).
  repeat (apply elem_of_cons in Hin as [->|Hin]); [vm_compute; reflexivity ..|]. by apply elem_of_nil in Hin.
Qed.

Lemma land_0f_range b : 0 <= Z.land (byte_val b) 0x0f < 16.
Proof. change 0x0f with (Z.ones 4). rewrite Z.land_ones by lia. by apply Z.mod_pos_bound. Qed.

Lemma second_byte b :
  byte_val b = 128 * Z.b2z (negb (Z.land (byte_val b) 0x80 =? 0)) + Z.land (byte_val b) 0x7f /\
  0 <= Z.land (byte_val b) 0x7f <= 127.
Proof.
  rewrite byte_low7, byte_high_bit. pose proof (byte_val_range b).
  destruct (Z.ltb_spec (byte_val b) 128); cbn [negb Z.b2z]; Z.div_mod_to_equations; lia.
Qed.

Lemma second_byte_of m n :
  0 <= n <= 127 -> let b := byte_val (byte_of_Z (128 * Z.b2z m + n)) in
  Z.land b 0x7f = n /\ negb (Z.land b 0x80 =? 0) = m.
Proof.
  intros Hn. cbv zeta. rewrite byte_low7, byte_high_bit, byte_val_of_Z_small by (destruct m; cbn; lia).
  destruct m; cbn [Z.b2z]; (split; [Z.div_mod_to_equations; lia | lia]).
Qed.

Lemma read_be_spec n buf off v :
  0 <= v < 256 ^ (8 - Z.of_nat n) -> (n <= 8)%nat -> (off + n <= length buf)%nat ->
  read_be n buf off v = Some (v * 256 ^ Z.of_nat n + be_val (take n (drop off buf))).
Proof.
  revert off v. induction n as [|n IH]; intros off v Hv Hn Hl; cbn [read_be];
    [f_equal; rewrite take_0; change (be_val []) with 0; change (256 ^ Z.of_nat 0) with 1; lia|].
  destruct (lookup_lt_is_Some_2 buf off) as [b Hb]; [lia|]. rewrite Hb. cbn [mbind option_bind].
  rewrite (drop_S buf b off Hb). pose proof (byte_val_range b) as Hbr.
  assert (E8 : 256 ^ (8 - Z.of_nat n) = 256 * 256 ^ (8 - Z.of_nat (S n)))
    by (rewrite <- Z.pow_succ_r by lia; f_equal; lia).
  assert (Hw : u64w (Z.shiftl v 8) = Z.shiftl v 8).
  { apply Z.mod_small. rewrite Z.shiftl_mul_pow2 by lia. change (2 ^ 8) with 256. change (2 ^ 64) with (256 ^ 8).
    assert (256 ^ (8 - Z.of_nat n) <= 256 ^ 8) by (apply Z.pow_le_mono_r; lia). lia. }
  rewrite Hw, lor_shiftl_byte, IH by lia. f_equal. cbn [take].
  rewrite Nat2Z.inj_succ, Z.pow_succ_r by lia. unfold be_val at 2. cbn [foldl].
  assert (Hbe : forall l x, foldl (fun v b => v * 256 + byte_val b) x l = x * 256 ^ Z.of_nat (length l) + be_val l).
  { clear. intros l x. induction l as [|b l IH] using rev_ind; [cbn; lia|].
    rewrite foldl_app, be_val_snoc, length_app. cbn [foldl length]. rewrite IH, Nat2Z.inj_add, Z.pow_add_r by lia.
    change (256 ^ Z.of_nat 1) with 256. lia. }
  rewrite Hbe, length_take, length_drop, Nat.min_l by lia. lia.
Qed.

(** [read_be] as the bytes themselves. *)
Lemma read_be_8 buf : (10 <= length buf)%nat -> read_be 8 buf 2 0 = Some (be_val (take 8 (drop 2 buf))).
Proof. intros H. rewrite read_be_spec; [done | done | lia | lia]. Qed.

(** ** [frame_head] on a buffer of at least two bytes *)

Definition start_bytes (fn : bool) (op : Z) (m : bool) (len7 : Z) : list byte :=
  [byte_of_Z (128 * Z.b2z fn + op); byte_of_Z (128 * Z.b2z m + len7)].

(** What is left to do once the first two bytes are understood. *)
Definition head_by_len (buf : list byte) (op : Z) (fn m : bool) (len7 : Z) : FrameHead :=
  let blen := Z.of_nat (length buf) in
  if control_op op && (negb fn || (125 <? len7)) then only_total err_malformed
  else if len7 =? 126 then
    if blen <? 4 then only_total incomplete
    else let plen := be_val (take 2 (drop 2 buf)) in
         if plen <? 126 then only_total err_malformed else head_tail buf op fn m plen 4
  else if len7 =? 127 then
    if blen <? 10 then only_total incomplete
    else let plen := be_val (take 8 (drop 2 buf)) in
         if (plen <? 65536) || (max_frame_payload <? plen) then only_total err_malformed else head_tail buf op fn m plen 10
  else head_tail buf op fn m len7 2.

Lemma known_op_range op : known_op op = true -> 0 <= op < 16.
Proof. unfold known_op, control_op. lia. Qed.

Lemma frame_head_start fn op m len7 tl :
  known_op op = true -> 0 <= len7 <= 127 ->
  frame_head (start_bytes fn op m len7 ++ tl) = Some (head_by_len (start_bytes fn op m len7 ++ tl) op fn m len7).
Proof.
  intros Hop Hl. pose proof (known_op_range op Hop). unfold frame_head, head_by_len.
  destruct (first_byte_of fn op Hop) as (H70 & H0f & H80). destruct (second_byte_of m len7 Hl) as (H7f & H80').
  set (buf := start_bytes fn op m len7 ++ tl). assert (Hb : Z.of_nat (length buf) = 2 + Z.of_nat (length tl)) by (cbn [buf start_bytes app length]; lia).
  destruct (Z.ltb_spec (Z.of_nat (length buf)) 2); [lia|].
  change (buf !! 0%nat) with (Some (byte_of_Z (128 * Z.b2z fn + op))). change (buf !! 1%nat) with (Some (byte_of_Z (128 * Z.b2z m + len7))).
  cbn [fmap option_fmap option_map mbind option_bind]. cbv zeta in *. rewrite H70, H0f, H80, H7f, H80'.
  cbn [Z.eqb negb]. rewrite known_op_test, Hop by done. cbn [negb]. rewrite control_op_test by done.
  destruct (control_op op && _); [done|].
  destruct (Z.eqb_spec len7 126); [|destruct (Z.eqb_spec len7 127)]; [| |done]; change (2 + 2) with 4; change (2 + 8) with 10.
  - destruct (Z.ltb_spec (Z.of_nat (length buf)) 4); [done|].
    destruct tl as [|h [|l tl']]; [cbn [length] in *; lia ..|].
    change (buf !! 2%nat) with (Some h). change (buf !! 3%nat) with (Some l). change (take 2 (drop 2 buf)) with [h; l].
    cbn [fmap option_fmap option_map mbind option_bind]. rewrite lor_shiftl_byte. change (be_val [h; l]) with ((0 * 256 + byte_val h) * 256 + byte_val l).
    replace ((0 * 256 + byte_val h) * 256 + byte_val l) with (byte_val h * 256 + byte_val l) by lia. by destruct (_ <? 126).
  - destruct (Z.ltb_spec (Z.of_nat (length buf)) 10); [done|]. rewrite read_be_8 by lia. cbn [mbind option_bind].
    by destruct (_ || _).
Qed.

(** Any two first bytes are a refused start or those of an allowed one. *)
Lemma start_cases b0 b1 tl :
  frame_head (b0 :: b1 :: tl) = Some (only_total err_malformed) /\
    (forall tl', frame_head (b0 :: b1 :: tl') = Some (only_total err_malformed)) \/
  exists fn op m len7, known_op op = true /\ 0 <= len7 <= 127 /\ [b0; b1] = start_bytes fn op m len7.
Proof.
  assert (Hlt : forall tl', (Z.of_nat (length (b0 :: b1 :: tl')) <? 2) = false)
    by (intros tl'; apply Z.ltb_ge; cbn [length]; lia).
  destruct (decide (Z.land (byte_val b0) 0x70 = 0)) as [H70|H70].
  - destruct (known_op (Z.land (byte_val b0) 0x0f)) eqn:Hop.
    + right. exists (negb (Z.land (byte_val b0) 0x80 =? 0)), (Z.land (byte_val b0) 0x0f),
        (negb (Z.land (byte_val b1) 0x80 =? 0)), (Z.land (byte_val b1) 0x7f).
      destruct (second_byte b1) as [E1 Hr]. split; [done|]. split; [done|]. unfold start_bytes.
      rewrite <- E1, <- (first_byte b0 H70), !byte_of_Z_val. done.
    + left. assert (H : forall tl', frame_head (b0 :: b1 :: tl') = Some (only_total err_malformed)); [|auto].
      intros tl'. unfold frame_head. rewrite Hlt. cbn [lookup list_lookup fmap option_fmap option_map mbind option_bind].
      rewrite H70. cbn [Z.eqb negb]. cbv zeta. rewrite known_op_test, Hop by apply land_0f_range. done.
  - left. assert (H : forall tl', frame_head (b0 :: b1 :: tl') = Some (only_total err_malformed)); [|auto].
    intros tl'. unfold frame_head. rewrite Hlt. cbn [lookup list_lookup fmap option_fmap option_map mbind option_bind].
    destruct (Z.eqb_spec (Z.land (byte_val b0) 0x70) 0); [done|]. done.
Qed.

Lemma frame_head_short buf : (length buf < 2)%nat -> frame_head buf = Some (only_total incomplete).
Proof. intros H. unfold frame_head. destruct (Z.ltb_spec (Z.of_nat (length buf)) 2); [done | lia]. Qed.

(** A case for each way [frame_head] goes; no access is out of bounds. *)
Lemma frame_head_cases buf :
  (length buf < 2)%nat /\ frame_head buf = Some (only_total incomplete) \/
  (forall ext, frame_head (buf ++ ext) = Some (only_total err_malformed)) \/
  exists fn op m len7 tl, known_op op = true /\ 0 <= len7 <= 127 /\ buf = start_bytes fn op m len7 ++ tl /\
    forall ext, frame_head (buf ++ ext) = Some (head_by_len (buf ++ ext) op fn m len7).
Proof.
  destruct buf as [|b0 [|b1 tl]]; [left; split; [cbn; lia | done] ..|]. right.
  destruct (start_cases b0 b1 tl) as [[_ H]|(fn & op & m & len7 & Hop & Hl & E)]; [left; intros ext; apply H|right].
  exists fn, op, m, len7, tl. change (b0 :: b1 :: tl) with ([b0; b1] ++ tl). rewrite E. split; [done|]. split; [done|].
  split; [done|]. intros ext. rewrite <- app_assoc. by apply frame_head_start.
Qed.

(** ** Against the RFC's frames *)

Definition len7_of (n : Z) : Z := if n <=? 125 then n else if n <=? 65535 then 126 else 127.

Definition ext_of (n : Z) : list byte := if n <=? 125 then [] else if n <=? 65535 then be_bytes 2 n else be_bytes 8 n.

Lemma frame_start_split f :
  frame_start f = start_bytes (f_fin f) (f_op f) (has_key f) (len7_of (plain_len f)) ++ ext_of (plain_len f).
Proof. unfold frame_start, len_field, len7_of, ext_of, start_bytes. by destruct (plain_len f <=? 125), (plain_len f <=? 65535). Qed.

Lemma len7_of_range n : 0 <= n -> 0 <= len7_of n <= 127.
Proof. intros H. unfold len7_of. destruct (Z.leb_spec n 125), (Z.leb_spec n 65535); lia. Qed.

(** A frame may have a length [n]. *)
Definition len_ok (op : Z) (fn : bool) (n : Z) : Prop :=
  0 <= n <= max_frame_payload /\ (control_op op = true -> fn = true /\ n <= 125).

Lemma head_by_len_ok fn op m n tl :
  len_ok op fn n -> let buf := start_bytes fn op m (len7_of n) ++ ext_of n ++ tl in
  head_by_len buf op fn m (len7_of n) = head_tail buf op fn m n (2 + Z.of_nat (length (ext_of n))).
Proof.
  intros [Hn Hc] buf. unfold head_by_len. unfold max_frame_payload in *.
  assert (Hctl : control_op op && (negb fn || (125 <? len7_of n)) = false).
  { destruct (control_op op); [|done]. destruct Hc as [-> Hle]; [done|]. unfold len7_of. cbn [andb negb orb].
    destruct (Z.leb_spec n 125); lia. }
  cbv zeta. rewrite Hctl. change (drop 2 buf) with (ext_of n ++ tl).
  assert (Hbuf : length buf = (2 + (length (ext_of n) + length tl))%nat) by (unfold buf; by rewrite !length_app).
  unfold len7_of, ext_of in *. destruct (Z.leb_spec n 125).
  - destruct (Z.eqb_spec n 126); [lia|]. destruct (Z.eqb_spec n 127); [lia|]. done.
  - destruct (Z.leb_spec n 65535); rewrite length_be_bytes in *; cbn [Z.eqb Pos.eqb].
    + destruct (Z.ltb_spec (Z.of_nat (length buf)) 4); [lia|].
      rewrite take_app_length' by (by rewrite length_be_bytes). rewrite be_val_be_bytes_small by (change (256 ^ Z.of_nat 2) with 65536; lia).
      destruct (Z.ltb_spec n 126); [lia | done].
    + destruct (Z.ltb_spec (Z.of_nat (length buf)) 10); [lia|].
      rewrite take_app_length' by (by rewrite length_be_bytes).
      rewrite be_val_be_bytes_small by (change (256 ^ Z.of_nat 8) with 18446744073709551616; lia).
      unfold max_frame_payload. destruct (Z.ltb_spec n 65536), (Z.ltb_spec (16 * 1024 * 1024) n); lia || done.
Qed.

(** The length field is refused however the buffer continues, or is not complete, or
    gives a length a frame may have. *)
Lemma head_by_len_cases fn op m len7 tl :
  known_op op = true -> 0 <= len7 <= 127 -> let buf := start_bytes fn op m len7 ++ tl in
  (forall ext, head_by_len (buf ++ ext) op fn m len7 = only_total err_malformed) \/
  head_by_len buf op fn m len7 = only_total incomplete /\ (length buf < 10)%nat \/
  exists n tl', len_ok op fn n /\ len7 = len7_of n /\ tl = ext_of n ++ tl'.
Proof.
  intros Hop Hl buf. assert (Hbuf : length buf = (2 + length tl)%nat) by done. unfold head_by_len.
  destruct (control_op op && _) eqn:Hc; [by left|]. unfold len_ok, max_frame_payload.
  assert (Hctl : control_op op = true -> fn = true /\ len7 <= 125).
  { intros H. rewrite H in Hc. destruct fn; cbn in Hc; lia. }
  destruct (Z.eqb_spec len7 126) as [->|H6]; [|destruct (Z.eqb_spec len7 127) as [->|H7]].
  - destruct (Z.ltb_spec (Z.of_nat (length buf)) 4); [right; left; split; [done | lia]|].
    set (n := be_val (take 2 tl)). pose proof (be_val_range (take 2 tl)) as Hr. rewrite length_take_le in Hr by lia.
    change (256 ^ Z.of_nat 2) with 65536 in Hr. destruct (Z.ltb_spec n 126) as [Hn|Hn].
    + left. intros ext. rewrite length_app. destruct (Z.ltb_spec (Z.of_nat (length buf + length ext)) 4); [lia|].
      change (drop 2 (buf ++ ext)) with (tl ++ ext). rewrite take_app_le by lia. fold n. by destruct (Z.ltb_spec n 126); [|lia].
    + right; right. exists n, (drop 2 tl). split; [split; [unfold n in *; lia | intros H'; destruct (Hctl H'); lia]|]. unfold len7_of, ext_of.
      destruct (Z.leb_spec n 125); [lia|]. destruct (Z.leb_spec n 65535); [|unfold n in *; lia]. split; [done|].
      unfold n. by rewrite be_bytes_be_val_eq, take_drop by (rewrite length_take; lia).
  - destruct (Z.ltb_spec (Z.of_nat (length buf)) 10); [right; left; split; [done | lia]|].
    set (n := be_val (take 8 tl)). destruct ((n <? 65536) || (16 * 1024 * 1024 <? n)) eqn:Hn.
    + left. intros ext. rewrite length_app. destruct (Z.ltb_spec (Z.of_nat (length buf + length ext)) 10); [lia|].
      change (drop 2 (buf ++ ext)) with (tl ++ ext). rewrite take_app_le by lia. fold n. unfold max_frame_payload. by rewrite Hn.
    + right; right. exists n, (drop 8 tl). split; [split; [lia | intros H'; destruct (Hctl H'); lia]|]. unfold len7_of, ext_of.
      destruct (Z.leb_spec n 125); [lia|]. destruct (Z.leb_spec n 65535); [lia|]. split; [done|].
      unfold n. by rewrite be_bytes_be_val_eq, take_drop by (rewrite length_take; lia).
  - right; right. exists len7, tl. split; [split; [lia | done]|]. unfold len7_of, ext_of. by destruct (Z.leb_spec len7 125); [|lia].
Qed.

Lemma length_ext_of n : 0 <= n -> (length (ext_of n) <= 8)%nat.
Proof. intros _. unfold ext_of. destruct (n <=? 125), (n <=? 65535); rewrite ?length_be_bytes; cbn; lia. Qed.

Lemma head_tail_cases buf op fn (m : bool) n off :
  0 <= n <= max_frame_payload -> 0 <= off ->
  let poff := off + (if m then 4 else 0) in
  head_tail buf op fn m n off =
    if Z.of_nat (length buf) <? poff + n then only_total incomplete else mkHead (poff + n) poff n op fn m off.
Proof.
  intros Hn Ho poff. unfold head_tail. cbv zeta. destruct (Z.ltb_spec max_frame_payload n); [lia|].
  replace (if m then off + 4 else off) with poff by (unfold poff; destruct m; lia).
  destruct (Z.ltb_spec (Z.of_nat (length buf)) poff), (Z.ltb_spec (Z.of_nat (length buf)) (poff + n)); try done. lia.
Qed.

Lemma frame_wf_parts f :
  frame_wf f = true ->
  known_op (f_op f) = true /\ len_ok (f_op f) (f_fin f) (plain_len f) /\
  (forall k, f_key f = Some k -> length k = 4%nat).
Proof.
  unfold frame_wf, len_ok. intros [[[Hop Hc]%andb_prop Hm]%andb_prop Hk]%andb_prop.
  apply Z.leb_le in Hm. split; [done|]. split; [split; [unfold plain_len in *; lia|]|].
  - intros E. rewrite E in Hc. apply andb_prop in Hc as [-> Hc]. split; [done | lia].
  - intros k E. rewrite E in Hk. by apply Nat.eqb_eq in Hk.
Qed.

Lemma length_encode_frame f : frame_wf f = true -> Z.of_nat (length (encode_frame f)) = total (head_of f).
Proof.
  intros (_ & _ & Hk)%frame_wf_parts. unfold encode_frame, head_of, has_key, plain_len. cbn [total].
  rewrite !length_app. destruct (f_key f) as [k|]; cbn [from_option length]; unfold id; [rewrite (Hk k eq_refl)|]; lia.
Qed.

Lemma frame_head_encode f rest : frame_wf f = true -> frame_head (encode_frame f ++ rest) = Some (head_of f).
Proof.
  intros Hwf. pose proof (length_encode_frame f Hwf) as Hlen. destruct (frame_wf_parts f Hwf) as (Hop & Hok & Hk).
  pose proof Hok as [Hn _]. unfold encode_frame in *. rewrite frame_start_split, <- !app_assoc.
  rewrite frame_head_start by (done || (apply len7_of_range; lia)). f_equal. rewrite head_by_len_ok by done.
  rewrite head_tail_cases by (done || lia).
  set (tl := default [] (f_key f) ++ f_payload f ++ rest).
  assert (Hs : Z.of_nat (length (frame_start f)) = 2 + Z.of_nat (length (ext_of (plain_len f)))).
  { rewrite frame_start_split, length_app. cbn [start_bytes length]. lia. }
  unfold head_of in *. cbv zeta in *. rewrite Hs in *. cbn [total] in Hlen.
  destruct (Z.ltb_spec (Z.of_nat (length (start_bytes (f_fin f) (f_op f) (has_key f) (len7_of (plain_len f)) ++ ext_of (plain_len f) ++ tl)))
    (2 + Z.of_nat (length (ext_of (plain_len f))) + (if has_key f then 4 else 0) + plain_len f)); [|done].
  exfalso. unfold tl in *. rewrite !length_app in *. cbn [start_bytes length] in *. lia.
Qed.

Lemma frame_head_sound buf h :
  frame_head buf = Some h -> 0 <= total h ->
  exists f rest, frame_wf f = true /\ buf = encode_frame f ++ rest /\ h = head_of f.
Proof.
  intros E Ht. destruct (frame_head_cases buf) as [[_ E']|[E'|(fn & op & m & len7 & tl & Hop & Hl & -> & E')]].
  - rewrite E in E'. injection E' as ->. done.
  - specialize (E' []). rewrite app_nil_r, E in E'. injection E' as ->. done.
  - specialize (E' []). rewrite app_nil_r, E in E'.
    assert (h = head_by_len (start_bytes fn op m len7 ++ tl) op fn m len7) as -> by congruence. clear E E'.
    destruct (head_by_len_cases fn op m len7 tl Hop Hl) as [Hm|[[Hi _]|(n & tl' & Hok & -> & ->)]].
    { specialize (Hm []). rewrite app_nil_r in Hm. rewrite Hm in Ht. done. }
    { rewrite Hi in Ht. done. }
    pose proof Hok as [Hn Hc]. rewrite head_by_len_ok, head_tail_cases in Ht |- * by (done || lia).
    set (key := if m then Some (take 4 tl') else None). set (kl := (if m then 4 else 0)%nat).
    destruct (_ <? _) eqn:Hge in Ht |- *; [done|]. clear Ht. apply Z.ltb_ge in Hge.
    assert (Hlen : (kl + Z.to_nat n <= length tl')%nat).
    { rewrite !length_app in Hge. cbn [start_bytes length] in Hge. unfold kl. destruct m; lia. }
    set (f := mkFrame fn op key (take (Z.to_nat n) (drop kl tl'))). exists f, (drop (kl + Z.to_nat n) tl').
    assert (Hpl : plain_len f = n) by (unfold plain_len, f; cbn [f_payload]; rewrite length_take, length_drop; lia).
    assert (Hkey : has_key f = m) by (unfold has_key, f, key; cbn [f_key]; by destruct m). split; [|split].
    + unfold frame_wf. rewrite Hpl. cbn [f f_op f_fin f_key]. rewrite Hop. unfold len_ok in *.
      replace (match key with Some k => (length k =? 4)%nat | None => true end) with true
        by (unfold key, kl in *; destruct m; [rewrite length_take, Nat.min_l by lia|]; done).
      destruct (control_op op); [destruct (Hc eq_refl) as [-> ?]|]; cbn [andb]; lia.
    + unfold encode_frame. rewrite frame_start_split, Hpl, Hkey. cbn [f f_op f_fin f_key f_payload]. rewrite <- !app_assoc. do 2 f_equal.
      rewrite <- drop_drop, take_drop. unfold key, kl. destruct m; cbn [from_option app]; unfold id; [by rewrite take_drop | done].
    + unfold head_of. rewrite frame_start_split, Hpl, Hkey, length_app, Nat2Z.inj_add. done.
Qed.

(** C17: [frame_head] decides the frame at the front of a buffer, without reading
    outside it. A whole legal frame is recognised with its exact offsets, and only such
    a frame is; a buffer refused as malformed cannot be continued to a legal
    frame and stays refused; "incomplete" is only answered when no whole frame is there,
    and never once the largest allowed frame fits. *)
Theorem frame_head_exact buf :
  exists h, frame_head buf = Some h /\
    (forall f rest, frame_wf f = true -> buf = encode_frame f ++ rest -> h = head_of f) /\
    (0 <= total h /\ (exists f rest, frame_wf f = true /\ buf = encode_frame f ++ rest /\ h = head_of f /\
        total h = Z.of_nat (length (encode_frame f))) \/
     h = only_total incomplete /\ Z.of_nat (length buf) < 14 + max_frame_payload \/
     h = only_total err_malformed /\ forall ext, frame_head (buf ++ ext) = Some h /\
        forall f rest, frame_wf f = true -> buf ++ ext <> encode_frame f ++ rest).
Proof.
  assert (Hall : exists h, frame_head buf = Some h /\
    (0 <= total h \/ h = only_total incomplete /\ Z.of_nat (length buf) < 14 + max_frame_payload \/
     h = only_total err_malformed /\ forall ext, frame_head (buf ++ ext) = Some h)).
  { destruct (frame_head_cases buf) as [[Hs E]|[E|(fn & op & m & len7 & tl & Hop & Hl & -> & E)]].
    - exists (only_total incomplete). split; [done|]. right; left. split; [done|]. unfold max_frame_payload. lia.
    - exists (only_total err_malformed). split; [by rewrite <- (E []), app_nil_r | auto].
    - destruct (head_by_len_cases fn op m len7 tl Hop Hl) as [Hm|[[Hi Hb]|(n & tl' & Hok & -> & ->)]];
        pose proof (E []) as E0; rewrite app_nil_r in E0.
      + exists (only_total err_malformed). pose proof (Hm []) as Hm0. rewrite app_nil_r in Hm0. rewrite E0, Hm0.
        split; [done|]. right; right. split; [done|]. intros ext. by rewrite E, Hm.
      + rewrite E0, Hi. eexists. split; [done|]. right; left. split; [done|]. unfold max_frame_payload. lia.
      + pose proof Hok as [Hn _]. rewrite E0, head_by_len_ok, head_tail_cases by (done || lia). eexists. split; [done|].
        pose proof (length_ext_of n ltac:(lia)). destruct (_ <? _) eqn:Hlt; [|left; destruct m; cbn [total]; lia].
        apply Z.ltb_lt in Hlt. right; left. split; [done|]. destruct m; lia. }
  destruct Hall as (h & E & Hh). exists h. split; [done|]. split.
  - intros f rest Hwf ->. rewrite frame_head_encode in E by done. by injection E.
  - destruct Hh as [Ht|[?|[-> Hs]]]; [left|auto|right; right].
    + split; [done|]. destruct (frame_head_sound buf h E Ht) as (f & rest & Hwf & Hb & Hh).
      exists f, rest. repeat (split; [done|]). by rewrite Hh, length_encode_frame.
    + split; [done|]. intros ext. split; [apply Hs|]. intros f rest Hwf Eb. specialize (Hs ext).
      rewrite Eb, frame_head_encode in Hs by done.
      assert (Hh : head_of f = only_total err_malformed) by congruence.
      pose proof (length_encode_frame f Hwf) as Hl. rewrite Hh in Hl. cbn [total only_total] in Hl. unfold err_malformed in Hl. lia.
Qed.

(** ** Unmasking *)

Lemma lookup_app_add {A} (l k : list A) i : (l ++ k) !! (length l + i)%nat = k !! i.
Proof. rewrite lookup_app_r by lia. f_equal. lia. Qed.

Lemma unmask_loop_spec n i buf h pre k p post :
  buf = pre ++ k ++ p ++ post -> length k = 4%nat -> mask_off h = Z.of_nat (length pre) ->
  payload_off h = Z.of_nat (length pre + 4) -> (i + n = length p)%nat ->
  unmask_loop n (Z.of_nat i) buf h =
    Some (pre ++ k ++ (take i p ++ imap (fun j x => byte_of_Z (Z.lxor (byte_val x) (byte_val (k !!! ((i + j) mod 4)%nat)))) (drop i p)) ++ post).
Proof.
  intros -> Hk Hm Hp. revert i p. induction n as [|n IH]; intros i p Hn; cbn [unmask_loop].
  { rewrite take_ge, drop_ge by lia. cbn [imap]. by rewrite app_nil_r. }
  rewrite Hm, Hp. destruct (lookup_lt_is_Some_2 p i) as [x Hx]; [lia|].
  assert (Hi3 : Z.land (Z.of_nat i) 3 = Z.of_nat (i mod 4)).
  { change 3 with (Z.ones 2). rewrite Z.land_ones, Nat2Z.inj_mod by lia. done. }
  replace (Z.to_nat (Z.of_nat (length pre + 4) + Z.of_nat i)) with (length pre + (length k + i))%nat by lia.
  rewrite (lookup_app_add pre), (lookup_app_add k), (lookup_app_l p), Hx by lia. cbn [mbind option_bind].
  pose proof (Nat.mod_upper_bound i 4 ltac:(lia)) as Hmod.
  replace (Z.to_nat (Z.of_nat (length pre) + Z.land (Z.of_nat i) 3)) with (length pre + i mod 4)%nat by lia.
  destruct (lookup_lt_is_Some_2 k (i mod 4)) as [y Hy]; [lia|].
  rewrite (lookup_app_add pre), (lookup_app_l k), Hy by lia. cbn [mbind option_bind].
  rewrite (insert_app_r pre), (insert_app_r k), (insert_app_l p) by lia.
  replace (Z.of_nat i + 1) with (Z.of_nat (S i)) by lia.
  rewrite IH by (rewrite length_insert; lia). do 4 f_equal.
  rewrite (take_S_r _ _ (byte_of_Z (Z.lxor (byte_val x) (byte_val y)))) by (apply list_lookup_insert_eq; lia).
  rewrite (take_insert_ge p i), (drop_insert_lt p (S i)), (drop_S p x i Hx) by lia. cbn [imap].
  rewrite <- app_assoc. f_equal. cbn [app]. rewrite Nat.add_0_r, (list_lookup_total_correct k _ y Hy). f_equal.
  apply imap_ext. intros j z _. unfold compose. by replace (i + S j)%nat with (S i + j)%nat by lia.
Qed.

Lemma xor_key_involutive k p : xor_key k (xor_key k p) = p.
Proof.
  unfold xor_key. apply list_eq. intros i. rewrite !list_lookup_imap.
  destruct (p !! i) as [x|]; [|done]. cbn [fmap option_fmap option_map]. f_equal.
  assert (Hr : forall a b : byte, 0 <= Z.lxor (byte_val a) (byte_val b) < 256).
  { intros a b. pose proof (byte_val_range a). pose proof (byte_val_range b).
    assert (Hn : 0 <= Z.lxor (byte_val a) (byte_val b)) by (apply Z.lxor_nonneg; lia). split; [done|].
    destruct (decide (Z.lxor (byte_val a) (byte_val b) = 0)) as [->|]; [done|].
    change 256 with (2 ^ 8). apply Z.log2_lt_pow2; [lia|].
    assert (Hlog : forall c : byte, Z.log2 (byte_val c) <= 7).
    { intros c. pose proof (byte_val_range c). destruct (decide (byte_val c = 0)) as [->|]; [done|].
      enough (Z.log2 (byte_val c) < 8) by lia. apply Z.log2_lt_pow2; lia. }
    pose proof (Z.log2_lxor (byte_val a) (byte_val b) ltac:(lia) ltac:(lia)). pose proof (Hlog a). pose proof (Hlog b). lia. }
  rewrite byte_val_of_Z_small by apply Hr. rewrite Z.lxor_assoc, Z.lxor_nilpotent, Z.lxor_0_r. apply byte_of_Z_val.
Qed.

Lemma length_xor_key k p : length (xor_key k p) = length p.
Proof. unfold xor_key. apply length_imap. Qed.

Lemma unmask_encode f k rest :
  frame_wf f = true -> f_key f = Some k ->
  unmask_in_place (encode_frame f ++ rest) (head_of f) = Some (frame_start f ++ k ++ xor_key k (f_payload f) ++ rest).
Proof.
  intros Hwf Ek. destruct (frame_wf_parts f Hwf) as (_ & _ & Hk). specialize (Hk k Ek).
  unfold unmask_in_place, head_of, has_key. rewrite Ek. cbn [masked negb payload_len].
  unfold encode_frame, plain_len. rewrite Ek, Nat2Z.id. cbn [from_option]. unfold id.
  rewrite (unmask_loop_spec _ 0 _ _ (frame_start f) k (f_payload f) rest); [done | | done | done | cbn [payload_off]; lia | lia].
  by rewrite <- !app_assoc.
Qed.

(** A masked message arrives as it was sent: of a client frame followed by
    anything, [frame_head] gives the offsets and [unmask_in_place] leaves the plain
    payload there and everything else of the buffer as it was. *)
Theorem masked_message_roundtrip fn op k p rest :
  let f := mkFrame fn op (Some k) (xor_key k p) in
  frame_wf f = true ->
  exists h buf', frame_head (encode_frame f ++ rest) = Some h /\ opcode h = op /\ fin h = fn /\ masked h = true /\
    unmask_in_place (encode_frame f ++ rest) h = Some buf' /\
    take (Z.to_nat (payload_len h)) (drop (Z.to_nat (payload_off h)) buf') = p /\
    take (Z.to_nat (payload_off h)) buf' = take (Z.to_nat (payload_off h)) (encode_frame f) /\
    drop (Z.to_nat (total h)) buf' = rest.
Proof.
  intros f Hwf. exists (head_of f), (frame_start f ++ k ++ p ++ rest). rewrite frame_head_encode by done.
  rewrite (unmask_encode f k rest Hwf eq_refl). cbn [f f_payload]. rewrite xor_key_involutive.
  destruct (frame_wf_parts f Hwf) as (_ & _ & Hk). specialize (Hk k eq_refl).
  assert (Ho : Z.to_nat (payload_off (head_of f)) = length (frame_start f ++ k)) by (rewrite length_app, Hk; cbn [head_of payload_off has_key f f_key]; lia).
  assert (Hl : Z.to_nat (payload_len (head_of f)) = length p) by (cbn [head_of payload_len]; unfold plain_len; rewrite Nat2Z.id; apply length_xor_key).
  assert (Ht : Z.to_nat (total (head_of f)) = (length (frame_start f ++ k) + length p)%nat).
  { rewrite <- Ho, <- Hl. cbn [head_of total payload_off payload_len]. unfold plain_len. destruct (has_key f); lia. }
  rewrite Ho, Hl, Ht. unfold encode_frame. cbn [f f_key f_payload from_option]. unfold id. rewrite !(app_assoc (frame_start f) k).
  repeat (split; [done|]). rewrite drop_app_length, !take_app_length. repeat (split; [done|]).
  by rewrite <- drop_drop, !drop_app_length.
Qed.

(** RFC 6455 5.7: a masked text message "Hello". *)
Lemma masked_message_roundtrip_witness :
  let k := byte_of_Z <$> [0x37; 0xfa; 0x21; 0x3d] in
  let f := mkFrame true op_text (Some k) (xor_key k (bytes_of "Hello")) in
  encode_frame f = byte_of_Z <$> [0x81; 0x85; 0x37; 0xfa; 0x21; 0x3d; 0x7f; 0x9f; 0x4d; 0x51; 0x58] /\
  exists h buf', frame_head (encode_frame f ++ [NUL]) = Some h /\ opcode h = op_text /\ fin h = true /\ masked h = true /\
    unmask_in_place (encode_frame f ++ [NUL]) h = Some buf' /\
    take (Z.to_nat (payload_len h)) (drop (Z.to_nat (payload_off h)) buf') = bytes_of "Hello" /\
    take (Z.to_nat (payload_off h)) buf' = take (Z.to_nat (payload_off h)) (encode_frame f) /\
    drop (Z.to_nat (total h)) buf' = [NUL].
Proof.
  intros k f. split; [vm_compute; reflexivity|].
  apply (masked_message_roundtrip true op_text k (bytes_of "Hello") [NUL]). vm_compute. reflexivity.
Defined.

(** ** Writing *)

Lemma write_be_spec n out v : write_be n out v (8 * Z.of_nat n - 8) = out ++ be_bytes n v.
Proof.
  revert out. induction n as [|n IH]; intros out; cbn [write_be]; [by rewrite app_nil_r|].
  replace (8 * Z.of_nat (S n) - 8 - 8) with (8 * Z.of_nat n - 8) by lia. rewrite IH, be_bytes_cons, byte_of_land_ff.
  rewrite Z.shiftr_div_pow2 by lia. replace (8 * Z.of_nat (S n) - 8) with (8 * Z.of_nat n) by lia.
  rewrite Z.pow_mul_r by lia. by rewrite <- app_assoc.
Qed.

Lemma lor_80 op : known_op op = true -> Z.lor 0x80 op = 128 * Z.b2z true + op.
Proof. intros H%known_op_range. apply (lor_high_bit op 7); [lia | change (2 ^ 7) with 128; lia]. Qed.

Lemma write_frame_header_spec out op p :
  known_op op = true ->
  write_frame_header out op (Z.of_nat (length p)) ++ p = out ++ encode_frame (mkFrame true op None p).
Proof.
  intros Hop. unfold write_frame_header, encode_frame, frame_start, len_field, plain_len.
  cbn [f_fin f_op f_key f_payload has_key from_option Z.b2z]. unfold id. rewrite (lor_80 op Hop). cbn [Z.b2z].
  set (n := Z.of_nat (length p)). change (128 * 0) with 0.
  destruct (Z.leb_spec n 125); [by rewrite <- !app_assoc|].
  change (0xffff) with 65535. destruct (Z.leb_spec n 65535).
  - rewrite shiftr_8, byte_of_land_ff, <- !app_assoc. done.
  - rewrite (write_be_spec 8), <- !app_assoc. done.
Qed.

(** Everything the server writes is one legal frame after what was already
    there, and [frame_head] reads it: a message with its header, a close code, a pong for
    a legal ping, and a ping, whose payload is cut to 125 bytes. *)
Theorem written_frames_parse_back out rest :
  (forall op p, known_op op = true -> Z.of_nat (length p) <= (if control_op op then 125 else max_frame_payload) ->
     exists buf, write_frame_header out op (Z.of_nat (length p)) ++ p ++ rest = out ++ buf /\
       frame_head buf = Some (head_of (mkFrame true op None p))) /\
  (forall code, 0 <= code < 65536 -> exists buf, write_close out code ++ rest = out ++ buf /\
     frame_head buf = Some (head_of (mkFrame true op_close None (be_bytes 2 code)))) /\
  (forall p, (length p <= 125)%nat -> exists buf, write_pong out p ++ rest = out ++ buf /\
     frame_head buf = Some (head_of (mkFrame true op_pong None p))) /\
  (forall p, exists buf, write_ping out p ++ rest = out ++ buf /\
     frame_head buf = Some (head_of (mkFrame true op_ping None (take 125 p)))).
Proof.
  assert (Hall : forall op p, known_op op = true -> Z.of_nat (length p) <= (if control_op op then 125 else max_frame_payload) ->
     exists buf, write_frame_header out op (Z.of_nat (length p)) ++ p ++ rest = out ++ buf /\
       frame_head buf = Some (head_of (mkFrame true op None p))).
  { intros op p Hop Hl. exists (encode_frame (mkFrame true op None p) ++ rest).
    rewrite !app_assoc, write_frame_header_spec by done. split; [done|]. apply frame_head_encode.
    unfold frame_wf, plain_len. cbn [f_op f_fin f_key f_payload]. rewrite Hop. unfold max_frame_payload in *.
    destruct (control_op op); cbn [andb]; lia. }
  split; [done|]. split; [|split].
  - intros code Hc. destruct (Hall op_close (be_bytes 2 code) eq_refl) as (buf & E & Hb); [done|]. exists buf. split; [|done].
    rewrite <- E. unfold write_close. rewrite <- app_assoc. f_equal. rewrite shiftr_8, byte_of_land_ff. done.
  - intros p Hp. destruct (Hall op_pong p eq_refl) as (buf & E & Hb); [cbn [control_op]; change (control_op op_pong) with true; cbn iota; lia|].
    exists buf. split; [|done]. rewrite <- E. unfold write_pong. by rewrite <- app_assoc.
  - intros p. destruct (Hall op_ping (take 125 p) eq_refl) as (buf & E & Hb);
      [change (control_op op_ping) with true; cbn iota; rewrite length_take; lia|].
    exists buf. split; [|done]. rewrite <- E. unfold write_ping. cbv zeta.
    replace (if (125 <? length p)%nat then 125%nat else length p) with (length (take 125 p))
      by (rewrite length_take; destruct (Nat.ltb_spec 125 (length p)); lia).
    destruct (Nat.ltb_spec 0 (length (take 125 p))).
    + rewrite <- app_assoc. f_equal. f_equal. rewrite length_take.
      destruct (decide (length p <= 125)%nat); [rewrite !take_ge by lia; done | f_equal; lia].
    + destruct (take 125 p); [done | cbn in *; lia].
Qed.
