(* ===== verification/Sha1.v ===== *)
(** websocket/websocket.v: the accept key of the opening handshake, with its own
    SHA-1, against FIPS 180-4. A result in [option] is [None] when an array is
    read or written outside of its bounds. *)
From S2P Require Import Prelude WireBytes.
Local Open Scope Z_scope.

Definition ws_guid : list byte := bytes_of "258EAFA5-E914-47DA-95CA-C5AB0DC85B11".

(** [h[0]] to [h[4]]. *)
Definition hash5 : Type := Z * Z * Z * Z * Z.

(** [(x << n) | (x >> (32 - n))] of a [u32]. *)
Definition rotate (x n : Z) : Z := Z.lor (u32 (Z.shiftl x n)) (Z.shiftr x (32 - n)).

(** [~x] of a [u32]. *)
Definition not32 (x : Z) : Z := Z.lxor x 0xffffffff.

(** [w[i]] for [i < 16]: four bytes of the block from [j = 4 i]. *)
Definition block_word (block : list byte) (i : nat) : option Z :=
  let j := (4 * i)%nat in
  b0 ← block !! j; b1 ← block !! (j + 1)%nat; b2 ← block !! (j + 2)%nat; b3 ← block !! (j + 3)%nat;
  Some (Z.lor (Z.lor (Z.lor (u32 (Z.shiftl (byte_val b0) 24)) (u32 (Z.shiftl (byte_val b1) 16)))
                     (u32 (Z.shiftl (byte_val b2) 8))) (byte_val b3)).

(** [for i in 16 .. 80]: [w] holds the words so far, [n] are left. *)
Fixpoint extend_words (n : nat) (w : list Z) : option (list Z) :=
  match n with
  | O => Some w
  | S n' =>
      let i := length w in
      w3 ← w !! (i - 3)%nat; w8 ← w !! (i - 8)%nat; w14 ← w !! (i - 14)%nat; w16 ← w !! (i - 16)%nat;
      let x := Z.lxor (Z.lxor (Z.lxor w3 w8) w14) w16 in
      extend_words n' (w ++ [rotate x 1])
  end.

(** One round of the second loop. *)
Definition sha1_round (i : nat) (wi : Z) (s : hash5) : hash5 :=
  let '(a, b, c, d, e) := s in
  let '(f, k) :=
    if (i <? 20)%nat then (Z.lor (Z.land b c) (Z.land (not32 b) d), 0x5a827999)
    else if (i <? 40)%nat then (Z.lxor (Z.lxor b c) d, 0x6ed9eba1)
    else if (i <? 60)%nat then (Z.lor (Z.lor (Z.land b c) (Z.land b d)) (Z.land c d), 0x8f1bbcdc)
    else (Z.lxor (Z.lxor b c) d, 0xca62c1d6) in
  let t := u32 (rotate a 5 + f + e + k + wi) in
  (t, a, rotate b 30, c, d).

Fixpoint sha1_rounds (i : nat) (w : list Z) (s : hash5) : hash5 :=
  match w with
  | [] => s
  | wi :: w' => sha1_rounds (S i) w' (sha1_round i wi s)
  end.

(** The rounds on a full [w], and the sums into [h]. *)
Definition sha1_update (w : list Z) (h : hash5) : hash5 :=
  let '(h0, h1, h2, h3, h4) := h in
  let '(a, b, c, d, e) := sha1_rounds 0 w h in
  (u32 (h0 + a), u32 (h1 + b), u32 (h2 + c), u32 (h3 + d), u32 (h4 + e)).

Definition sha1_compress (h : hash5) (block : list byte) : option hash5 :=
  w ← mapM (block_word block) (seq 0 16);
  w ← extend_words 64 w;
  Some (sha1_update w h).

(** [block[k] = b]. *)
Definition store (block : list byte) (k : nat) (b : byte) : option (list byte) :=
  if (k <? length block)%nat then Some (<[k := b]> block) else None.

(** The state after the call, and the bytes left buffered. *)
Fixpoint sha1_write (h : hash5) (block : list byte) (k : nat) (p : list byte) : option (hash5 * list byte * nat) :=
  match p with
  | [] => Some (h, block, k)
  | b :: p' =>
      block ← store block k b;
      let k := S k in
      if (k =? 64)%nat then h ← sha1_compress h block; sha1_write h block 0 p'
      else sha1_write h block k p'
  end.

(** [for k < limit { block[k] = 0; k++ }]. *)
Fixpoint zero_fill (n : nat) (block : list byte) (k : nat) : option (list byte) :=
  match n with
  | O => Some block
  | S n' => block ← store block k NUL; zero_fill n' block (S k)
  end.

(** [for i in 0 .. 8 { block[56 + i] = u8(bits >> (56 - 8 * i)) }], [n] rounds left. *)
Fixpoint write_bits (n : nat) (block : list byte) (i : nat) (bits : Z) : option (list byte) :=
  match n with
  | O => Some block
  | S n' =>
      block ← store block (56 + i) (byte_of_Z (Z.shiftr bits (56 - 8 * Z.of_nat i)));
      write_bits n' block (S i) bits
  end.

Definition word_digest (w : Z) : list byte :=
  [byte_of_Z (Z.shiftr w 24); byte_of_Z (Z.shiftr w 16); byte_of_Z (Z.shiftr w 8); byte_of_Z w].

Definition sha1_sum (h : hash5) (block : list byte) (n : nat) (total : Z) : option (list byte) :=
  let bits := u64w (Z.shiftl total 3) in
  block ← store block n (byte_of_Z 0x80);
  let k := S n in
  '(h, block, k) ← (if (56 <? k)%nat
    then block ← zero_fill (64 - k) block k; h ← sha1_compress h block; Some (h, block, O)
    else Some (h, block, k));
  block ← zero_fill (56 - k) block k;
  block ← write_bits 8 block 0 bits;
  '(h0, h1, h2, h3, h4) ← sha1_compress h block;
  Some (word_digest h0 ++ word_digest h1 ++ word_digest h2 ++ word_digest h3 ++ word_digest h4).

(** ** Base64 (RFC 4648), what [base64.encode_in_buffer] writes *)

Definition base64_alphabet : list byte :=
  bytes_of "ABCDEFGHIJKLMNOPQRSTUVWXYZabcdefghijklmnopqrstuvwxyz0123456789+/".

Definition base64_char (v : Z) : byte := base64_alphabet !!! Z.to_nat (v mod 64).

Fixpoint base64 (l : list byte) : list byte :=
  match l with
  | [] => []
  | [a] => let v := byte_val a * 16 in [base64_char (v / 64); base64_char v; byte_of_Z 61; byte_of_Z 61]
  | [a; b] =>
      let v := (byte_val a * 256 + byte_val b) * 4 in
      [base64_char (v / 4096); base64_char (v / 64); base64_char v; byte_of_Z 61]
  | a :: b :: c :: l' =>
      let v := (byte_val a * 256 + byte_val b) * 256 + byte_val c in
      [base64_char (v / 262144); base64_char (v / 4096); base64_char (v / 64); base64_char v] ++ base64 l'
  end.

Definition sha1_init : hash5 := (0x67452301, 0xefcdab89, 0x98badcfe, 0x10325476, 0xc3d2e1f0).

Definition append_accept_key (out client_key : list byte) : option (list byte) :=
  '(h, block, n) ← sha1_write sha1_init (replicate 64 NUL) 0 client_key;
  '(h, block, n) ← sha1_write h block n ws_guid;
  digest ← sha1_sum h block n (u64w (Z.of_nat (length client_key + length ws_guid)));
  Some (out ++ base64 digest).

Definition accept_key (client_key : list byte) : option (list byte) := append_accept_key [] client_key.

(** ** FIPS 180-4 *)

Definition ROTL (n x : Z) : Z := (x * 2 ^ n) mod 2 ^ 32 + x / 2 ^ (32 - n).
Definition Ch (x y z : Z) : Z := Z.lxor (Z.land x y) (Z.land (Z.lnot x) z).
Definition Parity (x y z : Z) : Z := Z.lxor (Z.lxor x y) z.
Definition Maj (x y z : Z) : Z := Z.lxor (Z.lxor (Z.land x y) (Z.land x z)) (Z.land y z).

(** 4.1.1, 4.2.1. *)
Definition ft (t : nat) : Z -> Z -> Z -> Z :=
  if (t <=? 19)%nat then Ch else if (t <=? 39)%nat then Parity else if (t <=? 59)%nat then Maj else Parity.
Definition Kt (t : nat) : Z :=
  if (t <=? 19)%nat then 0x5a827999 else if (t <=? 39)%nat then 0x6ed9eba1 else if (t <=? 59)%nat then 0x8f1bbcdc else 0xca62c1d6.

(** 6.1.2, step 1: the first [n] words of the schedule of the message block [m]. *)
Fixpoint schedule (m : list byte) (n : nat) : list Z :=
  match n with
  | O => []
  | S t =>
      let W := schedule m t in
      W ++ [if (t <=? 15)%nat then be_val (take 4 (drop (4 * t) m))
            else ROTL 1 (Z.lxor (Z.lxor (Z.lxor (W !!! (t - 3)%nat) (W !!! (t - 8)%nat)) (W !!! (t - 14)%nat)) (W !!! (t - 16)%nat))]
  end.

(** Step 3, [T] of the round [t]. *)
Definition ref_round (W : list Z) (s : hash5) (t : nat) : hash5 :=
  let '(a, b, c, d, e) := s in
  ((ROTL 5 a + ft t b c d + e + Kt t + W !!! t) mod 2 ^ 32, a, ROTL 30 b, c, d).

(** Steps 2 to 4 with the schedule [W]. *)
Definition ref_update (W : list Z) (h : hash5) : hash5 :=
  let '(h0, h1, h2, h3, h4) := h in
  let '(a, b, c, d, e) := foldl (ref_round W) h (seq 0 80) in
  ((a + h0) mod 2 ^ 32, (b + h1) mod 2 ^ 32, (c + h2) mod 2 ^ 32, (d + h3) mod 2 ^ 32, (e + h4) mod 2 ^ 32).

Definition ref_compress (h : hash5) (m : list byte) : hash5 := ref_update (schedule m 80) h.

(** 5.1.1: a one bit, zeros, and the length in bits. *)
Definition pad (m : list byte) : list byte :=
  m ++ [byte_of_Z 0x80] ++ replicate (Z.to_nat ((55 - Z.of_nat (length m)) mod 64)) NUL ++ be_bytes 8 (8 * Z.of_nat (length m)).

(** The first [n] blocks of 64 bytes. *)
Fixpoint blocks (n : nat) (m : list byte) : list (list byte) :=
  match n with
  | O => []
  | S n' => take 64 m :: blocks n' (drop 64 m)
  end.

Definition SHA1 (m : list byte) : list byte :=
  let '(h0, h1, h2, h3, h4) := foldl ref_compress sha1_init (blocks (length (pad m) / 64) (pad m)) in
  be_bytes 4 h0 ++ be_bytes 4 h1 ++ be_bytes 4 h2 ++ be_bytes 4 h3 ++ be_bytes 4 h4.

(** RFC 6455 1.3. *)
Example accept_key_rfc_example :
  accept_key (bytes_of "dGhlIHNhbXBsZSBub25jZQ==") = Some (bytes_of "s3pPLMBiTxaQ9kYGzzhZRbK+xOo=").
Proof. vm_compute. reflexivity. Qed.

Example SHA1_abc :
  SHA1 (bytes_of "abc") = be_bytes 20 0xa9993e364706816aba3e25717850c26c9cd0d89d.
Proof. vm_compute. reflexivity. Qed.

(** ** Words *)

Definition word (x : Z) : Prop := 0 <= x < 2 ^ 32.

Definition words5 (s : hash5) : Prop := let '(a, b, c, d, e) := s in word a /\ word b /\ word c /\ word d /\ word e.

Lemma word_mod x : word (x mod 2 ^ 32).
Proof. by apply Z.mod_pos_bound. Qed.

Lemma word_testbit x n : word x -> 32 <= n -> Z.testbit x n = false.
Proof.
  intros Hx Hn. destruct (decide (x = 0)) as [->|]; [apply Z.bits_0|]. apply Z.bits_above_log2; [destruct Hx; lia|].
  enough (Z.log2 x < 32) by lia. apply Z.log2_lt_pow2; destruct Hx; lia.
Qed.

(** Two words are equal when their 32 bits are. *)
Lemma word_bits x : 0 <= x -> (forall n, 32 <= n -> Z.testbit x n = false) -> word x.
Proof.
  intros Hx H. split; [done|]. destruct (decide (x = 0)) as [->|]; [done|]. apply Z.log2_lt_pow2; [lia|].
  destruct (Z.lt_ge_cases (Z.log2 x) 32) as [|Hge]; [done|]. specialize (H _ Hge). by rewrite Z.bit_log2 in H by lia.
Qed.

Lemma word_lxor x y : word x -> word y -> word (Z.lxor x y).
Proof.
  intros Hx Hy. apply word_bits; [apply Z.lxor_nonneg; destruct Hx, Hy; lia|].
  intros n Hn. by rewrite Z.lxor_spec, !word_testbit.
Qed.

Lemma word_byte b k : 0 <= k <= 24 -> u32 (Z.shiftl (byte_val b) k) = byte_val b * 2 ^ k.
Proof.
  intros Hk. rewrite Z.shiftl_mul_pow2 by lia. apply Z.mod_small. pose proof (byte_val_range b).
  assert (0 < 2 ^ k <= 2 ^ 24) by (split; [apply Z.pow_pos_nonneg | apply Z.pow_le_mono_r]; lia).
  change (2 ^ 32) with (256 * 2 ^ 24). nia.
Qed.

Lemma rotate_ROTL x n : word x -> 0 < n < 32 -> rotate x n = ROTL n x.
Proof.
  intros [H0 Hx] Hn. unfold rotate, ROTL, u32. rewrite Z.shiftl_mul_pow2, Z.shiftr_div_pow2 by lia.
  assert (E : 2 ^ 32 = 2 ^ (32 - n) * 2 ^ n) by (rewrite <- Z.pow_add_r by lia; f_equal; lia).
  rewrite E in Hx |- *. rewrite Z.mul_mod_distr_r by (apply Z.pow_nonzero; lia).
  assert (Hd : 0 <= x / 2 ^ (32 - n) < 2 ^ n).
  { split; [apply Z.div_pos; [done | apply Z.pow_pos_nonneg; lia]|]. apply Z.div_lt_upper_bound; [apply Z.pow_pos_nonneg|]; lia. }
  by apply lor_mul_pow2; lia.
Qed.

Lemma ROTL_word x n : word x -> 0 < n < 32 -> word (ROTL n x).
Proof.
  intros Hx Hn. rewrite <- rotate_ROTL by done. unfold rotate, u32. apply word_bits.
  - apply Z.lor_nonneg. split; [apply Z.mod_pos_bound; lia | apply Z.shiftr_nonneg, Hx].
  - intros k Hk. rewrite Z.lor_spec, (word_testbit _ _ (word_mod _)), Z.shiftr_spec, word_testbit by (done || lia). done.
Qed.

Lemma code_Ch x y z : word z -> Z.lor (Z.land x y) (Z.land (not32 x) z) = Ch x y z.
Proof.
  intros Hz. unfold Ch, not32. apply Z.bits_inj'. intros n Hn.
  rewrite Z.lor_spec, !Z.lxor_spec, !Z.land_spec, Z.lxor_spec, Z.lnot_spec by done.
  destruct (Z.lt_ge_cases n 32).
  - change 0xffffffff with (Z.ones 32). rewrite Z.ones_spec_low by lia. by destruct (Z.testbit x n), (Z.testbit y n), (Z.testbit z n).
  - rewrite (word_testbit z n) by done. rewrite !andb_false_r. by destruct (Z.testbit x n), (Z.testbit y n).
Qed.

Lemma code_Maj x y z : Z.lor (Z.lor (Z.land x y) (Z.land x z)) (Z.land y z) = Maj x y z.
Proof.
  unfold Maj. apply Z.bits_inj'. intros n Hn. rewrite !Z.lor_spec, !Z.lxor_spec, !Z.land_spec.
  by destruct (Z.testbit x n), (Z.testbit y n), (Z.testbit z n).
Qed.

Lemma round_ref W i wi s : words5 s -> W !!! i = wi -> sha1_round i wi s = ref_round W s i /\ words5 (ref_round W s i).
Proof.
  destruct s as [[[[a b] c] d] e]. intros (Ha & Hb & Hc & Hd & He) Hw. unfold sha1_round, ref_round, ft, Kt. rewrite Hw.
  split; [|split; [apply word_mod | split; [done | split; [by apply ROTL_word | done]]]].
  rewrite code_Ch, code_Maj, !rotate_ROTL by (done || lia).
  destruct (Nat.ltb_spec i 20), (Nat.leb_spec i 19); try lia; [done|].
  destruct (Nat.ltb_spec i 40), (Nat.leb_spec i 39); try lia; [done|].
  destruct (Nat.ltb_spec i 60), (Nat.leb_spec i 59); try lia; done.
Qed.

(** ** The schedule *)

Lemma length_schedule m n : length (schedule m n) = n.
Proof. induction n as [|n IH]; [done|]. cbn [schedule]. rewrite length_app, IH. cbn. lia. Qed.

Lemma schedule_words m n : Forall word (schedule m n).
Proof.
  induction n as [|n IH]; [constructor|]. cbn [schedule]. apply Forall_app. split; [done|]. constructor; [|done].
  destruct (Nat.leb_spec n 15).
  - pose proof (be_val_range (take 4 (drop (4 * n) m))) as Hr. destruct Hr as [H0 Hr]. split; [done|].
    eapply Z.lt_le_trans; [exact Hr|]. change (2 ^ 32) with (256 ^ 4). apply Z.pow_le_mono_r; [lia|]. rewrite length_take. lia.
  - assert (Hw : forall k, (k < n)%nat -> word (schedule m n !!! k)).
    { intros k Hk. destruct (lookup_lt_is_Some_2 (schedule m n) k) as [x Hx]; [by rewrite length_schedule|].
      rewrite (list_lookup_total_correct _ _ _ Hx). by eapply Forall_lookup_1. }
    apply ROTL_word; [|lia]. repeat apply word_lxor; apply Hw; lia.
Qed.

Lemma schedule_prefix m n k : (n <= k)%nat -> take n (schedule m k) = schedule m n.
Proof.
  induction 1 as [|k Hk IH]; [rewrite take_ge; [done | by rewrite length_schedule]|].
  cbn [schedule]. rewrite take_app_le by (by rewrite length_schedule). done.
Qed.

Lemma block_word_spec block i :
  length block = 64%nat -> (i < 16)%nat -> block_word block i = Some (be_val (take 4 (drop (4 * i) block))).
Proof.
  intros Hl Hi. unfold block_word.
  destruct (lookup_lt_is_Some_2 block (4 * i)) as [b0 H0]; [lia|].
  destruct (lookup_lt_is_Some_2 block (4 * i + 1)) as [b1 H1]; [lia|].
  destruct (lookup_lt_is_Some_2 block (4 * i + 2)) as [b2 H2]; [lia|].
  destruct (lookup_lt_is_Some_2 block (4 * i + 3)) as [b3 H3]; [lia|].
  cbv zeta. rewrite H0, H1, H2, H3. cbn [mbind option_bind]. f_equal.
  rewrite (drop_S _ _ _ H0), Nat.add_1_r in *. rewrite (drop_S _ _ _ H1). rewrite Nat.add_succ_r, Nat.add_1_r in H2.
  rewrite (drop_S _ _ _ H2). rewrite !Nat.add_succ_r, Nat.add_0_r in H3. rewrite (drop_S _ _ _ H3). cbn [take].
  rewrite take_0, !word_byte by lia.
  change (be_val [b0; b1; b2; b3]) with ((((0 * 256 + byte_val b0) * 256 + byte_val b1) * 256 + byte_val b2) * 256 + byte_val b3).
  pose proof (byte_val_range b0). pose proof (byte_val_range b1). pose proof (byte_val_range b2). pose proof (byte_val_range b3).
  rewrite (lor_mul_pow2 (byte_val b0) (byte_val b1 * 2 ^ 16) 24) by lia.
  replace (byte_val b0 * 2 ^ 24 + byte_val b1 * 2 ^ 16) with ((byte_val b0 * 2 ^ 8 + byte_val b1) * 2 ^ 16) by lia.
  rewrite (lor_mul_pow2 _ (byte_val b2 * 2 ^ 8) 16) by lia.
  replace ((byte_val b0 * 2 ^ 8 + byte_val b1) * 2 ^ 16 + byte_val b2 * 2 ^ 8)
    with ((byte_val b0 * 2 ^ 16 + byte_val b1 * 2 ^ 8 + byte_val b2) * 2 ^ 8) by lia.
  rewrite (lor_mul_pow2 _ (byte_val b3) 8) by lia. lia.
Qed.

Lemma first_words block : length block = 64%nat -> mapM (block_word block) (seq 0 16) = Some (schedule block 16).
Proof.
  intros Hl. apply mapM_Some. cbn [seq schedule Nat.leb app].
  repeat (constructor; [apply block_word_spec; [done | lia]|]). constructor.
Qed.

Lemma extend_words_spec m n t : (16 <= t)%nat -> extend_words n (schedule m t) = Some (schedule m (t + n)).
Proof.
  revert t. induction n as [|n IH]; intros t Ht; cbn [extend_words]; [by rewrite Nat.add_0_r|]. cbv zeta.
  rewrite length_schedule.
  assert (Hw : forall k, (k < t)%nat -> schedule m t !! k = Some (schedule m t !!! k)).
  { intros k Hk. apply list_lookup_lookup_total_lt. by rewrite length_schedule. }
  rewrite !Hw by lia. cbn [mbind option_bind].
  assert (Ht' : forall k, (k < t)%nat -> word (schedule m t !!! k)).
  { intros k Hk. eapply Forall_lookup_1; [apply (schedule_words m t) | by apply Hw]. }
  rewrite rotate_ROTL; [| |lia]; [|by repeat apply word_lxor; apply Ht'; lia].
  replace (t + S n)%nat with (S t + n)%nat by lia. rewrite <- IH by lia. cbn [schedule].
  destruct (Nat.leb_spec t 15); [lia|]. done.
Qed.

(** ** One block *)

Lemma rounds_ref W i s :
  words5 s -> sha1_rounds i (drop i W) s = foldl (ref_round W) s (seq i (length W - i)) /\
    words5 (foldl (ref_round W) s (seq i (length W - i))).
Proof.
  remember (length W - i)%nat as n eqn:En. revert i s En. induction n as [|n IH]; intros i s En Hs.
  - rewrite drop_ge by lia. done.
  - destruct (lookup_lt_is_Some_2 W i) as [wi Hwi]; [lia|]. rewrite (drop_S W wi i Hwi). cbn [sha1_rounds seq foldl].
    destruct (round_ref W i wi s Hs (list_lookup_total_correct _ _ _ Hwi)) as [-> Hs']. apply IH; [lia | done].
Qed.

Lemma update_ref W h :
  words5 h -> length W = 80%nat -> sha1_update W h = ref_update W h /\ words5 (ref_update W h).
Proof.
  intros Hh Hl. unfold sha1_update, ref_update. destruct (rounds_ref W 0 h Hh) as [E _]. rewrite Hl, Nat.sub_0_r, drop_0 in E. rewrite E.
  destruct h as [[[[h0 h1] h2] h3] h4]. clear E. generalize (foldl (ref_round W) (h0, h1, h2, h3, h4) (seq 0 80)).
  intros [[[[a b] c] d] e]. unfold u32.
  rewrite (Z.add_comm h0), (Z.add_comm h1), (Z.add_comm h2), (Z.add_comm h3), (Z.add_comm h4).
  split; [done|]. repeat (split; [apply word_mod|]). apply word_mod.
Qed.

Opaque schedule.

Lemma full_schedule block :
  length block = 64%nat ->
  (w ← mapM (block_word block) (seq 0 16); extend_words 64 w) = Some (schedule block 80).
Proof. intros Hl. rewrite first_words by done. exact (extend_words_spec block 64 16 ltac:(lia)). Qed.

Lemma compress_ref h block :
  words5 h -> length block = 64%nat -> sha1_compress h block = Some (ref_compress h block) /\ words5 (ref_compress h block).
Proof.
  intros Hh Hl. pose proof (full_schedule block Hl) as E. unfold sha1_compress, ref_compress.
  destruct (mapM (block_word block) (seq 0 16)) as [w|]; [|done]. cbn [mbind option_bind] in E |- *. rewrite E.
  destruct (update_ref (schedule block 80) h Hh (length_schedule _ _)) as [E' Hw].
  split; [|exact Hw]. cbn [mbind option_bind]. by rewrite E'.
Qed.

Opaque ref_compress.

Lemma blocks_snoc n q b : length q = (64 * n)%nat -> length b = 64%nat -> blocks (S n) (q ++ b) = blocks n q ++ [b].
Proof.
  revert q. induction n as [|n IH]; intros q Hq Hb.
  - destruct q; [|done]. cbn [blocks app]. by rewrite take_ge by lia.
  - change (blocks (S (S n)) (q ++ b)) with (take 64 (q ++ b) :: blocks (S n) (drop 64 (q ++ b))).
    rewrite take_app_le, drop_app_le by lia. rewrite IH; [done | rewrite length_drop; lia | done].
Qed.

(** [m] has been fed: whole blocks of it are in [h], the rest is buffered. *)
Definition absorbed (m : list byte) (h : hash5) (block : list byte) (k : nat) : Prop :=
  exists n q, m = q ++ take k block /\ length q = (64 * n)%nat /\ (k < 64)%nat /\ length block = 64%nat /\
    h = foldl ref_compress sha1_init (blocks n q) /\ words5 h.

Lemma store_spec block k b : (k < length block)%nat -> store block k b = Some (take k block ++ b :: drop (S k) block).
Proof.
  intros H. unfold store. destruct (Nat.ltb_spec k (length block)); [|lia]. f_equal. by apply insert_take_drop.
Qed.

Lemma absorbed_step m h block k b :
  absorbed m h block k ->
  exists h' block' k', absorbed (m ++ [b]) h' block' k' /\
    forall p, sha1_write h block k (b :: p) = sha1_write h' block' k' p.
Proof.
  intros (n & q & -> & Hq & Hk & Hl & -> & Hw). cbn [sha1_write]. rewrite store_spec by lia. cbn [mbind option_bind]. cbv zeta.
  set (block' := take k block ++ b :: drop (S k) block).
  assert (Hl' : length block' = 64%nat) by (unfold block'; rewrite length_app, length_take; cbn [length]; rewrite length_drop; lia).
  assert (Ht : take (S k) block' = take k block ++ [b]).
  { unfold block'. change (b :: drop (S k) block) with ([b] ++ drop (S k) block). rewrite app_assoc. apply take_app_length'.
    rewrite length_app, length_take. cbn. lia. }
  destruct (Nat.eqb_spec (S k) 64) as [He|He].
  - destruct (compress_ref _ block' Hw Hl') as [-> Hw']. cbn [mbind option_bind]. eexists _, block', O. split; [|done].
    exists (S n), (q ++ block'). rewrite take_0, app_nil_r. split.
    { rewrite <- app_assoc, <- Ht, take_ge by lia. done. }
    split; [rewrite length_app; lia|]. split; [lia|]. split; [done|]. split; [|done].
    rewrite blocks_snoc, foldl_app by done. done.
  - eexists _, block', (S k). split; [|done]. exists n, q. rewrite Ht, app_assoc. repeat (split; [done || lia|]). done.
Qed.

Lemma sha1_write_spec p m h block k :
  absorbed m h block k -> exists h' block' k', sha1_write h block k p = Some (h', block', k') /\ absorbed (m ++ p) h' block' k'.
Proof.
  revert m h block k. induction p as [|b p IH]; intros m h block k Ha.
  - exists h, block, k. by rewrite app_nil_r.
  - destruct (absorbed_step m h block k b Ha) as (h1 & block1 & k1 & Ha1 & E). rewrite E.
    destruct (IH _ _ _ _ Ha1) as (h2 & block2 & k2 & E2 & Ha2). exists h2, block2, k2. split; [done|]. by rewrite <- app_assoc in Ha2.
Qed.

(** ** Padding *)

Lemma zero_fill_spec n block k :
  (k + n <= length block)%nat -> zero_fill n block k = Some (take k block ++ replicate n NUL ++ drop (k + n) block).
Proof.
  revert block k. induction n as [|n IH]; intros block k H; cbn [zero_fill].
  - rewrite Nat.add_0_r. cbn [replicate app]. by rewrite take_drop.
  - rewrite store_spec by lia. cbn [mbind option_bind]. rewrite IH by (rewrite length_app, length_take; cbn [length]; rewrite length_drop; lia).
    f_equal. assert (Hk : length (take k block) = k) by (rewrite length_take; lia).
    change (NUL :: drop (S k) block) with ([NUL] ++ drop (S k) block). rewrite !app_assoc.
    rewrite take_app_length' by (rewrite length_app; cbn; lia). rewrite drop_app_ge by (rewrite length_app; cbn; lia).
    rewrite length_app, drop_drop. cbn [length]. rewrite Hk. cbn [replicate]. rewrite <- !app_assoc.
    by replace (S k + (S k + n - (k + 1)))%nat with (k + S n)%nat by lia.
Qed.

Lemma write_bits_spec n block i bits :
  length block = 64%nat -> (i + n = 8)%nat ->
  write_bits n block i bits = Some (take (56 + i) block ++ be_bytes n bits).
Proof.
  revert block i. induction n as [|n IH]; intros block i Hl Hi; cbn [write_bits].
  - by rewrite take_ge, app_nil_r by lia.
  - rewrite store_spec by lia. cbn [mbind option_bind].
    assert (Hk : length (take (56 + i) block) = (56 + i)%nat) by (rewrite length_take; lia).
    rewrite IH; [|rewrite length_app, length_cons, length_drop; lia | lia]. f_equal. rewrite be_bytes_cons.
    change (byte_of_Z (Z.shiftr bits (56 - 8 * Z.of_nat i)) :: drop (S (56 + i)) block)
      with ([byte_of_Z (Z.shiftr bits (56 - 8 * Z.of_nat i))] ++ drop (S (56 + i)) block).
    rewrite app_assoc, take_app_length' by (rewrite length_app; cbn [length]; lia). rewrite <- app_assoc. cbn [app]. do 3 f_equal.
    rewrite Z.shiftr_div_pow2 by lia. f_equal. change 256 with (2 ^ 8). rewrite <- Z.pow_mul_r by lia. f_equal. lia.
Qed.

Lemma word_digest_be w : word_digest w = be_bytes 4 w.
Proof. unfold word_digest. rewrite shiftr_24, shiftr_16, shiftr_8. done. Qed.

(** The block the end of [sha1_sum] compresses, from the first [k] bytes of [block]. *)
Lemma last_block block k bits :
  length block = 64%nat -> (k <= 56)%nat ->
  (block ← zero_fill (56 - k) block k; write_bits 8 block 0 bits) =
    Some (take k block ++ replicate (56 - k) NUL ++ be_bytes 8 bits).
Proof.
  intros Hl Hk. rewrite zero_fill_spec by lia. cbn [mbind option_bind].
  assert (Ht : length (take k block ++ replicate (56 - k) NUL) = 56%nat) by (rewrite length_app, length_take, length_replicate; lia).
  rewrite write_bits_spec by (rewrite ?length_app, ?length_take, ?length_replicate, ?length_drop; lia). f_equal.
  rewrite !app_assoc. f_equal. rewrite take_app_le by lia. apply take_ge. lia.
Qed.

Lemma pad_zeros n k : (k < 64)%nat ->
  Z.to_nat ((55 - Z.of_nat (64 * n + k)) mod 64) = if (k <=? 55)%nat then (55 - k)%nat else (119 - k)%nat.
Proof. intros H. destruct (Nat.leb_spec k 55); Z.div_mod_to_equations; lia. Qed.

Lemma SHA1_blocks m n q b :
  pad m = q ++ b -> length q = (64 * n)%nat -> length b = 64%nat ->
  blocks (length (pad m) / 64) (pad m) = blocks n q ++ [b].
Proof.
  intros -> Hq Hb. rewrite length_app. replace ((length q + length b) / 64)%nat with (S n); [by apply blocks_snoc|].
  rewrite Hq, Hb. replace (64 * n + 64)%nat with (S n * 64)%nat by lia. by rewrite Nat.div_mul.
Qed.

Lemma digest_SHA1 m n q b h :
  pad m = q ++ b -> length q = (64 * n)%nat -> length b = 64%nat ->
  h = foldl ref_compress sha1_init (blocks n q) -> words5 h ->
  ('(h0, h1, h2, h3, h4) ← sha1_compress h b;
   Some (word_digest h0 ++ word_digest h1 ++ word_digest h2 ++ word_digest h3 ++ word_digest h4)) = Some (SHA1 m).
Proof.
  intros Hp Hq Hb -> Hw. destruct (compress_ref _ b Hw Hb) as [-> _]. cbn [mbind option_bind]. unfold SHA1.
  rewrite (SHA1_blocks m n q b Hp Hq Hb), foldl_app. cbn [foldl].
  generalize (ref_compress (foldl ref_compress sha1_init (blocks n q)) b). intros [[[[h0 h1] h2] h3] h4].
  by rewrite !word_digest_be.
Qed.

Lemma sha1_sum_spec m h block k :
  absorbed m h block k -> Z.of_nat (length m) < 2 ^ 61 -> sha1_sum h block k (Z.of_nat (length m)) = Some (SHA1 m).
Proof.
  intros (n & q & Em & Hq & Hk & Hl & Hh & Hw) Hm. unfold sha1_sum. cbv zeta.
  assert (Hlm : length m = (64 * n + k)%nat) by (rewrite Em, length_app, length_take; lia).
  assert (Eb : u64w (Z.shiftl (Z.of_nat (length m)) 3) = 8 * Z.of_nat (length m)).
  { rewrite Z.shiftl_mul_pow2 by lia. unfold u64w. change (2 ^ 61) with 2305843009213693952 in Hm.
    rewrite Z.mod_small by (change (2 ^ 64) with 18446744073709551616; lia). lia. }
  rewrite Eb, store_spec by lia. cbn [mbind option_bind].
  set (block1 := take k block ++ byte_of_Z 128 :: drop (S k) block).
  assert (Hl1 : length block1 = 64%nat) by (unfold block1; rewrite length_app, length_take; cbn [length]; rewrite length_drop; lia).
  assert (Ht1 : take (S k) block1 = take k block ++ [byte_of_Z 128]).
  { unfold block1. change (byte_of_Z 128 :: drop (S k) block) with ([byte_of_Z 128] ++ drop (S k) block). rewrite app_assoc.
    apply take_app_length'. rewrite length_app, length_take. cbn. lia. }
  assert (Epad : pad m = q ++ take (S k) block1 ++ replicate (if (k <=? 55)%nat then 55 - k else 119 - k)%nat NUL ++ be_bytes 8 (8 * Z.of_nat (length m))).
  { unfold pad. rewrite Hlm at 1. rewrite pad_zeros, Ht1, Em by done. by rewrite <- !app_assoc. }
  destruct (Nat.ltb_spec 56 (S k)) as [Hbig|Hsmall]; destruct (Nat.leb_spec k 55) in Epad; try lia.
  - rewrite zero_fill_spec by lia. cbn [mbind option_bind].
    set (b1 := take (S k) block1 ++ replicate (64 - S k) NUL ++ drop (S k + (64 - S k)) block1).
    assert (E1 : b1 = take (S k) block1 ++ replicate (63 - k) NUL) by (unfold b1; rewrite (drop_ge block1), app_nil_r by lia; done).
    assert (Hb1 : length b1 = 64%nat) by (rewrite E1, length_app, length_take, length_replicate; lia).
    destruct (compress_ref h b1 Hw Hb1) as [-> Hw']. cbn [mbind option_bind].
    pose proof (last_block b1 0 (8 * Z.of_nat (length m)) Hb1 ltac:(lia)) as E.
    destruct (zero_fill (56 - 0) b1 0) as [b2|]; [|done]. cbn [mbind option_bind] in E |- *.
    rewrite take_0, app_nil_l in E. rewrite E. cbn [mbind option_bind].
    apply (digest_SHA1 m (S n) (q ++ b1)); [|rewrite length_app; lia | reflexivity | | done].
    + rewrite Epad, E1, <- !app_assoc. do 2 f_equal. rewrite app_assoc, <- replicate_add. do 2 f_equal. lia.
    + rewrite blocks_snoc, foldl_app by done. by rewrite Hh.
  - cbn [mbind option_bind].
    pose proof (last_block block1 (S k) (8 * Z.of_nat (length m)) Hl1 ltac:(lia)) as E.
    destruct (zero_fill (56 - S k) block1 (S k)) as [b1|]; [|done]. cbn [mbind option_bind] in E |- *. rewrite E. cbn [mbind option_bind].
    apply (digest_SHA1 m n q); [|done | | done | done].
    + rewrite Epad. repeat f_equal.
    + rewrite !length_app, length_take, length_replicate, length_be_bytes. lia.
Qed.

Lemma absorbed_nil : absorbed [] sha1_init (replicate 64 NUL) 0.
Proof.
  exists O, []. split; [done|]. split; [done|]. split; [lia|]. split; [done|]. split; [done|].
  repeat split; vm_compute; congruence.
Qed.

Lemma length_SHA1 m : length (SHA1 m) = 20%nat.
Proof.
  unfold SHA1. destruct (foldl _ _ _) as [[[[h0 h1] h2] h3] h4]. by rewrite !length_app, !length_be_bytes.
Qed.

Lemma length_base64_20 l : length l = 20%nat -> length (base64 l) = 28%nat.
Proof. intros H. do 20 (destruct l as [|? l]; [done|]). by destruct l. Qed.

(** Two writes and the sum, from any fresh state. *)
Lemma two_writes h block key g :
  absorbed [] h block 0 -> Z.of_nat (length key + length g) < 2 ^ 61 ->
  ('(h, block, n) ← sha1_write h block 0 key;
   '(h, block, n) ← sha1_write h block n g;
   sha1_sum h block n (u64w (Z.of_nat (length key + length g)))) = Some (SHA1 (key ++ g)).
Proof.
  intros H0 Hl. destruct (sha1_write_spec key _ _ _ _ H0) as (h1 & block1 & k1 & -> & Ha1). cbn [mbind option_bind].
  destruct (sha1_write_spec g _ _ _ _ Ha1) as (h2 & block2 & k2 & -> & Ha2). cbn [mbind option_bind app] in *.
  unfold u64w. rewrite Z.mod_small by (change (2 ^ 64) with (8 * 2 ^ 61); lia).
  rewrite <- length_app. apply sha1_sum_spec; [done|]. by rewrite length_app.
Qed.

(** C36: The accept key of the handshake is Base64 of SHA-1, as FIPS 180-4 defines
    it, of the client's key followed by the protocol's GUID, for a key of any length: the
    incremental, allocation-free routine stays inside its arrays and computes exactly that,
    appended to the response as 28 bytes. *)
Theorem accept_key_is_sha1 out key :
  Z.of_nat (length key) + 36 < 2 ^ 31 ->
  append_accept_key out key = Some (out ++ base64 (SHA1 (key ++ ws_guid))) /\
  length (base64 (SHA1 (key ++ ws_guid))) = 28%nat.
Proof.
  intros Hk. split; [|apply length_base64_20, length_SHA1]. unfold append_accept_key.
  assert (Hg : Z.of_nat (length key + length ws_guid) < 2 ^ 61)
    by (change (length ws_guid) with 36%nat; change (2 ^ 31) with 2147483648 in Hk; change (2 ^ 61) with 2305843009213693952; lia).
  pose proof (two_writes sha1_init (replicate 64 NUL) key ws_guid absorbed_nil Hg) as E.
  revert E. generalize ws_guid sha1_init (replicate 64 NUL). clear. intros g h block E.
  destruct (sha1_write h block 0 key) as [[[h1 block1] k1]|]; [|done]. cbn [mbind option_bind] in E |- *.
  destruct (sha1_write h1 block1 k1 g) as [[[h2 block2] k2]|]; [|done]. cbn [mbind option_bind] in E |- *. by rewrite E.
Qed.

Lemma accept_key_is_sha1_witness :
  append_accept_key [NUL] (bytes_of "dGhlIHNhbXBsZSBub25jZQ==") =
    Some ([NUL] ++ base64 (SHA1 (bytes_of "dGhlIHNhbXBsZSBub25jZQ==" ++ ws_guid))) /\
  length (base64 (SHA1 (bytes_of "dGhlIHNhbXBsZSBub25jZQ==" ++ ws_guid))) = 28%nat.
Proof. apply accept_key_is_sha1. vm_compute. reflexivity. Defined.
