(* ===== verification/Vcam.v ===== *)
(** examples/video_stream/src/vcam.c, the V4L2 capture, and the loop of
    capture_v4l2_linux.c.v that drives it, over a model of the device: a script of
    how each call goes, and the descriptors, mappings, allocations and queued
    buffers a process holds. *)
From S2P Require Import Prelude.
Local Open Scope Z_scope.
Local Open Scope prog_scope.

Definition VCAM_NBUF : nat := 4.

Definition V4L2_CAP_VIDEO_CAPTURE : Z := 0x00000001.
Definition V4L2_CAP_STREAMING : Z := 0x04000000.
Definition V4L2_PIX_FMT_MJPEG : Z := 0x47504a4d.

(** ** The device and the process *)

(** How one call goes: its return value, whether a signal interrupted it, and
    what it writes into its argument. *)
Record answer := mkAnswer {
  a_ret : Z; a_eintr : bool; a_capabilities : Z; a_pixelformat : Z; a_count : Z;
  a_length : Z; a_index : Z; a_bytesused : Z }.

Inductive request :=
  | QUERYCAP | S_FMT (width height pixelformat : Z) | REQBUFS (count : Z)
  | QUERYBUF (index : nat) | QBUF (index : Z) | DQBUF | STREAMON | STREAMOFF.

Record world := mkWorld {
  script : list answer;
  open_fds : list Z;
  maps : list (nat * Z);
  next_map : nat;
  cams : nat;
  queued : list Z }.

#[export] Instance world_eta : Eta world := mkEta _ (fun w =>
  mkWorld (script w) (open_fds w) (maps w) (next_map w) (cams w) (queued w)).

Definition failure : answer := mkAnswer (-1) false 0 0 0 0 0 0.

(** The next answer; an exhausted script fails. *)
Definition next_answer : prog world answer := fun w =>
  match script w with
  | [] => (failure, w)
  | a :: s => (a, w <| script := s |>)
  end.

(** What a request that succeeds does to the driver's queue. *)
Definition effect (r : request) (a : answer) (w : world) : world :=
  match r with
  | QBUF i => w <| queued := i :: queued w |>
  | DQBUF => w <| queued := filter (fun i => i <> a_index a) (queued w) |>
  | STREAMOFF | REQBUFS _ => w <| queued := [] |>
  | _ => w
  end.

(** VIDIOC_DQBUF hands back a buffer that was queued: an answer that names another
    one is no behaviour of a driver, and stands for a failure. *)
Definition possible (r : request) (a : answer) (w : world) : bool :=
  match r with DQBUF => bool_decide (a_index a ∈ queued w) | _ => true end.

Definition ioctl (r : request) : prog world answer :=
  let* a := next_answer in
  let* ok := pget (possible r a) in
  let a := if ok then a else failure in
  (if a_ret a <? 0 then pret tt else pmod (effect r a)) ;; pret a.

Definition interrupted (a : answer) : bool := (a_ret a =? -1) && a_eintr a.

(** [do r = ioctl(..); while (r == -1 && errno == EINTR)]: the script has finitely
    many answers, and the failure behind its end is no EINTR. *)
Definition xioctl (r : request) : prog world answer := fun w =>
  retry_while interrupted (ioctl r) (length (script w)) w.

Definition sys_open : prog world Z :=
  let* a := next_answer in
  if a_ret a <? 0 then pret (-1)
  else pmod (fun w => w <| open_fds := a_ret a :: open_fds w |>) ;; pret (a_ret a).

Fixpoint remove_one (fd : Z) (l : list Z) : list Z :=
  match l with
  | [] => []
  | x :: l' => if x =? fd then l' else x :: remove_one fd l'
  end.

Definition sys_close (fd : Z) : prog world unit := pmod (fun w => w <| open_fds := remove_one fd (open_fds w) |>).

(** A pointer of [buf_start]: NULL, MAP_FAILED, or a mapping. *)
Inductive mapping := MapNull | MapFailed | MapAt (id : nat).

Definition sys_mmap (len : Z) : prog world mapping :=
  let* a := next_answer in
  if a_ret a <? 0 then pret MapFailed
  else fun w => (MapAt (next_map w), w <| maps := (next_map w, len) :: maps w |> <| next_map := S (next_map w) |>).

Definition sys_munmap (id : nat) : prog world unit :=
  pmod (fun w => w <| maps := filter (fun m => m.1 <> id) (maps w) |>).

(** ** vcam.c *)

(** A conversion to [int]. *)
Definition to_int (x : Z) : Z := (x + 2 ^ 31) mod 2 ^ 32 - 2 ^ 31.

Record vcam := mkVcam {
  fd : Z; buf_start : list mapping; buf_len : list Z; n_buffers : nat; current : Z; cur_len : Z }.

#[export] Instance vcam_eta : Eta vcam := mkEta _ (fun c =>
  mkVcam (fd c) (buf_start c) (buf_len c) (n_buffers c) (current c) (cur_len c)).

(** [for (i = 0; i < c->n_buffers; i++)] of [vcam_close], over the pointers left. *)
Fixpoint unmap_loop (l : list mapping) : prog world unit :=
  match l with
  | [] => pret tt
  | m :: l' => (match m with MapAt id => sys_munmap id | MapNull | MapFailed => pret tt end) ;; unmap_loop l'
  end.

Definition vcam_close (c : vcam) : prog world unit :=
  (if 0 <=? fd c then (let* _ := xioctl STREAMOFF in pret tt) else pret tt) ;;
  unmap_loop (take (n_buffers c) (buf_start c)) ;;
  (if 0 <=? fd c then sys_close (fd c) else pret tt) ;;
  pmod (fun w => w <| cams := pred (cams w) |>).

(** Buffer [i] and the [n - 1] behind it; NULL after a failure. *)
Fixpoint setup_loop (n i : nat) (c : vcam) : prog world (option vcam) :=
  match n with
  | O => pret (Some c)
  | S n' =>
      let* b := xioctl (QUERYBUF i) in
      if a_ret b <? 0 then vcam_close c ;; pret None
      else
        let c := c <| buf_len := <[i := a_length b]> (buf_len c) |> in
        let* m := sys_mmap (a_length b) in
        let c := c <| buf_start := <[i := m]> (buf_start c) |> in
        match m with
        | MapFailed => vcam_close c ;; pret None
        | _ =>
            let* q := xioctl (QBUF (Z.of_nat i)) in
            if a_ret q <? 0 then vcam_close c ;; pret None
            else setup_loop n' (S i) c
        end
  end.

(** From [calloc] on: [f] is the open descriptor, [count] the driver's buffers. *)
Definition vcam_setup (f count : Z) : prog world (option vcam) :=
  let* a := next_answer in
  if a_ret a <? 0 then sys_close f ;; pret None
  else
    pmod (fun w => w <| cams := S (cams w) |>) ;;
    let n := Z.to_nat (Z.min (to_int count) (Z.of_nat VCAM_NBUF)) in
    let c := mkVcam f (replicate VCAM_NBUF MapNull) (replicate VCAM_NBUF 0) n (-1) 0 in
    let* r := setup_loop n 0 c in
    match r with
    | None => pret None
    | Some c =>
        let* s := xioctl STREAMON in
        if a_ret s <? 0 then vcam_close c ;; pret None else pret (Some c)
    end.

Definition vcam_open (width height : Z) : prog world (option vcam) :=
  let* f := sys_open in
  if f <? 0 then pret None
  else
    let* cap := xioctl QUERYCAP in
    if (a_ret cap <? 0) || (Z.land (a_capabilities cap) V4L2_CAP_VIDEO_CAPTURE =? 0)
       || (Z.land (a_capabilities cap) V4L2_CAP_STREAMING =? 0)
    then sys_close f ;; pret None
    else
      let* fmt := xioctl (S_FMT width height V4L2_PIX_FMT_MJPEG) in
      if a_ret fmt <? 0 then sys_close f ;; pret None
      else if negb (a_pixelformat fmt =? V4L2_PIX_FMT_MJPEG) then sys_close f ;; pret None
      else
        let* req := xioctl (REQBUFS (Z.of_nat VCAM_NBUF)) in
        if (a_ret req <? 0) || (a_count req <? 1) then sys_close f ;; pret None
        else vcam_setup f (a_count req).

Definition vcam_next (c : vcam) : prog world (Z * vcam) :=
  let* b := xioctl DQBUF in
  if a_ret b <? 0 then pret (-1, c)
  else pret (to_int (a_bytesused b), c <| current := to_int (a_index b) |> <| cur_len := to_int (a_bytesused b) |>).

(** [None] when [current] is outside the array. *)
Definition vcam_ptr (c : vcam) : option mapping :=
  if current c <? 0 then Some MapNull else buf_start c !! Z.to_nat (current c).

Definition vcam_done (c : vcam) : prog world vcam :=
  if current c <? 0 then pret c
  else let* _ := xioctl (QBUF (current c)) in pret (c <| current := -1 |>).

(** [run_v4l2]'s loop and the close behind it: the frames handed on, as pointer and
    length. Every round takes an answer, so the script bounds the rounds. *)
Fixpoint capture_loop (fuel : nat) (c : vcam) (frames : list (option mapping * Z)) : prog world (list (option mapping * Z) * vcam) :=
  match fuel with
  | O => pret (frames, c)
  | S fuel' =>
      let* '(n, c) := vcam_next c in
      if n <=? 0 then pret (frames, c)
      else
        let src := vcam_ptr c in
        let* c := vcam_done c in
        capture_loop fuel' c (frames ++ [(src, n)])
  end.

Definition run_v4l2 : prog world (list (option mapping * Z)) :=
  let* r := vcam_open 640 480 in
  match r with
  | None => pret []
  | Some c => fun w =>
      (let* '(frames, c) := capture_loop (S (length (script w))) c [] in
       vcam_close c ;; pret frames) w
  end.

(** ** What a call leaves of the process's resources *)

Definition held (w : world) := (open_fds w, maps w, next_map w, cams w).

Definition same_held (w w' : world) : Prop := held w' = held w.

#[export] Instance same_held_preorder : PreOrder same_held.
Proof. unfold same_held. split; [intros w; done | intros w1 w2 w3 H1 H2; congruence]. Qed.

Lemma next_answer_held : steps_in same_held next_answer.
Proof. intros w. unfold next_answer. by destruct (script w). Qed.

Lemma effect_held r a w : held (effect r a w) = held w.
Proof. by destruct r. Qed.

Lemma ioctl_held r : steps_in same_held (ioctl r).
Proof.
  apply steps_in_bind; [apply _ | apply next_answer_held|]. intros a.
  apply steps_in_bind; [apply _ | apply steps_in_get; apply _|]. intros ok. cbv zeta.
  apply steps_in_bind; [apply _ | | intros _; apply steps_in_ret; apply _].
  apply steps_in_if; [apply steps_in_ret; apply _|]. intros w. apply effect_held.
Qed.

Lemma xioctl_held r : steps_in same_held (xioctl r).
Proof. intros w. unfold xioctl. apply steps_in_retry; [apply _ | apply ioctl_held]. Qed.

Lemma xioctl_held_eq r w : held (snd (xioctl r w)) = held w.
Proof. apply xioctl_held. Qed.

Section Filter.
Context {A : Type} (P : A -> Prop) `{!forall x, Decision (P x)}.

Lemma filter_all l : Forall P l -> filter P l = l.
Proof. induction 1 as [|x l Hx _ IH]; [done|]. by rewrite filter_cons_True, IH. Qed.

Lemma filter_none l : Forall (fun x => ~ P x) l -> filter P l = [].
Proof. induction 1 as [|x l Hx _ IH]; [done|]. by rewrite filter_cons_False. Qed.

Lemma Forall_filter (Q : A -> Prop) l : Forall Q l -> Forall Q (filter P l).
Proof.
  induction 1 as [|x l Hx _ IH]; [done|].
  destruct (decide (P x)); [rewrite filter_cons_True by done; by constructor | by rewrite filter_cons_False].
Qed.
End Filter.

Lemma ioctl_run r w :
  ioctl r w =
    let '(a, w1) := next_answer w in
    let a := if possible r a w1 then a else failure in
    (a, if a_ret a <? 0 then w1 else effect r a w1).
Proof.
  unfold ioctl. rewrite bind_run. destruct (next_answer w) as [a w1]. cbn [fst snd]. rewrite bind_run. cbn [pget fst snd].
  cbv zeta. by destruct (a_ret (if possible r a w1 then a else failure) <? 0).
Qed.

Lemma next_answer_queued w : queued (snd (next_answer w)) = queued w.
Proof. unfold next_answer. by destruct (script w). Qed.

(** What a queue holds after a request. *)
Lemma ioctl_queued r w (P : Z -> Prop) :
  Forall P (queued w) -> (forall i, r = QBUF i -> P i) -> Forall P (queued (snd (ioctl r w))).
Proof.
  intros Hq Hr. rewrite ioctl_run. pose proof (next_answer_queued w) as E. destruct (next_answer w) as [a w1]. cbn [snd] in E. cbv zeta.
  cbn [snd]. destruct (a_ret (if possible r a w1 then a else failure) <? 0); [by rewrite E|].
  destruct r; cbn [effect queued field_update]; rewrite ?E; auto. by apply Forall_filter.
Qed.

Lemma xioctl_queued r w (P : Z -> Prop) :
  Forall P (queued w) -> (forall i, r = QBUF i -> P i) -> Forall P (queued (snd (xioctl r w))).
Proof.
  intros Hq Hr. unfold xioctl. generalize (length (script w)). intros n. revert w Hq.
  induction n as [|n IH]; intros w Hq; cbn [retry_while]; [by apply ioctl_queued|].
  rewrite bind_run. destruct (interrupted _); [apply IH|]; by apply ioctl_queued.
Qed.

(** A buffer handed back was in the queue. *)
Lemma ioctl_dequeued w : 0 <= a_ret (fst (ioctl DQBUF w)) -> a_index (fst (ioctl DQBUF w)) ∈ queued w.
Proof.
  rewrite ioctl_run. pose proof (next_answer_queued w) as E. destruct (next_answer w) as [a w1]. cbn [snd] in E. cbv zeta. cbn [fst].
  unfold possible. destruct (bool_decide_reflect (a_index a ∈ queued w1)); [by rewrite E in *|]. cbn. lia.
Qed.

Lemma xioctl_dequeued w (P : Z -> Prop) :
  Forall P (queued w) -> 0 <= a_ret (fst (xioctl DQBUF w)) -> P (a_index (fst (xioctl DQBUF w))).
Proof.
  unfold xioctl. generalize (length (script w)). intros n. revert w.
  induction n as [|n IH]; intros w Hq; cbn [retry_while];
    [intros Hr; rewrite Forall_forall in Hq; apply Hq, ioctl_dequeued, Hr|].
  rewrite bind_run. destruct (interrupted _).
  - apply IH. by apply ioctl_queued.
  - intros Hr. rewrite Forall_forall in Hq. by apply Hq, ioctl_dequeued.
Qed.

(** ** Unmapping and closing *)

Definition maps_to (l : list mapping) (id : nat) : bool :=
  existsb (fun m => match m with MapAt i => (i =? id)%nat | _ => false end) l.

Lemma unmap_loop_spec l w :
  snd (unmap_loop l w) = w <| maps := filter (fun m => maps_to l m.1 = false) (maps w) |>.
Proof.
  revert w. induction l as [|m l IH]; intros w; cbn [unmap_loop].
  - rewrite filter_all by (by apply Forall_true). by destruct w.
  - rewrite bind_run, IH. destruct m as [| |id]; cbn [pret sys_munmap pmod snd]; [done | done |].
    cbn [maps field_update]. rewrite list_filter_filter, (list_filter_iff _ (fun m => maps_to (MapAt id :: l) m.1 = false)); [by destruct w|].
    intros [i len]. cbn. rewrite orb_false_iff, Nat.eqb_neq. split; intros [H1 H2]; split; auto using not_eq_sym.
Qed.

(** [c] holds a descriptor, an allocation and the mappings of its first [n_buffers]
    pointers, above what was held in [w0]. *)
Definition owns (w0 : world) (c : vcam) (w : world) : Prop :=
  0 <= fd c /\ open_fds w = fd c :: open_fds w0 /\ cams w = S (cams w0) /\ (next_map w0 <= next_map w)%nat /\
  exists ours, maps w = ours ++ maps w0 /\
    Forall (fun m => maps_to (take (n_buffers c) (buf_start c)) m.1 = true) ours /\
    Forall (fun m => forall id, m = MapAt id -> (next_map w0 <= id)%nat /\ id ∈ ours.*1) (take (n_buffers c) (buf_start c)).

(** Mapping ids already given out are below [next_map]. *)
Definition maps_ok (w : world) : Prop := Forall (fun m => m.1 < next_map w)%nat (maps w).

Definition released (w0 w : world) : Prop :=
  open_fds w = open_fds w0 /\ maps w = maps w0 /\ cams w = cams w0 /\ (next_map w0 <= next_map w)%nat.

Lemma owns_held w0 c w w' : held w' = held w -> owns w0 c w -> owns w0 c w'.
Proof. intros [= E1 E2 E3 E4] H. unfold owns in *. by rewrite E1, E2, E3, E4. Qed.

Lemma filter_ours l n0 ours rest :
  Forall (fun m : nat * Z => maps_to l m.1 = true) ours ->
  Forall (fun m => forall id, m = MapAt id -> (n0 <= id)%nat /\ id ∈ ours.*1) l ->
  Forall (fun m : nat * Z => m.1 < n0)%nat rest ->
  filter (fun m => maps_to l m.1 = false) (ours ++ rest) = rest.
Proof.
  intros H1 H2 H3. rewrite filter_app. replace (filter _ ours) with (@nil (nat * Z)).
  - apply filter_all. eapply Forall_impl; [exact H3|]. intros [id len] Hlt. cbn in *.
    destruct (maps_to l id) eqn:E; [|done]. unfold maps_to in E. apply existsb_exists in E as (m & Hin & E).
    destruct m as [| |i]; try done. apply Nat.eqb_eq in E as ->. apply list_elem_of_In in Hin.
    rewrite Forall_forall in H2. specialize (H2 _ Hin id eq_refl). lia.
  - symmetry. apply filter_none. eapply Forall_impl; [exact H1|]. intros m ->. done.
Qed.

Lemma vcam_close_releases w0 c w : maps_ok w0 -> owns w0 c w -> released w0 (snd (vcam_close c w)).
Proof.
  intros Hok (Hfd & Hf & Hc & Hn & ours & Hm & Hours & Hids). unfold vcam_close. rewrite (proj2 (Z.leb_le 0 (fd c)) Hfd).
  rewrite !bind_run. pose proof (xioctl_held_eq STREAMOFF w) as E. set (w1 := snd (xioctl STREAMOFF w)) in *.
  change (snd (pret tt w1)) with w1. injection E as E1 E2 E3 E4. rewrite unmap_loop_spec. cbn [sys_close pmod snd].
  unfold released. cbn [open_fds maps cams next_map field_update]. rewrite E1, E2, E3, E4, Hf, Hm, Hc. cbn [remove_one].
  rewrite Z.eqb_refl, (filter_ours _ (next_map w0)) by done. done.
Qed.

(** ** Opening *)

Lemma maps_to_elem l id : maps_to l id = true <-> MapAt id ∈ l.
Proof.
  unfold maps_to. rewrite existsb_exists. split.
  - intros (m & Hin & E). destruct m as [| |i]; try done. apply Nat.eqb_eq in E as ->. by apply list_elem_of_In.
  - intros H. exists (MapAt id). rewrite Nat.eqb_refl. split; [by apply list_elem_of_In | done].
Qed.

(** The pointers below [i] are mappings, the others NULL. *)
Definition mapped_to (i : nat) (c : vcam) : Prop :=
  length (buf_start c) = VCAM_NBUF /\ (n_buffers c <= VCAM_NBUF)%nat /\ current c = -1 /\
  (forall j, (j < i)%nat -> exists id, buf_start c !! j = Some (MapAt id)) /\
  (forall j, (i <= j < VCAM_NBUF)%nat -> buf_start c !! j = Some MapNull).

Definition in_ring (c : vcam) (w : world) : Prop := Forall (fun q => 0 <= q < Z.of_nat (n_buffers c)) (queued w).

(** A mapping stored in slot [i] is owned like the others. *)
Lemma owns_map w0 c w i len blens :
  (i < n_buffers c)%nat -> mapped_to i c -> owns w0 c w ->
  let c' := c <| buf_len := blens |> <| buf_start := <[i := MapAt (next_map w)]> (buf_start c) |> in
  owns w0 c' (w <| maps := (next_map w, len) :: maps w |> <| next_map := S (next_map w) |>).
Proof.
  intros Hi (Hlen & Hn & _ & _ & Hnull) (Hfd & Hf & Hc & Hnm & ours & Hm & Hours & Hids) c'. unfold owns.
  cbn [open_fds cams next_map maps fd n_buffers buf_start field_update c'].
  split; [done|]. split; [done|]. split; [done|]. split; [lia|]. exists ((next_map w, len) :: ours). split; [by rewrite Hm|].
  assert (Hnew : take (n_buffers c) (<[i := MapAt (next_map w)]> (buf_start c)) = <[i := MapAt (next_map w)]> (take (n_buffers c) (buf_start c)))
    by (apply take_insert_lt; lia).
  rewrite Hnew. assert (Hlt : (i < length (take (n_buffers c) (buf_start c)))%nat) by (rewrite length_take; lia).
  split.
  - constructor; [apply maps_to_elem; apply list_elem_of_lookup; exists i; by apply list_lookup_insert_eq|].
    eapply Forall_impl; [exact Hours|]. intros m Hm'. apply maps_to_elem in Hm'. apply maps_to_elem.
    apply list_elem_of_lookup in Hm' as [j Hj]. apply list_elem_of_lookup. exists j. rewrite list_lookup_insert_ne; [done|].
    intros <-. rewrite lookup_take_lt, Hnull in Hj by lia. done.
  - apply Forall_insert; [eapply Forall_impl; [exact Hids|]|].
    + intros m Hmm id ->. destruct (Hmm id eq_refl). split; [done|]. cbn. by apply list_elem_of_further.
    + intros id [= <-]. split; [done|]. cbn. by apply list_elem_of_here.
Qed.

(** The failed slot keeps nothing. *)
Lemma owns_map_failed w0 c w i blens :
  (i < n_buffers c)%nat -> mapped_to i c -> owns w0 c w ->
  owns w0 (c <| buf_len := blens |> <| buf_start := <[i := MapFailed]> (buf_start c) |>) w.
Proof.
  intros Hi (Hlen & Hn & _ & _ & Hnull) (Hfd & Hf & Hc & Hnm & ours & Hm & Hours & Hids). unfold owns.
  cbn [fd n_buffers buf_start field_update]. repeat (split; [done|]). exists ours. split; [done|].
  rewrite take_insert_lt by lia. split; [|by apply Forall_insert].
  eapply Forall_impl; [exact Hours|]. intros m Hm'. apply maps_to_elem in Hm'. apply maps_to_elem.
  apply list_elem_of_lookup in Hm' as [j Hj]. apply list_elem_of_lookup. exists j. rewrite list_lookup_insert_ne; [done|].
  intros <-. rewrite lookup_take_lt, Hnull in Hj by lia. done.
Qed.

Lemma mapped_to_step i c id blens :
  (i < n_buffers c)%nat -> mapped_to i c ->
  mapped_to (S i) (c <| buf_len := blens |> <| buf_start := <[i := MapAt id]> (buf_start c) |>).
Proof.
  intros Hi (Hlen & Hn & Hcur & Hmap & Hnull). unfold mapped_to. cbn [buf_start n_buffers current field_update].
  split; [by rewrite length_insert|]. split; [done|]. split; [done|]. split.
  - intros j Hj. destruct (decide (j = i)) as [->|]; [exists id; apply list_lookup_insert_eq; lia|].
    rewrite list_lookup_insert_ne by done. apply Hmap. lia.
  - intros j Hj. rewrite list_lookup_insert_ne by lia. apply Hnull. lia.
Qed.

Lemma sys_mmap_run len w :
  sys_mmap len w =
    let '(a, w1) := next_answer w in
    if a_ret a <? 0 then (MapFailed, w1)
    else (MapAt (next_map w1), w1 <| maps := (next_map w1, len) :: maps w1 |> <| next_map := S (next_map w1) |>).
Proof. unfold sys_mmap. rewrite bind_run. destruct (next_answer w) as [a w1]. cbn [fst snd]. by destruct (a_ret a <? 0). Qed.

Lemma xioctl_owns w0 c r w : owns w0 c w -> owns w0 c (snd (xioctl r w)).
Proof. apply owns_held, xioctl_held_eq. Qed.

Lemma xioctl_in_ring c r w : in_ring c w -> (forall i, r = QBUF i -> 0 <= i < Z.of_nat (n_buffers c)) -> in_ring c (snd (xioctl r w)).
Proof. intros H Hr. by apply xioctl_queued. Qed.

Lemma setup_loop_spec w0 n i c w :
  maps_ok w0 -> (i + n = n_buffers c)%nat -> mapped_to i c -> owns w0 c w -> in_ring c w ->
  let w' := snd (setup_loop n i c w) in
  match fst (setup_loop n i c w) with
  | None => released w0 w'
  | Some c' => owns w0 c' w' /\ mapped_to (n_buffers c) c' /\ n_buffers c' = n_buffers c /\ in_ring c' w'
  end.
Proof.
  intros Hok. revert i c w. induction n as [|n IH]; intros i c w Hi Hm Ho Hr; cbn [setup_loop].
  { cbn [pret fst snd]. split; [done|]. split; [by replace (n_buffers c) with i by lia | done]. }
  rewrite bind_run. pose proof (xioctl_owns w0 c (QUERYBUF i) w Ho) as Ho1.
  pose proof (xioctl_in_ring c (QUERYBUF i) w Hr ltac:(done)) as Hr1.
  destruct (xioctl (QUERYBUF i) w) as [b w1]. cbn [fst snd] in *.
  destruct (a_ret b <? 0); [by apply vcam_close_releases|]. cbv zeta. rewrite bind_run, sys_mmap_run.
  pose proof (next_answer_held w1) as Eh. pose proof (next_answer_queued w1) as Eq.
  destruct (next_answer w1) as [a w2]. cbn [fst snd] in *.
  pose proof (owns_held w0 c w1 w2 Eh Ho1) as Ho2. assert (Hr2 : in_ring c w2) by (unfold in_ring; by rewrite Eq).
  destruct (a_ret a <? 0); cbn [fst snd].
  { apply vcam_close_releases; [done|].
    exact (owns_map_failed w0 c w2 i (<[i := a_length b]> (buf_len c)) ltac:(lia) Hm Ho2). }
  pose proof (owns_map w0 c w2 i (a_length b) (<[i := a_length b]> (buf_len c)) ltac:(lia) Hm Ho2) as Ho3. cbv zeta in Ho3.
  pose proof (mapped_to_step i c (next_map w2) (<[i := a_length b]> (buf_len c)) ltac:(lia) Hm) as Hm3.
  set (w3 := w2 <| maps := _ |> <| next_map := _ |>) in *. set (c3 := c <| buf_len := _ |> <| buf_start := _ |>) in *.
  change (n_buffers c) with (n_buffers c3) in *. assert (Hr3 : in_ring c3 w3) by exact Hr2.
  rewrite bind_run. pose proof (xioctl_owns w0 c3 (QBUF (Z.of_nat i)) w3 Ho3) as Ho4.
  pose proof (xioctl_in_ring c3 (QBUF (Z.of_nat i)) w3 Hr3 ltac:(intros ? [= <-]; lia)) as Hr4.
  change (fst (MapAt (next_map w2), w3)) with (MapAt (next_map w2)). cbv iota.
  destruct (xioctl (QBUF (Z.of_nat i)) w3) as [q w4]. cbn [fst snd] in *.
  destruct (a_ret q <? 0); [by apply vcam_close_releases|]. apply IH; [lia | done..].
Qed.

Lemma vcam_setup_spec w0 f count w :
  maps_ok w0 -> 0 <= f -> held w = (f :: open_fds w0, maps w0, next_map w0, cams w0) -> queued w = [] ->
  let w' := snd (vcam_setup f count w) in
  match fst (vcam_setup f count w) with
  | None => released w0 w'
  | Some c => owns w0 c w' /\ mapped_to (n_buffers c) c /\ in_ring c w'
  end.
Proof.
  intros Hok Hf Hh Hq. unfold vcam_setup. rewrite bind_run.
  pose proof (next_answer_held w) as Eh. pose proof (next_answer_queued w) as Eq.
  destruct (next_answer w) as [a w1]. cbn [fst snd] in *. unfold same_held in Eh. rewrite Hh in Eh. rewrite Hq in Eq.
  injection Eh as E1 E2 E3 E4. destruct (a_ret a <? 0).
  { rewrite bind_run. unfold released. cbn [sys_close pmod pret fst snd open_fds maps cams next_map field_update].
    rewrite E1, E2, E3, E4. cbn [remove_one]. by rewrite Z.eqb_refl. }
  rewrite bind_run. cbn [pmod fst snd]. cbv zeta. set (w2 := w1 <| cams := _ |>).
  set (c := mkVcam f _ _ _ _ _). rewrite bind_run.
  assert (Hn : (n_buffers c <= VCAM_NBUF)%nat) by (unfold c; cbn [n_buffers]; lia).
  assert (Hnull : forall j, (0 <= j < VCAM_NBUF)%nat -> buf_start c !! j = Some MapNull) by (intros j Hj; apply lookup_replicate_2; lia).
  assert (Hm : mapped_to 0 c) by (repeat (split; [done|]); split; [intros j Hj; lia | done]).
  assert (Ho : owns w0 c w2).
  { unfold owns. cbn [w2 open_fds cams next_map maps field_update fd c]. rewrite E1, E2, E3, E4.
    repeat (split; [done|]). exists []. split; [done|]. split; [done|]. apply Forall_take, Forall_replicate. done. }
  assert (Hr : in_ring c w2) by (unfold in_ring; cbn [w2 queued field_update]; by rewrite Eq).
  pose proof (setup_loop_spec w0 (n_buffers c) 0 c w2 Hok eq_refl Hm Ho Hr) as Hs. cbv zeta in Hs.
  change (Z.to_nat (to_int count `min` Z.of_nat VCAM_NBUF)) with (n_buffers c).
  destruct (setup_loop (n_buffers c) 0 c w2) as [[c'|] w3]; cbn [fst snd] in *; [|done].
  destruct Hs as (Ho3 & Hm3 & En & Hr3). rewrite bind_run.
  pose proof (xioctl_owns w0 c' STREAMON w3 Ho3) as Ho4. pose proof (xioctl_in_ring c' STREAMON w3 Hr3 ltac:(done)) as Hr4.
  destruct (xioctl STREAMON w3) as [s w4]. cbn [fst snd] in *.
  destruct (a_ret s <? 0); [by apply vcam_close_releases|]. cbn [pret fst snd]. by rewrite En.
Qed.

Lemma xioctl_ind r (P : answer * world -> Prop) (Inv : world -> Prop) w :
  Inv w -> (forall w, Inv w -> P (ioctl r w) /\ Inv (snd (ioctl r w))) -> P (xioctl r w).
Proof.
  intros Hw Hs. unfold xioctl. generalize (length (script w)). intros n. revert w Hw.
  induction n as [|n IH]; intros w Hw; cbn [retry_while]; [by apply Hs|].
  rewrite bind_run. destruct (interrupted _); [apply IH; by apply Hs|].
  change (P (fst (ioctl r w), snd (ioctl r w))). rewrite <- surjective_pairing. by apply Hs.
Qed.

Lemma xioctl_reqbufs n w : 0 <= a_ret (fst (xioctl (REQBUFS n) w)) -> queued (snd (xioctl (REQBUFS n) w)) = [].
Proof.
  apply (xioctl_ind (REQBUFS n) (fun r => 0 <= a_ret (fst r) -> queued (snd r) = []) (fun _ => True)); [done|]. clear w.
  intros w _. split; [|done]. rewrite ioctl_run. destruct (next_answer w) as [a w1]. cbv zeta. cbn [possible fst snd].
  intros Ha. destruct (Z.ltb_spec (a_ret a) 0); [lia | done].
Qed.

(** A call that succeeds takes an answer of the script. *)
Lemma xioctl_script r w :
  (length (script (snd (xioctl r w))) <= length (script w))%nat /\
  (0 <= a_ret (fst (xioctl r w)) -> (length (script (snd (xioctl r w))) < length (script w))%nat).
Proof.
  apply (xioctl_ind r (fun o => (length (script (snd o)) <= length (script w))%nat /\
    (0 <= a_ret (fst o) -> (length (script (snd o)) < length (script w))%nat))
    (fun w1 => (length (script w1) <= length (script w))%nat)); [done|].
  intros w1 H1. rewrite ioctl_run. unfold next_answer. destruct (script w1) as [|a s] eqn:Es; cbv zeta; cbn [fst snd].
  - replace (if possible r failure w1 then failure else failure) with failure by (by destruct (possible _ _ _)).
    cbn [failure a_ret]. rewrite (proj2 (Z.ltb_lt (-1) 0)) by lia. rewrite Es. cbn. lia.
  - assert (Hs : forall x w', script (effect r x w') = script w') by (by intros; destruct r).
    destruct (a_ret _ <? 0); rewrite ?Hs; cbn [script field_update length] in *; lia.
Qed.

Lemma vcam_open_spec wd ht w :
  maps_ok w ->
  let w' := snd (vcam_open wd ht w) in
  match fst (vcam_open wd ht w) with
  | None => released w w'
  | Some c => owns w c w' /\ mapped_to (n_buffers c) c /\ in_ring c w'
  end.
Proof.
  intros Hok. unfold vcam_open, sys_open. rewrite bind_run, bind_run. pose proof (next_answer_held w) as Eh.
  destruct (next_answer w) as [a w1]. cbn [fst snd] in *. injection Eh as E1 E2 E3 E4.
  destruct (Z.ltb_spec (a_ret a) 0) as [Hneg|Hf].
  { cbn [pret fst snd]. change (-1 <? 0) with true. unfold released. cbn [pret fst snd]. by rewrite E1, E2, E3, E4. }
  rewrite bind_run. cbn [pmod pret fst snd]. destruct (Z.ltb_spec (a_ret a) 0); [lia|].
  set (f := a_ret a) in *. set (w2 := w1 <| open_fds := _ |>).
  assert (H2 : held w2 = (f :: open_fds w, maps w, next_map w, cams w)) by (unfold held, w2; cbn; by rewrite E1, E2, E3, E4).
  assert (Hfail : forall w3, held w3 = held w2 -> released w (snd ((sys_close f ;; pret (@None vcam))%prog w3))).
  { intros w3 E. rewrite H2 in E. injection E as F1 F2 F3 F4. rewrite bind_run. unfold released.
    cbn [sys_close pmod pret fst snd open_fds maps cams next_map field_update]. rewrite F1, F2, F3, F4. cbn [remove_one].
    by rewrite Z.eqb_refl. }
  rewrite bind_run. pose proof (xioctl_held_eq QUERYCAP w2) as H3. destruct (xioctl QUERYCAP w2) as [cap w3]. cbn [fst snd] in *.
  destruct (_ || _); [by apply Hfail|].
  rewrite bind_run. pose proof (xioctl_held_eq (S_FMT wd ht V4L2_PIX_FMT_MJPEG) w3) as H4.
  destruct (xioctl (S_FMT wd ht V4L2_PIX_FMT_MJPEG) w3) as [fmt w4]. cbn [fst snd] in *. rewrite H3 in H4.
  destruct (a_ret fmt <? 0); [by apply Hfail|]. destruct (negb _); [by apply Hfail|].
  rewrite bind_run. pose proof (xioctl_held_eq (REQBUFS (Z.of_nat VCAM_NBUF)) w4) as H5.
  pose proof (xioctl_reqbufs (Z.of_nat VCAM_NBUF) w4) as Hq.
  destruct (xioctl (REQBUFS (Z.of_nat VCAM_NBUF)) w4) as [req w5]. cbn [fst snd] in *. rewrite H4 in H5.
  destruct (Z.ltb_spec (a_ret req) 0); [by apply Hfail|]. cbn [orb]. destruct (a_count req <? 1); [by apply Hfail|].
  apply vcam_setup_spec; [done | done | by rewrite H5 | by apply Hq].
Qed.

(** ** Capturing *)

(** A camera between two frames. *)
Definition idle (w0 : world) (c : vcam) (w : world) : Prop :=
  owns w0 c w /\ mapped_to (n_buffers c) c /\ in_ring c w.

(** A frame handed on: a positive length, and the address of a mapping [c] holds. *)
Definition good_frame (c : vcam) (fr : option mapping * Z) : Prop :=
  0 < fr.2 /\ exists id, fr.1 = Some (MapAt id) /\ MapAt id ∈ take (n_buffers c) (buf_start c).

Lemma to_int_small x : 0 <= x < 2 ^ 31 -> to_int x = x.
Proof. intros H. unfold to_int. change (2 ^ 31) with 2147483648 in *. change (2 ^ 32) with 4294967296. rewrite Z.mod_small; lia. Qed.

(** The address of a dequeued buffer. *)
Lemma vcam_ptr_ring w0 c w i :
  idle w0 c w -> 0 <= i < Z.of_nat (n_buffers c) ->
  exists id, vcam_ptr (c <| current := to_int i |>) = Some (MapAt id) /\ MapAt id ∈ take (n_buffers c) (buf_start c).
Proof.
  intros (_ & (Hl & Hn & _ & Hmap & _) & _) Hi. unfold VCAM_NBUF in *.
  rewrite to_int_small by (change (2 ^ 31) with 2147483648; lia). destruct (Hmap (Z.to_nat i)) as [id Hid]; [lia|].
  exists id. unfold vcam_ptr. cbn [current buf_start field_update]. destruct (Z.ltb_spec i 0); [lia|].
  split; [done|]. apply list_elem_of_lookup. exists (Z.to_nat i). by rewrite lookup_take_lt by lia.
Qed.

(** [vcam_next] then [vcam_done] bring a camera back between frames. *)
Lemma idle_current w0 c w cur len : idle w0 c w -> idle w0 (c <| current := cur |> <| cur_len := len |> <| current := -1 |>) w.
Proof. intros (Ho & (Hl & Hn & _ & Hmap) & Hr). split; [exact Ho|]. split; [|exact Hr]. split; [done|]. split; [done|]. done. Qed.

Lemma capture_loop_spec w0 fuel c frames w :
  idle w0 c w -> Forall (good_frame c) frames ->
  let '((frames', c'), w') := capture_loop fuel c frames w in
  owns w0 c' w' /\ buf_start c' = buf_start c /\ n_buffers c' = n_buffers c /\ Forall (good_frame c) frames'.
Proof.
  revert c frames w. induction fuel as [|fuel IH]; intros c frames w Hi Hg; cbn [capture_loop]; [by destruct Hi|].
  rewrite bind_run. unfold vcam_next. rewrite bind_run. pose proof Hi as (Ho & Hm & Hr).
  pose proof (xioctl_owns w0 c DQBUF w Ho) as Ho1. pose proof (xioctl_in_ring c DQBUF w Hr ltac:(done)) as Hr1.
  pose proof (xioctl_dequeued w _ Hr) as Hdq. destruct (xioctl DQBUF w) as [b w1]. cbn [fst snd] in *.
  destruct (Z.ltb_spec (a_ret b) 0) as [_|Hret]; [done|]. cbn [pret fst snd]. specialize (Hdq Hret).
  set (c1 := c <| current := to_int (a_index b) |> <| cur_len := to_int (a_bytesused b) |>).
  assert (Ho2 : owns w0 c1 w1) by exact Ho1.
  destruct (Z.leb_spec (to_int (a_bytesused b)) 0) as [_|Hlen]; [done|]. cbv zeta. rewrite bind_run.
  destruct (vcam_ptr_ring w0 c w _ Hi Hdq) as (id & Hptr & Hin).
  assert (Hgood : Forall (good_frame c) (frames ++ [(vcam_ptr c1, to_int (a_bytesused b))])).
  { apply Forall_app. split; [done|]. constructor; [|done]. split; [done|]. by exists id. }
  assert (Hcur : current c1 = a_index b).
  { apply to_int_small. destruct Hm as (_ & Hn & _). unfold VCAM_NBUF in Hn. change (2 ^ 31) with 2147483648. lia. }
  unfold vcam_done. rewrite Hcur. destruct (Z.ltb_spec (a_index b) 0); [lia|]. rewrite bind_run. cbn [pret fst snd].
  set (c2 := c1 <| current := -1 |>). set (w2 := snd (xioctl (QBUF (a_index b)) w1)).
  assert (Hi2 : idle w0 c2 w2).
  { apply idle_current. split; [by apply xioctl_owns|]. split; [done|]. apply xioctl_in_ring; [done|]. by intros i [= <-]. }
  exact (IH c2 _ w2 Hi2 Hgood).
Qed.

(** One answer per frame: more rounds than answers change nothing. *)
Lemma capture_loop_fuel fuel k c frames w :
  (length (script w) < fuel)%nat -> capture_loop (fuel + k) c frames w = capture_loop fuel c frames w.
Proof.
  revert c frames w. induction fuel as [|fuel IH]; intros c frames w Hf; [lia|]. cbn [Nat.add capture_loop].
  rewrite !bind_run. unfold vcam_next. rewrite !bind_run. destruct (xioctl_script DQBUF w) as [_ Hs].
  destruct (xioctl DQBUF w) as [b w1]. cbn [fst snd] in *. destruct (Z.ltb_spec (a_ret b) 0); [done|]. cbn [pret fst snd].
  destruct (_ <=? 0); [done|]. cbv zeta. rewrite !bind_run. apply IH. specialize (Hs ltac:(done)).
  unfold vcam_done. destruct (_ <? 0); [cbn [pret snd]; lia|]. rewrite bind_run. cbn [pret snd].
  set (c1 := c <| current := _ |> <| cur_len := _ |>). destruct (xioctl_script (QBUF (current c1)) w1) as [Hs' _]. lia.
Qed.

(** A capture gives back everything it took: whichever call of the driver, of
    [open], [mmap] or [calloc] fails, and however often a signal interrupts, after
    [run_v4l2] the descriptors, mappings and allocations are those of before; every frame
    handed on has a positive length and the address of a mapping of this capture. *)
Theorem capture_releases_everything w :
  maps_ok w ->
  let '(frames, w') := run_v4l2 w in
  released w w' /\ Forall (fun fr => 0 < fr.2 /\ exists id, fr.1 = Some (MapAt id) /\ (next_map w <= id)%nat) frames.
Proof.
  intros Hok. unfold run_v4l2. rewrite bind_run. pose proof (vcam_open_spec 640 480 w Hok) as Ho.
  destruct (vcam_open 640 480 w) as [[c|] w1]; cbn [fst snd] in *; [|by split].
  rewrite bind_run. pose proof (capture_loop_spec w (S (length (script w1))) c [] w1 Ho (Forall_nil_2 _)) as Hc.
  destruct (capture_loop _ c [] w1) as [[frames c'] w2]. cbn [fst snd]. destruct Hc as (Ho2 & Eb & En & Hg).
  rewrite bind_run. cbn [pret]. split; [by apply vcam_close_releases|].
  destruct Ho2 as (_ & _ & _ & _ & ours & _ & _ & Hids). rewrite Eb, En in Hids.
  eapply Forall_impl; [exact Hg|]. intros fr (Hlen & id & E & Hin). split; [done|]. exists id. split; [done|].
  rewrite Forall_forall in Hids. by apply (Hids _ Hin).
Qed.

(** A camera with two buffers: one signal, one frame, then an error. *)
Definition camera : list answer :=
  let ok := mkAnswer 0 false 0 0 0 0 0 0 in
  [mkAnswer 7 false 0 0 0 0 0 0; mkAnswer 0 false 0x04000001 0 0 0 0 0; mkAnswer (-1) true 0 0 0 0 0 0;
   mkAnswer 0 false 0 V4L2_PIX_FMT_MJPEG 0 0 0 0; mkAnswer 0 false 0 0 2 0 0 0; ok;
   mkAnswer 0 false 0 0 0 4096 0 0; ok; ok; mkAnswer 0 false 0 0 0 4096 0 0; ok; ok; ok;
   mkAnswer 0 false 0 0 0 0 1 1200; ok].

Lemma capture_releases_everything_witness :
  let w := mkWorld camera [3; 4] [(0%nat, 10)] 1 0 [] in
  fst (run_v4l2 w) = [(Some (MapAt 2), 1200)] /\ released w (snd (run_v4l2 w)).
Proof.
  intros w. split; [vm_compute; reflexivity|].
  assert (Hok : maps_ok w) by (constructor; [cbn; lia | constructor]).
  pose proof (capture_releases_everything w Hok) as H. destruct (run_v4l2 w). apply H.
Defined.
