(* ===== verification/Bench.v ===== *)
(** The benchmark programs: the response-building strategies of bench/micro.c and the
    three buffer models of the server in bench/e2e.c. A result in [option] is [None] when memory is
    read or written outside of its array. *)
From S2P Require Import Prelude.
Local Open Scope Z_scope.

(** ** Building a response: bench/micro.c and bench/e2e.c *)

Definition PREFIX : list byte :=
  bytes_of "HTTP/1.1 200 OK" ++ [byte_of_Z 13; byte_of_Z 10] ++ bytes_of "Content-Type: text/plain"
  ++ [byte_of_Z 13; byte_of_Z 10] ++ bytes_of "Content-Length: ".
Definition CRLF2 : list byte := [byte_of_Z 13; byte_of_Z 10; byte_of_Z 13; byte_of_Z 10].
Definition GUTTER : nat := 256.
Definition OUT_LEN : nat := Z.to_nat (2 ^ 20).
#[global] Arguments OUT_LEN : simpl never.

(** [do { tmp[n++] = '0' + v % 10; v /= 10; } while (v)] with [char tmp[12]]. *)
Fixpoint itoa_tmp (fuel : nat) (v : Z) (tmp : list byte) : option (list byte) :=
  match fuel with
  | O => None
  | S fuel' =>
      let tmp := tmp ++ [byte_of_Z (48 + Z.rem v 10)] in
      let v := Z.quot v 10 in
      if v =? 0 then Some tmp else itoa_tmp fuel' v tmp
  end.

(** The digits written to [dst]. *)
Definition itoa10 (v : Z) : option (list byte) := reverse <$> itoa_tmp 12 v [].

(** [memcpy(p, bs, n); p += n]. *)
Definition put (bs : list byte) (st : list byte * nat) : option (list byte * nat) :=
  let '(buf, p) := st in
  buf ← memcpy_at p bs buf; Some (buf, (p + length bs)%nat).

(** The head and the body written from [p] on; the new [p]. *)
Definition write_head (n : Z) (st : list byte * nat) : option (list byte * nat) :=
  st ← put PREFIX st;
  ds ← itoa10 n;
  st ← put ds st;
  put CRLF2 st.

Definition write_response (body : list byte) (st : list byte * nat) : option (list byte * nat) :=
  st ← write_head (Z.of_nat (length body)) st;
  put body st.

(** A: [resp] is the whole response. *)
Fixpoint bench_static (iters : nat) (resp : list byte) (out : list byte) (off : nat) : option (list byte * nat) :=
  match iters with
  | O => Some (out, off)
  | S n =>
      let off := if (OUT_LEN <? off + length resp)%nat then O else off in
      out ← memcpy_at off resp out;
      bench_static n resp out (off + length resp)
  end.

(** B *)
Fixpoint bench_raw (iters : nat) (body : list byte) (out : list byte) (off : nat) : option (list byte * nat) :=
  match iters with
  | O => Some (out, off)
  | S n =>
      let off := if (OUT_LEN <? off + GUTTER + length body)%nat then O else off in
      '(out, p) ← write_response body (out, off);
      bench_raw n body out p
  end.

(** [memmove(base + to, base + from, n)] inside one array. *)
Definition memmove_at (dst src n : nat) (buf : list byte) : option (list byte) :=
  if decide (src + n <= length buf)%nat then memcpy_at dst (take n (drop src buf)) buf else None.

(** The [n] bytes of the heap are whatever they were. *)
Section Heap.
Context (garbage : nat -> list byte).

(** C: [hdr] is an array on the stack. *)
Fixpoint bench_gutter (iters : nat) (body : list byte) (out : list byte) (off : nat) : option (list byte * nat) :=
  match iters with
  | O => Some (out, off)
  | S n =>
      let off := if (OUT_LEN <? off + GUTTER + length body + 256)%nat then O else off in
      out ← memcpy_at (off + GUTTER) body out;
      '(hdr, h) ← write_head (Z.of_nat (length body)) (garbage GUTTER, O);
      out ← memmove_at (off + h) (off + GUTTER) (length body) out;
      out ← memcpy_at off (take h hdr) out;
      bench_gutter n body out (off + h + length body)
  end.

(** [malloc(PREFIX_LEN + 16 + body_len)] and the response built in it: the block and
    the response's length. *)
Definition handler_alloc (body : list byte) : option (list byte * nat) :=
  write_response body (garbage (length PREFIX + 16 + length body), O).

(** D: the sum of a touched byte and the length. *)
Fixpoint bench_alloc (iters : nat) (body : list byte) (acc : Z) : option Z :=
  match iters with
  | O => Some acc
  | S n =>
      '(p0, len) ← handler_alloc body;
      b ← p0 !! 4%nat;
      bench_alloc n body (acc + (byte_val b + Z.of_nat len))
  end.

(** E *)
Fixpoint bench_alloc_copy (iters : nat) (body : list byte) (out : list byte) (off : nat) : option (list byte * nat) :=
  match iters with
  | O => Some (out, off)
  | S n =>
      '(p0, len) ← handler_alloc body;
      let off := if (OUT_LEN <? off + len)%nat then O else off in
      out ← memcpy_at off (take len p0) out;
      bench_alloc_copy n body out (off + len)
  end.

(** F: [while ((int)len < req_len)], the buffer doubled when it is full; [realloc]
    keeps what is there. A round reads at least a byte. *)
Fixpoint grow_loop (fuel : nat) (wire buf : list byte) (len : nat) : option (list byte * nat) :=
  if (len <? length wire)%nat then
    match fuel with
    | O => None
    | S fuel' =>
        let buf := if (len =? length buf)%nat then buf ++ garbage (length buf) else buf in
        let n := Nat.min (length wire - len) (length buf - len) in
        buf ← memcpy_at len (take n (drop len wire)) buf;
        grow_loop fuel' wire buf (len + n)
    end
  else Some (buf, len).

Fixpoint bench_reqbuf_grow (iters : nat) (wire : list byte) (acc : Z) : option Z :=
  match iters with
  | O => Some acc
  | S n =>
      '(buf, len) ← grow_loop (length wire) wire (garbage 256) 0;
      b ← buf !! (len - 1)%nat;
      bench_reqbuf_grow n wire (acc + byte_val b)
  end.
End Heap.

Fixpoint bench_reqbuf_persistent (iters : nat) (wire conn_buf : list byte) (acc : Z) : option Z :=
  match iters with
  | O => Some acc
  | S n =>
      conn_buf ← memcpy_at 0 wire conn_buf;
      b ← conn_buf !! (length wire - 1)%nat;
      bench_reqbuf_persistent n wire conn_buf (acc + byte_val b)
  end.

(** ** The server of bench/e2e.c *)

Definition BODY : list byte := bytes_of "Hello, World!".
Definition RBUF_LEN : nat := Z.to_nat 16384.
Definition WBUF_LEN : nat := Z.to_nat 65536.
#[global] Arguments WBUF_LEN : simpl never.
#[global] Arguments RBUF_LEN : simpl never.

(** [for (i = 3; i < len; i++)], [n] rounds left. *)
Fixpoint req_end_loop (n i : nat) (b : list byte) : option Z :=
  match n with
  | O => Some (-1)
  | S n' =>
      c3 ← b !! (i - 3)%nat; c2 ← b !! (i - 2)%nat; c1 ← b !! (i - 1)%nat; c0 ← b !! i;
      if bool_decide ([c3; c2; c1; c0] = CRLF2) then Some (Z.of_nat i + 1) else req_end_loop n' (S i) b
  end.

Definition find_req_end (b : list byte) : option Z := req_end_loop (length b - 3) 3 b.

(** [build_into(p)]: the length of what it writes. *)
Definition build_into (buf : list byte) (p : nat) : option (list byte * nat) :=
  '(buf, q) ← write_response BODY (buf, p); Some (buf, (q - p)%nat).

(** A socket as the event sees it: what [recv] delivers, whether the peer has
    closed behind that, and how the next [send]s go: the bytes they take, [None] for
    EAGAIN. A [send] without an entry takes everything. *)
Record sock := mkSock { inbox : list (list byte); closed : bool; sends : list (option nat); sent : list byte }.

#[export] Instance sock_eta : Eta sock := mkEta _ (fun s => mkSock (inbox s) (closed s) (sends s) (sent s)).

(** [while (off < len)] of [send_all]: a [send] of 0 bytes ends it like an error. *)
Fixpoint send_loop (answers : list (option nat)) (b : list byte) (s : sock) : sock :=
  match b with
  | [] => s <| sends := answers |>
  | _ =>
      match answers with
      | [] => s <| sends := [] |> <| sent := sent s ++ b |>
      | None :: rest => send_loop rest b s
      | Some O :: rest => s <| sends := rest |>
      | Some n :: rest => send_loop rest (drop n b) (s <| sent := sent s ++ take n b |>)
      end
  end.

Definition send_all (b : list byte) (s : sock) : sock := send_loop (sends s) b s.

(** One [recv] of up to [room] bytes: the bytes, [None] for EAGAIN; [recv] with no room
    answers 0, as for a closed peer. *)
Definition recv (room : nat) (s : sock) : option (list byte) * sock :=
  match room, inbox s with
  | O, _ => (Some [], s)
  | _, [] => (if closed s then Some [] else None, s)
  | _, c :: rest =>
      if (length c <=? room)%nat then (Some c, s <| inbox := rest |>)
      else (Some (take room c), s <| inbox := drop room c :: rest |>)
  end.

Record conn_t := mkConn { rbuf : list byte; rlen : nat; wbuf : list byte }.

(** The receive loop of modes 1 and 2; [dead] is set by a 0. *)
Fixpoint fill_rbuf (fuel : nat) (rbuf : list byte) (rlen : nat) (s : sock) : option (list byte * nat * bool * sock) :=
  match fuel with
  | O => None
  | S fuel' =>
      match recv (RBUF_LEN - rlen) s with
      | (None, s) => Some (rbuf, rlen, false, s)
      | (Some [], s) => Some (rbuf, rlen, true, s)
      | (Some bs, s) => rbuf ← memcpy_at rlen bs rbuf; fill_rbuf fuel' rbuf (rlen + length bs) s
      end
  end.

Section Server.
Context (garbage : nat -> list byte).

(** The answering loop of modes 1 ([compat = false]) and 2: [pos], [woff]. *)
Fixpoint answer_loop (fuel : nat) (compat : bool) (rb : list byte) (pos : nat) (wbuf : list byte) (woff : nat) : option (nat * list byte * nat) :=
  used ← find_req_end (drop pos rb);
  if used <? 0 then Some (pos, wbuf, woff)
  else
    match fuel with
    | O => None
    | S fuel' =>
        '(wbuf, n) ← (if compat
          then '(resp, rl) ← handler_alloc garbage BODY; w ← memcpy_at woff (take rl resp) wbuf; Some (w, rl)
          else build_into wbuf woff);
        answer_loop fuel' compat rb (pos + Z.to_nat used) wbuf (woff + n)
    end.

(** The event of a readable connection in modes 1 and 2. *)
Definition event_batched (compat : bool) (c : conn_t) (s : sock) : option (conn_t * bool * sock) :=
  '(rb, rl, dead, s) ← fill_rbuf (RBUF_LEN + 2) (rbuf c) (rlen c) s;
  '(pos, wb, woff) ← answer_loop rl compat (take rl rb) 0 (wbuf c) 0;
  '(rb, rl) ← (if (0 <? pos)%nat then rb ← memmove_at 0 pos (rl - pos) rb; Some (rb, (rl - pos)%nat) else Some (rb, rl));
  let s := if (0 <? woff)%nat then send_all (take woff wb) s else s in
  Some (mkConn rb rl wb, dead, s).

(** The receive loop of mode 3, into a buffer that doubles when it is full. *)
Fixpoint fill_growing (fuel : nat) (buf : list byte) (len : nat) (s : sock) : option (list byte * nat * bool * sock) :=
  match fuel with
  | O => None
  | S fuel' =>
      let buf := if (len =? length buf)%nat then buf ++ garbage (length buf) else buf in
      match recv (length buf - len) s with
      | (None, s) => Some (buf, len, false, s)
      | (Some [], s) => Some (buf, len, true, s)
      | (Some bs, s) => buf ← memcpy_at len bs buf; fill_growing fuel' buf (len + length bs) s
      end
  end.

(** [while ((size_t)sv->rlen > cap) cap *= 2]. *)
Fixpoint grow_cap (fuel : nat) (rlen cap : nat) : option nat :=
  if (cap <? rlen)%nat then match fuel with O => None | S f => grow_cap f rlen (cap * 2) end else Some cap.

(** One response, and one send, per request. *)
Fixpoint answer_each (fuel : nat) (b : list byte) (pos : nat) (s : sock) : option (nat * sock) :=
  used ← find_req_end (drop pos b);
  if used <? 0 then Some (pos, s)
  else
    match fuel with
    | O => None
    | S fuel' =>
        '(resp, rl) ← handler_alloc garbage BODY;
        answer_each fuel' b (pos + Z.to_nat used) (send_all (take rl resp) s)
    end.

(** The event of a readable connection in mode 3. *)
Definition event_growing (c : conn_t) (s : sock) : option (conn_t * bool * sock) :=
  '(buf, len) ← (if (0 <? rlen c)%nat
    then cap ← grow_cap (rlen c) (rlen c) 256; buf ← memcpy_at 0 (take (rlen c) (rbuf c)) (garbage cap); Some (buf, rlen c)
    else Some (garbage 256, O));
  '(buf, len, dead, s) ← fill_growing (length (concat (inbox s)) + length (inbox s) + 2) buf len s;
  if dead : bool then Some (mkConn (rbuf c) 0 (wbuf c), true, s)
  else
    '(pos, s) ← answer_each len (take len buf) 0 s;
    if (pos <? len)%nat
    then rb ← memcpy_at 0 (take (len - pos) (drop pos buf)) (rbuf c); Some (mkConn rb (len - pos) (wbuf c), false, s)
    else Some (mkConn (rbuf c) 0 (wbuf c), false, s).
End Server.

(** The sizes, as integers: the naturals themselves are never computed. *)
Lemma OUT_LEN_val : Z.of_nat OUT_LEN = 1048576.
Proof. unfold OUT_LEN. by rewrite Z2Nat.id. Qed.

Lemma RBUF_LEN_val : Z.of_nat RBUF_LEN = 16384.
Proof. unfold RBUF_LEN. by rewrite Z2Nat.id. Qed.

Lemma WBUF_LEN_val : Z.of_nat WBUF_LEN = 65536.
Proof. unfold WBUF_LEN. by rewrite Z2Nat.id. Qed.

#[global] Opaque OUT_LEN RBUF_LEN WBUF_LEN.

(** ** Decimal numbers *)

(** The value of a string of digits. *)
Definition dec_val (ds : list byte) : Z := foldl (fun v b => 10 * v + (byte_val b - 48)) 0 ds.

Lemma dec_val_snoc ds b : dec_val (ds ++ [b]) = 10 * dec_val ds + (byte_val b - 48).
Proof. unfold dec_val. by rewrite foldl_app. Qed.

Lemma itoa_tmp_S fuel v tmp :
  itoa_tmp (S fuel) v tmp =
    if Z.quot v 10 =? 0 then Some (tmp ++ [byte_of_Z (48 + Z.rem v 10)])
    else itoa_tmp fuel (Z.quot v 10) (tmp ++ [byte_of_Z (48 + Z.rem v 10)]).
Proof. done. Qed.

Lemma itoa_tmp_spec fuel v tmp :
  0 <= v < 10 ^ Z.of_nat fuel ->
  exists ds, itoa_tmp (S fuel) v tmp = Some (tmp ++ ds) /\ (1 <= length ds <= S fuel)%nat /\ dec_val (reverse ds) = v.
Proof.
  revert v tmp. induction fuel as [|fuel IH]; intros v tmp Hv; rewrite itoa_tmp_S;
    rewrite Z.quot_div_nonneg, Z.rem_mod_nonneg by lia;
    assert (Hd : byte_val (byte_of_Z (48 + v mod 10)) = 48 + v mod 10)
      by (pose proof (Z.mod_pos_bound v 10 ltac:(lia)); rewrite byte_val_of_Z; apply Z.mod_small; lia).
  - assert (v = 0) as -> by (cbn in Hv; lia). exists [byte_of_Z 48]. split; [done|]. split; [cbn; lia | done].
  - destruct (Z.eqb_spec (v / 10) 0) as [Hz|Hz].
    + exists [byte_of_Z (48 + v mod 10)]. split; [done|]. split; [cbn; lia|]. cbn [reverse]. unfold dec_val. cbn [foldl reverse rev_append].
      rewrite Hd. pose proof (Z.div_mod v 10 ltac:(lia)). lia.
    + rewrite Nat2Z.inj_succ, Z.pow_succ_r in Hv by lia.
      destruct (IH (v / 10) (tmp ++ [byte_of_Z (48 + v mod 10)])) as (ds & E & Hl & Hval);
        [split; [apply Z.div_pos | apply Z.div_lt_upper_bound]; lia|].
      exists (byte_of_Z (48 + v mod 10) :: ds). split; [rewrite E; by rewrite <- app_assoc|]. split; [cbn; lia|].
      rewrite reverse_cons, dec_val_snoc, Hval, Hd. pose proof (Z.div_mod v 10 ltac:(lia)). lia.
Qed.

Lemma itoa10_spec v :
  0 <= v < 10 ^ 11 -> exists ds, itoa10 v = Some ds /\ (1 <= length ds <= 12)%nat /\ dec_val ds = v.
Proof.
  intros Hv. destruct (itoa_tmp_spec 11 v [] Hv) as (ds & E & Hl & Hd). exists (reverse ds). unfold itoa10. rewrite E.
  split; [done|]. by rewrite length_reverse.
Qed.

Lemma itoa10_short v ds : 0 <= v < 10 ^ 10 -> itoa10 v = Some ds -> (length ds <= 11)%nat.
Proof.
  intros Hv E. assert (Hf : itoa10 v = reverse <$> itoa_tmp 11 v []); [|].
  - destruct (itoa_tmp_spec 10 v [] Hv) as (ds' & E' & _ & _). unfold itoa10. rewrite E'. clear E.
    enough (Hm : forall f tmp w r, itoa_tmp f w tmp = Some r -> itoa_tmp (S f) w tmp = Some r) by (by erewrite (Hm 11%nat)).
    clear. induction f as [|f IH]; intros tmp w r H; [done|]. rewrite itoa_tmp_S in *. destruct (_ =? 0); [done | by apply IH].
  - destruct (itoa_tmp_spec 10 v [] Hv) as (ds' & E' & Hl & _). rewrite Hf, E' in E. injection E as <-. rewrite length_reverse. cbn. lia.
Qed.

(** ** Writing pieces one behind the other *)

Lemma memcpy_at_spec p bs buf :
  memcpy_at p bs buf =
    if decide (p + length bs <= length buf)%nat then Some (take p buf ++ bs ++ drop (p + length bs) buf) else None.
Proof. done. Qed.

Lemma length_memcpy_at p bs buf buf' : memcpy_at p bs buf = Some buf' -> length buf' = length buf.
Proof.
  unfold memcpy_at. case_decide; [|done]. intros [= <-]. rewrite !length_app, length_take, length_drop. lia.
Qed.

Lemma put_put bs cs st : (st ← put bs st; put cs st) = put (bs ++ cs) st.
Proof.
  destruct st as [buf p]. unfold put. rewrite !memcpy_at_spec. rewrite length_app.
  destruct (decide (p + length bs <= length buf)%nat) as [Hb|Hb]; cbn [mbind option_bind].
  2: { rewrite decide_False by lia. done. }
  rewrite memcpy_at_spec. rewrite !length_app, length_take, length_drop.
  destruct (decide (p + (length bs + length cs) <= length buf)%nat) as [Hc|Hc].
  2: { rewrite decide_False by lia. done. }
  rewrite decide_True by lia. cbn [mbind option_bind]. f_equal. f_equal; [|lia].
  assert (Hl : length (take p buf ++ bs) = (p + length bs)%nat) by (rewrite length_app, length_take; lia).
  rewrite (app_assoc (take p buf) bs), <- Hl, take_app_length, drop_app_ge by lia. rewrite Hl, drop_drop, <- !app_assoc.
  do 4 f_equal. lia.
Qed.

(** The head and the response, as strings. *)
Definition head (n : Z) : list byte := PREFIX ++ default [] (itoa10 n) ++ CRLF2.
Definition response (body : list byte) : list byte := head (Z.of_nat (length body)) ++ body.

Definition small (body : list byte) : Prop := Z.of_nat (length body) < 10 ^ 10.

Lemma write_head_put n st : 0 <= n < 10 ^ 11 -> write_head n st = put (head n) st.
Proof.
  intros Hn. destruct (itoa10_spec n Hn) as (ds & E & _ & _). unfold write_head, head. rewrite E. cbn [default from_option].
  rewrite <- put_put. destruct (put PREFIX st) as [st'|]; [|done]. cbn [mbind option_bind]. by rewrite put_put.
Qed.

Lemma write_response_put body st : small body -> write_response body st = put (response body) st.
Proof.
  intros H. unfold small in H. unfold write_response, response. rewrite write_head_put by (change (10 ^ 10) with 10000000000 in H; change (10 ^ 11) with 100000000000; lia).
  by rewrite put_put.
Qed.

Lemma length_PREFIX : length PREFIX = 59%nat.
Proof. vm_compute. reflexivity. Qed.

Lemma length_head n : 0 <= n < 10 ^ 10 -> (length (head n) <= 74)%nat.
Proof.
  intros Hn. destruct (itoa10_spec n) as (ds & E & _); [change (10 ^ 10) with 10000000000 in Hn; change (10 ^ 11) with 100000000000; lia|].
  pose proof (itoa10_short n ds Hn E). unfold head. rewrite E, !length_app, length_PREFIX. cbn [default from_option]. unfold id. cbn [CRLF2 length]. lia.
Qed.

Lemma length_response body : small body -> (length body <= length (response body) <= length body + 74)%nat.
Proof. intros H. unfold response. rewrite length_app. pose proof (length_head (Z.of_nat (length body)) ltac:(unfold small in H; lia)). lia. Qed.

Lemma put_fits bs buf p :
  (p + length bs <= length buf)%nat -> put bs (buf, p) = Some (take p buf ++ bs ++ drop (p + length bs) buf, (p + length bs)%nat).
Proof. intros H. unfold put. rewrite memcpy_at_spec, decide_True by done. done. Qed.

(** [bs] stands in [buf] just before [p]. *)
Definition ends_with (bs : list byte) (buf : list byte) (p : nat) : Prop :=
  length buf = OUT_LEN /\ exists q, p = (q + length bs)%nat /\ (p <= length buf)%nat /\ take (length bs) (drop q buf) = bs.

Lemma memcpy_ends p bs buf buf' :
  memcpy_at p bs buf = Some buf' -> length buf = OUT_LEN -> ends_with bs buf' (p + length bs).
Proof.
  intros E Hl. pose proof (length_memcpy_at _ _ _ _ E) as Hl'. rewrite memcpy_at_spec in E. case_decide; [|done]. injection E as <-.
  split; [lia|]. exists p. split; [done|]. split; [lia|]. rewrite drop_app_ge by (rewrite length_take; lia).
  rewrite length_take, Nat.min_l, Nat.sub_diag, drop_0 by lia. apply take_app_length.
Qed.

(** ** The strategies of bench/micro.c build the same response *)

Section Loop.
Context (loop : nat -> list byte -> nat -> option (list byte * nat)) (step : list byte -> nat -> option (list byte * nat)) (resp : list byte).
Hypothesis loop_O : forall out off, loop O out off = Some (out, off).
Hypothesis loop_S : forall n out off, loop (S n) out off = ('(out, off) ← step out off; loop n out off).
Hypothesis step_ok : forall out off, length out = OUT_LEN ->
  exists out' off', step out off = Some (out', off') /\ ends_with resp out' off'.

Lemma loop_ends n out off :
  length out = OUT_LEN -> exists out' off', loop (S n) out off = Some (out', off') /\ ends_with resp out' off'.
Proof.
  revert out off. induction n as [|n IH]; intros out off Hl; rewrite loop_S;
    destruct (step_ok out off Hl) as (o1 & f1 & -> & He); cbn [mbind option_bind].
  - rewrite loop_O. eauto.
  - apply IH. by destruct He.
Qed.
End Loop.

Lemma copy_ends p bs out :
  length out = OUT_LEN -> (p + length bs <= OUT_LEN)%nat ->
  exists out', memcpy_at p bs out = Some out' /\ ends_with bs out' (p + length bs).
Proof.
  intros Hl Hp. destruct (memcpy_at p bs out) as [out'|] eqn:E; [exists out'; split; [done | by apply (memcpy_ends p bs out)]|].
  rewrite memcpy_at_spec, decide_True in E by lia. done.
Qed.

Section Strategies.
Context (garbage : nat -> list byte) (Hgarbage : forall n, length (garbage n) = n).

(** The block [handler_alloc] returns begins with the response. *)
Lemma handler_alloc_spec body :
  small body -> exists p0, handler_alloc garbage body = Some (p0, length (response body)) /\ take (length (response body)) p0 = response body.
Proof.
  intros Hs. unfold handler_alloc. rewrite write_response_put by done.
  assert (Hl : (length (response body) <= length PREFIX + 16 + length body)%nat)
    by (pose proof (length_response body Hs); rewrite length_PREFIX; lia).
  rewrite put_fits by (rewrite Hgarbage; lia). eexists. split; [done|]. rewrite take_0, app_nil_l. apply take_app_length.
Qed.

Lemma gutter_step body out off :
  length out = OUT_LEN -> small body -> (off + GUTTER + length body + 256 <= OUT_LEN)%nat ->
  exists out1 hdr out2 out3,
    memcpy_at (off + GUTTER) body out = Some out1 /\
    write_head (Z.of_nat (length body)) (garbage GUTTER, O) = Some (hdr, length (head (Z.of_nat (length body)))) /\
    memmove_at (off + length (head (Z.of_nat (length body)))) (off + GUTTER) (length body) out1 = Some out2 /\
    memcpy_at off (take (length (head (Z.of_nat (length body)))) hdr) out2 = Some out3 /\
    ends_with (response body) out3 (off + length (head (Z.of_nat (length body))) + length body).
Proof.
  intros Hl Hs Hfit. set (n := Z.of_nat (length body)). set (h := length (head n)).
  pose proof (length_head n ltac:(unfold small, n in *; lia)) as Hh. fold h in Hh.
  destruct (copy_ends (off + GUTTER) body out Hl ltac:(lia)) as (out1 & E1 & Hl1 & q & Eq & _ & Eb).
  assert (q = (off + GUTTER)%nat) as -> by lia.
  rewrite write_head_put by (unfold small, n in *; change (10 ^ 10) with 10000000000 in Hs; change (10 ^ 11) with 100000000000; lia).
  rewrite put_fits by (rewrite Hgarbage; unfold GUTTER; fold h; lia). rewrite take_0, app_nil_l, Nat.add_0_l. fold h.
  destruct (copy_ends (off + h) body out1 Hl1 ltac:(unfold GUTTER in *; lia)) as (out2 & E2 & Hl2 & q & Eq' & _ & Eb2).
  assert (q = (off + h)%nat) as -> by lia.
  destruct (copy_ends off (head n) out2 Hl2 ltac:(unfold GUTTER in *; fold h; lia)) as (out3 & E3 & Hl3 & _).
  exists out1, (head n ++ drop h (garbage GUTTER)), out2, out3. split; [done|]. split; [done|]. split.
  { unfold memmove_at. rewrite decide_True by (unfold GUTTER in *; lia). by rewrite Eb. }
  unfold h at 1. rewrite take_app_length. split; [done|]. split; [done|]. unfold response. fold n. exists off. rewrite length_app. fold h.
  split; [lia|]. split; [unfold GUTTER in *; lia|]. rewrite memcpy_at_spec, decide_True in E3 by (fold h; unfold GUTTER in *; lia).
  assert (out3 = take off out2 ++ head n ++ drop (off + length (head n)) out2) as -> by congruence.
  rewrite drop_app_ge by (rewrite length_take; lia). rewrite length_take, Nat.min_l, Nat.sub_diag, drop_0 by lia.
  fold h. rewrite take_app_ge by (fold h; lia). fold h. replace (h + length body - h)%nat with (length body) by lia. by rewrite Eb2.
Qed.

(** A copy of [bs] at the offset, or at 0 when it would not fit. *)
Definition copy_step (bs out : list byte) (off : nat) : option (list byte * nat) :=
  let off := if (OUT_LEN <? off + length bs)%nat then O else off in
  out ← memcpy_at off bs out; Some (out, (off + length bs)%nat).

Lemma copy_step_ends bs out off :
  length out = OUT_LEN -> (length bs <= OUT_LEN)%nat ->
  exists out' off', copy_step bs out off = Some (out', off') /\ ends_with bs out' off'.
Proof.
  intros Hl Hb. unfold copy_step. cbv zeta. set (off' := if (OUT_LEN <? off + length bs)%nat then O else off).
  destruct (copy_ends off' bs out Hl) as (out' & -> & He);
    [unfold off'; destruct (Nat.ltb_spec OUT_LEN (off + length bs)); lia|]. cbn [mbind option_bind]. eauto.
Qed.

Lemma static_ends resp n out off :
  length out = OUT_LEN -> (length resp <= OUT_LEN)%nat ->
  exists o f, bench_static (S n) resp out off = Some (o, f) /\ ends_with resp o f.
Proof.
  intros Hl Hb. apply (loop_ends (fun n => bench_static n resp) (copy_step resp)); [done | | | done].
  - intros m o f. cbn [bench_static]. unfold copy_step. cbv zeta. by destruct (memcpy_at _ _ _).
  - intros o f Ho. by apply copy_step_ends.
Qed.

Lemma alloc_copy_ends body n out off :
  length out = OUT_LEN -> small body -> (length (response body) <= OUT_LEN)%nat ->
  exists o f, bench_alloc_copy garbage (S n) body out off = Some (o, f) /\ ends_with (response body) o f.
Proof.
  intros Hl Hs Hb. destruct (handler_alloc_spec body Hs) as (p0 & Eh & Et).
  apply (loop_ends (fun n => bench_alloc_copy garbage n body) (copy_step (response body))); [done | | | done].
  - intros m o f. cbn [bench_alloc_copy]. rewrite Eh. cbn [mbind option_bind]. unfold copy_step. cbv zeta. rewrite Et.
    by destruct (memcpy_at _ _ _).
  - intros o f Ho. by apply copy_step_ends.
Qed.

Lemma raw_ends body n out off :
  length out = OUT_LEN -> small body -> (length body + 600 <= OUT_LEN)%nat ->
  exists o f, bench_raw (S n) body out off = Some (o, f) /\ ends_with (response body) o f.
Proof.
  intros Hl Hs Hb. pose proof (length_response body Hs) as Hr.
  apply (loop_ends (fun n => bench_raw n body) (fun out off =>
    write_response body (out, if (OUT_LEN <? off + GUTTER + length body)%nat then O else off))); [done | done | | done].
  intros o f Ho. rewrite write_response_put by done. set (f' := if (OUT_LEN <? f + GUTTER + length body)%nat then O else f).
  destruct (copy_ends f' (response body) o Ho) as (o' & E & He);
    [unfold f', GUTTER; destruct (Nat.ltb_spec OUT_LEN (f + 256 + length body)); lia|].
  unfold put. rewrite E. cbn [mbind option_bind]. eauto.
Qed.

Lemma gutter_ends body n out off :
  length out = OUT_LEN -> small body -> (length body + 600 <= OUT_LEN)%nat ->
  exists o f, bench_gutter garbage (S n) body out off = Some (o, f) /\ ends_with (response body) o f.
Proof.
  intros Hl Hs Hb. apply (loop_ends (fun n => bench_gutter garbage n body) (bench_gutter garbage 1 body)); [done | | | done].
  - intros m o f. cbn [bench_gutter]. cbv zeta. destruct (memcpy_at _ body o) as [o1|]; [|done]. cbn [mbind option_bind].
    destruct (write_head _ _) as [[hdr h]|]; [|done]. cbn [mbind option_bind]. destruct (memmove_at _ _ _ _) as [o2|]; [|done].
    cbn [mbind option_bind]. by destruct (memcpy_at _ _ o2).
  - intros o f Ho. cbn [bench_gutter]. cbv zeta. set (f' := if (OUT_LEN <? f + GUTTER + length body + 256)%nat then O else f).
    destruct (gutter_step body o f' Ho Hs) as (o1 & hdr & o2 & o3 & -> & Eh & Em & Ec & He);
      [unfold f', GUTTER; destruct (Nat.ltb_spec OUT_LEN (f + 256 + length body + 256)); lia|].
    cbn [mbind option_bind]. rewrite Eh. cbn [mbind option_bind]. rewrite Em. cbn [mbind option_bind]. rewrite Ec.
    cbn [mbind option_bind]. eauto.
Qed.

(** The strategies the micro-benchmark compares do the same work: over any number
    of responses, writing in place, through a gutter and a move, or through an allocation
    and a copy all stay inside their buffers and leave the same complete response, the one
    the precomputed strategy copies, in front of their final offset. *)
Theorem strategies_build_same_response body n out :
  length out = OUT_LEN -> (length body + 600 <= OUT_LEN)%nat ->
  (exists o f, bench_static (S n) (response body) out 0 = Some (o, f) /\ ends_with (response body) o f) /\
  (exists o f, bench_raw (S n) body out 0 = Some (o, f) /\ ends_with (response body) o f) /\
  (exists o f, bench_gutter garbage (S n) body out 0 = Some (o, f) /\ ends_with (response body) o f) /\
  (exists o f, bench_alloc_copy garbage (S n) body out 0 = Some (o, f) /\ ends_with (response body) o f).
Proof.
  intros Hl Hb. assert (Hs : small body) by (unfold small; pose proof OUT_LEN_val; change (10 ^ 10) with 10000000000; lia).
  pose proof (length_response body Hs) as Hr.
  split; [apply static_ends; [done | lia]|]. split; [by apply raw_ends|]. split; [by apply gutter_ends|].
  apply alloc_copy_ends; [done | done | lia].
Qed.

Lemma bench_alloc_sum n body acc :
  small body -> bench_alloc garbage n body acc = Some (acc + Z.of_nat n * (47 + Z.of_nat (length (response body)))).
Proof.
  intros Hs. destruct (handler_alloc_spec body Hs) as (p0 & Eh & Et).
  assert (E4 : p0 !! 4%nat = Some (byte_of_Z 47)).
  { rewrite <- (lookup_take_lt p0 (length (response body))) by (unfold response, head; rewrite !length_app, length_PREFIX; lia).
    rewrite Et. reflexivity. }
  revert acc. induction n as [|n IH]; intros acc; cbn [bench_alloc]; [f_equal; lia|].
  rewrite Eh. cbn [mbind option_bind]. rewrite E4. cbn [mbind option_bind]. rewrite IH. f_equal. change (byte_val (byte_of_Z 47)) with 47. lia.
Qed.

(** *** The request buffer *)

Lemma grow_loop_spec fuel wire buf len :
  (length wire - len <= fuel)%nat -> (len <= length buf)%nat -> (0 < length buf)%nat -> (len <= length wire)%nat ->
  take len buf = take len wire ->
  exists buf', grow_loop garbage fuel wire buf len = Some (buf', length wire) /\ take (length wire) buf' = wire.
Proof.
  revert buf len. induction fuel as [|fuel IH]; intros buf len Hf Hb Hp Hw Ht; cbn [grow_loop].
  - destruct (Nat.ltb_spec len (length wire)); [lia|]. assert (len = length wire) as -> by lia.
    exists buf. split; [done|]. by rewrite Ht, take_ge.
  - destruct (Nat.ltb_spec len (length wire)) as [Hlt|].
    2: { assert (len = length wire) as -> by lia. exists buf. split; [done|]. by rewrite Ht, take_ge. }
    cbv zeta. set (buf1 := if (len =? length buf)%nat then buf ++ garbage (length buf) else buf).
    assert (H1 : (len < length buf1)%nat /\ take len buf1 = take len wire).
    { unfold buf1. destruct (Nat.eqb_spec len (length buf)); [rewrite length_app, Hgarbage, take_app_le by lia|]; (split; [lia | done]). }
    destruct H1 as [Hl1 Ht1]. set (n := Nat.min (length wire - len) (length buf1 - len)).
    assert (Hn : length (take n (drop len wire)) = n) by (rewrite length_take, length_drop; unfold n; lia).
    rewrite memcpy_at_spec, Hn, decide_True by (unfold n; lia). cbn [mbind option_bind].
    apply IH; try (unfold n; lia); rewrite ?length_app, ?length_take, ?length_drop; try (unfold n; lia).
    rewrite app_assoc, take_app_length' by (rewrite length_app, Hn, length_take; lia).
    rewrite Ht1. symmetry. rewrite <- (take_take_drop wire len n). done.
Qed.

(** The growing buffer and the persistent one read the same request. *)
Lemma reqbuf_agree n wire conn_buf acc :
  wire <> [] -> (length wire <= length conn_buf)%nat ->
  bench_reqbuf_grow garbage n wire acc = bench_reqbuf_persistent n wire conn_buf acc /\
  exists v, bench_reqbuf_persistent n wire conn_buf acc = Some v.
Proof.
  intros Hw. assert (Hpos : (0 < length wire)%nat) by (destruct wire; [done | cbn; lia]).
  destruct (lookup_lt_is_Some_2 wire (length wire - 1)) as [b Hb]; [lia|].
  destruct (grow_loop_spec (length wire) wire (garbage 256) 0) as (buf' & Eg & Et); [lia | rewrite ?Hgarbage; lia.. | done |].
  assert (Eb : buf' !! (length wire - 1)%nat = Some b) by (rewrite <- (lookup_take_lt buf' (length wire)), Et by lia; done).
  revert conn_buf acc. induction n as [|n IH]; intros conn_buf acc Hc; cbn [bench_reqbuf_grow bench_reqbuf_persistent]; [eauto|].
  rewrite Eg. cbn [mbind option_bind]. rewrite Eb, memcpy_at_spec, decide_True by lia. cbn [mbind option_bind].
  rewrite take_0, app_nil_l, lookup_app_l, Hb by lia. cbn [mbind option_bind]. apply IH. rewrite length_app, length_drop. lia.
Qed.
End Strategies.

(** ** The three servers of bench/e2e.c answer alike *)

(** The head of a request ends [k] bytes into [b]. *)
Definition at_end (b : list byte) (k : nat) : Prop := (4 <= k <= length b)%nat /\ take 4 (drop (k - 4) b) = CRLF2.

Lemma four_bytes (b : list byte) i :
  (3 <= i < length b)%nat -> exists c3 c2 c1 c0, b !! (i - 3)%nat = Some c3 /\ b !! (i - 2)%nat = Some c2 /\
    b !! (i - 1)%nat = Some c1 /\ b !! i = Some c0 /\ take 4 (drop (i - 3) b) = [c3; c2; c1; c0].
Proof.
  intros Hi. destruct (lookup_lt_is_Some_2 b (i - 3)) as [c3 H3]; [lia|]. destruct (lookup_lt_is_Some_2 b (i - 2)) as [c2 H2]; [lia|].
  destruct (lookup_lt_is_Some_2 b (i - 1)) as [c1 H1]; [lia|]. destruct (lookup_lt_is_Some_2 b i) as [c0 H0]; [lia|].
  exists c3, c2, c1, c0. repeat (split; [done|]). rewrite (drop_S _ _ _ H3).
  replace (S (i - 3)) with (i - 2)%nat by lia. rewrite (drop_S _ _ _ H2). replace (S (i - 2)) with (i - 1)%nat by lia.
  rewrite (drop_S _ _ _ H1). replace (S (i - 1)) with i by lia. rewrite (drop_S _ _ _ H0). cbn [take]. by rewrite take_0.
Qed.

Lemma req_end_loop_spec n i b :
  (3 <= i)%nat -> (i + n = length b \/ n = 0 /\ length b <= i)%nat -> (forall k, k <= i -> ~ at_end b k)%nat ->
  exists r, req_end_loop n i b = Some r /\
    (r = -1 /\ (forall k, ~ at_end b k) \/
     exists k, r = Z.of_nat k /\ at_end b k /\ forall j, (j < k)%nat -> ~ at_end b j).
Proof.
  revert i. induction n as [|n IH]; intros i Hi Hn Hno; cbn [req_end_loop].
  - exists (-1). split; [done|]. left. split; [done|]. intros k Hk. apply (Hno k); [destruct Hk; lia | done].
  - destruct (four_bytes b i) as (c3 & c2 & c1 & c0 & -> & -> & -> & -> & E4); [lia|]. cbn [mbind option_bind].
    assert (Hend : at_end b (S i) <-> [c3; c2; c1; c0] = CRLF2).
    { unfold at_end. replace (S i - 4)%nat with (i - 3)%nat by lia. rewrite E4. split; [intros [_ ?]; done | intros ?; split; [lia | done]]. }
    destruct (bool_decide_reflect ([c3; c2; c1; c0] = CRLF2)) as [He|He].
    + exists (Z.of_nat i + 1). split; [done|]. right. exists (S i). split; [lia|]. split; [by apply Hend|]. intros j Hj. apply Hno. lia.
    + apply IH; [lia | lia |]. intros k Hk. destruct (decide (k = S i)) as [->|]; [by rewrite Hend | apply Hno; lia].
Qed.

(** [find_req_end] finds the first end of a head. *)
Lemma find_req_end_spec b :
  exists r, find_req_end b = Some r /\
    (r = -1 /\ (forall k, ~ at_end b k) \/ exists k, r = Z.of_nat k /\ at_end b k /\ forall j, (j < k)%nat -> ~ at_end b j).
Proof.
  apply req_end_loop_spec; [lia | lia |]. intros k Hk [? _]. lia.
Qed.

(** [b] holds [n] whole request heads, then [rest]. *)
Inductive splits : list byte -> nat -> list byte -> Prop :=
  | splits_done b : find_req_end b = Some (-1) -> splits b 0 b
  | splits_more b k n rest :
      find_req_end b = Some (Z.of_nat k) -> (4 <= k <= length b)%nat -> splits (drop k b) n rest -> splits b (S n) rest.

Lemma splits_total b : exists n rest, splits b n rest.
Proof.
  remember (length b) as l eqn:El. revert b El. induction l as [l IH] using lt_wf_ind. intros b El.
  destruct (find_req_end_spec b) as (r & E & [[-> _]|(k & -> & [Hk _] & _)]).
  - exists O, b. by constructor.
  - destruct (IH (l - k)%nat ltac:(lia) (drop k b)) as (n & rest & H); [rewrite length_drop; lia|].
    exists (S n), rest. by econstructor.
Qed.

Definition RESP : list byte := response BODY.

Lemma BODY_small : small BODY.
Proof. vm_compute. reflexivity. Qed.

Lemma length_RESP : length RESP = 78%nat.
Proof. vm_compute. reflexivity. Qed.

Definition resps (n : nat) : list byte := concat (replicate n RESP).

Lemma length_resps n : length (resps n) = (n * 78)%nat.
Proof. unfold resps. induction n as [|n IH]; [done|]. cbn [replicate concat]. rewrite length_app, IH, length_RESP. lia. Qed.

(** *** Sending *)

Definition no_zero (s : sock) : Prop := Forall (fun a => a <> Some O) (sends s).

Lemma send_loop_sent answers b s :
  Forall (fun a => a <> Some O) answers ->
  sent (send_loop answers b s) = sent s ++ b /\ no_zero (send_loop answers b s) /\
  inbox (send_loop answers b s) = inbox s /\ closed (send_loop answers b s) = closed s.
Proof.
  intros H. revert b s. induction H as [|a answers Ha Hs IH]; intros [|x b] s; cbn [send_loop].
  - split; [by rewrite app_nil_r|]. split; [constructor | done].
  - split; [done|]. split; [constructor | done].
  - split; [by rewrite app_nil_r|]. split; [by constructor | done].
  - destruct a as [[|n]|]; [done| |apply IH]. destruct (IH (drop (S n) (x :: b)) (s <| sent := sent s ++ take (S n) (x :: b) |>)) as (E & ? & ? & ?).
    rewrite E. cbn [sent field_update]. rewrite <- app_assoc, take_drop. done.
Qed.

Lemma send_all_sent b s :
  no_zero s -> sent (send_all b s) = sent s ++ b /\ no_zero (send_all b s) /\ inbox (send_all b s) = inbox s /\ closed (send_all b s) = closed s.
Proof. intros H. by apply send_loop_sent. Qed.

Section Events.
Context (garbage : nat -> list byte) (Hgarbage : forall n, length (garbage n) = n).

(** *** Answering *)

(** One response written at [woff], in either of the batched modes. *)
Lemma answer_one (compat : bool) wb woff :
  (if compat then '(resp, rl) ← handler_alloc garbage BODY; w ← memcpy_at woff (take rl resp) wb; Some (w, rl)
   else build_into wb woff) =
  (w ← memcpy_at woff RESP wb; Some (w, length RESP)).
Proof.
  destruct compat.
  - destruct (handler_alloc_spec garbage Hgarbage BODY BODY_small) as (p0 & -> & Et). cbn [mbind option_bind]. by rewrite Et.
  - unfold build_into. rewrite write_response_put by apply BODY_small. unfold put. fold RESP.
    destruct (memcpy_at woff RESP wb) as [w|]; [|done]. cbn [mbind option_bind]. do 2 f_equal. lia.
Qed.

Lemma answer_loop_spec compat b n rest :
  splits b n rest -> forall fuel rb pos wb woff,
  drop pos rb = b -> (length b <= fuel)%nat -> (pos <= length rb)%nat ->
  (woff + n * 78 <= length wb)%nat ->
  exists pos' wb', answer_loop garbage fuel compat rb pos wb woff = Some (pos', wb', (woff + n * 78)%nat) /\
    (pos <= pos' <= length rb)%nat /\ drop pos' rb = rest /\ length wb' = length wb /\
    take (woff + n * 78) wb' = take woff wb ++ resps n.
Proof.
  induction 1 as [b E|b k n rest E Hk H IH]; intros fuel rb pos wb woff Hb Hf Hpos Hw.
  - exists pos, wb. rewrite Nat.add_0_r. destruct fuel; cbn [answer_loop]; rewrite Hb, E; cbn [mbind option_bind];
      (change (-1 <? 0) with true; split; [done|]; split; [lia|]; split; [done|]; split; [done|]; by rewrite app_nil_r).
  - destruct fuel as [|fuel]; [lia|]. cbn [answer_loop]. rewrite Hb, E. cbn [mbind option_bind].
    destruct (Z.ltb_spec (Z.of_nat k) 0); [lia|]. rewrite answer_one, memcpy_at_spec, decide_True by (rewrite length_RESP; lia).
    cbn [mbind option_bind]. rewrite Nat2Z.id. assert (Hlen : length rb = (pos + length b)%nat) by (rewrite <- Hb, length_drop; lia).
    set (wb1 := take woff wb ++ RESP ++ drop (woff + length RESP) wb).
    assert (Hl1 : length wb1 = length wb) by (unfold wb1; rewrite !length_app, length_take, length_drop, length_RESP; lia).
    destruct (IH fuel rb (pos + k)%nat wb1 (woff + length RESP)%nat) as (pos' & wb' & Eq & Hp & Hd & Hl & Ht);
      [by rewrite <- drop_drop, Hb | rewrite length_drop; lia | lia | rewrite length_RESP, Hl1; lia|].
    rewrite length_RESP in *. exists pos', wb'. rewrite Eq. split; [do 2 f_equal; lia|]. split; [lia|]. split; [done|]. split; [lia|].
    replace (woff + S n * 78)%nat with (woff + 78 + n * 78)%nat by lia. rewrite Ht. unfold wb1. rewrite (app_assoc (take woff wb)).
    rewrite take_app_length' by (rewrite length_app, length_take, length_RESP; lia). unfold resps. cbn [replicate concat].
    by rewrite <- app_assoc.
Qed.

(** Without room for the responses the batch leaves the write buffer. *)
Lemma answer_loop_overflows compat b n rest :
  splits b n rest -> forall fuel rb pos wb woff,
  drop pos rb = b -> (woff <= length wb)%nat -> (length wb < woff + n * 78)%nat ->
  answer_loop garbage fuel compat rb pos wb woff = None.
Proof.
  induction 1 as [b E|b k n rest E Hk H IH]; intros fuel rb pos wb woff Hb Hw Hov; [lia|].
  destruct fuel as [|fuel]; cbn [answer_loop]; rewrite Hb, E; cbn [mbind option_bind];
    (destruct (Z.ltb_spec (Z.of_nat k) 0); [lia|]); [done|].
  rewrite answer_one, memcpy_at_spec, length_RESP. case_decide as Hfit; [|done]. cbn [mbind option_bind]. rewrite Nat2Z.id.
  apply IH; [by rewrite <- drop_drop, Hb | |]; rewrite !length_app, length_take, length_drop, length_RESP; lia.
Qed.

Lemma answer_each_spec b n rest :
  splits b n rest -> forall fuel rb pos s,
  drop pos rb = b -> (length b <= fuel)%nat -> (pos <= length rb)%nat -> no_zero s ->
  exists pos' s', answer_each garbage fuel rb pos s = Some (pos', s') /\ (pos <= pos' <= length rb)%nat /\ drop pos' rb = rest /\
    sent s' = sent s ++ resps n.
Proof.
  destruct (handler_alloc_spec garbage Hgarbage BODY BODY_small) as (p0 & Eh & Et). fold RESP in Eh, Et.
  induction 1 as [b E|b k n rest E Hk H IH]; intros fuel rb pos s Hb Hf Hpos Hz.
  - exists pos, s. destruct fuel; cbn [answer_each]; rewrite Hb, E; cbn [mbind option_bind];
      (change (-1 <? 0) with true; split; [done|]; split; [lia|]; split; [done|]; by rewrite app_nil_r).
  - destruct fuel as [|fuel]; [lia|]. cbn [answer_each]. rewrite Hb, E. cbn [mbind option_bind].
    destruct (Z.ltb_spec (Z.of_nat k) 0); [lia|]. rewrite Eh. cbn [mbind option_bind]. rewrite Nat2Z.id, Et.
    assert (Hlen : length rb = (pos + length b)%nat) by (rewrite <- Hb, length_drop; lia).
    destruct (send_all_sent RESP s Hz) as (Es & Hz' & _).
    destruct (IH fuel rb (pos + k)%nat (send_all RESP s)) as (pos' & s' & Eq & Hp & Hd & Hs);
      [by rewrite <- drop_drop, Hb | rewrite length_drop; lia | lia | done|].
    exists pos', s'. split; [done|]. split; [lia|]. split; [done|]. rewrite Hs, Es, <- app_assoc. done.
Qed.

(** *** Receiving *)

Lemma store_at_end len bs (buf : list byte) :
  (len + length bs <= length buf)%nat ->
  memcpy_at len bs buf = Some (take len buf ++ bs ++ drop (len + length bs) buf) /\
  length (take len buf ++ bs ++ drop (len + length bs) buf) = length buf /\
  take (len + length bs) (take len buf ++ bs ++ drop (len + length bs) buf) = take len buf ++ bs.
Proof.
  intros H. rewrite memcpy_at_spec, decide_True by done. split; [done|].
  split; [rewrite !length_app, length_take, length_drop; lia|].
  rewrite app_assoc. apply take_app_length'. rewrite length_app, length_take. lia.
Qed.

Lemma fill_rbuf_spec fuel rb rl s :
  length rb = RBUF_LEN -> closed s = false -> Forall (fun c => c <> []) (inbox s) -> (length (inbox s) < fuel)%nat ->
  (rl + length (concat (inbox s)) < RBUF_LEN)%nat ->
  exists rb', fill_rbuf fuel rb rl s = Some (rb', (rl + length (concat (inbox s)))%nat, false, s <| inbox := [] |>) /\
    length rb' = RBUF_LEN /\ take (rl + length (concat (inbox s))) rb' = take rl rb ++ concat (inbox s).
Proof.
  revert rb rl s. induction fuel as [|fuel IH]; intros rb rl s Hl Hc Hne Hf Hfit; [lia|]. cbn [fill_rbuf]. unfold recv.
  destruct (RBUF_LEN - rl)%nat as [|room] eqn:Er; [lia|]. destruct (inbox s) as [|c rest] eqn:Ei.
  - rewrite Hc. cbn [concat length]. rewrite Nat.add_0_r, app_nil_r. exists rb. destruct s; cbn in *; by subst.
  - cbn [concat length] in *. rewrite length_app in *. destruct (Nat.leb_spec (length c) (S room)); [|lia].
    inversion Hne as [|? ? Hc0 Hne']; subst. destruct c as [|x c]; [done|].
    destruct (store_at_end rl (x :: c) rb) as (-> & Hl' & Ht'); [lia|]. cbn [mbind option_bind].
    set (s1 := s <| inbox := rest |>). destruct (IH _ (rl + length (x :: c))%nat s1 ltac:(by rewrite Hl') Hc Hne'
      ltac:(change (inbox s1) with rest; lia) ltac:(change (inbox s1) with rest; lia))
      as (rb' & E & Hlr & Htr). exists rb'. change (inbox s1) with rest in *. rewrite E. rewrite Ht' in Htr.
    rewrite !Nat.add_assoc, Htr, <- app_assoc. by destruct s.
Qed.

Lemma fill_growing_spec fuel buf len s :
  (0 < length buf)%nat -> (len <= length buf)%nat -> closed s = false -> Forall (fun c => c <> []) (inbox s) ->
  (length (concat (inbox s)) + length (inbox s) < fuel)%nat ->
  exists buf', fill_growing garbage fuel buf len s = Some (buf', (len + length (concat (inbox s)))%nat, false, s <| inbox := [] |>) /\
    take (len + length (concat (inbox s))) buf' = take len buf ++ concat (inbox s).
Proof.
  revert buf len s. induction fuel as [|fuel IH]; intros buf len s Hp Hl Hc Hne Hf; [lia|]. cbn [fill_growing]. cbv zeta.
  set (buf1 := if (len =? length buf)%nat then buf ++ garbage (length buf) else buf).
  assert (H1 : (len < length buf1)%nat /\ take len buf1 = take len buf).
  { unfold buf1. destruct (Nat.eqb_spec len (length buf)); [rewrite length_app, Hgarbage, take_app_le by lia|]; (split; [lia | done]). }
  destruct H1 as [Hl1 Ht1]. unfold recv. destruct (length buf1 - len)%nat as [|room] eqn:Er; [lia|]. destruct (inbox s) as [|c rest] eqn:Ei.
  - rewrite Hc. cbn [concat length]. rewrite Nat.add_0_r, app_nil_r. exists buf1. destruct s; cbn in *; by subst.
  - cbn [concat length] in *. rewrite length_app in *. inversion Hne as [|? ? Hc0 Hne']; subst.
    destruct (Nat.leb_spec (length c) (S room)) as [Hle|Hgt].
    + destruct c as [|x c]; [done|]. destruct (store_at_end len (x :: c) buf1) as (-> & Hl' & Ht'); [lia|]. cbn [mbind option_bind].
      set (s1 := s <| inbox := rest |>). destruct (IH _ (len + length (x :: c))%nat s1 ltac:(rewrite Hl'; lia) ltac:(rewrite Hl'; lia) Hc Hne'
        ltac:(change (inbox s1) with rest; cbn [length] in *; lia))
        as (buf' & E & Htr). exists buf'. change (inbox s1) with rest in *. rewrite E. rewrite Ht', Ht1 in Htr.
      rewrite !Nat.add_assoc, Htr, <- app_assoc. by destruct s.
    + set (bs := take (S room) c). assert (Hbs : length bs = S room) by (unfold bs; rewrite length_take; lia).
      assert (exists x t, bs = x :: t) as (x & t & Exs) by (destruct bs as [|x t]; [done | eauto]).
      rewrite Exs. rewrite <- Exs. destruct (store_at_end len bs buf1) as (-> & Hl' & Ht'); [lia|]. cbn [mbind option_bind].
      set (s1 := s <| inbox := drop (S room) c :: rest |>). rewrite Hbs in *.
      assert (Hd : length (drop (S room) c) = (length c - S room)%nat) by (by rewrite length_drop).
      destruct (IH _ (len + S room)%nat s1 ltac:(rewrite Hl'; lia) ltac:(rewrite Hl'; lia) Hc
        ltac:(constructor; [intros En; rewrite En in Hd; cbn in Hd; lia | done])
        ltac:(change (inbox s1) with (drop (S room) c :: rest); cbn [concat length]; rewrite length_app, Hd; lia)) as (buf' & E & Htr).
      exists buf'. change (inbox s1) with (drop (S room) c :: rest) in *. cbn [concat] in *. rewrite length_app, Hd in *. rewrite E, Ht', Ht1 in *.
      replace (len + (length c + length (concat rest)))%nat with (len + S room + (length c - S room + length (concat rest)))%nat by lia.
      rewrite Htr. unfold bs. rewrite <- app_assoc, (app_assoc (take (S room) c)), take_drop. by destruct s.
Qed.
(** *** The events *)

Lemma grow_cap_spec fuel rl cap :
  (0 < cap)%nat -> (rl <= cap + fuel)%nat -> exists cap', grow_cap fuel rl cap = Some cap' /\ (rl <= cap')%nat /\ (0 < cap')%nat.
Proof.
  revert cap. induction fuel as [|fuel IH]; intros cap Hc Hf; cbn [grow_cap]; (destruct (Nat.ltb_spec cap rl); [|eauto]); [lia|].
  apply IH; lia.
Qed.

(** What a connection has kept of its stream. *)
Definition saved (c : conn_t) : list byte := take (rlen c) (rbuf c).

Definition conn_ok (c : conn_t) : Prop := length (rbuf c) = RBUF_LEN /\ length (wbuf c) = WBUF_LEN /\ (rlen c <= RBUF_LEN)%nat.

(** An event of an open connection: chunks to read, and sends that make progress. *)
Definition sock_ok (s : sock) : Prop := closed s = false /\ Forall (fun c => c <> []) (inbox s) /\ no_zero s.

Lemma chunks_le (l : list (list byte)) : Forall (fun c => c <> []) l -> (length l <= length (concat l))%nat.
Proof. induction 1 as [|c l Hc _ IH]; [done|]. destruct c; [done|]. cbn [concat length]. rewrite length_app. cbn [length]. lia. Qed.

Lemma event_batched_spec compat c s n rest :
  conn_ok c -> sock_ok s -> (rlen c + length (concat (inbox s)) < RBUF_LEN)%nat ->
  splits (saved c ++ concat (inbox s)) n rest -> (n * 78 <= WBUF_LEN)%nat ->
  exists c' s', event_batched garbage compat c s = Some (c', false, s') /\ conn_ok c' /\ saved c' = rest /\ sent s' = sent s ++ resps n.
Proof.
  intros (Hrb & Hwb & Hrl) (Hc & Hne & Hz) Hfit Hsp Hn. unfold event_batched.
  destruct (fill_rbuf_spec (RBUF_LEN + 2) (rbuf c) (rlen c) s Hrb Hc Hne) as (rb & -> & Hl & Ht);
    [pose proof (chunks_le _ Hne); lia | done|]. cbn [mbind option_bind].
  set (rl := (rlen c + length (concat (inbox s)))%nat) in *. change (take (rlen c) (rbuf c)) with (saved c) in Ht.
  destruct (answer_loop_spec compat _ n rest Hsp rl (take rl rb) 0 (wbuf c) 0) as (pos & wb & -> & Hp & Hd & Hlw & Hw);
    [by rewrite drop_0 | rewrite <- Ht, length_take; lia | lia | lia |]. cbn [mbind option_bind Nat.add] in *.
  rewrite length_take, Hl in Hp. rewrite take_0, app_nil_l in Hw.
  set (s1 := s <| inbox := [] |>). assert (Hz1 : no_zero s1) by done.
  set (s2 := if (0 <? n * 78)%nat then send_all (take (n * 78) wb) s1 else s1).
  assert (Hs2 : sent s2 = sent s ++ resps n).
  { unfold s2. destruct (Nat.ltb_spec 0 (n * 78)); [destruct (send_all_sent (take (n * 78) wb) s1 Hz1) as [-> _]; by rewrite Hw|].
    assert (n = 0)%nat as -> by lia. by rewrite app_nil_r. }
  assert (Hrest : rest = take (rl - pos) (drop pos rb)).
  { rewrite <- Hd. rewrite <- (take_drop rl rb) at 2. rewrite drop_app_le by (rewrite length_take; lia).
    symmetry. apply take_app_length'. rewrite length_drop, length_take. lia. }
  destruct (Nat.ltb_spec 0 pos) as [Hpos|Hpos].
  - unfold memmove_at. rewrite decide_True by lia. destruct (store_at_end 0 (take (rl - pos) (drop pos rb)) rb) as (E & Hl' & Ht');
      [rewrite length_take, length_drop; lia|]. rewrite E. cbn [mbind option_bind].
    exists (mkConn (take 0 rb ++ take (rl - pos) (drop pos rb) ++ drop (0 + length (take (rl - pos) (drop pos rb))) rb) (rl - pos) wb), s2.
    split; [done|]. split; [repeat split; cbn [rbuf wbuf rlen]; lia|]. split; [|done]. unfold saved. cbn [rlen rbuf].
    assert (Hk : length (take (rl - pos) (drop pos rb)) = (rl - pos)%nat) by (rewrite length_take, length_drop; lia).
    rewrite Hk in Ht' |- *. change (0 + (rl - pos))%nat with (rl - pos)%nat in *. rewrite Ht', take_0. done.
  - cbn [mbind option_bind]. exists (mkConn rb rl wb), s2. split; [done|]. split; [repeat split; cbn [rbuf wbuf rlen]; lia|]. split; [|done].
    unfold saved. cbn [rlen rbuf]. rewrite Hrest. assert (pos = O) as -> by lia. by rewrite Nat.sub_0_r, drop_0.
Qed.

Lemma event_growing_spec c s n rest :
  conn_ok c -> sock_ok s -> (rlen c + length (concat (inbox s)) < RBUF_LEN)%nat ->
  splits (saved c ++ concat (inbox s)) n rest ->
  exists c' s', event_growing garbage c s = Some (c', false, s') /\ conn_ok c' /\ saved c' = rest /\ sent s' = sent s ++ resps n.
Proof.
  intros (Hrb & Hwb & Hrl) (Hc & Hne & Hz) Hfit Hsp. unfold event_growing.
  assert (Hstart : exists buf, (if (0 <? rlen c)%nat
      then cap ← grow_cap (rlen c) (rlen c) 256; buf ← memcpy_at 0 (take (rlen c) (rbuf c)) (garbage cap); Some (buf, rlen c)
      else Some (garbage 256, O)) = Some (buf, rlen c) /\ (0 < length buf)%nat /\ (rlen c <= length buf)%nat /\ take (rlen c) buf = saved c).
  { destruct (Nat.ltb_spec 0 (rlen c)).
    - destruct (grow_cap_spec (rlen c) (rlen c) 256) as (cap & -> & Hcap & Hpos); [lia..|]. cbn [mbind option_bind].
      assert (Hk : length (take (rlen c) (rbuf c)) = rlen c) by (rewrite length_take; lia).
      destruct (store_at_end 0 (take (rlen c) (rbuf c)) (garbage cap)) as (E & Hl' & Ht'); [rewrite Hgarbage; lia|].
      rewrite E. cbn [mbind option_bind]. eexists. split; [done|]. rewrite Hl', Hgarbage. split; [done|]. split; [done|].
      rewrite Hk in Ht' |- *. change (0 + rlen c)%nat with (rlen c) in *. rewrite Ht'. by rewrite take_0.
    - exists (garbage 256). unfold saved. replace (rlen c) with O by lia. rewrite Hgarbage, !take_0. split; [done|]. split; [lia|]. split; [lia | done]. }
  destruct Hstart as (buf & -> & Hp & Hl & Ht). cbn [mbind option_bind].
  destruct (fill_growing_spec _ buf (rlen c) s Hp Hl Hc Hne (Nat.lt_add_pos_r 2 _ ltac:(lia))) as (buf' & -> & Ht'). cbn [mbind option_bind].
  set (len := (rlen c + length (concat (inbox s)))%nat) in *. rewrite Ht in Ht'.
  assert (Hlen : length (take len buf') = len).
  { rewrite Ht', length_app. unfold saved, len. rewrite length_take. lia. }
  destruct (answer_each_spec _ n rest Hsp len (take len buf') 0 (s <| inbox := [] |>)) as (pos & s' & -> & Hpp & Hd & Hs);
    [by rewrite drop_0 | rewrite <- Ht', Hlen; lia | lia | done |]. cbn [mbind option_bind]. rewrite Hlen in Hpp.
  assert (Hrest : rest = take (len - pos) (drop pos buf')).
  { rewrite <- Hd. rewrite take_drop_commute. by replace (pos + (len - pos))%nat with len by lia. }
  assert (Hk : length (take (len - pos) (drop pos buf')) = (len - pos)%nat) by (rewrite <- Hrest, <- Hd, length_drop; lia).
  destruct (Nat.ltb_spec pos len) as [Hlt|Hge].
  - destruct (store_at_end 0 (take (len - pos) (drop pos buf')) (rbuf c)) as (E & Hl' & Ht2); [lia|]. rewrite E. cbn [mbind option_bind].
    eexists _, s'. split; [done|]. split; [repeat split; cbn [rbuf wbuf rlen]; lia|]. split; [|done]. unfold saved. cbn [rlen rbuf].
    rewrite Hk in Ht2 |- *. change (0 + (len - pos))%nat with (len - pos)%nat in *. by rewrite Ht2, take_0, Hrest.
  - eexists _, s'. split; [done|]. split; [repeat split; cbn [rbuf wbuf rlen]; lia|]. split; [|done]. unfold saved. cbn [rlen rbuf].
    rewrite take_0, Hrest. by replace (len - pos)%nat with O by lia.
Qed.

(** The three buffer models the end-to-end benchmark compares serve alike. Of
    the bytes a connection had kept and those an event delivers, in whatever chunks, each
    of them answers every complete request once and in order, whatever its sends accept,
    and keeps the same incomplete rest, as long as the read buffer and the batch's
    write buffer are large enough; beyond the write buffer the batched models overrun it. *)
Theorem e2e_models_agree c s n rest :
  conn_ok c -> sock_ok s -> (rlen c + length (concat (inbox s)) < RBUF_LEN)%nat ->
  splits (saved c ++ concat (inbox s)) n rest ->
  (exists c3 s3, event_growing garbage c s = Some (c3, false, s3) /\ saved c3 = rest /\ sent s3 = sent s ++ resps n) /\
  forall compat, if decide (n * 78 <= WBUF_LEN)%nat
    then exists c' s', event_batched garbage compat c s = Some (c', false, s') /\ saved c' = rest /\ sent s' = sent s ++ resps n
    else event_batched garbage compat c s = None.
Proof.
  intros Hc Hs Hfit Hsp. split.
  - destruct (event_growing_spec c s n rest Hc Hs Hfit Hsp) as (c' & s' & E & _ & ? & ?). eauto.
  - intros compat. case_decide as Hn.
    + destruct (event_batched_spec compat c s n rest Hc Hs Hfit Hsp Hn) as (c' & s' & E & _ & ? & ?). eauto.
    + destruct Hc as (Hrb & Hwb & Hrl), Hs as (Hcl & Hne & Hz). unfold event_batched.
      destruct (fill_rbuf_spec (RBUF_LEN + 2) (rbuf c) (rlen c) s Hrb Hcl Hne) as (rb & -> & Hl & Ht);
        [pose proof (chunks_le _ Hne); lia | done|]. cbn [mbind option_bind].
      rewrite (answer_loop_overflows compat _ n rest Hsp); [done | by rewrite drop_0, Ht | lia | lia].
Qed.
End Events.

Lemma e2e_models_agree_witness :
  let c := mkConn (replicate RBUF_LEN NUL) 0 (replicate WBUF_LEN NUL) in
  let s := mkSock [CRLF2; take 2 CRLF2; drop 2 CRLF2 ++ [NUL]] false [Some 100%nat; None] [] in
  exists c3 s3, event_growing (fun n => replicate n NUL) c s = Some (c3, false, s3) /\ saved c3 = [NUL] /\ sent s3 = resps 2.
Proof.
  intros c s.
  assert (Hc : conn_ok c) by (repeat split; cbn [c rbuf wbuf rlen]; rewrite ?length_replicate; lia).
  assert (Hs : sock_ok s) by (repeat split; repeat constructor; discriminate).
  assert (Hp : splits (saved c ++ concat (inbox s)) 2 [NUL]).
  { unfold saved. cbn [rlen c]. rewrite take_0. apply (splits_more _ 4); [by vm_compute | cbn; lia|].
    apply (splits_more _ 4); [by vm_compute | cbn; lia|]. apply splits_done. by vm_compute. }
  refine (proj1 (e2e_models_agree (fun n => replicate n NUL) (fun n => length_replicate n NUL) c s 2 [NUL] Hc Hs _ Hp)).
  pose proof RBUF_LEN_val. change (rlen c + length (concat (inbox s)))%nat with 9%nat. lia.
Defined.
