(* ===== verification/HttpScan.v ===== *)
(** Scanning bytes by index, as the HTTP/1.1 parser does: views, [memchr], loops that
    skip bytes of a class, and the text they see. *)
From S2P Require Import Prelude WireBytes.
Local Open Scope Z_scope.

(** ** Bytes of the grammar *)

Definition CR : byte := byte_of_Z 13.
Definition LF : byte := byte_of_Z 10.
Definition SP : byte := byte_of_Z 32.
Definition HTAB : byte := byte_of_Z 9.
Definition COLON : byte := byte_of_Z 58.
Definition COMMA : byte := byte_of_Z 44.
Definition SEMI : byte := byte_of_Z 59.
Definition EQUALS : byte := byte_of_Z 61.
Definition DQUOTE : byte := byte_of_Z 34.
Definition BACKSLASH : byte := byte_of_Z 92.
Definition CRLF : list byte := [CR; LF].

Definition beq (a b : byte) : bool := bool_decide (a = b).

(** Optional white space: SP or HTAB. *)
Definition ows (b : byte) : bool := beq b SP || beq b HTAB.

(** ** Reading a buffer *)

(** The [n] bytes from [pos] on, as a pointer and a length give them; [None]
    outside of the buffer. *)
Definition view (buf : list byte) (pos n : nat) : option (list byte) :=
  if decide (pos + n <= length buf)%nat then Some (take n (drop pos buf)) else None.

(** [for i < end && p(buf[i]) { i++ }], [n] rounds before [i] is [end]. *)
Fixpoint scan_while (p : byte -> bool) (n : nat) (buf : list byte) (i : nat) : option nat :=
  match n with
  | O => Some i
  | S n' => b ← buf !! i; if p b then scan_while p n' buf (S i) else Some i
  end.

(** [for end > v && p(buf[end - 1]) { end-- }], [n] rounds before [end] is [v]. *)
Fixpoint scan_back (p : byte -> bool) (n : nat) (buf : list byte) (e : nat) : option nat :=
  match n with
  | O => Some e
  | S n' => b ← buf !! pred e; if p b then scan_back p n' buf (pred e) else Some e
  end.

(** ** The text of a scan *)

Fixpoint take_while {A} (p : A -> bool) (l : list A) : list A :=
  match l with [] => [] | b :: l' => if p b then b :: take_while p l' else [] end.

Fixpoint drop_while {A} (p : A -> bool) (l : list A) : list A :=
  match l with [] => [] | b :: l' => if p b then drop_while p l' else l end.

(** [l] does not begin with a byte of [p]. *)
Definition stops {A} (p : A -> bool) (l : list A) : Prop := match l with [] => True | b :: _ => p b = false end.

Definition trim_end (p : byte -> bool) (l : list byte) : list byte := reverse (drop_while p (reverse l)).

Definition trim (l : list byte) : list byte := trim_end ows (drop_while ows l).

Section While.
Context {A : Type} (p : A -> bool).
Implicit Types l a b : list A.

Lemma take_drop_while l : take_while p l ++ drop_while p l = l.
Proof. induction l as [|x l IH]; cbn; [done|]. destruct (p x); cbn; congruence. Qed.

Lemma take_while_all l : Forall (fun x => p x = true) (take_while p l).
Proof. induction l as [|x l IH]; cbn; [done|]. destruct (p x) eqn:E; [by constructor | done]. Qed.

Lemma drop_while_stops l : stops p (drop_while p l).
Proof. induction l as [|x l IH]; cbn; [done|]. destruct (p x) eqn:E; [done | exact E]. Qed.

Lemma take_while_app a b : Forall (fun x => p x = true) a -> take_while p (a ++ b) = a ++ take_while p b.
Proof. induction 1 as [|x l Hx _ IH]; cbn; [done|]. by rewrite Hx, IH. Qed.

Lemma drop_while_app a b : Forall (fun x => p x = true) a -> drop_while p (a ++ b) = drop_while p b.
Proof. induction 1 as [|x l Hx _ IH]; cbn; [done|]. by rewrite Hx. Qed.

Lemma take_while_stops l : stops p l -> take_while p l = [].
Proof. destruct l as [|x l]; cbn; [done|]. by intros ->. Qed.

Lemma drop_while_id l : stops p l -> drop_while p l = l.
Proof. destruct l as [|x l]; cbn; [done|]. by intros ->. Qed.

(** A run of [p] followed by something else, split at the only place there is. *)
Lemma take_while_unique a b : Forall (fun x => p x = true) a -> stops p b -> take_while p (a ++ b) = a /\ drop_while p (a ++ b) = b.
Proof.
  intros Ha Hb. by rewrite take_while_app, drop_while_app, take_while_stops, drop_while_id, app_nil_r.
Qed.
End While.

Lemma beq_true a b : beq a b = true <-> a = b.
Proof. unfold beq. by rewrite bool_decide_eq_true. Qed.

Lemma beq_false a b : beq a b = false <-> a <> b.
Proof. unfold beq. by rewrite bool_decide_eq_false. Qed.

(** ** Positions as suffixes *)

Lemma drop_lookup_cons (buf : list byte) i b s : drop i buf = b :: s -> buf !! i = Some b /\ drop (S i) buf = s /\ (i < length buf)%nat.
Proof.
  intros H. assert (E : buf !! i = Some b) by (rewrite <- (Nat.add_0_r i), <- lookup_drop, H; done).
  split; [done|]. split; [|by apply lookup_lt_Some in E].
  rewrite <- Nat.add_1_r, <- drop_drop, H. done.
Qed.

Lemma drop_app_suffix (buf a b : list byte) i : drop i buf = a ++ b -> drop (i + length a) buf = b.
Proof. intros H. rewrite <- drop_drop, H. apply drop_app_length. Qed.

Lemma drop_length_eq (buf s : list byte) i : drop i buf = s -> s <> [] -> length buf = (i + length s)%nat.
Proof. intros <- Hs. rewrite length_drop. destruct (decide (i < length buf)%nat); [lia|]. destruct Hs. apply drop_ge. lia. Qed.

Lemma drop_length_le (buf s : list byte) i : drop i buf = s -> (i <= length buf)%nat -> length buf = (i + length s)%nat.
Proof. intros <- Hs. rewrite length_drop. lia. Qed.

Lemma scan_while_spec p n buf i s :
  drop i buf = s -> (i + n <= length buf)%nat ->
  scan_while p n buf i = Some (i + length (take_while p (take n s)))%nat.
Proof.
  revert i s. induction n as [|n IH]; intros i s Hs Hn; cbn [scan_while take]; [rewrite take_0; cbn; f_equal; lia|].
  destruct s as [|b s]; [apply (f_equal length) in Hs; rewrite length_drop in Hs; cbn in Hs; lia|].
  destruct (drop_lookup_cons _ _ _ _ Hs) as (-> & Hd & Hl). cbn [mbind option_bind firstn take_while].
  destruct (p b); cbn [length]; [|f_equal; lia]. rewrite (IH (S i) s) by (done || lia). f_equal. lia.
Qed.

Lemma scan_back_spec p n buf v s :
  take n (drop v buf) = s -> (v + n <= length buf)%nat ->
  scan_back p n buf (v + n) = Some (v + length (trim_end p s))%nat.
Proof.
  revert s. induction n as [|n IH]; intros s Hs Hn; cbn [scan_back].
  { by rewrite <- Hs, take_0. }
  assert (exists b, buf !! (v + n)%nat = Some b) as [b Hb] by (apply lookup_lt_is_Some_2; lia).
  replace (pred (v + S n)) with (v + n)%nat by lia. rewrite Hb. cbn [mbind option_bind].
  assert (Hlast : s = take n (drop v buf) ++ [b]).
  { rewrite <- Hs. apply take_S_r. by rewrite lookup_drop. }
  unfold trim_end in *. rewrite Hlast, reverse_app, reverse_singleton. cbn [app drop_while].
  destruct (p b); [apply IH; [done | lia]|].
  rewrite reverse_cons, reverse_involutive, length_app, length_take, length_drop. cbn [length].
  f_equal. lia.
Qed.

Lemma trim_end_prefix p s : exists z, s = trim_end p s ++ z /\ Forall (fun b => p b = true) z.
Proof.
  exists (reverse (take_while p (reverse s))). unfold trim_end. split.
  - rewrite <- reverse_app, take_drop_while. by rewrite reverse_involutive.
  - apply Forall_reverse, take_while_all.
Qed.

Lemma view_spec buf i s n : drop i buf = s -> (i + n <= length buf)%nat -> view buf i n = Some (take n s).
Proof. intros <- Hn. unfold view. by rewrite decide_True. Qed.

(** A text that continues to begin with [a] has all of it, or only a part. *)
Lemma cut_at {A} (s tail a w : list A) : s ++ tail = a ++ w -> (exists k, s = a ++ k /\ k ++ tail = w) \/ exists k, a = s ++ k /\ k <> [].
Proof.
  intros E. destruct (app_eq_inv _ _ _ _ E) as [(k & -> & ->)|(k & -> & ->)]; [eauto|].
  destruct k as [|c k]; [left; exists []; by rewrite !app_nil_r | right; by exists (c :: k)].
Qed.

(** ** Finding a byte *)

Lemma find_byte_None c (l : list byte) : find_byte c l = None <-> c ∉ l.
Proof.
  induction l as [|b l IH]; cbn; [split; [intros _; apply not_elem_of_nil | done]|].
  rewrite not_elem_of_cons. destruct (decide (b = c)) as [->|Hn]; [naive_solver|].
  destruct (find_byte c l) eqn:E; cbn; naive_solver.
Qed.

Lemma find_byte_Some c (l : list byte) k : find_byte c l = Some k <-> (exists a b, l = a ++ (c :: b) /\ (c ∉ a) /\ length a = k).
Proof.
  split.
  - revert k. induction l as [|b l IH]; intros k; cbn; [done|]. destruct (decide (b = c)) as [->|Hn].
    + intros [= <-]. exists [], l. split; [done|]. split; [apply not_elem_of_nil | done].
    + destruct (find_byte c l) as [j|]; cbn; [|done]. intros [= <-]. destruct (IH j eq_refl) as (a & b' & -> & Ha & <-).
      exists (b :: a), b'. split; [done|]. split; [by apply not_elem_of_cons | done].
  - intros (a & b & -> & Ha & <-). induction a as [|x a IH]; cbn; [by rewrite decide_True|].
    apply not_elem_of_cons in Ha as [Hx Ha]. rewrite decide_False by congruence. by rewrite IH.
Qed.

Lemma find_byte_app c (a b : list byte) : c ∉ a -> find_byte c (a ++ c :: b) = Some (length a).
Proof. intros Ha. apply find_byte_Some. eauto. Qed.

(** ** The text between two indices *)

Definition text (buf : list byte) (i e : nat) (s : list byte) : Prop :=
  take (e - i) (drop i buf) = s /\ (i <= e <= length buf)%nat.

Lemma text_length buf i e s : text buf i e s -> (i + length s = e)%nat.
Proof. intros [<- H]. rewrite length_take, length_drop. lia. Qed.

Lemma text_skip buf i e a s : text buf i e (a ++ s) -> text buf (i + length a) e s.
Proof.
  intros H. pose proof (text_length _ _ _ _ H) as Hl. rewrite length_app in Hl. destruct H as [H Hb]. split; [|lia].
  apply (f_equal (drop (length a))) in H. rewrite drop_app_length, skipn_firstn_comm, drop_drop in H. rewrite <- H. f_equal. lia.
Qed.

Lemma text_cons buf i e c s : text buf i e (c :: s) -> buf !! i = Some c /\ text buf (S i) e s /\ (i < e)%nat.
Proof.
  intros H. pose proof (text_length _ _ _ _ H) as Hl. cbn [length] in Hl.
  split; [|split; [|lia]]; [|replace (S i) with (i + length [c])%nat by (cbn; lia); by apply text_skip].
  destruct H as [H Hb]. rewrite <- (Nat.add_0_r i), <- lookup_drop, <- (lookup_take_lt _ (e - i)), H by lia. done.
Qed.

Lemma text_nil buf i e : text buf i e [] <-> i = e /\ (e <= length buf)%nat.
Proof.
  split; [intros H; pose proof (text_length _ _ _ _ H) as Hl; destruct H; cbn in Hl; lia|].
  intros [-> H]. split; [by rewrite Nat.sub_diag, take_0 | lia].
Qed.

Lemma text_end buf i e s : text buf i e s -> (e <=? i)%nat = bool_decide (s = []).
Proof.
  intros H. pose proof (text_length _ _ _ _ H) as Hl. destruct s as [|c s]; cbn in Hl.
  - rewrite bool_decide_eq_true_2 by done. apply Nat.leb_le. lia.
  - rewrite bool_decide_eq_false_2 by done. apply Nat.leb_gt. lia.
Qed.

Lemma text_view buf i e a s : text buf i e (a ++ s) -> view buf i (length a) = Some a.
Proof.
  intros H. pose proof (text_length _ _ _ _ H) as Hl. rewrite length_app in Hl. destruct H as [H Hb].
  unfold view. rewrite decide_True by lia. f_equal. transitivity (take (length a) (take (e - i) (drop i buf)));
    [rewrite take_take; f_equal; lia | by rewrite H, take_app_length].
Qed.

Lemma text_view_whole buf i e s : text buf i e s -> view buf i (length s) = Some s.
Proof. intros Ht. rewrite <- (app_nil_r s) in Ht. by apply text_view in Ht. Qed.

(** A scan stops behind the longest run, and sees the rest there. *)
Lemma text_scan p buf i e s :
  text buf i e s -> scan_while p (e - i) buf i = Some (i + length (take_while p s))%nat /\
    text buf (i + length (take_while p s)) e (drop_while p s).
Proof.
  intros H. split; [|apply text_skip; by rewrite take_drop_while].
  destruct H as [H Hb]. rewrite (scan_while_spec _ _ _ _ _ eq_refl) by lia. by rewrite H.
Qed.

Lemma text_suffix buf i s : drop i buf = s -> (i <= length buf)%nat -> text buf i (length buf) s.
Proof. intros H Hi. split; [|lia]. rewrite take_ge; [done|]. rewrite length_drop. lia. Qed.

Lemma text_drop buf i s : text buf i (length buf) s -> drop i buf = s.
Proof. intros [H Hi]. rewrite take_ge in H; [done|]. rewrite length_drop. lia. Qed.

(** The part of a text in front of a later index. *)
Lemma text_prefix buf i e a s : text buf i e (a ++ s) -> text buf i (i + length a) a.
Proof.
  intros H. pose proof (text_length _ _ _ _ H) as Hl. rewrite length_app in Hl. destruct H as [H Hb]. split; [|lia].
  replace (i + length a - i)%nat with (length a) by lia. transitivity (take (length a) (take (e - i) (drop i buf)));
    [rewrite take_take; f_equal; lia | by rewrite H, take_app_length].
Qed.
