(* ===== verification/HttpField.v ===== *)
(** Field lines of an HTTP/1.1 head, and the two fields that decide how a body is framed:
    [line_header_value], [parse_content_length] and [te_fold] of
    http1_1/request_parser/request_parser.v, and what they read of a line's text. *)
From S2P Require Import Prelude WireBytes HttpScan.
Local Open Scope Z_scope.

(** ** The code *)

Record Slice := mkSlice { start : nat; slen : Z }.

(** One round of [ascii_ci_eq]. *)
Definition ci_byte (a b : byte) : bool :=
  let x := Z.lxor (byte_val a) (byte_val b) in
  if x =? 0 then true
  else if negb (x =? 0x20) then false
  else let c := Z.lor (byte_val a) 0x20 in negb ((c <? 97) || (122 <? c)).

(** On the [len] bytes at both pointers. *)
Fixpoint ascii_ci_eq (a b : list byte) : bool :=
  match a, b with
  | x :: a', y :: b' => if ci_byte x y then ascii_ci_eq a' b' else false
  | _, _ => true
  end.

(** [None] inside: no such field; a length of -1: white space before the colon. *)
Definition line_header_value (buf : list byte) (line_start line_len : nat) (name : list byte) : option (option Slice) :=
  if (line_len <? length name + 1)%nat then Some None
  else
    head ← view buf line_start (length name);
    if negb (ascii_ci_eq head name) then Some None
    else
      after ← buf !! (line_start + length name)%nat;
      if negb (beq after COLON) then (if ows after then Some (Some (mkSlice line_start (-1))) else Some None)
      else
        let e := (line_start + line_len)%nat in
        v ← scan_while ows (e - (line_start + length name + 1)) buf (line_start + length name + 1);
        e ← scan_back ows (e - v) buf e;
        Some (Some (mkSlice v (Z.of_nat e - Z.of_nat v))).

Definition max_declared : Z := Z.shiftl 1 30.

(** [for i in s.start .. s.start + s.len], [n] rounds left; [None] inside is the error. *)
Fixpoint digits_loop (n : nat) (buf : list byte) (i : nat) (acc : Z) : option (option Z) :=
  match n with
  | O => Some (Some acc)
  | S n' =>
      c ← byte_val <$> buf !! i;
      if (c <? 48) || (57 <? c) then Some None
      else
        let acc := acc * 10 + (c - 48) in
        if max_declared <? acc then Some None else digits_loop n' buf (S i) acc
  end.

Definition parse_content_length (buf : list byte) (s : Slice) : option (option Z) :=
  if slen s <=? 0 then Some None else digits_loop (Z.to_nat (slen s)) buf (start s) 0.

Definition chunked_name : list byte := bytes_of "chunked".

(** [for buf[stop - 1] is OWS { stop-- }]: nothing but the text bounds it. *)
Fixpoint stop_loop (buf : list byte) (stop : nat) : option nat :=
  match stop with
  | O => None
  | S stop' => b ← buf !! stop'; if ows b then stop_loop buf stop' else Some stop
  end.

(** [for i < end] of [te_fold]; [fuel] bounds its rounds. *)
Fixpoint te_loop (fuel : nat) (buf : list byte) (e i : nat) (last_chunked : bool) (codings : Z) : option Z :=
  if (i <? e)%nat then
    match fuel with
    | O => None
    | S fuel' =>
        c ← buf !! i;
        if beq c COMMA || ows c then te_loop fuel' buf e (S i) last_chunked codings
        else
          j ← scan_while (fun b => negb (beq b COMMA)) (e - i) buf i;
          stop ← stop_loop buf j;
          if last_chunked then Some (-1)
          else
            t ← view buf i (stop - i);
            te_loop fuel' buf e j ((stop - i =? 7)%nat && ascii_ci_eq t chunked_name) (codings + 1)
    end
  else Some (if codings =? 0 then -1 else if last_chunked then 1 else 0).

(** The one compare in front: [!chunked && v.len == 7 && ascii_ci_eq(...)]. *)
Definition te_plain (buf : list byte) (v : Slice) (chunked : bool) : option bool :=
  if negb chunked && (slen v =? 7) then (fun t => ascii_ci_eq t chunked_name) <$> view buf (start v) 7 else Some false.

Definition te_fold (buf : list byte) (v : Slice) (chunked : bool) : option Z :=
  plain ← te_plain buf v chunked;
  if (plain : bool) then Some 1
  else let n := Z.to_nat (slen v) in te_loop n buf (start v + n) (start v) chunked 0.

(** ** What a line says *)

Definition lower (b : byte) : byte := if (65 <=? byte_val b) && (byte_val b <=? 90) then byte_of_Z (byte_val b + 32) else b.

Definition ci_eq (a b : list byte) : bool := bool_decide (lower <$> a = lower <$> b).

Inductive field_match := NoField | BadField | FieldValue (v : list byte).

(** [name ":" OWS value OWS], the name in any case; [BadField] is white space
    before the colon. *)
Definition field (name l : list byte) : field_match :=
  if ci_eq (take (length name) l) name then
    match drop (length name) l with
    | [] => NoField
    | c :: v => if beq c COLON then FieldValue (trim v) else if ows c then BadField else NoField
    end
  else NoField.

Definition digit (b : byte) : bool := (48 <=? byte_val b) && (byte_val b <=? 57).

Definition decimal (l : list byte) : Z := foldl (fun n b => n * 10 + (byte_val b - 48)) 0 l.

(** A length as RFC 9110 writes it, up to the largest the server accepts. *)
Definition length_value (v : list byte) : option Z :=
  if negb (bool_decide (v = [])) && forallb digit v && (decimal v <=? max_declared) then Some (decimal v) else None.

Fixpoint split_on (c : byte) (l : list byte) : list (list byte) :=
  match l with
  | [] => [[]]
  | b :: l' =>
      if beq b c then [] :: split_on c l'
      else match split_on c l' with x :: xs => (b :: x) :: xs | [] => [] end
  end.

(** The elements of a comma-separated list; empty ones do not count. *)
Definition codings (v : list byte) : list (list byte) := filter (fun t => t <> []) (trim <$> split_on COMMA v).

Definition is_chunked (t : list byte) : bool := ci_eq t chunked_name.

(** Whether chunked is the last coding so far; [None] when one follows chunked. *)
Fixpoint chunked_last (last : bool) (ts : list (list byte)) : option bool :=
  match ts with
  | [] => Some last
  | t :: ts' => if last then None else chunked_last (is_chunked t) ts'
  end.

(** One Transfer-Encoding value, with what came before it. *)
Definition te_value (chunked : bool) (v : list byte) : option bool :=
  if bool_decide (codings v = []) then None else chunked_last chunked (codings v).

(** ** Names in any case *)

Lemma ci_byte_spec a b : ci_byte a b = beq (lower a) (lower b).
Proof.
  apply eqb_prop. revert b. apply (byte_cases (fun b => Bool.eqb (ci_byte a b) (beq (lower a) (lower b)))).
  revert a. refine (fun a => byte_cases (fun a => forallb _ (byte_of_Z <$> seqZ 0 256)) _ a). vm_compute. reflexivity.
Qed.

Lemma ascii_ci_eq_spec a b : length a = length b -> ascii_ci_eq a b = ci_eq a b.
Proof.
  revert b. induction a as [|x a IH]; intros [|y b] Hl; try done. cbn [ascii_ci_eq]. rewrite ci_byte_spec. injection Hl as Hl.
  unfold ci_eq in *. rewrite !fmap_cons. destruct (beq (lower x) (lower y)) eqn:E.
  - apply beq_true in E. rewrite E, (IH b Hl). apply bool_decide_ext. split; congruence.
  - apply beq_false in E. symmetry. apply bool_decide_eq_false. congruence.
Qed.

Lemma ci_eq_length a b : ci_eq a b = true -> length a = length b.
Proof. unfold ci_eq. rewrite bool_decide_eq_true. intros H. apply (f_equal length) in H. by rewrite !length_fmap in H. Qed.

(** ** [line_header_value] *)

Lemma trim_at buf i n v :
  take n (drop i buf) = v -> (i + n <= length buf)%nat ->
  exists s, scan_while ows n buf i = Some s /\ scan_back ows (i + n - s) buf (i + n) = Some (s + length (trim v))%nat /\
    (s + length (trim v) <= i + n)%nat /\ take (length (trim v)) (drop s buf) = trim v.
Proof.
  intros Hv Hn. assert (Hl : length v = n) by (rewrite <- Hv, length_take, length_drop; lia).
  rewrite (scan_while_spec _ _ _ _ _ eq_refl Hn), Hv. eexists. split; [reflexivity|].
  pose proof (take_drop_while ows v) as Hs. set (a := take_while ows v) in *. set (w := drop_while ows v) in *.
  assert (Hlw : (length a + length w = n)%nat) by (rewrite <- length_app, Hs; done).
  assert (Hw : take (length w) (drop (i + length a) buf) = w).
  { rewrite <- drop_drop. apply (f_equal (drop (length a))) in Hv. rewrite <- Hs, drop_app_length in Hv.
    rewrite skipn_firstn_comm in Hv. by replace (n - length a)%nat with (length w) in Hv by lia. }
  replace (i + n - (i + length a))%nat with (length w) by lia. replace (i + n)%nat with (i + length a + length w)%nat by lia.
  unfold trim. fold w. rewrite (scan_back_spec ows _ _ _ _ Hw) by lia. split; [done|].
  destruct (trim_end_prefix ows w) as (z & Hz & _). assert (length w = (length (trim_end ows w) + length z)%nat) by (rewrite Hz at 1; apply length_app).
  split; [lia|]. transitivity (take (length (trim_end ows w)) w); [|rewrite Hz at 2; apply take_app_length].
  transitivity (take (length (trim_end ows w)) (take (length w) (drop (i + length a) buf))); [rewrite take_take; f_equal; lia | by rewrite Hw].
Qed.

Definition field_at (buf : list byte) (line_start line_len : nat) (m : field_match) (r : option (option Slice)) : Prop :=
  match m with
  | NoField => r = Some None
  | BadField => r = Some (Some (mkSlice line_start (-1)))
  | FieldValue v => exists s, r = Some (Some (mkSlice s (Z.of_nat (length v)))) /\
      take (length v) (drop s buf) = v /\ (s + length v <= line_start + line_len)%nat
  end.

Lemma line_header_value_spec buf ls ll name l :
  take ll (drop ls buf) = l -> (ls + ll <= length buf)%nat -> field_at buf ls ll (field name l) (line_header_value buf ls ll name).
Proof.
  intros Hl Hn. assert (Hll : length l = ll) by (rewrite <- Hl, length_take, length_drop; lia).
  unfold line_header_value, field. destruct (Nat.ltb_spec ll (length name + 1)).
  { destruct (ci_eq _ name); [|done]. by rewrite drop_ge by lia. }
  rewrite (view_spec _ _ _ _ eq_refl) by lia. cbn [mbind option_bind].
  assert (Hh : take (length name) (drop ls buf) = take (length name) l) by (rewrite <- Hl, take_take; f_equal; lia).
  rewrite Hh, ascii_ci_eq_spec by (rewrite length_take; lia). destruct (ci_eq _ name); cbn [negb]; [|done].
  destruct (drop (length name) l) as [|c v] eqn:Hd; [apply (f_equal length) in Hd; rewrite length_drop in Hd; cbn in Hd; lia|].
  assert (Hc : take (ll - length name) (drop (ls + length name) buf) = c :: v)
    by (rewrite <- Hd, <- Hl, skipn_firstn_comm, drop_drop; done).
  destruct (drop (ls + length name) buf) as [|c' rest] eqn:Hr; [by rewrite take_nil in Hc|].
  destruct (drop_lookup_cons _ _ _ _ Hr) as (-> & Hr' & _). cbn [mbind option_bind].
  destruct (ll - length name)%nat as [|k] eqn:Hk; [lia|]. rewrite firstn_cons in Hc. injection Hc as -> Hv.
  destruct (beq c COLON); cbn [negb]; [|by destruct (ows c)].
  replace (ls + length name + 1)%nat with (S (ls + length name)) by lia. replace (ls + ll - S (ls + length name))%nat with k by lia.
  rewrite <- Hr' in Hv. destruct (trim_at _ _ _ _ Hv) as (s & -> & Hb & Hle & Ht); [lia|]. cbn [mbind option_bind].
  replace (ls + ll)%nat with (S (ls + length name) + k)%nat by lia. rewrite Hb. cbn [mbind option_bind].
  exists s. split; [do 3 f_equal; lia|]. split; [done | lia].
Qed.

(** ** [parse_content_length] *)

Lemma decimal_mono (l : list byte) a : forallb digit l = true -> 0 <= a -> a <= foldl (fun n b => n * 10 + (byte_val b - 48)) a l.
Proof.
  revert a. induction l as [|b l IH]; intros a Hd Ha; cbn in *; [lia|]. apply andb_prop in Hd as [Hb Hd].
  unfold digit in Hb. etrans; [|apply IH; [done | lia]]. lia.
Qed.

Lemma digits_loop_spec n buf i acc v :
  take n (drop i buf) = v -> (i + n <= length buf)%nat -> 0 <= acc <= max_declared ->
  let r := foldl (fun n b => n * 10 + (byte_val b - 48)) acc v in
  digits_loop n buf i acc = Some (if forallb digit v && (r <=? max_declared) then Some r else None).
Proof.
  revert i acc v. induction n as [|n IH]; intros i acc v Hv Hn Ha r; cbn [digits_loop].
  { rewrite take_0 in Hv. subst r v. cbn [foldl forallb]. by rewrite (proj2 (Z.leb_le acc _)) by lia. }
  destruct (drop i buf) as [|b s] eqn:Hs; [apply (f_equal length) in Hs; rewrite length_drop in Hs; cbn in Hs; lia|].
  destruct (drop_lookup_cons _ _ _ _ Hs) as (-> & Hs' & _). cbn [fmap option_fmap option_map mbind option_bind].
  rewrite firstn_cons in Hv. subst r. rewrite <- Hv. cbn [forallb foldl].
  assert (Ed : (byte_val b <? 48) || (57 <? byte_val b) = negb (digit b)) by (unfold digit; lia). rewrite Ed.
  destruct (digit b) eqn:Eb; cbn [negb andb]; [|done]. unfold digit in Eb.
  set (v' := take n s) in *. destruct (Z.ltb_spec max_declared (acc * 10 + (byte_val b - 48))).
  - destruct (forallb digit v') eqn:Ev; [|done]. cbn [andb].
    pose proof (decimal_mono v' (acc * 10 + (byte_val b - 48)) Ev ltac:(lia)). by rewrite (proj2 (Z.leb_gt _ _)) by lia.
  - apply IH; [by rewrite Hs' | lia | lia].
Qed.

Lemma parse_content_length_spec buf s v :
  take (length v) (drop s buf) = v -> (s + length v <= length buf)%nat ->
  parse_content_length buf (mkSlice s (Z.of_nat (length v))) = Some (length_value v).
Proof.
  intros Hv Hn. unfold parse_content_length, length_value. cbn [slen start].
  destruct (Z.leb_spec (Z.of_nat (length v)) 0); [by destruct v; [|cbn in *; lia]|].
  rewrite Nat2Z.id. rewrite (bool_decide_eq_false_2 (v = [])) by (intros ->; cbn in *; lia). cbn [negb andb].
  by apply digits_loop_spec.
Qed.

Lemma length_value_range v n : length_value v = Some n -> 0 <= n <= max_declared.
Proof.
  unfold length_value. destruct (_ && forallb digit v) eqn:E; [|done]. apply andb_prop in E as [_ E]. cbn [andb].
  destruct (Z.leb_spec (decimal v) max_declared); [|done]. intros [= <-]. split; [by apply decimal_mono | done].
Qed.

(** ** [te_fold] *)

Lemma split_on_cons c l : exists x xs, split_on c l = x :: xs.
Proof. induction l as [|b l (x & xs & IH)]; cbn; [eauto|]. destruct (beq b c); [eauto|]. rewrite IH. eauto. Qed.

Lemma split_on_app c a b : c ∉ a -> split_on c (a ++ c :: b) = a :: split_on c b.
Proof.
  induction a as [|x a IH]; intros Ha; cbn; [by rewrite (proj2 (beq_true c c))|].
  apply not_elem_of_cons in Ha as [Hx Ha]. rewrite (proj2 (beq_false x c)) by congruence. by rewrite IH.
Qed.

Lemma split_on_none c a : c ∉ a -> split_on c a = [a].
Proof.
  induction a as [|x a IH]; intros Ha; cbn; [done|].
  apply not_elem_of_cons in Ha as [Hx Ha]. rewrite (proj2 (beq_false x c)) by congruence. by rewrite IH.
Qed.

Lemma trim_skip b l : ows b = true -> trim (b :: l) = trim l.
Proof. intros Hb. unfold trim. cbn [drop_while]. by rewrite Hb. Qed.

Lemma trim_end_nonempty p b l : p b = false -> trim_end p (b :: l) <> [].
Proof.
  intros Hb H. destruct (trim_end_prefix p (b :: l)) as (z & Hz & Hp). rewrite H in Hz. cbn [app] in Hz. subst z.
  inversion_clear Hp. congruence.
Qed.

Lemma codings_skip b l : beq b COMMA || ows b = true -> codings (b :: l) = codings l.
Proof.
  unfold codings. cbn [split_on]. destruct (beq b COMMA) eqn:E; cbn [orb]; [done|]. intros Hb.
  destruct (split_on_cons COMMA l) as (x & xs & ->). cbn [fmap list_fmap]. by rewrite trim_skip.
Qed.

Lemma codings_token t rest :
  COMMA ∉ t -> stops ows t -> t <> [] -> stops (fun b => negb (beq b COMMA)) rest ->
  codings (t ++ rest) = trim_end ows t :: codings rest.
Proof.
  intros Hc Ho Hn Hr. assert (Ht : trim t = trim_end ows t) by (unfold trim; by rewrite drop_while_id).
  assert (Hne : trim_end ows t <> []) by (destruct t as [|b t]; [done | by apply trim_end_nonempty]).
  destruct rest as [|c rest].
  - rewrite app_nil_r. unfold codings. rewrite split_on_none by done. cbn [fmap list_fmap]. rewrite Ht.
    by rewrite filter_cons_True.
  - cbn [stops] in Hr. apply negb_false_iff, beq_true in Hr as ->. unfold codings at 1. rewrite split_on_app by done.
    cbn [fmap list_fmap]. rewrite Ht, filter_cons_True by done. done.
Qed.

Lemma stop_loop_spec buf i t :
  take (length t) (drop i buf) = t -> t <> [] -> stops ows t ->
  stop_loop buf (i + length t) = Some (i + length (trim_end ows t))%nat.
Proof.
  induction t as [|b t IH] using rev_ind; intros Ht Hn Ho; [done|].
  assert (Hi : (i + length (t ++ [b]) <= length buf)%nat).
  { pose proof (f_equal length Ht) as E. rewrite length_take, length_drop in E. rewrite length_app in *. cbn [length] in *. lia. }
  assert (Hb : buf !! (i + length t)%nat = Some b).
  { rewrite <- lookup_drop, <- (lookup_take_lt _ (length (t ++ [b]))), Ht by (rewrite length_app; cbn; lia). by apply list_lookup_middle. }
  rewrite length_app. cbn [length]. replace (i + (length t + 1))%nat with (S (i + length t)) by lia. cbn [stop_loop]. rewrite Hb.
  cbn [mbind option_bind]. unfold trim_end. rewrite reverse_app, reverse_singleton. cbn [app drop_while].
  destruct (ows b) eqn:Eb.
  - destruct t as [|x t]; [cbn in Ho; congruence|]. apply IH; [|done|done].
    apply (f_equal (take (length (x :: t)))) in Ht. rewrite take_take, take_app_length in Ht. rewrite <- Ht at 2. f_equal. rewrite length_app. lia.
  - rewrite reverse_cons, reverse_involutive, length_app. cbn [length]. by replace (i + (length t + 1))%nat with (S (i + length t)) by lia.
Qed.

Definition te_result (n : Z) (last : bool) (ts : list (list byte)) : Z :=
  match chunked_last last ts with
  | None => -1
  | Some l => if (n =? 0) && bool_decide (ts = []) then -1 else if l then 1 else 0
  end.

Lemma te_token_step buf e i s :
  take (e - i) (drop i buf) = s -> (i <= e <= length buf)%nat -> s <> [] -> stops (fun b => beq b COMMA || ows b) s ->
  exists t rest j, codings s = (t :: codings rest) /\ scan_while (fun b => negb (beq b COMMA)) (e - i) buf i = Some j /\
    stop_loop buf j = Some (i + length t)%nat /\ view buf i (length t) = Some t /\
    take (e - j) (drop j buf) = rest /\ (i < j <= e)%nat /\ (length rest < length s)%nat.
Proof.
  intros Hs Hi Hn Hst. set (p := fun b => negb (beq b COMMA)).
  pose proof (take_drop_while p s) as Hsp. pose proof (take_while_all p s) as Hall. pose proof (drop_while_stops p s) as Hrs.
  set (t := take_while p s) in *. set (rest := drop_while p s) in *.
  assert (Hls : length s = (e - i)%nat) by (rewrite <- Hs, length_take, length_drop; lia).
  assert (Hlen : (length t + length rest = e - i)%nat) by (rewrite <- length_app, Hsp; done).
  assert (Htn : t <> [] /\ stops ows t).
  { unfold t. destruct s as [|b s]; [done|]. cbn [stops] in Hst. apply orb_false_iff in Hst as [Hb Ho]. cbn [take_while].
    unfold p. rewrite Hb. cbn [negb]. done. }
  destruct Htn as [Htn Hto].
  assert (Hnc : COMMA ∉ t).
  { intros Hin. rewrite Forall_forall in Hall. specialize (Hall _ Hin). unfold p in Hall. by rewrite (proj2 (beq_true COMMA COMMA)) in Hall. }
  assert (Htk : take (length t) (drop i buf) = t).
  { transitivity (take (length t) (take (e - i) (drop i buf))); [rewrite take_take; f_equal; lia|]. by rewrite Hs, <- Hsp, take_app_length. }
  assert (Htl : length t <> O) by (by destruct t).
  destruct (trim_end_prefix ows t) as (z & Hz & _). assert (Hzl : length t = (length (trim_end ows t) + length z)%nat) by (rewrite Hz at 1; apply length_app).
  exists (trim_end ows t), rest, (i + length t)%nat. split; [rewrite <- Hsp at 1; by apply codings_token|].
  split; [rewrite (scan_while_spec _ _ _ _ _ eq_refl) by lia; by rewrite Hs|]. split; [by apply stop_loop_spec|].
  split.
  { unfold view. rewrite decide_True by lia. f_equal. transitivity (take (length (trim_end ows t)) (take (length t) (drop i buf)));
      [rewrite take_take; f_equal; lia | rewrite Htk; rewrite Hz at 2; apply take_app_length]. }
  split; [|lia]. rewrite <- drop_drop. apply (f_equal (drop (length t))) in Hs. rewrite <- Hsp, drop_app_length, skipn_firstn_comm in Hs.
  by replace (e - (i + length t))%nat with (e - i - length t)%nat by lia.
Qed.

Lemma te_loop_spec fuel buf e i s last n :
  take (e - i) (drop i buf) = s -> (i <= e <= length buf)%nat -> (length s <= fuel)%nat -> 0 <= n ->
  te_loop fuel buf e i last n = Some (te_result n last (codings s)).
Proof.
  revert i s last n. induction fuel as [|fuel IH]; intros i s last n Hs Hi Hf Hn;
    (assert (Hls : length s = (e - i)%nat) by (rewrite <- Hs, length_take, length_drop; lia)); cbn [te_loop];
    (destruct (Nat.ltb_spec i e); [|destruct s; [|cbn in *; lia]; unfold te_result; cbn; by rewrite andb_true_r]); [lia|].
  destruct s as [|c s]; [cbn in Hls; lia|].
  destruct (drop i buf) as [|c' d] eqn:Hd; [by rewrite take_nil in Hs|]. destruct (drop_lookup_cons _ _ _ _ Hd) as (-> & Hd' & _).
  cbn [mbind option_bind]. destruct (e - i)%nat as [|k] eqn:Ek; [lia|]. rewrite firstn_cons in Hs. injection Hs as -> Hs.
  destruct (beq c COMMA || ows c) eqn:Ec.
  { rewrite codings_skip by done. apply IH; [rewrite Hd'; by replace (e - S i)%nat with k by lia | lia | cbn in Hf; lia | done]. }
  destruct (te_token_step buf e i (c :: s)) as (t & rest & j & Hc & Hj & Hst & Hv & Hr & Hij & Hlt);
    [rewrite Ek, Hd, firstn_cons; by f_equal | lia | done | exact Ec|].
  rewrite Ek in Hj. rewrite Hj. cbn [mbind option_bind]. rewrite Hst. cbn [mbind option_bind]. rewrite Hc.
  unfold te_result. cbn [chunked_last]. destruct last; [done|].
  replace (i + length t - i)%nat with (length t) by lia. rewrite Hv. cbn [mbind option_bind].
  rewrite (IH j rest _ (n + 1) Hr) by lia. unfold te_result.
  assert (E : (length t =? 7)%nat && ascii_ci_eq t chunked_name = is_chunked t).
  { unfold is_chunked. destruct (Nat.eqb_spec (length t) 7) as [E|E]; [by apply ascii_ci_eq_spec|].
    destruct (ci_eq t chunked_name) eqn:Ei; [by apply ci_eq_length in Ei | done]. }
  rewrite E. destruct (chunked_last (is_chunked t) (codings rest)); [|done].
  rewrite (proj2 (Z.eqb_neq (n + 1) 0)) by lia. by rewrite (bool_decide_eq_false_2 (t :: codings rest = [])), andb_false_r.
Qed.

Lemma chunked_bytes b : lower b ∈ lower <$> chunked_name -> beq b COMMA || ows b = false.
Proof.
  intros Hb.
  assert (H : negb (bool_decide (lower b ∈ lower <$> chunked_name)) || negb (beq b COMMA || ows b) = true).
  { revert b Hb. intros b _. revert b. apply byte_cases. vm_compute. reflexivity. }
  rewrite bool_decide_eq_true_2 in H by done. by apply negb_true_iff in H.
Qed.

Lemma codings_chunked v : ci_eq v chunked_name = true -> codings v = [v].
Proof.
  unfold ci_eq. rewrite bool_decide_eq_true. intros Hv.
  assert (Hall : Forall (fun b => beq b COMMA || ows b = false) v).
  { apply Forall_forall. intros b Hb. apply chunked_bytes. rewrite <- Hv. by apply list_elem_of_fmap_2. }
  assert (Hne : v <> []) by (by intros ->).
  assert (Hc : COMMA ∉ v) by (intros Hin; rewrite Forall_forall in Hall; by specialize (Hall _ Hin)).
  assert (Hs : forall l, Forall (fun b => beq b COMMA || ows b = false) l -> stops ows l)
    by (intros [|b l] Hl; [done|]; inversion_clear Hl as [|? ? Hb]; by apply orb_false_iff in Hb as [_ Hb]).
  assert (Ht : trim v = v).
  { unfold trim, trim_end. rewrite (drop_while_id ows v) by (by apply Hs). rewrite (drop_while_id ows (reverse v)) by (by apply Hs, Forall_reverse). apply reverse_involutive. }
  unfold codings. rewrite split_on_none by done. cbn [fmap list_fmap]. by rewrite Ht, filter_cons_True.
Qed.

Lemma te_fold_spec buf s v chunked :
  take (length v) (drop s buf) = v -> (s + length v <= length buf)%nat ->
  te_fold buf (mkSlice s (Z.of_nat (length v))) chunked
  = Some (match te_value chunked v with None => -1 | Some true => 1 | Some false => 0 end).
Proof.
  intros Hv Hn. unfold te_fold, te_plain, te_value. cbn [slen start].
  assert (Hloop : te_loop (Z.to_nat (Z.of_nat (length v))) buf (s + Z.to_nat (Z.of_nat (length v))) s chunked 0
    = Some (match (if bool_decide (codings v = []) then None else chunked_last chunked (codings v)) with None => -1 | Some true => 1 | Some false => 0 end)).
  { rewrite Nat2Z.id, (te_loop_spec _ _ _ _ v) by (try lia; by replace (s + length v - s)%nat with (length v) by lia).
    unfold te_result. destruct (bool_decide (codings v = [])) eqn:E; [by apply bool_decide_eq_true in E as ->|].
    destruct (chunked_last chunked (codings v)) as [[]|]; done. }
  destruct (negb chunked && (Z.of_nat (length v) =? 7)) eqn:E; [|exact Hloop].
  apply andb_prop in E as [Hc El]. assert (El' : length v = 7%nat) by lia. apply negb_true_iff in Hc as ->.
  rewrite El' in Hv. unfold view. rewrite decide_True by lia. cbn [fmap option_fmap option_map mbind option_bind]. rewrite Hv.
  destruct (ascii_ci_eq v chunked_name) eqn:Ec; [|exact Hloop].
  rewrite ascii_ci_eq_spec in Ec by done. rewrite (codings_chunked v Ec), (bool_decide_eq_false_2 ([v] = [])) by done.
  cbn [chunked_last]. unfold is_chunked. by rewrite Ec.
Qed.
