(* ===== verification/HttpChunk.v ===== *)
(** Chunked bodies: [chunk_ext_ok], [trailer_line_ok], [frame_trailer_section] and
    [frame_chunked_total] of http1_1/request_parser/request_parser.v, and the grammar of
    RFC 9112, section 7.1. *)
From S2P Require Import Prelude WireBytes HttpScan HttpField.
Local Open Scope Z_scope.

(** ** The code *)

Definition hex_digit (c : byte) : Z :=
  let v := byte_val c in
  if (48 <=? v) && (v <=? 57) then v - 48
  else if (97 <=? v) && (v <=? 102) then v - 97 + 10
  else if (65 <=? v) && (v <=? 70) then v - 65 + 10
  else -1.

Definition chunk_tchar_lo : Z := 0x03ff6cfa00000000.
Definition chunk_tchar_hi : Z := 0x57ffffffc7fffffe.

Definition chunk_tchar (b : byte) : bool :=
  let c := byte_val b in
  if c <? 64 then negb (Z.land (Z.shiftr chunk_tchar_lo c) 1 =? 0)
  else (c <? 128) && negb (Z.land (Z.shiftr chunk_tchar_hi (c - 64)) 1 =? 0).

Definition chunk_skip_bws (buf : list byte) (i e : nat) : option nat := scan_while ows (e - i) buf i.

(** A control byte other than HTAB. *)
Definition ctl (b : byte) : bool := ((byte_val b <? 0x20) && negb (beq b HTAB)) || (byte_val b =? 0x7f).

(** [for { ... }] over a quoted string: the index behind its closing quote, or [return false]. *)
Fixpoint quoted_loop (fuel : nat) (buf : list byte) (i e : nat) : option (option nat) :=
  if (e <=? i)%nat then Some None
  else
    match fuel with
    | O => None
    | S f =>
        c ← buf !! i;
        if beq c DQUOTE then Some (Some (S i))
        else if beq c BACKSLASH then
          if (e <=? S i)%nat then Some None
          else c ← buf !! S i; if ctl c then Some None else quoted_loop f buf (S (S i)) e
        else if ctl c then Some None else quoted_loop f buf (S i) e
    end.

(** Whether [buf[i]] is [c], when [i] is before the end. *)
Definition at_byte (buf : list byte) (i e : nat) (c : byte) : option bool :=
  if (e <=? i)%nat then Some false else (fun b => beq b c) <$> buf !! i.

(** An extension's value: the index behind it, or [return false]. *)
Definition ext_value_end (buf : list byte) (i e : nat) : option (option nat) :=
  quoted ← at_byte buf i e DQUOTE;
  if (quoted : bool) then quoted_loop (e - S i) buf (S i) e
  else
    j ← scan_while chunk_tchar (e - i) buf i;
    Some (if (j =? i)%nat then None else Some j).

(** One round of the loop of [chunk_ext_ok]: where it goes on, or [return false]. *)
Definition ext_step (buf : list byte) (i e : nat) : option (option nat) :=
  i ← chunk_skip_bws buf i e;
  semi ← at_byte buf i e SEMI;
  if negb semi then Some None
  else
    name ← chunk_skip_bws buf (S i) e;
    i ← scan_while chunk_tchar (e - name) buf name;
    if (i =? name)%nat then Some None
    else
      eq ← chunk_skip_bws buf i e;
      has_value ← at_byte buf eq e EQUALS;
      if negb has_value then Some (Some i)
      else i ← chunk_skip_bws buf (S eq) e; ext_value_end buf i e.

(** [for i < end]. *)
Fixpoint ext_loop (fuel : nat) (buf : list byte) (i e : nat) : option bool :=
  if (e <=? i)%nat then Some true
  else
    match fuel with
    | O => None
    | S f => r ← ext_step buf i e; match r with None => Some false | Some i => ext_loop f buf i e end
    end.

Definition chunk_ext_ok (buf : list byte) (start e : nat) : option bool := ext_loop (e - start) buf start e.

(** [for i < end] over a trailer's value, [n] rounds left. *)
Fixpoint value_loop (n : nat) (buf : list byte) (i : nat) : option bool :=
  match n with
  | O => Some true
  | S n' => c ← buf !! i; if ctl c then Some false else value_loop n' buf (S i)
  end.

Definition trailer_line_ok (buf : list byte) (start e : nat) : option bool :=
  i ← scan_while chunk_tchar (e - start) buf start;
  if (i =? start)%nat || (e <=? i)%nat then Some false
  else c ← buf !! i; if negb (beq c COLON) then Some false else value_loop (e - S i) buf (S i).

(** The test for the empty line that ends a section, at the start of a line:
    it is not one, its LF has not arrived, or it is one. *)
Inductive blank := Text | Partial | Blank.

Definition blank_line (buf : list byte) (pos : nat) : option blank :=
  c ← buf !! pos;
  if beq c CR then
    if (length buf <=? S pos)%nat then Some Partial
    else d ← buf !! S pos; Some (if beq d LF then Blank else Text)
  else Some Text.

(** [find_byte_idx(&buf[pos], buf.len - pos, lf)]; -1 is [None]. *)
Definition find_lf (buf : list byte) (pos : nat) : option (option nat) :=
  t ← view buf pos (length buf - pos); Some (find_byte LF t).

(** A length or -1, or the code of an error. *)
Abbreviation framed := (Z + Z)%type.

(** [for { ... }] of [frame_trailer_section]. *)
Fixpoint trailer_loop (fuel : nat) (buf : list byte) (start : nat) (max_header : Z) (pos : nat) : option framed :=
  match fuel with
  | O => None
  | S f =>
      if (0 <? max_header) && (max_header <? Z.of_nat pos - Z.of_nat start) then Some (inr 431)
      else if (length buf <=? pos)%nat then Some (inl (-1))
      else
        b ← blank_line buf pos;
        match b with
        | Partial => Some (inl (-1))
        | Blank => Some (inl (Z.of_nat pos + 2))
        | Text =>
            lf ← find_lf buf pos;
            match lf with
            | None =>
                if (0 <? max_header) && (max_header <? Z.of_nat (length buf) - Z.of_nat start) then Some (inr 431) else Some (inl (-1))
            | Some O => Some (inr 400)
            | Some (S k) =>
                let line_end := (pos + k)%nat in
                c ← buf !! line_end;
                if negb (beq c CR) then Some (inr 400)
                else
                  ok ← trailer_line_ok buf pos line_end;
                  if negb ok then Some (inr 400) else trailer_loop f buf start max_header (line_end + 2)
            end
        end
  end.

Definition frame_trailer_section (buf : list byte) (start : nat) (max_header : Z) : option framed :=
  trailer_loop (S (length buf)) buf start max_header start.

(** [for j < buf.len] over the digits of a size, [n] rounds before the end. *)
Fixpoint hex_loop (n : nat) (buf : list byte) (j : nat) (size64 : Z) : option ((Z * nat) + Z) :=
  match n with
  | O => Some (inl (size64, j))
  | S n' =>
      c ← buf !! j;
      let d := hex_digit c in
      if d <? 0 then Some (inl (size64, j))
      else
        let size64 := size64 * 16 + d in
        if max_declared <? size64 then Some (inr 400) else hex_loop n' buf (S j) size64
  end.

(** The index of the size line's CR, from the byte behind the digits. *)
Definition size_line_end (buf : list byte) (j : nat) : option (nat + framed) :=
  c ← buf !! j;
  if beq c CR then Some (inl j)
  else if negb (beq c SEMI || ows c) then Some (inr (inr 400))
  else
    lf ← find_lf buf j;
    match lf with
    | None => Some (inr (inl (-1)))
    | Some lf =>
        let line_end := (j + lf - 1)%nat in
        c ← buf !! line_end;
        if negb (beq c CR) then Some (inr (inr 400))
        else
          ok ← chunk_ext_ok buf j line_end;
          Some (if (ok : bool) then inl line_end else inr (inr 400))
    end.

(** A size line: the size and the index behind its LF, or what is returned. *)
Definition size_line (buf : list byte) (pos : nat) : option ((Z * nat) + framed) :=
  r ← hex_loop (length buf - pos) buf pos 0;
  match r with
  | inr e => Some (inr (inr e))
  | inl (size64, j) =>
      if (length buf <=? j)%nat then Some (inr (inl (-1)))
      else if (j =? pos)%nat then Some (inr (inr 400))
      else
        e ← size_line_end buf j;
        match e with
        | inr r => Some (inr r)
        | inl line_end =>
            if (length buf <=? line_end + 1)%nat then Some (inr (inl (-1)))
            else
              c ← buf !! (line_end + 1)%nat;
              if negb (beq c LF) then Some (inr (inr 400)) else Some (inl (size64, (line_end + 2)%nat))
        end
  end.

(** [buf[i]] at an [int]. *)
Definition at_int (buf : list byte) (i : Z) : option byte := if i <? 0 then None else buf !! Z.to_nat i.

(** [for { ... }] of [frame_chunked_total]. *)
Fixpoint chunk_loop (fuel : nat) (buf : list byte) (max_header : Z) (pos : nat) : option framed :=
  match fuel with
  | O => None
  | S f =>
      r ← size_line buf pos;
      match r with
      | inr res => Some res
      | inl (size64, data_start) =>
          if size64 =? 0 then frame_trailer_section buf data_start max_header
          else
            let crlf_at := i32 (Z.of_nat data_start + size64) in
            if Z.of_nat (length buf) <=? i32 (crlf_at + 1) then Some (inl (-1))
            else
              c ← at_int buf crlf_at;
              d ← at_int buf (i32 (crlf_at + 1));
              if negb (beq c CR) || negb (beq d LF) then Some (inr 400)
              else chunk_loop f buf max_header (Z.to_nat (i32 (crlf_at + 2)))
      end
  end.

Definition frame_chunked_total (buf : list byte) (body_start : nat) (max_header max_body : Z) : option framed :=
  if (0 <? max_body) && (max_body <? Z.of_nat (length buf) - Z.of_nat body_start) then Some (inr 413)
  else chunk_loop (S (length buf)) buf max_header body_start.

(** ** The grammar *)

Definition tchar (b : byte) : bool :=
  digit b || ((97 <=? byte_val (lower b)) && (byte_val (lower b) <=? 122)) || bool_decide (b ∈ bytes_of "!#$%&'*+-.^_`|~").

Definition token (l : list byte) : Prop := l <> [] /\ Forall (fun b => tchar b = true) l.

Definition bws (l : list byte) : Prop := Forall (fun b => ows b = true) l.

(** The inside of a quoted string: qdtext and quoted pairs. *)
Inductive qtext : list byte -> Prop :=
  | qtext_nil : qtext []
  | qtext_char c q : c <> DQUOTE -> c <> BACKSLASH -> ctl c = false -> qtext q -> qtext (c :: q)
  | qtext_pair c q : ctl c = false -> qtext q -> qtext (BACKSLASH :: c :: q).

Inductive ext_value : list byte -> Prop :=
  | value_token v : token v -> ext_value v
  | value_quoted q : qtext q -> ext_value (DQUOTE :: q ++ [DQUOTE]).

(** [*( BWS ";" BWS chunk-ext-name [ BWS "=" BWS chunk-ext-val ] )]. *)
Inductive chunk_ext : list byte -> Prop :=
  | ext_nil : chunk_ext []
  | ext_name b1 b2 name rest :
      bws b1 -> bws b2 -> token name -> chunk_ext rest -> chunk_ext (b1 ++ SEMI :: b2 ++ name ++ rest)
  | ext_named b1 b2 name b3 b4 v rest :
      bws b1 -> bws b2 -> token name -> bws b3 -> bws b4 -> ext_value v -> chunk_ext rest ->
      chunk_ext (b1 ++ SEMI :: b2 ++ name ++ b3 ++ EQUALS :: b4 ++ v ++ rest).

(** A field line with a token for a name and no control byte in its value. *)
Definition trailer_field (l : list byte) : Prop :=
  exists name v, l = name ++ COLON :: v /\ token name /\ Forall (fun b => ctl b = false) v.

(** Lines, each with its CRLF. *)
Definition lines (ls : list (list byte)) : list byte := concat ((fun l => l ++ CRLF) <$> ls).

Definition hexits (ds : list byte) : Prop := ds <> [] /\ Forall (fun b => 0 <= hex_digit b) ds.

Definition hexval (ds : list byte) : Z := foldl (fun n b => n * 16 + hex_digit b) 0 ds.

Inductive chunked_body (max_header : Z) : list byte -> Prop :=
  | last_chunk ds ext trailers :
      hexits ds -> hexval ds = 0 -> chunk_ext ext -> Forall trailer_field trailers ->
      (0 < max_header -> Z.of_nat (length (lines trailers)) <= max_header) ->
      chunked_body max_header (ds ++ ext ++ CRLF ++ lines trailers ++ CRLF)
  | next_chunk ds ext data body :
      hexits ds -> hexval ds = Z.of_nat (length data) -> 0 < Z.of_nat (length data) <= max_declared -> chunk_ext ext ->
      chunked_body max_header body -> chunked_body max_header (ds ++ ext ++ CRLF ++ data ++ CRLF ++ body).

(** A trailer section that has not ended: fields so far, within the limit, and a part of
    the next line. *)
Definition trailers_open (max_header : Z) (s : list byte) : Prop :=
  exists ts k, s = lines ts ++ k /\ Forall trailer_field ts /\ (LF ∉ k) /\
    (0 < max_header -> Z.of_nat (length (lines ts)) <= max_header /\ Z.of_nat (length s) <= max_header + 1).

(** A size line that has not ended: digits of a legal size, and behind them a part of the
    line's end or of an extension. *)
Definition size_open (s : list byte) : Prop :=
  exists ds k, s = ds ++ k /\ Forall (fun b => 0 <= hex_digit b) ds /\ hexval ds <= max_declared /\ (LF ∉ k) /\
    (k = [] \/ ds <> [] /\ (k = [CR] \/ exists c k', k = c :: k' /\ (c = SEMI \/ ows c = true))).

(** A chunked body that has not ended, each part of it that is complete being legal. *)
Inductive chunked_open (max_header : Z) : list byte -> Prop :=
  | open_size s : size_open s -> chunked_open max_header s
  | open_trailers ds ext s : hexits ds -> hexval ds = 0 -> chunk_ext ext -> trailers_open max_header s -> chunked_open max_header (ds ++ ext ++ CRLF ++ s)
  | open_data ds ext s :
      hexits ds -> 0 < hexval ds <= max_declared -> chunk_ext ext -> Z.of_nat (length s) < hexval ds + 2 -> chunked_open max_header (ds ++ ext ++ CRLF ++ s)
  | open_next ds ext data s :
      hexits ds -> hexval ds = Z.of_nat (length data) -> 0 < Z.of_nat (length data) <= max_declared -> chunk_ext ext ->
      chunked_open max_header s -> chunked_open max_header (ds ++ ext ++ CRLF ++ data ++ CRLF ++ s).

(** ** Bytes *)

Lemma chunk_tchar_spec b : chunk_tchar b = tchar b.
Proof. apply eqb_prop. revert b. apply byte_cases. vm_compute. reflexivity. Qed.

(** A token byte is none of the separators. *)
Lemma tchar_apart b : tchar b = true -> ows b = false /\ b <> SEMI /\ b <> EQUALS /\ b <> DQUOTE /\ b <> COLON /\ b <> CR /\ b <> LF.
Proof.
  intros Hb. assert (H : implb (tchar b) (negb (ows b || beq b SEMI || beq b EQUALS || beq b DQUOTE || beq b COLON || beq b CR || beq b LF)) = true)
    by (revert b Hb; intros b _; revert b; apply byte_cases; vm_compute; reflexivity).
  rewrite Hb in H. cbn [implb] in H. apply negb_true_iff in H. rewrite !orb_false_iff in H.
  destruct H as [[[[[[? H1] H2] H3] H4] H5] H6]. repeat split; [done|by apply beq_false..].
Qed.

Lemma ctl_apart b : ctl b = false -> b <> CR /\ b <> LF.
Proof. intros Hb. split; intros ->; by vm_compute in Hb. Qed.

Lemma stops_ows_tchar l rest : token l -> stops ows (l ++ rest).
Proof. intros [Hn Hl]. destruct l as [|b l]; [done|]. inversion_clear Hl as [|? ? Hb]. cbn. by apply tchar_apart in Hb as [? _]. Qed.

(** What follows an extension's name or value cannot be taken for a part of it. *)
Lemma ext_stops rest : chunk_ext rest -> stops tchar rest /\ stops (fun b => beq b EQUALS) (drop_while ows rest).
Proof.
  assert (H : forall b1 t, bws b1 -> stops tchar (b1 ++ SEMI :: t) /\ stops (fun b => beq b EQUALS) (drop_while ows (b1 ++ SEMI :: t))).
  { intros b1 t Hb. rewrite drop_while_app by done. split; [|done]. destruct b1 as [|b b1]; [done|]. inversion_clear Hb as [|? ? Ho]. cbn.
    destruct (tchar b) eqn:E; [|done]. apply tchar_apart in E as [E _]. congruence. }
  destruct 1; [done | by apply H | by apply H].
Qed.

(** ** Extensions, read from the left *)

(** What must follow an equals sign. *)
Definition value_then (s : list byte) : Prop :=
  match s with
  | [] => False
  | c :: s' =>
      if beq c DQUOTE then exists q rest, s' = q ++ DQUOTE :: rest /\ qtext q /\ chunk_ext rest
      else take_while tchar s <> [] /\ chunk_ext (drop_while tchar s)
  end.

Definition after_name (s : list byte) : Prop :=
  match drop_while ows s with
  | c :: s' => if beq c EQUALS then value_then (drop_while ows s') else chunk_ext s
  | [] => chunk_ext s
  end.

Definition after_semi (s : list byte) : Prop :=
  let s := drop_while ows s in take_while tchar s <> [] /\ after_name (drop_while tchar s).

Lemma value_then_spec v rest : ext_value v -> chunk_ext rest -> value_then (v ++ rest).
Proof.
  intros Hv Hr. destruct (ext_stops rest Hr) as [Hs _]. destruct Hv as [v Ht|q Hq].
  - destruct Ht as [Hn Hv]. destruct v as [|c v]; [done|]. cbn [app value_then].
    pose proof Hv as Hv'. inversion_clear Hv' as [|? ? Hc]. apply tchar_apart in Hc as (_ & _ & _ & Hq & _).
    rewrite (proj2 (beq_false c DQUOTE)) by done. change (c :: v ++ rest) with ((c :: v) ++ rest).
    destruct (take_while_unique tchar (c :: v) rest Hv Hs) as [-> ->]. done.
  - cbn [app value_then]. rewrite (proj2 (beq_true DQUOTE DQUOTE)) by done. exists q, rest. by rewrite <- app_assoc.
Qed.

Lemma value_then_inv s : value_then s -> exists v rest, s = v ++ rest /\ ext_value v /\ chunk_ext rest.
Proof.
  destruct s as [|c s]; [done|]. unfold value_then. destruct (beq c DQUOTE) eqn:E.
  - apply beq_true in E as ->. intros (q & rest & -> & Hq & Hr). exists (DQUOTE :: q ++ [DQUOTE]), rest.
    split; [cbn; by rewrite <- app_assoc|]. split; [by constructor | done].
  - intros [Hn Hr]. exists (take_while tchar (c :: s)), (drop_while tchar (c :: s)). split; [by rewrite take_drop_while|].
    split; [|done]. constructor. split; [done | apply take_while_all].
Qed.

(** The grammar is deterministic: one way to read an extension. *)
Lemma chunk_ext_step s : s <> [] -> (chunk_ext s <-> exists t, drop_while ows s = SEMI :: t /\ after_semi t).
Proof.
  intros Hs. split.
  - intros H. unfold after_semi, after_name. destruct H as [|b1 b2 name rest H1 H2 Hn Hr|b1 b2 name b3 b4 v rest H1 H2 Hn H3 H4 Hv Hr]; [done| |].
    + eexists. split; [by rewrite drop_while_app by done|]. rewrite drop_while_app, drop_while_id by (done || by apply stops_ows_tchar).
      destruct (ext_stops rest Hr) as [Ht He]. destruct Hn as [Hn Hall]. destruct (take_while_unique tchar name rest Hall Ht) as [-> ->].
      split; [done|]. destruct (drop_while ows rest) as [|c t]; [done|]. cbn in He. by rewrite He.
    + eexists. split; [by rewrite drop_while_app by done|]. rewrite drop_while_app, drop_while_id by (done || by apply stops_ows_tchar).
      assert (Ht : stops tchar (b3 ++ EQUALS :: b4 ++ v ++ rest)).
      { destruct b3 as [|b b3]; [done|]. inversion_clear H3 as [|? ? Ho]. cbn. destruct (tchar b) eqn:E; [|done]. apply tchar_apart in E as [E _]. congruence. }
      destruct Hn as [Hn Hall]. destruct (take_while_unique tchar name _ Hall Ht) as [-> ->]. split; [done|].
      rewrite drop_while_app by done. cbn [drop_while]. change (ows EQUALS) with false. cbn match. rewrite (proj2 (beq_true EQUALS EQUALS)) by done.
      rewrite drop_while_app by done. rewrite drop_while_id; [by apply value_then_spec|].
      destruct Hv as [v Hv|q Hq]; [by apply stops_ows_tchar | done].
  - intros (t & Ht & Hn & Ha). pose proof (take_drop_while ows s) as Es. rewrite Ht in Es. rewrite <- Es.
    pose proof (take_drop_while ows t) as Et. pose proof (take_drop_while tchar (drop_while ows t)) as Ename.
    set (name := take_while tchar (drop_while ows t)) in *. set (s3 := drop_while tchar (drop_while ows t)) in *.
    assert (Htok : token name) by (split; [done | apply take_while_all]). rewrite <- Ename in Et. rewrite <- Et.
    unfold after_name in Ha. destruct (drop_while ows s3) as [|c s4] eqn:E3; [by apply ext_name; [apply take_while_all..| |]|].
    destruct (beq c EQUALS) eqn:Ec; [|by apply ext_name; [apply take_while_all..| |]]. apply beq_true in Ec as ->.
    apply value_then_inv in Ha as (v & rest & Ev & Hv & Hr).
    pose proof (take_drop_while ows s3) as E5. rewrite E3 in E5. pose proof (take_drop_while ows s4) as E6. rewrite Ev in E6.
    rewrite <- E5, <- E6. apply ext_named; [apply take_while_all | apply take_while_all | done | apply take_while_all | apply take_while_all | done | done].
Qed.

(** Two lists that begin differently. *)
Ltac heads E := unfold CRLF in E; cbn [app] in E; congruence.

Lemma quoted_loop_spec fuel buf i e s :
  text buf i e s -> (length s <= fuel)%nat ->
  exists r, quoted_loop fuel buf i e = Some r /\
    (forall q rest, s = q ++ DQUOTE :: rest -> qtext q -> r = Some (i + length q + 1)%nat) /\
    (forall j, r = Some j -> exists q rest, s = q ++ DQUOTE :: rest /\ qtext q /\ j = (i + length q + 1)%nat).
Proof.
  revert i s. induction fuel as [fuel IH] using lt_wf_ind. intros i s Ht Hf.
  destruct s as [|c s].
  { exists None. split; [destruct fuel; cbn; by rewrite (text_end _ _ _ _ Ht)|]. split; [by intros [] ? ?|done]. }
  destruct fuel as [|fuel]; [cbn in Hf; lia|]. cbn [quoted_loop]. rewrite (text_end _ _ _ _ Ht). cbn [length] in Hf.
  destruct (text_cons _ _ _ _ _ Ht) as (-> & Ht' & _). rewrite bool_decide_eq_false_2 by done. cbn [mbind option_bind].
  destruct (beq c DQUOTE) eqn:Eq.
  { apply beq_true in Eq as ->. eexists. split; [done|]. split.
    - intros q rest E Hq. destruct Hq as [|c' q Hd _ _ _|c' q _ _];
        [cbn; f_equal; lia | injection E as E _; by destruct Hd | injection E as E _; by vm_compute in E].
    - intros j [= <-]. exists [], s. split; [done|]. split; [constructor | cbn; lia]. }
  apply beq_false in Eq. destruct (beq c BACKSLASH) eqn:Eb.
  - apply beq_true in Eb as ->. rewrite (text_end _ _ _ _ Ht'). destruct s as [|d s].
    { rewrite bool_decide_eq_true_2 by done. exists None. split; [done|]. split; [|done]. intros q rest E Hq.
      destruct Hq as [|? ? ? ? _ _|d q _ _]; [heads E | heads E | by destruct q]. }
    rewrite bool_decide_eq_false_2 by done. destruct (text_cons _ _ _ _ _ Ht') as (-> & Ht'' & _). cbn [mbind option_bind].
    destruct (ctl d) eqn:Ed.
    { exists None. split; [done|]. split; [|done]. intros q rest E Hq.
      destruct Hq; heads E. }
    cbn [length] in Hf. destruct (IH fuel ltac:(lia) (S (S i)) s Ht'' ltac:(lia)) as (r & -> & H1 & H2). exists r. split; [done|]. split.
    + intros q rest E Hq. destruct Hq as [|? ? ? ? _ _|d' q ? Hq]; [heads E | heads E |].
      assert (d = d' /\ s = q ++ DQUOTE :: rest) as [-> ->] by (split; heads E). rewrite (H1 q rest eq_refl Hq). cbn [length]. f_equal. lia.
    + intros j Hj. destruct (H2 j Hj) as (q & rest & -> & Hq & ->). exists (BACKSLASH :: d :: q), rest.
      split; [done|]. split; [by apply qtext_pair | cbn [length]; lia].
  - apply beq_false in Eb. destruct (ctl c) eqn:Ec.
    { exists None. split; [done|]. split; [|done]. intros q rest E Hq.
      destruct Hq; heads E. }
    destruct (IH fuel ltac:(lia) (S i) s Ht' ltac:(lia)) as (r & -> & H1 & H2). exists r. split; [done|]. split.
    + intros q rest E Hq. destruct Hq as [|c' q _ _ _ Hq|? q ? _]; [heads E | | heads E].
      assert (c = c' /\ s = q ++ DQUOTE :: rest) as [-> ->] by (split; heads E). rewrite (H1 q rest eq_refl Hq). cbn [length]. f_equal. lia.
    + intros j Hj. destruct (H2 j Hj) as (q & rest & -> & Hq & ->). exists (c :: q), rest.
      split; [done|]. split; [by apply qtext_char | cbn [length]; lia].
Qed.

Lemma at_byte_spec buf i e s c : text buf i e s -> at_byte buf i e c = Some (match s with b :: _ => beq b c | [] => false end).
Proof.
  intros Ht. unfold at_byte. rewrite (text_end _ _ _ _ Ht). destruct s as [|b s]; [done|].
  destruct (text_cons _ _ _ _ _ Ht) as (-> & _ & _). done.
Qed.

Lemma take_while_length_0 {A} (p : A -> bool) l i : (i + length (take_while p l) =? i)%nat = bool_decide (take_while p l = []).
Proof.
  destruct (take_while p l) as [|x l'].
  - rewrite bool_decide_eq_true_2 by done. apply Nat.eqb_eq. cbn. lia.
  - rewrite bool_decide_eq_false_2 by done. apply Nat.eqb_neq. cbn. lia.
Qed.

Lemma drop_while_le {A} (p : A -> bool) l : (length (drop_while p l) <= length l)%nat.
Proof. rewrite <- (take_drop_while p l) at 2. rewrite length_app. lia. Qed.

Lemma take_while_ext {A} (p q : A -> bool) l : (forall b, p b = q b) -> take_while p l = take_while q l /\ drop_while p l = drop_while q l.
Proof. intros H. induction l as [|b l [IH1 IH2]]; [done|]. cbn. rewrite H, IH1, IH2. done. Qed.

Lemma text_tchars buf i e s :
  text buf i e s -> scan_while chunk_tchar (e - i) buf i = Some (i + length (take_while tchar s))%nat /\
    text buf (i + length (take_while tchar s)) e (drop_while tchar s).
Proof. intros H. destruct (take_while_ext _ _ s chunk_tchar_spec) as [<- <-]. by apply text_scan. Qed.

(** What a step of the reader leaves of a text that must satisfy [P]. *)
Definition leaves (buf : list byte) (e : nat) (s : list byte) (P : Prop) (r : option nat) : Prop :=
  match r with
  | None => ~ P
  | Some i' => exists s', text buf i' e s' /\ (length s' < length s)%nat /\ (P <-> chunk_ext s')
  end.

Lemma ext_value_end_spec buf i e s :
  text buf i e s -> exists r, ext_value_end buf i e = Some r /\ leaves buf e s (value_then s) r.
Proof.
  intros Ht. unfold ext_value_end. rewrite (at_byte_spec _ _ _ _ DQUOTE Ht). cbn [mbind option_bind].
  destruct s as [|c s]; [eexists; split; [by rewrite (proj1 (proj1 (text_nil _ _ _) Ht)), Nat.sub_diag; cbn; rewrite Nat.eqb_refl | by intros []]|].
  unfold value_then. destruct (beq c DQUOTE) eqn:Ec.
  - destruct (text_cons _ _ _ _ _ Ht) as (_ & Ht' & _). pose proof (text_length _ _ _ _ Ht') as Hl.
    destruct (quoted_loop_spec (e - S i) _ _ _ _ Ht' ltac:(lia)) as (r & -> & H1 & H2). exists r. split; [done|].
    destruct r as [j|]; [|by intros (q & rest & E & Hq & _); specialize (H1 q rest E Hq)].
    destruct (H2 j eq_refl) as (q & rest & -> & Hq & ->). exists rest. split; [|split].
    + replace (i + 1)%nat with (S i) by lia. replace (S i + length q + 1)%nat with (S i + length (q ++ [DQUOTE]))%nat by (rewrite length_app; cbn; lia).
      apply text_skip. by rewrite <- app_assoc.
    + cbn [length]. rewrite length_app. cbn [length]. lia.
    + split; [|eauto]. intros (q' & rest' & E & Hq' & Hr). specialize (H1 q' rest' E Hq'). injection H1 as H1.
      apply app_inj_1 in E as [_ E]; [by injection E as -> | lia].
  - destruct (text_tchars _ _ _ _ Ht) as [-> Ht']. cbn [mbind option_bind]. rewrite take_while_length_0. eexists. split; [done|].
    pose proof (take_drop_while tchar (c :: s)) as Es.
    destruct (bool_decide_reflect (take_while tchar (c :: s) = [])) as [E|Hn]; [by intros [? _]|].
    exists (drop_while tchar (c :: s)). split; [done|]. split; [|tauto]. rewrite <- Es at 2. rewrite length_app. destruct (take_while tchar (c :: s)); [done | cbn; lia].
Qed.

Lemma ext_step_spec buf i e s :
  text buf i e s -> s <> [] -> exists r, ext_step buf i e = Some r /\ leaves buf e s (chunk_ext s) r.
Proof.
  intros Ht Hne. unfold ext_step, chunk_skip_bws. pose proof (chunk_ext_step s Hne) as Hstep.
  destruct (text_scan ows _ _ _ _ Ht) as [-> H1]. cbn [mbind option_bind]. rewrite (at_byte_spec _ _ _ _ SEMI H1). cbn [mbind option_bind].
  pose proof (drop_while_le ows s) as Hl1. set (i1 := (i + length (take_while ows s))%nat) in *.
  destruct (drop_while ows s) as [|c t]; [exists None; split; [done|]; cbn; rewrite Hstep; by intros (t & ? & _)|].
  destruct (beq c SEMI) eqn:Ec; cbn [negb]; [|apply beq_false in Ec; exists None; split; [done|]; cbn; rewrite Hstep; intros (t' & E & _); congruence].
  apply beq_true in Ec as ->. destruct (text_cons _ _ _ _ _ H1) as (_ & H2 & _). cbn [length] in Hl1.
  assert (Hsemi : chunk_ext s <-> after_semi t) by (rewrite Hstep; split; [intros (t' & [= <-] & ?); done | eauto]).
  clear Hstep. unfold after_semi in Hsemi. destruct (text_scan ows _ _ _ _ H2) as [-> H3]. cbn [mbind option_bind].
  pose proof (drop_while_le ows t) as Hl2. set (t2 := drop_while ows t) in *. set (i2 := (S i1 + length (take_while ows t))%nat) in *.
  destruct (text_tchars _ _ _ _ H3) as [-> H4]. cbn [mbind option_bind]. rewrite take_while_length_0.
  destruct (bool_decide_reflect (take_while tchar t2 = [])) as [E|Hname]; [exists None; split; [done|]; cbn; rewrite Hsemi; by intros [? _]|].
  assert (Hn : chunk_ext s <-> after_name (drop_while tchar t2)) by (rewrite Hsemi; tauto). clear Hsemi.
  pose proof (drop_while_le tchar t2) as Hl3. set (t3 := drop_while tchar t2) in *. set (i3 := (i2 + length (take_while tchar t2))%nat) in *.
  unfold after_name in Hn. destruct (text_scan ows _ _ _ _ H4) as [-> H5]. cbn [mbind option_bind].
  rewrite (at_byte_spec _ _ _ _ EQUALS H5). cbn [mbind option_bind]. pose proof (drop_while_le ows t3) as Hl4.
  destruct (drop_while ows t3) as [|c t4]; [exists (Some i3); split; [done|]; exists t3; split; [done|]; split; [lia | done]|].
  destruct (beq c EQUALS); cbn [negb]; [|exists (Some i3); split; [done|]; exists t3; split; [done|]; split; [lia | done]].
  destruct (text_cons _ _ _ _ _ H5) as (_ & H6 & _). cbn [length] in Hl4. destruct (text_scan ows _ _ _ _ H6) as [-> H7]. cbn [mbind option_bind].
  pose proof (drop_while_le ows t4) as Hl5. destruct (ext_value_end_spec _ _ _ _ H7) as (r & -> & Hr). exists r. split; [done|].
  destruct r as [j|]; cbn [leaves] in *; [|by rewrite Hn]. destruct Hr as (s' & Hs' & Hlt & Hiff). exists s'. split; [done|]. split; [lia|]. by rewrite Hn.
Qed.

(** [chunk_ext_ok] decides the grammar. *)
Lemma ext_loop_spec fuel buf i e s :
  text buf i e s -> (length s <= fuel)%nat -> exists b, ext_loop fuel buf i e = Some b /\ (b = true <-> chunk_ext s).
Proof.
  revert i s. induction fuel as [|fuel IH]; intros i s Ht Hf; cbn [ext_loop]; rewrite (text_end _ _ _ _ Ht);
    (destruct (bool_decide_reflect (s = [])) as [->|Hne]; [exists true; split; [done|]; split; [constructor | done]|]);
    [by destruct s; [|cbn in Hf; lia]|].
  destruct (ext_step_spec _ _ _ _ Ht Hne) as (r & -> & Hr). cbn [mbind option_bind]. destruct r as [j|]; [|by exists false].
  destruct Hr as (s' & Hs' & Hlt & Hiff). destruct (IH j s' Hs' ltac:(lia)) as (b & -> & Hb). exists b. split; [done|]. by rewrite Hiff.
Qed.

Lemma chunk_ext_ok_spec buf i e s : text buf i e s -> exists b, chunk_ext_ok buf i e = Some b /\ (b = true <-> chunk_ext s).
Proof. intros Ht. pose proof (text_length _ _ _ _ Ht). apply ext_loop_spec; [done | lia]. Qed.

(** ** Trailer lines *)

Lemma value_loop_spec n buf i e s : text buf i e s -> n = (e - i)%nat ->
  exists b, value_loop n buf i = Some b /\ (b = true <-> Forall (fun c => ctl c = false) s).
Proof.
  revert i s. induction n as [|n IH]; intros i s Ht Hn; pose proof (text_length _ _ _ _ Ht) as Hl.
  - destruct s; [|cbn in Hl; lia]. exists true. split; [done|]. split; [constructor | done].
  - destruct s as [|c s]; [cbn in Hl; lia|]. cbn [value_loop]. destruct (text_cons _ _ _ _ _ Ht) as (-> & Ht' & _). cbn [mbind option_bind].
    destruct (ctl c) eqn:Ec; [exists false; split; [done|]; split; [done|]; inversion_clear 1; congruence|].
    destruct (IH (S i) s Ht' ltac:(lia)) as (b & -> & Hb). exists b. split; [done|]. rewrite Hb, Forall_cons. tauto.
Qed.

Lemma trailer_line_ok_spec buf i e s : text buf i e s -> exists b, trailer_line_ok buf i e = Some b /\ (b = true <-> trailer_field s).
Proof.
  intros Ht. unfold trailer_line_ok. destruct (text_tchars _ _ _ _ Ht) as [-> H1]. cbn [mbind option_bind].
  rewrite take_while_length_0, (text_end _ _ _ _ H1).
  assert (Hinv : trailer_field s -> take_while tchar s <> [] /\ exists v, drop_while tchar s = COLON :: v /\ Forall (fun c => ctl c = false) v).
  { intros (name & v & -> & [Hn Hall] & Hv). assert (Hst : stops tchar (COLON :: v)) by done.
    destruct (take_while_unique tchar name _ Hall Hst) as [-> ->]. eauto. }
  destruct (bool_decide_reflect (take_while tchar s = [])) as [E|Hn]; [exists false; split; [done|]; split; [done|]; by intros [? _]%Hinv|].
  destruct (drop_while tchar s) as [|c v] eqn:Ed; [exists false; split; [done|]; split; [done|]; by intros (_ & ? & ? & _)%Hinv|].
  rewrite bool_decide_eq_false_2 by done. cbn [orb]. destruct (text_cons _ _ _ _ _ H1) as (-> & H2 & _). cbn [mbind option_bind].
  destruct (beq c COLON) eqn:Ec; cbn [negb];
    [|apply beq_false in Ec; exists false; split; [done|]; split; [done|]; intros (_ & v' & [= ? _] & _)%Hinv; congruence].
  apply beq_true in Ec as ->. destruct (value_loop_spec _ _ _ _ _ H2 eq_refl) as (b & -> & Hb). exists b. split; [done|]. rewrite Hb. split.
  - intros Hv. exists (take_while tchar s), v. split; [by rewrite <- Ed, take_drop_while|]. split; [split; [done | apply take_while_all] | done].
  - by intros (_ & v' & [= <-] & Hv)%Hinv.
Qed.

(** ** Lines *)

(** A text read as lines: it begins with the empty line, with a line, with a line whose
    LF no CR precedes, or with a line that has not fully arrived. *)
Inductive line_shape : list byte -> Prop :=
  | shape_blank rest : line_shape (CRLF ++ rest)
  | shape_line l rest : l <> [] -> LF ∉ l -> line_shape (l ++ CRLF ++ rest)
  | shape_bare a rest : LF ∉ a -> last a <> Some CR -> line_shape (a ++ LF :: rest)
  | shape_part s : LF ∉ s -> line_shape s.

Lemma line_shape_total s : line_shape s.
Proof.
  destruct (find_byte LF s) as [k|] eqn:E; [|by apply shape_part, find_byte_None].
  apply find_byte_Some in E as (a & b & -> & Ha & _). destruct (decide (last a = Some CR)) as [Hl|Hl]; [|by apply shape_bare].
  apply last_Some in Hl as [l ->]. rewrite <- app_assoc. cbn [app]. apply not_elem_of_app in Ha as [Ha _].
  destruct l as [|c l]; [apply (shape_blank b) | by apply (shape_line (c :: l) b)].
Qed.

Lemma find_lf_spec buf pos s : text buf pos (length buf) s -> find_lf buf pos = Some (find_byte LF s).
Proof. intros Ht. unfold find_lf. pose proof (text_length _ _ _ _ Ht) as Hl. replace (length buf - pos)%nat with (length s) by lia.
  rewrite <- (app_nil_r s) in Ht. by rewrite (text_view _ _ _ _ _ Ht). Qed.

Lemma LF_not_CR : LF <> CR.
Proof. by vm_compute. Qed.

Lemma blank_line_blank buf pos rest : text buf pos (length buf) (CRLF ++ rest) -> blank_line buf pos = Some Blank.
Proof.
  intros Ht. destruct (text_cons _ _ _ _ _ Ht) as (H1 & Ht' & _). destruct (text_cons _ _ _ _ _ Ht') as (H2 & _ & Hl).
  unfold blank_line. rewrite H1. cbn [mbind option_bind]. rewrite (proj2 (beq_true CR CR)) by done.
  rewrite (proj2 (Nat.leb_gt _ _)) by done. rewrite H2. done.
Qed.

(** At a line that is not empty, or not yet known to be. *)
Lemma blank_line_text buf pos s :
  text buf pos (length buf) s -> s <> [] -> (forall rest, s <> CRLF ++ rest) ->
  blank_line buf pos = Some Text \/ s = [CR] /\ blank_line buf pos = Some Partial.
Proof.
  intros Ht Hn Hb. destruct s as [|c s]; [done|]. destruct (text_cons _ _ _ _ _ Ht) as (H1 & Ht' & _).
  unfold blank_line. rewrite H1. cbn [mbind option_bind]. destruct (beq c CR) eqn:Ec; [|by left]. apply beq_true in Ec as ->.
  rewrite (text_end _ _ _ _ Ht'). destruct s as [|d s]; [right; by rewrite bool_decide_eq_true_2|].
  rewrite bool_decide_eq_false_2 by done. destruct (text_cons _ _ _ _ _ Ht') as (-> & _ & _). cbn [mbind option_bind]. left.
  destruct (beq d LF) eqn:Ed; [|done]. apply beq_true in Ed as ->. by destruct (Hb s).
Qed.

Lemma blank_line_line buf pos l rest :
  text buf pos (length buf) (l ++ CRLF ++ rest) -> l <> [] -> LF ∉ l ->
  blank_line buf pos = Some Text /\ find_lf buf pos = Some (Some (S (length l))) /\ buf !! (pos + length l)%nat = Some CR /\
  text buf (pos + length l + 2) (length buf) rest /\ text buf pos (pos + length l) l.
Proof.
  intros Ht Hn Hl. destruct (blank_line_text _ _ _ Ht) as [->|[E _]].
  - by destruct l.
  - intros r E. destruct l as [|c [|d l]]; [done| |]; pose proof LF_not_CR; unfold CRLF in E; [heads E|].
    assert (d = LF) as -> by heads E. apply Hl. set_solver.
  - split; [done|]. rewrite (find_lf_spec _ _ _ Ht). split; [|split; [|split]].
    + replace (l ++ CRLF ++ rest) with ((l ++ [CR]) ++ LF :: rest) by (by rewrite <- app_assoc). rewrite find_byte_app, length_app; [cbn [length]; do 2 f_equal; lia|].
      apply not_elem_of_app. split; [done|]. apply not_elem_of_cons. split; [apply LF_not_CR | apply not_elem_of_nil].
    + apply text_skip in Ht. by destruct (text_cons _ _ _ _ _ Ht) as (? & _ & _).
    + replace (pos + length l + 2)%nat with (pos + length (l ++ CRLF))%nat by (rewrite length_app; cbn; lia). apply text_skip. by rewrite <- app_assoc.
    + by apply text_prefix in Ht.
  - exfalso. apply (f_equal length) in E. rewrite !length_app in E. destruct l; [done|]. cbn in E. lia.
Qed.

Lemma bare_line buf pos a rest :
  text buf pos (length buf) (a ++ LF :: rest) -> LF ∉ a -> last a <> Some CR ->
  blank_line buf pos = Some Text /\ find_lf buf pos = Some (Some (length a)) /\
  (a = [] \/ exists c k, length a = S k /\ buf !! (pos + k)%nat = Some c /\ beq c CR = false).
Proof.
  intros Ht Ha Hl. rewrite (find_lf_spec _ _ _ Ht), find_byte_app by done. split; [|split; [done|]].
  - destruct (blank_line_text _ _ _ Ht) as [->|[E _]]; [by destruct a| |done|].
    + intros r E. destruct a as [|c [|d a]]; cbn [app] in E; [by apply (f_equal head) in E; vm_compute in E| |].
      * assert (c = CR) as -> by heads E. by destruct Hl.
      * assert (d = LF) as -> by heads E. apply Ha. set_solver.
    + exfalso. destruct a as [|c a]; [by apply (f_equal head) in E; vm_compute in E|]. apply (f_equal length) in E. cbn in E. rewrite length_app in E. cbn in E. lia.
  - destruct a as [|c a] using rev_ind; [by left|]. right. exists c, (length a). rewrite length_app. split; [cbn; lia|].
    rewrite <- app_assoc in Ht. apply text_skip in Ht. destruct (text_cons _ _ _ _ _ Ht) as (-> & _ & _). split; [done|].
    apply beq_false. intros ->. apply Hl. by rewrite last_snoc.
Qed.

Lemma part_line buf pos s :
  text buf pos (length buf) s -> s <> [] -> LF ∉ s ->
  blank_line buf pos = Some Partial \/ blank_line buf pos = Some Text /\ find_lf buf pos = Some None.
Proof.
  intros Ht Hn Hs. destruct (blank_line_text _ _ _ Ht Hn) as [->|[_ ->]]; [| |by left].
  - intros rest ->. apply Hs. set_solver.
  - right. split; [done|]. rewrite (find_lf_spec _ _ _ Ht). f_equal. by apply find_byte_None.
Qed.

(** A strict prefix of a line with its CRLF has no LF. *)
Lemma cut_line l s k : l ++ CRLF = s ++ k -> k <> [] -> LF ∉ l -> (LF ∉ s) /\ (length s < length l + 2)%nat.
Proof.
  intros E Hk Hl. assert (Hlen : (length l + 2 = length s + length k)%nat) by (apply (f_equal length) in E; rewrite !length_app in E; exact E).
  assert (length k <> O) by (by destruct k). split; [|lia]. destruct k as [|c k _] using rev_ind; [done|].
  rewrite app_assoc in E. change CRLF with ([CR] ++ [LF]) in E. rewrite app_assoc in E. apply app_inj_2 in E as [E _]; [|done].
  intros Hin. assert (LF ∈ l ++ [CR]) as [?|Hc%list_elem_of_singleton]%elem_of_app by (rewrite E; set_solver); [done|].
  by apply LF_not_CR in Hc.
Qed.

(** A text that continues to begin with a line has that line, or only a part of it. *)
Lemma cut_in_line l s tail w :
  s ++ tail = l ++ CRLF ++ w -> LF ∉ l ->
  (exists k, s = l ++ CRLF ++ k /\ k ++ tail = w) \/ ((LF ∉ s) /\ (length s < length l + 2)%nat).
Proof.
  intros E Hl. rewrite app_assoc in E. destruct (cut_at _ _ _ _ E) as [(k & -> & E')|(k & Ek & Hk)]; [|right; by apply (cut_line l s k)].
  left. exists k. by rewrite <- app_assoc.
Qed.

Ltac run E := rewrite E; cbn [mbind option_bind].

Lemma lines_cons l ls : lines (l :: ls) = l ++ CRLF ++ lines ls.
Proof. unfold lines. cbn [fmap list_fmap concat]. by rewrite <- app_assoc. Qed.

(** ** The trailer section *)

Lemma trailer_field_wf l : trailer_field l -> l <> [] /\ LF ∉ l.
Proof.
  intros (name & v & -> & [Hn Ht] & Hv). split; [by destruct name|]. rewrite Forall_forall in Ht, Hv.
  rewrite not_elem_of_app, not_elem_of_cons. split; [intros Hin; by apply Ht in Hin|]. split; [done|]. intros Hin. by apply Hv in Hin.
Qed.

Section Trailer.
Context (buf : list byte) (start : nat) (max_header : Z).

Definition within (pos : nat) : Prop := 0 < max_header -> Z.of_nat pos - Z.of_nat start <= max_header.

Lemma within_test pos : (0 <? max_header) && (max_header <? Z.of_nat pos - Z.of_nat start) = false <-> within pos.
Proof. unfold within. destruct (Z.ltb_spec 0 max_header), (Z.ltb_spec max_header (Z.of_nat pos - Z.of_nat start)); cbn; split; try done; lia. Qed.

(** Trailers that have not ended, seen from [pos]. *)
Definition trailing (pos : nat) (s : list byte) : Prop :=
  exists ts k, s = lines ts ++ k /\ Forall trailer_field ts /\ (LF ∉ k) /\ within (pos + length (lines ts)) /\
    (0 < max_header -> Z.of_nat pos + Z.of_nat (length s) - Z.of_nat start <= max_header + 1).

Lemma length_lines_cons l ls : length (lines (l :: ls)) = (length l + 2 + length (lines ls))%nat.
Proof. rewrite lines_cons, !length_app. cbn. lia. Qed.

Lemma trailer_loop_part fuel pos s :
  text buf pos (length buf) s -> s <> [] -> (LF ∉ s) -> within pos ->
  exists r, trailer_loop (S fuel) buf start max_header pos = Some r /\ (r = inl (-1) /\ trailing pos s \/ r = inr 431 /\ 0 < max_header).
Proof.
  intros Ht Hn Hs Ew. pose proof (text_length _ _ _ _ Ht) as Hlen. assert (length s <> O) by (by destruct s).
  assert (Htr : (0 < max_header -> Z.of_nat pos + Z.of_nat (length s) - Z.of_nat start <= max_header + 1) -> trailing pos s).
  { intros H'. exists [], s. cbn [lines concat fmap list_fmap app length]. rewrite Nat.add_0_r. by repeat split. }
  cbn [trailer_loop]. rewrite (proj2 (within_test pos) Ew), (text_end _ _ _ _ Ht), bool_decide_eq_false_2 by done.
  destruct (blank_line_text _ _ _ Ht Hn) as [E1|[-> E1]]; [by intros rest ->; apply Hs; set_solver| |].
  - run E1. run (find_lf_spec _ _ _ Ht). rewrite (proj2 (find_byte_None LF s) Hs). destruct (_ && _) eqn:Et.
    + apply andb_prop in Et as [Et _]. eexists. split; [done|]. right. split; [done | lia].
    + apply within_test in Et. eexists. split; [done|]. left. split; [done|]. apply Htr. intros Hm. specialize (Et Hm). lia.
  - run E1. eexists. split; [done|]. left. split; [done|]. apply Htr. intros Hm. specialize (Ew Hm). cbn. lia.
Qed.

Lemma trailer_loop_sound fuel pos s :
  text buf pos (length buf) s -> (length s < fuel)%nat ->
  exists r, trailer_loop fuel buf start max_header pos = Some r /\
    (r = inl (-1) /\ trailing pos s \/ r = inr 400 \/ r = inr 431 /\ 0 < max_header \/
     exists ts rest, s = lines ts ++ CRLF ++ rest /\ Forall trailer_field ts /\ within (pos + length (lines ts)) /\
       r = inl (Z.of_nat pos + Z.of_nat (length (lines ts)) + 2)).
Proof.
  revert pos s. induction fuel as [|fuel IH]; intros pos s Ht Hf; [lia|].
  destruct ((0 <? max_header) && (max_header <? Z.of_nat pos - Z.of_nat start)) eqn:Ew.
  { cbn [trailer_loop]. rewrite Ew. apply andb_prop in Ew as [Ew _]. eexists. split; [done|]. do 2 right. left. split; [done | lia]. }
  apply within_test in Ew.
  destruct (decide (s = [])) as [->|Hn].
  { cbn [trailer_loop]. rewrite (proj2 (within_test pos) Ew), (text_end _ _ _ _ Ht), bool_decide_eq_true_2 by done. eexists. split; [done|]. left. split; [done|]. exists [], []. cbn. rewrite Nat.add_0_r.
    repeat split; [constructor | apply not_elem_of_nil | done|]. intros Hm. specialize (Ew Hm). lia. }
  destruct (line_shape_total s) as [rest|l rest Hl Hlf|a rest Ha Hla|s Hs].
  4:{ destruct (trailer_loop_part fuel pos s Ht Hn Hs Ew) as (r & E & [Hr|Hr]); exists r; (split; [done|]); [by left | do 2 right; by left]. }
  all: cbn [trailer_loop]; rewrite (proj2 (within_test pos) Ew), (text_end _ _ _ _ Ht), bool_decide_eq_false_2 by done.
  - rewrite (blank_line_blank _ _ _ Ht). cbn [mbind option_bind]. eexists. split; [done|]. do 3 right. exists [], rest.
    cbn. rewrite Nat.add_0_r. repeat split; [constructor | done | f_equal; lia].
  - destruct (blank_line_line _ _ _ _ Ht Hl Hlf) as (E1 & E2 & E3 & Ht' & Hline). run E1. run E2. run E3.
    rewrite (proj2 (beq_true CR CR)) by done. cbn [negb]. destruct (trailer_line_ok_spec _ _ _ _ Hline) as (ok & E4 & Hok). run E4.
    destruct ok; cbn [negb]; [|eauto]. destruct (IH _ _ Ht') as (r & -> & Hr); [rewrite !length_app in Hf; change (length CRLF) with 2%nat in Hf; lia|]. exists r. split; [done|].
    assert (Hw : forall ts, (pos + length l + 2 + length (lines ts) = pos + length (lines (l :: ts)))%nat) by (intros ts; rewrite length_lines_cons; lia).
    destruct Hr as [[-> (ts & k & -> & Hts & Hk & Hwi & Hlen)]|[->|[[-> Hm]|(ts & rest' & -> & Hts & Hwi & ->)]]]; [|auto..|]; rewrite Hw in Hwi.
    + left. split; [done|]. exists (l :: ts), k. split; [by rewrite lines_cons, <- !app_assoc|]. split; [constructor; [by apply Hok | done]|].
      split; [done|]. split; [done|]. intros Hm. specialize (Hlen Hm). rewrite !length_app in *. change (length CRLF) with 2%nat. lia.
    + do 3 right. exists (l :: ts), rest'. split; [by rewrite lines_cons, <- !app_assoc|]. split; [constructor; [by apply Hok | done]|].
      split; [done|]. rewrite length_lines_cons. f_equal. lia.
  - destruct (bare_line _ _ _ _ Ht Ha Hla) as (E1 & E2 & Hb). run E1. run E2.
    destruct Hb as [->|(c & k & -> & Hc & Hcr)]; [cbn; eauto|]. run Hc. rewrite Hcr. eauto.
Qed.

Lemma trailer_loop_complete ts : Forall trailer_field ts -> forall fuel pos rest,
  text buf pos (length buf) (lines ts ++ CRLF ++ rest) -> within (pos + length (lines ts)) -> (length (lines ts ++ CRLF ++ rest) < fuel)%nat ->
  trailer_loop fuel buf start max_header pos = Some (inl (Z.of_nat pos + Z.of_nat (length (lines ts)) + 2)).
Proof.
  induction 1 as [|l ts Hl _ IH]; intros fuel pos rest Ht Hw Hf; (destruct fuel as [|fuel]; [lia|]); cbn [trailer_loop];
    (rewrite (proj2 (within_test pos)) by (intros Hm; specialize (Hw Hm); lia)); rewrite (text_end _ _ _ _ Ht), bool_decide_eq_false_2.
  - rewrite (blank_line_blank _ _ _ Ht). cbn. do 2 f_equal. lia.
  - done.
  - destruct (trailer_field_wf l Hl) as [Hn Hlf]. rewrite lines_cons, <- !app_assoc in Ht.
    destruct (blank_line_line _ _ _ _ Ht Hn Hlf) as (E1 & E2 & E3 & Ht' & Hline). run E1. run E2. run E3.
    rewrite (proj2 (beq_true CR CR)) by done. cbn [negb]. destruct (trailer_line_ok_spec _ _ _ _ Hline) as (ok & E4 & Hok). run E4.
    rewrite (proj2 Hok Hl). cbn [negb].
    assert (El : length (lines (l :: ts)) = (length l + 2 + length (lines ts))%nat) by (rewrite lines_cons, !length_app; cbn; lia).
    rewrite (IH fuel _ rest Ht'); [do 2 f_equal; lia | by replace (pos + length l + 2 + length (lines ts))%nat with (pos + length (lines (l :: ts)))%nat by lia|].
    rewrite length_app in *. lia.
  - rewrite lines_cons. by destruct (trailer_field_wf l Hl) as [? _], l.
Qed.

(** A trailer section that has not fully arrived. *)
Lemma trailer_loop_partial ts : Forall trailer_field ts -> forall fuel pos s tail,
  text buf pos (length buf) s -> s ++ tail = lines ts ++ CRLF -> tail <> [] -> within (pos + length (lines ts)) -> (length s < fuel)%nat ->
  trailer_loop fuel buf start max_header pos = Some (inl (-1)).
Proof.
  induction 1 as [|l ts Hl _ IH]; intros fuel pos s tail Ht E Htl Hw Hf; (destruct fuel as [|fuel]; [lia|]); cbn [trailer_loop];
    (rewrite (proj2 (within_test pos)) by (intros Hm; specialize (Hw Hm); lia)); rewrite (text_end _ _ _ _ Ht);
    (destruct (bool_decide_reflect (s = [])) as [->|Hn]; [done|]); pose proof (text_length _ _ _ _ Ht) as Hlen.
  - destruct (cut_line [] s tail) as [Hs Hl]; [done | done | apply not_elem_of_nil|]. cbn in Hl.
    destruct (part_line _ _ _ Ht Hn Hs) as [->|[Hb _]]; [done|]. exfalso. destruct s as [|c [|d s]]; [done| |cbn in Hl; lia].
    assert (c = CR) as -> by (change (lines []) with (@nil byte) in E; heads E). destruct (text_cons _ _ _ _ _ Ht) as (H1 & _). unfold blank_line in Hb. rewrite H1 in Hb.
    cbn [mbind option_bind length] in *. rewrite (proj2 (beq_true CR CR)), (proj2 (Nat.leb_le _ _)) in Hb by (done || lia). done.
  - destruct (trailer_field_wf l Hl) as [Hnl Hlf].
    assert (El : length (lines (l :: ts)) = (length l + 2 + length (lines ts))%nat) by (rewrite lines_cons, !length_app; cbn; lia).
    rewrite lines_cons, <- !app_assoc in E. destruct (cut_in_line _ _ _ _ E Hlf) as [(k & -> & E')|[Hs Hls]].
    + destruct (blank_line_line _ _ _ _ Ht Hnl Hlf) as (E1 & E2 & E3 & Ht' & Hline). run E1. run E2. run E3.
      rewrite (proj2 (beq_true CR CR)) by done. cbn [negb]. destruct (trailer_line_ok_spec _ _ _ _ Hline) as (ok & E4 & Hok). run E4.
      rewrite (proj2 Hok Hl). cbn [negb]. apply (IH fuel _ k tail Ht'); [done | done | | rewrite !length_app in Hf; cbn in Hf; lia].
      by replace (pos + length l + 2 + length (lines ts))%nat with (pos + length (lines (l :: ts)))%nat by lia.
    + destruct (part_line _ _ _ Ht Hn Hs) as [E1|[E1 E2]]; run E1; [done|]. run E2.
      by rewrite (proj2 (within_test _)) by (intros Hm; specialize (Hw Hm); lia).
Qed.
End Trailer.

(** ** Size lines *)

Definition hexit (b : byte) : bool := 0 <=? hex_digit b.

Definition hexfold (acc : Z) (ds : list byte) : Z := foldl (fun n b => n * 16 + hex_digit b) acc ds.

Lemma hex_digit_range b : -1 <= hex_digit b <= 15.
Proof. unfold hex_digit. repeat case_match; lia. Qed.

Lemma hexfold_mono ds acc : Forall (fun b => hexit b = true) ds -> 0 <= acc -> acc <= hexfold acc ds.
Proof.
  intros H. revert acc. induction H as [|b ds Hb _ IH]; intros acc Ha; cbn; [lia|]. unfold hexit in Hb.
  etrans; [|apply IH; lia]. lia.
Qed.

Lemma hex_loop_spec n buf j s acc :
  text buf j (length buf) s -> n = (length buf - j)%nat -> 0 <= acc <= max_declared ->
  let ds := take_while hexit s in
  hex_loop n buf j acc = Some (if hexfold acc ds <=? max_declared then inl (hexfold acc ds, (j + length ds)%nat) else inr 400).
Proof.
  revert j s acc. induction n as [|n IH]; intros j s acc Ht Hn Ha ds; pose proof (text_length _ _ _ _ Ht) as Hl.
  - destruct s; [|cbn in Hl; lia]. subst ds. cbn. rewrite (proj2 (Z.leb_le _ _)) by lia. do 3 f_equal. lia.
  - destruct s as [|c s]; [cbn in Hl; lia|]. destruct (text_cons _ _ _ _ _ Ht) as (E1 & Ht' & _). cbn [hex_loop]. run E1.
    subst ds. cbn [take_while]. pose proof (hex_digit_range c) as Hc. assert (hexit c = negb (hex_digit c <? 0)) as -> by (unfold hexit; lia).
    destruct (Z.ltb_spec (hex_digit c) 0); cbn [negb].
    { cbn. rewrite (proj2 (Z.leb_le _ _)) by lia. do 3 f_equal. lia. }
    cbn [hexfold foldl length]. fold (hexfold (acc * 16 + hex_digit c) (take_while hexit s)).
    pose proof (hexfold_mono (take_while hexit s) (acc * 16 + hex_digit c) (take_while_all _ _) ltac:(lia)).
    destruct (Z.ltb_spec max_declared (acc * 16 + hex_digit c)); [by rewrite (proj2 (Z.leb_gt _ _)) by lia|].
    rewrite (IH (S j) s _ Ht') by lia. destruct (_ <=? _); [|done]. do 3 f_equal. lia.
Qed.

Lemma bws_no_crlf b : bws b -> (CR ∉ b) /\ LF ∉ b.
Proof. unfold bws. rewrite Forall_forall. intros H. split; intros Hin; by apply H in Hin. Qed.

Lemma token_no_crlf b : token b -> (CR ∉ b) /\ LF ∉ b.
Proof. intros [_ H]. rewrite Forall_forall in H. split; intros Hin; by apply H in Hin. Qed.

Lemma qtext_no_crlf q : qtext q -> (CR ∉ q) /\ LF ∉ q.
Proof.
  induction 1 as [|c q _ _ Hc _ [IH1 IH2]|c q Hc _ [IH1 IH2]]; rewrite ?not_elem_of_cons; [split; apply not_elem_of_nil|..];
    apply ctl_apart in Hc as [? ?]; repeat split; try done; by vm_compute.
Qed.

Lemma chunk_ext_no_crlf ext : chunk_ext ext -> (CR ∉ ext) /\ LF ∉ ext.
Proof.
  induction 1 as [|b1 b2 name rest H1%bws_no_crlf H2%bws_no_crlf Hn%token_no_crlf _ [IH1 IH2]
    |b1 b2 name b3 b4 v rest H1%bws_no_crlf H2%bws_no_crlf Hn%token_no_crlf H3%bws_no_crlf H4%bws_no_crlf Hv _ [IH1 IH2]].
  - split; apply not_elem_of_nil.
  - rewrite !not_elem_of_app, !not_elem_of_cons, !not_elem_of_app. destruct H1, H2, Hn. repeat split; try done; by vm_compute.
  - assert ((CR ∉ v) /\ LF ∉ v) as [? ?].
    { destruct Hv as [v Hv|q Hq]; [by apply token_no_crlf|]. apply qtext_no_crlf in Hq as [? ?].
      rewrite !not_elem_of_cons, !not_elem_of_app, !list_elem_of_singleton. repeat split; try done; by vm_compute. }
    rewrite !not_elem_of_app, !not_elem_of_cons, !not_elem_of_app, !not_elem_of_cons, !not_elem_of_app.
    destruct H1, H2, H3, H4, Hn. repeat split; try done; by vm_compute.
Qed.

(** An extension begins with white space or a semicolon. *)
Lemma chunk_ext_first c ext : chunk_ext (c :: ext) -> beq c SEMI || ows c = true.
Proof.
  intros H. apply chunk_ext_step in H as (t & E & _); [|done]. cbn [drop_while] in E. destruct (ows c) eqn:Eo; [by rewrite orb_true_r|].
  injection E as -> _. by rewrite (proj2 (beq_true SEMI SEMI)).
Qed.

Lemma size_line_end_sound buf j s :
  text buf j (length buf) s -> s <> [] ->
  exists r, size_line_end buf j = Some r /\
    match r with
    | inl line_end => exists ext t, s = ext ++ CR :: t /\ chunk_ext ext /\ line_end = (j + length ext)%nat
    | inr (inl n) => n = -1 /\ (LF ∉ s) /\ exists c k', s = c :: k' /\ (c = SEMI \/ ows c = true)
    | inr (inr c) => c = 400
    end.
Proof.
  intros Ht Hn. destruct s as [|c s]; [done|]. destruct (text_cons _ _ _ _ _ Ht) as (E1 & _ & _). unfold size_line_end. run E1.
  destruct (beq c CR) eqn:Ec; [apply beq_true in Ec as ->; eexists; split; [done|]; exists [], s; split; [done|]; split; [constructor | cbn; lia]|].
  destruct (beq c SEMI || ows c) eqn:Ef; cbn [negb]; [|by eexists]. run (find_lf_spec _ _ _ Ht).
  destruct (find_byte LF (c :: s)) as [k|] eqn:Ek.
  2:{ eexists. split; [done|]. split; [done|]. split; [by apply find_byte_None|]. exists c, s. split; [done|]. apply orb_true_iff in Ef as [->%beq_true|?]; auto. }
  apply find_byte_Some in Ek as (a & b & Es & Ha & Hk).
  destruct a as [|d a]; [exfalso; injection Es as -> _; by vm_compute in Ef|].
  destruct (exists_last (l := d :: a)) as (l & x & El); [done|]. rewrite El in *. rewrite length_app in Hk. cbn [length] in Hk.
  rewrite <- app_assoc in Es. cbn [app] in Es.
  rewrite Es in Ht. replace (j + k - 1)%nat with (j + length l)%nat by lia.
  pose proof (text_skip _ _ _ _ _ Ht) as Ht'. destruct (text_cons _ _ _ _ _ Ht') as (E2 & _ & _). run E2.
  destruct (beq x CR) eqn:Ex; cbn [negb]; [|by eexists]. apply beq_true in Ex as ->.
  destruct (chunk_ext_ok_spec _ _ _ _ (text_prefix _ _ _ _ _ Ht)) as (ok & E3 & Hok). run E3. destruct ok; [|by eexists].
  eexists. split; [done|]. exists l, (LF :: b). split; [done|]. split; [by apply Hok | done].
Qed.

Lemma size_line_end_complete buf j ext t :
  text buf j (length buf) (ext ++ CRLF ++ t) -> chunk_ext ext -> size_line_end buf j = Some (inl (j + length ext)%nat).
Proof.
  intros Ht He. unfold size_line_end. destruct (chunk_ext_no_crlf ext He) as [Hcr Hlf]. destruct ext as [|c ext].
  { destruct (text_cons _ _ _ _ _ Ht) as (E1 & _ & _). run E1. rewrite (proj2 (beq_true CR CR)) by done. cbn. do 2 f_equal. lia. }
  destruct (blank_line_line _ _ _ _ Ht) as (_ & E2 & E3 & _ & Hx); [done | done|].
  cbn [app] in Ht. destruct (text_cons _ _ _ _ _ Ht) as (E1 & _ & _). run E1. apply not_elem_of_cons in Hcr as [Hcr _].
  rewrite (proj2 (beq_false c CR)), (chunk_ext_first c ext He) by congruence. cbn [negb]. run E2.
  replace (j + S (length (c :: ext)) - 1)%nat with (j + length (c :: ext))%nat by lia. run E3. rewrite (proj2 (beq_true CR CR)) by done. cbn [negb].
  destruct (chunk_ext_ok_spec _ _ _ _ Hx) as (ok & E4 & Hok). run E4. by rewrite (proj2 Hok He).
Qed.

Lemma hexits_iff ds : hexits ds <-> ds <> [] /\ Forall (fun b => hexit b = true) ds.
Proof.
  unfold hexits, hexit. assert (H : Forall (fun b => 0 <= hex_digit b) ds <-> Forall (fun b => (0 <=? hex_digit b) = true) ds)
    by (apply Forall_iff; intros b; by rewrite Z.leb_le). by rewrite H.
Qed.

Lemma hexits_all ds : Forall (fun b => hexit b = true) ds -> Forall (fun b => 0 <= hex_digit b) ds.
Proof. intros H. eapply Forall_impl; [exact H|]. unfold hexit. intros b. lia. Qed.

Lemma not_hexit c : c = CR \/ beq c SEMI || ows c = true -> hexit c = false.
Proof.
  intros [->|H]; [done|]. assert (E : implb (beq c SEMI || ows c) (negb (hexit c)) = true)
    by (revert c H; intros c _; revert c; apply byte_cases; vm_compute; reflexivity).
  rewrite H in E. by apply negb_true_iff in E.
Qed.

Lemma ext_stops_hex ext k tail : chunk_ext ext -> k ++ tail = ext ++ CRLF -> stops hexit k.
Proof.
  intros He E. destruct k as [|c k]; [done|]. cbn. apply not_hexit. destruct ext as [|d ext]; [left; heads E|].
  right. apply chunk_ext_first in He. assert (c = d) as -> by heads E. done.
Qed.

Lemma size_line_sound buf pos s :
  text buf pos (length buf) s ->
  exists r, size_line buf pos = Some r /\
    match r with
    | inl (v, d) => exists ds ext t, s = ds ++ ext ++ CRLF ++ t /\ hexits ds /\ hexval ds = v /\ 0 <= v <= max_declared /\ chunk_ext ext /\
        d = (pos + length ds + length ext + 2)%nat
    | inr (inl n) => n = -1 /\ size_open s
    | inr (inr c) => c = 400
    end.
Proof.
  intros Ht. unfold size_line. rewrite (hex_loop_spec _ _ _ _ _ Ht eq_refl) by (split; [lia | by vm_compute]).
  pose proof (take_drop_while hexit s) as Es. pose proof (take_while_all hexit s) as Hall. cbn [mbind option_bind].
  pose proof (hexfold_mono _ 0 Hall ltac:(lia)) as Hpos. set (ds := take_while hexit s) in *.
  destruct (Z.leb_spec (hexfold 0 ds) max_declared); [|by eexists]. rewrite <- Es in Ht. pose proof (text_skip _ _ _ _ _ Ht) as Ht1.
  rewrite (text_end _ _ _ _ Ht1). destruct (bool_decide_reflect (drop_while hexit s = [])) as [E|Hn].
  { eexists. split; [done|]. split; [done|]. exists ds, []. rewrite E in Es. repeat split; [done | by apply hexits_all | done | apply not_elem_of_nil | by left]. }
  destruct (Nat.eqb_spec (pos + length ds) pos) as [E|Hd]; [by eexists|].
  destruct (size_line_end_sound _ _ _ Ht1 Hn) as (r & E1 & Hr). run E1. assert (Hds : ds <> []) by (by intros E; rewrite E in Hd; cbn in Hd; lia).
  destruct r as [line_end|[n|c]]; [|destruct Hr as (-> & Hlf & Hk); eexists; split; [done|]; split; [done|]; exists ds, (drop_while hexit s); repeat split; [done | by apply hexits_all | done | done | right; auto]|by eexists; split; [done|]].
  destruct Hr as (ext & t & Et & He & ->). rewrite Et in Ht1. pose proof (text_skip _ _ _ _ _ Ht1) as Ht2. destruct (text_cons _ _ _ _ _ Ht2) as (_ & Ht3 & _).
  replace (pos + length ds + length ext + 1)%nat with (S (pos + length ds + length ext)) by lia. rewrite (text_end _ _ _ _ Ht3).
  destruct t as [|x t].
  { eexists. split; [done|]. split; [done|]. exists ds, (ext ++ [CR]). rewrite Et in Es. destruct (chunk_ext_no_crlf ext He) as [_ Hlf].
    repeat split; [done | by apply hexits_all | done | apply not_elem_of_app; split; [done|]; rewrite list_elem_of_singleton; apply LF_not_CR|]. right. split; [done|].
    destruct ext as [|c ext]; [by left|]. right. exists c, (ext ++ [CR]). split; [done|]. apply chunk_ext_first in He. apply orb_true_iff in He as [->%beq_true|?]; auto. } rewrite bool_decide_eq_false_2 by done. destruct (text_cons _ _ _ _ _ Ht3) as (E2 & _ & _). run E2.
  destruct (beq x LF) eqn:Ex; cbn [negb]; [|by eexists]. apply beq_true in Ex as ->. eexists. split; [done|]. exists ds, ext, t.
  split; [by rewrite <- Es, Et|]. split; [apply hexits_iff; split; [by intros ->; cbn in Hd; lia | done]|]. split; [done|]. split; [done|]. split; [done | lia].
Qed.

Lemma size_line_complete buf pos ds ext t :
  text buf pos (length buf) (ds ++ ext ++ CRLF ++ t) -> hexits ds -> hexval ds <= max_declared -> chunk_ext ext ->
  size_line buf pos = Some (inl (hexval ds, (pos + length ds + length ext + 2)%nat)).
Proof.
  intros Ht [Hn Hds]%hexits_iff Hv He. unfold size_line. rewrite (hex_loop_spec _ _ _ _ _ Ht eq_refl) by (split; [lia | by vm_compute]).
  assert (Hst : stops hexit (ext ++ CRLF ++ t)).
  { destruct ext as [|c ext]; [done|]. cbn. apply not_hexit. right. by apply chunk_ext_first in He. }
  destruct (take_while_unique hexit ds _ Hds Hst) as [-> _]. unfold hexval in *. fold (hexfold 0 ds) in *. rewrite (proj2 (Z.leb_le _ _)) by done. cbn [mbind option_bind].
  pose proof (text_skip _ _ _ _ _ Ht) as Ht1. rewrite (text_end _ _ _ _ Ht1), bool_decide_eq_false_2 by (by destruct ext).
  destruct (Nat.eqb_spec (pos + length ds) pos) as [E|_]; [by destruct ds; [|cbn in E; lia]|].
  run (size_line_end_complete _ _ _ _ Ht1 He). pose proof (text_skip _ _ _ _ _ Ht1) as Ht2. destruct (text_cons _ _ _ _ _ Ht2) as (_ & Ht3 & _).
  replace (pos + length ds + length ext + 1)%nat with (S (pos + length ds + length ext)) by lia.
  rewrite (text_end _ _ _ _ Ht3), bool_decide_eq_false_2 by done. destruct (text_cons _ _ _ _ _ Ht3) as (E2 & _ & _). run E2.
  rewrite (proj2 (beq_true LF LF)) by done. cbn [negb]. done.
Qed.

(** A size line that has not fully arrived. *)
Lemma size_line_partial buf pos s tail ds ext :
  text buf pos (length buf) s -> s ++ tail = ds ++ ext ++ CRLF -> tail <> [] -> hexits ds -> hexval ds <= max_declared -> chunk_ext ext ->
  size_line buf pos = Some (inr (inl (-1))).
Proof.
  intros Ht E Htl [Hn Hds]%hexits_iff Hv He. unfold size_line. rewrite (hex_loop_spec _ _ _ _ _ Ht eq_refl) by (split; [lia | by vm_compute]).
  unfold hexval in Hv. fold (hexfold 0 ds) in Hv. destruct (app_eq_inv _ _ _ _ E) as [(k & -> & E')|(k & -> & E')].
  - destruct (take_while_unique hexit ds k Hds (ext_stops_hex ext k tail He (eq_sym E'))) as [-> _]. rewrite (proj2 (Z.leb_le _ _)) by done. cbn [mbind option_bind].
    pose proof (text_skip _ _ _ _ _ Ht) as Ht1. rewrite (text_end _ _ _ _ Ht1). destruct (bool_decide_reflect (k = [])) as [->|Hk]; [done|].
    destruct (Nat.eqb_spec (pos + length ds) pos) as [El|_]; [by destruct ds; [|cbn in El; lia]|].
    destruct (chunk_ext_no_crlf ext He) as [Hcr Hlf]. destruct k as [|c k]; [done|]. destruct (text_cons _ _ _ _ _ Ht1) as (E1 & _ & _).
    unfold size_line_end. run E1. pose proof (text_length _ _ _ _ Ht1) as Hlen. destruct ext as [|d ext].
    + assert (c = CR) as -> by heads E'. rewrite (proj2 (beq_true CR CR)) by done. cbn [mbind option_bind].
      apply (f_equal length) in E'. cbn in E'. rewrite length_app in E'. assert (length tail <> O) by (by destruct tail). cbn [length] in Hlen.
      by rewrite (proj2 (Nat.leb_le _ _)) by lia.
    + pose proof (chunk_ext_first d ext He) as Hf. assert (c = d) as -> by heads E'. apply not_elem_of_cons in Hcr as [Hcr _].
      rewrite (proj2 (beq_false d CR)), Hf by congruence. cbn [negb mbind option_bind].
      assert (Hs : LF ∉ d :: k).
      { apply (cut_line (d :: ext) (d :: k) tail); [done | done | done]. }
      rewrite (find_lf_spec _ _ _ Ht1), (proj2 (find_byte_None LF (d :: k)) Hs). done.
  - apply Forall_app in Hds as [Hs Hk]. destruct (take_while_unique hexit s [] Hs I) as [Ew _]. rewrite app_nil_r in Ew. rewrite Ew.
    pose proof (hexfold_mono k (hexfold 0 s) Hk (hexfold_mono s 0 Hs ltac:(lia))) as Hm. unfold hexfold in Hm at 3. unfold hexfold in Hv. rewrite foldl_app in Hv.
    fold (hexfold 0 s) in Hm, Hv. rewrite (proj2 (Z.leb_le (hexfold 0 s) _)) by (unfold hexfold in *; lia). cbn [mbind option_bind].
    pose proof (text_length _ _ _ _ Ht). by rewrite (proj2 (Nat.leb_le _ _)) by lia.
Qed.

(** ** Chunks *)

(** Far from where a 32-bit length wraps: the largest chunk behind the last byte
    still has a representable end. *)
Definition buf_fits (buf : list byte) : Prop := Z.of_nat (length buf) < 2 ^ 30 - 1.

Lemma max_declared_val : max_declared = 2 ^ 30.
Proof. done. Qed.

Section Chunks.
Context (buf : list byte) (max_header : Z) (Hfits : buf_fits buf).

(** The end of a chunk's data, seen from its size line. *)
Lemma chunk_end_range d v : (d <= length buf)%nat -> 0 <= v <= max_declared ->
  i32 (Z.of_nat d + v) = Z.of_nat d + v /\ i32 (Z.of_nat d + v + 1) = Z.of_nat d + v + 1 /\
  (Z.of_nat d + v + 1 < Z.of_nat (length buf) -> i32 (Z.of_nat d + v + 2) = Z.of_nat d + v + 2).
Proof. intros Hd Hv. rewrite max_declared_val in Hv. unfold buf_fits in Hfits. split; [|split; [|intros ?]]; apply i32_small; lia. Qed.

Lemma at_int_nat i : at_int buf (Z.of_nat i) = buf !! i.
Proof. unfold at_int. rewrite (proj2 (Z.ltb_ge _ _)) by lia. by rewrite Nat2Z.id. Qed.

Lemma trailer_within start pos : (0 < max_header -> Z.of_nat pos <= max_header) <-> within start max_header (start + pos).
Proof. unfold within. split; intros H Hm; specialize (H Hm); lia. Qed.

Lemma text_after_size pos ds ext t : text buf pos (length buf) (ds ++ ext ++ CRLF ++ t) -> text buf (pos + length ds + length ext + 2) (length buf) t.
Proof.
  intros Ht. apply text_skip, text_skip, text_skip in Ht. exact Ht.
Qed.

Lemma chunk_loop_sound fuel pos s :
  text buf pos (length buf) s -> (length s < fuel)%nat ->
  exists r, chunk_loop fuel buf max_header pos = Some r /\
    (r = inl (-1) /\ chunked_open max_header s \/ r = inr 400 \/ r = inr 431 /\ 0 < max_header \/
     exists b rest, s = b ++ rest /\ chunked_body max_header b /\ r = inl (Z.of_nat pos + Z.of_nat (length b))).
Proof.
  revert pos s. induction fuel as [|fuel IH]; intros pos s Ht Hf; [lia|]. cbn [chunk_loop].
  destruct (size_line_sound _ _ _ Ht) as (r & E & Hr). run E. destruct r as [[v d]|[n|c]]; [|destruct Hr as [-> Hr]; eexists; split; [done|]; left; split; [done | by apply open_size]|subst; eauto].
  destruct Hr as (ds & ext & t & -> & Hds & Hv & Hrange & He & Ed). pose proof (text_length _ _ _ _ Ht) as Hlen.
  assert (Htd : text buf d (length buf) t) by (rewrite Ed; by apply text_after_size).
  pose proof (text_length _ _ _ _ Htd) as Hlt. rewrite !length_app in Hlen, Hf. change (length CRLF) with 2%nat in *.
  destruct (Z.eqb_spec v 0) as [->|Hv0].
  - destruct (trailer_loop_sound buf d max_header (S (length buf)) d t Htd ltac:(lia)) as (r & Er & Hr). unfold frame_trailer_section. rewrite Er. exists r. split; [done|].
    destruct Hr as [[-> (ts & k & -> & Hts & Hk & Hw & Hlim)]|[->|[Hr|(ts & rest & -> & Hts & Hw & ->)]]]; [|auto..|].
    { left. split; [done|]. apply open_trailers; [done..|]. exists ts, k. repeat split; [done | done | by apply (trailer_within d)|]. specialize (Hlim ltac:(done)). lia. }
    do 3 right. exists (ds ++ ext ++ CRLF ++ lines ts ++ CRLF), rest.
    split; [by rewrite <- !app_assoc|]. split; [apply last_chunk; [done..|]; by apply (trailer_within d)|]. rewrite !length_app. change (length CRLF) with 2%nat. f_equal. lia.
  - destruct (chunk_end_range d v ltac:(lia) Hrange) as (-> & -> & Hnext). destruct (Z.leb_spec (Z.of_nat (length buf)) (Z.of_nat d + v + 1)).
    { eexists. split; [done|]. left. split; [done|]. apply open_data; [done | lia | done | lia]. }
    rewrite (Hnext ltac:(lia)).
    set (n := Z.to_nat v). assert (Ev : v = Z.of_nat n) by lia. rewrite Ev.
    destruct (drop n t) as [|x t'] eqn:Edrop; [apply (f_equal length) in Edrop; rewrite length_drop in Edrop; cbn in Edrop; lia|].
    pose proof (take_drop n t) as Et. rewrite Edrop in Et. assert (Hn : length (take n t) = n) by (rewrite length_take; lia).
    rewrite <- Et in Htd. apply text_skip in Htd. rewrite Hn in Htd. destruct (text_cons _ _ _ _ _ Htd) as (E1 & Htd' & _).
    destruct t' as [|y t']; [apply (f_equal length) in Et; rewrite length_app, Hn in Et; cbn in Et; lia|]. destruct (text_cons _ _ _ _ _ Htd') as (E2 & Htd'' & _).
    rewrite <- Nat2Z.inj_add, at_int_nat. run E1. replace (Z.of_nat (d + n) + 1) with (Z.of_nat (S (d + n))) by lia. rewrite at_int_nat. run E2.
    destruct (beq x CR) eqn:Ex; cbn [negb orb]; [|eauto]. destruct (beq y LF) eqn:Ey; cbn [negb]; [|eauto]. apply beq_true in Ex as ->. apply beq_true in Ey as ->.
    replace (Z.to_nat (Z.of_nat (d + n) + 2)) with (S (S (d + n))) by lia. pose proof (text_length _ _ _ _ Htd'') as Hl2.
    destruct (IH _ _ Htd'') as (r & -> & Hr); [lia|]. exists r. split; [done|].
    destruct Hr as [[-> Hr]|[->|[Hr|(b & rest & -> & Hb & ->)]]]; [|auto..|].
    { left. split; [done|]. rewrite <- Et at 1. change (take n t ++ CR :: LF :: t') with (take n t ++ CRLF ++ t'). apply open_next; [done | rewrite Hn; lia | rewrite Hn; lia | done | done]. }
    do 3 right.
    exists (ds ++ ext ++ CRLF ++ take n t ++ CRLF ++ b), rest. rewrite <- Et at 1. split; [by rewrite <- !app_assoc|].
    split; [apply next_chunk; [done | rewrite Hn; lia | rewrite Hn; lia | done | done]|]. rewrite !length_app, Hn. change (length CRLF) with 2%nat. f_equal. lia.
Qed.

Lemma chunk_loop_complete b : chunked_body max_header b -> forall fuel pos rest,
  text buf pos (length buf) (b ++ rest) -> (length b < fuel)%nat ->
  chunk_loop fuel buf max_header pos = Some (inl (Z.of_nat pos + Z.of_nat (length b))).
Proof.
  induction 1 as [ds ext ts Hds Hv He Hts Hw|ds ext data b Hds Hv Hrange He _ IH]; intros fuel pos rest Ht Hf;
    (destruct fuel as [|fuel]; [lia|]); cbn [chunk_loop]; rewrite <- !app_assoc in Ht; pose proof (text_length _ _ _ _ Ht) as Hlen;
    rewrite !length_app in *; change (length CRLF) with 2%nat in *.
  - rewrite (size_line_complete _ _ _ _ _ Ht Hds ltac:(rewrite Hv; by vm_compute) He), Hv. cbn [mbind option_bind]. rewrite Z.eqb_refl. unfold frame_trailer_section.
    apply text_after_size in Ht.
    rewrite (trailer_loop_complete _ _ _ ts Hts _ _ rest Ht); [do 2 f_equal; lia | by apply trailer_within | rewrite !length_app; change (length CRLF) with 2%nat; lia].
  - rewrite (size_line_complete _ _ _ _ _ Ht Hds ltac:(lia) He), Hv. cbn [mbind option_bind]. rewrite (proj2 (Z.eqb_neq _ _)) by lia.
    set (d := (pos + length ds + length ext + 2)%nat). destruct (chunk_end_range d (Z.of_nat (length data)) ltac:(lia) ltac:(lia)) as (-> & -> & Hnext).
    rewrite (proj2 (Z.leb_gt _ _)) by lia. rewrite (Hnext ltac:(lia)). apply text_after_size, text_skip in Ht. fold d in Ht.
    destruct (text_cons _ _ _ _ _ Ht) as (E1 & Ht1 & _). destruct (text_cons _ _ _ _ _ Ht1) as (E2 & Ht2 & _).
    rewrite <- Nat2Z.inj_add, at_int_nat. run E1. replace (Z.of_nat (d + length data) + 1) with (Z.of_nat (S (d + length data))) by lia. rewrite at_int_nat. run E2.
    change (beq CR CR) with true. change (beq LF LF) with true. cbn [negb orb].
    replace (Z.to_nat (Z.of_nat (d + length data) + 2)) with (S (S (d + length data))) by lia. rewrite (IH fuel _ rest Ht2) by lia. do 2 f_equal. lia.
Qed.

(** A body that has not fully arrived. *)
Lemma chunk_loop_partial b : chunked_body max_header b -> forall fuel pos s tail,
  text buf pos (length buf) s -> s ++ tail = b -> tail <> [] -> (length s < fuel)%nat ->
  chunk_loop fuel buf max_header pos = Some (inl (-1)).
Proof.
  induction 1 as [ds ext ts Hds Hv He Hts Hw|ds ext data b Hds Hv Hrange He _ IH]; intros fuel pos s tail Ht E Htl Hf;
    (destruct fuel as [|fuel]; [lia|]); cbn [chunk_loop];
    [assert (E0 : s ++ tail = (ds ++ ext ++ CRLF) ++ lines ts ++ CRLF) by (rewrite E; by rewrite <- !app_assoc)
    |assert (E0 : s ++ tail = (ds ++ ext ++ CRLF) ++ (data ++ CRLF) ++ b) by (rewrite E; by rewrite <- !app_assoc)];
    (destruct (cut_at _ _ _ _ E0) as [(k & -> & E')|(k & Ek & Hk)];
      [rewrite <- !app_assoc in Ht |
       by rewrite (size_line_partial _ _ _ k _ _ Ht (eq_sym Ek) Hk Hds) by (done || rewrite Hv; rewrite ?max_declared_val in *; lia)]).
  - rewrite (size_line_complete _ _ _ _ _ Ht Hds ltac:(rewrite Hv; by vm_compute) He), Hv. cbn [mbind option_bind]. rewrite Z.eqb_refl.
    apply text_after_size in Ht. pose proof (text_length _ _ _ _ Ht).
    apply (trailer_loop_partial _ _ _ ts Hts _ _ k tail Ht E' Htl); [by apply trailer_within | lia].
  - rewrite (size_line_complete _ _ _ _ _ Ht Hds ltac:(lia) He), Hv. cbn [mbind option_bind]. rewrite (proj2 (Z.eqb_neq _ _)) by lia.
    apply text_after_size in Ht. set (d := (pos + length ds + length ext + 2)%nat) in *. pose proof (text_length _ _ _ _ Ht) as Hlen. rewrite !length_app in Hf.
    destruct (chunk_end_range d (Z.of_nat (length data)) ltac:(lia) ltac:(lia)) as (-> & -> & Hnext).
    destruct (cut_at _ _ _ _ E') as [(k' & -> & E'')|(k' & Ek & Hk)].
    + rewrite !length_app in Hlen, Hf. change (length CRLF) with 2%nat in *. rewrite (proj2 (Z.leb_gt _ _)) by lia. rewrite (Hnext ltac:(lia)).
      rewrite <- app_assoc in Ht. apply text_skip in Ht. destruct (text_cons _ _ _ _ _ Ht) as (E1 & Ht1 & _). destruct (text_cons _ _ _ _ _ Ht1) as (E2 & Ht2 & _).
      rewrite <- Nat2Z.inj_add, at_int_nat. run E1. replace (Z.of_nat (d + length data) + 1) with (Z.of_nat (S (d + length data))) by lia. rewrite at_int_nat. run E2.
      change (beq CR CR) with true. change (beq LF LF) with true. cbn [negb orb].
      replace (Z.to_nat (Z.of_nat (d + length data) + 2)) with (S (S (d + length data))) by lia. by apply (IH fuel _ k' tail Ht2); [..|lia].
    + apply (f_equal length) in Ek. rewrite !length_app in Ek. assert (length k' <> O) by (by destruct k'). change (length CRLF) with 2%nat in *.
      by rewrite (proj2 (Z.leb_le _ _)) by lia.
Qed.
End Chunks.
