(* ===== verification/HttpFrame.v ===== *)
(** Where a request ends: [frame_request_length_lim_idx] of
    http1_1/request_parser/request_parser.v and its helpers, against the message format of
    RFC 9112 (lines ended by CRLF, Content-Length or chunked, never both). *)
From S2P Require Import Prelude WireBytes HttpScan HttpField HttpChunk.
Local Open Scope Z_scope.

(** ** The code *)

Definition frame_err_malformed : Z := -400.
Definition frame_err_body : Z := -413.
Definition frame_err_header : Z := -431.

Definition content_length_name : list byte := bytes_of "Content-Length".
Definition transfer_encoding_name : list byte := bytes_of "Transfer-Encoding".

(** The end of the request line whose LF is at [rl], without its CR. *)
Definition line_stop (buf : list byte) (rl : nat) : option nat :=
  match rl with O => Some O | S r => c ← buf !! r; Some (if beq c CR then r else rl) end.

Definition request_line_is_http10 (buf : list byte) (rl : nat) : option bool :=
  e ← line_stop buf rl;
  if (e <? 9)%nat then Some false
  else
    c ← buf !! (e - 1)%nat;
    if negb (beq c (byte_of_Z 48)) then Some false
    else
      s ← buf !! (e - 9)%nat;
      if negb (beq s SP) then Some false
      else t ← view buf (e - 8) 8; Some (bool_decide (t = bytes_of "HTTP/1.0")).

(** The variables of the walk: [content_length] (-1 for none), [chunked], [te_seen]. *)
Record walk := mkWalk { clen : Z; chunked : bool; te_seen : bool }.

(** A field line: the new variables, or what is returned. *)
Definition frame_line (buf : list byte) (line_start line_len : nat) (max_body : Z) (w : walk) : option (walk + Z) :=
  v ← line_header_value buf line_start line_len content_length_name;
  match v with
  | Some v =>
      if slen v <? 0 then Some (inr frame_err_malformed)
      else
        n ← parse_content_length buf v;
        match n with
        | None => Some (inr frame_err_malformed)
        | Some n =>
            if (0 <=? clen w) && negb (n =? clen w) then Some (inr frame_err_malformed)
            else if (0 <? max_body) && (max_body <? n) then Some (inr frame_err_body)
            else Some (inl (mkWalk n (chunked w) (te_seen w)))
        end
  | None =>
      v ← line_header_value buf line_start line_len transfer_encoding_name;
      match v with
      | Some v =>
          if slen v <? 0 then Some (inr frame_err_malformed)
          else
            r ← te_fold buf v (chunked w);
            if r <? 0 then Some (inr frame_err_malformed) else Some (inl (mkWalk (clen w) (r =? 1) true))
      | None => Some (inl w)
      end
  end.

(** The error of the chunked framer as a sentinel. *)
Definition chunk_error (code : Z) : Z :=
  if code =? 413 then frame_err_body else if code =? 431 then frame_err_header else frame_err_malformed.

(** At the blank line. *)
Definition frame_end (buf : list byte) (rl body_start : nat) (max_header max_body : Z) (w : walk) : option Z :=
  bad ← (if te_seen w then if negb (chunked w) || (0 <=? clen w) then Some true else request_line_is_http10 buf rl else Some false);
  if (bad : bool) then Some frame_err_malformed
  else if chunked w then
    r ← frame_chunked_total buf body_start max_header max_body;
    Some (match r with inl n => n | inr code => chunk_error code end)
  else if 0 <=? clen w then
    let total := i32 (Z.of_nat body_start + clen w) in
    Some (if total <=? Z.of_nat (length buf) then total else -1)
  else Some (Z.of_nat body_start).

(** [for { ... }] over the header lines. *)
Fixpoint frame_loop (fuel : nat) (buf : list byte) (rl : nat) (max_header max_body : Z) (pos : nat) (w : walk) : option Z :=
  match fuel with
  | O => None
  | S f =>
      if (0 <? max_header) && (max_header <? Z.of_nat pos) then Some frame_err_header
      else if (length buf <=? pos)%nat then Some (-1)
      else
        b ← blank_line buf pos;
        match b with
        | Partial => Some (-1)
        | Blank => frame_end buf rl (pos + 2) max_header max_body w
        | Text =>
            lf ← find_lf buf pos;
            match lf with
            | None => Some (-1)
            | Some line_lf =>
                c ← buf !! (pos + line_lf - 1)%nat;
                if negb (beq c CR) then Some frame_err_malformed
                else
                  r ← frame_line buf pos (line_lf - 1) max_body w;
                  match r with
                  | inr e => Some e
                  | inl w => frame_loop f buf rl max_header max_body (pos + line_lf + 1) w
                  end
            end
        end
  end.

Definition frame_request_length_lim_idx (buf : list byte) (max_header max_body : Z) : option Z :=
  if (length buf <? 4)%nat then Some (-1)
  else
    lf ← find_lf buf 0;
    match lf with
    | None => Some (-1)
    | Some O => Some frame_err_malformed
    | Some (S r) =>
        c ← buf !! r;
        if negb (beq c CR) then Some frame_err_malformed
        else frame_loop (S (length buf)) buf (S r) max_header max_body (S (S r)) (mkWalk (-1) false false)
    end.

(** The wrappers with an error code. *)
Definition frame_request_length_lim (buf : list byte) (max_header max_body : Z) : option framed :=
  r ← frame_request_length_lim_idx buf max_header max_body;
  Some (if r =? frame_err_body then inr 413 else if r =? frame_err_header then inr 431 else if r =? frame_err_malformed then inr 400 else inl r).

Definition frame_request_length (buf : list byte) : option framed := frame_request_length_lim buf 0 0.

(** ** The format *)

(** A head: the request line and the field lines, without their CRLF. *)
Record msg_head := mkMsgHead { request_line : list byte; fields : list (list byte) }.

Definition head_bytes (h : msg_head) : list byte := request_line h ++ CRLF ++ lines (fields h) ++ CRLF.

Definition head_wf (h : msg_head) : Prop := (LF ∉ request_line h) /\ Forall (fun l => l <> [] /\ (LF ∉ l)) (fields h).

(** The values of a field, in order. *)
Definition values (name : list byte) (ls : list (list byte)) : list (list byte) :=
  omap (fun l => match field name l with FieldValue v => Some v | _ => None end) ls.

(** White space between a framing field's name and its colon. *)
Definition bad_line (l : list byte) : bool :=
  match field content_length_name l, field transfer_encoding_name l with BadField, _ | _, BadField => true | _, _ => false end.

Definition is_http10 (l : list byte) : bool := bool_decide (drop (length l - 9) l = bytes_of " HTTP/1.0").

Inductive framing := NoBody | Fixed (n : Z) | Chunked.

(** RFC 9112, section 6.3, for a request: chunked as the only and last of the
    transfer codings, or one length, however often repeated, or no body; both, or
    Transfer-Encoding in an HTTP/1.0 message, is refused. *)
Definition framing_of (h : msg_head) : option framing :=
  let cls := values content_length_name (fields h) in
  let tes := values transfer_encoding_name (fields h) in
  if existsb bad_line (fields h) then None
  else
    match tes with
    | [] =>
        match cls with
        | [] => Some NoBody
        | v :: vs =>
            n ← length_value v;
            if forallb (fun v => bool_decide (length_value v = Some n)) vs then Some (Fixed n) else None
        end
    | _ =>
        if bool_decide (cls = []) && negb (is_http10 (request_line h)) && forallb (fun v => negb (bool_decide (codings v = []))) tes
           && bool_decide (chunked_last false (concat (codings <$> tes)) = Some true)
        then Some Chunked else None
    end.

Definition body_ok (max_header max_body : Z) (f : framing) (body : list byte) : Prop :=
  match f with
  | NoBody => body = []
  | Fixed n => Z.of_nat (length body) = n /\ (0 < max_body -> n <= max_body)
  | Chunked => chunked_body max_header body
  end.

(** A request, within the server's limits (0 is no limit). *)
Record request (max_header max_body : Z) (h : msg_head) (body : list byte) : Prop := {
  req_head : head_wf h;
  req_head_size : 0 < max_header -> Z.of_nat (length (head_bytes h)) - 2 <= max_header;
  req_body : exists f, framing_of h = Some f /\ body_ok max_header max_body f body
}.

(** The framer holds a chunked body against its limit with everything buffered behind
    the head. *)
Definition room (max_body : Z) (buf : list byte) (h : msg_head) : Prop :=
  framing_of h = Some Chunked -> 0 < max_body -> Z.of_nat (length buf) - Z.of_nat (length (head_bytes h)) <= max_body.

Definition line_wf (l : list byte) : Prop := l <> [] /\ (LF ∉ l).

(** The lines of a head so far can stand: no white space before a framing field's colon,
    one length, within the limit, and no coding behind chunked. *)
Definition lines_stand (max_body : Z) (ls : list (list byte)) : Prop :=
  existsb bad_line ls = false /\
  (values content_length_name ls = [] \/ exists n, Forall (fun v => length_value v = Some n) (values content_length_name ls) /\ (0 < max_body -> n <= max_body)) /\
  Forall (fun v => codings v <> []) (values transfer_encoding_name ls) /\
  chunked_last false (concat (codings <$> values transfer_encoding_name ls)) <> None.

(** A head that has not ended: part of the request line, or lines that can stand, within
    the limit, and a part of the next one. *)
Definition head_open (max_header max_body : Z) (buf : list byte) : Prop :=
  (length buf < 4)%nat \/ (LF ∉ buf) \/
  exists l ls k, buf = l ++ CRLF ++ lines ls ++ k /\ (LF ∉ l) /\ Forall line_wf ls /\ (LF ∉ k) /\ lines_stand max_body ls /\
    (0 < max_header -> Z.of_nat (length (l ++ CRLF ++ lines ls)) <= max_header).

(** A legal head, and a body that has not ended. *)
Definition body_open (max_header max_body : Z) (buf : list byte) : Prop :=
  exists h s f, buf = head_bytes h ++ s /\ head_wf h /\ (0 < max_header -> Z.of_nat (length (head_bytes h)) - 2 <= max_header) /\
    framing_of h = Some f /\ room max_body buf h /\
    match f with
    | NoBody => False
    | Fixed n => Z.of_nat (length s) < n /\ (0 < max_body -> n <= max_body)
    | Chunked => chunked_open max_header s
    end.

Definition unfinished (max_header max_body : Z) (buf : list byte) : Prop := head_open max_header max_body buf \/ body_open max_header max_body buf.

(** ** One line *)

(** A refusal; the two for size only under a limit. *)
Definition refusal (max_header max_body r : Z) : Prop := r = frame_err_malformed \/ r = frame_err_body /\ 0 < max_body \/ r = frame_err_header /\ 0 < max_header.

Lemma refusal_neg max_header max_body r : refusal max_header max_body r -> r < -1.
Proof. by intros [->|[[-> _]|[-> _]]]. Qed.

(** What a line does to the walk; [None] is a refusal. *)
Definition line_ref (max_body : Z) (w : walk) (l : list byte) : option walk :=
  match field content_length_name l with
  | BadField => None
  | FieldValue v =>
      n ← length_value v;
      if (0 <=? clen w) && negb (n =? clen w) then None
      else if (0 <? max_body) && (max_body <? n) then None
      else Some (mkWalk n (chunked w) (te_seen w))
  | NoField =>
      match field transfer_encoding_name l with
      | BadField => None
      | FieldValue v => c ← te_value (chunked w) v; Some (mkWalk (clen w) c true)
      | NoField => Some w
      end
  end.

Lemma frame_line_spec buf pos l max_body w :
  text buf pos (pos + length l) l ->
  exists r, frame_line buf pos (length l) max_body w = Some r /\
    match line_ref max_body w l with Some w' => r = inl w' | None => exists e, r = inr e /\ forall max_header, refusal max_header max_body e end.
Proof.
  intros [Ht Hb]. replace (pos + length l - pos)%nat with (length l) in Ht by lia. unfold frame_line, line_ref.
  pose proof (line_header_value_spec buf pos (length l) content_length_name l Ht ltac:(lia)) as Hc.
  pose proof (line_header_value_spec buf pos (length l) transfer_encoding_name l Ht ltac:(lia)) as Hte.
  assert (Hm : exists e, @inr walk Z frame_err_malformed = inr e /\ forall max_header, refusal max_header max_body e) by (eexists; split; [done | by left]).
  destruct (field content_length_name l) as [| |v]; cbn [field_at] in Hc.
  - run Hc. destruct (field transfer_encoding_name l) as [| |v]; cbn [field_at] in Hte.
    + run Hte. eauto.
    + run Hte. eauto.
    + destruct Hte as (s & E & Hv & Hs). run E. cbn [slen]. rewrite (proj2 (Z.ltb_ge _ _)) by lia.
      run (te_fold_spec buf s v (chunked w) Hv ltac:(lia)). destruct (te_value (chunked w) v) as [[]|]; cbn; eauto.
  - run Hc. eauto.
  - destruct Hc as (s & E & Hv & Hs). run E. cbn [slen]. rewrite (proj2 (Z.ltb_ge _ _)) by lia.
    run (parse_content_length_spec buf s v Hv ltac:(lia)). destruct (length_value v) as [n|]; cbn [mbind option_bind]; [|eauto].
    destruct ((0 <=? clen w) && negb (n =? clen w)); [eauto|]. destruct ((0 <? max_body) && (max_body <? n)) eqn:Eb; [|eauto]. apply andb_prop in Eb as [Eb _].
    eexists. split; [done|]. eexists. split; [done|]. right. left. split; [done | lia].
Qed.

(** ** All lines *)

Fixpoint walk_lines (max_body : Z) (w : walk) (ls : list (list byte)) : option walk :=
  match ls with [] => Some w | l :: ls' => w' ← line_ref max_body w l; walk_lines max_body w' ls' end.

(** The lengths and the codings of the lines, one after the other. *)
Fixpoint walk_lengths (max_body c : Z) (vs : list (list byte)) : option Z :=
  match vs with
  | [] => Some c
  | v :: vs' =>
      n ← length_value v;
      if (0 <=? c) && negb (n =? c) then None else if (0 <? max_body) && (max_body <? n) then None else walk_lengths max_body n vs'
  end.

Fixpoint walk_codings (c : bool) (vs : list (list byte)) : option bool :=
  match vs with [] => Some c | v :: vs' => c' ← te_value c v; walk_codings c' vs' end.

(** A line is not both fields. *)
Lemma field_apart l : field content_length_name l <> NoField -> field transfer_encoding_name l = NoField.
Proof.
  unfold field. destruct (ci_eq (take (length content_length_name) l) content_length_name) eqn:E1; [|done]. intros _.
  destruct (ci_eq (take (length transfer_encoding_name) l) transfer_encoding_name) eqn:E2; [|done]. exfalso.
  unfold ci_eq in *. apply bool_decide_eq_true in E1, E2. apply (f_equal (take 1)) in E1, E2. rewrite <- !fmap_take, !take_take in E1, E2.
  change (1 `min` length content_length_name)%nat with 1%nat in E1. change (1 `min` length transfer_encoding_name)%nat with 1%nat in E2.
  rewrite E1 in E2. by vm_compute in E2.
Qed.

Lemma walk_lines_spec max_body ls w w' :
  walk_lines max_body w ls = Some w' <->
  existsb bad_line ls = false /\ walk_lengths max_body (clen w) (values content_length_name ls) = Some (clen w') /\
  walk_codings (chunked w) (values transfer_encoding_name ls) = Some (chunked w') /\
  te_seen w' = te_seen w || negb (bool_decide (values transfer_encoding_name ls = [])).
Proof.
  revert w. induction ls as [|l ls IH]; intros w; cbn [walk_lines].
  { cbn. rewrite orb_false_r. destruct w as [c k t], w' as [c' k' t']. cbn. split; [by intros [= -> -> ->] | by intros (_ & [= ->] & [= ->] & ->)]. }
  unfold values. cbn [omap list_omap existsb]. fold (values content_length_name ls) (values transfer_encoding_name ls).
  unfold bad_line at 1, line_ref. pose proof (field_apart l) as Hap.
  destruct (field content_length_name l) as [| |v].
  - destruct (field transfer_encoding_name l) as [| |v]; cbn [mbind option_bind orb].
    + by rewrite IH.
    + split; [done | by intros (? & _)].
    + cbn [walk_codings]. destruct (te_value (chunked w) v) as [c|]; cbn [mbind option_bind]; [|split; [done | by intros (_ & _ & ? & _)]].
      rewrite IH. cbn [clen chunked te_seen]. rewrite (bool_decide_eq_false_2 (v :: _ = [])) by done. cbn [negb]. by rewrite orb_true_r.
  - cbn. split; [done | by intros (? & _)].
  - rewrite Hap by done. cbn [orb walk_lengths]. destruct (length_value v) as [n|]; cbn [mbind option_bind]; [|split; [done | by intros (_ & ? & _)]].
    destruct (_ && negb _); cbn [mbind option_bind]; [split; [done | by intros (_ & ? & _)]|].
    destruct (_ && _); cbn [mbind option_bind]; [split; [done | by intros (_ & ? & _)]|]. by rewrite IH.
Qed.

Lemma walk_lengths_same max_body n vs c :
  0 <= n -> walk_lengths max_body n vs = Some c <->
  c = n /\ forallb (fun v => bool_decide (length_value v = Some n)) vs = true /\ (vs <> [] -> 0 < max_body -> n <= max_body).
Proof.
  intros Hn. revert c. induction vs as [|v vs IH]; intros c; cbn [walk_lengths forallb]; [split; [by intros [= <-] | by intros (-> & _)]|].
  destruct (length_value v) as [m|]; cbn [mbind option_bind]; [|rewrite bool_decide_eq_false_2 by done; split; [done | by intros (_ & ? & _)]].
  rewrite (proj2 (Z.leb_le 0 n)) by done. cbn [andb]. destruct (Z.eqb_spec m n) as [->|Hm]; cbn [negb];
    [|rewrite bool_decide_eq_false_2 by congruence; split; [done | by intros (_ & ? & _)]].
  rewrite bool_decide_eq_true_2 by done. cbn [andb]. destruct (Z.ltb_spec 0 max_body), (Z.ltb_spec max_body n); cbn [andb]; rewrite ?IH;
    [|split; [intros (? & ? & _); repeat split; try done; lia | intros (? & ? & _); repeat split; try done; lia]..].
  split; [done|]. intros (_ & _ & H'). specialize (H' ltac:(done) ltac:(done)). lia.
Qed.

Lemma walk_lengths_first max_body vs c :
  walk_lengths max_body (-1) vs = Some c <->
  (vs = [] /\ c = -1) \/
  exists v vs' n, vs = v :: vs' /\ length_value v = Some n /\ forallb (fun v => bool_decide (length_value v = Some n)) vs' = true /\
    (0 < max_body -> n <= max_body) /\ c = n.
Proof.
  destruct vs as [|v vs]; cbn [walk_lengths].
  { split; [intros [= <-]; by left | intros [[_ ->]|(? & ? & ? & ? & _)]; done]. }
  destruct (length_value v) as [n|] eqn:Ev; cbn [mbind option_bind];
    [|split; [done|]; intros [[? _]|(v' & vs' & n & [= <- <-] & E & _)]; [done | congruence]].
  pose proof (length_value_range v n Ev) as Hn. change (0 <=? -1) with false. cbn [andb].
  destruct ((0 <? max_body) && (max_body <? n)) eqn:Eb.
  - apply andb_prop in Eb as [Eb1 Eb2]. split; [done|]. intros [[? _]|(v' & vs' & m & [= <- <-] & E & _ & Hl & _)]; [done|].
    assert (m = n) as -> by congruence. specialize (Hl ltac:(lia)). lia.
  - assert (Hlim : 0 < max_body -> n <= max_body) by (intros; apply andb_false_iff in Eb as [?|?]; lia).
    rewrite walk_lengths_same by lia. split.
    + intros (-> & Hall & _). right. exists v, vs, n. done.
    + intros [[? _]|(v' & vs' & m & [= <- <-] & E & Hall & _ & ->)]; [done|]. assert (m = n) as -> by congruence. done.
Qed.

Lemma chunked_last_app b ts us : chunked_last b (ts ++ us) = (c ← chunked_last b ts; chunked_last c us).
Proof. revert b. induction ts as [|t ts IH]; intros b; cbn; [done|]. destruct b; [done | apply IH]. Qed.

Lemma walk_codings_spec vs b c :
  walk_codings b vs = Some c <->
  forallb (fun v => negb (bool_decide (codings v = []))) vs = true /\ chunked_last b (concat (codings <$> vs)) = Some c.
Proof.
  revert b. induction vs as [|v vs IH]; intros b; cbn [walk_codings forallb fmap list_fmap concat]; [by cbn; split; [|intros [_ ?]]|].
  unfold te_value. rewrite chunked_last_app. destruct (bool_decide (codings v = [])); cbn [negb andb mbind option_bind]; [split; [done | by intros [? _]]|].
  destruct (chunked_last b (codings v)) as [k|]; cbn [mbind option_bind]; [apply IH | split; [done | by intros [_ ?]]].
Qed.

Lemma walk_stand max_body ls w : walk_lines max_body (mkWalk (-1) false false) ls = Some w -> lines_stand max_body ls.
Proof.
  intros (Hb & Hc & Ht & _)%walk_lines_spec. cbn [clen chunked] in Hc, Ht. apply walk_codings_spec in Ht as [Hne Hl]. split; [done|]. split; [|split; [|by rewrite Hl]].
  - apply walk_lengths_first in Hc as [[-> _]|(v & vs & n & -> & Ev & Hall & Hm & _)]; [by left|]. right. exists n. split; [|done]. constructor; [done|].
    apply Forall_forall. intros v' Hv'. rewrite forallb_forall in Hall. apply (bool_decide_eq_true (length_value v' = Some n)), Hall. by apply list_elem_of_In.
  - apply Forall_forall. intros v Hv. rewrite forallb_forall in Hne. specialize (Hne v (proj1 (list_elem_of_In _ _) Hv)). by apply negb_true_iff, bool_decide_eq_false in Hne.
Qed.

(** What the walk decides at the blank line. *)
Definition framing_verdict (rl : list byte) (w : walk) : option framing :=
  if te_seen w then if negb (chunked w) || (0 <=? clen w) || is_http10 rl then None else Some Chunked
  else if 0 <=? clen w then Some (Fixed (clen w)) else Some NoBody.

Definition within_body (max_body : Z) (f : framing) : Prop := match f with Fixed n => 0 < max_body -> n <= max_body | _ => True end.

Lemma framing_walk max_body h f :
  framing_of h = Some f /\ within_body max_body f <->
  exists w, walk_lines max_body (mkWalk (-1) false false) (fields h) = Some w /\ framing_verdict (request_line h) w = Some f.
Proof.
  unfold framing_of. destruct (existsb bad_line (fields h)) eqn:Ebad.
  { split; [by intros [? _] | intros (w & Hw & _)]. apply walk_lines_spec in Hw as (? & _). congruence. }
  set (cls := values content_length_name (fields h)). set (tes := values transfer_encoding_name (fields h)). unfold framing_verdict. split.
  - intros [Hf Hl]. destruct tes as [|t tes'] eqn:Et.
    + destruct cls as [|v vs] eqn:Ec; cbn in Hf.
      * injection Hf as <-. exists (mkWalk (-1) false false). split; [|done]. apply walk_lines_spec. fold cls tes. rewrite Ec, Et. done.
      * destruct (length_value v) as [n|] eqn:Ev; [|done]. cbn in Hf. destruct (forallb _ vs) eqn:Eall; [|done]. injection Hf as <-.
        exists (mkWalk n false false). pose proof (length_value_range v n Ev). split; [|cbn; by rewrite (proj2 (Z.leb_le 0 n)) by lia].
        apply walk_lines_spec. fold cls tes. rewrite Ec, Et. repeat split; try done. apply walk_lengths_first. right. exists v, vs, n. done.
    + destruct (bool_decide (cls = []) && _ && _ && _) eqn:E; [|done]. injection Hf as <-. rewrite !andb_true_iff in E. destruct E as [[[E1 E2] E3] E4].
      apply bool_decide_eq_true in E1, E4. exists (mkWalk (-1) true true). split; [|cbn; by apply negb_true_iff in E2 as ->].
      apply walk_lines_spec. fold cls tes. rewrite E1, Et. repeat split; try done. by apply walk_codings_spec.
  - intros (w & Hw & Hv). apply walk_lines_spec in Hw as (_ & Hc & Ht & Hs). fold cls in Hc. fold tes in Ht, Hs. cbn [clen chunked te_seen orb] in *.
    apply walk_lengths_first in Hc. apply walk_codings_spec in Ht as [Hne Hch]. rewrite Hs in Hv. destruct tes as [|t tes'] eqn:Et.
    + rewrite bool_decide_eq_true_2 in Hv by done. cbn [negb] in Hv. destruct Hc as [[-> Hc]|(v & vs & n & -> & Ev & Eall & Hl & Hc)]; rewrite Hc in Hv; [by injection Hv as <-|].
      pose proof (length_value_range v n Ev). rewrite (proj2 (Z.leb_le 0 n)) in Hv by lia. injection Hv as <-. rewrite Ev. cbn [mbind option_bind]. by rewrite Eall.
    + rewrite bool_decide_eq_false_2 in Hv by done. cbn [negb] in Hv. destruct (chunked w) eqn:Ek; cbn [negb orb] in Hv; [|done].
      destruct (Z.leb_spec 0 (clen w)); cbn [orb] in Hv; [done|]. destruct (is_http10 (request_line h)); [done|]. injection Hv as <-.
      destruct Hc as [[-> _]|(v & vs & n & -> & Ev & _ & _ & Hc)]; [|pose proof (length_value_range v n Ev); lia].
      rewrite Hne, Hch. by rewrite !bool_decide_eq_true_2 by done.
Qed.

(** ** The walk over the lines *)

Section Walk.
Context (buf : list byte) (rl : nat) (max_header max_body : Z).

Definition head_limit (pos : nat) : Prop := 0 < max_header -> Z.of_nat pos <= max_header.

Lemma head_limit_test pos : (0 <? max_header) && (max_header <? Z.of_nat pos) = false <-> head_limit pos.
Proof. unfold head_limit. destruct (Z.ltb_spec 0 max_header), (Z.ltb_spec max_header (Z.of_nat pos)); cbn; split; try done; lia. Qed.

(** Lines that the walk takes, and a part of the next one, from [pos]. *)
Definition open_from (pos : nat) (w : walk) (s : list byte) : Prop :=
  exists ls k w', s = lines ls ++ k /\ Forall line_wf ls /\ (LF ∉ k) /\ walk_lines max_body w ls = Some w' /\ head_limit (pos + length (lines ls)).

Lemma open_part pos w s : head_limit pos -> (LF ∉ s) -> open_from pos w s.
Proof. intros Hl Hs. exists [], s, w. cbn. rewrite Nat.add_0_r. by repeat split. Qed.

Lemma frame_loop_sound fuel pos w s :
  text buf pos (length buf) s -> (length s < fuel)%nat -> (1 <= pos)%nat -> buf !! (pos - 1)%nat = Some LF ->
  exists r, frame_loop fuel buf rl max_header max_body pos w = r /\
    (r = Some (-1) /\ open_from pos w s \/ (exists e, r = Some e /\ refusal max_header max_body e) \/
     exists ls rest w', s = lines ls ++ CRLF ++ rest /\ Forall line_wf ls /\ walk_lines max_body w ls = Some w' /\
       head_limit (pos + length (lines ls)) /\ r = frame_end buf rl (pos + length (lines ls) + 2) max_header max_body w').
Proof.
  revert pos w s. induction fuel as [|fuel IH]; intros pos w s Ht Hf Hpos Hlf; [lia|]. cbn [frame_loop].
  destruct (_ && _) eqn:Ew; [apply andb_prop in Ew as [Ew _]; eexists; split; [done|]; right; left; eexists; split; [done|]; right; right; split; [done | lia]|].
  apply head_limit_test in Ew. rewrite (text_end _ _ _ _ Ht). destruct (bool_decide_reflect (s = [])) as [->|Hn]; [eexists; split; [done|]; left; split; [done|]; apply open_part; [done | apply not_elem_of_nil]|].
  assert (Hbad : exists e, Some frame_err_malformed = Some e /\ refusal max_header max_body e) by (eexists; split; [done | by left]).
  destruct (line_shape_total s) as [rest|l rest Hl Hll|a rest Ha Hla|s Hs].
  - run (blank_line_blank _ _ _ Ht). eexists. split; [done|]. do 2 right. exists [], rest, w. cbn. rewrite Nat.add_0_r. repeat split; [constructor | done].
  - destruct (blank_line_line _ _ _ _ Ht Hl Hll) as (E1 & E2 & E3 & Ht' & Hline). run E1. run E2.
    replace (pos + S (length l) - 1)%nat with (pos + length l)%nat by lia. run E3. change (beq CR CR) with true. cbn [negb].
    replace (S (length l) - 1)%nat with (length l) by lia. destruct (frame_line_spec _ _ _ max_body w Hline) as (r & E4 & Hr). run E4.
    destruct (line_ref max_body w l) as [w'|] eqn:Ew'; [subst r|destruct Hr as (e & -> & He); eexists; split; [done|]; right; left; eauto].
    replace (pos + S (length l) + 1)%nat with (pos + length l + 2)%nat by lia.
    destruct (IH (pos + length l + 2)%nat w' rest Ht') as (r & -> & Hr).
    { rewrite !length_app in Hf. change (length CRLF) with 2%nat in Hf. lia. }
    { lia. }
    { replace (pos + length l + 2 - 1)%nat with (S (pos + length l)) by lia. apply text_skip in Ht. destruct (text_cons _ _ _ _ _ Ht) as (_ & Ht2 & _).
      by destruct (text_cons _ _ _ _ _ Ht2) as (? & _). }
    exists r. split; [done|]. assert (Hp : forall ls, (pos + length l + 2 + length (lines ls) = pos + length (lines (l :: ls)))%nat) by (intros ls; rewrite lines_cons, !length_app; cbn; lia).
    destruct Hr as [[-> (ls & k & w2 & -> & Hls & Hk & Hw & Hlim)]|[He|(ls & rest' & w2 & -> & Hls & Hw & Hlim & ->)]]; [|right; by left |].
    { left. split; [done|]. exists (l :: ls), k, w2. rewrite Hp in Hlim. split; [by rewrite lines_cons, <- !app_assoc|]. split; [by constructor|]. split; [done|]. split; [cbn [walk_lines]; by rewrite Ew' | done]. }
    do 2 right. exists (l :: ls), rest', w2. assert (El : length (lines (l :: ls)) = (length l + 2 + length (lines ls))%nat) by (rewrite lines_cons, !length_app; cbn; lia).
    rewrite El. replace (pos + (length l + 2 + length (lines ls)))%nat with (pos + length l + 2 + length (lines ls))%nat by lia.
    split; [by rewrite lines_cons, <- !app_assoc|]. split; [by constructor|]. split; [cbn [walk_lines]; by rewrite Ew'|]. done.
  - destruct (bare_line _ _ _ _ Ht Ha Hla) as (E1 & E2 & Hb). run E1. run E2. destruct Hb as [->|(c & k & -> & Hc & Hcr)].
    + cbn [length]. rewrite Nat.add_0_r. run Hlf. change (beq LF CR) with false. cbn [negb]. eauto.
    + replace (pos + S k - 1)%nat with (pos + k)%nat by lia. run Hc. rewrite Hcr. cbn [negb]. eauto.
  - destruct (part_line _ _ _ Ht Hn Hs) as [E1|[E1 E2]]; run E1; [|run E2]; eexists; (split; [done|]); left; (split; [done|]); by apply open_part.
Qed.

Lemma frame_loop_step fuel pos w l t w' :
  text buf pos (length buf) (l ++ CRLF ++ t) -> line_wf l -> line_ref max_body w l = Some w' -> head_limit pos ->
  frame_loop (S fuel) buf rl max_header max_body pos w = frame_loop fuel buf rl max_header max_body (pos + length l + 2) w' /\
  text buf (pos + length l + 2) (length buf) t.
Proof.
  intros Ht [Hl Hll] Hw Hlim. cbn [frame_loop]. rewrite (proj2 (head_limit_test pos)) by done. rewrite (text_end _ _ _ _ Ht), bool_decide_eq_false_2 by (by destruct l).
  destruct (blank_line_line _ _ _ _ Ht Hl Hll) as (E1 & E2 & E3 & Ht' & Hline). run E1. run E2.
  replace (pos + S (length l) - 1)%nat with (pos + length l)%nat by lia. run E3. change (beq CR CR) with true. cbn [negb].
  replace (S (length l) - 1)%nat with (length l) by lia. destruct (frame_line_spec _ _ _ max_body w Hline) as (r & E4 & Hr). run E4.
  rewrite Hw in Hr. subst r. by replace (pos + S (length l) + 1)%nat with (pos + length l + 2)%nat by lia.
Qed.

Lemma frame_loop_complete ls : Forall line_wf ls -> forall fuel pos w w' rest,
  text buf pos (length buf) (lines ls ++ CRLF ++ rest) -> (length (lines ls) < fuel)%nat -> walk_lines max_body w ls = Some w' ->
  head_limit (pos + length (lines ls)) ->
  frame_loop fuel buf rl max_header max_body pos w = frame_end buf rl (pos + length (lines ls) + 2) max_header max_body w'.
Proof.
  induction 1 as [|l ls Hl _ IH]; intros fuel pos w w' rest Ht Hf Hw Hlim; (destruct fuel as [|fuel]; [lia|]).
  - injection Hw as <-. cbn [frame_loop]. cbn in Hlim. rewrite Nat.add_0_r in Hlim. rewrite (proj2 (head_limit_test pos)) by done.
    rewrite (text_end _ _ _ _ Ht), bool_decide_eq_false_2 by done. run (blank_line_blank _ _ _ Ht). cbn. by rewrite Nat.add_0_r.
  - cbn [walk_lines] in Hw. destruct (line_ref max_body w l) as [w1|] eqn:E; [|done]. cbn [mbind option_bind] in Hw.
    assert (El : length (lines (l :: ls)) = (length l + 2 + length (lines ls))%nat) by (rewrite lines_cons, !length_app; cbn; lia).
    rewrite lines_cons, <- !app_assoc in Ht. destruct (frame_loop_step fuel pos w l _ w1 Ht Hl E) as [-> Ht']; [intros Hm; specialize (Hlim Hm); lia|].
    rewrite (IH fuel _ w1 w' rest Ht') by (done || (try intros Hm; try specialize (Hlim Hm)); lia). f_equal. lia.
Qed.

(** A head that has not fully arrived. *)
Lemma frame_loop_partial ls : Forall line_wf ls -> forall fuel pos w w' s tail,
  text buf pos (length buf) s -> s ++ tail = lines ls ++ CRLF -> tail <> [] -> (length s < fuel)%nat -> walk_lines max_body w ls = Some w' ->
  head_limit (pos + length (lines ls)) -> frame_loop fuel buf rl max_header max_body pos w = Some (-1).
Proof.
  intros Hls fuel pos w w' s tail Ht E Htl Hf Hw Hlim.
  assert (Hcut : forall f p v t, text buf p (length buf) t -> LF ∉ t -> head_limit p -> frame_loop (S f) buf rl max_header max_body p v = Some (-1)).
  { intros f p v t Ht' Hs Hp. cbn [frame_loop]. rewrite (proj2 (head_limit_test p)) by done. rewrite (text_end _ _ _ _ Ht').
    destruct (bool_decide_reflect (t = [])) as [->|Hn]; [done|]. destruct (part_line _ _ _ Ht' Hn Hs) as [E1|[E1 E2]]; run E1; [done|]. by run E2. }
  revert fuel pos w s Ht E Hf Hw Hlim. induction Hls as [|l ls Hl _ IH]; intros fuel pos w s Ht E Hf Hw Hlim; (destruct fuel as [|fuel]; [lia|]).
  - destruct (cut_line [] s tail) as [Hs _]; [done | done | apply not_elem_of_nil|]. apply (Hcut fuel pos w s Ht Hs). cbn in Hlim. by rewrite Nat.add_0_r in Hlim.
  - cbn [walk_lines] in Hw. destruct (line_ref max_body w l) as [w1|] eqn:E1; [|done]. cbn [mbind option_bind] in Hw.
    assert (El : length (lines (l :: ls)) = (length l + 2 + length (lines ls))%nat) by (rewrite lines_cons, !length_app; cbn; lia).
    rewrite lines_cons, <- !app_assoc in E. destruct (cut_in_line _ _ _ _ E (proj2 Hl)) as [(k & -> & E')|[Hs _]];
      [|apply (Hcut fuel pos w s Ht Hs); intros Hm; specialize (Hlim Hm); lia].
    destruct (frame_loop_step fuel pos w l k w1 Ht Hl E1) as [-> Ht']; [intros Hm; specialize (Hlim Hm); lia|].
    apply (IH fuel _ w1 k Ht' E'); [rewrite !length_app in Hf; change (length CRLF) with 2%nat in Hf; lia | done | intros Hm; specialize (Hlim Hm); lia].
Qed.
End Walk.

(** ** At the blank line *)

Lemma is_http10_iff l : is_http10 l = true <-> exists p, l = p ++ bytes_of " HTTP/1.0".
Proof.
  unfold is_http10. rewrite bool_decide_eq_true. split.
  - intros E. exists (take (length l - 9) l). rewrite <- E. by rewrite take_drop.
  - intros [p ->]. rewrite length_app. apply drop_app_length'. cbn. lia.
Qed.

Lemma http10_spec buf e l t : text buf 0 e (l ++ CRLF ++ t) -> request_line_is_http10 buf (S (length l)) = Some (is_http10 l).
Proof.
  intros Ht. assert (E1 : buf !! length l = Some CR) by (apply text_skip in Ht; by destruct (text_cons _ _ _ _ _ Ht) as (? & _)).
  unfold request_line_is_http10, line_stop. run E1. change (beq CR CR) with true. cbn match.
  assert (Hno : (length l < 9)%nat -> is_http10 l = false).
  { intros H. apply not_true_iff_false. rewrite is_http10_iff. intros [p ->]. rewrite length_app in H. cbn in H. lia. }
  destruct (Nat.ltb_spec (length l) 9); [by rewrite Hno|].
  pose proof (take_drop (length l - 9) l) as El. set (p := take (length l - 9) l) in *. assert (Hp : length p = (length l - 9)%nat) by (unfold p; rewrite length_take; lia).
  assert (Hq : length (drop (length l - 9) l) = 9%nat) by (rewrite length_drop; lia). unfold is_http10.
  destruct (drop (length l - 9) l) as [|s q] eqn:Eq; [done|]. cbn [length] in Hq. assert (Hq' : length q = 8%nat) by lia.
  rewrite <- El, <- app_assoc in Ht. apply text_skip in Ht. rewrite Hp in Ht. cbn [app] in Ht. destruct (text_cons _ _ _ _ _ Ht) as (Es & Ht8 & _).
  assert (Ev : view buf (length l - 8) 8 = Some q) by (pose proof (text_view _ _ _ _ _ Ht8) as E; rewrite Hq' in E; by replace (length l - 8)%nat with (S (0 + (length l - 9))) by lia).
  destruct (exists_last (l := q)) as (q' & c & Eqc); [by destruct q|]. assert (Hq8 : length q' = 7%nat) by (rewrite Eqc, length_app in Hq'; cbn in Hq'; lia).
  assert (Ec : buf !! (length l - 1)%nat = Some c).
  { rewrite Eqc, <- app_assoc in Ht8. apply text_skip in Ht8. destruct (text_cons _ _ _ _ _ Ht8) as (E & _). rewrite Hq8 in E.
    by replace (length l - 1)%nat with (S (0 + (length l - 9)) + 7)%nat by lia. }
  run Ec. replace (length l - 9)%nat with (0 + (length l - 9))%nat by lia.
  destruct (beq c (byte_of_Z 48)) eqn:E48; cbn [negb].
  - run Es. destruct (beq s SP) eqn:Esp; cbn [negb].
    + run Ev. f_equal. apply beq_true in Esp as ->. apply bool_decide_ext. change (bytes_of " HTTP/1.0") with (SP :: bytes_of "HTTP/1.0"). split; congruence.
    + f_equal. symmetry. apply bool_decide_eq_false. apply beq_false in Esp. change (bytes_of " HTTP/1.0") with (SP :: bytes_of "HTTP/1.0"). congruence.
  - f_equal. symmetry. apply bool_decide_eq_false. apply beq_false in E48. intros E. apply E48.
    assert (E9 : q = bytes_of "HTTP/1." ++ [byte_of_Z 48]) by (change (bytes_of " HTTP/1.0") with (SP :: bytes_of "HTTP/1." ++ [byte_of_Z 48]) in E; congruence).
    rewrite Eqc in E9. apply app_inj_2 in E9 as [_ E9]; [|done]. congruence.
Qed.

Definition body_shape (max_header : Z) (f : framing) (body : list byte) : Prop :=
  match f with NoBody => body = [] | Fixed n => Z.of_nat (length body) = n | Chunked => chunked_body max_header body end.

(** The walk of a head: a length is in range, and chunked was seen in a line. *)
Lemma walk_ok max_body ls w :
  walk_lines max_body (mkWalk (-1) false false) ls = Some w -> -1 <= clen w <= max_declared /\ (te_seen w = false -> chunked w = false).
Proof.
  intros H. apply walk_lines_spec in H as (_ & Hc & Hk & Ht). cbn [clen chunked te_seen orb] in *. split.
  - apply walk_lengths_first in Hc as [[_ ->]|(v & vs & n & _ & Ev & _ & _ & ->)]; [by vm_compute|]. pose proof (length_value_range v n Ev). lia.
  - rewrite Ht. intros E. apply negb_false_iff, bool_decide_eq_true in E. rewrite E in Hk. by injection Hk as <-.
Qed.

Section End_.
Context (buf l t : list byte) (bs : nat) (max_header max_body : Z) (w : walk).
Context (Hfits : buf_fits buf) (Hl : exists t', text buf 0 (length buf) (l ++ CRLF ++ t')) (Ht : text buf bs (length buf) t).
Context (Hc : -1 <= clen w <= max_declared) (Hk : te_seen w = false -> chunked w = false).

Definition roomy (f : framing) : Prop := f = Chunked -> 0 < max_body -> Z.of_nat (length buf) - Z.of_nat bs <= max_body.

(** [frame_end] by framing_verdict. *)
Lemma frame_end_cases :
  frame_end buf (S (length l)) bs max_header max_body w =
  match framing_verdict l w with
  | None => Some frame_err_malformed
  | Some Chunked =>
      if (0 <? max_body) && (max_body <? Z.of_nat (length buf) - Z.of_nat bs) then Some frame_err_body
      else (fun r => match r with inl n => n | inr code => chunk_error code end) <$> chunk_loop (S (length buf)) buf max_header bs
  | Some (Fixed n) => Some (if Z.of_nat bs + n <=? Z.of_nat (length buf) then Z.of_nat bs + n else -1)
  | Some NoBody => Some (Z.of_nat bs)
  end.
Proof.
  destruct Hl as [t' Ht']. unfold frame_end, framing_verdict, frame_chunked_total. rewrite (http10_spec _ _ _ _ Ht'). pose proof (text_length _ _ _ _ Ht) as Hlen.
  destruct (te_seen w) eqn:Et.
  - destruct (chunked w); cbn [negb orb mbind option_bind]; [|done]. destruct (0 <=? clen w) eqn:E0; cbn [orb mbind option_bind]; [done|].
    destruct (is_http10 l); [done|]. destruct (_ && _); cbn [mbind option_bind]; [done|]. by destruct (chunk_loop _ _ _ _).
  - cbn [mbind option_bind]. rewrite (Hk eq_refl). destruct (Z.leb_spec 0 (clen w)); [|done].
    rewrite i32_small; [done|]. rewrite max_declared_val in Hc. unfold buf_fits in Hfits. lia.
Qed.

Lemma frame_end_sound :
  exists r, frame_end buf (S (length l)) bs max_header max_body w = Some r /\
    (r = -1 /\ (exists f, framing_verdict l w = Some f /\ roomy f /\ match f with NoBody => False | Fixed n => Z.of_nat (length t) < n | Chunked => chunked_open max_header t end) \/
     refusal max_header max_body r \/
     exists f body rest, framing_verdict l w = Some f /\ t = body ++ rest /\ body_shape max_header f body /\ roomy f /\ r = Z.of_nat bs + Z.of_nat (length body)).
Proof.
  rewrite frame_end_cases. pose proof (text_length _ _ _ _ Ht) as Hlen. destruct (framing_verdict l w) as [[|n|]|] eqn:Ev; [| | |eexists; split; [done|]; right; left; by left].
  - eexists. split; [done|]. do 2 right. exists NoBody, [], t. repeat split; [done | cbn; lia].
  - eexists. split; [done|]. destruct (Z.leb_spec (Z.of_nat bs + n) (Z.of_nat (length buf))); [|left; split; [done|]; exists (Fixed n); repeat split; [done | lia]]. do 2 right.
    assert (0 <= n) by (unfold framing_verdict in Ev; destruct (te_seen w); [by destruct (_ || _)|]; destruct (Z.leb_spec 0 (clen w)); [injection Ev as <-; lia | done]).
    assert (Hn : length (take (Z.to_nat n) t) = Z.to_nat n) by (rewrite length_take; lia).
    exists (Fixed n), (take (Z.to_nat n) t), (drop (Z.to_nat n) t). cbn [body_shape]. rewrite take_drop, Hn. repeat split; [lia | done | lia].
  - destruct (_ && _) eqn:Eb; [apply andb_prop in Eb as [Eb _]; eexists; split; [done|]; right; left; right; left; split; [done | lia]|].
    assert (Hroom : roomy Chunked) by (intros _ Hm; apply andb_false_iff in Eb as [?|?]; lia).
    destruct (chunk_loop_sound buf max_header Hfits (S (length buf)) bs t Ht ltac:(lia)) as (r & -> & Hr). cbn [fmap option_fmap option_map]. eexists. split; [done|].
    destruct Hr as [[-> Ho]|[->|[[-> Hm]|(b & rest & -> & Hb & ->)]]]; [left; split; [done|]; by exists Chunked | right; left; by left | right; left; right; by right|]. do 2 right.
    by exists Chunked, b, rest.
Qed.

Lemma frame_end_complete f body rest :
  framing_verdict l w = Some f -> t = body ++ rest -> body_shape max_header f body -> roomy f ->
  frame_end buf (S (length l)) bs max_header max_body w = Some (Z.of_nat bs + Z.of_nat (length body)).
Proof.
  intros Ev Et Hb Hr. rewrite frame_end_cases, Ev. pose proof Ht as Ht2. rewrite Et in Ht2. pose proof (text_length _ _ _ _ Ht2) as Hlen. rewrite length_app in Hlen. destruct f as [|n|]; cbn [body_shape] in Hb.
  - subst body. cbn. f_equal. lia.
  - subst n. by rewrite (proj2 (Z.leb_le _ _)) by lia.
  - destruct (_ && _) eqn:E; [apply andb_prop in E as [? ?]; specialize (Hr eq_refl ltac:(lia)); lia|].
    rewrite (chunk_loop_complete buf max_header Hfits body Hb (S (length buf)) bs rest Ht2) by lia. done.
Qed.

Lemma frame_end_partial f body tail :
  framing_verdict l w = Some f -> t ++ tail = body -> tail <> [] -> body_shape max_header f body -> roomy f ->
  frame_end buf (S (length l)) bs max_header max_body w = Some (-1).
Proof.
  intros Ev <- Htl Hb Hr. rewrite frame_end_cases, Ev. pose proof (text_length _ _ _ _ Ht) as Hlen. assert (length tail <> O) by (by destruct tail).
  destruct f as [|n|]; cbn [body_shape] in Hb.
  - apply app_eq_nil in Hb as [_ ->]. done.
  - rewrite length_app in Hb. by rewrite (proj2 (Z.leb_gt _ _)) by lia.
  - destruct (_ && _) eqn:E; [apply andb_prop in E as [? ?]; specialize (Hr eq_refl ltac:(lia)); lia|].
    rewrite (chunk_loop_partial buf max_header Hfits _ Hb (S (length buf)) bs t tail Ht eq_refl Htl) by lia. done.
Qed.
End End_.

(** ** The whole head *)

Lemma length_head_bytes h : length (head_bytes h) = (length (request_line h) + 2 + length (lines (fields h)) + 2)%nat.
Proof. unfold head_bytes. rewrite !length_app. change (length CRLF) with 2%nat. lia. Qed.

Lemma text_whole buf : text buf 0 (length buf) buf.
Proof. by apply text_suffix; [|lia]. Qed.

Section Frame.
Context (buf : list byte) (max_header max_body : Z) (Hfits : buf_fits buf).

Let frame := frame_request_length_lim_idx buf max_header max_body.

(** The framer, once it has the request line. *)
Lemma frame_first_line l s :
  buf = l ++ CRLF ++ s -> LF ∉ l -> (4 <= length buf)%nat ->
  frame = frame_loop (S (length buf)) buf (S (length l)) max_header max_body (length l + 2) (mkWalk (-1) false false) /\
  text buf (length l + 2) (length buf) s.
Proof.
  intros Eb Hl Hlen. unfold frame, frame_request_length_lim_idx. rewrite (proj2 (Nat.ltb_ge _ _)) by done.
  pose proof (text_whole buf) as Ht. rewrite Eb in Ht at 3. run (find_lf_spec _ _ _ (text_whole buf)).
  assert (Ef : find_byte LF buf = Some (S (length l))).
  { rewrite Eb. replace (l ++ CRLF ++ s) with ((l ++ [CR]) ++ LF :: s) by (by rewrite <- app_assoc). rewrite find_byte_app, length_app; [cbn [length]; f_equal; lia|].
    apply not_elem_of_app. split; [done|]. apply not_elem_of_cons. split; [apply LF_not_CR | apply not_elem_of_nil]. }
  rewrite Ef. pose proof (text_skip _ _ _ _ _ Ht) as Ht1. destruct (text_cons _ _ _ _ _ Ht1) as (E1 & Ht2 & _). cbn [Nat.add] in E1. run E1.
  change (beq CR CR) with true. cbn [negb]. replace (length l + 2)%nat with (S (S (length l))) by lia. split; [done|].
  destruct (text_cons _ _ _ _ _ Ht2) as (_ & Ht3 & _). exact Ht3.
Qed.

Lemma frame_sound :
  exists r, frame = Some r /\
    (r = -1 /\ unfinished max_header max_body buf \/ refusal max_header max_body r \/
     exists h body rest, buf = head_bytes h ++ body ++ rest /\ request max_header max_body h body /\ room max_body buf h /\
       r = Z.of_nat (length (head_bytes h)) + Z.of_nat (length body)).
Proof.
  destruct (decide (4 <= length buf)%nat) as [Hlen|Hlen];
    [|exists (-1); split; [unfold frame, frame_request_length_lim_idx; by rewrite (proj2 (Nat.ltb_lt _ _)) by lia | left; split; [done|]; left; left; lia]].
  destruct (find_byte LF buf) as [k|] eqn:Ef.
  2:{ exists (-1). unfold frame, frame_request_length_lim_idx. rewrite (proj2 (Nat.ltb_ge _ _)) by done. run (find_lf_spec _ _ _ (text_whole buf)). rewrite Ef. split; [done|]. left. split; [done|]. left. right. left. by apply find_byte_None. }
  destruct (proj1 (find_byte_Some LF buf k) Ef) as (a & s & Eb & Ha & Hk).
  assert (Hbad : frame = Some frame_err_malformed -> exists r, frame = Some r /\ (r = -1 /\ unfinished max_header max_body buf \/ refusal max_header max_body r \/ exists h body rest, buf = head_bytes h ++ body ++ rest /\
    request max_header max_body h body /\ room max_body buf h /\ r = Z.of_nat (length (head_bytes h)) + Z.of_nat (length body))).
  { intros E. eexists. split; [exact E|]. right. left. by left. }
  pose proof (find_lf_spec _ _ _ (text_whole buf)) as Elf. rewrite Ef, <- Hk in Elf.
  destruct a as [|c l _] using rev_ind.
  { apply Hbad. unfold frame, frame_request_length_lim_idx. rewrite (proj2 (Nat.ltb_ge _ _)) by done. by run Elf. }
  apply not_elem_of_app in Ha as [Ha _]. rewrite <- app_assoc in Eb. cbn [app] in Eb. rewrite length_app, Nat.add_1_r in Elf.
  destruct (decide (c = CR)) as [->|Hc].
  2:{ apply Hbad. unfold frame, frame_request_length_lim_idx. rewrite (proj2 (Nat.ltb_ge _ _)) by done. run Elf.
      pose proof (text_whole buf) as Ht. rewrite Eb in Ht at 3. apply text_skip in Ht. destruct (text_cons _ _ _ _ _ Ht) as (E1 & _). cbn [Nat.add] in E1. run E1.
      by rewrite (proj2 (beq_false c CR)). }
  destruct (frame_first_line l s Eb Ha Hlen) as [-> Ht]. pose proof (text_length _ _ _ _ Ht) as Hls.
  assert (Hl : exists t', text buf 0 (length buf) (l ++ CRLF ++ t')) by (exists s; change (CRLF ++ s) with (CR :: LF :: s); rewrite <- Eb; apply text_whole).
  destruct (frame_loop_sound buf (S (length l)) max_header max_body (S (length buf)) (length l + 2) (mkWalk (-1) false false) s Ht) as (r & -> & Hr); [lia | lia | |].
  { replace (length l + 2 - 1)%nat with (S (length l)) by lia. destruct Hl as [t' Hl]. apply text_skip in Hl. destruct (text_cons _ _ _ _ _ Hl) as (_ & Hl2 & _).
    by destruct (text_cons _ _ _ _ _ Hl2) as (? & _). }
  destruct Hr as [[-> (ls & part & w & Es & Hwf & Hlk & Hw & Hlim)]|[(e & -> & He)|(ls & rest & w & Es & Hwf & Hw & Hlim & ->)]]; [|eauto|].
  { eexists. split; [done|]. left. split; [done|]. left. do 2 right. exists l, ls, part. split; [by rewrite Eb, Es|]. repeat split; try done; [by eapply walk_stand..|].
    intros Hm. specialize (Hlim Hm). rewrite !length_app. change (length CRLF) with 2%nat. lia. }
  assert (Htb : text buf (length l + 2 + length (lines ls) + 2) (length buf) rest) by (rewrite Es in Ht; by apply text_skip, text_skip in Ht).
  destruct (walk_ok _ _ _ Hw) as [Hc Hk']. destruct (frame_end_sound buf l rest _ max_header max_body w Hfits Hl Htb Hc Hk') as (r & -> & Hr).
  exists r. split; [done|]. set (h := mkMsgHead l ls).
  assert (Hrm : forall f, framing_of h = Some f -> roomy buf (length l + 2 + length (lines ls) + 2) max_body f -> room max_body buf h).
  { intros f Hf Hroom Hch Hm. rewrite Hf in Hch. injection Hch as ->. specialize (Hroom eq_refl Hm). rewrite length_head_bytes. cbn [h request_line fields]. lia. }
  assert (Hhs : 0 < max_header -> Z.of_nat (length (head_bytes h)) - 2 <= max_header) by (intros Hm; specialize (Hlim Hm); rewrite length_head_bytes; cbn [h request_line fields]; lia).
  destruct Hr as [[-> (f & Ev & Hroom & Ho)]|[He|(f & body & rest' & Ev & -> & Hb & Hroom & ->)]]; [|right; by left|];
    (assert (Hf : framing_of h = Some f /\ within_body max_body f) by (apply framing_walk; eauto)); destruct Hf as [Hf Hin].
  { left. split; [done|]. right. exists h, rest, f. split; [unfold head_bytes; cbn [h request_line fields]; rewrite Eb, Es, <- !app_assoc; done|].
    split; [done|]. split; [done|]. split; [done|]. split; [by apply (Hrm f)|]. by destruct f. }
  do 2 right.
  exists h, body, rest'. rewrite length_head_bytes. cbn [h request_line fields]. split; [unfold head_bytes; cbn [h request_line fields]; rewrite Eb, Es, <- !app_assoc; done|].
  split; [|split; [|lia]].
  - split; [done | done|]. exists f. split; [done|]. by destruct f.
  - by apply (Hrm f).
Qed.

Lemma frame_walk h body :
  request max_header max_body h body ->
  exists f w, framing_of h = Some f /\ walk_lines max_body (mkWalk (-1) false false) (fields h) = Some w /\ framing_verdict (request_line h) w = Some f /\
    body_shape max_header f body /\ head_limit max_header (length (request_line h) + 2 + length (lines (fields h))).
Proof.
  intros [Hwf Hs (f & Hf & Hb)]. destruct (proj1 (framing_walk max_body h f)) as (w & Hw & Hv).
  { split; [done|]. destruct f; cbn in Hb |- *; tauto. }
  exists f, w. repeat split; try done; [destruct f; cbn in Hb |- *; tauto|]. intros Hm. specialize (Hs Hm). rewrite length_head_bytes in Hs. lia.
Qed.

Lemma frame_complete h body rest :
  buf = head_bytes h ++ body ++ rest -> request max_header max_body h body -> room max_body buf h ->
  frame = Some (Z.of_nat (length (head_bytes h)) + Z.of_nat (length body)).
Proof.
  intros Eb Hr Hroom. destruct (frame_walk h body Hr) as (f & w & Hf & Hw & Hv & Hb & Hlim). destruct Hr as [[Hl Hwf] _ _].
  unfold head_bytes in Eb. rewrite <- !app_assoc in Eb. assert (Hlen : (4 <= length buf)%nat) by (rewrite Eb, !length_app; change (length CRLF) with 2%nat; lia).
  destruct (frame_first_line _ _ Eb Hl Hlen) as [-> Ht]. pose proof (text_length _ _ _ _ Ht) as Hls. rewrite !length_app in Hls.
  rewrite (frame_loop_complete buf _ max_header max_body (fields h) Hwf (S (length buf)) _ _ w (body ++ rest) Ht) by (done || lia).
  apply text_skip, text_skip in Ht. destruct (walk_ok _ _ _ Hw) as [Hc Hk].
  rewrite (frame_end_complete buf (request_line h) (body ++ rest) _ max_header max_body w Hfits) with (f := f) (body := body) (rest := rest); try done.
  - rewrite length_head_bytes. do 2 f_equal.
  - eexists. rewrite <- Eb. apply text_whole.
  - intros -> Hm. specialize (Hroom Hf Hm). rewrite length_head_bytes in Hroom. lia.
Qed.

Lemma frame_partial h body tail :
  buf ++ tail = head_bytes h ++ body -> tail <> [] -> request max_header max_body h body -> room max_body buf h -> frame = Some (-1).
Proof.
  intros Eb Htl Hr Hroom. destruct (frame_walk h body Hr) as (f & w & Hf & Hw & Hv & Hb & Hlim). destruct Hr as [[Hl Hwf] _ _].
  unfold head_bytes in Eb. rewrite <- !app_assoc in Eb. destruct (decide (4 <= length buf)%nat) as [Hlen|Hlen];
    [|unfold frame, frame_request_length_lim_idx; by rewrite (proj2 (Nat.ltb_lt _ _)) by lia].
  destruct (cut_in_line _ _ _ _ Eb Hl) as [(s & Es & E')|[Hs _]].
  2:{ unfold frame, frame_request_length_lim_idx. rewrite (proj2 (Nat.ltb_ge _ _)) by done. run (find_lf_spec _ _ _ (text_whole buf)).
      by rewrite (proj2 (find_byte_None LF buf) Hs). }
  destruct (frame_first_line _ _ Es Hl Hlen) as [-> Ht]. pose proof (text_length _ _ _ _ Ht) as Hls. rewrite app_assoc in E'.
  destruct (cut_at _ _ _ _ E') as [(k & -> & E2)|(k & Ek & Hk)];
    [|by apply (frame_loop_partial buf _ max_header max_body (fields h) Hwf (S (length buf)) _ _ w s k Ht (eq_sym Ek) Hk ltac:(lia) Hw)].
  rewrite <- app_assoc in Ht. rewrite !length_app in Hls.
  rewrite (frame_loop_complete buf _ max_header max_body (fields h) Hwf (S (length buf)) _ _ w k Ht) by (done || lia).
  apply text_skip, text_skip in Ht. destruct (walk_ok _ _ _ Hw) as [Hc Hk].
  apply (frame_end_partial buf (request_line h) k _ max_header max_body w Hfits) with (f := f) (body := body) (tail := tail); try done.
  - eexists. rewrite <- Es. apply text_whole.
  - intros -> Hm. specialize (Hroom Hf Hm). rewrite length_head_bytes in Hroom. lia.
Qed.
End Frame.

(** [buf] begins with a request of [n] bytes. *)
Definition begins (max_header max_body : Z) (buf : list byte) (n : Z) : Prop :=
  exists h body rest, buf = head_bytes h ++ body ++ rest /\ request max_header max_body h body /\ room max_body buf h /\
    n = Z.of_nat (length (head_bytes h)) + Z.of_nat (length body).

(** C2: The framer decides the requests of RFC 9112, without reading outside the buffer. It
    answers [n] if and only if the buffer begins with a request of [n] bytes: a head of
    CRLF-ended lines, then no body, as many bytes as its one Content-Length says, or a
    chunked body with well-formed sizes, extensions and trailers. Anything with both fields,
    differing lengths, chunked not last, white space before a colon or a bare LF is no
    request. It asks for more, -1, whenever a request can still come of the buffer, so what
    is refused no further bytes would repair; and only while the buffer is [unfinished]: a
    head whose complete lines can all stand and are within the limit, or a complete and
    legal head behind which every complete part of the body is legal. So a complete head
    that is no request's, a bad line, size line, chunk end or trailer, or a size over a
    limit is refused at once and never waited on. The two refusals for size only come under
    a limit that is set. *)
Theorem framer_refines_rfc9112 buf max_header max_body :
  buf_fits buf ->
  exists r, frame_request_length_lim_idx buf max_header max_body = Some r /\
    (r = -1 \/ refusal max_header max_body r \/ 0 <= r <= Z.of_nat (length buf)) /\
    (forall n, 0 <= n -> r = n <-> begins max_header max_body buf n) /\
    (r = -1 -> unfinished max_header max_body buf) /\
    (forall h body tail, buf ++ tail = head_bytes h ++ body -> tail <> [] -> request max_header max_body h body -> room max_body buf h -> r = -1).
Proof.
  intros Hfits. destruct (frame_sound buf max_header max_body Hfits) as (r & E & Hr). exists r. split; [done|].
  assert (Hneg : refusal max_header max_body r -> r < -1) by apply refusal_neg.
  split; [|split; [|split]].
  - destruct Hr as [[? _]|[?|(h & body & rest & Eb & _ & _ & ->)]]; [by left | right; by left|]. do 2 right. rewrite Eb, !length_app. lia.
  - intros n Hn. split.
    + intros <-. destruct Hr as [[? _]|[?|(h & body & rest & Eb & Hq & Hroom & Er)]]; [lia | specialize (Hneg ltac:(done)); lia|].
      by exists h, body, rest.
    + intros (h & body & rest & Eb & Hq & Hroom & ->). pose proof (frame_complete buf max_header max_body Hfits h body rest Eb Hq Hroom). congruence.
  - intros ->. destruct Hr as [[_ ?]|[?|(h & body & rest & _ & _ & _ & Er)]]; [done | specialize (Hneg ltac:(done)); lia | lia].
  - intros h body tail Eb Htl Hq Hroom. pose proof (frame_partial buf max_header max_body Hfits h body tail Eb Htl Hq Hroom). congruence.
Qed.

Definition post_example : list byte := bytes_of "POST /a HTTP/1.1" ++ CRLF ++ bytes_of "Content-Length: 5" ++ CRLF ++ CRLF ++ bytes_of "helloGET".

Lemma framer_refines_rfc9112_witness :
  exists r, frame_request_length_lim_idx post_example 0 0 = Some r /\
    (r = -1 \/ refusal 0 0 r \/ 0 <= r <= Z.of_nat (length post_example)) /\
    (forall n, 0 <= n -> r = n <-> begins 0 0 post_example n) /\
    (r = -1 -> unfinished 0 0 post_example) /\
    (forall h body tail, post_example ++ tail = head_bytes h ++ body -> tail <> [] -> request 0 0 h body -> room 0 post_example h -> r = -1).
Proof. apply (framer_refines_rfc9112 post_example 0 0). by vm_compute. Defined.

(** A head with both framing fields is waited on until its blank line, and refused there. *)
Lemma both_fields_refused_at_blank_line :
  let head := bytes_of "POST / HTTP/1.1" ++ CRLF ++ bytes_of "Content-Length: 5" ++ CRLF ++ bytes_of "Transfer-Encoding: chunked" ++ CRLF in
  frame_request_length_lim_idx head 0 0 = Some (-1) /\ frame_request_length_lim_idx (head ++ CRLF) 0 0 = Some frame_err_malformed.
Proof. by vm_compute. Qed.

(** ** Requests of a stream *)

Section Stream.
Context (max_header : Z).

(** The requests at the front of a buffer, and what is kept of it; [None] when the
    connection is refused. *)
Fixpoint take_requests (fuel : nat) (buf : list byte) : list (list byte) * option (list byte) :=
  match fuel with
  | O => ([], Some buf)
  | S f =>
      match frame_request_length_lim_idx buf max_header 0 with
      | None => ([], None)
      | Some r =>
          if r =? -1 then ([], Some buf)
          else if r <? 0 then ([], None)
          else let '(rs, k) := take_requests f (drop (Z.to_nat r) buf) in (take (Z.to_nat r) buf :: rs, k)
      end
  end.

(** Bytes arrive: what the reader has handed on so far, and what it keeps. *)
Definition arrive (st : list (list byte) * option (list byte)) (chunk : list byte) : list (list byte) * option (list byte) :=
  match st with
  | (rs, Some kept) => let '(rs', k) := take_requests (length (kept ++ chunk)) (kept ++ chunk) in (rs ++ rs', k)
  | (rs, None) => (rs, None)
  end.

Definition all_requests (buf : list byte) := take_requests (length buf) buf.

Lemma frame_cases buf : buf_fits buf ->
  exists r, frame_request_length_lim_idx buf max_header 0 = Some r /\
    (r = -1 \/ (r < -1 /\ forall ext n, buf_fits (buf ++ ext) -> ~ begins max_header 0 (buf ++ ext) n) \/
     (4 <= r <= Z.of_nat (length buf) /\ forall ext, buf_fits (buf ++ ext) -> frame_request_length_lim_idx (buf ++ ext) max_header 0 = Some r)).
Proof.
  intros Hfits. assert (Hroom : forall b h, room 0 b h) by (intros b h _ ?; lia).
  destruct (frame_sound buf max_header 0 Hfits) as (r & E & Hr). exists r. split; [done|]. destruct Hr as [[-> _]|[Hr|(h & body & rest & Eb & Hq & _ & ->)]]; [by left| |].
  - right. left. split; [by eapply refusal_neg|]. intros ext n Hfe (h & body & rest & Eb & Hq & _ & _). rewrite app_assoc in Eb.
    destruct (cut_at _ _ _ _ Eb) as [(k & Ek & _)|(k & Ek & Hk)].
    + rewrite <- app_assoc in Ek. pose proof (frame_complete buf max_header 0 Hfits h body k Ek Hq (Hroom _ _)) as E'. rewrite E in E'. injection E' as ->.
      apply refusal_neg in Hr. lia.
    + pose proof (frame_partial buf max_header 0 Hfits h body k (eq_sym Ek) Hk Hq (Hroom _ _)) as E'. rewrite E in E'. injection E' as ->.
      by apply refusal_neg in Hr.
  - do 2 right. split; [rewrite Eb, !length_app, length_head_bytes; lia|]. intros ext Hfe.
    apply (frame_complete (buf ++ ext) max_header 0 Hfe h body (rest ++ ext)); [by rewrite Eb, <- !app_assoc | done | apply Hroom].
Qed.

Lemma take_requests_fuel f g buf : buf_fits buf -> (length buf <= f)%nat -> (length buf <= g)%nat -> take_requests f buf = take_requests g buf.
Proof.
  revert g buf. induction f as [|f IH]; intros g buf Hfits Hf Hg.
  - destruct buf; [|cbn in Hf; lia]. destruct g; [done|]. cbn. done.
  - destruct g as [|g]; [destruct buf; [done | cbn in Hg; lia]|]. cbn [take_requests]. destruct (frame_cases buf Hfits) as (r & -> & Hr).
    destruct (Z.eqb_spec r (-1)); [done|]. destruct (Z.ltb_spec r 0); [done|]. destruct Hr as [?|[[? _]|[Hr _]]]; [lia..|].
    assert (Hl : (length (drop (Z.to_nat r) buf) < length buf)%nat) by (rewrite length_drop; lia).
    rewrite (IH g (drop (Z.to_nat r) buf)); [done | unfold buf_fits in *; lia | lia | lia].
Qed.

Lemma all_requests_app f buf ext : buf_fits (buf ++ ext) -> (length buf <= f)%nat ->
  match take_requests f buf with
  | (rs, Some kept) => all_requests (buf ++ ext) = (rs ++ (all_requests (kept ++ ext)).1, (all_requests (kept ++ ext)).2)
  | (rs, None) => (all_requests (buf ++ ext)).1 = rs
  end.
Proof.
  revert buf. induction f as [|f IH]; intros buf Hfits Hf; [destruct buf; [cbn [take_requests]; by rewrite !app_nil_l, <- surjective_pairing | cbn in Hf; lia]|].
  assert (Hfb : buf_fits buf) by (unfold buf_fits in *; rewrite length_app in Hfits; lia). cbn [take_requests].
  destruct (frame_cases buf Hfb) as (r & E & Hr). rewrite E. destruct (Z.eqb_spec r (-1)) as [->|Hm1]; [by rewrite app_nil_l, <- surjective_pairing|].
  destruct Hr as [?|[[Hr Hno]|[Hr Hst]]]; [done| |].
  - rewrite (proj2 (Z.ltb_lt r 0)) by lia. unfold all_requests. destruct (length (buf ++ ext)) as [|n]; [done|]. cbn [take_requests].
    destruct (frame_sound (buf ++ ext) max_header 0 Hfits) as (r' & -> & Hr'). destruct (Z.eqb_spec r' (-1)); [done|]. destruct (Z.ltb_spec r' 0); [done|]. exfalso.
    destruct Hr' as [[? _]|[Hr'%refusal_neg|(h & body & rest & Eb & Hq & Hroom & Er)]]; [lia | lia |]. apply (Hno ext r' Hfits). by exists h, body, rest.
  - rewrite (proj2 (Z.ltb_ge r 0)) by lia. set (n := Z.to_nat r). assert (Hn : (4 <= n <= length buf)%nat) by lia.
    assert (Hld : (length (drop n buf) < length buf)%nat) by (rewrite length_drop; lia).
    assert (Hfd : buf_fits (drop n buf ++ ext)) by (unfold buf_fits in *; rewrite length_app in *; lia).
    assert (Hone : all_requests (buf ++ ext) = (take n buf :: (all_requests (drop n buf ++ ext)).1, (all_requests (drop n buf ++ ext)).2)).
    { unfold all_requests at 1. rewrite (take_requests_fuel _ (S (length (buf ++ ext)))) by (done || lia). cbn [take_requests]. rewrite (Hst ext Hfits).
      rewrite (proj2 (Z.eqb_neq r (-1))), (proj2 (Z.ltb_ge r 0)) by lia. fold n. rewrite drop_app_le, take_app_le by lia.
      rewrite (take_requests_fuel (length (buf ++ ext)) (length (drop n buf ++ ext))) by (done || rewrite !length_app; lia).
      fold (all_requests (drop n buf ++ ext)). by destruct (all_requests (drop n buf ++ ext)). }
    specialize (IH (drop n buf) Hfd ltac:(lia)). destruct (take_requests f (drop n buf)) as [rs [kept|]]; rewrite Hone; [by rewrite IH|]. cbn [fst]. by rewrite IH.
Qed.

(** The reader's state after some arrivals: that of the whole, or refused on a part. *)
Definition reader_ok (st : list (list byte) * option (list byte)) (buf : list byte) : Prop :=
  st = all_requests buf \/ exists p q rs, buf = p ++ q /\ st = (rs, None) /\ all_requests p = (rs, None).

Lemma reader_ok_requests st buf : buf_fits buf -> reader_ok st buf -> st.1 = (all_requests buf).1.
Proof.
  intros Hf [->|(p & q & rs & -> & -> & Hp)]; [done|]. pose proof (all_requests_app (length p) p q Hf ltac:(done)) as H.
  fold (all_requests p) in H. by rewrite Hp in H.
Qed.

Lemma arrive_ok st buf chunk : buf_fits (buf ++ chunk) -> reader_ok st buf -> reader_ok (arrive st chunk) (buf ++ chunk).
Proof.
  intros Hf [->|(p & q & rs & -> & -> & Hp)]; [|right; exists p, (q ++ chunk), rs; by rewrite app_assoc].
  pose proof (all_requests_app (length buf) buf chunk Hf ltac:(done)) as H. fold (all_requests buf) in H.
  destruct (all_requests buf) as [rs [kept|]] eqn:E; cbn [arrive].
  - left. rewrite H. fold (all_requests (kept ++ chunk)). by destruct (all_requests (kept ++ chunk)).
  - right. by exists buf, chunk, rs.
Qed.
End Stream.

Definition chunked_example : list byte :=
  bytes_of "POST / HTTP/1.1" ++ CRLF ++ bytes_of "Transfer-Encoding: chunked" ++ CRLF ++ CRLF ++ bytes_of "2" ++ CRLF ++ bytes_of "hi" ++ CRLF ++ bytes_of "0" ++ CRLF ++ CRLF.

(** C19: How the network splits a connection's bytes does not matter. However they arrive,
    the reader that keeps what is incomplete hands on the same requests as if all had
    arrived at once, pipelined ones included. With a body limit this fails for chunked
    requests: the limit is held against all that is buffered, so the same request
    passes alone and is refused with a pipelined one behind it. *)
Theorem arrivals_do_not_matter max_header chunks :
  buf_fits (concat chunks) ->
  (foldl (arrive max_header) ([], Some []) chunks).1 = (all_requests max_header (concat chunks)).1 /\
  (exists n ext, frame_request_length_lim_idx chunked_example 0 16 = Some n /\ n = Z.of_nat (length chunked_example) /\
     frame_request_length_lim_idx (chunked_example ++ ext) 0 16 = Some frame_err_body).
Proof.
  intros Hf. split; [|exists 59, (bytes_of "GET / HTTP/1.1"); by vm_compute].
  apply reader_ok_requests; [done|]. induction chunks as [|c cs IH] using rev_ind; [by left|]. rewrite foldl_app, concat_app in *. cbn [foldl concat]. rewrite app_nil_r in *.
  cbn [concat] in Hf. rewrite app_nil_r in Hf. apply arrive_ok; [done|]. apply IH. unfold buf_fits in *. rewrite length_app in Hf. lia.
Qed.

Lemma arrivals_do_not_matter_witness :
  (foldl (arrive 0) ([], Some []) [take 20 post_example; drop 20 post_example]).1 = (all_requests 0 (concat [take 20 post_example; drop 20 post_example])).1 /\
  (exists n ext, frame_request_length_lim_idx chunked_example 0 16 = Some n /\ n = Z.of_nat (length chunked_example) /\
     frame_request_length_lim_idx (chunked_example ++ ext) 0 16 = Some frame_err_body).
Proof. apply (arrivals_do_not_matter 0 [take 20 post_example; drop 20 post_example]). by vm_compute. Defined.
