(* ===== verification/HttpRequest.v ===== *)
(** Reading a framed request: the request line, the header section and the helpers of
    http1_1/request_parser/request_parser.v that look into them, and that they see the
    request the framer saw. *)
From S2P Require Import Prelude WireBytes HttpScan HttpField HttpChunk HttpFrame.
Local Open Scope Z_scope.

(** ** The code *)

Record HttpRequest := mkRequest {
  buffer : list byte; method : Slice; path : Slice; version : Slice; header_fields : Slice; body : Slice
}.

#[export] Instance request_eta : Eta HttpRequest :=
  mkEta _ (fun r => mkRequest (buffer r) (method r) (path r) (version r) (header_fields r) (body r)).

Definition empty_slice : Slice := mkSlice 0 0.

Definition new_request (buf : list byte) : HttpRequest := mkRequest buf empty_slice empty_slice empty_slice empty_slice empty_slice.

(** [memmem]: the first occurrence of [needle]. *)
Fixpoint memmem (s needle : list byte) : option nat :=
  if bool_decide (take (length needle) s = needle) then Some O
  else match s with [] => None | _ :: s' => S <$> memmem s' needle end.

(** [for pos <= len - bytes_len], [n] rounds left; the needle is not empty. *)
Fixpoint portable_loop (n : nat) (s needle : list byte) (first : byte) (pos : nat) : option (option nat) :=
  match n with
  | O => None
  | S n' =>
      if (pos <=? length s - length needle)%nat then
        t ← view s pos (length s - length needle - pos + 1);
        match find_byte first t with
        | None => Some None
        | Some k =>
            let idx := (pos + k)%nat in
            t ← view s idx (length needle);
            if bool_decide (t = needle) then Some (Some idx) else portable_loop n' s needle first (idx + 1)
        end
      else Some None
  end.

Definition memmem_idx_portable (s needle : list byte) : option (option nat) :=
  if (length needle <=? 0)%nat || (length s <? length needle)%nat then Some None
  else first ← needle !! 0%nat; portable_loop (S (length s)) s needle first 0.

Definition double_crlf : list byte := CRLF ++ CRLF.

Definition rl_too_short : Z := -1.
Definition rl_no_space_after_method : Z := -2.
Definition rl_empty_method : Z := -3.
Definition rl_no_target : Z := -4.
Definition rl_no_space_after_target : Z := -5.
Definition rl_no_cr : Z := -6.
Definition rl_no_lf : Z := -7.

(** The end of the line whose CR is at [i]: the index behind its LF. *)
Definition expect_lf (buf : list byte) (i : nat) : option Z :=
  if (length buf <=? i + 1)%nat then Some rl_no_lf
  else c ← buf !! (i + 1)%nat; Some (if beq c LF then Z.of_nat (i + 2) else rl_no_lf).

(** The request line from its target on. *)
Definition request_target (req : HttpRequest) (pos : nat) : option (HttpRequest * Z) :=
  let buf := buffer req in
  t ← view buf pos (length buf - pos);
  match find_byte SP t, find_byte CR t with
  | None, _ => Some (req, rl_no_space_after_target)
  | _, None => Some (req, rl_no_cr)
  | Some sp_pos, Some cr_pos =>
      let path_end := (if sp_pos <? cr_pos then pos + sp_pos else pos + cr_pos)%nat in
      let req := req <| path := mkSlice pos (Z.of_nat path_end - Z.of_nat pos) |> in
      if (cr_pos <? sp_pos)%nat then
        e ← expect_lf buf path_end;
        Some (if e <? 0 then (req, e) else (req <| version := empty_slice |>, e))
      else
        let version_start := (path_end + 1)%nat in
        t ← view buf version_start (length buf - version_start);
        match find_byte CR t with
        | None => Some (req, rl_no_cr)
        | Some k =>
            e ← expect_lf buf (version_start + k);
            Some (req <| version := mkSlice version_start (Z.of_nat k) |>, e)
        end
  end.

Definition request_line_end (req : HttpRequest) : option (HttpRequest * Z) :=
  let buf := buffer req in
  let len := length buf in
  if (len <? 12)%nat then Some (req, rl_too_short)
  else
    match find_byte SP buf with
    | None => Some (req, rl_no_space_after_method)
    | Some O => Some (req, rl_empty_method)
    | Some method_len =>
        let req := req <| method := mkSlice 0 (Z.of_nat method_len) |> in
        pos ← scan_while (fun b => beq b SP) (len - (method_len + 1)) buf (method_len + 1);
        if (pos =? len)%nat then Some (req, rl_no_target) else request_target req pos
    end.

Definition request_line_error (code : Z) : list byte :=
  if code =? rl_too_short then bytes_of "request line too short"
  else if code =? rl_no_space_after_method then bytes_of "Missing space after method"
  else if code =? rl_empty_method then bytes_of "empty method"
  else if code =? rl_no_target then bytes_of "missing request-target"
  else if code =? rl_no_space_after_target then bytes_of "Missing space after request-target"
  else if code =? rl_no_cr then bytes_of "Missing CR"
  else bytes_of "expected LF after CR".

(** The error is on the right. *)
Definition parse_http1_request_line (req : HttpRequest) : option (HttpRequest * (Z + list byte)) :=
  '(req, e) ← request_line_end req;
  Some (req, if e <? 0 then inr (request_line_error e) else inl e).

(** The body behind the head, from [body_start] on. *)
Definition rest_slice (buf : list byte) (body_start : nat) : Slice :=
  if (body_start <? length buf)%nat then mkSlice body_start (Z.of_nat (length buf) - Z.of_nat body_start) else empty_slice.

(** Whether the header section is empty: the blank line right behind the request line. *)
Definition empty_section (buf : list byte) (header_start : nat) : option bool :=
  if (header_start + 1 <? length buf)%nat then
    c ← buf !! header_start;
    if beq c CR then (fun d => beq d LF) <$> buf !! (header_start + 1)%nat else Some false
  else Some false.

Definition decode_into (req : HttpRequest) : option (HttpRequest * bool) :=
  let buf := buffer req in
  '(req, e) ← request_line_end req;
  if e <? 0 then Some (req, false)
  else
    let header_start := Z.to_nat e in
    empty ← empty_section buf header_start;
    if (empty : bool) then
      Some (req <| header_fields := mkSlice header_start 0 |> <| body := rest_slice buf (header_start + 2) |>, true)
    else
      t ← view buf header_start (length buf - header_start);
      match memmem t double_crlf with
      | None => Some (req, false)
      | Some header_len =>
          let req := req <| header_fields := mkSlice header_start (Z.of_nat header_len) |> in
          if (header_len + header_start + 4 =? length buf)%nat then Some (req <| body := empty_slice |>, true)
          else
            let body_start := (header_start + header_len + 4)%nat in
            Some (req <| body := mkSlice body_start (Z.of_nat (length buf) - Z.of_nat body_start) |>, true)
      end.

Definition field_line_len (buf : list byte) (line_start lf : nat) : option nat :=
  match lf with
  | O => Some O
  | S k => c ← buf !! (line_start + k)%nat; Some (if beq c CR then k else lf)
  end.

Definition decode_http_request (buf : list byte) : option (HttpRequest + list byte) :=
  '(req, ok) ← decode_into (new_request buf);
  Some (if (ok : bool) then inl req else inr (bytes_of "malformed request head")).

(** [Slice.to_string]: a copy of the bytes. *)
Definition to_string (slice : Slice) (buf : list byte) : option (list byte) :=
  if slen slice <=? 0 then Some [] else view buf (start slice) (Z.to_nat (slen slice)).

(** [for pos <= section_end - 2]: the first line [pick] takes; [rounds] bounds the walk. *)
Fixpoint section_loop {A} (rounds : nat) (pick : list byte -> nat -> nat -> option (option A)) (buf : list byte) (section_end : Z) (pos : nat) : option (option A) :=
  match rounds with
  | O => None
  | S n =>
      if Z.of_nat pos <=? section_end - 2 then
        t ← view buf pos (Z.to_nat (section_end + 2 - Z.of_nat pos));
        match find_byte LF t with
        | None => Some None
        | Some lf =>
            line_len ← field_line_len buf pos lf;
            if (line_len <=? 0)%nat then Some None
            else
              r ← pick buf pos line_len;
              match r with Some a => Some (Some a) | None => section_loop n pick buf section_end (pos + lf + 1) end
        end
      else Some None
  end.

(** The value on one line, unless white space precedes its colon. *)
Definition line_value (name : list byte) (buf : list byte) (pos line_len : nat) : option (option Slice) :=
  v ← line_header_value buf pos line_len name;
  Some (match v with Some s => if 0 <=? slen s then Some s else None | None => None end).

Definition get_header_value_slice (req : HttpRequest) (name : list byte) : option (option Slice) :=
  if slen (header_fields req) <=? 0 then Some None
  else
    section_loop (S (length (buffer req))) (line_value name) (buffer req)
      (Z.of_nat (start (header_fields req)) + slen (header_fields req)) (start (header_fields req)).

(** [for pos <= section_end - 2] of [count_header]. *)
Fixpoint count_loop (rounds : nat) (name buf : list byte) (section_end : Z) (pos : nat) (count : Z) : option Z :=
  match rounds with
  | O => None
  | S n =>
      if Z.of_nat pos <=? section_end - 2 then
        t ← view buf pos (Z.to_nat (section_end + 2 - Z.of_nat pos));
        match find_byte LF t with
        | None => Some count
        | Some lf =>
            line_len ← field_line_len buf pos lf;
            if (line_len <=? 0)%nat then Some count
            else
              hit ← (if (length name <? line_len)%nat then
                       h ← view buf pos (length name);
                       if ascii_ci_eq h name then (fun c => beq c COLON) <$> buf !! (pos + length name)%nat else Some false
                     else Some false);
              count_loop n name buf section_end (pos + lf + 1) (if (hit : bool) then count + 1 else count)
        end
      else Some count
  end.

Definition count_header (req : HttpRequest) (name : list byte) : option Z :=
  if slen (header_fields req) <=? 0 then Some 0
  else
    count_loop (S (length (buffer req))) name (buffer req)
      (Z.of_nat (start (header_fields req)) + slen (header_fields req)) (start (header_fields req)) 0.

Definition content_length (req : HttpRequest) : option Z :=
  s ← get_header_value_slice req content_length_name;
  match s with
  | None => Some (-1)
  | Some s => n ← parse_content_length (buffer req) s; Some (default (-1) n)
  end.

(** [true]: no error. *)
Definition validate_http1 (req : HttpRequest) : option bool :=
  host_ok ← (if slen (version req) =? 8 then
               v ← view (buffer req) (start (version req)) 8;
               if ascii_ci_eq v (bytes_of "HTTP/1.1") then (fun n => n =? 1) <$> count_header req (bytes_of "Host") else Some true
             else Some true);
  if negb host_ok then Some false
  else
    cl ← get_header_value_slice req content_length_name;
    match cl with
    | None => Some true
    | Some _ => te ← get_header_value_slice req transfer_encoding_name; Some (match te with None => true | Some _ => false end)
    end.

(** ** [memmem] *)

Lemma memmem_skip k s needle :
  (k <= length s)%nat -> (forall i, (i < k)%nat -> take (length needle) (drop i s) <> needle) ->
  memmem s needle = (fun i => (k + i)%nat) <$> memmem (drop k s) needle.
Proof.
  revert s. induction k as [|k IH]; intros s Hk Hno; [rewrite drop_0; by destruct (memmem s needle)|].
  destruct s as [|c s]; [cbn in Hk; lia|]. cbn [memmem]. rewrite bool_decide_eq_false_2 by (apply (Hno O); lia).
  rewrite (IH s); [|cbn in Hk; lia | intros i Hi; apply (Hno (S i)); lia]. change (drop (S k) (c :: s)) with (drop k s). by destruct (memmem (drop k s) needle).
Qed.

Lemma memmem_here s needle : take (length needle) s = needle -> memmem s needle = Some O.
Proof. intros E. destruct s; cbn [memmem]; by rewrite bool_decide_eq_true_2. Qed.

Lemma memmem_Some s needle k :
  memmem s needle = Some k <-> (k <= length s)%nat /\ take (length needle) (drop k s) = needle /\ forall i, (i < k)%nat -> take (length needle) (drop i s) <> needle.
Proof.
  split.
  - revert k. induction s as [|c s IH]; intros k; cbn [memmem]; case_bool_decide as E;
      [intros [= <-]; rewrite drop_0; repeat split; [cbn; lia | done | lia] | done | intros [= <-]; rewrite drop_0; repeat split; [cbn; lia | done | lia]|].
    destruct (memmem s needle) as [j|]; [|done]. intros [= <-]. destruct (IH j eq_refl) as (H1 & H2 & H3). split; [cbn; lia|]. split; [done|].
    intros [|i] Hi; [done|]. apply H3. lia.
  - intros (H1 & H2 & H3). rewrite (memmem_skip k), (memmem_here (drop k s)) by done. cbn. f_equal. lia.
Qed.

Lemma memmem_None s needle : memmem s needle = None -> forall i, (i <= length s)%nat -> take (length needle) (drop i s) <> needle.
Proof.
  induction s as [|c s IH]; cbn [memmem]; case_bool_decide as E; try done.
  - intros _ i Hi. cbn in Hi. assert (i = O) as -> by lia. done.
  - destruct (memmem s needle); [done|]. intros _ [|i] Hi; [done|]. apply IH; [done | cbn in Hi; lia].
Qed.

Lemma portable_loop_spec n s needle first rest pos :
  needle = first :: rest -> (length needle <= length s)%nat -> (length s - pos < n)%nat ->
  (forall i, (i < pos)%nat -> take (length needle) (drop i s) <> needle) -> portable_loop n s needle first pos = Some (memmem s needle).
Proof.
  intros En Hl. revert pos. induction n as [|n IH]; intros pos Hn Hno; [lia|]. cbn [portable_loop].
  assert (Hnone : (forall i, (i <= length s - length needle)%nat -> take (length needle) (drop i s) <> needle) -> memmem s needle = None).
  { intros H. destruct (memmem s needle) as [k|] eqn:E; [|done]. apply memmem_Some in E as (H1 & H2 & _). exfalso. apply (H k); [|done].
    apply (f_equal length) in H2. rewrite length_take, length_drop in H2. assert (length needle <> O) by (by rewrite En). lia. }
  destruct (Nat.leb_spec pos (length s - length needle)); [|rewrite Hnone by (intros i Hi; apply Hno; lia); done].
  assert (Hln : length needle <> O) by (by rewrite En). rewrite (view_spec _ _ _ _ eq_refl) by lia. cbn [mbind option_bind].
  set (t := take (length s - length needle - pos + 1) (drop pos s)).
  assert (Hfirst : forall i, (pos <= i <= length s - length needle)%nat -> take (length needle) (drop i s) = needle -> t !! (i - pos)%nat = Some first).
  { intros i Hi E. unfold t. rewrite lookup_take_lt by lia. rewrite lookup_drop. replace (pos + (i - pos))%nat with (i + 0)%nat by lia. rewrite <- lookup_drop.
    rewrite <- (lookup_take_lt _ (length needle)), E, En by lia. done. }
  destruct (find_byte first t) as [k|] eqn:Ef.
  - apply find_byte_Some in Ef as (a & b & Et & Ha & Hk). assert (Hkl : (k < length t)%nat) by (rewrite Et, length_app; cbn; lia).
    assert (Htl : length t = (length s - length needle - pos + 1)%nat) by (unfold t; rewrite length_take, length_drop; lia).
    assert (Hno' : forall i, (i < pos + k)%nat -> take (length needle) (drop i s) <> needle).
    { intros i Hi E. destruct (decide (i < pos)%nat) as [Hp|Hp]; [by apply (Hno i Hp)|]. specialize (Hfirst i ltac:(lia) E). rewrite Et, lookup_app_l in Hfirst by lia.
      apply Ha. by apply list_elem_of_lookup_2 in Hfirst. }
    rewrite (view_spec _ _ _ _ eq_refl) by lia. cbn [mbind option_bind]. destruct (bool_decide_reflect (take (length needle) (drop (pos + k) s) = needle)) as [E|E].
    + f_equal. symmetry. apply memmem_Some. split; [lia|]. done.
    + apply IH; [lia|]. intros i Hi. destruct (decide (i = pos + k)%nat) as [->|]; [done|]. apply Hno'. lia.
  - f_equal. symmetry. apply Hnone. intros i Hi E. apply find_byte_None in Ef. destruct (decide (i < pos)%nat) as [Hp|Hp]; [by apply (Hno i Hp)|].
    apply Ef. specialize (Hfirst i ltac:(lia) E). by apply list_elem_of_lookup_2 in Hfirst.
Qed.

(** The search of the Windows build is [memmem] wherever a needle is looked for. *)
Lemma memmem_portable s needle : needle <> [] -> memmem_idx_portable s needle = Some (memmem s needle).
Proof.
  intros Hn. destruct needle as [|c needle]; [done|]. unfold memmem_idx_portable. cbn [orb Nat.leb length]. destruct (Nat.ltb_spec (length s) (S (length needle))) as [Hl|Hl].
  - cbn [orb]. f_equal. symmetry. destruct (memmem s (c :: needle)) as [k|] eqn:E; [|done]. apply memmem_Some in E as (_ & E & _). apply (f_equal length) in E.
    rewrite length_take, length_drop in E. cbn [length] in E. lia.
  - cbn [lookup list_lookup mbind option_bind orb]. eapply portable_loop_spec; [done | done | lia | intros; lia].
Qed.

(** ** The request line *)

Lemma expect_lf_spec buf i : exists e, expect_lf buf i = Some e /\
    (0 <= e -> e = Z.of_nat (i + 2) /\ buf !! (i + 1)%nat = Some LF /\ (i + 2 <= length buf)%nat).
Proof.
  unfold expect_lf. destruct (Nat.leb_spec (length buf) (i + 1)); [by eexists|].
  destruct (lookup_lt_is_Some_2 buf (i + 1)%nat) as [c E]; [lia|]. run E. eexists. split; [done|]. destruct (beq c LF) eqn:Ec; [|done]. apply beq_true in Ec as ->. intros _; split; [done|]; split; [done | lia].
Qed.

(** A slice of the buffer. *)
Definition slice_in (buf : list byte) (s : Slice) : Prop := 0 <= slen s /\ Z.of_nat (start s) + slen s <= Z.of_nat (length buf).

Lemma empty_slice_in buf : slice_in buf empty_slice.
Proof. split; cbn; lia. Qed.

Section FirstLine.
Context (buf l t : list byte) (Hb : buf = l ++ CRLF ++ t) (Hl : LF ∉ l).

Lemma first_cr p k : (p <= length l)%nat -> find_byte CR (drop p buf) = Some k -> (p + k <= length l)%nat.
Proof.
  intros Hp Hk. rewrite Hb, drop_app_le in Hk by done. apply find_byte_Some in Hk as (a & b & E & Ha & <-).
  destruct (decide (length (drop p l) < length a)%nat) as [Hlt|Hge]; [|rewrite length_drop in Hge; lia]. exfalso. apply Ha.
  assert (Hin : (drop p l ++ CRLF ++ t) !! length (drop p l) = Some CR) by (by rewrite lookup_app_r, Nat.sub_diag).
  rewrite E, lookup_app_l in Hin by done. by apply list_elem_of_lookup_2 in Hin.
Qed.

Lemma first_lf i : buf !! (i + 1)%nat = Some LF -> (i <= length l)%nat -> i = length l.
Proof.
  intros Hi Hle. destruct (decide (i = length l)) as [|Hn]; [done|]. exfalso. apply Hl.
  rewrite Hb in Hi. destruct (decide (i + 1 < length l)%nat) as [Hlt|Hge]; [rewrite lookup_app_l in Hi by done; by apply list_elem_of_lookup_2 in Hi|].
  assert (i + 1 = length l)%nat as E by lia. rewrite E, lookup_app_r, Nat.sub_diag in Hi by lia. cbn in Hi. injection Hi as Hi. symmetry in Hi. by apply LF_not_CR in Hi.
Qed.
End FirstLine.

(** Read back what the line parsers return: they stay in the buffer and, if the
    request line holds a space, they end at the framer's first line. *)
Lemma request_target_spec req pos :
  (pos <= length (buffer req))%nat ->
  exists req' e, request_target req pos = Some (req', e) /\ buffer req' = buffer req /\ (0 <= e -> e <= Z.of_nat (length (buffer req))) /\
    (slice_in (buffer req) (version req) -> slice_in (buffer req) (version req')) /\
    forall l t, buffer req = l ++ CRLF ++ t -> LF ∉ l -> (pos <= length l)%nat -> 0 <= e -> e = Z.of_nat (length l + 2).
Proof.
  intros Hpos. unfold request_target. set (buf := buffer req) in *.
  assert (Hview : forall p, (p <= length buf)%nat -> view buf p (length buf - p) = Some (drop p buf)).
  { intros p Hp. rewrite (view_spec _ _ _ _ eq_refl) by lia. rewrite take_ge; [done|]. rewrite length_drop. lia. }
  run (Hview pos Hpos). destruct (find_byte SP (drop pos buf)) as [sp|] eqn:Esp; [|by eexists _, _].
  destruct (find_byte CR (drop pos buf)) as [cr|] eqn:Ecr; [|by eexists _, _].
  assert (Hsp : (pos + sp < length buf)%nat) by (apply find_byte_Some in Esp as (a & b & E & _ & <-); apply (f_equal length) in E; rewrite length_drop, length_app in E; cbn in E; lia).
  destruct (Nat.ltb_spec cr sp).
  - rewrite (proj2 (Nat.ltb_ge sp cr)) by lia. destruct (expect_lf_spec buf (pos + cr)) as (e & E & He). run E.
    destruct (Z.ltb_spec e 0); (eexists _, _; split; [done|]; split; [done|]; split; [intros Hnn; destruct (He Hnn) as (-> & _ & ?); fold buf; lia|]; split; [by intros ?; try apply empty_slice_in|]); intros l t Hb Hl Hp He0; [lia|]. destruct (He He0) as (-> & Hlf & _).
    by rewrite (first_lf buf l t Hb Hl (pos + cr) Hlf (first_cr buf l t Hb pos cr Hp Ecr)).
  - assert (Hne : sp <> cr).
    { intros ->. apply find_byte_Some in Esp as (a & b & E & _ & E1). apply find_byte_Some in Ecr as (a' & b' & E' & _ & E2). rewrite E in E'. apply app_inj_1 in E' as [_ E']; [|lia].
      injection E' as E' _. by vm_compute in E'. }
    rewrite (proj2 (Nat.ltb_lt sp cr)) by lia. run (Hview (pos + sp + 1)%nat ltac:(lia)). destruct (find_byte CR (drop (pos + sp + 1) buf)) as [k|] eqn:Ek; [|by eexists _, _].
    destruct (expect_lf_spec buf (pos + sp + 1 + k)) as (e & E & He). run E. eexists _, _. split; [done|]. split; [done|]. split; [intros Hnn; destruct (He Hnn) as (-> & _ & ?); fold buf; lia|].
    split; [intros _; apply find_byte_Some in Ek as (a & b & Ek & _ & <-); apply (f_equal length) in Ek; rewrite length_drop, length_app in Ek; cbn in Ek;
            split; cbn [slen start version]; fold buf; change (version (?x <| version := ?s |>)) with s; cbn [slen start]; lia|]. intros l t Hb Hl Hp He0. destruct (He He0) as (-> & Hlf & _).
    pose proof (first_cr buf l t Hb pos cr Hp Ecr).
    by rewrite (first_lf buf l t Hb Hl _ Hlf (first_cr buf l t Hb (pos + sp + 1) k ltac:(lia) Ek)).
Qed.

Lemma request_line_end_spec req :
  exists req' e, request_line_end req = Some (req', e) /\ buffer req' = buffer req /\ (0 <= e -> e <= Z.of_nat (length (buffer req))) /\
    (slice_in (buffer req) (version req) -> slice_in (buffer req) (version req')) /\
    forall l t, buffer req = l ++ CRLF ++ t -> LF ∉ l -> SP ∈ l -> 0 <= e -> e = Z.of_nat (length l + 2).
Proof.
  unfold request_line_end. set (buf := buffer req). destruct (Nat.ltb_spec (length buf) 12); [by eexists _, _|].
  destruct (find_byte SP buf) as [[|k]|] eqn:Esp; [by eexists _, _| |by eexists _, _].
  pose proof Esp as Ek. apply find_byte_Some in Ek as (a & b & Eb & Ha & Hk).
  assert (Htext : text buf (S k + 1) (length buf) b).
  { replace (S k + 1)%nat with (0 + length (a ++ [SP]))%nat by (rewrite length_app; cbn; lia). apply text_skip. rewrite <- app_assoc. cbn [app]. rewrite <- Eb. apply text_whole. }
  destruct (text_scan (fun b => beq b SP) _ _ _ _ Htext) as [Es Ht]. run Es. set (pos := (S k + 1 + length (take_while (fun b => beq b SP) b))%nat) in *.
  destruct (Nat.eqb_spec pos (length buf)); [by eexists _, _|]. pose proof (text_length _ _ _ _ Ht) as Hl.
  set (req1 := req <| method := mkSlice 0 (Z.of_nat (S k)) |>). destruct (request_target_spec req1 pos) as (req' & e & -> & Hbuf & Hbound & Hver & He); [change (buffer req1) with buf; lia|].
  eexists _, _. split; [done|]. split; [done|]. split; [done|]. split; [done|]. intros l t Hb Hlf Hsp He0. apply (He l t); [done | done | | done].
  assert (Hkl : (S k < length l)%nat).
  { destruct (proj1 (list_elem_of_lookup l SP) Hsp) as [j Hj]. destruct (decide (S k < length l)%nat) as [|Hge]; [done|]. exfalso. apply Ha.
    assert (Hjl : (j < length l)%nat) by (by apply lookup_lt_Some in Hj). fold buf in Hb. rewrite Hb in Eb.
    assert (E : (l ++ CRLF ++ t) !! j = Some SP) by (by rewrite lookup_app_l). rewrite Eb, lookup_app_l in E by lia. by apply list_elem_of_lookup_2 in E. }
  destruct (decide (pos <= length l)%nat) as [|Hgt]; [done|]. exfalso. fold buf in Hb.
  assert (Hcr : buf !! length l = Some CR) by (by rewrite Hb, lookup_app_r, Nat.sub_diag).
  assert (Hin : take_while (fun b => beq b SP) b !! (length l - (S k + 1))%nat = Some CR).
  { destruct Htext as [Htx Hb2]. rewrite <- (take_drop_while (fun b => beq b SP) b) in Htx. set (w := take_while (fun b => beq b SP) b) in *.
    rewrite <- (lookup_app_l w (drop_while (fun b => beq b SP) b)) by lia. rewrite <- Htx, lookup_take_lt, lookup_drop by lia. rewrite <- Hcr. f_equal. lia. }
  apply list_elem_of_lookup_2 in Hin. pose proof (take_while_all (fun b => beq b SP) b) as Hall. rewrite Forall_forall in Hall. specialize (Hall _ Hin). by vm_compute in Hall.
Qed.

(** ** The header section *)

(** Within a line there is no CRLF. *)
Lemma no_crlf_in_line l u i :
  LF ∉ l -> (i < length l)%nat -> take 4 (drop i (l ++ CR :: u)) <> double_crlf.
Proof.
  intros Hl Hi E. assert (E1 : drop i (l ++ CR :: u) !! 1%nat = Some LF) by (rewrite <- (lookup_take_lt _ 4), E by lia; done).
  rewrite lookup_drop in E1. destruct (decide (i + 1 < length l)%nat) as [Hlt|Hge].
  - rewrite lookup_app_l in E1 by done. apply Hl. by apply list_elem_of_lookup_2 in E1.
  - replace (i + 1)%nat with (length l) in E1 by lia. rewrite lookup_app_r, Nat.sub_diag in E1 by lia. cbn in E1. injection E1 as E1. symmetry in E1. by apply LF_not_CR in E1.
Qed.

Lemma memmem_lines ls rest :
  Forall line_wf ls -> ls <> [] -> memmem (lines ls ++ CRLF ++ rest) double_crlf = Some (length (lines ls) - 2)%nat.
Proof.
  intros Hls. induction Hls as [|l ls [Hn Hl] Hls IH]; intros Hne; [done|]. rewrite lines_cons.
  assert (Hlen : length (l ++ CRLF ++ lines ls) = (length l + 2 + length (lines ls))%nat) by (rewrite !length_app; cbn; lia). rewrite Hlen, <- !app_assoc.
  destruct ls as [|l2 ls].
  - change (lines []) with (@nil byte). cbn [app length]. rewrite (memmem_skip (length l)); [|rewrite length_app; lia | intros i Hi; by apply no_crlf_in_line].
    rewrite drop_app_length, memmem_here by done. cbn. f_equal. lia.
  - rewrite (memmem_skip (length l + 2)); [| rewrite !length_app; change (length CRLF) with 2%nat; lia |].
    + replace (drop (length l + 2) (l ++ CRLF ++ lines (l2 :: ls) ++ CRLF ++ rest)) with (lines (l2 :: ls) ++ CRLF ++ rest) by (rewrite <- drop_drop, drop_app_length; done).
      rewrite IH by done. cbn [fmap option_fmap option_map]. f_equal. rewrite lines_cons, !length_app. change (length CRLF) with 2%nat. lia.
    + intros i Hi. destruct (decide (i < length l)%nat) as [|Hge]; [by apply no_crlf_in_line|]. rewrite drop_app_ge by lia.
      inversion_clear Hls as [|? ? [Hn2 Hl2] _]. rewrite lines_cons, <- app_assoc. destruct l2 as [|c l2]; [done|]. apply not_elem_of_cons in Hl2 as [Hc Hl2].
      destruct (decide (i = length l)) as [->|]; [|replace (i - length l)%nat with 1%nat by lia; intros E; by apply (f_equal head) in E].
      rewrite Nat.sub_diag, drop_0. intros E. destruct l2 as [|d l2]; [by apply (f_equal (fun x => x !! 3%nat)) in E; vm_compute in E|].
      apply not_elem_of_cons in Hl2 as [Hd _]. apply (f_equal (fun x => x !! 3%nat)) in E. cbn in E. congruence.
Qed.

(** The text of a slice. *)
Definition slice_text (buf : list byte) (s : Slice) : list byte := take (Z.to_nat (slen s)) (drop (start s) buf).

(** The field lines as [header_fields] holds them: without the last CRLF. *)
Definition section (ls : list (list byte)) : list byte := take (length (lines ls) - 2) (lines ls).

Lemma section_length ls : length (section ls) = (length (lines ls) - 2)%nat.
Proof. unfold section. rewrite length_take. lia. Qed.

Lemma empty_section_spec buf i s : text buf i (length buf) s -> exists b, empty_section buf i = Some b /\ (b = true <-> exists r, s = CRLF ++ r).
Proof.
  intros Ht. unfold empty_section. pose proof (text_length _ _ _ _ Ht) as Hl. destruct s as [|c [|d s]]; cbn [length] in Hl.
  - rewrite (proj2 (Nat.ltb_ge _ _)) by lia. exists false. split; [done|]. split; [done | by intros [r ?]].
  - rewrite (proj2 (Nat.ltb_ge _ _)) by lia. exists false. split; [done|]. split; [done | by intros [r ?]].
  - rewrite (proj2 (Nat.ltb_lt _ _)) by lia. destruct (text_cons _ _ _ _ _ Ht) as (E1 & Ht2 & _). destruct (text_cons _ _ _ _ _ Ht2) as (E2 & _ & _). run E1.
    rewrite Nat.add_1_r, E2. destruct (beq c CR) eqn:Ec; cbn [fmap option_fmap option_map].
    + apply beq_true in Ec as ->. eexists. split; [done|]. rewrite beq_true. split; [intros ->; by exists s | intros [r E]; heads E].
    + apply beq_false in Ec. exists false. split; [done|]. split; [done|]. intros [r E]. heads E.
Qed.

(** [decode_into] never reads outside the buffer, and reads back the head and the body of a
    request whose request line holds a space. *)
Lemma decode_into_spec req :
  exists req' ok, decode_into req = Some (req', ok) /\ buffer req' = buffer req /\
    (slice_in (buffer req) (version req) -> slice_in (buffer req) (version req')) /\
    forall h b, buffer req = head_bytes h ++ b -> head_wf h -> SP ∈ request_line h -> ok = true ->
      header_fields req' = mkSlice (length (request_line h) + 2) (Z.of_nat (length (section (fields h)))) /\
      slice_text (buffer req) (body req') = b /\ (b <> [] -> start (body req') = length (head_bytes h)).
Proof.
  unfold decode_into. set (buf := buffer req). destruct (request_line_end_spec req) as (req1 & e & E & Hb & Hbound & Hver & Hagree). run E. fold buf in Hb, Hbound, Hagree.
  destruct (Z.ltb_spec e 0); [by eexists _, _|]. specialize (Hbound ltac:(done)). set (hs := Z.to_nat e).
  assert (Hat : forall h b, buf = head_bytes h ++ b -> head_wf h -> SP ∈ request_line h ->
    hs = (length (request_line h) + 2)%nat /\ text buf hs (length buf) (lines (fields h) ++ CRLF ++ b)).
  { intros h b Eb [Hl _] Hsp. unfold head_bytes in Eb. rewrite <- !app_assoc in Eb. pose proof (Hagree _ _ Eb Hl Hsp ltac:(done)). split; [lia|].
    pose proof (text_whole buf) as Ht. rewrite Eb in Ht at 3. apply text_skip, text_skip in Ht. by replace hs with (0 + length (request_line h) + length CRLF)%nat by (change (length CRLF) with 2%nat; lia). }
  pose proof (text_suffix buf hs _ eq_refl ltac:(lia)) as Hrest. destruct (empty_section_spec buf hs _ Hrest) as (emp & E2 & Hemp). run E2. destruct emp.
  - set (r := req1 <| header_fields := _ |> <| body := _ |>). assert (Hbody : body r = rest_slice buf (hs + 2)) by done. assert (Hfr : header_fields r = mkSlice hs 0) by done.
    exists r, true. split; [done|]. split; [done|]. split; [exact Hver|]. intros h b Eb Hwf Hsp _. destruct (Hat h b Eb Hwf Hsp) as [Ehs Ht]. pose proof (length_head_bytes h) as Hlh. rewrite Hbody, Hfr.
    assert (Hf : fields h = []).
    { destruct Hwf as [_ Hwf]. apply text_drop in Ht. destruct Hemp as [Hemp _]. destruct (Hemp eq_refl) as [tl Hr]. rewrite Ht in Hr. destruct (fields h) as [|l ls]; [done|].
      inversion_clear Hwf as [|? ? [Hn Hlf] _]. rewrite lines_cons, <- !app_assoc in Hr. exfalso. destruct l as [|c [|d l]]; [done| |]; pose proof LF_not_CR; [heads Hr|].
      assert (d = LF) as -> by heads Hr. apply Hlf. right. left. }
    rewrite Hf in Ht, Hlh |- *. change (lines []) with (@nil byte) in *. cbn [app length] in *. rewrite Ehs in Ht |- *. split; [done|]. pose proof (text_length _ _ _ _ Ht) as Hlt. rewrite length_app in Hlt.
    change (length CRLF) with 2%nat in Hlt. apply text_skip in Ht. change (length CRLF) with 2%nat in Ht. apply text_drop in Ht.
    unfold rest_slice, slice_text. destruct (Nat.ltb_spec (length (request_line h) + 2 + 2) (length buf)).
    + cbn [slen start]. rewrite Ht. split; [apply take_ge; lia | intros _; lia].
    + destruct b; [done | cbn in Hlt; lia].
  - rewrite (view_spec _ _ _ _ eq_refl) by lia. cbn [mbind option_bind]. rewrite take_ge by (rewrite length_drop; lia).
    destruct (memmem (drop hs buf) double_crlf) as [hl|] eqn:Em; [|by eexists _, _].
    assert (Hboth : forall r, buffer r = buf -> version r = version req1 -> header_fields r = mkSlice hs (Z.of_nat hl) ->
      body r = (if (hl + hs + 4 =? length buf)%nat then empty_slice else mkSlice (hs + hl + 4) (Z.of_nat (length buf) - Z.of_nat (hs + hl + 4))) ->
      exists req' ok, Some (r, true) = Some (req', ok) /\ buffer req' = buf /\ (slice_in buf (version req) -> slice_in buf (version req')) /\ forall h b, buf = head_bytes h ++ b -> head_wf h -> SP ∈ request_line h -> ok = true ->
        header_fields req' = mkSlice (length (request_line h) + 2) (Z.of_nat (length (section (fields h)))) /\ slice_text buf (body req') = b /\ (b <> [] -> start (body req') = length (head_bytes h))).
    { intros r Hbr Hvr Hfr Hbody. eexists _, _. split; [done|]. split; [done|]. split; [rewrite Hvr; exact Hver|]. intros h b Eb Hwf Hsp _. destruct (Hat h b Eb Hwf Hsp) as [Ehs Ht]. pose proof (length_head_bytes h) as Hlh.
      pose proof (text_drop _ _ _ Ht) as Ed. rewrite Ed in Em, Hemp. destruct (decide (fields h = [])) as [Hf|Hf]; [exfalso; destruct Hemp as [_ Hemp]; rewrite Hf in Hemp; by specialize (Hemp (ex_intro _ b eq_refl))|].
      rewrite (memmem_lines _ _ (proj2 Hwf) Hf) in Em. injection Em as <-. rewrite Hfr, Ehs, section_length. split; [done|].
      assert (Hl2 : (2 <= length (lines (fields h)))%nat) by (destruct (fields h) as [|l ls]; [done|]; rewrite lines_cons, !length_app; change (length CRLF) with 2%nat; lia).
      pose proof (text_length _ _ _ _ Ht) as Hlt. rewrite !length_app in Hlt. change (length CRLF) with 2%nat in *. apply text_skip, text_skip, text_drop in Ht. change (length CRLF) with 2%nat in Ht.
      rewrite Hbody. unfold slice_text. destruct (Nat.eqb_spec (length (lines (fields h)) - 2 + hs + 4) (length buf)).
      + cbn [slen start]. destruct b; [done | cbn in Hlt; lia].
      + cbn [slen start]. replace (hs + (length (lines (fields h)) - 2) + 4)%nat with (hs + length (lines (fields h)) + 2)%nat by lia. rewrite Ht. split; [apply take_ge; lia | intros _; lia]. }
    destruct (hl + hs + 4 =? length buf)%nat eqn:El; by apply Hboth.
Qed.

(** ** Walking the field lines *)

Section Lines.
Context (buf name b : list byte) (Hname : name <> []).

Definition section_stop (pos : nat) (ls : list (list byte)) : Z := Z.of_nat pos + Z.of_nat (length (lines ls)) - 2.

(** A round of the walk over [l] and the lines behind it: it is taken unless [l] is too
    short to be any field. *)
Lemma section_round pos l ls :
  text buf pos (length buf) (lines (l :: ls) ++ CRLF ++ b) -> line_wf l -> Forall line_wf ls ->
  if Z.of_nat pos <=? section_stop pos (l :: ls) - 2 then
    (t ← view buf pos (Z.to_nat (section_stop pos (l :: ls) + 2 - Z.of_nat pos)); Some (find_byte LF t)) = Some (Some (S (length l))) /\
    field_line_len buf pos (S (length l)) = Some (length l) /\ (length l <=? 0)%nat = false /\
    text buf pos (pos + length l) l /\ text buf (pos + S (length l) + 1) (length buf) (lines ls ++ CRLF ++ b) /\
    section_stop pos (l :: ls) = section_stop (pos + S (length l) + 1) ls
  else ls = [] /\ field name l = NoField.
Proof.
  intros Ht [Hn Hl] Hls. unfold section_stop.
  assert (El : length (lines (l :: ls)) = (length l + 2 + length (lines ls))%nat) by (rewrite lines_cons, !length_app; cbn; lia).
  assert (Hl0 : length l <> O) by (by destruct l). destruct (Z.leb_spec (Z.of_nat pos) (Z.of_nat pos + Z.of_nat (length (lines (l :: ls))) - 2 - 2)).
  - replace (Z.to_nat (Z.of_nat pos + Z.of_nat (length (lines (l :: ls))) - 2 + 2 - Z.of_nat pos)) with (length (lines (l :: ls))) by lia.
    rewrite (text_view _ _ _ _ _ Ht). cbn [mbind option_bind]. rewrite lines_cons at 1. rewrite lines_cons, <- !app_assoc in Ht.
    destruct (blank_line_line _ _ _ _ Ht Hn Hl) as (_ & _ & E3 & Ht' & Hline). split; [|split; [|split; [|split; [|split]]]].
    + replace (l ++ CRLF ++ lines ls) with ((l ++ [CR]) ++ LF :: lines ls) by (by rewrite <- app_assoc). rewrite find_byte_app, length_app; [cbn [length]; do 2 f_equal; lia|].
      apply not_elem_of_app. split; [done|]. apply not_elem_of_cons. split; [apply LF_not_CR | apply not_elem_of_nil].
    + unfold field_line_len. run E3. done.
    + by apply Nat.leb_gt; lia.
    + done.
    + by replace (pos + S (length l) + 1)%nat with (pos + length l + 2)%nat by lia.
    + lia.
  - destruct ls as [|l2 ls].
    + split; [done|]. unfold field. destruct (ci_eq _ name); [|done]. assert (length name <> O) by (by destruct name). by rewrite drop_ge by (change (length (lines [])) with O in El; lia).
    + exfalso. inversion_clear Hls as [|? ? [Hn2 _] _]. assert (2 < length (lines (l2 :: ls)))%nat by (rewrite lines_cons, !length_app; destruct l2; [done | cbn; lia]). lia.
Qed.

Definition is_value (r : option Slice) (v : option (list byte)) : Prop :=
  match v with
  | None => r = None
  | Some v => exists s, r = Some (mkSlice s (Z.of_nat (length v))) /\ take (length v) (drop s buf) = v /\ (s + length v <= length buf)%nat
  end.

Lemma line_value_eq pos n :
  line_value name buf pos n = (v ← line_header_value buf pos n name; Some (match v with Some s => if 0 <=? slen s then Some s else None | None => None end)).
Proof. done. Qed.

Lemma header_loop ls : Forall line_wf ls -> forall rounds pos,
  text buf pos (length buf) (lines ls ++ CRLF ++ b) -> (length (lines ls) < rounds)%nat ->
  exists r, section_loop rounds (line_value name) buf (section_stop pos ls) pos = Some r /\ is_value r (head (values name ls)).
Proof.
  induction 1 as [|l ls Hl Hls IH]; intros rounds pos Ht Hr; (destruct rounds as [|rounds]; [lia|]); cbn [section_loop].
  { unfold section_stop. change (lines []) with (@nil byte). cbn [length]. rewrite (proj2 (Z.leb_gt _ _)) by lia. by exists None. }
  assert (El : length (lines (l :: ls)) = (length l + 2 + length (lines ls))%nat) by (rewrite lines_cons, !length_app; cbn; lia).
  pose proof (section_round pos l ls Ht Hl Hls) as H. destruct (_ <=? _); [|destruct H as [-> Hf]; exists None; split; [done|]; unfold values; cbn; by rewrite Hf].
  destruct H as (E1 & E2 & E3 & Hline & Ht' & Estop). destruct (view buf pos _) as [t|]; [|done]. cbn [mbind option_bind] in E1 |- *. injection E1 as ->.
  run E2. rewrite E3, (line_value_eq pos). destruct Hline as [Hline Hb]. replace (pos + length l - pos)%nat with (length l) in Hline by lia.
  pose proof (line_header_value_spec buf pos (length l) name l Hline ltac:(lia)) as Hv. unfold values. cbn [omap list_omap]. fold (values name ls).
  destruct (field name l) as [| |v]; cbn [field_at] in Hv.
  - run Hv. rewrite Estop. apply (IH rounds _ Ht'). lia.
  - run Hv. cbn [slen]. change (0 <=? -1) with false. cbn match. rewrite Estop. apply (IH rounds _ Ht'). lia.
  - destruct Hv as (s & Hv & Htk & Hs). run Hv. cbn [slen]. rewrite (proj2 (Z.leb_le _ _)) by lia. eexists. split; [done|]. cbn [head]. exists s. split; [done|]. split; [done | lia].
Qed.

Lemma count_loop_spec ls : Forall line_wf ls -> forall rounds pos count,
  text buf pos (length buf) (lines ls ++ CRLF ++ b) -> (length (lines ls) < rounds)%nat ->
  count_loop rounds name buf (section_stop pos ls) pos count = Some (count + Z.of_nat (length (values name ls))).
Proof.
  induction 1 as [|l ls Hl Hls IH]; intros rounds pos count Ht Hr; (destruct rounds as [|rounds]; [lia|]); cbn [count_loop].
  { unfold section_stop. change (lines []) with (@nil byte). cbn [length]. rewrite (proj2 (Z.leb_gt _ _)) by lia. f_equal. cbn. lia. }
  assert (El : length (lines (l :: ls)) = (length l + 2 + length (lines ls))%nat) by (rewrite lines_cons, !length_app; cbn; lia).
  pose proof (section_round pos l ls Ht Hl Hls) as H. destruct (_ <=? _); [|destruct H as [-> Hf]; unfold values; cbn; rewrite Hf; f_equal; cbn; lia].
  destruct H as (E1 & E2 & E3 & Hline & Ht' & Estop). destruct (view buf pos (Z.to_nat _)) as [t|]; [|done]. cbn [mbind option_bind] in E1 |- *. injection E1 as ->.
  run E2. rewrite E3. unfold values. cbn [omap list_omap]. fold (values name ls).
  assert (Hhit : (if (length name <? length l)%nat then h ← view buf pos (length name);
    if ascii_ci_eq h name then (fun c => beq c COLON) <$> buf !! (pos + length name)%nat else Some false else Some false)
    = Some (match field name l with FieldValue _ => true | _ => false end)).
  { unfold field. destruct (Nat.ltb_spec (length name) (length l)) as [Hlt|Hge].
    - rewrite <- (take_drop (length name) l) in Hline. assert (Hlt' : length (take (length name) l) = length name) by (rewrite length_take; lia).
      pose proof (text_view _ _ _ _ _ Hline) as Ev. rewrite Hlt' in Ev. run Ev. rewrite ascii_ci_eq_spec by done. destruct (ci_eq _ name); [|done].
      apply text_skip in Hline. rewrite Hlt' in Hline. destruct (drop (length name) l) as [|c v] eqn:Ed; [apply (f_equal length) in Ed; rewrite length_drop in Ed; cbn in Ed; lia|].
      destruct (text_cons _ _ _ _ _ Hline) as (-> & _). cbn. destruct (beq c COLON); [done|]. by destruct (ows c).
    - destruct (ci_eq _ name); [|done]. by rewrite drop_ge by lia. }
  rewrite Hhit. cbn [mbind option_bind]. rewrite Estop, (IH rounds _ _ Ht') by lia. f_equal. destruct (field name l); cbn [length]; lia.
Qed.
End Lines.

(** ** What a handler sees *)

Definition is_http11 (req : HttpRequest) : bool := (slen (version req) =? 8) && ci_eq (slice_text (buffer req) (version req)) (bytes_of "HTTP/1.1").

Section Handler.
Context (req : HttpRequest) (h : msg_head) (b : list byte) (max_header max_body : Z).
Context (Hbuf : buffer req = head_bytes h ++ b) (Hreq : request max_header max_body h b).
Context (Hfields : header_fields req = mkSlice (length (request_line h) + 2) (Z.of_nat (length (section (fields h))))).

Lemma fields_text : text (buffer req) (length (request_line h) + 2) (length (buffer req)) (lines (fields h) ++ CRLF ++ b).
Proof.
  pose proof (text_whole (buffer req)) as Ht. rewrite Hbuf in Ht at 3. unfold head_bytes in Ht. rewrite <- !app_assoc in Ht. apply text_skip, text_skip in Ht. exact Ht.
Qed.

Lemma section_size : if slen (header_fields req) <=? 0 then fields h = []
  else Z.of_nat (start (header_fields req)) + slen (header_fields req) = section_stop (length (request_line h) + 2) (fields h).
Proof.
  rewrite Hfields. cbn [slen start]. rewrite section_length. unfold section_stop. destruct Hreq as [[_ Hwf] _ _]. destruct (fields h) as [|l ls]; [done|].
  inversion_clear Hwf as [|? ? [Hn _] _]. rewrite lines_cons, !length_app. change (length CRLF) with 2%nat. assert (length l <> O) by (by destruct l).
  rewrite (proj2 (Z.leb_gt _ _)) by lia. lia.
Qed.

Lemma header_value name : name <> [] ->
  exists v, get_header_value_slice req name = Some v /\ is_value (buffer req) v (hd_error (values name (fields h))).
Proof.
  intros Hn. unfold get_header_value_slice. pose proof section_size as Hs. destruct (_ <=? 0); [exists None; rewrite Hs; done|]. rewrite Hs.
  pose proof fields_text as Ht. pose proof (text_length _ _ _ _ Ht) as Hl. rewrite length_app in Hl. rewrite Hfields. cbn [start].
  apply (header_loop _ _ b Hn); [by destruct Hreq as [[_ Hwf] _ _] | done | lia].
Qed.

Lemma header_count name : name <> [] -> count_header req name = Some (Z.of_nat (length (values name (fields h)))).
Proof.
  intros Hn. unfold count_header. pose proof section_size as Hs. destruct (_ <=? 0); [by rewrite Hs|]. rewrite Hs.
  pose proof fields_text as Ht. pose proof (text_length _ _ _ _ Ht) as Hl. rewrite length_app in Hl. rewrite Hfields at 1. cbn [start].
  rewrite (count_loop_spec _ _ b Hn); [f_equal; lia | by destruct Hreq as [[_ Hwf] _ _] | done | lia].
Qed.

(** A framed request has one length or a transfer coding, not both. *)
Lemma framing_fields :
  hd_error (values content_length_name (fields h)) = None \/
  hd_error (values transfer_encoding_name (fields h)) = None /\ exists v n, hd_error (values content_length_name (fields h)) = Some v /\ length_value v = Some n /\ framing_of h = Some (Fixed n).
Proof.
  destruct Hreq as [_ _ (f & Hf & _)]. pose proof Hf as Hf'. unfold framing_of in Hf. destruct (existsb _ _); [done|].
  destruct (values transfer_encoding_name (fields h)) as [|t ts]; destruct (values content_length_name (fields h)) as [|v vs]; [by left | | by left | by cbn in Hf].
  destruct (length_value v) as [n|] eqn:Ev; [|done]. cbn [mbind option_bind] in Hf. destruct (forallb _ vs); [|done]. right. split; [done|]. exists v, n.
  split; [done|]. split; [done|]. congruence.
Qed.

Lemma content_length_framed : content_length req = Some (match framing_of h with Some (Fixed n) => n | _ => -1 end).
Proof.
  unfold content_length. destruct (header_value content_length_name) as (r & E & Hr); [done|]. run E. destruct framing_fields as [Hn|(_ & v & n & Hv & Hlv & Hf)].
  - rewrite Hn in Hr. cbn in Hr. subst r. destruct Hreq as [_ _ (f & Hf & _)]. rewrite Hf. f_equal. unfold framing_of in Hf. destruct (existsb _ _); [done|].
    destruct (values content_length_name (fields h)); [|done]. destruct (values transfer_encoding_name (fields h)); [by injection Hf as <-|]. destruct (_ && _); [by injection Hf as <- | done].
  - rewrite Hv in Hr. destruct Hr as (s & -> & Ht & Hs). run (parse_content_length_spec _ _ _ Ht Hs). by rewrite Hlv, Hf.
Qed.

Lemma validate_framed :
  slice_in (buffer req) (version req) -> validate_http1 req = Some (negb (is_http11 req) || (length (values (bytes_of "Host") (fields h)) =? 1)%nat).
Proof.
  intros [Hv1 Hv2]. unfold validate_http1, is_http11. rewrite header_count by done. cbn [fmap option_fmap option_map].
  assert (Hhost : (Z.of_nat (length (values (bytes_of "Host") (fields h))) =? 1) = (length (values (bytes_of "Host") (fields h)) =? 1)%nat) by (apply eq_true_iff_eq; rewrite Z.eqb_eq, Nat.eqb_eq; lia).
  assert (Hboth : forall ok : bool, (if negb ok then Some false else cl ← get_header_value_slice req content_length_name;
    match cl with None => Some true | Some _ => te ← get_header_value_slice req transfer_encoding_name; Some (match te with None => true | Some _ => false end) end) = Some ok).
  { intros ok. destruct ok; [|done]. cbn [negb]. destruct (header_value content_length_name) as (r & E & Hr); [done|]. run E. destruct framing_fields as [Hn|(Hn & _)].
    - rewrite Hn in Hr. cbn in Hr. by subst r.
    - destruct (header_value transfer_encoding_name) as (r' & E' & Hr'); [done|]. rewrite Hn in Hr'. cbn in Hr'. subst r'. run E'. by destruct r. }
  destruct (Z.eqb_spec (slen (version req)) 8) as [E8|]; cbn [andb negb orb mbind option_bind]; [|apply (Hboth true)].
  unfold slice_text. rewrite E8. rewrite (view_spec _ _ _ _ eq_refl) by lia. cbn [mbind option_bind].
  rewrite ascii_ci_eq_spec by (rewrite length_take, length_drop; change (length (bytes_of "HTTP/1.1")) with 8%nat; lia). change (Z.to_nat 8) with 8%nat.
  destruct (ci_eq _ (bytes_of "HTTP/1.1")); cbn [mbind option_bind negb orb]; [rewrite Hhost; apply Hboth | apply (Hboth true)].
Qed.
End Handler.

Lemma request_line_exact buf m t v tail :
  buf = (m ++ SP :: t ++ SP :: v) ++ CRLF ++ tail -> SP ∉ m -> m <> [] -> SP ∉ t -> CR ∉ t -> t <> [] -> CR ∉ v -> (12 <= length buf)%nat ->
  request_line_end (new_request buf) =
    Some (mkRequest buf (mkSlice 0 (Z.of_nat (length m))) (mkSlice (length m + 1) (Z.of_nat (length t))) (mkSlice (length m + 1 + length t + 1) (Z.of_nat (length v))) empty_slice empty_slice,
          Z.of_nat (length (m ++ SP :: t ++ SP :: v) + 2)).
Proof.
  intros Eb Hm Hm0 Ht Htc Ht0 Hv Hlen. unfold request_line_end. cbn [new_request buffer]. rewrite (proj2 (Nat.ltb_ge _ _)) by done. 
  assert (Eb' : buf = m ++ [SP] ++ t ++ [SP] ++ v ++ CRLF ++ tail) by (rewrite Eb, <- app_assoc; cbn [app]; by rewrite <- app_assoc). pose proof (text_whole buf) as Tx. rewrite Eb' in Tx at 3.
  assert (Efb : find_byte SP buf = Some (length m)) by (rewrite Eb, <- !app_assoc; by apply find_byte_app). rewrite Efb. destruct (length m) as [|k] eqn:Ek; [by destruct m|]. rewrite <- Ek. clear Efb.
  apply text_skip, text_skip in Tx. cbn [Nat.add length] in Tx. set (pos := (length m + 1)%nat) in *.
  destruct (text_scan (fun b => beq b SP) _ _ _ _ Tx) as [Es _]. assert (Htw : take_while (fun b => beq b SP) (t ++ [SP] ++ v ++ CRLF ++ tail) = []).
  { apply take_while_stops. destruct t as [|c t]; [done|]. cbn. apply beq_false. intros ->. apply Ht. left. }
  rewrite Htw in Es. cbn [length] in Es. rewrite Nat.add_0_r in Es. run Es. pose proof (text_length _ _ _ _ Tx) as Hl. rewrite !length_app in Hl. cbn [length] in Hl. change (length CRLF) with 2%nat in Hl.
  assert (length t <> O) by (by destruct t). rewrite (proj2 (Nat.eqb_neq pos (length buf))) by lia. unfold request_target. cbn [new_request buffer].
  change (buffer (_ <| method := _ |>)) with buf. replace (length buf - pos)%nat with (length (t ++ [SP] ++ v ++ CRLF ++ tail)) by (rewrite !length_app; cbn [length]; change (length CRLF) with 2%nat; lia).
  rewrite (text_view_whole _ _ _ _ Tx). cbn [mbind option_bind]. change ([SP] ++ v ++ CRLF ++ tail) with (SP :: v ++ CRLF ++ tail) at 1. rewrite (find_byte_app SP t) by done.
  replace (t ++ [SP] ++ v ++ CRLF ++ tail) with ((t ++ SP :: v) ++ CR :: LF :: tail) by (by rewrite <- app_assoc). rewrite find_byte_app.
  2: { rewrite not_elem_of_app, not_elem_of_cons. done. }
  rewrite length_app. cbn [length]. rewrite (proj2 (Nat.ltb_lt (length t) (length t + S (length v)))), (proj2 (Nat.ltb_ge (length t + S (length v)) (length t))) by lia.
  apply text_skip, text_skip in Tx. cbn [length] in Tx. set (vs := (pos + length t + 1)%nat) in *.
  change (buffer (_ <| method := _ |> <| path := _ |>)) with buf.
  replace (length buf - vs)%nat with (length (v ++ CRLF ++ tail)) by (rewrite !length_app; change (length CRLF) with 2%nat; unfold vs; lia). rewrite (text_view_whole _ _ _ _ Tx). cbn [mbind option_bind].
  change (v ++ CRLF ++ tail) with (v ++ CR :: LF :: tail). rewrite (find_byte_app CR v) by done. apply text_skip in Tx. destruct (text_cons _ _ _ _ _ Tx) as (_ & Tx2 & _). destruct (text_cons _ _ _ _ _ Tx2) as (El & _ & Hlt).
  unfold expect_lf. rewrite (proj2 (Nat.leb_gt _ _)) by lia. rewrite Nat.add_1_r. run El. rewrite (proj2 (beq_true LF LF)) by done. cbn [mbind option_bind].
  f_equal. f_equal; [|rewrite !length_app; cbn [length]; rewrite length_app; cbn [length]; unfold vs, pos; f_equal; lia].
  by replace (Z.of_nat (pos + length t) - Z.of_nat pos) with (Z.of_nat (length t)) by lia.
Qed.

(** [decode_into] behind a request line that ends at the framer's first line. *)
Lemma decode_into_ok h b req1 :
  head_wf h ->
  request_line_end (new_request (head_bytes h ++ b)) = Some (req1, Z.of_nat (length (request_line h) + 2)) ->
  exists req, decode_into (new_request (head_bytes h ++ b)) = Some (req, true) /\ method req = method req1 /\ path req = path req1 /\ version req = version req1.
Proof.
  intros [Hl Hls] E. unfold decode_into. rewrite E. cbn [mbind option_bind new_request buffer]. rewrite (proj2 (Z.ltb_ge _ _)) by lia. rewrite Nat2Z.id. set (buf := head_bytes h ++ b).
  set (hs := (length (request_line h) + 2)%nat).
  assert (Ht : text buf hs (length buf) (lines (fields h) ++ CRLF ++ b)).
  { pose proof (text_whole buf) as Ht. unfold buf at 3 in Ht. unfold head_bytes in Ht. rewrite <- !app_assoc in Ht. by apply text_skip, (text_skip _ _ _ CRLF) in Ht. }
  destruct (empty_section_spec buf hs _ Ht) as (emp & -> & Hemp). cbn [mbind option_bind]. destruct emp; [by eexists|].
  assert (Hne : fields h <> []) by (intros Hf; rewrite Hf in Hemp; enough (false = true) by done; apply Hemp; by exists b). pose proof (text_length _ _ _ _ Ht) as Hlen.
  replace (length buf - hs)%nat with (length (lines (fields h) ++ CRLF ++ b)) by lia. rewrite (text_view_whole _ _ _ _ Ht). cbn [mbind option_bind]. rewrite (memmem_lines _ _ Hls Hne). destruct (_ =? _)%nat; by eexists.
Qed.

Lemma slice_text_at buf i e s : text buf i e s -> slice_text buf (mkSlice i (Z.of_nat (length s))) = s.
Proof.
  intros Ht. pose proof (text_length _ _ _ _ Ht) as Hl. destruct Ht as [Ht Hb]. unfold slice_text. cbn [start slen]. rewrite Nat2Z.id. by replace (length s) with (e - i)%nat by lia.
Qed.

(** A request line of RFC 9112, section 3: method, target and version, one space between. *)
Record line_parts (l m t v : list byte) : Prop := {
  lp_line : l = m ++ SP :: t ++ SP :: v;
  lp_method : m <> [] /\ (SP ∉ m);
  lp_target : t <> [] /\ (SP ∉ t) /\ (CR ∉ t);
  lp_version : (4 <= length v)%nat /\ (CR ∉ v)
}.

Lemma line_parts_decode h b m t v : head_wf h -> line_parts (request_line h) m t v ->
  exists req, decode_into (new_request (head_bytes h ++ b)) = Some (req, true) /\
    slice_text (head_bytes h ++ b) (method req) = m /\ slice_text (head_bytes h ++ b) (path req) = t /\ slice_text (head_bytes h ++ b) (version req) = v.
Proof.
  intros Hwf [El [Hm0 Hm] (Ht0 & Ht & Htc) [Hv4 Hv]]. set (buf := head_bytes h ++ b).
  assert (Eb : buf = (m ++ SP :: t ++ SP :: v) ++ CRLF ++ (lines (fields h) ++ CRLF ++ b)) by (unfold buf, head_bytes; rewrite El; by rewrite <- !app_assoc).
  assert (H12 : (12 <= length buf)%nat).
  { rewrite Eb, !length_app. cbn [length]. rewrite length_app. cbn [length]. change (length CRLF) with 2%nat. destruct m; [done|]. destruct t; [done|]. cbn [length]. lia. }
  pose proof (request_line_exact buf m t v _ Eb Hm Hm0 Ht Htc Ht0 Hv H12) as E. rewrite <- El in E.
  destruct (decode_into_ok h b _ Hwf E) as (req & Ed & D1 & D2 & D3). exists req. split; [done|]. rewrite D1, D2, D3. cbn [method path version].
  assert (Eb' : buf = m ++ [SP] ++ t ++ [SP] ++ v ++ CRLF ++ lines (fields h) ++ CRLF ++ b) by (rewrite Eb, <- app_assoc; cbn [app]; by rewrite <- app_assoc).
  pose proof (text_whole buf) as Tx. rewrite Eb' in Tx at 3. split; [by apply text_prefix, slice_text_at in Tx|]. apply text_skip, text_skip in Tx. split; [by apply text_prefix, slice_text_at in Tx|].
  apply text_skip, text_skip in Tx. by apply text_prefix, slice_text_at in Tx.
Qed.

(** C8: A handler sees the request the server framed, if its request line holds a space.
    Decoding the bytes the framer delimited never leaves the buffer. It succeeds on every
    request line of a method, a target and a version, and gives these three. Whenever it
    succeeds on a request line that holds a space, the body it finds is the framed one, each
    header lookup gives the first line of that name in any case, [content_length] is the
    length the body was framed by (-1 for none), and [validate_http1] checks exactly the one
    Host field, since a request with both Content-Length and Transfer-Encoding never gets
    there. A request line without a space, which the framer lets pass, is read on into the
    next line: [method_spans_lines]. *)
Theorem handler_sees_framed_request buf max_header max_body r :
  buf_fits buf -> frame_request_length_lim_idx buf max_header max_body = Some r -> 0 <= r ->
  exists h b req ok, take (Z.to_nat r) buf = head_bytes h ++ b /\ request max_header max_body h b /\
    decode_into (new_request (take (Z.to_nat r) buf)) = Some (req, ok) /\
    (forall m t v, line_parts (request_line h) m t v ->
       ok = true /\ slice_text (buffer req) (method req) = m /\ slice_text (buffer req) (path req) = t /\ slice_text (buffer req) (version req) = v) /\
    (ok = true -> SP ∈ request_line h ->
       slice_text (buffer req) (body req) = b /\
       content_length req = Some (match framing_of h with Some (Fixed n) => n | _ => -1 end) /\
       (forall name, name <> [] -> exists v, get_header_value_slice req name = Some v /\ is_value (buffer req) v (hd_error (values name (fields h)))) /\
       validate_http1 req = Some (negb (is_http11 req) || (length (values (bytes_of "Host") (fields h)) =? 1)%nat)).
Proof.
  intros Hfits E Hr. destruct (frame_sound buf max_header max_body Hfits) as (r' & E' & Hs). assert (r' = r) as -> by congruence.
  destruct Hs as [[-> _]|[Hs%refusal_neg|(h & b & rest & Eb & Hq & _ & ->)]]; [lia | lia|].
  assert (Em : take (Z.to_nat (Z.of_nat (length (head_bytes h)) + Z.of_nat (length b))) buf = head_bytes h ++ b).
  { rewrite Eb, app_assoc. apply take_app_length'. rewrite length_app. lia. }
  rewrite Em. destruct (decode_into_spec (new_request (head_bytes h ++ b))) as (req & ok & Ed & Hbuf & Hver & Hdec). exists h, b, req, ok.
  split; [done|]. split; [done|]. split; [done|]. cbn [new_request buffer] in *. split.
  { intros m t v Hlp. destruct (line_parts_decode h b m t v (req_head _ _ _ _ Hq) Hlp) as (req' & Ed' & H'). rewrite Ed in Ed'. injection Ed' as -> ->. by rewrite Hbuf. }
  intros Hok Hsp.
  destruct (Hdec h b eq_refl (req_head _ _ _ _ Hq) Hsp Hok) as (Hf & Hb & _). rewrite <- Hbuf in Hb. split; [done|].
  split; [by apply (content_length_framed req h b max_header max_body)|]. split; [intros name Hn; by apply (header_value req h b max_header max_body)|].
  apply (validate_framed req h b max_header max_body); [done | done | done|]. rewrite Hbuf. apply Hver, empty_slice_in.
Qed.

Lemma handler_sees_framed_request_witness :
  exists h b req ok, take 44 post_example = head_bytes h ++ b /\ request 0 0 h b /\
    decode_into (new_request (take 44 post_example)) = Some (req, ok) /\
    (forall m t v, line_parts (request_line h) m t v ->
       ok = true /\ slice_text (buffer req) (method req) = m /\ slice_text (buffer req) (path req) = t /\ slice_text (buffer req) (version req) = v) /\
    (ok = true -> SP ∈ request_line h ->
       slice_text (buffer req) (body req) = b /\
       content_length req = Some (match framing_of h with Some (Fixed n) => n | _ => -1 end) /\
       (forall name, name <> [] -> exists v, get_header_value_slice req name = Some v /\ is_value (buffer req) v (hd_error (values name (fields h)))) /\
       validate_http1 req = Some (negb (is_http11 req) || (length (values (bytes_of "Host") (fields h)) =? 1)%nat)).
Proof. apply (handler_sees_framed_request post_example 0 0 44); [by vm_compute | by vm_compute | lia]. Defined.

(** Without a space in the request line, the method runs on into the next line. *)
Lemma method_spans_lines :
  let m := bytes_of "GET" ++ CRLF ++ bytes_of "Host: a b" ++ CRLF ++ CRLF in
  frame_request_length_lim_idx m 0 0 = Some (Z.of_nat (length m)) /\
  exists req, decode_into (new_request m) = Some (req, true) /\ slice_text m (method req) = bytes_of "GET" ++ CRLF ++ bytes_of "Host:".
Proof. split; [by vm_compute|]. eexists. split; by vm_compute. Qed.

(** The wrappers add nothing: no read outside of the buffer, one error text per code. *)
Lemma decode_http_request_total buf : exists r, decode_http_request buf = Some r /\ match r with inl req => buffer req = buf | inr e => e = bytes_of "malformed request head" end.
Proof.
  unfold decode_http_request. destruct (decode_into_spec (new_request buf)) as (req & ok & E & Hb & _). run E. eexists. split; [done|]. by destruct ok.
Qed.

Lemma parse_http1_request_line_total req : exists req' r, parse_http1_request_line req = Some (req', r) /\ buffer req' = buffer req /\
  match r with inl e => 0 <= e <= Z.of_nat (length (buffer req)) | inr m => m <> [] end.
Proof.
  unfold parse_http1_request_line. destruct (request_line_end_spec req) as (req' & e & E & Hb & He & _). run E. eexists _, _. split; [done|]. split; [done|].
  destruct (Z.ltb_spec e 0); [|by split; [|apply He]]. unfold request_line_error. by repeat case_match.
Qed.

Lemma to_string_spec buf s : slice_in buf s -> to_string s buf = Some (slice_text buf s).
Proof.
  intros [H1 H2]. unfold to_string, slice_text. destruct (Z.leb_spec (slen s) 0); [by replace (Z.to_nat (slen s)) with O by lia|].
  by rewrite (view_spec _ _ _ _ eq_refl) by lia.
Qed.
