(* ===== verification/HttpSizing.v ===== *)
(** What the read loops ask before a request is complete: [frame_head_len],
    [frame_expected_total] and [head_expects_100_continue] of
    http1_1/request_parser/request_parser.v, and that they agree with the framer. *)
From S2P Require Import Prelude WireBytes HttpScan HttpField HttpChunk HttpFrame.
Local Open Scope Z_scope.

(** ** The code *)

(** [for { ... }] of [frame_head_len]. *)
Fixpoint head_len_loop (fuel : nat) (buf : list byte) (pos : nat) : option Z :=
  match fuel with
  | O => None
  | S f =>
      if (length buf <=? pos)%nat then Some (-1)
      else
        b ← blank_line buf pos;
        match b with
        | Partial => Some (-1)
        | Blank => Some (Z.of_nat pos + 2)
        | Text =>
            lf ← find_lf buf pos;
            match lf with None => Some (-1) | Some line_lf => head_len_loop f buf (pos + line_lf + 1) end
        end
  end.

Definition frame_head_len (buf : list byte) : option Z :=
  if (length buf <? 4)%nat then Some (-1)
  else
    lf ← find_lf buf 0;
    match lf with None => Some (-1) | Some rl => head_len_loop (S (length buf)) buf (rl + 1) end.

(** [for { ... }] of [frame_expected_total]. *)
Fixpoint total_loop (fuel : nat) (buf : list byte) (pos : nat) (content_length : Z) : option Z :=
  match fuel with
  | O => None
  | S f =>
      if (length buf <=? pos)%nat then Some (-1)
      else
        b ← blank_line buf pos;
        match b with
        | Partial => Some (-1)
        | Blank => Some (if 0 <=? content_length then i32 (Z.of_nat pos + 2 + content_length) else -1)
        | Text =>
            lf ← find_lf buf pos;
            match lf with
            | None => Some (-1)
            | Some line_lf =>
                c ← buf !! (pos + line_lf - 1)%nat;
                if negb (beq c CR) then Some (-1)
                else
                  v ← line_header_value buf pos (line_lf - 1) content_length_name;
                  match v with
                  | None => total_loop f buf (pos + line_lf + 1) content_length
                  | Some v =>
                      n ← parse_content_length buf v;
                      match n with None => Some (-1) | Some n => total_loop f buf (pos + line_lf + 1) n end
                  end
            end
        end
  end.

Definition frame_expected_total (buf : list byte) : option Z :=
  if (length buf <? 4)%nat then Some (-1)
  else
    lf ← find_lf buf 0;
    match lf with
    | None | Some O => Some (-1)
    | Some (S r) =>
        c ← buf !! r;
        if negb (beq c CR) then Some (-1) else total_loop (S (length buf)) buf (S (S r)) (-1)
    end.

(** [for i := val.start; i <= last; i++], [n] rounds left. *)
Fixpoint contains_loop (n : nat) (buf needle : list byte) (i : nat) : option bool :=
  match n with
  | O => Some false
  | S n' => t ← view buf i (length needle); if ascii_ci_eq t needle then Some true else contains_loop n' buf needle (S i)
  end.

Definition ci_contains (buf : list byte) (val : Slice) (needle : list byte) : option bool :=
  if slen val <? Z.of_nat (length needle) then Some false
  else contains_loop (Z.to_nat (slen val) - length needle + 1) buf needle (start val).

(** One field line; a line of a lone LF has [line_len] -1 in the code and 0 here, both too
    short for the name. *)
Definition expect_line (buf : list byte) (line_start line_len : nat) : option bool :=
  v ← line_header_value buf line_start line_len (bytes_of "Expect");
  match v with None => Some false | Some v => ci_contains buf v (bytes_of "100-continue") end.

(** [for pos < head_len]. *)
Fixpoint expect_loop (fuel : nat) (buf : list byte) (head_len pos : nat) : option bool :=
  match fuel with
  | O => None
  | S f =>
      if (head_len <=? pos)%nat then Some false
      else
        c ← buf !! pos;
        if beq c CR then Some false
        else
          t ← view buf pos (head_len - pos);
          match find_byte LF t with
          | None => Some false
          | Some line_lf =>
              hit ← expect_line buf pos (line_lf - 1);
              if (hit : bool) then Some true else expect_loop f buf head_len (pos + line_lf + 1)
          end
  end.

Definition head_expects_100_continue (buf : list byte) (head_len : nat) : option bool :=
  if (head_len =? 0)%nat || (length buf <? head_len)%nat then Some false
  else
    t ← view buf 0 head_len;
    match find_byte LF t with None => Some false | Some rl => expect_loop (S head_len) buf head_len (rl + 1) end.

(** ** They agree with the framer *)

Lemma head_len_loop_spec buf b ls : Forall line_wf ls -> forall fuel pos,
  text buf pos (length buf) (lines ls ++ CRLF ++ b) -> (length (lines ls) < fuel)%nat ->
  head_len_loop fuel buf pos = Some (Z.of_nat (pos + length (lines ls) + 2)).
Proof.
  induction 1 as [|l ls [Hn Hl] _ IH]; intros fuel pos Ht Hf; (destruct fuel as [|fuel]; [lia|]); cbn [head_len_loop].
  - rewrite (text_end _ _ _ _ Ht), bool_decide_eq_false_2 by done. run (blank_line_blank _ _ _ Ht). f_equal. cbn. lia.
  - assert (El : length (lines (l :: ls)) = (length l + 2 + length (lines ls))%nat) by (rewrite lines_cons, !length_app; cbn; lia).
    rewrite lines_cons, <- !app_assoc in Ht. rewrite (text_end _ _ _ _ Ht), bool_decide_eq_false_2 by (by destruct l).
    destruct (blank_line_line _ _ _ _ Ht Hn Hl) as (E1 & E2 & _ & Ht' & _). run E1. run E2.
    replace (pos + S (length l) + 1)%nat with (pos + length l + 2)%nat by lia. rewrite (IH fuel _ Ht') by lia. f_equal. lia.
Qed.

Lemma total_loop_spec buf b max_body ls : Forall line_wf ls -> forall fuel pos w w',
  text buf pos (length buf) (lines ls ++ CRLF ++ b) -> (length (lines ls) < fuel)%nat -> walk_lines max_body w ls = Some w' ->
  total_loop fuel buf pos (clen w) = Some (if 0 <=? clen w' then i32 (Z.of_nat (pos + length (lines ls) + 2) + clen w') else -1).
Proof.
  induction 1 as [|l ls [Hn Hl] _ IH]; intros fuel pos w w' Ht Hf Hw; (destruct fuel as [|fuel]; [lia|]); cbn [total_loop].
  - injection Hw as <-. rewrite (text_end _ _ _ _ Ht), bool_decide_eq_false_2 by done. run (blank_line_blank _ _ _ Ht).
    change (length (lines [])) with O. replace (Z.of_nat (pos + 0 + 2)) with (Z.of_nat pos + 2) by lia. done.
  - assert (El : length (lines (l :: ls)) = (length l + 2 + length (lines ls))%nat) by (rewrite lines_cons, !length_app; cbn; lia).
    rewrite lines_cons, <- !app_assoc in Ht. rewrite (text_end _ _ _ _ Ht), bool_decide_eq_false_2 by (by destruct l).
    destruct (blank_line_line _ _ _ _ Ht Hn Hl) as (E1 & E2 & E3 & Ht' & [Hline Hb]). run E1. run E2.
    replace (pos + S (length l) - 1)%nat with (pos + length l)%nat by lia. run E3. change (beq CR CR) with true. cbn [negb].
    replace (S (length l) - 1)%nat with (length l) by lia. replace (pos + length l - pos)%nat with (length l) in Hline by lia.
    pose proof (line_header_value_spec buf pos (length l) content_length_name l Hline ltac:(lia)) as Hv.
    cbn [walk_lines] in Hw. unfold line_ref in Hw. replace (pos + S (length l) + 1)%nat with (pos + length l + 2)%nat by lia.
    replace (pos + length (lines (l :: ls)) + 2)%nat with (pos + length l + 2 + length (lines ls) + 2)%nat by lia.
    destruct (field content_length_name l) as [| |v]; cbn [field_at] in Hv.
    + run Hv. destruct (field transfer_encoding_name l) as [| |v]; [by apply (IH fuel _ w w' Ht'); [lia|] | done|].
      destruct (te_value (chunked w) v) as [c|]; [|done]. cbn [mbind option_bind] in Hw. by apply (IH fuel _ (mkWalk (clen w) c true) w' Ht'); [lia|].
    + done.
    + destruct Hv as (s & Hv & Htk & Hs). run Hv. run (parse_content_length_spec buf s v Htk ltac:(lia)). destruct (length_value v) as [n|]; [|done].
      cbn [mbind option_bind] in Hw. destruct (_ && negb _); [done|]. destruct (_ && _); [done|]. cbn [mbind option_bind] in Hw.
      by apply (IH fuel _ (mkWalk n (chunked w) (te_seen w)) w' Ht'); [lia|].
Qed.

(** The sizing hints hold for any buffer with a complete head: [frame_head_len] is where
    its body begins, and [frame_expected_total] is the length the framer will answer once
    a body of fixed length has arrived, -1 for the others. *)
Theorem sizing_agrees_with_framer max_header max_body h body b :
  request max_header max_body h body -> buf_fits (head_bytes h ++ b) ->
  frame_head_len (head_bytes h ++ b) = Some (Z.of_nat (length (head_bytes h))) /\
  frame_expected_total (head_bytes h ++ b)
    = Some (match framing_of h with Some (Fixed n) => Z.of_nat (length (head_bytes h)) + n | _ => -1 end).
Proof.
  intros Hq Hfits. destruct (frame_walk max_header max_body h body Hq) as (f & w & Hf & Hw & Hv & _ & _). destruct Hq as [[Hl Hwf] _ _].
  pose proof (length_head_bytes h) as Hlh. set (buf := head_bytes h ++ b) in *.
  assert (Eb : buf = request_line h ++ CRLF ++ lines (fields h) ++ CRLF ++ b) by (unfold buf, head_bytes; by rewrite <- !app_assoc).
  assert (Hlen : length buf = (length (head_bytes h) + length b)%nat) by apply length_app.
  assert (Ef : find_lf buf 0 = Some (Some (S (length (request_line h))))).
  { rewrite (find_lf_spec _ _ _ (text_whole buf)). f_equal. rewrite Eb.
    replace (request_line h ++ CRLF ++ lines (fields h) ++ CRLF ++ b) with ((request_line h ++ [CR]) ++ LF :: lines (fields h) ++ CRLF ++ b) by (by rewrite <- app_assoc).
    rewrite find_byte_app, length_app; [cbn [length]; f_equal; lia|]. apply not_elem_of_app. split; [done|]. apply not_elem_of_cons. split; [apply LF_not_CR | apply not_elem_of_nil]. }
  pose proof (text_whole buf) as Ht. rewrite Eb in Ht at 3. apply text_skip in Ht. destruct (text_cons _ _ _ _ _ Ht) as (Ecr & Ht1 & _). destruct (text_cons _ _ _ _ _ Ht1) as (_ & Ht2 & _).
  cbn [Nat.add] in Ecr, Ht2. split.
  - unfold frame_head_len. rewrite (proj2 (Nat.ltb_ge _ _)) by lia. run Ef. replace (S (length (request_line h)) + 1)%nat with (S (S (length (request_line h)))) by lia.
    rewrite (head_len_loop_spec buf b (fields h) Hwf _ _ Ht2) by lia. f_equal. lia.
  - unfold frame_expected_total. rewrite (proj2 (Nat.ltb_ge _ _)) by lia. run Ef. run Ecr. change (beq CR CR) with true. cbn [negb].
    rewrite (total_loop_spec buf b max_body (fields h) Hwf _ _ (mkWalk (-1) false false) w Ht2) by (done || lia). rewrite Hf. f_equal.
    destruct (walk_ok _ _ _ Hw) as [Hc _]. unfold framing_verdict in Hv. destruct (te_seen w).
    + destruct (chunked w); [|done]. destruct (Z.leb_spec 0 (clen w)); cbn in Hv; [done|]. destruct (is_http10 _); [done|]. by injection Hv as <-.
    + destruct (Z.leb_spec 0 (clen w)); injection Hv as <-; [|done]. rewrite max_declared_val in Hc. unfold buf_fits in Hfits. rewrite i32_small by lia. lia.
Qed.

(** ** Expect: 100-continue *)

(** [needle] occurs in [v], in any case. *)
Definition mentions (v needle : list byte) : Prop := exists a m b, v = a ++ m ++ b /\ ci_eq m needle = true.

Lemma mentions_short v needle : (length v < length needle)%nat -> ~ mentions v needle.
Proof. intros Hl (a & m & b & -> & Hm). apply ci_eq_length in Hm. rewrite !length_app in Hl. lia. Qed.

Lemma mentions_tail c s needle : ci_eq (take (length needle) (c :: s)) needle = false -> mentions (c :: s) needle <-> mentions s needle.
Proof.
  intros Hh. split; intros (a & m & b & E & Hm); [|exists (c :: a), m, b; by rewrite E].
  destruct a as [|c' a]; [|injection E as -> E; by exists a, m, b].
  exfalso. pose proof (ci_eq_length _ _ Hm) as El. cbn [app] in E. rewrite E, <- El, take_app_length, Hm in Hh. done.
Qed.

Lemma contains_loop_spec buf needle n i e s :
  text buf i e s -> (n + length needle = S (length s))%nat ->
  exists r, contains_loop n buf needle i = Some r /\ (r = true <-> mentions s needle).
Proof.
  revert i s. induction n as [|n IH]; intros i s Ht Hn; cbn [contains_loop].
  { exists false. split; [done|]. split; [done|]. intros Hm. exfalso. revert Hm. apply mentions_short. lia. }
  rewrite <- (take_drop (length needle) s) in Ht. assert (El : length (take (length needle) s) = length needle) by (rewrite length_take; lia).
  pose proof (text_view _ _ _ _ _ Ht) as Hv. rewrite El in Hv. run Hv. rewrite take_drop in Ht. rewrite ascii_ci_eq_spec by done.
  destruct (ci_eq (take _ s) needle) eqn:Eh.
  - exists true. split; [done|]. split; [intros _|done]. exists [], (take (length needle) s), (drop (length needle) s). split; [by rewrite take_drop | done].
  - destruct s as [|c s].
    { assert (needle = []) as -> by (apply length_zero_iff_nil; cbn in Hn; lia). done. }
    destruct (text_cons _ _ _ _ _ Ht) as (_ & Ht' & _). destruct (IH _ _ Ht' ltac:(cbn in Hn; lia)) as (r & Er & Hr).
    exists r. split; [done|]. by rewrite Hr, mentions_tail.
Qed.

Lemma ci_contains_spec buf s v needle :
  take (length v) (drop s buf) = v -> (s + length v <= length buf)%nat ->
  exists r, ci_contains buf (mkSlice s (Z.of_nat (length v))) needle = Some r /\ (r = true <-> mentions v needle).
Proof.
  intros Hv Hs. unfold ci_contains. cbn [start slen]. destruct (Z.ltb_spec (Z.of_nat (length v)) (Z.of_nat (length needle))).
  - exists false. split; [done|]. split; [done|]. intros Hm. exfalso. revert Hm. apply mentions_short. lia.
  - apply (contains_loop_spec buf needle _ s (s + length v)); [|lia]. split; [|lia]. by replace (s + length v - s)%nat with (length v) by lia.
Qed.

(** A field line that asks for the interim response. *)
Definition expects (l : list byte) : Prop := exists v, field (bytes_of "Expect") l = FieldValue v /\ mentions v (bytes_of "100-continue").

Lemma expect_line_spec buf pos n l :
  take n (drop pos buf) = l -> (pos + n <= length buf)%nat -> exists r, expect_line buf pos n = Some r /\ (r = true <-> expects l).
Proof.
  intros Hl Hn. unfold expect_line. pose proof (line_header_value_spec buf pos n (bytes_of "Expect") l Hl Hn) as Hv. unfold expects. destruct (field _ l) as [| |v].
  - run Hv. exists false. split; [done|]. split; [done|]. by intros (v & [= ] & _).
  - run Hv. exists false. split; [done|]. split; [done|]. by intros (v & [= ] & _).
  - destruct Hv as (s & Hv & Htk & Hs). run Hv. destruct (ci_contains_spec buf s v (bytes_of "100-continue") Htk ltac:(lia)) as (r & Er & Hr).
    exists r. split; [done|]. rewrite Hr. split; [by exists v | by intros (v' & [= <-] & Hm)].
Qed.

(** The scan of a head ends at the first line that begins with a CR. *)
Definition no_cr (l : list byte) : bool := match l with b :: _ => negb (beq b CR) | [] => false end.

Lemma text_view_all buf i e s : text buf i e s -> view buf i (e - i) = Some s.
Proof.
  intros H. pose proof (text_length _ _ _ _ H) as Hl. replace (e - i)%nat with (length s) by lia.
  rewrite <- (app_nil_r s) in H. by apply text_view in H.
Qed.

Lemma expect_loop_spec buf e ls : (e <= length buf)%nat -> Forall line_wf ls -> forall fuel pos,
  text buf pos e (lines ls ++ CRLF) -> (length (lines ls) < fuel)%nat ->
  exists r, expect_loop fuel buf e pos = Some r /\ (r = true <-> Exists expects (take_while no_cr ls)).
Proof.
  intros He. induction 1 as [|l ls [Hn Hl] _ IH]; intros fuel pos Ht Hf; (destruct fuel as [|fuel]; [lia|]); cbn [expect_loop];
    rewrite (text_end _ _ _ _ Ht), bool_decide_eq_false_2 by (try destruct l; done).
  { destruct (text_cons _ _ _ _ _ Ht) as (E & _ & _). run E. change (beq CR CR) with true. exists false. cbn. by rewrite Exists_nil. }
  assert (El : length (lines (l :: ls)) = (length l + 2 + length (lines ls))%nat) by (rewrite lines_cons, !length_app; cbn; lia).
  rewrite lines_cons, <- !app_assoc in Ht. destruct l as [|c l]; [done|]. destruct (text_cons _ _ _ _ _ Ht) as (E & _ & _). run E. cbn [take_while no_cr].
  destruct (beq c CR); cbn [negb]; [exists false; by rewrite Exists_nil|]. set (l0 := c :: l) in *.
  pose proof (text_view_all _ _ _ _ Ht) as Hv. run Hv. replace (l0 ++ CRLF ++ lines ls ++ CRLF) with ((l0 ++ [CR]) ++ LF :: lines ls ++ CRLF) by (by rewrite <- app_assoc).
  rewrite find_byte_app by (apply not_elem_of_app; split; [done|]; apply not_elem_of_cons; split; [apply LF_not_CR | apply not_elem_of_nil]).
  rewrite length_app. cbn [length]. pose proof (text_prefix _ _ _ _ _ Ht) as [Hline Hb].
  replace (pos + length l0 - pos)%nat with (length l0) in Hline by lia. replace (length l0 + 1 - 1)%nat with (length l0) by lia.
  destruct (expect_line_spec buf pos (length l0) l0 Hline ltac:(lia)) as (r & Er & Hr). run Er.
  destruct r; [exists true; split; [done|]; rewrite Exists_cons, <- Hr; split; [by left | done]|].
  rewrite app_assoc in Ht. apply text_skip in Ht. rewrite length_app in Ht. change (length CRLF) with 2%nat in Ht.
  replace (pos + (length l0 + 1) + 1)%nat with (pos + (length l0 + 2))%nat by lia. destruct (IH fuel _ Ht ltac:(lia)) as (r & Er' & Hr').
  exists r. split; [done|]. rewrite Hr', Exists_cons, <- Hr. split; [by right | by intros [[=]|?]].
Qed.

(** The interim response is asked for by exactly the heads with such a field line. *)
Theorem expects_100_continue h b : head_wf h -> exists r,
  head_expects_100_continue (head_bytes h ++ b) (length (head_bytes h)) = Some r /\ (r = true <-> Exists expects (take_while no_cr (fields h))).
Proof.
  intros [Hl Hwf]. pose proof (length_head_bytes h) as Hlh. set (buf := head_bytes h ++ b). assert (Hlen : length buf = (length (head_bytes h) + length b)%nat) by apply length_app.
  assert (Ht : text buf 0 (length (head_bytes h)) (head_bytes h)).
  { split; [|lia]. rewrite Nat.sub_0_r, drop_0. apply take_app_length. }
  unfold head_expects_100_continue. rewrite (proj2 (Nat.eqb_neq _ _)), (proj2 (Nat.ltb_ge _ _)) by lia. cbn [orb].
  pose proof (text_view_all _ _ _ _ Ht) as Hv. rewrite Nat.sub_0_r in Hv. run Hv.
  unfold head_bytes in Ht at 2. unfold head_bytes at 1. replace (request_line h ++ CRLF ++ lines (fields h) ++ CRLF) with ((request_line h ++ [CR]) ++ LF :: lines (fields h) ++ CRLF) by (by rewrite <- app_assoc).
  rewrite find_byte_app by (apply not_elem_of_app; split; [done|]; apply not_elem_of_cons; split; [apply LF_not_CR | apply not_elem_of_nil]).
  rewrite app_assoc in Ht. apply text_skip in Ht. rewrite !length_app in *. change (length CRLF) with 2%nat in Ht. cbn [length Nat.add] in *.
  replace (length (request_line h) + 1 + 1)%nat with (length (request_line h) + 2)%nat by lia. apply expect_loop_spec; [lia | done | done | lia].
Qed.
