(* ===== verification/HttpQuery.v ===== *)
(** Query strings: [query_element], [get_query_slice], [has_query], [get_query] and
    [percent_decode_into] of http1_1/request_parser/request_parser.v, against the
    parameters of application/x-www-form-urlencoded. *)
From S2P Require Import Prelude WireBytes HttpScan HttpField HttpChunk HttpFrame HttpRequest HttpSizing.
Local Open Scope Z_scope.

Definition QMARK : byte := byte_of_Z 63.
Definition AMP : byte := byte_of_Z 38.
Definition PERCENT : byte := byte_of_Z 37.
Definition PLUS : byte := byte_of_Z 43.

(** ** The code *)

(** [memcmp(&buf[pos], &key[0], key.len) == 0], when the key ends by [e]. *)
Definition element_starts (buf key : list byte) (pos e : nat) : option bool :=
  if (pos + length key <=? e)%nat then k ← view buf pos (length key); Some (bool_decide (k = key)) else Some false.

(** The body of the loop for the element from [pos] to [e]: [Some] is a return. *)
Definition element_check (buf key : list byte) (bare_ok : bool) (pos e : nat) : option (option (option Slice)) :=
  let after := (pos + length key)%nat in
  hit ← element_starts buf key pos e;
  if (hit : bool) then
    match find_byte EQUALS key with
    | Some _ => Some (Some None)
    | None =>
        eq ← at_byte buf after e EQUALS;
        if (eq : bool) then Some (Some (Some (mkSlice after (Z.of_nat e - Z.of_nat after))))
        else if (after =? e)%nat && bare_ok then Some (Some (Some (mkSlice after 0)))
        else Some None
    end
  else Some None.

(** [for pos < path_end]. *)
Fixpoint element_loop (fuel : nat) (buf : list byte) (path_end : nat) (key : list byte) (bare_ok : bool) (pos : nat) : option (option Slice) :=
  match fuel with
  | O => None
  | S f =>
      if (path_end <=? pos)%nat then Some None
      else
        t ← view buf pos (path_end - pos);
        let e := match find_byte AMP t with None => path_end | Some amp => (pos + amp)%nat end in
        r ← element_check buf key bare_ok pos e;
        match r with Some r => Some r | None => element_loop f buf path_end key bare_ok (e + 1) end
  end.

Definition query_element (buf : list byte) (path : Slice) (key : list byte) (bare_ok : bool) : option (option Slice) :=
  if (length key =? 0)%nat || (slen path =? 0) then Some None
  else
    t ← view buf (start path) (Z.to_nat (slen path));
    match find_byte QMARK t with
    | None => Some None
    | Some q_pos => element_loop (S (Z.to_nat (slen path))) buf (start path + Z.to_nat (slen path)) key bare_ok (start path + q_pos + 1)
    end.

Definition get_query_slice (req : HttpRequest) (key : list byte) : option (option Slice) :=
  v ← query_element (buffer req) (path req) key false;
  Some (match v with None => None | Some v => Some (mkSlice (start v + 1) (slen v - 1)) end).

Definition has_query (req : HttpRequest) (key : list byte) : option bool :=
  v ← query_element (buffer req) (path req) key true; Some (match v with None => false | Some _ => true end).

Definition get_query (req : HttpRequest) (key : list byte) : option Slice :=
  v ← get_query_slice req key; Some (match v with None => empty_slice | Some v => v end).

(** [for i < src.len], with [dst] the bytes written so far. *)
Fixpoint percent_loop (fuel : nat) (src : list byte) (plus_as_space : bool) (i : nat) (dst : list byte) : option (list byte) :=
  match fuel with
  | O => None
  | S f =>
      if (length src <=? i)%nat then Some dst
      else
        c ← src !! i;
        if beq c PERCENT && (S i + 1 <? length src)%nat then
          h ← src !! S i;
          l ← src !! (S i + 1)%nat;
          if (0 <=? hex_digit h) && (0 <=? hex_digit l)
          then percent_loop f src plus_as_space (S i + 2) (dst ++ [byte_of_Z (Z.lor (Z.shiftl (hex_digit h) 4) (hex_digit l))])
          else percent_loop f src plus_as_space (S i) (dst ++ [c])
        else if beq c PLUS && plus_as_space then percent_loop f src plus_as_space (S i) (dst ++ [SP])
        else percent_loop f src plus_as_space (S i) (dst ++ [c])
  end.

Definition percent_decode_into (src out : list byte) (plus_as_space : bool) : option (list byte) :=
  if (length src =? 0)%nat then Some out
  else d ← percent_loop (S (length src)) src plus_as_space 0 []; Some (out ++ d).

(** ** Parameters *)

(** The name of an element, and its value behind the first '=' if it has one. *)
Definition param (el : list byte) : list byte * option (list byte) :=
  match find_byte EQUALS el with None => (el, None) | Some k => (take k el, Some (drop (S k) el)) end.

Definition query_part (target : list byte) : list byte :=
  match find_byte QMARK target with None => [] | Some k => drop (S k) target end.

Definition params (target : list byte) : list (list byte * option (list byte)) := param <$> split_on AMP (query_part target).

Fixpoint first_value (key : list byte) (ps : list (list byte * option (list byte))) : option (list byte) :=
  match ps with
  | [] => None
  | (k, Some v) :: ps' => if bool_decide (k = key) then Some v else first_value key ps'
  | (_, None) :: ps' => first_value key ps'
  end.

Definition has_param (key : list byte) (ps : list (list byte * option (list byte))) : bool := existsb (fun p => bool_decide (p.1 = key)) ps.

(** The escapes of the WHATWG URL standard: a '%' without two hex digits stands for itself. *)
Fixpoint decoded (plus : bool) (l : list byte) : list byte :=
  match l with
  | [] => []
  | c :: l' =>
      let c' := if beq c PLUS && plus then SP else c in
      match l' with
      | h :: k :: l'' =>
          if beq c PERCENT && (hexit h && hexit k) then byte_of_Z (hex_digit h * 16 + hex_digit k) :: decoded plus l''
          else c' :: decoded plus l'
      | _ => c' :: decoded plus l'
      end
  end.

(** ** Percent decoding *)

Lemma hex_pair h k : hexit h = true -> hexit k = true -> Z.lor (Z.shiftl (hex_digit h) 4) (hex_digit k) = hex_digit h * 16 + hex_digit k.
Proof.
  unfold hexit. intros Hh%Z.leb_le Hk%Z.leb_le. pose proof (hex_digit_range k). by rewrite lor_shiftl by lia.
Qed.

Lemma percent_not_plus c : beq c PERCENT = true -> beq c PLUS = false.
Proof. intros ->%beq_true. done. Qed.

Lemma percent_loop_spec plus src fuel i dst s :
  text src i (length src) s -> (length s < fuel)%nat -> percent_loop fuel src plus i dst = Some (dst ++ decoded plus s).
Proof.
  revert i dst s. induction fuel as [|fuel IH]; intros i dst s Ht Hf; [lia|]. cbn [percent_loop]. rewrite (text_end _ _ _ _ Ht).
  destruct s as [|c s]; [by rewrite bool_decide_eq_true_2, app_nil_r|]. rewrite bool_decide_eq_false_2 by done.
  destruct (text_cons _ _ _ _ _ Ht) as (Ec & Ht1 & _). run Ec. pose proof (text_length _ _ _ _ Ht1) as Hl. cbn [length] in Hf.
  assert (Hc : forall c', percent_loop fuel src plus (S i) (dst ++ [c']) = Some (dst ++ c' :: decoded plus s)).
  { intros c'. rewrite (IH _ _ _ Ht1) by lia. by rewrite <- app_assoc. }
  destruct s as [|h [|k s]].
  1,2: rewrite (proj2 (Nat.ltb_ge (S i + 1) _)) by (cbn in Hl; lia); rewrite andb_false_r; cbn [decoded] in *; destruct (beq c PLUS && plus); apply Hc.
  rewrite (proj2 (Nat.ltb_lt (S i + 1) _)), andb_true_r by (cbn in Hl; lia). cbn [decoded].
  destruct (text_cons _ _ _ _ _ Ht1) as (Eh & Ht2 & _). destruct (text_cons _ _ _ _ _ Ht2) as (Ek & Ht3 & _).
  destruct (beq c PERCENT) eqn:Ep; cbn [andb]; [|destruct (beq c PLUS && plus); apply Hc].
  run Eh. replace (S i + 1)%nat with (S (S i)) by lia. run Ek. change (0 <=? hex_digit h) with (hexit h). change (0 <=? hex_digit k) with (hexit k). rewrite (percent_not_plus _ Ep). cbn [andb].
  destruct (hexit h && hexit k) eqn:E; [|apply Hc]. apply andb_prop in E as [Eh' Ek']. rewrite hex_pair by done.
  replace (S i + 2)%nat with (S (S (S i))) by lia. rewrite (IH _ _ _ Ht3) by (cbn in Hf; lia). by rewrite <- app_assoc.
Qed.

Lemma percent_decode_into_spec src out plus : percent_decode_into src out plus = Some (out ++ decoded plus src).
Proof.
  unfold percent_decode_into. destruct src as [|c src]; [by rewrite app_nil_r|]. cbn [length Nat.eqb].
  rewrite (percent_loop_spec plus (c :: src) _ 0 [] (c :: src)); [done | by apply text_suffix; [|cbn; lia] | cbn; lia].
Qed.

Lemma decoded_length plus l : (length (decoded plus l) <= length l)%nat.
Proof.
  enough (H : forall n l, (length l <= n)%nat -> (length (decoded plus l) <= length l)%nat) by (by apply (H (length l))).
  clear l. induction n as [|n IH]; intros l Hl; [destruct l; [done | cbn in Hl; lia]|].
  destruct l as [|c [|h [|k l]]]; [done | cbn; lia | cbn; lia|]. cbn [length] in Hl.
  pose proof (IH l ltac:(lia)). pose proof (IH (h :: k :: l) ltac:(cbn [length]; lia)) as H2. remember (h :: k :: l) as m eqn:Em.
  cbn [decoded]. rewrite Em. destruct (_ && (_ && _)); rewrite <- ?Em; cbn [length]; [subst m; cbn [length]; lia | lia].
Qed.

(** The other direction: the bytes [safe] says need no escape, and %XX for the rest. *)
Definition hex_char (n : Z) : byte := byte_of_Z (if n <? 10 then 48 + n else 55 + n).

Definition percent_encode (safe : byte -> bool) (l : list byte) : list byte :=
  concat ((fun b => if safe b then [b] else [PERCENT; hex_char (byte_val b / 16); hex_char (byte_val b mod 16)]) <$> l).

(** No byte with a meaning in a query string goes unescaped. *)
Definition query_safe (safe : byte -> bool) : Prop := forall c, c ∈ [PERCENT; PLUS; AMP; EQUALS; QMARK] -> safe c = false.

Lemma percent_encode_cons safe b l :
  percent_encode safe (b :: l) = (if safe b then [b] else [PERCENT; hex_char (byte_val b / 16); hex_char (byte_val b mod 16)]) ++ percent_encode safe l.
Proof. done. Qed.

Lemma escape_byte b : let h := hex_char (byte_val b / 16) in let k := hex_char (byte_val b mod 16) in
  hexit h = true /\ hexit k = true /\ byte_of_Z (hex_digit h * 16 + hex_digit k) = b /\
  (forall c, c ∈ [AMP; EQUALS; QMARK] -> c <> PERCENT /\ c <> h /\ c <> k).
Proof.
  assert (H : forall b, (let h := hex_char (byte_val b / 16) in let k := hex_char (byte_val b mod 16) in
     hexit h && hexit k && beq (byte_of_Z (hex_digit h * 16 + hex_digit k)) b &&
     forallb (fun c => negb (beq c PERCENT) && negb (beq c h) && negb (beq c k)) [AMP; EQUALS; QMARK])%bool = true)
    by (apply byte_cases; vm_compute; reflexivity).
  specialize (H b). cbv zeta in H |- *. apply andb_prop in H as [H H4]. apply andb_prop in H as [H H3]. apply andb_prop in H as [H1 H2]. apply beq_true in H3.
  split; [done|]. split; [done|]. split; [done|]. intros c Hc. rewrite forallb_forall in H4. specialize (H4 c (proj1 (list_elem_of_In _ _) Hc)).
  apply andb_prop in H4 as [H4 Hk%negb_true_iff%beq_false]. by apply andb_prop in H4 as [Hp%negb_true_iff%beq_false Hh%negb_true_iff%beq_false].
Qed.

Lemma decoded_encode safe plus l : query_safe safe -> decoded plus (percent_encode safe l) = l.
Proof.
  intros Hs. induction l as [|b l IH]; [done|]. rewrite percent_encode_cons. destruct (safe b) eqn:Eb.
  - assert (Hp : beq b PERCENT = false /\ beq b PLUS = false).
    { split; apply beq_false; intros ->; rewrite Hs in Eb by (rewrite !elem_of_cons; auto); done. }
    destruct Hp as [Hp Hq]. cbn [app decoded]. rewrite Hp, Hq, IH. cbn [andb]. by destruct (percent_encode safe l) as [|? [|? ?]].
  - destruct (escape_byte b) as (Hh & Hk & E & _). cbn [app decoded]. rewrite Hh, Hk, E, IH. done.
Qed.

Lemma encode_free safe l c : query_safe safe -> c ∈ [AMP; EQUALS; QMARK] -> c ∉ percent_encode safe l.
Proof.
  intros Hs Hc. induction l as [|b l IH]; [apply not_elem_of_nil|]. rewrite percent_encode_cons, not_elem_of_app. split; [|done].
  destruct (safe b) eqn:Eb.
  - rewrite list_elem_of_singleton. intros ->. rewrite Hs in Eb; [done|]. by do 2 right.
  - destruct (escape_byte b) as (_ & _ & _ & H). destruct (H c Hc) as (H1 & H2 & H3). rewrite !not_elem_of_cons. repeat split; try done. apply not_elem_of_nil.
Qed.

Lemma encode_inj safe a b : query_safe safe -> percent_encode safe a = percent_encode safe b -> a = b.
Proof. intros Hs E. by rewrite <- (decoded_encode safe false a Hs), E, decoded_encode. Qed.

(** ** Looking a parameter up *)

Lemma param_value key v : EQUALS ∉ key -> param (key ++ EQUALS :: v) = (key, Some v).
Proof.
  intros Hk. unfold param. rewrite find_byte_app by done. rewrite take_app_length. f_equal. f_equal.
  by rewrite (drop_app_ge _ _ _ (Nat.le_succ_diag_r _)), Nat.sub_succ_l, Nat.sub_diag by lia.
Qed.

Lemma param_bare key : EQUALS ∉ key -> param key = (key, None).
Proof. intros Hk%find_byte_None. unfold param. by rewrite Hk. Qed.

Lemma param_name el : (EQUALS ∉ (param el).1) /\ exists r, el = (param el).1 ++ r.
Proof.
  unfold param. destruct (find_byte EQUALS el) as [k|] eqn:E; cbn [fst].
  - apply find_byte_Some in E as (a & b & -> & Ha & <-). rewrite take_app_length. split; [done|]. eauto.
  - apply find_byte_None in E. split; [done|]. exists []. by rewrite app_nil_r.
Qed.

(** An element that goes on behind the key in another way has another name. *)
Lemma param_other key el : (forall v, el <> key ++ EQUALS :: v) -> el <> key -> (param el).1 <> key.
Proof.
  intros Hv Hn E. unfold param in E. destruct (find_byte EQUALS el) as [k|] eqn:Ef; cbn [fst] in E; [|done].
  apply find_byte_Some in Ef as (a & b & -> & Ha & <-). rewrite take_app_length in E. subst a. by apply (Hv b).
Qed.

Lemma params_no_equals key (els : list (list byte)) : EQUALS ∈ key -> first_value key (param <$> els) = None /\ has_param key (param <$> els) = false.
Proof.
  intros Hk. induction els as [|el els [IH1 IH2]]; [done|]. destruct (param_name el) as [Hn _]. rewrite fmap_cons. unfold has_param in *.
  cbn [first_value existsb]. destruct (param el) as [n v]; cbn [fst] in *. rewrite bool_decide_eq_false_2 by (intros ->; done). cbn [orb].
  split; [by destruct v | done].
Qed.

Section element.
Context (buf key : list byte) (bare_ok : bool).

Definition element_result (el : list byte) (pos : nat) (r : option (option Slice)) : Prop :=
  match r with
  | Some None => EQUALS ∈ key
  | Some (Some s) => start s = (pos + length key)%nat /\
      ((exists v, param el = (key, Some v) /\ el = key ++ EQUALS :: v /\ slen s = Z.of_nat (length v) + 1) \/ (param el = (key, None) /\ bare_ok = true))
  | None => (param el).1 <> key \/ (param el = (key, None) /\ bare_ok = false)
  end.

Lemma element_check_spec pos e el : text buf pos e el -> exists r, element_check buf key bare_ok pos e = Some r /\ element_result el pos r.
Proof.
  intros Ht. pose proof (text_length _ _ _ _ Ht) as Hl. unfold element_check, element_starts. destruct (Nat.leb_spec (pos + length key) e) as [Hk|Hk].
  2:{ exists None. split; [done|]. left. intros E. destruct (param_name el) as [_ [r Er]]. rewrite E in Er. rewrite Er, length_app in Hl. lia. }
  assert (Hlen : length (take (length key) el) = length key) by (rewrite length_take; lia). rewrite <- (take_drop (length key) el) in Ht.
  pose proof (text_view _ _ _ _ _ Ht) as Hv. rewrite Hlen in Hv. run Hv. destruct (bool_decide_reflect (take (length key) el = key)) as [E|E].
  2:{ exists None. split; [done|]. left. intros E'. destruct (param_name el) as [_ [r Er]]. rewrite E' in Er. apply E. by rewrite Er, take_app_length. }
  destruct (find_byte EQUALS key) as [k|] eqn:Ef.
  { exists (Some None). split; [done|]. apply find_byte_Some in Ef as (a & b & Ef & _). cbn. rewrite Ef. apply elem_of_app. right. left. }
  apply find_byte_None in Ef. apply text_skip in Ht. rewrite Hlen in Ht. run (at_byte_spec _ _ _ _ EQUALS Ht). pose proof (take_drop (length key) el) as Ee. rewrite E in Ee.
  destruct (drop (length key) el) as [|c v]; cbn [length] in *.
  - rewrite app_nil_r in Ee. rewrite (proj2 (Nat.eqb_eq _ _)) by (rewrite <- Ee in Hl; lia). cbn [andb].
    destruct bare_ok eqn:Eb; (eexists; split; [done|]); cbn; rewrite <- Ee, (param_bare key Ef); [split; [done|]; by right | by right].
  - rewrite <- Ee, length_app in Hl. cbn [length] in Hl. destruct (beq c EQUALS) eqn:Ec.
    + apply beq_true in Ec as ->. eexists. split; [done|]. cbn. split; [done|]. left. exists v. rewrite <- Ee. split; [by apply param_value|]. split; [done | lia].
    + rewrite (proj2 (Nat.eqb_neq _ _)) by lia. cbn [andb]. exists None. split; [done|]. left. apply beq_false in Ec.
      apply param_other; rewrite <- Ee; [intros w Ew; apply app_inv_head in Ew; congruence|]. intros Ew. rewrite <- (app_nil_r key) in Ew at 2. by apply app_inv_head in Ew.
Qed.

(** What the code hands out of an element. *)
Definition found (r : option Slice) (ps : list (list byte * option (list byte))) : Prop :=
  if bare_ok then bool_decide (r <> None) = has_param key ps
  else is_value buf (match r with None => None | Some v => Some (mkSlice (start v + 1) (slen v - 1)) end) (first_value key ps).

Lemma found_none ps : first_value key ps = None -> has_param key ps = false -> found None ps.
Proof. intros H1 H2. unfold found. rewrite H1, H2. by destruct bare_ok. Qed.

Lemma found_here pos e el els s : text buf pos e el -> element_result el pos (Some (Some s)) -> found (Some s) (param <$> el :: els).
Proof.
  intros Ht (Hs & Hr). unfold found. rewrite fmap_cons. destruct Hr as [(v & Ev & Ee & Hv)|[Ev Eb]].
  - rewrite Ev. unfold has_param. cbn [existsb first_value fst]. rewrite (bool_decide_eq_true_2 (key = key)), (bool_decide_eq_true_2 (Some s <> None)) by done.
    destruct bare_ok; [done|]. cbn [is_value]. exists (pos + length key + 1)%nat. split; [by rewrite Hs, Hv, Z.add_simpl_r|].
    rewrite Ee in Ht. replace (key ++ EQUALS :: v) with ((key ++ [EQUALS]) ++ v) in Ht by (by rewrite <- app_assoc). apply text_skip in Ht.
    rewrite length_app, Nat.add_assoc in Ht. cbn [length] in Ht. pose proof (text_length _ _ _ _ Ht). destruct Ht as [Ht Hb]. split; [|lia].
    by replace (length v) with (e - (pos + length key + 1))%nat by lia.
  - rewrite Ev, Eb. unfold has_param. cbn [existsb fst]. by rewrite !bool_decide_eq_true_2.
Qed.

Lemma found_later pos el els r : element_result el pos None -> found r (param <$> els) -> found r (param <$> el :: els).
Proof.
  intros Hr. unfold found, has_param. rewrite fmap_cons. destruct (param el) as [n v] eqn:Ep. cbn [existsb first_value fst].
  unfold element_result in Hr. rewrite Ep in Hr. cbn [fst] in Hr. destruct Hr as [Hn|[[= -> ->] ->]]; [|done].
  rewrite (bool_decide_eq_false_2 (n = key)) by done. by destruct v.
Qed.

Lemma element_loop_spec fuel pos e s : key <> [] -> text buf pos e s -> (length s < fuel)%nat ->
  exists r, element_loop fuel buf e key bare_ok pos = Some r /\ found r (param <$> split_on AMP s).
Proof.
  intros Hk. revert pos s. induction fuel as [|fuel IH]; intros pos s Ht Hf; [lia|]. cbn [element_loop]. rewrite (text_end _ _ _ _ Ht).
  destruct (bool_decide_reflect (s = [])) as [->|Hs].
  { exists None. split; [done|]. apply found_none; [done|]. unfold has_param. cbn. by rewrite bool_decide_eq_false_2. }
  run (text_view_all _ _ _ _ Ht). pose proof (text_length _ _ _ _ Ht) as Hl.
  destruct (find_byte AMP s) as [k|] eqn:Ef.
  - apply find_byte_Some in Ef as (el & s' & -> & Ha & <-). rewrite split_on_app by done. pose proof (text_prefix _ _ _ _ _ Ht) as Hel.
    destruct (element_check_spec _ _ _ Hel) as ([[r|]|] & Er & Hr); run Er.
    + exists (Some r). split; [done|]. by apply (found_here pos (pos + length el)).
    + exists None. split; [done|]. destruct (params_no_equals key (el :: split_on AMP s') Hr). by apply found_none.
    + replace (el ++ AMP :: s') with ((el ++ [AMP]) ++ s') in Ht by (by rewrite <- app_assoc). apply text_skip in Ht. rewrite length_app, Nat.add_assoc in Ht. cbn [length] in Ht.
      rewrite length_app in Hf. cbn [length] in Hf. destruct (IH _ _ Ht ltac:(lia)) as (r & Er' & Hr'). exists r. split; [done|]. by apply (found_later pos).
  - apply find_byte_None in Ef. rewrite split_on_none by done. destruct (element_check_spec _ _ _ Ht) as ([[r|]|] & Er & Hr); run Er.
    + exists (Some r). split; [done|]. by apply (found_here pos e).
    + exists None. split; [done|]. destruct (params_no_equals key [s] Hr). by apply found_none.
    + destruct fuel as [|fuel]; [destruct s; [done | cbn in Hf; lia]|]. cbn [element_loop]. rewrite (proj2 (Nat.leb_le _ _)) by lia.
      exists None. split; [done|]. apply (found_later pos); [done|]. by apply found_none.
Qed.

Lemma query_element_spec path : key <> [] -> slice_in buf path ->
  exists r, query_element buf path key bare_ok = Some r /\ found r (params (slice_text buf path)).
Proof.
  intros Hk [Hp Hp']. unfold query_element. destruct (Nat.eqb_spec (length key) 0); [by destruct key|]. cbn [orb].
  assert (Hno : forall b : list byte, found None (param <$> split_on AMP [])).
  { intros _. apply found_none; [done|]. unfold has_param. cbn. by rewrite bool_decide_eq_false_2. }
  unfold params, query_part, slice_text. destruct (Z.eqb_spec (slen path) 0) as [E|E].
  { exists None. split; [done|]. rewrite E. change (take (Z.to_nat 0) (drop (start path) buf)) with (@nil byte). by apply Hno. }
  run (view_spec _ _ _ (Z.to_nat (slen path)) (eq_refl (drop (start path) buf)) ltac:(lia)).
  assert (Ht : text buf (start path) (start path + Z.to_nat (slen path)) (take (Z.to_nat (slen path)) (drop (start path) buf))).
  { split; [|lia]. f_equal. lia. }
  revert Ht. generalize (take (Z.to_nat (slen path)) (drop (start path) buf)). intros t Ht. pose proof (text_length _ _ _ _ Ht) as Hl. destruct (find_byte QMARK t) as [k|] eqn:Ef.
  - apply find_byte_Some in Ef as (a & q & -> & Ha & <-). replace (a ++ QMARK :: q) with ((a ++ [QMARK]) ++ q) in Ht |- * by (by rewrite <- app_assoc).
    apply text_skip in Ht. rewrite drop_app_length' by (rewrite length_app; cbn; lia). rewrite length_app, Nat.add_assoc in Ht. cbn [length] in Ht.
    rewrite length_app in Hl. cbn [length] in Hl. apply element_loop_spec; [done | done | lia].
  - exists None. split; [done|]. by apply Hno.
Qed.

End element.

(** Every lookup is the one in the list of parameters, whatever the request target holds. *)
Lemma query_lookup req key : key <> [] -> slice_in (buffer req) (path req) ->
  let ps := params (slice_text (buffer req) (path req)) in
  (exists r, get_query_slice req key = Some r /\ is_value (buffer req) r (first_value key ps)) /\ has_query req key = Some (has_param key ps).
Proof.
  intros Hk Hp. cbv zeta. split.
  - unfold get_query_slice. destruct (query_element_spec (buffer req) key false (path req) Hk Hp) as (r & Er & Hr). run Er. eexists. split; [done | exact Hr].
  - unfold has_query. destruct (query_element_spec (buffer req) key true (path req) Hk Hp) as (r & Er & Hr). run Er. f_equal. unfold found in Hr. rewrite <- Hr.
    by destruct r.
Qed.

(** A query string as a client writes it. *)
Fixpoint query_string (safe : byte -> bool) (kvs : list (list byte * list byte)) : list byte :=
  match kvs with
  | [] => []
  | (k, v) :: kvs' =>
      percent_encode safe k ++ [EQUALS] ++ percent_encode safe v ++ match kvs' with [] => [] | _ => AMP :: query_string safe kvs' end
  end.

(** The value of the first pair named [key]. *)
Definition lookup_pair (key : list byte) (kvs : list (list byte * list byte)) : option (list byte) :=
  snd <$> find (fun p => bool_decide (p.1 = key)) kvs.

Lemma params_of_query_string safe kvs : query_safe safe -> kvs <> [] ->
  param <$> split_on AMP (query_string safe kvs) = (fun p => (percent_encode safe p.1, Some (percent_encode safe p.2))) <$> kvs.
Proof.
  intros Hs. induction kvs as [|[k v] kvs IH]; intros Hn; [done|]. rewrite fmap_cons. cbn [query_string fst snd].
  assert (Hp : param (percent_encode safe k ++ [EQUALS] ++ percent_encode safe v) = (percent_encode safe k, Some (percent_encode safe v))).
  { apply param_value, encode_free; [done|]. right. left. }
  assert (Ha : AMP ∉ percent_encode safe k ++ [EQUALS] ++ percent_encode safe v).
  { rewrite !not_elem_of_app. repeat split; try (apply encode_free; [done | left]). rewrite list_elem_of_singleton. done. }
  destruct kvs as [|p kvs].
  - rewrite app_nil_r, split_on_none by done. by rewrite fmap_cons, Hp.
  - replace (percent_encode safe k ++ [EQUALS] ++ percent_encode safe v ++ AMP :: query_string safe (p :: kvs))
      with ((percent_encode safe k ++ [EQUALS] ++ percent_encode safe v) ++ AMP :: query_string safe (p :: kvs)) by (by rewrite <- !app_assoc).
    rewrite split_on_app, fmap_cons, Hp, IH by done. done.
Qed.

Lemma encoded_lookup safe key kvs : query_safe safe ->
  let ps := (fun p => (percent_encode safe p.1, Some (percent_encode safe p.2))) <$> kvs in
  first_value (percent_encode safe key) ps = percent_encode safe <$> lookup_pair key kvs /\
  has_param (percent_encode safe key) ps = bool_decide (lookup_pair key kvs <> None).
Proof.
  intros Hs. cbv zeta. unfold has_param, lookup_pair. induction kvs as [|[k v] kvs [IH1 IH2]]; [done|]. rewrite fmap_cons. cbn [first_value existsb find fst snd].
  destruct (decide (k = key)) as [->|Hn]; [by rewrite !bool_decide_eq_true_2|].
  rewrite !(bool_decide_eq_false_2 (percent_encode safe k = _)), (bool_decide_eq_false_2 (k = key)) by (try (intros E%encode_inj); done). by rewrite IH1, IH2.
Qed.

(** Query parameters survive the trip from a client to a handler. For a target whose
    query string percent-encodes a list of pairs, looking up an encoded name gives a view
    that [percent_decode_into] turns back into the value of the first pair of that name,
    in bounds and whatever the bytes are; a missing name gives none, and [has_query] tells
    the two apart. *)
Theorem query_parameters_roundtrip safe req p kvs key out plus :
  query_safe safe -> slice_in (buffer req) (path req) -> QMARK ∉ p -> kvs <> [] -> key <> [] ->
  slice_text (buffer req) (path req) = p ++ QMARK :: query_string safe kvs ->
  (exists r, get_query_slice req (percent_encode safe key) = Some r /\
     match lookup_pair key kvs with
     | None => r = None
     | Some v => exists s, r = Some s /\ slice_in (buffer req) s /\ percent_decode_into (slice_text (buffer req) s) out plus = Some (out ++ v)
     end) /\
  has_query req (percent_encode safe key) = Some (bool_decide (lookup_pair key kvs <> None)).
Proof.
  intros Hs Hp Hq Hn Hk Et.
  assert (Hk' : percent_encode safe key <> []) by (intros E; apply Hk; apply (encode_inj safe); [done | by rewrite E]).
  destruct (query_lookup req (percent_encode safe key) Hk' Hp) as [(r & Er & Hr) Hh]. rewrite Et in Hr, Hh.
  assert (Eq : params (p ++ QMARK :: query_string safe kvs) = (fun p => (percent_encode safe p.1, Some (percent_encode safe p.2))) <$> kvs).
  { unfold params, query_part. rewrite find_byte_app by done. replace (p ++ QMARK :: query_string safe kvs) with ((p ++ [QMARK]) ++ query_string safe kvs) by (by rewrite <- app_assoc).
    rewrite drop_app_length' by (rewrite length_app; cbn; lia). by apply params_of_query_string. }
  rewrite Eq in Hr, Hh. destruct (encoded_lookup safe key kvs Hs) as [E1 E2]. rewrite E1 in Hr. rewrite E2 in Hh. split; [|done].
  exists r. split; [done|]. destruct (lookup_pair key kvs) as [v|]; [|done]. cbn in Hr. destruct Hr as (s & -> & Hv & Hb). eexists. split; [done|].
  split; [split; cbn [start slen]; lia|]. unfold slice_text. cbn [start slen]. by rewrite Nat2Z.id, Hv, percent_decode_into_spec, decoded_encode.
Qed.

(** Letters and digits go as they are. *)
Definition alnum (b : byte) : bool := digit b || (97 <=? byte_val (lower b)) && (byte_val (lower b) <=? 122).

Definition query_example : HttpRequest :=
  let buf := bytes_of "GET /a?q=x%26y&q=2&z= HTTP/1.1" in mkRequest buf (mkSlice 0 3) (mkSlice 4 17) (mkSlice 22 8) empty_slice empty_slice.

Lemma query_parameters_roundtrip_witness :
  let kvs := [(bytes_of "q", bytes_of "x&y"); (bytes_of "q", bytes_of "2"); (bytes_of "z", [])] in
  (exists r, get_query_slice query_example (percent_encode alnum (bytes_of "q")) = Some r /\
     match lookup_pair (bytes_of "q") kvs with
     | None => r = None
     | Some v => exists s, r = Some s /\ slice_in (buffer query_example) s /\ percent_decode_into (slice_text (buffer query_example) s) [] true = Some ([] ++ v)
     end) /\
  has_query query_example (percent_encode alnum (bytes_of "q")) = Some (bool_decide (lookup_pair (bytes_of "q") kvs <> None)).
Proof.
  cbv zeta. apply (query_parameters_roundtrip alnum query_example (bytes_of "/a")).
  - intros c Hc. rewrite !elem_of_cons in Hc. destruct Hc as [->|[->|[->|[->|[->|Hc]]]]]; try done. by apply not_elem_of_nil in Hc.
  - split; vm_compute; congruence.
  - by apply find_byte_None.
  - done.
  - done.
  - by vm_compute.
Defined.
