(* ===== verification/H2Request.v ===== *)
(** The rules of RFC 9113 on a request's field list, and which of them
    [validate_request_fields] of http2/conn.v decides. *)
From S2P Require Import Prelude WireBytes Huffman Hpack HttpField H2Conn.
Local Open Scope Z_scope.

(** ** Fields *)

Definition named (n : string) (f : HeaderField) : Prop := hname f = bytes_of n.

#[export] Instance named_dec n f : Decision (named n f).
Proof. unfold named. apply _. Defined.

(** A pseudo-header field of a request; an empty [:path] is not one. *)
Definition pseudo_field (f : HeaderField) : Prop :=
  named ":method" f \/ named ":scheme" f \/ (named ":path" f /\ hvalue f <> []) \/ named ":authority" f.

(** Not about the connection (RFC 9113, 8.2.2). *)
Definition regular_name (n : list byte) : Prop := n ∉ (bytes_of <$> ["connection"; "keep-alive"; "proxy-connection"; "transfer-encoding"; "upgrade"]%string).

(** 1 to 18 decimal digits. *)
Definition length_value (v : list byte) (n : Z) : Prop := (1 <= length v <= 18)%nat /\ forallb digit v = true /\ decimal v = n.

Definition regular_field (f : HeaderField) : Prop :=
  hname f <> [] /\ starts_colon (hname f) = false /\ regular_name (hname f) /\
  (named "te" f -> hvalue f = bytes_of "trailers") /\ (named "content-length" f -> exists n, length_value (hvalue f) n).

(** The characters RFC 9113, 8.2.1 allows in a name (no controls, no space, no uppercase, nothing from
    0x7f on, and a colon only in front) and in a value (no NUL, LF or CR, and no blank at an end). *)
Definition rfc_name_byte (b : byte) : Prop := 0x20 < byte_val b < 0x7f /\ ~ (0x41 <= byte_val b <= 0x5a).

Definition blank (b : byte) : Prop := byte_val b = 32 \/ byte_val b = 9.

Definition rfc_chars (f : HeaderField) : Prop :=
  Forall rfc_name_byte (hname f) /\ Forall (fun b => byte_val b <> 58) (drop 1 (hname f)) /\
  Forall (fun b => byte_val b <> 0 /\ byte_val b <> 10 /\ byte_val b <> 13) (hvalue f) /\
  Forall (fun b => ~ blank b) (option_list (head (hvalue f)) ++ option_list (last (hvalue f))).

(** What the code looks at of them: uppercase, spaces and NULs in the names of regular fields. *)
Definition lax_name (n : list byte) : Prop := Forall (fun b => ~ (65 <= byte_val b <= 90) /\ byte_val b <> 32 /\ byte_val b <> 0) n.

Definition lax_chars (f : HeaderField) : Prop := starts_colon (hname f) = false -> lax_name (hname f).

Definition times (n : string) (fs : list HeaderField) : Z := Z.of_nat (length (filter (named n) fs)).

Definition connects (f : HeaderField) : Prop := named ":method" f /\ hvalue f = bytes_of "CONNECT".

#[export] Instance connects_dec f : Decision (connects f).
Proof. unfold connects. apply _. Defined.

(** A request under the rules of RFC 9113, 8.2.2, 8.3 and 8.5, whose fields have the characters [ok] asks for;
    it declares the body length [d], or none when [d] is -1. With [rfc_chars] it is well-formed. *)
Record request_fields (ok : HeaderField -> Prop) (fs : list HeaderField) (d : Z) : Prop := {
  rf_chars : Forall ok fs;
  rf_order : exists ps rs, fs = ps ++ rs /\ Forall pseudo_field ps /\ Forall regular_field rs;
  rf_method : times ":method" fs = 1;
  rf_authority : times ":authority" fs <= 1;
  rf_target : if decide (Exists connects fs)
              then times ":scheme" fs = 0 /\ times ":path" fs = 0 /\ times ":authority" fs = 1
              else times ":scheme" fs = 1 /\ times ":path" fs = 1;
  rf_length : if decide (times "content-length" fs = 0) then d = -1 else Forall (fun f => named "content-length" f -> length_value (hvalue f) d) fs
}.

(** ** One field *)

(** A regular field the code takes. *)
Definition taken_field (f : HeaderField) : Prop :=
  hname f <> [] /\ starts_colon (hname f) = false /\ (lax_name (hname f) /\ regular_name (hname f)) /\
  (named "te" f -> hvalue f = bytes_of "trailers") /\ (named "content-length" f -> exists n, length_value (hvalue f) n).

Lemma taken_regular f : taken_field f <-> regular_field f /\ lax_chars f.
Proof. unfold taken_field, regular_field, lax_chars. tauto. Qed.

Lemma str_eq_spec a n : reflect (a = bytes_of n) (str_eq a n).
Proof. unfold str_eq. case_bool_decide; by constructor. Qed.

Lemma bad_name_spec b : bad_name_byte b = false <-> ~ (65 <= byte_val b <= 90) /\ byte_val b <> 32 /\ byte_val b <> 0.
Proof. unfold bad_name_byte. rewrite !orb_false_iff, andb_false_iff, !Z.leb_gt, !Z.eqb_neq. lia. Qed.

Lemma existsb_false {A} (p : A -> bool) l : existsb p l = false <-> Forall (fun a => p a = false) l.
Proof.
  induction l as [|a l IH]; cbn; [split; [constructor | done]|]. rewrite orb_false_iff, Forall_cons, IH. done.
Qed.

Lemma valid_regular_spec n : valid_regular_field_name n = true <-> lax_name n /\ regular_name n.
Proof.
  unfold valid_regular_field_name, lax_name, regular_name. destruct (existsb bad_name_byte n) eqn:E.
  - split; [done|]. intros [H _]. apply not_false_iff_true in E. destruct E. apply existsb_false. eapply Forall_impl; [done|]. intros b. apply bad_name_spec.
  - apply existsb_false in E. rewrite negb_true_iff, existsb_false. split.
    + intros H. split; [eapply Forall_impl; [done|]; intros b; apply bad_name_spec|]. intros (s & -> & Hs)%list_elem_of_fmap. rewrite Forall_forall in H. specialize (H s Hs). by destruct (str_eq_spec (bytes_of s) s).
    + intros [_ H]. apply Forall_forall. intros s Hs. destruct (str_eq_spec n s) as [->|]; [|done]. destruct H. by apply list_elem_of_fmap_2.
Qed.

Lemma length_loop_spec l n : 0 <= n -> length_loop l n = if forallb digit l then foldl (fun n b => n * 10 + (byte_val b - 48)) n l else -1.
Proof.
  revert n. induction l as [|b l IH]; intros n Hn; cbn [length_loop forallb foldl]; [done|]. unfold digit at 1.
  destruct (Z.ltb_spec (byte_val b) 48); cbn [orb]; [by rewrite (proj2 (Z.leb_gt _ _))|]. rewrite (proj2 (Z.leb_le _ _)) by lia.
  destruct (Z.ltb_spec 57 (byte_val b)); [by rewrite (proj2 (Z.leb_gt _ _))|]. rewrite (proj2 (Z.leb_le _ _)) by lia. cbn [andb]. apply IH. lia.
Qed.

Lemma content_length_spec v n : h2_content_length v = n /\ 0 <= n <-> length_value v n.
Proof.
  unfold h2_content_length, length_value. destruct (Nat.eqb_spec (length v) 0); cbn [orb]; [split; [lia|]; intros (? & _); lia|].
  destruct (Nat.ltb_spec 18 (length v)); [split; [lia|]; intros (? & _); lia|]. rewrite length_loop_spec by lia. destruct (forallb digit v) eqn:E; [|split; [lia|]; by intros (_ & ? & _)].
  pose proof (decimal_mono v 0 E ltac:(lia)). unfold decimal. split; [intros [<- _]; split; [lia | done] | intros (_ & _ & <-); split; [done | lia]].
Qed.

(** The counts of [validate_request_fields], whatever the fields. *)
Definition tally (v : seen) (f : HeaderField) : seen :=
  mkSeen (seen_regular v || negb (starts_colon (hname f)))
    (if decide (named ":method" f) then hvalue f else v_method v)
    (n_method v + (if decide (named ":method" f) then 1 else 0)) (n_scheme v + (if decide (named ":scheme" f) then 1 else 0))
    (n_path v + (if decide (named ":path" f) then 1 else 0)) (n_authority v + (if decide (named ":authority" f) then 1 else 0))
    (if decide (named "content-length" f) then h2_content_length (hvalue f) else declared v).

(** The field is fine after those counted in [v]. *)
Definition field_ok (v : seen) (f : HeaderField) : Prop :=
  (seen_regular v = false /\ pseudo_field f) \/
  (taken_field f /\ (named "content-length" f -> 0 <= declared v -> length_value (hvalue f) (declared v))).

Ltac names :=
  repeat match goal with
  | |- context [str_eq ?a ?n] => destruct (str_eq_spec a n)
  | |- context [decide (named ?n ?f)] => destruct (decide (named n f))
  | H : context [decide (named ?n ?f)] |- _ => destruct (decide (named n f))
  end; unfold named in *.

Lemma pseudo_colon f : pseudo_field f -> starts_colon (hname f) = true.
Proof. by intros [->|[->|[[-> _]| ->]]]. Qed.

Lemma colon_names f : starts_colon (hname f) = true -> ~ named "content-length" f /\ ~ taken_field f.
Proof. intros H. split; [intros E; rewrite E in H; done|]. intros (_ & E & _). congruence. Qed.

Lemma regular_names f n : starts_colon (bytes_of n) = true -> taken_field f -> ~ named n f.
Proof. intros H (_ & Hc & _) E. rewrite E in Hc. congruence. Qed.

Lemma validate_pseudo f v v' : starts_colon (hname f) = true -> validate_field f v = Some v' <-> seen_regular v = false /\ pseudo_field f /\ v' = tally v f.
Proof.
  intros Hc. unfold validate_field. rewrite Hc. destruct (Nat.eqb_spec (length (hname f)) 0) as [H0|H0]; [apply nil_length_inv in H0; by rewrite H0 in Hc|].
  destruct (seen_regular v) eqn:Er; [split; [done | by intros (? & _)]|]. unfold tally. destruct v as [r vm a b c d dl]. cbn in Er. subst r. cbn [seen_regular v_method n_method n_scheme n_path n_authority declared]. rewrite Hc, (decide_False (P := named "content-length" f)) by (by apply colon_names). cbn [negb orb].
  unfold pseudo_field. names;
    try (exfalso; congruence); repeat match goal with H : hname _ = bytes_of ?x, H' : hname _ = bytes_of ?y |- _ => rewrite H in H'; vm_compute in H'; discriminate H' end.
  all: destruct (Nat.eqb_spec (length (hvalue f)) 0) as [Hv|Hv]; [apply nil_length_inv in Hv | assert (hvalue f <> []) by (intros E; by rewrite E in Hv)].
  all: rewrite ?Z.add_0_r; split; [try discriminate; intros [= <-]; (split; [done|]; split; [tauto | done]) | intros (_ & Hp & ->); try done; try tauto].
Qed.

Lemma length_value_unique v a b : length_value v a -> length_value v b -> a = b.
Proof. intros (_ & _ & <-) (_ & _ & <-). done. Qed.

Lemma tally_regular f v : starts_colon (hname f) = false ->
  tally v f = v <| seen_regular := true |> <| declared := if decide (named "content-length" f) then h2_content_length (hvalue f) else declared v |>.
Proof.
  intros Hc. assert (Hn : forall n, starts_colon (bytes_of n) = true -> ~ named n f) by (intros n H E; rewrite E in Hc; congruence).
  unfold tally. rewrite !(decide_False (A := Z) (P := named ":method" f)), (decide_False (P := named ":method" f)), (decide_False (P := named ":scheme" f)), (decide_False (P := named ":path" f)), (decide_False (P := named ":authority" f)) by (by apply Hn).
  rewrite Hc. cbn [negb]. by rewrite orb_true_r, !Z.add_0_r.
Qed.

(** The [content-length] part. *)
Lemma validate_length f v v' : named "content-length" f ->
  (let n := h2_content_length (hvalue f) in
   if n <? 0 then None else if (0 <=? declared v) && negb (declared v =? n) then None else Some (v <| seen_regular := true |> <| declared := n |>)) = Some v' <->
  ((exists n, length_value (hvalue f) n) /\ (0 <= declared v -> length_value (hvalue f) (declared v))) /\ v' = v <| seen_regular := true |> <| declared := h2_content_length (hvalue f) |>.
Proof.
  intros _. cbn zeta. pose proof (content_length_spec (hvalue f) (h2_content_length (hvalue f))) as Hcl. destruct (Z.ltb_spec (h2_content_length (hvalue f)) 0) as [Hneg|Hpos].
  { split; [done|]. intros [[(n & Hn) _] _]. apply content_length_spec in Hn as [<- ?]. lia. }
  assert (Hlv : length_value (hvalue f) (h2_content_length (hvalue f))) by (by apply Hcl).
  destruct (Z.leb_spec 0 (declared v)) as [Hd|Hd]; [destruct (Z.eqb_spec (declared v) (h2_content_length (hvalue f))) as [Ed|Ed]|]; cbn [negb andb].
  - split; [intros [= <-]; rewrite Ed; eauto | by intros [_ ->]].
  - split; [done|]. intros [[_ Hl] _]. destruct Ed. eapply length_value_unique; [by apply Hl | done].
  - split; [intros [= <-]; split; [split; [eauto | lia] | done] | by intros [_ ->]].
Qed.

Lemma validate_regular f v v' : starts_colon (hname f) = false ->
  validate_field f v = Some v' <-> (taken_field f /\ (named "content-length" f -> 0 <= declared v -> length_value (hvalue f) (declared v))) /\ v' = tally v f.
Proof.
  intros Hc. rewrite tally_regular by done. unfold validate_field, taken_field. rewrite Hc.
  destruct (Nat.eqb_spec (length (hname f)) 0) as [H0|H0]; [apply nil_length_inv in H0; rewrite H0; split; [done|]; by intros [[(? & _) _] _]|].
  assert (Hne : hname f <> []) by (intros E; by rewrite E in H0).
  destruct (valid_regular_field_name (hname f)) eqn:Ev; cbn [negb]; [|split; [done|]; intros [[(_ & _ & Hr & _) _] _]; apply valid_regular_spec in Hr; congruence].
  apply valid_regular_spec in Ev. destruct (str_eq (hname f) "te" && negb (str_eq (hvalue f) "trailers")) eqn:Ete.
  { split; [done|]. intros [[(_ & _ & _ & Hte & _) _] _]. apply andb_prop in Ete as [E1 E2]. destruct (str_eq_spec (hname f) "te"); [|done]. destruct (str_eq_spec (hvalue f) "trailers"); [done | by destruct n; apply Hte]. }
  assert (Hte : named "te" f -> hvalue f = bytes_of "trailers").
  { intros E. destruct (str_eq_spec (hname f) "te"); [|done]. by destruct (str_eq_spec (hvalue f) "trailers"). }
  destruct (str_eq_spec (hname f) "content-length") as [Ecl|Ecl].
  - rewrite decide_True by done. rewrite validate_length by done. split; [intros [[? ?] ->] | intros [[(_ & _ & _ & _ & ?) ?] ->]; auto]. split; [|done]. split; [|done]. auto.
  - rewrite decide_False by done. split; [intros [= <-]; split; [|by destruct v]; split; [|done]; repeat split; try done; apply Ev | intros [_ ->]; by destruct v].
Qed.

Lemma validate_field_spec f v v' : validate_field f v = Some v' <-> field_ok v f /\ v' = tally v f.
Proof.
  unfold field_ok. destruct (starts_colon (hname f)) eqn:Hc.
  - rewrite validate_pseudo by done. destruct (colon_names f Hc) as [_ Hn]. tauto.
  - rewrite validate_regular by done. assert (~ pseudo_field f) by (intros H%pseudo_colon; congruence). tauto.
Qed.

(** ** The list *)

(** The fields that may follow; [r] is whether a regular one was seen. *)
Definition shape (r : bool) (fs : list HeaderField) : Prop :=
  if r then Forall taken_field fs else exists ps rs, fs = ps ++ rs /\ Forall pseudo_field ps /\ Forall taken_field rs.

Lemma shape_cons r f fs : shape r (f :: fs) <-> (r = false /\ pseudo_field f /\ shape false fs) \/ (taken_field f /\ shape true fs).
Proof.
  unfold shape. destruct r; [rewrite Forall_cons; split; [tauto | by intros [(? & _)|?]]|]. split.
  - intros ([|p ps] & rs & E & Hp & Hr); cbn in E.
    + subst rs. apply Forall_cons in Hr. by right.
    + injection E as -> ->. apply Forall_cons in Hp as [Hp1 Hp2]. left. split; [done|]. split; [done|]. eauto.
  - intros [(_ & Hp & ps & rs & -> & H1 & H2)|[Hr H]]; [exists (f :: ps), rs; split; [done|]; split; [by apply Forall_cons | done] | exists [], (f :: fs); split; [done|]; split; [done | by apply Forall_cons]].
Qed.

(** The lengths agree with each other and with [d0], if that is one, and make [d]. *)
Definition lengths (d0 : Z) (fs : list HeaderField) (d : Z) : Prop :=
  if decide (times "content-length" fs = 0) then d = d0
  else Forall (fun f => named "content-length" f -> length_value (hvalue f) d) fs /\ (0 <= d0 -> d0 = d).

Lemma times_cons n f fs : times n (f :: fs) = (if decide (named n f) then 1 else 0) + times n fs.
Proof. unfold times. rewrite filter_cons. destruct (decide (named n f)); cbn [length]; lia. Qed.

Lemma times_0 n fs : times n fs = 0 <-> Forall (fun f => ~ named n f) fs.
Proof.
  induction fs as [|f fs IH]; [done|]. rewrite times_cons, Forall_cons. pose proof (Nat2Z.is_nonneg (length (filter (named n) fs))). unfold times in *. destruct (decide (named n f)); [|tauto]. split; [lia | tauto].
Qed.

Lemma lengths_cons d0 f fs d : lengths d0 (f :: fs) d <->
  if decide (named "content-length" f) then exists n, length_value (hvalue f) n /\ (0 <= d0 -> d0 = n) /\ lengths n fs d else lengths d0 fs d.
Proof.
  unfold lengths. pose proof (times_cons "content-length" f fs) as Et. pose proof (Nat2Z.is_nonneg (length (filter (named "content-length") fs))) as Hnn. fold (times "content-length" fs) in Hnn.
  destruct (decide (times "content-length" (f :: fs) = 0)) as [E1|E1], (decide (named "content-length" f)) as [Hf|Hf], (decide (times "content-length" fs = 0)) as [E2|E2]; try lia; try done; rewrite ?Forall_cons.
  - split; [intros [[H1 _] H3]; exists d; auto|]. intros (n & Hn & H0 & ->). split; [|done]. split; [done|]. apply times_0 in E2. eapply Forall_impl; [done|]. by intros g Hg.
  - split; [intros [[H1 H2] H3]; exists d; auto|]. intros (n & Hn & H0 & H1 & H2). apply content_length_spec in Hn as Hp. assert (n = d) as <- by (apply H2, Hp). done.
  - tauto.
Qed.

Lemma field_ok_step v f fs d :
  field_ok v f /\ shape (seen_regular (tally v f)) fs /\ lengths (declared (tally v f)) fs d <-> shape (seen_regular v) (f :: fs) /\ lengths (declared v) (f :: fs) d.
Proof.
  rewrite shape_cons, lengths_cons. unfold field_ok. cbn [tally seen_regular declared]. split.
  - intros [[[Hr Hp]|[Hr Hl]] [Hs Hd]].
    + rewrite (pseudo_colon f Hp), Hr in Hs. destruct (colon_names f (pseudo_colon f Hp)) as [Hn _]. split; [by left|]. by destruct (decide (named "content-length" f)).
    + destruct Hr as (H1 & H2 & H3 & H4 & H5). rewrite H2, orb_true_r in Hs. split; [right; split; [done | exact Hs]|]. destruct (decide (named "content-length" f)) as [Hf|Hf]; [|done].
      destruct (H5 Hf) as [n Hn]. apply content_length_spec in Hn as Hp. destruct Hp as [E Hp]. rewrite E in Hd. exists n. split; [done|]. split; [|done]. intros H0. eapply length_value_unique; [by apply Hl | done].
  - intros [[(Hr & Hp & Hs)|[Hr Hs]] Hd].
    + destruct (colon_names f (pseudo_colon f Hp)) as [Hn _]. rewrite (pseudo_colon f Hp), Hr. destruct (decide (named "content-length" f)); [done|]. split; [by left | done].
    + destruct (Hr) as (H1 & H2 & H3 & H4 & H5). rewrite H2. cbn [negb]. rewrite orb_true_r. destruct (decide (named "content-length" f)) as [Hf|Hf].
      * destruct Hd as (n & Hn & H0 & Hd). apply content_length_spec in Hn as Hp. destruct Hp as [E Hp]. rewrite E. split; [|done]. right. split; [done|]. intros _ Hpos. by rewrite (H0 Hpos).
      * split; [by right | done].
Qed.

Lemma validate_loop_spec fs v v' :
  validate_loop fs v = Some v' <-> shape (seen_regular v) fs /\ lengths (declared v) fs (declared v') /\ v' = foldl tally v fs.
Proof.
  revert v. induction fs as [|f fs IH]; intros v; cbn [validate_loop foldl].
  - split; [intros [= <-]; split; [|done]; unfold shape; destruct (seen_regular v); [done | by exists [], []] | by intros (_ & _ & ->)].
  - pose proof (field_ok_step v f fs (declared v')) as Hstep. destruct (validate_field f v) as [v1|] eqn:E; cbn.
    + apply validate_field_spec in E as [Hok ->]. rewrite IH. tauto.
    + split; [done|]. intros (H1 & H2 & _). exfalso. assert (Hok : field_ok v f) by tauto. assert (validate_field f v = Some (tally v f)) by (by apply validate_field_spec). congruence.
Qed.

Lemma tally_counts fs v : let v' := foldl tally v fs in
  n_method v' = n_method v + times ":method" fs /\ n_scheme v' = n_scheme v + times ":scheme" fs /\ n_path v' = n_path v + times ":path" fs /\ n_authority v' = n_authority v + times ":authority" fs.
Proof.
  revert v. induction fs as [|f fs IH]; intros v; cbn [foldl]; [cbn; unfold times; cbn; lia|]. cbn zeta. rewrite !times_cons. destruct (IH (tally v f)) as (-> & -> & -> & ->). cbn [tally n_method n_scheme n_path n_authority]. lia.
Qed.

(** With one [:method], its value is the one kept. *)
Lemma tally_method fs v : times ":method" fs = 1 -> v_method (foldl tally v fs) = bytes_of "CONNECT" <-> Exists connects fs.
Proof.
  assert (H0 : forall fs v, times ":method" fs = 0 -> v_method (foldl tally v fs) = v_method v).
  { clear. intros fs. induction fs as [|f fs IH]; intros v E; [done|]. apply times_0, Forall_cons in E as [E1 E2]. cbn [foldl]. rewrite IH by (by apply times_0). cbn. by rewrite decide_False. }
  revert v. induction fs as [|f fs IH]; intros v E; [done|]. rewrite times_cons in E. rewrite Exists_cons. cbn [foldl]. unfold connects at 1. destruct (decide (named ":method" f)) as [Hf|Hf].
  - assert (E0 : times ":method" fs = 0) by lia. rewrite H0 by done. cbn [tally v_method]. rewrite decide_True by done. split; [intros H; by left|]. intros [[_ ?]|H]; [done|].
    apply times_0 in E0. apply Exists_exists in H as (g & Hg & [Hm _]). rewrite Forall_forall in E0. by destruct (E0 g Hg).
  - rewrite IH by lia. tauto.
Qed.

Lemma lengths_declared fs v d : lengths (declared v) fs d -> declared (foldl tally v fs) = d.
Proof.
  revert v. induction fs as [|f fs IH]; intros v; cbn [foldl]; [by intros ->|]. rewrite lengths_cons. intros H. apply IH. cbn [tally declared]. destruct (decide (named "content-length" f)); [|done].
  destruct H as (k & Hn & _ & H). by apply content_length_spec in Hn as [-> _].
Qed.

Lemma lengths_none fs d : lengths (-1) fs d <-> if decide (times "content-length" fs = 0) then d = -1 else Forall (fun f => named "content-length" f -> length_value (hvalue f) d) fs.
Proof. unfold lengths. destruct (decide _); [done|]. split; [by intros [? _] | split; [done | lia]]. Qed.

(** The checks after the loop. *)
Lemma targets_spec fs v : n_method v = times ":method" fs -> n_scheme v = times ":scheme" fs -> n_path v = times ":path" fs -> n_authority v = times ":authority" fs ->
  (times ":method" fs = 1 -> v_method v = bytes_of "CONNECT" <-> Exists connects fs) -> forall d,
  (if negb (n_method v =? 1) || (1 <? n_authority v) then (false, -1)
   else if str_eq (v_method v) "CONNECT" then if negb (n_scheme v =? 0) || negb (n_path v =? 0) || negb (n_authority v =? 1) then (false, -1) else (true, declared v)
   else if negb (n_scheme v =? 1) || negb (n_path v =? 1) then (false, -1) else (true, declared v)) = (true, d) <->
  times ":method" fs = 1 /\ times ":authority" fs <= 1 /\
  (if decide (Exists connects fs) then times ":scheme" fs = 0 /\ times ":path" fs = 0 /\ times ":authority" fs = 1 else times ":scheme" fs = 1 /\ times ":path" fs = 1) /\ declared v = d.
Proof.
  intros -> -> -> -> Hc d. destruct (Z.eqb_spec (times ":method" fs) 1) as [Hm|Hm]; cbn [negb orb]; [|split; [done | by intros [? _]]]. specialize (Hc Hm).
  destruct (Z.ltb_spec 1 (times ":authority" fs)); [split; [done | lia]|].
  destruct (str_eq_spec (v_method v) "CONNECT") as [Ec|Ec], (decide (Exists connects fs)) as [Hx|Hx]; try tauto.
  - destruct (Z.eqb_spec (times ":scheme" fs) 0), (Z.eqb_spec (times ":path" fs) 0), (Z.eqb_spec (times ":authority" fs) 1); cbn [negb orb]; (split; [intros [= <-] || done; repeat split; done|]); intros (_ & _ & (? & ? & ?) & <-); done.
  - destruct (Z.eqb_spec (times ":scheme" fs) 1), (Z.eqb_spec (times ":path" fs) 1); cbn [negb orb]; (split; [intros [= <-] || done; repeat split; done|]); intros (_ & _ & (? & ?) & <-); done.
Qed.

Lemma taken_shape fs : shape false fs <-> (exists ps rs, fs = ps ++ rs /\ Forall pseudo_field ps /\ Forall regular_field rs) /\ Forall lax_chars fs.
Proof.
  assert (Hp : forall ps, Forall pseudo_field ps -> Forall lax_chars ps).
  { intros ps H. eapply Forall_impl; [done|]. intros f Hf Hc. rewrite (pseudo_colon f Hf) in Hc. done. }
  assert (Hr : forall rs, Forall taken_field rs <-> Forall regular_field rs /\ Forall lax_chars rs).
  { intros rs. rewrite <- Forall_and. apply Forall_iff, taken_regular. }
  unfold shape. split.
  - intros (ps & rs & -> & H1 & H2). apply Hr in H2 as [H2 H3]. rewrite Forall_app. split; [by exists ps, rs | by auto].
  - intros [(ps & rs & -> & H1 & H2) [_ H3]%Forall_app]. exists ps, rs. split; [done|]. split; [done|]. by apply Hr.
Qed.

Lemma request_spec fs d : validate_request_fields fs = (true, d) <-> request_fields lax_chars fs d.
Proof.
  unfold validate_request_fields. set (v0 := mkSeen false [] 0 0 0 0 (-1)). pose proof (tally_counts fs v0) as (Em & Es & Ep & Ea).
  pose proof (targets_spec fs (foldl tally v0 fs) Em Es Ep Ea (tally_method fs v0) d) as Ht. pose proof (validate_loop_spec fs v0) as Hv. pose proof (lengths_none fs) as Hn.
  destruct (validate_loop fs v0) as [v|].
  - destruct (proj1 (Hv v) eq_refl) as (Hs & Hl & ->). rewrite Ht. apply Hn in Hl. split.
    + intros (H1 & H2 & H3 & <-). apply taken_shape in Hs as [Hs Hx]. by split.
    + intros [_ H1 H2 H3 H4 H5]. split; [done|]. split; [done|]. split; [done|]. apply lengths_declared. by apply Hn.
  - split; [done|]. intros [Hx H1 H2 H3 H4 H5]. exfalso. apply Hn in H5. pose proof (lengths_declared fs v0 d H5) as Ed.
    assert (E : None = Some (foldl tally v0 fs)); [|done]. apply Hv. split; [by apply taken_shape|]. split; [by rewrite Ed | done].
Qed.

Lemma request_declared ok fs d : request_fields ok fs d -> ~ 0 <= d -> d = -1.
Proof.
  intros [_ _ _ _ _ H] Hd. destruct (decide (times "content-length" fs = 0)) as [|Hn]; [done|]. destruct Hd. rewrite times_0 in Hn. apply not_Forall_Exists in Hn; [|apply _].
  apply Exists_exists in Hn as (f & Hf & Hnn). apply dec_stable in Hnn. rewrite Forall_forall in H. apply content_length_spec with (v := hvalue f). by apply H.
Qed.

Lemma rfc_lax f : rfc_chars f -> lax_chars f.
Proof. intros (H & _) _. eapply Forall_impl; [exact H|]. unfold rfc_name_byte. cbv beta. lia. Qed.

Lemma request_fields_chars (ok ok' : HeaderField -> Prop) fs d : request_fields ok fs d -> Forall ok' fs -> request_fields ok' fs d.
Proof. intros [] H. by split. Qed.

(** C32: [validate_request_fields] accepts a decoded field list with the declared length [d] exactly when the
    list keeps the rules of RFC 9113 on the request's fields other than those on characters: pseudo-headers
    first and each the right number of times (none but [:authority] for CONNECT), no connection-specific
    names, [te] only with [trailers], and [content-length] values of 1 to 18 digits that all say [d] ([d]
    is -1 without one). Of the characters it looks only at the names of regular fields, for uppercase,
    spaces and NULs. So it accepts every well-formed request, and only those among the lists whose names
    and values have the characters section 8.2.1 allows. *)
Theorem validate_request_fields_spec fs d :
  (validate_request_fields fs = (true, d) <-> request_fields lax_chars fs d) /\
  (request_fields rfc_chars fs d -> validate_request_fields fs = (true, d)) /\
  (Forall rfc_chars fs -> validate_request_fields fs = (true, d) -> request_fields rfc_chars fs d).
Proof.
  split; [apply request_spec|]. rewrite request_spec. split.
  - intros H. apply (request_fields_chars _ _ _ _ H). eapply Forall_impl; [apply (rf_chars _ _ _ H) | apply rfc_lax].
  - intros Hc H. by apply (request_fields_chars _ _ _ _ H).
Qed.

Definition plain_get : list HeaderField :=
  [mkField (bytes_of ":method") (bytes_of "GET"); mkField (bytes_of ":scheme") (bytes_of "http"); mkField (bytes_of ":path") (bytes_of "/"); mkField (bytes_of "accept") (bytes_of "text/html, */*")].

#[export] Instance rfc_chars_dec f : Decision (rfc_chars f).
Proof. unfold rfc_chars, rfc_name_byte, blank. apply _. Defined.

Lemma validate_request_fields_spec_witness : request_fields rfc_chars plain_get (-1).
Proof. apply (validate_request_fields_spec plain_get (-1)); [apply (bool_decide_unpack _); vm_compute; exact I | vm_compute; reflexivity]. Defined.
