(* ===== verification/H2Props.v ===== *)
(** What holds of every HTTP/2 connection: the theorems of http2/conn.v over its pooled
    streams, for any frames that come in and any calls of the application. *)
From stdpp Require Import gmap.
From S2P Require Import Prelude WireBytes H2Frame StreamTable Huffman Hpack HttpField H2Conn H2Store H2Trace H2Inv H2Send H2Recv H2Consume H2Request.
Local Open Scope Z_scope.

(** ** A connection that can be run *)

#[export] Instance header_ok_dec h : Decision (header_ok h).
Proof.
  refine (cast_if (decide ((0 <= fh_length h < 2 ^ 24) /\ (0 <= fh_type h < 256) /\ (0 <= fh_flags h < 256) /\ (0 <= fh_stream_id h < 2 ^ 31)))); [split; tauto | intros []; tauto].
Defined.

#[export] Instance FrameType_eq_dec : EqDecision FrameType.
Proof. solve_decision. Defined.

#[export] Instance arrives_dec fh payload t : Decision (arrives fh payload t).
Proof.
  refine (cast_if (decide (frame_type_of (fh_type fh) = Some t /\ header_ok fh /\ fh_length fh = Z.of_nat (length payload) /\ fh_length fh <= default_max_frame_size)));
    [split; tauto | intros []; tauto].
Defined.

#[export] Instance call_ok_dec (w : World Pool) tr a : Decision (call_ok w tr a).
Proof. unfold call_ok. destruct a; apply _. Defined.

Inductive op := OpFrame (fh : FrameHeader) (payload : list byte) | OpCall (a : app_call).

(** A frame that the connection accepts, or a call it may get; others are left out. *)
Definition op_step (st : list event * World Pool) (o : op) : list event * World Pool :=
  let '(tr, w) := st in
  match o with
  | OpFrame fh payload =>
      match frame_type_of (fh_type fh) with
      | None => st
      | Some t =>
          if decide (arrives fh payload t) then
            match frame t fh payload w with
            | Some (code, w') => if decide (code = NoError) then (tr ++ [In fh payload] ++ (Out <$> emitted w w'), w') else st
            | None => st
            end
          else st
      end
  | OpCall a =>
      if decide (call_ok w tr a) then
        match do_call a w with Some (_, w') => (tr ++ [Call a] ++ (Out <$> emitted w w'), w') | None => st end
      else st
  end.

Definition replay (l : list op) : list event * World Pool := foldl op_step ([Out preface_frm], first_world) l.

Lemma op_step_reach st o : reach (st.1) (st.2) -> reach ((op_step st o).1) ((op_step st o).2).
Proof.
  destruct st as [tr w]. cbn [fst snd]. intros R. destruct o as [fh payload|a]; cbn [op_step].
  - destruct (frame_type_of (fh_type fh)) as [t|]; [|done]. destruct (decide (arrives fh payload t)); [|done]. destruct (frame t fh payload w) as [[code w']|] eqn:E; [|done].
    destruct (decide (code = NoError)) as [->|]; [|done]. by eapply reach_frame.
  - destruct (decide (call_ok w tr a)); [|done]. destruct (do_call a w) as [[[] w']|] eqn:E; [|done]. by eapply reach_call.
Qed.

Lemma replay_reach l : reach ((replay l).1) ((replay l).2).
Proof.
  unfold replay. assert (H : @reach Pool _ (fst ([Out preface_frm], first_world)) (snd ([Out preface_frm], first_world))) by apply reach_new.
  revert H. generalize ([Out preface_frm], first_world (T := Pool)). induction l as [|o l IH]; intros st R; [done|]. cbn [foldl]. apply IH. by apply op_step_reach.
Qed.

Definition op_frame (t : FrameType) (flags sid : Z) (payload : list byte) : op := OpFrame (frm_header (mkFrm t flags sid payload)) payload.

(** The peer lets 4 bytes per stream through and asks for [/] on stream 1; the answer is [hello world]. *)
Definition demo_ops : list op :=
  [op_frame FtSettings 0 0 (settings_bytes [mkSetting setting_initial_window_size 4]);
   op_frame FtHeaders 5 1 (byte_of_Z <$> [130; 134; 132]);
   OpCall (CallHeaders 1 [byte_of_Z 136] false);
   OpCall (CallBody 1 (bytes_of "hello world") true)].

Definition demo : list event * World Pool := replay demo_ops.

Lemma demo_reach : reach (demo.1) (demo.2).
Proof. apply replay_reach. Qed.

Lemma demo_out : frames_of (out (demo.2)) =
  [preface_frm; settings_ack_frm; mkFrm FtHeaders 4 1 [byte_of_Z 136]; data_frm 1 (bytes_of "hell") false].
Proof. vm_compute. reflexivity. Qed.

(** ** Response bodies *)

Lemma reader_run_prefix a b q : reader_run (a ++ b) = Some q -> is_Some (reader_run a).
Proof. unfold reader_run. rewrite fold_events_app. destruct (fold_events reader_step a ∅); [eauto | done]. Qed.

Lemma reader_end tr f q : reader_run (tr ++ [Out f]) = Some q -> ends f = true -> fr_type f = FtData \/ fr_type f = FtHeaders -> owed q (fr_sid f) = [].
Proof.
  rewrite reader_run_snoc. destruct (reader_run tr) as [q0|]; cbn; [|done]. unfold reader_gets. intros Hq He Ht. rewrite He in Hq. cbn [andb] in Hq. destruct Ht as [Ht|Ht]; rewrite Ht in Hq.
  - destruct (decide _); [|done]. case_bool_decide as E; [|done]. injection Hq as <-. unfold owed at 1. by rewrite lookup_insert_eq.
  - case_bool_decide as E; [|done]. by injection Hq as <-.
Qed.

Lemma get_stream_lookup (w : World Pool) m id : holds (store (con w)) m -> get_stream id w = Some (m !! id, w).
Proof. intros H. unfold get_stream, mbind, cm_bind, ask, lift. by rewrite (holds_get _ _ _ H). Qed.

(** An empty body with [end_stream] writes its one frame whether or not bytes are parked. *)
Lemma empty_end tr (w : World Pool) m id s : good (fun _ => []) w m tr -> m !! id = Some s ->
  exists w', do_call (CallBody id [] true) w = Some (tt, w') /\ emitted w w' = [data_frm id [] true].
Proof.
  intros G Hid. destruct (c_ids _ _ (g_conn _ _ _ _ G) _ _ Hid) as [[Hr _] _].
  cut (wp (do_call (CallBody id [] true)) w (fun _ w' => emitted w w' = [data_frm id [] true])).
  { unfold wp. destruct (do_call _ w) as [[[] w']|]; [eauto | done]. }
  cbn [do_call]. unfold write_response_body. apply (wp_get id _ w m); [by apply (g_store _ _ _ _ G)|]. rewrite Hid. cbn [length Nat.eqb]. apply wp_bind, wp_append.
  apply (wp_release id _ m); [by apply (g_store _ _ _ _ G) | by apply (g_room _ _ _ _ G)|]. intros t _. unfold emitted. cbn [with_store con out reqs].
  pose proof (write_data (out w) id ltac:(lia) [] true) as E. rewrite app_nil_r in E. change (Z.of_nat (length [])) with 0 in E. rewrite E, drop_app_length. apply frames_of_wire.
  apply Forall_singleton. split; cbn [data_frm fr_flags fr_sid fr_payload length]; [unfold flag_end_stream | |]; lia.
Qed.

(** C4: On an HTTP/2 connection the DATA sent on a stream is always a prefix of the body the application
    wrote for it, in order and without gaps, and a frame that carries END_STREAM comes only when every byte
    written until then has been sent: a response is never cut short, however its bytes were parked and flushed.
    This is for applications that do not end a response with an empty body while bytes of it are parked, nor
    with a second head while bytes are unsent ([call_ok]). The first of these does cut it short: in every
    state the bytes unsent are the parked ones, and that call ends the response at once, without them. *)
Theorem response_body_order tr (w : World Pool) : reach tr w ->
  (forall id, data_sent id tr `prefix_of` written id tr) /\
  (forall tr1 f tr2, tr = tr1 ++ [Out f] ++ tr2 -> ends f = true -> fr_type f = FtData \/ fr_type f = FtHeaders ->
     data_sent (fr_sid f) (tr1 ++ [Out f]) = written (fr_sid f) tr1) /\
  (forall id s, get_stream id w = Some (Some s, w) ->
     written id tr = data_sent id tr ++ parked_bytes id w /\
     exists w', do_call (CallBody id [] true) w = Some (tt, w') /\ emitted w w' = [data_frm id [] true]).
Proof.
  intros R. destruct (reach_invariant _ _ R) as (m & G & _). destruct (t_reader _ _ _ _ (g_trace _ _ _ _ G)) as (q & Eq & Hq). split; [|split].
  - intros id. rewrite (reader_run_sent tr q id Eq). by apply prefix_app_r.
  - intros tr1 f tr2 -> He Ht. rewrite app_assoc in Eq. destruct (reader_run_prefix _ _ _ Eq) as [q1 E1]. pose proof (reader_run_sent _ _ (fr_sid f) E1) as Hs.
    rewrite (reader_end _ _ _ E1 He Ht), app_nil_r, written_app in Hs. rewrite <- Hs. cbn. by rewrite app_nil_r.
  - intros id s Hg. rewrite (get_stream_lookup w m id (g_store _ _ _ _ G)) in Hg. injection Hg as Hs. split; [|by apply (empty_end tr w m id s)].
    rewrite (reader_run_sent tr q id Eq), (Hq _ _ Hs), app_nil_r. f_equal. symmetry. exact (parked_bytes_live w m id s (g_store _ _ _ _ G) Hs).
Qed.

Lemma response_body_order_witness :
  (data_sent 1 (demo.1) = bytes_of "hell" /\ written 1 (demo.1) = bytes_of "hello world") /\ forall id, data_sent id (demo.1) `prefix_of` written id (demo.1).
Proof. split; [vm_compute; done|]. apply (response_body_order (demo.1) (demo.2)). apply demo_reach. Defined.

(** ** The peer's windows *)

(** C3: Seen by the peer, an HTTP/2 connection never breaks flow control: replayed against a peer that keeps
    RFC 9113's windows and frame size (opened by its HEADERS, grown by its WINDOW_UPDATEs, moved by its
    SETTINGS), every frame the server wrote was allowed when it was written, and the windows the server
    keeps are the peer's. The peer reads the server's bytes back as exactly those frames. *)
Theorem peer_flow_control tr (w : World Pool) : reach tr w ->
  frames_of (out w) = outs tr /\
  exists p, peer_run tr = Some p /\ p_conn p = conn_send_window (con w) /\ p_max p = peer_max_frame (con w) /\
    forall id s, get_stream id w = Some (Some s, w) -> p_win p !! id = Some (send_window s).
Proof.
  intros R. destruct (reach_invariant _ _ R) as (m & G & _). pose proof (g_trace _ _ _ _ G) as Tr. split.
  - rewrite (t_out _ _ _ _ Tr). apply frames_of_wire, Tr.
  - destruct (t_peer _ _ _ _ Tr) as (p & Ep & Hp). exists p. split; [done|]. split; [apply Hp|]. split; [apply Hp|].
    intros id s. rewrite (get_stream_lookup w m id (g_store _ _ _ _ G)). intros [= Hs]. by apply Hp.
Qed.

Lemma peer_flow_control_witness :
  conn_send_window (con (demo.2)) = 65531 /\ exists p, peer_run (demo.1) = Some p /\ p_conn p = 65531.
Proof.
  assert (E : conn_send_window (con (demo.2)) = 65531) by (vm_compute; reflexivity). split; [done|].
  destruct (peer_flow_control (demo.1) (demo.2) demo_reach) as (_ & p & Ep & Hc & _). exists p. split; [done|]. by rewrite Hc, E.
Defined.

(** ** Nothing gets stuck *)

(** C9: From every state an HTTP/2 connection can be in, every frame is processed to a result that is not
    INTERNAL_ERROR, every call the application may make returns, and [consume] returns for every buffer:
    no index is out of bounds, no stream slot is missing, and every loop ends. *)
Theorem connection_never_stuck tr (w : World Pool) : reach tr w ->
  (forall fh payload t, arrives fh payload t -> exists code w', frame t fh payload w = Some (code, w') /\ code <> InternalError) /\
  (forall a, call_ok w tr a -> exists w', do_call a w = Some (tt, w')) /\
  (forall buf, exists n c w', consume buf w = Some ((n, c), w')).
Proof.
  intros R. split; [|split].
  - intros fh payload t A. destruct (reach_frame_defined _ _ _ _ _ R A) as (code & w' & E & Hi & _). eauto.
  - intros a Hok. by apply (reach_call_defined tr).
  - intros buf. unfold consume, mbind, cm_bind, ask, upd, append_out, mret, cm_ret.
    assert (Hloop : forall n (w1 : World Pool), reach tr w1 -> (n <= length buf)%nat -> exists i c w', consume_loop (S (length buf)) buf n w1 = Some ((i, c), w')).
    { intros n w1 R1 Hn. destruct (consume_loop_burst (S (length buf)) buf n tr w1 R1 Hn) as (i & c & w' & E & _); [rewrite length_drop; lia | eauto]. }
    destruct (preface_seen (con w)); [apply Hloop; [done | lia]|]. destruct (Nat.ltb_spec (length buf) (length preface_tail)); [eauto|].
    case_bool_decide; [|eauto]. apply Hloop; [by apply reach_preface | done].
Qed.

Lemma connection_never_stuck_witness : exists n c w', consume (bytes_of "garbage") (demo.2) = Some ((n, c), w').
Proof. destruct (connection_never_stuck (demo.1) (demo.2) demo_reach) as (_ & _ & H). apply H. Defined.

(** ** Requests *)

(** C11: Every request an HTTP/2 connection hands out came on an odd stream identifier, has the body length it
    declared, and a body of at most 8 MiB; no stream is handed out twice. Its fields keep the rules of RFC 9113
    on pseudo-headers, CONNECT, connection-specific names, [te] and [content-length] ([request_fields]), and
    the request is well-formed if its names and values have the characters section 8.2.1 allows, of which
    the server looks only for uppercase, spaces and NULs in regular names ([lax_chars]). *)
Theorem requests_wellformed tr (w : World Pool) : reach tr w ->
  Forall (fun r => odd_id (stream_id r) /\ Z.of_nat (length (rq_body r)) <= max_body_bytes /\
    exists d, request_fields lax_chars (rq_headers r) d /\ (Forall rfc_chars (rq_headers r) -> request_fields rfc_chars (rq_headers r) d) /\
      (d = -1 \/ d = Z.of_nat (length (rq_body r)))) (reqs w) /\
  NoDup (stream_id <$> reqs w).
Proof.
  intros R. destruct (reach_invariant _ _ R) as (m & G & _). split; [|apply (t_once _ _ _ _ (g_trace _ _ _ _ G))].
  eapply Forall_impl; [apply (t_reqs _ _ _ _ (g_trace _ _ _ _ G))|]. intros r [H1 (d & Hv & Hd) H3]. split; [done|]. split; [done|]. exists d. apply request_spec in Hv. split; [done|].
  split; [by apply request_fields_chars with (1 := Hv)|]. destruct (decide (0 <= d)); [right; by apply Hd | left]. by apply (request_declared lax_chars (rq_headers r)).
Qed.

Lemma requests_wellformed_witness : length (reqs (demo.2)) = 1%nat /\ NoDup (stream_id <$> reqs (demo.2)).
Proof. split; [vm_compute; reflexivity|]. apply (requests_wellformed (demo.1) (demo.2)). apply demo_reach. Defined.

(** ** Bursts *)

(** How the network splits the bytes of an HTTP/2 connection does not matter: two ways of receiving the
    same bytes leave the same connection, output, requests and unread rest, or both give the connection up
    at the same point. *)
Theorem bursts_do_not_matter (s : sess Pool) l1 l2 : l1 <> [] -> l2 <> [] -> concat l1 = concat l2 -> receive_all l1 s = receive_all l2 s.
Proof.
  destruct l1 as [|a l1]; [done|]. destruct l2 as [|b l2]; [done|]. intros _ _ E. rewrite !receive_all_concat. cbn [concat] in E. by rewrite E.
Qed.

(** A whole connection in bytes: the rest of the client preface, SETTINGS, and a request. *)
Definition demo_bytes : list byte :=
  preface_tail ++ wire [mkFrm FtSettings 0 0 []; mkFrm FtHeaders 5 1 (byte_of_Z <$> [130; 134; 132])].

Definition fresh_sess : sess Pool := mkSess first_world [] false.

Lemma bursts_do_not_matter_witness :
  (length <$> (reqs ∘ world <$> receive_all [demo_bytes] fresh_sess)) = Some 1%nat /\
  receive_all ((fun b => [b]) <$> demo_bytes) fresh_sess = receive_all [demo_bytes] fresh_sess.
Proof. split; [vm_compute; reflexivity|]. apply bursts_do_not_matter; [done | done | vm_compute; reflexivity]. Defined.

(** C28: Once the client preface is in, [consume] takes the complete frames of its buffer in order, each exactly
    once and as if it had come alone, those of unknown types passed over, and returns the length of the frames
    it took. If it keeps the connection it took all the complete frames, and what is left is incomplete. If it
    closes the connection, it wrote one GOAWAY after everything else, with the last stream it opened and a
    code that is neither NO_ERROR nor INTERNAL_ERROR; and it stopped either behind the first frame that is an
    error, with that frame's code, or in front of one that is too big (FRAME_SIZE_ERROR) or of an unknown type
    inside a header block (PROTOCOL_ERROR). *)
Theorem consume_takes_frames tr (w : World Pool) buf : reach tr w -> preface_seen (con w) = true ->
  exists n c w' l l' tr2 w2, consume buf w = Some ((n, c), w') /\
    arrived (S (length buf)) buf = l ++ l' /\ n = frame_bytes l /\ reach (tr ++ tr2) w2 /\
    if c then reqs w' = reqs w2 /\ exists code, code <> NoError /\ code <> InternalError /\ out w' = out w2 ++ wire [goaway_frm (last_stream (con w')) code] /\
      (known l = ins tr2 /\ stops w2 (drop n buf) code \/ exists l0 p, l = l0 ++ [p] /\ known l0 = ins tr2 /\ refused w2 p code)
    else known l = ins tr2 /\ l' = [] /\ w' = w2 /\ look (drop n buf) = Wait.
Proof.
  intros R Hp. destruct (consume_loop_burst (S (length buf)) buf 0 tr w R) as (n & c & w' & E & B); [lia | rewrite length_drop; lia|]. rewrite drop_0 in B. destruct B as (l & l' & tr2 & w2 & B).
  exists n, c, w', l, l', tr2, w2. split; [unfold consume, mbind, cm_bind, ask; by rewrite Hp | exact B].
Qed.

Definition seen_world : World Pool := mkWorld ((con (demo.2)) <| preface_seen := true |>) (out (demo.2)) (reqs (demo.2)).

(** A PING, and a WINDOW_UPDATE by 0, which is an error. *)
Definition demo_burst : list byte := wire [mkFrm FtPing 0 0 (bytes_of "12345678"); mkFrm FtWindowUpdate 0 0 (be_bytes 4 0)].

Lemma consume_takes_frames_witness : exists n c w' l l', consume demo_burst seen_world = Some ((n, c), w') /\ arrived (S (length demo_burst)) demo_burst = l ++ l' /\ n = frame_bytes l.
Proof.
  destruct (consume_takes_frames (demo.1) seen_world demo_burst) as (n & c & w' & l & l' & tr2 & w2 & E & Ea & En & _); [apply reach_preface, demo_reach | reflexivity|].
  exists n, c, w', l, l'. split; [exact E|]. split; [exact Ea | exact En].
Defined.

Lemma demo_burst_closes : (fun r => (r.1, emitted seen_world (r.2))) <$> consume demo_burst seen_world =
  Some ((length demo_burst, true), [ping_ack_frm (bytes_of "12345678"); goaway_frm 1 ProtocolError]).
Proof. vm_compute. reflexivity. Qed.

(** ** Responses that wait *)

(** C10: A response never waits for nothing. In every state of an HTTP/2 connection, if bytes of a response are
    parked then its stream's window or the connection's is used up. And when, outside a header block, a
    WINDOW_UPDATE opens the stream's window far enough for the bytes left, and the connection's window covers
    them too, that one frame makes the server send all of them, in DATA frames of that stream, and end the
    response the way it was asked to: END_STREAM on the last of them, or the trailers after them. *)
Theorem parked_responses_complete tr (w : World Pool) id s : reach tr w -> get_stream id w = Some (Some s, w) ->
  (parked s -> conn_send_window (con w) <= 0 \/ send_window s <= 0) /\
  forall fh inc, arrives fh (be_bytes 4 inc) FtWindowUpdate -> fh_stream_id fh = id -> hdr_expecting (con w) = false -> 0 < inc < 2 ^ 31 ->
    send_window s + inc <= max_window -> Z.of_nat (length (tail s)) <= send_window s + inc -> Z.of_nat (length (tail s)) <= conn_send_window (con w) ->
    exists w', frame FtWindowUpdate fh (be_bytes 4 inc) w = Some (NoError, w') /\
      exists left, get_stream id w' = Some (left, w') /\ answered (peer_max_frame (con w)) id s (emitted w w') left.
Proof.
  intros R Hg. destruct (reach_invariant _ _ R) as (m & G & S). rewrite (get_stream_lookup w m id (g_store _ _ _ _ G)) in Hg. injection Hg as Hs. split; [apply (S id s Hs)|].
  intros fh inc A Hid He Hi H1 H2 H3. destruct A as [A1 A2 A3 A4]. rewrite A3 in A4. rewrite <- Hid in Hs.
  pose proof (window_answers w m tr fh (be_bytes 4 inc) FtWindowUpdate G S A1 inc s eq_refl) as H.
  assert (Ed : dependency (be_bytes 4 inc) 0 = Some inc) by (apply dependency_be_bytes; lia). specialize (H Ed (length_be_bytes 4 inc) He Hs (proj1 Hi) H1 H2 H3).
  unfold wp in H. destruct (frame FtWindowUpdate fh (be_bytes 4 inc) w) as [[code w']|]; [|done]. destruct H as (-> & m' & fs & I & Ha). exists w'. split; [done|].
  exists (m' !! id). rewrite (get_stream_lookup w' m' id (g_store _ _ _ _ (proj1 I))). split; [done|]. rewrite (emitted_wire w w' m m' tr (In fh (be_bytes 4 inc)) fs eq_refl (conj G S) I). by rewrite Hid in Ha.
Qed.

Definition window_header (sid : Z) : FrameHeader := frm_header (mkFrm FtWindowUpdate 0 sid (be_bytes 4 100)).

Definition demo_stream : StreamState := match get_stream 1 (demo.2) with Some (Some s, _) => s | _ => zero_stream end.

Lemma parked_responses_complete_witness :
  tail demo_stream = bytes_of "o world" /\
  exists w', frame FtWindowUpdate (window_header 1) (be_bytes 4 100) (demo.2) = Some (NoError, w') /\ exists left, get_stream 1 w' = Some (left, w').
Proof.
  split; [vm_compute; reflexivity|]. destruct (parked_responses_complete (demo.1) (demo.2) 1 demo_stream demo_reach) as [_ H]; [vm_compute; reflexivity|].
  destruct (H (window_header 1) 100) as (w' & E & left & El & _);
    [apply (bool_decide_unpack _); vm_compute; exact I | reflexivity | vm_compute; reflexivity | lia | vm_compute; discriminate | vm_compute; discriminate | vm_compute; discriminate|].
  exists w'. split; [exact E|]. exists left. exact El.
Defined.

(** ** Header blocks in pieces *)

(** Frames one after the other, up to the first that is an error. *)
Fixpoint frames_run (l : list (FrameType * Z * Z * list byte)) : cm Pool ErrorCode :=
  match l with
  | [] => mret NoError
  | (t, flags, sid, payload) :: l' =>
      code ← frame t (frm_header (mkFrm t flags sid payload)) payload;
      if decide (code = NoError) then frames_run l' else mret code
  end.

Definition es_flag (es : bool) : Z := if es then flag_end_stream else 0.

(** CONTINUATIONs with the pieces of a block, the last with END_HEADERS. *)
Fixpoint continuations (sid : Z) (last : list byte) (l : list (list byte)) : list (FrameType * Z * Z * list byte) :=
  match l with [] => [(FtContinuation, flag_end_headers, sid, last)] | p :: l' => (FtContinuation, 0, sid, p) :: continuations sid last l' end.

Lemma claim_stream_same fh fh' : fh_stream_id fh = fh_stream_id fh' -> flagged fh flag_end_stream = flagged fh' flag_end_stream -> claim_stream (T := Pool) fh = claim_stream fh'.
Proof. intros E1 E2. unfold claim_stream. by rewrite E1, E2. Qed.

Lemma claim_stream_err fh (w w' : World Pool) e : claim_stream fh w = Some (Some e, w') -> e <> NoError.
Proof.
  unfold claim_stream, mbind, cm_bind, ask, upd, mret, cm_ret. destruct (get_stream _ w) as [[[s|] w1]|]; [| |done].
  - destruct (remote_done s); [by intros [= <- _]|]. destruct (negb _); [by intros [= <- _] | done].
  - destruct (_ <=? last_stream _); [by intros [= <- _]|]. by destruct (_ <=? _).
Qed.

Definition claiming (w : World Pool) : World Pool :=
  mkWorld ((con w) <| hdr_trailers := false |> <| hdr_refused := false |> <| hdr_malformed := false |>) (out w) (reqs w).

(** A HEADERS frame without padding and priority. *)
Lemma headers_plain (w : World Pool) (es eh : bool) sid p : hdr_expecting (con w) = false -> sid <> 0 -> Z.land sid 1 <> 0 ->
  let fh := frm_header (mkFrm FtHeaders (Z.lor (if eh then flag_end_headers else 0) (es_flag es)) sid p) in
  frame FtHeaders fh p w = match claim_stream fh (claiming w) with
    | Some (Some e, w1) => Some (e, w1)
    | Some (None, w1) => let w2 := mkWorld ((con w1) <| hdr_stream := sid |> <| hdr_end_stream := es |> <| hdr_block := p |>) (out w1) (reqs w1) in
        if eh then finish_header_block w2 else Some (NoError, mkWorld ((con w2) <| hdr_expecting := true |>) (out w2) (reqs w2))
    | None => None
    end.
Proof.
  intros He H0 H1 fh. unfold frame, mbind, cm_bind, ask. rewrite He. cbn [andb]. unfold on_headers. change (fh_stream_id fh) with sid.
  rewrite (proj2 (Z.eqb_neq sid 0) H0), (proj2 (Z.eqb_neq _ 0) H1). cbn [orb].
  assert (Ep : strip_padding fh p = Some (inl (O, length p))) by (unfold strip_padding; replace (flagged fh flag_padded) with false; [done | by destruct es, eh]).
  assert (Eq : strip_priority fh p 0 (length p) = Some (inl (false, O))) by (unfold strip_priority; replace (flagged fh flag_priority) with false; [done | by destruct es, eh]).
  assert (Ees : flagged fh flag_end_stream = es) by (by destruct es, eh). assert (Eeh : flagged fh flag_end_headers = eh) by (by destruct es, eh).
  unfold mbind, cm_bind, lift, upd. rewrite Ep. cbv beta iota. rewrite Eq. cbv beta iota. rewrite Ees, Eeh, Nat.sub_0_r, drop_0, firstn_all. unfold mret, cm_ret. fold (claiming w).
  destruct (claim_stream fh (claiming w)) as [[[e|] w1]|]; [done | | done]. by destruct eh.
Qed.

Lemma continuation_step (eh : bool) p (w : World Pool) : hdr_expecting (con w) = true -> Z.of_nat (length (hdr_block (con w) ++ p)) <= max_header_block ->
  let w1 := mkWorld ((con w) <| hdr_block := hdr_block (con w) ++ p |>) (out w) (reqs w) in
  frame FtContinuation (frm_header (mkFrm FtContinuation (if eh then flag_end_headers else 0) (hdr_stream (con w)) p)) p w = if eh then finish_header_block w1 else Some (NoError, w1).
Proof.
  intros He Hl w1. rewrite length_app in Hl. set (fh := frm_header _). unfold frame, on_continuation, mbind, cm_bind, ask, upd. cbv beta iota. rewrite He. change (fh_stream_id fh) with (hdr_stream (con w)). rewrite !Z.eqb_refl. cbn [negb orb andb]. rewrite He. cbn [negb orb]. rewrite Z.eqb_refl. cbn [negb]. rewrite (proj2 (Z.ltb_ge _ _)) by lia.
  replace (flagged fh flag_end_headers) with eh by (by destruct eh). by destruct eh.
Qed.

Lemma continuations_run l last (w : World Pool) : hdr_expecting (con w) = true ->
  Z.of_nat (length (hdr_block (con w) ++ concat l ++ last)) <= max_header_block ->
  frames_run (continuations (hdr_stream (con w)) last l) w = finish_header_block (mkWorld ((con w) <| hdr_block := hdr_block (con w) ++ concat l ++ last |>) (out w) (reqs w)).
Proof.
  revert w. induction l as [|p l IH]; intros w He Hl; cbn [continuations frames_run concat app] in *.
  - unfold mbind, cm_bind. rewrite (continuation_step true last w He Hl). destruct (finish_header_block _) as [[code w']|]; [|done]. by destruct (decide (code = NoError)) as [->|].
  - rewrite !length_app in Hl. unfold mbind, cm_bind. rewrite (continuation_step false p w He) by (rewrite length_app; lia). rewrite decide_True by done.
    set (w1 := mkWorld ((con w) <| hdr_block := hdr_block (con w) ++ p |>) (out w) (reqs w)).
    assert (Hw : Z.of_nat (length (hdr_block (con w1) ++ concat l ++ last)) <= max_header_block) by (cbn; rewrite !length_app; lia).
    etransitivity; [exact (IH w1 He Hw)|]. cbn. by rewrite <- !app_assoc.
Qed.

(** A request's header block may be cut into a HEADERS frame and any number of CONTINUATIONs (RFC 9113
    section 6.10): as long as the block is at most 64 KiB, they do to the connection exactly what one
    HEADERS frame with the whole block would do, errors and output included. *)
Theorem header_pieces_do_not_matter (w : World Pool) sid es first l last :
  hdr_expecting (con w) = false -> sid <> 0 -> Z.land sid 1 <> 0 -> Z.of_nat (length (first ++ concat l ++ last)) <= max_header_block ->
  frames_run ((FtHeaders, es_flag es, sid, first) :: continuations sid last l) w =
  frames_run [(FtHeaders, Z.lor flag_end_headers (es_flag es), sid, first ++ concat l ++ last)] w.
Proof.
  intros He H0 H1 Hl. cbn [frames_run]. unfold mbind, cm_bind. rewrite (headers_plain w es true sid (first ++ concat l ++ last) He H0 H1).
  pose proof (headers_plain w es false sid first He H0 H1) as Hf. rewrite Z.lor_0_l in Hf. rewrite Hf. clear Hf.
  rewrite (claim_stream_same _ (frm_header (mkFrm FtHeaders (Z.lor flag_end_headers (es_flag es)) sid (first ++ concat l ++ last)))) by (done || by destruct es).
  destruct (claim_stream _ (claiming w)) as [[[e|] w1]|] eqn:Ec; [|cbn zeta|done].
  - apply claim_stream_err in Ec. by destruct (decide (e = NoError)).
  - cbv iota. rewrite decide_True by done. set (w2 := mkWorld ((con w1) <| hdr_stream := sid |> <| hdr_end_stream := es |> <| hdr_block := first |> <| hdr_expecting := true |>) (out w1) (reqs w1)).
    etransitivity; [exact (continuations_run l last w2 eq_refl Hl)|]. set (w3 := mkWorld ((con w1) <| hdr_stream := sid |> <| hdr_end_stream := es |> <| hdr_block := first ++ concat l ++ last |>) (out w1) (reqs w1)).
    transitivity (finish_header_block w3); [done|]. destruct (finish_header_block w3) as [[code w4]|]; [|done]. by destruct (decide (code = NoError)) as [->|].
Qed.

Lemma header_pieces_do_not_matter_witness :
  frames_run ((FtHeaders, es_flag true, 3, [byte_of_Z 130]) :: continuations 3 [byte_of_Z 132] [[byte_of_Z 134]]) (demo.2) =
  frames_run [(FtHeaders, Z.lor flag_end_headers (es_flag true), 3, [byte_of_Z 130] ++ concat [[byte_of_Z 134]] ++ [byte_of_Z 132])] (demo.2).
Proof. apply header_pieces_do_not_matter; [vm_compute; reflexivity | lia | vm_compute; discriminate | vm_compute; discriminate]. Defined.

(** ** What the code does in some corners *)

(** A request that was handed out and then reset by the peer in the same burst shares its storage
    with the next request: [release_stream] returned it to the pool before the application read it. *)
Definition reset_burst : list byte :=
  preface_tail ++ wire [mkFrm FtSettings 0 0 []; mkFrm FtHeaders 5 1 (byte_of_Z <$> [130; 134; 132]);
                        mkFrm FtRstStream 0 1 (be_bytes 4 8); mkFrm FtHeaders 5 3 (byte_of_Z <$> [130; 134; 133])].

Lemma reset_request_storage :
  (fun s => (stream_id <$> reqs (world s), storage <$> reqs (world s))) <$> receive_all [reset_burst] fresh_sess = Some ([1; 3], [O; O]).
Proof. vm_compute. reflexivity. Qed.

(** An empty body with [end_stream] while earlier bytes are parked ends the response without them. *)
Lemma empty_end_cuts_parked :
  let w := (replay [op_frame FtSettings 0 0 (settings_bytes [mkSetting setting_initial_window_size 4]); op_frame FtHeaders 5 1 (byte_of_Z <$> [130; 134; 132]);
                    OpCall (CallHeaders 1 [byte_of_Z 136] false); OpCall (CallBody 1 (bytes_of "hello world") false)]).2 in
  (fun r => emitted w (r.2)) <$> do_call (CallBody 1 [] true) w = Some [data_frm 1 [] true].
Proof. vm_compute. reflexivity. Qed.

(** After a stream error the server raised itself, DATA the peer had already sent is a connection error. *)
Lemma data_after_stream_error :
  fst <$> frames_run [(FtHeaders, flag_end_headers, 3, byte_of_Z <$> [130; 134; 132]); (FtPriority, 0, 3, be_bytes 4 3 ++ [byte_of_Z 1]); (FtData, 0, 3, bytes_of "late")] (demo.2) = Some StreamClosed.
Proof. vm_compute. reflexivity. Qed.

(** A GOAWAY from the peer leaves the connection open. *)
Lemma goaway_keeps_open : frames_run [(FtGoaway, 0, 0, be_bytes 4 0 ++ be_bytes 4 0)] (demo.2) = Some (NoError, demo.2).
Proof. vm_compute. reflexivity. Qed.

(** A field value with CR and LF in it is accepted. *)
Lemma line_break_in_value_accepted :
  validate_request_fields [mkField (bytes_of ":method") (bytes_of "GET"); mkField (bytes_of ":scheme") (bytes_of "http"); mkField (bytes_of ":path") (bytes_of "/");
                           mkField (bytes_of "x") (bytes_of "a" ++ (byte_of_Z <$> [13; 10]) ++ bytes_of "b: c")] = (true, -1).
Proof. vm_compute. reflexivity. Qed.
