(* ===== verification/ClientCodec.v ===== *)
(** The HTTP/1.1 client codec: the request writer and the response parser of
    http1_1/client/client.v, and what its scanners read of a line's text. *)
From S2P Require Import Prelude WireBytes HttpScan HttpField HttpChunk HttpFrame.
Local Open Scope Z_scope.

(** ** The code *)

Definition incomplete : Z := -1.
Definition err_malformed : Z := -2.
Definition err_until_close : Z := -4.

(** The largest Content-Length or chunk size taken. *)
Definition size_cap : Z := 0x7fff0000.

(** [strconv.write_dec] into the scratch: the digits of a 64-bit number. *)
Fixpoint dec_digits (fuel : nat) (n : Z) (acc : list byte) : list byte :=
  match fuel with
  | O => acc
  | S f => let acc := byte_of_Z (48 + n mod 10) :: acc in if n / 10 =? 0 then acc else dec_digits f (n / 10) acc
  end.

Definition write_dec (n : Z) : list byte :=
  if n <? 0 then byte_of_Z 45 :: dec_digits 20 (- n) [] else dec_digits 20 n [].

Definition wi (out : list byte) (n : Z) : list byte :=
  let written := write_dec n in
  if (0 <? length written)%nat then out ++ written else out.

Definition write_request (out method target host extra_headers body : list byte) : list byte :=
  let out := out ++ method in
  let out := out ++ bytes_of " " in
  let out := out ++ target in
  let out := out ++ (bytes_of " HTTP/1.1" ++ CRLF ++ bytes_of "Host: ") in
  let out := out ++ host in
  let out := out ++ CRLF in
  let out := if (0 <? length extra_headers)%nat then out ++ extra_headers else out in
  let out := if (0 <? length body)%nat then wi (out ++ bytes_of "Content-Length: ") (Z.of_nat (length body)) ++ CRLF else out in
  let out := out ++ CRLF in
  if (0 <? length body)%nat then out ++ body else out.

Definition write_get (out target host : list byte) : list byte := write_request out (bytes_of "GET") target host [] [].

(** [memchr] for an LF from [from] on; -1 is [None]. *)
Definition lf_idx (buf : list byte) (from : nat) : option nat :=
  if (length buf <=? from)%nat then None else Nat.add from <$> find_byte LF (drop from buf).

(** [for { ... }] of [head_len]. *)
Fixpoint head_len_loop (fuel : nat) (buf : list byte) (pos : nat) : option Z :=
  match fuel with
  | O => None
  | S f =>
      match lf_idx buf pos with
      | None => Some incomplete
      | Some O => Some err_malformed
      | Some (S e) =>
          c ← buf !! e;
          if negb (beq c CR) then Some err_malformed
          else if (e =? pos)%nat && (0 <? pos)%nat then Some (Z.of_nat (S e + 1))
          else head_len_loop f buf (S e + 1)
      end
  end.

Definition head_len (buf : list byte) : option Z := head_len_loop (S (length buf)) buf 0.

(** [c] between two bytes. *)
Definition between (lo hi : Z) (c : byte) : bool := negb ((byte_val c <? lo) || (hi <? byte_val c)).

Definition status_at (buf : list byte) (p : nat) : option Z :=
  if (length buf - p <? 12)%nat then Some (-1)
  else
    t ← view buf p 7; minor ← buf !! (p + 7)%nat; sp ← buf !! (p + 8)%nat;
    if negb (bool_decide (t = bytes_of "HTTP/1.")) || negb (between 48 57 minor) || negb (beq sp SP) then Some (-1)
    else
      d0 ← buf !! (p + 9)%nat; d1 ← buf !! (p + 10)%nat; d2 ← buf !! (p + 11)%nat;
      if negb (between 49 57 d0) || negb (between 48 57 d1) || negb (between 48 57 d2) then Some (-1)
      else
        junk ← (if (12 <? length buf - p)%nat then (fun c => negb (beq c SP) && negb (beq c CR)) <$> buf !! (p + 12)%nat else Some false);
        if (junk : bool) then Some (-1)
        else Some ((byte_val d0 - 48) * 100 + (byte_val d1 - 48) * 10 + (byte_val d2 - 48)).

Definition status_code (buf : list byte) : option Z := status_at buf 0.

(** [if c >= 'A' && c <= 'Z' { c += 32 }]. *)
Definition lower_case (c : byte) : byte := if (65 <=? byte_val c) && (byte_val c <=? 90) then byte_of_Z (byte_val c + 32) else c.

(** The bytes from [i] on, in lower case, against a word. *)
Fixpoint word_at (buf : list byte) (i : nat) (word : list byte) : option bool :=
  match word with
  | [] => Some true
  | w :: word' => c ← buf !! i; if beq (lower_case c) w then word_at buf (S i) word' else Some false
  end.

(** The start and the length of the value; (-1, 0) is [None]. *)
Definition field_value (buf : list byte) (line_start line_end : nat) (name : list byte) : option (option (nat * nat)) :=
  if (line_end - line_start <=? length name)%nat then Some None
  else
    same ← word_at buf line_start name;
    if negb same then Some None
    else
      c ← buf !! (line_start + length name)%nat;
      if negb (beq c COLON) then Some None
      else
        let v := (line_start + length name + 1)%nat in
        v ← scan_while ows (line_end - v) buf v;
        e ← scan_back ows (line_end - v) buf line_end;
        Some (Some (v, (e - v)%nat)).

(** [for d in v .. v + vlen], [n] rounds left; -1 is [None]. *)
Fixpoint length_loop (n : nat) (buf : list byte) (d : nat) (acc : Z) : option (option Z) :=
  match n with
  | O => Some (Some acc)
  | S n' =>
      c ← buf !! d;
      if (byte_val c <? 48) || (57 <? byte_val c) then Some None
      else
        let acc := acc * 10 + (byte_val c - 48) in
        if size_cap <? acc then Some None else length_loop n' buf (S d) acc
  end.

Definition parse_content_length (buf : list byte) (v vlen : nat) : option (option Z) :=
  if (vlen =? 0)%nat then Some None else length_loop vlen buf v 0.

Definition value_has_chunked (buf : list byte) (v e : nat) : option bool :=
  let needle := bytes_of "chunked" in
  if (e - v <? length needle)%nat then Some false
  else
    j ← scan_while (fun b => negb (beq b CR)) (e - v) buf v;
    if (j <? e)%nat then Some false
    else
      let s := (e - length needle)%nat in
      same ← word_at buf s needle;
      if negb same then Some false
      else
        k ← scan_back ows (s - v) buf s;
        if (k =? v)%nat then Some true else (fun c => beq c COMMA) <$> buf !! (k - 1)%nat.

(** The helpers for chunked bodies that client.v repeats from the server's framer,
    with other names for the same constants. *)
Definition hex_digit (c : byte) : Z := HttpChunk.hex_digit c.
Definition chunk_tchar (c : byte) : bool := HttpChunk.chunk_tchar c.
Definition chunk_ext_ok (buf : list byte) (start e : nat) : option bool := HttpChunk.chunk_ext_ok buf start e.
Definition trailer_line_ok (buf : list byte) (start e : nat) : option bool := HttpChunk.trailer_line_ok buf start e.

(** A line's end and whether it is the empty line, or the code. *)
Definition trailer_line (buf : list byte) (pos : nat) : option (nat * bool + Z) :=
  if (length buf <=? pos)%nat then Some (inr incomplete)
  else
    b ← blank_line buf pos;
    match b with
    | Partial => Some (inr incomplete)
    | Blank => Some (inl ((pos + 2)%nat, true))
    | Text =>
        match lf_idx buf pos with
        | None => Some (inr incomplete)
        | Some lf =>
            if (lf =? pos)%nat then Some (inr err_malformed)
            else
              c ← buf !! (lf - 1)%nat;
              if negb (beq c CR) then Some (inr err_malformed)
              else
                ok ← trailer_line_ok buf pos (lf - 1);
                Some (if (ok : bool) then inl ((lf + 1)%nat, false) else inr err_malformed)
        end
    end.

(** [for { ... }] of [frame_trailer_section]. *)
Fixpoint trailer_section_loop (fuel : nat) (buf : list byte) (pos : nat) : option Z :=
  match fuel with
  | O => None
  | S f =>
      r ← trailer_line buf pos;
      match r with
      | inr code => Some code
      | inl (next, true) => Some (Z.of_nat next)
      | inl (next, false) => trailer_section_loop f buf next
      end
  end.

Definition frame_trailer_section (buf : list byte) (start : nat) : option Z := trailer_section_loop (S (length buf)) buf start.

(** [for j < buf.len], [n] rounds before the end: the size and the byte behind the
    digits, or the code. *)
Fixpoint size_loop (n : nat) (buf : list byte) (pos j : nat) (size : Z) : option (Z * nat + Z) :=
  match n with
  | O => Some (inl (size, j))
  | S n' =>
      c ← buf !! j;
      let d := hex_digit c in
      if d <? 0 then Some (inl (size, j))
      else
        let size := size * 16 + d in
        if (size_cap <? size) || (16 <=? j - pos)%nat then Some (inr err_malformed) else size_loop n' buf pos (S j) size
  end.

(** The index of the size line's CR, from the byte behind the digits. *)
Definition size_line_cr (buf : list byte) (j : nat) : option (nat + Z) :=
  c ← buf !! j;
  if beq c CR then Some (inl j)
  else if negb (beq c SEMI) && negb (beq c SP) && negb (beq c HTAB) then Some (inr err_malformed)
  else
    match lf_idx buf j with
    | None => Some (inr incomplete)
    | Some lf =>
        let line_end := (lf - 1)%nat in
        c ← buf !! line_end;
        if negb (beq c CR) then Some (inr err_malformed)
        else
          ok ← chunk_ext_ok buf j line_end;
          Some (if (ok : bool) then inl line_end else inr err_malformed)
    end.

(** The offset of the chunk's data and its size, or the code. *)
Definition chunk_size_line (buf : list byte) (pos : nat) : option (nat * Z + Z) :=
  r ← size_loop (length buf - pos) buf pos pos 0;
  match r with
  | inr code => Some (inr code)
  | inl (size, j) =>
      if (length buf <=? j)%nat then Some (inr incomplete)
      else if (j =? pos)%nat then Some (inr err_malformed)
      else
        e ← size_line_cr buf j;
        match e with
        | inr code => Some (inr code)
        | inl line_end =>
            if (length buf <=? line_end + 1)%nat then Some (inr incomplete)
            else
              c ← buf !! (line_end + 1)%nat;
              Some (if beq c LF then inl ((line_end + 2)%nat, size) else inr err_malformed)
        end
  end.

(** [for { ... }] of [frame_chunked_body]; [crlf_at] is an i64, [int] takes its low half. *)
Fixpoint chunked_loop (fuel : nat) (buf : list byte) (pos : nat) : option Z :=
  match fuel with
  | O => None
  | S f =>
      r ← chunk_size_line buf pos;
      match r with
      | inr code => Some code
      | inl (data_start, size) =>
          if size =? 0 then frame_trailer_section buf data_start
          else
            let crlf_at := Z.of_nat data_start + size in
            if Z.of_nat (length buf) <=? crlf_at + 1 then Some incomplete
            else
              c ← at_int buf (i32 crlf_at);
              d ← at_int buf (i32 (i32 crlf_at + 1));
              if negb (beq c CR) || negb (beq d LF) then Some err_malformed
              else chunked_loop f buf (Z.to_nat (i32 (i32 crlf_at + 2)))
      end
  end.

Definition frame_chunked_body (buf : list byte) (body_start : nat) : option Z := chunked_loop (S (length buf)) buf body_start.

Definition content_length_lower : list byte := bytes_of "content-length".
Definition transfer_encoding_lower : list byte := bytes_of "transfer-encoding".

(** A field line of [frame_response]: [content_length] and [chunked], or [return err_malformed]. *)
Definition response_line (buf : list byte) (pos line_end : nat) (content_length : Z) (chunked : bool) : option (option (Z * bool)) :=
  v ← field_value buf pos line_end content_length_lower;
  match v with
  | Some (v, vlen) =>
      n ← parse_content_length buf v vlen;
      Some (match n with
            | None => None
            | Some n => if (0 <=? content_length) && negb (content_length =? n) then None else Some (n, chunked)
            end)
  | None =>
      te ← field_value buf pos line_end transfer_encoding_lower;
      match te with
      | Some (te, te_len) =>
          ok ← value_has_chunked buf te (te + te_len);
          Some (if (ok : bool) then Some (content_length, true) else None)
      | None => Some (Some (content_length, chunked))
      end
  end.

(** At the blank line whose LF is at [hl - 1]. *)
Definition response_end (buf : list byte) (hl : nat) (bodyless : bool) (content_length : Z) (chunked : bool) : option Z :=
  if bodyless then Some (Z.of_nat hl)
  else if chunked then frame_chunked_body buf hl
  else if content_length <? 0 then Some err_until_close
  else
    let total := Z.of_nat hl + content_length in
    Some (if Z.of_nat (length buf) <? total then incomplete else i32 total).

(** [for { ... }] of [frame_response]. *)
Fixpoint response_loop (fuel : nat) (buf : list byte) (bodyless : bool) (pos : nat) (content_length : Z) (chunked : bool) : option Z :=
  match fuel with
  | O => None
  | S f =>
      match lf_idx buf pos with
      | None => Some incomplete
      | Some O => None
      | Some (S line_end) =>
          c ← buf !! line_end;
          if negb (beq c CR) then Some err_malformed
          else if (line_end =? pos)%nat then response_end buf (line_end + 2) bodyless content_length chunked
          else if bodyless then response_loop f buf bodyless (line_end + 2) content_length chunked
          else
            r ← response_line buf pos line_end content_length chunked;
            match r with
            | None => Some err_malformed
            | Some (content_length, chunked) => response_loop f buf bodyless (line_end + 2) content_length chunked
            end
      end
  end.

Definition bodyless_status (st : Z) : bool := (st <? 200) || (st =? 204) || (st =? 304).

Definition frame_response (buf : list byte) : option Z :=
  match lf_idx buf 0 with
  | None => Some incomplete
  | Some O => Some err_malformed
  | Some (S r) =>
      c ← buf !! r;
      if negb (beq c CR) then Some err_malformed
      else
        st ← status_code buf;
        if st <? 100 then Some err_malformed
        else response_loop (S (length buf)) buf (bodyless_status st) (S r + 1) (-1) false
  end.

Definition body_bounds (buf : list byte) (total : Z) : option (Z * Z) :=
  hl ← head_len buf;
  Some (if (hl <? 0) || (total <=? hl) then (0, 0) else (hl, total - hl)).

(** [for pos > 0 && pos < end - 2]; without an LF no field fits and [pos] is 0. *)
Fixpoint header_value_loop (fuel : nat) (buf : list byte) (e : Z) (name : list byte) (pos : nat) : option (option (nat * nat)) :=
  if (0 <? pos)%nat && (Z.of_nat pos <? e - 2) then
    match fuel with
    | O => None
    | S f =>
        match lf_idx buf pos with
        | None => Some None
        | Some lf =>
            v ← field_value buf pos (lf - 1) name;
            match v with Some v => Some (Some v) | None => header_value_loop f buf e name (lf + 1) end
        end
    end
  else Some None.

Definition header_value_in (buf : list byte) (start : nat) (e : Z) (name : list byte) : option (option (nat * nat)) :=
  let pos := match lf_idx buf start with Some lf => (lf + 1)%nat | None => O end in
  header_value_loop (length buf) buf e name pos.

Definition header_value_from (buf : list byte) (hl : Z) (name : list byte) : option (option (nat * nat)) := header_value_in buf 0 hl name.

Definition header_value (buf name : list byte) : option (option (nat * nat)) :=
  hl ← head_len buf;
  if hl <? 0 then Some None else header_value_from buf hl name.

Definition is_chunked (buf : list byte) : option bool :=
  hl ← head_len buf;
  if hl <? 0 then Some false
  else v ← header_value_from buf hl transfer_encoding_lower; Some (match v with Some _ => true | None => false end).

(** [for j < total] over the digits of [append_body], [n] rounds before the end;
    [None] inside is [return false]. *)
Fixpoint decode_size_loop (n : nat) (buf : list byte) (j : nat) (size : Z) : option (option (Z * nat)) :=
  match n with
  | O => Some (Some (size, j))
  | S n' =>
      c ← buf !! j;
      let d := hex_digit c in
      if d <? 0 then Some (Some (size, j))
      else
        let size := size * 16 + d in
        if size_cap <? size then Some None else decode_size_loop n' buf (S j) size
  end.

(** A size line of [append_body]: the size and the index behind the line. *)
Definition decode_size_line (buf : list byte) (pos total : nat) : option (option (Z * nat)) :=
  r ← decode_size_loop (total - pos) buf pos 0;
  match r with
  | None => Some None
  | Some (size, j) =>
      if (j =? pos)%nat || (total <=? j)%nat then Some None
      else
        c ← buf !! j;
        if negb (beq c CR) && negb (beq c SEMI) && negb (beq c SP) && negb (beq c HTAB) then Some None
        else
          j ← scan_while (fun b => negb (beq b CR)) (total - j) buf j;
          Some (Some (size, (j + 2)%nat))
  end.

(** [for pos < total] of [append_body]: [out] and the answer. [pos] is an [int] that must
    not overflow. *)
Fixpoint decode_loop (fuel : nat) (buf : list byte) (total : nat) (out : list byte) (pos : nat) : option (list byte * bool) :=
  if (pos <? total)%nat then
    match fuel with
    | O => None
    | S f =>
        r ← decode_size_line buf pos total;
        match r with
        | None => Some (out, false)
        | Some (size, data) =>
            if size =? 0 then Some (out, true)
            else if Z.of_nat total <? Z.of_nat data + size then Some (out, false)
            else
              chunk ← view buf data (Z.to_nat (i32 size));
              let next := Z.of_nat data + i32 size + 2 in
              if 2 ^ 31 <=? next then None else decode_loop f buf total (out ++ chunk) (Z.to_nat next)
        end
    end
  else Some (out, true).

Definition append_body (out buf : list byte) (total : Z) : option (list byte * bool) :=
  hl ← head_len buf;
  if hl <? 0 then Some (out, false)
  else if total <=? hl then Some (out, true)
  else
    let start := Z.to_nat hl in
    te ← header_value_from buf hl transfer_encoding_lower;
    match te with
    | None => raw ← view buf start (Z.to_nat (total - hl)); Some (out ++ raw, true)
    | Some _ => decode_loop (length buf) buf (Z.to_nat total) out start
    end.

(** ** Lines *)

Lemma lf_idx_text buf pos s : text buf pos (length buf) s -> lf_idx buf pos = Nat.add pos <$> find_byte LF s.
Proof.
  intros Ht. unfold lf_idx. rewrite (text_end _ _ _ _ Ht), (text_drop _ _ _ Ht).
  destruct (bool_decide_reflect (s = [])) as [->|_]; done.
Qed.

Lemma lf_line buf pos l rest :
  text buf pos (length buf) (l ++ CRLF ++ rest) -> LF ∉ l ->
  lf_idx buf pos = Some (S (pos + length l)) /\ buf !! (pos + length l)%nat = Some CR /\
  text buf pos (pos + length l) l /\ text buf (pos + length l + 2) (length buf) rest.
Proof.
  intros Ht Hl. rewrite (lf_idx_text _ _ _ Ht). pose proof (text_skip _ _ _ _ _ Ht) as Ht1. split; [|split; [|split]].
  - replace (l ++ CRLF ++ rest) with ((l ++ [CR]) ++ LF :: rest) by (by rewrite <- app_assoc). rewrite find_byte_app, length_app; [cbn; f_equal; lia|].
    apply not_elem_of_app. split; [done|]. apply not_elem_of_cons. split; [apply LF_not_CR | apply not_elem_of_nil].
  - by destruct (text_cons _ _ _ _ _ Ht1) as (? & _).
  - by apply text_prefix in Ht.
  - by apply (text_skip _ _ _ CRLF) in Ht1.
Qed.

Lemma lf_bare buf pos a rest :
  text buf pos (length buf) (a ++ LF :: rest) -> LF ∉ a -> last a <> Some CR ->
  lf_idx buf pos = Some (pos + length a)%nat /\
  (a = [] \/ exists c k, length a = S k /\ buf !! (pos + k)%nat = Some c /\ beq c CR = false).
Proof.
  intros Ht Ha Hl. rewrite (lf_idx_text _ _ _ Ht), find_byte_app by done. split; [done|]. by destruct (bare_line _ _ _ _ Ht Ha Hl) as (_ & _ & ?).
Qed.

Lemma lf_part buf pos s : text buf pos (length buf) s -> LF ∉ s -> lf_idx buf pos = None.
Proof. intros Ht Hs. by rewrite (lf_idx_text _ _ _ Ht), (proj2 (find_byte_None LF s) Hs). Qed.

(** ** Field values *)

Lemma word_at_spec buf i word s r :
  text buf i r s -> (length word <= length s)%nat -> word_at buf i word = Some (bool_decide (lower <$> take (length word) s = word)).
Proof.
  revert i s. induction word as [|w word IH]; intros i s Ht Hl; cbn [word_at length]; [by rewrite take_0|].
  destruct s as [|c s]; [cbn in Hl; lia|]. destruct (text_cons _ _ _ _ _ Ht) as (E & Ht' & _). run E. cbn [length] in Hl.
  rewrite firstn_cons, fmap_cons. change (lower_case c) with (lower c). destruct (beq (lower c) w) eqn:Ew.
  - apply beq_true in Ew. rewrite (IH _ _ Ht') by lia. f_equal. apply bool_decide_ext. rewrite Ew. split; congruence.
  - apply beq_false in Ew. f_equal. symmetry. apply bool_decide_eq_false. congruence.
Qed.

(** The value of a line that is the field [name], its colon right behind the name. *)
Definition fvalue (name l : list byte) : option (list byte) := match field name l with FieldValue v => Some v | _ => None end.

Lemma field_value_spec buf ls le name l :
  text buf ls le l -> lower <$> name = name ->
  match fvalue name l with
  | None => field_value buf ls le name = Some None
  | Some v => exists s, field_value buf ls le name = Some (Some (s, length v)) /\ text buf s (s + length v) v
  end.
Proof.
  intros Ht Hname. pose proof (text_length _ _ _ _ Ht) as Hlen. unfold field_value, fvalue, field.
  destruct (Nat.leb_spec (le - ls) (length name)).
  { destruct (ci_eq _ name); [|done]. by rewrite drop_ge by lia. }
  rewrite (word_at_spec _ _ _ _ _ Ht) by lia. cbn [mbind option_bind].
  assert (E : ci_eq (take (length name) l) name = bool_decide (lower <$> take (length name) l = name)) by (unfold ci_eq; by rewrite Hname).
  rewrite E. destruct (bool_decide _); cbn [negb]; [|done]. rewrite <- (take_drop (length name) l) in Ht. apply text_skip in Ht.
  rewrite length_take_le in Ht by lia. destruct (drop (length name) l) as [|c v] eqn:Ed; [apply (f_equal length) in Ed; rewrite length_drop in Ed; cbn in Ed; lia|].
  destruct (text_cons _ _ _ _ _ Ht) as (Ec & Hv & _). run Ec. destruct (beq c COLON); cbn [negb]; [|by destruct (ows c)].
  rewrite Nat.add_1_r. pose proof (text_length _ _ _ _ Hv) as Hlv. destruct Hv as [Hv Hb]. destruct (trim_at _ _ _ _ Hv) as (s & E1 & E2 & Hle & Ev); [lia|].
  replace (S (ls + length name) + (le - S (ls + length name)))%nat with le in * by lia. run E1. run E2. exists s. split; [do 3 f_equal; lia|].
  split; [by replace (s + length (trim v) - s)%nat with (length (trim v)) by lia | lia].
Qed.

(** A length up to the client's cap. *)
Definition resp_length (v : list byte) : option Z :=
  if negb (bool_decide (v = [])) && forallb digit v && (decimal v <=? size_cap) then Some (decimal v) else None.

Lemma content_length_loop n buf i e acc v :
  text buf i e v -> n = length v -> 0 <= acc <= size_cap ->
  let r := foldl (fun n b => n * 10 + (byte_val b - 48)) acc v in
  length_loop n buf i acc = Some (if forallb digit v && (r <=? size_cap) then Some r else None).
Proof.
  revert i acc v. induction n as [|n IH]; intros i acc v Ht Hn Ha r; (destruct v as [|b v]; [|]); cbn [length] in Hn; try lia; cbn [length_loop]; subst r.
  { cbn [foldl forallb]. by rewrite (proj2 (Z.leb_le acc _)) by lia. }
  destruct (text_cons _ _ _ _ _ Ht) as (E & Ht' & _). run E. cbn [forallb foldl].
  assert (Ed : (byte_val b <? 48) || (57 <? byte_val b) = negb (digit b)) by (unfold digit; lia). rewrite Ed.
  destruct (digit b) eqn:Eb; cbn [negb andb]; [|done]. unfold digit in Eb. destruct (Z.ltb_spec size_cap (acc * 10 + (byte_val b - 48))).
  - destruct (forallb digit v) eqn:Ev; [|done]. cbn [andb].
    pose proof (decimal_mono v (acc * 10 + (byte_val b - 48)) Ev ltac:(lia)). by rewrite (proj2 (Z.leb_gt _ _)) by lia.
  - apply (IH _ _ _ Ht'); lia.
Qed.

Lemma resp_length_spec buf s v : text buf s (s + length v) v -> parse_content_length buf s (length v) = Some (resp_length v).
Proof.
  intros Ht. unfold parse_content_length, resp_length. destruct v as [|b v]; [done|]. cbn [length Nat.eqb].
  rewrite (bool_decide_eq_false_2 (b :: v = [])) by done. apply (content_length_loop _ _ _ _ _ _ Ht); [done | by vm_compute].
Qed.

Lemma resp_length_range v n : resp_length v = Some n -> 0 <= n <= size_cap.
Proof.
  unfold resp_length. destruct (_ && forallb digit v) eqn:E; [|done]. apply andb_prop in E as [_ E]. cbn [andb].
  destruct (Z.leb_spec (decimal v) size_cap); [|done]. intros [= <-]. split; [by apply decimal_mono | done].
Qed.

(** ** Transfer codings *)

(** Whether the last element of the list is chunked; no CR anywhere. *)
Definition final_chunked (v : list byte) : bool :=
  bool_decide (CR ∉ v) && match last (trim <$> split_on COMMA v) with Some t => HttpField.is_chunked t | None => false end.

Lemma split_on_last_app c pre t : last (split_on c (pre ++ c :: t)) = last (split_on c t).
Proof.
  induction pre as [|b pre IH]; cbn [app split_on].
  - rewrite (proj2 (beq_true c c)) by done. by destruct (split_on_cons c t) as (? & ? & ->).
  - assert (E : exists y z ys, split_on c (pre ++ c :: t) = y :: z :: ys).
    { clear IH. induction pre as [|x pre (y & z & ys & E)]; cbn [app split_on].
      - rewrite (proj2 (beq_true c c)) by done. destruct (split_on_cons c t) as (? & ? & ->). eauto.
      - rewrite E. destruct (beq x c); eauto. }
    destruct E as (y & z & ys & E). rewrite E in *. by destruct (beq b c).
Qed.

Lemma split_on_last c v : exists t, last (split_on c v) = Some t /\ (c ∉ t) /\ (v = t \/ exists pre, v = pre ++ c :: t).
Proof.
  destruct (decide (c ∈ v)) as [Hin|Hout]; [|exists v; rewrite split_on_none by done; auto].
  apply list_elem_of_split_r in Hin as (pre & t & -> & Ht). exists t. rewrite split_on_last_app, split_on_none by done. eauto.
Qed.

Lemma trim_split l : exists a b, l = a ++ trim l ++ b /\ bws a /\ bws b.
Proof.
  exists (take_while ows l). destruct (trim_end_prefix ows (drop_while ows l)) as (b & E & Hb). exists b. unfold trim. rewrite <- E.
  split; [by rewrite take_drop_while|]. split; [apply take_while_all | done].
Qed.

Lemma trim_end_app l b : bws b -> trim_end ows (l ++ b) = trim_end ows l.
Proof. intros Hb. unfold trim_end. rewrite reverse_app, drop_while_app; [done | by apply Forall_reverse]. Qed.

Lemma trim_end_id l : match last l with Some c => ows c = false | None => True end -> trim_end ows l = l.
Proof.
  intros H. unfold trim_end. rewrite drop_while_id; [apply reverse_involutive|]. destruct l as [|c l _] using rev_ind; [done|].
  rewrite last_snoc in H. by rewrite reverse_snoc.
Qed.

(** Chunked has no white space to trim. *)
Lemma trim_chunked a t : bws a -> ci_eq t chunked_name = true -> trim (a ++ t) = t.
Proof.
  intros Ha Ht. assert (Hall : Forall (fun b => ows b = false) t).
  { apply Forall_forall. intros b Hb. unfold ci_eq in Ht. apply bool_decide_eq_true in Ht.
    assert (H : beq b COMMA || ows b = false) by (apply chunked_bytes; rewrite <- Ht; by apply list_elem_of_fmap_2). by apply orb_false_iff in H as [_ H]. }
  unfold trim. rewrite drop_while_app, drop_while_id; [|destruct t; [done | by inversion Hall] | done].
  apply trim_end_id. destruct (last t) as [c|] eqn:E; [|done]. apply last_Some_elem_of in E. rewrite Forall_forall in Hall. by apply Hall.
Qed.

Lemma trim_last l c : last (trim l) = Some c -> ows c = false.
Proof.
  unfold trim, trim_end. set (s := drop_while ows (reverse _)). intros H. pose proof (drop_while_stops ows (reverse (drop_while ows l))) as Hs. fold s in Hs.
  destruct s as [|b s]; [done|]. rewrite reverse_cons, last_snoc in H. by injection H as ->.
Qed.

(** The value read backwards: chunked, white space, and the start or a comma. *)
Definition chunked_tail (v : list byte) : Prop :=
  exists p t, v = p ++ t /\ ci_eq t chunked_name = true /\ (trim_end ows p = [] \/ last (trim_end ows p) = Some COMMA).

Lemma chunked_tail_spec v :
  (forall c, last v = Some c -> ows c = false) ->
  chunked_tail v <-> exists t, last (trim <$> split_on COMMA v) = Some t /\ HttpField.is_chunked t = true.
Proof.
  intros Hv. rewrite fmap_last. destruct (split_on_last COMMA v) as (u & -> & Hu & Hvu). cbn [fmap option_fmap option_map]. split.
  - intros (p & t & -> & Ht & Hp). exists (trim u). split; [done|]. unfold HttpField.is_chunked. destruct (trim_end_prefix ows p) as (w & Ep & Hw).
    assert (Hc : COMMA ∉ w ++ t).
    { apply not_elem_of_app. split; [intros Hin; unfold bws in Hw; rewrite Forall_forall in Hw; by apply Hw in Hin|]. intros Hin. unfold ci_eq in Ht. apply bool_decide_eq_true in Ht.
      assert (H : beq COMMA COMMA || ows COMMA = false) by (apply chunked_bytes; rewrite <- Ht; by apply list_elem_of_fmap_2). done. }
    assert (u = w ++ t) as ->; [|by rewrite trim_chunked].
    destruct Hp as [Hp|Hp]; [rewrite Hp in Ep; cbn in Ep; subst w|apply last_Some in Hp as [q Hq]; rewrite Hq in Ep; rewrite Ep, <- !app_assoc in Hvu; cbn [app] in Hvu].
    + destruct Hvu as [?|[pre E]]; [done|]. exfalso. apply Hc. rewrite E. set_solver.
    + destruct Hvu as [E|[pre E]]; [exfalso; apply Hu; rewrite <- E; set_solver|].
      pose proof (split_on_last_app COMMA q (w ++ t)) as E1. rewrite E, split_on_last_app, !split_on_none in E1 by done. by injection E1.
  - intros (t & [= <-] & Ht). destruct (trim_split u) as (a & b & Eu & Ha & Hb). unfold HttpField.is_chunked in Ht.
    assert (b = []) as ->.
    { destruct b as [|c b _] using rev_ind; [done|]. exfalso. unfold bws in Hb. rewrite Forall_app in Hb. destruct Hb as [_ Hb]. inversion_clear Hb as [|? ? Hc _].
      assert (El : last v = Some c) by (destruct Hvu as [->|[pre ->]]; rewrite Eu, ?app_comm_cons, !app_assoc; apply last_snoc). apply Hv in El. congruence. }
    rewrite app_nil_r in Eu. destruct Hvu as [->|[pre ->]]; [exists a, (trim u) | exists (pre ++ COMMA :: a), (trim u)].
    + split; [done|]. split; [done|]. left. change a with ([] ++ a). by rewrite trim_end_app.
    + split; [rewrite Eu at 1; by rewrite <- app_assoc|]. split; [done|]. right. change (COMMA :: a) with ([COMMA] ++ a). rewrite app_assoc, trim_end_app by done.
      rewrite trim_end_id; [apply last_snoc | by rewrite last_snoc].
Qed.

Lemma scan_no_cr buf v e s : text buf v e s ->
  exists j, scan_while (fun b => negb (beq b CR)) (e - v) buf v = Some j /\ (j <? e)%nat = negb (bool_decide (CR ∉ s)).
Proof.
  intros Ht. destruct (text_scan (fun b => negb (beq b CR)) _ _ _ _ Ht) as [E Ht']. eexists. split; [exact E|]. pose proof (text_length _ _ _ _ Ht') as Hl.
  pose proof (take_drop_while (fun b => negb (beq b CR)) s) as Es. pose proof (take_while_all (fun b => negb (beq b CR)) s) as Hall.
  pose proof (drop_while_stops (fun b => negb (beq b CR)) s) as Hst. destruct (drop_while _ s) as [|c t]; cbn [length] in Hl.
  - rewrite (proj2 (Nat.ltb_ge _ _)) by lia. rewrite bool_decide_eq_true_2; [done|]. rewrite <- Es, app_nil_r. intros Hin. rewrite Forall_forall in Hall.
    apply Hall in Hin. by rewrite (proj2 (beq_true CR CR)) in Hin.
  - rewrite (proj2 (Nat.ltb_lt _ _)) by lia. cbn in Hst. apply negb_false_iff, beq_true in Hst as ->. rewrite bool_decide_eq_false_2; [done|]. intros H. apply H. rewrite <- Es. set_solver.
Qed.

Lemma value_has_chunked_spec buf v s :
  text buf v (v + length s) s -> (forall c, last s = Some c -> ows c = false) -> value_has_chunked buf v (v + length s) = Some (final_chunked s).
Proof.
  intros Ht Hlast. pose proof (chunked_tail_spec s Hlast) as Htail. unfold value_has_chunked, final_chunked. change (bytes_of "chunked") with chunked_name. change (length chunked_name) with 7%nat.
  replace (v + length s - v)%nat with (length s) by lia.
  assert (Hfin : forall b : bool, (b = true <-> chunked_tail s) -> b = match last (trim <$> split_on COMMA s) with Some t => HttpField.is_chunked t | None => false end).
  { intros b Hb. apply eq_true_iff_eq. rewrite Hb, Htail. destruct (last (trim <$> _)) as [t|]; [|split; [by intros (? & ? & _) | done]].
    split; [intros (x & E & Hx); by injection E as -> | eauto]. }
  destruct (Nat.ltb_spec (length s) 7).
  { rewrite <- (Hfin false); [by rewrite andb_false_r|]. split; [done|]. intros (p & t & -> & Hc%ci_eq_length & _). rewrite length_app in *. cbn in Hc. lia. }
  destruct (scan_no_cr _ _ _ _ Ht) as (j & Ej & Hj). replace (v + length s - v)%nat with (length s) in Ej by lia. run Ej. rewrite Hj. destruct (bool_decide (CR ∉ s)); cbn [negb andb]; [|done].
  set (p := take (length s - 7) s). set (t := drop (length s - 7) s). assert (Es : s = p ++ t) by (symmetry; apply take_drop).
  assert (Hlp : length p = (length s - 7)%nat) by (unfold p; rewrite length_take; lia). assert (Hlt : length t = 7%nat) by (unfold t; rewrite length_drop; lia).
  pose proof Ht as Ht2. rewrite Es in Ht2 at 2. pose proof (text_skip _ _ _ _ _ Ht2) as Htt. replace (v + length s - 7)%nat with (v + length p)%nat by lia.
  rewrite (word_at_spec _ _ _ _ _ Htt) by (change (length chunked_name) with 7%nat; lia). cbn [mbind option_bind]. rewrite take_ge by (change (length chunked_name) with 7%nat; lia).
  assert (Ec : ci_eq t chunked_name = bool_decide (lower <$> t = chunked_name)) by done. rewrite <- Ec.
  assert (Huniq : chunked_tail s <-> ci_eq t chunked_name = true /\ (trim_end ows p = [] \/ last (trim_end ows p) = Some COMMA)).
  { split; [|intros [? ?]; by exists p, t]. intros (p' & t' & E & Hc & Hp). pose proof (ci_eq_length _ _ Hc) as Hl'. change (length chunked_name) with 7%nat in Hl'. rewrite Es in E.
    apply app_inj_2 in E as [-> ->]; [done | congruence]. }
  destruct (ci_eq t chunked_name); cbn [negb]; [|f_equal; apply Hfin; rewrite Huniq; split; [done | by intros [? _]]].
  apply text_prefix in Ht2. destruct Ht2 as [Htp Hb]. replace (v + length p - v)%nat with (length p) in * by lia.
  rewrite (scan_back_spec ows _ _ _ _ Htp) by lia. cbn [mbind option_bind]. set (q := trim_end ows p) in *.
  destruct (Nat.eqb_spec (v + length q) v) as [Eq|Eq]; [assert (q = []) as Eq' by (destruct q; [done | cbn in Eq; lia]); f_equal; apply Hfin; rewrite Huniq; split; [by auto | done]|].
  destruct (trim_end_prefix ows p) as (w & Ep & _). fold q in Ep. destruct q as [|c q' _] eqn:Eq1 using rev_ind; [cbn in Eq; lia|].
  assert (Hlook : buf !! (v + length (q' ++ [c]) - 1)%nat = Some c).
  { rewrite length_app. cbn [length]. replace (v + (length q' + 1) - 1)%nat with (v + length q')%nat by lia. rewrite <- lookup_drop, <- (lookup_take_lt _ (length p)), Htp by (rewrite Ep, !length_app; cbn; lia).
    rewrite Ep, <- app_assoc. by apply list_lookup_middle. }
  rewrite Hlook. cbn [fmap option_fmap option_map]. f_equal. apply Hfin. rewrite Huniq, last_snoc, beq_true. split; [intros ->; auto | intros [_ [?|[= ->]]]; [by destruct q'|done]].
Qed.

(** ** Status lines *)

Definition status_digits (minor sp d0 d1 d2 : byte) : option Z :=
  if between 48 57 minor && beq sp SP && between 49 57 d0 && between 48 57 d1 && between 48 57 d2
  then Some ((byte_val d0 - 48) * 100 + (byte_val d1 - 48) * 10 + (byte_val d2 - 48)) else None.

(** The status of a status line: HTTP/1, a digit, a space, three digits, and nothing or a
    space (or a CR) behind them. *)
Definition status_of (l : list byte) : option Z :=
  match l with
  | h0 :: h1 :: h2 :: h3 :: h4 :: h5 :: h6 :: minor :: sp :: d0 :: d1 :: d2 :: rest =>
      if bool_decide ([h0; h1; h2; h3; h4; h5; h6] = bytes_of "HTTP/1.") && match rest with [] => true | c :: _ => beq c SP || beq c CR end
      then status_digits minor sp d0 d1 d2 else None
  | _ => None
  end.

Lemma status_of_range l st : status_of l = Some st -> 100 <= st <= 999.
Proof.
  unfold status_of, status_digits. do 12 (destruct l as [|? l]; [done|]). destruct (_ && _); [|done]. destruct (_ && between 48 57 _) eqn:E; [|done].
  intros [= <-]. rewrite !andb_true_iff in E. unfold between in E. lia.
Qed.

Lemma status_at_text buf p s : text buf p (length buf) s -> status_at buf p = Some (default (-1) (status_of s)).
Proof.
  intros Ht. pose proof (text_length _ _ _ _ Ht) as Hl. unfold status_at. replace (length buf - p)%nat with (length s) by lia.
  do 12 (destruct s as [|? s]; [done|]). cbn [length]. rewrite (proj2 (Nat.ltb_ge _ _)) by lia.
  assert (Hv : view buf p 7 = Some [b; b0; b1; b2; b3; b4; b5]) by (by apply (text_view _ _ (length buf) [b; b0; b1; b2; b3; b4; b5] (b6 :: b7 :: b8 :: b9 :: b10 :: s))). run Hv.
  assert (Hn : forall k, (k < 12)%nat -> buf !! (p + k)%nat = [b; b0; b1; b2; b3; b4; b5; b6; b7; b8; b9; b10] !! k).
  { intros k Hk. cbn [length] in Hl. destruct Ht as [Ht Hb]. rewrite <- lookup_drop, <- (lookup_take_lt _ (length buf - p)), Ht by lia. by do 12 (destruct k as [|k]; [done|]); lia. }
  rewrite (Hn 7%nat), (Hn 8%nat), (Hn 9%nat), (Hn 10%nat), (Hn 11%nat) by lia. cbn [lookup list_lookup mbind option_bind]. unfold status_of, status_digits.
  destruct (bool_decide _); cbn [negb orb andb]; [|done]. destruct (between 48 57 b6); cbn [negb orb andb]; [|by destruct s as [|? ?]; [|destruct (_ || _)]].
  destruct (beq b7 SP); cbn [negb orb andb]; [|by destruct s as [|? ?]; [|destruct (_ || _)]].
  destruct (between 49 57 b8 && between 48 57 b9 && between 48 57 b10) eqn:E.
  - rewrite !andb_true_iff in E. destruct E as [[-> ->] ->]. cbn [negb orb andb]. destruct s as [|c s]; cbn [length]; [done|]. rewrite (proj2 (Nat.ltb_lt _ _)) by lia.
    assert (buf !! (p + 12)%nat = Some c) as ->.
    { destruct Ht as [Ht Hb]. cbn [length] in Hl. rewrite <- lookup_drop, <- (lookup_take_lt _ (length buf - p)), Ht by lia. done. }
    cbn [fmap option_fmap option_map mbind option_bind]. by destruct (beq c SP), (beq c CR).
  - rewrite <- !negb_andb, E. cbn [negb]. by destruct s as [|? ?]; [|destruct (_ || _)].
Qed.

Lemma between_CR lo : 48 <= lo -> between lo 57 CR = false.
Proof. intros H. unfold between. change (byte_val CR) with 13. by rewrite (proj2 (Z.ltb_lt 13 lo)) by lia. Qed.

(** The status line alone decides. *)
Lemma status_of_line l rest : status_of (l ++ CRLF ++ rest) = status_of l.
Proof.
  assert (Hd : forall m s a b c, m = CR \/ s = CR \/ a = CR \/ b = CR \/ c = CR -> status_digits m s a b c = None).
  { intros m s a b c H. unfold status_digits. destruct (_ && between 48 57 c) eqn:E; [|done]. rewrite !andb_true_iff in E. destruct E as [[[[E1 E2] E3] E4] E5].
    destruct H as [->|[->|[->|[->| ->]]]]; [by rewrite between_CR in E1 | done | by rewrite between_CR in E3 by lia | by rewrite between_CR in E4 | by rewrite between_CR in E5]. }
  do 7 (destruct l as [|? l]; [cbn [app CRLF status_of]; repeat match goal with |- match ?r with _ => _ end = _ => match type of r with list _ => destruct r as [|? ?]; [done|] end end;
    rewrite bool_decide_eq_false_2 by (intros E; vm_compute in E; congruence); done|]).
  do 5 (destruct l as [|? l]; [cbn [app CRLF status_of]; repeat match goal with |- match ?r with _ => _ end = _ => match type of r with list _ => destruct r as [|? ?]; [done|] end end; rewrite Hd by tauto; by destruct (_ && _)|]).
  by destruct l as [|c l].
Qed.

(** ** More bytes behind the buffer *)

Lemma text_ext buf more i e s : text buf i e s -> text (buf ++ more) i e s.
Proof.
  intros [H Hb]. split; [|rewrite length_app; lia]. rewrite <- H, drop_app_le by lia. rewrite take_app_le; [done|]. rewrite length_drop. lia.
Qed.

Lemma text_more buf more i s : text buf i (length buf) s -> text (buf ++ more) i (length (buf ++ more)) (s ++ more).
Proof.
  intros Ht. pose proof (text_drop _ _ _ Ht) as Hd. destruct Ht as [_ Hb]. apply text_suffix; [|rewrite length_app; lia]. rewrite drop_app_le by lia. by rewrite Hd.
Qed.

Lemma lookup_ext (buf more : list byte) i c : buf !! i = Some c -> (buf ++ more) !! i = Some c.
Proof. intros H. apply lookup_app_l_Some, H. Qed.

Lemma lf_idx_ext buf more i lf : lf_idx buf i = Some lf -> lf_idx (buf ++ more) i = Some lf.
Proof.
  unfold lf_idx. destruct (Nat.leb_spec (length buf) i); [done|]. rewrite length_app, (proj2 (Nat.leb_gt _ _)) by lia. rewrite drop_app_le by lia.
  destruct (find_byte LF (drop i buf)) as [k|] eqn:E; [|done]. intros [= <-]. apply find_byte_Some in E as (a & b & -> & Ha & <-).
  rewrite <- app_assoc. cbn [app]. by rewrite find_byte_app.
Qed.

Lemma lf_idx_range buf i lf : lf_idx buf i = Some lf -> (i <= lf < length buf)%nat.
Proof.
  unfold lf_idx. destruct (Nat.leb_spec (length buf) i); [done|]. destruct (find_byte LF (drop i buf)) as [k|] eqn:E; [|done]. intros [= <-].
  apply find_byte_Some in E as (a & b & E & _ & <-). apply (f_equal length) in E. rewrite length_drop, length_app in E. cbn in E. lia.
Qed.

(** ** Size lines *)

Lemma hexfold_ge ds ds' acc : Forall (fun b => hexit b = true) (ds ++ ds') -> 0 <= acc -> hexfold acc ds <= hexfold acc (ds ++ ds').
Proof.
  intros [H1 H2]%Forall_app Ha. unfold hexfold at 2. rewrite foldl_app. fold (hexfold acc ds). apply hexfold_mono; [done|]. pose proof (hexfold_mono ds acc H1 Ha). lia.
Qed.

Lemma size_loop_spec n buf pos j s acc :
  text buf j (length buf) s -> n = (length buf - j)%nat -> (pos <= j)%nat -> (j - pos <= 16)%nat -> 0 <= acc <= size_cap ->
  let ds := take_while hexit s in
  size_loop n buf pos j acc
  = Some (if (hexfold acc ds <=? size_cap) && (j - pos + length ds <=? 16)%nat then inl (hexfold acc ds, (j + length ds)%nat) else inr err_malformed).
Proof.
  revert j s acc. induction n as [|n IH]; intros j s acc Ht Hn Hp Hd Ha ds; pose proof (text_length _ _ _ _ Ht) as Hl; subst ds.
  - destruct s; [|cbn in Hl; lia]. cbn [size_loop take_while hexfold foldl length]. rewrite (proj2 (Z.leb_le _ _)), (proj2 (Nat.leb_le _ _)) by lia.
    cbn [andb]. do 3 f_equal. lia.
  - destruct s as [|c s]; [cbn in Hl; lia|]. destruct (text_cons _ _ _ _ _ Ht) as (E1 & Ht' & _). cbn [size_loop]. run E1. change (hex_digit c) with (HttpChunk.hex_digit c).
    cbn [take_while]. pose proof (hex_digit_range c) as Hc. assert (hexit c = negb (HttpChunk.hex_digit c <? 0)) as -> by (unfold hexit; lia).
    destruct (Z.ltb_spec (HttpChunk.hex_digit c) 0); cbn [negb].
    { cbn [hexfold foldl length]. rewrite (proj2 (Z.leb_le _ _)), (proj2 (Nat.leb_le _ _)) by lia. cbn [andb]. do 3 f_equal. lia. }
    cbn [hexfold foldl length]. fold (hexfold (acc * 16 + HttpChunk.hex_digit c) (take_while hexit s)).
    pose proof (hexfold_mono (take_while hexit s) (acc * 16 + HttpChunk.hex_digit c) (take_while_all _ _) ltac:(lia)) as Hm.
    destruct (Z.ltb_spec size_cap (acc * 16 + HttpChunk.hex_digit c)); cbn [orb]; [by rewrite (proj2 (Z.leb_gt _ _)) by lia|].
    destruct (Nat.leb_spec 16 (j - pos)); [by rewrite (proj2 (Nat.leb_gt _ _)), andb_false_r by lia|].
    rewrite (IH (S j) s _ Ht') by lia. replace (S j - pos + length (take_while hexit s))%nat with (j - pos + S (length (take_while hexit s)))%nat by lia.
    destruct (_ && _); [|done]. do 3 f_equal. lia.
Qed.

(** The server's scan of the line behind the digits, with the client's codes. *)
Lemma size_line_cr_server buf j : (j < length buf)%nat ->
  size_line_cr buf j = (r ← size_line_end buf j; Some (match r with inl e => inl e | inr (inl _) => inr incomplete | inr (inr _) => inr err_malformed end)).
Proof.
  intros Hj. unfold size_line_cr, size_line_end. destruct (buf !! j) as [c|]; [|done]. cbn [mbind option_bind]. destruct (beq c CR); [done|].
  assert (E : negb (beq c SEMI) && negb (beq c SP) && negb (beq c HTAB) = negb (beq c SEMI || ows c)) by (unfold ows; by destruct (beq c SEMI), (beq c SP), (beq c HTAB)).
  rewrite E. clear E. destruct (beq c SEMI || ows c); cbn [negb]; [|done]. pose proof (text_suffix buf j _ eq_refl ltac:(lia)) as Ht. run (find_lf_spec _ _ _ Ht). rewrite (lf_idx_text _ _ _ Ht).
  destruct (find_byte LF (drop j buf)) as [k|]; [|done]. cbn [fmap option_fmap option_map]. destruct (buf !! (j + k - 1)%nat) as [d|]; [|done]. cbn [mbind option_bind].
  destruct (negb (beq d CR)); [done|]. unfold chunk_ext_ok. destruct (HttpChunk.chunk_ext_ok buf j (j + k - 1)) as [[]|]; done.
Qed.

(** The size of a chunk: up to sixteen digits, within the cap. *)
Definition size_digits (ds : list byte) : Prop := hexits ds /\ (length ds <= 16)%nat /\ hexval ds <= size_cap.

Lemma chunk_size_line_sound buf pos s :
  text buf pos (length buf) s ->
  exists r, chunk_size_line buf pos = Some r /\
    match r with
    | inl (d, v) => exists ds ext t, s = ds ++ ext ++ CRLF ++ t /\ size_digits ds /\ hexval ds = v /\ 0 <= v /\ chunk_ext ext /\ d = (pos + length ds + length ext + 2)%nat
    | inr c => c = incomplete \/ c = err_malformed
    end.
Proof.
  intros Ht. unfold chunk_size_line. rewrite (size_loop_spec _ _ _ _ _ _ Ht eq_refl) by (try lia; by vm_compute).
  pose proof (take_drop_while hexit s) as Es. pose proof (take_while_all hexit s) as Hall. cbn [mbind option_bind]. rewrite Nat.sub_diag. cbn [Nat.add].
  pose proof (hexfold_mono _ 0 Hall ltac:(lia)) as Hpos. set (ds := take_while hexit s) in *.
  destruct ((hexfold 0 ds <=? size_cap) && _) eqn:Ecap; [|by eexists; split; [done|]; right]. apply andb_prop in Ecap as [Ecap E16]. apply Z.leb_le in Ecap. apply Nat.leb_le in E16.
  rewrite <- Es in Ht. pose proof (text_skip _ _ _ _ _ Ht) as Ht1.
  rewrite (text_end _ _ _ _ Ht1). destruct (bool_decide_reflect (drop_while hexit s = [])) as [E|Hn]; [by eexists; split; [done|]; left|].
  destruct (Nat.eqb_spec (pos + length ds) pos) as [E|Hd]; [by eexists; split; [done|]; right|]. pose proof (text_length _ _ _ _ Ht1) as Hl1.
  rewrite size_line_cr_server by (destruct (drop_while hexit s); [done | cbn in Hl1; lia]).
  destruct (size_line_end_sound _ _ _ Ht1 Hn) as (r & E1 & Hr). run E1. destruct r as [line_end|[n|c]]; [|eexists; split; [done|]; by left|eexists; split; [done|]; by right].
  destruct Hr as (ext & t & Et & He & ->). rewrite Et in Ht1. pose proof (text_skip _ _ _ _ _ Ht1) as Ht2. destruct (text_cons _ _ _ _ _ Ht2) as (_ & Ht3 & _).
  rewrite Nat.add_1_r, (text_end _ _ _ _ Ht3).
  destruct t as [|x t]; [by eexists; split; [done|]; left|]. rewrite bool_decide_eq_false_2 by done. destruct (text_cons _ _ _ _ _ Ht3) as (E2 & _ & _). run E2.
  destruct (beq x LF) eqn:Ex; [|by eexists; split; [done|]; right]. apply beq_true in Ex as ->. eexists. split; [done|]. cbn beta iota. exists ds, ext, t.
  split; [by rewrite <- Es, Et|]. split; [split; [apply hexits_iff; split; [by intros ->; cbn in Hd; lia | done] | done]|]. split; [done|]. split; [done|]. split; [done | lia].
Qed.

Lemma chunk_size_line_complete buf pos ds ext t :
  text buf pos (length buf) (ds ++ ext ++ CRLF ++ t) -> size_digits ds -> chunk_ext ext ->
  chunk_size_line buf pos = Some (inl ((pos + length ds + length ext + 2)%nat, hexval ds)).
Proof.
  intros Ht ([Hn Hds]%hexits_iff & H16 & Hv) He. unfold chunk_size_line. rewrite (size_loop_spec _ _ _ _ _ _ Ht eq_refl) by (try lia; by vm_compute).
  assert (Hst : stops hexit (ext ++ CRLF ++ t)).
  { destruct ext as [|c ext]; [done|]. cbn. apply not_hexit. right. by apply chunk_ext_first in He. }
  destruct (take_while_unique hexit ds _ Hds Hst) as [-> _]. unfold hexval in *. fold (hexfold 0 ds) in *.
  rewrite (proj2 (Z.leb_le _ _)), (proj2 (Nat.leb_le _ _)) by (done || lia). cbn [mbind option_bind andb].
  pose proof (text_skip _ _ _ _ _ Ht) as Ht1. rewrite (text_end _ _ _ _ Ht1), bool_decide_eq_false_2 by (by destruct ext).
  destruct (Nat.eqb_spec (pos + length ds) pos) as [E|_]; [by destruct ds; [|cbn in E; lia]|]. pose proof (text_length _ _ _ _ Ht1) as Hl1.
  rewrite size_line_cr_server by (rewrite !length_app in Hl1; change (length CRLF) with 2%nat in Hl1; lia). rewrite (size_line_end_complete _ _ _ _ Ht1 He). cbn [mbind option_bind].
  pose proof (text_skip _ _ _ _ _ Ht1) as Ht2. destruct (text_cons _ _ _ _ _ Ht2) as (_ & Ht3 & _). rewrite Nat.add_1_r, (text_end _ _ _ _ Ht3), bool_decide_eq_false_2 by done.
  destruct (text_cons _ _ _ _ _ Ht3) as (E2 & _ & _). run E2. rewrite (proj2 (beq_true LF LF)) by done. done.
Qed.

Lemma chunk_ext_ok_ext buf more i e b : (i <= e <= length buf)%nat -> chunk_ext_ok buf i e = Some b -> chunk_ext_ok (buf ++ more) i e = Some b.
Proof.
  intros Hb E. unfold chunk_ext_ok in *. pose proof (conj eq_refl Hb : text buf i e _) as Ht. destruct (chunk_ext_ok_spec _ _ _ _ Ht) as (b1 & E1 & H1).
  destruct (chunk_ext_ok_spec _ _ _ _ (text_ext _ more _ _ _ Ht)) as (b2 & -> & H2). rewrite E in E1. injection E1 as <-. f_equal. apply eq_true_iff_eq. by rewrite H1, H2.
Qed.

Lemma size_line_cr_ext buf more j r : size_line_cr buf j = Some r -> r <> inr incomplete -> size_line_cr (buf ++ more) j = Some r.
Proof.
  unfold size_line_cr. destruct (buf !! j) as [c|] eqn:Ec; [|done]. rewrite (lookup_ext _ more _ _ Ec). cbn [mbind option_bind]. destruct (beq c CR) eqn:Ecr; [done|].
  destruct (_ && _) eqn:Ej; [done|]. destruct (lf_idx buf j) as [lf|] eqn:El; [|by intros [= <-]]. rewrite (lf_idx_ext _ more _ _ El).
  destruct (buf !! (lf - 1)%nat) as [d|] eqn:Ed; [|done]. rewrite (lookup_ext _ more _ _ Ed). cbn [mbind option_bind]. destruct (negb (beq d CR)) eqn:Ed2; [done|].
  pose proof (lf_idx_range _ _ _ El) as Hr. destruct (chunk_ext_ok buf j (lf - 1)) as [b|] eqn:Eb; [|done]. rewrite (chunk_ext_ok_ext _ more _ _ b); [done| |done]. split; [|lia].
  destruct (decide (lf = j)) as [->|]; [|lia]. exfalso. unfold lf_idx in El. destruct (length buf <=? j)%nat; [done|].
  destruct (find_byte LF (drop j buf)) as [k|] eqn:Ek; [|done]. injection El as El. apply find_byte_Some in Ek as (a & b' & Ek & _ & Hk). destruct a; [|cbn in *; lia].
  destruct (drop_lookup_cons _ _ _ _ Ek) as (E & _). rewrite E in Ec. injection Ec as <-. by vm_compute in Ej.
Qed.

(** A verdict on a size line is final. *)
Lemma chunk_size_line_ext buf more pos r :
  (pos <= length buf)%nat -> chunk_size_line buf pos = Some r -> r <> inr incomplete -> chunk_size_line (buf ++ more) pos = Some r.
Proof.
  intros Hp E Hr. pose proof (text_suffix buf pos _ eq_refl Hp) as Ht. set (s := drop pos buf) in *. pose proof (text_more _ more _ _ Ht) as Ht'. unfold chunk_size_line in *.
  rewrite (size_loop_spec _ _ _ _ _ _ Ht eq_refl) in E by (try lia; by vm_compute). rewrite (size_loop_spec _ _ _ _ _ _ Ht' eq_refl) by (try lia; by vm_compute).
  rewrite Nat.sub_diag in *. cbn [mbind option_bind Nat.add] in *. pose proof (take_drop_while hexit s) as Es. pose proof (take_while_all hexit s) as Hall. pose proof (drop_while_stops hexit s) as Hst.
  set (ds := take_while hexit s) in *. destruct (drop_while hexit s) as [|c t].
  - rewrite app_nil_r in Es. rewrite <- Es in *. rewrite take_while_app by done. pose proof (take_while_all hexit more) as Hm.
    pose proof (hexfold_ge ds (take_while hexit more) 0 (proj2 (Forall_app _ _ _) (conj Hall Hm)) ltac:(lia)) as Hge. rewrite length_app.
    destruct ((hexfold 0 ds <=? size_cap) && _) eqn:Ecap.
    + exfalso. pose proof (text_length _ _ _ _ Ht). rewrite (proj2 (Nat.leb_le _ _)) in E by lia. congruence.
    + rewrite <- E. apply andb_false_iff in Ecap as [Ecap|Ecap]; [rewrite (proj2 (Z.leb_gt _ _)) by lia; done|].
      rewrite (proj2 (Nat.leb_gt _ _)), andb_false_r by (apply Nat.leb_gt in Ecap; lia). done.
  - rewrite <- Es, <- app_assoc. rewrite take_while_app, take_while_stops, app_nil_r by (done || exact Hst). destruct (_ && _); [|done].
    pose proof (text_length _ _ _ _ Ht) as Hl. rewrite <- Es, length_app in Hl. cbn [length] in Hl. rewrite (proj2 (Nat.leb_gt _ _)) in E by lia.
    rewrite (proj2 (Nat.leb_gt _ _)) by (rewrite length_app; lia). destruct (_ =? _)%nat; [done|].
    destruct (size_line_cr buf (pos + length ds)) as [[e|code]|] eqn:Ecr; [| |done]; cbn [mbind option_bind] in E.
    + rewrite (size_line_cr_ext _ more _ _ Ecr) by done. cbn [mbind option_bind]. destruct (Nat.leb_spec (length buf) (e + 1)); [congruence|].
      rewrite (proj2 (Nat.leb_gt _ _)) by (rewrite length_app; lia). destruct (buf !! (e + 1)%nat) as [d|] eqn:Ed; [|done]. rewrite (lookup_ext _ more _ _ Ed). done.
    + rewrite (size_line_cr_ext _ more _ _ Ecr) by congruence. done.
Qed.

(** ** Trailer lines *)

Lemma trailer_line_blank buf pos rest : text buf pos (length buf) (CRLF ++ rest) -> trailer_line buf pos = Some (inl ((pos + 2)%nat, true)).
Proof. intros Ht. unfold trailer_line. rewrite (text_end _ _ _ _ Ht), bool_decide_eq_false_2 by done. by run (blank_line_blank _ _ _ Ht). Qed.

Lemma trailer_line_line buf pos l rest :
  text buf pos (length buf) (l ++ CRLF ++ rest) -> l <> [] -> LF ∉ l ->
  exists ok : bool, (ok = true <-> trailer_field l) /\ trailer_line buf pos = Some (if ok then inl ((pos + length l + 2)%nat, false) else inr err_malformed).
Proof.
  intros Ht Hn Hl. destruct (lf_line _ _ _ _ Ht Hl) as (E2 & E3 & Hline & _). destruct (blank_line_line _ _ _ _ Ht Hn Hl) as (E1 & _).
  destruct (trailer_line_ok_spec _ _ _ _ Hline) as (ok & E4 & Hok). exists ok. split; [done|]. unfold trailer_line.
  rewrite (text_end _ _ _ _ Ht), bool_decide_eq_false_2 by (by destruct l). run E1. rewrite E2. rewrite (proj2 (Nat.eqb_neq _ _)) by lia.
  replace (S (pos + length l) - 1)%nat with (pos + length l)%nat by lia. run E3. rewrite (proj2 (beq_true CR CR)) by done. cbn [negb]. unfold trailer_line_ok. run E4.
  destruct ok; [|done]. do 3 f_equal. lia.
Qed.

Lemma trailer_line_bare buf pos a rest :
  text buf pos (length buf) (a ++ LF :: rest) -> LF ∉ a -> last a <> Some CR -> trailer_line buf pos = Some (inr err_malformed).
Proof.
  intros Ht Ha Hl. unfold trailer_line. rewrite (text_end _ _ _ _ Ht), bool_decide_eq_false_2 by (by destruct a). destruct (bare_line _ _ _ _ Ht Ha Hl) as (E1 & _). run E1.
  destruct (lf_bare _ _ _ _ Ht Ha Hl) as (E2 & Hb). rewrite E2. destruct Hb as [->|(c & k & -> & Ec & Hc)]; [by rewrite (proj2 (Nat.eqb_eq _ _)) by (cbn; lia)|].
  rewrite (proj2 (Nat.eqb_neq _ _)) by lia. replace (pos + S k - 1)%nat with (pos + k)%nat by lia. run Ec. by rewrite Hc.
Qed.

Lemma trailer_line_part buf pos s : text buf pos (length buf) s -> LF ∉ s -> trailer_line buf pos = Some (inr incomplete).
Proof.
  intros Ht Hs. unfold trailer_line. rewrite (text_end _ _ _ _ Ht). destruct (bool_decide_reflect (s = [])) as [|Hn]; [done|].
  destruct (part_line _ _ _ Ht Hn Hs) as [E|[E _]]; run E; [done|]. by rewrite (lf_part _ _ _ Ht Hs).
Qed.

Lemma trailer_line_ext buf more pos r :
  (pos <= length buf)%nat -> trailer_line buf pos = Some r -> r <> inr incomplete -> trailer_line (buf ++ more) pos = Some r.
Proof.
  intros Hp E Hr. pose proof (text_suffix buf pos _ eq_refl Hp) as Ht. pose proof (text_more _ more _ _ Ht) as Ht'.
  destruct (line_shape_total (drop pos buf)) as [rest|l rest Hn Hl|a rest Ha Hla|s Hs].
  - rewrite (trailer_line_blank _ _ _ Ht) in E. rewrite <- app_assoc in Ht'. by rewrite (trailer_line_blank _ _ _ Ht').
  - destruct (trailer_line_line _ _ _ _ Ht Hn Hl) as (ok & Hok & E1). rewrite <- !app_assoc in Ht'. destruct (trailer_line_line _ _ _ _ Ht' Hn Hl) as (ok' & Hok' & ->).
    rewrite <- E, E1. assert (ok' = ok) as -> by (apply eq_true_iff_eq; by rewrite Hok, Hok'). done.
  - rewrite (trailer_line_bare _ _ _ _ Ht Ha Hla) in E. rewrite <- app_assoc in Ht'. by rewrite (trailer_line_bare _ _ _ _ Ht' Ha Hla).
  - rewrite (trailer_line_part _ _ _ Ht Hs) in E. congruence.
Qed.
