(* ===== verification/ClientFramer.v ===== *)
(** The resumable response framer of http1_1/client/framer.v: a response that arrives
    over several reads is framed from where the last call stopped. *)
From S2P Require Import Prelude WireBytes HttpScan HttpField HttpChunk HttpFrame ClientCodec.
Local Open Scope Z_scope.

(** ** The code *)

Inductive frame_stage := fr_head | fr_body_len | fr_chunk_size | fr_chunk_data | fr_trailers | fr_until_close | fr_done | fr_failed.

#[export] Instance frame_stage_eq_dec : EqDecision frame_stage.
Proof. solve_decision. Defined.

Record Framer := mkFramer {
  f_stage : frame_stage; f_head_request : bool; f_pos : nat; f_scan : nat; f_need : Z; f_end : Z; f_dechunked : bool; f_body_len : nat;
  f_content_length : Z; f_te : bool; f_conn_close : bool; f_conn_ka : bool; f_http10 : bool; f_bodyless : bool;
  f_start : nat; f_head_len : nat; f_status : Z; f_keep_alive : bool
}.

#[export] Instance framer_eta : Eta Framer :=
  mkEta _ (fun f => mkFramer (f_stage f) (f_head_request f) (f_pos f) (f_scan f) (f_need f) (f_end f) (f_dechunked f) (f_body_len f)
    (f_content_length f) (f_te f) (f_conn_close f) (f_conn_ka f) (f_http10 f) (f_bodyless f) (f_start f) (f_head_len f) (f_status f) (f_keep_alive f)).

Definition err_truncated : Z := -5.

Definition reset (head_request : bool) : Framer :=
  mkFramer fr_head head_request 0 0 0 0 false 0 (-1) false false false false false 0 0 0 false.

Definition fail (f : Framer) (code : Z) : Framer * Z := (f <| f_stage := fr_failed |> <| f_end := code |> <| f_keep_alive := false |>, code).

Definition short (f : Framer) (eof : bool) : Framer * Z := if eof then fail f err_truncated else (f, incomplete).

Definition status_line (f : Framer) (buf : list byte) : option Framer :=
  st ← status_at buf (f_start f);
  let f := f <| f_status := st |> in
  if st <? 0 then Some f
  else
    c ← buf !! (f_start f + 7)%nat;
    Some (f <| f_http10 := beq c (byte_of_Z 48) |> <| f_bodyless := f_head_request f || (st <? 200) || (st =? 204) || (st =? 304) |>).

(** Whether the bytes from [s] to [e] are [word], in any case. *)
Definition ascii_ci_is (buf : list byte) (s e : nat) (word : list byte) : option bool :=
  if negb (e - s =? length word)%nat then Some false else word_at buf s word.

Definition option_sep (c : byte) : bool := beq c COMMA || beq c SP || beq c HTAB.

Definition close_option : list byte := bytes_of "close".
Definition keep_alive_option : list byte := bytes_of "keep-alive".

(** [for i < end]; each round takes a byte. *)
Fixpoint options_loop (fuel : nat) (f : Framer) (buf : list byte) (i e : nat) : option Framer :=
  if (i <? e)%nat then
    match fuel with
    | O => None
    | S fuel' =>
        s ← scan_while option_sep (e - i) buf i;
        i ← scan_while (fun c => negb (option_sep c)) (e - s) buf s;
        close ← ascii_ci_is buf s i close_option;
        if (close : bool) then options_loop fuel' (f <| f_conn_close := true |>) buf i e
        else
          ka ← ascii_ci_is buf s i keep_alive_option;
          options_loop fuel' (if (ka : bool) then f <| f_conn_ka := true |> else f) buf i e
    end
  else Some f.

Definition connection_options (f : Framer) (buf : list byte) (v e : nat) : option Framer := options_loop (e - v) f buf v e.

Definition connection_lower : list byte := bytes_of "connection".

(** The [Connection] field, behind the two that decide the framing. *)
Definition connection_line (f : Framer) (buf : list byte) (line_end : nat) : option (Framer * bool) :=
  c ← field_value buf (f_pos f) line_end connection_lower;
  match c with
  | Some (c, c_len) => f ← connection_options f buf c (c + c_len); Some (f, true)
  | None => Some (f, true)
  end.

Definition field_line (f : Framer) (buf : list byte) (line_end : nat) : option (Framer * bool) :=
  if f_bodyless f then connection_line f buf line_end
  else
    v ← field_value buf (f_pos f) line_end content_length_lower;
    match v with
    | Some (v, vlen) =>
        n ← parse_content_length buf v vlen;
        Some (match n with
              | None => (f, false)
              | Some n => if (0 <=? f_content_length f) && negb (f_content_length f =? n) then (f, false) else (f <| f_content_length := n |>, true)
              end)
    | None =>
        te ← field_value buf (f_pos f) line_end transfer_encoding_lower;
        match te with
        | Some (te, te_len) =>
            ok ← value_has_chunked buf te (te + te_len);
            Some (if (ok : bool) then (f <| f_te := true |>, true) else (f, false))
        | None => connection_line f buf line_end
        end
    end.

(** An interim response: the final one follows. *)
Definition skip_interim (f : Framer) (body : nat) : Framer :=
  f <| f_start := body |> <| f_pos := body |> <| f_scan := body |> <| f_status := 0 |> <| f_content_length := -1 |> <| f_te := false |>
    <| f_conn_close := false |> <| f_conn_ka := false |> <| f_http10 := false |> <| f_bodyless := false |>.

Definition reusable (f : Framer) : bool :=
  if (f_status f =? 101) || (f_te f && ((0 <=? f_content_length f) || f_http10 f)) then false
  else if f_http10 f then f_conn_ka f && negb (f_conn_close f) else negb (f_conn_close f).

Definition head_done (f : Framer) (body : nat) : Framer :=
  if (f_status f <? 200) && negb (f_status f =? 101) then skip_interim f body
  else
    let f := f <| f_head_len := (body - f_start f)%nat |> <| f_pos := body |> <| f_keep_alive := reusable f |> in
    if f_bodyless f then f <| f_end := Z.of_nat body |> <| f_stage := fr_done |>
    else if f_te f then f <| f_stage := fr_chunk_size |>
    else if 0 <=? f_content_length f then f <| f_need := Z.of_nat body + f_content_length f |> <| f_stage := fr_body_len |>
    else f <| f_keep_alive := false |> <| f_stage := fr_until_close |>.

(** A round of [feed]: the framer, and the answer if it returns. *)
Definition returns (r : Framer * Z) : option (Framer * option Z) := Some (r.1, Some r.2).

Definition goes_on (f : Framer) : option (Framer * option Z) := Some (f, None).

(** A line of the head whose LF is at [lf]. *)
Definition head_line (f : Framer) (buf : list byte) (lf : nat) : option (Framer * option Z) :=
  bare ← (if (lf =? f_pos f)%nat then Some true else (fun c => negb (beq c CR)) <$> buf !! (lf - 1)%nat);
  if (bare : bool) then returns (fail f err_malformed)
  else
    let line_end := (lf - 1)%nat in
    if (f_pos f =? f_start f)%nat then
      f ← status_line f buf;
      if f_status f <? 100 then returns (fail f err_malformed) else goes_on (f <| f_pos := (lf + 1)%nat |> <| f_scan := (lf + 1)%nat |>)
    else if (line_end =? f_pos f)%nat then goes_on (head_done f (lf + 1))
    else
      '(f, ok) ← field_line f buf line_end;
      if (ok : bool) then goes_on (f <| f_pos := (lf + 1)%nat |> <| f_scan := (lf + 1)%nat |>) else returns (fail f err_malformed).

Definition feed_step (f : Framer) (buf : list byte) (eof : bool) : option (Framer * option Z) :=
  match f_stage f with
  | fr_head =>
      match lf_idx buf (f_scan f) with
      | None => returns (short (f <| f_scan := length buf |>) eof)
      | Some lf => head_line f buf lf
      end
  | fr_body_len =>
      if Z.of_nat (length buf) <? f_need f then returns (short f eof)
      else goes_on (f <| f_end := i32 (f_need f) |> <| f_stage := fr_done |>)
  | fr_chunk_size =>
      r ← chunk_size_line buf (f_pos f);
      match r with
      | inr code => if code =? incomplete then returns (short f eof) else returns (fail f code)
      | inl (data, size) =>
          let f := f <| f_pos := data |> in
          if size =? 0 then goes_on (f <| f_stage := fr_trailers |>)
          else goes_on (f <| f_need := Z.of_nat data + size |> <| f_stage := fr_chunk_data |>)
      end
  | fr_chunk_data =>
      if Z.of_nat (length buf) <=? f_need f + 1 then returns (short f eof)
      else
        let crlf := i32 (f_need f) in
        c ← at_int buf crlf;
        d ← at_int buf (i32 (crlf + 1));
        if negb (beq c CR) || negb (beq d LF) then returns (fail f err_malformed)
        else goes_on (f <| f_pos := Z.to_nat (i32 (crlf + 2)) |> <| f_stage := fr_chunk_size |>)
  | fr_trailers =>
      r ← trailer_line buf (f_pos f);
      match r with
      | inr code => if code =? incomplete then returns (short f eof) else returns (fail f code)
      | inl (next, last) =>
          let f := f <| f_pos := next |> in
          goes_on (if (last : bool) then f <| f_end := Z.of_nat next |> <| f_stage := fr_done |> else f)
      end
  | fr_until_close => if eof then goes_on (f <| f_end := Z.of_nat (length buf) |> <| f_stage := fr_done |>) else returns (f, incomplete)
  | fr_done | fr_failed => returns (f, f_end f)
  end.

Fixpoint feed_loop (fuel : nat) (f : Framer) (buf : list byte) (eof : bool) : option (Framer * Z) :=
  match fuel with
  | O => None
  | S fuel' =>
      '(f, r) ← feed_step f buf eof;
      match r with Some r => Some (f, r) | None => feed_loop fuel' f buf eof end
  end.

(** Every round but the last two moves [pos] forward. *)
Definition feed (f : Framer) (buf : list byte) (eof : bool) : option (Framer * Z) := feed_loop (length buf + 3) f buf eof.

(** [Framer.is_chunked] and [Framer.header_value]. *)
Definition framer_is_chunked (f : Framer) : bool := f_te f && negb (f_bodyless f).

Definition framer_header_value (f : Framer) (buf name : list byte) : option (option (nat * nat)) :=
  if (f_head_len f =? 0)%nat then Some None else header_value_in buf (f_start f) (Z.of_nat (f_start f + f_head_len f)) name.

(** [vmemmove] inside of the buffer. *)
Definition memmove (buf : list byte) (dst src n : nat) : option (list byte) :=
  chunk ← view buf src n;
  if decide (dst + n <= length buf)%nat then Some (take dst buf ++ chunk ++ drop (dst + n) buf) else None.

(** [for { ... }] of [body_in_place]: the buffer and where its data ends. *)
Fixpoint dechunk_loop (fuel : nat) (buf : list byte) (w pos : nat) : option (list byte * nat) :=
  match fuel with
  | O => None
  | S fuel' =>
      r ← chunk_size_line buf pos;
      match r with
      | inr _ => Some (buf, w)
      | inl (data, size) =>
          if size =? 0 then Some (buf, w)
          else
            let n := Z.to_nat (i32 size) in
            buf ← (if (w =? data)%nat then Some buf else memmove buf w data n);
            dechunk_loop fuel' buf (w + n) (data + n + 2)
      end
  end.

(** The framer, the buffer, and the start and the length of the view (no view: [no_body]). *)
Definition body_in_place (f : Framer) (buf : list byte) : option (Framer * list byte * option (nat * nat)) :=
  if negb (bool_decide (f_stage f = fr_done)) then Some (f, buf, None)
  else
    let body := (f_start f + f_head_len f)%nat in
    '(f, buf) ← (if framer_is_chunked f && negb (f_dechunked f) then
                   '(buf, w) ← dechunk_loop (S (length buf)) buf body body;
                   Some (f <| f_body_len := (w - body)%nat |> <| f_dechunked := true |>, buf)
                 else if negb (framer_is_chunked f) then Some (f <| f_body_len := (Z.to_nat (f_end f) - body)%nat |>, buf)
                 else Some (f, buf));
    Some (f, buf, if (f_body_len f =? 0)%nat then None else Some (body, f_body_len f)).

Definition valid_token (s : list byte) : bool := negb (length s =? 0)%nat && forallb chunk_tchar s.

Definition valid_target (s : list byte) : bool :=
  negb (length s =? 0)%nat && forallb (fun c => negb ((byte_val c <=? 0x20) || (0x7f <=? byte_val c))) s.

Definition valid_field_value (v : list byte) : bool :=
  forallb (fun c => negb (((byte_val c <? 0x20) && negb (beq c HTAB)) || (byte_val c =? 0x7f))) v.

(** ** More bytes behind the buffer *)

Section More.
Context (buf more : list byte).

Lemma scan_while_ext p n i r : scan_while p n buf i = Some r -> scan_while p n (buf ++ more) i = Some r.
Proof.
  revert i. induction n as [|n IH]; intros i; cbn [scan_while]; [done|]. destruct (buf !! i) as [b|] eqn:E; [|done]. rewrite (lookup_ext _ more _ _ E). cbn [mbind option_bind].
  destruct (p b); [apply IH | done].
Qed.

Lemma scan_back_ext p n e r : scan_back p n buf e = Some r -> scan_back p n (buf ++ more) e = Some r.
Proof.
  revert e. induction n as [|n IH]; intros e; cbn [scan_back]; [done|]. destruct (buf !! pred e) as [b|] eqn:E; [|done]. rewrite (lookup_ext _ more _ _ E). cbn [mbind option_bind].
  destruct (p b); [apply IH | done].
Qed.

Lemma word_at_ext i word r : word_at buf i word = Some r -> word_at (buf ++ more) i word = Some r.
Proof.
  revert i. induction word as [|w word IH]; intros i; cbn [word_at]; [done|]. destruct (buf !! i) as [b|] eqn:E; [|done]. rewrite (lookup_ext _ more _ _ E). cbn [mbind option_bind].
  destruct (beq _ w); [apply IH | done].
Qed.

Lemma length_loop_ext n d acc r : length_loop n buf d acc = Some r -> length_loop n (buf ++ more) d acc = Some r.
Proof.
  revert d acc. induction n as [|n IH]; intros d acc; cbn [length_loop]; [done|]. destruct (buf !! d) as [b|] eqn:E; [|done]. rewrite (lookup_ext _ more _ _ E). cbn [mbind option_bind].
  destruct (_ || _); [done|]. destruct (_ <? _); [done | apply IH].
Qed.

(** Follow a computation that reads [buf] into the longer buffer. *)
Ltac longer :=
  repeat match goal with
    | |- context [mbind _ ?x] =>
        let E := fresh in
        destruct x eqn:E; [|done]; cbn [mbind option_bind] in *;
        first [ rewrite (lookup_ext _ more _ _ E) | rewrite (scan_while_ext _ _ _ _ E) | rewrite (scan_back_ext _ _ _ _ E)
              | rewrite (word_at_ext _ _ _ E) | rewrite (length_loop_ext _ _ _ _ E) ]; cbn [mbind option_bind]
    | |- context [if ?c then _ else _] => destruct c; try done
    end.

Lemma field_value_ext ls le name r : field_value buf ls le name = Some r -> field_value (buf ++ more) ls le name = Some r.
Proof. unfold field_value. by longer. Qed.

Lemma parse_content_length_ext v n r : parse_content_length buf v n = Some r -> parse_content_length (buf ++ more) v n = Some r.
Proof. unfold parse_content_length. destruct (_ =? _)%nat; [done | apply length_loop_ext]. Qed.

Lemma value_has_chunked_ext v e r : value_has_chunked buf v e = Some r -> value_has_chunked (buf ++ more) v e = Some r.
Proof.
  unfold value_has_chunked. longer. destruct (buf !! _) as [c|] eqn:E; [|done]. by rewrite (lookup_ext _ more _ _ E).
Qed.

Lemma ascii_ci_is_ext s e word r : ascii_ci_is buf s e word = Some r -> ascii_ci_is (buf ++ more) s e word = Some r.
Proof. unfold ascii_ci_is. destruct (negb _); [done | apply word_at_ext]. Qed.

Lemma options_loop_ext n f i e r : options_loop n f buf i e = Some r -> options_loop n f (buf ++ more) i e = Some r.
Proof.
  revert f i. induction n as [|n IH]; intros f i; cbn [options_loop]; destruct (i <? e)%nat; try done.
  destruct (scan_while option_sep _ buf i) as [s|] eqn:E1; [|done]. rewrite (scan_while_ext _ _ _ _ E1). cbn [mbind option_bind].
  destruct (scan_while _ _ buf s) as [j|] eqn:E2; [|done]. rewrite (scan_while_ext _ _ _ _ E2). cbn [mbind option_bind].
  destruct (ascii_ci_is buf s j close_option) as [b|] eqn:E3; [|done]. rewrite (ascii_ci_is_ext _ _ _ _ E3). cbn [mbind option_bind]. destruct b; [apply IH|].
  destruct (ascii_ci_is buf s j keep_alive_option) as [b|] eqn:E4; [|done]. rewrite (ascii_ci_is_ext _ _ _ _ E4). cbn [mbind option_bind]. apply IH.
Qed.

Lemma connection_line_ext f e r : connection_line f buf e = Some r -> connection_line f (buf ++ more) e = Some r.
Proof.
  unfold connection_line. destruct (field_value buf _ _ _) as [c|] eqn:E; [|done]. rewrite (field_value_ext _ _ _ _ E). cbn [mbind option_bind]. destruct c as [[c n]|]; [|done].
  unfold connection_options. destruct (options_loop _ f buf c _) as [g|] eqn:E2; [|done]. by rewrite (options_loop_ext _ _ _ _ _ E2).
Qed.

Lemma field_line_ext f e r : field_line f buf e = Some r -> field_line f (buf ++ more) e = Some r.
Proof.
  unfold field_line. destruct (f_bodyless f); [apply connection_line_ext|]. destruct (field_value buf _ _ content_length_lower) as [v|] eqn:E; [|done].
  rewrite (field_value_ext _ _ _ _ E). cbn [mbind option_bind]. destruct v as [[v n]|].
  - destruct (parse_content_length buf v n) as [k|] eqn:E2; [|done]. by rewrite (parse_content_length_ext _ _ _ E2).
  - destruct (field_value buf _ _ transfer_encoding_lower) as [v|] eqn:E2; [|done]. rewrite (field_value_ext _ _ _ _ E2). cbn [mbind option_bind].
    destruct v as [[v n]|]; [|apply connection_line_ext]. destruct (value_has_chunked buf v (v + n)) as [b|] eqn:E3; [|done]. by rewrite (value_has_chunked_ext _ _ _ E3).
Qed.

Lemma at_int_ext i c : at_int buf i = Some c -> at_int (buf ++ more) i = Some c.
Proof. unfold at_int. destruct (i <? 0); [done | apply lookup_ext]. Qed.
End More.

(** ** What a field line does *)

(** The options of a Connection value, between commas, spaces and tabs. *)
Definition word_sep (b : byte) : bool := (byte_val b =? 44)%Z || (byte_val b =? 32)%Z || (byte_val b =? 9)%Z.

Definition words (v : list byte) : list (list byte) :=
  filter (fun t => t <> []) (split_on COMMA ((fun b => if word_sep b then COMMA else b) <$> v)).

Definition has_word (word : list byte) (v : list byte) : bool := existsb (fun t => bool_decide (lower <$> t = word)) (words v).

Definition conn_opts (f : Framer) (v : list byte) : Framer :=
  f <| f_conn_close := f_conn_close f || has_word close_option v |> <| f_conn_ka := f_conn_ka f || has_word keep_alive_option v |>.

Definition conn_effect (f : Framer) (l : list byte) : Framer := match fvalue connection_lower l with Some v => conn_opts f v | None => f end.

(** [None]: the line is refused. *)
Definition line_effect (f : Framer) (l : list byte) : option Framer :=
  if f_bodyless f then Some (conn_effect f l)
  else
    match fvalue content_length_lower l with
    | Some v => n ← resp_length v; if (0 <=? f_content_length f) && negb (f_content_length f =? n) then None else Some (f <| f_content_length := n |>)
    | None =>
        match fvalue transfer_encoding_lower l with
        | Some v => if final_chunked v then Some (f <| f_te := true |>) else None
        | None => Some (conn_effect f l)
        end
    end.

Lemma option_sep_word b : option_sep b = word_sep b.
Proof. by destruct b. Qed.

Lemma words_seps a s : Forall (fun b => option_sep b = true) a -> words (a ++ s) = words s.
Proof.
  setoid_rewrite option_sep_word. intros Ha. induction Ha as [|b a Hb _ IH]; [done|]. rewrite <- IH. cbn [app]. unfold words. cbn [fmap list_fmap split_on]. rewrite Hb, (proj2 (beq_true COMMA COMMA)) by done.
  by rewrite filter_cons_False by auto.
Qed.

Lemma words_token t rest :
  Forall (fun b => negb (option_sep b) = true) t -> stops (fun b => negb (option_sep b)) rest -> words (t ++ rest) = (if bool_decide (t = []) then [] else [t]) ++ words rest.
Proof.
  intros Ht Hr. assert (Em : (fun b => if word_sep b then COMMA else b) <$> t = t).
  { induction Ht as [|b t Hb _ IH]; [done|]. cbn [fmap list_fmap]. apply negb_true_iff in Hb. rewrite option_sep_word in Hb. by rewrite Hb, IH. }
  assert (Hc : COMMA ∉ t) by (intros Hin; rewrite Forall_forall in Ht; by apply Ht in Hin). unfold words. rewrite fmap_app, Em. destruct rest as [|c rest].
  - cbn [fmap list_fmap]. rewrite app_nil_r, split_on_none by done. destruct (bool_decide_reflect (t = [])) as [->|]; [done|]. by rewrite filter_cons_True.
  - cbn in Hr. apply negb_false_iff in Hr. rewrite option_sep_word in Hr. cbn [fmap list_fmap]. rewrite Hr, split_on_app by done. cbn [split_on]. rewrite (proj2 (beq_true COMMA COMMA)) by done.
    rewrite (filter_cons_False _ []) by auto. destruct (bool_decide_reflect (t = [])) as [->|]; [by rewrite filter_cons_False by auto | by rewrite filter_cons_True].
Qed.

Lemma ascii_ci_is_spec buf s e t word : text buf s e t -> ascii_ci_is buf s e word = Some (bool_decide (lower <$> t = word)).
Proof.
  intros Ht. pose proof (text_length _ _ _ _ Ht) as Hl. unfold ascii_ci_is. replace (e - s)%nat with (length t) by lia. destruct (Nat.eqb_spec (length t) (length word)) as [E|E]; cbn [negb].
  - rewrite (word_at_spec _ _ _ _ _ Ht) by lia. by rewrite take_ge by lia.
  - rewrite bool_decide_eq_false_2; [done|]. intros <-. by rewrite length_fmap in E.
Qed.

Lemma options_loop_spec n f buf i e s : text buf i e s -> (length s <= n)%nat -> options_loop n f buf i e = Some (conn_opts f s).
Proof.
  revert f i s. induction n as [|n IH]; intros f i s Ht Hn; pose proof (text_length _ _ _ _ Ht) as Hl; cbn [options_loop].
  { destruct s; [|cbn in Hn; lia]. rewrite (proj2 (Nat.ltb_ge _ _)) by (cbn in Hl; lia). unfold conn_opts, has_word. cbn. rewrite !orb_false_r. by destruct f. }
  destruct (Nat.ltb_spec i e) as [Hi|Hi].
  2: { destruct s; [|cbn in Hl; lia]. unfold conn_opts, has_word. cbn. rewrite !orb_false_r. by destruct f. }
  pose proof (take_drop_while option_sep s) as Es. pose proof (take_while_all option_sep s) as Hsep. pose proof (drop_while_stops option_sep s) as Hst1.
  destruct (text_scan option_sep _ _ _ _ Ht) as [E1 Ht1]. run E1. set (s1 := drop_while option_sep s) in *. set (p := fun c => negb (option_sep c)).
  pose proof (take_drop_while p s1) as Es1. pose proof (take_while_all p s1) as Htok. pose proof (drop_while_stops p s1) as Hst2.
  destruct (text_scan p _ _ _ _ Ht1) as [E2 Ht2]. run E2. set (t := take_while p s1) in *. set (rest := drop_while p s1) in *. rewrite <- Es1 in Ht1. apply text_prefix in Ht1.
  rewrite (ascii_ci_is_spec _ _ _ _ close_option Ht1), (ascii_ci_is_spec _ _ _ _ keep_alive_option Ht1). cbn [mbind option_bind].
  assert (Hr : (length rest <= n)%nat).
  { assert (0 < length (take_while option_sep s) + length t)%nat; [|rewrite <- Es, <- Es1, !length_app in Hn; lia].
    destruct s as [|c s']; [cbn in Hl; lia|]. subst t s1. cbn [take_while drop_while]. destruct (option_sep c) eqn:Ec; [cbn; lia|].
    cbn [take_while]. unfold p. rewrite Ec. cbn. lia. }
  assert (Ew : forall word, word <> [] -> has_word word s = bool_decide (lower <$> t = word) || has_word word rest).
  { intros word Hw. unfold has_word. rewrite <- Es, words_seps, <- Es1, words_token by done. destruct (bool_decide_reflect (t = [])) as [->|]; [|done].
    cbn [app fmap list_fmap]. by rewrite bool_decide_eq_false_2 by congruence. }
  unfold conn_opts. rewrite !Ew by done. destruct (bool_decide_reflect (lower <$> t = close_option)) as [Ec|_].
  - rewrite (IH _ _ rest Ht2 Hr), (bool_decide_eq_false_2 (lower <$> t = keep_alive_option)) by (rewrite Ec; by vm_compute). unfold conn_opts. cbn. by rewrite orb_true_r.
  - rewrite (IH _ _ rest Ht2 Hr). unfold conn_opts. destruct (bool_decide _); cbn; [by rewrite orb_true_r | done].
Qed.

Lemma conn_line_spec f buf e l : text buf (f_pos f) e l -> connection_line f buf e = Some (conn_effect f l, true).
Proof.
  intros Ht. unfold connection_line, conn_effect. pose proof (field_value_spec _ _ _ connection_lower _ Ht ltac:(by vm_compute)) as Hf. destruct (fvalue connection_lower l) as [v|]; [|by run Hf].
  destruct Hf as (s & E & Hv). run E. unfold connection_options. rewrite (options_loop_spec _ _ _ _ _ _ Hv) by lia. done.
Qed.

Lemma field_line_spec f buf e l :
  text buf (f_pos f) e l -> field_line f buf e = Some (match line_effect f l with Some g => (g, true) | None => (f, false) end).
Proof.
  intros Ht. unfold field_line, line_effect. destruct (f_bodyless f); [by apply conn_line_spec|].
  pose proof (field_value_spec _ _ _ content_length_lower _ Ht ltac:(by vm_compute)) as Hf. destruct (fvalue content_length_lower l) as [v|].
  { destruct Hf as (s & E & Hv). run E. run (resp_length_spec _ _ _ Hv). destruct (resp_length v) as [n|]; cbn [mbind option_bind]; [|done]. by destruct (_ && _). }
  run Hf. pose proof (field_value_spec _ _ _ transfer_encoding_lower _ Ht ltac:(by vm_compute)) as Hg. destruct (fvalue transfer_encoding_lower l) as [v|] eqn:Ev.
  - destruct Hg as (s & E & Hv). run E. rewrite (value_has_chunked_spec _ _ _ Hv); [by cbn; destruct (final_chunked v)|]. intros c. unfold fvalue, field in Ev.
    destruct (ci_eq _ _); [|done]. destruct (drop _ l) as [|c' w]; [done|]. destruct (beq c' COLON); [|by destruct (ows c')]. injection Ev as <-. apply trim_last.
  - run Hg. by apply conn_line_spec.
Qed.

(** ** Rounds in the head *)

(** The bytes between [pos] and [scan] hold no LF. *)
Definition scanned (f : Framer) (buf : list byte) : Prop :=
  f_stage f = fr_head -> (f_pos f <= f_scan f <= length buf)%nat /\ LF ∉ take (f_scan f - f_pos f) (drop (f_pos f) buf).

Lemma scanned_ext f buf more : scanned f buf -> scanned f (buf ++ more).
Proof.
  intros H Hs. destruct (H Hs) as [Hb Hn]. split; [rewrite length_app; lia|]. rewrite drop_app_le, take_app_le by (rewrite ?length_drop; lia). done.
Qed.

Lemma lf_idx_scanned f buf : scanned f buf -> f_stage f = fr_head -> lf_idx buf (f_scan f) = lf_idx buf (f_pos f).
Proof.
  intros H Hs. destruct (H Hs) as [Hb Hn]. pose proof (text_suffix buf (f_pos f) _ eq_refl ltac:(lia)) as Ht.
  assert (E : drop (f_pos f) buf = take (f_scan f - f_pos f) (drop (f_pos f) buf) ++ drop (f_scan f) buf).
  { rewrite <- (take_drop (f_scan f - f_pos f) (drop (f_pos f) buf)) at 1. rewrite drop_drop. do 2 f_equal. lia. }
  rewrite (lf_idx_text _ _ _ Ht), (lf_idx_text buf (f_scan f) _ (text_suffix buf (f_scan f) _ eq_refl ltac:(lia))). rewrite E.
  set (a := take _ _) in *. assert (Hl : length a = (f_scan f - f_pos f)%nat) by (unfold a; rewrite length_take, length_drop; lia).
  destruct (find_byte LF (drop (f_scan f) buf)) as [k|] eqn:Ek.
  - apply find_byte_Some in Ek as (b & c & -> & Hb' & <-). rewrite app_assoc, find_byte_app by (by apply not_elem_of_app). cbn. rewrite length_app. f_equal. lia.
  - apply find_byte_None in Ek. by rewrite (proj2 (find_byte_None LF (a ++ _))) by (by apply not_elem_of_app).
Qed.

(** What a status line does. *)
Definition status_effect (f : Framer) (l : list byte) (st : Z) : Framer :=
  f <| f_status := st |> <| f_http10 := match l !! 7%nat with Some c => beq c (byte_of_Z 48) | None => false end |>
    <| f_bodyless := f_head_request f || bodyless_status st |>.

Lemma status_line_spec f buf l rest :
  text buf (f_start f) (length buf) (l ++ CRLF ++ rest) -> LF ∉ l ->
  status_line f buf = Some (match status_of l with Some st => status_effect f l st | None => f <| f_status := -1 |> end).
Proof.
  intros Ht Hl. unfold status_line. rewrite (status_at_text _ _ _ Ht), status_of_line. destruct (status_of l) as [st|] eqn:Es; [|done]. change (default (-1) (Some st)) with st. cbn [mbind option_bind].
  pose proof (status_of_range l st Es) as Hst. rewrite (proj2 (Z.ltb_ge st 0)) by lia. assert (H7 : exists c, l !! 7%nat = Some c).
  { unfold status_of in Es. do 8 (destruct l as [|? l]; [done|]). by eexists. }
  destruct H7 as [c H7]. assert (Ec : buf !! (f_start f + 7)%nat = Some c).
  { pose proof (lookup_lt_Some _ _ _ H7) as Hlt. pose proof (text_length _ _ _ _ Ht) as Hlen. rewrite length_app in Hlen. destruct Ht as [Ht Hb].
    rewrite <- lookup_drop, <- (lookup_take_lt _ (length buf - f_start f)), Ht by lia. by rewrite lookup_app_l. }
  change (f_start (f <| f_status := st |>)) with (f_start f). run Ec. unfold status_effect, bodyless_status. rewrite H7. by rewrite !orb_assoc.
Qed.

(** [f] behind the line that ends at [next]. *)
Definition at_line (f : Framer) (next : nat) : Framer := f <| f_pos := next |> <| f_scan := next |>.

Section HeadRounds.
Context (g : Framer) (buf : list byte) (eof : bool) (Hs : f_stage g = fr_head) (Hsc : scanned g buf).

Lemma head_line_at l rest :
  text buf (f_pos g) (length buf) (l ++ CRLF ++ rest) -> LF ∉ l ->
  feed_step g buf eof =
    (if (f_pos g =? f_start g)%nat then
       match status_of l with
       | Some st => goes_on (at_line (status_effect g l st) (f_pos g + length l + 2))
       | None => returns (fail (g <| f_status := -1 |>) err_malformed)
       end
     else if bool_decide (l = []) then goes_on (head_done g (f_pos g + 2))
     else match line_effect g l with
          | Some h => goes_on (at_line h (f_pos g + length l + 2))
          | None => returns (fail g err_malformed)
          end).
Proof.
  intros Ht Hl. unfold feed_step. rewrite Hs, (lf_idx_scanned _ _ Hsc Hs). destruct (lf_line _ _ _ _ Ht Hl) as (E1 & E2 & Hline & _). rewrite E1. unfold head_line.
  rewrite (proj2 (Nat.eqb_neq (S (f_pos g + length l)) (f_pos g))) by lia. replace (S (f_pos g + length l) - 1)%nat with (f_pos g + length l)%nat by lia.
  rewrite E2. cbn [fmap option_fmap option_map mbind option_bind]. rewrite (proj2 (beq_true CR CR)) by done. cbn [negb].
  replace (S (f_pos g + length l) + 1)%nat with (f_pos g + length l + 2)%nat by lia. destruct (Nat.eqb_spec (f_pos g) (f_start g)) as [Ep|_].
  - rewrite Ep in Ht |- *. rewrite (status_line_spec g buf l rest Ht Hl). cbn [mbind option_bind]. destruct (status_of l) as [st|] eqn:Es; [|done].
    pose proof (status_of_range _ _ Es). change (f_status (status_effect g l st)) with st. by rewrite (proj2 (Z.ltb_ge _ _)) by lia.
  - destruct (bool_decide_reflect (l = [])) as [->|Hn].
    + cbn [length]. rewrite (proj2 (Nat.eqb_eq _ _)) by lia. by rewrite Nat.add_0_r.
    + rewrite (proj2 (Nat.eqb_neq _ _)) by (destruct l; [done | cbn; lia]). rewrite (field_line_spec _ _ _ _ Hline). cbn [mbind option_bind]. by destruct (line_effect g l).
Qed.

Lemma head_bare_at a rest :
  text buf (f_pos g) (length buf) (a ++ LF :: rest) -> LF ∉ a -> last a <> Some CR -> feed_step g buf eof = returns (fail g err_malformed).
Proof.
  intros Ht Ha Hl. unfold feed_step. rewrite Hs, (lf_idx_scanned _ _ Hsc Hs). destruct (lf_bare _ _ _ _ Ht Ha Hl) as (E & Hb). rewrite E. unfold head_line.
  destruct Hb as [->|(c & k & -> & Ec & Hc)]; [cbn [length]; by rewrite Nat.add_0_r, Nat.eqb_refl|]. rewrite (proj2 (Nat.eqb_neq (f_pos g + S k) (f_pos g))) by lia.
  replace (f_pos g + S k - 1)%nat with (f_pos g + k)%nat by lia. rewrite Ec. cbn. by rewrite Hc.
Qed.

Lemma head_part_at s :
  text buf (f_pos g) (length buf) s -> LF ∉ s -> feed_step g buf eof = returns (short (g <| f_scan := length buf |>) eof).
Proof. intros Ht Hn. unfold feed_step. rewrite Hs, (lf_idx_scanned _ _ Hsc Hs). by rewrite (lf_part _ _ _ Ht Hn). Qed.
End HeadRounds.

(** ** Every round *)

(** A V array: its length is an [int]. *)
Definition fits (buf : list byte) : Prop := Z.of_nat (length buf) < 2 ^ 31.

Record inv (f : Framer) (buf : list byte) : Prop := {
  inv_pos : (f_pos f <= length buf)%nat;
  inv_need : 0 <= f_need f;
  inv_data : f_stage f = fr_chunk_data -> Z.of_nat (f_pos f) <= f_need f;
  inv_scan : scanned f buf
}.

Lemma inv_ext f buf more : inv f buf -> inv f (buf ++ more).
Proof. intros [H1 H2 H3 H4]. split; [rewrite length_app; lia | done | done | by apply scanned_ext]. Qed.

(** At the start of a line nothing has been searched. *)
Lemma inv_at f buf : (f_pos f <= length buf)%nat -> 0 <= f_need f -> f_stage f <> fr_chunk_data -> (f_stage f = fr_head -> f_scan f = f_pos f) -> inv f buf.
Proof.
  intros H1 H2 H3 H4. split; [done | done | done|]. intros Hs. rewrite (H4 Hs), Nat.sub_diag. split; [lia | apply not_elem_of_nil].
Qed.

(** Rounds left: bytes in front of [pos], and what the stage still needs. *)
Definition rank (f : Framer) (buf : list byte) : nat :=
  (length buf - f_pos f + match f_stage f with fr_done | fr_failed => 0 | fr_body_len | fr_until_close | fr_chunk_data => 1 | _ => 2 end)%nat.

(** An answer that stays. *)
Definition settled (f : Framer) (z : Z) : Prop := (f_stage f = fr_done \/ f_stage f = fr_failed) /\ f_end f = z.

(** Waiting for more bytes changes nothing but where the next search starts. *)
Definition waits (f f' : Framer) (buf : list byte) : Prop :=
  f_stage f <> fr_done /\ f_stage f <> fr_failed /\ f' = if decide (f_stage f = fr_head) then f <| f_scan := length buf |> else f.

Definition step_ok (f : Framer) (buf : list byte) (eof : bool) : Prop :=
  exists f' r, feed_step f buf eof = Some (f', r) /\ inv f' buf /\
    match r with
    | None => (rank f' buf < rank f buf)%nat /\ (eof = false -> forall more e, feed_step f (buf ++ more) e = Some (f', None))
    | Some z =>
        (z = incomplete /\ eof = false /\ waits f f' buf) \/
        (settled f' z /\ (eof = false -> forall more e, feed_step f (buf ++ more) e = Some (f', Some z)))
    end.

Lemma fail_inv f buf code : inv f buf -> inv (fail f code).1 buf.
Proof. intros [H1 H2 H3 H4]. by apply inv_at. Qed.

Lemma fail_stays f buf eof g code :
  inv g buf -> feed_step f buf eof = returns (fail g code) ->
  (forall more e, feed_step f (buf ++ more) e = returns (fail g code)) -> step_ok f buf eof.
Proof. intros Hi E Hm. eexists _, _. split; [exact E|]. split; [by apply fail_inv|]. right. split; [split; [by right | done]|]. intros _ more e. apply Hm. Qed.

Lemma short_ok f buf eof g :
  inv g buf -> waits f g buf -> feed_step f buf eof = returns (short g eof) -> step_ok f buf eof.
Proof.
  intros Hi Hw E. unfold short in E. destruct eof.
  - eexists _, _. split; [exact E|]. split; [by apply fail_inv|]. right. split; [split; [by right | done] | done].
  - eexists _, _. split; [exact E|]. split; [done|]. by left.
Qed.

Lemma goes_on_ok f buf eof g :
  inv g buf -> (rank g buf < rank f buf)%nat -> feed_step f buf eof = goes_on g -> (forall more e, feed_step f (buf ++ more) e = goes_on g) -> step_ok f buf eof.
Proof. intros Hi Hr E Hm. eexists _, _. split; [exact E|]. split; [done|]. split; [done|]. intros _ more e. apply Hm. Qed.

Lemma head_done_frame f b :
  f_stage f = fr_head -> 0 <= f_need f -> f_pos (head_done f b) = b /\ 0 <= f_need (head_done f b) /\ f_stage (head_done f b) <> fr_chunk_data /\
  (f_stage (head_done f b) = fr_head -> f_scan (head_done f b) = b).
Proof.
  intros Hs Hn. unfold head_done. destruct (_ && _) eqn:Ei; [destruct f; cbn in *; subst; done|].
  destruct f. cbn -[Z.of_nat] in *. repeat case_match; cbn -[Z.of_nat] in *; repeat split; try done; lia.
Qed.

Lemma line_effect_frame f l g : line_effect f l = Some g -> f_stage g = f_stage f /\ f_need g = f_need f /\ f_start g = f_start f.
Proof.
  assert (Hc : f_stage (conn_effect f l) = f_stage f /\ f_need (conn_effect f l) = f_need f /\ f_start (conn_effect f l) = f_start f) by (unfold conn_effect; by destruct (fvalue connection_lower l)).
  unfold line_effect. destruct (f_bodyless f); [by intros [= <-]|]. destruct (fvalue content_length_lower l) as [v|].
  - destruct (resp_length v); [|done]. cbn [mbind option_bind]. destruct (_ && _); [done|]. by intros [= <-].
  - destruct (fvalue transfer_encoding_lower l) as [v|]; [|by intros [= <-]]. destruct (final_chunked v); [by intros [= <-] | done].
Qed.

(** A text read as a line with its CRLF, one with a bare LF, or one without its LF. *)
Lemma line_cases s : (exists l rest, s = l ++ CRLF ++ rest /\ LF ∉ l) \/ (exists a rest, s = a ++ LF :: rest /\ (LF ∉ a) /\ last a <> Some CR) \/ LF ∉ s.
Proof.
  destruct (line_shape_total s) as [rest|l rest _ Hl|a rest Ha Hl|s Hs]; [left; exists [], rest; split; [done | apply not_elem_of_nil] | left; by exists l, rest | right; left; by exists a, rest | by do 2 right].
Qed.

Lemma head_step_ok f buf eof : inv f buf -> f_stage f = fr_head -> step_ok f buf eof.
Proof.
  intros Hi Hs. pose proof Hi as [Hp Hn Hd Hsc]. pose proof (text_suffix buf (f_pos f) _ eq_refl Hp) as Ht.
  assert (Hm : forall more, text (buf ++ more) (f_pos f) (length (buf ++ more)) (drop (f_pos f) buf ++ more)) by (intros; by apply text_more).
  assert (Hsm : forall more, scanned f (buf ++ more)) by (intros; by apply scanned_ext).
  destruct (line_cases (drop (f_pos f) buf)) as [(l & rest & E & Hl)|[(a & rest & E & Ha & Hla)|Hpart]]; rewrite ?E in Ht, Hm.
  - assert (Hm' : forall more, text (buf ++ more) (f_pos f) (length (buf ++ more)) (l ++ CRLF ++ (rest ++ more))) by (intros more; specialize (Hm more); by rewrite <- !app_assoc in Hm).
    pose proof (text_length _ _ _ _ Ht) as Hlen. rewrite !length_app in Hlen. change (length CRLF) with 2%nat in Hlen.
    pose proof (head_line_at f buf eof Hs Hsc l rest Ht Hl) as E1.
    pose proof (fun more e => head_line_at f (buf ++ more) e Hs (Hsm more) l (rest ++ more) (Hm' more) Hl) as E2.
    destruct (f_pos f =? f_start f)%nat.
    { destruct (status_of l) as [st|].
      - eapply goes_on_ok; [|unfold rank|exact E1|exact E2]; [apply inv_at; cbn; [lia | done | by rewrite Hs | done]|]. cbn. rewrite Hs. lia.
      - eapply fail_stays; [|exact E1|exact E2]. split; [exact Hp | exact Hn | exact Hd | exact Hsc]. }
    destruct (bool_decide_reflect (l = [])) as [->|Hne].
    + cbn [length] in *. destruct (head_done_frame f (f_pos f + 2) Hs Hn) as (F1 & F2 & F3 & F4).
      eapply goes_on_ok; [|unfold rank|exact E1|exact E2]; [apply inv_at; rewrite ?F1; [lia | done | done | done]|]. rewrite F1, Hs. destruct (f_stage (head_done f _)); lia.
    + destruct (line_effect f l) as [g|] eqn:Eg; [|by eapply fail_stays; [|exact E1|exact E2]]. destruct (line_effect_frame _ _ _ Eg) as (F1 & F2 & _).
      eapply goes_on_ok; [|unfold rank|exact E1|exact E2]; [apply inv_at; cbn; rewrite ?F1, ?F2; [lia | done | by rewrite Hs | done]|]. cbn. rewrite F1, Hs. lia.
  - eapply fail_stays; [exact Hi | by apply (head_bare_at f buf eof Hs Hsc a rest)|]. intros more e. apply (head_bare_at f (buf ++ more) e Hs (Hsm more) a (rest ++ more)); [|done | done].
    specialize (Hm more). by rewrite <- app_assoc in Hm.
  - eapply short_ok; [|split; [by rewrite Hs|]; split; [by rewrite Hs|]; by rewrite decide_True|by apply (head_part_at f buf eof Hs Hsc _ Ht)]. split; [done | done | cbn; by rewrite Hs|]. intros _. cbn. split; [lia|].
    rewrite take_ge; [done|]. rewrite length_drop. lia.
Qed.

Lemma waits_same f buf : f_stage f <> fr_head -> f_stage f <> fr_done -> f_stage f <> fr_failed -> waits f f buf.
Proof. intros H1 H2 H3. split; [done|]. split; [done|]. by rewrite decide_False. Qed.

Lemma size_step_ok f buf eof : inv f buf -> f_stage f = fr_chunk_size -> step_ok f buf eof.
Proof.
  intros Hi Hs. pose proof Hi as [Hp Hn _ _]. pose proof (text_suffix buf (f_pos f) _ eq_refl Hp) as Ht. destruct (chunk_size_line_sound _ _ _ Ht) as (r & E & Hr).
  pose proof (fun more => chunk_size_line_ext buf more (f_pos f) r Hp E) as Hx. destruct r as [[d v]|c].
  - destruct Hr as (ds & ext & t & Es & [[Hds _] _] & _ & Hv & _ & Ed). pose proof (text_length _ _ _ _ Ht) as Hl. rewrite Es, !length_app in Hl. change (length CRLF) with 2%nat in Hl.
    assert (1 <= length ds)%nat by (by destruct ds; [|cbn; lia]).
    destruct (Z.eqb_spec v 0) as [->|Hv0].
    + eapply (goes_on_ok _ _ _ (f <| f_pos := d |> <| f_stage := fr_trailers |>)); [apply inv_at; cbn; [lia | done | done | done] | unfold rank; cbn; rewrite Hs; lia | unfold feed_step; rewrite Hs, E; done|].
      intros more e. unfold feed_step. rewrite Hs, (Hx more) by done. done.
    + eapply (goes_on_ok _ _ _ (f <| f_pos := d |> <| f_need := Z.of_nat d + v |> <| f_stage := fr_chunk_data |>));
        [split; cbn -[Z.of_nat]; [lia | lia | intros _; lia | done] | unfold rank; cbn; rewrite Hs; lia | unfold feed_step; rewrite Hs, E; cbn [mbind option_bind]; by rewrite (proj2 (Z.eqb_neq v 0))|].
      intros more e. unfold feed_step. rewrite Hs, (Hx more) by done. cbn [mbind option_bind]. by rewrite (proj2 (Z.eqb_neq v 0)).
  - destruct Hr as [->| ->].
    + eapply (short_ok _ _ _ f); [done | by apply waits_same; rewrite Hs | unfold feed_step; rewrite Hs, E; done].
    + eapply (fail_stays _ _ _ f); [done | unfold feed_step; rewrite Hs, E; done|]. intros more e. unfold feed_step. rewrite Hs, (Hx more) by done. done.
Qed.

Lemma trailers_step_ok f buf eof : inv f buf -> f_stage f = fr_trailers -> step_ok f buf eof.
Proof.
  intros Hi Hs. pose proof Hi as [Hp Hn _ _]. pose proof (text_suffix buf (f_pos f) _ eq_refl Hp) as Ht. pose proof (text_length _ _ _ _ Ht) as Hl.
  assert (Hr : exists r, trailer_line buf (f_pos f) = Some r /\ match r with inl (n, _) => (f_pos f < n <= length buf)%nat | inr c => c = incomplete \/ c = err_malformed end).
  { destruct (line_shape_total (drop (f_pos f) buf)) as [rest|l rest Hn' Hl'|a rest Ha Hla|s Hs'].
    - rewrite (trailer_line_blank _ _ _ Ht). eexists. split; [done|]. cbn in Hl. cbn. lia.
    - destruct (trailer_line_line _ _ _ _ Ht Hn' Hl') as (ok & _ & ->). eexists. split; [done|]. rewrite !length_app in Hl. change (length CRLF) with 2%nat in Hl. destruct ok; [lia | by right].
    - rewrite (trailer_line_bare _ _ _ _ Ht Ha Hla). eexists. split; [done|]. by right.
    - rewrite (trailer_line_part _ _ _ Ht Hs'). eexists. split; [done|]. by left. }
  destruct Hr as (r & E & Hr). pose proof (fun more => trailer_line_ext buf more (f_pos f) r Hp E) as Hx. destruct r as [[n last]|c].
  - eapply goes_on_ok; [|unfold rank|unfold feed_step; rewrite Hs, E; cbn [mbind option_bind]; reflexivity|intros more e; unfold feed_step; rewrite Hs, (Hx more) by done; cbn [mbind option_bind]; reflexivity].
    + by destruct last; apply inv_at; cbn; rewrite ?Hs; try done; lia.
    + destruct last; cbn; rewrite ?Hs; lia.
  - destruct Hr as [->| ->].
    + eapply (short_ok _ _ _ f); [done | by apply waits_same; rewrite Hs | unfold feed_step; rewrite Hs, E; done].
    + eapply (fail_stays _ _ _ f); [done | unfold feed_step; rewrite Hs, E; done|]. intros more e. unfold feed_step. rewrite Hs, (Hx more) by done. done.
Qed.

(** The CRLF behind a chunk's data. *)
Lemma data_end f buf : fits buf -> inv f buf -> f_need f + 1 < Z.of_nat (length buf) ->
  i32 (f_need f) = f_need f /\ i32 (f_need f + 1) = f_need f + 1 /\ i32 (f_need f + 2) = f_need f + 2 /\
  exists c d, at_int buf (f_need f) = Some c /\ at_int buf (f_need f + 1) = Some d.
Proof.
  unfold fits. intros Hf [_ Hn _ _] Hl. rewrite !i32_small by lia. repeat split. unfold at_int. rewrite !(proj2 (Z.ltb_ge _ _)) by lia.
  destruct (lookup_lt_is_Some_2 buf (Z.to_nat (f_need f))) as [c Ec]; [lia|]. destruct (lookup_lt_is_Some_2 buf (Z.to_nat (f_need f + 1))) as [d Ed]; [lia|]. eauto.
Qed.

Lemma data_step_ok f buf eof : fits buf -> inv f buf -> f_stage f = fr_chunk_data -> step_ok f buf eof.
Proof.
  intros Hfit Hi Hs. pose proof Hi as [Hp Hn Hd _]. specialize (Hd Hs). destruct (Z.leb_spec (Z.of_nat (length buf)) (f_need f + 1)) as [Hle|Hgt].
  { eapply (short_ok _ _ _ f); [done | by apply waits_same; rewrite Hs|]. unfold feed_step. rewrite Hs. by rewrite (proj2 (Z.leb_le _ _)). }
  destruct (data_end f buf Hfit Hi Hgt) as (I0 & I1 & I2 & c & d & Ec & Ed).
  assert (Hx : forall more e, feed_step f (buf ++ more) e = if negb (beq c CR) || negb (beq d LF) then returns (fail f err_malformed)
    else goes_on (f <| f_pos := Z.to_nat (f_need f + 2) |> <| f_stage := fr_chunk_size |>)).
  { intros more e. unfold feed_step. rewrite Hs, (proj2 (Z.leb_gt _ _)) by (rewrite length_app; lia). rewrite I0, I1, I2, (at_int_ext _ more _ _ Ec), (at_int_ext _ more _ _ Ed). done. }
  pose proof (Hx [] eof) as E0. rewrite app_nil_r in E0. destruct (negb (beq c CR) || negb (beq d LF)).
  - by eapply (fail_stays _ _ _ f).
  - eapply goes_on_ok; [|unfold rank|exact E0|exact Hx]; [apply inv_at; cbn; try done; lia | cbn; rewrite Hs; lia].
Qed.

Lemma body_step_ok f buf eof : inv f buf -> f_stage f = fr_body_len -> step_ok f buf eof.
Proof.
  intros Hi Hs. pose proof Hi as [Hp Hn _ _]. destruct (Z.ltb_spec (Z.of_nat (length buf)) (f_need f)) as [Hlt|Hge].
  { eapply (short_ok _ _ _ f); [done | by apply waits_same; rewrite Hs|]. unfold feed_step. rewrite Hs. by rewrite (proj2 (Z.ltb_lt _ _)). }
  eapply (goes_on_ok _ _ _ (f <| f_end := i32 (f_need f) |> <| f_stage := fr_done |>)); [by apply inv_at | unfold rank; cbn; rewrite Hs; lia | unfold feed_step; rewrite Hs; by rewrite (proj2 (Z.ltb_ge _ _))|].
  intros more e. unfold feed_step. rewrite Hs. by rewrite (proj2 (Z.ltb_ge _ _)) by (rewrite length_app; lia).
Qed.

Lemma feed_step_ok f buf eof : fits buf -> inv f buf -> step_ok f buf eof.
Proof.
  intros Hfit Hi. destruct (f_stage f) eqn:Hs; [by apply head_step_ok | by apply body_step_ok | by apply size_step_ok | by apply data_step_ok | by apply trailers_step_ok | | |].
  - destruct eof.
    + eexists _, None. split; [unfold feed_step; rewrite Hs; done|]. pose proof Hi as [Hp Hn _ _]. split; [by apply inv_at|]. split; [unfold rank; cbn; rewrite Hs; lia | done].
    + exists f, (Some incomplete). split; [unfold feed_step; rewrite Hs; done|]. split; [done|]. left. split; [done|]. split; [done|]. apply waits_same; by rewrite Hs.
  - exists f, (Some (f_end f)). split; [unfold feed_step; rewrite Hs; done|]. split; [done|]. right. split; [split; [by left | done]|]. intros _ more e. unfold feed_step. by rewrite Hs.
  - exists f, (Some (f_end f)). split; [unfold feed_step; rewrite Hs; done|]. split; [done|]. right. split; [split; [by right | done]|]. intros _ more e. unfold feed_step. by rewrite Hs.
Qed.

(** ** Rounds in a row *)

Inductive runs (buf : list byte) (eof : bool) : Framer -> Framer -> Z -> Prop :=
  | runs_stop f f' z : feed_step f buf eof = Some (f', Some z) -> runs buf eof f f' z
  | runs_go f g f' z : feed_step f buf eof = Some (g, None) -> runs buf eof g f' z -> runs buf eof f f' z.

Lemma feed_loop_runs n f buf eof g z : feed_loop n f buf eof = Some (g, z) -> runs buf eof f g z.
Proof.
  revert f. induction n as [|n IH]; intros f; cbn [feed_loop]; [done|]. destruct (feed_step f buf eof) as [[h r]|] eqn:E; [|done]. cbn [mbind option_bind].
  destruct r as [r|]; [intros [= -> ->]; by apply runs_stop | intros H; eapply runs_go; [exact E | by apply IH]].
Qed.

Lemma runs_det buf eof f g z g' z' : runs buf eof f g z -> runs buf eof f g' z' -> g' = g /\ z' = z.
Proof. intros H. revert g' z'. induction H as [f g z E|f h g z E _ IH]; intros g' z' H'; inversion H' as [? ? ? E'|? h' ? ? E' Hr]; subst; rewrite E in E'; simplify_eq; auto. Qed.

(** The loop returns, within the buffer. *)
Lemma feed_loop_total n f buf eof : fits buf -> inv f buf -> (rank f buf < n)%nat -> exists g z, feed_loop n f buf eof = Some (g, z).
Proof.
  intros Hfit. revert f. induction n as [|n IH]; intros f Hi Hr; [lia|]. cbn [feed_loop]. destruct (feed_step_ok f buf eof Hfit Hi) as (g & r & E & Hg & Hcase). run E.
  destruct r as [z|]; [eauto|]. destruct Hcase as [Hlt _]. apply IH; [done | lia].
Qed.

Lemma rank_bound f buf : (rank f buf < length buf + 3)%nat.
Proof. unfold rank. destruct (f_stage f); lia. Qed.

Lemma feed_total f buf eof : fits buf -> inv f buf -> exists g z, feed f buf eof = Some (g, z) /\ runs buf eof f g z.
Proof.
  intros Hfit Hi. destruct (feed_loop_total (length buf + 3) f buf eof Hfit Hi (rank_bound f buf)) as (g & z & E). exists g, z. split; [exact E | by apply feed_loop_runs in E].
Qed.

Lemma feed_is_runs f buf eof g z : fits buf -> inv f buf -> runs buf eof f g z -> feed f buf eof = Some (g, z).
Proof. intros Hfit Hi Hr. destruct (feed_total f buf eof Hfit Hi) as (g' & z' & E & Hr'). by destruct (runs_det _ _ _ _ _ _ _ Hr Hr') as [-> ->]. Qed.

(** ** The search position does not matter *)

Definition rescan (f : Framer) (k : nat) : Framer := f <| f_scan := k |>.

Lemma past_head f k buf eof : f_stage f <> fr_head ->
  match feed_step f buf eof with
  | Some (g, r) => feed_step (rescan f k) buf eof = Some (rescan g k, r) /\ f_stage g <> fr_head
  | None => True
  end.
Proof.
  intros Hs. unfold feed_step. change (f_stage (rescan f k)) with (f_stage f). change (f_pos (rescan f k)) with (f_pos f). change (f_need (rescan f k)) with (f_need f).
  destruct (f_stage f) eqn:Es; try done.
  - destruct (_ <? _); [|done]. unfold short. destruct eof; cbn; [done | by rewrite Es].
  - destruct (chunk_size_line buf (f_pos f)) as [[[d v]|c]|]; cbn [mbind option_bind]; [by destruct (v =? 0)| |done].
    unfold short. destruct (c =? incomplete); [destruct eof|]; cbn; [done | by rewrite Es | done].
  - destruct (_ <=? _); [unfold short; destruct eof; cbn; [done | by rewrite Es]|]. destruct (at_int buf (i32 (f_need f))) as [c|]; cbn [mbind option_bind]; [|done].
    destruct (at_int buf _) as [d|]; cbn [mbind option_bind]; [|done].
    by destruct (_ || _).
  - destruct (trailer_line buf (f_pos f)) as [[[d b]|c]|]; cbn [mbind option_bind]; [by destruct b; cbn; rewrite ?Es| |done].
    unfold short. destruct (c =? incomplete); [destruct eof|]; cbn; [done | by rewrite Es | done].
  - destruct eof; cbn; [done | by rewrite Es].
  - cbn. by rewrite Es.
  - cbn. by rewrite Es.
Qed.

Lemma line_effect_rescan f k l : line_effect (rescan f k) l = (fun g => rescan g k) <$> line_effect f l.
Proof.
  unfold line_effect, conn_effect. change (f_bodyless (rescan f k)) with (f_bodyless f). change (f_content_length (rescan f k)) with (f_content_length f).
  destruct (f_bodyless f); [by destruct (fvalue connection_lower l)|]. destruct (fvalue content_length_lower l) as [v|].
  - destruct (resp_length v); [|done]. cbn [mbind option_bind]. by destruct (_ && _).
  - destruct (fvalue transfer_encoding_lower l) as [v|]; [by destruct (final_chunked v) | by destruct (fvalue connection_lower l)].
Qed.

(** Two framers that differ in the search position only, behind the head. *)
Definition sim (f g : Framer) : Prop := g = f \/ (f_stage f <> fr_head /\ exists k, g = rescan f k).

Lemma head_done_rescan f k b : sim (head_done f b) (head_done (rescan f k) b).
Proof.
  unfold head_done. change (f_status (rescan f k)) with (f_status f). destruct (_ && _); [by left|]. right.
  destruct f. cbn. repeat case_match; cbn; (split; [done|]); by eexists.
Qed.

Lemma fail_rescan f k code : sim (fail f code).1 (fail (rescan f k) code).1.
Proof. right. split; [done|]. by exists k. Qed.

Lemma head_rescan f k buf eof f' r :
  f_stage f = fr_head -> inv f buf -> inv (rescan f k) buf -> feed_step f buf eof = Some (f', r) ->
  exists g', feed_step (rescan f k) buf eof = Some (g', r) /\ sim f' g'.
Proof.
  intros Hs [Hp _ _ Hsc] [_ _ _ Hsc'] E. pose proof (text_suffix buf (f_pos f) _ eq_refl Hp) as Ht.
  destruct (line_cases (drop (f_pos f) buf)) as [(l & rest & El & Hl)|[(a & rest & Ea & Ha & Hla)|Hpart]].
  - rewrite El in Ht. rewrite (head_line_at f buf eof Hs Hsc l rest Ht Hl) in E. rewrite (head_line_at (rescan f k) buf eof Hs Hsc' l rest Ht Hl).
    change (f_pos (rescan f k)) with (f_pos f). change (f_start (rescan f k)) with (f_start f). destruct (_ =? _)%nat.
    { destruct (status_of l) as [st|]; injection E as <- <-; [eexists; split; [done|]; by left|]. eexists. split; [done|]. right. split; [done|]. by exists k. }
    destruct (bool_decide (l = [])); [injection E as <- <-; eexists; split; [done|]; apply head_done_rescan|]. rewrite line_effect_rescan.
    destruct (line_effect f l) as [h|]; injection E as <- <-; [eexists; split; [done|]; by left|]. eexists. split; [done|]. apply fail_rescan.
  - rewrite Ea in Ht. rewrite (head_bare_at f buf eof Hs Hsc a rest Ht Ha Hla) in E. rewrite (head_bare_at (rescan f k) buf eof Hs Hsc' a rest Ht Ha Hla). injection E as <- <-.
    eexists. split; [done|]. apply fail_rescan.
  - rewrite (head_part_at f buf eof Hs Hsc _ Ht Hpart) in E. rewrite (head_part_at (rescan f k) buf eof Hs Hsc' _ Ht Hpart). exists f'. split; [exact E | by left].
Qed.

Lemma sim_runs buf eof f f' z : runs buf eof f f' z -> forall g, sim f g -> exists g', runs buf eof g g' z /\ sim f' g'.
Proof.
  induction 1 as [f f' z E|f h f' z E Hr IH]; intros g [->|(Hs & k & ->)].
  - exists f'. split; [by apply runs_stop | by left].
  - pose proof (past_head f k buf eof Hs) as H. rewrite E in H. destruct H as [H Hs']. eexists. split; [by apply runs_stop|]. right. eauto.
  - exists f'. split; [by eapply runs_go | by left].
  - pose proof (past_head f k buf eof Hs) as H. rewrite E in H. destruct H as [H Hs']. destruct (IH (rescan h k)) as (g' & Hg & Hsim); [right; eauto|].
    exists g'. split; [by eapply runs_go | done].
Qed.

(** ** Feeding in pieces *)

(** All of the framer but where it searches for the next LF. *)
Definition forget (f : Framer) : Framer := f <| f_scan := 0%nat |>.

Lemma sim_forget f g : sim f g -> forget g = forget f.
Proof. by intros [->|(_ & k & ->)]. Qed.

Lemma settled_runs f z buf eof : settled f z -> runs buf eof f f z.
Proof. intros [Hs <-]. apply runs_stop. unfold feed_step. by destruct Hs as [-> | ->]. Qed.

(** Whoever goes on from [f'] on a longer buffer gets what [f] gets there. *)
Definition catches_up (f f' : Framer) (buf : list byte) : Prop :=
  forall more e g y, fits (buf ++ more) -> runs (buf ++ more) e f' g y -> exists g', runs (buf ++ more) e f g' y /\ forget g = forget g'.

Lemma runs_more buf f f' z :
  fits buf -> runs buf false f f' z -> inv f buf -> inv f' buf /\ (settled f' z \/ z = incomplete) /\ catches_up f f' buf.
Proof.
  intros Hfit H. remember false as eof eqn:He. induction H as [f f' z E|f h f' z E Hr IH]; intros Hi; subst eof.
  - destruct (feed_step_ok f buf false Hfit Hi) as (g & r & E' & Hg & Hcase). rewrite E in E'. simplify_eq. split; [done|].
    destruct Hcase as [(-> & _ & Hw)|[Hset Hx]].
    + split; [by right|]. destruct Hw as (_ & _ & ->). intros more e h y Hfm Hr. destruct (decide (f_stage f = fr_head)) as [Hs|Hs]; [|by eexists].
      set (f1 := f <| f_scan := length buf |>) in *. assert (Ef : rescan f1 (f_scan f) = f) by (by destruct f).
      assert (H1 : inv f1 (buf ++ more)) by (by apply inv_ext). assert (H2 : inv (rescan f1 (f_scan f)) (buf ++ more)) by (rewrite Ef; by apply inv_ext).
      inversion Hr as [? ? ? Es|? h1 ? ? Es Hr1]; subst; (destruct (head_rescan f1 (f_scan f) _ _ _ _ Hs H1 H2 Es) as (g' & Eg & Hsim)); rewrite Ef in Eg.
      * exists g'. split; [by apply runs_stop | symmetry; by apply sim_forget].
      * destruct (sim_runs _ _ _ _ _ Hr1 g' Hsim) as (g2 & Hg2 & Hsim2). exists g2. split; [by eapply runs_go | symmetry; by apply sim_forget].
    + split; [by left|]. intros more e h y _ Hr. destruct (runs_det _ _ _ _ _ _ _ (settled_runs _ _ (buf ++ more) e Hset) Hr) as [-> ->]. eexists. split; [apply runs_stop; by apply Hx | done].
  - destruct (feed_step_ok f buf false Hfit Hi) as (g & r & E' & Hg & Hcase). rewrite E in E'. simplify_eq. destruct Hcase as [_ Hx].
    destruct (IH Hg) as (H1 & H2 & H3). split; [done|]. split; [done|]. intros more e g0 y Hfm Hr0. destruct (H3 more e g0 y Hfm Hr0) as (g' & Hg' & Hf).
    exists g'. split; [eapply runs_go; [by apply Hx | done] | done].
Qed.

(** Each piece is read behind what is there already, and the end of the connection, or
    nothing more, is told last. The answers of all calls, in order. *)
Fixpoint feed_pieces (f : Framer) (acc : list byte) (pieces : list (list byte)) (eof : bool) : option (Framer * list Z) :=
  match pieces with
  | [] => '(f, r) ← feed f acc eof; Some (f, [r])
  | p :: ps =>
      '(f, r) ← feed f (acc ++ p) false;
      '(f, rs) ← feed_pieces f (acc ++ p) ps eof;
      Some (f, r :: rs)
  end.

Lemma fits_prefix a b : fits (a ++ b) -> fits a.
Proof. unfold fits. rewrite length_app. lia. Qed.

Lemma feed_pieces_spec f0 pieces eof : forall f acc,
  fits (acc ++ concat pieces) -> inv f acc -> catches_up f0 f acc ->
  exists g rs g0 r, feed_pieces f acc pieces eof = Some (g, rs) /\ runs (acc ++ concat pieces) eof f0 g0 r /\ forget g = forget g0 /\
    last rs = Some r /\ Forall (fun a => a = incomplete \/ a = r) rs /\ (forall z, settled f z -> r = z).
Proof.
  induction pieces as [|p ps IH]; intros f acc Hfit Hi Hc; cbn [feed_pieces concat] in *.
  - rewrite app_nil_r in Hfit. destruct (feed_total f acc eof Hfit Hi) as (g & z & E & Hr). run E. pose proof (Hc [] eof g z) as Hc'. rewrite app_nil_r in Hc'.
    destruct (Hc' Hfit Hr) as (g0 & Hg0 & Hf). exists g, [z], g0, z. rewrite app_nil_r. repeat split; try done; [by constructor; [right|]|].
    intros y Hset. by destruct (runs_det _ _ _ _ _ _ _ (settled_runs _ _ acc eof Hset) Hr) as [_ ->].
  - rewrite app_assoc in Hfit. pose proof (fits_prefix _ _ Hfit) as Hfit1. destruct (feed_total f (acc ++ p) false Hfit1 (inv_ext _ _ p Hi)) as (h & z & E & Hr). run E.
    destruct (runs_more _ _ _ _ Hfit1 Hr (inv_ext _ _ p Hi)) as (Hih & Hz & Hcu).
    destruct (IH h (acc ++ p) Hfit Hih) as (g & rs & g0 & r & E2 & Hr0 & Hf & Hlast & Hall & Hset).
    { intros more e g y Hfm Hrm. destruct (Hcu more e g y Hfm Hrm) as (g1 & Hg1 & Hf1). rewrite <- app_assoc in Hfm, Hg1. destruct (Hc (p ++ more) e g1 y Hfm Hg1) as (g2 & Hg2 & Hf2).
      exists g2. rewrite <- app_assoc. split; [done | congruence]. }
    run E2. exists g, (z :: rs), g0, r. rewrite app_assoc. repeat split; try done.
    + rewrite last_cons, Hlast. done.
    + constructor; [|done]. destruct Hz as [Hz| ->]; [right; symmetry; by apply Hset | by left].
    + intros y Hy. destruct (runs_det _ _ _ _ _ _ _ (settled_runs _ _ (acc ++ p) false Hy) Hr) as [-> ->]. by apply Hset.
Qed.

Lemma reset_inv hr buf : inv (reset hr) buf.
Proof. apply inv_at; cbn; [lia | lia | done | done]. Qed.

(** C25: How a response arrives does not matter. Whatever the reads it comes in,
    feeding the framer after each of them ends with the answer and the framer (but for
    where it would search on) of feeding the whole response at once; before that, every
    call asks for more bytes or gives that answer already: neither an error nor a
    complete response is ever taken back. No call reads outside of the buffer. *)
Theorem response_pieces_do_not_matter head_request pieces eof :
  fits (concat pieces) ->
  exists f rs g r, feed_pieces (reset head_request) [] pieces eof = Some (f, rs) /\ feed (reset head_request) (concat pieces) eof = Some (g, r) /\
    last rs = Some r /\ Forall (fun a => a = incomplete \/ a = r) rs /\ forget f = forget g.
Proof.
  intros Hfit. destruct (feed_pieces_spec (reset head_request) pieces eof (reset head_request) []) as (f & rs & g & r & E & Hr & Hf & Hl & Hall & _); [done | apply reset_inv | |].
  - intros more e g y _ Hr. eauto.
  - exists f, rs, g, r. split; [done|]. split; [|done]. apply feed_is_runs; [done | apply reset_inv | done].
Qed.

Definition response_example : list byte :=
  bytes_of "HTTP/1.1 100 Continue" ++ CRLF ++ CRLF ++ bytes_of "HTTP/1.1 200 OK" ++ CRLF ++ bytes_of "Transfer-Encoding: chunked" ++ CRLF ++ CRLF ++
  bytes_of "5;x=y" ++ CRLF ++ bytes_of "hello" ++ CRLF ++ bytes_of "3" ++ CRLF ++ bytes_of " V!" ++ CRLF ++ bytes_of "0" ++ CRLF ++ CRLF.

Lemma response_pieces_do_not_matter_witness :
  exists f rs g r, feed_pieces (reset false) [] [take 30 response_example; drop 30 response_example] false = Some (f, rs) /\
    feed (reset false) (concat [take 30 response_example; drop 30 response_example]) false = Some (g, r) /\
    last rs = Some r /\ Forall (fun a => a = incomplete \/ a = r) rs /\ forget f = forget g.
Proof. apply (response_pieces_do_not_matter false [take 30 response_example; drop 30 response_example] false). by vm_compute. Defined.
