(* ===== verification/ClientResponse.v ===== *)
(** The responses the client's framer accepts: the message format of RFC 9112 for a
    response (interim responses in front, a body by status, by length, in chunks or up to
    the close), that the framer of http1_1/client/framer.v follows it, and the body the
    client reads. *)
From S2P Require Import Prelude WireBytes HttpScan HttpField HttpChunk HttpFrame ClientCodec ClientFramer.
Local Open Scope Z_scope.

(** ** The format *)

(** A chunked body and the data it carries. *)
Inductive coded_body : list byte -> list byte -> Prop :=
  | coded_last ds ext trailers :
      size_digits ds -> hexval ds = 0 -> chunk_ext ext -> Forall trailer_field trailers ->
      coded_body [] (ds ++ ext ++ CRLF ++ lines trailers ++ CRLF)
  | coded_next ds ext data more body :
      size_digits ds -> hexval ds = Z.of_nat (length data) -> data <> [] -> chunk_ext ext -> coded_body more body ->
      coded_body (data ++ more) (ds ++ ext ++ CRLF ++ data ++ CRLF ++ body).

Inductive resp_framing := RNone | RFixed (n : Z) | RChunked | RUntilClose.

#[export] Instance resp_framing_eq_dec : EqDecision resp_framing.
Proof. solve_decision. Defined.

(** One length, however often repeated ([Some None] is none at all). *)
Definition lengths_of (ls : list (list byte)) : option (option Z) :=
  match values content_length_lower ls with
  | [] => Some None
  | v :: vs => n ← resp_length v; if forallb (fun v => bool_decide (resp_length v = Some n)) vs then Some (Some n) else None
  end.

(** RFC 9112, section 6.3, for a response; its start line is a status line. *)
Definition response_framing (head_request : bool) (h : msg_head) : option resp_framing :=
  st ← status_of (request_line h);
  let tes := values transfer_encoding_lower (fields h) in
  if head_request || bodyless_status st then Some RNone
  else if negb (forallb final_chunked tes) then None
  else
    n ← lengths_of (fields h);
    Some (if negb (bool_decide (tes = [])) then RChunked else match n with Some n => RFixed n | None => RUntilClose end).

(** A 1xx response other than 101: another one follows. *)
Definition is_interim (h : msg_head) : bool :=
  match status_of (request_line h) with Some st => (st <? 200) && negb (st =? 101) | None => false end.

Definition has_option (word : list byte) (h : msg_head) : bool := existsb (has_word word) (values connection_lower (fields h)).

Definition http10_line (l : list byte) : bool := match l !! 7%nat with Some c => beq c (byte_of_Z 48) | None => false end.

(** Whether the connection may carry another request. *)
Definition persistent (h : msg_head) (fr : resp_framing) : bool :=
  let http10 := http10_line (request_line h) in
  negb (bool_decide (fr = RUntilClose)) && negb (bool_decide (status_of (request_line h) = Some 101)) &&
  negb (bool_decide (fr = RChunked) && (negb (bool_decide (values content_length_lower (fields h) = [])) || http10)) &&
  (negb http10 || has_option keep_alive_option h) && negb (has_option close_option h).

(** The bytes [raw] of a body, with the data they carry and what follows them. *)
Definition body_framed (fr : resp_framing) (eof : bool) (data raw rest : list byte) : Prop :=
  match fr with
  | RNone => raw = [] /\ data = []
  | RFixed n => Z.of_nat (length raw) = n /\ data = raw
  | RChunked => coded_body data raw
  | RUntilClose => eof = true /\ rest = [] /\ data = raw
  end.

(** [buf] holds a response: [pre] in front of it, and [rest] behind it. *)
Record holds (head_request eof : bool) (buf : list byte) (pre : list msg_head) (h : msg_head) (fr : resp_framing) (data raw rest : list byte) : Prop := {
  h_bytes : buf = concat (head_bytes <$> pre) ++ head_bytes h ++ raw ++ rest;
  h_pre : Forall (fun i => head_wf i /\ is_interim i = true) pre;
  h_head : head_wf h;
  h_final : is_interim h = false;
  h_framing : response_framing head_request h = Some fr;
  h_body : body_framed fr eof data raw rest
}.

(** ** The field lines together *)

Lemma lower_colon c : lower c = COLON -> c = COLON.
Proof.
  intros H. assert (E : implb (beq (lower c) COLON) (beq c COLON) = true) by (clear H; revert c; apply byte_cases; vm_compute; reflexivity).
  rewrite (proj2 (beq_true _ _) H) in E. by apply beq_true.
Qed.

Lemma fvalue_name name l v : fvalue name l = Some v -> exists a w, l = a ++ COLON :: w /\ lower <$> a = lower <$> name.
Proof.
  unfold fvalue, field. destruct (ci_eq _ name) eqn:E; [|done]. destruct (drop (length name) l) as [|c w] eqn:Ed; [done|]. destruct (beq c COLON) eqn:Ec; [|by destruct (ows c)].
  apply beq_true in Ec as ->. intros _. exists (take (length name) l), w. split; [by rewrite <- Ed, take_drop|]. unfold ci_eq in E. by apply bool_decide_eq_true in E.
Qed.

(** A line is one field. *)
Lemma fvalue_unique a b l v w : COLON ∉ lower <$> a -> COLON ∉ lower <$> b -> fvalue a l = Some v -> fvalue b l = Some w -> lower <$> a = lower <$> b.
Proof.
  intros Ha Hb (p & x & El & Ep)%fvalue_name (q & y & El' & Eq)%fvalue_name. rewrite <- Ep, <- Eq. f_equal.
  assert (H : forall n : list byte, COLON ∉ lower <$> n -> COLON ∉ n) by (intros n Hn Hin; apply Hn; change COLON with (lower COLON); by apply list_elem_of_fmap_2).
  rewrite <- Ep in Ha. rewrite <- Eq in Hb. apply H in Ha, Hb. pose proof (find_byte_app COLON p x Ha) as E1. pose proof (find_byte_app COLON q y Hb) as E2. rewrite <- El in E1. rewrite <- El' in E2.
  assert (length p = length q) by congruence. rewrite El in El'. by apply app_inj_1 in El' as [-> _].
Qed.

Fixpoint walk (f : Framer) (ls : list (list byte)) : option Framer :=
  match ls with [] => Some f | l :: ls' => g ← line_effect f l; walk g ls' end.

(** The lengths one after the other, from [c] on (-1 is none). *)
Fixpoint acc_length (c : Z) (vs : list (list byte)) : option Z :=
  match vs with [] => Some c | v :: vs' => n ← resp_length v; if (0 <=? c) && negb (c =? n) then None else acc_length n vs' end.

Definition has_conn (word : list byte) (ls : list (list byte)) : bool := existsb (has_word word) (values connection_lower ls).

Definition with_conn (f : Framer) (ls : list (list byte)) : Framer :=
  f <| f_conn_close := f_conn_close f || has_conn close_option ls |> <| f_conn_ka := f_conn_ka f || has_conn keep_alive_option ls |>.

Lemma values_cons name l ls : values name (l :: ls) = match fvalue name l with Some v => v :: values name ls | None => values name ls end.
Proof. unfold values, fvalue. cbn. by destruct (field name l). Qed.

Lemma walk_bodyless f ls : f_bodyless f = true -> walk f ls = Some (with_conn f ls).
Proof.
  revert f. induction ls as [|l ls IH]; intros f Hb; cbn [walk].
  { unfold with_conn. cbn. rewrite !orb_false_r. by destruct f. }
  unfold line_effect. rewrite Hb. cbn [mbind option_bind]. rewrite IH by (unfold conn_effect; by destruct (fvalue connection_lower l)). f_equal.
  unfold with_conn, has_conn, conn_effect. rewrite values_cons. destruct (fvalue connection_lower l); [|done]. cbn. by rewrite !orb_assoc.
Qed.

Lemma walk_body f ls : f_bodyless f = false ->
  walk f ls =
    if forallb final_chunked (values transfer_encoding_lower ls) then
      n ← acc_length (f_content_length f) (values content_length_lower ls);
      Some ((with_conn f ls) <| f_content_length := n |> <| f_te := f_te f || negb (bool_decide (values transfer_encoding_lower ls = [])) |>)
    else None.
Proof.
  revert f. induction ls as [|l ls IH]; intros f Hb; cbn [walk].
  { unfold with_conn. cbn. rewrite !orb_false_r. by destruct f. }
  assert (Hu : forall a b, COLON ∉ lower <$> a -> COLON ∉ lower <$> b -> lower <$> a <> lower <$> b -> fvalue a l = None \/ fvalue b l = None).
  { intros a b Ha Hb' Hne. destruct (fvalue a l) as [v|] eqn:E1; [|by left]. destruct (fvalue b l) as [w|] eqn:E2; [|by right]. by destruct (Hne (fvalue_unique a b l v w Ha Hb' E1 E2)). }
  assert (N1 : COLON ∉ lower <$> content_length_lower) by (apply find_byte_None; by vm_compute).
  assert (N2 : COLON ∉ lower <$> transfer_encoding_lower) by (apply find_byte_None; by vm_compute).
  assert (N3 : COLON ∉ lower <$> connection_lower) by (apply find_byte_None; by vm_compute).
  pose proof (Hu _ _ N1 N2 ltac:(by vm_compute)) as U12. pose proof (Hu _ _ N1 N3 ltac:(by vm_compute)) as U13. pose proof (Hu _ _ N2 N3 ltac:(by vm_compute)) as U23. clear Hu.
  unfold line_effect, conn_effect, with_conn, has_conn. rewrite Hb, !values_cons.
  destruct (fvalue content_length_lower l) as [v|].
  - destruct U12 as [?|E2]; [done|]. destruct U13 as [?|E3]; [done|]. rewrite E2, E3. cbn [acc_length]. destruct (resp_length v) as [n|]; cbn [mbind option_bind]; [|by destruct (forallb _ _)].
    destruct (_ && _); cbn [mbind option_bind]; [by destruct (forallb _ _)|]. rewrite IH by done. done.
  - clear U12 U13. destruct (fvalue transfer_encoding_lower l) as [v|].
    + destruct U23 as [?|E3]; [done|]. rewrite E3. cbn [forallb]. destruct (final_chunked v); cbn [mbind option_bind andb]; [|done]. rewrite IH by done.
      rewrite (bool_decide_eq_false_2 (v :: _ = [])) by done. cbn. by rewrite orb_true_r.
    + cbn [mbind option_bind]. rewrite IH by (by destruct (fvalue connection_lower l)). destruct (fvalue connection_lower l); [|done].
      unfold with_conn, has_conn. cbn. destruct (forallb _ _); [|done]. destruct (acc_length _ _); [|done]. cbn. by rewrite !orb_assoc.
Qed.

Lemma acc_length_same n vs : 0 <= n -> acc_length n vs = if forallb (fun v => bool_decide (resp_length v = Some n)) vs then Some n else None.
Proof.
  intros Hn. induction vs as [|v vs IH]; [done|]. cbn [acc_length forallb]. destruct (resp_length v) as [m|]; cbn [mbind option_bind]; [|by rewrite bool_decide_eq_false_2].
  rewrite (proj2 (Z.leb_le 0 n)) by done. cbn [andb]. destruct (Z.eqb_spec n m) as [<-|Hm]; cbn [negb]; [by rewrite bool_decide_eq_true_2|].
  by rewrite bool_decide_eq_false_2 by congruence.
Qed.

Lemma acc_length_spec ls : acc_length (-1) (values content_length_lower ls) = (n ← lengths_of ls; Some (default (-1) n)).
Proof.
  unfold lengths_of. destruct (values content_length_lower ls) as [|v vs]; [done|]. cbn [acc_length]. destruct (resp_length v) as [n|] eqn:E; [|done]. cbn [mbind option_bind andb].
  change (0 <=? -1) with false. cbn [andb]. rewrite acc_length_same by (by apply resp_length_range in E as [? _]). by destruct (forallb _ vs).
Qed.

(** ** Rounds *)

Section Rounds.
Context (buf : list byte) (eof : bool) (Hfit : fits buf).

Lemma runs_step f g : feed_step f buf eof = goes_on g -> forall f' z, runs buf eof f f' z <-> runs buf eof g f' z.
Proof.
  intros E f' z. split; intros H.
  - inversion H as [? ? ? E'|? h ? ? E' Hr]; subst; rewrite E in E'; [done|]. by injection E' as ->.
  - by apply (runs_go _ _ _ g).
Qed.

Lemma runs_returns f g z : feed_step f buf eof = returns (g, z) -> runs buf eof f g z.
Proof. intros E. by apply runs_stop. Qed.

(** What a response leaves for its caller. *)
Definition outs (f : Framer) : nat * nat * Z * bool * bool * bool * bool :=
  (f_start f, f_head_len f, f_status f, f_keep_alive f, f_te f, f_bodyless f, f_dechunked f).

(** [f] completes at [z]. *)
Definition completes (f : Framer) (z : Z) : Prop :=
  exists f', runs buf eof f f' z /\ f_stage f' = fr_done /\ f_end f' = z /\ outs f' = outs f.

Lemma completes_step f g z : feed_step f buf eof = goes_on g -> outs g = outs f -> completes g z -> completes f z.
Proof.
  intros E Ho (f' & Hr & Hs & He & Ho'). exists f'. split; [by apply (runs_step f g)|]. split; [done|]. split; [done | congruence].
Qed.

Lemma completes_done f : f_stage f = fr_done -> completes f (f_end f).
Proof. intros Hs. exists f. split; [|done]. apply runs_returns. unfold feed_step. by rewrite Hs. Qed.

Lemma short_negative f g z : runs buf eof f g z -> feed_step f buf eof = returns (short f eof) -> z < 0.
Proof. intros H E. inversion H as [? ? ? E'|? ? ? ? E']; subst; rewrite E in E'; unfold short in E'; destruct eof; by inversion E'. Qed.

Lemma fail_negative f g z h code : code < 0 -> runs buf eof f g z -> feed_step f buf eof = returns (fail h code) -> z < 0.
Proof. intros Hc H E. inversion H as [? ? ? E'|? ? ? ? E']; subst; rewrite E in E'; by inversion E'; subst. Qed.

(** ** The trailer section *)

Lemma trailers_complete ts : Forall trailer_field ts -> forall f rest,
  f_stage f = fr_trailers -> text buf (f_pos f) (length buf) (lines ts ++ CRLF ++ rest) -> completes f (Z.of_nat (f_pos f + length (lines ts) + 2)).
Proof.
  induction 1 as [|l ts Hl _ IH]; intros f rest Hs Ht.
  - eapply completes_step; [unfold feed_step; by rewrite Hs, (trailer_line_blank _ _ _ Ht) | done|]. cbn [lines length]. rewrite Nat.add_0_r. by apply completes_done.
  - destruct (trailer_field_wf l Hl) as [Hn Hlf]. rewrite lines_cons, <- !app_assoc in Ht. destruct (trailer_line_line _ _ _ _ Ht Hn Hlf) as (ok & Hok & E). rewrite (proj2 Hok Hl) in E.
    eapply (completes_step _ (f <| f_pos := (f_pos f + length l + 2)%nat |>)); [unfold feed_step; by rewrite Hs, E | done|]. destruct (lf_line _ _ _ _ Ht Hlf) as (_ & _ & _ & Ht').
    replace (f_pos f + length (lines (l :: ts)) + 2)%nat with (f_pos f + length l + 2 + length (lines ts) + 2)%nat by (rewrite lines_cons, !length_app; cbn; lia).
    set (f1 := f <| f_pos := _ |>). exact (IH f1 rest Hs Ht').
Qed.

Lemma trailers_sound n f g z : (length buf - f_pos f < n)%nat -> (f_pos f <= length buf)%nat -> f_stage f = fr_trailers -> runs buf eof f g z -> 0 <= z ->
  exists ts rest, drop (f_pos f) buf = lines ts ++ CRLF ++ rest /\ Forall trailer_field ts.
Proof.
  revert f. induction n as [|n IH]; intros f Hn Hp Hs Hr Hz; [lia|]. pose proof (text_suffix buf (f_pos f) _ eq_refl Hp) as Ht.
  destruct (line_shape_total (drop (f_pos f) buf)) as [rest|l rest Hne Hl|a rest Ha Hla|s Hls].
  - exists [], rest. by split.
  - destruct (trailer_line_line _ _ _ _ Ht Hne Hl) as (ok & Hok & E). destruct ok.
    + assert (Es : feed_step f buf eof = goes_on (f <| f_pos := (f_pos f + length l + 2)%nat |>)) by (unfold feed_step; by rewrite Hs, E). destruct (lf_line _ _ _ _ Ht Hl) as (_ & _ & _ & Ht').
      pose proof (text_length _ _ _ _ Ht') as Hlen. destruct (IH (f <| f_pos := (f_pos f + length l + 2)%nat |>)) as (ts & rest' & E' & Hts); [cbn; lia | cbn; lia | done | by apply (runs_step _ _ Es) | done|].
      cbn in E'. rewrite (text_drop _ _ _ Ht') in E'. exists (l :: ts), rest'. split; [by rewrite E', lines_cons, <- !app_assoc|]. constructor; [by apply Hok | done].
    + exfalso. assert (z < 0); [|lia]. apply (fail_negative f g z f err_malformed); [done | done|]. unfold feed_step. by rewrite Hs, E.
  - exfalso. assert (z < 0); [|lia]. apply (fail_negative f g z f err_malformed); [done | done|]. unfold feed_step. by rewrite Hs, (trailer_line_bare _ _ _ _ Ht Ha Hla).
  - exfalso. assert (z < 0); [|lia]. apply (short_negative f g z); [done|]. unfold feed_step. by rewrite Hs, (trailer_line_part _ _ _ Ht Hls).
Qed.

(** ** Chunks *)

Lemma at_text i e s a b t : text buf i e s -> s = a ++ b :: t -> at_int buf (Z.of_nat (i + length a)) = Some b.
Proof.
  intros Ht ->. apply text_skip in Ht. destruct (text_cons _ _ _ _ _ Ht) as (E & _). unfold at_int. by rewrite (proj2 (Z.ltb_ge _ _)), Nat2Z.id by lia.
Qed.

(** A chunk's data and its CRLF. *)
Lemma data_round f data t :
  f_stage f = fr_chunk_data -> f_need f = Z.of_nat (f_pos f + length data) -> text buf (f_pos f) (length buf) (data ++ CRLF ++ t) ->
  feed_step f buf eof = goes_on (f <| f_pos := (f_pos f + length data + 2)%nat |> <| f_stage := fr_chunk_size |>).
Proof.
  intros Hs Hn Ht. pose proof (text_length _ _ _ _ Ht) as Hl. rewrite !length_app in Hl. change (length CRLF) with 2%nat in Hl. unfold fits in Hfit.
  unfold feed_step. rewrite Hs, Hn, (proj2 (Z.leb_gt _ _)) by lia. rewrite (i32_small (Z.of_nat _)) by lia. rewrite !i32_small by lia.
  rewrite (at_text _ _ _ data CR (LF :: t) Ht) by done. cbn [mbind option_bind].
  replace (Z.of_nat (f_pos f + length data) + 1) with (Z.of_nat (f_pos f + length (data ++ [CR]))) by (rewrite length_app; cbn; lia).
  rewrite (at_text _ _ _ (data ++ [CR]) LF t Ht) by (by rewrite <- app_assoc). cbn [mbind option_bind]. rewrite !(proj2 (beq_true _ _)) by done. cbn [negb orb].
  by replace (Z.to_nat (Z.of_nat (f_pos f + length data) + 2)) with (f_pos f + length data + 2)%nat by lia.
Qed.

Lemma size_round f ds ext t :
  f_stage f = fr_chunk_size -> text buf (f_pos f) (length buf) (ds ++ ext ++ CRLF ++ t) -> size_digits ds -> chunk_ext ext ->
  let d := (f_pos f + length ds + length ext + 2)%nat in text buf d (length buf) t /\
  feed_step f buf eof = goes_on (if hexval ds =? 0 then f <| f_pos := d |> <| f_stage := fr_trailers |>
    else f <| f_pos := d |> <| f_need := Z.of_nat d + hexval ds |> <| f_stage := fr_chunk_data |>).
Proof.
  intros Hs Ht Hds He d. split; [by apply text_skip, text_skip, text_skip in Ht|]. unfold feed_step. rewrite Hs, (chunk_size_line_complete _ _ _ _ _ Ht Hds He). cbn [mbind option_bind].
  by destruct (hexval ds =? 0).
Qed.

Lemma coded_complete data raw : coded_body data raw -> forall f rest,
  f_stage f = fr_chunk_size -> text buf (f_pos f) (length buf) (raw ++ rest) -> completes f (Z.of_nat (f_pos f + length raw)).
Proof.
  induction 1 as [ds ext ts Hds Hv He Hts|ds ext data more body Hds Hv Hne He Hb IH]; intros f rest Hs Ht; rewrite <- !app_assoc in Ht;
    destruct (size_round f _ _ _ Hs Ht Hds He) as (Ht1 & E); set (d := (f_pos f + length ds + length ext + 2)%nat) in *.
  - rewrite Hv in E. eapply completes_step; [exact E | done|].
    replace (f_pos f + length (ds ++ ext ++ CRLF ++ lines ts ++ CRLF))%nat with (d + length (lines ts) + 2)%nat by (subst d; rewrite !length_app; cbn; lia).
    set (f1 := f <| f_pos := d |> <| f_stage := fr_trailers |>). exact (trailers_complete ts Hts f1 rest eq_refl Ht1).
  - rewrite (proj2 (Z.eqb_neq (hexval ds) 0)) in E by (rewrite Hv; destruct data; [done | cbn; lia]). eapply completes_step; [exact E | done|]. set (f1 := f <| f_pos := d |> <| f_need := _ |> <| f_stage := _ |>).
    pose proof (data_round f1 data (body ++ rest) eq_refl ltac:(cbn -[Z.of_nat]; lia) Ht1) as E2. eapply completes_step; [exact E2 | done|]. change (f_pos f1) with d in *.
    replace (f_pos f + length (ds ++ ext ++ CRLF ++ data ++ CRLF ++ body))%nat with (d + length data + 2 + length body)%nat by (subst d; rewrite !length_app; cbn; lia).
    set (f2 := f1 <| f_pos := _ |> <| f_stage := _ |>). refine (IH f2 rest eq_refl _). by apply text_skip, (text_skip _ _ _ CRLF) in Ht1.
Qed.

Lemma coded_sound n f g z : (length buf - f_pos f < n)%nat -> (f_pos f <= length buf)%nat -> f_stage f = fr_chunk_size -> runs buf eof f g z -> 0 <= z ->
  exists data raw rest, drop (f_pos f) buf = raw ++ rest /\ coded_body data raw.
Proof.
  revert f. induction n as [|n IH]; intros f Hn Hp Hs Hr Hz; [lia|]. pose proof (text_suffix buf (f_pos f) _ eq_refl Hp) as Ht. destruct (chunk_size_line_sound _ _ _ Ht) as (r & E & Hcase).
  destruct r as [[d v]|c].
  2: { exfalso. assert (z < 0); [|lia]. destruct Hcase as [-> | ->]; [apply (short_negative f g z); [done|] | apply (fail_negative f g z f err_malformed); [done | done|]]; unfold feed_step; by rewrite Hs, E. }
  destruct Hcase as (ds & ext & t & Es & Hds & Hv & Hv0 & He & Ed). rewrite Es in Ht. destruct (size_round f ds ext t Hs Ht Hds He) as (Ht1 & Estep). rewrite <- Ed in *. apply (runs_step _ _ Estep) in Hr.
  pose proof (text_length _ _ _ _ Ht1) as Hl. destruct (Z.eqb_spec (hexval ds) 0) as [H0|H0].
  - set (f1 := f <| f_pos := d |> <| f_stage := fr_trailers |>) in Hr.
    destruct (trailers_sound (S (length buf)) f1 g z) as (ts & rest & Et & Hts); [cbn; lia | cbn; lia | done | done | done|]. cbn in Et. rewrite (text_drop _ _ _ Ht1) in Et.
    exists [], (ds ++ ext ++ CRLF ++ lines ts ++ CRLF), rest. split; [rewrite Es, Et; by rewrite <- !app_assoc | by constructor].
  - set (f1 := f <| f_pos := d |> <| f_need := _ |> <| f_stage := _ |>) in *. assert (Hi : inv f1 buf) by (split; cbn -[Z.of_nat]; [lia | lia | intros _; lia | done]).
    destruct (Z.leb_spec (Z.of_nat (length buf)) (f_need f1 + 1)) as [Hle|Hgt].
    { exfalso. assert (z < 0); [|lia]. apply (short_negative f1 g z); [done|]. unfold feed_step. change (f_stage f1) with fr_chunk_data. cbn match. by rewrite (proj2 (Z.leb_le _ _)). }
    destruct (data_end f1 buf Hfit Hi Hgt) as (I0 & I1 & I2 & a & b & Ea & Eb). change (f_need f1) with (Z.of_nat d + hexval ds) in *.
    destruct (negb (beq a CR) || negb (beq b LF)) eqn:Ecr.
    { exfalso. assert (z < 0); [|lia]. apply (fail_negative f1 g z f1 err_malformed); [done | done|]. unfold feed_step. change (f_stage f1) with fr_chunk_data. cbn match. change (f_need f1) with (Z.of_nat d + hexval ds).
      rewrite (proj2 (Z.leb_gt _ _)) by done. rewrite I0, I1, Ea. cbn [mbind option_bind]. rewrite Eb. cbn [mbind option_bind]. by rewrite Ecr. }
    apply orb_false_iff in Ecr as [Ea'%negb_false_iff%beq_true Eb'%negb_false_iff%beq_true]. subst a b.
    set (k := Z.to_nat (hexval ds)). assert (Et : exists t', t = take k t ++ CRLF ++ t' /\ length (take k t) = k).
    { assert (Hk : (k + 1 < length t)%nat) by (unfold k; lia). destruct Ht1 as [Ht1 Hb1]. unfold at_int in Ea, Eb. rewrite (proj2 (Z.ltb_ge _ _)) in Ea by lia. rewrite (proj2 (Z.ltb_ge _ _)) in Eb by lia.
      assert (L1 : t !! k = Some CR). { rewrite <- Ht1, lookup_take_lt, lookup_drop by (unfold k; lia). rewrite <- Ea. f_equal. unfold k. lia. }
      assert (L2 : t !! S k = Some LF). { rewrite <- Ht1, lookup_take_lt, lookup_drop by (unfold k; lia). rewrite <- Eb. f_equal. unfold k. lia. }
      exists (drop (S (S k)) t). split; [|rewrite length_take; lia]. rewrite <- (take_drop k t) at 1. f_equal. rewrite (drop_S t CR k), (drop_S t LF (S k)) by done. done. }
    destruct Et as (t' & Et & Hlk). rewrite Et in Ht1. set (data := take k t) in *. pose proof (text_length _ _ _ _ Ht1) as Hl1. rewrite !length_app in Hl1. change (length CRLF) with 2%nat in Hl1.
    pose proof (data_round f1 data t' eq_refl ltac:(cbn -[Z.of_nat]; unfold k in Hlk; lia) Ht1) as E2. apply (runs_step _ _ E2) in Hr.
    set (f2 := f1 <| f_pos := _ |> <| f_stage := _ |>) in Hr.
    destruct (IH f2) as (more & raw & rest & Er & Hraw); [cbn -[Z.of_nat]; lia | cbn -[Z.of_nat]; lia | done | done | done|].
    change (f_pos f2) with (d + length data + length CRLF)%nat in Er.
    apply text_skip, (text_skip _ _ _ CRLF), text_drop in Ht1. rewrite Ht1 in Er.
    exists (data ++ more), (ds ++ ext ++ CRLF ++ data ++ CRLF ++ raw), rest. split; [rewrite Es, Et, Er; by rewrite <- !app_assoc|].
    apply coded_next; [done | unfold k in Hlk; lia | intros Hd; rewrite Hd in Hlk; unfold k in Hlk; cbn in Hlk; lia | done | done].
Qed.
End Rounds.

(** ** Heads *)

(** The framer in front of a response that starts at [n]. *)
Definition fresh (head_request : bool) (n : nat) : Framer := at_line ((reset head_request) <| f_start := n |>) n.

Lemma fresh_reset head_request : fresh head_request 0 = reset head_request.
Proof. done. Qed.

Lemma line_effect_at f n l : line_effect (at_line f n) l = (fun g => at_line g n) <$> line_effect f l.
Proof.
  unfold line_effect, conn_effect. change (f_bodyless (at_line f n)) with (f_bodyless f). change (f_content_length (at_line f n)) with (f_content_length f).
  destruct (f_bodyless f); [by destruct (fvalue connection_lower l)|]. destruct (fvalue content_length_lower l) as [v|].
  - destruct (resp_length v); [|done]. cbn [mbind option_bind]. by destruct (_ && _).
  - destruct (fvalue transfer_encoding_lower l) as [v|]; [by destruct (final_chunked v) | by destruct (fvalue connection_lower l)].
Qed.

Lemma walk_frame f ls g : walk f ls = Some g -> f_stage g = f_stage f /\ f_need g = f_need f /\ f_start g = f_start f.
Proof.
  revert f. induction ls as [|l ls IH]; intros f; cbn [walk]; [by intros [= <-]|]. destruct (line_effect f l) as [h|] eqn:E; [|done]. cbn [mbind option_bind].
  intros (-> & -> & ->)%IH. by apply line_effect_frame in E.
Qed.

Lemma scanned_at f n buf : (n <= length buf)%nat -> scanned (at_line f n) buf.
Proof. intros Hn _. cbn. rewrite Nat.sub_diag. split; [lia | apply not_elem_of_nil]. Qed.

Section Heads.
Context (buf : list byte) (eof : bool).

Lemma fields_walk ls : Forall line_wf ls -> forall f n tail,
  f_stage f = fr_head -> (f_start f < n)%nat -> text buf n (length buf) (lines ls ++ tail) ->
  match walk f ls with
  | Some g => forall f' z, runs buf eof (at_line f n) f' z <-> runs buf eof (at_line g (n + length (lines ls))) f' z
  | None => exists f', runs buf eof (at_line f n) f' err_malformed
  end.
Proof.
  induction 1 as [|l ls [Hn Hl] _ IH]; intros f n tail Hs Hst Ht; cbn [walk].
  { intros f' z. cbn. by rewrite Nat.add_0_r. }
  rewrite lines_cons, <- !app_assoc in Ht. destruct (lf_line _ _ _ _ Ht Hl) as (_ & _ & _ & Ht'). pose proof Ht as [_ Hb].
  pose proof (head_line_at (at_line f n) buf eof Hs (scanned_at f n buf ltac:(lia)) l _ Ht Hl) as E.
  change (f_pos (at_line f n)) with n in E. change (f_start (at_line f n)) with (f_start f) in E. rewrite (proj2 (Nat.eqb_neq _ _)), bool_decide_eq_false_2, line_effect_at in E by (done || lia).
  destruct (line_effect f l) as [g|] eqn:Eg; cbn [fmap option_fmap option_map mbind option_bind] in *; [|eexists; by apply runs_returns].
  destruct (line_effect_frame _ _ _ Eg) as (F1 & _ & F3).
  specialize (IH g (n + length l + 2)%nat tail ltac:(congruence) ltac:(lia) Ht').
  rewrite lines_cons.
  replace (n + length (l ++ CRLF ++ lines ls))%nat with (n + length l + 2 + length (lines ls))%nat by (rewrite !length_app; cbn; lia).
  destruct (walk g ls) as [h|].
  - intros f' z. rewrite (runs_step buf eof _ _ E). apply IH.
  - destruct IH as [f' Hf']. exists f'. by apply (runs_step buf eof _ _ E).
Qed.

(** A whole head. *)
Definition read_head (head_request : bool) (start : nat) (h : msg_head) : option Framer :=
  st ← status_of (request_line h);
  walk (status_effect (fresh head_request start) (request_line h) st) (fields h).

Lemma head_runs head_request start h tail :
  head_wf h -> text buf start (length buf) (head_bytes h ++ tail) ->
  match read_head head_request start h with
  | Some g => forall f' z, runs buf eof (fresh head_request start) f' z <->
      runs buf eof (head_done (at_line g (start + length (head_bytes h) - 2)) (start + length (head_bytes h))) f' z
  | None => exists f', runs buf eof (fresh head_request start) f' err_malformed
  end.
Proof.
  intros [Hl Hls] Ht. rewrite length_head_bytes. unfold head_bytes in Ht. rewrite <- !app_assoc in Ht. destruct (lf_line _ _ _ _ Ht Hl) as (_ & _ & _ & Ht1). pose proof Ht as [_ Hb].
  pose proof (head_line_at (fresh head_request start) buf eof eq_refl (scanned_at _ start buf ltac:(lia)) _ _ Ht Hl) as E.
  change (f_pos (fresh head_request start)) with start in E. change (f_start (fresh head_request start)) with start in E. rewrite Nat.eqb_refl in E.
  unfold read_head. destruct (status_of (request_line h)) as [st|]; cbn [mbind option_bind]; [|eexists; by apply runs_returns].
  set (f1 := status_effect _ _ st) in *. set (n := (start + length (request_line h) + 2)%nat) in *. pose proof (fields_walk _ Hls f1 n (CRLF ++ tail) eq_refl ltac:(cbn; lia) Ht1) as Hw.
  destruct (walk f1 (fields h)) as [g|] eqn:Eg; [|destruct Hw as [f' Hf']; exists f'; by apply (runs_step buf eof _ _ E)].
  intros f' z. rewrite (runs_step buf eof _ _ E), Hw. destruct (walk_frame _ _ _ Eg) as (F1 & F2 & F3). apply text_skip in Ht1. set (p := (n + length (lines (fields h)))%nat) in *. pose proof Ht1 as [_ Hb1].
  pose proof (head_line_at (at_line g p) buf eof F1 (scanned_at g p buf ltac:(lia)) [] tail Ht1 (not_elem_of_nil _)) as E2. change (f_pos (at_line g p)) with p in E2.
  change (f_start (at_line g p)) with (f_start g) in E2. rewrite F3 in E2. change (f_start f1) with start in E2. rewrite (proj2 (Nat.eqb_neq p start)) in E2 by lia. rewrite bool_decide_eq_true_2 in E2 by done.
  rewrite (runs_step buf eof _ _ E2). by replace (start + (length (request_line h) + 2 + length (lines (fields h)) + 2))%nat with (p + 2)%nat by lia; replace (p + 2 - 2)%nat with p by lia.
Qed.

(** A text as whole lines and what does not go on as one. *)
Lemma lines_tail n s : (length s < n)%nat ->
  exists ls tail, s = lines ls ++ tail /\ Forall line_wf ls /\
    ((exists rest, tail = CRLF ++ rest) \/ (exists a rest, tail = a ++ LF :: rest /\ (LF ∉ a) /\ last a <> Some CR) \/ LF ∉ tail).
Proof.
  revert s. induction n as [|n IH]; intros s Hn; [lia|]. destruct (line_shape_total s) as [rest|l rest Hne Hl|a rest Ha Hla|s Hs].
  - exists [], (CRLF ++ rest). split; [done|]. split; [done|]. left. by exists rest.
  - destruct (IH rest) as (ls & tail & -> & Hls & Hcase); [rewrite !length_app in Hn; change (length CRLF) with 2%nat in Hn; lia|].
    exists (l :: ls), tail. split; [by rewrite lines_cons, <- !app_assoc|]. split; [by constructor | done].
  - exists [], (a ++ LF :: rest). split; [done|]. split; [done|]. right. left. by exists a, rest.
  - exists [], s. split; [done|]. split; [done|]. by do 2 right.
Qed.

(** Without a whole head there is no response. *)
Lemma head_or_none head_request start f' z :
  (start <= length buf)%nat -> runs buf eof (fresh head_request start) f' z -> (exists h tail, head_wf h /\ drop start buf = head_bytes h ++ tail) \/ z < 0.
Proof.
  intros Hb Hr. pose proof (text_suffix buf start _ eq_refl Hb) as Ht. set (f0 := fresh head_request start) in *. pose proof (scanned_at ((reset head_request) <| f_start := start |>) start buf Hb) as Hsc.
  assert (Hneg : forall f g, feed_step f buf eof = returns (fail g err_malformed) \/ (exists k, feed_step f buf eof = returns (short (rescan f k) eof)) -> runs buf eof f f' z -> z < 0).
  { intros f g [E|[k E]] H; [by apply (fail_negative buf eof f f' z g err_malformed)|]. inversion H as [? ? ? E'|? ? ? ? E']; subst; rewrite E in E'; unfold short in E'; destruct eof; by inversion E'. }
  destruct (line_cases (drop start buf)) as [(l & rest & El & Hl)|[(a & rest & Ea & Ha & Hla)|Hpart]].
  - rewrite El in Ht. pose proof (head_line_at f0 buf eof eq_refl Hsc l rest Ht Hl) as E. change (f_pos f0) with start in E. change (f_start f0) with start in E. rewrite Nat.eqb_refl in E.
    destruct (status_of l) as [st|]; [|right; by apply (Hneg f0 (f0 <| f_status := -1 |>)); [left|]]. apply (runs_step buf eof _ _ E) in Hr. destruct (lf_line _ _ _ _ Ht Hl) as (_ & _ & _ & Ht1).
    destruct (lines_tail (S (length rest)) rest) as (ls & tail & -> & Hls & Hcase); [lia|]. set (f1 := status_effect f0 l st) in *.
    pose proof (fields_walk ls Hls f1 (start + length l + 2) tail eq_refl ltac:(cbn; lia) Ht1) as Hw. destruct (walk f1 ls) as [g|] eqn:Eg.
    + apply Hw in Hr. apply text_skip in Ht1. set (p := (start + length l + 2 + length (lines ls))%nat) in *. destruct (walk_frame _ _ _ Eg) as (F1 & _ & _). pose proof Ht1 as [_ Hb1].
      assert (Hsc1 : scanned (at_line g p) buf) by (apply scanned_at; lia).
      destruct Hcase as [[rest ->]|[(a & rest & -> & Ha & Hla)|Hpart]].
      * left. exists (mkMsgHead l ls), rest. split; [done|]. rewrite El. unfold head_bytes. cbn [request_line fields]. by rewrite <- !app_assoc.
      * right. apply (Hneg (at_line g p) (at_line g p)); [|done]. left. by apply (head_bare_at (at_line g p) buf eof F1 Hsc1 a rest Ht1).
      * right. apply (Hneg (at_line g p) (at_line g p)); [|done]. right. exists (length buf). by apply (head_part_at (at_line g p) buf eof F1 Hsc1 tail Ht1).
    + right. destruct Hw as [g Hg]. by destruct (runs_det _ _ _ _ _ _ _ Hg Hr) as [_ ->].
  - rewrite Ea in Ht. right. apply (Hneg f0 f0); [|done]. left. by apply (head_bare_at f0 buf eof eq_refl Hsc a rest Ht).
  - right. apply (Hneg f0 f0); [|done]. right. exists (length buf). by apply (head_part_at f0 buf eof eq_refl Hsc _ Ht).
Qed.
End Heads.

(** ** What a head decides *)

Lemma read_interim head_request start h :
  is_interim h = true -> exists g, read_head head_request start h = Some g /\ forall p e, head_done (at_line g p) e = fresh head_request e.
Proof.
  unfold is_interim, read_head. destruct (status_of (request_line h)) as [st|] eqn:Es; [|done]. intros Hi. cbn [mbind option_bind].
  rewrite walk_bodyless by (cbn; unfold bodyless_status; apply andb_prop in Hi as [-> _]; by rewrite orb_true_r). eexists. split; [done|]. intros p e. unfold head_done.
  set (g := at_line _ p). change (f_status g) with st. by rewrite Hi.
Qed.

(** The framer behind the head of a final response. *)
Definition settles (h : msg_head) (fr : resp_framing) (start e : nat) (b : Framer) : Prop :=
  f_pos b = e /\ (exists st, status_of (request_line h) = Some st /\
    outs b = (start, (e - start)%nat, st, persistent h fr, bool_decide (fr = RChunked), bool_decide (fr = RNone), false)) /\
  match fr with
  | RNone => f_stage b = fr_done /\ f_end b = Z.of_nat e
  | RFixed n => f_stage b = fr_body_len /\ f_need b = Z.of_nat e + n /\ 0 <= n
  | RChunked => f_stage b = fr_chunk_size
  | RUntilClose => f_stage b = fr_until_close
  end.

Lemma status_test st k : bool_decide (Some st = Some k) = (st =? k).
Proof. apply eq_true_iff_eq. rewrite bool_decide_eq_true, Z.eqb_eq. split; congruence. Qed.

Lemma reusable_spec f :
  reusable f = negb (f_status f =? 101) && negb (f_te f && ((0 <=? f_content_length f) || f_http10 f)) && (negb (f_http10 f) || f_conn_ka f) && negb (f_conn_close f).
Proof. unfold reusable. by destruct (f_status f =? 101), (f_te f), (0 <=? f_content_length f), (f_http10 f), (f_conn_ka f), (f_conn_close f). Qed.

Lemma lengths_present ls n : lengths_of ls = Some n -> (0 <=? default (-1) n) = negb (bool_decide (values content_length_lower ls = [])) /\ forall k, n = Some k -> 0 <= k.
Proof.
  unfold lengths_of. destruct (values content_length_lower ls) as [|v vs]; [by intros [= <-]|]. destruct (resp_length v) as [k|] eqn:Ek; [|done]. cbn [mbind option_bind].
  destruct (forallb _ vs); [|done]. intros [= <-]. rewrite bool_decide_eq_false_2 by done. apply resp_length_range in Ek. split; [apply Z.leb_le; cbn; lia | intros ? [= <-]; lia].
Qed.

Lemma read_final head_request start h :
  is_interim h = false ->
  match response_framing head_request h, read_head head_request start h with
  | Some fr, Some g => forall p e, settles h fr start e (head_done (at_line g p) e)
  | None, None => True
  | _, _ => False
  end.
Proof.
  unfold is_interim, response_framing, read_head. destruct (status_of (request_line h)) as [st|] eqn:Es; cbn [mbind option_bind]; [|done]. intros Hi. set (f0 := status_effect (fresh head_request start) (request_line h) st).
  assert (Hb : f_bodyless f0 = head_request || bodyless_status st) by done. unfold settles, persistent, has_option. rewrite Es, status_test. fold (has_conn keep_alive_option (fields h)) (has_conn close_option (fields h)).
  destruct (head_request || bodyless_status st) eqn:Ebl.
  { rewrite (walk_bodyless f0 _ Hb). intros p e. unfold head_done. set (f1 := at_line _ p). change (f_status f1) with st. rewrite Hi.
    change (f_bodyless (f1 <| f_head_len := _ |> <| f_pos := e |> <| f_keep_alive := _ |>)) with (f_bodyless f0). rewrite Hb.
    split; [done|]. split; [|done]. exists st. split; [done|]. change (outs _) with (start, (e - start)%nat, st, reusable f1, false, f_bodyless f0, false). rewrite Hb, reusable_spec. done. }
  rewrite (walk_body f0 _ Hb). destruct (forallb final_chunked _); cbn [negb]; [|done]. rewrite acc_length_spec.
  destruct (lengths_of (fields h)) as [n|] eqn:En; cbn [mbind option_bind]; [|done]. apply lengths_present in En as [Hcl Hn]. intros p e. set (f1 := at_line _ p). unfold head_done. change (f_status f1) with st. rewrite Hi.
  change (f_bodyless (f1 <| f_head_len := _ |> <| f_pos := e |> <| f_keep_alive := _ |>)) with (f_bodyless f0). rewrite Hb.
  change (f_te (f1 <| f_head_len := _ |> <| f_pos := e |> <| f_keep_alive := _ |>)) with (negb (bool_decide (values transfer_encoding_lower (fields h) = []))).
  change (f_content_length (f1 <| f_head_len := _ |> <| f_pos := e |> <| f_keep_alive := _ |>)) with (default (-1) n).
  pose proof (reusable_spec f1) as Hre. change (f_te f1) with (negb (bool_decide (values transfer_encoding_lower (fields h) = []))) in Hre. change (f_content_length f1) with (default (-1) n) in Hre.
  rewrite Hcl in Hre |- *. destruct (bool_decide_reflect (values transfer_encoding_lower (fields h) = [])) as [Hte|Hte]; cbn [negb andb orb] in Hre |- *.
  - destruct n as [n|].
    + specialize (Hn n eq_refl). change (default (-1) (Some n)) with n in *. rewrite (proj2 (Z.leb_le 0 n) Hn) in Hcl. rewrite <- Hcl. split; [done|]. split; [|done]. exists st. split; [done|].
      change (outs _) with (start, (e - start)%nat, st, reusable f1, false, f_bodyless f0, false). by rewrite Hre, Hb.
    + change (0 <=? default (-1) None) with false in Hcl. rewrite <- Hcl. split; [done|]. split; [|done]. exists st. split; [done|].
      change (outs _) with (start, (e - start)%nat, st, false, false, f_bodyless f0, false). by rewrite Hb.
  - split; [done|]. split; [|done]. exists st. split; [done|].
    change (outs _) with (start, (e - start)%nat, st, reusable f1, true, f_bodyless f0, false). by rewrite Hre, Hb.
Qed.

(** ** Bodies *)

Section Bodies.
Context (buf : list byte) (eof : bool) (Hfit : fits buf).

Lemma body_complete h fr start e b data raw rest :
  settles h fr start e b -> body_framed fr eof data raw rest -> text buf e (length buf) (raw ++ rest) -> completes buf eof b (Z.of_nat (e + length raw)).
Proof.
  intros (Hp & _ & Hs) Hb Ht. pose proof (text_length _ _ _ _ Ht) as Hl. rewrite length_app in Hl. unfold fits in Hfit. destruct fr as [|n| |]; cbn [body_framed] in Hb.
  - destruct Hb as [-> _], Hs as [Hs He]. cbn [length]. rewrite Nat.add_0_r, <- He. by apply completes_done.
  - destruct Hb as [Hn _], Hs as (Hs & Hneed & _). assert (E : i32 (f_need b) = Z.of_nat (e + length raw)) by (rewrite Hneed, i32_small; lia).
    eapply completes_step; [unfold feed_step; rewrite Hs, E, (proj2 (Z.ltb_ge _ _)) by lia; reflexivity | done|]. by apply completes_done.
  - rewrite <- Hp in Ht |- *. by apply (coded_complete buf eof Hfit data raw Hb b rest).
  - destruct Hb as (He & -> & _). cbn in Hl. eapply completes_step; [unfold feed_step; rewrite Hs, He; reflexivity | done|]. replace (e + length raw)%nat with (length buf) by lia. by apply completes_done.
Qed.

Lemma body_sound h fr start e b f' z :
  (e <= length buf)%nat -> settles h fr start e b -> runs buf eof b f' z -> 0 <= z -> exists data raw rest, drop e buf = raw ++ rest /\ body_framed fr eof data raw rest.
Proof.
  intros He (Hp & _ & Hs) Hr Hz. destruct fr as [|n| |]; cbn [body_framed].
  - exists [], [], (drop e buf). done.
  - destruct Hs as (Hs & Hneed & Hn). destruct (Z.ltb_spec (Z.of_nat (length buf)) (f_need b)) as [Hlt|Hge].
    { exfalso. assert (z < 0); [|lia]. apply (short_negative buf eof b f' z Hr). unfold feed_step. rewrite Hs. by rewrite (proj2 (Z.ltb_lt _ _)). }
    exists (take (Z.to_nat n) (drop e buf)), (take (Z.to_nat n) (drop e buf)), (drop (Z.to_nat n) (drop e buf)). split; [by rewrite take_drop|]. split; [|done]. rewrite length_take, length_drop. lia.
  - rewrite <- Hp. apply (coded_sound buf eof Hfit (S (length buf)) b f' z); [lia | lia | done | done | done].
  - destruct eof eqn:Ee; [exists (drop e buf), (drop e buf), []; by rewrite app_nil_r|]. exfalso. inversion Hr as [? ? ? E|? ? ? ? E]; subst; unfold feed_step in E; rewrite Hs in E; by inversion E; subst.
Qed.

(** ** The answers *)

Definition answer (z : Z) : Prop :=
  (z = incomplete /\ eof = false) \/ z = err_malformed \/ (z = err_truncated /\ eof = true) \/ 0 <= z.

Definition end_known (f : Framer) : Prop := f_stage f <> fr_failed /\ (f_stage f = fr_done -> 0 <= f_end f).

Lemma fail_answer g : answer (fail g err_malformed).2.
Proof. right. by left. Qed.

Lemma short_answer g : answer (short g eof).2.
Proof. unfold answer, short. destruct eof; [right; right; by left | by left]. Qed.

Lemma head_done_known g b : f_stage g = fr_head -> end_known (head_done g b).
Proof.
  intros Hs. unfold head_done. destruct (_ && _); [by split; cbn; rewrite Hs|]. destruct g. cbn -[Z.of_nat] in *. repeat case_match; cbn -[Z.of_nat]; split; try done; intros _; cbn -[Z.of_nat]; lia.
Qed.

Lemma step_answers f f' r : inv f buf -> end_known f -> feed_step f buf eof = Some (f', r) -> match r with Some z => answer z | None => end_known f' end.
Proof.
  intros Hi [Hk1 Hk2] E. pose proof Hi as [Hp Hn _ Hsc]. pose proof (text_suffix buf (f_pos f) _ eq_refl Hp) as Ht. destruct (f_stage f) eqn:Hs.
  - destruct (line_cases (drop (f_pos f) buf)) as [(l & rest & El & Hl)|[(a & rest & Ea & Ha & Hla)|Hpart]].
    + rewrite El in Ht. rewrite (head_line_at f buf eof Hs Hsc l rest Ht Hl) in E. destruct (_ =? _)%nat.
      { destruct (status_of l); injection E as <- <-; [split; cbn; by rewrite Hs | apply (fail_answer f)]. }
      destruct (bool_decide (l = [])); [injection E as <- <-; by apply head_done_known|].
      destruct (line_effect f l) as [g|] eqn:Eg; injection E as <- <-; [destruct (line_effect_frame _ _ _ Eg) as (F & _); split; cbn; by rewrite F, Hs | apply (fail_answer f)].
    + rewrite Ea in Ht. rewrite (head_bare_at f buf eof Hs Hsc a rest Ht Ha Hla) in E. injection E as <- <-. apply (fail_answer f).
    + rewrite (head_part_at f buf eof Hs Hsc _ Ht Hpart) in E. injection E as <- <-. apply short_answer.
  - unfold feed_step in E. rewrite Hs in E. destruct (Z.ltb_spec (Z.of_nat (length buf)) (f_need f)); injection E as <- <-; [apply short_answer|]. split; [done|]. intros _. cbn. unfold fits in Hfit. rewrite i32_small; lia.
  - unfold feed_step in E. rewrite Hs in E. destruct (chunk_size_line_sound _ _ _ Ht) as (c & Ec & Hc). rewrite Ec in E. cbn [mbind option_bind] in E. destruct c as [[d v]|c].
    + destruct (v =? 0); injection E as <- <-; by split.
    + destruct Hc as [-> | ->]; injection E as <- <-; [apply short_answer | apply (fail_answer f)].
  - unfold feed_step in E. rewrite Hs in E. destruct (_ <=? _); [injection E as <- <-; apply short_answer|]. destruct (at_int buf (i32 (f_need f))); [|done]. cbn [mbind option_bind] in E.
    destruct (at_int buf _); [|done]. cbn [mbind option_bind] in E. destruct (_ || _); injection E as <- <-; [apply (fail_answer f) | by split].
  - unfold feed_step in E. rewrite Hs in E. destruct (trailer_line buf (f_pos f)) as [c|] eqn:Ec; [|done]. cbn [mbind option_bind] in E. destruct c as [[d v]|c].
    + injection E as <- <-. destruct v; split; cbn; rewrite ?Hs; try done; intros _; lia.
    + assert (Hc : c = incomplete \/ c = err_malformed).
      { destruct (line_shape_total (drop (f_pos f) buf)) as [rest|l rest Hne Hl|a rest Ha Hla|s Hls]; [rewrite (trailer_line_blank _ _ _ Ht) in Ec|
          destruct (trailer_line_line _ _ _ _ Ht Hne Hl) as (ok & _ & E'); rewrite E' in Ec; destruct ok|rewrite (trailer_line_bare _ _ _ _ Ht Ha Hla) in Ec|rewrite (trailer_line_part _ _ _ Ht Hls) in Ec]; simplify_eq; auto. }
      destruct Hc as [-> | ->]; injection E as <- <-; [apply short_answer | apply (fail_answer f)].
  - unfold feed_step in E. rewrite Hs in E. destruct eof eqn:Ee; injection E as <- <-; [split; [done|]; intros _; cbn; lia | by left].
  - unfold feed_step in E. rewrite Hs in E. injection E as <- <-. do 3 right. by apply Hk2.
  - done.
Qed.

Lemma runs_answer f f' z : runs buf eof f f' z -> inv f buf -> end_known f -> answer z.
Proof.
  induction 1 as [f f' z E|f g f' z E _ IH]; intros Hi Hk; [exact (step_answers f f' (Some z) Hi Hk E)|].
  destruct (feed_step_ok f buf eof Hfit Hi) as (g' & r & E' & Hg & _). rewrite E in E'. simplify_eq. apply IH; [done|]. exact (step_answers f g' None Hi Hk E).
Qed.
End Bodies.

(** ** Whole responses *)

Lemma head_bytes_pos h : (4 <= length (head_bytes h))%nat.
Proof. rewrite length_head_bytes. lia. Qed.

Lemma interims_run head_request buf eof pre : Forall (fun i => head_wf i /\ is_interim i = true) pre -> forall start tail,
  text buf start (length buf) (concat (head_bytes <$> pre) ++ tail) ->
  forall f' z, runs buf eof (fresh head_request start) f' z <-> runs buf eof (fresh head_request (start + length (concat (head_bytes <$> pre)))) f' z.
Proof.
  induction 1 as [|i pre [Hwf Hi] _ IH]; intros start tail Ht f' z; cbn [fmap list_fmap concat] in *; [by rewrite Nat.add_0_r|].
  rewrite <- app_assoc in Ht. pose proof (head_runs buf eof head_request start i _ Hwf Ht) as H. destruct (read_interim head_request start i Hi) as (g & Eg & Hd). rewrite Eg in H.
  rewrite H, Hd. apply text_skip in Ht. rewrite (IH _ tail Ht), length_app. by rewrite Nat.add_assoc.
Qed.

Lemma holds_run head_request buf eof pre h fr data raw rest :
  fits buf -> holds head_request eof buf pre h fr data raw rest ->
  let start := length (concat (head_bytes <$> pre)) in let e := (start + length (head_bytes h))%nat in
  exists b f', settles h fr start e b /\ outs f' = outs b /\ f_stage f' = fr_done /\ f_end f' = Z.of_nat (e + length raw) /\ runs buf eof (reset head_request) f' (Z.of_nat (e + length raw)).
Proof.
  intros Hfit [Eb Hpre Hwf Hfin Hfr Hb] start e. pose proof (text_whole buf) as Ht. rewrite Eb in Ht at 3. pose proof (interims_run head_request buf eof pre Hpre 0 _ Ht) as H1.
  apply text_skip in Ht. pose proof (head_runs buf eof head_request _ h _ Hwf Ht) as H2. apply text_skip in Ht. cbn [Nat.add] in *. fold start in H1, H2, Ht. fold e in H2, Ht.
  pose proof (read_final head_request start h Hfin) as Hrd. rewrite Hfr in Hrd. destruct (read_head head_request start h) as [g|]; [|done]. specialize (Hrd (e - 2)%nat e).
  destruct (body_complete buf eof Hfit h fr start e _ data raw rest Hrd Hb Ht) as (f' & Hr & Hs & He & Ho). eexists _, f'. split; [exact Hrd|]. split; [done|]. split; [done|]. split; [done|].
  rewrite <- fresh_reset. by apply H1, H2.
Qed.

Lemma run_holds head_request buf eof n : fits buf -> forall start f' z, (length buf - start < n)%nat -> (start <= length buf)%nat ->
  runs buf eof (fresh head_request start) f' z -> 0 <= z ->
  exists pre h fr data raw rest, drop start buf = concat (head_bytes <$> pre) ++ head_bytes h ++ raw ++ rest /\
    Forall (fun i => head_wf i /\ is_interim i = true) pre /\ head_wf h /\ is_interim h = false /\ response_framing head_request h = Some fr /\ body_framed fr eof data raw rest.
Proof.
  intros Hfit. induction n as [|n IH]; intros start f' z Hn Hst Hr Hz; [lia|].
  destruct (head_or_none buf eof head_request start f' z Hst Hr) as [(h & tail & Hwf & Ed)|Hno]; [|lia].
  pose proof (text_suffix buf start _ Ed Hst) as Ht. pose proof (head_runs buf eof head_request start h tail Hwf Ht) as H. pose proof (head_bytes_pos h) as H4.
  pose proof (text_length _ _ _ _ Ht) as Hl. rewrite length_app in Hl. apply text_skip in Ht. destruct (is_interim h) eqn:Hi.
  - destruct (read_interim head_request start h Hi) as (g & Eg & Hd). rewrite Eg in H. apply H in Hr. rewrite Hd in Hr.
    destruct (IH (start + length (head_bytes h))%nat f' z ltac:(lia) ltac:(lia) Hr Hz) as (pre & h' & fr & data & raw & rest & E & Hpre & Hrest). rewrite (text_drop _ _ _ Ht) in E.
    exists (h :: pre), h', fr, data, raw, rest. split; [rewrite Ed, E; cbn; by rewrite <- app_assoc|]. split; [by constructor | done].
  - pose proof (read_final head_request start h Hi) as Hrd. destruct (response_framing head_request h) as [fr|] eqn:Efr, (read_head head_request start h) as [g|]; try done.
    + apply H in Hr. destruct (body_sound buf eof Hfit h fr start (start + length (head_bytes h)) _ f' z ltac:(lia) (Hrd _ _) Hr Hz) as (data & raw & rest & E & Hb). rewrite (text_drop _ _ _ Ht) in E.
      exists [], h, fr, data, raw, rest. split; [by rewrite Ed, E | done].
    + exfalso. destruct H as [g Hg]. destruct (runs_det _ _ _ _ _ _ _ Hg Hr) as [_ ->]. by vm_compute in Hz.
Qed.

(** C14: The response framer follows RFC 9112, for any bytes and for a request that was
    HEAD or not. It always answers: wait, malformed, truncated, or where a response ends.
    It finds a response exactly when the bytes hold one: interim responses in front, each
    skipped; a head whose lines all end in CRLF; and a body by status and method, by one
    Content-Length however often repeated, in chunks (which win over a length), or up to
    the close. Then the response starts, its head ends, its status is, and the connection
    may be used again as the format says: never behind 101, a body up to the close, both
    framings at once or chunks in HTTP/1.0, and else by version and Connection options. *)
Theorem response_framer_refines_rfc9112 head_request buf eof :
  fits buf ->
  exists f r, feed (reset head_request) buf eof = Some (f, r) /\
    ((r = incomplete /\ eof = false) \/ r = err_malformed \/ (r = err_truncated /\ eof = true) \/ 0 <= r) /\
    (0 <= r -> exists pre h fr data raw rest, holds head_request eof buf pre h fr data raw rest) /\
    (forall pre h fr data raw rest, holds head_request eof buf pre h fr data raw rest ->
       r = Z.of_nat (length buf - length rest) /\ f_start f = length (concat (head_bytes <$> pre)) /\ f_head_len f = length (head_bytes h) /\
       status_of (request_line h) = Some (f_status f) /\ f_keep_alive f = persistent h fr /\ framer_is_chunked f = bool_decide (fr = RChunked)).
Proof.
  intros Hfit. destruct (feed_total (reset head_request) buf eof Hfit (reset_inv head_request buf)) as (f & r & E & Hr). exists f, r. split; [done|]. split; [|split].
  - apply (runs_answer buf eof Hfit (reset head_request) f r Hr); [apply reset_inv | by split].
  - intros Hz. rewrite <- fresh_reset in Hr.
    destruct (run_holds head_request buf eof (S (length buf)) Hfit 0 f r ltac:(lia) ltac:(lia) Hr Hz) as (pre & h & fr & data & raw & rest & Eb & H1 & H2 & H3 & H4 & H5). rewrite drop_0 in Eb.
    exists pre, h, fr, data, raw, rest. by split.
  - intros pre h fr data raw rest Hh. destruct (holds_run head_request buf eof pre h fr data raw rest Hfit Hh) as (b & f' & (_ & (st & Hst & Hob) & _) & Ho & _ & _ & Hr').
    destruct (runs_det _ _ _ _ _ _ _ Hr' Hr) as [-> ->]. rewrite Hob in Ho. unfold outs in Ho. injection Ho as Ho1 Ho2 Ho3 Ho4 Ho5 Ho6 _.
    destruct Hh as [-> _ _ _ _ _]. rewrite !length_app, Ho1, Ho2, Ho3, Ho4. unfold framer_is_chunked. rewrite Ho5, Ho6.
    repeat split; try done; [f_equal; lia | lia | by destruct fr].
Qed.

Lemma response_framer_refines_rfc9112_witness :
  exists f r, feed (reset false) response_example false = Some (f, r) /\
    ((r = incomplete /\ false = false) \/ r = err_malformed \/ (r = err_truncated /\ false = true) \/ 0 <= r) /\
    (0 <= r -> exists pre h fr data raw rest, holds false false response_example pre h fr data raw rest) /\
    (forall pre h fr data raw rest, holds false false response_example pre h fr data raw rest ->
       r = Z.of_nat (length response_example - length rest) /\ f_start f = length (concat (head_bytes <$> pre)) /\ f_head_len f = length (head_bytes h) /\
       status_of (request_line h) = Some (f_status f) /\ f_keep_alive f = persistent h fr /\ framer_is_chunked f = bool_decide (fr = RChunked)).
Proof. apply (response_framer_refines_rfc9112 false response_example false). by vm_compute. Defined.
