(* ===== verification/ClientBody.v ===== *)
(** What the client reads of a framed response: header lookups, the body decoded in place
    ([Framer.body_in_place]) or appended to a buffer ([append_body]), of
    http1_1/client/framer.v and http1_1/client/client.v. *)
From S2P Require Import Prelude WireBytes HttpScan HttpField HttpChunk HttpFrame ClientCodec ClientFramer ClientResponse.
Local Open Scope Z_scope.

(** ** Decoding in place *)

Lemma size_digits_small ds : size_digits ds -> 0 <= hexval ds -> i32 (hexval ds) = hexval ds.
Proof. intros (_ & _ & Hc) H0. apply i32_small. unfold size_cap in Hc. lia. Qed.

(** [n] bytes moved down to [w]. *)
Lemma memmove_spec buf w d e data :
  text buf d e data -> (w <= d)%nat ->
  exists buf', memmove buf w d (length data) = Some buf' /\ length buf' = length buf /\ take (w + length data) buf' = take w buf ++ data /\
    forall k, (d + length data <= k)%nat -> drop k buf' = drop k buf.
Proof.
  intros Ht Hw. pose proof (text_length _ _ _ _ Ht) as Hl. pose proof Ht as [_ Hb]. unfold memmove. rewrite (text_view_whole _ _ _ _ Ht). cbn [mbind option_bind]. rewrite decide_True by lia.
  assert (Hlw : length (take w buf) = w) by (rewrite length_take; lia). eexists. split; [done|]. split; [rewrite !length_app, length_drop; lia|]. split.
  - rewrite app_assoc, take_app_le by (rewrite length_app; lia). apply take_ge. rewrite length_app. lia.
  - intros k Hk. rewrite app_assoc, drop_app_ge by (rewrite length_app; lia). rewrite drop_drop, length_app. f_equal. lia.
Qed.

Lemma dechunk_spec data raw : coded_body data raw -> forall fuel buf w pos rest,
  text buf pos (length buf) (raw ++ rest) -> (w <= pos)%nat -> (length raw < fuel)%nat ->
  exists buf', dechunk_loop fuel buf w pos = Some (buf', (w + length data)%nat) /\ length buf' = length buf /\
    take (w + length data) buf' = take w buf ++ data /\ drop (pos + length raw) buf' = rest.
Proof.
  induction 1 as [ds ext ts Hds Hv He Hts|ds ext data more body Hds Hv Hne He Hb IH]; intros fuel buf w pos rest Ht Hw Hf; (destruct fuel as [|fuel]; [lia|]); cbn [dechunk_loop].
  - exists buf. pose proof Ht as Ht'. rewrite <- !app_assoc in Ht. rewrite (chunk_size_line_complete _ _ _ _ _ Ht Hds He), Hv. cbn [mbind option_bind length]. rewrite Z.eqb_refl, Nat.add_0_r, app_nil_r.
    split; [done|]. split; [done|]. split; [done|]. apply text_skip in Ht'. by apply text_drop in Ht'.
  - rewrite <- !app_assoc in Ht. rewrite (chunk_size_line_complete _ _ _ _ _ Ht Hds He). cbn [mbind option_bind]. assert (Hd0 : (0 < length data)%nat) by (by destruct data; [|cbn; lia]).
    rewrite (proj2 (Z.eqb_neq (hexval ds) 0)) by lia. rewrite size_digits_small by (done || lia). rewrite Hv, Nat2Z.id. set (d := (pos + length ds + length ext + 2)%nat).
    apply text_skip, text_skip, (text_skip _ _ _ CRLF) in Ht. change (length CRLF) with 2%nat in Ht. fold d in Ht. rewrite (proj2 (Nat.eqb_neq w d)) by lia.
    destruct (memmove_spec buf w d _ data (text_prefix _ _ _ _ _ Ht) ltac:(lia)) as (buf1 & -> & Hl1 & Ht1 & Hd1). cbn [mbind option_bind].
    apply text_skip, (text_skip _ _ _ CRLF) in Ht. change (length CRLF) with 2%nat in Ht. pose proof Ht as [_ Hb2]. apply text_drop in Ht. rewrite <- Hd1 in Ht by lia.
    rewrite !length_app in Hf |- *. change (length CRLF) with 2%nat in Hf |- *.
    destruct (IH fuel buf1 (w + length data)%nat (d + length data + 2)%nat rest) as (buf2 & E2 & Hl2 & Ht2 & Hd2); [apply text_suffix; [done | lia] | lia | lia|].
    exists buf2. rewrite E2, Ht1 in *. replace (w + (length data + length more))%nat with (w + length data + length more)%nat by lia. split; [done|]. split; [lia|].
    split; [by rewrite Ht2, <- app_assoc|]. rewrite <- Hd2. f_equal. unfold d. rewrite ?length_app. change (length CRLF) with 2%nat. lia.
Qed.

(** ** Appending *)

Lemma decode_size_loop_spec n buf j e s acc :
  text buf j e s -> n = (e - j)%nat -> 0 <= acc -> let ds := take_while hexit s in
  hexfold acc ds <= size_cap -> decode_size_loop n buf j acc = Some (Some (hexfold acc ds, (j + length ds)%nat)).
Proof.
  revert j s acc. induction n as [|n IH]; intros j s acc Ht Hn Ha ds Hc; pose proof (text_length _ _ _ _ Ht) as Hl; subst ds.
  - destruct s; [|cbn in Hl; lia]. cbn. do 3 f_equal. lia.
  - destruct s as [|c s]; [cbn in Hl; lia|]. destruct (text_cons _ _ _ _ _ Ht) as (E1 & Ht' & _). cbn [decode_size_loop]. run E1. change (hex_digit c) with (HttpChunk.hex_digit c).
    cbn [take_while] in *. pose proof (hex_digit_range c) as Hr. assert (Eh : hexit c = negb (HttpChunk.hex_digit c <? 0)) by (unfold hexit; lia). rewrite Eh in *.
    destruct (Z.ltb_spec (HttpChunk.hex_digit c) 0); cbn [negb] in *; [cbn; do 3 f_equal; lia|]. cbn [hexfold foldl length] in *.
    fold (hexfold (acc * 16 + HttpChunk.hex_digit c) (take_while hexit s)) in *.
    pose proof (hexfold_mono (take_while hexit s) (acc * 16 + HttpChunk.hex_digit c) (take_while_all _ _) ltac:(lia)) as Hm.
    rewrite (proj2 (Z.ltb_ge _ _)) by lia. rewrite (IH (S j) s _ Ht') by lia. do 3 f_equal. lia.
Qed.

Lemma decode_size_line_spec buf pos total ds ext t :
  text buf pos total (ds ++ ext ++ CRLF ++ t) -> size_digits ds -> chunk_ext ext ->
  decode_size_line buf pos total = Some (Some (hexval ds, (pos + length ds + length ext + 2)%nat)).
Proof.
  intros Ht ([Hn Hds]%hexits_iff & _ & Hv) He. unfold decode_size_line.
  assert (Hst : stops hexit (ext ++ CRLF ++ t)) by (destruct ext as [|c ext]; [done|]; cbn; apply not_hexit; right; by apply chunk_ext_first in He).
  destruct (take_while_unique hexit ds _ Hds Hst) as [Etw _].
  rewrite (decode_size_loop_spec _ _ _ _ _ 0 Ht eq_refl) by (try lia; by rewrite Etw). rewrite Etw. cbn [mbind option_bind].
  pose proof (text_length _ _ _ _ Ht) as Hl. rewrite !length_app in Hl. change (length CRLF) with 2%nat in Hl. assert (0 < length ds)%nat by (by destruct ds; [|cbn; lia]).
  rewrite (proj2 (Nat.eqb_neq _ _)), (proj2 (Nat.leb_gt _ _)) by lia. cbn [orb]. apply text_skip in Ht.
  assert (Hc : exists c, buf !! (pos + length ds)%nat = Some c /\ (c = CR \/ beq c SEMI || ows c = true)).
  { destruct ext as [|c ext]; [destruct (text_cons _ _ _ _ _ Ht) as (E & _); exists CR; auto|]. destruct (text_cons _ _ _ _ _ Ht) as (E & _). exists c. split; [done|]. right. by apply chunk_ext_first in He. }
  destruct Hc as (c & Ec & Hc). run Ec. assert (Eg : negb (beq c CR) && negb (beq c SEMI) && negb (beq c SP) && negb (beq c HTAB) = false).
  { destruct Hc as [-> | Hc]; [done|]. unfold ows in Hc. by destruct (beq c CR), (beq c SEMI), (beq c SP), (beq c HTAB). }
  rewrite Eg. destruct (chunk_ext_no_crlf ext He) as [Hcr _].
  assert (Hall : Forall (fun b => negb (beq b CR) = true) ext) by (apply Forall_forall; intros b Hin; apply negb_true_iff, beq_false; by intros ->).
  destruct (text_scan (fun b => negb (beq b CR)) _ _ _ _ Ht) as [Es _]. rewrite Es. destruct (take_while_unique (fun b => negb (beq b CR)) ext (CRLF ++ t) Hall) as [-> _]; [by cbn|].
  done.
Qed.

Lemma decode_spec data raw : coded_body data raw -> forall fuel buf out pos total,
  fits buf -> text buf pos total raw -> (length raw <= fuel)%nat -> decode_loop fuel buf total out pos = Some (out ++ data, true).
Proof.
  induction 1 as [ds ext ts Hds Hv He Hts|ds ext data more body Hds Hv Hne He Hb IH]; intros fuel buf out pos total Hfit Ht Hf; pose proof (text_length _ _ _ _ Ht) as Hl;
    rewrite !length_app in Hl, Hf; change (length CRLF) with 2%nat in Hl, Hf; (destruct fuel as [|fuel]; [lia|]); cbn [decode_loop]; rewrite (proj2 (Nat.ltb_lt pos total)) by lia;
    rewrite (decode_size_line_spec _ _ _ _ _ _ Ht Hds He); cbn [mbind option_bind].
  - by rewrite Hv, app_nil_r.
  - assert (Hd0 : (0 < length data)%nat) by (by destruct data; [|cbn; lia]). rewrite (proj2 (Z.eqb_neq (hexval ds) 0)) by lia. rewrite (proj2 (Z.ltb_ge _ _)) by lia.
    rewrite size_digits_small by (done || lia). rewrite Hv, Nat2Z.id. apply text_skip, text_skip, (text_skip _ _ _ CRLF) in Ht. change (length CRLF) with 2%nat in Ht.
    rewrite (text_view _ _ _ _ _ Ht). cbn [mbind option_bind]. apply text_skip, (text_skip _ _ _ CRLF) in Ht. change (length CRLF) with 2%nat in Ht. pose proof Ht as [_ Hb2]. unfold fits in Hfit.
    rewrite (proj2 (Z.leb_gt _ _)) by lia. set (d := (pos + length ds + length ext + 2)%nat) in *. replace (Z.to_nat (Z.of_nat d + Z.of_nat (length data) + 2)) with (d + length data + 2)%nat by lia.
    rewrite (IH fuel buf (out ++ data) (d + length data + 2)%nat total Hfit Ht) by lia. by rewrite app_assoc.
Qed.

(** ** Looking into the head *)

Lemma head_len_lines buf tail ls : Forall line_wf ls -> forall fuel pos,
  (0 < pos)%nat -> text buf pos (length buf) (lines ls ++ CRLF ++ tail) -> (length (lines ls) < fuel)%nat ->
  head_len_loop fuel buf pos = Some (Z.of_nat (pos + length (lines ls) + 2)).
Proof.
  induction 1 as [|l ls [Hn Hl] _ IH]; intros fuel pos Hp Ht Hf; (destruct fuel as [|fuel]; [lia|]); cbn [head_len_loop].
  - destruct (lf_line buf pos [] tail Ht (not_elem_of_nil _)) as (E1 & E2 & _). rewrite E1. run E2. rewrite (proj2 (beq_true CR CR)) by done. cbn [negb length].
    rewrite Nat.add_0_r, Nat.eqb_refl, (proj2 (Nat.ltb_lt 0 pos)) by done. cbn [andb]. do 2 f_equal. cbn. lia.
  - rewrite lines_cons, <- !app_assoc in Ht. destruct (lf_line _ _ _ _ Ht Hl) as (E1 & E2 & _ & Ht'). rewrite E1. run E2. rewrite (proj2 (beq_true CR CR)) by done. cbn [negb].
    rewrite (proj2 (Nat.eqb_neq _ _)) by (destruct l; [done | cbn; lia]). cbn [andb]. replace (S (pos + length l) + 1)%nat with (pos + length l + 2)%nat by lia.
    rewrite lines_cons, !length_app in Hf |- *. change (length CRLF) with 2%nat in Hf |- *. rewrite (IH fuel (pos + length l + 2)%nat ltac:(lia) Ht') by lia. do 2 f_equal. lia.
Qed.

Lemma head_len_spec buf h tail : head_wf h -> buf = head_bytes h ++ tail -> head_len buf = Some (Z.of_nat (length (head_bytes h))).
Proof.
  intros [Hl Hls] Eb. pose proof (text_whole buf) as Ht. rewrite Eb in Ht at 3. unfold head_bytes in Ht. rewrite <- !app_assoc in Ht. pose proof (text_length _ _ _ _ Ht) as Hlen.
  unfold head_len. cbn [head_len_loop]. destruct (lf_line _ _ _ _ Ht Hl) as (E1 & E2 & _ & Ht'). rewrite E1. run E2. rewrite (proj2 (beq_true CR CR)) by done. cbn [negb].
  rewrite andb_false_r. replace (S (0 + length (request_line h)) + 1)%nat with (0 + length (request_line h) + 2)%nat by lia. rewrite !length_app in Hlen. change (length CRLF) with 2%nat in Hlen.
  rewrite (head_len_lines buf tail _ Hls (length buf) (0 + length (request_line h) + 2)%nat ltac:(lia) Ht') by lia. rewrite length_head_bytes. do 2 f_equal.
Qed.

(** A view of the first value of a field. *)
Definition value_view (buf : list byte) (r : option (nat * nat)) (v : option (list byte)) : Prop :=
  match v with None => r = None | Some v => exists s, r = Some (s, length v) /\ view buf s (length v) = Some v end.

Lemma header_value_lines buf name tail ls : lower <$> name = name -> Forall line_wf ls -> forall fuel pos,
  (0 < pos)%nat -> text buf pos (length buf) (lines ls ++ CRLF ++ tail) -> (length (lines ls) <= fuel)%nat ->
  exists r, header_value_loop fuel buf (Z.of_nat (pos + length (lines ls) + 2)) name pos = Some r /\ value_view buf r (hd_error (values name ls)).
Proof.
  intros Hname. induction 1 as [|l ls [Hn Hl] _ IH]; intros fuel pos Hp Ht Hf.
  - exists None. split; [|done]. change (length (lines [])) with O. destruct fuel; cbn [header_value_loop]; rewrite (proj2 (Z.ltb_ge _ _)), andb_false_r by lia; done.
  - assert (El : length (lines (l :: ls)) = (length l + 2 + length (lines ls))%nat) by (rewrite lines_cons, !length_app; cbn; lia). destruct fuel as [|fuel]; [lia|]. cbn [header_value_loop].
    assert (0 < length l)%nat by (by destruct l; [|cbn; lia]). rewrite (proj2 (Nat.ltb_lt _ _)), (proj2 (Z.ltb_lt _ _)) by lia. cbn [andb].
    rewrite lines_cons, <- !app_assoc in Ht. destruct (lf_line _ _ _ _ Ht Hl) as (E1 & _ & Hline & Ht'). rewrite E1. replace (S (pos + length l) - 1)%nat with (pos + length l)%nat by lia.
    pose proof (field_value_spec _ _ _ name _ Hline Hname) as Hv. rewrite values_cons. destruct (fvalue name l) as [v|].
    + destruct Hv as (s & Ev & Hs). run Ev. eexists. split; [done|]. exists s. split; [done|]. by apply text_view_whole in Hs.
    + run Hv. replace (S (pos + length l) + 1)%nat with (pos + length l + 2)%nat by lia.
      replace (pos + length (lines (l :: ls)) + 2)%nat with (pos + length l + 2 + length (lines ls) + 2)%nat by lia. apply (IH fuel (pos + length l + 2)%nat ltac:(lia) Ht'). lia.
Qed.

Lemma header_value_head buf name start h tail :
  lower <$> name = name -> head_wf h -> text buf start (length buf) (head_bytes h ++ tail) ->
  exists r, header_value_in buf start (Z.of_nat (start + length (head_bytes h))) name = Some r /\ value_view buf r (hd_error (values name (fields h))).
Proof.
  intros Hname [Hl Hls] Ht. rewrite length_head_bytes. unfold head_bytes in Ht. rewrite <- !app_assoc in Ht. unfold header_value_in. destruct (lf_line _ _ _ _ Ht Hl) as (E1 & _ & _ & Ht'). rewrite E1.
  replace (S (start + length (request_line h)) + 1)%nat with (start + length (request_line h) + 2)%nat by lia.
  replace (start + (length (request_line h) + 2 + length (lines (fields h)) + 2))%nat with (start + length (request_line h) + 2 + length (lines (fields h)) + 2)%nat by lia.
  apply (header_value_lines buf name tail _ Hname Hls); [lia | done|]. pose proof (text_length _ _ _ _ Ht') as Hlen. rewrite length_app in Hlen. lia.
Qed.

(** ** The body of a response *)

(** A framed response, as [feed] leaves it. *)
Record framed_at (f : Framer) (start hl n : nat) (chunked : bool) : Prop := {
  fa_stage : f_stage f = fr_done;
  fa_start : f_start f = start;
  fa_head : f_head_len f = hl;
  fa_end : f_end f = Z.of_nat (start + hl + n);
  fa_chunked : framer_is_chunked f = chunked;
  fa_fresh : f_dechunked f = false
}.

Lemma holds_framed head_request buf eof pre h fr data raw rest f r :
  fits buf -> holds head_request eof buf pre h fr data raw rest -> feed (reset head_request) buf eof = Some (f, r) ->
  framed_at f (length (concat (head_bytes <$> pre))) (length (head_bytes h)) (length raw) (bool_decide (fr = RChunked)) /\
  r = Z.of_nat (length (concat (head_bytes <$> pre)) + length (head_bytes h) + length raw).
Proof.
  intros Hfit Hh E. destruct (holds_run head_request buf eof pre h fr data raw rest Hfit Hh) as (b & f' & (_ & (st & _ & Hob) & _) & Ho & Hs & He & Hr).
  destruct (feed_total (reset head_request) buf eof Hfit (reset_inv head_request buf)) as (g & z & E' & Hr'). rewrite E in E'. injection E' as <- <-.
  destruct (runs_det _ _ _ _ _ _ _ Hr Hr') as [-> ->]. rewrite Hob in Ho. unfold outs in Ho. injection Ho as Ho1 Ho2 _ _ Ho5 Ho6 Ho7. split; [|done].
  split; [done | done | rewrite Ho2; lia | done | unfold framer_is_chunked; rewrite Ho5, Ho6; by destruct fr | done].
Qed.

(** The bytes of the view a caller gets. *)
Definition view_holds (buf : list byte) (v : option (nat * nat)) (at_ : nat) (data : list byte) : Prop :=
  match v with None => data = [] | Some (s, n) => s = at_ /\ view buf s n = Some data end.

Lemma body_in_place_spec f buf start hl n chunked data raw rest :
  framed_at f start hl n chunked -> length raw = n -> text buf (start + hl) (length buf) (raw ++ rest) ->
  (if chunked then coded_body data raw else data = raw) ->
  exists f' buf' v, body_in_place f buf = Some (f', buf', v) /\ view_holds buf' v (start + hl) data /\ length buf' = length buf /\
    take (start + hl) buf' = take (start + hl) buf /\ drop (start + hl + n) buf' = rest /\ body_in_place f' buf' = Some (f', buf', v).
Proof.
  intros [Hs Hst Hhl He Hc Hd] Hn Ht Hb. pose proof Ht as [_ Hbnd]. unfold body_in_place at 1. rewrite (bool_decide_eq_true_2 _ Hs). cbn [negb]. rewrite Hst, Hhl, Hc, Hd. destruct chunked; cbn [andb negb].
  - pose proof (text_length _ _ _ _ Ht) as Hl. rewrite length_app in Hl.
    destruct (dechunk_spec data raw Hb (S (length buf)) buf (start + hl)%nat (start + hl)%nat rest Ht ltac:(lia) ltac:(lia)) as (buf' & E & Hl' & Htk & Hdr). rewrite E. cbn [mbind option_bind].
    replace (start + hl + length data - (start + hl))%nat with (length data) by lia. set (f1 := f <| f_body_len := length data |> <| f_dechunked := true |>). change (f_body_len f1) with (length data).
    eexists f1, buf', _. split; [done|]. assert (Hp : take (start + hl) buf' = take (start + hl) buf).
    { apply (f_equal (take (start + hl))) in Htk. rewrite take_take in Htk. rewrite (take_app_le (take (start + hl) buf)) in Htk by (rewrite length_take; lia). rewrite take_take in Htk.
      replace ((start + hl) `min` (start + hl + length data))%nat with (start + hl)%nat in Htk by lia. rewrite Htk. f_equal. lia. }
    split; [|split; [done|]; split; [done|]; split; [by rewrite <- Hn|]].
    + unfold view_holds. destruct (Nat.eqb_spec (length data) 0) as [E0|E0]; [by destruct data|]. split; [done|].
      assert (Hdl : (start + hl + length data <= length buf')%nat) by (apply (f_equal length) in Htk; rewrite length_app, !length_take in Htk; lia).
      unfold view. rewrite decide_True by done. f_equal. apply (f_equal (drop (start + hl))) in Htk. rewrite skipn_firstn_comm in Htk. replace (start + hl + length data - (start + hl))%nat with (length data) in Htk by lia.
      rewrite Htk. rewrite drop_app_ge by (rewrite length_take; lia). rewrite length_take_le by lia. by rewrite Nat.sub_diag.
    + unfold body_in_place. change (f_stage f1) with (f_stage f). rewrite (bool_decide_eq_true_2 _ Hs). cbn [negb]. change (framer_is_chunked f1) with (framer_is_chunked f). rewrite Hc.
      change (f_dechunked f1) with true. cbn [andb negb mbind option_bind]. change (f_start f1) with (f_start f). change (f_head_len f1) with (f_head_len f). by rewrite Hst, Hhl.
  - rewrite He, Nat2Z.id. replace (start + hl + n - (start + hl))%nat with n by lia. cbn [mbind option_bind]. set (f1 := f <| f_body_len := n |>). change (f_body_len f1) with n. subst data.
    eexists f1, buf, _. split; [done|]. split; [|split; [done|]; split; [done|]; split; [rewrite <- Hn; by apply text_skip, text_drop in Ht|]].
    + unfold view_holds. destruct (Nat.eqb_spec n 0) as [E0|E0]; [by destruct raw; [|cbn in Hn; lia]|]. split; [done|]. rewrite <- Hn. by apply text_view in Ht.
    + unfold body_in_place. change (f_stage f1) with (f_stage f). rewrite (bool_decide_eq_true_2 _ Hs). cbn [negb]. change (framer_is_chunked f1) with (framer_is_chunked f). rewrite Hc. cbn [andb negb mbind option_bind].
      change (f_start f1) with (f_start f). change (f_head_len f1) with (f_head_len f). change (f_end f1) with (f_end f). rewrite Hst, Hhl, He, Nat2Z.id.
      replace (start + hl + n - (start + hl))%nat with n by lia. done.
Qed.

Lemma framing_codings head_request h fr :
  response_framing head_request h = Some fr -> fr <> RNone -> (fr = RChunked <-> values transfer_encoding_lower (fields h) <> []).
Proof.
  unfold response_framing. destruct (status_of (request_line h)) as [st|]; [|done]. cbn [mbind option_bind]. destruct (_ || _); [by intros [= <-]|]. destruct (negb (forallb _ _)); [done|].
  destruct (lengths_of (fields h)) as [n|]; [|done]. cbn [mbind option_bind]. destruct (bool_decide_reflect (values transfer_encoding_lower (fields h) = [])); cbn [negb]; intros [= <-] _; [|done].
  destruct n; (split; [done|]); done.
Qed.

Lemma coded_body_nonempty data raw : coded_body data raw -> (0 < length raw)%nat.
Proof. destruct 1; rewrite !length_app; change (length CRLF) with 2%nat; lia. Qed.

Lemma append_body_spec head_request buf eof h fr data raw rest out :
  fits buf -> holds head_request eof buf [] h fr data raw rest -> append_body out buf (Z.of_nat (length (head_bytes h) + length raw)) = Some (out ++ data, true).
Proof.
  intros Hfit [Eb _ Hwf _ Hfr Hb]. cbn in Eb. unfold append_body. rewrite (head_len_spec buf h _ Hwf Eb). cbn [mbind option_bind]. rewrite (proj2 (Z.ltb_ge _ _)) by lia.
  pose proof (text_whole buf) as Ht. rewrite Eb in Ht at 3. destruct (header_value_head buf transfer_encoding_lower 0 h (raw ++ rest) ltac:(by vm_compute) Hwf Ht) as (te & Ete & Hte). apply text_skip in Ht. cbn [Nat.add] in *.
  destruct (Z.leb_spec (Z.of_nat (length (head_bytes h) + length raw)) (Z.of_nat (length (head_bytes h)))) as [Hle|Hgt].
  - assert (Er : raw = []) by (destruct raw; [done | cbn in Hle; lia]). destruct fr; cbn in Hb; [destruct Hb as [_ ->] | destruct Hb as [_ ->]; rewrite Er | apply coded_body_nonempty in Hb; rewrite Er in Hb; cbn in Hb; lia | destruct Hb as (_ & _ & ->); rewrite Er]; by rewrite app_nil_r.
  - unfold header_value_from. rewrite Ete. cbn [mbind option_bind]. rewrite !Nat2Z.id. assert (Hne : fr <> RNone) by (intros ->; destruct Hb as [-> _]; cbn in Hgt; lia).
    pose proof (framing_codings head_request h fr Hfr Hne) as Hcod. destruct (values transfer_encoding_lower (fields h)) as [|v vs]; cbn [hd_error value_view] in Hte.
    + subst te. replace (Z.to_nat _) with (length raw) by lia. rewrite (text_view _ _ _ _ _ Ht). cbn [mbind option_bind].
      assert (data = raw) as ->; [|done]. destruct fr; cbn in Hb; [done | by destruct Hb | by destruct (proj1 Hcod eq_refl) | by destruct Hb as (_ & _ & ?)].
    + destruct Hte as (s & -> & _). assert (Ec : fr = RChunked) by (by apply Hcod). rewrite Ec in Hb. pose proof (text_length _ _ _ _ Ht) as Hl. rewrite length_app in Hl.
      apply (decode_spec data raw Hb (length buf) buf out); [done | by apply text_prefix in Ht | lia].
Qed.

(** C26: What a client reads is the response that was sent. On a framed response every
    header lookup gives the first line of that name in any case, without white space
    around the value. The body read in place is the data the response carries, chunks
    joined, in a view right behind the head; head and everything behind the response keep
    their bytes, and asking again gives the same view. Without interim responses in
    front, [append_body] appends the same data. *)
Theorem response_read_back head_request buf eof pre h fr data raw rest :
  fits buf -> holds head_request eof buf pre h fr data raw rest ->
  exists f r, feed (reset head_request) buf eof = Some (f, r) /\
    (forall name, lower <$> name = name -> exists v, framer_header_value f buf name = Some v /\ value_view buf v (hd_error (values name (fields h)))) /\
    (exists f' buf' v, body_in_place f buf = Some (f', buf', v) /\ view_holds buf' v (f_start f + f_head_len f) data /\
       take (f_start f + f_head_len f) buf' = take (f_start f + f_head_len f) buf /\ drop (Z.to_nat r) buf' = rest /\ body_in_place f' buf' = Some (f', buf', v)) /\
    (pre = [] -> forall out, append_body out buf r = Some (out ++ data, true)).
Proof.
  intros Hfit Hh. destruct (feed_total (reset head_request) buf eof Hfit (reset_inv head_request buf)) as (f & r & E & _). exists f, r. split; [done|].
  destruct (holds_framed head_request buf eof pre h fr data raw rest f r Hfit Hh E) as [Hf ->]. pose proof Hh as [Eb _ Hwf _ _ Hb]. pose proof (text_whole buf) as Ht. rewrite Eb in Ht at 3. apply text_skip in Ht. cbn [Nat.add] in Ht.
  set (start := length (concat (head_bytes <$> pre))) in *. set (hl := length (head_bytes h)) in *. pose proof Hf as [_ Hst Hhl _ _ _]. split; [|split].
  - intros name Hname. unfold framer_header_value. rewrite Hst, Hhl. pose proof (head_bytes_pos h) as Hpos. fold hl in Hpos. rewrite (proj2 (Nat.eqb_neq hl 0)) by lia. by apply (header_value_head buf name start h (raw ++ rest)).
  - apply text_skip in Ht. fold hl in Ht. rewrite Hst, Hhl, Nat2Z.id. destruct (body_in_place_spec f buf start hl (length raw) _ data raw rest Hf eq_refl Ht) as (f' & buf' & v & H1 & H2 & _ & H3 & H4 & H5).
    + destruct fr; cbn in Hb |- *; [by destruct Hb as [-> ->] | by destruct Hb | done | by destruct Hb as (_ & _ & ?)].
    + by exists f', buf', v.
  - intros -> out. apply (append_body_spec head_request buf eof h fr data raw rest out Hfit Hh).
Qed.

(** A chunked response, with the bytes of the next one behind it. *)
Definition chunked_head : msg_head := mkMsgHead (bytes_of "HTTP/1.1 200 OK") [bytes_of "Transfer-Encoding: gzip, Chunked"].
Definition chunked_raw : list byte := bytes_of "5;x=y" ++ CRLF ++ bytes_of "hello" ++ CRLF ++ bytes_of "0" ++ CRLF ++ CRLF.

Lemma no_LF_dec (l : list byte) : find_byte LF l = None -> LF ∉ l.
Proof. apply find_byte_None. Qed.

Lemma hexits_dec ds : negb (bool_decide (ds = [])) && forallb hexit ds = true -> hexits ds.
Proof. intros [H1 H2]%andb_prop. apply hexits_iff. split; [by apply negb_true_iff, bool_decide_eq_false in H1 | by apply Forall_forall; intros b Hb; rewrite forallb_forall in H2; apply H2, list_elem_of_In]. Qed.

Lemma chunked_example : coded_body (bytes_of "hello" ++ []) chunked_raw.
Proof.
  apply (coded_next (bytes_of "5") (bytes_of ";x=y") (bytes_of "hello") [] (bytes_of "0" ++ [] ++ CRLF ++ lines [] ++ CRLF)).
  - split; [by apply hexits_dec; vm_compute|]. split; [cbn; lia | by vm_compute].
  - by vm_compute.
  - done.
  - apply (ext_named [] [] (bytes_of "x") [] [] (bytes_of "y") []);
      [constructor | constructor | split; [done | by repeat constructor] | constructor | constructor | constructor; split; [done | by repeat constructor] | constructor].
  - apply coded_last; [split; [by apply hexits_dec; vm_compute|]; split; [cbn; lia | by vm_compute] | by vm_compute | constructor | constructor].
Qed.

Lemma example_holds : holds false false (head_bytes chunked_head ++ chunked_raw ++ bytes_of "HTTP") [] chunked_head RChunked (bytes_of "hello") chunked_raw (bytes_of "HTTP").
Proof.
  split; [done | done | | by vm_compute | by vm_compute | exact chunked_example]. split; [by apply no_LF_dec; vm_compute|]. constructor; [|done]. split; [done | by apply no_LF_dec; vm_compute].
Qed.

Lemma response_read_back_witness :
  let buf := head_bytes chunked_head ++ chunked_raw ++ bytes_of "HTTP" in
  exists f r, feed (reset false) buf false = Some (f, r) /\
    (forall name, lower <$> name = name -> exists v, framer_header_value f buf name = Some v /\ value_view buf v (hd_error (values name (fields chunked_head)))) /\
    (exists f' buf' v, body_in_place f buf = Some (f', buf', v) /\ view_holds buf' v (f_start f + f_head_len f) (bytes_of "hello") /\
       take (f_start f + f_head_len f) buf' = take (f_start f + f_head_len f) buf /\ drop (Z.to_nat r) buf' = bytes_of "HTTP" /\ body_in_place f' buf' = Some (f', buf', v)) /\
    ([] = @nil msg_head -> forall out, append_body out buf r = Some (out ++ bytes_of "hello", true)).
Proof.
  apply (response_read_back false (head_bytes chunked_head ++ chunked_raw ++ bytes_of "HTTP") false [] chunked_head RChunked (bytes_of "hello") chunked_raw (bytes_of "HTTP")); [by vm_compute | exact example_holds].
Defined.
