(* ===== verification/ClientRequest.v ===== *)
(** Requests the client writes ([write_request] of http1_1/client/client.v, with the checks
    of http1_1/client/framer.v on what goes into a head), read by the server's parser. *)
From S2P Require Import Prelude WireBytes HttpScan HttpField HttpChunk HttpFrame HttpRequest ClientCodec ClientFramer ClientResponse ClientBody.
Local Open Scope Z_scope.

(** ** The bytes of a request *)

Definition header_line (nv : list byte * list byte) : list byte := nv.1 ++ bytes_of ": " ++ nv.2.

(** [extra_headers] for a list of fields. *)
Definition extra_headers_of (hs : list (list byte * list byte)) : list byte := lines (header_line <$> hs).

Definition host_name : list byte := bytes_of "Host".

(** All fields of a request, the length last. *)
Definition sent_fields (host : list byte) (hs : list (list byte * list byte)) (body : list byte) : list (list byte * list byte) :=
  (host_name, host) :: hs ++ (if bool_decide (body = []) then [] else [(HttpFrame.content_length_name, write_dec (Z.of_nat (length body)))]).

Definition sent_head (method target host : list byte) (hs : list (list byte * list byte)) (body : list byte) : msg_head :=
  mkMsgHead (method ++ SP :: target ++ SP :: bytes_of "HTTP/1.1") (header_line <$> sent_fields host hs body).

Lemma lines_app a b : lines (a ++ b) = lines a ++ lines b.
Proof. unfold lines. by rewrite fmap_app, concat_app. Qed.

Lemma append_nonempty (out a : list byte) : (if (0 <? length a)%nat then out ++ a else out) = out ++ a.
Proof. destruct a; cbn; by rewrite ?app_nil_r. Qed.

Lemma write_request_bytes out method target host hs body :
  write_request out method target host (extra_headers_of hs) body = out ++ head_bytes (sent_head method target host hs body) ++ body.
Proof.
  unfold write_request, wi. rewrite !append_nonempty. unfold head_bytes, sent_head, sent_fields. cbn [request_line fields]. rewrite fmap_cons, fmap_app, lines_cons, lines_app. fold (extra_headers_of hs).
  destruct body as [|c body].
  - rewrite bool_decide_eq_true_2 by done. cbn [length Nat.ltb Nat.leb fmap list_fmap]. change (lines []) with (@nil byte). rewrite <- !app_assoc. cbn [app]. by rewrite <- !app_assoc.
  - rewrite bool_decide_eq_false_2 by done. change (0 <? length (c :: body))%nat with true. cbn match. cbn [fmap list_fmap]. rewrite lines_cons. change (lines []) with (@nil byte).
    unfold header_line. cbn [fst snd]. rewrite <- !app_assoc. cbn [app]. rewrite <- !app_assoc. done.
Qed.

(** ** Decimal numbers *)

Lemma decimal_snoc ds d : decimal (ds ++ [d]) = decimal ds * 10 + (byte_val d - 48).
Proof. unfold decimal. by rewrite foldl_app. Qed.

Lemma dec_digits_spec k n acc : (0 < k)%nat -> 0 <= n < 10 ^ Z.of_nat k ->
  exists ds, dec_digits k n acc = ds ++ acc /\ ds <> [] /\ forallb digit ds = true /\ decimal ds = n.
Proof.
  revert n acc. induction k as [|k IH]; intros n acc Hk Hn; [lia|]. cbn [dec_digits]. pose proof (Z.mod_pos_bound n 10 ltac:(lia)) as Hm. pose proof (Z.div_mod n 10 ltac:(lia)) as Hd.
  assert (Hb : byte_val (byte_of_Z (48 + n mod 10)) = 48 + n mod 10) by (apply byte_val_of_Z_small; lia).
  assert (Hdg : digit (byte_of_Z (48 + n mod 10)) = true) by (unfold digit; rewrite Hb; lia).
  destruct (Z.eqb_spec (n / 10) 0) as [E|E].
  - exists [byte_of_Z (48 + n mod 10)]. split; [done|]. split; [done|]. split; [cbn; by rewrite Hdg|]. unfold decimal. cbn [foldl]. rewrite Hb. lia.
  - assert (Hk1 : (0 < k)%nat) by (destruct k; [cbn in Hn; assert (n / 10 = 0) by (apply Z.div_small; lia); lia | lia]).
    assert (Hn1 : 0 <= n / 10 < 10 ^ Z.of_nat k).
    { split; [apply Z.div_pos; lia|]. apply Z.div_lt_upper_bound; [lia|]. rewrite Nat2Z.inj_succ, Z.pow_succ_r in Hn by lia. lia. }
    destruct (IH (n / 10) (byte_of_Z (48 + n mod 10) :: acc) Hk1 Hn1) as (ds & -> & Hne & Hds & Hv). exists (ds ++ [byte_of_Z (48 + n mod 10)]). split; [by rewrite <- app_assoc|].
    split; [by destruct ds|]. split; [by rewrite forallb_app, Hds; cbn; rewrite Hdg|]. rewrite decimal_snoc, Hb, Hv. lia.
Qed.

Lemma write_dec_spec n : 0 <= n < 2 ^ 63 -> write_dec n <> [] /\ forallb digit (write_dec n) = true /\ decimal (write_dec n) = n.
Proof.
  intros Hn. unfold write_dec. rewrite (proj2 (Z.ltb_ge _ _)) by lia. destruct (dec_digits_spec 20 n []) as (ds & -> & H); [lia | change (10 ^ Z.of_nat 20) with 100000000000000000000; lia|].
  by rewrite app_nil_r.
Qed.

(** ** The fields *)

Lemma valid_token_spec s : valid_token s = true <-> token s.
Proof.
  unfold valid_token, token, chunk_tchar. rewrite andb_true_iff, negb_true_iff, Nat.eqb_neq. rewrite forallb_forall, Forall_forall. setoid_rewrite list_elem_of_In. setoid_rewrite chunk_tchar_spec.
  split; (intros [H1 H2]; split; [|done]); [by intros ->; destruct H1 | by destruct s].
Qed.

Lemma valid_field_value_spec v : valid_field_value v = true <-> Forall (fun c => ctl c = false) v.
Proof.
  unfold valid_field_value. rewrite forallb_forall, Forall_forall. setoid_rewrite list_elem_of_In. split; intros H c Hc; specialize (H c Hc); unfold ctl in *; [by apply negb_true_iff | by apply negb_true_iff].
Qed.

Lemma value_no_lf v : valid_field_value v = true -> LF ∉ v.
Proof. intros H%valid_field_value_spec Hin. rewrite Forall_forall in H. by apply H in Hin. Qed.

Lemma token_no c l : token l -> tchar c = false -> c ∉ l.
Proof. intros [_ H] Hc Hin. rewrite Forall_forall in H. apply H in Hin. congruence. Qed.

Lemma lower_tchar_colon (n : list byte) : COLON ∉ n -> COLON ∉ lower <$> n.
Proof. intros H (x & E & Hin)%list_elem_of_fmap. symmetry in E. apply lower_colon in E as ->. done. Qed.

(** A written line is the field of its name, and no other. *)
Lemma header_line_field name n v : COLON ∉ name -> token n -> field name (header_line (n, v)) = if ci_eq n name then FieldValue (trim v) else NoField.
Proof.
  intros Hname Ht. unfold field, header_line. cbn [fst snd]. destruct (decide (length name = length n)) as [El|Hl].
  - rewrite El, take_app_length, drop_app_length. change (bytes_of ": ") with [COLON; SP]. cbn [app]. rewrite (proj2 (beq_true COLON COLON)) by done. by destruct (ci_eq n name).
  - assert (Hne : ci_eq n name = false) by (destruct (ci_eq n name) eqn:E; [by apply ci_eq_length in E | done]). rewrite Hne. destruct (ci_eq (take _ _) name) eqn:E; [|done].
    destruct (decide (length name < length n)%nat) as [Hlt|Hge].
    + rewrite drop_app_le by lia. destruct (drop (length name) n) as [|c w] eqn:Ed; [apply (f_equal length) in Ed; rewrite length_drop in Ed; cbn in Ed; lia|]. cbn [app].
      assert (Hc : c ∈ n) by (rewrite <- (take_drop (length name) n), Ed; set_solver). destruct Ht as [_ Ht]. rewrite Forall_forall in Ht. specialize (Ht c Hc).
      destruct (tchar_apart c Ht) as (Ho & _ & _ & _ & Hcol & _). by rewrite (proj2 (beq_false c COLON) Hcol), Ho.
    + exfalso. apply (lower_tchar_colon name Hname). unfold ci_eq in E. apply bool_decide_eq_true in E. rewrite <- E. change COLON with (lower COLON). apply list_elem_of_fmap_2.
      change (bytes_of ": ") with [COLON; SP]. rewrite take_app_ge by lia. apply elem_of_app. right. destruct (length name - length n)%nat eqn:Ek; [lia|]. cbn. left.
Qed.

Definition value_of (name : list byte) (nv : list byte * list byte) : option (list byte) := if ci_eq nv.1 name then Some (trim nv.2) else None.

Lemma header_line_values name hs : COLON ∉ name -> Forall (fun nv => token nv.1) hs -> values name (header_line <$> hs) = omap (value_of name) hs.
Proof.
  intros Hname. induction 1 as [|[n v] hs Hn _ IH]; [done|]. unfold values in *. cbn [fmap list_fmap omap list_omap]. rewrite (header_line_field name n v Hname Hn). unfold value_of at 1. cbn [fst snd].
  destruct (ci_eq n name); by rewrite IH.
Qed.

(** ** What may be sent *)

(** The names the writer itself gives. *)
Definition own_name (n : list byte) : bool :=
  ci_eq n host_name || ci_eq n HttpFrame.content_length_name || ci_eq n transfer_encoding_name.

Definition field_sendable (nv : list byte * list byte) : bool := valid_token nv.1 && valid_field_value nv.2 && negb (own_name nv.1).

Definition sendable (method target host : list byte) (hs : list (list byte * list byte)) : bool :=
  valid_token method && valid_target target && valid_field_value host && forallb field_sendable hs.

Lemma sent_tokens host hs body : forallb field_sendable hs = true -> Forall (fun nv => token nv.1) (sent_fields host hs body).
Proof.
  intros H. unfold sent_fields. constructor; [cbn; apply valid_token_spec; by vm_compute|]. apply Forall_app. split.
  - apply Forall_forall. intros nv Hin. rewrite forallb_forall in H. apply list_elem_of_In in Hin. apply H in Hin. unfold field_sendable in Hin. rewrite !andb_true_iff in Hin. apply valid_token_spec. tauto.
  - destruct (bool_decide _); constructor; [|constructor]. cbn. apply valid_token_spec. by vm_compute.
Qed.

Lemma digits_valid ds : forallb digit ds = true -> valid_field_value ds = true.
Proof.
  intros H. apply valid_field_value_spec, Forall_forall. intros c Hc. apply list_elem_of_In in Hc. rewrite forallb_forall in H. apply H in Hc.
  assert (E : implb (digit c) (negb (ctl c)) = true) by (clear Hc; revert c; apply byte_cases; vm_compute; reflexivity). rewrite Hc in E. by apply negb_true_iff in E.
Qed.

Lemma sent_lines_wf host hs body : valid_field_value host = true -> forallb field_sendable hs = true -> Z.of_nat (length body) < 2 ^ 63 ->
  Forall line_wf (header_line <$> sent_fields host hs body).
Proof.
  intros Hh Hhs Hb. assert (Hone : forall nv, token nv.1 -> valid_field_value nv.2 = true -> line_wf (header_line nv)).
  { intros [n v] Hn Hv. cbn [fst snd] in *. split; [unfold header_line; destruct Hn as [Hn _]; by destruct n|]. unfold header_line. rewrite !not_elem_of_app. split; [by apply token_no|]. split; [by apply no_LF_dec | by apply value_no_lf]. }
  pose proof (sent_tokens host hs body Hhs) as Htok. rewrite Forall_fmap. unfold sent_fields in *. inversion_clear Htok as [|? ? H1 H2]. apply Forall_app in H2 as [H2 H3].
  constructor; [by apply Hone|]. apply Forall_app. split.
  - apply Forall_forall. intros nv Hin. rewrite Forall_forall in H2. apply Hone; [by apply H2|]. rewrite forallb_forall in Hhs. apply list_elem_of_In in Hin. apply Hhs in Hin. unfold field_sendable in Hin. rewrite !andb_true_iff in Hin. tauto.
  - destruct (bool_decide _); constructor; [|constructor]. inversion_clear H3. apply Hone; [done|]. cbn [snd]. destruct (write_dec_spec (Z.of_nat (length body)) ltac:(lia)) as (_ & Hd & _). by apply digits_valid.
Qed.

(** ** How the server frames it *)

Lemma trim_digits ds : forallb digit ds = true -> trim ds = ds.
Proof.
  intros H. assert (Hall : forall c, c ∈ ds -> ows c = false).
  { intros c Hc. apply list_elem_of_In in Hc. rewrite forallb_forall in H. apply H in Hc.
    assert (E : implb (digit c) (negb (ows c)) = true) by (clear Hc; revert c; apply byte_cases; vm_compute; reflexivity). rewrite Hc in E. by apply negb_true_iff in E. }
  unfold trim. rewrite drop_while_id by (destruct ds; [done | apply Hall; left]). apply trim_end_id. destruct (last ds) eqn:E; [|done]. by apply Hall, last_Some_elem_of.
Qed.

Lemma own_values name hs : ci_eq host_name name || ci_eq HttpFrame.content_length_name name || ci_eq transfer_encoding_name name = true ->
  forallb field_sendable hs = true -> omap (value_of name) hs = [].
Proof.
  intros Hown. induction hs as [|[n v] hs IH]; [done|]. cbn [forallb omap list_omap]. intros [Hs Hhs]%andb_prop. unfold value_of at 1. cbn [fst snd].
  destruct (ci_eq n name) eqn:E; [|by apply IH]. exfalso. unfold field_sendable, own_name in Hs. cbn [fst snd] in Hs. rewrite !andb_true_iff, negb_true_iff in Hs. destruct Hs as [_ Hs]. rewrite !orb_false_iff in Hs.
  unfold ci_eq in *. apply bool_decide_eq_true in E. rewrite E in Hs. destruct Hs as [[H1 H2] H3]. rewrite !orb_true_iff, !bool_decide_eq_true in Hown. rewrite !bool_decide_eq_false in *.
  destruct Hown as [[?|?]|?]; congruence.
Qed.

Section Sent.
Context (m target host : list byte) (hs : list (list byte * list byte)) (bdy : list byte).
Context (Hsend : sendable m target host hs = true) (Hlen : Z.of_nat (length bdy) <= max_declared).

Let h : msg_head := sent_head m target host hs bdy.

Lemma send_parts : token m /\ valid_target target = true /\ valid_field_value host = true /\ forallb field_sendable hs = true.
Proof. unfold sendable in Hsend. rewrite !andb_true_iff in Hsend. rewrite <- valid_token_spec. tauto. Qed.

Lemma sent_values name : COLON ∉ name -> values name (fields h) = omap (value_of name) (sent_fields host hs bdy).
Proof. intros Hn. apply header_line_values; [done|]. apply sent_tokens. apply send_parts. Qed.

Lemma sent_length_value : values HttpFrame.content_length_name (fields h) = if bool_decide (bdy = []) then [] else [write_dec (Z.of_nat (length bdy))].
Proof.
  rewrite sent_values by (by apply find_byte_None; vm_compute). unfold sent_fields. cbn [omap list_omap]. unfold value_of at 1. cbn [fst snd]. change (ci_eq host_name HttpFrame.content_length_name) with false. cbn match.
  rewrite omap_app, own_values by (try done; apply send_parts). destruct (bool_decide (bdy = [])); [done|]. cbn. unfold value_of. cbn [fst snd]. change (ci_eq HttpFrame.content_length_name HttpFrame.content_length_name) with true. cbn match.
  pose proof max_declared_val. destruct (write_dec_spec (Z.of_nat (length bdy)) ltac:(lia)) as (_ & Hd & _). by rewrite trim_digits.
Qed.

Lemma sent_no_coding : values transfer_encoding_name (fields h) = [].
Proof.
  rewrite sent_values by (by apply find_byte_None; vm_compute). unfold sent_fields. cbn [omap list_omap]. unfold value_of at 1. cbn [fst snd]. change (ci_eq host_name transfer_encoding_name) with false. cbn match.
  rewrite omap_app, own_values by (try done; apply send_parts). by destruct (bool_decide (bdy = [])).
Qed.

Lemma sent_framing : framing_of h = Some (if bool_decide (bdy = []) then NoBody else Fixed (Z.of_nat (length bdy))).
Proof.
  unfold framing_of. rewrite sent_no_coding, sent_length_value.
  assert (Hbad : existsb bad_line (fields h) = false).
  { apply not_true_iff_false. rewrite existsb_exists. intros (l & Hin & Hb). unfold h, sent_head in Hin. cbn [fields] in Hin. apply list_elem_of_In, list_elem_of_fmap in Hin as ([n v] & -> & Hin).
    pose proof (sent_tokens host hs bdy (proj2 (proj2 (proj2 send_parts)))) as Htok. rewrite Forall_forall in Htok. specialize (Htok _ Hin). unfold bad_line in Hb.
    rewrite !header_line_field in Hb by (done || by apply find_byte_None; vm_compute). by destruct (ci_eq n _), (ci_eq n _). }
  rewrite Hbad. destruct (bool_decide (bdy = [])); [done|]. pose proof max_declared_val. destruct (write_dec_spec (Z.of_nat (length bdy)) ltac:(lia)) as (Hne & Hd & Hv).
  unfold length_value. rewrite (bool_decide_eq_false_2 _ Hne), Hd, Hv. cbn [negb andb]. rewrite (proj2 (Z.leb_le _ _)) by done. done.
Qed.

Lemma target_bytes c : c ∈ target -> 0x20 < byte_val c < 0x7f.
Proof.
  intros Hc. destruct send_parts as (_ & Ht & _ & _). unfold valid_target in Ht. apply andb_prop in Ht as [_ Ht]. rewrite forallb_forall in Ht. apply list_elem_of_In in Hc. apply Ht in Hc. lia.
Qed.

Lemma sent_head_wf : head_wf h.
Proof.
  destruct send_parts as (Hm & Ht & Hh & Hhs). split.
  - unfold h, sent_head. cbn [request_line]. rewrite not_elem_of_app, not_elem_of_cons, not_elem_of_app, not_elem_of_cons. split; [by apply token_no|]. split; [by vm_compute|].
    split; [intros Hin%target_bytes; change (byte_val LF) with 10 in Hin; lia|]. split; [by vm_compute | by apply no_LF_dec].
  - pose proof max_declared_val. apply sent_lines_wf; [done | done | lia].
Qed.

Lemma sent_request max_header max_body :
  (0 < max_header -> Z.of_nat (length (head_bytes h)) - 2 <= max_header) -> (0 < max_body -> Z.of_nat (length bdy) <= max_body) -> request max_header max_body h bdy.
Proof.
  intros Hh Hb. split; [apply sent_head_wf | done|]. eexists. split; [apply sent_framing|]. destruct (bool_decide_reflect (bdy = [])) as [->|]; [done|]. by split.
Qed.
End Sent.

(** ** How the server decodes it *)

Section Decoded.
Context (m target host : list byte) (hs : list (list byte * list byte)) (bdy : list byte).
Context (Hsend : sendable m target host hs = true) (Hlen : Z.of_nat (length bdy) <= max_declared).

Let h : msg_head := sent_head m target host hs bdy.
Let msg : list byte := head_bytes h ++ bdy.

Lemma sent_decodes :
  exists req, decode_into (new_request msg) = Some (req, true) /\ slice_text msg (method req) = m /\ slice_text msg (path req) = target /\ slice_text msg (version req) = bytes_of "HTTP/1.1".
Proof.
  destruct (send_parts _ _ _ _ Hsend) as (Hm & Ht & _ & _). pose proof (sent_head_wf m target host hs bdy Hsend Hlen) as Hwf.
  assert (Hns : forall c, byte_val c <= 0x20 -> c ∉ target) by (intros c Hc Hin; pose proof (target_bytes _ _ _ _ bdy Hsend c Hin); lia).
  apply line_parts_decode; [done|]. split; [done | split; [apply Hm | by apply token_no] | | split; [cbn; lia | by apply find_byte_None; vm_compute]].
  split; [by intros -> | split; apply Hns; by vm_compute].
Qed.

Lemma sent_space : SP ∈ request_line h.
Proof. unfold h, sent_head. cbn [request_line]. set_solver. Qed.

Lemma sent_one_host : length (values host_name (fields h)) = 1%nat.
Proof.
  unfold h. rewrite (sent_values m target host hs bdy Hsend) by (by apply find_byte_None; vm_compute). unfold sent_fields. cbn [omap list_omap]. unfold value_of at 1. cbn [fst snd]. change (ci_eq host_name host_name) with true. cbn match.
  rewrite omap_app, own_values by (try done; apply (send_parts _ _ _ _ Hsend)). by destruct (bool_decide (bdy = [])).
Qed.
End Decoded.

(** C15: What the client sends, the server reads. A request written from a method and
    field names that are tokens, a target and values that pass the client's checks, and
    any body is one request to the server, whatever follows on the connection and within
    the limits the server is run with: it is framed to its last byte, and decoding gives
    back the method, the target, HTTP/1.1, the body and its length, each field by its
    name, and passes the Host check. *)
Theorem sent_request_read_back max_header max_body m target host hs bdy rest :
  let msg := write_request [] m target host (extra_headers_of hs) bdy in
  sendable m target host hs = true -> buf_fits (msg ++ rest) ->
  (0 < max_header -> Z.of_nat (length msg) - Z.of_nat (length bdy) - 2 <= max_header) -> (0 < max_body -> Z.of_nat (length bdy) <= max_body) ->
  exists req, frame_request_length_lim_idx (msg ++ rest) max_header max_body = Some (Z.of_nat (length msg)) /\
    decode_into (new_request msg) = Some (req, true) /\
    slice_text msg (method req) = m /\ slice_text msg (path req) = target /\ slice_text msg (version req) = bytes_of "HTTP/1.1" /\ slice_text msg (body req) = bdy /\
    HttpRequest.content_length req = Some (if bool_decide (bdy = []) then -1 else Z.of_nat (length bdy)) /\
    (forall name, name <> [] -> COLON ∉ name -> exists v, get_header_value_slice req name = Some v /\ is_value msg v (hd_error (omap (value_of name) (sent_fields host hs bdy)))) /\
    validate_http1 req = Some true.
Proof.
  cbn zeta. rewrite write_request_bytes. cbn [app]. set (h := sent_head m target host hs bdy). set (msg := head_bytes h ++ bdy). intros Hsend Hfits Hmh Hmb.
  assert (Hlen : Z.of_nat (length bdy) <= max_declared) by (rewrite max_declared_val; unfold buf_fits, msg in Hfits; rewrite !length_app in Hfits; lia).
  assert (Hreq : request max_header max_body h bdy) by (apply sent_request; try done; intros Hp; specialize (Hmh Hp); unfold msg in Hmh; rewrite length_app in Hmh; fold h; lia).
  destruct (sent_decodes m target host hs bdy Hsend Hlen) as (req & Ed & E1 & E2 & E3). fold h msg in Ed, E1, E2, E3. exists req. pose proof (sent_framing m target host hs bdy Hsend Hlen) as Hfr. fold h in Hfr. split.
  { rewrite (frame_complete (msg ++ rest) max_header max_body Hfits h bdy rest) by (unfold msg; rewrite <- ?app_assoc; try done; intros Hc; rewrite Hfr in Hc; by destruct (bool_decide (bdy = []))).
    f_equal. unfold msg. rewrite length_app. lia. }
  split; [done|]. split; [done|]. split; [done|]. split; [done|].
  destruct (decode_into_spec (new_request msg)) as (req' & ok & Ed' & Hbuf & Hver & Hdec). rewrite Ed in Ed'. injection Ed' as <- <-. cbn [new_request buffer] in *.
  destruct (Hdec h bdy eq_refl (req_head _ _ _ _ Hreq) (sent_space m target host hs bdy Hsend Hlen) eq_refl) as (Hf & Hb & _).
  split; [done|]. split; [rewrite (content_length_framed req h bdy max_header max_body Hbuf Hreq Hf), Hfr; by destruct (bool_decide (bdy = []))|]. split.
  - intros name Hn Hc. destruct (HttpRequest.header_value req h bdy max_header max_body Hbuf Hreq Hf name Hn) as (v & Ev & Hv). exists v. split; [done|]. rewrite Hbuf in Hv. unfold h in Hv. by rewrite (sent_values m target host hs bdy Hsend name Hc) in Hv.
  - rewrite (validate_framed req h bdy max_header max_body Hbuf Hreq Hf); [|rewrite Hbuf; apply Hver, empty_slice_in].
    pose proof (sent_one_host m target host hs bdy Hsend) as Hh. fold h in Hh. change (bytes_of "Host") with host_name. rewrite Hh. by rewrite orb_true_r.
Qed.

Lemma sent_request_read_back_witness :
  let msg := write_request [] (bytes_of "POST") (bytes_of "/v1/items?x=1") (bytes_of "api.local") (extra_headers_of [(bytes_of "Accept", bytes_of "text/plain")]) (bytes_of "hello") in
  exists req, frame_request_length_lim_idx (msg ++ bytes_of "GET") 8192 1048576 = Some (Z.of_nat (length msg)) /\
    decode_into (new_request msg) = Some (req, true) /\
    slice_text msg (method req) = bytes_of "POST" /\ slice_text msg (path req) = bytes_of "/v1/items?x=1" /\ slice_text msg (version req) = bytes_of "HTTP/1.1" /\ slice_text msg (body req) = bytes_of "hello" /\
    HttpRequest.content_length req = Some (if bool_decide (bytes_of "hello" = []) then -1 else Z.of_nat (length (bytes_of "hello"))) /\
    (forall name, name <> [] -> COLON ∉ name -> exists v, get_header_value_slice req name = Some v /\
       is_value msg v (hd_error (omap (value_of name) (sent_fields (bytes_of "api.local") [(bytes_of "Accept", bytes_of "text/plain")] (bytes_of "hello"))))) /\
    validate_http1 req = Some true.
Proof.
  apply (sent_request_read_back 8192 1048576 (bytes_of "POST") (bytes_of "/v1/items?x=1") (bytes_of "api.local") [(bytes_of "Accept", bytes_of "text/plain")] (bytes_of "hello") (bytes_of "GET"));
    [by vm_compute | by vm_compute | intros _; by vm_compute | intros _; by vm_compute].
Defined.
