(* ===== verification/ClientOneShot.v ===== *)
(** [frame_response] of http1_1/client/client.v, which frames a buffered response in one
    pass, against the resumable framer. *)
From S2P Require Import Prelude WireBytes HttpScan HttpField HttpChunk HttpFrame ClientCodec ClientFramer ClientResponse.
Local Open Scope Z_scope.

Lemma walk_status f ls g : walk f ls = Some g -> f_status g = f_status f.
Proof.
  revert f. induction ls as [|l ls IH]; intros f; cbn [walk]; [by intros [= <-]|]. destruct (line_effect f l) as [h|] eqn:E; [|done]. cbn [mbind option_bind]. intros ->%IH.
  unfold line_effect, conn_effect in E. destruct (f_bodyless f); [injection E as <-; by destruct (fvalue connection_lower l)|]. destruct (fvalue content_length_lower l) as [v|].
  - destruct (resp_length v); [|done]. cbn [mbind option_bind] in E. destruct (_ && _); [done|]. by injection E as <-.
  - destruct (fvalue transfer_encoding_lower l) as [v|]; [destruct (final_chunked v); [by injection E as <- | done] | injection E as <-; by destruct (fvalue connection_lower l)].
Qed.

Lemma head_done_keeps g b : (f_status g <? 200) && negb (f_status g =? 101) = false ->
  f_te (head_done g b) = f_te g /\ f_bodyless (head_done g b) = f_bodyless g /\ (f_stage (head_done g b) = fr_body_len -> f_need (head_done g b) = Z.of_nat b + f_content_length g).
Proof. intros Hi. unfold head_done. rewrite Hi. destruct g. cbn -[Z.of_nat]. repeat case_match; cbn -[Z.of_nat]; by repeat split. Qed.

Lemma head_done_waits g b : (f_status g <? 200) && negb (f_status g =? 101) = false -> f_stage (head_done g b) = fr_until_close -> f_content_length g < 0.
Proof.
  intros Hi. unfold head_done. rewrite Hi. destruct g. cbn -[Z.of_nat]. repeat case_match; cbn -[Z.of_nat]; try done; lia.
Qed.

(** The byte before a field line is the LF of the line before it. *)
Lemma lines_end l ls q : length (l ++ CRLF ++ lines ls) = S q -> (l ++ CRLF ++ lines ls) !! q = Some LF.
Proof.
  intros H. assert (E : exists w, l ++ CRLF ++ lines ls = w ++ [LF]).
  { induction ls as [|x ls _] using rev_ind; [exists (l ++ [CR]); cbn; by rewrite <- app_assoc|].
    exists (l ++ CRLF ++ lines ls ++ x ++ [CR]). unfold lines. rewrite fmap_app, concat_app. cbn [fmap list_fmap concat]. by rewrite app_nil_r, <- !app_assoc. }
  destruct E as [w E]. rewrite E in *. rewrite length_app in H. cbn in H. rewrite lookup_app_r by lia. by replace (q - length w)%nat with O by lia.
Qed.

Section OneShot.
Context (buf : list byte) (Hfit : fits buf).

(** Both give the same answer, from a framer that waits behind what the loop has read. *)
Definition agree (f : Framer) (r : option Z) : Prop := exists f' z, runs buf false f f' z /\ r = Some z.

Lemma agree_step f g r : feed_step f buf false = goes_on g -> agree g r -> agree f r.
Proof. intros E (f' & z & Hr & Er). exists f', z. split; [by apply (runs_step _ _ _ _ E) | done]. Qed.

Lemma agree_returns f g z : feed_step f buf false = returns (g, z) -> agree f (Some z).
Proof. intros E. exists g, z. split; [by apply runs_returns | done]. Qed.

Lemma agree_done f z : f_stage f = fr_done -> f_end f = z -> agree f (Some z).
Proof. intros Hs <-. apply (agree_returns f f). unfold feed_step. by rewrite Hs. Qed.

Lemma trailers_agree n f : f_stage f = fr_trailers -> (f_pos f <= length buf)%nat -> (length buf - f_pos f < n)%nat -> agree f (trailer_section_loop n buf (f_pos f)).
Proof.
  revert f. induction n as [|n IH]; intros f Hs Hp Hn; [lia|]. cbn [trailer_section_loop]. pose proof (text_suffix buf (f_pos f) _ eq_refl Hp) as Ht.
  destruct (line_shape_total (drop (f_pos f) buf)) as [rest|l rest Hne Hl|a rest Ha Hla|s Hls].
  - pose proof (trailer_line_blank _ _ _ Ht) as E. run E. eapply agree_step; [unfold feed_step; rewrite Hs, E; reflexivity|]. by apply agree_done.
  - destruct (trailer_line_line _ _ _ _ Ht Hne Hl) as (ok & _ & E). run E. pose proof (text_length _ _ _ _ Ht) as Hlen. rewrite !length_app in Hlen. change (length CRLF) with 2%nat in Hlen. destruct ok.
    + eapply (agree_step _ (f <| f_pos := (f_pos f + length l + 2)%nat |>)); [unfold feed_step; by rewrite Hs, E|]. set (f1 := f <| f_pos := _ |>). apply (IH f1 Hs); cbn; lia.
    + apply (agree_returns f (fail f err_malformed).1). unfold feed_step. by rewrite Hs, E.
  - pose proof (trailer_line_bare _ _ _ _ Ht Ha Hla) as E. run E. apply (agree_returns f (fail f err_malformed).1). unfold feed_step. by rewrite Hs, E.
  - pose proof (trailer_line_part _ _ _ Ht Hls) as E. run E. apply (agree_returns f f). unfold feed_step. by rewrite Hs, E.
Qed.

Lemma chunks_agree n f : f_stage f = fr_chunk_size -> (f_pos f <= length buf)%nat -> (length buf - f_pos f < n)%nat -> agree f (chunked_loop n buf (f_pos f)).
Proof.
  revert f. induction n as [|n IH]; intros f Hs Hp Hn; [lia|]. cbn [chunked_loop]. pose proof (text_suffix buf (f_pos f) _ eq_refl Hp) as Ht.
  destruct (chunk_size_line_sound _ _ _ Ht) as (r & E & Hcase). run E. destruct r as [[d v]|c].
  2: { destruct Hcase as [-> | ->]; [apply (agree_returns f f) | apply (agree_returns f (fail f err_malformed).1)]; unfold feed_step; by rewrite Hs, E. }
  destruct Hcase as (ds & ext & t & Es & Hds & Hv & Hv0 & He & Ed). rewrite Es in Ht. destruct (size_round buf false f ds ext t Hs Ht Hds He) as (Ht1 & Estep). rewrite <- Ed, Hv in Estep. rewrite <- Ed in Ht1.
  pose proof (text_length _ _ _ _ Ht1) as Hl. destruct (v =? 0) eqn:Ev.
  - eapply agree_step; [exact Estep|]. set (f1 := f <| f_pos := d |> <| f_stage := fr_trailers |>). unfold frame_trailer_section. apply (trailers_agree (S (length buf)) f1 eq_refl); cbn; lia.
  - eapply agree_step; [exact Estep|]. set (f1 := f <| f_pos := d |> <| f_need := _ |> <| f_stage := _ |>). apply Z.eqb_neq in Ev.
    assert (Hi : inv f1 buf) by (split; cbn -[Z.of_nat]; [lia | lia | intros _; lia | done]).
    destruct (Z.leb_spec (Z.of_nat (length buf)) (Z.of_nat d + v + 1)) as [Hle|Hgt].
    { apply (agree_returns f1 f1). unfold feed_step. change (f_stage f1) with fr_chunk_data. change (f_need f1) with (Z.of_nat d + v). cbn match. by rewrite (proj2 (Z.leb_le _ _)). }
    destruct (data_end f1 buf Hfit Hi Hgt) as (I0 & I1 & I2 & a & b & Ea & Eb). change (f_need f1) with (Z.of_nat d + v) in *. rewrite I0, I1, Ea. cbn [mbind option_bind]. rewrite Eb. cbn [mbind option_bind]. rewrite I2.
    assert (E1 : feed_step f1 buf false = if negb (beq a CR) || negb (beq b LF) then returns (fail f1 err_malformed) else goes_on (f1 <| f_pos := Z.to_nat (Z.of_nat d + v + 2) |> <| f_stage := fr_chunk_size |>)).
    { unfold feed_step. change (f_stage f1) with fr_chunk_data. change (f_need f1) with (Z.of_nat d + v). cbn match. rewrite (proj2 (Z.leb_gt _ _)) by done. rewrite I0, I1, Ea. cbn [mbind option_bind]. rewrite Eb. cbn [mbind option_bind]. by rewrite I2. }
    destruct (_ || _); [by apply (agree_returns f1 (fail f1 err_malformed).1)|]. eapply agree_step; [exact E1|]. set (f2 := f1 <| f_pos := _ |> <| f_stage := _ |>). apply (IH f2 eq_refl); cbn -[Z.of_nat]; lia.
Qed.

(** ** Field lines *)

Lemma response_line_spec f pos e l :
  f_bodyless f = false -> text buf pos e l ->
  response_line buf pos e (f_content_length f) (f_te f) = Some ((fun g => (f_content_length g, f_te g)) <$> line_effect f l).
Proof.
  intros Hb Ht. unfold response_line, line_effect. rewrite Hb. pose proof (field_value_spec _ _ _ content_length_lower _ Ht ltac:(by vm_compute)) as Hf. destruct (fvalue content_length_lower l) as [v|].
  { destruct Hf as (s & E & Hv). run E. run (resp_length_spec _ _ _ Hv). destruct (resp_length v) as [n|]; cbn [mbind option_bind]; [|done]. by destruct (_ && _). }
  run Hf. pose proof (field_value_spec _ _ _ transfer_encoding_lower _ Ht ltac:(by vm_compute)) as Hg. destruct (fvalue transfer_encoding_lower l) as [v|] eqn:Ev.
  - destruct Hg as (s & E & Hv). run E. rewrite (value_has_chunked_spec _ _ _ Hv); [by cbn; destruct (final_chunked v)|]. intros c. unfold fvalue, field in Ev.
    destruct (ci_eq _ _); [|done]. destruct (drop _ l) as [|c' w]; [done|]. destruct (beq c' COLON); [|by destruct (ows c')]. injection Ev as <-. apply trim_last.
  - run Hg. unfold conn_effect. by destruct (fvalue connection_lower l).
Qed.

Lemma line_effect_bodyless f l g : line_effect f l = Some g -> f_bodyless g = f_bodyless f /\ (f_bodyless f = true -> f_content_length g = f_content_length f /\ f_te g = f_te f).
Proof.
  unfold line_effect, conn_effect. destruct (f_bodyless f) eqn:Eb; [intros [= <-]; by destruct (fvalue connection_lower l)|]. destruct (fvalue content_length_lower l) as [v|].
  - destruct (resp_length v); [|done]. cbn [mbind option_bind]. destruct (_ && _); [done|]. by intros [= <-].
  - destruct (fvalue transfer_encoding_lower l) as [v|]; [destruct (final_chunked v); [by intros [= <-] | done] | intros [= <-]; by destruct (fvalue connection_lower l)].
Qed.

Lemma response_lines ls : Forall line_wf ls -> forall f fuel n tail,
  (0 < n)%nat -> text buf n (length buf) (lines ls ++ tail) -> (length (lines ls ++ tail) < fuel)%nat ->
  match walk f ls with
  | Some g => exists fuel', (length tail < fuel')%nat /\ response_loop fuel buf (f_bodyless f) n (f_content_length f) (f_te f)
      = response_loop fuel' buf (f_bodyless g) (n + length (lines ls)) (f_content_length g) (f_te g)
  | None => response_loop fuel buf (f_bodyless f) n (f_content_length f) (f_te f) = Some err_malformed
  end.
Proof.
  induction 1 as [|l ls [Hn Hl] _ IH]; intros f fuel n tail Hpos Ht Hf; cbn [walk]; [exists fuel; by rewrite Nat.add_0_r|].
  assert (El : length (lines (l :: ls)) = (length l + 2 + length (lines ls))%nat) by (rewrite lines_cons, !length_app; cbn; lia). rewrite length_app in Hf. destruct fuel as [|fuel]; [lia|]. cbn [response_loop].
  rewrite lines_cons, <- !app_assoc in Ht. destruct (lf_line _ _ _ _ Ht Hl) as (E1 & E2 & Hline & Ht'). rewrite E1. run E2. rewrite (proj2 (beq_true CR CR)) by done. cbn [negb].
  rewrite (proj2 (Nat.eqb_neq _ _)) by (destruct l; [done | cbn; lia]).
  assert (Hstep : (if f_bodyless f then response_loop fuel buf (f_bodyless f) (n + length l + 2) (f_content_length f) (f_te f)
    else r ← response_line buf n (n + length l) (f_content_length f) (f_te f);
      match r with None => Some err_malformed | Some (c, k) => response_loop fuel buf (f_bodyless f) (n + length l + 2) c k end)
    = match line_effect f l with None => Some err_malformed | Some g => response_loop fuel buf (f_bodyless g) (n + length l + 2) (f_content_length g) (f_te g) end).
  { destruct (f_bodyless f) eqn:Eb.
    - destruct (line_effect f l) as [g|] eqn:Eg; [|unfold line_effect in Eg; by rewrite Eb in Eg]. destruct (line_effect_bodyless _ _ _ Eg) as [-> H]. rewrite Eb. destruct (H Eb) as [-> ->]. done.
    - rewrite (response_line_spec f _ _ _ Eb Hline). cbn [mbind option_bind]. destruct (line_effect f l) as [g|] eqn:Eg; [|done]. destruct (line_effect_bodyless _ _ _ Eg) as [-> _]. by rewrite Eb. }
  rewrite Hstep. destruct (line_effect f l) as [g|]; [|done]. cbn [mbind option_bind].
  specialize (IH g fuel (n + length l + 2)%nat tail ltac:(lia) Ht' ltac:(rewrite length_app; lia)). rewrite El.
  destruct (walk g ls) as [g'|]; [|done]. destruct IH as (fuel' & Hf' & ->). exists fuel'. split; [done|]. f_equal. lia.
Qed.

(** ** Whole responses *)

Lemma response_end_agrees h fr e b cl te :
  (e <= length buf)%nat -> settles h fr 0 e b -> fr <> RUntilClose -> (fr = RChunked -> te = true) -> (fr <> RChunked -> te = false) -> (forall n, fr = RFixed n -> cl = n) ->
  agree b (response_end buf e (bool_decide (fr = RNone)) cl te).
Proof.
  intros He (Hp & _ & Hs) Hu Hte1 Hte2 Hcl. unfold response_end. unfold fits in Hfit. destruct fr as [|n| |]; [| | |done].
  - destruct Hs as [Hs Hend]. rewrite bool_decide_eq_true_2 by done. by apply agree_done.
  - rewrite bool_decide_eq_false_2, Hte2, (Hcl n) by done. destruct Hs as (Hs & Hneed & Hn). rewrite (proj2 (Z.ltb_ge n 0)) by done. destruct (Z.ltb_spec (Z.of_nat (length buf)) (Z.of_nat e + n)) as [Hlt|Hge].
    + apply (agree_returns b b). unfold feed_step. rewrite Hs, Hneed. by rewrite (proj2 (Z.ltb_lt _ _)).
    + eapply agree_step; [unfold feed_step; rewrite Hs, Hneed, (proj2 (Z.ltb_ge _ _)) by lia; reflexivity|]. by apply agree_done.
  - rewrite bool_decide_eq_false_2, Hte1 by done. unfold frame_chunked_body. rewrite <- Hp. apply chunks_agree; [done | lia | lia].
Qed.

(** What [frame_response] answers where the framer answers [a]. *)
Definition same_verdict (a r : Z) : Prop :=
  r = a \/
  (r = err_until_close /\ a = incomplete /\ exists h tail, buf = head_bytes h ++ tail /\ head_wf h /\ is_interim h = false /\ response_framing false h = Some RUntilClose) \/
  (exists h tail, buf = head_bytes h ++ tail /\ head_wf h /\ is_interim h = true /\ r = Z.of_nat (length (head_bytes h))).

Definition answers (f : Framer) (r : option Z) : Prop := forall f' a, runs buf false f f' a -> exists z, r = Some z /\ same_verdict a z.

Lemma agree_answers f r : agree f r -> answers f r.
Proof. intros (f1 & z & Hr & ->) f2 a Ha. destruct (runs_det _ _ _ _ _ _ _ Hr Ha) as [_ ->]. exists z. split; [done | by left]. Qed.

(** A head that is not whole: both wait, or both refuse the bare LF. *)
Lemma partial_agrees g p tail fuel bl cl te q :
  f_stage g = fr_head -> p = S q -> buf !! q = Some LF -> text buf p (length buf) tail ->
  (exists a rest, tail = a ++ LF :: rest /\ (LF ∉ a) /\ last a <> Some CR) \/ LF ∉ tail ->
  agree (at_line g p) (response_loop (S fuel) buf bl p cl te).
Proof.
  intros Hs Hp Hq Ht Hcase. pose proof Ht as [_ Hb]. assert (Hsc : scanned (at_line g p) buf) by (apply scanned_at; lia). cbn [response_loop]. destruct Hcase as [(b & rest & -> & Hlf & Hlb)|Hpart].
  - destruct (lf_bare _ _ _ _ Ht Hlf Hlb) as (L1 & Hc). rewrite L1.
    assert (Hm : agree (at_line g p) (Some err_malformed)) by (apply (agree_returns _ (fail (at_line g p) err_malformed).1), (head_bare_at (at_line g p) buf false Hs Hsc b rest Ht); done).
    destruct Hc as [->|(c & k & Ek & Ec & Hcr)].
    + cbn [length]. rewrite Nat.add_0_r, Hp. run Hq. by rewrite <- Hp.
    + replace (p + length b)%nat with (S (p + k)) by lia. run Ec. by rewrite Hcr.
  - rewrite (lf_part _ _ _ Ht Hpart). apply (agree_returns _ (rescan (at_line g p) (length buf))), (head_part_at (at_line g p) buf false Hs Hsc tail Ht Hpart).
Qed.

(** A whole head: the framing it declares decides both. *)
Lemma whole_answers h rest g :
  buf = head_bytes h ++ rest -> head_wf h -> read_head false 0 h = Some g ->
  let e := length (head_bytes h) in
  answers (head_done (at_line g (e - 2)) e) (response_end buf e (f_bodyless g) (f_content_length g) (f_te g)).
Proof.
  intros Ebuf Hwf Eg e. pose proof Eg as Eg0. unfold read_head in Eg0. destruct (status_of (request_line h)) as [st|] eqn:Est; [|done]. cbn [mbind option_bind] in Eg0. set (f1 := status_effect _ _ st) in *.
  pose proof (walk_status _ _ _ Eg0) as Hgs. change (f_status f1) with st in Hgs. destruct (is_interim h) eqn:Hi.
  { intros f' a _. exists (Z.of_nat e). split; [|right; right; by exists h, rest]. unfold is_interim in Hi. rewrite Est in Hi. apply andb_prop in Hi as [Hi _].
    assert (Hbl : f_bodyless f1 = true) by (cbn; unfold bodyless_status; by rewrite Hi). rewrite (walk_bodyless f1 _ Hbl) in Eg0. injection Eg0 as <-. change (f_bodyless (with_conn f1 _)) with (f_bodyless f1). by rewrite Hbl. }
  pose proof (read_final false 0 h Hi) as Hrd. rewrite Eg in Hrd. destruct (response_framing false h) as [fr|] eqn:Efr; [|done]. specialize (Hrd (e - 2)%nat e). set (g1 := at_line g (e - 2)) in *.
  pose proof Hi as Hi1. unfold is_interim in Hi1. rewrite Est, <- Hgs in Hi1. destruct (head_done_keeps g1 e Hi1) as (K1 & K2 & K3). pose proof (head_done_waits g1 e Hi1) as K4. set (b := head_done g1 e) in *.
  change (f_te g1) with (f_te g) in K1. change (f_bodyless g1) with (f_bodyless g) in K2. change (f_content_length g1) with (f_content_length g) in K3, K4.
  pose proof Hrd as (_ & (st' & _ & Ho) & Hst). unfold outs in Ho. assert (O5 : f_te b = bool_decide (fr = RChunked)) by congruence. assert (O6 : f_bodyless b = bool_decide (fr = RNone)) by congruence.
  rewrite <- K1, <- K2, O5, O6. destruct (decide (fr = RUntilClose)) as [->|Hu].
  - intros f' a Hr. exists err_until_close. rewrite !bool_decide_eq_false_2 by done. unfold response_end. rewrite (proj2 (Z.ltb_lt _ _)) by auto. split; [done|]. right. left. split; [done|]. split; [|by exists h, rest].
    assert (Hrb : runs buf false b b incomplete) by (apply runs_returns; unfold feed_step; by rewrite Hst). by destruct (runs_det _ _ _ _ _ _ _ Hr Hrb) as [_ ->].
  - apply agree_answers, (response_end_agrees h fr); [rewrite Ebuf, length_app; lia | done | done | by intros -> | by intros Hc; apply bool_decide_eq_false_2|].
    intros k ->. destruct Hst as (Hs & Hneed & _). rewrite (K3 Hs) in Hneed. lia.
Qed.

Lemma first_line_answers l rest : buf = l ++ CRLF ++ rest -> LF ∉ l -> answers (fresh false 0) (frame_response buf).
Proof.
  intros El Hl. pose proof (text_whole buf) as Ht. set (f0 := fresh false 0). pose proof (scanned_at (reset false) 0 buf ltac:(lia) : scanned f0 buf) as Hsc. pose proof Ht as Ht0. rewrite El in Ht at 3.
  destruct (lf_line _ _ _ _ Ht Hl) as (E1 & E2 & _ & Ht1). unfold frame_response. rewrite E1. cbn [Nat.add] in *. run E2. rewrite (proj2 (beq_true CR CR)) by done. cbn [negb]. unfold status_code.
  rewrite (status_at_text _ _ _ Ht), status_of_line. cbn [mbind option_bind]. pose proof (head_line_at f0 buf false eq_refl Hsc l rest Ht Hl) as E. change (f_pos f0) with O in E. change (f_start f0) with O in E. rewrite Nat.eqb_refl in E.
  destruct (status_of l) as [st|] eqn:Est; [|by apply agree_answers, (agree_returns f0 _ _ E)]. change (default (-1) (Some st)) with st. pose proof (status_of_range _ _ Est) as Hrange.
  rewrite (proj2 (Z.ltb_ge st 100)) by lia. set (f1 := status_effect f0 l st) in *. replace (S (length l + 1)) with (length l + 2)%nat by lia. set (n := (length l + 2)%nat) in *.
  change (response_loop (S (length buf)) buf (bodyless_status st) n (-1) false) with (response_loop (S (length buf)) buf (f_bodyless f1) n (f_content_length f1) (f_te f1)).
  destruct (lines_tail (S (length rest)) rest) as (ls & tail & -> & Hls & Hcase); [lia|]. pose proof (text_length _ _ _ _ Ht1) as Hlen.
  pose proof (response_lines ls Hls f1 (S (length buf)) n tail ltac:(lia) Ht1 ltac:(lia)) as Hw. pose proof (fields_walk buf false ls Hls f1 n tail eq_refl ltac:(cbn; lia) Ht1) as Hw'.
  destruct (walk f1 ls) as [g|] eqn:Eg; [|rewrite Hw; destruct Hw' as [f' Hf']; apply agree_answers; exists f', err_malformed; split; [by apply (runs_step _ _ _ _ E) | done]].
  destruct Hw as (fuel' & Hf' & ->). destruct fuel' as [|fuel']; [lia|]. apply text_skip in Ht1. set (p := (n + length (lines ls))%nat) in *. destruct (walk_frame _ _ _ Eg) as (F1 & _).
  assert (Hto : forall r, agree (at_line g p) r -> answers f0 r) by (intros r (f' & z & Hr' & Er); apply agree_answers; exists f', z; split; [by apply (runs_step _ _ _ _ E), Hw' | done]).
  destruct Hcase as [[rest ->]|Hcase].
  - set (h := mkMsgHead l ls). assert (Ebuf : buf = head_bytes h ++ rest) by (rewrite El; unfold head_bytes, h; cbn [request_line fields]; by rewrite <- !app_assoc). assert (Hwf : head_wf h) by done.
    assert (Eh : length (head_bytes h) = (p + 2)%nat) by (rewrite length_head_bytes; unfold h, p, n; cbn [request_line fields]; lia). assert (Er : read_head false 0 h = Some g) by (unfold read_head, h; cbn [request_line fields]; by rewrite Est).
    cbn [response_loop]. destruct (lf_line buf p [] rest Ht1 (not_elem_of_nil _)) as (L1 & L2 & _). cbn [length] in L1, L2. rewrite Nat.add_0_r in L1, L2. rewrite L1. run L2. rewrite (proj2 (beq_true CR CR)) by done. cbn [negb]. rewrite Nat.eqb_refl.
    pose proof (whole_answers h rest g Ebuf Hwf Er) as Ha. cbn zeta in Ha. rewrite Ebuf in Ht0 at 3. pose proof (head_runs buf false false 0 h rest Hwf Ht0) as Hh. rewrite Er in Hh. cbn [Nat.add] in Hh. rewrite Eh in Ha, Hh.
    intros f' a Hr. by apply (Ha f' a), Hh.
  - destruct p as [|q] eqn:Ep; [lia|]. rewrite <- Ep in *. apply Hto, (partial_agrees g p tail fuel' _ _ _ q F1 Ep); [|done..]. rewrite El, !app_assoc, <- (app_assoc l).
    assert (Hq : length (l ++ CRLF ++ lines ls) = S q) by (rewrite !length_app; change (length CRLF) with 2%nat; lia). rewrite lookup_app_l by lia. by apply lines_end.
Qed.

Lemma frame_response_answers : answers (fresh false 0) (frame_response buf).
Proof.
  pose proof (text_whole buf) as Ht. set (f0 := fresh false 0). pose proof (scanned_at (reset false) 0 buf ltac:(lia) : scanned f0 buf) as Hsc.
  destruct (line_cases buf) as [(l & rest & El & Hl)|[(b & rest & Ea & Hb & Hlb)|Hpart]]; [by apply (first_line_answers l rest) | unfold frame_response..].
  - rewrite Ea in Ht at 3. destruct (lf_bare _ _ _ _ Ht Hb Hlb) as (L1 & Hc). rewrite L1.
    assert (Hm : answers f0 (Some err_malformed)) by (apply agree_answers, (agree_returns _ (fail f0 err_malformed).1), (head_bare_at f0 buf false eq_refl Hsc b rest Ht); done).
    cbn [Nat.add] in *. destruct Hc as [->|(c & k & -> & Ec & Hcr)]; [done|]. run Ec. by rewrite Hcr.
  - rewrite (lf_part _ _ _ Ht Hpart). apply agree_answers, (agree_returns _ (rescan f0 (length buf))), (head_part_at f0 buf false eq_refl Hsc buf Ht Hpart).
Qed.
End OneShot.

(** C27: Framing a buffered response in one pass and feeding it to the resumable framer
    give the same answer: the same length, the same need for more bytes, malformed for
    the same bytes. They part in two rules: a body that ends with the connection is an
    error to [frame_response] and waited for by the framer, and an interim response is a
    response to [frame_response] and skipped by the framer. *)
Theorem frame_response_agrees buf :
  fits buf -> exists f a r, feed (reset false) buf false = Some (f, a) /\ frame_response buf = Some r /\ same_verdict buf a r.
Proof.
  intros Hfit. destruct (feed_total (reset false) buf false Hfit (reset_inv false buf)) as (f & a & Ef & Hr). exists f, a. rewrite <- fresh_reset in Hr.
  destruct (frame_response_answers buf Hfit f a Hr) as (z & E & Hz). by exists z.
Qed.

Definition plain_response : list byte := bytes_of "HTTP/1.1 200 OK" ++ CRLF ++ bytes_of "Content-Length: 2" ++ CRLF ++ CRLF ++ bytes_of "hi" ++ bytes_of "HTTP".

Lemma frame_response_agrees_witness :
  fits plain_response /\ frame_response plain_response = Some 40 /\
  exists f a r, feed (reset false) plain_response false = Some (f, a) /\ frame_response plain_response = Some r /\ same_verdict plain_response a r.
Proof. split; [by vm_compute|]. split; [by vm_compute|]. apply (frame_response_agrees plain_response). by vm_compute. Defined.

(** [is_chunked] looks at the field only: a 304 has no body to be chunked. *)
Definition not_modified : list byte := bytes_of "HTTP/1.1 304 Not Modified" ++ CRLF ++ bytes_of "Transfer-Encoding: chunked" ++ CRLF ++ CRLF.

Lemma bodyless_reported_chunked :
  frame_response not_modified = Some (Z.of_nat (length not_modified)) /\ body_bounds not_modified (Z.of_nat (length not_modified)) = Some (0, 0) /\ is_chunked not_modified = Some true.
Proof. by vm_compute. Qed.
