(* ===== verification/PgWire.v ===== *)
(** What the PostgreSQL codec (pg_async/protocol.v, pg_async/types.v) is written with:
    results that are values, errors or an access outside of an array, big-endian reads at
    an offset, and writes into a grown buffer. *)
From S2P Require Import Prelude WireBytes.
Local Open Scope Z_scope.

(** ** Results *)

(** The error constants of protocol.v and types.v. *)
Inductive pg_err :=
  | err_no_such_statement
  | err_row_short | err_row_range | err_row_truncated | err_row_null
  | err_columns_malformed | err_columns_range | err_columns_no_such
  | err_int2_width | err_int4_width | err_int8_width | err_bool_width | err_float4_width | err_float8_width | err_uuid_width
  | err_timestamp_width | err_timestamp_infinite | err_timestamp_range | err_date_width | err_date_infinite
  | err_numeric_malformed | err_numeric_special | err_numeric_precision | err_numeric_range
  | err_array_malformed | err_array_dims | err_array_null | err_array_elem_type.

#[export] Instance pg_err_eq_decision : EqDecision pg_err.
Proof. solve_decision. Defined.

(** [!T]: a value or an error; [Crash] is an access outside of an array. *)
Inductive outcome (A : Type) := Ok (a : A) | Err (e : pg_err) | Crash.
Arguments Ok {A} a. Arguments Err {A} e. Arguments Crash {A}.

#[export] Instance outcome_ret : MRet outcome := fun A a => Ok a.

#[export] Instance outcome_bind : MBind outcome := fun A B k m => match m with Ok a => k a | Err e => Err e | Crash => Crash end.

#[export] Instance outcome_fmap : FMap outcome := fun A B f m => match m with Ok a => Ok (f a) | Err e => Err e | Crash => Crash end.

Definition safe {A} (m : outcome A) : Prop := m <> Crash.

(** [m] is a value that satisfies [P], or an error. *)
Definition post {A} (P : A -> Prop) (m : outcome A) : Prop := match m with Ok a => P a | Err _ => True | Crash => False end.

Lemma post_bind {A B} (P : A -> Prop) (Q : B -> Prop) (m : outcome A) (k : A -> outcome B) :
  post P m -> (forall a, P a -> post Q (k a)) -> post Q (m ≫= k).
Proof. destruct m as [a|e|]; cbn; auto. Qed.

Lemma post_safe {A} (P : A -> Prop) (m : outcome A) : post P m -> safe m.
Proof. by destruct m. Qed.

Lemma post_weaken {A} (P Q : A -> Prop) (m : outcome A) : post P m -> (forall a, P a -> Q a) -> post Q m.
Proof. destruct m; cbn; auto. Qed.

Lemma post_if {A} (P : A -> Prop) (c : bool) (m n : outcome A) : (c = true -> post P m) -> (c = false -> post P n) -> post P (if c then m else n).
Proof. destruct c; auto. Qed.

(** ** Integers *)

Definition i16 (x : Z) : Z := (x + 2 ^ 15) mod 2 ^ 16 - 2 ^ 15.
Definition i64 (x : Z) : Z := (x + 2 ^ 63) mod 2 ^ 64 - 2 ^ 63.

Lemma i16_range x : - 2 ^ 15 <= i16 x < 2 ^ 15.
Proof. unfold i16. pose proof (Z.mod_pos_bound (x + 2 ^ 15) (2 ^ 16)). lia. Qed.

Lemma i32_range x : - 2 ^ 31 <= i32 x < 2 ^ 31.
Proof. unfold i32. pose proof (Z.mod_pos_bound (x + 2 ^ 31) (2 ^ 32)). lia. Qed.

(** The signed reading of an unsigned word gives back the integer it encodes. *)
Lemma i16_mod x : - 2 ^ 15 <= x < 2 ^ 15 -> i16 (x mod 2 ^ 16) = x.
Proof. intros H. unfold i16. rewrite Zplus_mod_idemp_l, Z.mod_small; lia. Qed.

Lemma i32_mod x : - 2 ^ 31 <= x < 2 ^ 31 -> i32 (x mod 2 ^ 32) = x.
Proof. intros H. unfold i32. rewrite Zplus_mod_idemp_l, Z.mod_small; lia. Qed.

Lemma i64_mod x : - 2 ^ 63 <= x < 2 ^ 63 -> i64 (x mod 2 ^ 64) = x.
Proof. intros H. unfold i64. rewrite Zplus_mod_idemp_l, Z.mod_small; lia. Qed.

(** ** Reading *)

Definition len {A} (l : list A) : Z := Z.of_nat (length l).

Definition byte_at (b : list byte) (i : Z) : outcome byte :=
  if i <? 0 then Crash else match b !! Z.to_nat i with Some c => Ok c | None => Crash end.

(** A view of [n] bytes from [i] on. *)
Definition slice (b : list byte) (i n : Z) : outcome (list byte) :=
  if (0 <=? i) && (0 <=? n) && (i + n <=? len b) then Ok (take (Z.to_nat n) (drop (Z.to_nat i) b)) else Crash.

Definition big_endian_u16_at (b : list byte) (i : Z) : outcome Z := be_val <$> slice b i 2.
Definition big_endian_u32_at (b : list byte) (i : Z) : outcome Z := be_val <$> slice b i 4.
Definition big_endian_u64 (b : list byte) : outcome Z := be_val <$> slice b 0 8.

Lemma be_bytes_ext n v w : v mod 256 ^ Z.of_nat n = w mod 256 ^ Z.of_nat n -> be_bytes n v = be_bytes n w.
Proof. intros H. rewrite <- (be_bytes_be_val_eq n (be_bytes n v)), <- (be_bytes_be_val_eq n (be_bytes n w)) by apply length_be_bytes. f_equal. by rewrite !be_val_be_bytes. Qed.

Lemma be4_i32 v : be_bytes 4 (i32 v) = be_bytes 4 v.
Proof. apply be_bytes_ext. change (256 ^ Z.of_nat 4) with (2 ^ 32). unfold i32. rewrite Zminus_mod, Z.mod_mod, <- Zminus_mod by lia. f_equal. lia. Qed.

(** ** Writing *)

Definition set_at (out : list byte) (i : Z) (c : byte) : outcome (list byte) :=
  if (0 <=? i) && (i <? len out) then Ok (<[Z.to_nat i := c]> out) else Crash.

(** ** Text at an offset *)

(** [s] is what [b] holds from [i] to its end. *)
Definition rest_at (b : list byte) (i : Z) (s : list byte) : Prop := exists a, b = a ++ s /\ i = len a.

Lemma len_nonneg {A} (l : list A) : 0 <= len l.
Proof. unfold len. lia. Qed.

Lemma len_app {A} (a b : list A) : len (a ++ b) = len a + len b.
Proof. unfold len. rewrite length_app. lia. Qed.

Lemma len_cons {A} (x : A) l : len (x :: l) = 1 + len l.
Proof. unfold len. cbn [length]. lia. Qed.

Lemma len_nil {A} : len (@nil A) = 0.
Proof. done. Qed.

Lemma len_be_bytes n v : len (be_bytes n v) = Z.of_nat n.
Proof. unfold len. by rewrite length_be_bytes. Qed.

Lemma len_zero {A} (l : list A) : len l = 0 -> l = [].
Proof. destruct l; [done|]. rewrite len_cons. pose proof (len_nonneg l). lia. Qed.

Lemma rest_whole b : rest_at b 0 b.
Proof. by exists []. Qed.

Lemma rest_bounds b i s : rest_at b i s -> 0 <= i /\ i + len s = len b.
Proof. intros (a & -> & ->). rewrite len_app. pose proof (len_nonneg a). lia. Qed.

Lemma rest_skip b i w s : rest_at b i (w ++ s) -> rest_at b (i + len w) s.
Proof. intros (a & -> & ->). exists (a ++ w). by rewrite <- app_assoc, len_app. Qed.

Lemma rest_from b i : 0 <= i <= len b -> rest_at b i (drop (Z.to_nat i) b).
Proof. intros H. exists (take (Z.to_nat i) b). rewrite take_drop. split; [done|]. unfold len in *. rewrite length_take. lia. Qed.

Lemma slice_rest b i w s : rest_at b i (w ++ s) -> slice b i (len w) = Ok w.
Proof.
  intros H. pose proof (rest_bounds _ _ _ H) as [H1 H2]. rewrite len_app in H2. pose proof (len_nonneg w). pose proof (len_nonneg s). unfold slice.
  rewrite !(proj2 (Z.leb_le _ _)) by lia. cbn [andb]. destruct H as (a & -> & ->). unfold len. rewrite !Nat2Z.id, drop_app_length, take_app_length. done.
Qed.

Lemma slice_whole b i s : rest_at b i s -> slice b i (len s) = Ok s.
Proof. intros H. apply (slice_rest b i s []). by rewrite app_nil_r. Qed.

Lemma u16_rest b i v s : rest_at b i (be_bytes 2 v ++ s) -> big_endian_u16_at b i = Ok (v mod 2 ^ 16).
Proof. intros H. unfold big_endian_u16_at. pose proof (slice_rest _ _ _ _ H) as E. rewrite len_be_bytes in E. change (Z.of_nat 2) with 2 in E. rewrite E. cbn [fmap outcome_fmap]. by rewrite (be_val_be_bytes 2). Qed.

Lemma u32_rest b i v s : rest_at b i (be_bytes 4 v ++ s) -> big_endian_u32_at b i = Ok (v mod 2 ^ 32).
Proof. intros H. unfold big_endian_u32_at. pose proof (slice_rest _ _ _ _ H) as E. rewrite len_be_bytes in E. change (Z.of_nat 4) with 4 in E. rewrite E. cbn [fmap outcome_fmap]. by rewrite (be_val_be_bytes 4). Qed.

Lemma byte_rest b i c s : rest_at b i (c :: s) -> byte_at b i = Ok c.
Proof.
  intros H. pose proof (rest_bounds _ _ _ H) as [H1 _]. unfold byte_at. rewrite (proj2 (Z.ltb_ge _ _)) by lia. destruct H as (a & -> & ->). unfold len.
  rewrite Nat2Z.id, lookup_app_r, Nat.sub_diag by lia. done.
Qed.

(** Any text of at least [n] bytes begins with a big-endian word. *)
Lemma word_split n (s : list byte) : Z.of_nat n <= len s -> exists v s', s = be_bytes n v ++ s' /\ 0 <= v < 256 ^ Z.of_nat n.
Proof.
  intros H. unfold len in H. assert (Hl : length (take n s) = n) by (rewrite length_take; lia). exists (be_val (take n s)), (drop n s). split; [by rewrite (be_bytes_be_val_eq n _ Hl), take_drop|].
  rewrite <- Hl at 3. apply be_val_range.
Qed.

Lemma slice_post b i n : 0 <= i -> 0 <= n -> i + n <= len b -> post (fun w => len w = n) (slice b i n).
Proof.
  intros H1 H2 H3. unfold slice. rewrite !(proj2 (Z.leb_le _ _)) by lia. cbn. unfold len in *. rewrite length_take, length_drop. lia.
Qed.

Lemma u16_post b i : 0 <= i -> i + 2 <= len b -> post (fun v => 0 <= v < 2 ^ 16) (big_endian_u16_at b i).
Proof.
  intros H1 H2. unfold big_endian_u16_at. pose proof (slice_post b i 2 H1 ltac:(lia) H2) as H. destruct (slice b i 2) as [w| |]; [|done|done]. cbn in *.
  pose proof (be_val_range w) as Hr. unfold len in H. by replace (length w) with 2%nat in Hr by lia.
Qed.

Lemma u32_post b i : 0 <= i -> i + 4 <= len b -> post (fun v => 0 <= v < 2 ^ 32) (big_endian_u32_at b i).
Proof.
  intros H1 H2. unfold big_endian_u32_at. pose proof (slice_post b i 4 H1 ltac:(lia) H2) as H. destruct (slice b i 4) as [w| |]; [|done|done]. cbn in *.
  pose proof (be_val_range w) as Hr. unfold len in H. by replace (length w) with 4%nat in Hr by lia.
Qed.

Lemma byte_post b i : 0 <= i < len b -> post (fun _ => True) (byte_at b i).
Proof. intros H. unfold byte_at. rewrite (proj2 (Z.ltb_ge _ _)) by lia. destruct (lookup_lt_is_Some_2 b (Z.to_nat i)) as [c E]; [unfold len in H; lia|]. by rewrite E. Qed.

(** Writing at an offset of a buffer. *)
Lemma set_at_mid a c x s : set_at (a ++ c :: s) (len a) x = Ok (a ++ x :: s).
Proof.
  unfold set_at. rewrite len_app, len_cons. pose proof (len_nonneg a). pose proof (len_nonneg s). rewrite (proj2 (Z.leb_le _ _)), (proj2 (Z.ltb_lt _ _)) by lia. cbn [andb]. unfold len.
  rewrite Nat2Z.id, insert_app_r_alt, Nat.sub_diag by lia. done.
Qed.
