(* ===== verification/PgTypes.v ===== *)
(** The binary decoders of pg_async/types.v: integers, uuids, dates and timestamps,
    numerics as text and as scaled integers, and one-dimensional arrays. Floating-point
    values are their bit patterns, and a [time.Time] its Unix seconds and nanoseconds. *)
From S2P Require Import Prelude WireBytes PgWire.
Local Open Scope Z_scope.

(** ** Fixed-size types *)

Definition oid_int4 : Z := 23.
Definition oid_text : Z := 25.
Definition oid_name : Z := 19.
Definition oid_bpchar : Z := 1042.
Definition oid_varchar : Z := 1043.

Definition decode_int2 (b : list byte) : outcome Z := if negb (len b =? 2) then Err err_int2_width else i16 <$> big_endian_u16_at b 0.
Definition decode_int4 (b : list byte) : outcome Z := if negb (len b =? 4) then Err err_int4_width else i32 <$> big_endian_u32_at b 0.
Definition decode_int8 (b : list byte) : outcome Z := if negb (len b =? 8) then Err err_int8_width else i64 <$> big_endian_u64 b.
Definition decode_bool (b : list byte) : outcome bool := if negb (len b =? 1) then Err err_bool_width else (fun c => negb (byte_val c =? 0)) <$> byte_at b 0.
Definition decode_float4 (b : list byte) : outcome Z := if negb (len b =? 4) then Err err_float4_width else big_endian_u32_at b 0.
Definition decode_float8 (b : list byte) : outcome Z := if negb (len b =? 8) then Err err_float8_width else big_endian_u64 b.

Definition decode_text (b : list byte) : list byte := b.

Definition jsonb_text (raw : list byte) : list byte :=
  match raw with c :: rest => if byte_val c =? 1 then rest else raw | [] => raw end.

Definition decode_uuid (b : list byte) : outcome (list byte) := if negb (len b =? 16) then Err err_uuid_width else slice b 0 16.

(** ** Times *)

Record Time := mkTime { unix : Z; nanosecond : Z }.

Definition max_i64 : Z := 2 ^ 63 - 1.
Definition min_i64 : Z := - 2 ^ 63.
Definition timestamp_infinity : Z := max_i64.
Definition timestamp_neg_infinity : Z := min_i64.
Definition date_infinity : Z := 2 ^ 31 - 1.
Definition date_neg_infinity : Z := - 2 ^ 31.
Definition pg_epoch_unix_s : Z := 946684800.
Definition pg_epoch_unix_days : Z := 10957.

Definition decode_timestamp_us (b : list byte) : outcome Z := if negb (len b =? 8) then Err err_timestamp_width else i64 <$> big_endian_u64 b.

Definition timestamp_time (us : Z) : outcome Time :=
  if (us =? timestamp_infinity) || (us =? timestamp_neg_infinity) then Err err_timestamp_infinite
  else
    let offset := pg_epoch_unix_s * 1000000 in
    if max_i64 - offset <? us then Err err_timestamp_range
    else
      let unix_us := i64 (us + offset) in
      let secs := Z.quot unix_us 1000000 in
      let rem := Z.rem unix_us 1000000 in
      let '(secs, rem) := if rem <? 0 then (secs - 1, rem + 1000000) else (secs, rem) in
      Ok (mkTime secs (i32 (rem * 1000))).

Definition decode_date_days (b : list byte) : outcome Z := if negb (len b =? 4) then Err err_date_width else i32 <$> big_endian_u32_at b 0.

Definition date_time (days : Z) : outcome Time :=
  if (days =? date_infinity) || (days =? date_neg_infinity) then Err err_date_infinite
  else Ok (mkTime ((days + pg_epoch_unix_days) * 86400) 0).

(** ** Numerics *)

Definition numeric_pos : Z := 0x0000.
Definition numeric_neg : Z := 0x4000.
Definition numeric_nan : Z := 0xC000.
Definition numeric_pinf : Z := 0xD000.
Definition numeric_ninf : Z := 0xF000.

Record NumericHeader := mkNumericHeader { ndigits : Z; weight : Z; sign : Z; dscale : Z }.

Fixpoint digits_loop (n : nat) (b : list byte) (k : Z) : outcome unit :=
  match n with
  | O => Ok tt
  | S n' =>
      d ← big_endian_u16_at b (8 + 2 * k);
      if 9999 <? d then Err err_numeric_malformed else digits_loop n' b (k + 1)
  end.

Definition sign_check (h : NumericHeader) : outcome unit :=
  if (sign h =? numeric_pos) || (sign h =? numeric_neg) then Ok tt
  else if (sign h =? numeric_nan) || (sign h =? numeric_pinf) || (sign h =? numeric_ninf) then
    if negb (ndigits h =? 0) then Err err_numeric_malformed else Ok tt
  else Err err_numeric_malformed.

Definition numeric_header (b : list byte) : outcome NumericHeader :=
  if len b <? 8 then Err err_numeric_malformed
  else
    nd ← big_endian_u16_at b 0;
    wt ← big_endian_u16_at b 2;
    sg ← big_endian_u16_at b 4;
    ds ← big_endian_u16_at b 6;
    let h := mkNumericHeader (i16 nd) (i16 wt) sg ds in
    if (ndigits h <? 0) || negb (len b =? 8 + 2 * ndigits h) || (0x3FFF <? dscale h) then Err err_numeric_malformed
    else
      _ ← sign_check h;
      _ ← digits_loop (Z.to_nat (ndigits h)) b 0;
      Ok h.

Definition numeric_digit (b : list byte) (h : NumericHeader) (k : Z) : outcome Z :=
  if (k <? 0) || (ndigits h <=? k) then Ok 0 else big_endian_u16_at b (8 + 2 * k).

Definition group_width (d : Z) : Z := if 1000 <=? d then 4 else if 100 <=? d then 3 else if 10 <=? d then 2 else 1.

Definition group_div : list Z := [1; 10; 100; 1000].

(** [for i := w - 1; i >= 0; i--] of [put_digits]. *)
Fixpoint put_loop (n : nat) (out : list byte) (pos x : Z) : outcome (list byte) :=
  match n with
  | O => Ok out
  | S i => out ← set_at out (pos + Z.of_nat i) (byte_of_Z (48 + Z.rem x 10)); put_loop i out pos (Z.quot x 10)
  end.

Definition put_digits (out : list byte) (pos v w : Z) : outcome (list byte * Z) := out ← put_loop (Z.to_nat w) out pos v; Ok (out, pos + w).

(** [for k in 1 .. h.weight + 1]. *)
Fixpoint int_loop (n : nat) (b : list byte) (h : NumericHeader) (out : list byte) (pos k : Z) : outcome (list byte * Z) :=
  match n with
  | O => Ok (out, pos)
  | S n' => d ← numeric_digit b h k; '(out, pos) ← put_digits out pos d 4; int_loop n' b h out pos (k + 1)
  end.

(** [for left > 0]. *)
Fixpoint frac_loop (fuel : nat) (b : list byte) (h : NumericHeader) (out : list byte) (pos left k : Z) : outcome (list byte * Z) :=
  if 0 <? left then
    match fuel with
    | O => Crash
    | S f =>
        let w := if left <? 4 then left else 4 in
        d ← numeric_digit b h k;
        dv ← (match group_div !! Z.to_nat (4 - w) with Some dv => Ok dv | None => Crash end);
        '(out, pos) ← put_digits out pos (Z.quot d dv) w;
        frac_loop f b h out pos (left - w) (k + 1)
    end
  else Ok (out, pos).

(** [grow_len] leaves the new bytes as they are in memory: [junk n] for [n] of them. *)
Definition numeric_text_into (junk : nat -> list byte) (b out : list byte) : outcome (list byte) :=
  h ← numeric_header b;
  if sign h =? numeric_nan then Ok (out ++ bytes_of "NaN")
  else if sign h =? numeric_pinf then Ok (out ++ bytes_of "Infinity")
  else if sign h =? numeric_ninf then Ok (out ++ bytes_of "-Infinity")
  else
    first ← (if weight h <? 0 then Ok 0 else numeric_digit b h 0);
    let n := if weight h <? 0 then 1 else group_width first + 4 * weight h in
    let n := if sign h =? numeric_neg then n + 1 else n in
    let n := if 0 <? dscale h then n + (1 + dscale h) else n in
    let pos := len out in
    let out := out ++ junk (Z.to_nat n) in
    '(out, pos) ← (if sign h =? numeric_neg then out ← set_at out pos (byte_of_Z 45); Ok (out, pos + 1) else Ok (out, pos));
    '(out, pos) ← (if weight h <? 0 then out ← set_at out pos (byte_of_Z 48); Ok (out, pos + 1)
                   else '(out, pos) ← put_digits out pos first (group_width first); int_loop (Z.to_nat (weight h)) b h out pos 1);
    if 0 <? dscale h then
      out ← set_at out pos (byte_of_Z 46);
      '(out, _) ← frac_loop (Z.to_nat (dscale h)) b h out (pos + 1) (dscale h) (weight h + 1);
      Ok out
    else Ok out.

(** [for div > 0]: the decimal digits of group [k], into the magnitude and the number of
    fraction digits still to keep. *)
Fixpoint scale_digits (n : nat) (d div : Z) (fraction : bool) (limit acc frac_left : Z) : outcome (Z * Z) :=
  match n with
  | O => Ok (acc, frac_left)
  | S n' =>
      let digit := Z.rem (Z.quot d div) 10 in
      let div := Z.quot div 10 in
      if fraction && (frac_left =? 0) then
        if negb (digit =? 0) then Err err_numeric_precision else scale_digits n' d div fraction limit acc frac_left
      else
        let frac_left := if fraction then frac_left - 1 else frac_left in
        if (limit - digit) / 10 <? acc then Err err_numeric_range
        else scale_digits n' d div fraction limit (u64w (acc * 10 + digit)) frac_left
  end.

Fixpoint scale_loop (fuel : nat) (b : list byte) (h : NumericHeader) (limit k acc frac_left : Z) : outcome Z :=
  match fuel with
  | O => Crash
  | S f =>
      d ← numeric_digit b h k;
      '(acc, frac_left) ← scale_digits 4 d 1000 (weight h <? k) limit acc frac_left;
      let k := k + 1 in
      if (weight h <? k) && (frac_left =? 0) && (ndigits h <=? k) then Ok acc else scale_loop f b h limit k acc frac_left
  end.

Definition decode_numeric_i64_scaled (b : list byte) (scale : Z) : outcome Z :=
  h ← numeric_header b;
  if negb (sign h =? numeric_pos) && negb (sign h =? numeric_neg) then Err err_numeric_special
  else if (scale <? 0) || (18 <? scale) then Err err_numeric_range
  else
    let limit := if sign h =? numeric_neg then 2 ^ 63 else max_i64 in
    let first := if weight h <? 0 then weight h + 1 else 0 in
    acc ← scale_loop (Z.to_nat (Z.max (ndigits h) (weight h + 1) - first) + 6) b h limit first 0 scale;
    Ok (if sign h =? numeric_neg then if acc =? 2 ^ 63 then min_i64 else - i64 acc else i64 acc).

(** ** Uuids *)

Definition hex_lower : list byte := bytes_of "0123456789abcdef".

Definition hex_char (v : Z) : outcome byte := byte_at hex_lower v.

Fixpoint uuid_loop (n : nat) (b out : list byte) (i pos : Z) : outcome (list byte) :=
  match n with
  | O => Ok out
  | S n' =>
      '(out, pos) ← (if (i =? 4) || (i =? 6) || (i =? 8) || (i =? 10) then out ← set_at out pos (byte_of_Z 45); Ok (out, pos + 1) else Ok (out, pos));
      c ← byte_at b i;
      hi ← hex_char (Z.shiftr (byte_val c) 4);
      out ← set_at out pos hi;
      lo ← hex_char (Z.land (byte_val c) 0x0f);
      out ← set_at out (pos + 1) lo;
      uuid_loop n' b out (i + 1) (pos + 2)
  end.

Definition uuid_into (junk : nat -> list byte) (b out : list byte) : outcome (list byte) :=
  if negb (len b =? 16) then Err err_uuid_width else uuid_loop 16 b (out ++ junk 36%nat) 0 (len out).

(** ** Arrays *)

Record DataValue := mkDataValue { is_null : bool; bytes : list byte }.

Record ArrayIter := mkArrayIter { elem_oid : Z; array_len : Z; lower_bound : Z; abuf : list byte; apos : Z; left : Z }.

(** [for _ in 0 .. count]: where the elements end, and whether one is NULL. *)
Fixpoint elems_loop (n : nat) (b : list byte) (pos : Z) (saw_null : bool) : outcome (Z * bool) :=
  match n with
  | O => Ok (pos, saw_null)
  | S n' =>
      if len b - pos <? 4 then Err err_array_malformed
      else
        v ← big_endian_u32_at b pos;
        let elen := i32 v in
        let pos := i32 (pos + 4) in
        if elen =? -1 then elems_loop n' b pos true
        else if (elen <? 0) || (len b - pos <? elen) then Err err_array_malformed
        else elems_loop n' b (i32 (pos + elen)) saw_null
  end.

Definition decode_array (b : list byte) : outcome ArrayIter :=
  if len b <? 12 then Err err_array_malformed
  else
    nd ← big_endian_u32_at b 0;
    let ndim := i32 nd in
    has_null ← big_endian_u32_at b 4;
    oid ← big_endian_u32_at b 8;
    if 1 <? has_null then Err err_array_malformed
    else if ndim =? 0 then
      if negb (len b =? 12) then Err err_array_malformed else Ok (mkArrayIter oid 0 0 b 12 0)
    else if (ndim <? 0) || (6 <? ndim) then Err err_array_malformed
    else if 1 <? ndim then Err err_array_dims
    else if len b <? 20 then Err err_array_malformed
    else
      cn ← big_endian_u32_at b 12;
      let count := i32 cn in
      lb ← big_endian_u32_at b 16;
      let lbound := i32 lb in
      if (count <? 0) || (Z.quot (len b - 20) 4 <? count) then Err err_array_malformed
      else
        '(pos, saw_null) ← elems_loop (Z.to_nat count) b 20 false;
        if negb (pos =? len b) || (saw_null && (has_null =? 0)) then Err err_array_malformed
        else Ok (mkArrayIter oid count lbound b 20 count).

(** [ArrayIter.next]. *)
Definition array_next (it : ArrayIter) : outcome (option DataValue * ArrayIter) :=
  if left it <=? 0 then Ok (None, it)
  else
    let '(mkArrayIter oid n lb buf pos l) := it in
    v ← big_endian_u32_at buf pos;
    let elen := i32 v in
    let pos := i32 (pos + 4) in
    if elen <? 0 then Ok (Some (mkDataValue true []), mkArrayIter oid n lb buf pos (l - 1))
    else
      w ← slice buf pos elen;
      Ok (Some (mkDataValue false w), mkArrayIter oid n lb buf (i32 (pos + elen)) (l - 1)).

(** ** The format of numerics *)

Definition be2 (v : Z) : list byte := be_bytes 2 v.

(** A numeric on the wire: its base-10000 digits, the first worth 10000^weight. *)
Definition enc_numeric (sg w ds : Z) (gs : list Z) : list byte := be2 (len gs) ++ be2 w ++ be2 sg ++ be2 ds ++ concat (be2 <$> gs).

Definition finite_sign (sg : Z) : bool := (sg =? numeric_pos) || (sg =? numeric_neg).
Definition special_sign (sg : Z) : bool := (sg =? numeric_nan) || (sg =? numeric_pinf) || (sg =? numeric_ninf).

Record numeric_wf (sg w ds : Z) (gs : list Z) : Prop := {
  wf_count : len gs < 2 ^ 15;
  wf_weight : - 2 ^ 15 <= w < 2 ^ 15;
  wf_dscale : 0 <= ds <= 0x3FFF;
  wf_sign : finite_sign sg = true \/ (special_sign sg = true /\ gs = []);
  wf_groups : Forall (fun g => 0 <= g < 10000) gs;
}.

Lemma len_words (gs : list Z) : len (concat (be2 <$> gs)) = 2 * len gs.
Proof. induction gs as [|g gs IH]; [done|]. cbn [fmap list_fmap concat]. rewrite len_app, IH, len_cons. unfold be2. rewrite len_be_bytes. lia. Qed.

Lemma words_split n (s : list byte) : len s = 2 * Z.of_nat n -> exists gs, s = concat (be2 <$> gs) /\ length gs = n /\ Forall (fun g => 0 <= g < 2 ^ 16) gs.
Proof.
  revert s. induction n as [|n IH]; intros s Hl; [exists []; by rewrite (len_zero s) by lia|]. destruct (word_split 2 s) as (g & s' & -> & Hg); [lia|]. rewrite len_app, len_be_bytes in Hl.
  destruct (IH s') as (gs & -> & Hn & Hgs); [lia|]. exists (g :: gs). split; [done|]. split; [cbn; lia | by constructor].
Qed.

Lemma numeric_digits_spec gs b k : rest_at b (8 + 2 * k) (concat (be2 <$> gs)) -> Forall (fun g => 0 <= g < 2 ^ 16) gs ->
  digits_loop (length gs) b k = if forallb (fun g => g <=? 9999) gs then Ok tt else Err err_numeric_malformed.
Proof.
  intros Hr Hgs. revert k Hr. induction Hgs as [|g gs Hg _ IH]; intros k Hr; [done|]. cbn [digits_loop length forallb fmap list_fmap concat] in *. rewrite (u16_rest _ _ _ _ Hr). cbn [mbind outcome_bind].
  rewrite Z.mod_small by done. destruct (Z.leb_spec g 9999) as [Hle|Hlt]; cbn [andb]; [rewrite (proj2 (Z.ltb_ge _ _)) by lia | by rewrite (proj2 (Z.ltb_lt _ _)) by lia].
  apply IH. apply rest_skip in Hr. unfold be2 in Hr. rewrite len_be_bytes in Hr. by replace (8 + 2 * (k + 1)) with (8 + 2 * k + Z.of_nat 2) by lia.
Qed.

(** The header of a text of words: what [numeric_header] checks of it. *)
Lemma numeric_header_words nd w sg ds gs :
  0 <= nd < 2 ^ 16 -> 0 <= w < 2 ^ 16 -> 0 <= sg < 2 ^ 16 -> 0 <= ds < 2 ^ 16 -> Forall (fun g => 0 <= g < 2 ^ 16) gs ->
  let h := mkNumericHeader (i16 nd) (i16 w) sg ds in
  numeric_header (be2 nd ++ be2 w ++ be2 sg ++ be2 ds ++ concat (be2 <$> gs))
  = if bool_decide (ndigits h = len gs) && (ds <=? 0x3FFF) && (finite_sign sg || special_sign sg && bool_decide (gs = [])) && forallb (fun g => g <=? 9999) gs
    then Ok h else Err err_numeric_malformed.
Proof.
  intros Hnd Hw Hsg Hds Hgs h. set (b := be2 nd ++ _). assert (Hl : len b = 8 + 2 * len gs) by (unfold b, be2; rewrite !len_app, !len_be_bytes, <- len_words; unfold be2; lia). pose proof (len_nonneg gs) as Hn.
  pose proof (rest_whole b : rest_at b 0 (be2 nd ++ _)) as R0. pose proof (rest_skip _ _ _ _ R0 : rest_at b 2 _) as R2. pose proof (rest_skip _ _ _ _ R2 : rest_at b 4 _) as R4.
  pose proof (rest_skip _ _ _ _ R4 : rest_at b 6 _) as R6. pose proof (rest_skip _ _ _ _ R6 : rest_at b 8 _) as R8. unfold numeric_header. rewrite (proj2 (Z.ltb_ge _ _)) by lia.
  rewrite (u16_rest _ _ _ _ R0), (u16_rest _ _ _ _ R2), (u16_rest _ _ _ _ R4), (u16_rest _ _ _ _ R6). cbn [mbind outcome_bind]. rewrite !Z.mod_small by done. fold h.
  rewrite Hl. destruct (bool_decide_reflect (ndigits h = len gs)) as [E|E]; cbn [andb].
  2: { rewrite (proj2 (Z.eqb_neq (8 + 2 * len gs) _)) by lia. cbn [negb]. by rewrite orb_true_r. }
  rewrite E, (proj2 (Z.ltb_ge (len gs) 0)), Z.eqb_refl by lia. cbn [negb orb]. change (dscale h) with ds. rewrite Z.ltb_antisym. destruct (ds <=? 16383); cbn [negb andb]; [|done].
  assert (Es : sign_check h = if finite_sign sg || special_sign sg && bool_decide (gs = []) then Ok tt else Err err_numeric_malformed).
  { unfold sign_check. change (sign h) with sg. rewrite E. fold (finite_sign sg) (special_sign sg). destruct (finite_sign sg); [done|]. cbn [orb]. destruct (special_sign sg); [|done]. cbn [andb].
    destruct (bool_decide_reflect (gs = [])) as [->|Hne]; [done|]. rewrite (proj2 (Z.eqb_neq (len gs) 0)); [done|]. intros H0. by apply len_zero in H0. }
  rewrite Es. destruct (_ || _); [|done]. cbn [mbind outcome_bind andb]. unfold len. rewrite Nat2Z.id, (numeric_digits_spec gs b 0 R8 Hgs). by destruct (forallb _ gs).
Qed.

Lemma be2_i16 w : be2 (i16 w) = be2 w.
Proof. apply be_bytes_ext. change (256 ^ Z.of_nat 2) with (2 ^ 16). unfold i16. rewrite Zminus_mod, Z.mod_mod, <- Zminus_mod by lia. f_equal. lia. Qed.

Lemma be2_mod w : be2 (w mod 2 ^ 16) = be2 w.
Proof. apply be_bytes_ext. change (256 ^ Z.of_nat 2) with (2 ^ 16). by rewrite Z.mod_mod. Qed.

Lemma sign_range sg : finite_sign sg || special_sign sg = true -> 0 <= sg < 2 ^ 16.
Proof. unfold finite_sign, special_sign. intros H. repeat (apply orb_prop in H as [H|H]); apply Z.eqb_eq in H as ->; by vm_compute. Qed.

(** [numeric_header] accepts exactly the encodings. *)
Lemma numeric_header_complete sg w ds gs : numeric_wf sg w ds gs -> numeric_header (enc_numeric sg w ds gs) = Ok (mkNumericHeader (len gs) w sg ds).
Proof.
  intros [Hc Hw Hd Hs Hg]. pose proof (len_nonneg gs) as Hn. unfold enc_numeric. rewrite <- (be2_mod w).
  assert (Hsr : 0 <= sg < 2 ^ 16) by (apply sign_range; destruct Hs as [->|[-> _]]; [done | by rewrite orb_true_r]).
  rewrite numeric_header_words; [|lia | apply Z.mod_pos_bound; lia | done | lia | by apply (Forall_impl _ _ _ Hg); intros; lia]. cbn [ndigits]. rewrite i16_mod by lia.
  assert (E : i16 (len gs) = len gs) by (rewrite <- (Z.mod_small (len gs) (2 ^ 16)) at 1 by lia; apply i16_mod; lia). rewrite E, bool_decide_eq_true_2, (proj2 (Z.leb_le _ _)) by (done || lia). cbn [andb].
  assert (Hb : finite_sign sg || special_sign sg && bool_decide (gs = []) = true) by (destruct Hs as [->|[-> ->]]; [done | by rewrite bool_decide_eq_true_2, orb_true_r]). rewrite Hb.
  assert (Ha : forallb (fun g => g <=? 9999) gs = true) by (apply forallb_forall; intros g Hin; rewrite Forall_forall in Hg; apply Z.leb_le; pose proof (Hg g (proj2 (list_elem_of_In _ _) Hin)); lia). by rewrite Ha.
Qed.

Lemma numeric_header_sound b :
  (exists sg w ds gs, numeric_wf sg w ds gs /\ b = enc_numeric sg w ds gs) \/
  (numeric_header b = Err err_numeric_malformed /\ forall sg w ds gs, numeric_wf sg w ds gs -> b <> enc_numeric sg w ds gs).
Proof.
  assert (Hno : numeric_header b = Err err_numeric_malformed -> numeric_header b = Err err_numeric_malformed /\ forall sg w ds gs, numeric_wf sg w ds gs -> b <> enc_numeric sg w ds gs).
  { intros E. split; [done|]. intros sg w ds gs Hwf ->. by rewrite numeric_header_complete in E. }
  destruct (Z.ltb_spec (len b) 8) as [Hlt|Hge]; [right; apply Hno; unfold numeric_header; by rewrite (proj2 (Z.ltb_lt _ _))|].
  destruct (word_split 2 b) as (nd & b1 & -> & Hnd); [lia|]. destruct (word_split 2 b1) as (w & b2 & -> & Hw); [rewrite len_app, len_be_bytes in Hge; lia|].
  destruct (word_split 2 b2) as (sg & b3 & -> & Hsg); [rewrite !len_app, !len_be_bytes in Hge; lia|]. destruct (word_split 2 b3) as (ds & s & -> & Hds); [rewrite !len_app, !len_be_bytes in Hge; lia|].
  destruct (decide (len s = 2 * i16 nd)) as [El|Hne].
  - destruct (words_split (Z.to_nat (i16 nd)) s) as (gs & -> & Hn & Hgs); [pose proof (len_nonneg s); lia|]. fold (be2 nd) (be2 w) (be2 sg) (be2 ds) in *. pose proof (numeric_header_words nd w sg ds gs Hnd Hw Hsg Hds Hgs) as E. cbn zeta in E.
    destruct (_ && _) eqn:Hc in E; [|right; by apply Hno]. left. apply andb_prop in Hc as [[[Hc1 Hc2]%andb_prop Hc3]%andb_prop Hc4]. apply bool_decide_eq_true in Hc1. apply Z.leb_le in Hc2. cbn [ndigits] in Hc1.
    pose proof (i16_range nd). exists sg, (i16 w), ds, gs. split.
    + split; [lia | apply i16_range | lia | | ]. { apply orb_prop in Hc3 as [->|[-> Hnil]%andb_prop]; [by left | right; split; [done | by apply bool_decide_eq_true in Hnil]]. }
      apply Forall_forall. intros g Hin. rewrite forallb_forall in Hc4. apply list_elem_of_In in Hin as Hin'. apply Hc4, Z.leb_le in Hin'. rewrite Forall_forall in Hgs. specialize (Hgs g Hin). lia.
    + unfold enc_numeric. by rewrite be2_i16, <- Hc1, be2_i16.
  - right. apply Hno. unfold numeric_header. rewrite (proj2 (Z.ltb_ge _ _)) by lia. set (b := be_bytes 2 nd ++ _) in *. pose proof (rest_whole b : rest_at b 0 (be2 nd ++ _)) as R0.
    pose proof (rest_skip _ _ _ _ R0 : rest_at b 2 _) as R2. pose proof (rest_skip _ _ _ _ R2 : rest_at b 4 _) as R4. pose proof (rest_skip _ _ _ _ R4 : rest_at b 6 _) as R6.
    rewrite (u16_rest _ _ _ _ R0), (u16_rest _ _ _ _ R2), (u16_rest _ _ _ _ R4), (u16_rest _ _ _ _ R6). cbn [mbind outcome_bind ndigits]. rewrite (Z.mod_small nd) by done.
    assert (Hl : len b = 8 + len s) by (unfold b; rewrite !len_app, !len_be_bytes; lia). rewrite (proj2 (Z.eqb_neq (len b) _)) by lia. cbn [negb]. by rewrite orb_true_r.
Qed.

(** The digit worth 10000^(weight - k), the implicit zeros included. *)
Definition group (gs : list Z) (k : Z) : Z := if k <? 0 then 0 else default 0 (gs !! Z.to_nat k).

Lemma group_range gs k : Forall (fun g => 0 <= g < 10000) gs -> 0 <= group gs k < 10000.
Proof. intros Hg. unfold group. destruct (k <? 0); [lia|]. destruct (gs !! Z.to_nat k) as [g|] eqn:E; cbn; [|lia]. by apply (Forall_lookup_1 _ _ _ _ Hg E). Qed.

Lemma group_past gs k : len gs <= k -> group gs k = 0.
Proof. intros H. unfold group, len in *. destruct (Z.ltb_spec k 0); [done|]. by rewrite lookup_ge_None_2 by lia. Qed.

Lemma numeric_digit_spec sg w ds gs k : numeric_wf sg w ds gs -> numeric_digit (enc_numeric sg w ds gs) (mkNumericHeader (len gs) w sg ds) k = Ok (group gs k).
Proof.
  intros Hwf. unfold numeric_digit. cbn [ndigits]. destruct (Z.ltb_spec k 0) as [Hk|Hk]; cbn [orb]; [unfold group; by rewrite (proj2 (Z.ltb_lt _ _))|]. destruct (Z.leb_spec (len gs) k) as [Hn|Hn]; [by rewrite group_past|].
  destruct (lookup_lt_is_Some_2 gs (Z.to_nat k)) as [g Eg]; [unfold len in Hn; lia|]. assert (Hgr : group gs k = g) by (unfold group; by rewrite (proj2 (Z.ltb_ge _ _)), Eg by lia). rewrite Hgr.
  pose proof (take_drop_middle gs _ _ Eg) as Es. rewrite <- Es. unfold enc_numeric. rewrite fmap_app, concat_app. cbn [fmap list_fmap concat]. rewrite !app_assoc. rewrite <- (app_assoc _ (be2 g)).
  assert (Hr : forall a s, len a = 8 + 2 * k -> big_endian_u16_at (a ++ be2 g ++ s) (8 + 2 * k) = Ok g).
  { intros a s Ha. rewrite (u16_rest _ _ g s) by (by exists a). rewrite Z.mod_small; [done|]. pose proof (Forall_lookup_1 _ _ _ _ (wf_groups _ _ _ _ Hwf) Eg) as Hg. cbn in Hg. lia. }
  apply Hr. rewrite !len_app, len_words. unfold be2. rewrite !len_be_bytes. unfold len in *. rewrite length_take. lia.
Qed.

(** ** Decimal digits *)

Definition dec (v : Z) (ds : list Z) : Z := foldl (fun a d => a * 10 + d) v ds.

Definition dig4 (g : Z) : list Z := [g / 1000 mod 10; g / 100 mod 10; g / 10 mod 10; g mod 10].

Definition is_digit (d : Z) : Prop := 0 <= d < 10.

Lemma dec_app v a b : dec v (a ++ b) = dec (dec v a) b.
Proof. apply foldl_app. Qed.

Lemma dec_shift v ds : dec v ds = v * 10 ^ len ds + dec 0 ds.
Proof.
  induction ds as [|d ds IH] using rev_ind; [rewrite len_nil, Z.pow_0_r; cbn [dec foldl]; lia|]. rewrite !dec_app, IH, len_app, Z.pow_add_r by apply len_nonneg. cbn [dec foldl]. change (10 ^ len [d]) with 10. lia.
Qed.

Lemma dec_range ds : Forall is_digit ds -> 0 <= dec 0 ds < 10 ^ len ds.
Proof.
  induction ds as [|d ds IH] using rev_ind; [done|]. intros [H [Hd _]%Forall_cons]%Forall_app. specialize (IH H). rewrite dec_app, len_app, Z.pow_add_r by apply len_nonneg. cbn [dec foldl]. change (10 ^ len [d]) with 10.
  unfold is_digit in Hd. lia.
Qed.

Lemma dec_zeros ds : Forall is_digit ds -> dec 0 ds = 0 <-> Forall (fun d => d = 0) ds.
Proof.
  induction ds as [|d ds IH]; [done|]. intros [Hd Hds]%Forall_cons. cbn [dec foldl]. change (foldl _ _ ds) with (dec (0 * 10 + d) ds). rewrite dec_shift, Forall_cons. pose proof (dec_range ds Hds). unfold is_digit in Hd.
  pose proof (Z.pow_pos_nonneg 10 (len ds) ltac:(lia) (len_nonneg ds)). specialize (IH Hds). rewrite <- IH. nia.
Qed.

Lemma dig4_digits g : Forall is_digit (dig4 g).
Proof. unfold dig4, is_digit. repeat constructor; apply Z.mod_pos_bound; lia. Qed.

Lemma dig4_val v g : 0 <= g < 10000 -> dec v (dig4 g) = v * 10000 + g.
Proof.
  intros Hg. unfold dig4, dec. cbn [foldl]. assert (E2 : g / 100 = g / 10 / 10) by (by rewrite Z.div_div). assert (E3 : g / 1000 = g / 10 / 10 / 10) by (by rewrite !Z.div_div).
  assert (E4 : g / 10 / 10 / 10 / 10 = 0) by (rewrite !Z.div_div by lia; apply Z.div_small; lia). rewrite E2, E3.
  pose proof (Z.div_mod g 10). pose proof (Z.div_mod (g / 10) 10). pose proof (Z.div_mod (g / 10 / 10) 10). pose proof (Z.div_mod (g / 10 / 10 / 10) 10). lia.
Qed.

(** All decimal digits of the groups from [k] on, [n] groups of them. *)
Definition digits_from (gs : list Z) (k : Z) (n : nat) : list Z := concat ((fun j => dig4 (group gs j)) <$> seqZ k (Z.of_nat n)).

Lemma digits_from_S gs k n : digits_from gs k (S n) = dig4 (group gs k) ++ digits_from gs (k + 1) n.
Proof. unfold digits_from. rewrite Nat2Z.inj_succ, seqZ_cons by lia. cbn [fmap list_fmap concat]. by rewrite Z.pred_succ, <- Z.add_1_r. Qed.

Lemma digits_from_add gs k n m : digits_from gs k (n + m) = digits_from gs k n ++ digits_from gs (k + Z.of_nat n) m.
Proof.
  revert k. induction n as [|n IH]; intros k; [by rewrite Z.add_0_r|]. rewrite Nat.add_succ_l, !digits_from_S, IH, <- app_assoc. do 3 f_equal. lia.
Qed.

Lemma len_digits_from gs k n : len (digits_from gs k n) = 4 * Z.of_nat n.
Proof. revert k. induction n as [|n IH]; intros k; [done|]. rewrite digits_from_S, len_app, IH. change (len (dig4 _)) with 4. lia. Qed.

Lemma digits_from_digits gs k n : Forall is_digit (digits_from gs k n).
Proof. revert k. induction n as [|n IH]; intros k; [constructor|]. rewrite digits_from_S. apply Forall_app. split; [apply dig4_digits | apply IH]. Qed.

(** The base-10000 number the groups spell. *)
Definition gval (gs : list Z) : Z := foldl (fun a g => a * 10000 + g) 0 gs.

Lemma gval_snoc gs g : gval (gs ++ [g]) = gval gs * 10000 + g.
Proof. unfold gval. by rewrite foldl_app. Qed.

Lemma gval_take gs n : gval (take (S n) gs) = gval (take n gs) * (if (n <? length gs)%nat then 10000 else 1) + group gs (Z.of_nat n).
Proof.
  unfold group. rewrite (proj2 (Z.ltb_ge _ _)), Nat2Z.id by lia. destruct (Nat.ltb_spec n (length gs)) as [H|H].
  - destruct (lookup_lt_is_Some_2 gs n H) as [g E]. by rewrite (take_S_r _ _ _ E), gval_snoc, E.
  - rewrite lookup_ge_None_2, !take_ge by lia. cbn. lia.
Qed.

(** Reading from the first group on gives the groups' number, with the implicit zeros
    behind them. *)
Lemma digits_from_val gs n : Forall (fun g => 0 <= g < 10000) gs -> dec 0 (digits_from gs 0 n) = gval (take n gs) * 10000 ^ Z.of_nat (n - length gs).
Proof.
  intros Hg. induction n as [|n IH]; [done|]. replace (S n) with (n + 1)%nat by lia. rewrite digits_from_add, dec_app, IH, digits_from_S. unfold digits_from at 1. cbn [Z.of_nat seqZ fmap list_fmap concat]. rewrite app_nil_r, dig4_val by (by apply group_range).
  rewrite Nat.add_1_r, gval_take, Z.add_0_l. destruct (Nat.ltb_spec n (length gs)) as [H|H].
  - replace (n - length gs)%nat with O by lia. replace (S n - length gs)%nat with O by lia. cbn. lia.
  - rewrite (group_past gs (Z.of_nat n)) by (unfold len; lia). replace (S n - length gs)%nat with (S (n - length gs)) by lia. rewrite Nat2Z.inj_succ, Z.pow_succ_r by lia. lia.
Qed.

Lemma digits_from_before gs k n : k + Z.of_nat n <= 0 -> Forall (fun d => d = 0) (digits_from gs k n).
Proof.
  revert k. induction n as [|n IH]; intros k H; [constructor|]. rewrite digits_from_S. apply Forall_app. split; [|apply IH; lia]. unfold group. rewrite (proj2 (Z.ltb_lt _ _)) by lia. by repeat constructor.
Qed.

Lemma digits_from_past gs k n : len gs <= k -> Forall (fun d => d = 0) (digits_from gs k n).
Proof. revert k. induction n as [|n IH]; intros k H; [constructor|]. rewrite digits_from_S. apply Forall_app. split; [|apply IH; lia]. rewrite group_past by done. by repeat constructor. Qed.

(** ** The value of a numeric *)

(** The magnitude in units of 10^-s, cut to an integer, and whether the cut lost nothing. *)
Definition numeric_floor (gs : list Z) (w s : Z) : Z :=
  let e := s + 4 * (w + 1 - len gs) in if 0 <=? e then gval gs * 10 ^ e else gval gs / 10 ^ (- e).

Definition numeric_exact (gs : list Z) (w s : Z) : bool :=
  let e := s + 4 * (w + 1 - len gs) in (0 <=? e) || (gval gs mod 10 ^ (- e) =? 0).

Lemma shift_div D a c : 0 <= a -> 0 <= c ->
  D * 10 ^ a / 10 ^ c = (if 0 <=? a - c then D * 10 ^ (a - c) else D / 10 ^ (- (a - c))) /\
  (D * 10 ^ a mod 10 ^ c =? 0) = (0 <=? a - c) || (D mod 10 ^ (- (a - c)) =? 0).
Proof.
  intros Ha Hc. pose proof (Z.pow_pos_nonneg 10 a ltac:(lia) Ha) as Pa. pose proof (Z.pow_pos_nonneg 10 c ltac:(lia) Hc) as Pc. destruct (Z.leb_spec 0 (a - c)) as [H|H]; cbn [orb].
  - replace (10 ^ a) with (10 ^ (a - c) * 10 ^ c) by (rewrite <- Z.pow_add_r by lia; f_equal; lia). rewrite Z.mul_assoc, Z.div_mul, Z.mod_mul by lia. done.
  - replace (10 ^ c) with (10 ^ (- (a - c)) * 10 ^ a) by (rewrite <- Z.pow_add_r by lia; f_equal; lia). pose proof (Z.pow_pos_nonneg 10 (- (a - c)) ltac:(lia) ltac:(lia)) as Pn.
    rewrite Z.div_mul_cancel_r, Z.mul_mod_distr_r by lia. split; [done|]. destruct (Z.eqb_spec (D mod 10 ^ (- (a - c))) 0) as [->|Hne]; [done|]. apply Z.eqb_neq. nia.
Qed.

Lemma whole_val gs k n : Forall (fun g => 0 <= g < 10000) gs -> k <= 0 -> len gs <= k + Z.of_nat n ->
  dec 0 (digits_from gs k n) = gval gs * 10 ^ (4 * (k + Z.of_nat n - len gs)).
Proof.
  intros Hg Hk Hn. pose proof (len_nonneg gs). replace n with (Z.to_nat (- k) + Z.to_nat (k + Z.of_nat n))%nat at 1 by lia. rewrite digits_from_add, dec_app.
  rewrite (proj2 (dec_zeros _ (digits_from_digits _ _ _))) by (apply digits_from_before; lia). replace (k + Z.of_nat (Z.to_nat (- k))) with 0 by lia. rewrite digits_from_val by done.
  unfold len in *. rewrite take_ge by lia. f_equal. change 10000 with (10 ^ 4). rewrite <- Z.pow_mul_r by lia. f_equal. lia.
Qed.

(** Cutting the digits behind the point at [s] of them cuts the value. *)
Lemma stream_floor gs w s k n m : Forall (fun g => 0 <= g < 10000) gs -> k <= 0 -> len gs <= k + Z.of_nat n -> (m <= 4 * n)%nat -> Z.of_nat m = 4 * (w + 1 - k) + s ->
  dec 0 (take m (digits_from gs k n)) = numeric_floor gs w s /\ (Forall (fun d => d = 0) (drop m (digits_from gs k n)) <-> numeric_exact gs w s = true).
Proof.
  intros Hg Hk Hn Hm Em. set (ds := digits_from gs k n). pose proof (whole_val gs k n Hg Hk Hn) as Hv. fold ds in Hv. pose proof (digits_from_digits gs k n : Forall is_digit ds) as Hd.
  assert (Hl : len (drop m ds) = 4 * Z.of_nat n - Z.of_nat m) by (pose proof (len_digits_from gs k n : len ds = _) as H; unfold len in *; rewrite length_drop; lia).
  rewrite <- (take_drop m ds), dec_app, dec_shift, Hl in Hv. pose proof (dec_range _ (Forall_drop _ m _ Hd)) as Hr. rewrite Hl in Hr.
  set (a := 4 * (k + Z.of_nat n - len gs)) in *. set (c := 4 * Z.of_nat n - Z.of_nat m) in *. destruct (shift_div (gval gs) a c ltac:(lia) ltac:(lia)) as [E1 E2]. rewrite <- Hv in E1, E2.
  assert (Hp : 0 < 10 ^ c) by (apply Z.pow_pos_nonneg; lia). rewrite Z.div_add_l, (Z.div_small _ _ Hr), Z.add_0_r in E1 by lia.
  rewrite Z.add_comm, Z.mod_add, (Z.mod_small _ _ Hr) in E2 by lia. unfold numeric_floor, numeric_exact. replace (s + 4 * (w + 1 - len gs)) with (a - c) by lia. split; [done|].
  rewrite <- E2, Z.eqb_eq. symmetry. apply dec_zeros, Forall_drop, Hd.
Qed.

(** ** Scaled integers *)

(** [decode_numeric_i64_scaled] over the decimal digits: [m] of them are kept. *)
Fixpoint scan (limit : Z) (m acc : Z) (ds : list Z) : outcome (Z * Z) :=
  match ds with
  | [] => Ok (acc, m)
  | d :: ds =>
      if m =? 0 then if negb (d =? 0) then Err err_numeric_precision else scan limit m acc ds
      else if limit <? acc * 10 + d then Err err_numeric_range else scan limit (m - 1) (acc * 10 + d) ds
  end.

Lemma pg_scan_app limit m acc a b : scan limit m acc (a ++ b) = '(acc, m) ← scan limit m acc a; scan limit m acc b.
Proof. revert m acc. induction a as [|d a IH]; intros m acc; [done|]. cbn [scan app]. destruct (m =? 0); [destruct (negb _); [done | apply IH]|]. destruct (_ <? _); [done | apply IH]. Qed.

Lemma scan_zero limit acc ds : scan limit 0 acc ds = if forallb (Z.eqb 0) ds then Ok (acc, 0) else Err err_numeric_precision.
Proof. induction ds as [|d ds IH]; [done|]. cbn [scan forallb]. rewrite Z.eqb_refl, (Z.eqb_sym 0 d). destruct (d =? 0); [done | done]. Qed.

Lemma dec_mono acc ds : 0 <= acc -> Forall is_digit ds -> acc <= dec acc ds.
Proof. intros Ha Hd. rewrite dec_shift. pose proof (dec_range ds Hd). pose proof (Z.pow_pos_nonneg 10 (len ds) ltac:(lia) (len_nonneg ds)). nia. Qed.

Lemma scan_spec limit m acc ds : 0 <= acc <= limit -> Forall is_digit ds -> (m <= length ds)%nat ->
  scan limit (Z.of_nat m) acc ds = if limit <? dec acc (take m ds) then Err err_numeric_range else if forallb (Z.eqb 0) (drop m ds) then Ok (dec acc (take m ds), 0) else Err err_numeric_precision.
Proof.
  revert acc ds. induction m as [|m IH]; intros acc ds Ha Hd Hm.
  - rewrite take_0, drop_0, scan_zero. change (dec acc []) with acc. by rewrite (proj2 (Z.ltb_ge limit acc)) by lia.
  - destruct ds as [|d ds]; [cbn in Hm; lia|]. apply Forall_cons in Hd as [Hd1 Hd]. unfold is_digit in Hd1. cbn [scan take drop]. rewrite (proj2 (Z.eqb_neq _ _)) by lia. replace (Z.of_nat (S m) - 1) with (Z.of_nat m) by lia.
    change (dec acc (d :: take m ds)) with (dec (acc * 10 + d) (take m ds)). destruct (Z.ltb_spec limit (acc * 10 + d)) as [Hlt|Hge].
    + pose proof (dec_mono (acc * 10 + d) (take m ds) ltac:(lia) (Forall_take _ m _ Hd)). by rewrite (proj2 (Z.ltb_lt _ _)) by lia.
    + apply IH; [lia | done | cbn in Hm; lia].
Qed.

Lemma quot_div_nn a b : 0 <= a -> 0 <= b -> Z.quot a b = a / b.
Proof. intros Ha Hb. destruct (decide (b = 0)) as [->|]; [by rewrite Z.div_0_r; destruct a|]. apply Z.quot_div_nonneg; lia. Qed.

(** The digits [scale_digits] takes. *)
Fixpoint group_digits (n : nat) (d div : Z) : list Z := match n with O => [] | S n => d / div mod 10 :: group_digits n d (div / 10) end.

Lemma group_digits_dig4 g : group_digits 4 g 1000 = dig4 g.
Proof. cbn [group_digits]. change (1000 / 10 / 10 / 10) with 1. by rewrite Z.div_1_r. Qed.

Lemma fits_test limit acc digit : ((limit - digit) / 10 <? acc) = (limit <? acc * 10 + digit).
Proof. apply eq_bool_prop_intro. rewrite !Is_true_true, !Z.ltb_lt. pose proof (Z.div_mod (limit - digit) 10). pose proof (Z.mod_pos_bound (limit - digit) 10). lia. Qed.

Lemma scale_digits_frac n d div limit acc fl : 0 <= d -> 0 <= div -> 0 <= acc <= limit -> limit < 2 ^ 64 ->
  scale_digits n d div true limit acc fl = scan limit fl acc (group_digits n d div).
Proof.
  revert div acc fl. induction n as [|n IH]; intros div acc fl Hd Hv Ha Hl; [done|]. cbn [scale_digits group_digits scan]. rewrite (quot_div_nn div), (quot_div_nn d), Z.rem_mod_nonneg by (done || lia || (apply Z_div_nonneg_nonneg; lia)).
  pose proof (Z.mod_pos_bound (d / div) 10 ltac:(lia)). assert (0 <= div / 10) by (apply Z_div_nonneg_nonneg; lia). rewrite fits_test. cbn [andb].
  destruct (fl =? 0); [destruct (negb _); [done | by apply IH]|]. destruct (Z.ltb_spec limit (acc * 10 + d / div mod 10)); [done|]. unfold u64w. rewrite (Z.mod_small (acc * 10 + _)) by lia. apply IH; lia.
Qed.

Lemma scale_digits_int n d div limit acc fl : 0 <= d -> 0 <= div -> 0 <= acc <= limit -> limit < 2 ^ 64 ->
  scale_digits n d div false limit acc fl = (fun '(a, _) => (a, fl)) <$> scan limit (Z.of_nat n) acc (group_digits n d div).
Proof.
  revert div acc. induction n as [|n IH]; intros div acc Hd Hv Ha Hl; [done|]. cbn [scale_digits group_digits scan]. rewrite (quot_div_nn div), (quot_div_nn d), Z.rem_mod_nonneg by (done || lia || (apply Z_div_nonneg_nonneg; lia)).
  pose proof (Z.mod_pos_bound (d / div) 10 ltac:(lia)). assert (0 <= div / 10) by (apply Z_div_nonneg_nonneg; lia). rewrite fits_test. cbn [andb]. rewrite (proj2 (Z.eqb_neq (Z.of_nat (S n)) 0)) by lia.
  destruct (Z.ltb_spec limit (acc * 10 + d / div mod 10)); [done|]. unfold u64w. rewrite (Z.mod_small (acc * 10 + _)) by lia. replace (Z.of_nat (S n) - 1) with (Z.of_nat n) by lia. apply IH; lia.
Qed.

(** What [scan] leaves: the magnitude stays in range, and the digits kept are counted. *)
Lemma scan_post limit m acc ds : 0 <= acc <= limit -> Forall is_digit ds -> 0 <= m -> post (fun '(a, m') => 0 <= a <= limit /\ m' = Z.max 0 (m - len ds)) (scan limit m acc ds).
Proof.
  revert m acc. induction ds as [|d ds IH]; intros m acc Ha Hd Hm; [cbn [scan post]; change (@len Z []) with 0; lia|]. apply Forall_cons in Hd as [Hd1 Hd]. unfold is_digit in Hd1. cbn [scan]. rewrite len_cons. pose proof (len_nonneg ds). destruct (Z.eqb_spec m 0) as [->|Hne].
  - destruct (negb _); [done|]. apply (post_weaken _ _ _ (IH 0 acc Ha Hd ltac:(lia))). intros [a m'] [? ->]. lia.
  - destruct (Z.ltb_spec limit (acc * 10 + d)); [done|]. apply (post_weaken _ _ _ (IH (m - 1) (acc * 10 + d) ltac:(lia) Hd ltac:(lia))). intros [a m'] [? ->]. lia.
Qed.

(** All digits of a group are kept while there are enough to keep. *)
Lemma scan_more limit n r acc ds : 0 <= acc <= limit -> Forall is_digit ds -> length ds = n -> 0 <= r ->
  scan limit (Z.of_nat n + r) acc ds = if limit <? dec acc ds then Err err_numeric_range else Ok (dec acc ds, r).
Proof.
  revert acc ds. induction n as [|n IH]; intros acc ds Ha Hd Hn Hr; destruct ds as [|d ds]; [|done..|]; cbn [scan].
  - change (dec acc []) with acc. rewrite (proj2 (Z.ltb_ge limit acc)) by lia. by rewrite Z.add_0_l.
  - apply Forall_cons in Hd as [Hd1 Hd]. unfold is_digit in Hd1. rewrite (proj2 (Z.eqb_neq _ _)) by lia. change (dec acc (d :: ds)) with (dec (acc * 10 + d) ds). replace (Z.of_nat (S n) + r - 1) with (Z.of_nat n + r) by lia.
    destruct (Z.ltb_spec limit (acc * 10 + d)) as [Hlt|Hge]; [|apply IH; [lia | done | by injection Hn | done]]. pose proof (dec_mono (acc * 10 + d) ds ltac:(lia) Hd). by rewrite (proj2 (Z.ltb_lt _ _)) by lia.
Qed.

Lemma scale_loop_spec sg w ds gs limit n : numeric_wf sg w ds gs -> limit < 2 ^ 64 -> forall fuel k acc fl m,
  0 <= acc <= limit -> 0 <= fl -> m = 4 * Z.max 0 (w + 1 - k) + fl -> (1 <= n <= fuel)%nat -> Z.max (w + 1) (len gs) <= k + Z.of_nat n -> m <= 4 * Z.of_nat n ->
  scale_loop fuel (enc_numeric sg w ds gs) (mkNumericHeader (len gs) w sg ds) limit k acc fl = fst <$> scan limit m acc (digits_from gs k n).
Proof.
  intros Hwf Hlim. pose proof (wf_groups _ _ _ _ Hwf) as Hg. induction n as [|n IH]; intros fuel k acc fl m Ha Hfl Em Hf Hn Hm; [lia|]. destruct fuel as [|fuel]; [lia|]. cbn [scale_loop].
  rewrite (numeric_digit_spec _ _ _ _ _ Hwf). cbn [mbind outcome_bind weight ndigits]. rewrite digits_from_S, pg_scan_app. pose proof (group_range gs k Hg) as Hgk.
  assert (Hone : scale_digits 4 (group gs k) 1000 (w <? k) limit acc fl = (fun '(a, m') => (a, m' - 4 * Z.max 0 (w - k))) <$> scan limit m acc (dig4 (group gs k))).
  { destruct (Z.ltb_spec w k) as [Hk|Hk].
    - rewrite scale_digits_frac by lia. rewrite group_digits_dig4. replace m with fl by lia. replace (4 * Z.max 0 (w - k)) with 0 by lia. destruct (scan _ _ _ _) as [[a m']| |]; cbn; [|done|done]. do 2 f_equal. lia.
    - rewrite scale_digits_int by lia. rewrite group_digits_dig4. pose proof (dig4_digits (group gs k)) as Hd. replace (Z.of_nat 4) with (Z.of_nat 4 + 0) by lia.
      replace m with (Z.of_nat 4 + (m - 4)) by lia. rewrite !(scan_more limit 4 _ acc _ Ha Hd eq_refl) by lia. destruct (_ <? _); [done|]. cbn [fmap outcome_fmap]. do 2 f_equal. lia. }
  rewrite Hone. pose proof (scan_post limit m acc (dig4 (group gs k)) Ha (dig4_digits _) ltac:(lia)) as Hp. destruct (scan limit m acc (dig4 (group gs k))) as [[a m']|e|]; cbn [fmap outcome_fmap mbind outcome_bind]; [|done|done].
  destruct Hp as [Ha' Em']. change (len (dig4 (group gs k))) with 4 in Em'. destruct (Z.ltb_spec w (k + 1)) as [Hw|Hw]; cbn [andb].
  - replace (m' - 4 * Z.max 0 (w - k)) with m' by lia. destruct (Z.eqb_spec m' 0) as [->|Hm']; cbn [andb]; [|apply IH; try lia].
    destruct (Z.leb_spec (len gs) (k + 1)) as [Hd|Hd]; [|apply IH; try lia]. rewrite scan_zero. pose proof (digits_from_past gs (k + 1) n Hd) as Hz.
    assert (Ef : forallb (Z.eqb 0) (digits_from gs (k + 1) n) = true) by (apply forallb_forall; intros x Hx; rewrite Forall_forall in Hz; apply Z.eqb_eq; symmetry; by apply Hz, list_elem_of_In). by rewrite Ef.
  - apply IH; try lia.
Qed.

(** What a numeric is worth at a scale: an integer in range, or why it is not. *)
Definition numeric_scaled (sg : Z) (gs : list Z) (w s : Z) : outcome Z :=
  let u := numeric_floor gs w s in
  if (s <? 0) || (18 <? s) then Err err_numeric_range
  else if (if sg =? numeric_neg then 2 ^ 63 else max_i64) <? u then Err err_numeric_range
  else if negb (numeric_exact gs w s) then Err err_numeric_precision
  else Ok (if sg =? numeric_neg then - u else u).

Lemma decode_numeric_scaled sg w ds gs s : numeric_wf sg w ds gs -> finite_sign sg = true -> decode_numeric_i64_scaled (enc_numeric sg w ds gs) s = numeric_scaled sg gs w s.
Proof.
  intros Hwf Hs. unfold decode_numeric_i64_scaled, numeric_scaled. rewrite (numeric_header_complete _ _ _ _ Hwf). cbn [mbind outcome_bind sign weight ndigits].
  assert (Hf : negb (sg =? numeric_pos) && negb (sg =? numeric_neg) = false) by (by rewrite <- negb_orb, negb_false_iff). rewrite Hf. destruct (Z.ltb_spec s 0) as [|H0]; [done|]. destruct (Z.ltb_spec 18 s) as [|H18]; [done|]. cbn [orb].
  set (limit := if sg =? numeric_neg then 2 ^ 63 else max_i64). assert (Hlim : 0 <= limit <= 2 ^ 63) by (unfold limit, max_i64; destruct (sg =? numeric_neg); lia). set (k := if w <? 0 then w + 1 else 0).
  assert (Hk : k <= 0 /\ k <= w + 1) by (unfold k; destruct (Z.ltb_spec w 0); lia). pose proof (len_nonneg gs) as Hn. set (n := (Z.to_nat (Z.max (len gs) (w + 1) - k) + 5)%nat). set (m := Z.to_nat (4 * (w + 1 - k) + s)).
  pose proof (wf_groups _ _ _ _ Hwf) as Hg. pose proof (wf_weight _ _ _ _ Hwf) as Hw. assert (Em : Z.of_nat m = 4 * (w + 1 - k) + s) by (unfold m; lia).
  assert (Hn1 : Z.max (w + 1) (len gs) <= k + Z.of_nat n /\ w + 1 - k + 5 <= Z.of_nat n) by (unfold n; lia). destruct (stream_floor gs w s k n m Hg ltac:(lia) ltac:(lia) ltac:(lia) Em) as [Efl Eex].
  rewrite (scale_loop_spec sg w ds gs limit n Hwf ltac:(lia) _ k 0 s (Z.of_nat m)); [|lia | lia | lia | unfold n; lia | lia | lia]. rewrite scan_spec; [|lia | apply digits_from_digits | pose proof (len_digits_from gs k n) as H; unfold len in H; lia].
  rewrite Efl. destruct (Z.ltb_spec limit (numeric_floor gs w s)) as [|Hle]; [done|].
  assert (Eb : forallb (Z.eqb 0) (drop m (digits_from gs k n)) = numeric_exact gs w s).
  { apply eq_bool_prop_intro. rewrite !Is_true_true, <- Eex, forallb_forall, Forall_forall. split; intros H x Hx; [symmetry; by apply Z.eqb_eq, H, list_elem_of_In | apply Z.eqb_eq; symmetry; by apply H, list_elem_of_In]. }
  rewrite Eb. destruct (numeric_exact gs w s); [|done]. cbn [negb fmap outcome_fmap mbind outcome_bind fst]. set (u := numeric_floor gs w s) in *.
  assert (Hu : 0 <= u) by (rewrite <- Efl; apply dec_mono; [lia | apply Forall_take, digits_from_digits]). f_equal. unfold limit, max_i64, min_i64 in *. destruct (sg =? numeric_neg).
  - destruct (Z.eqb_spec u (2 ^ 63)) as [->|Hne]; [done|]. rewrite <- (Z.mod_small u (2 ^ 64)) at 1 by lia. by rewrite i64_mod by lia.
  - rewrite <- (Z.mod_small u (2 ^ 64)) at 1 by lia. apply i64_mod. lia.
Qed.

(** ** Numerics as text *)

Definition digit_char (d : Z) : byte := byte_of_Z (48 + d).

(** The [n] low decimal digits of [v]. *)
Fixpoint dec_text (n : nat) (v : Z) : list byte := match n with O => [] | S n => dec_text n (v / 10) ++ [digit_char (v mod 10)] end.

Lemma length_dec_text n v : length (dec_text n v) = n.
Proof. revert v. induction n as [|n IH]; intros v; [done|]. cbn [dec_text]. rewrite length_app, IH. cbn. lia. Qed.

Lemma dec_text_app n m v : dec_text (n + m) v = dec_text n (v / 10 ^ Z.of_nat m) ++ dec_text m v.
Proof.
  revert v. induction m as [|m IH]; intros v; [by rewrite Nat.add_0_r, Z.div_1_r, app_nil_r|]. rewrite Nat.add_succ_r. cbn [dec_text]. rewrite IH, <- app_assoc. do 2 f_equal. rewrite Z.div_div by (lia || apply Z.pow_pos_nonneg; lia).
  f_equal. by rewrite Nat2Z.inj_succ, Z.pow_succ_r by lia.
Qed.

Lemma dec_text_mod n v : dec_text n (v mod 10 ^ Z.of_nat n) = dec_text n v.
Proof.
  revert v. induction n as [|n IH]; intros v; [done|]. cbn [dec_text]. rewrite Nat2Z.inj_succ, Z.pow_succ_r, Z.rem_mul_r by (lia || apply Z.pow_pos_nonneg; lia).
  rewrite (Z.mul_comm 10), Z.div_add, Z.mod_add, Z.mod_mod, (Z.div_small (v mod 10)), Z.add_0_l, IH by (lia || apply Z.mod_pos_bound; lia). done.
Qed.

Lemma dec_text_join n m v u : 0 <= u < 10 ^ Z.of_nat m -> dec_text n v ++ dec_text m u = dec_text (n + m) (v * 10 ^ Z.of_nat m + u).
Proof.
  intros Hu. rewrite dec_text_app, Z.div_add_l, Z.div_small, Z.add_0_r by lia. f_equal. rewrite <- (dec_text_mod m (_ + u)), Z.add_comm, Z.mod_add, dec_text_mod by lia. done.
Qed.

Lemma dec_text_digits ds : Forall is_digit ds -> dec_text (length ds) (dec 0 ds) = digit_char <$> ds.
Proof.
  induction ds as [|d ds IH] using rev_ind; [done|]. intros [H [Hd _]%Forall_cons]%Forall_app. unfold is_digit in Hd. rewrite length_app, Nat.add_1_r, dec_app, fmap_app. cbn [dec_text dec foldl fmap list_fmap].
  change (foldl (fun a d0 => a * 10 + d0) 0 ds) with (dec 0 ds). rewrite Z.div_add_l, Z.div_small, Z.add_0_r, IH by (done || lia). rewrite Z.add_comm, Z.mod_add, Z.mod_small by lia. done.
Qed.

Lemma put_loop_spec n a j c x : length j = n -> 0 <= x -> put_loop n (a ++ j ++ c) (len a) x = Ok (a ++ dec_text n x ++ c).
Proof.
  revert j c x. induction n as [|n IH]; intros j c x Hj Hx; [by destruct j|]. destruct j as [|y j _] using rev_ind; [done|]. rewrite length_app, Nat.add_1_r in Hj. injection Hj as Hj. cbn [put_loop dec_text].
  replace (a ++ (j ++ [y]) ++ c) with ((a ++ j) ++ y :: c) by (by rewrite <- !app_assoc). replace (len a + Z.of_nat n) with (len (a ++ j)) by (rewrite len_app; unfold len; lia). rewrite set_at_mid. cbn [mbind outcome_bind].
  rewrite (quot_div_nn x), Z.rem_mod_nonneg by lia. rewrite <- !app_assoc. rewrite (IH j _ (x / 10) Hj) by (apply Z.div_pos; lia). done.
Qed.

Lemma put_digits_spec n a j c x : length j = n -> 0 <= x -> put_digits (a ++ j ++ c) (len a) x (Z.of_nat n) = Ok (a ++ dec_text n x ++ c, len (a ++ dec_text n x)).
Proof. intros Hj Hx. unfold put_digits. rewrite Nat2Z.id, (put_loop_spec n a j c x Hj Hx). cbn [mbind outcome_bind]. do 2 f_equal. rewrite len_app. unfold len. by rewrite length_dec_text. Qed.

Lemma dig4_text g n : 0 <= g < 10000 -> (n <= 4)%nat -> dec_text n (g / 10 ^ Z.of_nat (4 - n)) = digit_char <$> take n (dig4 g).
Proof.
  intros Hg Hn. pose proof (dec_text_digits (dig4 g) (dig4_digits g)) as E. rewrite (dig4_val 0 g Hg) in E. change (length (dig4 g)) with 4%nat in E. replace 4%nat with (n + (4 - n))%nat in E at 1 by lia. rewrite dec_text_app in E.
  rewrite fmap_take, <- E. change (0 * 10000 + g) with g. by rewrite take_app_length' by (by rewrite length_dec_text).
Qed.

(** Splitting the bytes still to be written. *)
Lemma split_at {A} n (j : list A) : (n <= length j)%nat -> exists j1 j2, j = j1 ++ j2 /\ length j1 = n /\ length j2 = (length j - n)%nat.
Proof. intros H. exists (take n j), (drop n j). rewrite take_drop, length_take, length_drop. split; [done | lia]. Qed.

Section Text.
Context (sg w ds : Z) (gs : list Z) (Hwf : numeric_wf sg w ds gs).
Let b : list byte := enc_numeric sg w ds gs.
Let h : NumericHeader := mkNumericHeader (len gs) w sg ds.

Lemma int_loop_spec n a j c k : length j = (4 * n)%nat ->
  int_loop n b h (a ++ j ++ c) (len a) k = Ok (a ++ (digit_char <$> digits_from gs k n) ++ c, len (a ++ (digit_char <$> digits_from gs k n))).
Proof.
  revert a j k. induction n as [|n IH]; intros a j k Hj; [destruct j; [|done]; by rewrite app_nil_r|]. cbn [int_loop]. rewrite (numeric_digit_spec _ _ _ _ k Hwf : numeric_digit b h k = _). cbn [mbind outcome_bind].
  destruct (split_at 4 j) as (j1 & j2 & -> & H1 & H2); [lia|]. rewrite <- app_assoc. pose proof (group_range gs k (wf_groups _ _ _ _ Hwf)) as Hg. rewrite (put_digits_spec 4 a j1 _ _ H1) by lia. cbn [mbind outcome_bind].
  pose proof (dig4_text (group gs k) 4 Hg ltac:(lia)) as E. rewrite Z.div_1_r in E. rewrite E. change (take 4 (dig4 (group gs k))) with (dig4 (group gs k)). rewrite app_assoc, IH by lia.
  rewrite digits_from_S, fmap_app, <- !app_assoc. done.
Qed.

Lemma frac_loop_spec fuel a j c k n : (length j <= fuel)%nat -> (length j <= 4 * n)%nat ->
  exists p, frac_loop fuel b h (a ++ j ++ c) (len a) (len j) k = Ok (a ++ (digit_char <$> take (length j) (digits_from gs k n)) ++ c, p).
Proof.
  revert a j k n. induction fuel as [|fuel IH]; intros a j k n Hf Hn; [destruct j; [|cbn in Hf; lia]; by exists (len a)|]. cbn [frac_loop]. destruct (Z.ltb_spec 0 (len j)) as [Hp|Hz].
  2: { rewrite (len_zero j) by (pose proof (len_nonneg j); lia). by exists (len a). }
  destruct n as [|n]; [unfold len in Hp; lia|]. set (m := Nat.min (length j) 4). assert (Hm : (if len j <? 4 then len j else 4) = Z.of_nat m) by (unfold m, len; destruct (Z.ltb_spec (Z.of_nat (length j)) 4); lia). rewrite Hm.
  rewrite (numeric_digit_spec _ _ _ _ k Hwf : numeric_digit b h k = _). cbn [mbind outcome_bind]. pose proof (group_range gs k (wf_groups _ _ _ _ Hwf)) as Hg. assert (Hm4 : (1 <= m <= 4)%nat) by (unfold m, len in *; lia).
  assert (Hmj : (m = length j \/ m = 4 /\ 4 <= length j)%nat) by (unfold m; lia). clearbody m.
  assert (Hdv : group_div !! Z.to_nat (4 - Z.of_nat m) = Some (10 ^ Z.of_nat (4 - m))) by (clear -Hm4; destruct m as [|[|[|[|[|]]]]]; (done || lia)). rewrite Hdv. cbn [mbind outcome_bind].
  assert (Hpw : 0 < 10 ^ Z.of_nat (4 - m)) by (apply Z.pow_pos_nonneg; lia). rewrite quot_div_nn by lia.
  destruct (split_at m j) as (j1 & j2 & -> & H1 & H2); [lia|]. rewrite <- app_assoc, (put_digits_spec m a j1 _ _ H1) by (apply Z.div_pos; lia). cbn [mbind outcome_bind]. rewrite (dig4_text _ m Hg) by lia.
  replace (len (j1 ++ j2) - Z.of_nat m) with (len j2) by (rewrite len_app; unfold len; lia). rewrite length_app in *. rewrite app_assoc.
  destruct (IH (a ++ (digit_char <$> take m (dig4 (group gs k)))) j2 (k + 1) n) as [p E]; [lia | lia|]. exists p. rewrite E. do 2 f_equal. rewrite digits_from_S, <- app_assoc. f_equal. rewrite app_assoc. f_equal. rewrite <- fmap_app. f_equal.
  rewrite H1. destruct (decide (length j2 = O)) as [E0|E0].
  - rewrite E0, take_0, app_nil_r, Nat.add_0_r. symmetry. apply take_app_le. cbn; lia.
  - assert (m = 4%nat) as -> by lia. by rewrite take_app_add' by done.
Qed.
End Text.

(** How PostgreSQL prints it: the integer part in [n] digits, then [ds] digits behind the
    point. *)
Definition numeric_text (n : nat) (sg : Z) (gs : list Z) (w ds : Z) : list byte :=
  let u := numeric_floor gs w ds in
  (if sg =? numeric_neg then [byte_of_Z 45] else []) ++ dec_text n (u / 10 ^ ds) ++
  (if 0 <? ds then byte_of_Z 46 :: dec_text (Z.to_nat ds) (u mod 10 ^ ds) else []).

(** [n] digits are enough for [v], and no fewer: a leading zero only for 0 itself. *)
Definition shortest (n : nat) (v : Z) : Prop := (0 < n)%nat /\ 0 <= v < 10 ^ Z.of_nat n /\ (n = 1%nat \/ 10 ^ (Z.of_nat n - 1) <= v).

(** The digits in front of the point: as many as the integer part has, if the groups start
    with a non-zero one, as those PostgreSQL sends do; a zero group in front is printed as
    one zero. *)
Definition int_part_width (gs : list Z) (w v : Z) (n : nat) : Prop :=
  if (0 <? w) && (group gs 0 =? 0) then Z.of_nat n = 1 + 4 * w /\ 0 <= v < 10 ^ Z.of_nat n else shortest n v.

(** The width the code gives it. *)
Definition numeric_width (gs : list Z) (w : Z) : nat := if w <? 0 then 1 else Z.to_nat (group_width (group gs 0) + 4 * w).

Definition int_digits (gs : list Z) (w : Z) : list Z := if w <? 0 then [] else digits_from gs 0 (Z.to_nat (w + 1)).

Lemma floor_parts gs w ds n : Forall (fun g => 0 <= g < 10000) gs -> 0 <= ds <= 4 * Z.of_nat n -> len gs <= w + 1 + Z.of_nat n ->
  numeric_floor gs w ds / 10 ^ ds = dec 0 (int_digits gs w) /\ numeric_floor gs w ds mod 10 ^ ds = dec 0 (take (Z.to_nat ds) (digits_from gs (w + 1) n)).
Proof.
  intros Hg Hds Hn. set (k := if w <? 0 then w + 1 else 0). assert (Hk : k <= 0 /\ k <= w + 1) by (unfold k; destruct (Z.ltb_spec w 0); lia). set (n1 := Z.to_nat (w + 1 - k)).
  assert (Hn1 : Z.of_nat n1 = w + 1 - k) by (unfold n1; lia). assert (Ei : int_digits gs w = digits_from gs k n1).
  { unfold int_digits, n1, k. destruct (w <? 0); [by rewrite Z.sub_diag | by rewrite Z.sub_0_r]. }
  destruct (stream_floor gs w ds k (n1 + n) (4 * n1 + Z.to_nat ds) Hg ltac:(lia) ltac:(lia) ltac:(lia) ltac:(lia)) as [<- _]. rewrite digits_from_add. replace (k + Z.of_nat n1) with (w + 1) by lia.
  assert (Hl : length (digits_from gs k n1) = (4 * n1)%nat) by (pose proof (len_digits_from gs k n1) as H; unfold len in H; lia). rewrite take_app_add' by done. rewrite dec_app, dec_shift, Ei.
  set (f := take _ (digits_from gs (w + 1) n)). assert (Hf : len f = ds) by (unfold f, len; rewrite length_take; pose proof (len_digits_from gs (w + 1) n) as H; unfold len in H; lia).
  pose proof (dec_range f (Forall_take _ _ _ (digits_from_digits gs (w + 1) n))) as Hr. rewrite Hf in *. rewrite Z.div_add_l, Z.div_small, Z.add_0_r by lia. split; [done|]. rewrite Z.add_comm, Z.mod_add, Z.mod_small by lia. done.
Qed.

Lemma group_width_range d : 1 <= group_width d <= 4.
Proof. unfold group_width. repeat case_match; lia. Qed.

Lemma group_width_fits d : 0 <= d < 10000 -> d < 10 ^ group_width d.
Proof. unfold group_width. intros H. destruct (Z.leb_spec 1000 d); [lia|]. destruct (Z.leb_spec 100 d); [lia|]. destruct (Z.leb_spec 10 d); lia. Qed.

Section TextInto.
Context (sg w ds : Z) (gs : list Z) (Hwf : numeric_wf sg w ds gs).
Let b : list byte := enc_numeric sg w ds gs.
Let h : NumericHeader := mkNumericHeader (len gs) w sg ds.

Lemma int_write a j c : length j = numeric_width gs w ->
  (if w <? 0 then out ← set_at (a ++ j ++ c) (len a) (byte_of_Z 48); Ok (out, len a + 1)
   else '(out, pos) ← put_digits (a ++ j ++ c) (len a) (group gs 0) (group_width (group gs 0)); int_loop (Z.to_nat w) b h out pos 1)
  = Ok (a ++ dec_text (numeric_width gs w) (dec 0 (int_digits gs w)) ++ c, len (a ++ dec_text (numeric_width gs w) (dec 0 (int_digits gs w)))).
Proof.
  unfold numeric_width, int_digits. destruct (Z.ltb_spec w 0) as [Hw|Hw]; intros Hj.
  - destruct j as [|y [|]]; [done| |done]. cbn [app]. rewrite set_at_mid. cbn [mbind outcome_bind]. change (dec_text 1 (dec 0 [])) with [byte_of_Z 48]. cbn [app]. by rewrite len_app.
  - pose proof (group_width_range (group gs 0)) as Hgw. destruct (split_at (Z.to_nat (group_width (group gs 0))) j) as (j1 & j2 & -> & H1 & H2); [lia|]. rewrite <- app_assoc. pose proof (wf_groups _ _ _ _ Hwf) as Hg. pose proof (group_range gs 0 Hg) as Hg0.
    set (n1 := Z.to_nat (group_width (group gs 0))) in *. replace (group_width (group gs 0)) with (Z.of_nat n1) at 1 by (unfold n1; lia). rewrite (put_digits_spec n1 a j1 _ _ H1) by lia. cbn [mbind outcome_bind]. rewrite app_assoc.
    unfold b, h. rewrite (int_loop_spec sg w ds gs Hwf (Z.to_nat w)) by lia. replace (Z.to_nat (w + 1)) with (S (Z.to_nat w)) by lia. rewrite digits_from_S, dec_app, dig4_val by done. change (0 + 1) with 1. set (dd := digits_from gs 1 (Z.to_nat w)).
    assert (Hl : length dd = (4 * Z.to_nat w)%nat) by (pose proof (len_digits_from gs 1 (Z.to_nat w)) as H; unfold len in H; unfold dd; lia).
    assert (Hd : Forall is_digit dd) by apply digits_from_digits. rewrite dec_shift. replace (0 * 10000 + group gs 0) with (group gs 0) by lia. pose proof (dec_range dd Hd) as Hr. unfold len in Hr.
    rewrite <- !app_assoc. rewrite <- (dec_text_digits dd Hd). replace (Z.to_nat (group_width (group gs 0) + 4 * w)) with (n1 + length dd)%nat by (unfold n1; lia). unfold len. rewrite <- (dec_text_join n1 (length dd) (group gs 0) _ Hr). by rewrite <- !app_assoc.
Qed.

Lemma numeric_text_finite junk out : (forall n, length (junk n) = n) -> finite_sign sg = true -> numeric_text_into junk b out = Ok (out ++ numeric_text (numeric_width gs w) sg gs w ds).
Proof.
  intros Hj Hs. unfold numeric_text_into, b. rewrite (numeric_header_complete _ _ _ _ Hwf). fold b h. cbn [mbind outcome_bind]. change (sign h) with sg. change (weight h) with w. change (dscale h) with ds.
  assert (Hsp : (sg =? numeric_nan) = false /\ (sg =? numeric_pinf) = false /\ (sg =? numeric_ninf) = false) by (unfold finite_sign in Hs; apply orb_prop in Hs as [H|H]; by apply Z.eqb_eq in H as ->). destruct Hsp as (-> & -> & ->).
  assert (Hfirst : (if w <? 0 then Ok 0 else numeric_digit b h 0) = Ok (if w <? 0 then 0 else group gs 0)) by (destruct (w <? 0); [done | apply (numeric_digit_spec _ _ _ _ 0 Hwf)]). rewrite Hfirst. cbn [mbind outcome_bind].
  pose proof (wf_groups _ _ _ _ Hwf) as Hg. pose proof (wf_dscale _ _ _ _ Hwf) as Hds. pose proof (group_width_range (group gs 0)) as Hgw.
  match goal with |- context [junk ?x] => set (n := x) end. set (j := junk n). assert (Hn : n = ((if (sg =? numeric_neg)%Z then 1 else 0) + numeric_width gs w + (if (0 <? ds)%Z then 1 + Z.to_nat ds else 0))%nat).
  { unfold n, numeric_width. destruct (Z.ltb_spec w 0); destruct (sg =? numeric_neg); destruct (Z.ltb_spec 0 ds); lia. }
  destruct (split_at (if sg =? numeric_neg then 1 else 0) j) as (js & jr & Ej & Hjs & Hjr); [unfold j; rewrite Hj; destruct (sg =? numeric_neg); lia|]. destruct (split_at (numeric_width gs w) jr) as (ji & jf & -> & Hji & Hjf); [unfold j in Hjr; rewrite Hj in Hjr; lia|].
  rewrite length_app in *. unfold j in Hjr. rewrite Hj in Hjr. rewrite Ej.
  assert (Hsign : (if sg =? numeric_neg then out0 ← set_at (out ++ js ++ ji ++ jf) (len out) (byte_of_Z 45); Ok (out0, len out + 1) else Ok (out ++ js ++ ji ++ jf, len out))
    = Ok ((out ++ (if sg =? numeric_neg then [byte_of_Z 45] else [])) ++ ji ++ jf, len (out ++ (if sg =? numeric_neg then [byte_of_Z 45] else [])))).
  { destruct (sg =? numeric_neg); [|destruct js; [|done]; by rewrite app_nil_r]. destruct js as [|y [|]]; [done| |done]. cbn [app]. rewrite set_at_mid. cbn [mbind outcome_bind]. rewrite <- app_assoc, len_app. done. }
  rewrite Hsign. cbn [mbind outcome_bind]. set (a := out ++ _). assert (Hint := int_write a ji jf Hji). destruct (floor_parts gs w ds (Z.to_nat (Z.max ds (len gs - w)))%nat Hg ltac:(lia) ltac:(lia)) as [E1 E2].
  unfold numeric_text. rewrite E1, E2. set (it := dec_text (numeric_width gs w) (dec 0 (int_digits gs w))) in *.
  destruct (Z.ltb_spec w 0) as [Hw|Hw]; rewrite Hint; cbn [mbind outcome_bind]; clear Hint.
  all: destruct (Z.ltb_spec 0 ds) as [Hd|Hd]; [|destruct jf; [|cbn in *; lia]; unfold a; by rewrite !app_nil_r, <- app_assoc].
  all: destruct jf as [|y jf]; [cbn in *; lia|]; rewrite app_assoc, set_at_mid; cbn [mbind outcome_bind].
  all: destruct (frac_loop_spec sg w ds gs Hwf (Z.to_nat ds) ((a ++ it) ++ [byte_of_Z 46]) jf [] (w + 1) (Z.to_nat (Z.max ds (len gs - w)))) as [p E]; [cbn in *; lia | cbn in *; lia|].
  all: rewrite app_nil_r, <- (app_assoc _ [_]) in E; cbn [app] in E; rewrite (len_app (a ++ it)) in E; change (len [byte_of_Z 46]) with 1 in E; replace (len jf) with ds in E by (unfold len; cbn in *; lia); unfold b, h in *; rewrite E.
  all: cbn [mbind outcome_bind]; rewrite app_nil_r; replace (length jf) with (Z.to_nat ds) by (cbn in *; lia); set (fd := take _ _); rewrite <- (dec_text_digits fd) by apply Forall_take, digits_from_digits.
  all: assert (Hfd : length fd = Z.to_nat ds) by (unfold fd; rewrite length_take; pose proof (len_digits_from gs (w + 1) (Z.to_nat (Z.max ds (len gs - w)))) as H; unfold len in *; lia); rewrite Hfd; unfold a; by rewrite <- !app_assoc.
Qed.
End TextInto.

Lemma group_width_least d : 1 <= d < 10000 -> 10 ^ (group_width d - 1) <= d.
Proof. unfold group_width. intros H. destruct (Z.leb_spec 1000 d); [lia|]. destruct (Z.leb_spec 100 d); [lia|]. destruct (Z.leb_spec 10 d); lia. Qed.

Lemma int_part_spec gs w : Forall (fun g => 0 <= g < 10000) gs -> int_part_width gs w (dec 0 (int_digits gs w)) (numeric_width gs w).
Proof.
  intros Hg. unfold int_part_width, int_digits, numeric_width. destruct (Z.ltb_spec w 0) as [Hw|Hw]; [rewrite (proj2 (Z.ltb_ge 0 w)) by lia; split; [lia|]; split; [cbn; lia | by left]|].
  replace (Z.to_nat (w + 1)) with (S (Z.to_nat w)) by lia. pose proof (group_range gs 0 Hg) as H0. pose proof (group_width_fits _ H0) as Hf. pose proof (group_width_range (group gs 0)) as Hgw.
  pose proof (dec_range _ (digits_from_digits gs (0 + 1) (Z.to_nat w))) as Hr. rewrite len_digits_from, Z2Nat.id in Hr by lia. rewrite digits_from_S, dec_app, dig4_val, dec_shift, len_digits_from, (Z2Nat.id w), Z.mul_0_l, Z.add_0_l by lia.
  set (r := dec 0 (digits_from gs (0 + 1) (Z.to_nat w))) in *. unfold shortest. rewrite (Z2Nat.id (_ + _)) by lia.
  assert (Hu : 0 <= group gs 0 * 10 ^ (4 * w) + r < 10 ^ (group_width (group gs 0) + 4 * w)) by (rewrite Z.pow_add_r by lia; nia).
  destruct (Z.eqb_spec (group gs 0) 0) as [E0|E0]; [destruct (Z.ltb_spec 0 w) as [Hp|Hp]; cbn [andb]|rewrite andb_false_r].
  - rewrite E0 in *. split; [done | exact Hu].
  - assert (w = 0) as -> by lia. split; [lia|]. split; [exact Hu|]. left. rewrite E0. done.
  - split; [lia|]. split; [exact Hu|]. right. pose proof (group_width_least (group gs 0) ltac:(lia)) as Hl.
    replace (group_width (group gs 0) + 4 * w - 1) with (group_width (group gs 0) - 1 + 4 * w) by lia. rewrite Z.pow_add_r by lia. nia.
Qed.

Definition special_text (sg : Z) : list byte := if sg =? numeric_nan then bytes_of "NaN" else if sg =? numeric_pinf then bytes_of "Infinity" else bytes_of "-Infinity".

(** The numerics PostgreSQL can send: what both decoders make of one. *)
Definition reads_numeric (junk : nat -> list byte) (b out : list byte) (sg w ds : Z) (gs : list Z) : Prop :=
  if finite_sign sg then
    (exists n, int_part_width gs w (numeric_floor gs w ds / 10 ^ ds) n /\ numeric_text_into junk b out = Ok (out ++ numeric_text n sg gs w ds)) /\
    forall s, decode_numeric_i64_scaled b s = numeric_scaled sg gs w s
  else numeric_text_into junk b out = Ok (out ++ special_text sg) /\ forall s, decode_numeric_i64_scaled b s = Err err_numeric_special.

(** Both decoders on any bytes. *)
Lemma numeric_reads junk b out :
  (forall n, length (junk n) = n) ->
  (exists sg w ds gs, numeric_wf sg w ds gs /\ b = enc_numeric sg w ds gs /\ reads_numeric junk b out sg w ds gs) \/
  ((forall sg w ds gs, numeric_wf sg w ds gs -> b <> enc_numeric sg w ds gs) /\
   numeric_text_into junk b out = Err err_numeric_malformed /\ forall s, decode_numeric_i64_scaled b s = Err err_numeric_malformed).
Proof.
  intros Hj. destruct (numeric_header_sound b) as [(sg & w & ds & gs & Hwf & ->)|[E Hno]].
  2: { right. split; [done|]. unfold numeric_text_into, decode_numeric_i64_scaled. by rewrite E. }
  left. exists sg, w, ds, gs. split; [done|]. split; [done|]. unfold reads_numeric. pose proof (wf_groups _ _ _ _ Hwf) as Hg. pose proof (wf_dscale _ _ _ _ Hwf) as Hds. destruct (finite_sign sg) eqn:Hs.
  - split; [|intros s; by apply decode_numeric_scaled]. exists (numeric_width gs w). split; [|by apply numeric_text_finite].
    destruct (floor_parts gs w ds (Z.to_nat (Z.max ds (len gs - w))) Hg ltac:(lia) ltac:(lia)) as [-> _]. by apply int_part_spec.
  - destruct (wf_sign _ _ _ _ Hwf) as [Hf|[Hsp _]]; [by rewrite Hf in Hs|]. unfold numeric_text_into, decode_numeric_i64_scaled, special_text. rewrite (numeric_header_complete _ _ _ _ Hwf). cbn [mbind outcome_bind sign].
    unfold finite_sign in Hs. apply orb_false_elim in Hs as [-> ->]. split; [|done]. unfold special_sign in Hsp. destruct (sg =? numeric_nan); [done|]. destruct (sg =? numeric_pinf); [done|]. cbn [orb] in Hsp. by rewrite Hsp.
Qed.

(** C22: Numerics are decoded exactly. Bytes that are not a numeric are refused by both
    decoders. Of a numeric, the text is the decimal expansion of its value, cut at its
    display scale, with the digits of the integer part before the point, all of them and
    without leading zeros if the first group sent is not zero, whatever the grown buffer held;
    and the scaled integer is the value in units of 10^-scale, or an error exactly when
    the value has more digits than the scale keeps or leaves the 64-bit range. *)
Theorem numerics_decode_exactly junk b out :
  (forall n, length (junk n) = n) ->
  (exists sg w ds gs, numeric_wf sg w ds gs /\ b = enc_numeric sg w ds gs /\ reads_numeric junk b out sg w ds gs) \/
  ((forall sg w ds gs, numeric_wf sg w ds gs -> b <> enc_numeric sg w ds gs) /\
   numeric_text_into junk b out = Err err_numeric_malformed /\ forall s, decode_numeric_i64_scaled b s = Err err_numeric_malformed).
Proof. apply numeric_reads. Qed.

Lemma numerics_decode_exactly_witness :
  numeric_text_into (fun n => replicate n NUL) (enc_numeric numeric_neg 1 3 [12; 345; 6780]) [] = Ok (bytes_of "-120345.678") /\
  decode_numeric_i64_scaled (enc_numeric numeric_neg 1 3 [12; 345; 6780]) 3 = Ok (-120345678) /\
  decode_numeric_i64_scaled (enc_numeric numeric_neg 1 3 [12; 345; 6780]) 2 = Err err_numeric_precision /\
  ((exists sg w ds gs, numeric_wf sg w ds gs /\ enc_numeric numeric_neg 1 3 [12; 345; 6780] = enc_numeric sg w ds gs /\
      reads_numeric (fun n => replicate n NUL) (enc_numeric numeric_neg 1 3 [12; 345; 6780]) [] sg w ds gs) \/
   ((forall sg w ds gs, numeric_wf sg w ds gs -> enc_numeric numeric_neg 1 3 [12; 345; 6780] <> enc_numeric sg w ds gs) /\
    numeric_text_into (fun n => replicate n NUL) (enc_numeric numeric_neg 1 3 [12; 345; 6780]) [] = Err err_numeric_malformed /\
    forall s, decode_numeric_i64_scaled (enc_numeric numeric_neg 1 3 [12; 345; 6780]) s = Err err_numeric_malformed)).
Proof.
  split; [by vm_compute|]. split; [by vm_compute|]. split; [by vm_compute|].
  apply (numerics_decode_exactly (fun n => replicate n NUL) (enc_numeric numeric_neg 1 3 [12; 345; 6780]) []). intros n. apply length_replicate.
Defined.

(** ** The format of arrays *)

Definition be4 (v : Z) : list byte := be_bytes 4 v.

Definition enc_elem (e : option (list byte)) : list byte := match e with None => be4 (-1) | Some v => be4 (len v) ++ v end.

Definition has_none {A} (l : list (option A)) : bool := existsb (fun e => match e with None => true | Some _ => false end) l.

(** One-dimensional arrays; an empty one has no dimension. *)
Inductive array_form : list byte -> Z -> Z -> list (option (list byte)) -> Prop :=
  | form_empty flag oid : 0 <= flag <= 1 -> 0 <= oid < 2 ^ 32 -> array_form (be4 0 ++ be4 flag ++ be4 oid) oid 0 []
  | form_elems flag oid lb es :
      0 <= flag <= 1 -> 0 <= oid < 2 ^ 32 -> - 2 ^ 31 <= lb < 2 ^ 31 -> (has_none es = true -> flag = 1) ->
      array_form (be4 1 ++ be4 flag ++ be4 oid ++ be4 (len es) ++ be4 lb ++ concat (enc_elem <$> es)) oid lb es.

Definition to_value (e : option (list byte)) : DataValue := match e with None => mkDataValue true [] | Some v => mkDataValue false v end.

(** The elements an iterator yields. *)
Fixpoint array_walk (n : nat) (it : ArrayIter) : outcome (list DataValue) :=
  match n with
  | O => Ok []
  | S n' =>
      '(v, it) ← array_next it;
      match v with None => Ok [] | Some v => (cons v) <$> array_walk n' it end
  end.

Lemma len_elems es : 4 * len es <= len (concat (enc_elem <$> es)).
Proof.
  induction es as [|e es IH]; [done|]. cbn [fmap list_fmap concat]. rewrite len_app, len_cons. assert (4 <= len (enc_elem e)); [|lia]. destruct e as [v|]; cbn [enc_elem]; [rewrite len_app; pose proof (len_nonneg v)|]; unfold be4; rewrite len_be_bytes; lia.
Qed.

Section Elems.
Context (b : list byte) (Hb : len b < 2 ^ 31).

Lemma elems_loop_complete es pos s saw : rest_at b pos (concat (enc_elem <$> es) ++ s) -> exists p, elems_loop (length es) b pos saw = Ok (p, saw || has_none es) /\ rest_at b p s.
Proof.
  revert pos saw. induction es as [|e es IH]; intros pos saw Hr; [exists pos; cbn; by rewrite orb_false_r|]. cbn [length elems_loop fmap list_fmap concat] in *. rewrite <- app_assoc in Hr. pose proof (rest_bounds _ _ _ Hr) as [H0 Hl]. rewrite len_app in Hl.
  pose proof (len_nonneg (concat (enc_elem <$> es) ++ s)). destruct e as [v|]; cbn [enc_elem has_none existsb orb] in *.
  - rewrite <- app_assoc in Hr. rewrite len_app in Hl. pose proof (len_nonneg v) as Hv. unfold be4 in Hl. rewrite len_be_bytes in Hl. rewrite (proj2 (Z.ltb_ge _ _)) by lia. rewrite (u32_rest _ _ _ _ Hr). cbn [mbind outcome_bind]. rewrite i32_mod, (i32_small (pos + 4)) by lia.
    rewrite (proj2 (Z.eqb_neq (len v) (-1))), (proj2 (Z.ltb_ge (len v) 0)), (proj2 (Z.ltb_ge _ (len v))) by lia. cbn [orb]. rewrite i32_small by lia. apply (rest_skip b pos (be4 _)) in Hr. change (len (be4 (len v))) with 4 in Hr. apply rest_skip in Hr.
    destruct (IH _ saw Hr) as (p & E & Hp). by exists p.
  - unfold be4 in Hl. rewrite len_be_bytes in Hl. rewrite (proj2 (Z.ltb_ge _ _)) by lia. rewrite (u32_rest _ _ _ _ Hr). cbn [mbind outcome_bind]. rewrite i32_mod, i32_small by lia. rewrite Z.eqb_refl. apply (rest_skip b pos (be4 _)) in Hr. change (len (be4 (-1))) with 4 in Hr.
    destruct (IH _ true Hr) as (p & E & Hp). exists p. split; [|done]. rewrite E. by rewrite orb_true_r.
Qed.

Lemma elems_loop_sound n pos s saw : rest_at b pos s ->
  match elems_loop n b pos saw with
  | Ok (p, saw') => exists es s', length es = n /\ s = concat (enc_elem <$> es) ++ s' /\ rest_at b p s' /\ saw' = saw || has_none es
  | Err e => e = err_array_malformed
  | Crash => False
  end.
Proof.
  revert pos s saw. induction n as [|n IH]; intros pos s saw Hr; cbn [elems_loop]; [exists [], s; cbn; by rewrite orb_false_r|]. pose proof (rest_bounds _ _ _ Hr) as [H0 Hl]. destruct (Z.ltb_spec (len b - pos) 4) as [|H4]; [done|].
  destruct (word_split 4 s) as (v & s1 & -> & Hv); [lia|]. rewrite (u32_rest _ _ _ _ Hr). cbn [mbind outcome_bind]. rewrite Z.mod_small by done. rewrite len_app, len_be_bytes in Hl. pose proof (len_nonneg s1). rewrite (i32_small (pos + 4)) by lia.
  pose proof (i32_range v) as Hi. pose proof (be4_i32 v) as Ev. apply rest_skip in Hr. rewrite len_be_bytes in Hr. change (pos + Z.of_nat 4) with (pos + 4) in Hr.
  destruct (Z.eqb_spec (i32 v) (-1)) as [E|E].
  - specialize (IH (pos + 4) s1 true Hr). destruct (elems_loop n b (pos + 4) true) as [[p sw]| |]; [|done|done]. destruct IH as (es & s' & <- & -> & Hp & ->). exists (None :: es), s'. split; [done|]. split; [|split; [done | cbn; by rewrite orb_true_r]].
    cbn [fmap list_fmap concat enc_elem]. unfold be4. by rewrite <- E, Ev, <- app_assoc.
  - destruct (Z.ltb_spec (i32 v) 0) as [|Hge]; [done|]. cbn [orb]. destruct (Z.ltb_spec (len b - (pos + 4)) (i32 v)) as [|Hfit]; [done|]. rewrite (i32_small (pos + 4 + i32 v)) by lia.
    destruct (split_at (Z.to_nat (i32 v)) s1) as (w & s2 & -> & Hw & _); [unfold len in *; lia|]. assert (Ew : len w = i32 v) by (unfold len; lia). apply rest_skip in Hr. rewrite Ew in Hr.
    specialize (IH _ s2 saw Hr). destruct (elems_loop n b (pos + 4 + i32 v) saw) as [[p sw]| |]; [|done|done]. destruct IH as (es & s' & <- & -> & Hp & ->). exists (Some w :: es), s'. split; [done|]. split; [|split; [done | done]].
    cbn [fmap list_fmap concat enc_elem]. unfold be4. by rewrite Ew, Ev, <- !app_assoc.
Qed.

Lemma array_walk_spec es pos s oid n lb : rest_at b pos (concat (enc_elem <$> es) ++ s) -> array_walk (S (length es)) (mkArrayIter oid n lb b pos (len es)) = Ok (to_value <$> es).
Proof.
  revert pos. induction es as [|e es IH]; intros pos Hr; [done|]. cbn [fmap list_fmap concat] in Hr. rewrite <- app_assoc in Hr. pose proof (rest_bounds _ _ _ Hr) as [H0 Hl]. rewrite len_app in Hl. pose proof (len_nonneg es). pose proof (len_nonneg (concat (enc_elem <$> es) ++ s)).
  set (w := array_walk (S (length es))) in *. change (array_walk (S (length (e :: es)))) with (fun it => '(v, it) ← array_next it; match v with None => Ok [] | Some v => (cons v) <$> w it end). cbn beta. unfold array_next. cbn [left]. rewrite len_cons.
  rewrite (proj2 (Z.leb_gt _ _)) by lia. replace (1 + len es - 1) with (len es) by lia. destruct e as [v|]; cbn [enc_elem] in *.
  - rewrite <- app_assoc in Hr. rewrite len_app in Hl. pose proof (len_nonneg v). unfold be4 in Hl. rewrite len_be_bytes in Hl. rewrite (u32_rest _ _ _ _ Hr). cbn [mbind outcome_bind]. rewrite i32_mod, (i32_small (pos + 4)), (proj2 (Z.ltb_ge (len v) 0)) by lia.
    apply (rest_skip b pos (be4 _)) in Hr. change (len (be4 (len v))) with 4 in Hr. rewrite (slice_rest _ _ _ _ Hr). cbn [mbind outcome_bind]. rewrite i32_small by lia. apply rest_skip in Hr. by rewrite (IH _ Hr).
  - unfold be4 in Hl. rewrite len_be_bytes in Hl. rewrite (u32_rest _ _ _ _ Hr). cbn [mbind outcome_bind]. rewrite i32_mod, (i32_small (pos + 4)) by lia. cbn [Z.ltb Z.compare]. apply (rest_skip b pos (be4 _)) in Hr. change (len (be4 (-1))) with 4 in Hr. cbn [mbind outcome_bind]. by rewrite (IH _ Hr).
Qed.
End Elems.

Lemma u32_word b i j v s : rest_at b i (be4 v ++ s) -> 0 <= v < 2 ^ 32 -> j = i + 4 -> big_endian_u32_at b i = Ok v /\ rest_at b j s.
Proof. intros Hr Hv ->. rewrite (u32_rest _ _ _ _ Hr), Z.mod_small by done. split; [done|]. apply rest_skip in Hr. exact Hr. Qed.

Lemma u32_signed b i j v s : rest_at b i (be4 v ++ s) -> - 2 ^ 31 <= v < 2 ^ 31 -> j = i + 4 -> big_endian_u32_at b i = Ok (v mod 2 ^ 32) /\ i32 (v mod 2 ^ 32) = v /\ rest_at b j s.
Proof. intros Hr Hv ->. rewrite (u32_rest _ _ _ _ Hr), i32_mod by done. split; [done|]. split; [done|]. apply rest_skip in Hr. exact Hr. Qed.

Lemma decode_array_complete b oid lb es : len b < 2 ^ 31 -> array_form b oid lb es ->
  exists pos, decode_array b = Ok (mkArrayIter oid (len es) lb b pos (len es)) /\ rest_at b pos (concat (enc_elem <$> es)).
Proof.
  intros Hb Hf. destruct Hf as [flag oid Hfl Ho | flag oid lb es Hfl Ho Hlb Hnone]; set (b := be4 _ ++ _) in *; pose proof (rest_whole b : rest_at b 0 (be4 _ ++ _)) as R0.
  - destruct (u32_signed _ 0 4 _ _ R0 ltac:(lia) eq_refl) as (E0 & I0 & R4). destruct (u32_word _ 4 8 _ _ R4 ltac:(lia) eq_refl) as (E4 & R8). rewrite <- (app_nil_r (be4 oid)) in R8. destruct (u32_word _ 8 12 _ _ R8 Ho eq_refl) as (E8 & _).
    exists 12. split; [|by exists b; rewrite app_nil_r]. unfold decode_array. change (len b) with 12. cbn [Z.ltb Z.compare Pos.compare Pos.compare_cont]. rewrite E0. cbn [mbind outcome_bind]. rewrite E4. cbn [mbind outcome_bind]. rewrite E8. cbn [mbind outcome_bind].
    rewrite I0, (proj2 (Z.ltb_ge 1 flag)) by lia. done.
  - destruct (u32_signed _ 0 4 _ _ R0 ltac:(lia) eq_refl) as (E0 & I0 & R4). destruct (u32_word _ 4 8 _ _ R4 ltac:(lia) eq_refl) as (E4 & R8). destruct (u32_word _ 8 12 _ _ R8 Ho eq_refl) as (E8 & R12).
    assert (Hl : len b = 20 + len (concat (enc_elem <$> es))) by (unfold b, be4; rewrite !len_app, !len_be_bytes; lia). pose proof (len_elems es) as He. pose proof (len_nonneg es) as Hn.
    destruct (u32_signed _ 12 16 _ _ R12 ltac:(lia) eq_refl) as (E12 & I12 & R16). destruct (u32_signed _ 16 20 _ _ R16 Hlb eq_refl) as (E16 & I16 & R20). rewrite <- (app_nil_r (concat _)) in R20.
    destruct (elems_loop_complete b Hb es 20 [] false R20) as (p & El & Rp). apply rest_bounds in Rp as [_ Ep]. rewrite len_nil, Z.add_0_r in Ep.
    exists 20. split; [|by rewrite app_nil_r in R20].
    unfold decode_array. rewrite (proj2 (Z.ltb_ge (len b) 12)) by lia. rewrite E0. cbn [mbind outcome_bind]. rewrite E4. cbn [mbind outcome_bind]. rewrite E8. cbn [mbind outcome_bind]. rewrite I0, (proj2 (Z.ltb_ge 1 flag)) by lia. change (1 =? 0) with false. change (1 <? 0) with false. change (6 <? 1) with false. change (1 <? 1) with false. cbn [orb].
    rewrite (proj2 (Z.ltb_ge (len b) 20)) by lia. rewrite E12. cbn [mbind outcome_bind]. rewrite E16. cbn [mbind outcome_bind]. rewrite I12, I16, (proj2 (Z.ltb_ge (len es) 0)), quot_div_nn by lia. rewrite (proj2 (Z.ltb_ge (_ / 4) (len es))) by (apply Z.div_le_lower_bound; lia). cbn [orb].
    replace (Z.to_nat (len es)) with (length es) by (unfold len; lia). rewrite El. cbn [mbind outcome_bind orb]. rewrite Ep, Z.eqb_refl. cbn [negb orb]. destruct (has_none es); cbn [andb]; [|done]. by rewrite (Hnone eq_refl).
Qed.

Lemma decode_array_sound b : len b < 2 ^ 31 -> match decode_array b with Ok _ => exists oid lb es, array_form b oid lb es | Err _ => True | Crash => False end.
Proof.
  intros Hb. unfold decode_array. destruct (Z.ltb_spec (len b) 12) as [|H12]; [done|]. pose proof (rest_whole b) as R0. destruct (word_split 4 b) as (nd & b1 & E1 & Hnd); [lia|].
  pose proof (f_equal len E1) as L1. rewrite len_app, len_be_bytes in L1. destruct (word_split 4 b1) as (fl & b2 & -> & Hfl); [lia|]. rewrite len_app, len_be_bytes in L1. destruct (word_split 4 b2) as (oid & b3 & -> & Ho); [lia|]. rewrite len_app, len_be_bytes in L1.
  rewrite E1 in R0 at 2. destruct (u32_word _ 0 4 _ _ R0 Hnd eq_refl) as [-> R4]. cbn [mbind outcome_bind]. destruct (u32_word _ 4 8 _ _ R4 Hfl eq_refl) as [-> R8]. cbn [mbind outcome_bind]. destruct (u32_word _ 8 12 _ _ R8 Ho eq_refl) as [-> R12]. cbn [mbind outcome_bind].
  destruct (Z.ltb_spec 1 fl) as [|Hfl1]; [done|]. pose proof (be4_i32 nd) as End. destruct (Z.eqb_spec (i32 nd) 0) as [E0|N0].
  { destruct (Z.eqb_spec (len b) 12) as [L12|]; [|done]. cbn [negb]. exists oid, 0, []. rewrite E1, (len_zero b3), app_nil_r, <- End, E0 by lia. constructor; [lia | done]. }
  destruct (Z.ltb_spec (i32 nd) 0) as [|]; [done|]. destruct (Z.ltb_spec 6 (i32 nd)) as [|]; [done|]. cbn [orb]. destruct (Z.ltb_spec 1 (i32 nd)) as [|]; [done|]. assert (En : i32 nd = 1) by lia. destruct (Z.ltb_spec (len b) 20) as [|H20]; [done|].
  destruct (word_split 4 b3) as (cn & b4 & -> & Hcn); [lia|]. rewrite len_app, len_be_bytes in L1. destruct (word_split 4 b4) as (lb & b5 & -> & Hlb); [lia|]. destruct (u32_word _ 12 16 _ _ R12 Hcn eq_refl) as [-> R16]. cbn [mbind outcome_bind]. destruct (u32_word _ 16 20 _ _ R16 Hlb eq_refl) as [-> R20]. cbn [mbind outcome_bind].
  destruct (Z.ltb_spec (i32 cn) 0) as [|Hc0]; [done|]. cbn [orb]. destruct (_ <? i32 cn); [done|]. pose proof (elems_loop_sound b Hb (Z.to_nat (i32 cn)) _ _ false R20) as Hs.
  destruct (elems_loop _ b 20 false) as [[p saw]| |]; [|done|done]. destruct Hs as (es & s' & Hes & -> & Rp & ->). cbn [mbind outcome_bind orb]. apply rest_bounds in Rp as [_ Ep]. destruct (Z.eqb_spec p (len b)) as [Epl|]; [|done]. cbn [negb orb].
  destruct (has_none es && (fl =? 0)) eqn:Hn; [done|]. exists oid, (i32 lb), es. rewrite E1, (len_zero s'), app_nil_r by lia. assert (Ecn : i32 cn = len es) by (unfold len; lia). rewrite <- End, En, <- (be4_i32 cn), Ecn, <- (be4_i32 lb).
  apply form_elems; [lia | done | apply i32_range|]. intros Hno. rewrite Hno in Hn. apply Z.eqb_neq in Hn. lia.
Qed.

(** [decode_array] accepts exactly the one-dimensional arrays of the binary format,
    and the iterator it returns yields their elements in order, NULLs told apart from
    empty values; anything else is refused, and nothing is read outside of the value. *)
Theorem arrays_read_back b :
  len b < 2 ^ 31 ->
  match decode_array b with
  | Ok it => exists oid lb es, array_form b oid lb es /\ elem_oid it = oid /\ array_len it = len es /\ lower_bound it = lb /\ array_walk (S (length es)) it = Ok (to_value <$> es)
  | Err _ => forall oid lb es, ~ array_form b oid lb es
  | Crash => False
  end.
Proof.
  intros Hb. pose proof (decode_array_sound b Hb) as Hs. destruct (decode_array b) as [it|e|] eqn:E; [|intros oid lb es Hf; destruct (decode_array_complete b oid lb es Hb Hf) as (pos & E' & _); congruence | done].
  destruct Hs as (oid & lb & es & Hf). exists oid, lb, es. split; [done|]. destruct (decode_array_complete b oid lb es Hb Hf) as (pos & E' & Hr). rewrite E in E'. injection E' as ->. split; [done|]. split; [done|]. split; [done|].
  rewrite <- (app_nil_r (concat _)) in Hr. by apply (array_walk_spec b Hb es pos []).
Qed.

Lemma arrays_read_back_witness :
  let b := be4 1 ++ be4 1 ++ be4 oid_text ++ be4 3 ++ be4 1 ++ concat (enc_elem <$> [Some (bytes_of "ab"); None; Some []]) in
  len b < 2 ^ 31 /\
  match decode_array b with
  | Ok it => exists oid lb es, array_form b oid lb es /\ elem_oid it = oid /\ array_len it = len es /\ lower_bound it = lb /\ array_walk (S (length es)) it = Ok (to_value <$> es)
  | Err _ => forall oid lb es, ~ array_form b oid lb es
  | Crash => False
  end.
Proof. intros b. split; [by vm_compute|]. apply (arrays_read_back b). by vm_compute. Defined.

(** ** Fixed-size values *)

Lemma decode_int2_spec v : - 2 ^ 15 <= v < 2 ^ 15 -> decode_int2 (be_bytes 2 v) = Ok v.
Proof. intros H. unfold decode_int2. rewrite len_be_bytes. pose proof (rest_whole (be_bytes 2 v)) as R. rewrite <- (app_nil_r (be_bytes 2 v)) in R at 2. rewrite (u16_rest _ _ _ _ R). cbn [negb Z.eqb fmap outcome_fmap]. by rewrite i16_mod. Qed.

Lemma decode_int4_spec v : - 2 ^ 31 <= v < 2 ^ 31 -> decode_int4 (be_bytes 4 v) = Ok v.
Proof. intros H. unfold decode_int4. rewrite len_be_bytes. pose proof (rest_whole (be_bytes 4 v)) as R. rewrite <- (app_nil_r (be_bytes 4 v)) in R at 2. rewrite (u32_rest _ _ _ _ R). cbn [negb Z.eqb fmap outcome_fmap]. by rewrite i32_mod. Qed.

Lemma u64_whole v : big_endian_u64 (be_bytes 8 v) = Ok (v mod 2 ^ 64).
Proof. unfold big_endian_u64. pose proof (slice_whole _ _ _ (rest_whole (be_bytes 8 v))) as E. rewrite len_be_bytes in E. change (Z.of_nat 8) with 8 in E. rewrite E. cbn [fmap outcome_fmap]. by rewrite (be_val_be_bytes 8). Qed.

Lemma decode_int8_spec v : - 2 ^ 63 <= v < 2 ^ 63 -> decode_int8 (be_bytes 8 v) = Ok v.
Proof. intros H. unfold decode_int8. rewrite len_be_bytes, u64_whole. cbn [negb Z.eqb fmap outcome_fmap]. by rewrite i64_mod. Qed.

(** A timestamp is the same instant as the time it is turned into. *)
Lemma timestamp_time_spec us : min_i64 <= us <= max_i64 ->
  match timestamp_time us with
  | Ok t => 0 <= nanosecond t < 1000000000 /\ unix t * 1000000 + nanosecond t / 1000 = us + pg_epoch_unix_s * 1000000 /\ nanosecond t mod 1000 = 0
  | Err e => (e = err_timestamp_infinite /\ (us = timestamp_infinity \/ us = timestamp_neg_infinity)) \/ (e = err_timestamp_range /\ max_i64 < us + pg_epoch_unix_s * 1000000)
  | Crash => False
  end.
Proof.
  unfold timestamp_time, timestamp_infinity, timestamp_neg_infinity, pg_epoch_unix_s, max_i64, min_i64. intros H. destruct (Z.eqb_spec us (2 ^ 63 - 1)); [by left; split; [|left]|]. destruct (Z.eqb_spec us (- 2 ^ 63)); [by left; split; [|right]|]. cbn [orb].
  change (946684800 * 1000000) with 946684800000000. destruct (Z.ltb_spec (2 ^ 63 - 1 - 946684800000000) us); [right; split; [done | lia]|].
  assert (Ei : i64 (us + 946684800000000) = us + 946684800000000) by (unfold i64; rewrite Z.mod_small; lia). rewrite Ei. set (u := us + 946684800000000) in *. pose proof (Z.quot_rem u 1000000 ltac:(lia)) as Hq. pose proof (Z.rem_bound_abs u 1000000 ltac:(lia)) as Hr.
  assert (Hn : forall r, 0 <= r < 1000000 -> i32 (r * 1000) = r * 1000) by (intros r Hr'; apply i32_small; lia). destruct (Z.ltb_spec (Z.rem u 1000000) 0) as [Hneg|Hpos]; cbn [unix nanosecond]; rewrite Hn by lia; rewrite Z.div_mul, Z.mod_mul by lia; lia.
Qed.

(** ** Uuids as text *)

Definition hex2 (c : byte) : list byte := [default NUL (hex_lower !! Z.to_nat (byte_val c / 16)); default NUL (hex_lower !! Z.to_nat (byte_val c mod 16))].

(** 8-4-4-4-12 lowercase hexadecimal digits. *)
Definition uuid_text (b : list byte) : list byte :=
  let hex l := concat (hex2 <$> l) in let dash := [byte_of_Z 45] in
  hex (take 4 b) ++ dash ++ hex (take 2 (drop 4 b)) ++ dash ++ hex (take 2 (drop 6 b)) ++ dash ++ hex (take 2 (drop 8 b)) ++ dash ++ hex (drop 10 b).

Lemma hex_char_spec v : 0 <= v < 16 -> hex_char v = Ok (default NUL (hex_lower !! Z.to_nat v)).
Proof.
  intros H. unfold hex_char, byte_at. rewrite (proj2 (Z.ltb_ge _ _)) by lia. destruct (lookup_lt_is_Some_2 hex_lower (Z.to_nat v)) as [c ->]; [change (length hex_lower) with 16%nat; lia | done].
Qed.

Definition uuid_dash (i : nat) : list byte := if bool_decide (i ∈ [4; 6; 8; 10]%nat) then [byte_of_Z 45] else [].

Lemma uuid_loop_spec n b i a j : (i + n = length b)%nat -> length j = length (concat (imap (fun k c => uuid_dash (i + k) ++ hex2 c) (drop i b))) ->
  uuid_loop n b (a ++ j) (Z.of_nat i) (len a) = Ok (a ++ concat (imap (fun k c => uuid_dash (i + k) ++ hex2 c) (drop i b))).
Proof.
  revert i a j. induction n as [|n IH]; intros i a j Hn Hj; [rewrite drop_ge in * by lia; by destruct j|]. destruct (lookup_lt_is_Some_2 b i) as [c Ec]; [lia|]. rewrite (drop_S b c i Ec) in *. cbn [imap concat] in *.
  rewrite Nat.add_0_r in *. assert (Es : imap ((fun k c => uuid_dash (i + k) ++ hex2 c) ∘ S) (drop (S i) b) = imap (fun k c => uuid_dash (S i + k) ++ hex2 c) (drop (S i) b)) by (apply imap_ext; intros k x _; cbn; by rewrite Nat.add_succ_r).
  rewrite Es in *. set (rest := concat (imap _ (drop (S i) b))) in *. cbn [uuid_loop]. rewrite length_app, length_app in Hj. change (length (hex2 c)) with 2%nat in Hj.
  destruct (split_at (length (uuid_dash i)) j) as (jd & jr & -> & Hd & Hr); [lia|]. rewrite length_app in Hj. destruct jr as [|y1 [|y2 jr]]; [cbn in Hj; lia|cbn in Hj; lia|].
  assert (Hdash : (if (Z.of_nat i =? 4) || (Z.of_nat i =? 6) || (Z.of_nat i =? 8) || (Z.of_nat i =? 10) then out ← set_at (a ++ jd ++ y1 :: y2 :: jr) (len a) (byte_of_Z 45); Ok (out, len a + 1) else Ok (a ++ jd ++ y1 :: y2 :: jr, len a))
    = Ok ((a ++ uuid_dash i) ++ y1 :: y2 :: jr, len (a ++ uuid_dash i))).
  { unfold uuid_dash in *. assert (Eb : (Z.of_nat i =? 4) || (Z.of_nat i =? 6) || (Z.of_nat i =? 8) || (Z.of_nat i =? 10) = bool_decide (i ∈ [4; 6; 8; 10]%nat)).
    { apply eq_bool_prop_intro. rewrite !orb_True, !Is_true_true, !Z.eqb_eq, bool_decide_eq_true. rewrite !elem_of_cons, elem_of_nil. lia. }
    rewrite Eb. destruct (bool_decide _); [|destruct jd; [|done]; by rewrite app_nil_r]. destruct jd as [|z [|]]; [done| |done]. cbn [app]. rewrite set_at_mid. cbn [mbind outcome_bind]. by rewrite <- app_assoc, len_app. }
  rewrite Hdash. cbn [mbind outcome_bind]. assert (Hc : byte_at b (Z.of_nat i) = Ok c) by (unfold byte_at; rewrite (proj2 (Z.ltb_ge _ _)), Nat2Z.id, Ec by lia; done). rewrite Hc. cbn [mbind outcome_bind]. pose proof (byte_val_range c) as Hcr.
  rewrite Z.shiftr_div_pow2, (hex_char_spec (byte_val c / 2 ^ 4)) by (lia || (split; [apply Z.div_pos; lia | apply Z.div_lt_upper_bound; lia])). cbn [mbind outcome_bind]. change (2 ^ 4) with 16. set (a1 := a ++ uuid_dash i). rewrite set_at_mid. cbn [mbind outcome_bind].
  change 0x0f with (Z.ones 4). rewrite Z.land_ones, hex_char_spec by (lia || (apply Z.mod_pos_bound; lia)). cbn [mbind outcome_bind]. change (2 ^ 4) with 16. set (hi := default NUL _). set (lo := default NUL _).
  replace (a1 ++ hi :: y2 :: jr) with ((a1 ++ [hi]) ++ y2 :: jr) by (by rewrite <- app_assoc). replace (len a1 + 1) with (len (a1 ++ [hi])) by (by rewrite len_app). rewrite set_at_mid. cbn [mbind outcome_bind].
  replace ((a1 ++ [hi]) ++ lo :: jr) with ((a1 ++ hex2 c) ++ jr) by (unfold hex2; by rewrite <- !app_assoc). replace (len a1 + 2) with (len (a1 ++ hex2 c)) by (by rewrite len_app). replace (Z.of_nat i + 1) with (Z.of_nat (S i)) by lia.
  rewrite IH; [|lia | fold rest; cbn in Hj; lia]. fold rest. unfold a1. by rewrite <- !app_assoc.
Qed.

Lemma uuid_into_spec junk b out : (forall n, length (junk n) = n) -> uuid_into junk b out = if len b =? 16 then Ok (out ++ uuid_text b) else Err err_uuid_width.
Proof.
  intros Hj. unfold uuid_into. destruct (Z.eqb_spec (len b) 16) as [E|]; [|done]. cbn [negb]. assert (Hl : length b = 16%nat) by (unfold len in E; lia). do 16 (destruct b as [|? b]; [done|]). destruct b; [|done].
  rewrite (uuid_loop_spec 16 _ 0 out (junk 36%nat)) by (done || by rewrite Hj). done.
Qed.
