(* ===== verification/PgProtocol.v ===== *)
(** pg_async/protocol.v: the messages of the PostgreSQL frontend/backend protocol. Backend
    messages are framed and walked in place; frontend messages are appended to a buffer. *)
From S2P Require Import Prelude WireBytes HttpScan PgWire PgTypes.
Local Open Scope Z_scope.

(** ** Backend message types *)

Definition bt_authentication : byte := byte_of_Z 82.
Definition bt_backend_key_data : byte := byte_of_Z 75.
Definition bt_command_complete : byte := byte_of_Z 67.
Definition bt_data_row : byte := byte_of_Z 68.
Definition bt_empty_query_response : byte := byte_of_Z 73.
Definition bt_error_response : byte := byte_of_Z 69.
Definition bt_ready_for_query : byte := byte_of_Z 90.
Definition bt_row_description : byte := byte_of_Z 84.

Definition auth_subtype (payload : list byte) : outcome Z := if len payload <? 4 then Ok 0xFFFFFFFF else big_endian_u32_at payload 0.

(** ** Framing *)

Record MsgHeader := mkMsgHeader { typ : byte; total : Z }.

Definition next_message (buf : list byte) : outcome (option MsgHeader) :=
  if len buf <? 5 then Ok None
  else
    v ← big_endian_u32_at buf 1;
    let msg_len := i32 v in
    if msg_len <? 4 then Ok None
    else
      let total := i32 (1 + msg_len) in
      if len buf <? total then Ok None else t ← byte_at buf 0; Ok (Some (mkMsgHeader t total)).

Definition next_message_at (buf : list byte) (pos : Z) : outcome (option MsgHeader) :=
  if i32 (len buf - pos) <? 5 then Ok None
  else
    v ← big_endian_u32_at buf (i32 (pos + 1));
    let msg_len := i32 v in
    if msg_len <? 4 then Ok None
    else
      let total := i32 (1 + msg_len) in
      if i32 (len buf - pos) <? total then Ok None else t ← byte_at buf pos; Ok (Some (mkMsgHeader t total)).

Record Frame := mkFrame { ftyp : byte; payload : list byte }.

Record FrameIter := mkFrameIter { fbuf : list byte; fpos : Z }.

Definition frame_iter_new (buf : list byte) : FrameIter := mkFrameIter buf 0.

Definition frame_next (it : FrameIter) : outcome (option Frame * FrameIter) :=
  let '(mkFrameIter buf pos) := it in
  if len buf <? i32 (pos + 5) then Ok (None, it)
  else
    v ← big_endian_u32_at buf (i32 (pos + 1));
    let msg_len := i32 v in
    if msg_len <? 4 then Ok (None, it)
    else
      let total := i32 (1 + msg_len) in
      if len buf <? i32 (pos + total) then Ok (None, it)
      else
        t ← byte_at buf pos;
        w ← slice buf (pos + 5) (i32 (total - 5));
        Ok (Some (mkFrame t w), mkFrameIter buf (i32 (pos + total))).

(** ** Results *)

Record Result := mkResult { frames : list byte; rows_affected : Z }.

(** [for c in payload] of [parse_command_complete]. *)
Fixpoint tag_loop (p : list byte) (last cur : Z) (seen : bool) : Z :=
  match p with
  | [] => if seen then cur else last
  | c :: p =>
      if (48 <=? byte_val c) && (byte_val c <=? 57) then tag_loop p last (u64w (cur * 10 + (byte_val c - 48))) true
      else tag_loop p (if seen then cur else last) 0 false
  end.

Definition parse_command_complete (payload : list byte) : Z := tag_loop payload 0 0 false.

Definition ends_statement (t : byte) : bool := beq t bt_command_complete || beq t bt_empty_query_response.

Fixpoint statement_loop (fuel : nat) (fr : list byte) (i pos start n : Z) : outcome Result :=
  match fuel with
  | O => Crash
  | S f =>
      hdr ← next_message_at fr pos;
      match hdr with
      | None => Err err_no_such_statement
      | Some hdr =>
          let pos := i32 (pos + total hdr) in
          if negb (ends_statement (typ hdr)) then statement_loop f fr i pos start n
          else if n =? i then
            rows ← (if beq (typ hdr) bt_command_complete then parse_command_complete <$> slice fr (pos - total hdr + 5) (i32 (total hdr - 5)) else Ok 0);
            w ← slice fr start (i32 (pos - start));
            Ok (mkResult w rows)
          else statement_loop f fr i pos pos (n + 1)
      end
  end.

Definition statement (res : Result) (i : Z) : outcome Result := statement_loop (S (length (frames res))) (frames res) i 0 0 0.

Fixpoint done_loop (fuel : nat) (fr : list byte) (pos n : Z) : outcome Z :=
  match fuel with
  | O => Crash
  | S f =>
      hdr ← next_message_at fr pos;
      match hdr with
      | None => Ok n
      | Some hdr => done_loop f fr (i32 (pos + total hdr)) (if ends_statement (typ hdr) then n + 1 else n)
      end
  end.

Definition statements_done (fr : list byte) : outcome Z := done_loop (S (length fr)) fr 0 0.

(** [RowIter]: its frames. *)
Fixpoint row_next_loop (fuel : nat) (it : FrameIter) : outcome (option (list byte) * FrameIter) :=
  match fuel with
  | O => Crash
  | S f =>
      '(fr, it) ← frame_next it;
      match fr with
      | None => Ok (None, it)
      | Some fr => if beq (ftyp fr) bt_data_row then Ok (Some (payload fr), it) else row_next_loop f it
      end
  end.

Definition row_next (it : FrameIter) : outcome (option (list byte) * FrameIter) := row_next_loop (S (length (fbuf it))) it.

Definition rows (res : Result) : FrameIter := frame_iter_new (frames res).

(** ** Rows *)

(** [for idx in 0 .. ncols]. *)
Fixpoint col_loop (n : nat) (p : list byte) (i idx pos : Z) : outcome DataValue :=
  match n with
  | O => Err err_row_range
  | S n' =>
      if len p <? i32 (pos + 4) then Err err_row_truncated
      else
        v ← big_endian_u32_at p pos;
        let clen := i32 v in
        let pos := i32 (pos + 4) in
        if clen <? 0 then if idx =? i then Ok (mkDataValue true []) else col_loop n' p i (idx + 1) pos
        else if len p - pos <? clen then Err err_row_truncated
        else if idx =? i then w ← slice p pos clen; Ok (mkDataValue false w)
        else col_loop n' p i (idx + 1) (i32 (pos + clen))
  end.

Definition col (p : list byte) (i : Z) : outcome DataValue :=
  if len p <? 2 then Err err_row_short
  else
    v ← big_endian_u16_at p 0;
    let ncols := i16 v in
    if (i <? 0) || (ncols <=? i) then Err err_row_range else col_loop (Z.to_nat ncols) p i 0 2.

Definition require (p : list byte) (i : Z) : outcome (list byte) := dv ← col p i; if is_null dv then Err err_row_null else Ok (bytes dv).

Definition row_int2 (p : list byte) (i : Z) : outcome Z := b ← require p i; decode_int2 b.
Definition row_int4 (p : list byte) (i : Z) : outcome Z := b ← require p i; decode_int4 b.
Definition row_int8 (p : list byte) (i : Z) : outcome Z := b ← require p i; decode_int8 b.
Definition row_boolean (p : list byte) (i : Z) : outcome bool := b ← require p i; decode_bool b.
Definition row_float4 (p : list byte) (i : Z) : outcome Z := b ← require p i; decode_float4 b.
Definition row_float8 (p : list byte) (i : Z) : outcome Z := b ← require p i; decode_float8 b.
Definition row_text (p : list byte) (i : Z) : outcome (list byte) := b ← require p i; Ok (decode_text b).
Definition row_uuid (p : list byte) (i : Z) : outcome (list byte) := b ← require p i; decode_uuid b.
Definition row_uuid_into (junk : nat -> list byte) (p : list byte) (i : Z) (out : list byte) : outcome (list byte) := b ← require p i; uuid_into junk b out.
Definition row_timestamp_us (p : list byte) (i : Z) : outcome Z := b ← require p i; decode_timestamp_us b.
Definition row_time (p : list byte) (i : Z) : outcome Time := b ← require p i; us ← decode_timestamp_us b; timestamp_time us.
Definition row_date_days (p : list byte) (i : Z) : outcome Z := b ← require p i; decode_date_days b.
Definition row_date (p : list byte) (i : Z) : outcome Time := b ← require p i; d ← decode_date_days b; date_time d.
Definition row_numeric_text_into (junk : nat -> list byte) (p : list byte) (i : Z) (out : list byte) : outcome (list byte) := b ← require p i; numeric_text_into junk b out.
Definition row_numeric_i64_scaled (p : list byte) (i scale : Z) : outcome Z := b ← require p i; decode_numeric_i64_scaled b scale.
Definition array_iter (p : list byte) (i : Z) : outcome ArrayIter := b ← require p i; decode_array b.

(** The array accessors leave [out] as it was when they fail: the vector and the result. *)
Fixpoint int4_loop (n : nat) (b : list byte) (pos : Z) (start : nat) (out : list Z) : list Z * outcome unit :=
  match n with
  | O => (out, Ok tt)
  | S n' =>
      match big_endian_u32_at b pos with
      | Ok v =>
          let k := i32 v in
          let pos := i32 (pos + 4) in
          if negb (k =? 4) then (take start out, Err (if k <? 0 then err_array_null else err_int4_width))
          else
            match big_endian_u32_at b pos with
            | Ok w => int4_loop n' b (i32 (pos + 4)) start (out ++ [i32 w])
            | Err e => (out, Err e)
            | Crash => (out, Crash)
            end
      | Err e => (out, Err e)
      | Crash => (out, Crash)
      end
  end.

Definition int4_array_into (p : list byte) (i : Z) (out : list Z) : list Z * outcome unit :=
  match array_iter p i with
  | Ok arr => if negb (elem_oid arr =? oid_int4) then (out, Err err_array_elem_type) else int4_loop (Z.to_nat (left arr)) (abuf arr) (apos arr) (length out) out
  | Err e => (out, Err e)
  | Crash => (out, Crash)
  end.

Fixpoint text_loop (n : nat) (b : list byte) (pos : Z) (start : nat) (out : list (list byte)) : list (list byte) * outcome unit :=
  match n with
  | O => (out, Ok tt)
  | S n' =>
      match big_endian_u32_at b pos with
      | Ok v =>
          let k := i32 v in
          let pos := i32 (pos + 4) in
          if k <? 0 then (take start out, Err err_array_null)
          else
            match slice b pos k with
            | Ok w => text_loop n' b (i32 (pos + k)) start (out ++ [w])
            | Err e => (out, Err e)
            | Crash => (out, Crash)
            end
      | Err e => (out, Err e)
      | Crash => (out, Crash)
      end
  end.

Definition text_oid (oid : Z) : bool := (oid =? oid_text) || (oid =? oid_varchar) || (oid =? oid_bpchar) || (oid =? oid_name).

Definition text_array_into (p : list byte) (i : Z) (out : list (list byte)) : list (list byte) * outcome unit :=
  match array_iter p i with
  | Ok arr => if negb (text_oid (elem_oid arr)) then (out, Err err_array_elem_type) else text_loop (Z.to_nat (left arr)) (abuf arr) (apos arr) (length out) out
  | Err e => (out, Err e)
  | Crash => (out, Crash)
  end.

(** ** RowDescription *)

Record Columns := mkColumns { cols_n : Z; cols_payload : list byte }.

(** [for i < p.len && p[i] != 0]. *)
Fixpoint nul_loop (fuel : nat) (p : list byte) (i : Z) : outcome Z :=
  if i <? len p then
    match fuel with
    | O => Crash
    | S f => c ← byte_at p i; if beq c NUL then Ok i else nul_loop f p (i + 1)
    end
  else Ok i.

Definition field_end (p : list byte) (pos : Z) : outcome Z :=
  i ← nul_loop (length p) p pos;
  Ok (if (len p <=? i) || (len p - (i + 1) <? 18) then -1 else i32 (i + 1 + 18)).

Fixpoint fields_loop (n : nat) (p : list byte) (pos : Z) : outcome Z :=
  match n with
  | O => Ok pos
  | S n' => pos ← field_end p pos; if pos <? 0 then Err err_columns_malformed else fields_loop n' p pos
  end.

Definition columns_from (p : list byte) : outcome Columns :=
  if len p <? 2 then Err err_columns_malformed
  else
    v ← big_endian_u16_at p 0;
    let n := i16 v in
    if n <? 0 then Err err_columns_malformed
    else
      pos ← fields_loop (Z.to_nat n) p 2;
      if negb (pos =? len p) then Err err_columns_malformed else Ok (mkColumns n p).

Fixpoint columns_loop (fuel : nat) (fr : list byte) (pos : Z) : outcome Columns :=
  match fuel with
  | O => Crash
  | S f =>
      hdr ← next_message_at fr pos;
      match hdr with
      | None => Ok (mkColumns 0 [])
      | Some hdr =>
          if beq (typ hdr) bt_row_description then w ← slice fr (pos + 5) (i32 (total hdr - 5)); columns_from w
          else if beq (typ hdr) bt_data_row then Ok (mkColumns 0 [])
          else columns_loop f fr (i32 (pos + total hdr))
      end
  end.

Definition columns (res : Result) : outcome Columns := columns_loop (S (length (frames res))) (frames res) 0.

Fixpoint start_loop (n : nat) (p : list byte) (pos : Z) : outcome Z :=
  match n with O => Ok pos | S n' => pos ← field_end p pos; start_loop n' p pos end.

Definition field_start (c : Columns) (i : Z) : outcome Z := start_loop (Z.to_nat i) (cols_payload c) 2.

Definition column_name (c : Columns) (i : Z) : outcome (list byte) :=
  if (i <? 0) || (cols_n c <=? i) then Err err_columns_range
  else start ← field_start c i; e ← field_end (cols_payload c) start; slice (cols_payload c) start (e - 19 - start).

Definition type_oid (c : Columns) (i : Z) : outcome Z :=
  if (i <? 0) || (cols_n c <=? i) then Err err_columns_range
  else start ← field_start c i; e ← field_end (cols_payload c) start; big_endian_u32_at (cols_payload c) (e - 12).

Fixpoint index_loop (n : nat) (p name : list byte) (i pos : Z) : outcome (option Z) :=
  match n with
  | O => Ok None
  | S n' =>
      e ← field_end p pos;
      let name_len := e - 19 - pos in
      same ← (if name_len =? len name then (fun w => bool_decide (w = name)) <$> slice p pos (len name) else Ok false);
      if (same : bool) then Ok (Some i) else index_loop n' p name (i + 1) e
  end.

Definition column_index (c : Columns) (name : list byte) : outcome (option Z) := index_loop (Z.to_nat (cols_n c)) (cols_payload c) name 0 2.

Definition col_by_name (p : list byte) (c : Columns) (name : list byte) : outcome DataValue :=
  i ← column_index c name;
  match i with None => Err err_columns_no_such | Some i => col p i end.

(** ** Errors *)

Record ErrorInfo := mkErrorInfo { severity : list byte; code : list byte; message : list byte }.

#[export] Instance eta_error_info : Eta ErrorInfo := mkEta _ (fun e => mkErrorInfo (severity e) (code e) (message e)).

Definition error_field (ft : byte) (val : list byte) (e : ErrorInfo) : ErrorInfo :=
  if beq ft (byte_of_Z 83) || beq ft (byte_of_Z 86) then e <| severity := val |>
  else if beq ft (byte_of_Z 67) then e <| code := val |>
  else if beq ft (byte_of_Z 77) then e <| message := val |>
  else e.

(** [for pos < payload.len]. *)
Fixpoint error_loop (fuel : nat) (p : list byte) (pos : Z) (e : ErrorInfo) : outcome ErrorInfo :=
  if pos <? len p then
    match fuel with
    | O => Crash
    | S f =>
        ft ← byte_at p pos;
        let pos := pos + 1 in
        if beq ft NUL then Ok e
        else
          let start := pos in
          pos ← nul_loop (length p) p pos;
          val ← slice p start (pos - start);
          error_loop f p (if pos <? len p then pos + 1 else pos) (error_field ft val e)
    end
  else Ok e.

Definition parse_error_response (p : list byte) : outcome ErrorInfo := error_loop (length p) p 0 (mkErrorInfo [] [] []).

Definition ends_session (severity : list byte) : bool :=
  if negb (len severity =? 5) then false else bool_decide (severity = bytes_of "FATAL") || bool_decide (severity = bytes_of "PANIC").

(** ** Frontend messages *)

Definition begin_msg (buf : list byte) (t : byte) : list byte * Z :=
  let buf := buf ++ [t] in
  (buf ++ [byte_of_Z 0; byte_of_Z 0; byte_of_Z 0; byte_of_Z 0], len buf).

Definition patch_len (buf : list byte) (lenpos : Z) : outcome (list byte) :=
  let msg_len := u32 (len buf - lenpos) in
  buf ← set_at buf lenpos (byte_of_Z (Z.shiftr msg_len 24));
  buf ← set_at buf (lenpos + 1) (byte_of_Z (Z.shiftr msg_len 16));
  buf ← set_at buf (lenpos + 2) (byte_of_Z (Z.shiftr msg_len 8));
  set_at buf (lenpos + 3) (byte_of_Z msg_len).

Definition finish_msg (buf : list byte) (lenpos : Z) : outcome (list byte) := patch_len buf lenpos.

Definition put_u16 (buf : list byte) (v : Z) : list byte := buf ++ [byte_of_Z (Z.shiftr v 8)] ++ [byte_of_Z v].

Definition put_u32 (buf : list byte) (v : Z) : list byte := buf ++ [byte_of_Z (Z.shiftr v 24)] ++ [byte_of_Z (Z.shiftr v 16)] ++ [byte_of_Z (Z.shiftr v 8)] ++ [byte_of_Z v].

Definition put_cstr_s (buf s : list byte) : list byte := (buf ++ s) ++ [byte_of_Z 0].

Fixpoint startup_params (buf : list byte) (params : list (list byte * list byte)) : list byte :=
  match params with [] => buf | (name, value) :: params => startup_params (put_cstr_s (put_cstr_s buf name) value) params end.

(** A V map is walked in the order its keys were inserted in. *)
Definition write_startup (buf user database : list byte) (params : list (list byte * list byte)) : outcome (list byte) :=
  let lenpos := len buf in
  let buf := buf ++ [byte_of_Z 0; byte_of_Z 0; byte_of_Z 0; byte_of_Z 0] in
  let buf := put_u32 buf 0x00030000 in
  let buf := put_cstr_s buf (bytes_of "user") in
  let buf := put_cstr_s buf user in
  let buf := if 0 <? len database then put_cstr_s (put_cstr_s buf (bytes_of "database")) database else buf in
  let buf := startup_params buf params in
  patch_len (buf ++ [byte_of_Z 0]) lenpos.

Definition write_parse (buf stmt_name query_text : list byte) : outcome (list byte) :=
  let '(buf, lp) := begin_msg buf (byte_of_Z 80) in
  let buf := put_cstr_s buf stmt_name in
  let buf := put_cstr_s buf query_text in
  finish_msg (put_u16 buf 0) lp.

Fixpoint bind_params (buf : list byte) (params : list (option (list byte))) : list byte :=
  match params with
  | [] => buf
  | Some v :: params => bind_params (put_u32 buf (u32 (len v)) ++ v) params
  | None :: params => bind_params (put_u32 buf 0xFFFFFFFF) params
  end.

Definition write_bind (buf portal stmt_name : list byte) (params : list (option (list byte))) : outcome (list byte) :=
  let '(buf, lp) := begin_msg buf (byte_of_Z 66) in
  let buf := put_cstr_s buf portal in
  let buf := put_cstr_s buf stmt_name in
  let buf := put_u16 buf 0 in
  let buf := put_u16 buf (u16 (len params)) in
  let buf := bind_params buf params in
  let buf := put_u16 buf 1 in
  let buf := put_u16 buf 1 in
  finish_msg buf lp.

Definition write_describe_portal (buf portal : list byte) : outcome (list byte) :=
  let '(buf, lp) := begin_msg buf (byte_of_Z 68) in
  let buf := buf ++ [byte_of_Z 80] in
  finish_msg (put_cstr_s buf portal) lp.

Definition write_execute (buf portal : list byte) (max_rows : Z) : outcome (list byte) :=
  let '(buf, lp) := begin_msg buf (byte_of_Z 69) in
  let buf := put_cstr_s buf portal in
  finish_msg (put_u32 buf (u32 max_rows)) lp.

Definition write_sync (buf : list byte) : list byte := put_u32 (buf ++ [byte_of_Z 83]) 4.

Definition write_terminate (buf : list byte) : list byte := put_u32 (buf ++ [byte_of_Z 88]) 4.

Definition write_sasl_initial (buf mechanism client_first : list byte) : outcome (list byte) :=
  let '(buf, lp) := begin_msg buf (byte_of_Z 112) in
  let buf := put_cstr_s buf mechanism in
  let buf := put_u32 buf (u32 (len client_first)) in
  finish_msg (buf ++ client_first) lp.

Definition write_password (buf password : list byte) : outcome (list byte) :=
  let '(buf, lp) := begin_msg buf (byte_of_Z 112) in
  finish_msg (put_cstr_s buf password) lp.

Definition write_sasl_response (buf data : list byte) : outcome (list byte) :=
  let '(buf, lp) := begin_msg buf (byte_of_Z 112) in
  finish_msg (buf ++ data) lp.

(** ** The format of messages *)

(** A message: its type and its body. *)
Record msg := mkMsg { m_typ : byte; m_body : list byte }.

Definition enc_msg (m : msg) : list byte := m_typ m :: be4 (4 + len (m_body m)) ++ m_body m.

Definition enc_msgs (ms : list msg) : list byte := concat (enc_msg <$> ms).

(** A length that no sum with an offset makes leave the 32-bit [int]. *)
Definition fits_int (b : list byte) : Prop := len b < 2 ^ 31 - 32.

Lemma len_enc_msg m : len (enc_msg m) = 5 + len (m_body m).
Proof. unfold enc_msg, be4. rewrite len_cons, len_app, len_be_bytes. lia. Qed.

Lemma enc_msgs_cons m ms : enc_msgs (m :: ms) = enc_msg m ++ enc_msgs ms.
Proof. done. Qed.

Section Framing.
Context (buf : list byte) (Hfit : fits_int buf).

(** What follows the complete messages: too short for a header, an impossible length, or a
    message that is not complete. *)
Definition incomplete_msg (s : list byte) : Prop :=
  len s < 5 \/ exists t v s', s = t :: be4 v ++ s' /\ 0 <= v < 2 ^ 32 /\ (i32 v < 4 \/ (i32 v < 2 ^ 31 - 1 /\ len s < 1 + i32 v)).

Lemma next_message_at_msg pos m s : rest_at buf pos (enc_msg m ++ s) -> next_message_at buf pos = Ok (Some (mkMsgHeader (m_typ m) (len (enc_msg m)))).
Proof.
  intros Hr. unfold fits_int in Hfit. pose proof (rest_bounds _ _ _ Hr) as [H0 Hl]. rewrite len_app, len_enc_msg in Hl. pose proof (len_nonneg s). pose proof (len_nonneg (m_body m)). unfold next_message_at.
  rewrite (i32_small (len buf - pos)), (i32_small (pos + 1)) by lia. rewrite (proj2 (Z.ltb_ge _ _)) by lia. unfold enc_msg in Hr. cbn [app] in Hr. pose proof (byte_rest _ _ _ _ Hr) as Eb.
  apply (rest_skip buf pos [_]) in Hr. change (len [m_typ m]) with 1 in Hr. rewrite <- app_assoc in Hr. rewrite (u32_rest _ _ _ _ Hr). cbn [mbind outcome_bind]. rewrite i32_mod by lia. rewrite (proj2 (Z.ltb_ge _ 4)) by lia. rewrite (i32_small (1 + _)) by lia.
  rewrite (proj2 (Z.ltb_ge (len buf - pos) _)) by lia. rewrite Eb. cbn [mbind outcome_bind]. do 3 f_equal. rewrite len_enc_msg. lia.
Qed.

Lemma next_message_at_none pos s : rest_at buf pos s -> incomplete_msg s -> next_message_at buf pos = Ok None.
Proof.
  intros Hr Hs. unfold fits_int in Hfit. pose proof (rest_bounds _ _ _ Hr) as [H0 Hl]. pose proof (len_nonneg s). unfold next_message_at. rewrite (i32_small (len buf - pos)) by lia. destruct (Z.ltb_spec (len buf - pos) 5) as [|H5]; [done|].
  destruct Hs as [|(t & v & s' & -> & Hv & Hc)]; [lia|]. apply (rest_skip buf pos [_]) in Hr. change (len [t]) with 1 in Hr. rewrite (i32_small (pos + 1)) by lia. destruct (u32_word _ _ _ _ _ Hr Hv eq_refl) as [-> _]. cbn [mbind outcome_bind].
  destruct (Z.ltb_spec (i32 v) 4) as [|H4]; [done|]. destruct Hc as [|[Hc1 Hc2]]; [lia|]. pose proof (i32_range v). rewrite (i32_small (1 + i32 v)), (proj2 (Z.ltb_lt _ _)) by lia. done.
Qed.

Lemma frame_next_msg pos m s : rest_at buf pos (enc_msg m ++ s) ->
  frame_next (mkFrameIter buf pos) = Ok (Some (mkFrame (m_typ m) (m_body m)), mkFrameIter buf (pos + len (enc_msg m))) /\ rest_at buf (pos + len (enc_msg m)) s.
Proof.
  intros Hr. split; [|by apply rest_skip]. unfold fits_int in Hfit. pose proof (rest_bounds _ _ _ Hr) as [H0 Hl]. rewrite len_app, len_enc_msg in Hl. pose proof (len_nonneg s). pose proof (len_nonneg (m_body m)). unfold frame_next.
  rewrite (i32_small (pos + 5)), (i32_small (pos + 1)) by lia. rewrite (proj2 (Z.ltb_ge _ _)) by lia. unfold enc_msg in Hr. cbn [app] in Hr. pose proof (byte_rest _ _ _ _ Hr) as Eb.
  apply (rest_skip buf pos [_]) in Hr. change (len [m_typ m]) with 1 in Hr. rewrite <- app_assoc in Hr. rewrite (u32_rest _ _ _ _ Hr). cbn [mbind outcome_bind]. rewrite i32_mod by lia. rewrite (proj2 (Z.ltb_ge _ 4)) by lia. rewrite (i32_small (1 + _)), (i32_small (pos + _)) by lia.
  rewrite (proj2 (Z.ltb_ge (len buf) _)) by lia. rewrite Eb. cbn [mbind outcome_bind]. rewrite i32_small by lia. apply rest_skip in Hr. change (pos + 1 + len (be4 _)) with (pos + 1 + 4) in Hr. replace (pos + 5) with (pos + 1 + 4) by lia.
  replace (1 + (4 + len (m_body m)) - 5) with (len (m_body m)) by lia. rewrite (slice_rest _ _ _ _ Hr). cbn [mbind outcome_bind]. do 3 f_equal. rewrite len_enc_msg. lia.
Qed.

Lemma frame_next_end pos : rest_at buf pos [] -> frame_next (mkFrameIter buf pos) = Ok (None, mkFrameIter buf pos).
Proof. intros Hr. unfold fits_int in Hfit. apply rest_bounds in Hr as [H0 Hl]. rewrite len_nil in Hl. unfold frame_next. rewrite (i32_small (pos + 5)), (proj2 (Z.ltb_lt _ _)) by lia. done. Qed.
End Framing.

Lemma enc_msgs_app a b : enc_msgs (a ++ b) = enc_msgs a ++ enc_msgs b.
Proof. unfold enc_msgs. by rewrite fmap_app, concat_app. Qed.

Lemma msgs_length ms : (length ms <= length (enc_msgs ms))%nat.
Proof. induction ms as [|m ms IH]; [done|]. rewrite enc_msgs_cons, length_app. cbn [length]. unfold enc_msg. cbn [length]. lia. Qed.

(** ** Replies *)

(** The statements a reply completes, each with the messages since the one before. *)
Fixpoint statements_from (cur ms : list msg) : list (list msg) :=
  match ms with
  | [] => []
  | m :: ms => if ends_statement (m_typ m) then (cur ++ [m]) :: statements_from [] ms else statements_from (cur ++ [m]) ms
  end.

Definition statements_of (ms : list msg) : list (list msg) := statements_from [] ms.

Definition statement_rows (seg : list msg) : Z :=
  match last seg with Some m => if beq (m_typ m) bt_command_complete then parse_command_complete (m_body m) else 0 | None => 0 end.

Definition data_rows (ms : list msg) : list (list byte) := m_body <$> filter (fun m => m_typ m = bt_data_row) ms.

(** The description of the columns comes before the rows. *)
Fixpoint description (ms : list msg) : option (list byte) :=
  match ms with
  | [] => None
  | m :: ms => if beq (m_typ m) bt_row_description then Some (m_body m) else if beq (m_typ m) bt_data_row then None else description ms
  end.

(** The rows an iterator yields. *)
Fixpoint row_list (n : nat) (it : FrameIter) : outcome (list (list byte)) :=
  match n with
  | O => Ok []
  | S n' =>
      '(r, it) ← row_next it;
      match r with None => Ok [] | Some r => (cons r) <$> row_list n' it end
  end.

Section Reply.
Context (ms0 : list msg) (Hfit : fits_int (enc_msgs ms0)).
Let fr : list byte := enc_msgs ms0.

Lemma rest_msgs done ms : ms0 = done ++ ms -> rest_at fr (len (enc_msgs done)) (enc_msgs ms).
Proof. intros E. exists (enc_msgs done). split; [|done]. unfold fr. by rewrite E, enc_msgs_app. Qed.

Lemma next_msg done m ms : ms0 = done ++ m :: ms -> next_message_at fr (len (enc_msgs done)) = Ok (Some (mkMsgHeader (m_typ m) (len (enc_msg m)))) /\ i32 (len (enc_msgs done) + len (enc_msg m)) = len (enc_msgs (done ++ [m])).
Proof.
  intros E. pose proof (rest_msgs _ _ E) as Hr. rewrite enc_msgs_cons in Hr. split; [by apply (next_message_at_msg fr Hfit _ m (enc_msgs ms))|]. apply rest_bounds in Hr as [H0 Hl]. rewrite len_app in Hl. pose proof (len_nonneg (enc_msgs ms)). pose proof (len_nonneg (enc_msg m)).
  unfold fits_int in Hfit. fold fr in Hfit. rewrite i32_small by lia. by rewrite enc_msgs_app, len_app, (enc_msgs_cons m []), app_nil_r.
Qed.

Lemma next_msg_end : next_message_at fr (len (enc_msgs ms0)) = Ok None.
Proof. apply (next_message_at_none fr Hfit _ []); [|left; by vm_compute]. pose proof (rest_msgs ms0 [] ltac:(by rewrite app_nil_r)) as H. exact H. Qed.

Lemma done_loop_spec ms done fuel n : ms0 = done ++ ms -> (length ms < fuel)%nat -> done_loop fuel fr (len (enc_msgs done)) n = Ok (n + len (filter (fun m => ends_statement (m_typ m) = true) ms)).
Proof.
  revert done fuel n. induction ms as [|m ms IH]; intros done fuel n E Hf; (destruct fuel as [|fuel]; [cbn in Hf; lia|]); cbn [done_loop].
  - rewrite app_nil_r in E. subst done. rewrite next_msg_end. cbn [mbind outcome_bind]. by rewrite Z.add_0_r.
  - destruct (next_msg done m ms E) as [-> Ei]. cbn [mbind outcome_bind typ total]. rewrite Ei, (IH (done ++ [m])) by (by rewrite <- app_assoc || (cbn in Hf; lia)). rewrite filter_cons. destruct (ends_statement (m_typ m)) eqn:Ee; [rewrite decide_True by done; rewrite len_cons; f_equal; lia | by rewrite decide_False by done].
Qed.

Lemma statement_loop_spec ms done cur fuel i n : ms0 = done ++ cur ++ ms -> (length ms < fuel)%nat -> n <= i ->
  statement_loop fuel fr i (len (enc_msgs (done ++ cur))) (len (enc_msgs done)) n
  = match statements_from cur ms !! Z.to_nat (i - n) with Some seg => Ok (mkResult (enc_msgs seg) (statement_rows seg)) | None => Err err_no_such_statement end.
Proof.
  revert done cur fuel n. induction ms as [|m ms IH]; intros done cur fuel n E Hf Hn; (destruct fuel as [|fuel]; [cbn in Hf; lia|]); cbn [statement_loop statements_from].
  - rewrite app_nil_r in E. rewrite <- E, next_msg_end. done.
  - assert (E1 : ms0 = (done ++ cur) ++ m :: ms) by (by rewrite <- app_assoc). destruct (next_msg _ m ms E1) as [-> Ei]. cbn [mbind outcome_bind typ total]. rewrite Ei, <- app_assoc. destruct (ends_statement (m_typ m)) eqn:Ee; cbn [negb].
    2: { apply IH; [by rewrite E, <- !app_assoc | cbn in Hf; lia | done]. }
    destruct (Z.eqb_spec n i) as [->|Hne].
    + rewrite Z.sub_diag. change (((cur ++ [m]) :: statements_from [] ms) !! Z.to_nat 0) with (Some (cur ++ [m])). pose proof (rest_msgs _ _ E1) as Hr. rewrite enc_msgs_cons in Hr. unfold enc_msg in Hr. cbn [app] in Hr. apply (rest_skip fr _ [_]) in Hr. rewrite <- app_assoc in Hr. apply rest_skip in Hr.
      change (len [m_typ m]) with 1 in Hr. change (len (be4 _)) with 4 in Hr. pose proof (rest_msgs _ _ E1) as Hr0. apply rest_bounds in Hr0 as [H0 Hl]. rewrite enc_msgs_cons, len_app in Hl. pose proof (len_enc_msg m) as Hm. pose proof (len_nonneg (m_body m)). pose proof (len_nonneg (enc_msgs ms)).
      unfold fits_int in Hfit. fold fr in Hfit. assert (Hpos : len (enc_msgs (done ++ cur ++ [m])) = len (enc_msgs (done ++ cur)) + len (enc_msg m)) by (rewrite app_assoc, (enc_msgs_app _ [m]), len_app, enc_msgs_cons; change (enc_msgs []) with (@nil byte); by rewrite app_nil_r).
      rewrite Hpos. rewrite (i32_small (len (enc_msg m) - 5)) by lia. replace (len (enc_msgs (done ++ cur)) + len (enc_msg m) - len (enc_msg m) + 5) with (len (enc_msgs (done ++ cur)) + 1 + 4) by lia. rewrite Hm. replace (5 + len (m_body m) - 5) with (len (m_body m)) by lia.
      rewrite (slice_rest _ _ _ _ Hr). assert (Hst : statement_rows (cur ++ [m]) = if beq (m_typ m) bt_command_complete then parse_command_complete (m_body m) else 0) by (unfold statement_rows; by rewrite last_snoc). rewrite Hst.
      pose proof (rest_msgs done (cur ++ m :: ms) E) as Hs. replace (cur ++ m :: ms) with ((cur ++ [m]) ++ ms) in Hs by (by rewrite <- app_assoc). rewrite enc_msgs_app in Hs. pose proof (slice_rest _ _ _ _ Hs) as Esl. rewrite <- Hm, <- Hpos.
      assert (Hlen : len (enc_msgs (done ++ cur ++ [m])) - len (enc_msgs done) = len (enc_msgs (cur ++ [m]))) by (rewrite (enc_msgs_app done), len_app; lia). rewrite Hlen. pose proof (rest_bounds _ _ _ Hs) as [? Hb2]. rewrite len_app in Hb2. pose proof (len_nonneg (enc_msgs (cur ++ [m]))). pose proof (len_nonneg (enc_msgs ms)).
      rewrite i32_small by lia. rewrite Esl. by destruct (beq _ _).
    + replace (Z.to_nat (i - n)) with (S (Z.to_nat (i - (n + 1)))) by lia. rewrite lookup_cons_ne_0 by lia. cbn [Nat.pred]. specialize (IH (done ++ cur ++ [m]) [] fuel (n + 1)). rewrite app_nil_r in IH. apply IH; [by rewrite E, <- !app_assoc | cbn in Hf; lia | lia].
Qed.

Lemma columns_loop_spec ms done fuel : ms0 = done ++ ms -> (length ms < fuel)%nat ->
  columns_loop fuel fr (len (enc_msgs done)) = match description ms with Some p => columns_from p | None => Ok (mkColumns 0 []) end.
Proof.
  revert done fuel. induction ms as [|m ms IH]; intros done fuel E Hf; (destruct fuel as [|fuel]; [cbn in Hf; lia|]); cbn [columns_loop description].
  - rewrite app_nil_r in E. subst done. by rewrite next_msg_end.
  - destruct (next_msg _ m ms E) as [-> Ei]. cbn [mbind outcome_bind typ total]. destruct (beq (m_typ m) bt_row_description) eqn:Et.
    + pose proof (rest_msgs _ _ E) as Hr. rewrite enc_msgs_cons in Hr. pose proof (rest_bounds _ _ _ Hr) as [H0 Hl]. rewrite len_app in Hl. unfold enc_msg in Hr. cbn [app] in Hr. apply (rest_skip fr _ [_]) in Hr. rewrite <- app_assoc in Hr. apply rest_skip in Hr.
      change (len [m_typ m]) with 1 in Hr. change (len (be4 _)) with 4 in Hr. pose proof (len_enc_msg m) as Hm. pose proof (len_nonneg (m_body m)). pose proof (len_nonneg (enc_msgs ms)). unfold fits_int in Hfit. fold fr in Hfit.
      rewrite i32_small by lia. replace (len (enc_msg m) - 5) with (len (m_body m)) by lia. replace (len (enc_msgs done) + 5) with (len (enc_msgs done) + 1 + 4) by lia. by rewrite (slice_rest _ _ _ _ Hr).
    + destruct (beq _ bt_data_row); [done|]. rewrite Ei. apply IH; [by rewrite E, <- app_assoc | cbn in Hf; lia].
Qed.

Lemma row_next_spec ms done fuel : ms0 = done ++ ms -> (length ms < fuel)%nat ->
  exists done' ms', ms0 = done' ++ ms' /\ (length ms' <= length ms)%nat /\
    match data_rows ms with
    | [] => row_next_loop fuel (mkFrameIter fr (len (enc_msgs done))) = Ok (None, mkFrameIter fr (len (enc_msgs done')))
    | r :: rs => row_next_loop fuel (mkFrameIter fr (len (enc_msgs done))) = Ok (Some r, mkFrameIter fr (len (enc_msgs done'))) /\ data_rows ms' = rs /\ (length ms' < length ms)%nat
    end.
Proof.
  revert done fuel. induction ms as [|m ms IH]; intros done fuel E Hf; (destruct fuel as [|fuel]; [cbn in Hf; lia|]); cbn [row_next_loop].
  - exists done, []. split; [done|]. split; [done|]. rewrite app_nil_r in E. subst done. cbn [data_rows filter list_filter fmap list_fmap]. rewrite (frame_next_end fr Hfit); [done|]. apply (rest_msgs ms0 []). by rewrite app_nil_r.
  - pose proof (rest_msgs _ _ E) as Hr. rewrite enc_msgs_cons in Hr. destruct (frame_next_msg fr Hfit _ _ _ Hr) as [-> _]. cbn [mbind outcome_bind ftyp payload]. assert (Hp : len (enc_msgs done) + len (enc_msg m) = len (enc_msgs (done ++ [m]))) by (rewrite enc_msgs_app, len_app, (enc_msgs_cons m []), app_nil_r; done).
    rewrite Hp. assert (E1 : ms0 = (done ++ [m]) ++ ms) by (by rewrite <- app_assoc). unfold data_rows. rewrite filter_cons. destruct (beq (m_typ m) bt_data_row) eqn:Et.
    + apply beq_true in Et. rewrite decide_True by done. exists (done ++ [m]), ms. split; [done|]. split; [cbn; lia|]. cbn [fmap list_fmap]. split; [done|]. split; [done | cbn; lia].
    + apply beq_false in Et. rewrite decide_False by done. destruct (IH (done ++ [m]) fuel E1 ltac:(cbn in Hf; lia)) as (d' & ms' & E' & Hl & Hc). exists d', ms'. split; [done|]. split; [cbn; lia|]. unfold data_rows in Hc. destruct (m_body <$> _); [done|]. destruct Hc as (H1 & H2 & H3). split; [done|]. split; [done | cbn; lia].
Qed.

Lemma row_list_spec n ms done : ms0 = done ++ ms -> (length ms < n)%nat -> row_list n (mkFrameIter fr (len (enc_msgs done))) = Ok (data_rows ms).
Proof.
  revert ms done. induction n as [|n IH]; intros ms done E Hn; [lia|]. cbn [row_list]. unfold row_next. cbn [fbuf]. pose proof (msgs_length ms0) as Hl. assert (length ms <= length ms0)%nat by (rewrite E, length_app; lia).
  destruct (row_next_spec ms done (S (length fr)) E ltac:(unfold fr; lia)) as (d' & ms' & E' & Hl' & Hc). destruct (data_rows ms) as [|r rs]; [by rewrite Hc|]. destruct Hc as (-> & Hrs & Hlt). cbn [mbind outcome_bind]. rewrite (IH ms' d' E') by lia. by rewrite Hrs.
Qed.
End Reply.

(** C23: A reply is read as the server sent it. Of any sequence of backend messages, the
    rows are the DataRow bodies in order, statement [i] is the messages up to its
    CommandComplete or EmptyQueryResponse with the count of its tag (an error past the
    last one), the count of completed statements is theirs, and the columns are those of
    the RowDescription in front of the rows. *)
Theorem reply_read_back ms r :
  fits_int (enc_msgs ms) ->
  row_list (S (length ms)) (rows (mkResult (enc_msgs ms) r)) = Ok (data_rows ms) /\
  (forall i, 0 <= i -> statement (mkResult (enc_msgs ms) r) i =
     match statements_of ms !! Z.to_nat i with Some seg => Ok (mkResult (enc_msgs seg) (statement_rows seg)) | None => Err err_no_such_statement end) /\
  statements_done (enc_msgs ms) = Ok (len (filter (fun m => ends_statement (m_typ m) = true) ms)) /\
  columns (mkResult (enc_msgs ms) r) = match description ms with Some p => columns_from p | None => Ok (mkColumns 0 []) end.
Proof.
  intros Hfit. pose proof (msgs_length ms) as Hl. split; [|split; [|split]].
  - apply (row_list_spec ms Hfit _ ms []); [done | lia].
  - intros i Hi. unfold statement. cbn [frames]. pose proof (statement_loop_spec ms Hfit ms [] [] (S (length (enc_msgs ms))) i 0 eq_refl ltac:(lia) Hi) as E. cbn [app] in E. change (len (enc_msgs [])) with 0 in E. by rewrite E, Z.sub_0_r.
  - unfold statements_done. apply (done_loop_spec ms Hfit ms [] _ 0 eq_refl). lia.
  - unfold columns. cbn [frames]. apply (columns_loop_spec ms Hfit ms [] _ eq_refl). lia.
Qed.

Lemma reply_read_back_witness :
  let ms := [mkMsg (byte_of_Z 49) []; mkMsg bt_data_row (be2 1 ++ enc_elem (Some (bytes_of "x"))); mkMsg bt_command_complete (bytes_of "SELECT 1" ++ [NUL]); mkMsg bt_command_complete (bytes_of "INSERT 0 3" ++ [NUL])] in
  statement (mkResult (enc_msgs ms) 3) 1 = Ok (mkResult (enc_msgs (drop 3 ms)) 3) /\
  (row_list (S (length ms)) (rows (mkResult (enc_msgs ms) 3)) = Ok (data_rows ms) /\
   (forall i, 0 <= i -> statement (mkResult (enc_msgs ms) 3) i =
      match statements_of ms !! Z.to_nat i with Some seg => Ok (mkResult (enc_msgs seg) (statement_rows seg)) | None => Err err_no_such_statement end) /\
   statements_done (enc_msgs ms) = Ok (len (filter (fun m => ends_statement (m_typ m) = true) ms)) /\
   columns (mkResult (enc_msgs ms) 3) = match description ms with Some p => columns_from p | None => Ok (mkColumns 0 []) end).
Proof. intros ms. split; [by vm_compute|]. apply (reply_read_back ms 3). by vm_compute. Defined.

(** ** Rows on the wire *)

Definition enc_row (cs : list (option (list byte))) : list byte := be2 (len cs) ++ concat (enc_elem <$> cs).

Section Row.
Context (p : list byte) (Hfit : fits_int p).

Lemma col_loop_spec cs pos s i idx : rest_at p pos (concat (enc_elem <$> cs) ++ s) -> idx <= i ->
  col_loop (length cs) p i idx pos = match cs !! Z.to_nat (i - idx) with Some c => Ok (to_value c) | None => Err err_row_range end.
Proof.
  unfold fits_int in Hfit. revert pos idx. induction cs as [|c cs IH]; intros pos idx Hr Hi; [done|]. cbn [length col_loop]. cbn [fmap list_fmap concat] in Hr. rewrite <- app_assoc in Hr. pose proof (rest_bounds _ _ _ Hr) as [H0 Hl]. rewrite len_app in Hl. pose proof (len_nonneg (concat (enc_elem <$> cs) ++ s)) as Hn.
  assert (Hnext : idx <> i -> (c :: cs) !! Z.to_nat (i - idx) = cs !! Z.to_nat (i - (idx + 1))) by (intros Hne; replace (Z.to_nat (i - idx)) with (S (Z.to_nat (i - (idx + 1)))) by lia; done).
  destruct c as [v|]; cbn [enc_elem] in *.
  - rewrite <- app_assoc in Hr. rewrite len_app in Hl. change (len (be4 (len v))) with 4 in Hl. pose proof (len_nonneg v) as Hv. rewrite (i32_small (pos + 4)) by lia. rewrite (proj2 (Z.ltb_ge (len p) _)) by lia. destruct (u32_signed _ _ _ _ _ Hr ltac:(lia) eq_refl) as (Eu & Ei & Hr1). rewrite Eu. cbn [mbind outcome_bind]. rewrite Ei.
    rewrite (proj2 (Z.ltb_ge (len v) 0)), (proj2 (Z.ltb_ge _ (len v))) by lia. destruct (Z.eqb_spec idx i) as [->|Hne]; [rewrite Z.sub_diag, (slice_rest _ _ _ _ Hr1); done|]. rewrite Hnext, i32_small by (done || lia). apply IH; [by apply rest_skip in Hr1 | lia].
  - change (len (be4 (-1))) with 4 in Hl. rewrite (i32_small (pos + 4)) by lia. rewrite (proj2 (Z.ltb_ge (len p) _)) by lia. destruct (u32_signed _ _ _ _ _ Hr ltac:(lia) eq_refl) as (Eu & Ei & Hr1). rewrite Eu. cbn [mbind outcome_bind]. rewrite Ei. change (-1 <? 0) with true. cbn match.
    destruct (Z.eqb_spec idx i) as [->|Hne]; [by rewrite Z.sub_diag|]. rewrite Hnext by done. apply IH; [done | lia].
Qed.

Lemma col_loop_post n pos i idx : 0 <= pos <= len p -> post (fun dv => len (bytes dv) <= len p) (col_loop n p i idx pos).
Proof.
  unfold fits_int in Hfit. revert pos idx. induction n as [|n IH]; intros pos idx Hp; [done|]. cbn [col_loop]. rewrite (i32_small (pos + 4)) by lia. destruct (Z.ltb_spec (len p) (pos + 4)) as [|H4]; [done|].
  pose proof (u32_post p pos ltac:(lia) ltac:(lia)) as Hv. destruct (big_endian_u32_at p pos) as [v| |]; [|done|done]. cbn [mbind outcome_bind]. pose proof (i32_range v). destruct (Z.ltb_spec (i32 v) 0); [destruct (_ =? _); [apply len_nonneg | apply IH; lia]|].
  destruct (Z.ltb_spec (len p - (pos + 4)) (i32 v)); [done|]. destruct (_ =? _); [|rewrite i32_small by lia; apply IH; lia]. pose proof (slice_post p (pos + 4) (i32 v) ltac:(lia) ltac:(lia) ltac:(lia)) as Hs. destruct (slice _ _ _); [|done|done]. cbn in *. lia.
Qed.
End Row.

Lemma col_spec cs i : fits_int (enc_row cs) -> len cs < 2 ^ 15 ->
  col (enc_row cs) i = if i <? 0 then Err err_row_range else match cs !! Z.to_nat i with Some c => Ok (to_value c) | None => Err err_row_range end.
Proof.
  intros Hfit Hn. unfold col. pose proof (rest_whole (enc_row cs) : rest_at (enc_row cs) 0 (be2 (len cs) ++ _)) as R0. pose proof (rest_bounds _ _ _ R0) as [_ Hl]. rewrite len_app in Hl. change (len (be2 (len cs))) with 2 in Hl. pose proof (len_nonneg (concat (enc_elem <$> cs))). pose proof (len_nonneg cs).
  rewrite (proj2 (Z.ltb_ge _ 2)) by lia. rewrite (u16_rest _ _ _ _ R0). cbn [mbind outcome_bind]. rewrite i16_mod by lia. destruct (Z.ltb_spec i 0) as [|Hi]; [done|]. cbn [orb]. destruct (Z.leb_spec (len cs) i) as [Hge|Hlt]; [rewrite lookup_ge_None_2 by (unfold len in *; lia); done|].
  apply rest_skip in R0. change (0 + len (be2 (len cs))) with 2 in R0. rewrite <- (app_nil_r (concat _)) in R0. replace (Z.to_nat (len cs)) with (length cs) by (unfold len; lia). by rewrite (col_loop_spec _ Hfit cs 2 [] i 0 R0 Hi), Z.sub_0_r.
Qed.

Lemma col_post p i : fits_int p -> post (fun dv => len (bytes dv) <= len p) (col p i).
Proof.
  intros Hfit. unfold col. destruct (Z.ltb_spec (len p) 2) as [|H2]; [done|]. pose proof (u16_post p 0 ltac:(lia) ltac:(lia)) as Hv. destruct (big_endian_u16_at p 0); [|done|done]. cbn [mbind outcome_bind]. destruct (_ || _); [done|]. apply col_loop_post; [done | lia].
Qed.

(** ** Column descriptions on the wire *)

(** A column: its name and 18 bytes, of which bytes 6 to 9 are the type's OID. *)
Record field_desc := mkField { fname : list byte; fmeta : list byte }.

Definition field_wf (f : field_desc) : Prop := (NUL ∉ fname f) /\ length (fmeta f) = 18%nat.

Definition enc_field (f : field_desc) : list byte := fname f ++ NUL :: fmeta f.

Definition enc_desc (fs : list field_desc) : list byte := be2 (len fs) ++ concat (enc_field <$> fs).

Definition field_oid (f : field_desc) : Z := be_val (take 4 (drop 6 (fmeta f))).

(** A field and what follows it, or nothing: the text ends before the field does. *)
Lemma field_cases (s : list byte) : (exists f s', s = enc_field f ++ s' /\ field_wf f) \/ (forall f s', field_wf f -> s <> enc_field f ++ s').
Proof.
  destruct (find_byte NUL s) as [k|] eqn:E.
  - apply find_byte_Some in E as (a & b & -> & Ha & <-). destruct (Z.ltb_spec (len b) 18) as [Hlt|Hge].
    + right. intros [n m] s' [Hn Hm] Es. unfold enc_field in Es. cbn [fname fmeta] in *. rewrite <- app_assoc in Es. cbn [app] in Es. assert (El : length a = length n) by (pose proof (find_byte_app NUL a b Ha) as E1; rewrite Es, (find_byte_app NUL n _ Hn) in E1; by injection E1).
      apply app_inj_1 in Es as [-> Es]; [|done]. injection Es as ->. unfold len in Hlt. rewrite length_app in Hlt. lia.
    + left. destruct (split_at 18 b) as (m & s' & -> & Hm & _); [unfold len in Hge; lia|]. exists (mkField a m), s'. split; [unfold enc_field; cbn; by rewrite <- app_assoc | done].
  - right. apply find_byte_None in E. intros f s' _ ->. apply E. unfold enc_field. set_solver.
Qed.

Section Columns.
Context (p : list byte) (Hfit : fits_int p).

Lemma nul_loop_spec a pos s fuel : rest_at p pos (a ++ s) -> (NUL ∉ a) -> (match s with [] => True | c :: _ => c = NUL end) -> (length a < fuel \/ s = [] /\ length a <= fuel)%nat -> nul_loop fuel p pos = Ok (pos + len a).
Proof.
  revert pos fuel. induction a as [|c a IH]; intros pos fuel Hr Ha Hs Hf; pose proof (rest_bounds _ _ _ Hr) as [H0 Hl].
  - cbn [app] in Hr. change (len (@nil byte)) with 0. rewrite Z.add_0_r. cbn [app] in Hl. destruct fuel as [|fuel]; cbn [nul_loop].
    + destruct Hf as [|[-> _]]; [lia|]. change (len (@nil byte)) with 0 in Hl. by rewrite (proj2 (Z.ltb_ge _ _)) by lia.
    + destruct s as [|c s]; [change (len (@nil byte)) with 0 in Hl; by rewrite (proj2 (Z.ltb_ge _ _)) by lia|]. subst c. rewrite len_cons in Hl. pose proof (len_nonneg s). rewrite (proj2 (Z.ltb_lt _ _)) by lia. rewrite (byte_rest _ _ _ _ Hr). cbn [mbind outcome_bind]. by rewrite (proj2 (beq_true _ _)).
  - cbn [app] in Hr, Hl. rewrite len_cons in Hl. pose proof (len_nonneg (a ++ s)). destruct fuel as [|fuel]; [cbn in Hf; lia|]. cbn [nul_loop]. rewrite (proj2 (Z.ltb_lt _ _)) by lia. rewrite (byte_rest _ _ _ _ Hr). cbn [mbind outcome_bind].
    apply not_elem_of_cons in Ha as [Hc Ha]. rewrite (proj2 (beq_false c NUL)) by congruence. apply (rest_skip p pos [c]) in Hr. change (len [c]) with 1 in Hr.
    rewrite (IH (pos + 1) fuel Hr Ha Hs); [rewrite len_cons; f_equal; lia|]. cbn in Hf. destruct Hf as [|[? ?]]; [left; lia | right; split; [done | lia]].
Qed.

Lemma field_end_field pos f s : rest_at p pos (enc_field f ++ s) -> field_wf f -> field_end p pos = Ok (pos + len (enc_field f)) /\ rest_at p (pos + len (enc_field f)) s.
Proof.
  intros Hr [Hn Hm]. split; [|by apply rest_skip]. unfold fits_int in Hfit. pose proof (rest_bounds _ _ _ Hr) as [H0 Hl]. pose proof (len_nonneg s). assert (He : len (enc_field f) = len (fname f) + 19) by (unfold enc_field; rewrite len_app, len_cons; unfold len; lia).
  rewrite len_app, He in Hl. unfold enc_field in Hr. rewrite <- app_assoc in Hr. unfold field_end. rewrite (nul_loop_spec (fname f) pos _ (length p) Hr Hn eq_refl) by (left; unfold len in Hl; lia). cbn [mbind outcome_bind]. pose proof (len_nonneg (fname f)).
  rewrite (proj2 (Z.leb_gt _ _)), (proj2 (Z.ltb_ge _ 18)) by lia. cbn [orb]. rewrite i32_small, He by lia. f_equal. lia.
Qed.

Lemma field_end_none pos s : rest_at p pos s -> (forall f s', field_wf f -> s <> enc_field f ++ s') -> field_end p pos = Ok (-1).
Proof.
  intros Hr Hno. pose proof (rest_bounds _ _ _ Hr) as [H0 Hl]. unfold field_end. destruct (find_byte NUL s) as [k|] eqn:E.
  - apply find_byte_Some in E as (a & b & -> & Ha & <-). rewrite len_app, len_cons in Hl. pose proof (len_nonneg a). pose proof (len_nonneg b). rewrite (nul_loop_spec a pos _ (length p) Hr Ha eq_refl) by (left; unfold len in Hl; lia). cbn [mbind outcome_bind].
    destruct (Z.ltb_spec (len p - (pos + len a + 1)) 18) as [|Hge]; [by rewrite orb_true_r|]. exfalso. destruct (split_at 18 b) as (m & s' & -> & Hm & _); [unfold len in *; lia|]. apply (Hno (mkField a m) s'); [done|]. unfold enc_field. cbn [fname fmeta]. by rewrite <- app_assoc.
  - apply find_byte_None in E. rewrite <- (app_nil_r s) in Hr. rewrite (nul_loop_spec s pos [] (length p) Hr E I) by (right; split; [done | unfold len in Hl; lia]). cbn [mbind outcome_bind]. by rewrite (proj2 (Z.leb_le _ _)) by lia.
Qed.

Lemma fields_loop_complete fs pos s : rest_at p pos (concat (enc_field <$> fs) ++ s) -> Forall field_wf fs -> fields_loop (length fs) p pos = Ok (pos + len (concat (enc_field <$> fs))) /\ start_loop (length fs) p pos = Ok (pos + len (concat (enc_field <$> fs))).
Proof.
  intros Hr Hw. revert pos Hr. induction Hw as [|f fs Hf _ IH]; intros pos Hr; [split; cbn; by rewrite Z.add_0_r|]. cbn [fmap list_fmap concat length fields_loop start_loop] in *. rewrite <- app_assoc in Hr. destruct (field_end_field pos f _ Hr Hf) as [-> Hr1]. cbn [mbind outcome_bind].
  pose proof (rest_bounds _ _ _ Hr1) as [H0 _]. rewrite (proj2 (Z.ltb_ge _ _)) by lia. destruct (IH _ Hr1) as [-> ->]. rewrite len_app. split; f_equal; lia.
Qed.

Lemma fields_loop_sound n pos s : rest_at p pos s ->
  match fields_loop n p pos with
  | Ok e => exists fs s', length fs = n /\ Forall field_wf fs /\ s = concat (enc_field <$> fs) ++ s' /\ rest_at p e s'
  | Err e => e = err_columns_malformed
  | Crash => False
  end.
Proof.
  revert pos s. induction n as [|n IH]; intros pos s Hr; cbn [fields_loop]; [by exists [], s|]. destruct (field_cases s) as [(f & s1 & -> & Hf)|Hno].
  - destruct (field_end_field pos f s1 Hr Hf) as [-> Hr1]. cbn [mbind outcome_bind]. pose proof (rest_bounds _ _ _ Hr1) as [H0 _]. rewrite (proj2 (Z.ltb_ge _ _)) by lia. specialize (IH _ _ Hr1). destruct (fields_loop n p _) as [e| |]; [|done|done].
    destruct IH as (fs & s' & <- & Hfs & -> & He). exists (f :: fs), s'. split; [done|]. split; [by constructor|]. split; [cbn [fmap list_fmap concat]; by rewrite <- app_assoc | done].
  - rewrite (field_end_none pos s Hr Hno). done.
Qed.
End Columns.

Record desc_form (p : list byte) (fs : list field_desc) : Prop := {
  df_bytes : p = enc_desc fs;
  df_fields : Forall field_wf fs;
  df_count : len fs < 2 ^ 15;
}.

Lemma columns_from_complete p fs : fits_int p -> desc_form p fs -> columns_from p = Ok (mkColumns (len fs) p).
Proof.
  intros Hfit [Ep Hf Hn]. pose proof (rest_whole p) as R0. rewrite Ep in R0 at 2. unfold enc_desc in R0. pose proof (rest_bounds _ _ _ R0) as [_ Hl]. rewrite len_app in Hl. change (len (be2 (len fs))) with 2 in Hl. pose proof (len_nonneg (concat (enc_field <$> fs))). pose proof (len_nonneg fs).
  unfold columns_from. rewrite (proj2 (Z.ltb_ge (len p) 2)) by lia. rewrite (u16_rest _ _ _ _ R0). cbn [mbind outcome_bind]. rewrite i16_mod, (proj2 (Z.ltb_ge (len fs) 0)) by lia. apply rest_skip in R0. change (0 + len (be2 (len fs))) with 2 in R0. rewrite <- (app_nil_r (concat _)) in R0.
  replace (Z.to_nat (len fs)) with (length fs) by (unfold len; lia). destruct (fields_loop_complete p Hfit fs 2 [] R0 Hf) as [-> _]. cbn [mbind outcome_bind]. by rewrite (proj2 (Z.eqb_eq _ (len p))) by lia.
Qed.

Lemma columns_from_sound p : fits_int p -> match columns_from p with Ok c => exists fs, desc_form p fs /\ c = mkColumns (len fs) p | Err _ => forall fs, ~ desc_form p fs | Crash => False end.
Proof.
  intros Hfit. assert (Hno : forall e, columns_from p = Err e -> forall fs, ~ desc_form p fs) by (intros e He fs Hd; by rewrite (columns_from_complete p fs Hfit Hd) in He).
  assert (Hs : match columns_from p with Ok c => exists fs, desc_form p fs /\ c = mkColumns (len fs) p | Err _ => True | Crash => False end); [|destruct (columns_from p) as [c|e|]; [done | by apply (Hno e) | done]]. clear Hno.
  unfold columns_from. destruct (Z.ltb_spec (len p) 2) as [|H2]; [done|]. pose proof (rest_whole p) as R0. destruct (word_split 2 p) as (v & s & Ep & Hv); [lia|]. rewrite Ep in R0 at 2. rewrite (u16_rest _ _ _ _ R0). cbn [mbind outcome_bind]. rewrite Z.mod_small by done.
  pose proof (i16_range v). destruct (Z.ltb_spec (i16 v) 0) as [|H0]; [done|]. apply rest_skip in R0. change (0 + len (be_bytes 2 v)) with 2 in R0. pose proof (fields_loop_sound p Hfit (Z.to_nat (i16 v)) 2 s R0) as Hs. destruct (fields_loop _ p 2) as [e| |]; [|done|done].
  destruct Hs as (fs & s' & Hn & Hw & -> & He). cbn [mbind outcome_bind]. destruct (Z.eqb_spec e (len p)) as [->|]; [|done]. cbn [negb]. apply rest_bounds in He as [_ He]. assert (En : i16 v = len fs) by (unfold len; lia). exists fs. rewrite En. split; [|done]. split; [|done|lia].
  rewrite Ep, (len_zero s'), app_nil_r by lia. unfold enc_desc. by rewrite <- En, be2_i16.
Qed.

Section Lookup.
Context (p : list byte) (fs : list field_desc) (Hfit : fits_int p) (Hd : desc_form p fs).

Lemma rest_fields : rest_at p 2 (concat (enc_field <$> fs)).
Proof. pose proof (rest_whole p) as R0. rewrite (df_bytes _ _ Hd) in R0 at 2. apply rest_skip in R0. exact R0. Qed.

Lemma field_at i f : fs !! i = Some f -> exists start s, start_loop i p 2 = Ok start /\ rest_at p start (enc_field f ++ s) /\ field_wf f.
Proof.
  intros E. pose proof (df_fields _ _ Hd) as Hw. pose proof rest_fields as R. rewrite <- (take_drop_middle fs i f E), fmap_app, concat_app in R. cbn [fmap list_fmap concat] in R.
  destruct (fields_loop_complete p Hfit (take i fs) 2 _ R (Forall_take _ _ _ Hw)) as [_ Es]. rewrite length_take_le in Es by (apply Nat.lt_le_incl, lookup_lt_Some with f, E). apply rest_skip in R. eexists _, _. split; [exact Es|]. split; [exact R | by apply (Forall_lookup_1 _ _ _ _ Hw E)].
Qed.

Lemma column_name_spec i : column_name (mkColumns (len fs) p) i = if i <? 0 then Err err_columns_range else match fs !! Z.to_nat i with Some f => Ok (fname f) | None => Err err_columns_range end.
Proof.
  unfold column_name, field_start. cbn [cols_n cols_payload]. destruct (Z.ltb_spec i 0) as [|Hi]; [done|]. cbn [orb]. destruct (Z.leb_spec (len fs) i) as [Hge|Hlt]; [by rewrite lookup_ge_None_2 by (unfold len in *; lia)|].
  destruct (lookup_lt_is_Some_2 fs (Z.to_nat i)) as [f E]; [unfold len in *; lia|]. rewrite E. destruct (field_at _ _ E) as (start & s & -> & Hr & Hf). cbn [mbind outcome_bind]. destruct (field_end_field p Hfit start f s Hr Hf) as [-> _]. cbn [mbind outcome_bind].
  assert (He : len (enc_field f) = len (fname f) + 19) by (unfold enc_field; rewrite len_app, len_cons; destruct Hf as [_ Hm]; unfold len; lia). replace (start + len (enc_field f) - 19 - start) with (len (fname f)) by lia. unfold enc_field in Hr. rewrite <- app_assoc in Hr. by apply (slice_rest _ _ _ _ Hr).
Qed.

Lemma type_oid_spec i : type_oid (mkColumns (len fs) p) i = if i <? 0 then Err err_columns_range else match fs !! Z.to_nat i with Some f => Ok (field_oid f) | None => Err err_columns_range end.
Proof.
  unfold type_oid, field_start. cbn [cols_n cols_payload]. destruct (Z.ltb_spec i 0) as [|Hi]; [done|]. cbn [orb]. destruct (Z.leb_spec (len fs) i) as [Hge|Hlt]; [by rewrite lookup_ge_None_2 by (unfold len in *; lia)|].
  destruct (lookup_lt_is_Some_2 fs (Z.to_nat i)) as [f E]; [unfold len in *; lia|]. rewrite E. destruct (field_at _ _ E) as (start & s & -> & Hr & Hf). cbn [mbind outcome_bind]. destruct (field_end_field p Hfit start f s Hr Hf) as [-> _]. cbn [mbind outcome_bind]. destruct Hf as [_ Hm].
  assert (He : len (enc_field f) = len (fname f) + 19) by (unfold enc_field; rewrite len_app, len_cons; unfold len; lia). unfold big_endian_u32_at, field_oid. set (w := take 4 (drop 6 (fmeta f))). assert (Hw : len w = 4) by (unfold w, len; rewrite length_take, length_drop; lia).
  assert (Hr2 : rest_at p (start + len (enc_field f) - 12) (w ++ drop 4 (drop 6 (fmeta f)) ++ s)).
  { unfold enc_field in Hr. rewrite <- (take_drop 6 (fmeta f)), <- (take_drop 4 (drop 6 (fmeta f))) in Hr. fold w in Hr. rewrite app_comm_cons, !app_assoc in Hr. rewrite <- (app_assoc _ _ s), <- (app_assoc _ w) in Hr. apply rest_skip in Hr. rewrite len_app, len_cons in Hr. revert Hr. unfold len at 2. rewrite length_take.
    replace (start + (len (fname f) + (1 + Z.of_nat (6 `min` length (fmeta f))))) with (start + len (enc_field f) - 12) by lia. done. }
  rewrite <- Hw, (slice_rest _ _ _ _ Hr2). done.
Qed.

Lemma index_loop_spec gs pos s i name : rest_at p pos (concat (enc_field <$> gs) ++ s) -> Forall field_wf gs ->
  index_loop (length gs) p name i pos = Ok ((fun r => i + Z.of_nat (fst r)) <$> list_find (fun f => fname f = name) gs).
Proof.
  intros Hr Hw. revert pos i Hr. induction Hw as [|f gs Hf _ IH]; intros pos i Hr; [done|]. cbn [fmap list_fmap concat length index_loop] in *. rewrite <- app_assoc in Hr. destruct (field_end_field p Hfit pos f _ Hr Hf) as [-> Hr1]. cbn [mbind outcome_bind]. pose proof Hf as [_ Hm].
  assert (He : len (enc_field f) = len (fname f) + 19) by (unfold enc_field; rewrite len_app, len_cons; unfold len; lia). replace (pos + len (enc_field f) - 19 - pos) with (len (fname f)) by lia. unfold enc_field at 1 in Hr. rewrite <- (app_assoc (fname f)) in Hr. pose proof (slice_rest _ _ _ _ Hr) as Es.
  assert (Ec : (if len (fname f) =? len name then (fun w => bool_decide (w = name)) <$> slice p pos (len name) else Ok false) = Ok (bool_decide (fname f = name))).
  { destruct (Z.eqb_spec (len (fname f)) (len name)) as [El|Hne]; [rewrite <- El, Es; done|]. rewrite bool_decide_eq_false_2; [done|]. by intros <-. }
  rewrite Ec. cbn [mbind outcome_bind list_find]. destruct (decide (fname f = name)) as [E|E]; [rewrite bool_decide_eq_true_2 by done; cbn; do 2 f_equal; lia|]. rewrite bool_decide_eq_false_2 by done. rewrite (IH _ (i + 1) Hr1). f_equal. destruct (list_find _ gs) as [[k g]|]; [cbn; f_equal; lia | done].
Qed.

Lemma column_index_spec name : column_index (mkColumns (len fs) p) name = Ok ((fun r => Z.of_nat (fst r)) <$> list_find (fun f => fname f = name) fs).
Proof.
  unfold column_index. cbn [cols_n cols_payload]. replace (Z.to_nat (len fs)) with (length fs) by (unfold len; lia). pose proof rest_fields as R. rewrite <- (app_nil_r (concat _)) in R. rewrite (index_loop_spec fs 2 [] 0 name R (df_fields _ _ Hd)). done.
Qed.
End Lookup.

Definition value_at (cs : list (option (list byte))) (k : nat) : outcome DataValue := match cs !! k with Some c => Ok (to_value c) | None => Err err_row_range end.

(** C24: Values are found by index and by name. Column [i] of a row is the value the
    server put there, NULL told apart from an empty value, and an error past the last
    column. [columns_from] accepts exactly the column descriptions of the protocol; of an
    accepted one, every name and type is the one described, and reading a row by name
    gives the value of the first column of that name. *)
Theorem row_values_read_back p cs :
  fits_int p -> fits_int (enc_row cs) -> len cs < 2 ^ 15 ->
  (forall k, col (enc_row cs) (Z.of_nat k) = value_at cs k) /\
  match columns_from p with
  | Ok c => exists fs, desc_form p fs /\ cols_n c = len fs /\
      (forall k, column_name c (Z.of_nat k) = match fs !! k with Some f => Ok (fname f) | None => Err err_columns_range end) /\
      (forall k, type_oid c (Z.of_nat k) = match fs !! k with Some f => Ok (field_oid f) | None => Err err_columns_range end) /\
      (forall name, col_by_name (enc_row cs) c name = match list_find (fun f => fname f = name) fs with Some (k, _) => value_at cs k | None => Err err_columns_no_such end)
  | Err _ => forall fs, ~ desc_form p fs
  | Crash => False
  end.
Proof.
  intros Hp Hr Hn. assert (Hcol : forall k, col (enc_row cs) (Z.of_nat k) = value_at cs k) by (intros k; rewrite (col_spec cs _ Hr Hn), (proj2 (Z.ltb_ge _ _)), Nat2Z.id by lia; done). split; [done|].
  pose proof (columns_from_sound p Hp) as Hc. destruct (columns_from p) as [c| |]; [|done|done]. destruct Hc as (fs & Hd & ->). exists fs. split; [done|]. split; [done|]. split; [|split].
  - intros k. by rewrite (column_name_spec p fs Hp Hd), (proj2 (Z.ltb_ge _ _)), Nat2Z.id by lia.
  - intros k. by rewrite (type_oid_spec p fs Hp Hd), (proj2 (Z.ltb_ge _ _)), Nat2Z.id by lia.
  - intros name. unfold col_by_name. rewrite (column_index_spec p fs Hp Hd). cbn [mbind outcome_bind]. destruct (list_find _ fs) as [[k f]|]; [apply Hcol | done].
Qed.

Lemma row_values_read_back_witness :
  let p := enc_desc [mkField (bytes_of "id") (be4 0 ++ be2 0 ++ be4 oid_int4 ++ be2 4 ++ be4 (-1) ++ be2 1)] in
  let cs := [Some (be4 7)] in
  type_oid (mkColumns 1 p) 0 = Ok oid_int4 /\ fits_int p /\
  ((forall k, col (enc_row cs) (Z.of_nat k) = value_at cs k) /\
   match columns_from p with
   | Ok c => exists fs, desc_form p fs /\ cols_n c = len fs /\
       (forall k, column_name c (Z.of_nat k) = match fs !! k with Some f => Ok (fname f) | None => Err err_columns_range end) /\
       (forall k, type_oid c (Z.of_nat k) = match fs !! k with Some f => Ok (field_oid f) | None => Err err_columns_range end) /\
       (forall name, col_by_name (enc_row cs) c name = match list_find (fun f => fname f = name) fs with Some (k, _) => value_at cs k | None => Err err_columns_no_such end)
   | Err _ => forall fs, ~ desc_form p fs
   | Crash => False
   end).
Proof. intros p cs. split; [by vm_compute|]. split; [by vm_compute|]. apply (row_values_read_back p cs); by vm_compute. Defined.

(** ** Arrays in rows *)

Fixpoint int4_values (es : list (option (list byte))) : outcome (list Z) :=
  match es with
  | [] => Ok []
  | None :: _ => Err err_array_null
  | Some v :: es => if negb (len v =? 4) then Err err_int4_width else (cons (i32 (be_val v))) <$> int4_values es
  end.

Fixpoint text_values (es : list (option (list byte))) : outcome (list (list byte)) :=
  match es with
  | [] => Ok []
  | None :: _ => Err err_array_null
  | Some v :: es => (cons v) <$> text_values es
  end.

(** What an array accessor leaves: the values behind [out], or [out] and the error. *)
Definition appended {A} (out : list A) (r : outcome (list A)) : list A * outcome unit :=
  match r with Ok vs => (out ++ vs, Ok tt) | Err e => (out, Err e) | Crash => (out, Crash) end.

Section ArraysInto.
Context (b : list byte) (Hb : len b < 2 ^ 31).

Lemma int4_loop_spec es pos s out vs : rest_at b pos (concat (enc_elem <$> es) ++ s) -> int4_loop (length es) b pos (length out) (out ++ vs) = appended out ((app vs) <$> int4_values es).
Proof.
  revert pos vs. induction es as [|e es IH]; intros pos vs Hr; [cbn; by rewrite app_nil_r|]. cbn [length int4_loop int4_values fmap list_fmap concat] in *. rewrite <- app_assoc in Hr. pose proof (rest_bounds _ _ _ Hr) as [H0 Hl]. rewrite len_app in Hl. pose proof (len_nonneg (concat (enc_elem <$> es) ++ s)) as Hn.
  destruct e as [v|]; cbn [enc_elem] in *.
  - rewrite <- app_assoc in Hr. rewrite len_app in Hl. change (len (be4 (len v))) with 4 in Hl. pose proof (len_nonneg v). destruct (u32_signed _ _ _ _ _ Hr ltac:(lia) eq_refl) as (Eu & Ei & Hr1). rewrite Eu, Ei, (i32_small (pos + 4)) by lia.
    destruct (Z.eqb_spec (len v) 4) as [E4|N4]; cbn [negb]; [|rewrite (proj2 (Z.ltb_ge (len v) 0)), take_app_length by lia; done]. assert (Ew : v = be4 (be_val v)) by (symmetry; apply be_bytes_be_val_eq; unfold len in E4; lia). rewrite Ew in Hr1 at 1.
    destruct (u32_word _ _ _ _ _ Hr1 ltac:(pose proof (be_val_range v) as Hv; unfold len in E4; replace (length v) with 4%nat in Hv by lia; exact Hv) eq_refl) as [-> Hr2]. rewrite i32_small, <- app_assoc by lia. rewrite (IH _ _ Hr2). destruct (int4_values es); cbn; [by rewrite <- app_assoc|done|done].
  - destruct (u32_signed _ _ _ _ _ Hr ltac:(lia) eq_refl) as (Eu & Ei & Hr1). rewrite Eu, Ei. change (negb (-1 =? 4)) with true. change (-1 <? 0) with true. cbn match. by rewrite take_app_length.
Qed.

Lemma text_loop_spec es pos s out vs : rest_at b pos (concat (enc_elem <$> es) ++ s) -> text_loop (length es) b pos (length out) (out ++ vs) = appended out ((app vs) <$> text_values es).
Proof.
  revert pos vs. induction es as [|e es IH]; intros pos vs Hr; [cbn; by rewrite app_nil_r|]. cbn [length text_loop text_values fmap list_fmap concat] in *. rewrite <- app_assoc in Hr. pose proof (rest_bounds _ _ _ Hr) as [H0 Hl]. rewrite len_app in Hl. pose proof (len_nonneg (concat (enc_elem <$> es) ++ s)) as Hn.
  destruct e as [v|]; cbn [enc_elem] in *.
  - rewrite <- app_assoc in Hr. rewrite len_app in Hl. change (len (be4 (len v))) with 4 in Hl. pose proof (len_nonneg v). destruct (u32_signed _ _ _ _ _ Hr ltac:(lia) eq_refl) as (Eu & Ei & Hr1). rewrite Eu, Ei, (i32_small (pos + 4)), (proj2 (Z.ltb_ge (len v) 0)) by lia.
    rewrite (slice_rest _ _ _ _ Hr1), i32_small, <- app_assoc by lia. apply rest_skip in Hr1. rewrite (IH _ _ Hr1). destruct (text_values es); cbn; [by rewrite <- app_assoc|done|done].
  - destruct (u32_signed _ _ _ _ _ Hr ltac:(lia) eq_refl) as (Eu & Ei & Hr1). rewrite Eu, Ei. change (-1 <? 0) with true. cbn match. by rewrite take_app_length.
Qed.
End ArraysInto.

(** ** Accessors on any bytes *)

Lemma require_post p i : fits_int p -> post (fun b => len b < 2 ^ 31) (require p i).
Proof.
  intros Hfit. unfold require. apply (post_bind _ _ _ _ (col_post p i Hfit)). intros dv Hdv. unfold fits_int in Hfit. destruct (is_null dv); [done | cbn; lia].
Qed.

Lemma accessor_safe {A} p i (k : list byte -> outcome A) : fits_int p -> (forall b, len b < 2 ^ 31 -> safe (k b)) -> safe (b ← require p i; k b).
Proof. intros Hfit Hk. pose proof (require_post p i Hfit) as H. destruct (require p i) as [b| |]; [by apply Hk | done | done]. Qed.

Lemma fixed_safe {A} n e (b : list byte) (m : outcome A) : (len b = n -> safe m) -> safe (if negb (len b =? n) then Err e else m).
Proof. intros H. destruct (Z.eqb_spec (len b) n); [by apply H | done]. Qed.

Lemma fmap_safe {A B} (f : A -> B) (m : outcome A) : safe m -> safe (f <$> m).
Proof. by destruct m. Qed.

Lemma u64_safe b : len b = 8 -> safe (big_endian_u64 b).
Proof. intros H. unfold big_endian_u64. apply fmap_safe. apply (post_safe _ _ (slice_post b 0 8 ltac:(lia) ltac:(lia) ltac:(lia))). Qed.

Lemma u32_safe b : len b = 4 -> safe (big_endian_u32_at b 0).
Proof. intros H. apply (post_safe _ _ (u32_post b 0 ltac:(lia) ltac:(lia))). Qed.

Create HintDb pg_safe discriminated.
#[local] Hint Resolve fixed_safe fmap_safe u64_safe u32_safe : pg_safe.

Lemma decoders_safe b :
  safe (decode_int2 b) /\ safe (decode_int4 b) /\ safe (decode_int8 b) /\ safe (decode_bool b) /\ safe (decode_float4 b) /\ safe (decode_float8 b) /\ safe (decode_uuid b) /\ safe (decode_timestamp_us b) /\ safe (decode_date_days b).
Proof.
  repeat split; apply fixed_safe; intros H; auto with pg_safe.
  - apply fmap_safe, (post_safe _ _ (u16_post b 0 ltac:(lia) ltac:(lia))).
  - apply fmap_safe, (post_safe _ _ (byte_post b 0 ltac:(lia))).
  - apply (post_safe _ _ (slice_post b 0 16 ltac:(lia) ltac:(lia) ltac:(lia))).
Qed.

Lemma times_safe us days : safe (timestamp_time us) /\ safe (date_time days).
Proof. unfold timestamp_time, date_time. split; repeat case_match; done. Qed.

Lemma numerics_safe junk b out s : (forall n, length (junk n) = n) -> safe (numeric_text_into junk b out) /\ safe (decode_numeric_i64_scaled b s).
Proof.
  intros Hj. destruct (numeric_reads junk b out Hj) as [(sg & w & ds & gs & _ & _ & H)|(_ & E & H)]; [|by rewrite E, H]. unfold reads_numeric in H. destruct (finite_sign sg); [destruct H as [(n & _ & E) H]; rewrite E, H | destruct H as [E H]; by rewrite E, H].
  split; [done|]. unfold numeric_scaled. repeat case_match; done.
Qed.

(** An array accessor fails with [out] as it was, or appends values. *)
Definition all_or_nothing {A} (out : list A) (r : list A * outcome unit) : Prop :=
  match r.2 with Ok _ => exists vs, r.1 = out ++ vs | Err _ => r.1 = out | Crash => False end.

Lemma int4_values_safe es : safe (int4_values es).
Proof. induction es as [|[v|] es IH]; [done| |done]. cbn [int4_values]. destruct (negb _); [done | by apply fmap_safe]. Qed.

Lemma text_values_safe es : safe (text_values es).
Proof. induction es as [|[v|] es IH]; [done| |done]. cbn [text_values]. by apply fmap_safe. Qed.

Lemma appended_all {A} (out : list A) r : safe r -> all_or_nothing out (appended out r).
Proof. destruct r as [vs|e|]; [by exists vs | done | done]. Qed.

Lemma array_accessors_safe p i : fits_int p ->
  safe (array_iter p i) /\ (forall out, all_or_nothing out (int4_array_into p i out)) /\ (forall out, all_or_nothing out (text_array_into p i out)).
Proof.
  intros Hfit. pose proof (require_post p i Hfit) as Hr. unfold int4_array_into, text_array_into, array_iter. destruct (require p i) as [b|e|]; cbn [mbind outcome_bind]; [|done|done]. cbn [post] in Hr. pose proof (decode_array_sound b Hr) as Hs.
  destruct (decode_array b) as [arr|e|] eqn:E; [|done|done]. destruct Hs as (oid & lb & es & Hf). destruct (decode_array_complete b oid lb es Hr Hf) as (pos & E' & Hp). rewrite E in E'. injection E' as ->. cbn [elem_oid left abuf apos]. rewrite <- (app_nil_r (concat _)) in Hp.
  replace (Z.to_nat (len es)) with (length es) by (unfold len; lia). split; [done|]. split; intros out; destruct (negb _); try done.
  - pose proof (int4_loop_spec b Hr es pos [] out [] Hp) as El. rewrite app_nil_r in El. rewrite El. apply appended_all, fmap_safe, int4_values_safe.
  - pose proof (text_loop_spec b Hr es pos [] out [] Hp) as El. rewrite app_nil_r in El. rewrite El. apply appended_all, fmap_safe, text_values_safe.
Qed.

(** The text up to a NUL or the end. *)
Lemma nul_split (s : list byte) : exists a s', s = a ++ s' /\ (NUL ∉ a) /\ match s' with [] => True | c :: _ => c = NUL end.
Proof.
  destruct (find_byte NUL s) as [k|] eqn:E; [apply find_byte_Some in E as (a & b & -> & Ha & _); by exists a, (NUL :: b) | apply find_byte_None in E; exists s, []; by rewrite app_nil_r].
Qed.

Lemma error_loop_safe p n pos s e : rest_at p pos s -> (length s <= n)%nat -> safe (error_loop n p pos e).
Proof.
  revert pos s e. induction n as [|n IH]; intros pos s e Hr Hn; cbn [error_loop]; pose proof (rest_bounds _ _ _ Hr) as [H0 Hl]; (destruct (Z.ltb_spec pos (len p)) as [Hlt|]; [|done]); (destruct s as [|ft s]; [change (len (@nil byte)) with 0 in Hl; lia|]); [cbn in Hn; lia|].
  rewrite (byte_rest _ _ _ _ Hr). cbn [mbind outcome_bind]. destruct (beq ft NUL); [done|]. apply (rest_skip p pos [ft]) in Hr. change (len [ft]) with 1 in Hr. destruct (nul_split s) as (a & s' & -> & Ha & Hs').
  assert (Hfuel : (length a < length p)%nat) by (rewrite len_cons, len_app in Hl; pose proof (len_nonneg s'); unfold len in *; lia). rewrite (nul_loop_spec p a (pos + 1) s' (length p) Hr Ha Hs') by (by left). cbn [mbind outcome_bind].
  replace (pos + 1 + len a - (pos + 1)) with (len a) by lia. rewrite (slice_rest _ _ _ _ Hr). cbn [mbind outcome_bind]. apply rest_skip in Hr. cbn in Hn. rewrite length_app in Hn. destruct s' as [|c s'].
  - apply rest_bounds in Hr as Hb. destruct Hb as [? Hb]. change (len (@nil byte)) with 0 in Hb. rewrite (proj2 (Z.ltb_ge _ _)) by lia. apply (IH _ [] _ Hr). cbn. lia.
  - pose proof (rest_bounds _ _ _ Hr) as [? Hb]. rewrite len_cons in Hb. pose proof (len_nonneg s'). rewrite (proj2 (Z.ltb_lt _ _)) by lia. apply (rest_skip p _ [c]) in Hr. apply (IH _ s' _ Hr). cbn in Hn. lia.
Qed.

(** C31: Whatever bytes a server sends for a row, a column description or an error,
    reading them never goes outside of them: every accessor gives a value or an error.
    The array accessors append all elements or nothing. *)
Theorem accessors_stay_inside junk p i :
  (forall n, length (junk n) = n) -> fits_int p ->
  (safe (col p i) /\ safe (row_int2 p i) /\ safe (row_int4 p i) /\ safe (row_int8 p i) /\ safe (row_boolean p i) /\ safe (row_float4 p i) /\ safe (row_float8 p i) /\ safe (row_text p i) /\
   safe (row_uuid p i) /\ (forall out, safe (row_uuid_into junk p i out)) /\ safe (row_timestamp_us p i) /\ safe (row_time p i) /\ safe (row_date_days p i) /\ safe (row_date p i) /\
   (forall out, safe (row_numeric_text_into junk p i out)) /\ (forall s, safe (row_numeric_i64_scaled p i s)) /\ safe (array_iter p i)) /\
  (forall out, all_or_nothing out (int4_array_into p i out)) /\ (forall out, all_or_nothing out (text_array_into p i out)) /\
  match columns_from p with Ok c => forall k name, safe (column_name c k) /\ safe (type_oid c k) /\ safe (column_index c name) | Err _ => True | Crash => False end /\
  safe (parse_error_response p).
Proof.
  intros Hj Hfit. destruct (array_accessors_safe p i Hfit) as (Ha & H4 & Ht). split; [|split; [done|]; split; [done|]; split].
  - pose proof (fun A (k : list byte -> outcome A) => accessor_safe p i k Hfit) as Hk. split; [apply (post_safe _ _ (col_post p i Hfit))|].
    pose proof decoders_safe as D. split; [apply Hk; intros b _; exact (proj1 (D b))|]. split; [apply Hk; intros b _; destruct (D b) as (_ & H & _); exact H|]. split; [apply Hk; intros b _; destruct (D b) as (_ & _ & H & _); exact H|].
    split; [apply Hk; intros b _; destruct (D b) as (_ & _ & _ & H & _); exact H|]. split; [apply Hk; intros b _; destruct (D b) as (_ & _ & _ & _ & H & _); exact H|]. split; [apply Hk; intros b _; destruct (D b) as (_ & _ & _ & _ & _ & H & _); exact H|].
    split; [apply Hk; intros b _; discriminate|]. split; [apply Hk; intros b _; destruct (D b) as (_ & _ & _ & _ & _ & _ & H & _); exact H|].
    split; [intros out; apply Hk; intros b _; rewrite (uuid_into_spec junk b out Hj); destruct (_ =? _); discriminate|]. split; [apply Hk; intros b _; destruct (D b) as (_ & _ & _ & _ & _ & _ & _ & H & _); exact H|].
    split; [apply Hk; intros b _; destruct (D b) as (_ & _ & _ & _ & _ & _ & _ & H & _); destruct (decode_timestamp_us b) as [us| |]; [exact (proj1 (times_safe us 0)) | discriminate | by destruct H]|].
    split; [apply Hk; intros b _; destruct (D b) as (_ & _ & _ & _ & _ & _ & _ & _ & H); exact H|].
    split; [apply Hk; intros b _; destruct (D b) as (_ & _ & _ & _ & _ & _ & _ & _ & H); destruct (decode_date_days b) as [d| |]; [exact (proj2 (times_safe 0 d)) | discriminate | by destruct H]|].
    split; [intros out; apply Hk; intros b _; exact (proj1 (numerics_safe junk b out 0 Hj))|]. split; [intros s; apply Hk; intros b _; exact (proj2 (numerics_safe junk b [] s Hj)) | exact Ha].
  - pose proof (columns_from_sound p Hfit) as Hc. destruct (columns_from p) as [c| |]; [|done|done]. destruct Hc as (fs & Hd & ->). intros k name. rewrite (column_name_spec p fs Hfit Hd), (type_oid_spec p fs Hfit Hd), (column_index_spec p fs Hfit Hd).
    split; [|split; [|done]]; destruct (k <? 0); try done; by destruct (fs !! _).
  - apply (error_loop_safe p (length p) 0 p _ (rest_whole p)). done.
Qed.

Lemma accessors_stay_inside_witness :
  fits_int (be2 2 ++ be4 9 ++ [NUL]) /\ col (be2 2 ++ be4 9 ++ [NUL]) 1 = Err err_row_truncated /\ safe (row_int4 (be2 2 ++ be4 9 ++ [NUL]) 1).
Proof. split; [by vm_compute|]. split; [by vm_compute|]. destruct (accessors_stay_inside (fun n => replicate n NUL) (be2 2 ++ be4 9 ++ [NUL]) 1 (fun n => length_replicate n NUL) ltac:(by vm_compute)) as [(_ & _ & H & _) _]. exact H. Defined.

(** A length of 2^31 - 1 wraps: the message is taken for complete, of a negative size. *)
Lemma length_wraps : next_message_at (byte_of_Z 68 :: be4 (2 ^ 31 - 1)) 0 = Ok (Some (mkMsgHeader (byte_of_Z 68) (- 2 ^ 31))).
Proof. by vm_compute. Qed.

(** ** What the builders append *)

Definition cstr (s : list byte) : list byte := s ++ [NUL].

Lemma put_u16_spec buf v : put_u16 buf v = buf ++ be2 v.
Proof. unfold put_u16, be2. by rewrite shiftr_8. Qed.

Lemma put_u32_spec buf v : put_u32 buf v = buf ++ be4 v.
Proof. unfold put_u32, be4. rewrite shiftr_24, shiftr_16, shiftr_8. cbn [be_bytes app]. done. Qed.

Lemma put_cstr_spec buf s : put_cstr_s buf s = buf ++ cstr s.
Proof. unfold put_cstr_s, cstr. by rewrite app_assoc. Qed.

Lemma patch_len_spec a z0 z1 z2 z3 body : patch_len (a ++ [z0; z1; z2; z3] ++ body) (len a) = Ok (a ++ be4 (4 + len body) ++ body).
Proof.
  unfold patch_len. rewrite !len_app. change (len [z0; z1; z2; z3]) with 4. replace (len a + (4 + len body) - len a) with (4 + len body) by lia. cbn [app]. rewrite set_at_mid. cbn [mbind outcome_bind].
  rewrite (cons_middle _ a), (app_assoc a). replace (len a + 1) with (len (a ++ [byte_of_Z (Z.shiftr (u32 (4 + len body)) 24)])) by (by rewrite len_app). rewrite set_at_mid. cbn [mbind outcome_bind].
  set (a1 := a ++ [_]). replace (len a + 2) with (len (a1 ++ [byte_of_Z (Z.shiftr (u32 (4 + len body)) 16)])) by (unfold a1, len; rewrite !length_app; cbn [length]; lia). rewrite (cons_middle _ a1), (app_assoc a1), set_at_mid. cbn [mbind outcome_bind].
  set (a2 := a1 ++ [_]). replace (len a + 3) with (len (a2 ++ [byte_of_Z (Z.shiftr (u32 (4 + len body)) 8)])) by (unfold a2, a1, len; rewrite !length_app; cbn [length]; lia). rewrite (cons_middle _ a2), (app_assoc a2), set_at_mid. f_equal. unfold a2, a1. rewrite <- !app_assoc. f_equal. cbn [app].
  rewrite shiftr_24, shiftr_16, shiftr_8. change (be_bytes 4 (u32 (4 + len body)) ++ body = be4 (4 + len body) ++ body). f_equal. apply be_bytes_ext. change (256 ^ Z.of_nat 4) with (2 ^ 32). unfold u32. by rewrite Z.mod_mod.
Qed.

Lemma finish_begin buf t body : finish_msg ((begin_msg buf t).1 ++ body) (begin_msg buf t).2 = Ok (buf ++ enc_msg (mkMsg t body)).
Proof. unfold finish_msg, begin_msg. cbn [fst snd]. rewrite <- (app_assoc (buf ++ [t])), patch_len_spec. unfold enc_msg. cbn [m_typ m_body]. by rewrite <- app_assoc. Qed.

Lemma bind_params_spec buf params : bind_params buf params = buf ++ concat (enc_elem <$> params).
Proof.
  revert buf. induction params as [|[v|] params IH]; intros buf; cbn [bind_params fmap list_fmap concat enc_elem]; [by rewrite app_nil_r|rewrite IH, put_u32_spec, <- !app_assoc..].
  - do 2 f_equal. apply be_bytes_ext. change (256 ^ Z.of_nat 4) with (2 ^ 32). unfold u32. by rewrite Z.mod_mod.
  - done.
Qed.

Definition parse_msg (name sql : list byte) : msg := mkMsg (byte_of_Z 80) (cstr name ++ cstr sql ++ be2 0).
Definition bind_msg (portal name : list byte) (params : list (option (list byte))) : msg :=
  mkMsg (byte_of_Z 66) (cstr portal ++ cstr name ++ be2 0 ++ be2 (len params) ++ concat (enc_elem <$> params) ++ be2 1 ++ be2 1).
Definition describe_msg (portal : list byte) : msg := mkMsg (byte_of_Z 68) (byte_of_Z 80 :: cstr portal).
Definition execute_msg (portal : list byte) (max_rows : Z) : msg := mkMsg (byte_of_Z 69) (cstr portal ++ be4 max_rows).
Definition sync_msg : msg := mkMsg (byte_of_Z 83) [].

Lemma write_parse_spec buf name sql : write_parse buf name sql = Ok (buf ++ enc_msg (parse_msg name sql)).
Proof. unfold write_parse. destruct (begin_msg buf _) as [b lp] eqn:E. rewrite put_u16_spec, !put_cstr_spec, <- !app_assoc. pose proof (finish_begin buf (byte_of_Z 80) (cstr name ++ cstr sql ++ be2 0)) as H. by rewrite E in H. Qed.

Lemma write_bind_spec buf portal name params : write_bind buf portal name params = Ok (buf ++ enc_msg (bind_msg portal name params)).
Proof.
  unfold write_bind. destruct (begin_msg buf _) as [b lp] eqn:E. rewrite bind_params_spec, !put_u16_spec, !put_cstr_spec, <- !app_assoc. assert (Eu : be2 (u16 (len params)) = be2 (len params)) by apply be2_mod. rewrite Eu.
  pose proof (finish_begin buf (byte_of_Z 66) (m_body (bind_msg portal name params))) as H. by rewrite E in H.
Qed.

Lemma write_describe_spec buf portal : write_describe_portal buf portal = Ok (buf ++ enc_msg (describe_msg portal)).
Proof. unfold write_describe_portal. destruct (begin_msg buf _) as [b lp] eqn:E. rewrite put_cstr_spec, <- app_assoc. pose proof (finish_begin buf (byte_of_Z 68) (byte_of_Z 80 :: cstr portal)) as H. by rewrite E in H. Qed.

Lemma write_execute_spec buf portal n : write_execute buf portal n = Ok (buf ++ enc_msg (execute_msg portal n)).
Proof.
  unfold write_execute. destruct (begin_msg buf _) as [b lp] eqn:E. rewrite put_u32_spec, put_cstr_spec, <- app_assoc. assert (Eu : be4 (u32 n) = be4 n) by (apply be_bytes_ext; change (256 ^ Z.of_nat 4) with (2 ^ 32); unfold u32; by rewrite Z.mod_mod). rewrite Eu.
  pose proof (finish_begin buf (byte_of_Z 69) (cstr portal ++ be4 n)) as H. by rewrite E in H.
Qed.

Lemma write_sync_spec buf : write_sync buf = buf ++ enc_msg sync_msg.
Proof. unfold write_sync. rewrite put_u32_spec, <- app_assoc. done. Qed.
