(* ===== verification/PgQuery.v ===== *)
(** Queries on their way out: the frames pg_async/conn_async.v and pg_async/shed.v
    serialize and the sizes shed.v computes for them, against a server that reads the
    messages as the protocol documents them. *)
From S2P Require Import Prelude WireBytes HttpScan PgWire PgTypes PgProtocol.
Local Open Scope Z_scope.

(** [Stmt]: SQL text and parameters in text format, [None] for NULL. *)
Record Stmt := mkStmt { sql : list byte; params : list (option (list byte)) }.

(** Parse, Bind, Describe and Execute of one statement. *)
Definition write_statement (buf query_text : list byte) (ps : list (option (list byte))) : outcome (list byte) :=
  buf ← write_parse buf [] query_text;
  buf ← write_bind buf [] [] ps;
  buf ← write_describe_portal buf [];
  write_execute buf [] 0.

(** What [async_submit] and [submit] serialize. *)
Definition write_query (buf query_text : list byte) (ps : list (option (list byte))) : outcome (list byte) :=
  buf ← write_statement buf query_text ps; Ok (write_sync buf).

Fixpoint write_statements (buf : list byte) (stmts : list Stmt) : outcome (list byte) :=
  match stmts with [] => Ok buf | s :: stmts => buf ← write_statement buf (sql s) (params s); write_statements buf stmts end.

(** What [async_submit_batch] and [submit_batch] serialize. *)
Definition write_batch (buf : list byte) (stmts : list Stmt) : outcome (list byte) := buf ← write_statements buf stmts; Ok (write_sync buf).

(** ** Sizes *)

Definition parse_overhead : Z := 1 + 4 + 1 + 1 + 2.
Definition bind_overhead : Z := 1 + 4 + 1 + 1 + 2 + 2 + 2 + 2.
Definition describe_len : Z := 1 + 4 + 1 + 1.
Definition execute_len : Z := 1 + 4 + 1 + 4.
Definition sync_len : Z := 1 + 4.

Fixpoint params_len (n : Z) (ps : list (option (list byte))) : Z :=
  match ps with
  | [] => n
  | Some v :: ps => params_len (i32 (i32 (n + 4) + len v)) ps
  | None :: ps => params_len (i32 (n + 4)) ps
  end.

Definition statement_frame_len (query_text : list byte) (ps : list (option (list byte))) : Z :=
  params_len (i32 (parse_overhead + len query_text + bind_overhead + describe_len + execute_len)) ps.

Definition query_frame_len (query_text : list byte) (ps : list (option (list byte))) : Z := i32 (statement_frame_len query_text ps + sync_len).

Fixpoint batch_loop (n : Z) (stmts : list Stmt) : Z :=
  match stmts with [] => n | s :: stmts => batch_loop (i32 (n + statement_frame_len (sql s) (params s))) stmts end.

Definition batch_frame_len (stmts : list Stmt) : Z := batch_loop sync_len stmts.

(** ** The server's side *)

(** Frontend messages of the extended protocol. *)
Inductive fe_msg :=
  | FeParse (name sql : list byte) (oids : list Z)
  | FeBind (portal name : list byte) (formats : list Z) (params : list (option (list byte))) (results : list Z)
  | FeDescribe (kind : byte) (name : list byte)
  | FeExecute (portal : list byte) (max_rows : Z)
  | FeSync.

(** Readers of a message body: a value and what follows it. *)
Definition reader (A : Type) : Type := list byte -> option (A * list byte).

Definition rd_ret {A} (a : A) : reader A := fun s => Some (a, s).
Definition rd_bind {A B} (r : reader A) (k : A -> reader B) : reader B := fun s => '(a, s) ← r s; k a s.

Declare Scope reader_scope.
Notation "x <-- r ; k" := (rd_bind r (fun x => k)) (at level 60, r at next level, right associativity) : reader_scope.
Local Open Scope reader_scope.

Definition rd_cstr : reader (list byte) := fun s => k ← find_byte NUL s; Some (take k s, drop (S k) s).
Definition rd_byte : reader byte := fun s => match s with c :: s => Some (c, s) | [] => None end.
Definition rd_int (n : nat) : reader Z := fun s => if (length s <? n)%nat then None else Some (be_val (take n s), drop n s).
Definition rd_bytes (n : nat) : reader (list byte) := fun s => if (length s <? n)%nat then None else Some (take n s, drop n s).
Definition rd_value : reader (option (list byte)) :=
  n <-- rd_int 4; if i32 n =? -1 then rd_ret None else if i32 n <? 0 then fun _ => None else (v <-- rd_bytes (Z.to_nat (i32 n)); rd_ret (Some v)).
Fixpoint rd_list {A} (r : reader A) (n : nat) : reader (list A) :=
  match n with O => rd_ret [] | S n => (a <-- r; l <-- rd_list r n; rd_ret (a :: l)) end.
(** A counted list: an unsigned 16-bit count, then the elements. *)
Definition rd_counted {A} (r : reader A) : reader (list A) := n <-- rd_int 2; rd_list r (Z.to_nat n).

Definition rd_fe (t : byte) : reader fe_msg :=
  if beq t (byte_of_Z 80) then (name <-- rd_cstr; q <-- rd_cstr; oids <-- rd_counted (rd_int 4); rd_ret (FeParse name q oids))
  else if beq t (byte_of_Z 66) then (p <-- rd_cstr; name <-- rd_cstr; fs <-- rd_counted (rd_int 2); vs <-- rd_counted rd_value; rs <-- rd_counted (rd_int 2); rd_ret (FeBind p name fs vs rs))
  else if beq t (byte_of_Z 68) then (k <-- rd_byte; name <-- rd_cstr; rd_ret (FeDescribe k name))
  else if beq t (byte_of_Z 69) then (p <-- rd_cstr; n <-- rd_int 4; rd_ret (FeExecute p n))
  else if beq t (byte_of_Z 83) then rd_ret FeSync
  else fun _ => None.

(** A body is read to its end. *)
Definition fe_body (t : byte) (s : list byte) : option fe_msg := '(m, rest) ← rd_fe t s; if bool_decide (rest = []) then Some m else None.

Fixpoint server_read (fuel : nat) (s : list byte) : option (list fe_msg) :=
  match s with
  | [] => Some []
  | t :: s =>
      match fuel with
      | O => None
      | S f =>
          '(n, s) ← rd_int 4 s;
          if i32 n <? 4 then None
          else
            '(body, s) ← rd_bytes (Z.to_nat (i32 n - 4)) s;
            m ← fe_body t body;
            (cons m) <$> server_read f s
      end
  end.

(** ** Reading what was written *)

Lemma rd_cstr_spec s rest : NUL ∉ s -> rd_cstr (cstr s ++ rest) = Some (s, rest).
Proof.
  intros Hs. unfold rd_cstr, cstr. rewrite <- app_assoc. cbn [app]. rewrite (find_byte_app NUL s rest Hs). cbn [mbind option_bind]. rewrite take_app_length. rewrite (cons_middle _ s), app_assoc. by rewrite drop_app_length' by (rewrite length_app; cbn; lia).
Qed.

Lemma rd_int_spec n v rest : rd_int n (be_bytes n v ++ rest) = Some (v mod 256 ^ Z.of_nat n, rest).
Proof.
  unfold rd_int. rewrite length_app, length_be_bytes, (proj2 (Nat.ltb_ge _ _)) by lia. rewrite take_app_length', drop_app_length' by (by rewrite length_be_bytes). by rewrite be_val_be_bytes.
Qed.

Lemma rd_bytes_spec v rest : rd_bytes (length v) (v ++ rest) = Some (v, rest).
Proof. unfold rd_bytes. rewrite length_app, (proj2 (Nat.ltb_ge _ _)) by lia. by rewrite take_app_length, drop_app_length. Qed.

Lemma rd_value_spec e rest : (match e with Some v => len v < 2 ^ 31 | None => True end) -> rd_value (enc_elem e ++ rest) = Some (e, rest).
Proof.
  intros He. unfold rd_value, rd_bind. destruct e as [v|]; cbn [enc_elem].
  - rewrite <- app_assoc. unfold be4. rewrite rd_int_spec. cbn [mbind option_bind]. change (256 ^ Z.of_nat 4) with (2 ^ 32). pose proof (len_nonneg v). rewrite i32_mod by lia. rewrite (proj2 (Z.eqb_neq _ _)), (proj2 (Z.ltb_ge _ _)) by lia.
    unfold len. rewrite Nat2Z.id, rd_bytes_spec. done.
  - unfold be4. rewrite rd_int_spec. done.
Qed.

Lemma rd_values_spec ps rest : Forall (fun e => match e with Some v => len v < 2 ^ 31 | None => True end) ps -> rd_list rd_value (length ps) (concat (enc_elem <$> ps) ++ rest) = Some (ps, rest).
Proof.
  induction 1 as [|e ps He _ IH]; [done|]. cbn [fmap list_fmap concat length rd_list]. rewrite <- app_assoc. unfold rd_bind at 1. rewrite (rd_value_spec e _ He). cbn [mbind option_bind]. unfold rd_bind. by rewrite IH.
Qed.

Definition stmt_msgs (s : Stmt) : list msg := [parse_msg [] (sql s); bind_msg [] [] (params s); describe_msg []; execute_msg [] 0].

Definition stmt_fe (s : Stmt) : list fe_msg := [FeParse [] (sql s) []; FeBind [] [] [] (params s) [1]; FeDescribe (byte_of_Z 80) []; FeExecute [] 0].

Definition stmt_wf (s : Stmt) : Prop := (NUL ∉ sql s) /\ len (params s) < 2 ^ 16.

Lemma write_statement_spec buf q ps : write_statement buf q ps = Ok (buf ++ enc_msgs (stmt_msgs (mkStmt q ps))).
Proof. unfold write_statement. rewrite write_parse_spec. cbn [mbind outcome_bind]. rewrite write_bind_spec. cbn [mbind outcome_bind]. rewrite write_describe_spec. cbn [mbind outcome_bind]. rewrite write_execute_spec. unfold stmt_msgs, enc_msgs. cbn [fmap list_fmap concat sql params]. by rewrite app_nil_r, <- !app_assoc. Qed.

Lemma write_batch_spec buf stmts : write_batch buf stmts = Ok (buf ++ enc_msgs (concat (stmt_msgs <$> stmts) ++ [sync_msg])).
Proof.
  unfold write_batch. assert (E : write_statements buf stmts = Ok (buf ++ enc_msgs (concat (stmt_msgs <$> stmts)))).
  { revert buf. induction stmts as [|[q ps] stmts IH]; intros buf; cbn [write_statements]; [by rewrite app_nil_r|]. cbn [sql params fmap list_fmap concat]. rewrite write_statement_spec. cbn [mbind outcome_bind]. by rewrite IH, enc_msgs_app, <- app_assoc. }
  rewrite E. cbn [mbind outcome_bind]. rewrite write_sync_spec, enc_msgs_app, (enc_msgs_cons sync_msg []). by rewrite app_nil_r, <- app_assoc.
Qed.

Lemma write_query_batch buf q ps : write_query buf q ps = write_batch buf [mkStmt q ps].
Proof. unfold write_query, write_batch. cbn [write_statements sql params]. by destruct (write_statement buf q ps). Qed.

(** One message, framed by its length. *)
Lemma server_read_msg fuel m fe rest : len (m_body m) < 2 ^ 31 - 4 -> fe_body (m_typ m) (m_body m) = Some fe -> server_read (S fuel) (enc_msg m ++ rest) = (cons fe) <$> server_read fuel rest.
Proof.
  intros Hl Hb. pose proof (len_nonneg (m_body m)) as H0. unfold enc_msg. cbn [app server_read]. rewrite <- app_assoc. unfold be4. rewrite rd_int_spec. cbn [mbind option_bind]. change (256 ^ Z.of_nat 4) with (2 ^ 32). rewrite i32_mod, (proj2 (Z.ltb_ge _ _)) by lia.
  replace (Z.to_nat (4 + len (m_body m) - 4)) with (length (m_body m)) by (unfold len; lia). rewrite rd_bytes_spec. cbn [mbind option_bind]. by rewrite Hb.
Qed.

Lemma rd_bind_some {A B} (r : reader A) (k : A -> reader B) s a s' : r s = Some (a, s') -> rd_bind r k s = k a s'.
Proof. intros E. unfold rd_bind. by rewrite E. Qed.

Lemma rd_counted_spec {A} (r : reader A) (l : list A) n body rest : rd_list r (length l) (body ++ rest) = Some (l, rest) -> len l < 2 ^ 16 -> n = len l -> rd_counted r (be2 n ++ body ++ rest) = Some (l, rest).
Proof.
  intros H Hn ->. unfold rd_counted, be2. rewrite (rd_bind_some _ _ _ _ _ (rd_int_spec 2 (len l) (body ++ rest))). change (256 ^ Z.of_nat 2) with (2 ^ 16). pose proof (len_nonneg l). rewrite Z.mod_small by lia. unfold len. by rewrite Nat2Z.id.
Qed.

Lemma read_parse q : NUL ∉ q -> fe_body (byte_of_Z 80) (m_body (parse_msg [] q)) = Some (FeParse [] q []).
Proof.
  intros Hq. unfold fe_body, rd_fe. rewrite (proj2 (beq_true (byte_of_Z 80) _)) by done. cbn [parse_msg m_body]. rewrite (rd_bind_some _ _ _ _ _ (rd_cstr_spec [] _ (not_elem_of_nil _))), (rd_bind_some _ _ _ _ _ (rd_cstr_spec q _ Hq)).
  reflexivity.
Qed.

Lemma read_bind ps : len ps < 2 ^ 16 -> Forall (fun e => match e with Some v => len v < 2 ^ 31 | None => True end) ps -> fe_body (byte_of_Z 66) (m_body (bind_msg [] [] ps)) = Some (FeBind [] [] [] ps [1]).
Proof.
  intros Hn Hv. unfold fe_body, rd_fe. rewrite (proj2 (beq_false (byte_of_Z 66) (byte_of_Z 80))), (proj2 (beq_true (byte_of_Z 66) _)) by done. cbn [bind_msg m_body].
  rewrite !(rd_bind_some _ _ _ _ _ (rd_cstr_spec [] _ (not_elem_of_nil _))). match goal with |- context [be2 0 ++ ?x] => change (be2 0 ++ x) with (be2 0 ++ [] ++ x) end. rewrite (rd_bind_some _ _ _ _ _ (rd_counted_spec (rd_int 2) [] 0 [] _ eq_refl eq_refl eq_refl)). rewrite (rd_bind_some _ _ _ _ _ (rd_counted_spec rd_value ps (len ps) _ _ (rd_values_spec ps _ Hv) Hn eq_refl)). reflexivity.
Qed.

Lemma len_be2 v : len (be2 v) = 2.
Proof. apply len_be_bytes. Qed.

Lemma len_be4 v : len (be4 v) = 4.
Proof. apply len_be_bytes. Qed.

Lemma len_cstr s : len (cstr s) = len s + 1.
Proof. unfold cstr. rewrite len_app. done. Qed.

Definition param_size (e : option (list byte)) : Z := match e with Some v => 4 + len v | None => 4 end.

Lemma len_enc_elem e : len (enc_elem e) = param_size e.
Proof. destruct e; cbn [enc_elem param_size]; [rewrite len_app|]; by rewrite len_be4. Qed.

Definition stmt_size (s : Stmt) : Z := len (sql s) + len (concat (enc_elem <$> params s)) + 41.

Lemma len_stmt_msgs s : len (enc_msgs (stmt_msgs s)) = stmt_size s.
Proof.
  unfold stmt_msgs, stmt_size. rewrite !enc_msgs_cons, !len_app, !len_enc_msg. cbn [parse_msg bind_msg describe_msg execute_msg m_body]. rewrite len_cons, !len_app, !len_cstr, !len_be2, len_be4. change (len (enc_msgs [])) with 0. change (len (@nil byte)) with 0. lia.
Qed.

Lemma params_len_spec ps n : 0 <= n -> n + len (concat (enc_elem <$> ps)) < 2 ^ 31 -> params_len n ps = n + len (concat (enc_elem <$> ps)).
Proof.
  revert n. induction ps as [|e ps IH]; intros n Hn Hl; cbn [fmap list_fmap concat params_len] in *; [change (len (@nil byte)) with 0; lia|]. rewrite len_app, len_enc_elem in *. pose proof (len_nonneg (concat (enc_elem <$> ps))) as H0.
  destruct e as [v|]; cbn [param_size] in *; [pose proof (len_nonneg v); rewrite (i32_small (n + 4)) by lia|]; rewrite i32_small, IH by lia; lia.
Qed.

Lemma statement_frame_len_spec s : stmt_size s < 2 ^ 31 -> statement_frame_len (sql s) (params s) = stmt_size s.
Proof.
  unfold stmt_size, statement_frame_len. intros H. pose proof (len_nonneg (sql s)). pose proof (len_nonneg (concat (enc_elem <$> params s))). rewrite i32_small by (unfold parse_overhead, bind_overhead, describe_len, execute_len; lia). rewrite params_len_spec; unfold parse_overhead, bind_overhead, describe_len, execute_len; lia.
Qed.

Lemma batch_loop_spec stmts n : 0 <= n -> n + len (enc_msgs (concat (stmt_msgs <$> stmts))) < 2 ^ 31 -> batch_loop n stmts = n + len (enc_msgs (concat (stmt_msgs <$> stmts))).
Proof.
  revert n. induction stmts as [|s stmts IH]; intros n Hn Hl; cbn [fmap list_fmap concat batch_loop] in *; [change (len (enc_msgs [])) with 0; lia|]. rewrite enc_msgs_app, len_app, len_stmt_msgs in *. pose proof (len_nonneg (enc_msgs (concat (stmt_msgs <$> stmts)))). pose proof (len_nonneg (enc_msgs (stmt_msgs s))) as H0. rewrite len_stmt_msgs in H0.
  rewrite statement_frame_len_spec by lia. rewrite i32_small, IH by lia. lia.
Qed.

Lemma query_len_batch q ps : query_frame_len q ps = batch_frame_len [mkStmt q ps].
Proof. unfold query_frame_len, batch_frame_len. cbn [batch_loop sql params]. f_equal. lia. Qed.

(** The messages of one statement, read one after the other. *)
Lemma server_reads_stmt fuel s rest : stmt_wf s -> stmt_size s < 2 ^ 31 -> server_read (4 + fuel) (enc_msgs (stmt_msgs s) ++ rest) = (app (stmt_fe s)) <$> server_read fuel rest.
Proof.
  intros [Hq Hp] Hs. unfold stmt_size in Hs. pose proof (len_nonneg (sql s)). pose proof (len_nonneg (concat (enc_elem <$> params s))).
  assert (Hv : Forall (fun e => match e with Some v => len v < 2 ^ 31 | None => True end) (params s)).
  { clear Hp. assert (Hc : len (concat (enc_elem <$> params s)) < 2 ^ 31) by lia. clear -Hc. induction (params s) as [|e ps IH]; constructor; cbn [fmap list_fmap concat] in Hc; rewrite len_app, len_enc_elem in Hc; pose proof (len_nonneg (concat (enc_elem <$> ps))).
    - destruct e as [v|]; [cbn [param_size] in Hc; lia | done].
    - apply IH. destruct e as [v|]; cbn [param_size] in Hc; [pose proof (len_nonneg v)|]; lia. }
  unfold stmt_msgs. rewrite !enc_msgs_cons. change (enc_msgs []) with (@nil byte). rewrite <- !app_assoc, app_nil_l. cbn [Nat.add].
  rewrite (server_read_msg _ (parse_msg [] (sql s)) _ _ ltac:(cbn [parse_msg m_body]; rewrite !len_app, !len_cstr, len_be2; change (len (@nil byte)) with 0; lia) (read_parse (sql s) Hq)).
  rewrite (server_read_msg _ (bind_msg [] [] (params s)) _ _ ltac:(cbn [bind_msg m_body]; rewrite !len_app, !len_cstr, !len_be2; change (len (@nil byte)) with 0; lia) (read_bind (params s) Hp Hv)).
  rewrite (server_read_msg _ (describe_msg []) (FeDescribe (byte_of_Z 80) []) _ ltac:(done) ltac:(vm_compute; reflexivity)).
  rewrite (server_read_msg _ (execute_msg [] 0) (FeExecute [] 0) _ ltac:(done) ltac:(vm_compute; reflexivity)).
  by destruct (server_read fuel rest).
Qed.

Lemma server_reads_stmts stmts fuel rest : Forall stmt_wf stmts -> len (enc_msgs (concat (stmt_msgs <$> stmts))) < 2 ^ 31 ->
  server_read (4 * length stmts + fuel) (enc_msgs (concat (stmt_msgs <$> stmts)) ++ rest) = (app (concat (stmt_fe <$> stmts))) <$> server_read fuel rest.
Proof.
  induction 1 as [|s stmts Hs _ IH]; intros Hl; cbn [fmap list_fmap concat length] in *; [cbn; by destruct (server_read fuel rest)|]. rewrite enc_msgs_app, len_app, len_stmt_msgs in Hl. pose proof (len_nonneg (enc_msgs (concat (stmt_msgs <$> stmts)))). pose proof (len_nonneg (enc_msgs (stmt_msgs s))) as H0. rewrite len_stmt_msgs in H0.
  rewrite enc_msgs_app, <- app_assoc. replace (4 * S (length stmts) + fuel)%nat with (4 + (4 * length stmts + fuel))%nat by lia. rewrite (server_reads_stmt _ s _ Hs) by lia. rewrite IH by lia. destruct (server_read fuel rest); [|done]. cbn [fmap option_fmap option_map]. by rewrite <- app_assoc.
Qed.

(** C21: What a server reads of a submitted query or batch. The serialized frame of
    statements whose SQL has no NUL byte and that have fewer than 2^16 parameters, when it
    is shorter than 2^31 bytes, has exactly the size computed for it before it was
    serialized, and a server that reads messages as the protocol lays them out reads, for
    each statement in order, a Parse of its SQL, a Bind of its parameters (NULL and empty
    kept apart) asking for binary results, a Describe of the portal and an Execute of all
    its rows, then one Sync and nothing else. A single query is the batch of one
    statement. *)
Theorem queries_read_back stmts : Forall stmt_wf stmts ->
  exists frame, write_batch [] stmts = Ok frame /\
  (len frame < 2 ^ 31 -> batch_frame_len stmts = len frame /\ server_read (length frame) frame = Some (concat (stmt_fe <$> stmts) ++ [FeSync])) /\
  (forall s, stmts = [s] -> write_query [] (sql s) (params s) = Ok frame /\ query_frame_len (sql s) (params s) = batch_frame_len stmts).
Proof.
  intros Hwf. eexists. split; [apply write_batch_spec|]. split.
  - rewrite app_nil_l, enc_msgs_app, len_app. change (enc_msgs [sync_msg]) with (enc_msg sync_msg). rewrite len_enc_msg. change (len (m_body sync_msg)) with 0. intros Hl. pose proof (len_nonneg (enc_msgs (concat (stmt_msgs <$> stmts)))) as H0. split.
    + unfold batch_frame_len. rewrite batch_loop_spec by (unfold sync_len; lia). unfold sync_len. lia.
    + assert (Hlen : (4 * length stmts <= length (enc_msgs (concat (stmt_msgs <$> stmts))))%nat).
      { clear. induction stmts as [|s stmts IH]; [done|]. cbn [fmap list_fmap concat length]. rewrite enc_msgs_app, length_app. pose proof (len_stmt_msgs s) as E. unfold stmt_size in E. pose proof (len_nonneg (sql s)). pose proof (len_nonneg (concat (enc_elem <$> params s))). unfold len in *. lia. }
      rewrite length_app. change (length (enc_msg sync_msg)) with 5%nat. replace (length (enc_msgs (concat (stmt_msgs <$> stmts))) + 5)%nat with (4 * length stmts + S (length (enc_msgs (concat (stmt_msgs <$> stmts))) - 4 * length stmts + 4))%nat by lia.
      rewrite server_reads_stmts by (try done; lia). generalize (length (enc_msgs (concat (stmt_msgs <$> stmts))) - 4 * length stmts + 4)%nat as f. intros f. rewrite <- (app_nil_r (enc_msg sync_msg)), (server_read_msg f sync_msg FeSync []) by (vm_compute; done). by destruct f.
  - intros [q ps] ->. cbn [sql params]. rewrite write_query_batch, query_len_batch. split; [apply write_batch_spec | done].
Qed.

Definition sample_batch : list Stmt := [mkStmt (bytes_of "insert into t values ($1, $2)") [Some (bytes_of "7"); None]; mkStmt (bytes_of "select $1") [Some []]].

Lemma queries_read_back_witness : exists frame, write_batch [] sample_batch = Ok frame /\ len frame = 138 /\ server_read (length frame) frame = Some (concat (stmt_fe <$> sample_batch) ++ [FeSync]).
Proof.
  destruct (queries_read_back sample_batch) as (frame & E & H & _).
  - repeat constructor; cbn [sql params]; try (rewrite <- find_byte_None; vm_compute; reflexivity); by vm_compute.
  - exists frame. split; [done|]. assert (L : len frame = 138) by (rewrite write_batch_spec in E; inversion_clear E; vm_compute; reflexivity). split; [done|]. apply H. lia.
Defined.
