(* ===== verification/PgPipeline.v ===== *)
(** The query pipeline of pg_async/conn_async.v and pg_async/shed.v on a plain connection:
    queries queued within the limits of the connection, the receive buffer, and replies
    framed off the stream and given to the queries in flight, first in first out. *)
From S2P Require Import Prelude WireBytes HttpScan PgWire PgTypes PgProtocol PgQuery.
Local Open Scope Z_scope.

Inductive LinkState := ready | broken | connecting | ssl_request | tls_handshake | starting.

#[export] Instance link_state_eq_dec : EqDecision LinkState.
Proof. solve_decision. Defined.

(** [PgError], the typed error of an ErrorResponse. *)
Record PgError := mkPgError { e_severity : list byte; e_sqlstate : list byte; e_message : list byte; e_statement : Z }.

Record PendingQuery := mkPending {
  q_frames : list byte;
  q_error : list byte;
  q_sqlstate : list byte;
  q_severity : list byte;
  q_err_stmt : Z;
  q_rows : Z;
  q_slot : Z
}.

#[export] Instance eta_pending : Eta PendingQuery := mkEta _ (fun q => mkPending (q_frames q) (q_error q) (q_sqlstate q) (q_severity q) (q_err_stmt q) (q_rows q) (q_slot q)).

Definition pg_error (q : PendingQuery) : PgError := mkPgError (q_severity q) (q_sqlstate q) (q_error q) (q_err_stmt q).

(** The fields of [PgConn] the pipeline works on. [send_buf_len] is the size of the send
    buffer, whose content the two offsets delimit; [queued] is every frame byte accepted
    into it so far, which the program does not keep. *)
Record PgConn := mkConn {
  state : LinkState;
  fatal : PgError;
  loss : list byte;
  recv_buf : list byte;
  recv_cap : Z;
  recv_pos : Z;
  send_buf_len : Z;
  send_off : Z;
  send_len : Z;
  queued : list byte;
  inflight : list PendingQuery;
  inflight_cap : Z;
  ready_status : byte;
  frame_pool : list (list byte);
  frame_ring : Z;
  frame_too_large : Z
}.

#[export] Instance eta_conn : Eta PgConn := mkEta _ (fun c =>
  mkConn (state c) (fatal c) (loss c) (recv_buf c) (recv_cap c) (recv_pos c) (send_buf_len c) (send_off c) (send_len c) (queued c)
    (inflight c) (inflight_cap c) (ready_status c) (frame_pool c) (frame_ring c) (frame_too_large c)).

Definition max_inflight : Z := 8.
Definition send_buf_cap : Z := 64 * 1024.
Definition tx_idle : byte := byte_of_Z 73.

Definition is_ready (c : PgConn) : bool := bool_decide (state c = ready).
Definition is_broken (c : PgConn) : bool := negb (is_ready c).
Definition is_busy (c : PgConn) : bool := 0 <? len (inflight c).
Definition inflight_count (c : PgConn) : Z := len (inflight c).
Definition inflight_limit (c : PgConn) : Z := if 0 <? inflight_cap c then inflight_cap c else max_inflight.
Definition can_submit (c : PgConn) : bool := is_ready c && (len (inflight c) <? inflight_limit c).
Definition max_frame_len (c : PgConn) : Z := if 0 <? send_buf_len c then send_buf_len c else send_buf_cap.
Definition send_room (c : PgConn) : Z := max_frame_len c - (send_len c - send_off c).

Definition lose (reason : list byte) (c : PgConn) : PgConn := if is_ready c then c <| state := broken |> <| loss := reason |> else c.

(** What [async_on_readable] ends with when it does not say "not ready". *)
Inductive answer :=
  | Done (r : Result)
  | Failed (e : PgError)
  | Lost (reason : list byte).

Definition loss_error (c : PgConn) : answer := if negb (bool_decide (e_sqlstate (fatal c) = [])) then Failed (fatal c) else Lost (loss c).

(** ** Submitting *)

Definition push_inflight (c : PgConn) : outcome PgConn :=
  let limit := inflight_limit c in
  let c := if len (frame_pool c) <? limit then c <| frame_pool := replicate (Z.to_nat limit) [] |> else c in
  let slot := frame_ring c in
  let c := c <| frame_ring := (slot + 1) mod limit |> in
  if (slot <? 0) || (len (frame_pool c) <=? slot) then Crash
  else Ok (c <| inflight := inflight c ++ [mkPending [] [] [] [] 0 0 slot] |>).

(** The offsets of [append_send]: the buffer of a connection made without one, a drained
    buffer rewound, the unsent tail slid to the front. *)
Definition append_send (frame : list byte) (c : PgConn) : bool * PgConn :=
  let c := if send_buf_len c =? 0 then c <| send_buf_len := send_buf_cap |> <| send_off := 0 |> <| send_len := 0 |> else c in
  let c := if send_off c =? send_len c then c <| send_off := 0 |> <| send_len := 0 |> else c in
  let put c := (true, c <| send_len := send_len c + len frame |> <| queued := queued c ++ frame |>) in
  if send_buf_len c <? send_len c + len frame then
    let unsent := send_len c - send_off c in
    if send_buf_len c <? unsent + len frame then (false, c) else put (c <| send_off := 0 |> <| send_len := unsent |>)
  else put c.

Definition async_submit (query_text : list byte) (ps : list (option (list byte))) (c : PgConn) : outcome (bool * PgConn) :=
  if negb (is_ready c) || (inflight_limit c <=? len (inflight c)) || (send_room c <? query_frame_len query_text ps) then Ok (false, c)
  else
    scratch ← write_query [] query_text ps;
    let '(ok, c) := append_send scratch c in
    if negb ok then Ok (false, c) else c ← push_inflight c; Ok (true, c).

Inductive ShedReason := no_connection | pipeline_full | send_buffer_full.

(** Why a query or batch is not submitted. *)
Inductive refusal := Shed (reason : ShedReason) | FrameTooLarge (cap : Z) | ConnBroken (reason : list byte) | BatchEmpty | BatchTooLarge.

(** [async_submit_batch]: its error, or whether the batch was taken. *)
Definition async_submit_batch (stmts : list Stmt) (c : PgConn) : outcome ((refusal + bool) * PgConn) :=
  if len stmts =? 0 then Ok (inl BatchEmpty, c)
  else
    let n := batch_frame_len stmts in
    if max_frame_len c <? n then Ok (inl BatchTooLarge, c)
    else if negb (is_ready c) || (inflight_limit c <=? len (inflight c)) || (send_room c <? n) then Ok (inr false, c)
    else
      scratch ← write_batch [] stmts;
      let '(ok, c) := append_send scratch c in
      if negb ok then Ok (inr false, c) else c ← push_inflight c; Ok (inr true, c).

Definition check_submit (frame_len : Z) (c : PgConn) : option refusal :=
  if max_frame_len c <? frame_len then Some (FrameTooLarge (frame_too_large c))
  else if negb (is_ready c) then Some (ConnBroken (loss c))
  else if inflight_limit c <=? len (inflight c) then Some (Shed pipeline_full)
  else if send_room c <? frame_len then Some (Shed send_buffer_full)
  else None.

Definition queue_scratch (scratch : list byte) (c : PgConn) : outcome (option refusal * PgConn) :=
  let '(ok, c) := append_send scratch c in
  if negb ok then Ok (Some (Shed send_buffer_full), c) else c ← push_inflight c; Ok (None, c).

Definition submit (query_text : list byte) (ps : list (option (list byte))) (c : PgConn) : outcome (option refusal * PgConn) :=
  match check_submit (query_frame_len query_text ps) c with
  | Some e => Ok (Some e, c)
  | None => scratch ← write_query [] query_text ps; queue_scratch scratch c
  end.

Definition submit_batch (stmts : list Stmt) (c : PgConn) : outcome (option refusal * PgConn) :=
  if len stmts =? 0 then Ok (Some BatchEmpty, c)
  else
    match check_submit (batch_frame_len stmts) c with
    | Some e => Ok (Some e, c)
    | None => scratch ← write_batch [] stmts; queue_scratch scratch c
    end.

(** ** Sending *)

(** What the socket answers to one [send]: it takes some bytes or fails. *)
Inductive send_ev := Sent (n : positive) | SendFails (why : list byte).

Definition async_wants_write (c : PgConn) : bool := send_off c <? send_len c.

(** [for c.send_off < c.send_len]; the list ends where the socket would block. *)
Fixpoint flush_loop (evs : list send_ev) (c : PgConn) : (answer + bool) * PgConn :=
  if send_off c <? send_len c then
    match evs with
    | [] => (inr false, c)
    | SendFails why :: _ => let c := lose why c in (inl (Lost (loss c)), c)
    | Sent n :: evs =>
        flush_loop evs (c <| send_off := send_off c + Z.min (Zpos n) (send_len c - send_off c) |>)
    end
  else (inr true, c <| send_off := 0 |> <| send_len := 0 |>).

Definition async_flush (evs : list send_ev) (c : PgConn) : (answer + bool) * PgConn :=
  if is_broken c then (inl (loss_error c), c) else flush_loop evs c.

(** ** Receiving *)

(** What the socket has for the next [recv]: bytes, none at the end of the stream, or an
    error. The list ends where the socket would block. *)
Inductive recv_ev := Recv (bs : list byte) | RecvFails (why : list byte).

Definition closed_by_server : list byte := bytes_of "connection closed by server".

(** Room in the receive buffer: the framed prefix dropped, then the capacity doubled. *)
Definition recv_room (c : PgConn) : outcome PgConn :=
  if len (recv_buf c) =? recv_cap c then
    let c := if 0 <? recv_pos c then c <| recv_buf := drop (Z.to_nat (recv_pos c)) (recv_buf c) |> <| recv_pos := 0 |> else c in
    if len (recv_buf c) =? recv_cap c then
      let cap := recv_cap c + (if 0 <? recv_cap c then recv_cap c else 16 * 1024) in
      if 2 ^ 31 <=? cap then Crash else Ok (c <| recv_cap := cap |>)
    else Ok c
  else Ok c.

Fixpoint fill_loop (fuel : nat) (evs : list recv_ev) (c : PgConn) : outcome PgConn :=
  match fuel with
  | O => Crash
  | S f =>
      if negb (is_ready c) then Ok c
      else
        c ← recv_room c;
        let spare := Z.to_nat (recv_cap c - len (recv_buf c)) in
        match evs with
        | [] => Ok c
        | RecvFails why :: _ => Ok (lose why c)
        | Recv bs :: evs =>
            let got := take spare bs in
            if (length got =? 0)%nat then Ok (lose closed_by_server c)
            else fill_loop f (if (length bs <=? spare)%nat then evs else Recv (drop spare bs) :: evs) (c <| recv_buf := recv_buf c ++ got |>)
        end
  end.

(** A [recv] that moves a byte, or the end of the list. *)
Fixpoint fill_fuel (evs : list recv_ev) : nat :=
  match evs with [] => 1 | Recv bs :: evs => S (length bs + fill_fuel evs) | RecvFails _ :: evs => S (fill_fuel evs) end.

Definition fill_recv_buf (evs : list recv_ev) (c : PgConn) : outcome PgConn := fill_loop (fill_fuel evs) evs c.

Definition pop_front (c : PgConn) : outcome (PendingQuery * PgConn) :=
  match inflight c with
  | [] => Crash
  | q :: qs =>
      let c := c <| inflight := qs |> in
      Ok (q, if (0 <=? q_slot q) && (q_slot q <? len (frame_pool c)) then c <| frame_pool := <[Z.to_nat (q_slot q) := q_frames q]> (frame_pool c) |> else c)
  end.

Definition upd_front (f : PendingQuery -> PendingQuery) (c : PgConn) : PgConn :=
  match inflight c with q :: qs => c <| inflight := f q :: qs |> | [] => c end.

(** The [match typ] on one message for the front query. *)
Definition on_message (t : byte) (p : list byte) (q : PendingQuery) (c : PgConn) : outcome PgConn :=
  if beq t bt_command_complete then Ok (upd_front (fun q => q <| q_rows := parse_command_complete p |>) c)
  else if beq t bt_ready_for_query then Ok (match p with s :: _ => c <| ready_status := s |> | [] => c end)
  else if beq t bt_error_response then
    info ← parse_error_response p;
    n ← statements_done (q_frames q);
    let q := q <| q_error := message info |> <| q_sqlstate := code info |> <| q_severity := severity info |> <| q_err_stmt := n |> in
    let c := upd_front (fun _ => q) c in
    Ok (if ends_session (severity info) then lose closed_by_server (c <| fatal := pg_error q |>) else c)
  else Ok c.

Definition finish (q : PendingQuery) : answer :=
  if negb (bool_decide (q_error q = [])) then Failed (pg_error q) else Done (mkResult (q_frames q) (q_rows q)).

(** [for c.inflight.len > 0]: the answer it returns with, or nothing at its end. *)
Fixpoint frame_loop (fuel : nat) (c : PgConn) : outcome (option answer * PgConn) :=
  match fuel with
  | O => Crash
  | S f =>
      match inflight c with
      | [] => Ok (None, c)
      | q :: _ =>
          hdr ← next_message_at (recv_buf c) (recv_pos c);
          match hdr with
          | None => Ok (None, c)
          | Some hdr =>
              t ← byte_at (recv_buf c) (recv_pos c);
              payload ← slice (recv_buf c) (recv_pos c + 5) (total hdr - 5);
              c ← on_message t payload q c;
              whole ← slice (recv_buf c) (recv_pos c) (total hdr);
              let c := upd_front (fun q => q <| q_frames := q_frames q ++ whole |>) c in
              let c := c <| recv_pos := recv_pos c + total hdr |> in
              if beq t bt_ready_for_query then '(q, c) ← pop_front c; Ok (Some (finish q), c) else frame_loop f c
          end
      end
  end.

(** [async_on_readable]: [None] is "not ready". *)
Definition async_on_readable (evs : list recv_ev) (c : PgConn) : outcome (option answer * PgConn) :=
  let c := if (0 <? recv_pos c) && (len (recv_buf c) <=? recv_pos c) then c <| recv_pos := 0 |> <| recv_buf := [] |> else c in
  c ← fill_recv_buf evs c;
  '(a, c) ← frame_loop (S (length (recv_buf c))) c;
  match a with
  | Some a => Ok (Some a, c)
  | None =>
      if is_broken c then
        match inflight c with
        | [] => Ok (Some (loss_error c), c)
        | _ => '(q, c) ← pop_front c; Ok (Some (if negb (bool_decide (q_error q = [])) then Failed (pg_error q) else loss_error c), c)
        end
      else Ok (None, c)
  end.

(** ** What the stream of replies says *)

Definition is_z (m : msg) : bool := beq (m_typ m) bt_ready_for_query.

(** Replies: the messages up to and including each ReadyForQuery. *)
Fixpoint replies_from (cur ms : list msg) : list (list msg) :=
  match ms with
  | [] => []
  | m :: ms => if is_z m then (cur ++ [m]) :: replies_from [] ms else replies_from (cur ++ [m]) ms
  end.

Definition replies (ms : list msg) : list (list msg) := replies_from [] ms.

(** The messages behind the last ReadyForQuery. *)
Fixpoint open_from (cur ms : list msg) : list msg :=
  match ms with
  | [] => cur
  | m :: ms => if is_z m then open_from [] ms else open_from (cur ++ [m]) ms
  end.

Definition open_reply (ms : list msg) : list msg := open_from [] ms.

Definition error_info (body : list byte) : ErrorInfo := match parse_error_response body with Ok e => e | _ => mkErrorInfo [] [] [] end.

(** The errors of a reply, each with the number of statements completed before it. *)
Fixpoint errors_from (n : Z) (r : list msg) : list PgError :=
  match r with
  | [] => []
  | m :: r =>
      (if beq (m_typ m) bt_error_response then [mkPgError (severity (error_info (m_body m))) (code (error_info (m_body m))) (message (error_info (m_body m))) n] else [])
      ++ errors_from (if ends_statement (m_typ m) then n + 1 else n) r
  end.

Definition reply_error (r : list msg) : option PgError := last (errors_from 0 r).

Definition reply_rows (r : list msg) : Z :=
  match last (filter (fun m => m_typ m = bt_command_complete) r) with Some m => parse_command_complete (m_body m) | None => 0 end.

(** A query fails with the last error of its reply, when that has a message; else its
    result is the reply. *)
Definition reply_answer (r : list msg) : answer :=
  match reply_error r with
  | Some e => if bool_decide (e_message e = []) then Done (mkResult (enc_msgs r) (reply_rows r)) else Failed e
  | None => Done (mkResult (enc_msgs r) (reply_rows r))
  end.

Lemma replies_from_snoc cur ms m : replies_from cur (ms ++ [m]) = replies_from cur ms ++ (if is_z m then [open_from cur ms ++ [m]] else []).
Proof.
  revert cur. induction ms as [|x ms IH]; intros cur; cbn [app replies_from open_from]; [by destruct (is_z m)|]. destruct (is_z x); [|apply IH]. cbn [app]. f_equal. apply IH.
Qed.

Lemma open_from_snoc cur ms m : open_from cur (ms ++ [m]) = if is_z m then [] else open_from cur ms ++ [m].
Proof. revert cur. induction ms as [|x ms IH]; intros cur; cbn [app open_from]; [by destruct (is_z m)|]. destruct (is_z x); apply IH. Qed.

Lemma errors_from_snoc n r m : errors_from n (r ++ [m]) = errors_from n r ++
  (if beq (m_typ m) bt_error_response then [mkPgError (severity (error_info (m_body m))) (code (error_info (m_body m))) (message (error_info (m_body m))) (n + len (filter (fun m => ends_statement (m_typ m) = true) r))] else []).
Proof.
  revert n. induction r as [|x r IH]; intros n; cbn [app errors_from]; [change (len (filter _ [])) with 0; rewrite Z.add_0_r, app_nil_r; by destruct (beq _ _)|]. rewrite IH, <- app_assoc. do 2 f_equal. destruct (beq (m_typ m) bt_error_response); [|done]. do 2 f_equal. rewrite filter_cons. destruct (ends_statement (m_typ x)) eqn:E; [rewrite decide_True by done; rewrite len_cons; lia | by rewrite decide_False by done].
Qed.

Lemma reply_rows_snoc r m : reply_rows (r ++ [m]) = if beq (m_typ m) bt_command_complete then parse_command_complete (m_body m) else reply_rows r.
Proof.
  unfold reply_rows. rewrite filter_app, filter_cons, filter_nil. destruct (beq (m_typ m) bt_command_complete) eqn:E.
  - rewrite decide_True by (by apply beq_true). by rewrite last_snoc.
  - rewrite decide_False by (by apply beq_false). by rewrite app_nil_r.
Qed.

Lemma reply_error_snoc r m : reply_error (r ++ [m]) =
  if beq (m_typ m) bt_error_response then Some (mkPgError (severity (error_info (m_body m))) (code (error_info (m_body m))) (message (error_info (m_body m))) (len (filter (fun m => ends_statement (m_typ m) = true) r)))
  else reply_error r.
Proof. unfold reply_error. rewrite errors_from_snoc. destruct (beq _ _); [by rewrite last_snoc, Z.add_0_l | by rewrite app_nil_r]. Qed.

(** Bytes cut anywhere: a complete message in front, or an incomplete one. *)
Lemma cut_stream todo s rest future : incomplete_msg s -> len (enc_msgs todo) < 2 ^ 30 -> rest ++ future = enc_msgs todo ++ s ->
  (exists m todo' rest', todo = m :: todo' /\ rest = enc_msg m ++ rest' /\ rest' ++ future = enc_msgs todo' ++ s) \/ incomplete_msg rest.
Proof.
  intros Hs Hl E. destruct todo as [|m todo].
  - right. cbn [enc_msgs fmap list_fmap concat app] in E. change (enc_msgs [] ++ s) with s in E. subst s. destruct Hs as [Hs|(t & v & s' & Hs & Hv & Hc)].
    + left. rewrite len_app in Hs. pose proof (len_nonneg future). lia.
    + destruct (Z.ltb_spec (len rest) 5) as [|H5]; [by left|]. right. exists t, v, (drop 5 rest). assert (Et : take 5 rest = t :: be4 v).
      { assert (E5 : take 5 (rest ++ future) = take 5 (t :: be4 v ++ s')) by (by rewrite Hs). rewrite take_app_le in E5 by (unfold len in H5; lia). rewrite E5. done. }
      split; [rewrite <- (take_drop 5 rest) at 1; rewrite Et; done|]. split; [done|]. destruct Hc as [|[Hc1 Hc2]]; [by left|]. right. split; [done|]. rewrite len_app in Hc2. pose proof (len_nonneg future). lia.
  - rewrite enc_msgs_cons, len_app in Hl. pose proof (len_nonneg (enc_msgs todo)). rewrite enc_msgs_cons, <- app_assoc in E. destruct (Z.ltb_spec (len rest) (len (enc_msg m))) as [Hlt|Hge].
    + right. destruct (Z.ltb_spec (len rest) 5) as [|H5]; [by left|]. right. rewrite len_enc_msg in Hl, Hlt. pose proof (len_nonneg (m_body m)). exists (m_typ m), (4 + len (m_body m)), (drop 5 rest).
      assert (Et : take 5 rest = m_typ m :: be4 (4 + len (m_body m))).
      { assert (E5 : take 5 (rest ++ future) = take 5 (enc_msg m ++ enc_msgs todo ++ s)) by (by rewrite E). rewrite take_app_le in E5 by (unfold len in H5; lia). rewrite E5. done. }
      split; [rewrite <- (take_drop 5 rest) at 1; rewrite Et; done|]. split; [lia|]. right. rewrite i32_small by lia. lia.
    + left. exists m, todo, (drop (length (enc_msg m)) rest). split; [done|]. assert (Et : take (length (enc_msg m)) rest = enc_msg m).
      { assert (E5 : take (length (enc_msg m)) (rest ++ future) = enc_msg m) by (rewrite E; apply take_app_length). by rewrite take_app_le in E5 by (unfold len in Hge; lia). }
      assert (Er : rest = enc_msg m ++ drop (length (enc_msg m)) rest) by (rewrite <- Et at 1; by rewrite take_drop). split; [done|]. rewrite Er, <- app_assoc in E. by apply app_inv_head in E.
Qed.

Lemma nul_loop_no_err n p j x : nul_loop n p j <> Err x.
Proof.
  revert j. induction n as [|n IH]; intros j; cbn [nul_loop]; repeat case_match; try done; unfold byte_at; repeat case_match; cbn [mbind outcome_bind]; repeat case_match; try done; apply IH.
Qed.

Lemma error_loop_no_err n p pos e x : error_loop n p pos e <> Err x.
Proof.
  revert pos e. induction n as [|n IH]; intros pos e; cbn [error_loop]; (destruct (pos <? len p); [|done]); [done|].
  unfold byte_at. case_match; [done|]. case_match; [|done]. cbn [mbind outcome_bind]. case_match; [done|]. destruct (nul_loop _ _ _) eqn:En; cbn [mbind outcome_bind]; [|by apply nul_loop_no_err in En|done].
  unfold slice. destruct ((0 <=? _) && _ && _); cbn [mbind outcome_bind]; [|done]. try case_match; apply IH.
Qed.

Lemma parse_error_total p : parse_error_response p = Ok (error_info p).
Proof.
  unfold error_info. destruct (parse_error_response p) eqn:E; [done| |].
  - by apply error_loop_no_err in E.
  - exfalso. pose proof (error_loop_safe p (length p) 0 p (mkErrorInfo [] [] []) (rest_whole p) ltac:(done)) as H. unfold parse_error_response in E. by rewrite E in H.
Qed.

Lemma statements_done_spec ms : fits_int (enc_msgs ms) -> statements_done (enc_msgs ms) = Ok (len (filter (fun m => ends_statement (m_typ m) = true) ms)).
Proof. intros H. unfold statements_done. pose proof (msgs_length ms). by rewrite (done_loop_spec ms H ms [] _ 0) by (done || lia). Qed.

(** A pending query that has accumulated the messages [cur]. *)
Definition reflects (cur : list msg) (q : PendingQuery) : Prop :=
  q_frames q = enc_msgs cur /\ q_rows q = reply_rows cur /\ pg_error q = default (mkPgError [] [] [] 0) (reply_error cur).

(** One that has accumulated nothing. *)
Definition unanswered (q : PendingQuery) : Prop := reflects [] q.

Lemma finish_reflects cur q : reflects cur q -> finish q = reply_answer cur.
Proof.
  intros (Hf & Hr & He). unfold finish, reply_answer. assert (Em : q_error q = e_message (pg_error q)) by done. rewrite Em, Hf, Hr, He. destruct (reply_error cur) as [e|]; cbn [default]; [by destruct (bool_decide _)|]. done.
Qed.

(** What the receive side does not touch. *)
Definition send_side (c : PgConn) : Z * Z * Z * list byte * Z * Z * Z * Z :=
  (send_buf_len c, send_off c, send_len c, queued c, inflight_cap c, len (frame_pool c), frame_ring c, frame_too_large c).

Definition recv_side (c : PgConn) : list byte * Z * Z := (recv_buf c, recv_cap c, recv_pos c).

Lemma on_message_spec m q qs c cur : inflight c = q :: qs -> reflects cur q -> fits_int (enc_msgs cur) ->
  exists q' c', on_message (m_typ m) (m_body m) q c = Ok c' /\ inflight c' = q' :: qs /\ q_slot q' = q_slot q /\
    reflects (cur ++ [m]) (q' <| q_frames := q_frames q' ++ enc_msg m |>) /\ send_side c' = send_side c /\ recv_side c' = recv_side c /\ (is_ready c' = true -> is_ready c = true).
Proof.
  intros Hi (Hf & Hr & He) Hfit. unfold on_message, upd_front. rewrite Hi.
  assert (Hframes : forall q', q_frames q' = q_frames q -> q_frames q' ++ enc_msg m = enc_msgs (cur ++ [m])) by (intros q' ->; rewrite Hf, enc_msgs_app, enc_msgs_cons; change (enc_msgs []) with (@nil byte); by rewrite app_nil_r).
  unfold reflects. rewrite reply_rows_snoc, reply_error_snoc. destruct (beq (m_typ m) bt_command_complete) eqn:E1.
  { apply beq_true in E1. rewrite E1. change (beq bt_command_complete bt_error_response) with false. exists (q <| q_rows := parse_command_complete (m_body m) |>). eexists. split; [done|]. cbn. rewrite (Hframes q eq_refl). done. }
  destruct (beq (m_typ m) bt_ready_for_query) eqn:E2.
  { apply beq_true in E2. rewrite E2. change (beq bt_ready_for_query bt_error_response) with false. exists q. eexists. split; [done|]. rewrite <- (Hframes q eq_refl). by destruct (m_body m). }
  destruct (beq (m_typ m) bt_error_response) eqn:E3.
  - rewrite parse_error_total, Hf, statements_done_spec by done. cbn [mbind outcome_bind]. eexists (mkPending _ _ _ _ _ _ _), _. split; [done|]. rewrite <- (Hframes q eq_refl). destruct (ends_session _); unfold lose; [case_match|]; (split; [reflexivity|]); done.
  - exists q, c. rewrite <- (Hframes q eq_refl). done.
Qed.

Lemma pop_front_spec c q qs : inflight c = q :: qs -> exists c', pop_front c = Ok (q, c') /\ inflight c' = qs /\ send_side c' = send_side c /\ recv_side c' = recv_side c /\ is_ready c' = is_ready c /\ fatal c' = fatal c /\ loss c' = loss c.
Proof.
  intros Hi. unfold pop_front. rewrite Hi. eexists. split; [done|]. case_match; [|done]. split_and!; try done. unfold send_side. cbn. unfold len. by rewrite length_insert.
Qed.

(** The bytes a list of receives brings. *)
Definition ev_bytes (e : recv_ev) : list byte := match e with Recv bs => bs | RecvFails _ => [] end.
Definition evs_bytes (evs : list recv_ev) : list byte := concat (ev_bytes <$> evs).

(** Those received, up to the receive the connection is lost at. *)
Fixpoint received (evs : list recv_ev) : list byte :=
  match evs with Recv (b :: bs) :: evs => b :: bs ++ received evs | _ => [] end.

Lemma received_cons bs evs : bs <> [] -> received (Recv bs :: evs) = bs ++ received evs.
Proof. by destruct bs. Qed.

(** What receiving leaves alone. *)
Definition pipe_side (c : PgConn) : list PendingQuery * PgError * (Z * Z * Z * list byte * Z * Z * Z * Z) := (inflight c, fatal c, send_side c).

Lemma recv_room_spec c rest : rest_at (recv_buf c) (recv_pos c) rest -> len (recv_buf c) <= recv_cap c -> len (recv_buf c) < 2 ^ 30 ->
  exists c', recv_room c = Ok c' /\ rest_at (recv_buf c') (recv_pos c') rest /\ len (recv_buf c') < recv_cap c' /\ recv_pos c' <= recv_pos c /\ len (recv_buf c') <= len (recv_buf c) /\ pipe_side c' = pipe_side c /\ state c' = state c.
Proof.
  intros Hr Hc Hl. pose proof (len_nonneg (recv_buf c)) as H0. pose proof (rest_bounds _ _ _ Hr) as [Hp Hb]. pose proof (len_nonneg rest). unfold recv_room. destruct (Z.eqb_spec (len (recv_buf c)) (recv_cap c)) as [Efull|]; [|exists c; split_and!; done || lia].
  set (c1 := if 0 <? recv_pos c then _ else c).
  assert (H1 : rest_at (recv_buf c1) (recv_pos c1) rest /\ len (recv_buf c1) <= len (recv_buf c) /\ recv_pos c1 <= recv_pos c /\ recv_cap c1 = recv_cap c /\ pipe_side c1 = pipe_side c /\ state c1 = state c).
  { unfold c1. destruct (Z.ltb_spec 0 (recv_pos c)); [|done]. assert (Ed : drop (Z.to_nat (recv_pos c)) (recv_buf c) = rest) by (destruct Hr as (a & Ea & ->); rewrite Ea; unfold len; by rewrite Nat2Z.id, drop_app_length). cbn. rewrite Ed. split_and!; try done; try lia. apply rest_whole. }
  clearbody c1. destruct H1 as (R1 & R2 & R3 & R4 & R5 & R6). pose proof (len_nonneg (recv_buf c1)). destruct (Z.eqb_spec (len (recv_buf c1)) (recv_cap c1)) as [E1|]; [|exists c1; split_and!; done || lia].
  destruct (Z.ltb_spec 0 (recv_cap c1)); (rewrite (proj2 (Z.leb_gt _ _)) by lia); eexists; (split; [done|]); cbn; split_and!; done || lia.
Qed.

Lemma lose_spec why c : is_ready (lose why c) = false /\ recv_side (lose why c) = recv_side c /\ pipe_side (lose why c) = pipe_side c.
Proof. unfold lose. destruct (is_ready c) eqn:E; done. Qed.

Lemma fill_loop_spec f evs c rest : rest_at (recv_buf c) (recv_pos c) rest -> len (recv_buf c) <= recv_cap c -> len (recv_buf c) + len (evs_bytes evs) < 2 ^ 30 -> (fill_fuel evs <= f)%nat ->
  exists c' got more, fill_loop f evs c = Ok c' /\ rest_at (recv_buf c') (recv_pos c') (rest ++ got) /\ recv_pos c' <= recv_pos c /\ len (recv_buf c') <= recv_cap c' /\ evs_bytes evs = got ++ more /\ pipe_side c' = pipe_side c /\
    (is_ready c' = true -> more = [] /\ is_ready c = true) /\ got = (if is_ready c then received evs else []) /\ (is_ready c = false -> c' = c).
Proof.
  revert evs c rest. induction f as [|f IH]; intros evs c rest Hr Hc Hl Hf; [destruct evs as [|[]]; cbn in Hf; lia|]. cbn [fill_loop]. pose proof (len_nonneg (evs_bytes evs)) as Hb0. destruct (is_ready c) eqn:Er; cbn [negb].
  2: { exists c, [], (evs_bytes evs). rewrite app_nil_r. split_and!; try done; congruence. }
  destruct (recv_room_spec c rest Hr Hc ltac:(lia)) as (c1 & -> & Hr1 & Hc1 & Hp1 & Hl1 & Hs1 & Hst). cbn [mbind outcome_bind]. assert (Er1 : is_ready c1 = true) by (unfold is_ready in *; by rewrite Hst).
  assert (Hstop : forall why, exists c' got more, Ok (lose why c1) = Ok c' /\ rest_at (recv_buf c') (recv_pos c') (rest ++ got) /\ recv_pos c' <= recv_pos c /\ len (recv_buf c') <= recv_cap c' /\ evs_bytes evs = got ++ more /\ pipe_side c' = pipe_side c /\ (is_ready c' = true -> more = [] /\ true = true) /\ got = [] /\ (true = false -> c' = c)).
  { intros why. destruct (lose_spec why c1) as (L1 & L2 & L3). injection L2 as L4 L5 L6. exists (lose why c1), [], (evs_bytes evs). rewrite app_nil_r, L1, L3, L4, L5, L6. split_and!; try done; lia. }
  destruct evs as [|[bs|why] evs]; [|destruct (length (take _ bs) =? 0)%nat eqn:E0|]; [| | | apply Hstop].
  - exists c1, [], []. rewrite app_nil_r. split_and!; try done; lia.
  - apply Nat.eqb_eq in E0. rewrite length_take in E0. assert (Eb : bs = []) by (apply nil_length_inv; lia). subst bs. apply Hstop.
  - apply Nat.eqb_neq in E0. set (spare := Z.to_nat (recv_cap c1 - len (recv_buf c1))) in *. set (c2 := c1 <| recv_buf := recv_buf c1 ++ take spare bs |>). set (evs' := if (length bs <=? spare)%nat then evs else Recv (drop spare bs) :: evs).
    assert (Ebs : evs_bytes (Recv bs :: evs) = take spare bs ++ evs_bytes evs').
    { unfold evs'. destruct (Nat.leb_spec (length bs) spare); [by rewrite take_ge by done|]. unfold evs_bytes. cbn [fmap list_fmap concat ev_bytes]. by rewrite app_assoc, take_drop. }
    assert (Erc : forall got, got = (if is_ready c2 then received evs' else []) -> take spare bs ++ got = received (Recv bs :: evs)).
    { intros got ->. change (is_ready c2) with (is_ready c1). rewrite Er1. assert (Hne : bs <> []) by (intros ->; by rewrite take_nil in E0). rewrite received_cons by done. unfold evs'. destruct (Nat.leb_spec (length bs) spare); [by rewrite take_ge by done|].
      rewrite received_cons by (intros E; apply (f_equal length) in E; rewrite length_drop in E; cbn in E; lia). by rewrite app_assoc, take_drop. }
    rewrite Ebs, len_app in Hl. assert (Hgot : (0 < length (take spare bs) <= spare)%nat) by (rewrite length_take in *; lia).
    destruct (IH evs' c2 (rest ++ take spare bs)) as (c' & got & more & E & F1 & F2 & F3 & F4 & F5 & F6 & F7 & _).
    + destruct Hr1 as (a & Ea & Epos). exists a. cbn. by rewrite Ea, Epos, app_assoc.
    + cbn. rewrite len_app. unfold len in *. lia.
    + cbn. rewrite len_app. lia.
    + unfold evs'. cbn [fill_fuel] in Hf. rewrite length_take in Hgot. destruct (Nat.leb_spec (length bs) spare); cbn [fill_fuel]; rewrite ?length_drop; lia.
    + exists c', (take spare bs ++ got), more. rewrite Ebs, F4. rewrite <- app_assoc in F1. split_and!; try done; [cbn in F2; lia | by rewrite app_assoc | by rewrite F5 | intros H; by apply F6 in H as [-> _] | by apply Erc].
Qed.

(** What queueing a query leaves alone. *)
Definition kept (c c' : PgConn) : Prop :=
  recv_side c' = recv_side c /\ state c' = state c /\ fatal c' = fatal c /\ loss c' = loss c /\ inflight c' = inflight c /\ inflight_cap c' = inflight_cap c /\ frame_ring c' = frame_ring c.

(** One more query in flight, with the next reply buffer. *)
Definition took (c c' : PgConn) : Prop :=
  recv_side c' = recv_side c /\ state c' = state c /\ fatal c' = fatal c /\ loss c' = loss c /\ inflight_cap c' = inflight_cap c /\
  is_ready c = true /\ len (inflight c) < inflight_limit c /\
  inflight c' = inflight c ++ [mkPending [] [] [] [] 0 0 (frame_ring c)] /\ frame_ring c' = (frame_ring c + 1) mod inflight_limit c.

Lemma inflight_limit_pos c : 0 < inflight_limit c.
Proof. unfold inflight_limit, max_inflight. destruct (Z.ltb_spec 0 (inflight_cap c)); lia. Qed.

Lemma append_send_kept frame c : kept c (snd (append_send frame c)).
Proof. unfold append_send, kept. repeat case_match; done. Qed.

Lemma push_took c c1 : kept c c1 -> is_ready c = true -> len (inflight c) < inflight_limit c -> 0 <= frame_ring c < inflight_limit c -> exists c', push_inflight c1 = Ok c' /\ took c c'.
Proof.
  intros (K1 & K2 & K3 & K4 & K5 & K6 & K7) Hrd Hn Hring. assert (El : inflight_limit c1 = inflight_limit c) by (unfold inflight_limit; by rewrite K6). unfold push_inflight. rewrite El.
  set (c2 := if len (frame_pool c1) <? inflight_limit c then _ else c1). assert (H2 : kept c c2 /\ inflight_limit c <= len (frame_pool c2)).
  { unfold c2. destruct (Z.ltb_spec (len (frame_pool c1)) (inflight_limit c)); [|by split]. split; [done|]. cbn. unfold len. rewrite length_replicate. lia. }
  clearbody c2. destruct H2 as [(P1 & P2 & P3 & P4 & P5 & P6 & P7) Hpool]. rewrite P7. cbn [frame_pool]. rewrite (proj2 (Z.ltb_ge _ _)) by lia. change (frame_pool (c2 <| frame_ring := (frame_ring c + 1) mod inflight_limit c |>)) with (frame_pool c2). rewrite (proj2 (Z.leb_gt _ _)) by lia. cbn [orb].
  eexists. split; [done|]. unfold took. cbn. rewrite P5. unfold recv_side in *. cbn. by rewrite P1.
Qed.

(** Every way to submit: refused with the pipeline as it was, or taken. *)
Definition submitted {A} (yes : A -> Prop) (c : PgConn) (o : outcome (A * PgConn)) : Prop :=
  exists a c', o = Ok (a, c') /\ ((yes a /\ took c c') \/ (~ yes a /\ kept c c')).

Lemma kept_refl c : kept c c.
Proof. done. Qed.

Lemma queue_submitted {A} (yes : A -> Prop) (t f : A) c scratch : yes t -> ~ yes f -> is_ready c = true -> len (inflight c) < inflight_limit c -> 0 <= frame_ring c < inflight_limit c ->
  submitted yes c (let '(ok, c) := append_send scratch c in if negb ok then Ok (f, c) else c ← push_inflight c; Ok (t, c)).
Proof.
  intros Ht Hf Hrd Hn Hring. pose proof (append_send_kept scratch c) as K. destruct (append_send scratch c) as [[] c1]; cbn [negb snd] in *.
  - destruct (push_took c c1 K Hrd Hn Hring) as (c' & -> & T). exists t, c'. split; [done | by left].
  - exists f, c1. split; [done | by right].
Qed.

Lemma submit_submitted q ps c : 0 <= frame_ring c < inflight_limit c -> submitted (fun e => e = None) c (submit q ps c).
Proof.
  intros Hring. unfold submit. destruct (check_submit _ c) as [e|] eqn:Ec; [exists (Some e), c; split; [done | by right]|]. rewrite write_query_batch, write_batch_spec. cbn [mbind outcome_bind]. revert Ec. unfold check_submit. repeat case_match; try done. intros _.
  apply queue_submitted; try done; [by apply negb_false_iff | by apply Z.leb_gt].
Qed.

Lemma submit_batch_submitted stmts c : 0 <= frame_ring c < inflight_limit c -> submitted (fun e => e = None) c (submit_batch stmts c).
Proof.
  intros Hring. unfold submit_batch. case_match; [exists (Some BatchEmpty), c; split; [done | by right]|]. destruct (check_submit _ c) as [e|] eqn:Ec; [exists (Some e), c; split; [done | by right]|]. rewrite write_batch_spec. cbn [mbind outcome_bind]. revert Ec. unfold check_submit. repeat case_match; try done. intros _.
  apply queue_submitted; try done; [by apply negb_false_iff | by apply Z.leb_gt].
Qed.

Lemma async_submit_submitted q ps c : 0 <= frame_ring c < inflight_limit c -> submitted (fun b => b = true) c (async_submit q ps c).
Proof.
  intros Hring. unfold async_submit. destruct (negb (is_ready c) || _ || _) eqn:Ec; [exists false, c; split; [done | by right]|]. rewrite write_query_batch, write_batch_spec. cbn [mbind outcome_bind]. apply orb_false_iff in Ec as [Ec _]. apply orb_false_iff in Ec as [E1 E2].
  apply queue_submitted; try done; [by apply negb_false_iff | by apply Z.leb_gt].
Qed.

Lemma async_batch_submitted stmts c : 0 <= frame_ring c < inflight_limit c -> submitted (fun r => r = inr true) c (async_submit_batch stmts c).
Proof.
  intros Hring. unfold async_submit_batch. case_match; [exists (inl BatchEmpty), c; split; [done | by right]|]. case_match; [exists (inl BatchTooLarge), c; split; [done | by right]|].
  destruct (negb (is_ready c) || _ || _) eqn:Ec; [exists (inr false), c; split; [done | by right]|]. rewrite write_batch_spec. cbn [mbind outcome_bind]. apply orb_false_iff in Ec as [Ec _]. apply orb_false_iff in Ec as [E1 E2].
  apply queue_submitted; try done; [by apply negb_false_iff | by apply Z.leb_gt].
Qed.

(** The reply buffers in use: the last ones of the ring, in order. *)
Definition slots_ok (c : PgConn) : Prop :=
  0 <= frame_ring c < inflight_limit c /\ len (inflight c) <= inflight_limit c /\
  (forall i sl, (q_slot <$> inflight c) !! i = Some sl -> sl = (frame_ring c - len (inflight c) + Z.of_nat i) mod inflight_limit c).

Lemma slots_kept c c' : slots_ok c -> inflight_cap c' = inflight_cap c -> frame_ring c' = frame_ring c -> q_slot <$> inflight c' = q_slot <$> inflight c -> slots_ok c'.
Proof.
  unfold slots_ok. intros H Ec Er Es. assert (El : inflight_limit c' = inflight_limit c) by (unfold inflight_limit; by rewrite Ec). assert (En : len (inflight c') = len (inflight c)) by (unfold len; by rewrite <- (length_fmap q_slot (inflight c')), Es, length_fmap). by rewrite El, Er, En, Es.
Qed.

Lemma slots_popped c c' sl : slots_ok c -> inflight_cap c' = inflight_cap c -> frame_ring c' = frame_ring c -> q_slot <$> inflight c = sl :: (q_slot <$> inflight c') -> slots_ok c'.
Proof.
  unfold slots_ok. intros (H1 & H2 & H3) Ec Er Es. assert (El : inflight_limit c' = inflight_limit c) by (unfold inflight_limit; by rewrite Ec). assert (En : len (inflight c) = 1 + len (inflight c')) by (unfold len; rewrite <- (length_fmap q_slot (inflight c)), Es; cbn; rewrite length_fmap; lia).
  rewrite El, Er. split; [done|]. split; [lia|]. intros i x Hx. rewrite (H3 (S i) x) by (by rewrite Es). f_equal. lia.
Qed.

Lemma slots_took c c' : slots_ok c -> took c c' -> slots_ok c'.
Proof.
  unfold slots_ok. intros (H1 & H2 & H3) (_ & _ & _ & _ & Ec & _ & Hn & Ei & Er). pose proof (inflight_limit_pos c). assert (El : inflight_limit c' = inflight_limit c) by (unfold inflight_limit; by rewrite Ec). rewrite El, Er, Ei, len_app. change (len [_]) with 1.
  split; [apply Z.mod_pos_bound; lia|]. split; [lia|]. assert (Em : forall i, ((frame_ring c + 1) mod inflight_limit c - (len (inflight c) + 1) + i) mod inflight_limit c = (frame_ring c - len (inflight c) + i) mod inflight_limit c).
  { intros i. replace (_ mod _ - (len (inflight c) + 1) + i) with ((frame_ring c + 1) mod inflight_limit c + (i - len (inflight c) - 1)) by lia. rewrite Zplus_mod_idemp_l. f_equal. lia. }
  intros i sl. rewrite fmap_app. intros [E|[Hge E]]%lookup_app_Some; rewrite Em; [by apply H3|]. cbn in E. rewrite length_fmap in *. apply list_lookup_singleton_Some in E as [Ei0 <-]. cbn. replace (_ + Z.of_nat i) with (frame_ring c) by (unfold len; lia). by rewrite Z.mod_small.
Qed.

Lemma slots_distinct c : slots_ok c -> NoDup (q_slot <$> inflight c).
Proof.
  intros (H1 & H2 & H3). apply NoDup_alt. intros i j x Ei Ej. pose proof (inflight_limit_pos c) as HL. pose proof (H3 _ _ Ei) as Xi. pose proof (H3 _ _ Ej) as Xj. apply lookup_lt_Some in Ei, Ej. rewrite length_fmap in *. unfold len in *.
  set (a := frame_ring c - Z.of_nat (length (inflight c))) in *. assert (Hd : ((a + Z.of_nat i) - (a + Z.of_nat j)) mod inflight_limit c = 0) by (by rewrite Zminus_mod, <- Xi, <- Xj, Z.sub_diag).
  replace (a + Z.of_nat i - (a + Z.of_nat j)) with (Z.of_nat i - Z.of_nat j) in Hd by lia. apply Z.mod_divide in Hd as [k Hk]; [|lia]. assert (k = 0) by nia. lia.
Qed.

(** ** Runs *)

(** What a connection's users and its socket do to it, in any order. *)
Inductive op :=
  | OpSubmit (q : list byte) (ps : list (option (list byte)))
  | OpBatch (stmts : list Stmt)
  | OpAsyncSubmit (q : list byte) (ps : list (option (list byte)))
  | OpAsyncBatch (stmts : list Stmt)
  | OpFlush (evs : list send_ev)
  | OpReadable (evs : list recv_ev).

(** Whether a query was taken, and the answer of a query in flight. *)
Definition do_op (o : op) (c : PgConn) : outcome (bool * option answer * PgConn) :=
  match o with
  | OpSubmit q ps => '(r, c) ← submit q ps c; Ok (match r with None => true | Some _ => false end, None, c)
  | OpBatch stmts => '(r, c) ← submit_batch stmts c; Ok (match r with None => true | Some _ => false end, None, c)
  | OpAsyncSubmit q ps => '(r, c) ← async_submit q ps c; Ok (r, None, c)
  | OpAsyncBatch stmts => '(r, c) ← async_submit_batch stmts c; Ok (match r with inr b => b | inl _ => false end, None, c)
  | OpFlush evs => Ok (false, None, snd (async_flush evs c))
  | OpReadable evs => '(a, c') ← async_on_readable evs c; Ok (false, match inflight c with [] => None | _ => a end, c')
  end.

(** The connection, the answers so far in the order they came, and the number of queries
    taken. *)
Fixpoint run (ops : list op) (c : PgConn) (ans : list answer) (taken : nat) : outcome (PgConn * list answer * nat) :=
  match ops with
  | [] => Ok (c, ans, taken)
  | o :: ops => '(t, a, c) ← do_op o c; run ops c (ans ++ option_list a) (if t : bool then S taken else taken)
  end.

(** The bytes that arrive over a run. *)
Definition op_bytes (o : op) : list byte := match o with OpReadable evs => evs_bytes evs | _ => [] end.
Definition arrivals (ops : list op) : list byte := concat (op_bytes <$> ops).

(** Those the connection receives: none once it is lost. *)
Definition op_heard (o : op) (c : PgConn) : list byte := match o with OpReadable evs => if is_ready c then received evs else [] | _ => [] end.

Fixpoint heard (ops : list op) (c : PgConn) : list byte :=
  match ops with [] => [] | o :: ops => op_heard o c ++ match do_op o c with Ok (_, _, c') => heard ops c' | _ => [] end end.

(** The answer of the query whose reply the connection was lost in. *)
Definition lost_answer (cur : list msg) (c : PgConn) : answer :=
  match reply_error cur with Some e => if bool_decide (e_message e = []) then loss_error c else Failed e | None => loss_error c end.

(** What a call of [async_on_readable] answers on [c], the [n]-th query taken being the
    oldest one in flight, when [got] are the messages received and it leaves [c']. *)
Definition expected (got : list msg) (n : nat) (c c' : PgConn) : option answer :=
  match inflight c with
  | [] => if is_ready c' then None else Some (loss_error c')
  | _ =>
      match replies got !! n with
      | Some r => Some (reply_answer r)
      | None => if is_ready c' then None else Some (if decide (n = length (replies got)) then lost_answer (open_reply got) c' else loss_error c')
      end
  end.

Lemma flush_loop_spec evs c : recv_side (snd (flush_loop evs c)) = recv_side c /\ inflight (snd (flush_loop evs c)) = inflight c /\ inflight_cap (snd (flush_loop evs c)) = inflight_cap c /\ frame_ring (snd (flush_loop evs c)) = frame_ring c /\ (is_ready (snd (flush_loop evs c)) = true -> is_ready c = true).
Proof.
  revert c. induction evs as [|e evs IH]; intros c; cbn [flush_loop]; case_match; try done. destruct e as [n|why].
  - destruct (IH (c <| send_off := send_off c + Z.min (Z.pos n) (send_len c - send_off c) |>)) as (I1 & I2 & I3 & I4 & I5). by rewrite I1, I2, I3, I4.
  - change (snd _) with (lose why c). destruct (lose_spec why c) as (L1 & L2 & L3). injection L3 as L4 _ _ _ _ _ L5 _ L6 _. by rewrite L1, L2, L4, L5, L6.
Qed.

Lemma incomplete_not_msg m x : fits_int (enc_msg m ++ x) -> ~ incomplete_msg (enc_msg m ++ x).
Proof. intros Hf Hi. pose proof (next_message_at_msg _ Hf 0 m x (rest_whole _)) as E1. by rewrite (next_message_at_none _ Hf 0 _ (rest_whole _) Hi) in E1. Qed.

Section Stream.
Context (ms : list msg) (s : list byte).
Hypothesis Hs : incomplete_msg s.
Hypothesis Hsmall : len (enc_msgs ms ++ s) < 2 ^ 30.

(** The messages [dn] were framed, [rest] is received, and [future] is to come. *)
Record at_stream (dn : list msg) (rest future : list byte) (c : PgConn) : Prop := {
  as_stream : exists todo, ms = dn ++ todo /\ rest ++ future = enc_msgs todo ++ s;
  as_rest : rest_at (recv_buf c) (recv_pos c) rest;
  as_pos : recv_pos c <= len (enc_msgs dn)
}.

Lemma as_len dn rest future c : at_stream dn rest future c -> len (recv_buf c) + len future <= len (enc_msgs ms ++ s).
Proof. intros [(todo & -> & E) Hr Hp]. apply rest_bounds in Hr as [H0 <-]. assert (El : len (rest ++ future) = len (enc_msgs todo ++ s)) by (by rewrite E). rewrite !len_app in El. rewrite enc_msgs_app, !len_app. lia. Qed.

(** The front query accumulates the open reply. *)
Definition front_open (dn : list msg) (c : PgConn) : Prop :=
  match inflight c with [] => open_reply dn = [] | q :: qs => reflects (open_reply dn) q /\ Forall unanswered qs end.

Lemma open_from_suffix cur dn : exists a, cur ++ dn = a ++ open_from cur dn.
Proof.
  revert cur. induction dn as [|m dn IH]; intros cur; cbn [open_from]; [exists []; by rewrite app_nil_r|]. destruct (is_z m); [|destruct (IH (cur ++ [m])) as [a Ha]; exists a; by rewrite <- Ha, <- app_assoc].
  destruct (IH []) as [a Ha]. exists (cur ++ m :: a). rewrite <- app_assoc. cbn [app] in *. do 2 f_equal. exact Ha.
Qed.

Lemma open_fits dn todo : ms = dn ++ todo -> fits_int (enc_msgs (open_reply dn)).
Proof.
  intros E. destruct (open_from_suffix [] dn) as [a Ha]. cbn [app] in Ha. unfold open_reply, fits_int. rewrite E, Ha, !enc_msgs_app, !len_app in Hsmall. pose proof (len_nonneg (enc_msgs a)). pose proof (len_nonneg (enc_msgs todo)). pose proof (len_nonneg s). lia.
Qed.

Lemma todo_small dn todo : ms = dn ++ todo -> len (enc_msgs todo) < 2 ^ 30.
Proof. intros E. rewrite E, enc_msgs_app, !len_app in Hsmall. pose proof (len_nonneg (enc_msgs dn)). pose proof (len_nonneg s). lia. Qed.

(** One message framed into the front query. *)
Lemma frame_step f dn m todo rest future c q qs : at_stream dn (enc_msg m ++ rest) future c -> ms = dn ++ m :: todo -> rest ++ future = enc_msgs todo ++ s -> inflight c = q :: qs -> front_open dn c ->
  exists q' c1, at_stream (dn ++ [m]) rest future c1 /\ inflight c1 = q' :: qs /\ q_slot q' = q_slot q /\
    reflects (open_reply dn ++ [m]) q' /\ send_side c1 = send_side c /\ recv_buf c1 = recv_buf c /\ recv_cap c1 = recv_cap c /\ (is_ready c1 = true -> is_ready c = true) /\
    frame_loop (S f) c = if is_z m then '(q, c) ← pop_front c1; Ok (Some (finish q), c) else frame_loop f c1.
Proof.
  intros Has Ems Est Hi Ho. pose proof (as_len _ _ _ _ Has) as Hl. pose proof (len_nonneg future). destruct Has as [_ Hr Hpos]. unfold front_open in Ho. rewrite Hi in Ho. destruct Ho as [Hq _].
  assert (Hfit : fits_int (recv_buf c)) by (unfold fits_int; lia). destruct (on_message_spec m q qs c _ Hi Hq (open_fits _ _ Ems)) as (q1 & c1 & Em & Hi1 & Hslot & Hq1 & Hsend & Hrecv & Hready).
  unfold recv_side in Hrecv. injection Hrecv as Hb Hc Hp. set (c2 := upd_front (fun q => q <| q_frames := q_frames q ++ enc_msg m |>) c1).
  assert (Hu : recv_buf c2 = recv_buf c1 /\ recv_pos c2 = recv_pos c1 /\ recv_cap c2 = recv_cap c1 /\ send_side c2 = send_side c1 /\ is_ready c2 = is_ready c1 /\ inflight c2 = (q1 <| q_frames := q_frames q1 ++ enc_msg m |>) :: qs) by (unfold c2, upd_front; by rewrite Hi1).
  destruct Hu as (U1 & U2 & U3 & U4 & U5 & U6). exists (q1 <| q_frames := q_frames q1 ++ enc_msg m |>), (c2 <| recv_pos := recv_pos c2 + len (enc_msg m) |>).
  split. { split; [exists todo; by rewrite <- app_assoc | |]; cbn; [rewrite U1, Hb, U2, Hp; by apply rest_skip|]. rewrite U2, Hp, enc_msgs_app, len_app, (enc_msgs_cons m []), app_nil_r. lia. }
  split; [exact U6|]. split; [done|]. split; [done|]. split; [by rewrite <- Hsend|]. split; [cbn; by rewrite U1|]. split; [cbn; by rewrite U3|]. split; [intros Hrd; apply Hready; by rewrite <- U5|].
  cbn [frame_loop]. rewrite Hi. rewrite (next_message_at_msg _ Hfit _ _ _ Hr). cbn [mbind outcome_bind]. pose proof Hr as Hr0. unfold enc_msg in Hr0. cbn [app] in Hr0. rewrite (byte_rest _ _ _ _ Hr0). cbn [mbind outcome_bind total].
  apply (rest_skip _ _ [_]) in Hr0. rewrite <- app_assoc in Hr0. apply rest_skip in Hr0. change (len [m_typ m]) with 1 in Hr0. change (len (be4 _)) with 4 in Hr0. replace (recv_pos c + 1 + 4) with (recv_pos c + 5) in Hr0 by lia.
  replace (len (enc_msg m) - 5) with (len (m_body m)) by (rewrite len_enc_msg; lia). rewrite (slice_rest _ _ _ _ Hr0). cbn [mbind outcome_bind]. rewrite Em. cbn [mbind outcome_bind]. rewrite Hb, Hp, (slice_rest _ _ _ _ Hr). cbn [mbind outcome_bind]. done.
Qed.

(** The loop ends with the answer of the oldest query, when its reply is all there; else
    it has framed what is there. *)
Lemma frame_loop_spec f dn rest future c : at_stream dn rest future c -> front_open dn c -> (length rest < f)%nat ->
  exists a c' dn' rest', frame_loop f c = Ok (a, c') /\ at_stream dn' rest' future c' /\ front_open dn' c' /\ send_side c' = send_side c /\ recv_buf c' = recv_buf c /\ recv_cap c' = recv_cap c /\ (is_ready c' = true -> is_ready c = true) /\
    match a with
    | None => replies dn' = replies dn /\ q_slot <$> inflight c' = q_slot <$> inflight c /\ (inflight c' = [] \/ incomplete_msg rest')
    | Some a => exists r sl, replies dn' = replies dn ++ [r] /\ a = reply_answer r /\ q_slot <$> inflight c = sl :: (q_slot <$> inflight c')
    end.
Proof.
  revert dn rest c. induction f as [|f IH]; intros dn rest c Has Ho Hf; [lia|]. destruct (inflight c) as [|q qs] eqn:Hi.
  { exists None, c, dn, rest. cbn [frame_loop]. rewrite Hi. split_and!; try done. by left. }
  pose proof Has as [(todo & Ems & Est) Hr _]. destruct (cut_stream _ _ _ _ Hs (todo_small _ _ Ems) Est) as [(m & todo' & rest' & -> & -> & Est')|Hinc].
  - destruct (frame_step f dn m todo' rest' future c q qs Has Ems Est' Hi Ho) as (q' & c1 & Has1 & Hi1 & Hsl & Hq' & Hsd & Hb & Hc & Hrd & ->).
    unfold front_open in Ho. rewrite Hi in Ho. destruct (is_z m) eqn:Ez.
    + destruct (pop_front_spec c1 q' qs Hi1) as (c2 & -> & Hi2 & Hsd2 & Hrc2 & Hrd2 & _). cbn [mbind outcome_bind]. injection Hrc2 as Hb2 Hc2 Hp2. exists (Some (finish q')), c2, (dn ++ [m]), rest'. split; [done|].
      split. { destruct Has1 as [A1 A2 A3]. split; [done | by rewrite Hb2, Hp2 | by rewrite Hp2]. }
      split. { unfold front_open. rewrite Hi2. unfold open_reply. rewrite open_from_snoc, Ez. destruct qs; [done|]. destruct Ho as [_ Ho]. by inversion Ho. }
      split; [by rewrite Hsd2|]. split; [by rewrite Hb2|]. split; [by rewrite Hc2|]. split; [by rewrite Hrd2|]. exists (open_reply dn ++ [m]), (q_slot q). unfold replies. rewrite replies_from_snoc, Ez. split; [done|]. split; [by apply finish_reflects | by rewrite Hi2].
    + assert (Ho1 : front_open (dn ++ [m]) c1) by (unfold front_open, open_reply; rewrite Hi1, open_from_snoc, Ez; by split; [|apply Ho]).
      destruct (IH _ _ _ Has1 Ho1) as (a & c' & dn' & rest'' & E & H1 & H2 & H3 & H4 & H5 & H6 & H7); [rewrite length_app in Hf; unfold enc_msg in Hf; cbn [length] in Hf; lia|].
      exists a, c', dn', rest''. split; [done|]. split; [done|]. split; [done|]. split; [by rewrite H3|]. split; [by rewrite H4|]. split; [by rewrite H5|]. split; [auto|]. unfold replies in H7. rewrite replies_from_snoc, Ez, app_nil_r, Hi1 in H7. cbn [fmap list_fmap] in H7 |- *. by rewrite Hsl in H7.
  - exists None, c, dn, rest. cbn [frame_loop]. rewrite Hi. pose proof (as_len _ _ _ _ Has). pose proof (len_nonneg future). rewrite (next_message_at_none (recv_buf c) ltac:(unfold fits_int; lia) _ rest Hr Hinc). cbn [mbind outcome_bind]. split_and!; try done. by right.
Qed.

(** What was received: the complete messages, then an incomplete one. *)
Lemma cut_all dn rest future c : at_stream dn rest future c -> exists g s', rest = enc_msgs g ++ s' /\ incomplete_msg s' /\ (future = [] -> ms = dn ++ g).
Proof.
  intros [(todo & Ems & E) _ _]. pose proof Hsmall as Hl. rewrite Ems, enc_msgs_app, <- app_assoc, len_app in Hl. pose proof (len_nonneg (enc_msgs dn)).
  assert (H' : exists g s', rest = enc_msgs g ++ s' /\ incomplete_msg s' /\ (future = [] -> todo = g)); [|destruct H' as (g & s' & H1 & H2 & H3); exists g, s'; split; [done|]; split; [done|]; intros Hf; by rewrite Ems, (H3 Hf)].
  assert (Ht : len (enc_msgs todo ++ s) < 2 ^ 30) by lia. clear Ems Hl. revert rest E Ht. induction todo as [|m todo IH]; intros rest E Hl; pose proof Hl as Hl'; rewrite len_app in Hl'; pose proof (len_nonneg s) as Hns.
  - destruct (cut_stream [] s rest future Hs ltac:(lia) E) as [(m & x & y & E' & _)|Hi]; [done|]. by exists [], rest.
  - destruct (cut_stream (m :: todo) s rest future Hs ltac:(lia) E) as [(m' & todo' & rest' & E1 & -> & E2)|Hi].
    + injection E1 as <- <-. rewrite enc_msgs_cons, len_app in Hl'. pose proof (len_nonneg (enc_msg m)). destruct (IH rest' E2 ltac:(rewrite len_app; lia)) as (g & s' & -> & Hi & Hg).
      exists (m :: g), s'. rewrite enc_msgs_cons, <- app_assoc. split; [done|]. split; [done|]. intros Hf. by rewrite (Hg Hf).
    + exists [], rest. split; [done|]. split; [done|]. intros ->. exfalso. rewrite app_nil_r in E. subst rest. rewrite enc_msgs_cons, <- app_assoc in Hi, Hl. apply incomplete_not_msg in Hi; [done|]. unfold fits_int. lia.
Qed.

(** Where a run stands, [h] being what was received and [fut] what is still to arrive while
    the connection is up. *)
Definition standing (fut h : list byte) (c : PgConn) (ans : list answer) (taken : nat) : Prop :=
  slots_ok c /\ len (recv_buf c) <= recv_cap c /\ taken = (length ans + length (inflight c))%nat /\
  exists dn rest future lost, at_stream dn rest future c /\ ((is_ready c = true -> future = fut) /\ h = enc_msgs dn ++ rest) /\ ans = (reply_answer <$> replies dn) ++ lost /\
    ((lost = [] /\ front_open dn c) \/ (is_ready c = false /\ incomplete_msg rest /\ exists k, lost = lost_answer (open_reply dn) c :: replicate k (loss_error c) /\ Forall unanswered (inflight c))).

Lemma loss_error_kept c c' : fatal c' = fatal c -> loss c' = loss c -> loss_error c' = loss_error c.
Proof. unfold loss_error. by intros -> ->. Qed.

Lemma lost_answer_kept cur c c' : loss_error c' = loss_error c -> lost_answer cur c' = lost_answer cur c.
Proof. unfold lost_answer. by intros ->. Qed.

Lemma at_stream_side dn rest future c c' : recv_side c' = recv_side c -> at_stream dn rest future c -> at_stream dn rest future c'.
Proof. intros E [A1 A2 A3]. injection E as E1 E2 E3. split; [done | by rewrite E1, E3 | by rewrite E3]. Qed.

Lemma standing_kept fut h c c' ans taken : kept c c' -> standing fut h c ans taken -> standing fut h c' ans taken.
Proof.
  intros (K1 & K2 & K3 & K4 & K5 & K6 & K7) (S1 & S2 & S3 & dn & rest & future & lost & A & B & C & D). assert (Erd : is_ready c' = is_ready c) by (unfold is_ready; by rewrite K2). pose proof (loss_error_kept c c' K3 K4) as El.
  split; [apply (slots_kept c); congruence|]. split; [injection K1 as -> -> _; done|]. split; [by rewrite K5|]. exists dn, rest, future, lost. rewrite Erd. split; [by apply (at_stream_side _ _ _ c)|]. split; [done|]. split; [done|].
  unfold front_open. rewrite K5, El, (lost_answer_kept _ _ _ El). exact D.
Qed.

Lemma standing_took fut h c c' ans taken : took c c' -> standing fut h c ans taken -> standing fut h c' ans (S taken).
Proof.
  intros T (S1 & S2 & S3 & dn & rest & future & lost & A & B & C & D). pose proof (slots_took _ _ S1 T) as S1'. destruct T as (K1 & K2 & K3 & K4 & K5 & Hrd & Hn & Ei & Er). assert (Erd : is_ready c' = is_ready c) by (unfold is_ready; by rewrite K2).
  split; [done|]. split; [injection K1 as -> -> _; done|]. split; [rewrite Ei, length_app; cbn [length]; lia|]. exists dn, rest, future, lost. rewrite Erd. split; [by apply (at_stream_side _ _ _ c)|]. split; [done|]. split; [done|]. left.
  destruct D as [[-> Ho]|[D _]]; [|congruence]. split; [done|]. unfold front_open in *. rewrite Ei. destruct (inflight c) as [|q qs]; cbn [app].
  - by rewrite Ho.
  - destruct Ho as [Hq Hqs]. split; [done|]. apply Forall_app. split; [done | by repeat constructor].
Qed.

Lemma standing_flush fut h c evs ans taken : standing fut h c ans taken -> standing fut h (snd (async_flush evs c)) ans taken.
Proof.
  unfold async_flush, is_broken. destruct (is_ready c) eqn:Er; cbn [negb snd]; [|done]. intros (S1 & S2 & S3 & dn & rest & future & lost & A & B & C & D). destruct (flush_loop_spec evs c) as (K1 & K2 & K3 & K4 & K5). set (c' := snd (flush_loop evs c)) in *. clearbody c'.
  split; [apply (slots_kept c); congruence|]. split; [injection K1 as -> -> _; done|]. split; [by rewrite K2|]. exists dn, rest, future, lost. split; [by apply (at_stream_side _ _ _ c)|]. split; [split; [intros H; by apply B, K5 | apply B]|]. split; [done|]. left. destruct D as [[-> Ho]|[D _]]; [|congruence]. split; [done|]. unfold front_open. by rewrite K2.
Qed.

(** The receive buffer rewound when all of it was framed. *)
Definition rewound (c : PgConn) : PgConn := if (0 <? recv_pos c) && (len (recv_buf c) <=? recv_pos c) then c <| recv_pos := 0 |> <| recv_buf := [] |> else c.

Lemma rewound_spec dn rest future c : at_stream dn rest future c -> len (recv_buf c) <= recv_cap c ->
  at_stream dn rest future (rewound c) /\ len (recv_buf (rewound c)) <= recv_cap (rewound c) /\ pipe_side (rewound c) = pipe_side c /\ state (rewound c) = state c /\ loss (rewound c) = loss c.
Proof.
  intros [A1 A2 A3] Hc. unfold rewound. destruct (Z.ltb_spec 0 (recv_pos c)); [|done]. destruct (Z.leb_spec (len (recv_buf c)) (recv_pos c)) as [Hle|]; [|done]. cbn [andb]. pose proof (rest_bounds _ _ _ A2) as [_ Hb]. pose proof (len_nonneg (recv_buf c)). pose proof (len_nonneg (enc_msgs dn)).
  assert (Er : rest = []) by (destruct rest; [done|]; rewrite len_cons in Hb; pose proof (len_nonneg rest); lia). split; [split; [done | rewrite Er; apply rest_whole | done]|]. split; [cbn; change (len (@nil byte)) with 0; lia | done].
Qed.

Lemma fill_fuel_pos evs : exists f, fill_fuel evs = S f.
Proof. destruct evs as [|[]]; cbn; eauto. Qed.

(** Receiving moves bytes from the future to the buffer. *)
Lemma fill_stream evs fut dn rest future c : at_stream dn rest future c -> len (recv_buf c) <= recv_cap c -> (is_ready c = true -> future = evs_bytes evs ++ fut) ->
  exists c1 rest1 future1, fill_recv_buf evs c = Ok c1 /\ at_stream dn rest1 future1 c1 /\ len (recv_buf c1) <= recv_cap c1 /\ (is_ready c1 = true -> future1 = fut) /\ pipe_side c1 = pipe_side c /\ rest1 = rest ++ (if is_ready c then received evs else []) /\ (is_ready c = false -> c1 = c) /\ (is_ready c1 = true -> is_ready c = true).
Proof.
  intros A Hc Hf. pose proof (as_len _ _ _ _ A) as Hl. unfold fill_recv_buf. destruct (is_ready c) eqn:Er.
  - rewrite (Hf eq_refl) in *. clear Hf. rewrite len_app in Hl. pose proof (len_nonneg fut). destruct A as [(todo & Ems & Est) A2 A3]. destruct (fill_loop_spec (fill_fuel evs) evs c rest A2 Hc ltac:(lia) ltac:(done)) as (c1 & got & more & E & F1 & F2 & F3 & F4 & F5 & F6 & F7 & _).
    exists c1, (rest ++ got), (more ++ fut). split; [done|]. split; [split; [exists todo; split; [done|]; by rewrite <- Est, F4, <- !app_assoc | done | lia]|]. split; [done|]. split; [by intros H1; apply F6 in H1 as [-> _]|]. split; [done|]. rewrite Er in F7. by rewrite F7.
  - exists c, rest, future. destruct (fill_fuel_pos evs) as [f ->]. cbn [fill_loop]. rewrite Er, app_nil_r. cbn [negb]. split_and!; try done.
Qed.

(** The end of [async_on_readable], once the loop has no more messages for the front query. *)
Definition settle (c : PgConn) : outcome (option answer * PgConn) :=
  if is_broken c then
    match inflight c with
    | [] => Ok (Some (loss_error c), c)
    | _ => '(q, c) ← pop_front c; Ok (Some (if negb (bool_decide (q_error q = [])) then Failed (pg_error q) else loss_error c), c)
    end
  else Ok (None, c).

Lemma on_readable_unfold evs c : async_on_readable evs c = (c ← fill_recv_buf evs (rewound c); '(a, c) ← frame_loop (S (length (recv_buf c))) c; match a with Some a => Ok (Some a, c) | None => settle c end).
Proof. done. Qed.

Lemma settle_front c q qs cur : is_ready c = false -> inflight c = q :: qs -> reflects cur q ->
  exists c', settle c = Ok (Some (lost_answer cur c'), c') /\ inflight c' = qs /\ send_side c' = send_side c /\ recv_side c' = recv_side c /\ is_ready c' = false /\ loss_error c' = loss_error c.
Proof.
  intros Hrd Hi (_ & _ & He). unfold settle, is_broken. rewrite Hrd, Hi. cbn [negb]. destruct (pop_front_spec c q qs Hi) as (c' & -> & P1 & P2 & P3 & P4 & P5 & P6). cbn [mbind outcome_bind]. exists c'. split; [|rewrite P4, (loss_error_kept c c' P5 P6); done].
  assert (Em : q_error q = e_message (pg_error q)) by done. rewrite Em, He. unfold lost_answer. destruct (reply_error cur) as [e|]; [|done]. cbn [default]. by destruct (bool_decide _).
Qed.

Lemma slots_same_length {c c'} : q_slot <$> inflight c' = q_slot <$> inflight c -> length (inflight c') = length (inflight c).
Proof. intros E. by rewrite <- (length_fmap q_slot (inflight c')), E, length_fmap. Qed.

Lemma side_slots {c c'} : send_side c' = send_side c -> inflight_cap c' = inflight_cap c /\ frame_ring c' = frame_ring c.
Proof. intros E. by injection E. Qed.

(** The answer of a call on [c] that leaves [c'], after [n] answers, the bytes [h] received and [fut] to come. *)
Definition judged (fut h : list byte) (n : nat) (c : PgConn) (a : option answer) (c' : PgConn) : Prop :=
  exists got s', h = enc_msgs got ++ s' /\ incomplete_msg s' /\ (is_ready c' = true -> fut = [] -> got = ms) /\ a = expected got n c c'.

(** The answers of a call, while no query has been failed by a loss. *)
Definition call_answer (c : PgConn) (a : option answer) : option answer := match inflight c with [] => None | _ => a end.

Lemma replies_prefix cur a b : replies_from cur (a ++ b) = replies_from cur a ++ replies_from (open_from cur a) b.
Proof. revert cur. induction a as [|m a IH]; intros cur; [done|]. cbn [app replies_from open_from]. destruct (is_z m); [cbn [app]; f_equal|]; apply IH. Qed.

Lemma arrived_all dn rest c : at_stream dn rest [] c -> incomplete_msg rest -> ms = dn.
Proof.
  intros A Hinc. pose proof (as_len _ _ _ _ A) as Hl. destruct A as [(todo & -> & E) Hr _]. rewrite app_nil_r in E. destruct todo as [|m todo]; [by rewrite app_nil_r|]. exfalso. rewrite enc_msgs_cons, <- app_assoc in E. apply rest_bounds in Hr as [H0 Hb]. change (len (@nil byte)) with 0 in Hl.
  rewrite E in Hinc, Hb. apply incomplete_not_msg in Hinc; [done|]. unfold fits_int. lia.
Qed.

Lemma stream_heard dn rest future c dn' rest' c' : at_stream dn rest future c -> at_stream dn' rest' future c' -> enc_msgs dn' ++ rest' = enc_msgs dn ++ rest.
Proof.
  intros [(todo & E1 & E2) _ _] [(todo' & E1' & E2') _ _]. apply (app_inv_tail future). rewrite <- !app_assoc, E2, E2', !app_assoc, <- !enc_msgs_app. congruence.
Qed.

(** The reply was there. *)
Lemma judged_reply fut dn rest future c c' dn' rest' r : at_stream dn rest future c -> (is_ready c' = true -> future = fut) -> at_stream dn' rest' future c' -> inflight c <> [] -> replies dn' = replies dn ++ [r] ->
  judged fut (enc_msgs dn ++ rest) (length (replies dn)) c (Some (reply_answer r)) c'.
Proof.
  intros A B A' Hne Er. destruct (cut_all _ _ _ _ A') as (g & s' & Eg & Hi & Hg). exists (dn' ++ g), s'. rewrite <- (stream_heard _ _ _ _ _ _ _ A A'), enc_msgs_app, <- app_assoc, Eg. split; [done|]. split; [done|]. split; [intros Hr ->; symmetry; by apply Hg, B|].
  unfold expected. destruct (inflight c); [done|]. unfold replies in *. rewrite replies_prefix, Er, <- app_assoc. cbn [app]. by rewrite list_lookup_middle.
Qed.

(** It was not, or no query waits for one. *)
Lemma judged_none fut dn rest future c c' dn' rest' a : at_stream dn rest future c -> (is_ready c' = true -> future = fut) -> at_stream dn' rest' future c' -> replies dn' = replies dn ->
  (if is_ready c' then a = None else inflight c <> [] -> a = Some (lost_answer (open_reply dn') c')) ->
  (inflight c <> [] -> incomplete_msg rest') -> (inflight c = [] -> is_ready c' = false -> a = Some (loss_error c')) -> judged fut (enc_msgs dn ++ rest) (length (replies dn)) c a c'.
Proof.
  intros A B A' Er Ha Hi Hidle. rewrite <- (stream_heard _ _ _ _ _ _ _ A A'). destruct (inflight c) as [|q qs] eqn:Ec.
  - destruct (cut_all _ _ _ _ A') as (g & s' & Eg & Hi' & Hg). exists (dn' ++ g), s'. rewrite enc_msgs_app, <- app_assoc, Eg. split; [done|]. split; [done|]. split; [intros Hr ->; symmetry; by apply Hg, B|].
    unfold expected. rewrite Ec. destruct (is_ready c'); [done | by apply Hidle].
  - exists dn', rest'. split; [done|]. split; [by apply Hi|]. split; [intros Hr ->; symmetry; rewrite (B Hr) in A'; by apply (arrived_all _ rest' c'), Hi|].
    unfold expected. rewrite Ec, Er, lookup_ge_None_2 by done. rewrite decide_True by done. destruct (is_ready c'); [done | by apply Ha].
Qed.

Lemma readable_up fut c dn rest future taken : slots_ok c -> len (recv_buf c) <= recv_cap c -> taken = (length (replies dn) + length (inflight c))%nat ->
  at_stream dn rest future c -> (is_ready c = true -> future = fut) -> front_open dn c ->
  exists a c', ('(a, c) ← frame_loop (S (length (recv_buf c))) c; match a with Some a => Ok (Some a, c) | None => settle c end) = Ok (a, c') /\
    standing fut (enc_msgs dn ++ rest) c' ((reply_answer <$> replies dn) ++ option_list (call_answer c a)) taken /\ judged fut (enc_msgs dn ++ rest) (length (replies dn)) c a c'.
Proof.
  intros S1 S2 S3 A B Ho. assert (Hfuel : (length rest < S (length (recv_buf c)))%nat) by (destruct A as [_ (x & Ex & _) _]; rewrite Ex, length_app; lia).
  destruct (frame_loop_spec _ _ _ _ _ A Ho Hfuel) as (a & c2 & dn' & rest' & -> & A' & Ho' & Hsd & Hb & Hcp & Hrd & Ha). cbn [mbind outcome_bind]. destruct (side_slots Hsd) as [Hcap Hring]. pose proof (stream_heard _ _ _ _ _ _ _ A A') as Hh. destruct a as [a|].
  - destruct Ha as (r & sl & Er & -> & Esl). exists (Some (reply_answer r)), c2. split; [done|]. assert (Hne : inflight c <> []) by (intros E; by rewrite E in Esl). assert (Hlen : length (inflight c) = S (length (inflight c2))) by (rewrite <- (length_fmap q_slot (inflight c)), Esl; cbn; by rewrite length_fmap).
    assert (Ec : call_answer c (Some (reply_answer r)) = Some (reply_answer r)) by (unfold call_answer; by destruct (inflight c)). rewrite Ec. split; [|by apply (judged_reply fut dn rest future c c2 dn' rest'); auto].
    split; [by apply (slots_popped c c2 sl)|]. split; [by rewrite Hb, Hcp|]. split; [rewrite length_app, length_fmap; change (length (option_list (Some _))) with 1%nat; lia|]. exists dn', rest', future, []. split; [done|]. split; [split; [auto | by rewrite Hh]|]. split; [by rewrite Er, fmap_app, app_nil_r|]. by left.
  - destruct Ha as (Er & Esl & Hd). pose proof (slots_same_length Esl) as Hlen. assert (Hs2 : slots_ok c2) by (by apply (slots_kept c)). assert (Hinc : inflight c <> [] -> incomplete_msg rest').
    { intros Hne. destruct Hd as [E|]; [|done]. destruct (inflight c); [done|]. by rewrite E in Hlen. }
    destruct (is_ready c2) eqn:Er2.
    { exists None, c2. split; [unfold settle, is_broken; by rewrite Er2|]. assert (Ec : call_answer c None = None) by (unfold call_answer; by destruct (inflight c)). rewrite Ec. change (option_list None) with (@nil answer). rewrite app_nil_r. split.
      { split; [done|]. split; [by rewrite Hb, Hcp|]. split; [rewrite length_fmap; lia|]. exists dn', rest', future, []. split; [done|]. split; [split; [auto | by rewrite Hh]|]. split; [by rewrite Er, app_nil_r|]. by left. }
      apply (judged_none fut dn rest future c c2 dn' rest'); auto; rewrite Er2; auto; congruence. }
    destruct (inflight c2) as [|q qs] eqn:Ei.
    + assert (Ei0 : inflight c = []) by (by destruct (inflight c)). exists (Some (loss_error c2)), c2. split; [unfold settle, is_broken; by rewrite Er2, Ei|]. unfold call_answer. rewrite Ei0. change (option_list None) with (@nil answer). rewrite app_nil_r. split.
      { split; [done|]. split; [by rewrite Hb, Hcp|]. split; [rewrite length_fmap, Ei; rewrite Ei0 in S3; done|]. exists dn', rest', future, []. split; [done|]. split; [split; [congruence | by rewrite Hh]|]. split; [by rewrite Er, app_nil_r|]. by left. }
      apply (judged_none fut dn rest future c c2 dn' rest'); auto; rewrite Er2; [done | by rewrite Ei0].
    + unfold front_open in Ho'. rewrite Ei in Ho'. cbn [length] in Hlen. destruct Ho' as [Hq Hqs]. destruct (settle_front c2 q qs _ Er2 Ei Hq) as (c3 & -> & G1 & G2 & G3 & G4 & G5). exists (Some (lost_answer (open_reply dn') c3)), c3. split; [done|].
      assert (Hne : inflight c <> []) by (by destruct (inflight c)). assert (Ec : call_answer c (Some (lost_answer (open_reply dn') c3)) = Some (lost_answer (open_reply dn') c3)) by (unfold call_answer; by destruct (inflight c)). rewrite Ec.
      assert (A3 : at_stream dn' rest' future c3) by (by apply (at_stream_side _ _ _ c2)). split; [|apply (judged_none fut dn rest future c c3 dn' rest'); auto; rewrite G4; done].
      destruct (side_slots G2) as [Hcap3 Hring3]. split; [apply (slots_popped c2 c3 (q_slot q)); [done..|]; by rewrite Ei, G1|]. split; [injection G3 as -> -> _; by rewrite Hb, Hcp|]. split; [rewrite length_app, length_fmap, G1; change (length (option_list (Some _))) with 1%nat; cbn [length] in Hlen; lia|].
      exists dn', rest', future, [lost_answer (open_reply dn') c3]. split; [done|]. split; [split; [congruence | by rewrite Hh]|]. split; [by rewrite Er|]. right. split; [done|]. split; [by apply Hinc|]. exists 0%nat. by rewrite G1.
Qed.

(** After a query has been failed by a loss, only losses follow. *)
Lemma readable_down fut c dn rest future lost k taken : slots_ok c -> len (recv_buf c) <= recv_cap c -> taken = (length (replies dn) + length lost + length (inflight c))%nat ->
  at_stream dn rest future c -> is_ready c = false -> incomplete_msg rest -> lost = lost_answer (open_reply dn) c :: replicate k (loss_error c) -> Forall unanswered (inflight c) ->
  exists a c', ('(a, c) ← frame_loop (S (length (recv_buf c))) c; match a with Some a => Ok (Some a, c) | None => settle c end) = Ok (a, c') /\
    standing fut (enc_msgs dn ++ rest) c' ((reply_answer <$> replies dn) ++ lost ++ option_list (call_answer c a)) taken /\ judged fut (enc_msgs dn ++ rest) (length (replies dn) + length lost) c a c'.
Proof.
  intros S1 S2 S3 A Hrd Hinc Hlost Hun. assert (Hj : forall c', is_ready c' = false -> judged fut (enc_msgs dn ++ rest) (length (replies dn) + length lost) c (Some (loss_error c')) c').
  { intros c' Hr. exists dn, rest. split; [done|]. split; [done|]. split; [congruence|]. unfold expected. rewrite Hr. destruct (inflight c); [done|]. rewrite Hlost. cbn [length]. rewrite lookup_ge_None_2 by lia. by rewrite decide_False by lia. }
  cbn [frame_loop]. unfold call_answer. destruct (inflight c) as [|q qs] eqn:Ei.
  - cbn [mbind outcome_bind]. exists (Some (loss_error c)), c. unfold settle, is_broken. rewrite Hrd, Ei. cbn [negb]. split; [done|]. split; [|by apply Hj]. change (option_list None) with (@nil answer). rewrite app_nil_r. split; [done|]. split; [done|]. split; [rewrite length_app, length_fmap, Ei; cbn [length] in *; lia|].
    exists dn, rest, future, lost. split; [done|]. split; [split; [congruence | done]|]. split; [done|]. right. split; [done|]. split; [done|]. exists k. by rewrite Ei.
  - pose proof (as_len _ _ _ _ A). pose proof (len_nonneg future). pose proof (as_rest _ _ _ _ A) as Hr. rewrite (next_message_at_none (recv_buf c) ltac:(unfold fits_int; lia) _ rest Hr Hinc). cbn [mbind outcome_bind]. apply Forall_cons in Hun as [Hq Hqs].
    destruct (settle_front c q qs [] Hrd Ei Hq) as (c' & -> & G1 & G2 & G3 & G4 & G5). exists (Some (lost_answer [] c')), c'. split; [done|]. split; [|by apply Hj]. destruct (side_slots G2) as [Hcap Hring]. change (lost_answer [] c') with (loss_error c').
    split; [apply (slots_popped c c' (q_slot q)); [done..|]; by rewrite Ei, G1|]. split; [injection G3 as -> -> _; done|]. split; [rewrite !length_app, length_fmap, G1; change (length (option_list (Some _))) with 1%nat; cbn [length] in *; lia|].
    exists dn, rest, future, (lost ++ [loss_error c']). split; [by apply (at_stream_side _ _ _ c)|]. split; [split; [congruence | done]|]. split; [done|]. right. split; [done|]. split; [done|]. exists (S k). rewrite G1. split; [|done]. rewrite Hlost, (lost_answer_kept _ c c' G5), G5. cbn [app]. f_equal. by rewrite <- replicate_cons_app.
Qed.

(** One call of [async_on_readable]. *)
Lemma standing_readable evs fut h c ans taken : standing (evs_bytes evs ++ fut) h c ans taken ->
  exists a c', async_on_readable evs c = Ok (a, c') /\ standing fut (h ++ op_heard (OpReadable evs) c) c' (ans ++ option_list (call_answer c a)) taken /\
    judged fut (h ++ op_heard (OpReadable evs) c) (length ans) c a c'.
Proof.
  intros (S1 & S2 & S3 & dn & rest & future & lost & A & [B ->] & C & D). rewrite on_readable_unfold. destruct (rewound_spec _ _ _ _ A S2) as (A0 & S20 & P0 & St0 & L0). assert (Er0 : is_ready (rewound c) = is_ready c) by (unfold is_ready; by rewrite St0). rewrite <- Er0 in B.
  destruct (fill_stream evs fut dn rest future (rewound c) A0 S20 B) as (c1 & rest1 & future1 & -> & A1 & S21 & B1 & P1 & H1 & F1 & R1). cbn [mbind outcome_bind op_heard]. rewrite P0 in P1. injection P1 as Ei1 Ef1 E1 E2 E3 E4 Ecap1 E6 Ering1 E8. rewrite Er0 in H1. rewrite <- app_assoc, <- H1.
  assert (S11 : slots_ok c1) by (apply (slots_kept c); congruence). assert (Eca : forall a, call_answer c a = call_answer c1 a) by (intros a; unfold call_answer; by rewrite Ei1).
  assert (Ej : forall x y n a c', judged x y n c1 a c' -> judged x y n c a c') by (intros x y n a c'; unfold judged, expected; by rewrite Ei1). destruct D as [[-> Ho]|(Hrd & Hinc & k & Hlost & Hun)].
  - rewrite app_nil_r in C. subst ans. rewrite length_fmap in *. assert (Ho1 : front_open dn c1) by (unfold front_open; by rewrite Ei1). destruct (readable_up fut c1 dn rest1 future1 taken S11 S21 ltac:(by rewrite Ei1) A1 B1 Ho1) as (a & c' & E & St & J).
    exists a, c'. rewrite Eca. split; [done|]. split; [done|]. by apply Ej.
  - rewrite <- Er0 in Hrd. rewrite (F1 Hrd) in *. rewrite Er0 in Hrd. rewrite Hrd, app_nil_r in H1. subst rest1. rewrite <- Er0 in Hrd. assert (El : loss_error (rewound c) = loss_error c) by (by apply loss_error_kept).
    destruct (readable_down fut (rewound c) dn rest future1 lost k taken S11 S21 ltac:(rewrite S3, C, length_app, length_fmap, Ei1; lia) A1 Hrd Hinc ltac:(by rewrite (lost_answer_kept _ _ _ El), El) ltac:(by rewrite Ei1)) as (a & c' & E & St & J).
    exists a, c'. rewrite Eca, C, <- app_assoc. split; [done|]. split; [done|]. rewrite length_app, length_fmap. by apply Ej.
Qed.

Lemma submitted_standing {A} (yes : A -> Prop) (t : A -> bool) fut h c (o : outcome (A * PgConn)) ans taken : (forall a, yes a <-> t a = true) -> submitted yes c o -> standing fut h c ans taken ->
  exists b c', ('(r, c) ← o; Ok (t r, None, c)) = Ok (b, @None answer, c') /\ standing fut h c' ans (if b : bool then S taken else taken).
Proof.
  intros Ht (a & c' & -> & H) St. cbn [mbind outcome_bind]. exists (t a), c'. split; [done|]. destruct (t a) eqn:E; destruct H as [[Hy H]|[Hy H]].
  - by apply (standing_took _ _ c).
  - by apply Ht in E.
  - apply Ht in Hy. congruence.
  - by apply (standing_kept _ _ c).
Qed.

Lemma standing_op o fut h c ans taken : standing (op_bytes o ++ fut) h c ans taken -> exists b a c', do_op o c = Ok (b, a, c') /\ standing fut (h ++ op_heard o c) c' (ans ++ option_list a) (if b : bool then S taken else taken).
Proof.
  intros St. destruct (proj1 St) as [Hring _]. assert (Hn : forall b c', standing fut h c' ans (if b : bool then S taken else taken) -> standing fut (h ++ []) c' (ans ++ option_list None) (if b then S taken else taken)) by (intros b c'; change (option_list None) with (@nil answer); by rewrite !app_nil_r).
  destruct o as [q ps|stmts|q ps|stmts|evs|evs]; cbn [do_op op_heard].
  - destruct (submitted_standing (fun e : option refusal => e = None) (fun r => match r with None => true | Some _ => false end) _ _ _ _ _ _ ltac:(intros []; by split) (submit_submitted q ps c Hring) St) as (b & c' & E & St'). exists b, None, c'. split; [done | by apply Hn].
  - destruct (submitted_standing (fun e : option refusal => e = None) (fun r => match r with None => true | Some _ => false end) _ _ _ _ _ _ ltac:(intros []; by split) (submit_batch_submitted stmts c Hring) St) as (b & c' & E & St'). exists b, None, c'. split; [done | by apply Hn].
  - destruct (submitted_standing (fun b => b = true) (fun r => r) _ _ _ _ _ _ ltac:(done) (async_submit_submitted q ps c Hring) St) as (b & c' & E & St'). exists b, None, c'. split; [done | by apply Hn].
  - destruct (submitted_standing (fun r : refusal + bool => r = inr true) (fun r => match r with inr b => b | inl _ => false end) _ _ _ _ _ _ ltac:(intros [|[]]; split; congruence) (async_batch_submitted stmts c Hring) St) as (b & c' & E & St'). exists b, None, c'. split; [done | by apply Hn].
  - exists false, None, (snd (async_flush evs c)). split; [done|]. apply (Hn false). by apply standing_flush.
  - destruct (standing_readable evs fut h c ans taken St) as (a & c' & -> & St' & _). cbn [mbind outcome_bind]. by exists false, (call_answer c a), c'.
Qed.

Lemma standing_run ops fut h c ans taken : standing (arrivals ops ++ fut) h c ans taken -> exists c' ans' taken', run ops c ans taken = Ok (c', ans', taken') /\ standing fut (h ++ heard ops c) c' ans' taken'.
Proof.
  revert h c ans taken. induction ops as [|o ops IH]; intros h c ans taken St; [exists c, ans, taken; by rewrite app_nil_r|]. unfold arrivals in St. cbn [fmap list_fmap concat] in St. rewrite <- app_assoc in St. destruct (standing_op o _ _ _ _ _ St) as (b & a & c' & E & St'). cbn [run heard]. rewrite E. cbn [mbind outcome_bind]. rewrite app_assoc. by apply IH.
Qed.
End Stream.

Lemma heard_snoc ops o c ans taken c' ans' taken' : run ops c ans taken = Ok (c', ans', taken') -> heard (ops ++ [o]) c = heard ops c ++ op_heard o c'.
Proof.
  revert c ans taken. induction ops as [|x ops IH]; intros c ans taken; cbn [run heard app]; [intros [= <- _ _]; destruct (do_op o c) as [[[? ?] ?]| |]; by rewrite app_nil_r|].
  destruct (do_op x c) as [[[b a] c1]| |]; cbn [mbind outcome_bind]; try done. intros H. by rewrite (IH _ _ _ H), app_assoc.
Qed.

(** A session that has just come up: nothing received, nothing in flight. *)
Definition connected (c : PgConn) : Prop :=
  is_ready c = true /\ recv_buf c = [] /\ recv_pos c = 0 /\ 0 <= recv_cap c /\ inflight c = [] /\ 0 <= frame_ring c < inflight_limit c.

Lemma connected_standing ms s fut c : connected c -> fut = enc_msgs ms ++ s -> standing ms s fut [] c [] 0.
Proof.
  intros (H1 & H2 & H3 & H4 & H5 & H6) ->. split; [unfold slots_ok; rewrite H5; split; [done|]; split; [change (len (@nil PendingQuery)) with 0; lia | done]|]. rewrite H2, H5. split; [done|]. split; [done|].
  exists [], [], (enc_msgs ms ++ s), []. split; [|split; [done|]; split; [done|]; left; split; [done|]; unfold front_open; by rewrite H5]. split; [by exists ms | rewrite H2, H3; apply rest_whole | by rewrite H3].
Qed.

(** C5: Replies answer queries in the order they were submitted. Whatever a connection's
    users and its socket do, in any order (queries and batches submitted, the send buffer
    flushed, replies received in any pieces, the connection lost at any point), the call
    sequence never fails, and the answers given are those of the replies at the front of
    the stream of messages, cut at each ReadyForQuery: each query's own result, or its own
    error, so that an error never reaches another query. Once the connection is lost and
    what was received is used up, the query whose reply was cut short fails, with its own
    error if that had arrived, and each one behind it fails with the reason of the loss.
    Every query taken is answered once or still in flight, no more are in flight than the
    limit, and no two of them share a reply buffer. *)
Theorem replies_answer_in_order ops c0 ms s :
  connected c0 -> arrivals ops = enc_msgs ms ++ s -> incomplete_msg s -> len (arrivals ops) < 2 ^ 30 ->
  exists c ans taken, run ops c0 [] 0 = Ok (c, ans, taken) /\ taken = (length ans + length (inflight c))%nat /\
    len (inflight c) <= inflight_limit c /\ NoDup (q_slot <$> inflight c) /\
    exists dn todo lost, ms = dn ++ todo /\ ans = (reply_answer <$> replies dn) ++ lost /\
      (lost = [] \/ (is_broken c = true /\ exists k, lost = lost_answer (open_reply dn) c :: replicate k (loss_error c))).
Proof.
  intros Hc Ha Hs Hl. rewrite Ha in Hl. destruct (standing_run ms s Hs Hl ops [] [] c0 [] 0) as (c & ans & taken & E & S1 & S2 & S3 & dn & rest & future & lost & A & _ & C & D); [rewrite app_nil_r; by apply connected_standing|].
  exists c, ans, taken. split; [done|]. split; [done|]. split; [apply S1|]. split; [by apply slots_distinct|]. destruct (as_stream _ _ _ _ _ _ A) as (todo & Ems & _). exists dn, todo, lost. split; [done|]. split; [done|]. destruct D as [[-> _]|(Hr & _ & k & -> & _)]; [by left|]. right. unfold is_broken. rewrite Hr. split; [done|]. by exists k.
Qed.

(** C20: A reply that has arrived is delivered. After any run, a call of
    [async_on_readable] answers with the reply of the oldest query in flight exactly when that
    is complete in what the connection has received ([heard]: everything that arrived before
    it was lost), also when the connection is lost by then. When it is not complete, the call
    says "not ready" on a connection that is up; on a lost one it fails the query, with its
    own error if that had arrived and with the reason of the loss otherwise. With nothing in
    flight it says "not ready", or the reason of the loss. *)
Theorem arrived_reply_delivered ops evs c0 c ans taken ms s :
  connected c0 -> arrivals (ops ++ [OpReadable evs]) = enc_msgs ms ++ s -> incomplete_msg s -> len (enc_msgs ms ++ s) < 2 ^ 30 -> run ops c0 [] 0 = Ok (c, ans, taken) ->
  exists a c' got s', async_on_readable evs c = Ok (a, c') /\
    heard (ops ++ [OpReadable evs]) c0 = enc_msgs got ++ s' /\ incomplete_msg s' /\ (is_ready c' = true -> got = ms) /\
    a = expected got (length ans) c c'.
Proof.
  intros Hc Ha Hs Hl Hrun. unfold arrivals in Ha. rewrite fmap_app, concat_app in Ha. cbn [fmap list_fmap concat op_bytes] in Ha. rewrite app_nil_r in Ha. destruct (standing_run ms s Hs Hl ops (evs_bytes evs) [] c0 [] 0) as (c1 & ans1 & taken1 & E & St); [by apply connected_standing|].
  pose proof (heard_snoc ops (OpReadable evs) _ _ _ _ _ _ Hrun) as Eh. rewrite Hrun in E. injection E as <- <- <-. rewrite <- (app_nil_r (evs_bytes evs)) in St. destruct (standing_readable ms s Hs Hl evs [] _ c ans taken St) as (a & c' & E & _ & got & s' & H1 & H2 & H3 & H4).
  exists a, c', got, s'. split; [done|]. split; [by rewrite Eh|]. split; [done|]. split; [auto | done].
Qed.

(** *** A run of two queries *)

Definition demo_conn : PgConn := mkConn ready (mkPgError [] [] [] 0) [] [] 0 0 send_buf_cap 0 0 [] [] 2 tx_idle [] 0 send_buf_cap.

Lemma demo_connected : connected demo_conn.
Proof. by vm_compute. Qed.

Definition z_msg : msg := mkMsg bt_ready_for_query [tx_idle].
Definition e_msg (sev code text : string) : msg :=
  mkMsg bt_error_response (byte_of_Z 83 :: cstr (bytes_of sev) ++ byte_of_Z 67 :: cstr (bytes_of code) ++ byte_of_Z 77 :: cstr (bytes_of text) ++ [NUL]).
Definition c_msg (tag : string) : msg := mkMsg bt_command_complete (cstr (bytes_of tag)).

(** An error for the first query, a result for the second, then the end of the session in
    the third's reply. *)
Definition demo_ms : list msg := [e_msg "ERROR" "23505" "duplicate key"; z_msg; c_msg "INSERT 0 3"; z_msg; e_msg "FATAL" "57P01" "terminating"].

Definition demo_ops : list op :=
  [OpSubmit (bytes_of "insert") [None]; OpAsyncSubmit (bytes_of "select 1") []; OpSubmit (bytes_of "refused") []; OpFlush [Sent 1000];
   OpReadable [Recv (take 7 (enc_msgs demo_ms))]; OpReadable [Recv (take 50 (drop 7 (enc_msgs demo_ms)))]; OpBatch [mkStmt (bytes_of "update") []];
   OpReadable [Recv (drop 57 (enc_msgs demo_ms)); Recv []]; OpReadable []].

Lemma demo_arrivals : arrivals demo_ops = enc_msgs demo_ms ++ [].
Proof. by vm_compute. Qed.

Lemma replies_answer_in_order_witness :
  exists c ans taken, run demo_ops demo_conn [] 0 = Ok (c, ans, taken) /\ taken = 3%nat /\
    ans = [Failed (mkPgError (bytes_of "ERROR") (bytes_of "23505") (bytes_of "duplicate key") 0); Done (mkResult (enc_msgs [c_msg "INSERT 0 3"; z_msg]) 3); Failed (mkPgError (bytes_of "FATAL") (bytes_of "57P01") (bytes_of "terminating") 0)].
Proof.
  destruct (replies_answer_in_order demo_ops demo_conn demo_ms [] demo_connected demo_arrivals ltac:(left; by vm_compute) ltac:(by vm_compute)) as (c & ans & taken & E & _).
  exists c, ans, taken. split; [done|]. revert E. vm_compute. intros E. by injection E as <- <- <-.
Defined.

(** The second reply comes with the end of the connection, and is delivered. *)
Lemma arrived_reply_delivered_witness :
  exists a c', async_on_readable [Recv (drop 57 (enc_msgs demo_ms)); Recv []] (match run (take 7 demo_ops) demo_conn [] 0 with Ok (c, _, _) => c | _ => demo_conn end) = Ok (a, c') /\
    is_ready c' = false /\ a = Some (Done (mkResult (enc_msgs [c_msg "INSERT 0 3"; z_msg]) 3)).
Proof.
  destruct (run (take 7 demo_ops) demo_conn [] 0) as [[[c ans] taken]| |] eqn:E; [|by vm_compute in E..].
  destruct (arrived_reply_delivered (take 7 demo_ops) [Recv (drop 57 (enc_msgs demo_ms)); Recv []] demo_conn c ans taken demo_ms [] demo_connected) as (a & c' & got & s' & Ea & H).
  - by vm_compute.
  - left. by vm_compute.
  - by vm_compute.
  - exact E.
  - exists a, c'. split; [done|]. clear H. revert Ea. vm_compute in E. injection E as <- <- <-. vm_compute. intros Ea. by injection Ea as <- <-.
Defined.

(** A query whose error has an empty message is answered with a result. *)
Lemma empty_message_is_success : reply_answer [e_msg "ERROR" "P0001" ""; z_msg] = Done (mkResult (enc_msgs [e_msg "ERROR" "P0001" ""; z_msg]) 0).
Proof. by vm_compute. Qed.

(** ** Refusals *)




(** Whether a submission with this result took the query. *)
Definition taken (r : option refusal) : bool := match r with None => true | Some _ => false end.


