(* ===== verification/PgPool.v ===== *)
(** The pool of pg_async/pool.v, pg_async/maintenance.v and pg_async/shed.v, and the states
    a re-dial goes through (pg_async/redial.v), over the connections of PgPipeline. What the
    network, the clock and the bring-up of a session answer is an input of each call. *)
From S2P Require Import Prelude WireBytes HttpScan PgWire PgTypes PgProtocol PgQuery PgPipeline.
Local Open Scope Z_scope.

(** One connection of the pool: [conns[i]] with the fields the pool uses of it, and
    [idle[i]]. *)
Record Slot := mkSlot { conn : PgConn; idle : bool; rollback_deadline : Z; retry_at : Z; dial_deadline : Z; expires_at : Z }.

#[export] Instance eta_slot : Eta Slot := mkEta _ (fun s => mkSlot (conn s) (idle s) (rollback_deadline s) (retry_at s) (dial_deadline s) (expires_at s)).

(** [recycling] is [None] for -1. *)
Record PgPool := mkPool { slots : list Slot; clock : Z; recycling : option nat }.

#[export] Instance eta_pool : Eta PgPool := mkEta _ (fun p => mkPool (slots p) (clock p) (recycling p)).

Definition millisecond : Z := 1000000.
Definition rollback_timeout : Z := 5000 * millisecond.
Definition redial_backoff : Z := 1000 * millisecond.
Definition redial_timeout : Z := 10000 * millisecond.
Definition maintenance_idle_ms : Z := 1000.
Definition maintenance_busy_ms : Z := 5.

(** The fields of [ConnConfig] the pool reads. *)
Record Config := mkConfig { connect_timeout_ms : Z; max_lifetime_ms : Z; lifetime_jitter_ms : Z }.

(** How one step of a bring-up ends: it fails, it waits, with the StartupMessage sent or
    not, or ReadyForQuery came, with the time read then. *)
Inductive dial_end := DialFails | DialWaits (sent : bool) | DialUp (t : Z).

(** One step of a bring-up, with what it leaves in the receive buffer. *)
Record dial_ev := mkDial { d_end : dial_end; d_buf : list byte; d_cap : Z; d_pos : Z }.

(** What a peek at an idle socket finds; behind the bytes, what can be read. *)
Inductive peek_ev := PeekNothing | PeekFails (why : list byte) | PeekEof | PeekBytes (evs : list recv_ev).

(** What happens around one call, by connection: the time [finish_rollback] reads, the
    time [start_rollback] or [redial] reads, what the socket takes and has, the time a
    connect started at if one could be started, how the bring-up goes on, and the peek. *)
Record Env := mkEnv { now_rb : nat -> Z; now : nat -> Z; sends : nat -> list send_ev; recvs : nat -> list recv_ev; starts : nat -> option Z; dials : nat -> dial_ev; peeks : nat -> peek_ev }.

(** ** Lifetimes *)

Definition u64 (x : Z) : Z := x mod 2 ^ 64.

Definition splitmix64 (x : Z) : Z :=
  let z := u64 (x + 0x9e3779b97f4a7c15) in
  let z := u64 (Z.lxor z (Z.shiftr z 30) * 0xbf58476d1ce4e5b9) in
  let z := u64 (Z.lxor z (Z.shiftr z 27) * 0x94d049bb133111eb) in
  Z.lxor z (Z.shiftr z 31).

(** [addr] is the address of the connection. *)
Definition lifetime_deadline (cfg : Config) (addr t : Z) : Z :=
  if max_lifetime_ms cfg <=? 0 then 2 ^ 64 - 1
  else
    let life := u64 (max_lifetime_ms cfg * millisecond) in
    let span := if 0 <? lifetime_jitter_ms cfg then u64 (lifetime_jitter_ms cfg * millisecond) else 0 in
    let span := if life <=? span then life - 1 else span in
    u64 (t + life - splitmix64 (Z.lxor t addr) mod (span + 1)).

Section pool.
(** The configuration of the pool and the address of each connection. *)
Context (cfg : Config) (addr : nat -> Z).

Definition upd_conn (f : PgConn -> PgConn) (s : Slot) : Slot := s <| conn := f (conn s) |>.

(** ** Re-dialling *)

(** [redial_start] on a plain connection: whether a connect is under way, at which
    time it started. *)
Definition redial_start (started : option Z) (s : Slot) : bool * Slot :=
  let s := upd_conn (fun c => c <| inflight := [] |> <| frame_ring := 0 |> <| recv_pos := 0 |> <| recv_cap := if recv_cap c <? 16 * 1024 then 16 * 1024 else recv_cap c |> <| recv_buf := [] |>
                       <| send_off := 0 |> <| send_len := 0 |> <| fatal := mkPgError [] [] [] 0 |> <| loss := [] |> <| ready_status := tx_idle |>) s <| rollback_deadline := 0 |> in
  match started with
  | None => (false, s)
  | Some t => (true, upd_conn (fun c => c <| state := connecting |>) s <| dial_deadline := t + (if 0 <? connect_timeout_ms cfg then connect_timeout_ms cfg * millisecond else redial_timeout) |>)
  end.

Definition redial_failed (t : Z) (s : Slot) : Slot := upd_conn (fun c => c <| state := broken |>) s <| retry_at := t + redial_backoff |>.

(** [redial_step] on a plain connection and the handling of its error in [redial]. *)
Definition redial_step (i : nat) (t : Z) (ev : dial_ev) (s : Slot) : bool * Slot :=
  let s := upd_conn (fun c => c <| recv_buf := d_buf ev |> <| recv_cap := d_cap ev |> <| recv_pos := d_pos ev |>) s in
  match d_end ev with
  | DialFails => (false, redial_failed t s)
  | DialWaits sent => (false, if sent then upd_conn (fun c => c <| state := starting |>) s else s)
  | DialUp u => (true, upd_conn (fun c => c <| state := ready |>) s <| expires_at := lifetime_deadline cfg (addr i) u |>)
  end.

Definition redial (e : Env) (i : nat) (s : Slot) : bool * Slot :=
  if is_ready (conn s) then (true, s)
  else if bool_decide (state (conn s) = broken) then
    if (0 <? len (inflight (conn s))) || (now e i <? retry_at s) then (false, s)
    else
      let '(started, s) := redial_start (starts e i) s in
      if started then redial_step i (now e i) (dials e i) s else (false, redial_failed (now e i) s)
  else if dial_deadline s <=? now e i then (false, redial_failed (now e i) s)
  else redial_step i (now e i) (dials e i) s.

(** ** Rolling back *)

Definition start_rollback (e : Env) (i : nat) (s : Slot) : outcome Slot :=
  let s := s <| idle := false |> in
  '(ok, c) ← async_submit (bytes_of "rollback") [] (conn s);
  if negb ok then Ok (s <| conn := lose (bytes_of "could not queue a ROLLBACK at release") c |> <| idle := true |>)
  else Ok (s <| conn := snd (async_flush (sends e i) c) |> <| rollback_deadline := now e i + rollback_timeout |>).

(** The end of [finish_rollback]: the slot is idle again. *)
Definition rolled_back (c : PgConn) (s : Slot) : Slot := s <| conn := c <| inflight := [] |> |> <| rollback_deadline := 0 |> <| idle := true |>.

Definition finish_rollback (e : Env) (i : nat) (s : Slot) : outcome (bool * Slot) :=
  let c := if async_wants_write (conn s) then snd (async_flush (sends e i) (conn s)) else conn s in
  '(a, c) ← async_on_readable (recvs e i) c;
  match a with
  | None =>
      if now_rb e i <? rollback_deadline s then Ok (false, s <| conn := c |>)
      else Ok (true, rolled_back (lose (bytes_of "no answer to the ROLLBACK queued at release") c) s)
  | Some (Done _) =>
      Ok (true, rolled_back (if bool_decide (ready_status c = tx_idle) then c else lose (bytes_of "the ROLLBACK queued at release left the session in a transaction") c) s)
  | Some _ => Ok (true, rolled_back (lose (bytes_of "the ROLLBACK queued at release failed") c) s)
  end.

(** ** Taking a connection *)

(** Not held, its ROLLBACK answered: the first test of every way to take one. *)
Definition unheld (e : Env) (i : nat) (s : Slot) : outcome (bool * Slot) :=
  if idle s then Ok (true, s) else if rollback_deadline s =? 0 then Ok (false, s) else finish_rollback e i s.

Fixpoint acquire_loop (e : Env) (i : nat) (ss : list Slot) : outcome (option nat * list Slot) :=
  match ss with
  | [] => Ok (None, [])
  | s :: ss =>
      '(free, s) ← unheld e i s;
      let '(up, s) := if free && (len (inflight (conn s)) =? 0) then redial e i s else (false, s) in
      if up && bool_decide (ready_status (conn s) = tx_idle) then Ok (Some i, s <| idle := false |> :: ss)
      else '(r, ss) ← acquire_loop e (S i) ss; Ok (r, s :: ss)
  end.

Definition acquire (e : Env) (p : PgPool) : outcome (option nat * PgPool) := '(r, ss) ← acquire_loop e 0 (slots p); Ok (r, p <| slots := ss |>).

Definition pipelinable (e : Env) (i : nat) (s : Slot) : outcome (bool * Slot) :=
  '(free, s) ← unheld e i s;
  if negb free then Ok (false, s)
  else
    let '(up, s) := redial e i s in
    if negb up then Ok (false, s) else Ok (bool_decide (ready_status (conn s) = tx_idle), s).

(** [best]: the index and depth of the shortest pipeline so far. *)
Definition shorter (best : option (nat * Z)) (d : Z) : bool := match best with None => true | Some (_, bd) => d <? bd end.

Fixpoint pipelined_loop (e : Env) (i : nat) (ss : list Slot) (best : option (nat * Z)) : outcome (option nat * list Slot) :=
  match ss with
  | [] => Ok (fst <$> best, [])
  | s :: ss =>
      '(ok, s) ← pipelinable e i s;
      let d := inflight_count (conn s) in
      if ok && (d =? 0) then Ok (Some i, s :: ss)
      else
        let best := if ok && (d <? inflight_limit (conn s)) && shorter best d then Some (i, d) else best in
        '(r, ss) ← pipelined_loop e (S i) ss best; Ok (r, s :: ss)
  end.

Definition acquire_pipelined (e : Env) (p : PgPool) : outcome (option nat * PgPool) := '(r, ss) ← pipelined_loop e 0 (slots p) None; Ok (r, p <| slots := ss |>).

(** What [acquire_pipelined_for] has seen so far: the best candidate, whether the frame
    fits some send buffer, the widest of those it does not fit with its error, and whether
    a candidate's buffer or pipeline was full. *)
Record Seen := mkSeen { best : option (nat * Z); fits : bool; widest : option (Z * Z); full_buffer : bool; full_pipeline : bool }.

#[export] Instance eta_seen : Eta Seen := mkEta _ (fun s => mkSeen (best s) (fits s) (widest s) (full_buffer s) (full_pipeline s)).

Definition seen_result (v : Seen) : refusal + nat :=
  match best v with
  | Some (i, _) => inr i
  | None =>
      match (if fits v then None else widest v) with
      | Some (_, cap) => inl (FrameTooLarge cap)
      | None => inl (Shed (if full_buffer v then send_buffer_full else if full_pipeline v then pipeline_full else no_connection))
      end
  end.

Fixpoint pipelined_for_loop (e : Env) (n : Z) (i : nat) (ss : list Slot) (v : Seen) : outcome ((refusal + nat) * list Slot) :=
  match ss with
  | [] => Ok (seen_result v, [])
  | s :: ss =>
      if max_frame_len (conn s) <? n then
        let wider := match widest v with None => true | Some (w, _) => w <? max_frame_len (conn s) end in
        let v := if wider then v <| widest := Some (max_frame_len (conn s), frame_too_large (conn s)) |> else v in
        '(r, ss) ← pipelined_for_loop e n (S i) ss v; Ok (r, s :: ss)
      else
        let v := v <| fits := true |> in
        '(ok, s) ← pipelinable e i s;
        let d := inflight_count (conn s) in
        let go v := '(r, ss) ← pipelined_for_loop e n (S i) ss v; Ok (r, s :: ss) in
        if negb ok then go v
        else if inflight_limit (conn s) <=? d then go (v <| full_pipeline := true |>)
        else if send_room (conn s) <? n then go (v <| full_buffer := true |>)
        else if d =? 0 then Ok (inr i, s :: ss)
        else if shorter (best v) d then go (v <| best := Some (i, d) |>)
        else go v
  end.

Definition acquire_pipelined_for (e : Env) (n : Z) (p : PgPool) : outcome ((refusal + nat) * PgPool) :=
  '(r, ss) ← pipelined_for_loop e n 0 (slots p) (mkSeen None false None false false); Ok (r, p <| slots := ss |>).

(** ** Giving it back *)

Definition release (e : Env) (i : nat) (p : PgPool) : outcome PgPool :=
  match slots p !! i with
  | None => Ok p
  | Some s =>
      let give s := if (expires_at s <=? clock p) && bool_decide (recycling p = None)
                    then p <| slots := <[i := s]> (slots p) |> <| recycling := Some i |>
                    else p <| slots := <[i := s <| idle := true |>]> (slots p) |> in
      if 0 <? len (inflight (conn s)) then Ok (give (upd_conn (fun c => lose (bytes_of "released with a query in flight") c <| inflight := [] |>) s <| rollback_deadline := 0 |>))
      else if negb (bool_decide (ready_status (conn s) = tx_idle)) && is_ready (conn s) then s ← start_rollback e i s; Ok (p <| slots := <[i := s]> (slots p) |>)
      else Ok (give s)
  end.

(** ** Maintenance *)

(** The search of [probe_idle] for a FATAL among the unframed bytes. *)
Fixpoint probe_loop (fuel : nat) (b : list byte) (pos : Z) (c : PgConn) : outcome PgConn :=
  match fuel with
  | O => Crash
  | S f =>
      hdr ← next_message_at b pos;
      match hdr with
      | None => Ok c
      | Some hdr =>
          t ← byte_at b pos;
          if beq t bt_error_response then
            payload ← slice b (pos + 5) (total hdr - 5);
            info ← parse_error_response payload;
            if ends_session (severity info) then Ok (lose closed_by_server (c <| fatal := mkPgError (severity info) (code info) (message info) 0 |>))
            else probe_loop f b (pos + total hdr) c
          else probe_loop f b (pos + total hdr) c
      end
  end.

Definition probe_idle (e : Env) (i : nat) (c : PgConn) : outcome PgConn :=
  if negb (is_ready c) || (0 <? len (inflight c)) then Ok c
  else
    match peeks e i with
    | PeekNothing => Ok c
    | PeekFails why => Ok (lose why c)
    | PeekEof => Ok (lose (bytes_of "connection closed by server while idle") c)
    | PeekBytes evs => c ← fill_recv_buf evs c; probe_loop (S (length (recv_buf c))) (recv_buf c) (recv_pos c) c
    end.

Definition sooner (next wait : Z) : Z := if wait <? next then wait else next.

Definition retry_wait (t : Z) (s : Slot) : Z := if bool_decide (state (conn s) = broken) && (t <? retry_at s) then (retry_at s - t) / millisecond + 1 else maintenance_busy_ms.

(** One turn of [maintain]'s loop behind its lifetime test, with the tick. *)
Definition maintain_pass (e : Env) (t : Z) (i : nat) (s : Slot) (next : Z) : outcome (Slot * Z) :=
  '(free, s) ← unheld e i s;
  if negb free then Ok (s, if rollback_deadline s =? 0 then next else sooner next maintenance_busy_ms)
  else if 0 <? len (inflight (conn s)) then Ok (s, next)
  else
    c ← probe_idle e i (conn s);
    let s := s <| conn := c |> in
    if is_ready c && negb (bool_decide (ready_status c = tx_idle)) then s ← start_rollback e i s; Ok (s, sooner next maintenance_busy_ms)
    else
      let '(up, s) := redial e i s in
      if up then Ok (s, next) else Ok (s, sooner next (retry_wait t s)).

(** The whole turn: a connection past its lifetime leaves the idle set, one at a time. *)
Definition maintain_slot (e : Env) (t : Z) (i : nat) (s : Slot) (rec : option nat) (next : Z) : outcome (Slot * option nat * Z) :=
  let due := idle s && (expires_at s <=? t) && is_ready (conn s) in
  let '(s, rec, next) := if due then match rec with None => (s <| idle := false |>, Some i, next) | Some _ => (s, rec, maintenance_busy_ms) end else (s, rec, next) in
  '(s, next) ← maintain_pass e t i s next;
  Ok (s, rec, next).

Fixpoint maintain_loop (e : Env) (t : Z) (i : nat) (ss : list Slot) (rec : option nat) (next : Z) : outcome (list Slot * option nat * Z) :=
  match ss with
  | [] => Ok ([], rec, next)
  | s :: ss => '(s, rec, next) ← maintain_slot e t i s rec next; '(ss, rec, next) ← maintain_loop e t (S i) ss rec next; Ok (s :: ss, rec, next)
  end.

(** [recycle_step]: the slot, whether it is back, and the wait. *)
Definition recycle_step (e : Env) (t : Z) (i : nat) (s : Slot) : Slot * bool * Z :=
  if 0 <? len (inflight (conn s)) then (s, false, maintenance_busy_ms)
  else
    let s := if is_ready (conn s) then upd_conn (lose (bytes_of "recycled: max_lifetime_ms reached")) s <| retry_at := 0 |> else s in
    let '(up, s) := redial e i s in
    if up then (s <| idle := true |>, true, maintenance_idle_ms)
    else (s, false, retry_wait t s).

(** The last loop of [maintain]: wake up at the next lifetime deadline. *)
Definition next_deadline (t next : Z) (s : Slot) : Z :=
  if (t <? expires_at s) && (expires_at s - t <? next * millisecond) then (expires_at s - t) / millisecond + 1 else next.

(** [maintain] reads the clock once, as [t]. *)
Definition maintain (e : Env) (t : Z) (p : PgPool) : outcome (Z * PgPool) :=
  '(ss, rec, next) ← maintain_loop e t 0 (slots p) (recycling p) maintenance_idle_ms;
  '(ss, rec, next) ←
    match rec with
    | None => Ok (ss, rec, next)
    | Some i => match ss !! i with None => Crash | Some s => let '(s, back, wait) := recycle_step e t i s in Ok (<[i := s]> ss, if back : bool then None else rec, sooner next wait) end
    end;
  Ok (foldl (next_deadline t) next ss, p <| slots := ss |> <| clock := t |> <| recycling := rec |>).

(** ** Where a connection is *)

(** In the idle set, or out of it with a ROLLBACK in flight. *)
Definition unclaimed (s : Slot) : Prop := (idle s = true /\ rollback_deadline s = 0) \/ (idle s = false /\ 0 < rollback_deadline s).
(** Out of the idle set, held by a borrower or by the recycle. *)
Definition claimed (s : Slot) : Prop := idle s = false /\ rollback_deadline s = 0.

Definition placed (s : Slot) : Prop := unclaimed s \/ claimed s.

(** What passing a connection may do to it: nothing when it is claimed. *)
Definition moves (s s' : Slot) : Prop := (claimed s -> s' = s) /\ (unclaimed s -> unclaimed s').

(** May be shared: what [pipelinable] looks for. *)
Definition shareable (s : Slot) : bool := idle s && is_ready (conn s) && bool_decide (ready_status (conn s) = tx_idle).

(** The clock is not negative. *)
Definition env_ok (e : Env) : Prop := forall i, 0 <= now e i.

Lemma claimed_not s : claimed s -> ~ unclaimed s.
Proof. unfold claimed, unclaimed. intros [-> ->] [[? ?]|[? ?]]; [done|lia]. Qed.

Lemma moves_all ss : Forall2 moves ss ss.
Proof. by induction ss; constructor. Qed.

Lemma middle {A} (a : list A) x b : (a ++ x :: b) !! length a = Some x.
Proof. by apply list_lookup_middle. Qed.

Lemma redial_step_spec i t ev s b s' : redial_step i t ev s = (b, s') -> is_ready (conn s) = false ->
  idle s' = idle s /\ rollback_deadline s' = rollback_deadline s /\ is_ready (conn s') = b /\ inflight (conn s') = inflight (conn s) /\
  max_frame_len (conn s') = max_frame_len (conn s) /\ frame_too_large (conn s') = frame_too_large (conn s).
Proof. unfold redial_step, redial_failed, upd_conn. destruct (d_end ev) as [|[]|u]; intros [= <- <-] Hr; done. Qed.

Lemma redial_spec e i s b s' : redial e i s = (b, s') ->
  idle s' = idle s /\ (rollback_deadline s = 0 -> rollback_deadline s' = 0) /\ is_ready (conn s') = b /\ (b = true -> inflight (conn s') = inflight (conn s)) /\
  max_frame_len (conn s') = max_frame_len (conn s) /\ frame_too_large (conn s') = frame_too_large (conn s).
Proof.
  unfold redial. destruct (is_ready (conn s)) eqn:Hr; [by intros [= <- <-]|].
  case_bool_decide as Hb.
  - destruct (Z.ltb_spec 0 (len (inflight (conn s)))) as [|Hi]; cbn [orb]; [by intros [= <- <-]|].
    assert (inflight (conn s) = []) as Hn by (destruct (inflight (conn s)); [done|unfold len in Hi; cbn in Hi; lia]).
    destruct (now e i <? retry_at s); [by intros [= <- <-]|]. destruct (redial_start (starts e i) s) as [st s1] eqn:Hs. unfold redial_start in Hs.
    destruct (starts e i) as [t|]; injection Hs as <- <-; [|intros [= <- <-]; done].
    intros H. apply redial_step_spec in H; [|done]. destruct H as (-> & -> & -> & -> & -> & ->). rewrite Hn. done.
  - destruct (dial_deadline s <=? now e i); [intros [= <- <-]; done|]. intros H. apply redial_step_spec in H; [|done].
    destruct H as (-> & -> & -> & -> & -> & ->). done.
Qed.

(** ** What a ROLLBACK leaves *)

(** The frame sizes of a connection, which its pipeline never changes. *)
Definition width (c : PgConn) : Z * Z := (max_frame_len c, frame_too_large c).

Lemma bind_ok {A B} (o : outcome A) (f : A -> outcome B) b : o ≫= f = Ok b -> exists a, o = Ok a /\ f a = Ok b.
Proof. destruct o; [eauto|done|done]. Qed.

Lemma lose_width why c : width (lose why c) = width c.
Proof. unfold lose. by destruct (is_ready c). Qed.

Lemma fill_loop_width f evs c c' : fill_loop f evs c = Ok c' -> width c' = width c.
Proof.
  revert evs c. induction f as [|f IH]; intros evs c; cbn [fill_loop]; [done|].
  destruct (is_ready c); cbn [negb]; [|by intros [= <-]]. intros H. apply bind_ok in H as (c1 & E & H).
  assert (width c1 = width c) as <- by (unfold recv_room in E; repeat case_match; by simplify_eq).
  destruct evs as [|[bs|why] evs]; [by simplify_eq| |simplify_eq; apply lose_width].
  destruct (_ =? 0)%nat; [simplify_eq; apply lose_width|]. by apply IH in H.
Qed.

Lemma pop_front_width c q c' : pop_front c = Ok (q, c') -> width c' = width c.
Proof. unfold pop_front. destruct (inflight c); [done|]. intros [= <- <-]. by case_match. Qed.

Lemma upd_front_width f c : width (upd_front f c) = width c.
Proof. unfold upd_front. by destruct (inflight c). Qed.

Lemma on_message_width t p q c c' : on_message t p q c = Ok c' -> width c' = width c.
Proof.
  unfold on_message. destruct (beq t bt_command_complete); [intros [= <-]; apply upd_front_width|].
  destruct (beq t bt_ready_for_query); [intros [= <-]; by destruct p|]. destruct (beq t bt_error_response); [|by intros [= <-]].
  intros H. apply bind_ok in H as (info & _ & H). apply bind_ok in H as (n & _ & H). injection H as <-.
  destruct (ends_session _); [rewrite lose_width|]; apply upd_front_width.
Qed.

Lemma frame_loop_width f c a c' : frame_loop f c = Ok (a, c') -> width c' = width c.
Proof.
  revert c. induction f as [|f IH]; intros c; cbn [frame_loop]; [done|]. destruct (inflight c) as [|q qs]; [by intros [= <- <-]|].
  intros H. apply bind_ok in H as ([hdr|] & _ & H); [|by simplify_eq].
  apply bind_ok in H as (t & _ & H). apply bind_ok in H as (p & _ & H). apply bind_ok in H as (c1 & E & H). apply bind_ok in H as (w & _ & H).
  apply on_message_width in E. transitivity (width c1); [|done]. rewrite <- (upd_front_width (fun q => q <| q_frames := q_frames q ++ w |>) c1).
  destruct (beq t bt_ready_for_query); [|by apply IH in H]. apply bind_ok in H as ([q1 c2] & Hp & H). apply pop_front_width in Hp. injection H as _ <-. exact Hp.
Qed.

Lemma on_readable_width evs c a c' : async_on_readable evs c = Ok (a, c') -> width c' = width c.
Proof.
  rewrite on_readable_unfold. intros H. apply bind_ok in H as (c1 & E1 & H). apply bind_ok in H as ([a2 c2] & E2 & H).
  apply fill_loop_width in E1. apply frame_loop_width in E2.
  transitivity (width c2); [|rewrite E2, E1; unfold rewound; by destruct (_ && _)].
  destruct a2; [by injection H as _ <-|]. unfold settle in H. destruct (is_broken c2); [|by injection H as _ <-]. destruct (inflight c2); [by injection H as _ <-|].
  apply bind_ok in H as ([q c3] & E3 & H). apply pop_front_width in E3. injection H as _ <-. exact E3.
Qed.

Lemma flush_width evs c : width (snd (async_flush evs c)) = width c.
Proof.
  unfold async_flush. destruct (is_broken c); [done|]. revert c. induction evs as [|[n|why] evs IH]; intros c; cbn [flush_loop]; case_match; try done.
  - by rewrite IH.
  - apply lose_width.
Qed.

Lemma finish_rollback_spec e i s b s' : finish_rollback e i s = Ok (b, s') -> width (conn s') = width (conn s) /\
  if b then idle s' = true /\ rollback_deadline s' = 0 /\ inflight (conn s') = [] /\ (is_ready (conn s') = true -> ready_status (conn s') = tx_idle)
  else now_rb e i < rollback_deadline s /\ idle s' = idle s /\ rollback_deadline s' = rollback_deadline s.
Proof.
  unfold finish_rollback. intros H. apply bind_ok in H as ([a c] & E & H). apply on_readable_width in E.
  assert (width c = width (conn s)) as Hw by (rewrite E; destruct (async_wants_write (conn s)); [apply flush_width|done]). clear E.
  assert (forall c', rolled_back c' s = s' -> b = true -> width c' = width c -> (is_ready c' = true -> ready_status c' = tx_idle) -> width (conn s') = width (conn s) /\
    idle s' = true /\ rollback_deadline s' = 0 /\ inflight (conn s') = [] /\ (is_ready (conn s') = true -> ready_status (conn s') = tx_idle)) as Hback.
  { intros c' <- -> Hc' Hs'. split; [change (width c' = width (conn s)); congruence|done]. }
  assert (forall why, is_ready (lose why c) = true -> ready_status (lose why c) = tx_idle) as Hl by (intros why; by rewrite (proj1 (lose_spec why c))).
  destruct a as [[r|er|re]|]; [| | |destruct (Z.ltb_spec (now_rb e i) (rollback_deadline s)); [injection H as <- <-; done|]]; injection H as <- H;
    apply (Hback _ H eq_refl); try apply lose_width; try apply Hl; case_bool_decide; try apply lose_width; by try apply Hl.
Qed.

Lemma start_rollback_unclaimed e i s s' : env_ok e -> rollback_deadline s = 0 -> start_rollback e i s = Ok s' -> unclaimed s'.
Proof.
  intros He Hd. unfold start_rollback. intros H. apply bind_ok in H as ([ok c] & _ & H). destruct ok; injection H as <-; [right|by left].
  split; [done|]. cbn. specialize (He i). unfold rollback_timeout, millisecond. lia.
Qed.

(** ** What taking a connection does *)

Lemma unheld_spec e i s b s' : placed s -> unheld e i s = Ok (b, s') ->
  moves s s' /\ width (conn s') = width (conn s) /\ idle s' = b /\ (b = true -> unclaimed s /\ rollback_deadline s' = 0) /\ (b = false -> rollback_deadline s' = rollback_deadline s).
Proof.
  intros Hp. unfold unheld. destruct (idle s) eqn:Hi.
  - intros [= <- <-]. destruct Hp as [Hu|[? _]]; [|congruence]. split_and!; try done. intros _. split; [done|]. destruct Hu as [[_ H]|[? _]]; [done|congruence].
  - destruct (Z.eqb_spec (rollback_deadline s) 0) as [H0|H0]; [by intros [= <- <-]|].
    destruct Hp as [Hu|[_ ?]]; [|done]. intros H. apply finish_rollback_spec in H as [Hw H]. destruct b.
    + destruct H as (Hi' & Hd & _). split_and!; try done. split; [by intros [_ ?]|by left].
    + destruct H as (_ & Hi' & Hd). split_and!; [|congruence..]. split; [by intros [_ ?]|]. destruct Hu as [[? _]|[_ Hu]]; [congruence|]. right. rewrite Hd. split; [congruence|done].
Qed.

Lemma redial_moves e i s b s' : redial e i s = (b, s') -> idle s = true -> rollback_deadline s = 0 -> idle s' = true /\ unclaimed s' /\ width (conn s') = width (conn s).
Proof.
  intros H Hi Hd. apply redial_spec in H as (Hi' & Hd' & _ & _ & Hm & Hf). split_and!; [congruence|left; split; [congruence|auto]|].
  unfold width. congruence.
Qed.

Lemma moves_then s s1 s' : moves s s1 -> unclaimed s -> unclaimed s' -> moves s s'.
Proof. intros _ Hu Hu'. split; [intros Hc; by apply claimed_not in Hc|done]. Qed.

Lemma pipelinable_spec e i s b s' : placed s -> pipelinable e i s = Ok (b, s') -> moves s s' /\ width (conn s') = width (conn s) /\ b = shareable s'.
Proof.
  intros Hp. unfold pipelinable. intros H. apply bind_ok in H as ([free s1] & E & H). apply unheld_spec in E as (Hm & Hw & Hi & Hf & _); [|done].
  destruct free; cbn [negb] in H; [|injection H as <- <-; by unfold shareable; rewrite Hi]. destruct (Hf eq_refl) as [Hu Hd].
  destruct (redial e i s1) as [up s2] eqn:Hr. pose proof (redial_moves _ _ _ _ _ Hr Hi Hd) as (Hi2 & Hu2 & Hw2). apply redial_spec in Hr as (_ & _ & Hup & _).
  assert (s' = s2 /\ b = shareable s2) as [-> ->].
  { unfold shareable. rewrite Hi2, Hup. destruct up; by injection H as <- <-. }
  split_and!; [by eapply moves_then|congruence|done].
Qed.

(** A connection as [acquire] hands it out. *)
Definition clean (c : PgConn) : Prop := is_ready c = true /\ inflight c = [] /\ ready_status c = tx_idle.

(** Idle, and clean. *)
Definition grantable (s : Slot) : Prop := idle s = true /\ clean (conn s).

Lemma acquire_step e i s free s1 up s2 : placed s -> unheld e i s = Ok (free, s1) -> (if free && (len (inflight (conn s1)) =? 0) then redial e i s1 else (false, s1)) = (up, s2) ->
  moves s s2 /\ (up = true -> unclaimed s /\ rollback_deadline s2 = 0 /\ is_ready (conn s2) = true /\ inflight (conn s2) = []) /\ (up = false -> ~ grantable s2).
Proof.
  intros Hp E H. apply unheld_spec in E as (Hm & _ & Hi & Hf & _); [|done].
  destruct free; cbn [andb] in H; [|injection H as <- <-; split_and!; [done..|]; intros _ [? _]; congruence].
  destruct (Hf eq_refl) as [Hu Hd].
  destruct (Z.eqb_spec (len (inflight (conn s1))) 0) as [Hn|Hn]; [|injection H as <- <-; split_and!; [done..|]; intros _ (_ & _ & Hin & _); by rewrite Hin in Hn].
  assert (inflight (conn s1) = []) as Hin by (destruct (inflight (conn s1)); [done|unfold len in Hn; cbn in Hn; lia]).
  pose proof (redial_moves _ _ _ _ _ H Hi Hd) as (_ & Hu2 & _). apply redial_spec in H as (_ & Hd2 & Hup & Hk & _).
  split_and!; [by eapply moves_then| |intros ->; intros (_ & ? & _); congruence]. intros ->. rewrite Hk by done. auto.
Qed.

Lemma acquire_loop_spec e k ss r ss' : Forall placed ss -> acquire_loop e k ss = Ok (r, ss') ->
  match r with
  | None => Forall2 moves ss ss' /\ Forall (fun s => ~ grantable s) ss'
  | Some i => exists a s b a' s', ss = a ++ s :: b /\ ss' = a' ++ s' :: b /\ i = (k + length a')%nat /\ Forall2 moves a a' /\ unclaimed s /\ claimed s' /\ clean (conn s')
  end.
Proof.
  intros Hp. revert k r ss'. induction Hp as [|s ss Hs Hp IH]; intros k r ss'; cbn [acquire_loop]; [by intros [= <- <-]|].
  intros H. apply bind_ok in H as ([free s1] & E & H). destruct (if free && _ then _ else _) as [up s2] eqn:E2.
  pose proof (acquire_step _ _ _ _ _ _ _ Hs E E2) as (Hm & Hup & Hno).
  destruct (up && bool_decide (ready_status (conn s2) = tx_idle)) eqn:Hb.
  - apply andb_true_iff in Hb as [-> Ht]. apply bool_decide_eq_true in Ht. destruct (Hup eq_refl) as (Hu & Hd & Hr & Hi). injection H as <- <-.
    exists [], s, ss, [], (s2 <| idle := false |>). split_and!; try done; cbn; lia.
  - apply bind_ok in H as ([r1 ss1] & H1 & H). injection H as <- <-. specialize (IH _ _ _ H1). destruct r1 as [i|].
    2:{ destruct IH as [HF Hall]. split; constructor; try done. destruct up; [|auto]. cbn [andb] in Hb. apply bool_decide_eq_false in Hb. by intros (_ & _ & _ & ?). }
    destruct IH as (a & s0 & b & a' & s0' & -> & -> & -> & Ha & Hu & Hc & Hcl). exists (s :: a), s0, b, (s2 :: a'), s0'.
    split_and!; try done; [cbn; lia|by constructor].
Qed.

(** ** The shortest pipeline *)

(** The least loaded of the connections that can take a query, or none can. *)
Definition shortest (takes : Slot -> bool) (ss : list Slot) (r : option nat) : Prop :=
  match r with
  | None => forall s, s ∈ ss -> takes s = false
  | Some i => exists s, ss !! i = Some s /\ takes s = true /\ forall s', s' ∈ ss -> takes s' = true -> inflight_count (conn s) <= inflight_count (conn s')
  end.

(** [best] after the connections [done]. *)
Definition best_of (takes : Slot -> bool) (done : list Slot) (best : option (nat * Z)) : Prop :=
  shortest takes done (fst <$> best) /\ forall i d, best = Some (i, d) -> exists s, done !! i = Some s /\ d = inflight_count (conn s).

Lemma best_skip takes done best s : best_of takes done best -> takes s = false -> best_of takes (done ++ [s]) best.
Proof.
  intros [Hb Hd] Hs. destruct best as [[i d]|]; cbn in *.
  - destruct Hb as (s0 & Hl & Ht & Hmin). split.
    + exists s0. split_and!; [by apply lookup_app_l_Some|done|]. intros s' Hs'. apply elem_of_app in Hs' as [?|?%list_elem_of_singleton]; [auto|congruence].
    + intros i' d' Hi. destruct (Hd _ _ Hi) as (s1 & Hl1 & ->). exists s1. split; [by apply lookup_app_l_Some|done].
  - split; [|done]. intros s' Hs'. apply elem_of_app in Hs' as [?|Heq%list_elem_of_singleton]; [auto|by subst].
Qed.

Lemma best_take takes done best s : best_of takes done best -> takes s = true ->
  best_of takes (done ++ [s]) (if shorter best (inflight_count (conn s)) then Some (length done, inflight_count (conn s)) else best).
Proof.
  intros [Hb Hd] Hs. unfold shorter. destruct best as [[i d]|]; cbn in Hb.
  - destruct Hb as (s0 & Hl & Ht & Hmin). destruct (Hd _ _ eq_refl) as (s1 & Hl1 & Hdd). assert (s1 = s0) as -> by congruence. subst d.
    destruct (Z.ltb_spec (inflight_count (conn s)) (inflight_count (conn s0))) as [Hlt|Hge]; split.
    + exists s. split_and!; [apply middle|done|]. intros s' Hs' Ht'. apply elem_of_app in Hs' as [Hin|Heq%list_elem_of_singleton]; [|subst; lia]. specialize (Hmin _ Hin Ht'). lia.
    + intros i' d' [= <- <-]. exists s. split; [apply middle|done].
    + exists s0. split_and!; [by apply lookup_app_l_Some|done|]. intros s' Hs' Ht'. apply elem_of_app in Hs' as [Hin|Heq%list_elem_of_singleton]; [auto|subst; lia].
    + intros i' d' [= <- <-]. exists s0. split; [by apply lookup_app_l_Some|done].
  - split.
    + exists s. split_and!; [apply middle|done|]. intros s' Hs' Ht'. apply elem_of_app in Hs' as [Hin|Heq%list_elem_of_singleton]; [|subst; lia]. rewrite Hb in Ht' by done. done.
    + intros i' d' [= <- <-]. exists s. split; [apply middle|done].
Qed.

Lemma best_idle takes done s rest : takes s = true -> inflight_count (conn s) = 0 -> shortest takes (done ++ s :: rest) (Some (length done)).
Proof. intros Ht H0. exists s. split_and!; [apply middle|done|]. intros s' _ _. rewrite H0. unfold inflight_count, len. lia. Qed.

(** Shared, and below its limit. *)
Definition has_slot (s : Slot) : bool := shareable s && (inflight_count (conn s) <? inflight_limit (conn s)).

Lemma pipelined_loop_spec e done ss best r ss' : Forall placed ss -> best_of has_slot done best -> pipelined_loop e (length done) ss best = Ok (r, ss') ->
  Forall2 moves ss ss' /\ shortest has_slot (done ++ ss') r.
Proof.
  intros Hp. revert done best r ss'. induction Hp as [|s ss Hs Hp IH]; intros done best r ss' Hb; cbn [pipelined_loop].
  { intros [= <- <-]. rewrite app_nil_r. by destruct Hb. }
  intros H. apply bind_ok in H as ([ok s1] & E & H). apply pipelinable_spec in E as (Hm & _ & ->); [|done].
  destruct (shareable s1 && (inflight_count (conn s1) =? 0)) eqn:H0.
  - apply andb_true_iff in H0 as [Hsh H0%Z.eqb_eq]. injection H as <- <-. split; [constructor; [done|apply moves_all]|].
    apply best_idle; [|done]. unfold has_slot. rewrite Hsh, H0. apply Z.ltb_lt, inflight_limit_pos.
  - apply bind_ok in H as ([r1 ss1] & H1 & H). injection H as <- <-. fold (has_slot s1) in H1. replace (S (length done)) with (length (done ++ [s1])) in H1 by (rewrite length_app; cbn; lia).
    apply IH in H1 as [HF Hr].
    + rewrite <- app_assoc in Hr. split; [by constructor|done].
    + destruct (has_slot s1) eqn:Ht; [by apply best_take|by apply best_skip].
Qed.

(** ** A connection for a frame *)

(** A frame of [n] bytes submitted on the connection is taken. *)
Definition takes (n : Z) (s : Slot) : bool := shareable s && taken (check_submit n (conn s)).

(** The connection could be shared, but for [why]. *)
Definition blocked (n : Z) (why : ShedReason) (s : Slot) : Prop := shareable s = true /\ check_submit n (conn s) = Some (Shed why).

(** What [acquire_pipelined_for] promises of the connections it leaves. *)
Definition chosen (n : Z) (ss : list Slot) (r : refusal + nat) : Prop :=
  match r with
  | inr i => shortest (takes n) ss (Some i)
  | inl (FrameTooLarge cap) =>
      Forall (fun s => max_frame_len (conn s) < n) ss /\
      Exists (fun s => cap = frame_too_large (conn s) /\ Forall (fun s' => max_frame_len (conn s') <= max_frame_len (conn s)) ss) ss
  | inl (Shed why) =>
      Forall (fun s => takes n s = false) ss /\ (ss = [] \/ Exists (fun s => n <= max_frame_len (conn s)) ss) /\
      match why with
      | send_buffer_full => Exists (blocked n send_buffer_full) ss
      | pipeline_full => Exists (blocked n pipeline_full) ss /\ ~ Exists (blocked n send_buffer_full) ss
      | no_connection => Forall (fun s => shareable s = true -> max_frame_len (conn s) < n) ss
      end
  | inl _ => False
  end.

(** What one turn of the loop that does not return notes of the connection it leaves. *)
Definition note (n : Z) (i : nat) (s : Slot) (v : Seen) : Seen :=
  let c := conn s in
  if max_frame_len c <? n then
    if match widest v with None => true | Some (w, _) => w <? max_frame_len c end then v <| widest := Some (max_frame_len c, frame_too_large c) |> else v
  else
    let v := v <| fits := true |> in
    if negb (shareable s) then v
    else if inflight_limit c <=? inflight_count c then v <| full_pipeline := true |>
    else if send_room c <? n then v <| full_buffer := true |>
    else if shorter (best v) (inflight_count c) then v <| best := Some (i, inflight_count c) |> else v.

(** The widest of the connections the frame does not fit. *)
Definition widest_ok (n : Z) (done : list Slot) (wd : option (Z * Z)) : Prop :=
  match wd with
  | None => Forall (fun s => n <= max_frame_len (conn s)) done
  | Some (w, cap) => w < n /\ Exists (fun s => max_frame_len (conn s) = w /\ cap = frame_too_large (conn s)) done /\ Forall (fun s => max_frame_len (conn s) < n -> max_frame_len (conn s) <= w) done
  end.

Record seen_ok (n : Z) (done : list Slot) (v : Seen) : Prop := {
  so_best : best_of (takes n) done (best v);
  so_fits : fits v = true <-> Exists (fun s => n <= max_frame_len (conn s)) done;
  so_widest : widest_ok n done (widest v);
  so_buffer : full_buffer v = true <-> Exists (blocked n send_buffer_full) done;
  so_pipeline : full_pipeline v = true <-> Exists (blocked n pipeline_full) done
}.

Lemma snoc_same {P : Slot -> Prop} {done s} b : (b = true <-> Exists P done) -> ~ P s -> b = true <-> Exists P (done ++ [s]).
Proof. intros -> Hs. rewrite Exists_app, Exists_cons, Exists_nil. tauto. Qed.

Lemma snoc_set {P : Slot -> Prop} {done s} : P s -> true = true <-> Exists P (done ++ [s]).
Proof. intros Hs. rewrite Exists_app, Exists_cons. tauto. Qed.

Lemma shareable_ready s : shareable s = true -> is_ready (conn s) = true.
Proof. unfold shareable. intros H. apply andb_true_iff in H as [H _]. by apply andb_true_iff in H as [_ H]. Qed.

(** What [check_submit] says of a connection that may be shared. *)
Definition standing_of (n : Z) (s : Slot) : option refusal :=
  if inflight_limit (conn s) <=? inflight_count (conn s) then Some (Shed pipeline_full) else if send_room (conn s) <? n then Some (Shed send_buffer_full) else None.

Lemma check_shareable n s : shareable s = true -> n <= max_frame_len (conn s) -> check_submit n (conn s) = standing_of n s.
Proof. intros Hs Hn. unfold check_submit. rewrite (proj2 (Z.ltb_ge (max_frame_len (conn s)) n)) by lia. by rewrite (shareable_ready _ Hs). Qed.

Lemma too_large n s : max_frame_len (conn s) < n -> takes n s = false /\ forall why, ~ blocked n why s.
Proof.
  intros Hn. assert (check_submit n (conn s) = Some (FrameTooLarge (frame_too_large (conn s)))) as E.
  { unfold check_submit. by rewrite (proj2 (Z.ltb_lt _ _) Hn). }
  unfold takes, blocked. rewrite E. split; [apply andb_false_r|by intros why [_ ?]].
Qed.

Lemma widest_fits n done s wd : n <= max_frame_len (conn s) -> widest_ok n done wd -> widest_ok n (done ++ [s]) wd.
Proof.
  intros Hn. destruct wd as [[w cap]|]; cbn.
  - intros (Hw & Hx & Hf). split_and!; [done|by apply Exists_app; left|]. apply Forall_app. split; [done|]. constructor; [lia|done].
  - intros Hf. apply Forall_app. split; [done|]. by constructor.
Qed.

Lemma widest_too_large n done s wd : max_frame_len (conn s) < n -> widest_ok n done wd ->
  widest_ok n (done ++ [s]) (if match wd with None => true | Some (w, _) => w <? max_frame_len (conn s) end then Some (max_frame_len (conn s), frame_too_large (conn s)) else wd).
Proof.
  intros Hn Hw.
  assert (Forall (fun s' => max_frame_len (conn s') < n -> max_frame_len (conn s') <= max_frame_len (conn s)) done -> widest_ok n (done ++ [s]) (Some (max_frame_len (conn s), frame_too_large (conn s)))) as Hnew.
  { intros Hall. split_and!; [done|apply Exists_app; right; by constructor|]. apply Forall_app. split; [done|constructor; [lia|done]]. }
  destruct wd as [[w cap]|]; cbn in Hw.
  - destruct Hw as (Hwn & Hx & Hall). destruct (Z.ltb_spec w (max_frame_len (conn s))); [apply Hnew; eapply Forall_impl; [done|]; cbn; lia|].
    split_and!; [done|by apply Exists_app; left|]. apply Forall_app. split; [done|constructor; [lia|done]].
  - apply Hnew. eapply Forall_impl; [done|]. cbn. lia.
Qed.

(** A connection that cannot take the frame and is not blocked changes at most the width. *)
Lemma seen_skip n done v v' s : seen_ok n done v -> takes n s = false -> (forall why, ~ blocked n why s) ->
  best v' = best v -> full_buffer v' = full_buffer v -> full_pipeline v' = full_pipeline v ->
  (fits v' = true <-> Exists (fun s => n <= max_frame_len (conn s)) (done ++ [s])) -> widest_ok n (done ++ [s]) (widest v') -> seen_ok n (done ++ [s]) v'.
Proof. intros [Hb _ _ Hbu Hpi] Ht Hbl E1 E2 E3 Hf Hw. split; rewrite ?E1, ?E2, ?E3; [by apply best_skip|done|done|by apply snoc_same..]. Qed.

Lemma seen_note n done v s : seen_ok n done v -> seen_ok n (done ++ [s]) (note n (length done) s v).
Proof.
  intros Hv. pose proof Hv as [Hb Hf Hw Hbu Hpi]. unfold note. destruct (Z.ltb_spec (max_frame_len (conn s)) n) as [Hn|Hn].
  - destruct (too_large n s Hn) as [Ht Hbl]. pose proof (widest_too_large n done s _ Hn Hw) as Hw'.
    destruct (match widest v with None => true | Some (w, _) => w <? max_frame_len (conn s) end); apply (seen_skip _ _ v); try done; apply snoc_same; [done|lia|done|lia].
  - pose proof (widest_fits n done s _ Hn Hw) as Hw'. pose proof (@snoc_set (fun s => n <= max_frame_len (conn s)) done s Hn) as Hf'.
    destruct (shareable s) eqn:Hsh; cbn [negb].
    + pose proof (check_shareable n s Hsh Hn) as Hc. unfold standing_of in Hc.
      destruct (inflight_limit (conn s) <=? inflight_count (conn s)); [|destruct (send_room (conn s) <? n)].
      * split; cbn; try done; [apply best_skip; [done|unfold takes; rewrite Hc; apply andb_false_r]| |by apply snoc_set]. apply snoc_same; [done|intros [_ ?]; congruence].
      * split; cbn; try done; [apply best_skip; [done|unfold takes; rewrite Hc; apply andb_false_r]|by apply snoc_set|]. apply snoc_same; [done|intros [_ ?]; congruence].
      * assert (takes n s = true) as Ht by (unfold takes; by rewrite Hsh, Hc). pose proof (best_take _ _ _ _ Hb Ht) as Hb'.
        assert (forall why, ~ blocked n why s) as Hbl by (intros why [_ ?]; congruence). change (best (v <| fits := true |>)) with (best v).
        destruct (shorter (best v) (inflight_count (conn s))); split; cbn; try done; by apply snoc_same.
    + apply (seen_skip _ _ v); try done; [unfold takes; by rewrite Hsh|intros why [? _]; congruence].
Qed.

Lemma seen_nil n : seen_ok n [] (mkSeen None false None false false).
Proof. split; cbn; try (by rewrite Exists_nil); [|done]. split; [|done]. intros s Hs. by apply not_elem_of_nil in Hs. Qed.

Lemma seen_chosen n ss v : seen_ok n ss v -> chosen n ss (seen_result v).
Proof.
  intros [Hb Hf Hw Hbu Hpi]. unfold seen_result. destruct (best v) as [[i d]|]; [by destruct Hb|]. destruct Hb as [Hb _]. cbn in Hb.
  assert (Forall (fun s => takes n s = false) ss) as Hno by (by apply Forall_forall).
  assert (fits v = false -> Forall (fun s => max_frame_len (conn s) < n) ss) as Hnf.
  { intros Hfv. apply Forall_forall. intros s Hs. destruct (Z.lt_ge_cases (max_frame_len (conn s)) n); [done|]. exfalso. enough (fits v = true) by congruence. apply Hf, Exists_exists. eauto. }
  assert (fits v = true \/ widest v = None -> ss = [] \/ Exists (fun s => n <= max_frame_len (conn s)) ss) as Hor.
  { intros [H|H]; [right; by apply Hf|]. rewrite H in Hw. destruct ss as [|s ss]; [by left|]. right. constructor. cbn in Hw. by apply Forall_cons in Hw as [? _]. }
  destruct (if fits v then None else widest v) as [[w cap]|] eqn:Hwv.
  - destruct (fits v); [done|]. rewrite Hwv in Hw. destruct Hw as (Hwn & Hx & Hall). cbn. split; [by apply Hnf|].
    eapply Exists_impl; [done|]. cbn. intros s [Hs ->]. split; [done|]. rewrite Hs. specialize (Hnf eq_refl). rewrite Forall_forall in Hnf, Hall |- *. auto.
  - assert (ss = [] \/ Exists (fun s => n <= max_frame_len (conn s)) ss) as Hss by (apply Hor; destruct (fits v); auto).
    cbn. split_and!; [done|done|]. destruct (full_buffer v) eqn:Hbv; [by apply Hbu|].
    assert (~ Exists (blocked n send_buffer_full) ss) as Hnb by (intros H; apply Hbu in H; congruence).
    destruct (full_pipeline v) eqn:Hpv; [split; [by apply Hpi|done]|].
    apply Forall_forall. intros s Hs Hsh. destruct (Z.lt_ge_cases (max_frame_len (conn s)) n) as [|Hge]; [done|]. exfalso.
    pose proof (check_shareable n s Hsh Hge) as Hc. unfold standing_of in Hc. destruct (_ <=? _); [|destruct (_ <? _)].
    + enough (false = true) by done. apply Hpi, Exists_exists. by exists s.
    + apply Hnb, Exists_exists. by exists s.
    + specialize (Hb s Hs). unfold takes in Hb. by rewrite Hsh, Hc in Hb.
Qed.

Lemma width_eq c c' : width c' = width c -> max_frame_len c' = max_frame_len c /\ frame_too_large c' = frame_too_large c.
Proof. unfold width. intros H. split; congruence. Qed.

Lemma for_loop_spec e n done ss v r ss' : Forall placed ss -> seen_ok n done v -> pipelined_for_loop e n (length done) ss v = Ok (r, ss') ->
  Forall2 moves ss ss' /\ chosen n (done ++ ss') r.
Proof.
  intros Hp. revert done v r ss'. induction Hp as [|s ss Hs Hp IH]; intros done v r ss' Hv.
  { intros [= <- <-]. rewrite app_nil_r. split; [done|by apply seen_chosen]. }
  assert (forall s1 v' rs, moves s s1 -> v' = note n (length done) s1 v -> pipelined_for_loop e n (S (length done)) ss v' = Ok rs -> Ok (rs.1, s1 :: rs.2) = Ok (r, ss') -> Forall2 moves (s :: ss) ss' /\ chosen n (done ++ ss') r) as Hgo.
  { intros s1 v' [r1 ss1] Hm -> H1 [= <- <-]. replace (S (length done)) with (length (done ++ [s1])) in H1 by (rewrite length_app; cbn; lia).
    apply IH in H1 as [HF Hr]; [|by apply seen_note]. rewrite <- app_assoc in Hr. split; [by constructor|done]. }
  cbn [pipelined_for_loop]. destruct (max_frame_len (conn s) <? n) eqn:Hn.
  { intros H. apply bind_ok in H as ([r1 ss1] & H1 & H). apply (Hgo s _ (r1, ss1)) in H1; try done. unfold note. rewrite Hn. by destruct (match widest v with None => _ | _ => _ end). }
  intros H. apply bind_ok in H as ([ok s1] & E & H). apply pipelinable_spec in E as (Hm & Hw & ->); [|done]. apply width_eq in Hw as [Hw _].
  assert (forall v', v' = note n (length done) s1 v -> ('(r, ss) ← pipelined_for_loop e n (S (length done)) ss v'; Ok (r, s1 :: ss)) = Ok (r, ss') -> Forall2 moves (s :: ss) ss' /\ chosen n (done ++ ss') r) as Hgo'.
  { intros v' Hv' H'. apply bind_ok in H' as ([r1 ss1] & H1 & H'). by apply (Hgo s1 v' (r1, ss1)) in H1. }
  unfold note in Hgo'. rewrite Hw, Hn in Hgo'. destruct (shareable s1) eqn:Hsh; cbn [negb] in H, Hgo'; [|by eapply Hgo'].
  destruct (inflight_limit (conn s1) <=? inflight_count (conn s1)) eqn:Hl; [by eapply Hgo'|]. destruct (send_room (conn s1) <? n) eqn:Hr; [by eapply Hgo'|].
  destruct (Z.eqb_spec (inflight_count (conn s1)) 0) as [H0|H0].
  - injection H as <- <-. split; [constructor; [done|apply moves_all]|]. apply best_idle; [|done].
    unfold takes. rewrite Hsh, check_shareable; [|done|lia]. unfold standing_of. by rewrite Hl, Hr.
  - destruct (shorter _ _); by eapply Hgo'.
Qed.

(** ** Maintenance *)

(** A tick the timer can be armed with: at least a millisecond, at most the idle tick. *)
Definition tick (next : Z) : Prop := 0 < next <= maintenance_idle_ms.

Lemma tick_sooner next wait : tick next -> 0 < wait -> tick (sooner next wait).
Proof. unfold tick, sooner. intros H Hw. destruct (Z.ltb_spec wait next); lia. Qed.

Lemma tick_busy : tick maintenance_busy_ms.
Proof. unfold tick, maintenance_busy_ms, maintenance_idle_ms. lia. Qed.

Lemma wait_pos a : 0 < a -> 0 < a / millisecond + 1.
Proof. intros H. pose proof (Z.div_pos a millisecond). unfold millisecond in *. lia. Qed.

Lemma retry_wait_pos t s : 0 < retry_wait t s.
Proof. unfold retry_wait. destruct (_ && _) eqn:E; [|apply tick_busy]. apply andb_true_iff in E as [_ E%Z.ltb_lt]. apply wait_pos. lia. Qed.

Lemma maintain_pass_spec e t i s next s' next' : env_ok e -> placed s -> maintain_pass e t i s next = Ok (s', next') -> moves s s' /\ (tick next -> tick next').
Proof.
  intros He Hp. unfold maintain_pass. intros H. apply bind_ok in H as ([free s1] & E & H). apply unheld_spec in E as (Hm & _ & Hi & Hf & _); [|done].
  destruct free; cbn [negb] in H.
  2:{ injection H as <- <-. split; [done|]. intros Ht. case_match; [done|by apply tick_sooner]. }
  destruct (Hf eq_refl) as [Hu Hd]. destruct (0 <? len _); [by injection H as <- <-|]. apply bind_ok in H as (c & _ & H).
  assert (forall s2, unclaimed s2 -> moves s s2) as Hmv by (intros s2; by eapply moves_then).
  destruct (is_ready c && _).
  - apply bind_ok in H as (s2 & E & H). injection H as <- <-. apply start_rollback_unclaimed in E; [|done|done]. split; [auto|]. intros Ht. by apply tick_sooner.
  - destruct (redial e i _) as [up s2] eqn:Hr. apply redial_moves in Hr as (_ & Hu2 & _); [|done|done].
    destruct up; injection H as <- <-; (split; [by auto|]); [done|]. intros Ht. apply tick_sooner; [done|apply retry_wait_pos].
Qed.

(** One connection may leave the idle set for the recycle, when none is being recycled. *)
Lemma maintain_slot_spec e t i s rec next s' rec' next' : env_ok e -> placed s -> maintain_slot e t i s rec next = Ok (s', rec', next') ->
  (rec' = rec /\ moves s s' \/ rec = None /\ rec' = Some i /\ unclaimed s /\ claimed s') /\ (tick next -> tick next').
Proof.
  intros He Hp. unfold maintain_slot. destruct (_ && is_ready (conn s)) eqn:Hdue; [destruct rec|]; intros H;
    apply bind_ok in H as ([s1 n1] & E & H); injection H as <- <- <-.
  - apply maintain_pass_spec in E as [Hm Ht]; [|done|done]. split; [by left|]. intros _. apply Ht, tick_busy.
  - apply andb_true_iff in Hdue as [[Hi _]%andb_true_iff _]. destruct Hp as [Hu|[? _]]; [|congruence].
    assert (rollback_deadline s = 0) as Hd by (destruct Hu as [[_ ?]|[? _]]; [done|congruence]).
    apply maintain_pass_spec in E as [[Hm _] Ht]; [|done|by right]. rewrite Hm by done. split; [by right|done].
  - apply maintain_pass_spec in E as [Hm Ht]; [|done|done]. split; [by left|done].
Qed.

Lemma maintain_loop_spec e t k ss rec next ss' rec' next' : env_ok e -> Forall placed ss -> maintain_loop e t k ss rec next = Ok (ss', rec', next') ->
  (rec' = rec /\ Forall2 moves ss ss' \/
   exists a s b a' s' b', rec = None /\ rec' = Some (k + length a')%nat /\ ss = a ++ s :: b /\ ss' = a' ++ s' :: b' /\ Forall2 moves a a' /\ Forall2 moves b b' /\ unclaimed s /\ claimed s') /\
  (tick next -> tick next').
Proof.
  intros He Hp. revert k rec next ss' rec' next'. induction Hp as [|s ss Hs Hp IH]; intros k rec next ss' rec' next'; cbn [maintain_loop].
  { intros [= <- <- <-]. split; [by left|done]. }
  intros H. apply bind_ok in H as ([[s1 rec1] n1] & E & H). apply bind_ok in H as ([[ss1 rec2] n2] & E2 & H). injection H as <- <- <-.
  apply maintain_slot_spec in E as [Hs1 Ht1]; [|done|done]. apply IH in E2 as [Hs2 Ht2]. split; [|auto].
  destruct Hs1 as [[-> Hm]|(-> & -> & Hu & Hc)].
  - destruct Hs2 as [[-> HF]|(a & s0 & b & a' & s0' & b' & -> & -> & -> & -> & Ha & Hb & Hu & Hc)]; [left; split; [done|by constructor]|].
    right. exists (s :: a), s0, b, (s1 :: a'), s0', b'. split_and!; try done; [f_equal; cbn; lia|by constructor].
  - destruct Hs2 as [[-> HF]|(a & s0 & b & a' & s0' & b' & ? & _)]; [|done]. right. exists [], s, ss, [], s1, ss1. split_and!; try done. f_equal. cbn. lia.
Qed.

Lemma recycle_step_spec e t i s s' back wait : claimed s -> recycle_step e t i s = (s', back, wait) -> (if back then unclaimed s' else claimed s') /\ 0 < wait.
Proof.
  intros [Hi Hd]. unfold recycle_step. destruct (0 <? len _); [intros [= <- <- <-]; done|].
  destruct (redial e i _) as [up s1] eqn:Hr. apply redial_spec in Hr as (Hi1 & Hd1 & _).
  assert (idle s1 = false /\ rollback_deadline s1 = 0) as [Hi' Hd'].
  { split; [rewrite Hi1|apply Hd1]; by destruct (is_ready (conn s)). }
  destruct up; intros [= <- <- <-]; [split; [by left|done]|]. split; [done|apply retry_wait_pos].
Qed.

Lemma deadline_tick t ss next : tick next -> tick (foldl (next_deadline t) next ss).
Proof.
  revert next. induction ss as [|s ss IH]; intros next Hn; [done|]. cbn [foldl]. apply IH. unfold next_deadline.
  destruct (Z.ltb_spec t (expires_at s)) as [Hlt|]; [|done]. destruct (Z.ltb_spec (expires_at s - t) (next * millisecond)) as [Hx|]; [|done]. cbn [andb].
  unfold tick in *. split; [apply wait_pos; lia|]. pose proof (Z.div_lt_upper_bound (expires_at s - t) millisecond next). unfold millisecond in *. lia.
Qed.

(** ** Every connection accounted for *)

(** The borrowers [held] and the recycle have distinct connections out of the idle set;
    every other connection is idle or being rolled back. *)
Record accounted (p : PgPool) (held : list nat) : Prop := {
  ac_nodup : NoDup held;
  ac_held : forall i, i ∈ held -> (i < length (slots p))%nat /\ recycling p <> Some i;
  ac_rec : forall i, recycling p = Some i -> (i < length (slots p))%nat;
  ac_slot : forall i s, slots p !! i = Some s -> (i ∈ held \/ recycling p = Some i -> claimed s) /\ (i ∉ held -> recycling p <> Some i -> unclaimed s)
}.

Definition keeps_place (s s' : Slot) : Prop := (claimed s -> claimed s') /\ (unclaimed s -> unclaimed s').

Lemma moves_keeps_place s s' : moves s s' -> keeps_place s s'.
Proof. intros [Hc Hu]. split; [|done]. intros H. by rewrite Hc. Qed.

Lemma accounted_placed p held : accounted p held -> Forall placed (slots p).
Proof.
  intros Hp. apply Forall_lookup. intros i s Hs. destruct (ac_slot _ _ Hp i s Hs) as [Hc Hu].
  destruct (decide (i ∈ held)); [right; auto|]. destruct (decide (recycling p = Some i)); [right; auto|left; auto].
Qed.

Lemma accounted_keeps p p' held : accounted p held -> recycling p' = recycling p -> Forall2 keeps_place (slots p) (slots p') -> accounted p' held.
Proof.
  intros [Hn Hh Hr Hs] E HF. pose proof (Forall2_length _ _ _ HF) as Hl. split; rewrite ?E, <- ?Hl; [done..|].
  intros i s' Hi. destruct (Forall2_lookup_r _ _ _ _ _ HF Hi) as (s & Hi' & Hc & Hu). destruct (Hs _ _ Hi') as [H1 H2]. split; auto.
Qed.

Lemma accounted_moves p ss held : accounted p held -> Forall2 moves (slots p) ss -> accounted (p <| slots := ss |>) held.
Proof. intros Hp HF. apply (accounted_keeps p); [done|done|]. eapply Forall2_impl; [exact HF|apply moves_keeps_place]. Qed.

(** A change of hands of connection [i] alone. *)
Lemma accounted_at i p p' held held' : accounted p held -> NoDup held' -> (i < length (slots p))%nat -> length (slots p') = length (slots p) ->
  (forall j, j <> i -> ((j ∈ held') <-> (j ∈ held)) /\ (recycling p' = Some j <-> recycling p = Some j)) ->
  (forall j s s', j <> i -> slots p !! j = Some s -> slots p' !! j = Some s' -> keeps_place s s') ->
  (forall s', slots p' !! i = Some s' -> (i ∈ held' /\ recycling p' <> Some i \/ (i ∉ held') /\ recycling p' = Some i) /\ claimed s' \/ (i ∉ held') /\ recycling p' <> Some i /\ unclaimed s') ->
  accounted p' held'.
Proof.
  intros [Hn Hh Hr Hs] Hn' Hi Hl Hj Hss Hat. destruct (lookup_lt_is_Some_2 (slots p') i) as [si Hsi]; [lia|]. specialize (Hat si Hsi).
  split; [done|..]; rewrite ?Hl.
  - intros j Hj'. destruct (decide (j = i)) as [->|Hne]; [split; [done|tauto]|]. destruct (Hj j Hne) as [H1 H2]. rewrite H2. by apply Hh, H1.
  - intros j Hj'. destruct (decide (j = i)) as [->|Hne]; [done|]. by apply Hr, Hj.
  - intros j s' Hs'. destruct (decide (j = i)) as [->|Hne]; [assert (s' = si) as -> by congruence; tauto|].
    destruct (lookup_lt_is_Some_2 (slots p) j) as [s Hs0]; [rewrite <- Hl; by eapply lookup_lt_Some|].
    destruct (Hss j s s' Hne Hs0 Hs') as [H1 H2]. destruct (Hs j s Hs0) as [H3 H4]. destruct (Hj j Hne) as [E1 E2]. rewrite E1, E2. auto.
Qed.

Lemma not_held p held i s : accounted p held -> slots p !! i = Some s -> unclaimed s -> (i ∉ held) /\ recycling p <> Some i.
Proof. intros Hp Hs Hu. split; intros Hi; apply (claimed_not s); try done; eapply (ac_slot _ _ Hp i s Hs); auto. Qed.

Lemma stays_lookup ss ss' j s s' : Forall2 moves ss ss' -> ss !! j = Some s -> ss' !! j = Some s' -> keeps_place s s'.
Proof. intros HF H H'. apply moves_keeps_place. by eapply (Forall2_lookup_lr moves). Qed.

(** The connection handed from one side to the other among others that only move. *)
Lemma stays_around a s b a' s' b' j x x' : Forall2 moves a a' -> Forall2 moves b b' -> j <> length a' -> (a ++ s :: b) !! j = Some x -> (a' ++ s' :: b') !! j = Some x' -> keeps_place x x'.
Proof.
  intros Ha Hb Hj. pose proof (Forall2_length _ _ _ Ha) as Hl. destruct (decide (j < length a')%nat) as [Hlt|Hge].
  - rewrite !lookup_app_l by lia. by apply stays_lookup.
  - rewrite !lookup_app_r by lia. rewrite Hl. destruct (j - length a')%nat eqn:E; [lia|]. cbn. by apply stays_lookup.
Qed.

Lemma acquire_accounted e p held r p' : accounted p held -> acquire e p = Ok (r, p') ->
  accounted p' (option_list r ++ held) /\
  (forall i, r = Some i -> (i ∉ held) /\ exists s, slots p' !! i = Some s /\ clean (conn s)) /\ (r = None -> Forall (fun s => ~ grantable s) (slots p')).
Proof.
  intros Hp. unfold acquire. intros H. apply bind_ok in H as ([r1 ss] & E & H). injection H as <- <-.
  apply acquire_loop_spec in E; [|by eapply accounted_placed]. destruct r1 as [i|]; [|destruct E; split_and!; [by apply accounted_moves|done|done]].
  destruct E as (a & s & b & a' & s' & Ess & -> & -> & Ha & Hu & Hc & Hcl). pose proof (Forall2_length _ _ _ Ha) as Hl.
  assert (slots p !! length a' = Some s) as Hs by (rewrite Ess, <- Hl; apply middle). destruct (not_held _ _ _ _ Hp Hs Hu) as [Hni Hnr]. change (0 + length a')%nat with (length a'). change (option_list (Some (length a')) ++ held) with (length a' :: held).
  split_and!; [|intros i [= <-]; split; [done|]; exists s'; split; [apply middle|done]|done].
  apply (accounted_at (length a') p _ held); [done|constructor; [done|apply (ac_nodup _ _ Hp)]|by eapply lookup_lt_Some|rewrite Ess; cbn; rewrite !length_app; cbn; lia|..].
  - intros j Hj. split; [rewrite elem_of_cons; tauto|done].
  - intros j x x' Hj Hx Hx'. rewrite Ess in Hx. by eapply stays_around; [..|exact Hx|exact Hx']; [|apply moves_all|].
  - intros x Hx. cbn in Hx. rewrite middle in Hx. injection Hx as <-. left. split; [left|done]. split; [by left|done].
Qed.

Lemma release_accounted e i p held p' : env_ok e -> accounted p held -> i ∈ held -> release e i p = Ok p' -> accounted p' (filter (fun j => j <> i) held).
Proof.
  intros He Hp Hi. destruct (ac_held _ _ Hp i Hi) as [Hlt Hnr]. destruct (lookup_lt_is_Some_2 _ _ Hlt) as [s Hs]. unfold release. rewrite Hs.
  destruct (ac_slot _ _ Hp i s Hs) as [Hc _]. destruct (Hc (or_introl Hi)) as [Hidle Hd].
  assert (i ∉ filter (fun j => j <> i) held) as Hni by (intros H%list_elem_of_filter; tauto).
  assert (forall s' rec, (rec = recycling p /\ unclaimed s') \/ (recycling p = None /\ rec = Some i /\ claimed s') -> accounted (p <| slots := <[i := s']> (slots p) |> <| recycling := rec |>) (filter (fun j => j <> i) held)) as Hto.
  { intros s' rec Hor. apply (accounted_at i p _ held); [done|apply NoDup_filter, (ac_nodup _ _ Hp)|done|apply length_insert|..].
    - intros j Hj. split; [rewrite list_elem_of_filter; tauto|]. cbn. destruct Hor as [[-> _]|(-> & -> & _)]; [done|split; congruence].
    - intros j x x' Hj Hx Hx'. cbn in Hx'. rewrite list_lookup_insert_ne in Hx' by done. by assert (x' = x) as -> by congruence.
    - intros x Hx. cbn in Hx. rewrite list_lookup_insert_eq in Hx by done. injection Hx as <-. cbn. destruct Hor as [[-> Hu]|(_ & -> & Hcl)]; [by right|]. left. split; [by right|done]. }
  assert (forall s' p', claimed s' -> (if (expires_at s' <=? clock p) && bool_decide (recycling p = None) then p <| slots := <[i := s']> (slots p) |> <| recycling := Some i |>
      else p <| slots := <[i := s' <| idle := true |>]> (slots p) |>) = p' -> accounted p' (filter (fun j => j <> i) held)) as Hgive.
  { intros s' q [Hc1 Hc2] <-. destruct (_ <=? _); cbn [andb]; [case_bool_decide as Hrec|]; [by apply Hto; right| |]; apply (Hto _ (recycling p)); left; (split; [done|by left]). }
  destruct (0 <? len _); [intros [= H]; eapply Hgive; [|exact H]; done|]. destruct (negb _ && is_ready (conn s)).
  - intros H. apply bind_ok in H as (s' & E & H). injection H as <-. apply start_rollback_unclaimed in E; [|done|done]. apply (Hto _ (recycling p)). by left.
  - intros [= H]. eapply Hgive; [|exact H]. done.
Qed.

Lemma maintain_accounted e t p held next p' : env_ok e -> accounted p held -> maintain e t p = Ok (next, p') -> accounted p' held /\ tick next.
Proof.
  intros He Hp. unfold maintain. intros H. apply bind_ok in H as ([[ss rec] n1] & E & H). apply maintain_loop_spec in E as [Hl Ht]; [|done|by eapply accounted_placed].
  specialize (Ht ltac:(unfold tick, maintenance_idle_ms; lia)).
  assert (accounted (p <| slots := ss |> <| clock := t |> <| recycling := rec |>) held) as Hq.
  { destruct Hl as [[-> HF]|(a & s & b & a' & s' & b' & Hrec & -> & Ess & -> & Ha & Hb & Hu & Hc)].
    - apply (accounted_keeps p); [done|done|]. eapply Forall2_impl; [exact HF|apply moves_keeps_place].
    - pose proof (Forall2_length _ _ _ Ha) as Hla. pose proof (Forall2_length _ _ _ Hb) as Hlb.
      assert (slots p !! length a' = Some s) as Hs by (rewrite Ess, <- Hla; apply middle). destruct (not_held _ _ _ _ Hp Hs Hu) as [Hni _].
      apply (accounted_at (length a') p _ held); [done|apply (ac_nodup _ _ Hp)|by eapply lookup_lt_Some|rewrite Ess; cbn; rewrite !length_app; cbn; lia|..].
      + intros j Hj. split; [done|]. cbn. rewrite Hrec. split; congruence.
      + intros j x x' Hj Hx Hx'. rewrite Ess in Hx. by eapply stays_around; [..|exact Hx|exact Hx'].
      + intros x Hx. cbn in Hx. rewrite middle in Hx. injection Hx as <-. left. split; [by right|done]. }
  destruct rec as [i|]; [|injection H as <- <-; split; [done|by apply deadline_tick]].
  pose proof (ac_rec _ _ Hq i eq_refl) as Hi. cbn in Hi. destruct (lookup_lt_is_Some_2 _ _ Hi) as [s Hs]. rewrite Hs in H.
  destruct (recycle_step e t i s) as [[s' back] wait] eqn:Er. destruct (ac_slot _ _ Hq i s Hs) as [Hc _]. apply recycle_step_spec in Er as [Hback Hw]; [|by apply Hc; right].
  injection H as <- <-. split; [|by apply deadline_tick, tick_sooner].
  apply (accounted_at i _ _ held _ Hq); [apply (ac_nodup _ _ Hp)|done|apply length_insert|..].
  - intros j Hj. split; [done|]. cbn. destruct back; split; congruence.
  - intros j x x' Hj Hx Hx'. cbn in Hx, Hx'. rewrite list_lookup_insert_ne in Hx' by done. by assert (x' = x) as -> by congruence.
  - intros x Hx. cbn in Hx. rewrite list_lookup_insert_eq in Hx by done. injection Hx as <-. cbn.
    assert (i ∉ held) as Hni by (intros Hin; by apply (ac_held _ _ Hq) in Hin as [_ ?]). destruct back; [by right|]. left. split; [by right|done].
Qed.

(** ** The pool in use *)

(** What the worker does with a pool, and the connections its borrowers hold then. Only
    a borrower releases; the connections are used at any time, by anyone. *)
Inductive pool_step : PgPool * list nat -> PgPool * list nat -> Prop :=
  | step_acquire e p held r p' : acquire e p = Ok (r, p') -> pool_step (p, held) (p', option_list r ++ held)
  | step_pipelined e p held r p' : acquire_pipelined e p = Ok (r, p') -> pool_step (p, held) (p', held)
  | step_pipelined_for e n p held r p' : acquire_pipelined_for e n p = Ok (r, p') -> pool_step (p, held) (p', held)
  | step_release e i p held p' : env_ok e -> i ∈ held -> release e i p = Ok p' -> pool_step (p, held) (p', filter (fun j => j <> i) held)
  | step_maintain e t p held next p' : env_ok e -> maintain e t p = Ok (next, p') -> pool_step (p, held) (p', held)
  | step_use i s o b a c p held : slots p !! i = Some s -> do_op o (conn s) = Ok (b, a, c) -> pool_step (p, held) (p <| slots := <[i := s <| conn := c |>]> (slots p) |>, held).

(** As [PgPool.connect] leaves it. *)
Definition fresh (p : PgPool) : Prop := recycling p = None /\ Forall (fun s => idle s = true /\ rollback_deadline s = 0) (slots p).

Lemma pipelined_spec e p held r p' : accounted p held -> acquire_pipelined e p = Ok (r, p') -> accounted p' held /\ recycling p' = recycling p /\ shortest has_slot (slots p') r.
Proof.
  intros Hp. unfold acquire_pipelined. intros H. apply bind_ok in H as ([r1 ss] & E & H). injection H as <- <-.
  apply (pipelined_loop_spec e []) in E as [HF Hr]; [|by eapply accounted_placed|].
  - split_and!; [by apply accounted_moves|done|done].
  - split; [|done]. intros s Hs. by apply not_elem_of_nil in Hs.
Qed.

Lemma pipelined_for_spec e n p held r p' : accounted p held -> acquire_pipelined_for e n p = Ok (r, p') -> accounted p' held /\ recycling p' = recycling p /\ chosen n (slots p') r.
Proof.
  intros Hp. unfold acquire_pipelined_for. intros H. apply bind_ok in H as ([r1 ss] & E & H). injection H as <- <-.
  apply (for_loop_spec e n []) in E as [HF Hr]; [|by eapply accounted_placed|apply seen_nil]. split_and!; [by apply accounted_moves|done|done].
Qed.

Lemma use_accounted i s c p held : accounted p held -> slots p !! i = Some s -> accounted (p <| slots := <[i := s <| conn := c |>]> (slots p) |>) held.
Proof.
  intros Hp Hs. apply (accounted_keeps p); [done|done|]. apply Forall2_same_length_lookup_2; [cbn; by rewrite length_insert|]. intros j x x' Hx Hx'. cbn in Hx'.
  destruct (decide (j = i)) as [->|Hne].
  - rewrite list_lookup_insert_eq in Hx' by (by eapply lookup_lt_Some). by simplify_eq.
  - rewrite list_lookup_insert_ne in Hx' by done. by simplify_eq.
Qed.

Lemma step_accounted st st' : pool_step st st' -> accounted st.1 st.2 -> accounted st'.1 st'.2.
Proof.
  intros [e p held r p' H|e p held r p' H|e n p held r p' H|e i p held p' He Hi H|e t p held next p' He H|i s o b a c p held Hs H] Hp; cbn [fst snd] in *.
  - by eapply acquire_accounted.
  - by eapply pipelined_spec.
  - by eapply pipelined_for_spec.
  - by eapply release_accounted.
  - by eapply maintain_accounted.
  - by apply use_accounted.
Qed.

Lemma fresh_accounted p : fresh p -> accounted p [].
Proof.
  intros [Hr HF]. split; [constructor|by intros i ?%not_elem_of_nil|congruence|]. intros i s Hs. rewrite Forall_lookup in HF. split; [|left; by eapply HF].
  intros [?%not_elem_of_nil|?]; [done|congruence].
Qed.

Lemma reachable_accounted p0 st : fresh p0 -> rtc pool_step (p0, []) st -> accounted st.1 st.2.
Proof.
  intros H0 H. apply (rtc_ind_r (R := pool_step) (fun st => accounted st.1 st.2) (p0, [])) with (z := st); [by apply fresh_accounted| |done].
  intros st1 st2 _ Hs Ha. by apply (step_accounted st1).
Qed.

(** C6: in every state a pool comes to from [connect] — under any sequence of acquires,
    releases by the borrowers, maintenance ticks and uses of the connections, whatever the
    network and the clock do — the borrowers and the recycle have distinct connections out
    of the idle set and every other one is idle or being rolled back, so none is lost; what
    [acquire] grants was nobody's, and is up, with nothing in flight, in no transaction;
    it refuses only when no idle connection is like that; and what the two pipelined
    acquires share is never held by a borrower nor by the recycle, and can take a query. *)
Theorem grants_are_safe p0 p held e : fresh p0 -> rtc pool_step (p0, []) (p, held) ->
  accounted p held /\
  (forall i p', acquire e p = Ok (Some i, p') -> (i ∉ held) /\ recycling p <> Some i /\ accounted p' (i :: held) /\ exists s, slots p' !! i = Some s /\ clean (conn s)) /\
  (forall p', acquire e p = Ok (None, p') -> Forall (fun s => ~ grantable s) (slots p')) /\
  (forall i p', acquire_pipelined e p = Ok (Some i, p') -> (i ∉ held) /\ recycling p <> Some i /\ exists s, slots p' !! i = Some s /\ has_slot s = true) /\
  (forall n i p', acquire_pipelined_for e n p = Ok (inr i, p') -> (i ∉ held) /\ recycling p <> Some i /\ exists s, slots p' !! i = Some s /\ takes n s = true).
Proof.
  intros H0 H. pose proof (reachable_accounted _ _ H0 H) as Hp. cbn [fst snd] in Hp.
  assert (forall p' i s, accounted p' held -> slots p' !! i = Some s -> shareable s = true -> (i ∉ held) /\ recycling p' <> Some i) as Hsh.
  { intros p' i s Hp' Hs Hshare. assert (idle s = true) as Hidle by (unfold shareable in Hshare; by apply andb_true_iff in Hshare as [[? _]%andb_true_iff _]).
    apply (not_held _ _ _ _ Hp' Hs). destruct (Forall_lookup_1 _ _ _ _ (accounted_placed _ _ Hp') Hs) as [?|[? _]]; [done|congruence]. }
  split_and!; [done|..].
  - intros i p' Ha. pose proof (acquire_accounted _ _ _ _ _ Hp Ha) as (Hp' & Hg & _). destruct (Hg i eq_refl) as [Hni Hcl]. split_and!; [done| |done|done].
    assert (recycling p' = recycling p) as <-. { unfold acquire in Ha. apply bind_ok in Ha as ([? ?] & _ & Ha). by injection Ha as _ <-. }
    apply (ac_held _ _ Hp'). by left.
  - intros p' Ha. by apply (acquire_accounted _ _ _ _ _ Hp Ha).
  - intros i p' Ha. apply (pipelined_spec _ _ held) in Ha as (Hp' & <- & (s & Hs & Ht & _)); [|done].
    destruct (Hsh p' i s Hp' Hs); [by unfold has_slot in Ht; apply andb_true_iff in Ht as [? _]|]. eauto.
  - intros n i p' Ha. apply (pipelined_for_spec _ _ _ held) in Ha as (Hp' & <- & (s & Hs & Ht & _)); [|done].
    destruct (Hsh p' i s Hp' Hs); [by unfold takes in Ht; apply andb_true_iff in Ht as [? _]|]. eauto.
Qed.

(** C30: [acquire_pipelined_for], in every state a pool comes to, finds exactly what it
    says: the shared connection with the shortest pipeline among those on which a submit of
    the frame is accepted; [FrameTooLarge], with the widest connection's error, exactly when
    every send buffer is smaller than the frame; and a [Shed] when no connection takes it
    now, with the reason the connections give. *)
Theorem frame_finds_its_connection p0 p held e n r p' : fresh p0 -> rtc pool_step (p0, []) (p, held) -> acquire_pipelined_for e n p = Ok (r, p') -> chosen n (slots p') r.
Proof. intros H0 H Hr. pose proof (reachable_accounted _ _ H0 H) as Hp. by eapply pipelined_for_spec in Hr as (_ & _ & Hr). Qed.

(** With no ROLLBACK in flight [acquire] reads nothing from a socket, and returns. *)
Lemma acquire_loop_returns e k ss : Forall (fun s => idle s = true \/ rollback_deadline s = 0) ss -> exists x, acquire_loop e k ss = Ok x.
Proof.
  intros HF. revert k. induction HF as [|s ss Hs HF IH]; intros k; cbn [acquire_loop]; [eauto|].
  assert (exists free, unheld e k s = Ok (free, s)) as [free Hu].
  { unfold unheld. destruct (idle s); [eauto|]. destruct Hs as [?|Hs]; [done|]. rewrite Hs. eauto. }
  rewrite Hu. cbn [mbind outcome_bind]. destruct (if free && _ then _ else _) as [up s2]. destruct (_ && _); [eauto|].
  destruct (IH (S k)) as [[r ss'] ->]. eauto.
Qed.

End pool.

(** A connection gets some lifetime, at most what is configured, and less than that by at
    most the jitter. *)
Lemma lifetime_bounds cfg addr t : 0 < max_lifetime_ms cfg < 2 ^ 31 -> lifetime_jitter_ms cfg < 2 ^ 31 -> 0 <= t < 2 ^ 63 ->
  t < lifetime_deadline cfg addr t <= t + max_lifetime_ms cfg * millisecond /\
  t + (max_lifetime_ms cfg - Z.max 0 (lifetime_jitter_ms cfg)) * millisecond <= lifetime_deadline cfg addr t.
Proof.
  intros Hl Hj Ht. unfold lifetime_deadline. rewrite (proj2 (Z.leb_gt (max_lifetime_ms cfg) 0)) by lia. unfold u64.
  rewrite (Z.mod_small (max_lifetime_ms cfg * millisecond)) by (unfold millisecond; lia). set (life := max_lifetime_ms cfg * millisecond).
  assert (0 < life < 2 ^ 62) as Hlife by (unfold life, millisecond; lia).
  assert ((if 0 <? lifetime_jitter_ms cfg then (lifetime_jitter_ms cfg * millisecond) mod 2 ^ 64 else 0) = Z.max 0 (lifetime_jitter_ms cfg) * millisecond) as ->.
  { destruct (Z.ltb_spec 0 (lifetime_jitter_ms cfg)); [rewrite Z.mod_small by (unfold millisecond; lia)|]; unfold millisecond; lia. }
  set (jitter := Z.max 0 (lifetime_jitter_ms cfg) * millisecond). assert (0 <= jitter) by (unfold jitter, millisecond; lia).
  set (span := if life <=? jitter then life - 1 else jitter). assert (0 <= span < life /\ span <= jitter) by (unfold span; destruct (Z.leb_spec life jitter); lia).
  pose proof (Z.mod_pos_bound (splitmix64 (Z.lxor t addr)) (span + 1) ltac:(lia)). rewrite Z.mod_small by lia.
  replace ((max_lifetime_ms cfg - Z.max 0 (lifetime_jitter_ms cfg)) * millisecond) with (life - jitter) by (unfold life, jitter; lia). lia.
Qed.

(** ** An example *)

Definition demo_cfg : Config := mkConfig 0 0 0.
Definition demo_slot : Slot := mkSlot demo_conn true 0 0 0 (2 ^ 64 - 1).
Definition demo_pool : PgPool := mkPool [demo_slot; demo_slot] 0 None.
(** Nothing arrives; what is sent is taken. *)
Definition demo_env : Env := mkEnv (fun _ => 7) (fun _ => 7) (fun _ => [Sent 4096]) (fun _ => []) (fun _ => None) (fun _ => mkDial DialFails [] 0 0) (fun _ => PeekNothing).

Definition pool_of {A} (p : PgPool) (o : outcome (A * PgPool)) : PgPool := match o with Ok (_, p) => p | _ => p end.
Definition conn_of {A} (c : PgConn) (o : outcome (A * PgConn)) : PgConn := match o with Ok (_, c) => c | _ => c end.

(** A borrower begins a transaction on connection 0 and bails out. *)
Definition demo_begin : PgConn := conn_of demo_conn (do_op (OpSubmit (bytes_of "begin") []) demo_conn).
Definition demo_begun : PgConn := conn_of demo_conn (do_op (OpReadable [Recv (enc_msg (mkMsg bt_ready_for_query (bytes_of "T")))]) demo_begin).
Definition held_slot (c : PgConn) : Slot := demo_slot <| conn := c |> <| idle := false |>.
Definition demo_bailed : PgPool := match release demo_env 0 (demo_pool <| slots := [held_slot demo_begun; demo_slot] |>) with Ok p => p | _ => demo_pool end.

Lemma demo_env_ok : env_ok demo_env.
Proof. intros i. cbn. lia. Qed.

Lemma demo_fresh : fresh demo_pool.
Proof. split; [done|]. by repeat constructor. Qed.

Lemma demo_run : rtc (pool_step demo_cfg (fun _ => 0)) (demo_pool, []) (demo_bailed, []).
Proof.
  eapply rtc_l; [apply (step_acquire demo_cfg (fun _ => 0) demo_env demo_pool [] (Some 0%nat) (demo_pool <| slots := [held_slot demo_conn; demo_slot] |>)); vm_compute; reflexivity|].
  eapply rtc_l; [apply (step_use demo_cfg (fun _ => 0) 0 (held_slot demo_conn) (OpSubmit (bytes_of "begin") []) true None demo_begin); vm_compute; reflexivity|].
  eapply rtc_l; [apply (step_use demo_cfg (fun _ => 0) 0 (held_slot demo_begin) (OpReadable [Recv (enc_msg (mkMsg bt_ready_for_query (bytes_of "T")))]) false
    (Some (Done (mkResult (enc_msg (mkMsg bt_ready_for_query (bytes_of "T"))) 0))) demo_begun); vm_compute; reflexivity|].
  eapply rtc_l; [apply (step_release demo_cfg (fun _ => 0) demo_env 0 _ _ demo_bailed); [apply demo_env_ok|by left|vm_compute; reflexivity]|]. apply rtc_refl.
Qed.

(** The transaction left on connection 0 is being rolled back, and the next borrower gets
    connection 1. *)
Lemma grants_are_safe_witness : exists p', acquire demo_cfg (fun _ => 0) demo_env demo_bailed = Ok (Some 1%nat, p') /\ accounted p' [1%nat] /\ (idle <$> slots p') = [false; false] /\ (rollback_deadline <$> slots p') = [5000000007; 0].
Proof.
  exists (pool_of demo_pool (acquire demo_cfg (fun _ => 0) demo_env demo_bailed)). assert (acquire demo_cfg (fun _ => 0) demo_env demo_bailed = Ok (Some 1%nat, pool_of demo_pool (acquire demo_cfg (fun _ => 0) demo_env demo_bailed))) as H by (vm_compute; reflexivity).
  destruct (grants_are_safe demo_cfg (fun _ => 0) demo_pool demo_bailed [] demo_env demo_fresh demo_run) as (_ & Ha & _).
  split_and!; [exact H|apply (Ha _ _ H)|vm_compute; reflexivity|vm_compute; reflexivity].
Defined.

(** There, a frame of 100 bytes goes to connection 1 as well, and one of 65537 nowhere. *)
Lemma frame_finds_its_connection_witness : let for_ n := acquire_pipelined_for demo_cfg (fun _ => 0) demo_env n demo_bailed in
  for_ 100 = Ok (inr 1%nat, pool_of demo_pool (for_ 100)) /\ for_ 65537 = Ok (inl (FrameTooLarge 65536), demo_bailed) /\
  shortest (takes 100) (slots (pool_of demo_pool (for_ 100))) (Some 1%nat) /\ Forall (fun s => max_frame_len (conn s) < 65537) (slots demo_bailed).
Proof.
  intros for_. assert (for_ 100 = Ok (inr 1%nat, pool_of demo_pool (for_ 100))) as H1 by (vm_compute; reflexivity).
  assert (for_ 65537 = Ok (inl (FrameTooLarge 65536), demo_bailed)) as H2 by (vm_compute; reflexivity).
  split; [exact H1|]. split; [exact H2|]. split.
  - exact (frame_finds_its_connection demo_cfg (fun _ => 0) demo_pool demo_bailed [] demo_env 100 _ _ demo_fresh demo_run H1).
  - exact (proj1 (frame_finds_its_connection demo_cfg (fun _ => 0) demo_pool demo_bailed [] demo_env 65537 _ _ demo_fresh demo_run H2)).
Defined.
