(* ===== verification/Ipc.v ===== *)
(** bench/ipcbench.c: the client and the server of the loopback benchmark as two processes
    over stream connections with bounded buffers, run in every interleaving and with every
    short read and write. *)
From S2P Require Import Prelude WireBytes.
Local Open Scope Z_scope.

(** ** Processes and connections *)

(** One call of the benchmark's code. [WriteFull] and [ReadFull] are the loops of
    [write_full] and [read_full] with their position in the buffer and the bytes left;
    [Stream] is one chunk of the throughput phase with its [sent += TP_CHUNK], [Sink] the
    server's read-and-discard loop, [SendAck] and [ReadAck] the eight bytes of the count. *)
Inductive cmd :=
  | Connect
  | Accept
  | WriteFull (off rem : nat)
  | ReadFull (off rem : nat)
  | Stream (off rem : nat)
  | Sink
  | SendAck (off rem : nat)
  | ReadAck (off rem : nat)
  | ShutWr
  | Close.

(** A connection: the bytes under way in each direction, and which ends were shut. *)
Record conn := mkConn { up : list byte; down : list byte; up_fin : bool; client_closed : bool; server_closed : bool }.

#[export] Instance eta_conn : Eta conn := mkEta _ (fun k => mkConn (up k) (down k) (up_fin k) (client_closed k) (server_closed k)).

(** A process: the calls to go, its connection, [buf], the counter [sent] or [total], and
    the bytes of [got] read so far. *)
Record process := mkProc { code : list cmd; cur : nat; buf : list byte; count : Z; got : list byte }.

#[export] Instance eta_process : Eta process := mkEta _ (fun p => mkProc (code p) (cur p) (buf p) (count p) (got p)).

(** [dead]: a process has ended in [die], in an unexpected end of the stream, by writing to
    a closed connection, or has reset one by closing it with bytes unread. *)
Record world := mkWorld { conns : list conn; accepted : nat; client : process; server : process; dead : bool }.

#[export] Instance eta_world : Eta world := mkEta _ (fun w => mkWorld (conns w) (accepted w) (client w) (server w) (dead w)).

Definition write_at (off : nat) (bs b : list byte) : list byte := take off b ++ bs ++ drop (off + length bs) b.

(** A native [uint64_t] in memory. *)
Definition le8 (z : Z) : list byte := rev (be_bytes 8 z).

Section Ipc.
(** The buffer of a connection in each direction and the backlog of the listener are the
    kernel's; [T] is [TP_CHUNK]. *)
Context (cap backlog T : nat).

(** [p += r; n -= r] and the test of the loop. *)
Definition advance (again : nat -> nat -> cmd) (off rem r : nat) (p : list cmd) : list cmd := if (rem =? r)%nat then p else again (off + r)%nat (rem - r)%nat :: p.

(** Whether a call may move [r] of [rem] bytes. *)
Definition moves (r rem room : nat) : bool := (0 <? r)%nat && (r <=? rem)%nat && (r <=? room)%nat.

(** How one call of a process on its connection goes: it would block (or cannot move that
    many bytes), it ends the process, or it leaves the connection and the process so. A call
    interrupted by a signal is issued again, which changes nothing. *)
Inductive io := Blocks | Dies | Moves (k : conn) (c : process).

(** The client's call [i], moving [r] bytes, with [p] to go behind it. *)
Definition client_io (r : nat) (i : cmd) (p : list cmd) (k : conn) (c : process) : io :=
  match i with
  | WriteFull off rem =>
      if server_closed k then Dies
      else if moves r rem (cap - length (up k)) then Moves (k <| up := up k ++ take r (drop off (buf c)) |>) (c <| code := advance WriteFull off rem r p |>)
      else Blocks
  | Stream off rem =>
      if server_closed k then Dies
      else if moves r rem (cap - length (up k))
      then Moves (k <| up := up k ++ take r (drop off (buf c)) |>)
             (c <| code := advance Stream off rem r p |> <| count := if (rem =? r)%nat then (count c + Z.of_nat T) mod 2 ^ 64 else count c |>)
      else Blocks
  | ReadFull off rem =>
      if bool_decide (down k = []) then if server_closed k then Dies else Blocks
      else if moves r rem (length (down k))
      then Moves (k <| down := drop r (down k) |>) (c <| code := advance ReadFull off rem r p |> <| buf := write_at off (take r (down k)) (buf c) |>)
      else Blocks
  | ReadAck off rem =>
      if bool_decide (down k = []) then if server_closed k then Dies else Blocks
      else if moves r rem (length (down k)) then Moves (k <| down := drop r (down k) |>) (c <| code := advance ReadAck off rem r p |> <| got := got c ++ take r (down k) |>)
      else Blocks
  | ShutWr => Moves (k <| up_fin := true |>) (c <| code := p |>)
  | Close => if bool_decide (down k = []) then Moves (k <| up_fin := true |> <| client_closed := true |>) (c <| code := p |>) else Dies
  | _ => Blocks
  end.

(** The server's. *)
Definition server_io (r : nat) (i : cmd) (p : list cmd) (k : conn) (s : process) : io :=
  match i with
  | WriteFull off rem =>
      if client_closed k then Dies
      else if moves r rem (cap - length (down k)) then Moves (k <| down := down k ++ take r (drop off (buf s)) |>) (s <| code := advance WriteFull off rem r p |>)
      else Blocks
  | SendAck off rem =>
      if client_closed k then Dies
      else if moves r rem (cap - length (down k)) then Moves (k <| down := down k ++ take r (drop off (le8 (count s))) |>) (s <| code := advance SendAck off rem r p |>)
      else Blocks
  | ReadFull off rem =>
      if bool_decide (up k = []) then if up_fin k then Dies else Blocks
      else if moves r rem (length (up k))
      then Moves (k <| up := drop r (up k) |>) (s <| code := advance ReadFull off rem r p |> <| buf := write_at off (take r (up k)) (buf s) |>)
      else Blocks
  | Sink =>
      if bool_decide (up k = []) then if up_fin k then Moves k (s <| code := p |>) else Blocks
      else if moves r T (length (up k))
      then Moves (k <| up := drop r (up k) |>) (s <| code := Sink :: p |> <| buf := write_at 0 (take r (up k)) (buf s) |> <| count := (count s + Z.of_nat r) mod 2 ^ 64 |>)
      else Blocks
  | Close => if bool_decide (up k = []) then Moves (k <| server_closed := true |>) (s <| code := p |>) else Dies
  | _ => Blocks
  end.

(** One step of the client: [None] when it would block. *)
Definition client_exec (r : nat) (w : world) : option world :=
  let c := client w in
  match code c with
  | [] => None
  | Connect :: p =>
      if (length (conns w) - accepted w <? backlog)%nat
      then Some (w <| conns := conns w ++ [mkConn [] [] false false false] |> <| client := c <| code := p |> <| cur := length (conns w) |> |>)
      else None
  | i :: p =>
      k ← conns w !! cur c;
      match client_io r i p k c with
      | Blocks => None
      | Dies => Some (w <| dead := true |>)
      | Moves k c' => Some (w <| conns := <[cur c := k]> (conns w) |> <| client := c' |>)
      end
  end.

Definition server_exec (r : nat) (w : world) : option world :=
  let s := server w in
  match code s with
  | [] => None
  | Accept :: p =>
      if (accepted w <? length (conns w))%nat then Some (w <| accepted := S (accepted w) |> <| server := s <| code := p |> <| cur := accepted w |> |>) else None
  | i :: p =>
      k ← conns w !! cur s;
      match server_io r i p k s with
      | Blocks => None
      | Dies => Some (w <| dead := true |>)
      | Moves k s' => Some (w <| conns := <[cur s := k]> (conns w) |> <| server := s' |>)
      end
  end.

(** Either process runs; once one has failed, nothing does. *)
Inductive step : world -> world -> Prop :=
  | step_client r w w' : dead w = false -> client_exec r w = Some w' -> step w w'
  | step_server r w w' : dead w = false -> server_exec r w = Some w' -> step w w'.

(** ** The two programs *)

(** Rounds of the ping-pong phase, by size. *)
Definition ping (rounds : list nat) : list cmd := s ← rounds; [WriteFull 0 s; ReadFull 0 s].
Definition pong (rounds : list nat) : list cmd := s ← rounds; [ReadFull 0 s; WriteFull 0 s].

(** [client_suite]: the calls it makes, when [chunks] chunks are written before the
    deadline of the throughput phase. *)
Definition client_suite (rounds : list nat) (chunks churn : nat) : list cmd :=
  Connect :: ping rounds ++ Close
  :: Connect :: replicate chunks (Stream 0 T) ++ ShutWr :: ReadAck 0 8 :: Close
  :: concat (replicate churn [Connect; Close]).

Definition server_loop (rounds : list nat) (churn : nat) : list cmd :=
  Accept :: pong rounds ++ Close :: Accept :: Sink :: SendAck 0 8 :: Close :: concat (replicate churn [Accept; Close]).

(** [run_transport]: the listener is up and the server is forked before the client starts;
    the client's buffer is filled with 'x', the server's is not. *)
Definition run_transport (rounds : list nat) (chunks churn : nat) (sbuf : list byte) : world :=
  mkWorld [] 0 (mkProc (client_suite rounds chunks churn) 0 (replicate T (byte_of_Z 120)) 0 []) (mkProc (server_loop rounds churn) 0 sbuf 0 []) false.
End Ipc.

Definition WARMUP : nat := 2000.
Definition ITERS : nat := 20 * 1000.
Definition CONN_ITERS : nat := 2000.
Definition TP_CHUNK : nat := Nat.pow 2 16.
Definition sizes : list nat := [64; 512; 4096; Nat.pow 2 14]%nat.
Definition all_rounds : list nat := s ← sizes; replicate (WARMUP + ITERS) s.

(** ** Percentiles *)

Definition cmp_u64 (x y : Z) : Z := (if y <? x then 1 else 0) - (if x <? y then 1 else 0).

(** The index of [pct_us], [t] being [(double)n * p] cut to an int. *)
Definition pct_index (n t : Z) : Z := if n <=? t then n - 1 else t.

(** ** One connection at a time *)

Abbreviation x := (byte_of_Z 120).

Section Proofs.
Context (cap backlog T chunks churn : nat) (rounds : list nat).
Hypothesis Hcap : (0 < cap)%nat.
Hypothesis Hback : (0 < backlog)%nat.
Hypothesis HT : (0 < T)%nat.
Hypothesis Hrounds : Forall (fun s => 0 < s <= T)%nat rounds.

Definition xs (l : list byte) : Prop := Forall (fun b => b = x) l.

Definition open (k : conn) : Prop := up_fin k = false /\ client_closed k = false /\ server_closed k = false.

(** Both sides are done with a connection but for closing it. *)
Definition ended (cb sb : list cmd) (k : conn) : Prop := up k = [] /\ down k = [] /\ (cb = [Close] \/ cb = []) /\ (sb = [Close] \/ sb = []).

(** The ping-pong connection: the calls each side has to go on it, what is under way, and
    what the server's buffer holds. *)
Inductive ping_ok (sbuf : list byte) : list cmd -> list cmd -> conn -> Prop :=
  | PiWrite off rem o2 r2 s R k : (0 < rem)%nat -> (0 < r2)%nat -> (off + rem = s)%nat -> (o2 + r2 = s)%nat -> (s <= T)%nat -> (o2 + length (up k) = off)%nat -> down k = [] -> open k -> xs (up k) -> xs (take o2 sbuf) -> Forall (fun s => 0 < s <= T)%nat R ->
      ping_ok sbuf (WriteFull off rem :: ReadFull 0 s :: ping R ++ [Close]) (ReadFull o2 r2 :: WriteFull 0 s :: pong R ++ [Close]) k
  | PiSent o2 r2 s R k : (0 < r2)%nat -> (o2 + r2 = s)%nat -> (s <= T)%nat -> length (up k) = r2 -> down k = [] -> open k -> xs (up k) -> xs (take o2 sbuf) -> Forall (fun s => 0 < s <= T)%nat R ->
      ping_ok sbuf (ReadFull 0 s :: ping R ++ [Close]) (ReadFull o2 r2 :: WriteFull 0 s :: pong R ++ [Close]) k
  | PiEcho o r o2 r2 s R k : (0 < r2)%nat -> (o + r = s)%nat -> (o2 + r2 = s)%nat -> (s <= T)%nat -> (o + length (down k) = o2)%nat -> up k = [] -> open k -> xs (down k) -> xs (take s sbuf) -> Forall (fun s => 0 < s <= T)%nat R ->
      ping_ok sbuf (ReadFull o r :: ping R ++ [Close]) (WriteFull o2 r2 :: pong R ++ [Close]) k
  | PiBack o r R sb k : (0 < r)%nat -> (o + r <= T)%nat -> length (down k) = r -> up k = [] -> up_fin k = false -> client_closed k = false -> xs (down k) -> Forall (fun s => 0 < s <= T)%nat R ->
      (sb = pong R ++ [Close] /\ server_closed k = false) \/ (R = [] /\ sb = []) ->
      ping_ok sbuf (ReadFull o r :: ping R ++ [Close]) sb k
  | PiIdle R k : up k = [] -> down k = [] -> open k -> Forall (fun s => 0 < s <= T)%nat R -> ping_ok sbuf (ping R ++ [Close]) (pong R ++ [Close]) k
  | PiEnd cb sb k : ended cb sb k -> ping_ok sbuf cb sb k.

Lemma xs_app a b : xs (a ++ b) <-> xs a /\ xs b.
Proof. apply Forall_app. Qed.

Lemma xs_take n l : xs l -> xs (take n l).
Proof. apply Forall_take. Qed.

Lemma xs_drop n l : xs l -> xs (drop n l).
Proof. apply Forall_drop. Qed.

Lemma length_write_at off bs b : (off + length bs <= length b)%nat -> length (write_at off bs b) = length b.
Proof. intros H. unfold write_at. rewrite !length_app, length_take, length_drop. lia. Qed.

Lemma xs_write_at off bs b : xs bs -> xs b -> xs (write_at off bs b).
Proof. intros H1 H2. unfold write_at. rewrite !xs_app. split; [by apply xs_take|]. split; [done | by apply xs_drop]. Qed.

Lemma moves_spec r rem room : moves r rem room = true <-> (0 < r)%nat /\ (r <= rem)%nat /\ (r <= room)%nat.
Proof. unfold moves. rewrite !andb_true_iff, Nat.ltb_lt, !Nat.leb_le. tauto. Qed.

(** A round begins. *)
Lemma ping_round sbuf R k : up k = [] -> down k = [] -> open k -> Forall (fun s => 0 < s <= T)%nat R -> ping_ok sbuf (ping R ++ [Close]) (pong R ++ [Close]) k -> R <> [] ->
  exists s R', R = s :: R' /\ ping_ok sbuf (WriteFull 0 s :: ReadFull 0 s :: ping R' ++ [Close]) (ReadFull 0 s :: WriteFull 0 s :: pong R' ++ [Close]) k.
Proof.
  intros Hu Hd Ho HR _ Hne. destruct R as [|s R]; [done|]. apply Forall_cons in HR as [Hs HR]. exists s, R. split; [done|]. apply (PiWrite _ 0 s 0 s s); rewrite ?Hu; cbn; try done; try lia; constructor.
Qed.

Lemma advance_cases again off rem r p : (r <= rem)%nat -> (r = rem /\ advance again off rem r p = p) \/ ((0 < rem - r)%nat /\ advance again off rem r p = again (off + r)%nat (rem - r)%nat :: p).
Proof. intros H. unfold advance. destruct (Nat.eqb_spec rem r); [left | right]; split; done || lia. Qed.

Definition cbuf_ok (c : process) : Prop := xs (buf c) /\ length (buf c) = T.

(** What a call of the client makes of the ping-pong connection. *)
Definition ping_moves (sbuf : list byte) (sb : list cmd) (c : process) (a : io) : Prop :=
  match a with
  | Blocks => True
  | Dies => False
  | Moves k' c' => ping_ok sbuf (code c') sb k' /\ cbuf_ok c' /\ count c' = count c /\ got c' = got c
  end.

Lemma ping_write r off rem o2 r2 s R sbuf k c : (0 < rem)%nat -> (0 < r2)%nat -> (off + rem = s)%nat -> (o2 + r2 = s)%nat -> (s <= T)%nat -> (o2 + length (up k) = off)%nat -> down k = [] -> open k -> xs (up k) -> xs (take o2 sbuf) -> Forall (fun s => 0 < s <= T)%nat R -> cbuf_ok c ->
  ping_moves sbuf (ReadFull o2 r2 :: WriteFull 0 s :: pong R ++ [Close]) c (client_io cap T r (WriteFull off rem) (ReadFull 0 s :: ping R ++ [Close]) k c).
Proof.
  intros Hrem Hr2 Eo Eo2 HsT Hup Hd Ho Hxu Hxs HR [Hx Hl]. cbn [client_io]. destruct Ho as (O1 & O2 & O3). rewrite O3. destruct (moves _ _ _) eqn:Em; [|done]. apply moves_spec in Em as (M1 & M2 & M3). split; [|done]. cbn.
  assert (Hlen : length (up k ++ take r (drop off (buf c))) = (length (up k) + r)%nat) by (rewrite length_app, length_take, length_drop; lia). assert (Hx' : xs (up k ++ take r (drop off (buf c)))) by (apply xs_app; split; [done|]; by apply xs_take, xs_drop).
  destruct (advance_cases WriteFull off rem r (ReadFull 0 s :: ping R ++ [Close]) M2) as [[Er ->]|[Hgt ->]].
  - apply PiSent; try done; cbn; lia.
  - apply PiWrite; try done; cbn; lia.
Qed.

Lemma read_into c r off rem k p : cbuf_ok c -> xs (down k) -> (off + rem <= T)%nat -> (r <= rem)%nat -> (r <= length (down k))%nat ->
  cbuf_ok (c <| code := p |> <| buf := write_at off (take r (down k)) (buf c) |>).
Proof. intros [Hx Hl] Hd H1 H2 H3. split; cbn; [apply xs_write_at; [by apply xs_take | done]|]. rewrite length_write_at; [done|]. rewrite length_take. lia. Qed.

Lemma ping_read_echo r o r1 o2 r2 s R sbuf k c : (0 < r2)%nat -> (o + r1 = s)%nat -> (o2 + r2 = s)%nat -> (s <= T)%nat -> (o + length (down k) = o2)%nat -> up k = [] -> open k -> xs (down k) -> xs (take s sbuf) -> Forall (fun s => 0 < s <= T)%nat R -> cbuf_ok c ->
  ping_moves sbuf (WriteFull o2 r2 :: pong R ++ [Close]) c (client_io cap T r (ReadFull o r1) (ping R ++ [Close]) k c).
Proof.
  intros Hr2 Eo Eo2 HsT Hdn Hu Ho Hxd Hxs HR Hc. cbn [client_io]. case_bool_decide as Hd; [by destruct Ho as (_ & _ & ->)|]. destruct (moves _ _ _) eqn:Em; [|done]. apply moves_spec in Em as (M1 & M2 & M3). split; [|split; [apply (read_into c r o r1); done || lia | done]]. cbn.
  destruct (advance_cases ReadFull o r1 r (ping R ++ [Close]) M2) as [[Er ->]|[Hgt ->]]; [lia|]. apply (PiEcho _ (o + r) (r1 - r) o2 r2 s); try done; cbn; rewrite ?length_drop; try lia. by apply xs_drop.
Qed.

Lemma ping_read_back r o r1 R sb sbuf k c : (0 < r1)%nat -> (o + r1 <= T)%nat -> length (down k) = r1 -> up k = [] -> up_fin k = false -> client_closed k = false -> xs (down k) -> Forall (fun s => 0 < s <= T)%nat R -> (sb = pong R ++ [Close] /\ server_closed k = false) \/ (R = [] /\ sb = []) -> cbuf_ok c ->
  ping_moves sbuf sb c (client_io cap T r (ReadFull o r1) (ping R ++ [Close]) k c).
Proof.
  intros Hr1 HoT Hdn Hu Hf Hcc Hxd HR Hsb Hc. cbn [client_io]. case_bool_decide as Hd; [rewrite Hd in Hdn; cbn in Hdn; lia|]. destruct (moves _ _ _) eqn:Em; [|done]. apply moves_spec in Em as (M1 & M2 & M3). split; [|split; [apply (read_into c r o r1); done || lia | done]]. cbn.
  destruct (advance_cases ReadFull o r1 r (ping R ++ [Close]) M2) as [[-> ->]|[Hgt ->]].
  - assert (Ed : drop r1 (down k) = []) by (apply drop_ge; lia). destruct Hsb as [[-> Hsc]|[-> ->]]; [apply PiIdle; cbn; try done|apply PiEnd; split_and!; cbn; auto].
  - apply PiBack; cbn; rewrite ?length_drop; try done; try lia. by apply xs_drop.
Qed.

Lemma ping_client r i p sb k c sbuf : ping_ok sbuf (i :: p) sb k -> cbuf_ok c -> ping_moves sbuf sb c (client_io cap T r i p k c).
Proof.
  intros H Hc. pose proof Hc as [Hx Hl]. remember (i :: p) as cb eqn:Ecb. destruct H as [off rem o2 r2 s R k Hrem Hr2 Eo Eo2 HsT Hup Hd Ho Hxu Hxs HR|o2 r2 s R k Hr2 Eo2 HsT Hup Hd Ho Hxu Hxs HR|o r1 o2 r2 s R k Hr2 Eo Eo2 HsT Hdn Hu Ho Hxd Hxs HR|o r1 R sb k Hr1 HoT Hdn Hu Hf Hcc Hxd HR Hsb|R k Hu Hd Ho HR|cb sb k He].
  - injection Ecb as <- <-. by apply ping_write.
  - injection Ecb as <- <-. cbn [client_io]. rewrite bool_decide_true by done. by destruct Ho as (_ & _ & ->).
  - injection Ecb as <- <-. apply (ping_read_echo r o r1 o2 r2 s); done.
  - injection Ecb as <- <-. apply ping_read_back; done.
  - destruct R as [|s R]; [injection Ecb as <- <-; cbn [client_io]; rewrite bool_decide_true by done; split; [|done]; apply PiEnd; split_and!; cbn; auto|]. injection Ecb as <- <-. apply Forall_cons in HR as [Hs HR].
    apply (ping_write r 0 s 0 s s R sbuf k c); rewrite ?Hu; cbn; try done; try lia; constructor.
  - destruct He as (Hu & Hd & [-> | ->] & Hsb); [|done]. injection Ecb as <- <-. cbn [client_io]. rewrite bool_decide_true by done. split; [|done]. apply PiEnd. split_and!; cbn; auto.
Qed.

Definition pong_moves (cb : list cmd) (s : process) (a : io) : Prop :=
  match a with
  | Blocks => True
  | Dies => False
  | Moves k' s' => ping_ok (buf s') cb (code s') k' /\ length (buf s') = T /\ count s' = count s
  end.

Lemma xs_take_write o r bs b : xs (take o b) -> xs bs -> length bs = r -> (o + r <= length b)%nat -> xs (take (o + r) (write_at o bs b)) /\ length (write_at o bs b) = length b.
Proof.
  intros Ho Hb Hr Hl. split; [|apply length_write_at; lia]. unfold write_at. rewrite app_assoc, take_app_le by (rewrite length_app, length_take; lia). apply xs_take, xs_app. done.
Qed.

Lemma pong_read r o2 r2 p k s : xs (up k) -> xs (take o2 (buf s)) -> length (buf s) = T -> (o2 + r2 <= T)%nat -> up_fin k = false ->
  match server_io cap T r (ReadFull o2 r2) p k s with
  | Blocks => True
  | Dies => False
  | Moves k' s' => (0 < r)%nat /\ (r <= r2)%nat /\ (r <= length (up k))%nat /\ k' = k <| up := drop r (up k) |> /\ code s' = advance ReadFull o2 r2 r p /\ xs (take (o2 + r) (buf s')) /\ length (buf s') = T /\ count s' = count s
  end.
Proof.
  intros Hxu Hxs Hl HT' Hf. cbn [server_io]. case_bool_decide; [by rewrite Hf|]. destruct (moves _ _ _) eqn:Em; [|done]. apply moves_spec in Em as (M1 & M2 & M3). cbn. destruct (xs_take_write o2 r (take r (up k)) (buf s)) as [X1 X2]; [done | by apply xs_take | rewrite length_take; lia | lia|]. by rewrite X2.
Qed.

Lemma ping_server r i p cb k s : ping_ok (buf s) cb (i :: p) k -> length (buf s) = T -> pong_moves cb s (server_io cap T r i p k s).
Proof.
  intros H Hl. remember (i :: p) as sb eqn:Esb. destruct H as [off rem o2 r2 sz R k Hrem Hr2 Eo Eo2 HsT Hup Hd Ho Hxu Hxs HR|o2 r2 sz R k Hr2 Eo2 HsT Hup Hd Ho Hxu Hxs HR|o r1 o2 r2 sz R k Hr2 Eo Eo2 HsT Hdn Hu Ho Hxd Hxs HR|o r1 R sb k Hr1 HoT Hdn Hu Hf Hcc Hxd HR Hsb|R k Hu Hd Ho HR|cb sb k He].
  - injection Esb as <- <-. pose proof (pong_read r o2 r2 (WriteFull 0 sz :: pong R ++ [Close]) k s Hxu Hxs Hl ltac:(lia) (proj1 Ho)) as H. destruct (server_io _ _ _ _ _ _ _) as [| |k' s']; [done..|]. destruct H as (M1 & M2 & M3 & -> & Ec & Hx & Hl' & Hn). split; [|done]. rewrite Ec.
    destruct (advance_cases ReadFull o2 r2 r (WriteFull 0 sz :: pong R ++ [Close]) M2) as [[Er ->]|[Hgt ->]]; [lia|]. apply PiWrite; cbn; rewrite ?length_drop; try done; try lia. by apply xs_drop.
  - injection Esb as <- <-. pose proof (pong_read r o2 r2 (WriteFull 0 sz :: pong R ++ [Close]) k s Hxu Hxs Hl ltac:(lia) (proj1 Ho)) as H. destruct (server_io _ _ _ _ _ _ _) as [| |k' s']; [done..|]. destruct H as (M1 & M2 & M3 & -> & Ec & Hx & Hl' & Hn). split; [|done]. rewrite Ec.
    destruct (advance_cases ReadFull o2 r2 r (WriteFull 0 sz :: pong R ++ [Close]) M2) as [[Er ->]|[Hgt ->]].
    + apply (PiEcho _ 0 sz 0 sz sz); cbn; rewrite ?Hd; try done; try lia; [apply drop_ge; lia | by constructor | by rewrite <- Eo2, <- Er].
    + apply PiSent; cbn; rewrite ?length_drop; try done; try lia. by apply xs_drop.
  - injection Esb as <- <-. cbn [server_io]. destruct Ho as (O1 & O2 & O3). rewrite O2. destruct (moves _ _ _) eqn:Em; [|done]. apply moves_spec in Em as (M1 & M2 & M3). split; [|done]. cbn.
    assert (Hxn : xs (take r (drop o2 (buf s)))) by (apply (xs_drop o2) in Hxs; rewrite skipn_firstn_comm in Hxs; apply (xs_take r) in Hxs; rewrite take_take in Hxs; by replace (r `min` (sz - o2))%nat with r in Hxs by lia).
    assert (Hln : length (down k ++ take r (drop o2 (buf s))) = (length (down k) + r)%nat) by (rewrite length_app, length_take, length_drop; lia). destruct (advance_cases WriteFull o2 r2 r (pong R ++ [Close]) M2) as [[Er ->]|[Hgt ->]].
    + apply PiBack; cbn; try done; try lia; [by apply xs_app | by left].
    + apply (PiEcho _ o r1 (o2 + r) (r2 - r) sz); cbn; try done; try lia. by apply xs_app.
  - destruct Hsb as [[-> Hsc]|[-> ->]]; [|done]. destruct R as [|sz R]; injection Esb as <- <-; cbn [server_io]; rewrite bool_decide_true by done; [|by rewrite Hf]. split; [|done]. apply (PiBack _ o r1 []); cbn; try done. by right.
  - destruct R as [|sz R]; injection Esb as <- <-; cbn [server_io]; rewrite bool_decide_true by done; [|by rewrite (proj1 Ho)]. split; [|done]. apply PiEnd. split_and!; cbn; auto.
  - destruct He as (Hu & Hd & Hcb & [-> | ->]); [|done]. injection Esb as <- <-. cbn [server_io]. rewrite bool_decide_true by done. split; [|done]. apply PiEnd. split_and!; cbn; auto.
Qed.

(** A call of the side that can go on. *)
Definition can (a : nat -> io) : Prop := exists r k c, a r = Moves k c.

Lemma can_write_client r off rem p k c (again : cmd) : again = WriteFull off rem \/ again = Stream off rem -> server_closed k = false -> (0 < rem)%nat -> (length (up k) < cap)%nat -> r = 1%nat -> exists k' c', client_io cap T r again p k c = Moves k' c'.
Proof. intros [-> | ->] Hc Hr Hl ->; cbn [client_io]; rewrite Hc; (assert (Em : moves 1 rem (cap - length (up k)) = true) by (apply moves_spec; lia)); rewrite Em; eauto. Qed.

Lemma can_read_client off rem p k c again : again = ReadFull off rem \/ again = ReadAck off rem -> down k <> [] -> (0 < rem)%nat -> can (fun r => client_io cap T r again p k c).
Proof. intros Ha Hd Hr. exists 1%nat. assert (Hl : length (down k) <> O) by (by destruct (down k)). assert (Em : moves 1 rem (length (down k)) = true) by (apply moves_spec; lia). destruct Ha as [-> | ->]; cbn [client_io]; rewrite bool_decide_false by done; rewrite Em; eauto. Qed.

Lemma can_read_server off rem p k s : up k <> [] -> (0 < rem)%nat -> can (fun r => server_io cap T r (ReadFull off rem) p k s).
Proof. intros Hd Hr. exists 1%nat. assert (Hl : length (up k) <> O) by (by destruct (up k)). assert (Em : moves 1 rem (length (up k)) = true) by (apply moves_spec; lia). cbn [server_io]. rewrite bool_decide_false by done. rewrite Em. eauto. Qed.

Lemma can_write_server off rem p k s again : again = WriteFull off rem \/ again = SendAck off rem -> client_closed k = false -> (0 < rem)%nat -> (length (down k) < cap)%nat -> can (fun r => server_io cap T r again p k s).
Proof. intros [-> | ->] Hc Hr Hl; exists 1%nat; cbn [server_io]; rewrite Hc; (assert (Em : moves 1 rem (cap - length (down k)) = true) by (apply moves_spec; lia)); rewrite Em; eauto. Qed.

(** One of the sides can go on with its part [cb] or [sb] of the connection. *)
Definition goes_on (cb sb : list cmd) (k : conn) (c s : process) : Prop :=
  (exists i p, cb = i :: p /\ can (fun r => client_io cap T r i p k c)) \/ (exists i p, sb = i :: p /\ can (fun r => server_io cap T r i p k s)).

Lemma ended_goes_on cb sb k c s : ended cb sb k -> cb <> [] \/ sb <> [] -> goes_on cb sb k c s.
Proof.
  intros (Hu & Hd & Hcb & Hsb) Hne. destruct Hcb as [-> | ->]; [left | destruct Hsb as [-> | ->]; [right | by destruct Hne]]; eexists Close, []; (split; [done|]); exists O; cbn [client_io server_io]; rewrite bool_decide_true by done; eauto.
Qed.

Lemma ping_goes_on sbuf cb sb k c s : ping_ok sbuf cb sb k -> cb <> [] \/ sb <> [] -> goes_on cb sb k c s.
Proof.
  intros H Hne. destruct H as [off rem o2 r2 sz R k Hrem Hr2 Eo Eo2 HsT Hup Hd Ho Hxu Hxs HR|o2 r2 sz R k Hr2 Eo2 HsT Hup Hd Ho Hxu Hxs HR|o r1 o2 r2 sz R k Hr2 Eo Eo2 HsT Hdn Hu Ho Hxd Hxs HR|o r1 R sb k Hr1 HoT Hdn Hu Hf Hcc Hxd HR Hsb|R k Hu Hd Ho HR|cb sb k He].
  - destruct (decide (up k = [])) as [Eu|Eu]; [left | right]; eexists _, _; (split; [done|]); [|by apply can_read_server]. exists 1%nat. apply (can_write_client 1 off rem); try done; [by left | apply Ho | rewrite Eu; cbn; lia].
  - right. eexists _, _. split; [done|]. apply can_read_server; [|done]. intros E. rewrite E in Hup. cbn in Hup. lia.
  - destruct (decide (down k = [])) as [Ed|Ed]; [right | left]; eexists _, _; (split; [done|]).
    + apply (can_write_server o2 r2); [by left | apply Ho | done | rewrite Ed; cbn; lia].
    + apply (can_read_client o r1); [by left | done | lia].
  - left. eexists _, _. split; [done|]. apply (can_read_client o r1); [by left | | done]. intros E. rewrite E in Hdn. cbn in Hdn. lia.
  - destruct R as [|sz R]; [apply ended_goes_on; [split_and!; cbn; auto | done]|]. left. eexists _, _. split; [done|]. exists 1%nat. apply Forall_cons in HR as [Hs _]. apply (can_write_client 1 0 sz); try done; [by left | apply Ho | lia | rewrite Hu; cbn; lia].
  - by apply ended_goes_on.
Qed.

(** All the bytes of the throughput phase. *)
Definition streamed : Z := Z.of_nat (chunks * T).
Definition the_ack : list byte := le8 (streamed mod 2 ^ 64).

Lemma length_le8 z : length (le8 z) = 8%nat.
Proof. unfold le8. by rewrite length_rev, length_be_bytes. Qed.

(** The throughput connection, with the client's [sent] and [got] and the server's
    [total]. *)
Inductive stream_ok (cc : Z) (cg : list byte) (sc : Z) : list cmd -> list cmd -> conn -> Prop :=
  | SiSend off rem j a b k : (0 < rem)%nat -> (off + rem = T)%nat -> sc = a mod 2 ^ 64 -> cc = b mod 2 ^ 64 -> a + Z.of_nat (length (up k)) = b + Z.of_nat off -> b + Z.of_nat (S j * T) = streamed -> open k -> down k = [] -> cg = [] ->
      stream_ok cc cg sc (Stream off rem :: replicate j (Stream 0 T) ++ [ShutWr; ReadAck 0 8; Close]) [Sink; SendAck 0 8; Close] k
  | SiSent a cb k : (cb = [ShutWr; ReadAck 0 8; Close] /\ up_fin k = false) \/ (cb = [ReadAck 0 8; Close] /\ up_fin k = true) -> client_closed k = false -> server_closed k = false ->
      a + Z.of_nat (length (up k)) = streamed -> sc = a mod 2 ^ 64 -> cc = streamed mod 2 ^ 64 -> down k = [] -> cg = [] ->
      stream_ok cc cg sc cb [Sink; SendAck 0 8; Close] k
  | SiAck o r o2 r2 k : (0 < r2)%nat -> (o + r = 8)%nat -> (o2 + r2 = 8)%nat -> (o <= o2)%nat -> up k = [] -> client_closed k = false -> server_closed k = false ->
      sc = streamed mod 2 ^ 64 -> cc = streamed mod 2 ^ 64 -> down k = take (o2 - o) (drop o the_ack) -> cg = take o the_ack ->
      stream_ok cc cg sc [ReadAck o r; Close] [SendAck o2 r2; Close] k
  | SiLast o r sb k : (0 < r)%nat -> (o + r = 8)%nat -> up k = [] -> client_closed k = false -> cc = streamed mod 2 ^ 64 -> down k = drop o the_ack -> cg = take o the_ack -> sb = [Close] \/ sb = [] ->
      stream_ok cc cg sc [ReadAck o r; Close] sb k
  | SiEnd cb sb k : ended cb sb k -> cc = streamed mod 2 ^ 64 -> cg = the_ack -> stream_ok cc cg sc cb sb k.

Lemma stream_start : stream_ok 0 [] 0 (replicate chunks (Stream 0 T) ++ [ShutWr; ReadAck 0 8; Close]) [Sink; SendAck 0 8; Close] (mkConn [] [] false false false).
Proof.
  destruct chunks as [|n] eqn:E; cbn [replicate app].
  - apply (SiSent _ _ _ 0); try done; [by left | unfold streamed; by rewrite E | unfold streamed; by rewrite E].
  - apply (SiSend _ _ _ 0 T n 0 0); cbn; try done; try lia. unfold streamed. by rewrite E.
Qed.

Lemma stream_next cc sc a b j k : sc = a mod 2 ^ 64 -> cc = b mod 2 ^ 64 -> a + Z.of_nat (length (up k)) = b -> b + Z.of_nat (j * T) = streamed -> open k -> down k = [] ->
  stream_ok cc [] sc (replicate j (Stream 0 T) ++ [ShutWr; ReadAck 0 8; Close]) [Sink; SendAck 0 8; Close] k.
Proof.
  intros Hs Hc Hab Hb Ho Hd. destruct j as [|j]; cbn [replicate app].
  - assert (Eb : b = streamed) by lia. destruct Ho as (O1 & O2 & O3). apply (SiSent _ _ _ a); try done; [by left | lia | by rewrite <- Eb].
  - apply (SiSend _ _ _ 0 T j a b); try done; lia.
Qed.

Definition stream_moves (c : process) (sb : list cmd) (sc : Z) (a : io) : Prop :=
  match a with
  | Blocks => True
  | Dies => False
  | Moves k' c' => stream_ok (count c') (got c') sc (code c') sb k' /\ cbuf_ok c'
  end.

Lemma stream_client r i p sb k c sc : stream_ok (count c) (got c) sc (i :: p) sb k -> cbuf_ok c -> stream_moves c sb sc (client_io cap T r i p k c).
Proof.
  intros H Hc. remember (i :: p) as cb eqn:Ecb. destruct H as [off rem j a b k Hrem Eo Hsc Hcc Hab Hb Ho Hd Hg|a cb k Hcb Hk1 Hk2 Ha Hsc Hcc Hd Hg|o r1 o2 r2 k Hr2 Eo Eo2 Hoo Hu Hk1 Hk2 Hsc Hcc Hd Hg|o r1 sb k Hr1 Eo Hu Hk1 Hcc Hd Hg Hsb|cb sb k He Hcc Hg].
  - injection Ecb as <- <-. cbn [client_io]. destruct Ho as (O1 & O2 & O3). rewrite O3. destruct (moves _ _ _) eqn:Em; [|done]. apply moves_spec in Em as (M1 & M2 & M3). split; [|done]. cbn. assert (Hlen : length (up k ++ take r (drop off (buf c))) = (length (up k) + r)%nat) by (destruct Hc as [_ Hl]; rewrite length_app, length_take, length_drop; lia). rewrite Hg.
    unfold advance. destruct (Nat.eqb_spec rem r) as [Er|Er].
    + apply (stream_next _ _ a (b + Z.of_nat T)); cbn; try done; [|lia..]. rewrite Hcc. by rewrite Zplus_mod_idemp_l.
    + apply (SiSend _ _ _ (off + r) (rem - r) j a b); cbn; try done; lia.
  - destruct Hcb as [[-> Hf]|[-> Hf]]; injection Ecb as <- <-; cbn [client_io].
    + split; [|done]. cbn. apply (SiSent _ _ _ a); cbn; try done. by right.
    + rewrite bool_decide_true by done. by rewrite Hk2.
  - injection Ecb as <- <-. cbn [client_io]. case_bool_decide as Hd0; [by rewrite Hk2|]. destruct (moves _ _ _) eqn:Em; [|done]. apply moves_spec in Em as (M1 & M2 & M3). split; [|done]. pose proof (length_le8 (streamed mod 2 ^ 64)) as L8. fold the_ack in L8. rewrite Hd in M3 |- *. rewrite length_take, length_drop in M3. cbn.
    unfold advance. destruct (Nat.eqb_spec r1 r) as [Er|Er]; [lia|]. apply SiAck; cbn; try done; try lia; [rewrite skipn_firstn_comm, drop_drop; f_equal; lia|]. rewrite Hg, take_take. replace (r `min` (o2 - o))%nat with r by lia. by rewrite take_take_drop.
  - injection Ecb as <- <-. cbn [client_io]. pose proof (length_le8 (streamed mod 2 ^ 64)) as L8. fold the_ack in L8. case_bool_decide as Hd0; [apply (f_equal length) in Hd0; rewrite Hd, length_drop in Hd0; cbn in Hd0; lia|]. destruct (moves _ _ _) eqn:Em; [|done]. apply moves_spec in Em as (M1 & M2 & M3). split; [|done]. cbn.
    unfold advance. destruct (Nat.eqb_spec r1 r) as [Er|Er].
    + assert (Ed : drop r (down k) = []) by (rewrite Hd, drop_drop; apply drop_ge; lia). apply SiEnd; [split_and!; cbn; auto | done|]. rewrite Hd, Hg, take_take_drop. apply take_ge. lia.
    + apply SiLast; cbn; try done; try lia; rewrite Hd; [by rewrite drop_drop | by rewrite Hg, take_take_drop].
  - destruct He as (Hu & Hd & [-> | ->] & Hsb); [|done]. injection Ecb as <- <-. cbn [client_io]. rewrite bool_decide_true by done. split; [|done]. cbn. apply SiEnd; try done. split_and!; cbn; auto.
Qed.

Definition sink_moves (cc : Z) (cg : list byte) (cb : list cmd) (a : io) : Prop :=
  match a with
  | Blocks => True
  | Dies => False
  | Moves k' s' => stream_ok cc cg (count s') cb (code s') k' /\ length (buf s') = T
  end.

Lemma sink_read r p k s : length (buf s) = T ->
  match server_io cap T r Sink p k s with
  | Blocks => True
  | Dies => False
  | Moves k' s' => length (buf s') = T /\ ((up k = [] /\ up_fin k = true /\ k' = k /\ code s' = p /\ count s' = count s) \/
      ((0 < r)%nat /\ (r <= length (up k))%nat /\ k' = k <| up := drop r (up k) |> /\ code s' = Sink :: p /\ count s' = (count s + Z.of_nat r) mod 2 ^ 64))
  end.
Proof.
  intros Hl. cbn [server_io]. case_bool_decide as Hu; [destruct (up_fin k) eqn:Ef; [|done]; split; [done|]; by left|]. destruct (moves _ _ _) eqn:Em; [|done]. apply moves_spec in Em as (M1 & M2 & M3). split; [cbn; rewrite length_write_at; [done|]; rewrite length_take; lia|]. right. done.
Qed.

Lemma stream_server r i p cb k s cc cg : stream_ok cc cg (count s) cb (i :: p) k -> length (buf s) = T -> sink_moves cc cg cb (server_io cap T r i p k s).
Proof.
  intros H Hl. remember (i :: p) as sb eqn:Esb. destruct H as [off rem j a b k Hrem Eo Hsc Hcc Hab Hb Ho Hd Hg|a cb k Hcb Hk1 Hk2 Ha Hsc Hcc Hd Hg|o r1 o2 r2 k Hr2 Eo Eo2 Hoo Hu Hk1 Hk2 Hsc Hcc Hd Hg|o r1 sb k Hr1 Eo Hu Hk1 Hcc Hd Hg Hsb|cb sb k He Hcc Hg].
  - injection Esb as <- <-. pose proof (sink_read r [SendAck 0 8; Close] k s Hl) as H. destruct (server_io _ _ _ _ _ _ _) as [| |k' s']; [done..|]. destruct H as [Hl' [(_ & Hf & _)|(M1 & M3 & -> & Ec & En)]]; [by rewrite (proj1 Ho) in Hf|]. split; [|done]. rewrite Ec, En, Hsc, Zplus_mod_idemp_l.
    apply (SiSend _ _ _ off rem j (a + Z.of_nat r) b); cbn; rewrite ?length_drop; try done; lia.
  - injection Esb as <- <-. pose proof (sink_read r [SendAck 0 8; Close] k s Hl) as H. destruct (server_io _ _ _ _ _ _ _) as [| |k' s']; [done..|]. destruct H as [Hl' [(Hu & Hf & -> & Ec & En)|(M1 & M3 & -> & Ec & En)]]; (split; [|done]); rewrite Ec, En, Hsc.
    + destruct Hcb as [[_ Hf']|[-> _]]; [congruence|]. rewrite Hu in Ha. cbn in Ha. assert (Ea : a = streamed) by lia. subst a. apply (SiAck _ _ _ 0 8 0 8); cbn; done || lia.
    + rewrite Zplus_mod_idemp_l. apply (SiSent _ _ _ (a + Z.of_nat r)); cbn; rewrite ?length_drop; try done. lia.
  - injection Esb as <- <-. cbn [server_io]. rewrite Hk1. destruct (moves _ _ _) eqn:Em; [|done]. apply moves_spec in Em as (M1 & M2 & M3). split; [|done]. pose proof (length_le8 (streamed mod 2 ^ 64)) as L8. fold the_ack in L8.
    assert (Edn : down k ++ take r (drop o2 (le8 (count s))) = take (o2 + r - o) (drop o the_ack)).
    { rewrite Hsc, Hd. fold the_ack. replace (drop o2 the_ack) with (drop (o2 - o) (drop o the_ack)) by (rewrite drop_drop; f_equal; lia). rewrite take_take_drop. f_equal. lia. }
    rewrite Edn. change (code (s <| code := ?l |>)) with l. change (count (s <| code := _ |>)) with (count s). unfold advance. destruct (Nat.eqb_spec r2 r) as [Er|Er].
    + assert (Et : take (o2 + r - o) (drop o the_ack) = drop o the_ack) by (apply take_ge; rewrite length_drop; lia). rewrite Et. apply SiLast; try done; [lia | by left].
    + apply SiAck; try done; lia.
  - destruct Hsb as [-> | ->]; [|done]. injection Esb as <- <-. cbn [server_io]. rewrite bool_decide_true by done. split; [|done]. cbn. apply SiLast; cbn; auto.
  - destruct He as (Hu & Hd & Hcb & [-> | ->]); [|done]. injection Esb as <- <-. cbn [server_io]. rewrite bool_decide_true by done. split; [|done]. apply SiEnd; try done. split_and!; cbn; auto.
Qed.

Lemma stream_goes_on cc cg sc cb sb k c s : stream_ok cc cg sc cb sb k -> cb <> [] \/ sb <> [] -> goes_on cb sb k c s.
Proof.
  intros H Hne. destruct H as [off rem j a b k Hrem Eo Hsc Hcc Hab Hb Ho Hd Hg|a cb k Hcb Hk1 Hk2 Ha Hsc Hcc Hd Hg|o r1 o2 r2 k Hr2 Eo Eo2 Hoo Hu Hk1 Hk2 Hsc Hcc Hd Hg|o r1 sb k Hr1 Eo Hu Hk1 Hcc Hd Hg Hsb|cb sb k He Hcc Hg].
  - destruct (decide (up k = [])) as [Eu|Eu]; [left | right]; eexists _, _; (split; [done|]); exists 1%nat.
    + apply (can_write_client 1 off rem); try done; [by right | apply Ho | rewrite Eu; cbn; lia].
    + cbn [server_io]. rewrite bool_decide_false by done. assert (Em : moves 1 T (length (up k)) = true) by (apply moves_spec; destruct (up k); cbn; [done | lia]). rewrite Em. eauto.
  - destruct Hcb as [[-> Hf]|[-> Hf]]; [left; eexists _, _; split; [done|]; exists O; cbn; eauto|]. right. eexists _, _. split; [done|]. exists 1%nat. cbn [server_io]. case_bool_decide as Eu; [rewrite Hf; eauto|]. assert (Em : moves 1 T (length (up k)) = true) by (apply moves_spec; destruct (up k); cbn; [done | lia]). rewrite Em. eauto.
  - destruct (decide (down k = [])) as [Ed|Ed]; [right | left]; eexists _, _; (split; [done|]); [apply (can_write_server o2 r2); [by right | done | done | rewrite Ed; cbn; lia]|]. apply (can_read_client o r1); [by right | done|]. pose proof (length_le8 (streamed mod 2 ^ 64)). lia.
  - left. eexists _, _. split; [done|]. apply (can_read_client o r1); [by right | | done]. intros E. apply (f_equal length) in E. unfold the_ack in Hd. rewrite Hd, length_drop, length_le8 in E. cbn in E. lia.
  - by apply ended_goes_on.
Qed.

(** ** The two processes *)

(** The calls on each connection, but for the one that opens it. *)
Definition client_parts : list (list cmd) := (ping rounds ++ [Close]) :: (replicate chunks (Stream 0 T) ++ [ShutWr; ReadAck 0 8; Close]) :: replicate churn [Close].
Definition server_parts : list (list cmd) := (pong rounds ++ [Close]) :: [Sink; SendAck 0 8; Close] :: replicate churn [Close].

Definition parts : nat := (2 + churn)%nat.

Definition client_later (n : nat) : list cmd := concat (cons Connect <$> drop n client_parts).
Definition server_later (n : nat) : list cmd := concat (cons Accept <$> drop n server_parts).

Lemma client_suite_parts : client_suite T rounds chunks churn = client_later 0.
Proof.
  unfold client_suite, client_later, client_parts. cbn [drop fmap list_fmap concat app]. rewrite <- !app_assoc. cbn [app]. do 8 f_equal. induction churn as [|n IH]; [done|]. cbn. by rewrite IH.
Qed.

Lemma server_loop_parts : server_loop rounds churn = server_later 0.
Proof.
  unfold server_loop, server_later, server_parts. cbn [drop fmap list_fmap concat app]. rewrite <- !app_assoc. cbn [app]. do 7 f_equal. induction churn as [|n IH]; [done|]. cbn. by rewrite IH.
Qed.

Lemma client_later_S n b : client_parts !! n = Some b -> client_later n = Connect :: b ++ client_later (S n).
Proof. intros E. unfold client_later. by rewrite (drop_S _ _ _ E). Qed.

Lemma server_later_S n b : server_parts !! n = Some b -> server_later n = Accept :: b ++ server_later (S n).
Proof. intros E. unfold server_later. by rewrite (drop_S _ _ _ E). Qed.

Lemma length_parts : length client_parts = parts /\ length server_parts = parts.
Proof. unfold client_parts, server_parts, parts. cbn. by rewrite !length_replicate. Qed.

(** Connection [i] with the calls each side has to go on it. *)
Definition local (i : nat) (cb sb : list cmd) (k : conn) (c s : process) : Prop :=
  match i with
  | O => ping_ok (buf s) cb sb k
  | S O => stream_ok (count c) (got c) (count s) cb sb k
  | _ => ended cb sb k
  end.

Definition client_part (n : nat) (cb : list cmd) (i : nat) : list cmd := if (S i =? n)%nat then cb else [].
Definition server_part (n : nat) (sb : list cmd) (i : nat) : list cmd := if (S i =? n)%nat then sb else if (i <? n)%nat then [] else default [] (server_parts !! i).

Record inv (w : world) : Prop := {
  inv_alive : dead w = false;
  inv_cbuf : cbuf_ok (client w);
  inv_sbuf : length (buf (server w)) = T;
  inv_order : (accepted w <= length (conns w) <= parts)%nat;
  inv_cur : cur (client w) = pred (length (conns w)) /\ cur (server w) = pred (accepted w);
  inv_fresh : ((length (conns w) <= 1)%nat -> count (client w) = 0 /\ got (client w) = []) /\ ((accepted w <= 1)%nat -> count (server w) = 0);
  inv_parts : exists cb sb, code (client w) = cb ++ client_later (length (conns w)) /\ code (server w) = sb ++ server_later (accepted w) /\
    (length (conns w) = O -> cb = []) /\ (accepted w = O -> sb = []) /\
    forall i k, conns w !! i = Some k -> local i (client_part (length (conns w)) cb i) (server_part (accepted w) sb i) k (client w) (server w)
}.

Lemma client_io_frame r i p q k c : client_io cap T r i (p ++ q) k c = match client_io cap T r i p k c with Moves k' c' => Moves k' (c' <| code := code c' ++ q |>) | a => a end.
Proof. unfold client_io, advance. destruct i; repeat case_match; try done; simplify_eq/=; try done. Qed.

Lemma server_io_frame r i p q k c : server_io cap T r i (p ++ q) k c = match server_io cap T r i p k c with Moves k' c' => Moves k' (c' <| code := code c' ++ q |>) | a => a end.
Proof. unfold server_io, advance. destruct i; repeat case_match; try done; simplify_eq/=; try done. Qed.

Lemma io_keeps_cur r i p k c : match client_io cap T r i p k c with Moves _ c' => cur c' = cur c | _ => True end /\ match server_io cap T r i p k c with Moves _ c' => cur c' = cur c | _ => True end.
Proof. split; unfold client_io, server_io; destruct i; repeat case_match; try done; by simplify_eq/=. Qed.

Lemma ended_client r i p sb k c : ended (i :: p) sb k -> cbuf_ok c ->
  match client_io cap T r i p k c with Blocks => True | Dies => False | Moves k' c' => ended (code c') sb k' /\ cbuf_ok c' /\ count c' = count c /\ got c' = got c end.
Proof. intros (Hu & Hd & [[= -> ->]|?] & Hsb) Hc; [|done]. cbn [client_io]. rewrite bool_decide_true by done. split; [|done]. split_and!; cbn; auto. Qed.

Lemma ended_server r i p cb k s : ended cb (i :: p) k -> length (buf s) = T ->
  match server_io cap T r i p k s with Blocks => True | Dies => False | Moves k' s' => ended cb (code s') k' /\ length (buf s') = T /\ count s' = count s end.
Proof. intros (Hu & Hd & Hcb & [[= -> ->]|?]) Hl; [|done]. cbn [server_io]. rewrite bool_decide_true by done. split; [|done]. split_and!; cbn; auto. Qed.

(** A call of the client on connection [n], seen there and elsewhere. *)
Lemma local_client r n i p sb k c s : local n (i :: p) sb k c s -> cbuf_ok c ->
  match client_io cap T r i p k c with
  | Blocks => True
  | Dies => False
  | Moves k' c' => local n (code c') sb k' c' s /\ cbuf_ok c' /\ (n <> 1%nat -> count c' = count c /\ got c' = got c)
  end.
Proof.
  intros H Hc. destruct n as [|[|n]]; cbn [local] in H.
  - pose proof (ping_client r i p sb k c _ H Hc) as M. unfold ping_moves in M. destruct (client_io _ _ _ _ _ _ _) as [| |k' c']; [done..|]. by destruct M as (M1 & M2 & M3).
  - pose proof (stream_client r i p sb k c _ H Hc) as M. unfold stream_moves in M. destruct (client_io _ _ _ _ _ _ _) as [| |k' c']; [done..|]. by destruct M as (M1 & M2).
  - pose proof (ended_client r i p sb k c H Hc) as M. destruct (client_io _ _ _ _ _ _ _) as [| |k' c']; [done..|]. by destruct M as (M1 & M2 & M3).
Qed.

Lemma local_server r n i p cb k c s : local n cb (i :: p) k c s -> length (buf s) = T ->
  match server_io cap T r i p k s with
  | Blocks => True
  | Dies => False
  | Moves k' s' => local n cb (code s') k' c s' /\ length (buf s') = T /\ (n <> 1%nat -> count s' = count s)
  end.
Proof.
  intros H Hl. destruct n as [|[|n]]; cbn [local] in H.
  - pose proof (ping_server r i p cb k s H Hl) as M. unfold pong_moves in M. destruct (server_io _ _ _ _ _ _ _) as [| |k' s']; [done..|]. by destruct M as (M1 & M2 & M3).
  - pose proof (stream_server r i p cb k s _ _ H Hl) as M. unfold sink_moves in M. destruct (server_io _ _ _ _ _ _ _) as [| |k' s']; [done..|]. by destruct M as (M1 & M2).
  - pose proof (ended_server r i p cb k s H Hl) as M. destruct (server_io _ _ _ _ _ _ _) as [| |k' s']; [done..|]. by destruct M as (M1 & M2 & M3).
Qed.

Lemma ping_done sbuf sbuf' cb k : ping_ok sbuf cb [] k -> ping_ok sbuf' cb [] k.
Proof.
  intros H. remember [] as sb eqn:E. destruct H as [off rem o2 r2 sz R k Hrem Hr2 Eo Eo2 HsT Hup Hd Ho Hxu Hxs HR|o2 r2 sz R k Hr2 Eo2 HsT Hup Hd Ho Hxu Hxs HR|o r1 o2 r2 sz R k Hr2 Eo Eo2 HsT Hdn Hu Ho Hxd Hxs HR|o r1 R sb k Hr1 HoT Hdn Hu Hf Hcc Hxd HR Hsb|R k Hu Hd Ho HR|cb sb k He]; try done.
  - by apply PiBack.
  - by destruct R.
  - by apply PiEnd.
Qed.

(** A body never opens a connection. *)
Lemma local_heads n cb sb k c s : local n cb sb k c s -> (forall p, cb <> Connect :: p) /\ (forall p, sb <> Accept :: p).
Proof.
  assert (He : forall cb sb k, ended cb sb k -> (forall p, cb <> Connect :: p) /\ (forall p, sb <> Accept :: p)) by (intros ??? (_ & _ & [-> | ->] & [-> | ->]); split; intros; discriminate).
  destruct n as [|[|n]]; cbn [local]; [intros H | intros H | apply He].
  - destruct H as [| | |o r1 R sb k ? ? ? ? ? ? ? ? [[-> _]|[_ ->]]|R k|? ? ? Hx]; try (split; intros; discriminate); [| |by apply (He _ _ _ Hx)]; destruct R; split; intros; discriminate.
  - destruct H as [|? ? ? [[-> _]|[-> _]]| |? ? ? ? ? ? ? ? ? ? ? [-> | ->]|? ? ? Hx]; try (split; intros; discriminate). by apply (He _ _ _ Hx).
Qed.

Lemma inv_client_io r w i cb k : inv w -> conns w !! pred (length (conns w)) = Some k ->
  (exists sb, code (client w) = (i :: cb) ++ client_later (length (conns w)) /\ code (server w) = sb ++ server_later (accepted w) /\ (accepted w = O -> sb = []) /\
    forall j k, conns w !! j = Some k -> local j (client_part (length (conns w)) (i :: cb) j) (server_part (accepted w) sb j) k (client w) (server w)) ->
  match client_io cap T r i (cb ++ client_later (length (conns w))) k (client w) with
  | Blocks => True
  | Dies => False
  | Moves k' c' => inv (w <| conns := <[cur (client w) := k']> (conns w) |> <| client := c' |>)
  end.
Proof.
  intros I Hk (sb & Ec & Es & H0 & Hl). pose proof (lookup_lt_Some _ _ _ Hk) as Hlt. set (n := length (conns w)) in *. assert (Hn : (S (pred n) = n)%nat) by lia. pose proof (Hl _ _ Hk) as Hloc. unfold client_part in Hloc. rewrite Hn, Nat.eqb_refl in Hloc.
  rewrite client_io_frame. pose proof (local_client r _ i cb _ k _ _ Hloc (inv_cbuf _ I)) as M. pose proof (proj1 (io_keeps_cur r i cb k (client w))) as Hcur. destruct (client_io _ _ _ _ _ _ _) as [| |k' c']; [done..|]. destruct M as (M1 & M2 & M3). destruct (inv_cur _ I) as [Cc Cs]. destruct (inv_fresh _ I) as [F1 F2].
  split; cbn; rewrite ?length_insert; fold n; try apply I; try done.
  - by rewrite Hcur.
  - split; [|done]. intros Hle. destruct M3 as [-> ->]; [lia|]. by apply F1.
  - exists (code c'), sb. split; [done|]. split; [done|]. split; [lia|]. split; [done|]. intros j kj Hj. unfold client_part. destruct (Nat.eqb_spec (S j) n) as [Ej|Ej].
    + assert (j = pred n) as -> by lia. rewrite Cc, list_lookup_insert_eq in Hj by lia. injection Hj as <-. by destruct (pred n) as [|[|]].
    + rewrite Cc, list_lookup_insert_ne in Hj by lia. pose proof (Hl j kj Hj) as H. unfold client_part in H. rewrite (proj2 (Nat.eqb_neq _ _) Ej) in H. destruct j as [|[|j]]; try done. cbn in H |- *. destruct M3 as [-> ->]; [lia|]. done.
Qed.

Lemma inv_server_io r w i sb k : inv w -> conns w !! pred (accepted w) = Some k -> (0 < accepted w)%nat ->
  (exists cb, code (client w) = cb ++ client_later (length (conns w)) /\ code (server w) = (i :: sb) ++ server_later (accepted w) /\ (length (conns w) = O -> cb = []) /\
    forall j k, conns w !! j = Some k -> local j (client_part (length (conns w)) cb j) (server_part (accepted w) (i :: sb) j) k (client w) (server w)) ->
  match server_io cap T r i (sb ++ server_later (accepted w)) k (server w) with
  | Blocks => True
  | Dies => False
  | Moves k' s' => inv (w <| conns := <[cur (server w) := k']> (conns w) |> <| server := s' |>)
  end.
Proof.
  intros I Hk Hpos (cb & Ec & Es & H0 & Hl). set (n := accepted w) in *. assert (Hn : (S (pred n) = n)%nat) by lia. pose proof (Hl _ _ Hk) as Hloc. unfold server_part in Hloc. rewrite Hn, Nat.eqb_refl in Hloc.
  rewrite server_io_frame. pose proof (local_server r _ i sb _ k _ _ Hloc (inv_sbuf _ I)) as M. pose proof (proj2 (io_keeps_cur r i sb k (server w))) as Hcur. destruct (server_io _ _ _ _ _ _ _) as [| |k' s']; [done..|]. destruct M as (M1 & M2 & M3). destruct (inv_cur _ I) as [Cc Cs]. destruct (inv_fresh _ I) as [F1 F2]. pose proof (inv_order _ I) as Hord. fold n in Hord.
  split; cbn; rewrite ?length_insert; fold n; try apply I; try done.
  - by rewrite Hcur.
  - split; [done|]. intros Hle. rewrite M3 by lia. by apply F2.
  - exists cb, (code s'). split; [done|]. split; [done|]. split; [done|]. split; [lia|]. intros j kj Hj. unfold server_part. destruct (Nat.eqb_spec (S j) n) as [Ej|Ej].
    + assert (j = pred n) as -> by lia. rewrite Cs, list_lookup_insert_eq in Hj by lia. injection Hj as <-. by destruct (pred n) as [|[|]].
    + rewrite Cs, list_lookup_insert_ne in Hj by lia. pose proof (Hl j kj Hj) as H. unfold server_part in H. rewrite (proj2 (Nat.eqb_neq _ _) Ej) in H. destruct j as [|[|j]]; try done.
      * rewrite (proj2 (Nat.ltb_lt 0 n)) in H |- * by lia. by apply (ping_done _ _ _ _ H).
      * cbn in H |- *. rewrite M3; [done | lia].
Qed.

Lemma fresh_local n b w : inv w -> length (conns w) = n -> client_parts !! n = Some b -> local n b (default [] (server_parts !! n)) (mkConn [] [] false false false) (client w) (server w).
Proof.
  intros I En Eb. destruct (inv_fresh _ I) as [F1 F2]. pose proof (inv_order _ I) as Ho. destruct n as [|[|n]]; cbn [local].
  - injection Eb as <-. by apply PiIdle.
  - injection Eb as <-. destruct F1 as [-> ->]; [lia|]. rewrite F2 by lia. apply stream_start.
  - change (client_parts !! S (S n)) with (replicate churn [Close] !! n) in Eb. change (server_parts !! S (S n)) with (replicate churn [Close] !! n). rewrite Eb. apply lookup_replicate in Eb as [-> Hlt]. split_and!; cbn; auto.
Qed.

Lemma inv_connect w b : inv w -> client_parts !! length (conns w) = Some b ->
  (exists sb, code (client w) = client_later (length (conns w)) /\ code (server w) = sb ++ server_later (accepted w) /\ (accepted w = O -> sb = []) /\
    forall j k, conns w !! j = Some k -> local j (client_part (length (conns w)) [] j) (server_part (accepted w) sb j) k (client w) (server w)) ->
  inv (w <| conns := conns w ++ [mkConn [] [] false false false] |> <| client := (client w) <| code := b ++ client_later (S (length (conns w))) |> <| cur := length (conns w) |> |>).
Proof.
  intros I Eb (sb & Ec & Es & H0 & Hl). pose proof (inv_order _ I) as Ho. destruct (inv_cur _ I) as [Cc Cs]. destruct (inv_fresh _ I) as [F1 F2]. pose proof (lookup_lt_Some _ _ _ Eb) as Hlt. rewrite (proj1 length_parts) in Hlt. unfold parts in Hlt, Ho. set (n := length (conns w)) in *.
  split; cbn; rewrite ?length_app; fold n; cbn [length]; try apply I; try done; try lia.
  - split; [|done]. intros Hle. apply F1. lia.
  - exists b, sb. rewrite Nat.add_1_r. split; [done|]. split; [done|]. split; [lia|]. split; [done|]. intros j k [Hj|[Hge Hj]]%lookup_app_Some.
    + pose proof (lookup_lt_Some _ _ _ Hj) as Hjn. fold n in Hjn. pose proof (Hl j k Hj) as H. unfold client_part in *. rewrite (proj2 (Nat.eqb_neq (S j) (S n))) by lia. assert (Ep : (if (S j =? n)%nat then [] else @nil cmd) = []) by (by destruct (S j =? n)%nat). rewrite Ep in H. by destruct j as [|[|]].
    + fold n in Hge, Hj. apply list_lookup_singleton_Some in Hj as [Ej <-]. assert (j = n) as -> by lia. unfold client_part, server_part. rewrite Nat.eqb_refl, (proj2 (Nat.eqb_neq (S n) (accepted w))), (proj2 (Nat.ltb_ge n (accepted w))) by lia. pose proof (fresh_local n b w I eq_refl Eb) as H. by destruct n as [|[|]].
Qed.

Lemma inv_accept w b : inv w -> server_parts !! accepted w = Some b -> (accepted w < length (conns w))%nat ->
  (exists cb, code (client w) = cb ++ client_later (length (conns w)) /\ code (server w) = server_later (accepted w) /\ (length (conns w) = O -> cb = []) /\
    forall j k, conns w !! j = Some k -> local j (client_part (length (conns w)) cb j) (server_part (accepted w) [] j) k (client w) (server w)) ->
  inv (w <| accepted := S (accepted w) |> <| server := (server w) <| code := b ++ server_later (S (accepted w)) |> <| cur := accepted w |> |>).
Proof.
  intros I Eb Hlt (cb & Ec & Es & H0 & Hl). pose proof (inv_order _ I) as Ho. destruct (inv_cur _ I) as [Cc Cs]. destruct (inv_fresh _ I) as [F1 F2]. unfold parts in Ho. set (n := accepted w) in *.
  split; cbn; fold n; try apply I; try done; try lia.
  - split; [done|]. intros Hle. apply F2. lia.
  - exists cb, b. split; [done|]. split; [done|]. split; [done|]. split; [lia|]. intros j k Hj. pose proof (Hl j k Hj) as H. assert (Ep : server_part (S n) b j = server_part n [] j).
    { unfold server_part. destruct (Nat.eqb_spec (S j) (S n)) as [Ej|Ej].
      - assert (j = n) as -> by lia. rewrite (proj2 (Nat.eqb_neq (S n) n)), (proj2 (Nat.ltb_ge n n)) by lia. by rewrite Eb.
      - destruct (Nat.ltb_spec j (S n)), (Nat.ltb_spec j n); try lia; by destruct (S j =? n)%nat eqn:E; [apply Nat.eqb_eq in E|]; try lia. }
    rewrite Ep. by destruct j as [|[|]].
Qed.

Lemma inv_client r w w' : inv w -> client_exec cap backlog T r w = Some w' -> inv w'.
Proof.
  intros I. pose proof (inv_parts _ I) as (cb & sb & Ec & Es & H0 & H0' & Hl). unfold client_exec. destruct cb as [|i cb].
  - cbn [app] in Ec. destruct (client_parts !! length (conns w)) as [b|] eqn:Eb.
    + rewrite Ec, (client_later_S _ _ Eb). case_match; [|done]. intros [= <-]. apply inv_connect; try done. by exists sb.
    + rewrite Ec. unfold client_later. apply lookup_ge_None in Eb. by rewrite drop_ge.
  - pose proof (inv_cur _ I) as [Cc _]. assert (Hn : length (conns w) <> O) by (intros E; by apply H0 in E). destruct (lookup_lt_is_Some_2 (conns w) (pred (length (conns w))) ltac:(lia)) as [k Hk].
    pose proof (Hl _ _ Hk) as Hloc. unfold client_part in Hloc. rewrite (Nat.succ_pred _ Hn), Nat.eqb_refl in Hloc. apply local_heads in Hloc as [Hh _]. pose proof (inv_client_io r w i cb k I Hk ltac:(by exists sb)) as M.
    rewrite Ec. cbn [app]. destruct i; try (by destruct (Hh cb)); rewrite Cc, Hk; cbn [mbind option_bind]; destruct (client_io _ _ _ _ _ _ _) as [| |k' c']; try done; rewrite Cc in M; by intros [= <-].
Qed.

Lemma inv_server r w w' : inv w -> server_exec cap T r w = Some w' -> inv w'.
Proof.
  intros I. pose proof (inv_parts _ I) as (cb & sb & Ec & Es & H0 & H0' & Hl). pose proof (inv_order _ I) as Ho. unfold server_exec. destruct sb as [|i sb].
  - cbn [app] in Es. destruct (server_parts !! accepted w) as [b|] eqn:Eb.
    + rewrite Es, (server_later_S _ _ Eb). case_match eqn:Elt; [|done]. apply Nat.ltb_lt in Elt. intros [= <-]. apply inv_accept; try done. by exists cb.
    + rewrite Es. unfold server_later. apply lookup_ge_None in Eb. by rewrite drop_ge.
  - pose proof (inv_cur _ I) as [_ Cs]. assert (Hn : accepted w <> O) by (intros E; by apply H0' in E). destruct (lookup_lt_is_Some_2 (conns w) (pred (accepted w)) ltac:(lia)) as [k Hk].
    pose proof (Hl _ _ Hk) as Hloc. unfold server_part in Hloc. rewrite (Nat.succ_pred _ Hn), Nat.eqb_refl in Hloc. apply local_heads in Hloc as [_ Hh]. pose proof (inv_server_io r w i sb k I Hk ltac:(lia) ltac:(by exists cb)) as M.
    rewrite Es. cbn [app]. destruct i; try (by destruct (Hh sb)); rewrite Cs, Hk; cbn [mbind option_bind]; destruct (server_io _ _ _ _ _ _ _) as [| |k' s']; try done; rewrite Cs in M; by intros [= <-].
Qed.

Lemma inv_start sbuf : length sbuf = T -> inv (run_transport T rounds chunks churn sbuf).
Proof.
  intros Hl. split; cbn; try done.
  - split; [|apply length_replicate]. apply Forall_replicate. done.
  - lia.
  - exists [], []. rewrite client_suite_parts, server_loop_parts. done.
Qed.

Lemma inv_reach w w' : rtc (step cap backlog T) w w' -> inv w -> inv w'.
Proof. induction 1 as [|w w1 w2 Hs _ IH]; [done|]. intros I. apply IH. destruct Hs as [r w w1 _ E|r w w1 _ E]; [by apply (inv_client r w) | by apply (inv_server r w)]. Qed.

(** ** Nobody waits forever *)

Lemma client_can_step w i p q k : dead w = false -> code (client w) = (i :: p) ++ q -> i <> Connect -> conns w !! cur (client w) = Some k -> can (fun r => client_io cap T r i p k (client w)) -> exists w', step cap backlog T w w'.
Proof.
  intros Hd Ec Hh Hk (r & k' & c' & E). eexists. apply (step_client _ _ _ r); [done|]. unfold client_exec. rewrite Ec. cbn [app]. assert (F : client_io cap T r i (p ++ q) k (client w) = Moves k' (c' <| code := code c' ++ q |>)) by (by rewrite client_io_frame, E).
  destruct i; try (by destruct Hh); rewrite Hk; cbn [mbind option_bind]; by rewrite F.
Qed.

Lemma server_can_step w i p q k : dead w = false -> code (server w) = (i :: p) ++ q -> i <> Accept -> conns w !! cur (server w) = Some k -> can (fun r => server_io cap T r i p k (server w)) -> exists w', step cap backlog T w w'.
Proof.
  intros Hd Ec Hh Hk (r & k' & c' & E). eexists. apply (step_server _ _ _ r); [done|]. unfold server_exec. rewrite Ec. cbn [app]. assert (F : server_io cap T r i (p ++ q) k (server w) = Moves k' (c' <| code := code c' ++ q |>)) by (by rewrite server_io_frame, E).
  destruct i; try (by destruct Hh); rewrite Hk; cbn [mbind option_bind]; by rewrite F.
Qed.

Lemma local_goes_on n cb sb k c s : local n cb sb k c s -> cb <> [] \/ sb <> [] -> goes_on cb sb k c s.
Proof. destruct n as [|[|n]]; [apply ping_goes_on | apply stream_goes_on | apply ended_goes_on]. Qed.

Lemma inv_progress w : inv w -> (exists w', step cap backlog T w w') \/ (code (client w) = [] /\ code (server w) = [] /\ length (conns w) = parts).
Proof.
  intros I. pose proof (inv_parts _ I) as (cb & sb & Ec & Es & H0 & H0' & Hl). pose proof (inv_order _ I) as Ho. destruct (inv_cur _ I) as [Cc Cs]. pose proof (inv_alive _ I) as Hd. destruct (decide (accepted w < length (conns w))%nat) as [Hlt|Hge].
  - left. destruct sb as [|i sb].
    + destruct (lookup_lt_is_Some_2 server_parts (accepted w)) as [b Eb]; [rewrite (proj2 length_parts); lia|]. eexists. apply (step_server _ _ _ 0); [done|]. unfold server_exec. rewrite Es. cbn [app]. rewrite (server_later_S _ _ Eb), (proj2 (Nat.ltb_lt _ _) Hlt). done.
    + assert (Hn : accepted w <> O) by (intros E; by apply H0' in E). destruct (lookup_lt_is_Some_2 (conns w) (pred (accepted w)) ltac:(lia)) as [k Hk]. pose proof (Hl _ _ Hk) as H. unfold client_part, server_part in H. rewrite (Nat.succ_pred _ Hn), Nat.eqb_refl, (proj2 (Nat.eqb_neq _ _)) in H by lia.
      pose proof (proj2 (local_heads _ _ _ _ _ _ H)) as Hh. destruct (local_goes_on _ _ _ _ _ _ H ltac:(by right)) as [(? & ? & ? & _)|(i' & p' & [= <- <-] & Hc)]; [done|]. apply (server_can_step w i sb (server_later (accepted w)) k); try done; [intros ->; by apply (Hh sb) | by rewrite Cs].
  - assert (Ea : accepted w = length (conns w)) by lia. destruct (decide (cb = [] /\ sb = [])) as [[-> ->]|Hne].
    + cbn [app] in Ec, Es. destruct (client_parts !! length (conns w)) as [b|] eqn:Eb.
      * left. eexists. apply (step_client _ _ _ 0); [done|]. unfold client_exec. rewrite Ec, (client_later_S _ _ Eb), Ea, Nat.sub_diag, (proj2 (Nat.ltb_lt _ _) Hback). done.
      * right. apply lookup_ge_None in Eb. rewrite Ec, Es, Ea. unfold client_later, server_later. rewrite !drop_ge by (rewrite ?(proj2 length_parts), <- ?(proj1 length_parts); done). pose proof (proj1 length_parts). split_and!; done || lia.
    + left. destruct (decide (length (conns w) = O)) as [En|En]; [exfalso; apply Hne; split; [by apply H0 | apply H0'; lia]|]. destruct (lookup_lt_is_Some_2 (conns w) (pred (length (conns w))) ltac:(lia)) as [k Hk]. pose proof (Hl _ _ Hk) as H. unfold client_part, server_part in H. rewrite Ea, (Nat.succ_pred _ En), Nat.eqb_refl in H. destruct (local_heads _ _ _ _ _ _ H) as [Hh1 Hh2].
      assert (Hor : cb <> [] \/ sb <> []) by (destruct cb; [right; intros ->; by apply Hne | by left]). destruct (local_goes_on _ _ _ _ _ _ H Hor) as [(i & p & -> & Hc)|(i & p & -> & Hc)].
      * apply (client_can_step w i p (client_later (length (conns w))) k); try done; [intros ->; by apply (Hh1 p) | by rewrite Cc].
      * apply (server_can_step w i p (server_later (accepted w)) k); try done; [intros ->; by apply (Hh2 p) | by rewrite Cs, Ea].
Qed.

(** What is left to do: calls, bytes to write (counted twice), and bytes under way. *)
Definition cost (i : cmd) : nat := match i with WriteFull _ rem | Stream _ rem | SendAck _ rem => S (2 * rem) | _ => 1%nat end.
Definition code_cost (p : list cmd) : nat := sum_list_with cost p.
Definition under_way (k : conn) : nat := (length (up k) + length (down k))%nat.
Definition work (w : world) : nat := (code_cost (code (client w)) + code_cost (code (server w)) + sum_list_with under_way (conns w))%nat.

Lemma io_cost r i p k c :
  match client_io cap T r i p k c with Moves k' c' => (code_cost (code c') + under_way k' < code_cost (i :: p) + under_way k)%nat | _ => True end /\
  match server_io cap T r i p k c with Moves k' c' => (code_cost (code c') + under_way k' < code_cost (i :: p) + under_way k)%nat | _ => True end.
Proof.
  unfold under_way, code_cost. split; unfold client_io, server_io; destruct i; repeat case_match; try done; simplify_eq/=; try (match goal with H : moves _ _ _ = true |- _ => apply moves_spec in H as (? & ? & ?) end); unfold advance; repeat case_match; cbn; rewrite ?length_app, ?length_take, ?length_drop; try lia.
Qed.

Lemma under_way_insert (l : list conn) i k k' : l !! i = Some k -> (sum_list_with under_way (<[i := k']> l) + under_way k = sum_list_with under_way l + under_way k')%nat.
Proof.
  revert i. induction l as [|a l IH]; intros [|i] E; try done.
  - injection E as ->. change (<[0%nat := k']> (k :: l)) with (k' :: l). cbn [sum_list_with]. lia.
  - specialize (IH i E). change (<[S i := k']> (a :: l)) with (a :: <[i := k']> l). cbn [sum_list_with]. lia.
Qed.

Lemma code_cost_cons i p : code_cost (i :: p) = (cost i + code_cost p)%nat.
Proof. done. Qed.

(** Every step does some of the work. *)
Lemma step_work w w' : inv w -> step cap backlog T w w' -> (work w' < work w)%nat.
Proof.
  intros I Hs. assert (I' : inv w') by (destruct Hs as [r w w' _ E|r w w' _ E]; [by apply (inv_client r w) | by apply (inv_server r w)]). apply inv_alive in I'. unfold work. destruct Hs as [r w w' _ E|r w w' _ E].
  - unfold client_exec in E. destruct (code (client w)) as [|i p] eqn:Ec; [done|]. assert (Hio : forall k, conns w !! cur (client w) = Some k -> match client_io cap T r i p k (client w) with Blocks => None | Dies => Some (w <| dead := true |>) | Moves k' c' => Some (w <| conns := <[cur (client w) := k']> (conns w) |> <| client := c' |>) end = Some w' -> (code_cost (code (client w')) + code_cost (code (server w')) + sum_list_with under_way (conns w') < code_cost (i :: p) + code_cost (code (server w)) + sum_list_with under_way (conns w))%nat).
    { intros k Hk. pose proof (proj1 (io_cost r i p k (client w))) as C. destruct (client_io _ _ _ _ _ _ _) as [| |k' c']; [done | intros [= <-]; done|]. intros [= <-]. pose proof (under_way_insert _ _ _ k' Hk). enough ((code_cost (code c') + code_cost (code (server w)) + sum_list_with under_way (<[cur (client w) := k']> (conns w)) < code_cost (i :: p) + code_cost (code (server w)) + sum_list_with under_way (conns w))%nat) by done. lia. }
    destruct i; try (destruct (conns w !! cur (client w)) as [k|] eqn:Hk; [by apply (Hio k)|done]). case_match; [|done]. injection E as <-. cbn. rewrite sum_list_with_app. cbn. unfold code_cost. cbn. lia.
  - unfold server_exec in E. destruct (code (server w)) as [|i p] eqn:Ec; [done|]. assert (Hio : forall k, conns w !! cur (server w) = Some k -> match server_io cap T r i p k (server w) with Blocks => None | Dies => Some (w <| dead := true |>) | Moves k' c' => Some (w <| conns := <[cur (server w) := k']> (conns w) |> <| server := c' |>) end = Some w' -> (code_cost (code (client w')) + code_cost (code (server w')) + sum_list_with under_way (conns w') < code_cost (code (client w)) + code_cost (i :: p) + sum_list_with under_way (conns w))%nat).
    { intros k Hk. pose proof (proj2 (io_cost r i p k (server w))) as C. destruct (server_io _ _ _ _ _ _ _) as [| |k' c']; [done | intros [= <-]; done|]. intros [= <-]. pose proof (under_way_insert _ _ _ k' Hk). enough ((code_cost (code (client w)) + code_cost (code c') + sum_list_with under_way (<[cur (server w) := k']> (conns w)) < code_cost (code (client w)) + code_cost (i :: p) + sum_list_with under_way (conns w))%nat) by done. lia. }
    destruct i; try (destruct (conns w !! cur (server w)) as [k|] eqn:Hk; [by apply (Hio k)|done]). case_match; [|done]. injection E as <-. cbn. unfold code_cost. cbn. lia.
Qed.

Lemma steps_work n w w' : inv w -> nsteps (step cap backlog T) n w w' -> (n + work w' <= work w)%nat.
Proof.
  intros I H. revert I. induction H as [|n w w1 w2 Hs _ IH]; intros I; [lia|]. pose proof (step_work _ _ I Hs). assert (I1 : inv w1) by (apply (inv_reach w w1); [by apply rtc_once | done]). specialize (IH I1). lia.
Qed.

Lemma stream_end cc cg sc sb k : stream_ok cc cg sc [] sb k -> cc = streamed mod 2 ^ 64 /\ cg = le8 cc.
Proof.
  intros H. remember [] as cb eqn:E. destruct H as [|a cb k Hcb|o r1 o2 r2 k|o r1 sb k|cb sb k He Hcc Hg]; try done; [by destruct Hcb as [[-> _]|[-> _]]|]. split; [done|]. by rewrite Hg, Hcc.
Qed.

(** The state the benchmark ends in. *)
Definition finished (w : world) : Prop :=
  code (client w) = [] /\ code (server w) = [] /\ dead w = false /\ accepted w = length (conns w) /\
  count (client w) = streamed mod 2 ^ 64 /\ got (client w) = le8 (count (client w)) /\ buf (client w) = replicate T x.

Lemma inv_finished w : inv w -> (forall w', ~ step cap backlog T w w') -> finished w.
Proof.
  intros I Hstop. destruct (inv_progress w I) as [[w' Hs]|(Ec & Es & En)]; [by destruct (Hstop w')|]. pose proof (inv_parts _ I) as (cb & sb & Ec' & Es' & _ & _ & Hl). pose proof (inv_order _ I) as Ho. rewrite Ec in Ec'. symmetry in Ec'. apply app_eq_nil in Ec' as [-> _].
  assert (Ea : accepted w = length (conns w)).
  { destruct (decide (accepted w = length (conns w))) as [|Hne]; [done|]. exfalso. destruct (lookup_lt_is_Some_2 server_parts (accepted w)) as [b Eb]; [rewrite (proj2 length_parts); lia|]. rewrite Es, (server_later_S _ _ Eb) in Es'. by destruct sb. }
  destruct (lookup_lt_is_Some_2 (conns w) 1 ltac:(rewrite En; unfold parts; lia)) as [k Hk]. pose proof (Hl 1%nat k Hk) as H. assert (Ep : client_part (length (conns w)) [] 1 = []) by (unfold client_part; by destruct (_ =? _)%nat). rewrite Ep in H. apply stream_end in H as [H1 H2].
  split_and!; try done; [apply I|]. destruct (inv_cbuf _ I) as [Hx Hlen]. unfold xs in Hx. rewrite Forall_forall in Hx. symmetry. by apply replicate_as_elem_of.
Qed.
End Proofs.

(** C37: The benchmark's two processes always finish, and measure what they say. For any
    buffer sizes and backlog of the kernel, any rounds of at most a chunk, any number of
    chunks and of connections, however the two processes are interleaved and however short
    their reads and writes are: no run is longer than the work there is to do; a state that
    is not the end always has a next step, so neither process waits for the other for ever;
    and at the end every connection was accepted, no call has failed, the client's buffer
    holds the bytes it sent, echoed back, and the count the server acknowledged is the count
    the client sent. *)
Theorem transport_run_finishes cap backlog T chunks churn rounds sbuf :
  (0 < cap)%nat -> (0 < backlog)%nat -> (0 < T)%nat -> Forall (fun s => 0 < s <= T)%nat rounds -> length sbuf = T ->
  let w0 := run_transport T rounds chunks churn sbuf in
  (forall n w, nsteps (step cap backlog T) n w0 w -> (n <= work w0)%nat) /\
  (forall w, rtc (step cap backlog T) w0 w -> (exists w', step cap backlog T w w') \/ finished T chunks w) /\
  (forall w, rtc (step cap backlog T) w0 w -> dead w = false).
Proof.
  intros Hcap Hback HT HR Hl w0. pose proof (inv_start cap backlog T chunks churn rounds Hcap Hback HT sbuf Hl) as I0. assert (HI : forall w, rtc (step cap backlog T) w0 w -> inv T chunks churn rounds w) by (intros w H; by apply (inv_reach cap backlog T chunks churn rounds Hcap Hback HT HR w0)).
  split; [intros n w H; pose proof (steps_work cap backlog T chunks churn rounds Hcap Hback HT HR n w0 w I0 H); lia|]. split; [|intros w H; by apply (HI w H)]. intros w H. destruct (inv_progress cap backlog T chunks churn rounds Hcap Hback HT w (HI w H)) as [Hs|(E1 & E2 & E3)]; [by left|]. right. apply (inv_finished cap backlog T chunks churn rounds Hcap Hback HT); [by apply HI|].
  intros w' Hs. destruct Hs as [r w w' _ E|r w w' _ E]; [unfold client_exec in E; by rewrite E1 in E | unfold server_exec in E; by rewrite E2 in E].
Qed.

(** One round, one chunk, one connection of the last phase, over one-byte buffers. *)
Lemma transport_run_finishes_witness :
  let w0 := run_transport 2 [2%nat] 1 1 [NUL; NUL] in
  work w0 = 49%nat /\ (forall n w, nsteps (step 1 1 2) n w0 w -> (n <= 49)%nat).
Proof.
  intros w0. assert (E : work w0 = 49%nat) by (by vm_compute). split; [done|]. rewrite <- E. refine (proj1 (transport_run_finishes 1 1 2 1 1 [2%nat] [NUL; NUL] _ _ _ _ _)); try (by vm_compute). all: try lia. repeat constructor; lia.
Defined.

(** The rounds the benchmark runs are within its chunk. *)
Lemma all_rounds_fit : Forall (fun s => 0 < s <= TP_CHUNK)%nat all_rounds.
Proof.
  unfold all_rounds. apply Forall_bind, Forall_forall. intros s Hs. apply Forall_replicate. unfold TP_CHUNK. unfold sizes in Hs. set_unfold in Hs.
  assert (Nat.pow 2 14 <= Nat.pow 2 16)%nat by (apply Nat.pow_le_mono_r; lia). assert (4096 <= Nat.pow 2 14)%nat by (change 4096%nat with (Nat.pow 2 12); apply Nat.pow_le_mono_r; lia). lia.
Qed.

(** ** The index of a percentile *)

Lemma pct_index_in_bounds n t : 0 < n -> 0 <= t -> 0 <= pct_index n t < n.
Proof. intros Hn Ht. unfold pct_index. destruct (Z.leb_spec n t); lia. Qed.

Lemma cmp_u64_order a b : (cmp_u64 a b < 0 <-> a < b) /\ (cmp_u64 a b = 0 <-> a = b) /\ cmp_u64 b a = - cmp_u64 a b.
Proof. unfold cmp_u64. destruct (Z.ltb_spec a b), (Z.ltb_spec b a); lia. Qed.
