(* ===== verification/Examples.v ===== *)
(** C helpers of the examples: [spawn_producer] of
    examples/async_incremental_read/producer.c over processes that share open file
    descriptions, and the epoll aggregator of examples/async_fan_out/src/fan_out.h. *)
From stdpp Require Import gmap.
From S2P Require Import Prelude.
Local Open Scope Z_scope.
Local Open Scope prog_scope.

(** ** Processes and descriptions *)

(** Open file descriptions: the two ends of a pipe, or another file. *)
Inductive file := PipeReader (pipe : nat) | PipeWriter (pipe : nat) | OtherFile.

Record description := mkDesc { d_file : file; d_nonblock : bool }.

Record fd_entry := mkEntry { e_desc : nat; e_cloexec : bool }.

Inductive action := SigDefault | SigIgnored | SigCaught.

(** A process: its descriptors and what it does with signals. *)
Record process := mkProcess { p_fds : gmap nat fd_entry; p_signal : Z -> action; p_argv : list (list byte); p_exec : list byte }.

(** The kernel: the descriptions, the calling process, the processes it spawned, and
    whether each of the next calls that can fail does. *)
Record os := mkOs { descs : gmap nat description; self : process; spawned : list process; fails : list bool }.

#[export] Instance eta_process : Eta process := mkEta _ (fun p => mkProcess (p_fds p) (p_signal p) (p_argv p) (p_exec p)).
#[export] Instance eta_os : Eta os := mkEta _ (fun s => mkOs (descs s) (self s) (spawned s) (fails s)).

Definition SIGPIPE : Z := 13.
Definition SIGCHLD : Z := 17.
Definition STDOUT_FILENO : nat := 1.

(** Whether the next call goes well; an exhausted list says it does. *)
Definition call_ok : prog os bool := fun s => match fails s with [] => (true, s) | f :: fs => (negb f, s <| fails := fs |>) end.

Definition set_fds (m : gmap nat fd_entry) : prog os unit := pmod (fun s => s <| self := (self s) <| p_fds := m |> |>).

Definition sys_close (fd : nat) : prog os unit := fun s => set_fds (delete fd (p_fds (self s))) s.

(** [pipe2(fds, O_CLOEXEC)]: two new descriptions on two descriptors not in use. *)
Definition pipe2 : prog os (option (nat * nat)) :=
  let* ok := call_ok in
  if negb ok then pret None
  else fun s =>
    let dr := fresh (dom (descs s)) in
    let ds := <[dr := mkDesc (PipeReader dr) false]> (descs s) in
    let dw := fresh (dom ds) in
    let r := fresh (dom (p_fds (self s))) in
    let m := <[r := mkEntry dr true]> (p_fds (self s)) in
    let w := fresh (dom m) in
    (Some (r, w), s <| descs := <[dw := mkDesc (PipeWriter dr) false]> ds |> <| self := (self s) <| p_fds := <[w := mkEntry dw true]> m |> |>).

(** [fcntl(fd, F_SETFL, O_NONBLOCK)] sets the flag of the description. *)
Definition set_nonblock (fd : nat) : prog os bool :=
  let* ok := call_ok in
  if negb ok then pret false
  else fun s =>
    match p_fds (self s) !! fd with
    | Some e => match descs s !! e_desc e with Some d => (true, s <| descs := <[e_desc e := mkDesc (d_file d) true]> (descs s) |>) | None => (false, s) end
    | None => (false, s)
    end.

(** The child of [posix_spawn] with one [dup2] action and signals to default: a copy of
    the caller's descriptors, the action, then [exec], which drops the descriptors marked
    close-on-exec and the signal handlers. *)
Definition child_of (p : process) (dup_from : nat) (to_default : list Z) (path : list byte) (argv : list (list byte)) : option process :=
  match p_fds p !! dup_from with
  | None => None
  | Some e =>
      let m := <[STDOUT_FILENO := mkEntry (e_desc e) false]> (p_fds p) in
      Some (mkProcess (filter (fun kv => e_cloexec kv.2 = false) m)
              (fun sg => if bool_decide (sg ∈ to_default) then SigDefault else match p_signal p sg with SigCaught => SigDefault | a => a end)
              argv path)
  end.

Definition posix_spawn (dup_from : nat) (to_default : list Z) (path : list byte) (argv : list (list byte)) : prog os bool :=
  let* ok := call_ok in
  if negb ok then pret false
  else fun s => match child_of (self s) dup_from to_default path argv with Some c => (true, s <| spawned := spawned s ++ [c] |>) | None => (false, s) end.

(** ** producer.c *)

(** The nested [if]s around [posix_spawn]: whether the child was started. *)
Definition start_child (w : nat) (sh_path script : list byte) : prog os bool :=
  let* actions_init := call_ok in
  if negb actions_init then pret false
  else
    let* attr_init := call_ok in
    if negb attr_init then pret false
    else
      let* add_dup2 := call_ok in
      if negb add_dup2 then pret false
      else
        let* set_sigdefault := call_ok in
        if negb set_sigdefault then pret false
        else
          let* set_flags := call_ok in
          if negb set_flags then pret false
          else posix_spawn w [SIGPIPE; SIGCHLD] sh_path [bytes_of "sh"; bytes_of "-c"; script].

(** [None] is -1. *)
Definition spawn_producer (sh_path script : list byte) : prog os (option nat) :=
  let* fds := pipe2 in
  match fds with
  | None => pret None
  | Some (r, w) =>
      let* ok := set_nonblock r in
      if negb ok then sys_close r ;; sys_close w ;; pret None
      else
        let* started := start_child w sh_path script in
        sys_close w ;;
        if negb started then sys_close r ;; pret None else pret (Some r)
  end.

(** ** fan_out.h *)

(** An epoll instance: its members, level-triggered, with the index in their data. *)
Definition aggregator : Type := list (nat * Z).

Definition fan_open : aggregator := [].

Definition u32 (z : Z) : Z := z mod 2 ^ 32.
Definition i32_of_u32 (z : Z) : Z := if z <? 2 ^ 31 then z else z - 2 ^ 32.

(** [EPOLL_CTL_ADD]: [None] is -1, for a descriptor already in the set. *)
Definition fan_add (agg : aggregator) (fd : nat) (idx : Z) : option aggregator :=
  if bool_decide (fd ∈ agg.*1) then None else Some (agg ++ [(fd, u32 idx)]).

(** [epoll_wait(agg, evs, max, 0)] reports members that are ready, at most [max] of them,
    in an order of its own; it fails with a negative answer. *)
Definition fan_ready (reported : option (list (nat * Z))) (max : Z) : list Z :=
  let max := if 64 <? max then 64 else max in
  match reported with
  | None => []
  | Some evs => (fun ev => i32_of_u32 (snd ev)) <$> take (Z.to_nat max) evs
  end.

(** ** The producer's pipe *)

(** Who refers to a description. *)
Definition refers (p : process) (d : nat) : Prop := exists fd e, p_fds p !! fd = Some e /\ e_desc e = d.

(** Descriptors refer to descriptions that exist. *)
Definition os_ok (s : os) : Prop := forall p d, (p = self s \/ p ∈ spawned s) -> refers p d -> d ∈ dom (descs s).

Lemma call_ok_frame s : let '(_, s') := call_ok s in descs s' = descs s /\ self s' = self s /\ spawned s' = spawned s.
Proof. unfold call_ok. by destruct (fails s). Qed.

(** The state after the pipe and its flag: [dr] and [dw] are new, [r] and [w] are theirs. *)
Record piped (s s' : os) (r w dr dw : nat) : Prop := {
  pd_new : (dr ∉ dom (descs s)) /\ (dw ∉ dom (descs s)) /\ dr <> dw;
  pd_free : p_fds (self s) !! r = None /\ p_fds (self s) !! w = None /\ r <> w;
  pd_fds : p_fds (self s') = <[w := mkEntry dw true]> (<[r := mkEntry dr true]> (p_fds (self s)));
  pd_signal : p_signal (self s') = p_signal (self s);
  pd_spawned : spawned s' = spawned s;
  pd_w : descs s' !! dw = Some (mkDesc (PipeWriter dr) false)
}.

Lemma pipe2_spec s : let '(o, s') := pipe2 s in
  match o with
  | None => self s' = self s /\ spawned s' = spawned s /\ descs s' = descs s
  | Some (r, w) => exists dr dw, piped s s' r w dr dw /\ descs s' !! dr = Some (mkDesc (PipeReader dr) false)
  end.
Proof.
  unfold pipe2, pbind. pose proof (call_ok_frame s) as H. destruct (call_ok s) as [ok s1]. destruct H as (Hd & Hs & Hc). destruct ok; cbn [negb fst snd]; [|done].
  cbv beta iota zeta. rewrite Hd, Hs. set (dr := fresh (dom (descs s))). set (ds := <[dr := _]> (descs s)). set (dw := fresh (dom ds)). set (r := fresh (dom (p_fds (self s)))). set (m := <[r := _]> (p_fds (self s))). set (w := fresh (dom m)).
  assert (Hdr : dr ∉ dom (descs s)) by apply is_fresh. assert (Hdw : dw ∉ dom ds) by apply is_fresh. assert (Hr : r ∉ dom (p_fds (self s))) by apply is_fresh. assert (Hw : w ∉ dom m) by apply is_fresh. unfold ds in Hdw. unfold m in Hw. rewrite dom_insert in Hdw. rewrite dom_insert in Hw. apply not_elem_of_union in Hdw as [H1 H2]. apply not_elem_of_union in Hw as [H3 H4]. apply not_elem_of_singleton in H1, H3.
  exists dr, dw. split; [split|]; cbn.
  - split; [done|]. split; [done|]. congruence.
  - split; [by apply not_elem_of_dom|]. split; [by apply not_elem_of_dom|]. congruence.
  - done.
  - done.
  - done.
  - apply lookup_insert_eq.
  - rewrite lookup_insert_ne by congruence. apply lookup_insert_eq.
Qed.

Lemma set_nonblock_piped s s1 r w dr dw : piped s s1 r w dr dw -> descs s1 !! dr = Some (mkDesc (PipeReader dr) false) ->
  let '(ok, s2) := set_nonblock r s1 in piped s s2 r w dr dw /\ (ok = true -> descs s2 !! dr = Some (mkDesc (PipeReader dr) true)).
Proof.
  intros [N F D G S W] Hr. unfold set_nonblock, pbind. pose proof (call_ok_frame s1) as H. destruct (call_ok s1) as [ok s2]. destruct H as (Hd & Hs & Hc). destruct ok; cbn [negb fst snd]; [|unfold pret; split; [|done]; split; rewrite ?Hs, ?Hc, ?Hd; done].
  cbv beta. rewrite Hs, D, lookup_insert_ne, lookup_insert_eq by (destruct F as (_ & _ & ?); congruence). cbn [e_desc]. rewrite Hd, Hr. split; [|intros _; cbn; apply lookup_insert_eq]. split; cbn; rewrite ?Hs, ?Hc; try done. rewrite lookup_insert_ne by (destruct N as (_ & _ & ?); congruence). done.
Qed.

(** The calls that only prepare the spawn. *)
Definition prepared (s s' : os) : Prop := descs s' = descs s /\ self s' = self s /\ spawned s' = spawned s.

Lemma start_child_spec s w path script : let '(ok, s') := start_child w path script s in
  descs s' = descs s /\ self s' = self s /\
  if ok then exists c, child_of (self s) w [SIGPIPE; SIGCHLD] path [bytes_of "sh"; bytes_of "-c"; script] = Some c /\ spawned s' = spawned s ++ [c] else spawned s' = spawned s.
Proof.
  unfold start_child, posix_spawn, pbind.
  do 6 (match goal with |- context [call_ok ?x] => let H := fresh in pose proof (call_ok_frame x) as H; destruct (call_ok x) as [[] ?]; destruct H as (? & ? & ?) end; cbn [negb fst snd]; [|unfold pret; split_and!; congruence]).
  cbv beta. destruct (child_of _ _ _ _ _) as [c|] eqn:E; [|split_and!; congruence]. split; [cbn; congruence|]. split; [cbn; congruence|]. exists c. split; [congruence|]. cbn. congruence.
Qed.

Lemma close_fds fd s : sys_close fd s = (tt, s <| self := (self s) <| p_fds := delete fd (p_fds (self s)) |> |>).
Proof. done. Qed.

(** The descriptors with the pipe's two ends, one and both of them closed. *)
Lemma close_ends (m : gmap nat fd_entry) r w er ew : m !! r = None -> m !! w = None -> r <> w ->
  delete w (<[w := ew]> (<[r := er]> m)) = <[r := er]> m /\ delete r (<[r := er]> m) = m /\ delete w (delete r (<[w := ew]> (<[r := er]> m))) = m.
Proof.
  intros Hr Hw Hn. assert (Hw' : <[r := er]> m !! w = None) by (by rewrite lookup_insert_ne). split; [by rewrite delete_insert_id|]. split; [by rewrite delete_insert_id|]. rewrite delete_delete, (delete_insert_id (<[r := er]> m)) by done. by rewrite delete_insert_id.
Qed.

(** A descriptor of the child: its standard output, or one the caller had and did not mark. *)
Lemma child_fds p r w dr dw c path argv sigs fd e : p_fds p !! r = None -> p_fds p !! w = None -> r <> w ->
  child_of (p <| p_fds := <[w := mkEntry dw true]> (<[r := mkEntry dr true]> (p_fds p)) |>) w sigs path argv = Some c ->
  p_fds c !! fd = Some e -> (fd = STDOUT_FILENO /\ e = mkEntry dw false) \/ p_fds p !! fd = Some e.
Proof.
  intros Hr Hw Hn. unfold child_of. cbn [p_fds]. change (p_fds (p <| p_fds := ?m |>)) with m. rewrite lookup_insert_eq. intros [= <-]. cbn [p_fds e_desc]. intros [He Hc]%map_lookup_filter_Some. cbn in Hc. destruct (decide (fd = STDOUT_FILENO)) as [->|N1]; [rewrite lookup_insert_eq in He; left; by simplify_eq|].
  rewrite lookup_insert_ne in He by done. destruct (decide (fd = w)) as [->|N2]; [rewrite lookup_insert_eq in He; by simplify_eq|]. rewrite lookup_insert_ne in He by done. destruct (decide (fd = r)) as [->|N3]; [rewrite lookup_insert_eq in He; by simplify_eq|]. rewrite lookup_insert_ne in He by done. by right.
Qed.

(** C38: A producer is started with its pipe and nothing else, or not at all. When
    [spawn_producer] fails, the caller has the descriptors it had and nothing was spawned.
    When it succeeds, the caller has one descriptor more, the non-blocking read end of a new
    pipe; one process was spawned, running the shell on the script with SIGPIPE and SIGCHLD
    at their defaults; its standard output is the blocking write end of that pipe, which no
    other descriptor of any process refers to, so the reader sees the end of the stream when
    the producer exits; and the producer has no copy of the read end, so it cannot outlive
    its reader. *)
Theorem spawn_producer_pipe path script s : os_ok s ->
  let '(r, s') := spawn_producer path script s in
  match r with
  | None => p_fds (self s') = p_fds (self s) /\ spawned s' = spawned s
  | Some r =>
      exists dr dw c, p_fds (self s) !! r = None /\ p_fds (self s') = <[r := mkEntry dr true]> (p_fds (self s)) /\
        descs s' !! dr = Some (mkDesc (PipeReader dr) true) /\ descs s' !! dw = Some (mkDesc (PipeWriter dr) false) /\
        spawned s' = spawned s ++ [c] /\ p_exec c = path /\ p_argv c = [bytes_of "sh"; bytes_of "-c"; script] /\
        p_signal c SIGPIPE = SigDefault /\ p_signal c SIGCHLD = SigDefault /\
        p_fds c !! STDOUT_FILENO = Some (mkEntry dw false) /\
        (forall fd e, p_fds c !! fd = Some e -> e_desc e = dw -> fd = STDOUT_FILENO) /\
        (forall p, p = self s' \/ p ∈ spawned s -> ~ refers p dw) /\ ~ refers c dr
  end.
Proof.
  intros Hok. unfold spawn_producer, pbind. pose proof (pipe2_spec s) as H. destruct (pipe2 s) as [[[r w]|] s1]; cbn [fst snd]; [|unfold pret; destruct H as (-> & -> & _); done].
  destruct H as (dr & dw & P & Hdr). pose proof (set_nonblock_piped _ _ _ _ _ _ P Hdr) as H. destruct (set_nonblock r s1) as [ok s2]; cbn [fst snd]. destruct H as [P2 Hnb]. destruct ok; cbn [negb fst snd].
  2: { unfold pret, sys_close, set_fds, pmod. cbn. destruct P2 as [N (F1 & F2 & F3) D G S W]. rewrite D, S. split; [|done]. by apply close_ends. }
  pose proof (start_child_spec s2 w path script) as H. destruct (start_child w path script s2) as [started s3]; cbn [fst snd]. destruct H as (Hd3 & Hs3 & Hst). destruct P2 as [(N1 & N2 & N3) (F1 & F2 & F3) D G S W]. destruct (close_ends (p_fds (self s)) r w (mkEntry dr true) (mkEntry dw true) F1 F2 F3) as (C1 & C2 & _).
  destruct started; cbn [negb]; unfold pret, sys_close, set_fds, pmod; cbn; rewrite Hs3, D, C1.
  2: { by rewrite C2, Hst. }
  destruct Hst as (c & Hc & Hsp). assert (Hnew : forall p d, p = self s \/ p ∈ spawned s -> (d ∉ dom (descs s)) -> ~ refers p d) by (intros p d Hp Hd Hr; by apply Hd, (Hok p d)).
  assert (Hchild : forall fd e, p_fds c !! fd = Some e -> (fd = STDOUT_FILENO /\ e = mkEntry dw false) \/ p_fds (self s) !! fd = Some e).
  { intros fd e. apply (child_fds (self s) r w dr dw c path [bytes_of "sh"; bytes_of "-c"; script] [SIGPIPE; SIGCHLD]); try done. rewrite <- Hc. unfold child_of. cbn. by rewrite D, G. }
  exists dr, dw, c. rewrite Hd3, Hsp, S. unfold child_of in Hc. rewrite D, lookup_insert_eq in Hc. injection Hc as <-. cbn [p_exec p_argv p_signal p_fds e_desc] in *.
  split_and!; try done; [by apply Hnb | apply map_lookup_filter_Some; by rewrite lookup_insert_eq | | |].
  - intros fd e He Ed. destruct (Hchild fd e He) as [[? _]|He']; [done|]. exfalso. apply (Hnew (self s) dw); [by left | done|]. by exists fd, e.
  - intros p [->|Hp]; [|apply (Hnew p dw); [by right | done]]. intros (fd & e & He & Ed). cbn in He. destruct (decide (fd = r)) as [->|]; [rewrite lookup_insert_eq in He; by simplify_eq/=|]. rewrite lookup_insert_ne in He by done. apply (Hnew (self s) dw); [by left | done|]. by exists fd, e.
  - intros (fd & e & He & Ed). destruct (Hchild fd e He) as [[_ ->]|He']; [by apply N3|]. apply (Hnew (self s) dr); [by left | done|]. by exists fd, e.
Qed.

(** A process with standard output open. *)
Definition demo_os : os :=
  mkOs {[0%nat := mkDesc OtherFile false]} (mkProcess {[1%nat := mkEntry 0 false]} (fun _ => SigIgnored) [] []) [] [].

Lemma demo_os_ok : os_ok demo_os.
Proof. intros p d [->|Hp]; [|by apply not_elem_of_nil in Hp]. intros (fd & e & He & <-). cbn in He. apply lookup_singleton_Some in He as [_ <-]. set_solver. Qed.

Lemma spawn_producer_pipe_witness : exists r s', spawn_producer (bytes_of "/bin/sh") (bytes_of "date") demo_os = (Some r, s') /\ length (spawned s') = 1%nat.
Proof.
  pose proof (spawn_producer_pipe (bytes_of "/bin/sh") (bytes_of "date") demo_os demo_os_ok) as H. destruct (spawn_producer _ _ demo_os) as [[r|] s'] eqn:E.
  - exists r, s'. split; [done|]. destruct H as (_ & _ & c & _ & _ & _ & _ & -> & _). done.
  - exfalso. clear H. assert (Hn : match fst (spawn_producer (bytes_of "/bin/sh") (bytes_of "date") demo_os) with Some _ => true | None => false end = false) by (by rewrite E). by vm_compute in Hn.
Defined.

(** ** The aggregator *)

(** Members added one after the other; [None] once one could not be. *)
Definition fan_all (members : list (nat * Z)) (agg : aggregator) : option aggregator :=
  foldl (fun o m => agg ← o; fan_add agg (fst m) (snd m)) (Some agg) members.

Lemma fan_all_spec members agg : Forall (fun m => 0 <= snd m < 2 ^ 31) members -> fan_all members agg = if decide (NoDup members.*1 /\ Forall (fun m => fst m ∉ agg.*1) members) then Some (agg ++ members) else None.
Proof.
  unfold fan_all. revert agg. induction members as [|[fd idx] members IH]; intros agg Hm; cbn [foldl].
  { rewrite decide_True by (split; constructor). by rewrite app_nil_r. }
  apply Forall_cons in Hm as [Hi Hm]. cbn [fst snd mbind option_bind] in *. unfold fan_add. case_bool_decide as Hin.
  { rewrite decide_False by (intros [_ Hf]; by apply Forall_cons in Hf as [? _]). clear. induction members; [done|]. cbn. done. }
  rewrite IH by done. unfold u32. rewrite Z.mod_small by lia. rewrite fmap_app. cbn [fmap list_fmap fst]. destruct (decide (NoDup members.*1 /\ _)) as [[H1 H2]|H1]; destruct (decide (NoDup (fd :: members.*1) /\ _)) as [[H3 H4]|H3]; try done.
  - by rewrite <- app_assoc.
  - exfalso. apply H3. split; [constructor; [|done] | constructor; [done|]].
    + intros He. apply list_elem_of_fmap in He as (m & -> & Hm'). rewrite Forall_forall in H2. apply (H2 m Hm'). rewrite elem_of_app, list_elem_of_singleton. by right.
    + eapply Forall_impl; [exact H2|]. intros m Hnot Hag. apply Hnot. rewrite elem_of_app. by left.
  - exfalso. apply H1. apply NoDup_cons in H3 as [H3 H5]. split; [done|]. apply Forall_cons in H4 as [_ H4]. rewrite Forall_forall in H4 |- *. intros m Hm'. rewrite elem_of_app, list_elem_of_singleton. intros [He|He]; [by apply (H4 m)|]. apply H3. rewrite <- He. by apply list_elem_of_fmap_2.
Qed.

(** A fan-out wake names exactly the members the kernel reported. Members with indices
    from 0 to 2^31 - 1 and distinct descriptors are all added, and when the wait reports
    some of them, [fan_ready] yields their indices in the order reported, at most [max] and
    at most 64 of them; a failed wait yields none. *)
Theorem fan_ready_indices members reported max :
  Forall (fun m => 0 <= snd m < 2 ^ 31) members -> NoDup members.*1 ->
  exists agg, fan_all members [] = Some agg /\ (reported ⊆ agg -> reported ⊆ members /\ fan_ready (Some reported) max = snd <$> take (Z.to_nat (Z.min max 64)) reported) /\ fan_ready None max = [].
Proof.
  intros Hm Hn. exists members. rewrite fan_all_spec by done. rewrite decide_True by (split; [done | apply Forall_forall; set_solver]). split; [done|]. split; [|done]. intros Hr. split; [done|]. unfold fan_ready. assert (Em : (if 64 <? max then 64 else max) = Z.min max 64) by (destruct (Z.ltb_spec 64 max); lia). rewrite Em. apply list_fmap_ext. intros i m Hi.
  assert (Hin : m ∈ members) by (apply Hr; apply list_elem_of_lookup_2 in Hi; by apply elem_of_take in Hi as (k & Hk & _); apply list_elem_of_lookup_2 in Hk). rewrite Forall_forall in Hm. specialize (Hm m Hin). unfold i32_of_u32. by rewrite (proj2 (Z.ltb_lt _ _)) by lia.
Qed.
